(* ===== verification/_CoqProject ===== *)
-Q . S2P
Prelude.v
Status.v
Host.v
FdTable.v
Machine.v
FdOps.v
FdControl.v
FdIO.v
FdInvariant.v
FdSections.v
FdHandlers.v
FdTransfer.v
FdRefine.v
FdCalls.v
Demo.v
FdTheorems.v
FdConcurrent.v
FdFork.v
FdForkTheorems.v
VmaLedger.v
VmaReaders.v
VmaIntervals.v
VmaOps.v
VmaInvariant.v
VmaMap.v
VmaCalls.v
VmaSteps.v
VmaReads.v
VmaTheorems.v
GuestAccess.v
SeccompVm.v
SeccompProofs.v
SeccompFilters.v
SeccompInvariant.v
RangeLedger.v
RangeProofs.v
GuestRanges.v
GuestRangesSteps.v
BusLedger.v
BusSteps.v
RegistryTheorems.v
GuestCopy.v
GuestProbes.v
GuestCopies.v
GuestCopyTheorems.v
SeccompTheorems.v
Authority.v
AuthorityInvariant.v
AuthorityTheorems.v
GuestFetch.v
GuestFetchWalk.v
GuestFetchTheorems.v
Carve.v
GuestMaps.v
GuestMapsProofs.v
GuestMapsTheorems.v
MemoryRegistries.v
Watch.v
WatchSpec.v
WatchSteps.v
WatchTheorems.v
Futex.v
FutexSystem.v
FutexBuckets.v
FutexSteps.v
FutexWakes.v
FutexPi.v
FutexTheorems.v
MemoryCalls.v
MemoryProofs.v
MemoryTheorems.v
Signals.v
SignalDelivery.v
SignalCalls.v
SignalProofs.v
SignalInvariant.v
SignalTheorems.v
Inotify.v
InotifyProofs.v
InotifyTheorems.v
