(* ===== verification/Prelude.v ===== *)
(** * Husklet: the Linux personality and its guest memory

    Husklet runs Linux programs of another machine: a translator
    ([translator/]) turns guest code into host code, and a Linux personality
    ([linux_abi/]) answers the guest's system calls on a host it reaches only
    through tables of function pointers ([include/hl/host_services.h]).  Paths
    are relative to [src/src/runtime/hl-native/src/native/].  This library
    models the parts of that C code which decide what a guest process sees:
    its descriptors, its memory and the bytes it executes, its seccomp
    filters, its file watches and inotify objects, its futexes and its signals.

    ** The parts and how they interact

    - The descriptor table.  A guest descriptor names an open-file-description
      slot; slots are reference counted, pinned by operations in flight and
      closed by the last of them.  System calls enter through [FdOps],
      [FdControl] and [FdIO]; fork snapshots it ([FdFork]).
    - The logical VMA ledger.  Guest intervals over shared host backings.  A
      mutation edits an array of entries and publishes a sorted immutable
      snapshot under a new generation; readers search the snapshot.
    - The protection registries and the past-EOF ledger.  Interval arrays which
      say which guest bytes are inaccessible, read-only, not executable, or
      beyond the end of the mapped file, with caches and filters in front.
    - The userspace accessors.  [copy_from_user] and [copy_to_user] consult all
      of these before they touch a byte, and drop translations of what they
      wrote.  Seccomp reads its programs through them ([GuestAccess]).
    - Instruction fetch and the authority word.  The translator fetches guest
      code through remembered spans of the ledger; a writer of a mapping and a
      publisher of translated code exclude each other through one atomic word.
    - Seccomp.  Classic BPF programs run by a virtual machine in front of every
      system call, kept per task and copied to new tasks.
    - The watch set.  Files under observation, named by tokens that carry a
      slot and its generation, with a queue of changes.
    - Inotify.  A typed object behind a descriptor: watches under descriptors
      that are never reused, and a queue of records which a host provider
      feeds and the guest reads; a checkpoint saves and restores both.
    - Futexes.  A table of buckets in memory shared by all processes and a
      private one per process; a word is named by its address or, in a shared
      file mapping, by its file position, which a registry fed by mmap and
      munmap gives.
    - Guest mappings and the memory calls.  A registry of the mappings the guest
      made, of the host mappings behind them and of what is locked; arrays of
      the private anonymous ranges, the file mappings and the ranges a fork
      treats specially.  [munmap], [mprotect], [madvise], [brk] and the locks
      change them together with the ledger and the protection registries.
    - Signals.  Pending words of the process and of each thread, with queues of
      their siginfo; the dispatcher polls the words between blocks of guest code,
      builds a frame on the guest's stack for the highest signal it may deliver,
      and restores from it when the handler returns.

    ** Files

    - Prelude: machine integers, list and option lemmas, the tactics
      [bool_props], [div_lia] and their kin, the hint databases.
    - Status, Host: [include/hl/base.h], [include/hl/linux_abi.h],
      [linux_abi/object.h]; the host seams as records of functions.
    - FdTable, Machine, FdOps, FdControl, FdIO: the state of
      [linux_abi/context.c] and every entry of [descriptor_install.c],
      [descriptor_reservation.c], [descriptor_lifecycle.c],
      [descriptor_control.c], [stream_read.c], [stream_write.c],
      [file_control.c], [file_metadata.c], each one Definition in a state monad
      that is [None] on undefined behaviour.  FdInvariant, FdSections: the
      ownership invariant, one lemma per critical section, the calculus.
      FdHandlers, FdTransfer: one lemma per handler.
      FdRefine: the abstract descriptor map and the refinement.
      FdCalls, Demo, FdTheorems: the interface as a datatype, a concrete host,
      the properties.  FdConcurrent: critical sections interleaved.
    - FdFork, FdForkTheorems: [object_access.c], [fork_snapshot.c],
      [fork_completion.c].
    - VmaLedger, VmaReaders: [linux_abi/logical_vma.c].  VmaIntervals,
      VmaOps, VmaInvariant (with the binary search of a snapshot), VmaMap, VmaCalls,
      VmaSteps (with the generations), VmaReads: the invariant and what each loop
      computes.  VmaTheorems: the properties.
    - GuestAccess: what copies promise to a system call, as a type class.
    - SeccompVm ([seccomp_vm.c], and the reference semantics on decoded
      instructions), SeccompProofs; SeccompFilters ([seccomp.c], the
      registry of [thread/lifecycle.c], [syscall/rare.c],
      [syscall/process/control.c]), SeccompInvariant, SeccompTheorems.
    - RangeLedger, RangeProofs: the interval arrays;
      GuestRanges, GuestRangesSteps:
      the three registries of [thread/bus_ranges.c] and their caches;
      BusLedger, BusSteps: the past-EOF
      ledger of [thread/bus_ranges.c] and [thread/file_mapping.c];
      RegistryTheorems: the properties of both.
    - GuestCopy, GuestProbes, GuestCopies, GuestCopyTheorems:
      [syscall/guest_copy.c] and the probes of [thread/fault_wait.c].
    - Authority, AuthorityInvariant, AuthorityTheorems: the authority word of [translator/guest_fetch.c], one
      atomic access per step.
    - GuestFetch, GuestFetchWalk, GuestFetchTheorems: the fetch
      of [translator/guest_fetch.c].
    - Watch, WatchSpec, WatchSteps, WatchTheorems: [linux_abi/watch.c], the abstract map from tokens to
      watches and the refinement.
    - Inotify: [linux_abi/inotify.c], over a provider that is a record of
      functions.  InotifyProofs: the queue as a list of events, the invariant
      of the object's history.  InotifyTheorems: the image and the properties.
    - Futex (buckets and keys of [thread/futex_mapping.c], with what the [mmap]
      of [syscall/memory/map.c] tells the registry of keys), FutexSystem
      (threads, [futex_op] and the teardown wakes of [thread/fault_wait.c],
      [syscall/process/futex.c]), FutexBuckets, FutexSteps,
      FutexWakes, FutexPi, FutexTheorems.
    - Carve: arrays of records that cover intervals and can be cut, with the
      pass over an array that every registry of mappings makes.
      GuestMaps, GuestMapsProofs, GuestMapsTheorems: [container/vfs/gmap.c].
      MemoryRegistries: the arrays of [syscall/emulation_state.c],
      [syscall/memory/access.c] and [thread/file_mapping.c].
      MemoryCalls, MemoryProofs, MemoryTheorems: the handlers of
      [syscall/memory/mapping.c], [protection.c], [advice.c] and the lock calls
      of [syscall/rare.c], on a POSIX host; [mprotect] as on a Linux host.
    - Signals (the words, queues and signalfd tokens of [linux_abi/signal.c]),
      SignalDelivery (the poll of [signal_scan.h], delivery and return, the
      frame of [translator/guest/aarch64/signal.c]), SignalCalls (sending, the
      threads' part of [thread/lifecycle.c], the calls of [syscall/signal.c],
      the read of [syscall/io/stream.c]), SignalProofs, SignalInvariant (steps
      of the threads of a process), SignalTheorems.

    ** What the theorems show

    The doc comment of each property states its conditions.

    - Descriptors: any sequence of calls returns and keeps the ownership
      invariant; close, dup, dup2, dup3, F_DUPFD, openat and the exec sweep
      implement the POSIX operations on the abstract map; a slot is not
      recycled under an operation in flight; transfers move the offset by what
      they answer; on a table at rest fork pins and clones exactly the live
      slots, or nothing, and the two completions undo or adopt.
    - Ledger: any sequence of calls, but for a direct mapping strictly inside
      an entry, keeps it well formed with an exact snapshot; what map, unmap, protect and transactions do to each guest
      byte; after any calls and a mapping more, aliases of one file byte
      share one host address; the binary search
      answers for the covering entry; references are released exactly.
    - Registries: while there is room they are sets of addresses and their
      tests, through a thread's caches, answer membership - the any-byte test
      of PROT_NONE as long as that set is whole pages; merging changes no
      answer; the past-EOF ledger is exact or has failed closed, and while it is
      open its filters hide no live byte.
    - Accessors: how many bytes a copy moves, up to the fragment of a page that
      stops it, which, and which translations it drops, byte by byte.
    - Fetch: after any history of mapping changes a fetch answers the
      executable bytes the guest has now.
    - Authority: leases exclude writers until the version is used up, tokens name mappings, a waiting writer
      is admitted on every fair execution.
    - Seccomp: validated programs stop with a verdict or at a division by
      zero, and nowhere else, as in the reference semantics; the gate answers the most restrictive verdict,
      and no later event loosens it.
    - Watches: the set refines a finite map from tokens to watches, and no token
      is given twice in fewer than 2^32 - 1 calls.
    - Inotify: what the guest reads from an object it made is whole records, in
      order, each read the longest run that fits its buffer; a watch's last
      record is the one which says it is gone; an image whose import installs an
      object is the encoding of that object, its queue framed into records; an
      exported object of at most 1048576 watches comes back.
    - Futexes: the buckets agree with the sleeping threads; a wake selects as
      many eligible threads as it can, and only those; no wakeup of a thread with a slot is lost; the
      word of a PI mutex names the one thread that was told it holds it; keys
      follow the shared mappings.
    - Guest mappings: a range is contained exactly when each of its bytes is
      mapped; a host mapping is owned once and given back once; the lock limit
      counts each page once.  [munmap] forgets an interval in every registry
      and outside it at most records of MADV_WIPEONFORK and MADV_DONTFORK that
      reach into it; [mprotect] changes exactly the pages of its range, or no
      protection when the host refuses; MADV_DONTNEED and MADV_WIPEONFORK clear
      exactly what they name; [brk] keeps the charge in step and bounded.
    - Signals: without [rt_sigsuspend] and [pause] queues keep their bounds and
      every entry is announced by the bit of those who may take it; queues are first-in first-out for each target; the
      poll finds a signal exactly when there is one to deliver; the highest that
      is not ignored is delivered, with its oldest instance; without SA_NODEFER
      and within 32 levels the others wait for the handler, whose return
      restores the thread's context; a thread-directed signal is that thread's alone.
    Several theorems are about code that does not do what it means to, most of
    them closed instances: [deferred_close_is_lost], [busy_prepare_leaks_pins],
    [map_direct_overflows], [lost_range_is_silent], [partial_page_missed],
    [tsync_misses_unregistered], [saturated_writer_races_lease],
    [fork_forgets_disable], [grant_lost_to_timeout], [pi_mutex_deadlock],
    [clear_tid_misses_private], [unmapped_wait_leaves_phantom],
    [wake_op_zero_extends], [cmp_requeue_ignores_val3],
    [full_table_drops_locks], [future_locks_the_present],
    [refused_mprotect_revives], [keep_one_page_keeps_all],
    [unmap_one_page_keeps_all], [unmapping_nothing_uncharges],
    [partial_page_unguarded], [suspend_strands_an_entry],
    [suspend_sleeps_on_tgkill], [sa_mask_blocks_sigkill], [spawn_keeps_deferred],
    [unblocked_in_a_handler], [ignored_signal_comes_back],
    [full_queue_is_success], [deep_return_pops],
    [rejected_image_is_success], [restored_descriptor_clashes],
    [export_outgrows_import], [accepted_record_endless].

    ** Bounds and fuel

    A loop of the source is a Fixpoint on a fuel of type [nat] and answers
    [None] when it runs out; the theorems prove that it does not.  The fuels:
    0 retries for the finalize loop from a quiescent table; one step per
    descriptor for the exec sweep; 0 retries for fork's allocation loops in a
    sequential run; 2 * count + 1 for unmap, one pass per entry and one more
    for the coalescing of a mapping, count + 1 for the binary search, 4097
    steps for a BPF program, the number of nodes for a chain of filters;
    2 * count + 1 for clearing an interval, 512 passes for merging and
    count + 1 for unparking; length + 1 iterations for a copy, one per page
    and one more for a probe, length / 4096 + 3 for a walk of the fetch;
    128 slots for a wake, count + 1 for a registration and 2 * count + 1 for a
    release of a shared mapping; the watch loops are structural;
    2 * count + 1 for cutting the other arrays and 4 * count + 8 for the
    registry of mappings, whose pass may nest; count + 1 for dropping records;
    65 turns for the poll of the pending words, one per level for a jump out of
    handlers, and for a wait the host signals of each of its slices; size + 1
    records for the walks over an inotify queue ([read_walk_enough]: a walk not
    over by then never ends), 65 doublings of its capacity.
    Integers of the source are [Z] with the wrap-around written where it can
    happen.  The generations of the ledger and of the registries are 64 bits:
    sequences of up to 2^28 ledger calls and registry generations below 2^61
    are covered.  The authority's writer count is 16 bits: the theorems need
    fewer than 65535 threads.

    ** Conventions and what is left out

    Pointers that every caller must pass, such as the instance, are taken to
    be non-NULL.  The POSIX branch of the conditional compilation is modelled.
    A call runs as one step, except in FdConcurrent and FutexSystem (critical
    sections interleave; a sleeping thread may resume at any time) and Authority
    (single atomic accesses interleave); so the retry
    loops of the registries' sequence locks take their first round.  The
    brackets that a publication puts around a mutation of the ledger are the
    phases [Inside] and [Mutate] of a writer in Authority, and are not part of
    the ledger's own definitions.  The handles, wait channels and live count of
    the thread registry are not state of the seccomp model.  In a displaced
    image the copies are exact for ranges whose folded image is linear.

    Not modelled, because they are mostly calls to the host or to code outside
    the repository: the host services, the engine's process life cycle, the
    bridge, containers, checkpointing, supervised processes.  Not modelled yet,
    and the next candidates: the rest of [mmap], [mremap] and [mincore], event counters and
    pipes, the host provider of inotify ([syscall/inotify.c]), robust lists, the x86-64 instruction decoder and signal frame.  The
    memory calls take one step each and leave the host's advice, its rounding
    on hosts with larger pages under [mprotect] and the accounting slot out.
    The signal model takes a signal call as one step and leaves out the
    dispositions and masks mirrored onto the host, faults the host raises, ptrace
    stops, and signals to other processes.  Guest memory is a map of words there,
    and the frame of an image that is not displaced.  The futex model leaves time
    and the wait channel of a sleeping thread out, and a process that is killed while it
    sleeps. *)

From Stdlib Require Export ZArith Lia Bool.
From stdpp Require Export base option list numbers decidable.

#[export] Set Default Goal Selector "!".

Declare Scope hl_scope.
Delimit Scope hl_scope with hl.
Open Scope hl_scope.
#[global] Open Scope Z_scope.

(** ** Machine integers *)

(** A C [uint32_t]/[uint64_t]/[int64_t] is a [Z]; arithmetic that can leave
    the range is written with the wrap made explicit. *)
Definition u16 (x : Z) : Z := x mod 2 ^ 16.
Definition u32 (x : Z) : Z := x mod 2 ^ 32.
Definition u64 (x : Z) : Z := x mod 2 ^ 64.

(** The value of an [int32_t] from its low 32 bits. *)
Definition s32 (x : Z) : Z := if u32 x <? 2 ^ 31 then u32 x else u32 x - 2 ^ 32.

Definition UINT32_MAX : Z := 4294967295.
Definition UINT64_MAX : Z := 18446744073709551615.
Definition INT64_MAX : Z := 9223372036854775807.

(** Mask with a C expression [flags & mask], tested against zero. *)
Definition has_flag (flags mask : Z) : bool := negb (Z.land flags mask =? 0).

Definition in_u32 (x : Z) : Prop := 0 <= x < 2 ^ 32.

Lemma u32_range x : 0 <= u32 x < 2 ^ 32.
Proof. apply Z.mod_pos_bound; lia. Qed.

Lemma u32_small x : 0 <= x < 2 ^ 32 -> u32 x = x.
Proof. apply Z.mod_small. Qed.

Lemma u64_range x : 0 <= u64 x < 2 ^ 64.
Proof. apply Z.mod_pos_bound; lia. Qed.

Lemma u64_small x : 0 <= x < 2 ^ 64 -> u64 x = x.
Proof. apply Z.mod_small. Qed.

(** Setting a field that is clear. *)
Lemma lor_disjoint x y : Z.land x y = 0 -> Z.lor x y = x + y.
Proof. intros Hd. rewrite Z.add_nocarry_lxor by done. symmetry. by apply Z.lxor_lor. Qed.

(** A high field above a low one. *)
Lemma lor_shiftl_low h l k : 0 <= k -> 0 <= l < 2 ^ k -> Z.lor (Z.shiftl h k) l = h * 2 ^ k + l.
Proof.
  intros Hk Hl. rewrite Z.shiftl_mul_pow2 by done. apply lor_disjoint.
  rewrite <- Z.shiftl_mul_pow2 by done. apply Z.bits_inj'. intros n Hn. rewrite Z.land_spec, Z.bits_0, Z.shiftl_spec by done.
  destruct (Z.lt_ge_cases n k) as [Hlt|Hge]; [by rewrite Z.testbit_neg_r by lia|].
  replace l with (l mod 2 ^ k) by (by apply Z.mod_small). rewrite Z.mod_pow2_bits_high by lia. apply andb_false_r.
Qed.

(** Incrementing and then decrementing a counter restores it, wrap included. *)
Lemma u32_incr_decr x : 0 <= x < 2 ^ 32 -> u32 (u32 (x + 1) - 1) = x.
Proof.
  intros Hx. unfold u32. rewrite Zminus_mod_idemp_l.
  replace (x + 1 - 1) with x by lia. by apply Z.mod_small.
Qed.

(** ** Bytes of an integer, least significant first

    What [memcpy] moves on the little-endian hosts of the engine. *)

Fixpoint le_bytes (n : nat) (x : Z) : list Z :=
  match n with
  | O => []
  | S n => x mod 256 :: le_bytes n (x / 256)
  end.

Fixpoint le_val (l : list Z) : Z :=
  match l with
  | [] => 0
  | b :: l => b + 256 * le_val l
  end.

Definition is_byte (b : Z) : Prop := 0 <= b < 256.

Lemma length_le_bytes n x : length (le_bytes n x) = n.
Proof. revert x. induction n as [|n IH]; intros x; simpl; [done|]. by rewrite IH. Qed.

Lemma le_bytes_are_bytes n x : Forall is_byte (le_bytes n x).
Proof.
  revert x. induction n as [|n IH]; intros x; simpl; constructor; [|done].
  apply Z.mod_pos_bound. lia.
Qed.

Lemma le_val_le_bytes n x : le_val (le_bytes n x) = x mod 256 ^ Z.of_nat n.
Proof.
  revert x. induction n as [|n IH]; intros x; simpl le_val.
  { change (256 ^ Z.of_nat 0) with 1. by rewrite Z.mod_1_r. }
  rewrite IH, Nat2Z.inj_succ, Z.pow_succ_r by lia. symmetry. apply Z.rem_mul_r; lia.
Qed.

Lemma le_bytes_le_val l : Forall is_byte l -> le_bytes (length l) (le_val l) = l.
Proof.
  unfold is_byte. induction 1 as [|b l Hb _ IH]; simpl; [done|]. f_equal.
  - rewrite Z.mul_comm, Z.mod_add by lia. by apply Z.mod_small.
  - rewrite Z.mul_comm, Z.div_add, Z.div_small by lia. exact IH.
Qed.

Lemma le_val_range l : Forall is_byte l -> 0 <= le_val l < 256 ^ Z.of_nat (length l).
Proof.
  unfold is_byte. induction 1 as [|b l Hb _ IH]; simpl le_val; [simpl; lia|].
  simpl length. rewrite Nat2Z.inj_succ, Z.pow_succ_r by lia. lia.
Qed.

(** ** Arrays indexed by a C integer *)

Section Arrays.
Context {A : Type}.
Implicit Types (l : list A) (i : Z) (x : A).

Definition lengthZ l : Z := Z.of_nat (length l).

(** [array[i]]; an index outside the array has no value. *)
Definition lookupZ l i : option A :=
  if (0 <=? i) then l !! Z.to_nat i else None.

(** [array[i] = x]. *)
Definition insertZ l i x : list A :=
  if (0 <=? i) then <[Z.to_nat i := x]> l else l.

(** [for (i = start; i < n; ++i) if (p(array[i])) return i;] *)
Fixpoint scan_from (p : A -> bool) l i : option Z :=
  match l with
  | [] => None
  | x :: l' => if p x then Some i else scan_from p l' (i + 1)
  end.

(** The number of entries that satisfy [p]. *)
Fixpoint countZ (p : A -> bool) l : Z :=
  match l with
  | [] => 0
  | x :: l' => (if p x then 1 else 0) + countZ p l'
  end.

Lemma lengthZ_nonneg l : 0 <= lengthZ l.
Proof. unfold lengthZ; lia. Qed.

Lemma lookupZ_Some_range l i x : lookupZ l i = Some x -> 0 <= i < lengthZ l.
Proof.
  unfold lookupZ, lengthZ. destruct (Z.leb_spec 0 i); [|done].
  intros ?%lookup_lt_Some. lia.
Qed.

Lemma lookupZ_is_Some l i : 0 <= i < lengthZ l -> exists x, lookupZ l i = Some x.
Proof.
  unfold lookupZ, lengthZ. intros Hi. destruct (Z.leb_spec 0 i); [|lia].
  destruct (lookup_lt_is_Some_2 l (Z.to_nat i)) as [x Hx]; [lia|eauto].
Qed.

Lemma lookupZ_None l i : lookupZ l i = None -> 0 <= i -> lengthZ l <= i.
Proof.
  unfold lookupZ, lengthZ. destruct (Z.leb_spec 0 i); [|lia].
  intros ?%lookup_ge_None. lia.
Qed.

Lemma lengthZ_insertZ l i x : lengthZ (insertZ l i x) = lengthZ l.
Proof.
  unfold lengthZ, insertZ. destruct (0 <=? i); [|done]. by rewrite length_insert.
Qed.

Lemma lookupZ_insertZ_eq l i x : 0 <= i < lengthZ l -> lookupZ (insertZ l i x) i = Some x.
Proof.
  unfold lookupZ, insertZ, lengthZ. intros Hi. destruct (Z.leb_spec 0 i); [|lia].
  rewrite list_lookup_insert_eq; [done|lia].
Qed.

Lemma lookupZ_insertZ_ne l i j x : i <> j -> lookupZ (insertZ l i x) j = lookupZ l j.
Proof.
  unfold lookupZ, insertZ. intros Hij.
  destruct (Z.leb_spec 0 i), (Z.leb_spec 0 j); try done.
  rewrite list_lookup_insert_ne; [done|lia].
Qed.

Lemma lookupZ_insertZ l i j x :
  0 <= i < lengthZ l ->
  lookupZ (insertZ l i x) j = if decide (i = j) then Some x else lookupZ l j.
Proof.
  intros Hi. destruct (decide (i = j)) as [->|Hne].
  - by apply lookupZ_insertZ_eq.
  - by apply lookupZ_insertZ_ne.
Qed.

Lemma insertZ_insertZ_eq l i x y : insertZ (insertZ l i x) i y = insertZ l i y.
Proof.
  unfold insertZ. destruct (0 <=? i); [|done]. by rewrite list_insert_insert_eq.
Qed.

Lemma insertZ_comm l i j x y :
  i <> j -> insertZ (insertZ l i x) j y = insertZ (insertZ l j y) i x.
Proof.
  intros Hij. unfold insertZ.
  destruct (Z.leb_spec 0 i), (Z.leb_spec 0 j); try done.
  rewrite list_insert_insert_ne by lia. done.
Qed.

Lemma insertZ_id l i x : lookupZ l i = Some x -> insertZ l i x = l.
Proof.
  unfold lookupZ, insertZ. destruct (0 <=? i); [|done]. apply list_insert_id.
Qed.

Lemma lookupZ_drop l (n : nat) i :
  0 <= i -> lookupZ (drop n l) i = lookupZ l (Z.of_nat n + i).
Proof.
  intros Hi. unfold lookupZ.
  destruct (Z.leb_spec 0 i), (Z.leb_spec 0 (Z.of_nat n + i)); try lia.
  rewrite lookup_drop. f_equal. lia.
Qed.

Lemma lookupZ_cons_succ x l i : 0 < i -> lookupZ (x :: l) i = lookupZ l (i - 1).
Proof.
  intros Hi. unfold lookupZ.
  destruct (Z.leb_spec 0 i), (Z.leb_spec 0 (i - 1)); try lia.
  replace (Z.to_nat i) with (S (Z.to_nat (i - 1))) by lia. done.
Qed.

Lemma lengthZ_cons x l : lengthZ (x :: l) = lengthZ l + 1.
Proof. unfold lengthZ. simpl. lia. Qed.

Lemma lookupZ_app_l l k i : i < lengthZ l -> lookupZ (l ++ k) i = lookupZ l i.
Proof.
  unfold lookupZ, lengthZ. intros Hi. destruct (Z.leb_spec 0 i); [|done].
  rewrite lookup_app_l; [done|lia].
Qed.

(** The entry after a prefix. *)
Lemma lengthZ_app l k : lengthZ (l ++ k) = lengthZ l + lengthZ k.
Proof. unfold lengthZ. rewrite length_app. lia. Qed.

Lemma lookupZ_middle l x k : lookupZ (l ++ x :: k) (lengthZ l) = Some x.
Proof.
  unfold lookupZ, lengthZ. destruct (Z.leb_spec 0 (Z.of_nat (length l))); [|lia].
  rewrite Nat2Z.id. by apply list_lookup_middle.
Qed.

Lemma insertZ_middle l x y k : insertZ (l ++ x :: k) (lengthZ l) y = l ++ y :: k.
Proof.
  unfold insertZ, lengthZ. destruct (Z.leb_spec 0 (Z.of_nat (length l))); [|lia].
  rewrite Nat2Z.id. replace (length l) with (length l + 0)%nat by lia.
  by rewrite insert_app_r.
Qed.

Lemma lookupZ_app_r l k i : 0 <= i -> lookupZ (l ++ k) (lengthZ l + i) = lookupZ k i.
Proof.
  intros Hi. unfold lookupZ, lengthZ.
  destruct (Z.leb_spec 0 i), (Z.leb_spec 0 (Z.of_nat (length l) + i)); try lia.
  rewrite lookup_app_r by lia. f_equal. lia.
Qed.

Lemma lookupZ_elem l i x : lookupZ l i = Some x -> In x l.
Proof.
  unfold lookupZ. destruct (0 <=? i); [|done]. intros Hx%list_elem_of_lookup_2.
  by apply list_elem_of_In.
Qed.

Lemma elem_lookupZ l x : In x l -> exists i, lookupZ l i = Some x.
Proof.
  intros Hx%list_elem_of_In. apply list_elem_of_lookup_1 in Hx as [i Hi].
  exists (Z.of_nat i). unfold lookupZ.
  destruct (Z.leb_spec 0 (Z.of_nat i)); [|lia]. by rewrite Nat2Z.id.
Qed.

(** *** Scans find the first match *)

Lemma scan_from_Some p l s i :
  scan_from p l s = Some i ->
  s <= i /\ (exists x, lookupZ l (i - s) = Some x /\ p x = true) /\
  (forall j x, s <= j < i -> lookupZ l (j - s) = Some x -> p x = false).
Proof.
  revert s. induction l as [|y l IH]; intros s; simpl; [done|].
  destruct (p y) eqn:Hp.
  - intros [= <-]. split; [lia|]. split; [|intros; lia].
    exists y. by rewrite Z.sub_diag.
  - intros Hs. apply IH in Hs as (Hle & (x & Hx & Hpx) & Hmin).
    split; [lia|]. split.
    + exists x. split; [|done]. rewrite lookupZ_cons_succ by lia.
      by replace (i - s - 1) with (i - (s + 1)) by lia.
    + intros j z Hj Hz. destruct (decide (j = s)) as [->|Hne].
      * rewrite Z.sub_diag in Hz. by injection Hz as <-.
      * rewrite lookupZ_cons_succ in Hz by lia.
        apply (Hmin j); [lia|]. by replace (j - (s + 1)) with (j - s - 1) by lia.
Qed.

Lemma scan_from_None p l s :
  scan_from p l s = None ->
  forall j x, lookupZ l j = Some x -> p x = false.
Proof.
  revert s. induction l as [|y l IH]; intros s; simpl; intros Hs j x Hj.
  - apply lookupZ_Some_range in Hj. unfold lengthZ in Hj. simpl in Hj. lia.
  - destruct (p y) eqn:Hp; [done|].
    pose proof (lookupZ_Some_range _ _ _ Hj).
    destruct (decide (j = 0)) as [->|Hne].
    + by injection Hj as <-.
    + rewrite lookupZ_cons_succ in Hj by lia. eauto.
Qed.

(** *** Counting *)

Lemma countZ_bounds p l : 0 <= countZ p l <= lengthZ l.
Proof.
  induction l as [|x l IH]; [done|].
  rewrite lengthZ_cons. simpl. destruct (p x); lia.
Qed.

Lemma countZ_insertZ p l i x y :
  lookupZ l i = Some y ->
  countZ p (insertZ l i x) =
    countZ p l - (if p y then 1 else 0) + (if p x then 1 else 0).
Proof.
  unfold lookupZ, insertZ. destruct (Z.leb_spec 0 i); [|done].
  generalize (Z.to_nat i) as n. clear. induction l as [|z l IH]; intros n Hn; [done|].
  destruct n as [|n]; simpl in *.
  - injection Hn as ->. lia.
  - rewrite (IH n Hn). lia.
Qed.

Lemma countZ_zero p l :
  countZ p l = 0 <-> forall i x, lookupZ l i = Some x -> p x = false.
Proof.
  split.
  - induction l as [|y l IH]; simpl; intros Hc i x Hi.
    + apply lookupZ_Some_range in Hi. unfold lengthZ in Hi. simpl in Hi. lia.
    + pose proof (countZ_bounds p l). destruct (p y) eqn:Hp; [lia|].
      pose proof (lookupZ_Some_range _ _ _ Hi).
      destruct (decide (i = 0)) as [->|Hne].
      * by injection Hi as <-.
      * rewrite lookupZ_cons_succ in Hi by lia. eapply IH; [lia|done].
  - induction l as [|y l IH]; simpl; intros Hc; [done|].
    rewrite (Hc 0 y eq_refl). rewrite IH; [done|].
    intros i x Hi. apply (Hc (i + 1)).
    pose proof (lookupZ_Some_range _ _ _ Hi).
    rewrite lookupZ_cons_succ by lia. by replace (i + 1 - 1) with i by lia.
Qed.

Lemma countZ_pos p l i x : lookupZ l i = Some x -> p x = true -> 1 <= countZ p l.
Proof.
  intros Hi Hp. destruct (decide (countZ p l = 0)) as [H0|H0].
  - rewrite countZ_zero in H0. rewrite (H0 _ _ Hi) in Hp. done.
  - pose proof (countZ_bounds p l). lia.
Qed.

Lemma countZ_app p l k : countZ p (l ++ k) = countZ p l + countZ p k.
Proof. induction l as [|x l IH]; simpl; [done|]. destruct (p x); lia. Qed.

Lemma countZ_elem p l x : In x l -> p x = true -> 1 <= countZ p l.
Proof.
  induction l as [|y l IH]; simpl; [done|]. pose proof (countZ_bounds p l).
  intros [->|Hin] Hp; [rewrite Hp; lia|]. specialize (IH Hin Hp). destruct (p y); lia.
Qed.

Lemma countZ_none p l : (forall x, In x l -> p x = false) -> countZ p l = 0.
Proof.
  induction l as [|y l IH]; simpl; [done|]. intros H. rewrite H by auto. rewrite IH by auto. lia.
Qed.

Lemma countZ_exists p l : countZ p l <> 0 -> exists i x, lookupZ l i = Some x /\ p x = true.
Proof.
  induction l as [|y l IH]; simpl; [done|]. destruct (p y) eqn:Hp; intros Hc.
  - by exists 0, y.
  - destruct IH as (i & x & Hi & Hx); [lia|]. exists (i + 1), x. split; [|done].
    pose proof (lookupZ_Some_range _ _ _ Hi). rewrite lookupZ_cons_succ by lia.
    by replace (i + 1 - 1) with i by lia.
Qed.
End Arrays.

Lemma lookupZ_replicate {A} (x y : A) k i : lookupZ (replicate k x) i = Some y -> y = x.
Proof.
  unfold lookupZ. destruct (0 <=? i); [|done].
  intros H%list_elem_of_lookup_2. by apply elem_of_replicate in H as [? _].
Qed.

Lemma countZ_perm {A} (p : A -> bool) l l' : l ≡ₚ l' -> countZ p l = countZ p l'.
Proof. induction 1; simpl; lia. Qed.

Lemma lookupZ_map {A B} (f : A -> B) (l : list A) i :
  lookupZ (map f l) i = option_map f (lookupZ l i).
Proof. unfold lookupZ. destruct (0 <=? i); [|done]. apply list_lookup_fmap. Qed.

(** Replacing an entry by one with the same image. *)
Lemma map_insertZ {A B} (f : A -> B) l i x y :
  lookupZ l i = Some x -> f y = f x -> map f (insertZ l i y) = map f l.
Proof.
  unfold lookupZ, insertZ. destruct (0 <=? i); [|done]. intros Hi Hf.
  change (f <$> <[Z.to_nat i := y]> l = f <$> l). rewrite list_fmap_insert, Hf, <- list_fmap_insert.
  by rewrite list_insert_id.
Qed.

Create HintDb hl.
Create Rewrite HintDb hl.
#[export] Hint Resolve lengthZ_nonneg u32_range u64_range : hl.
#[export] Hint Rewrite @lengthZ_insertZ @insertZ_insertZ_eq : hl.

(** ** Tactics of the development *)

(** Split the first stuck [match] or [if] of a hypothesis or of the goal. *)
Ltac case_match_in H :=
  match type of H with
  | context [ match ?x with _ => _ end ] =>
      lazymatch x with
      | context [ match _ with _ => _ end ] => fail
      | _ => destruct x eqn:?
      end
  end.

Ltac case_match_goal :=
  match goal with
  | |- context [ match ?x with _ => _ end ] =>
      lazymatch x with
      | context [ match _ with _ => _ end ] => fail
      | _ => destruct x eqn:?
      end
  end.

(** Turn the boolean tests of the code into arithmetic facts. *)
Ltac bool_props :=
  repeat match goal with
  | H : (_ && _)%bool = true |- _ => apply andb_prop in H as [? ?]
  | H : (_ || _)%bool = false |- _ => apply orb_false_elim in H as [? ?]
  | H : negb _ = true |- _ => apply negb_true_iff in H
  | H : negb _ = false |- _ => apply negb_false_iff in H
  | H : (_ =? _) = true |- _ => apply Z.eqb_eq in H
  | H : (_ =? _) = false |- _ => apply Z.eqb_neq in H
  | H : (_ <? _) = true |- _ => apply Z.ltb_lt in H
  | H : (_ <? _) = false |- _ => apply Z.ltb_ge in H
  | H : (_ <=? _) = true |- _ => apply Z.leb_le in H
  | H : (_ <=? _) = false |- _ => apply Z.leb_gt in H
  end.

(** Linear arithmetic with quotients and remainders by constants. *)
Ltac div_lia := Z.to_euclidean_division_equations; lia.
