(* ===== verification/Status.v ===== *)
(** * Status codes, Linux errno values and open-file flags

    [include/hl/base.h] (the engine's status enumeration), the errno and flag
    constants of [include/hl/linux_abi.h], the translation of [context.c] from
    one to the other, and the flag translations of [linux_abi/object.h]. *)

From S2P Require Import Prelude.

(** ** [hl_status] (base.h) *)

Inductive hl_status : Type :=
| HL_STATUS_OK
| HL_STATUS_INVALID_ARGUMENT
| HL_STATUS_ABI_MISMATCH
| HL_STATUS_NOT_SUPPORTED
| HL_STATUS_OUT_OF_MEMORY
| HL_STATUS_RESOURCE_LIMIT
| HL_STATUS_NOT_FOUND
| HL_STATUS_ALREADY_EXISTS
| HL_STATUS_PERMISSION_DENIED
| HL_STATUS_WOULD_BLOCK
| HL_STATUS_INTERRUPTED
| HL_STATUS_IO
| HL_STATUS_PLATFORM_FAILURE
| HL_STATUS_CORRUPT
| HL_STATUS_BUSY
| HL_STATUS_NOT_DIRECTORY
| HL_STATUS_IS_DIRECTORY
| HL_STATUS_NAME_TOO_LONG
| HL_STATUS_SYMLINK_LOOP
| HL_STATUS_READ_ONLY
| HL_STATUS_DISCONNECTED
| HL_STATUS_PROCESS_LIMIT
| HL_STATUS_CROSS_DEVICE
| HL_STATUS_NOT_EMPTY
| HL_STATUS_NO_SPACE
| HL_STATUS_QUOTA
| HL_STATUS_FILE_TOO_LARGE
| HL_STATUS_TIMED_OUT
| HL_STATUS_CONNECTION_REFUSED
| HL_STATUS_CONNECTION_RESET
| HL_STATUS_NETWORK_UNREACHABLE
| HL_STATUS_ADDRESS_IN_USE.

#[export] Instance hl_status_eq_dec : EqDecision hl_status.
Proof. solve_decision. Defined.

(** [status == HL_STATUS_OK] and the other comparisons the code makes. *)
Definition is_ok (s : hl_status) : bool :=
  match s with HL_STATUS_OK => true | _ => false end.
Definition is_not_found (s : hl_status) : bool :=
  match s with HL_STATUS_NOT_FOUND => true | _ => false end.
Definition is_resource_limit (s : hl_status) : bool :=
  match s with HL_STATUS_RESOURCE_LIMIT => true | _ => false end.

Lemma is_ok_true s : is_ok s = true <-> s = HL_STATUS_OK.
Proof. by destruct s. Qed.

Lemma is_ok_false s : is_ok s = false <-> s <> HL_STATUS_OK.
Proof. by destruct s. Qed.

(** ** Linux errno numbers (linux_abi.h) *)

Definition HL_LINUX_ENOENT : Z := 2.
Definition HL_LINUX_EINTR : Z := 4.
Definition HL_LINUX_EIO : Z := 5.
Definition HL_LINUX_ENXIO : Z := 6.
Definition HL_LINUX_EBADF : Z := 9.
Definition HL_LINUX_EAGAIN : Z := 11.
Definition HL_LINUX_ENOMEM : Z := 12.
Definition HL_LINUX_EACCES : Z := 13.
Definition HL_LINUX_EBUSY : Z := 16.
Definition HL_LINUX_EEXIST : Z := 17.
Definition HL_LINUX_EXDEV : Z := 18.
Definition HL_LINUX_ENOTDIR : Z := 20.
Definition HL_LINUX_EISDIR : Z := 21.
Definition HL_LINUX_EINVAL : Z := 22.
Definition HL_LINUX_ENFILE : Z := 23.
Definition HL_LINUX_EMFILE : Z := 24.
Definition HL_LINUX_EFBIG : Z := 27.
Definition HL_LINUX_ENOSPC : Z := 28.
Definition HL_LINUX_ESPIPE : Z := 29.
Definition HL_LINUX_EROFS : Z := 30.
Definition HL_LINUX_EPIPE : Z := 32.
Definition HL_LINUX_ENAMETOOLONG : Z := 36.
Definition HL_LINUX_ENOSYS : Z := 38.
Definition HL_LINUX_ENOTEMPTY : Z := 39.
Definition HL_LINUX_ELOOP : Z := 40.
Definition HL_LINUX_EOVERFLOW : Z := 75.
Definition HL_LINUX_EADDRINUSE : Z := 98.
Definition HL_LINUX_ENETUNREACH : Z := 101.
Definition HL_LINUX_ECONNRESET : Z := 104.
Definition HL_LINUX_ETIMEDOUT : Z := 110.
Definition HL_LINUX_ECONNREFUSED : Z := 111.
Definition HL_LINUX_EDQUOT : Z := 122.

(** [hl_linux_error] (context.c): the negative syscall result of a status. *)
Definition hl_linux_error (status : hl_status) : Z :=
  match status with
  | HL_STATUS_OK => 0
  | HL_STATUS_INTERRUPTED => - HL_LINUX_EINTR
  | HL_STATUS_NOT_FOUND => - HL_LINUX_EBADF
  | HL_STATUS_WOULD_BLOCK => - HL_LINUX_EAGAIN
  | HL_STATUS_OUT_OF_MEMORY => - HL_LINUX_ENOMEM
  | HL_STATUS_PERMISSION_DENIED => - HL_LINUX_EACCES
  | HL_STATUS_BUSY => - HL_LINUX_EBUSY
  | HL_STATUS_NOT_DIRECTORY => - HL_LINUX_ENOTDIR
  | HL_STATUS_IS_DIRECTORY => - HL_LINUX_EISDIR
  | HL_STATUS_NAME_TOO_LONG => - HL_LINUX_ENAMETOOLONG
  | HL_STATUS_SYMLINK_LOOP => - HL_LINUX_ELOOP
  | HL_STATUS_READ_ONLY => - HL_LINUX_EROFS
  | HL_STATUS_ALREADY_EXISTS => - HL_LINUX_EEXIST
  | HL_STATUS_RESOURCE_LIMIT => - HL_LINUX_ENFILE
  | HL_STATUS_PROCESS_LIMIT => - HL_LINUX_EMFILE
  | HL_STATUS_DISCONNECTED => - HL_LINUX_EPIPE
  | HL_STATUS_CROSS_DEVICE => - HL_LINUX_EXDEV
  | HL_STATUS_NOT_EMPTY => - HL_LINUX_ENOTEMPTY
  | HL_STATUS_NO_SPACE => - HL_LINUX_ENOSPC
  | HL_STATUS_QUOTA => - HL_LINUX_EDQUOT
  | HL_STATUS_FILE_TOO_LARGE => - HL_LINUX_EFBIG
  | HL_STATUS_TIMED_OUT => - HL_LINUX_ETIMEDOUT
  | HL_STATUS_CONNECTION_REFUSED => - HL_LINUX_ECONNREFUSED
  | HL_STATUS_CONNECTION_RESET => - HL_LINUX_ECONNRESET
  | HL_STATUS_NETWORK_UNREACHABLE => - HL_LINUX_ENETUNREACH
  | HL_STATUS_ADDRESS_IN_USE => - HL_LINUX_EADDRINUSE
  | HL_STATUS_INVALID_ARGUMENT
  | HL_STATUS_ABI_MISMATCH
  | HL_STATUS_CORRUPT => - HL_LINUX_EINVAL
  | HL_STATUS_NOT_SUPPORTED => - HL_LINUX_ENOSYS
  | HL_STATUS_IO
  | HL_STATUS_PLATFORM_FAILURE => - HL_LINUX_EIO
  end.

(** ** Open flags (linux_abi.h; the source writes them in octal) *)

Definition HL_LINUX_O_ACCMODE : Z := 3.
Definition HL_LINUX_O_RDONLY : Z := 0.
Definition HL_LINUX_O_WRONLY : Z := 1.
Definition HL_LINUX_O_RDWR : Z := 2.
Definition HL_LINUX_O_CREAT : Z := 0x40.
Definition HL_LINUX_O_EXCL : Z := 0x80.
Definition HL_LINUX_O_TRUNC : Z := 0x200.
Definition HL_LINUX_O_APPEND : Z := 0x400.
Definition HL_LINUX_O_NONBLOCK : Z := 0x800.
Definition HL_LINUX_O_ASYNC : Z := 0x2000.
Definition HL_LINUX_O_DIRECT : Z := 0x4000.
Definition HL_LINUX_O_LARGEFILE : Z := 0x8000.
Definition HL_LINUX_O_DIRECTORY : Z := 0x10000.
Definition HL_LINUX_O_NOFOLLOW : Z := 0x20000.
Definition HL_LINUX_O_NOATIME : Z := 0x40000.
Definition HL_LINUX_O_CLOEXEC : Z := 0x80000.
Definition HL_LINUX_O_PATH : Z := 0x200000.
Definition HL_LINUX_FD_CLOEXEC : Z := 1.

Definition HL_LINUX_O_SETFL : Z :=
  Z.lor (Z.lor (Z.lor (Z.lor HL_LINUX_O_APPEND HL_LINUX_O_NONBLOCK)
    HL_LINUX_O_DIRECT) HL_LINUX_O_ASYNC) HL_LINUX_O_NOATIME.
Definition HL_LINUX_O_SETFL_HOST : Z :=
  Z.lor (Z.lor (Z.lor HL_LINUX_O_NONBLOCK HL_LINUX_O_DIRECT)
    HL_LINUX_O_ASYNC) HL_LINUX_O_NOATIME.

(** Host stream flags (host_services.h). *)
Definition HL_HOST_STREAM_NONBLOCK : Z := 1.
Definition HL_HOST_STREAM_DIRECT : Z := 8.
Definition HL_HOST_STREAM_ASYNC : Z := 16.
Definition HL_HOST_STREAM_NOATIME : Z := 32.

(** [if ((flags & mask) != 0) acc |= bit;] *)
Definition or_if (flags mask acc bit : Z) : Z :=
  if has_flag flags mask then Z.lor acc bit else acc.

Definition hl_linux_host_stream_flags (status_flags : Z) : Z :=
  let flags := 0 in
  let flags := or_if status_flags HL_LINUX_O_NONBLOCK flags HL_HOST_STREAM_NONBLOCK in
  let flags := or_if status_flags HL_LINUX_O_DIRECT flags HL_HOST_STREAM_DIRECT in
  let flags := or_if status_flags HL_LINUX_O_ASYNC flags HL_HOST_STREAM_ASYNC in
  or_if status_flags HL_LINUX_O_NOATIME flags HL_HOST_STREAM_NOATIME.

Definition hl_linux_status_flags_from_host_stream (stream_flags : Z) : Z :=
  let flags := 0 in
  let flags := or_if stream_flags HL_HOST_STREAM_NONBLOCK flags HL_LINUX_O_NONBLOCK in
  let flags := or_if stream_flags HL_HOST_STREAM_DIRECT flags HL_LINUX_O_DIRECT in
  let flags := or_if stream_flags HL_HOST_STREAM_ASYNC flags HL_LINUX_O_ASYNC in
  or_if stream_flags HL_HOST_STREAM_NOATIME flags HL_LINUX_O_NOATIME.

(** Every non-OK status becomes a strictly negative errno, so a caller that
    tests the sign of a syscall result sees every host failure. *)
Lemma hl_linux_error_negative s : s <> HL_STATUS_OK -> -4096 < hl_linux_error s < 0.
Proof. destruct s; intros ?; try done; simpl; unfold HL_LINUX_EINTR; lia || (vm_compute; split; reflexivity). Qed.
