(* ===== verification/Host.v ===== *)
(** * The host seam

    The Linux personality calls the host only through the tables of function
    pointers of [include/hl/host_services.h] and, for typed objects, through
    [hl_linux_object_ops] ([linux_abi/object.h]).  A NULL pointer is [None];
    what a callback does is a parameter: a function on an abstract world [W]
    (guest memory included).  The contract "host service callbacks must not
    re-enter the same instance" (linux_abi.h) is what makes a callback a
    function of [W] alone. *)

From S2P Require Import Prelude Status.

Definition HL_HOST_HANDLE_INVALID : Z := 0.
Definition HL_HOST_HANDLE_CWD : Z := UINT64_MAX.

Definition HL_HOST_CAP_FILE : Z := 16.
Definition HL_HOST_CAP_SYNC : Z := 1024.
Definition HL_HOST_CAP_STREAM : Z := 65536.

Definition HL_HOST_FILE_ABI : Z := 23.
Definition HL_HOST_SYNC_ABI : Z := 3.
Definition HL_HOST_STREAM_ABI : Z := 1.
(** [sizeof] of the three tables, as the header's static assertions fix them. *)
Definition sizeof_file_services : Z := 336.
Definition sizeof_sync_services : Z := 88.
Definition sizeof_stream_services : Z := 72.

Record hl_host_result := mk_result {
  r_status : hl_status;
  r_value : Z;
  r_detail : Z
}.

Record hl_host_file_metadata := mk_metadata {
  stable_device : Z; stable_object : Z; md_size : Z; allocated_size : Z;
  modified_ns : Z; accessed_ns : Z; changed_ns : Z; created_ns : Z;
  md_device : Z; md_link_count : Z; md_type : Z; md_permissions : Z;
  md_user : Z; md_group : Z
}.

(** [hl_linux_file_status] (linux_abi.h). *)
Record hl_linux_file_status := mk_file_status {
  st_device : Z; st_object : Z; st_size : Z; st_blocks_512 : Z;
  st_modified_ns : Z; st_accessed_ns : Z; st_changed_ns : Z; st_created_ns : Z;
  st_special_device : Z; st_link_count : Z; st_mode : Z; st_user : Z; st_group : Z
}.

Definition zero_metadata : hl_host_file_metadata :=
  mk_metadata 0 0 0 0 0 0 0 0 0 0 0 0 0 0.
Definition zero_file_status : hl_linux_file_status :=
  mk_file_status 0 0 0 0 0 0 0 0 0 0 0 0 0.

(** [hl_host_iovec]: a guest address and a size. *)
Record hl_host_iovec := mk_iovec { iov_address : Z; iov_size : Z }.

Section Services.
Context {W : Type}.

Record hl_host_sync_services := mk_sync {
  sync_abi : Z;
  sync_size : Z;
  mutex_create : option (W -> hl_host_result * W);
  mutex_lock : option (Z -> W -> hl_host_result * W);
  mutex_unlock : option (Z -> W -> hl_host_result * W);
  mutex_close : option (Z -> W -> hl_host_result * W);
  fork_prepare : option (W -> hl_host_result * W);
  fork_parent : option (W -> hl_host_result * W);
  fork_child : option (W -> hl_host_result * W)
}.

(** Buffers are guest addresses: the callback reads or fills them in [W]. *)
Record hl_host_file_services := mk_file {
  file_abi : Z;
  file_size : Z;
  f_open_relative : option (Z -> list Z -> Z -> Z -> Z -> W -> hl_host_result * W);
  f_read_at : option (Z -> Z -> Z -> Z -> W -> hl_host_result * W);
  f_write_at : option (Z -> Z -> Z -> Z -> W -> hl_host_result * W);
  f_append : option (Z -> Z -> Z -> W -> hl_host_result * W);
  f_metadata : option (Z -> W -> (hl_host_result * hl_host_file_metadata) * W);
  f_close : option (Z -> W -> hl_host_result * W);
  f_read : option (Z -> Z -> Z -> W -> hl_host_result * W);
  f_write : option (Z -> Z -> Z -> W -> hl_host_result * W);
  f_clone_for_fork : option (Z -> W -> hl_host_result * W);
  f_seek : option (Z -> Z -> Z -> W -> hl_host_result * W);
  f_readv : option (Z -> list hl_host_iovec -> W -> hl_host_result * W);
  f_writev : option (Z -> list hl_host_iovec -> W -> hl_host_result * W);
  f_readv_at : option (Z -> list hl_host_iovec -> Z -> W -> hl_host_result * W);
  f_writev_at : option (Z -> list hl_host_iovec -> Z -> W -> hl_host_result * W);
  f_appendv : option (Z -> list hl_host_iovec -> W -> hl_host_result * W);
  f_truncate : option (Z -> Z -> W -> hl_host_result * W);
  f_sync : option (Z -> W -> hl_host_result * W);
  f_data_sync : option (Z -> W -> hl_host_result * W);
  f_sync_range : option (Z -> Z -> Z -> Z -> W -> hl_host_result * W);
  f_sync_filesystem : option (Z -> W -> hl_host_result * W)
}.

Record hl_host_stream_services := mk_stream {
  stream_abi : Z;
  stream_size : Z;
  s_set_status_flags : option (Z -> Z -> W -> hl_host_result * W)
}.

Record hl_host_services := mk_services {
  capabilities : Z;
  host_file : option hl_host_file_services;
  host_sync : option hl_host_sync_services;
  host_stream : option hl_host_stream_services
}.

(** [hl_linux_object_ops] (object.h): the callbacks the descriptor table
    itself invokes.  [set_status_flags] is given the initial [*effective] and
    returns the value left there; [clone] returns the child context. *)
Record hl_linux_object_ops := mk_object_ops {
  fork_while_active_safe : Z;
  o_read : option (Z -> Z -> Z -> W -> Z * W);
  o_write : option (Z -> Z -> Z -> W -> Z * W);
  o_status : option (Z -> hl_linux_file_status -> W -> (Z * hl_linux_file_status) * W);
  o_set_status_flags : option (Z -> Z -> Z -> W -> (Z * Z) * W);
  o_readiness : option (Z -> Z -> W -> Z * W);
  o_retire : option (Z -> W -> W);
  o_clone : option (Z -> W -> (hl_status * Z) * W);
  o_close : option (Z -> W -> hl_status * W)
}.
End Services.

Arguments hl_host_sync_services : clear implicits.
Arguments hl_host_file_services : clear implicits.
Arguments hl_host_stream_services : clear implicits.
Arguments hl_host_services : clear implicits.
Arguments hl_linux_object_ops : clear implicits.
