(* ===== verification/FdTable.v ===== *)
(** * The descriptor table: data model

    [include/hl/linux_abi.h] (the entries and the instance) and the lookups of
    [linux_abi/context.c] that run under the table lock.  An array and its
    capacity field are one list; an array index is a [Z]. *)

From S2P Require Import Prelude Status Host.

Definition HL_LINUX_ABI_VERSION : Z := 4.
Definition HL_LINUX_FD_LIMIT : Z := 65536.
Definition HL_LINUX_OFD_LIMIT : Z := 65536.
Definition HL_LINUX_FD_RESERVED : Z := UINT32_MAX.

(** Pointers ([object_ops], [object_context]) are addresses, 0 being NULL. *)
Record hl_linux_ofd_entry := mk_ofd {
  host_handle : Z;
  ofd_offset : Z;
  status_flags : Z;
  references : Z;
  active_operations : Z;
  closing : Z;
  ofd_generation : Z;
  ofd_kind : Z;
  flock_token : Z;
  io_mutex : Z;
  object_ops : Z;
  object_context : Z
}.

Record hl_linux_fd_entry := mk_fd {
  fd_ofd : Z;
  descriptor_flags : Z;
  fd_generation : Z
}.

Record hl_linux_fd_reservation := mk_reservation { rsv_fd : Z; rsv_generation : Z }.

Record hl_linux_abi := mk_abi {
  abi_version : Z;
  fds : list hl_linux_fd_entry;
  ofds : list hl_linux_ofd_entry;
  ofd_watermark : Z;
  reserved_fds : Z
}.

#[export] Instance hl_linux_ofd_entry_eq_dec : EqDecision hl_linux_ofd_entry.
Proof. solve_decision. Defined.
#[export] Instance hl_linux_fd_entry_eq_dec : EqDecision hl_linux_fd_entry.
Proof. solve_decision. Defined.
#[export] Instance hl_linux_abi_eq_dec : EqDecision hl_linux_abi.
Proof. solve_decision. Defined.

Definition zero_ofd : hl_linux_ofd_entry := mk_ofd 0 0 0 0 0 0 0 0 0 0 0 0.
Definition zero_fd : hl_linux_fd_entry := mk_fd 0 0 0.

Definition fd_capacity (t : hl_linux_abi) : Z := lengthZ (fds t).
Definition ofd_capacity (t : hl_linux_abi) : Z := lengthZ (ofds t).

(** ** Field assignments *)

Definition set_fds (f : list hl_linux_fd_entry) (t : hl_linux_abi) : hl_linux_abi :=
  mk_abi (abi_version t) f (ofds t) (ofd_watermark t) (reserved_fds t).
Definition set_ofds (o : list hl_linux_ofd_entry) (t : hl_linux_abi) : hl_linux_abi :=
  mk_abi (abi_version t) (fds t) o (ofd_watermark t) (reserved_fds t).
Definition set_watermark (w : Z) (t : hl_linux_abi) : hl_linux_abi :=
  mk_abi (abi_version t) (fds t) (ofds t) w (reserved_fds t).
Definition set_reserved (r : Z) (t : hl_linux_abi) : hl_linux_abi :=
  mk_abi (abi_version t) (fds t) (ofds t) (ofd_watermark t) r.
Definition set_version (v : Z) (t : hl_linux_abi) : hl_linux_abi :=
  mk_abi v (fds t) (ofds t) (ofd_watermark t) (reserved_fds t).

Definition put_fd (fd : Z) (e : hl_linux_fd_entry) (t : hl_linux_abi) : hl_linux_abi :=
  set_fds (insertZ (fds t) fd e) t.
Definition put_ofd (i : Z) (e : hl_linux_ofd_entry) (t : hl_linux_abi) : hl_linux_abi :=
  set_ofds (insertZ (ofds t) i e) t.

Definition with_references (r : Z) (e : hl_linux_ofd_entry) : hl_linux_ofd_entry :=
  mk_ofd (host_handle e) (ofd_offset e) (status_flags e) r (active_operations e)
    (closing e) (ofd_generation e) (ofd_kind e) (flock_token e) (io_mutex e)
    (object_ops e) (object_context e).
Definition with_active (a : Z) (e : hl_linux_ofd_entry) : hl_linux_ofd_entry :=
  mk_ofd (host_handle e) (ofd_offset e) (status_flags e) (references e) a
    (closing e) (ofd_generation e) (ofd_kind e) (flock_token e) (io_mutex e)
    (object_ops e) (object_context e).
Definition with_closing (c : Z) (e : hl_linux_ofd_entry) : hl_linux_ofd_entry :=
  mk_ofd (host_handle e) (ofd_offset e) (status_flags e) (references e)
    (active_operations e) c (ofd_generation e) (ofd_kind e) (flock_token e)
    (io_mutex e) (object_ops e) (object_context e).
Definition with_offset (o : Z) (e : hl_linux_ofd_entry) : hl_linux_ofd_entry :=
  mk_ofd (host_handle e) o (status_flags e) (references e) (active_operations e)
    (closing e) (ofd_generation e) (ofd_kind e) (flock_token e) (io_mutex e)
    (object_ops e) (object_context e).
Definition with_status_flags (f : Z) (e : hl_linux_ofd_entry) : hl_linux_ofd_entry :=
  mk_ofd (host_handle e) (ofd_offset e) f (references e) (active_operations e)
    (closing e) (ofd_generation e) (ofd_kind e) (flock_token e) (io_mutex e)
    (object_ops e) (object_context e).
Definition with_io_mutex (m : Z) (e : hl_linux_ofd_entry) : hl_linux_ofd_entry :=
  mk_ofd (host_handle e) (ofd_offset e) (status_flags e) (references e)
    (active_operations e) (closing e) (ofd_generation e) (ofd_kind e)
    (flock_token e) m (object_ops e) (object_context e).
Definition with_host_handle (h : Z) (e : hl_linux_ofd_entry) : hl_linux_ofd_entry :=
  mk_ofd h (ofd_offset e) (status_flags e) (references e) (active_operations e)
    (closing e) (ofd_generation e) (ofd_kind e) (flock_token e) (io_mutex e)
    (object_ops e) (object_context e).
Definition with_object_context (c : Z) (e : hl_linux_ofd_entry) : hl_linux_ofd_entry :=
  mk_ofd (host_handle e) (ofd_offset e) (status_flags e) (references e)
    (active_operations e) (closing e) (ofd_generation e) (ofd_kind e)
    (flock_token e) (io_mutex e) (object_ops e) c.

(** ** Lookups under the table lock (context.c)

    A helper that fails answers [HL_STATUS_RESOURCE_LIMIT] through [None]. *)

Definition fd_unused (e : hl_linux_fd_entry) : bool := fd_ofd e =? 0.

Definition hl_linux_find_fd (t : hl_linux_abi) : option Z :=
  scan_from fd_unused (fds t) 0.

Definition hl_linux_find_fd_at_least (t : hl_linux_abi) (minimum : Z) : option Z :=
  if fd_capacity t <=? minimum then None
  else scan_from fd_unused (drop (Z.to_nat minimum) (fds t)) minimum.

Definition ofd_free (e : hl_linux_ofd_entry) : bool :=
  (references e =? 0) && (active_operations e =? 0) && (closing e =? 0) &&
  (io_mutex e =? HL_HOST_HANDLE_INVALID).

(** The loop starts at index 1; success also extends the high-water mark. *)
Definition hl_linux_find_ofd (t : hl_linux_abi) : option (Z * hl_linux_abi) :=
  match scan_from ofd_free (drop 1 (ofds t)) 1 with
  | Some ofd =>
      Some (ofd, if ofd_watermark t <? ofd + 1 then set_watermark (ofd + 1) t else t)
  | None => None
  end.

(** [inr (fd_entry, ofd, ofd_entry)] is [HL_STATUS_OK] with both out-pointers,
    [ofd] being the index of the second. *)
Definition hl_linux_fd_get_unlocked (t : hl_linux_abi) (fd : Z)
  : hl_status + hl_linux_fd_entry * Z * hl_linux_ofd_entry :=
  match lookupZ (fds t) fd with
  | None => inl HL_STATUS_NOT_FOUND
  | Some fe =>
      if (fd_ofd fe =? 0) || (fd_ofd fe =? HL_LINUX_FD_RESERVED)
      then inl HL_STATUS_NOT_FOUND
      else
        match lookupZ (ofds t) (fd_ofd fe) with
        | None => inl HL_STATUS_CORRUPT
        | Some oe =>
            if references oe =? 0 then inl HL_STATUS_CORRUPT
            else inr (fe, fd_ofd fe, oe)
        end
  end.

(** [hl_linux_abi_validate_fds] (descriptor_lifecycle.c).  The reference
    counts the code accumulates in [references\[\]] are those of the
    descriptor array; its overflow test compares with [UINT32_MAX]. *)
Definition count_descriptors (i : Z) (l : list hl_linux_fd_entry) : Z :=
  countZ (fun e => fd_ofd e =? i) l.

Fixpoint validate_descriptors (capacity : Z) (seen l : list hl_linux_fd_entry) : bool :=
  match l with
  | [] => true
  | e :: l' =>
      let ofd := fd_ofd e in
      if (ofd =? 0) || (ofd =? HL_LINUX_FD_RESERVED)
      then validate_descriptors capacity (seen ++ [e]) l'
      else if (capacity <=? ofd) || (count_descriptors ofd seen =? UINT32_MAX)
      then false
      else validate_descriptors capacity (seen ++ [e]) l'
  end.

Definition ofd_inconsistent (counted : Z) (e : hl_linux_ofd_entry) : bool :=
  negb (references e =? counted) ||
  (negb (references e =? 0) &&
   (Bool.eqb (object_ops e =? 0) (host_handle e =? HL_HOST_HANDLE_INVALID) ||
    (negb (object_ops e =? 0) && (object_context e =? 0)) ||
    (io_mutex e =? HL_HOST_HANDLE_INVALID) || negb (closing e =? 0))) ||
  ((references e =? 0) && (active_operations e =? 0) &&
   (negb (host_handle e =? HL_HOST_HANDLE_INVALID) ||
    negb (io_mutex e =? HL_HOST_HANDLE_INVALID) ||
    negb (closing e =? 0) || negb (object_ops e =? 0) || negb (object_context e =? 0))).

Fixpoint validate_ofds (f : list hl_linux_fd_entry) (i : Z) (l : list hl_linux_ofd_entry) : bool :=
  match l with
  | [] => true
  | e :: l' =>
      if ofd_inconsistent (count_descriptors i f) e then false
      else validate_ofds f (i + 1) l'
  end.

(** [calloc_ok] is whether the scratch array could be allocated. *)
Definition hl_linux_abi_validate_fds (calloc_ok : bool) (t : hl_linux_abi) : hl_status :=
  if negb (abi_version t =? HL_LINUX_ABI_VERSION) then HL_STATUS_INVALID_ARGUMENT
  else if negb calloc_ok then HL_STATUS_OUT_OF_MEMORY
  else if negb (validate_descriptors (ofd_capacity t) [] (fds t)) then HL_STATUS_CORRUPT
  else if negb (validate_ofds (fds t) 1 (drop 1 (ofds t))) then HL_STATUS_CORRUPT
  else HL_STATUS_OK.


(** ** The critical sections of the descriptor operations

    Each is the code between [hl_linux_lock] and [hl_linux_unlock]; the
    handlers of FdOps.v compose them with the host calls made in between, and
    the interleaving model of FdConcurrent.v takes them one at a time. *)

(** [fds[fd] = {ofd, flags}] and [fds[fd].generation++]. *)
Definition bind_fd (fd ofd flags : Z) (t : hl_linux_abi) : option hl_linux_abi :=
  match lookupZ (fds t) fd with
  | Some e => Some (put_fd fd (mk_fd ofd flags (u32 (fd_generation e + 1))) t)
  | None => None
  end.

(** The seven assignments that fill a slot for a host file. *)
Definition file_entry (handle flags mutex token : Z) (e : hl_linux_ofd_entry) : hl_linux_ofd_entry :=
  mk_ofd handle (ofd_offset e) flags 1 (active_operations e) (closing e)
    (u32 (ofd_generation e + 1)) (ofd_kind e) token mutex (object_ops e) (object_context e).

(** The candidate entry of a typed object, stored whole. *)
Definition object_entry (ops context kind flags mutex token : Z) (e : hl_linux_ofd_entry)
  : hl_linux_ofd_entry :=
  mk_ofd HL_HOST_HANDLE_INVALID 0 flags 1 0 0 (u32 (ofd_generation e + 1)) kind token mutex
    ops context.

Definition update_entry (i : Z) (f : hl_linux_ofd_entry -> hl_linux_ofd_entry)
    (t : hl_linux_abi) : option hl_linux_abi :=
  match lookupZ (ofds t) i with
  | Some e => Some (put_ofd i (f e) t)
  | None => None
  end.

(** [fds[fd] = {ofd, flags, ++}] and [ofds[ofd].references++]: a duplicate. *)
Definition link_fd (fd ofd flags : Z) (t : hl_linux_abi) : option hl_linux_abi :=
  match bind_fd fd ofd flags t with
  | Some t' => update_entry ofd (fun e => with_references (u32 (references e + 1)) e) t'
  | None => None
  end.

(** What [hl_linux_fd_close] learns under the lock. *)
Record close_outcome := mk_close_outcome {
  co_ofd : Z;
  co_final : bool;
  co_deferred : bool;
  co_retire_ops : Z;
  co_retire_context : Z
}.

Definition close_section (fd : Z) (t : hl_linux_abi)
  : option (hl_status + close_outcome * hl_linux_abi) :=
  match lookupZ (fds t) fd with
  | None => Some (inl HL_STATUS_NOT_FOUND)
  | Some fe =>
      if (fd_ofd fe =? 0) || (fd_ofd fe =? HL_LINUX_FD_RESERVED)
      then Some (inl HL_STATUS_NOT_FOUND)
      else
        let ofd := fd_ofd fe in
        match lookupZ (ofds t) ofd with
        | None => Some (inl HL_STATUS_CORRUPT)
        | Some e =>
            if references e =? 0 then Some (inl HL_STATUS_CORRUPT)
            else
              let t1 := put_fd fd (mk_fd 0 0 (u32 (fd_generation fe + 1))) t in
              let e1 := with_references (u32 (references e - 1)) e in
              let final := references e1 =? 0 in
              let e2 := if final then with_closing 1 e1 else e1 in
              Some (inr
                (mk_close_outcome ofd final
                   (final && negb (active_operations e2 =? 0))
                   (if final then object_ops e2 else 0)
                   (if final then object_context e2 else 0),
                 put_ofd ofd e2 t1))
        end
  end.

(** [hl_linux_ofd_finalize], the section at [retry_active]. *)
Inductive claim_outcome :=
| ClaimCorrupt
| ClaimActive
| Claimed (handle ops context : Z) (t : hl_linux_abi).

Definition cleared (e : hl_linux_ofd_entry) : hl_linux_ofd_entry :=
  mk_ofd HL_HOST_HANDLE_INVALID 0 0 (references e) (active_operations e) (closing e)
    (ofd_generation e) 0 (flock_token e) (io_mutex e) 0 0.

Definition finalize_claim (ofd : Z) (t : hl_linux_abi) : option claim_outcome :=
  match lookupZ (ofds t) ofd with
  | None => None
  | Some e =>
      if negb (references e =? 0) || (closing e =? 0) then Some ClaimCorrupt
      else if negb (active_operations e =? 0) then Some ClaimActive
      else Some (Claimed (host_handle e) (object_ops e) (object_context e)
                   (put_ofd ofd (cleared e) t))
  end.

(** [hl_linux_ofd_finalize], the last section: the slot becomes reusable. *)
Definition released (e : hl_linux_ofd_entry) : hl_linux_ofd_entry :=
  mk_ofd (host_handle e) (ofd_offset e) (status_flags e) (references e)
    (active_operations e) 0 (u32 (ofd_generation e + 1)) (ofd_kind e) (flock_token e)
    HL_HOST_HANDLE_INVALID (object_ops e) (object_context e).

Definition finalize_release (ofd mutex : Z) (t : hl_linux_abi)
  : option (hl_status * hl_linux_abi) :=
  match lookupZ (ofds t) ofd with
  | None => None
  | Some e =>
      if negb (references e =? 0) || negb (active_operations e =? 0) || (closing e =? 0) ||
         negb (io_mutex e =? mutex)
      then Some (HL_STATUS_CORRUPT, t)
      else Some (HL_STATUS_OK, put_ofd ofd (released e) t)
  end.

(** [hl_linux_fd_replace] (descriptor_control.c) under the lock: [inl] is an
    early return, [inr (Some ofd, t)] a replacement which displaced the last
    reference to [ofd]. *)
Definition replace_section (source target dflags : Z) (t : hl_linux_abi)
  : option (Z + option Z * hl_linux_abi) :=
  match hl_linux_fd_get_unlocked t source with
  | inl _ => Some (inl (- HL_LINUX_EBADF))
  | inr (_, source_ofd, _) =>
      match lookupZ (fds t) target with
      | None => Some (inl (- HL_LINUX_EBADF))
      | Some te =>
          if source =? target then Some (inl target)
          else
            let target_ofd := fd_ofd te in
            let displaced :=
              if negb (target_ofd =? 0) then
                match lookupZ (ofds t) target_ofd with
                | None => inl (- HL_LINUX_EIO)
                | Some e =>
                    if references e =? 0 then inl (- HL_LINUX_EIO)
                    else
                      let e1 := with_references (u32 (references e - 1)) e in
                      let e2 := if references e1 =? 0 then with_closing 1 e1 else e1 in
                      inr (Some target_ofd, put_ofd target_ofd e2 t)
                end
              else inr (None, t) in
            match displaced with
            | inl error => Some (inl error)
            | inr (displaced, t1) =>
                match link_fd target source_ofd dflags t1 with
                | None => None
                | Some t2 =>
                    let displaced :=
                      match displaced with
                      | Some ofd =>
                          match lookupZ (ofds t2) ofd with
                          | Some e => if negb (references e =? 0) then None else Some ofd
                          | None => None
                          end
                      | None => None
                      end in
                    Some (inr (displaced, t2))
                end
            end
      end
  end.

(** [ofd->active_operations++] and [--]. *)
Definition begin_entry (e : hl_linux_ofd_entry) : hl_linux_ofd_entry :=
  with_active (u32 (active_operations e + 1)) e.
Definition end_entry (e : hl_linux_ofd_entry) : hl_linux_ofd_entry :=
  with_active (u32 (active_operations e - 1)) e.

(** The release of a pin taken under a generation (object_access.c,
    context.c): the result tells whether the pin was the last thing that kept
    a closed OFD from being finalised. *)
Definition unpin_section (ofd generation : Z) (t : hl_linux_abi) : option (bool * hl_linux_abi) :=
  match lookupZ (ofds t) ofd with
  | None => None
  | Some e =>
      if (ofd_generation e =? generation) && negb (active_operations e =? 0) then
        let e' := end_entry e in
        Some ((active_operations e' =? 0) && (references e' =? 0) && negb (closing e' =? 0),
              put_ofd ofd e' t)
      else Some (false, t)
  end.
