(* ===== verification/Machine.v ===== *)
(** * The machine the handlers run on

    A handler of the Linux personality reads and writes the instance, calls
    the host, and draws open-file-description tokens from two process globals.
    [M A] threads that state; [None] is undefined behaviour (a call through a
    NULL pointer, an index outside an array) or a retry loop that never ends. *)

From S2P Require Import Prelude Status Host FdTable.

Section Machine.
Context {W : Type}.

Record machine := mk_machine {
  tbl : hl_linux_abi;
  token_counter : Z;       (** [g_linux_ofd_token_counter] *)
  process_id : Z;          (** [getpid()] *)
  constructed_count : Z;   (** [hl_linux_abi_constructed_count] *)
  destroyed_count : Z;     (** [hl_linux_abi_destroyed_count] *)
  world : W
}.

Definition set_tbl (t : hl_linux_abi) (m : machine) : machine :=
  mk_machine t (token_counter m) (process_id m) (constructed_count m)
    (destroyed_count m) (world m).
Definition set_world (w : W) (m : machine) : machine :=
  mk_machine (tbl m) (token_counter m) (process_id m) (constructed_count m)
    (destroyed_count m) w.
Definition set_token_counter (c : Z) (m : machine) : machine :=
  mk_machine (tbl m) c (process_id m) (constructed_count m) (destroyed_count m)
    (world m).
Definition bump_constructed (m : machine) : machine :=
  mk_machine (tbl m) (token_counter m) (process_id m)
    (u64 (constructed_count m + 1)) (destroyed_count m) (world m).
Definition bump_destroyed (m : machine) : machine :=
  mk_machine (tbl m) (token_counter m) (process_id m) (constructed_count m)
    (u64 (destroyed_count m + 1)) (world m).

Definition M (A : Type) : Type := machine -> option (A * machine).

Definition ret {A} (a : A) : M A := fun m => Some (a, m).
Definition bind {A B} (c : M A) (k : A -> M B) : M B :=
  fun m => match c m with Some (a, m') => k a m' | None => None end.
Definition undefined {A} : M A := fun _ => None.

Definition get_tbl : M hl_linux_abi := fun m => Some (tbl m, m).
Definition put_tbl (t : hl_linux_abi) : M unit := fun m => Some (tt, set_tbl t m).
Definition modify_machine (f : machine -> machine) : M unit := fun m => Some (tt, f m).

(** A call through a function pointer. *)
Definition call {B} (f : option (W -> B * W)) : M B := fun m =>
  match f with
  | None => None
  | Some g => let '(b, w) := g (world m) in Some (b, set_world w m)
  end.
Definition call1 {A B} (f : option (A -> W -> B * W)) (a : A) : M B :=
  call (match f with Some g => Some (g a) | None => None end).
Definition call2 {A A' B} (f : option (A -> A' -> W -> B * W)) (a : A) (a' : A') : M B :=
  call (match f with Some g => Some (g a a') | None => None end).
Definition call3 {A A' A'' B} (f : option (A -> A' -> A'' -> W -> B * W))
    (a : A) (a' : A') (a'' : A'') : M B :=
  call (match f with Some g => Some (g a a' a'') | None => None end).

(** [linux_abi->ofds[i]] read and written in place. *)
Definition get_ofd (i : Z) : M hl_linux_ofd_entry := fun m =>
  match lookupZ (ofds (tbl m)) i with Some e => Some (e, m) | None => None end.
Definition update_ofd (i : Z) (f : hl_linux_ofd_entry -> hl_linux_ofd_entry) : M unit :=
  fun m =>
    match lookupZ (ofds (tbl m)) i with
    | Some e => Some (tt, set_tbl (put_ofd i (f e) (tbl m)) m)
    | None => None
    end.

(** [hl_linux_new_ofd_token] (context.c). *)
Definition hl_linux_new_ofd_token : M Z := fun m =>
  let token := Z.lor (Z.shiftl (u32 (process_id m)) 32) (u32 (token_counter m + 1)) in
  Some (if token =? 0 then 1 else token,
        set_token_counter (u32 (token_counter m + 1)) m).
End Machine.

Arguments machine : clear implicits.
Arguments M : clear implicits.

Notation "'let!' x ':=' c 'in' k" := (bind c (fun x => k))
  (at level 10, x pattern, c at level 100, k at level 200) : hl_scope.
Notation "c ';;!' k" := (bind c (fun _ => k)) (at level 199, right associativity) : hl_scope.

Section Laws.
Context {W : Type}.

Lemma bind_ret_l {A B} (a : A) (k : A -> M W B) m : bind (ret a) k m = k a m.
Proof. done. Qed.

Lemma bind_Some {A B} (c : M W A) (k : A -> M W B) m b m' :
  bind c k m = Some (b, m') -> exists a m1, c m = Some (a, m1) /\ k a m1 = Some (b, m').
Proof. unfold bind. destruct (c m) as [[a m1]|]; [eauto|done]. Qed.

(** A host call changes nothing but the world. *)
Lemma call_Some {B} (f : option (W -> B * W)) (m : machine W) b m' :
  call f m = Some (b, m') -> exists w, m' = set_world w m.
Proof.
  unfold call. destruct f as [g|]; [|done].
  destruct (g (world m)) as [b' w]. intros [= <- <-]. eauto.
Qed.

Lemma set_world_world (m : machine W) : set_world (world m) m = m.
Proof. by destruct m. Qed.
Lemma set_world_set_world w w' (m : machine W) :
  set_world w (set_world w' m) = set_world w m.
Proof. done. Qed.
Lemma tbl_set_world w (m : machine W) : tbl (set_world w m) = tbl m.
Proof. done. Qed.
Lemma tbl_set_tbl t (m : machine W) : tbl (set_tbl t m) = t.
Proof. done. Qed.
End Laws.

#[export] Hint Rewrite @tbl_set_world @tbl_set_tbl @set_world_set_world : hl.
