(* ===== verification/FdOps.v ===== *)
(** * Descriptor operations

    [linux_abi/context.c] (services, init, destroy), [descriptor_install.c],
    [descriptor_reservation.c], [descriptor_lifecycle.c] and the descriptor
    part of [descriptor_control.c].  The table lock brackets straight-line
    code between two host calls; each such stretch is one update of [tbl]. *)

From S2P Require Import Prelude Status Host FdTable Machine.

Section Ops.
Context {W : Type}.
Variable host : hl_host_services W.
(** The static tables [const hl_linux_object_ops *] points to. *)
Variable vtable : Z -> hl_linux_object_ops W.

Implicit Types (fd ofd handle : Z).

(** ** Service lookup (context.c) *)

Definition hl_linux_sync : option (hl_host_sync_services W) :=
  match host_sync host with
  | Some s =>
      if negb (has_flag (capabilities host) HL_HOST_CAP_SYNC) ||
         negb (sync_abi s =? HL_HOST_SYNC_ABI) || (sync_size s <? sizeof_sync_services)
      then None else Some s
  | None => None
  end.

Definition hl_linux_files : option (hl_host_file_services W) :=
  match host_file host with
  | Some f =>
      if negb (has_flag (capabilities host) HL_HOST_CAP_FILE) ||
         negb (file_abi f =? HL_HOST_FILE_ABI) || (file_size f <? sizeof_file_services)
      then None else Some f
  | None => None
  end.

Definition hl_linux_streams : option (hl_host_stream_services W) :=
  match host_stream host with
  | Some s =>
      if negb (has_flag (capabilities host) HL_HOST_CAP_STREAM) ||
         negb (stream_abi s =? HL_HOST_STREAM_ABI) ||
         (stream_size s <? sizeof_stream_services)
      then None
      else match s_set_status_flags s with Some _ => Some s | None => None end
  | None => None
  end.

(** The code calls [hl_linux_sync(linux_abi)->mutex_lock] without a test. *)
Definition sync_lock (mutex : Z) : M W hl_host_result :=
  match hl_linux_sync with Some s => call1 (mutex_lock s) mutex | None => undefined end.
Definition sync_unlock (mutex : Z) : M W hl_host_result :=
  match hl_linux_sync with Some s => call1 (mutex_unlock s) mutex | None => undefined end.

Definition hl_linux_ofd_lock (ofd : Z) : M W unit :=
  let! e := get_ofd ofd in
  let! _ := sync_lock (io_mutex e) in ret tt.
Definition hl_linux_ofd_unlock (ofd : Z) : M W unit :=
  let! e := get_ofd ofd in
  let! _ := sync_unlock (io_mutex e) in ret tt.

(** ** Initialisation (context.c) *)

(** The storage is required zero-initialised: the caller's arrays are the
    table's arrays as they are. *)
Definition hl_linux_abi_init (fd_storage : list hl_linux_fd_entry)
    (ofd_storage : list hl_linux_ofd_entry) : M W hl_status :=
  if (lengthZ fd_storage =? 0) || (HL_LINUX_FD_LIMIT <? lengthZ fd_storage) ||
     (lengthZ ofd_storage <? 2) || (HL_LINUX_OFD_LIMIT <? lengthZ ofd_storage)
  then ret HL_STATUS_INVALID_ARGUMENT
  else
    put_tbl (mk_abi HL_LINUX_ABI_VERSION fd_storage ofd_storage 0 0) ;;!
    match hl_linux_sync with
    | Some (mk_sync _ _ (Some _) (Some _) (Some _) (Some _) _ _ _) =>
        modify_machine bump_constructed ;;! ret HL_STATUS_OK
    | _ =>
        let! t := get_tbl in
        put_tbl (set_version 0 t) ;;! ret HL_STATUS_NOT_SUPPORTED
    end.

Definition fd_is_reserved (e : hl_linux_fd_entry) : bool := fd_ofd e =? HL_LINUX_FD_RESERVED.
Definition ofd_busy (e : hl_linux_ofd_entry) : bool :=
  negb (references e =? 0) || negb (active_operations e =? 0) || negb (closing e =? 0).

Definition hl_linux_abi_destroy : M W hl_status :=
  let! t := get_tbl in
  if negb (abi_version t =? HL_LINUX_ABI_VERSION) then ret HL_STATUS_INVALID_ARGUMENT
  else
    match scan_from fd_is_reserved (fds t) 0 with
    | Some _ => ret HL_STATUS_BUSY
    | None =>
        match scan_from ofd_busy (drop 1 (ofds t)) 1 with
        | Some _ => ret HL_STATUS_BUSY
        | None =>
            put_tbl (set_version 0 t) ;;!
            modify_machine bump_destroyed ;;! ret HL_STATUS_OK
        end
    end.

(** ** Out-parameters (descriptor_output.h, reservation_output.h, count_output.h)

    An out-pointer is [None] when NULL and otherwise what it points to. *)

Definition hl_linux_fd_output_prepare (out : option Z) : bool * option Z :=
  match out with None => (false, None) | Some _ => (true, Some HL_LINUX_FD_LIMIT) end.
Definition hl_linux_count_output_prepare (out : option Z) : bool * option Z :=
  match out with None => (false, None) | Some _ => (true, Some 0) end.
Definition hl_linux_fd_reservation_output_prepare (out : option hl_linux_fd_reservation)
  : bool * option hl_linux_fd_reservation :=
  match out with
  | None => (false, None)
  | Some _ => (true, Some (mk_reservation HL_LINUX_FD_LIMIT 0))
  end.

(** ** Installation (descriptor_install.c) *)

(** The mutex a new OFD owns; [inl] is the status of the failed creation. *)
Definition create_io_mutex : M W (hl_status + Z * hl_host_sync_services W) :=
  match hl_linux_sync with
  | Some sync =>
      match mutex_create sync, mutex_close sync with
      | Some _, Some _ =>
          let! created := call (mutex_create sync) in
          if negb (is_ok (r_status created)) || (r_value created =? HL_HOST_HANDLE_INVALID)
          then ret (inl (if is_ok (r_status created) then HL_STATUS_RESOURCE_LIMIT
                         else r_status created))
          else ret (inr (r_value created, sync))
      | _, _ => ret (inl HL_STATUS_NOT_SUPPORTED)
      end
  | None => ret (inl HL_STATUS_NOT_SUPPORTED)
  end.

(** A section of FdTable.v run on the instance. *)
Definition section {A} (f : hl_linux_abi -> option (A * hl_linux_abi)) : M W A := fun m =>
  match f (tbl m) with
  | Some (a, t) => Some (a, set_tbl t m)
  | None => None
  end.
Definition section_ (f : hl_linux_abi -> option hl_linux_abi) : M W unit := fun m =>
  match f (tbl m) with
  | Some t => Some (tt, set_tbl t m)
  | None => None
  end.

Definition hl_linux_fd_install handle (flags dflags : Z) (out_fd : option Z)
  : M W (hl_status * option Z) :=
  let '(prepared, out_fd) := hl_linux_fd_output_prepare out_fd in
  if negb prepared then ret (HL_STATUS_INVALID_ARGUMENT, out_fd)
  else
    let! t := get_tbl in
    if negb (abi_version t =? HL_LINUX_ABI_VERSION) || (handle =? HL_HOST_HANDLE_INVALID)
    then ret (HL_STATUS_INVALID_ARGUMENT, out_fd)
    else
      let! created := create_io_mutex in
      match created with
      | inl status => ret (status, out_fd)
      | inr (mutex, sync) =>
          let! t := get_tbl in
          match hl_linux_find_fd t with
          | None =>
              let! _ := call1 (mutex_close sync) mutex in
              ret (HL_STATUS_RESOURCE_LIMIT, out_fd)
          | Some fd =>
              match hl_linux_find_ofd t with
              | None =>
                  let! _ := call1 (mutex_close sync) mutex in
                  ret (HL_STATUS_RESOURCE_LIMIT, out_fd)
              | Some (ofd, t') =>
                  put_tbl t' ;;!
                  let! token := hl_linux_new_ofd_token in
                  section_ (update_entry ofd (file_entry handle flags mutex token)) ;;!
                  section_ (bind_fd fd ofd dflags) ;;!
                  ret (HL_STATUS_OK, Some fd)
              end
          end
      end.

Definition hl_linux_fd_install_at fd handle (flags dflags : Z) : M W hl_status :=
  let! t := get_tbl in
  if negb (abi_version t =? HL_LINUX_ABI_VERSION) || (fd_capacity t <=? fd) ||
     (handle =? HL_HOST_HANDLE_INVALID)
  then ret HL_STATUS_INVALID_ARGUMENT
  else
    let! created := create_io_mutex in
    match created with
    | inl status => ret status
    | inr (mutex, sync) =>
        let! t := get_tbl in
        match lookupZ (fds t) fd with
        | None => undefined
        | Some e =>
            if negb (fd_ofd e =? 0) then
              let! _ := call1 (mutex_close sync) mutex in ret HL_STATUS_ALREADY_EXISTS
            else
              match hl_linux_find_ofd t with
              | None =>
                  let! _ := call1 (mutex_close sync) mutex in ret HL_STATUS_RESOURCE_LIMIT
              | Some (ofd, t') =>
                  put_tbl t' ;;!
                  let! token := hl_linux_new_ofd_token in
                  section_ (update_entry ofd (file_entry handle flags mutex token)) ;;!
                  section_ (bind_fd fd ofd dflags) ;;!
                  ret HL_STATUS_OK
              end
        end
    end.

(** The candidate entry is built away from the table and stored whole. *)
Definition hl_linux_object_install_common (requested ops context kind flags dflags : Z)
    (out_fd : option Z) : M W (hl_status * option Z) :=
  let! t := get_tbl in
  if negb (abi_version t =? HL_LINUX_ABI_VERSION) || (ops =? 0) ||
     match o_close (vtable ops) with None => true | Some _ => false end ||
     (context =? 0) || match out_fd with None => true | Some _ => false end ||
     (negb (requested =? UINT32_MAX) && (fd_capacity t <=? requested))
  then ret (HL_STATUS_INVALID_ARGUMENT, out_fd)
  else
    let! created := create_io_mutex in
    match created with
    | inl status => ret (status, out_fd)
    | inr (mutex, sync) =>
        let! token := hl_linux_new_ofd_token in
        let! t := get_tbl in
        let! chosen :=
          (if requested =? UINT32_MAX then
             ret (match hl_linux_find_fd t with
                  | Some fd => inr fd
                  | None => inl HL_STATUS_RESOURCE_LIMIT
                  end)
           else
             match lookupZ (fds t) requested with
             | None => undefined
             | Some e => ret (if negb (fd_ofd e =? 0) then inl HL_STATUS_ALREADY_EXISTS
                              else inr requested)
             end) in
        let chosen :=
          match chosen with
          | inl status => inl status
          | inr fd =>
              match hl_linux_find_ofd t with
              | None => inl HL_STATUS_RESOURCE_LIMIT
              | Some (ofd, t') => inr (fd, ofd, t')
              end
          end in
        match chosen with
        | inl status =>
            let! _ := call1 (mutex_close sync) mutex in ret (status, out_fd)
        | inr (fd, ofd, t') =>
            put_tbl t' ;;!
            section_ (update_entry ofd (object_entry ops context kind flags mutex token)) ;;!
            section_ (bind_fd fd ofd dflags) ;;!
            ret (HL_STATUS_OK, Some fd)
        end
    end.

Definition hl_linux_object_install (ops context kind flags dflags : Z) (out_fd : option Z)
  : M W (hl_status * option Z) :=
  hl_linux_object_install_common UINT32_MAX ops context kind flags dflags out_fd.

Definition hl_linux_object_install_at (fd ops context kind flags dflags : Z) : M W hl_status :=
  let! r := hl_linux_object_install_common fd ops context kind flags dflags (Some UINT32_MAX) in
  ret (fst r).

(** ** Reservation (descriptor_reservation.c) *)

Definition hl_linux_fd_reserve_at fd (out : option hl_linux_fd_reservation)
  : M W (hl_status * option hl_linux_fd_reservation) :=
  let '(prepared, out) := hl_linux_fd_reservation_output_prepare out in
  if negb prepared then ret (HL_STATUS_INVALID_ARGUMENT, out)
  else
    let! t := get_tbl in
    if negb (abi_version t =? HL_LINUX_ABI_VERSION) || (fd_capacity t <=? fd)
    then ret (HL_STATUS_INVALID_ARGUMENT, out)
    else
      match lookupZ (fds t) fd with
      | None => undefined
      | Some e =>
          if negb (fd_ofd e =? 0) then ret (HL_STATUS_ALREADY_EXISTS, out)
          else
            let generation := u32 (fd_generation e + 1) in
            put_tbl (set_reserved (u32 (reserved_fds t + 1))
                       (put_fd fd (mk_fd HL_LINUX_FD_RESERVED 0 generation) t)) ;;!
            ret (HL_STATUS_OK, Some (mk_reservation fd generation))
      end.

(** [if (linux_abi->reserved_fds != 0) linux_abi->reserved_fds--;] *)
Definition drop_reserved (t : hl_linux_abi) : hl_linux_abi :=
  if negb (reserved_fds t =? 0) then set_reserved (u32 (reserved_fds t - 1)) t else t.

(** The slot is still the one the token was issued for. *)
Definition reservation_valid (t : hl_linux_abi) (r : hl_linux_fd_reservation) : bool :=
  match lookupZ (fds t) (rsv_fd r) with
  | None => false
  | Some e => (fd_ofd e =? HL_LINUX_FD_RESERVED) && (fd_generation e =? rsv_generation r)
  end.

Definition hl_linux_fd_cancel (reservation : option hl_linux_fd_reservation) : M W hl_status :=
  let! t := get_tbl in
  match reservation with
  | None => ret HL_STATUS_INVALID_ARGUMENT
  | Some r =>
      if negb (abi_version t =? HL_LINUX_ABI_VERSION) || (fd_capacity t <=? rsv_fd r)
      then ret HL_STATUS_INVALID_ARGUMENT
      else
        match lookupZ (fds t) (rsv_fd r) with
        | None => undefined
        | Some e =>
            if negb (reservation_valid t r) then ret HL_STATUS_NOT_FOUND
            else
              put_tbl (drop_reserved
                         (put_fd (rsv_fd r) (mk_fd 0 (descriptor_flags e) (fd_generation e)) t)) ;;!
              ret HL_STATUS_OK
        end
  end.

Definition hl_linux_fd_commit (r : hl_linux_fd_reservation) handle (flags dflags : Z)
  : M W hl_status :=
  if handle =? HL_HOST_HANDLE_INVALID then ret HL_STATUS_INVALID_ARGUMENT
  else
    let! created := create_io_mutex in
    match created with
    | inl status => ret status
    | inr (mutex, sync) =>
        let! t := get_tbl in
        match lookupZ (fds t) (rsv_fd r) with
        | Some e =>
            if negb (reservation_valid t r) then
              let! _ := call1 (mutex_close sync) mutex in ret HL_STATUS_NOT_FOUND
            else
              match hl_linux_find_ofd t with
              | None =>
                  let! _ := call1 (mutex_close sync) mutex in ret HL_STATUS_RESOURCE_LIMIT
              | Some (ofd, t') =>
                  put_tbl t' ;;!
                  let! token := hl_linux_new_ofd_token in
                  section_ (update_entry ofd (file_entry handle flags mutex token)) ;;!
                  let! t := get_tbl in
                  put_tbl (drop_reserved
                             (put_fd (rsv_fd r) (mk_fd ofd dflags (fd_generation e)) t)) ;;!
                  ret HL_STATUS_OK
              end
        | None => let! _ := call1 (mutex_close sync) mutex in ret HL_STATUS_NOT_FOUND
        end
    end.

(** [hl_linux_fd_snapshot_get]: the fields of the snapshot structure. *)
Definition hl_linux_fd_snapshot_get fd
  : M W (hl_status * option (hl_linux_fd_entry * Z * hl_linux_ofd_entry)) :=
  let! t := get_tbl in
  match hl_linux_fd_get_unlocked t fd with
  | inl status => ret (status, None)
  | inr found => ret (HL_STATUS_OK, Some found)
  end.

(** ** Duplication (descriptor_lifecycle.c) *)

Definition hl_linux_fd_dup source (dflags : Z) (out_fd : option Z) : M W (hl_status * option Z) :=
  let '(prepared, out_fd) := hl_linux_fd_output_prepare out_fd in
  if negb prepared then ret (HL_STATUS_INVALID_ARGUMENT, out_fd)
  else
    let! t := get_tbl in
    match hl_linux_fd_get_unlocked t source with
    | inl status => ret (status, out_fd)
    | inr (_, ofd, _) =>
        match hl_linux_find_fd t with
        | None => ret (HL_STATUS_RESOURCE_LIMIT, out_fd)
        | Some fd => section_ (link_fd fd ofd dflags) ;;! ret (HL_STATUS_OK, Some fd)
        end
    end.

(** [status == HL_STATUS_NOT_FOUND ? -HL_LINUX_EBADF : hl_linux_error(status)] *)
Definition lookup_error (status : hl_status) : Z :=
  if is_not_found status then - HL_LINUX_EBADF else hl_linux_error status.

Definition hl_linux_fd_dup_at_least source (minimum dflags : Z) : M W Z :=
  let! t := get_tbl in
  match hl_linux_fd_get_unlocked t source with
  | inl status => ret (lookup_error status)
  | inr (_, ofd, _) =>
      match hl_linux_find_fd_at_least t minimum with
      | None => ret (- HL_LINUX_EMFILE)
      | Some fd => section_ (link_fd fd ofd dflags) ;;! ret fd
      end
  end.

(** ** Final close (descriptor_lifecycle.c) *)

Definition keep_first (first next : hl_status) : hl_status :=
  if is_ok first then next else first.

(** The wait at [retry_active]; [locked] is the status of the last
    [mutex_lock].  [inl] is an early return. *)
Fixpoint finalize_wait (fuel : nat) (ofd mutex : Z) (locked : hl_status)
  : M W (hl_status + hl_status * Z * Z * Z) :=
  let! t := get_tbl in
  match finalize_claim ofd t with
  | None => undefined
  | Some ClaimCorrupt =>
      (if is_ok locked then let! _ := sync_unlock mutex in ret tt else ret tt) ;;!
      ret (inl HL_STATUS_CORRUPT)
  | Some ClaimActive =>
      if negb (is_ok locked) then ret (inl locked)
      else
        let! _ := sync_unlock mutex in
        let! result := sync_lock mutex in
        if negb (is_ok (r_status result)) then ret (inl (r_status result))
        else match fuel with
             | O => undefined
             | S fuel => finalize_wait fuel ofd mutex (r_status result)
             end
  | Some (Claimed handle ops context t') =>
      put_tbl t' ;;! ret (inr (locked, handle, ops, context))
  end.

Definition sync_close (mutex : Z) : M W hl_host_result :=
  match hl_linux_sync with Some s => call1 (mutex_close s) mutex | None => undefined end.

(** [last] is the out-pointer [last_host_handle]. *)
Definition hl_linux_ofd_finalize (fuel : nat) (ofd : Z) (last : option Z)
  : M W (hl_status * option Z) :=
  let! e := get_ofd ofd in
  let mutex := io_mutex e in
  let! result := sync_lock mutex in
  let! claimed := finalize_wait fuel ofd mutex (r_status result) in
  match claimed with
  | inl status => ret (status, last)
  | inr (locked, handle, ops, context) =>
      let close_status := r_status result in
      let! close_status :=
        (if negb (ops =? 0) then call1 (o_close (vtable ops)) context
         else ret close_status) in
      let! close_status :=
        (if is_ok locked then
           let! r := sync_unlock mutex in ret (keep_first close_status (r_status r))
         else ret close_status) in
      let! r := sync_close mutex in
      let close_status := keep_first close_status (r_status r) in
      let! released := section (finalize_release ofd mutex) in
      if negb (is_ok released) then ret (released, last)
      else ret (close_status, match last with Some _ => Some handle | None => None end)
  end.

Definition hl_linux_fd_close (fuel : nat) fd (last : option Z) : M W (hl_status * option Z) :=
  let last := match last with Some _ => Some HL_HOST_HANDLE_INVALID | None => None end in
  let! t := get_tbl in
  match close_section fd t with
  | None => undefined
  | Some (inl status) => ret (status, last)
  | Some (inr (outcome, t')) =>
      put_tbl t' ;;!
      (if negb (co_retire_ops outcome =? 0) then
         match o_retire (vtable (co_retire_ops outcome)) with
         | Some retire =>
             call (Some (fun w => (tt, retire (co_retire_context outcome) w)))
         | None => ret tt
         end
       else ret tt) ;;!
      if co_final outcome && negb (co_deferred outcome)
      then hl_linux_ofd_finalize fuel (co_ofd outcome) last
      else ret (HL_STATUS_OK, last)
  end.

(** [hl_linux_ofd_finalize_owned] (context.c). *)
Definition hl_linux_ofd_finalize_owned (fuel : nat) (ofd : Z) : M W hl_status :=
  let! r := hl_linux_ofd_finalize fuel ofd (Some HL_HOST_HANDLE_INVALID) in
  let '(status, handle) := r in
  let handle := default HL_HOST_HANDLE_INVALID handle in
  if negb (handle =? HL_HOST_HANDLE_INVALID) then
    match hl_linux_files with
    | Some files =>
        match f_close files with
        | Some _ =>
            let! closed := call1 (f_close files) handle in
            ret (keep_first status (r_status closed))
        | None => ret (keep_first status HL_STATUS_NOT_SUPPORTED)
        end
    | None => ret (keep_first status HL_STATUS_NOT_SUPPORTED)
    end
  else ret status.

(** [hl_linux_close] (descriptor_control.c). *)
Definition hl_linux_close (fuel : nat) fd : M W Z :=
  let! r := hl_linux_fd_close fuel fd (Some HL_HOST_HANDLE_INVALID) in
  let '(status, handle) := r in
  let handle := default HL_HOST_HANDLE_INVALID handle in
  if negb (is_ok status) then ret (lookup_error status)
  else if handle =? HL_HOST_HANDLE_INVALID then ret 0
  else
    match hl_linux_files with
    | Some files =>
        match f_close files with
        | Some _ =>
            let! result := call1 (f_close files) handle in
            ret (if is_ok (r_status result) then 0 else hl_linux_error (r_status result))
        | None => ret (- HL_LINUX_ENOSYS)
        end
    | None => ret (- HL_LINUX_ENOSYS)
    end.
End Ops.
