(* ===== verification/FdControl.v ===== *)
(** * Descriptor control

    [linux_abi/descriptor_control.c] (dup, dup2, dup3, fcntl) and the
    close-on-exec policy of [linux_abi/descriptor_lifecycle.c]. *)

From S2P Require Import Prelude Status Host FdTable Machine FdOps.

Definition HL_LINUX_F_DUPFD : Z := 0.
Definition HL_LINUX_F_GETFD : Z := 1.
Definition HL_LINUX_F_SETFD : Z := 2.
Definition HL_LINUX_F_GETFL : Z := 3.
Definition HL_LINUX_F_SETFL : Z := 4.
Definition HL_LINUX_F_DUPFD_CLOEXEC : Z := 1030.

(** [requested] and the final [status_flags] of the [F_SETFL] case. *)
Definition setfl_requested (current argument : Z) : Z :=
  Z.lor (Z.ldiff current HL_LINUX_O_SETFL) (Z.land (u32 argument) HL_LINUX_O_SETFL).
Definition setfl_recorded (requested effective : Z) : Z :=
  Z.lor (Z.ldiff requested HL_LINUX_O_SETFL_HOST) (Z.land effective HL_LINUX_O_SETFL_HOST).

Section Control.
Context {W : Type}.
Variable host : hl_host_services W.
Variable vtable : Z -> hl_linux_object_ops W.

Definition hl_linux_dup (fd : Z) : M W Z := hl_linux_fd_dup_at_least fd 0 0.

Definition hl_linux_fd_replace (fuel : nat) (source target dflags : Z) (reject_same : bool)
  : M W Z :=
  if (source =? target) && reject_same then ret (- HL_LINUX_EINVAL)
  else
    let! t := get_tbl in
    match replace_section source target dflags t with
    | None => undefined
    | Some (inl result) => ret result
    | Some (inr (displaced, t')) =>
        put_tbl t' ;;!
        match displaced with
        | None => ret target
        | Some ofd =>
            let! r := hl_linux_ofd_finalize host vtable fuel ofd (Some HL_HOST_HANDLE_INVALID) in
            let handle := default HL_HOST_HANDLE_INVALID (snd r) in
            match hl_linux_files host with
            | Some files =>
                match f_close files with
                | Some _ => let! _ := call1 (f_close files) handle in ret target
                | None => ret target
                end
            | None => ret target
            end
        end
    end.

Definition hl_linux_dup2 (fuel : nat) (source target : Z) : M W Z :=
  hl_linux_fd_replace fuel source target 0 false.

Definition hl_linux_dup3 (fuel : nat) (source target flags : Z) : M W Z :=
  if negb (Z.ldiff flags HL_LINUX_O_CLOEXEC =? 0) then ret (- HL_LINUX_EINVAL)
  else hl_linux_fd_replace fuel source target
         (if has_flag flags HL_LINUX_O_CLOEXEC then HL_LINUX_FD_CLOEXEC else 0) true.

(** The [F_SETFL] case of [hl_linux_fcntl]. *)
Definition fcntl_setfl (ofd : Z) (e : hl_linux_ofd_entry) (argument : Z) : M W Z :=
  let requested := setfl_requested (status_flags e) argument in
  let effective := Z.land requested HL_LINUX_O_SETFL_HOST in
  match (if negb (object_ops e =? 0) then o_set_status_flags (vtable (object_ops e)) else None) with
  | Some set_flags =>
      update_ofd ofd begin_entry ;;!
      hl_linux_ofd_lock host ofd ;;!
      let! r := call (Some (set_flags (object_context e) requested effective)) in
      let '(result, effective) := r in
      (if result =? 0
       then update_ofd ofd (with_status_flags (setfl_recorded requested effective))
       else ret tt) ;;!
      update_ofd ofd end_entry ;;!
      hl_linux_ofd_unlock host ofd ;;!
      ret result
  | None =>
      if negb (host_handle e =? HL_HOST_HANDLE_INVALID) then
        match hl_linux_streams host with
        | None => ret (- HL_LINUX_ENOSYS)
        | Some streams =>
            update_ofd ofd begin_entry ;;!
            hl_linux_ofd_lock host ofd ;;!
            let! result := call2 (s_set_status_flags streams) (host_handle e)
                             (hl_linux_host_stream_flags requested) in
            (if is_ok (r_status result)
             then update_ofd ofd (with_status_flags
                    (setfl_recorded requested
                       (hl_linux_status_flags_from_host_stream (u32 (r_value result)))))
             else ret tt) ;;!
            update_ofd ofd end_entry ;;!
            hl_linux_ofd_unlock host ofd ;;!
            ret (if is_ok (r_status result) then 0 else hl_linux_error (r_status result))
        end
      else
        update_ofd ofd (with_status_flags requested) ;;! ret 0
  end.

Definition hl_linux_fcntl (fd command argument : Z) : M W Z :=
  let! t := get_tbl in
  if (command =? HL_LINUX_F_DUPFD) || (command =? HL_LINUX_F_DUPFD_CLOEXEC) then
    if fd_capacity t <=? argument then ret (- HL_LINUX_EINVAL)
    else hl_linux_fd_dup_at_least fd argument
           (if command =? HL_LINUX_F_DUPFD_CLOEXEC then HL_LINUX_FD_CLOEXEC else 0)
  else
    match hl_linux_fd_get_unlocked t fd with
    | inl status => ret (lookup_error status)
    | inr (fe, ofd, e) =>
        if command =? HL_LINUX_F_GETFD then ret (descriptor_flags fe)
        else if command =? HL_LINUX_F_SETFD then
          put_tbl (put_fd fd (mk_fd (fd_ofd fe) (Z.land (u32 argument) HL_LINUX_FD_CLOEXEC)
                                (fd_generation fe)) t) ;;!
          ret 0
        else if command =? HL_LINUX_F_GETFL then ret (status_flags e)
        else if command =? HL_LINUX_F_SETFL then fcntl_setfl ofd e argument
        else ret (- HL_LINUX_EINVAL)
    end.

(** ** Close-on-exec (descriptor_lifecycle.c) *)

Definition hl_linux_fd_exec (fuel : nat) (fd : Z) (out_closed : option Z)
  : M W (hl_status * option Z) :=
  let '(prepared, out_closed) := hl_linux_count_output_prepare out_closed in
  if negb prepared then ret (HL_STATUS_INVALID_ARGUMENT, out_closed)
  else
    let! t := get_tbl in
    if negb (abi_version t =? HL_LINUX_ABI_VERSION)
    then ret (HL_STATUS_INVALID_ARGUMENT, out_closed)
    else
      match lookupZ (fds t) fd with
      | None => ret (HL_STATUS_NOT_FOUND, out_closed)
      | Some fe =>
          if (fd_ofd fe =? 0) || (fd_ofd fe =? HL_LINUX_FD_RESERVED)
          then ret (HL_STATUS_NOT_FOUND, out_closed)
          else if negb (has_flag (descriptor_flags fe) HL_LINUX_FD_CLOEXEC)
          then ret (HL_STATUS_OK, out_closed)
          else
            let! r := hl_linux_fd_close host vtable fuel fd (Some HL_HOST_HANDLE_INVALID) in
            let '(status, handle) := r in
            let handle := default HL_HOST_HANDLE_INVALID handle in
            if negb (is_ok status) then ret (status, Some 1)
            else if handle =? HL_HOST_HANDLE_INVALID then ret (HL_STATUS_OK, Some 1)
            else
              match hl_linux_files host with
              | Some files =>
                  match f_close files with
                  | Some _ =>
                      let! result := call1 (f_close files) handle in
                      ret (r_status result, Some 1)
                  | None => ret (HL_STATUS_NOT_SUPPORTED, Some 1)
                  end
              | None => ret (HL_STATUS_NOT_SUPPORTED, Some 1)
              end
      end.

Definition cloexec_candidate (e : hl_linux_fd_entry) : bool :=
  negb (fd_ofd e =? 0) && negb (fd_ofd e =? HL_LINUX_FD_RESERVED) &&
  has_flag (descriptor_flags e) HL_LINUX_FD_CLOEXEC.

(** The [while (cursor < fd_capacity)] loop; [steps] bounds its iterations. *)
Fixpoint exec_all_loop (steps : nat) (fuel : nat) (callback : option (Z -> W -> W))
    (cursor : Z) (first : hl_status) (count : Z) : M W (hl_status * Z) :=
  let! t := get_tbl in
  if fd_capacity t <=? cursor then ret (first, count)
  else
    match scan_from cloexec_candidate (drop (Z.to_nat cursor) (fds t)) cursor with
    | None => ret (first, count)
    | Some candidate =>
        match steps with
        | O => undefined
        | S steps =>
            let! r := hl_linux_fd_exec fuel candidate (Some 0) in
            let '(status, removed) := r in
            let first := keep_first first status in
            if negb (default 0 removed =? 0) then
              match callback with
              | Some notify => call (Some (fun w => (tt, notify candidate w)))
              | None => ret tt
              end ;;!
              exec_all_loop steps fuel callback (candidate + 1) first (u32 (count + 1))
            else exec_all_loop steps fuel callback (candidate + 1) first count
        end
    end.

Definition hl_linux_fd_exec_all (steps fuel : nat) (callback : option (Z -> W -> W))
    (out_closed : option Z) : M W (hl_status * option Z) :=
  let '(prepared, out_closed) := hl_linux_count_output_prepare out_closed in
  if negb prepared then ret (HL_STATUS_INVALID_ARGUMENT, out_closed)
  else
    let! t := get_tbl in
    if negb (abi_version t =? HL_LINUX_ABI_VERSION)
    then ret (HL_STATUS_INVALID_ARGUMENT, out_closed)
    else
      let! r := exec_all_loop steps fuel callback 0 HL_STATUS_OK 0 in
      ret (fst r, Some (snd r)).
End Control.
