(* ===== verification/FdIO.v ===== *)
(** * File I/O on descriptors

    [linux_abi/stream_read.c], [stream_write.c] (the I/O entry points, not the
    test fixture that follows them), [file_control.c], [file_metadata.c] and
    the positioned read at the end of [descriptor_lifecycle.c].  Every entry
    pins the OFD under the table lock, runs the host call under the OFD's own
    mutex, and drops the pin before releasing that mutex. *)

From S2P Require Import Prelude Status Host FdTable Machine FdOps.

Definition HL_LINUX_IOV_MAX : Z := 1024.
Definition HL_LINUX_SEEK_SET : Z := 0.
Definition HL_LINUX_SEEK_CUR : Z := 1.
Definition HL_LINUX_SEEK_END : Z := 2.
Definition HL_LINUX_SEEK_DATA : Z := 3.
Definition HL_LINUX_SEEK_HOLE : Z := 4.
Definition HL_LINUX_AT_FDCWD : Z := -100.

Definition HL_HOST_FILE_TYPE_REGULAR : Z := 1.
Definition HL_HOST_FILE_TYPE_DIRECTORY : Z := 2.
Definition HL_HOST_FILE_TYPE_SYMLINK : Z := 3.
Definition HL_HOST_FILE_TYPE_CHARACTER : Z := 4.
Definition HL_HOST_FILE_TYPE_BLOCK : Z := 5.
Definition HL_HOST_FILE_TYPE_FIFO : Z := 6.
Definition HL_HOST_FILE_TYPE_SOCKET : Z := 7.

(** [hl_linux_mode_type] (file_metadata.c). *)
Definition hl_linux_mode_type (host_type : Z) : Z :=
  if host_type =? HL_HOST_FILE_TYPE_REGULAR then 0x8000
  else if host_type =? HL_HOST_FILE_TYPE_DIRECTORY then 0x4000
  else if host_type =? HL_HOST_FILE_TYPE_SYMLINK then 0xA000
  else if host_type =? HL_HOST_FILE_TYPE_CHARACTER then 0x2000
  else if host_type =? HL_HOST_FILE_TYPE_BLOCK then 0x6000
  else if host_type =? HL_HOST_FILE_TYPE_FIFO then 0x1000
  else if host_type =? HL_HOST_FILE_TYPE_SOCKET then 0xC000
  else 0.

Definition is_wronly (flags : Z) : bool := Z.land flags HL_LINUX_O_ACCMODE =? HL_LINUX_O_WRONLY.
Definition is_rdonly (flags : Z) : bool := Z.land flags HL_LINUX_O_ACCMODE =? HL_LINUX_O_RDONLY.

(** The syscall result of a transfer of at most [limit] bytes. *)
Definition transfer_result (r : hl_host_result) (limit : Z) : Z :=
  if negb (is_ok (r_status r)) then hl_linux_error (r_status r)
  else if (limit <? r_value r) || (INT64_MAX <? r_value r) then - HL_LINUX_EIO
  else r_value r.

Definition status_result (r : hl_host_result) : Z :=
  if is_ok (r_status r) then 0 else hl_linux_error (r_status r).

Definition not_supported : hl_host_result := mk_result HL_STATUS_NOT_SUPPORTED 0 0.

(** The validation loop of [hl_linux_vector]; [None] is [-EINVAL]. *)
Fixpoint vector_total (vectors : list hl_host_iovec) (total : Z) : option Z :=
  match vectors with
  | [] => Some total
  | v :: rest =>
      if (INT64_MAX - total <? iov_size v) || (negb (iov_size v =? 0) && (iov_address v =? 0))
      then None
      else vector_total rest (total + iov_size v)
  end.

Section IO.
Context {W : Type}.
Variable host : hl_host_services W.
Variable vtable : Z -> hl_linux_object_ops W.

(** [active_operations++]; unlock; lock the OFD; BODY; [active_operations--];
    unlock the OFD. *)
Definition with_operation {A} (ofd : Z) (body : M W A) : M W A :=
  update_ofd ofd begin_entry ;;!
  hl_linux_ofd_lock host ofd ;;!
  let! result := body in
  update_ofd ofd end_entry ;;!
  hl_linux_ofd_unlock host ofd ;;!
  ret result.

(** A call through a pointer the code tests first. *)
Definition call_or {B} (missing : B) (f : option (W -> B * W)) : M W B :=
  match f with Some g => call (Some g) | None => ret missing end.

(** [ofd->offset += result] when the sum is representable. *)
Definition advance_offset (ofd result : Z) : M W unit :=
  let! e := get_ofd ofd in
  if ofd_offset e <=? UINT64_MAX - result
  then update_ofd ofd (with_offset (ofd_offset e + result)) else ret tt.

(** The offset after an append: the host's end of file. *)
Definition resync_offset (ofd : Z) (files : hl_host_file_services W) : M W unit :=
  match f_seek files with
  | Some seek =>
      let! e := get_ofd ofd in
      let! r := call (Some (seek (host_handle e) 0 HL_LINUX_SEEK_END)) in
      if is_ok (r_status r) then update_ofd ofd (with_offset (r_value r)) else ret tt
  | None => ret tt
  end.

(** ** Reads (descriptor_lifecycle.c, stream_read.c) *)

Definition hl_linux_pread64_owned (ofd buffer size offset : Z) : M W Z :=
  let! e := get_ofd ofd in
  if has_flag (status_flags e) HL_LINUX_O_PATH then ret (- HL_LINUX_EBADF)
  else if is_wronly (status_flags e) then ret (- HL_LINUX_EBADF)
  else if negb (size =? 0) && (buffer =? 0) then ret (- HL_LINUX_EINVAL)
  else
    match hl_linux_files host with
    | Some files =>
        match f_read_at files with
        | Some read_at =>
            let! r := call (Some (read_at (host_handle e) offset buffer size)) in
            ret (transfer_result r size)
        | None => ret (- HL_LINUX_ENOSYS)
        end
    | None => ret (- HL_LINUX_ENOSYS)
    end.

Definition hl_linux_pread64 (fd buffer size offset : Z) : M W Z :=
  if INT64_MAX <? size then ret (- HL_LINUX_EINVAL)
  else
    let! t := get_tbl in
    match hl_linux_fd_get_unlocked t fd with
    | inl status => ret (lookup_error status)
    | inr (_, ofd, _) => with_operation ofd (hl_linux_pread64_owned ofd buffer size offset)
    end.

Definition read_body (ofd buffer size : Z) : M W Z :=
  let! e := get_ofd ofd in
  if has_flag (status_flags e) HL_LINUX_O_PATH || is_wronly (status_flags e)
  then ret (- HL_LINUX_EBADF)
  else if negb (size =? 0) && (buffer =? 0) then ret (- HL_LINUX_EINVAL)
  else if negb (object_ops e =? 0) then
    match o_read (vtable (object_ops e)) with
    | None => ret (- HL_LINUX_ENOSYS)
    | Some read => call (Some (read (object_context e) buffer size))
    end
  else
    match hl_linux_files host with
    | Some files =>
        match f_read files with
        | Some read =>
            let! r := call (Some (read (host_handle e) buffer size)) in
            let result := transfer_result r size in
            (if 0 <? result then advance_offset ofd result else ret tt) ;;!
            ret result
        | None => ret (- HL_LINUX_ENOSYS)
        end
    | None => ret (- HL_LINUX_ENOSYS)
    end.

Definition hl_linux_read (fd buffer size : Z) : M W Z :=
  if INT64_MAX <? size then ret (- HL_LINUX_EINVAL)
  else
    let! t := get_tbl in
    match hl_linux_fd_get_unlocked t fd with
    | inl status => ret (lookup_error status)
    | inr (_, ofd, _) => with_operation ofd (read_body ofd buffer size)
    end.

(** ** Writes (stream_read.c, stream_write.c) *)

Definition hl_linux_write_owned (ofd buffer size offset : Z) : M W Z :=
  let! e := get_ofd ofd in
  if has_flag (status_flags e) HL_LINUX_O_PATH then ret (- HL_LINUX_EBADF)
  else if negb (size =? 0) && (buffer =? 0) then ret (- HL_LINUX_EINVAL)
  else
    match hl_linux_files host with
    | Some files =>
        match f_write_at files with
        | Some write_at =>
            let! r := call (Some (write_at (host_handle e) offset buffer size)) in
            ret (transfer_result r size)
        | None => ret (- HL_LINUX_ENOSYS)
        end
    | None => ret (- HL_LINUX_ENOSYS)
    end.

Definition hl_linux_pwrite64 (fd buffer size offset : Z) : M W Z :=
  if INT64_MAX <? size then ret (- HL_LINUX_EINVAL)
  else
    let! t := get_tbl in
    match hl_linux_fd_get_unlocked t fd with
    | inl status => ret (lookup_error status)
    | inr (_, ofd, e) =>
        if is_rdonly (status_flags e) then ret (- HL_LINUX_EBADF)
        else with_operation ofd (hl_linux_write_owned ofd buffer size offset)
    end.

Definition write_body (ofd buffer size : Z) (append : bool) : M W Z :=
  let! e := get_ofd ofd in
  if negb (size =? 0) && (buffer =? 0) then ret (- HL_LINUX_EINVAL)
  else if negb (object_ops e =? 0) then
    match o_write (vtable (object_ops e)) with
    | None => ret (- HL_LINUX_ENOSYS)
    | Some write => call (Some (write (object_context e) buffer size))
    end
  else
    match hl_linux_files host with
    | None => ret (- HL_LINUX_ENOSYS)
    | Some files =>
        let! r := (if append then call3 (f_append files) (host_handle e) buffer size
                   else call3 (f_write files) (host_handle e) buffer size) in
        let result := transfer_result r size in
        (if 0 <? result then
           if append then resync_offset ofd files else advance_offset ofd result
         else ret tt) ;;!
        ret result
    end.

Definition hl_linux_write (fd buffer size : Z) : M W Z :=
  if INT64_MAX <? size then ret (- HL_LINUX_EINVAL)
  else
    let! t := get_tbl in
    match hl_linux_fd_get_unlocked t fd with
    | inl status => ret (lookup_error status)
    | inr (_, ofd, e) =>
        if is_rdonly (status_flags e) then ret (- HL_LINUX_EBADF)
        else with_operation ofd
               (write_body ofd buffer size (has_flag (status_flags e) HL_LINUX_O_APPEND))
    end.

(** ** Vectors (stream_write.c): operation 0 readv, 1 writev, 2 preadv, 3 pwritev *)

Definition vector_body (ofd : Z) (vectors : list hl_host_iovec) (offset operation total : Z)
    (append : bool) : M W Z :=
  let! e := get_ofd ofd in
  match hl_linux_files host with
  | None => ret (- HL_LINUX_ENOSYS)
  | Some files =>
      let h := host_handle e in
      let! r :=
        (if operation =? 0 then
           call_or not_supported (option_map (fun f => f h vectors) (f_readv files))
         else if operation =? 1 then
           if append then
             call_or not_supported (option_map (fun f => f h vectors) (f_appendv files))
           else call_or not_supported (option_map (fun f => f h vectors) (f_writev files))
         else if operation =? 2 then
           call_or not_supported (option_map (fun f => f h vectors offset) (f_readv_at files))
         else
           call_or not_supported (option_map (fun f => f h vectors offset) (f_writev_at files))) in
      let result := transfer_result r total in
      let positioned := 2 <=? operation in
      (if (0 <? result) && negb positioned then
         if append then resync_offset ofd files else advance_offset ofd result
       else ret tt) ;;!
      ret result
  end.

(** [vectors] is the array [count] long; [null] is whether its pointer is NULL. *)
Definition hl_linux_vector (fd : Z) (null : bool) (vectors : list hl_host_iovec)
    (offset operation : Z) : M W Z :=
  let count := lengthZ vectors in
  let writing := (operation =? 1) || (operation =? 3) in
  let positioned := 2 <=? operation in
  if (HL_LINUX_IOV_MAX <? count) || (negb (count =? 0) && null) then ret (- HL_LINUX_EINVAL)
  else
    match vector_total vectors 0 with
    | None => ret (- HL_LINUX_EINVAL)
    | Some total =>
        let! t := get_tbl in
        match hl_linux_fd_get_unlocked t fd with
        | inl status => ret (lookup_error status)
        | inr (_, ofd, e) =>
            if negb writing && is_wronly (status_flags e) then ret (- HL_LINUX_EBADF)
            else if writing && is_rdonly (status_flags e) then ret (- HL_LINUX_EBADF)
            else
              let append := negb positioned && writing &&
                            has_flag (status_flags e) HL_LINUX_O_APPEND in
              with_operation ofd (vector_body ofd vectors offset operation total append)
        end
    end.

Definition hl_linux_readv (fd : Z) (null : bool) (vectors : list hl_host_iovec) : M W Z :=
  hl_linux_vector fd null vectors 0 0.
Definition hl_linux_writev (fd : Z) (null : bool) (vectors : list hl_host_iovec) : M W Z :=
  hl_linux_vector fd null vectors 0 1.
Definition hl_linux_preadv (fd : Z) (null : bool) (vectors : list hl_host_iovec) (offset : Z)
  : M W Z := hl_linux_vector fd null vectors offset 2.
Definition hl_linux_pwritev (fd : Z) (null : bool) (vectors : list hl_host_iovec) (offset : Z)
  : M W Z := hl_linux_vector fd null vectors offset 3.

(** ** File control (file_control.c): operation 0 truncate, 1 fsync, 2 fdatasync *)

Definition hl_linux_file_control (fd size operation : Z) : M W Z :=
  if (operation =? 0) && (INT64_MAX <? size) then ret (- HL_LINUX_EINVAL)
  else
    let! t := get_tbl in
    match hl_linux_fd_get_unlocked t fd with
    | inl status => ret (lookup_error status)
    | inr (_, ofd, e) =>
        if (operation =? 0) && is_rdonly (status_flags e) then ret (- HL_LINUX_EBADF)
        else
          with_operation ofd
            (let! e := get_ofd ofd in
             match hl_linux_files host with
             | None => ret (- HL_LINUX_ENOSYS)
             | Some files =>
                 let h := host_handle e in
                 let! r :=
                   (if operation =? 0 then
                      call_or not_supported (option_map (fun f => f h size) (f_truncate files))
                    else if operation =? 1 then
                      call_or not_supported (option_map (fun f => f h) (f_sync files))
                    else
                      call_or not_supported (option_map (fun f => f h) (f_data_sync files))) in
                 ret (status_result r)
             end)
    end.

Definition hl_linux_ftruncate (fd size : Z) : M W Z := hl_linux_file_control fd size 0.
Definition hl_linux_fsync (fd : Z) : M W Z := hl_linux_file_control fd 0 1.
Definition hl_linux_fdatasync (fd : Z) : M W Z := hl_linux_file_control fd 0 2.

Definition hl_linux_extended_sync (fd offset size flags : Z) (filesystem : bool) : M W Z :=
  let! t := get_tbl in
  match hl_linux_fd_get_unlocked t fd with
  | inl status => ret (lookup_error status)
  | inr (_, ofd, _) =>
      with_operation ofd
        (let! e := get_ofd ofd in
         match hl_linux_files host with
         | None => ret (- HL_LINUX_ENOSYS)
         | Some files =>
             let h := host_handle e in
             let! r :=
               (if filesystem then
                  call_or not_supported (option_map (fun f => f h) (f_sync_filesystem files))
                else
                  call_or not_supported
                    (option_map (fun f => f h offset size flags) (f_sync_range files))) in
             ret (status_result r)
         end)
  end.

Definition hl_linux_sync_range (fd offset size flags : Z) : M W Z :=
  if negb (Z.ldiff flags 7 =? 0) then ret (- HL_LINUX_EINVAL)
  else hl_linux_extended_sync fd offset size flags false.
Definition hl_linux_sync_filesystem (fd : Z) : M W Z :=
  hl_linux_extended_sync fd 0 0 0 true.

(** ** Metadata (file_metadata.c) *)

Definition hl_linux_metadata_owned (ofd : Z) : M W (Z * hl_host_file_metadata) :=
  match hl_linux_files host with
  | None => ret (- HL_LINUX_ENOSYS, zero_metadata)
  | Some files =>
      match f_metadata files with
      | None => ret (- HL_LINUX_ENOSYS, zero_metadata)
      | Some metadata =>
          let! e := get_ofd ofd in
          let! r := call (Some (metadata (host_handle e))) in
          ret (status_result (fst r), snd r)
      end
  end.

Definition file_status_of_metadata (m : hl_host_file_metadata) : hl_linux_file_status :=
  mk_file_status (stable_device m) (stable_object m) (md_size m) (allocated_size m / 512)
    (modified_ns m) (accessed_ns m) (changed_ns m) (created_ns m) (md_device m)
    (md_link_count m)
    (Z.lor (hl_linux_mode_type (md_type m)) (Z.land (md_permissions m) 0xFFF))
    (md_user m) (md_group m).

Definition hl_linux_fstat (fd : Z) (output : option hl_linux_file_status)
  : M W (Z * option hl_linux_file_status) :=
  match output with
  | None => ret (- HL_LINUX_EINVAL, None)
  | Some _ =>
      let! t := get_tbl in
      match hl_linux_fd_get_unlocked t fd with
      | inl status => ret (lookup_error status, Some zero_file_status)
      | inr (_, ofd, _) =>
          with_operation ofd
            (let! e := get_ofd ofd in
             match (if negb (object_ops e =? 0) then o_status (vtable (object_ops e)) else None)
             with
             | Some status =>
                 let! r := call (Some (status (object_context e) zero_file_status)) in
                 ret (fst r, Some (snd r))
             | None =>
                 let! r := hl_linux_metadata_owned ofd in
                 if negb (fst r =? 0) then ret (fst r, Some zero_file_status)
                 else ret (0, Some (file_status_of_metadata (snd r)))
             end)
      end
  end.

Definition lseek_body (ofd offset whence : Z) : M W Z :=
  if (whence <? HL_LINUX_SEEK_SET) || (HL_LINUX_SEEK_HOLE <? whence)
  then ret (- HL_LINUX_EINVAL)
  else if (offset <? 0) && ((whence =? HL_LINUX_SEEK_DATA) || (whence =? HL_LINUX_SEEK_HOLE))
  then ret (- HL_LINUX_ENXIO)
  else
    match hl_linux_files host with
    | None => ret (- HL_LINUX_ENOSYS)
    | Some files =>
        match f_seek files with
        | None => ret (- HL_LINUX_ENOSYS)
        | Some seek =>
            let! md := hl_linux_metadata_owned ofd in
            if negb (fst md =? 0) then ret (- HL_LINUX_EIO)
            else if negb (md_type (snd md) =? HL_HOST_FILE_TYPE_REGULAR) &&
                    negb (md_type (snd md) =? HL_HOST_FILE_TYPE_BLOCK) &&
                    negb (md_type (snd md) =? HL_HOST_FILE_TYPE_DIRECTORY)
            then ret (- HL_LINUX_ESPIPE)
            else
              let! e := get_ofd ofd in
              let! r := call (Some (seek (host_handle e) offset whence)) in
              if is_ok (r_status r) then
                if INT64_MAX <? r_value r then ret (- HL_LINUX_EOVERFLOW)
                else update_ofd ofd (with_offset (r_value r)) ;;! ret (r_value r)
              else if match r_status r with HL_STATUS_IO => true | _ => false end &&
                      (r_detail r =? HL_LINUX_ENXIO) &&
                      ((whence =? HL_LINUX_SEEK_DATA) || (whence =? HL_LINUX_SEEK_HOLE))
              then ret (- HL_LINUX_ENXIO)
              else ret (hl_linux_error (r_status r))
        end
    end.

Definition hl_linux_lseek (fd offset whence : Z) : M W Z :=
  let! t := get_tbl in
  match hl_linux_fd_get_unlocked t fd with
  | inl status => ret (lookup_error status)
  | inr (_, ofd, _) => with_operation ofd (lseek_body ofd offset whence)
  end.

(** ** Opening (file_control.c) *)

Definition openat_supported : Z :=
  fold_right Z.lor 0
    [HL_LINUX_O_ACCMODE; HL_LINUX_O_CREAT; HL_LINUX_O_EXCL; HL_LINUX_O_TRUNC;
     HL_LINUX_O_APPEND; HL_LINUX_O_NONBLOCK; HL_LINUX_O_NOFOLLOW; HL_LINUX_O_DIRECTORY;
     HL_LINUX_O_PATH; HL_LINUX_O_CLOEXEC].

(** [HL_HOST_FILE_*] access of the open flags; [None] for access mode 3. *)
Definition openat_access (flags : Z) : option Z :=
  let mode := Z.land flags HL_LINUX_O_ACCMODE in
  let base :=
    if mode =? HL_LINUX_O_RDONLY then Some 1
    else if mode =? HL_LINUX_O_WRONLY then Some 2
    else if mode =? HL_LINUX_O_RDWR then Some 3
    else None in
  match base with
  | None => None
  | Some access =>
      let access := or_if flags HL_LINUX_O_APPEND access 4 in
      let access := or_if flags HL_LINUX_O_NONBLOCK access 16 in
      let access := or_if flags HL_LINUX_O_NOFOLLOW access 32 in
      let access := or_if flags HL_LINUX_O_DIRECTORY access 8 in
      Some (or_if flags HL_LINUX_O_PATH access 64)
  end.

Definition openat_creation (flags : Z) : Z :=
  let creation := or_if flags HL_LINUX_O_CREAT 0 1 in
  let creation := or_if flags HL_LINUX_O_EXCL creation 2 in
  or_if flags HL_LINUX_O_TRUNC creation 4.

(** [path] is the byte string of length [path_size]; [None] is a NULL pointer. *)
Definition hl_linux_openat_install (reservation : option hl_linux_fd_reservation)
    (directory_fd direct_directory : Z) (path : option (list Z)) (flags mode : Z) : M W Z :=
  match path with
  | None | Some [] => ret (- HL_LINUX_EINVAL)
  | Some path =>
    if negb (Z.ldiff flags openat_supported =? 0) then ret (- HL_LINUX_EINVAL)
    else
      match openat_access flags with
      | None => ret (- HL_LINUX_EINVAL)
      | Some access =>
        let creation := openat_creation flags in
        match hl_linux_files host with
        | None => ret (- HL_LINUX_ENOSYS)
        | Some files =>
          match f_open_relative files with
          | None => ret (- HL_LINUX_ENOSYS)
          | Some open_relative =>
            let publish (opened : hl_host_result) : M W Z :=
              if negb (is_ok (r_status opened)) then
                ret (if is_not_found (r_status opened) then - HL_LINUX_ENOENT
                     else hl_linux_error (r_status opened))
              else
                let ofd_flags := Z.ldiff flags HL_LINUX_O_CLOEXEC in
                let dflags := if has_flag flags HL_LINUX_O_CLOEXEC
                              then HL_LINUX_FD_CLOEXEC else 0 in
                let! r :=
                  match reservation with
                  | Some token =>
                      let! status := hl_linux_fd_commit host token (r_value opened) ofd_flags dflags in
                      ret (status, rsv_fd token)
                  | None =>
                      let! r := hl_linux_fd_install host (r_value opened) ofd_flags dflags (Some 0) in
                      ret (fst r, default 0 (snd r))
                  end in
                let '(status, installed) := r in
                if negb (is_ok status) then
                  match f_close files with
                  | Some close => let! _ := call (Some (close (r_value opened))) in ret tt
                  | None => ret tt
                  end ;;!
                  ret (if is_resource_limit status then - HL_LINUX_EMFILE
                       else hl_linux_error status)
                else ret installed in
            if (direct_directory =? HL_HOST_HANDLE_INVALID) &&
               negb (directory_fd =? HL_LINUX_AT_FDCWD) then
              if directory_fd <? 0 then ret (- HL_LINUX_EBADF)
              else
                let! t := get_tbl in
                match hl_linux_fd_get_unlocked t directory_fd with
                | inl _ => ret (- HL_LINUX_EBADF)
                | inr (_, ofd, _) =>
                    let! opened :=
                      with_operation ofd
                        (let! e := get_ofd ofd in
                         call (Some (open_relative (host_handle e) path access creation mode))) in
                    publish opened
                end
            else
              let directory := if direct_directory =? HL_HOST_HANDLE_INVALID
                               then HL_HOST_HANDLE_CWD else direct_directory in
              let! opened := call (Some (open_relative directory path access creation mode)) in
              publish opened
          end
        end
      end
  end.

Definition hl_linux_openat (directory_fd : Z) (path : option (list Z)) (flags mode : Z) : M W Z :=
  hl_linux_openat_install None directory_fd HL_HOST_HANDLE_INVALID path flags mode.

Definition hl_linux_openat_reserved (reservation : option hl_linux_fd_reservation)
    (directory_fd : Z) (path : option (list Z)) (flags mode : Z) : M W Z :=
  match reservation with
  | None => ret (- HL_LINUX_EINVAL)
  | Some _ => hl_linux_openat_install reservation directory_fd HL_HOST_HANDLE_INVALID path flags mode
  end.

Definition hl_linux_openat_handle_reserved (reservation : option hl_linux_fd_reservation)
    (directory : Z) (path : option (list Z)) (flags mode : Z) : M W Z :=
  match reservation with
  | None => ret (- HL_LINUX_EINVAL)
  | Some _ =>
      if directory =? HL_HOST_HANDLE_INVALID then ret (- HL_LINUX_EINVAL)
      else hl_linux_openat_install reservation HL_LINUX_AT_FDCWD directory path flags mode
  end.

Definition hl_linux_file_adopt_reserved (reservation : option hl_linux_fd_reservation)
    (file flags : Z) : M W Z :=
  match reservation with
  | None => ret (- HL_LINUX_EINVAL)
  | Some token =>
      if file =? HL_HOST_HANDLE_INVALID then ret (- HL_LINUX_EINVAL)
      else
        let! status := hl_linux_fd_commit host token file (Z.ldiff flags HL_LINUX_O_CLOEXEC)
                         (if has_flag flags HL_LINUX_O_CLOEXEC then HL_LINUX_FD_CLOEXEC else 0) in
        ret (if is_ok status then rsv_fd token
             else if is_resource_limit status then - HL_LINUX_EMFILE
             else hl_linux_error status)
  end.
End IO.
