(* ===== verification/FdInvariant.v ===== *)
(** * The descriptor table invariant

    The ownership invariant of the table (every reference count is the number
    of descriptors that name the slot, a slot is live, closing or free), the
    lemmas by which every critical section of FdTable.v keeps it, and the
    total-correctness calculus ([wp]) in which the handlers are verified. *)

From S2P Require Import Prelude Status Host FdTable Machine FdOps.

Section Invariant.
(** [has_close ops]: the object adapter at that address can be closed, which
    installation checks. *)
Variable has_close : Z -> bool.

Record slot_live (e : hl_linux_ofd_entry) : Prop := mk_slot_live {
  live_refs : references e <> 0;
  live_closing : closing e = 0;
  live_mutex : io_mutex e <> HL_HOST_HANDLE_INVALID;
  live_kind : (object_ops e =? 0) = negb (host_handle e =? HL_HOST_HANDLE_INVALID);
  live_context : object_ops e <> 0 -> object_context e <> 0;
  live_close : object_ops e <> 0 -> has_close (object_ops e) = true
}.

Record slot_closing (e : hl_linux_ofd_entry) : Prop := mk_slot_closing {
  closing_refs : references e = 0;
  closing_set : closing e = 1;
  closing_mutex : io_mutex e <> HL_HOST_HANDLE_INVALID;
  closing_close : object_ops e <> 0 -> has_close (object_ops e) = true
}.

(** The fields a reused slot inherits are exactly the zeroed ones. *)
Record slot_cleared (e : hl_linux_ofd_entry) : Prop := mk_slot_cleared {
  cleared_handle : host_handle e = HL_HOST_HANDLE_INVALID;
  cleared_offset : ofd_offset e = 0;
  cleared_flags : status_flags e = 0;
  cleared_kind : ofd_kind e = 0;
  cleared_ops : object_ops e = 0;
  cleared_context : object_context e = 0
}.

Record slot_free (e : hl_linux_ofd_entry) : Prop := mk_slot_free {
  free_refs : references e = 0;
  free_active : active_operations e = 0;
  free_closing : closing e = 0;
  free_mutex : io_mutex e = HL_HOST_HANDLE_INVALID;
  free_cleared : slot_cleared e
}.

Record slot_inv (counted : Z) (e : hl_linux_ofd_entry) : Prop := mk_slot_inv {
  slot_count : references e = counted;
  slot_active : 0 <= active_operations e < 2 ^ 32;
  slot_state : slot_live e \/ slot_closing e \/ slot_free e
}.

(** Slot 0 is never used: index zero in a descriptor means "no OFD". *)
Definition slots_ok (c : Z -> Z) (w : Z) (l : list hl_linux_ofd_entry) : Prop :=
  forall i e, 1 <= i -> lookupZ l i = Some e ->
    slot_inv (c i) e /\ (references e <> 0 -> i < w).

Definition fd_target_ok (cap : Z) (e : hl_linux_fd_entry) : Prop :=
  fd_ofd e = 0 \/ fd_ofd e = HL_LINUX_FD_RESERVED \/ 1 <= fd_ofd e < cap.

Record table_inv (t : hl_linux_abi) : Prop := mk_table_inv {
  inv_version : abi_version t = HL_LINUX_ABI_VERSION;
  inv_fd_cap : 0 < fd_capacity t <= HL_LINUX_FD_LIMIT;
  inv_ofd_cap : 2 <= ofd_capacity t <= HL_LINUX_OFD_LIMIT;
  inv_fds : forall fd e, lookupZ (fds t) fd = Some e -> fd_target_ok (ofd_capacity t) e;
  inv_slots : slots_ok (fun i => count_descriptors i (fds t)) (ofd_watermark t) (ofds t);
  inv_reserved : reserved_fds t = count_descriptors HL_LINUX_FD_RESERVED (fds t);
  inv_watermark : 0 <= ofd_watermark t <= ofd_capacity t
}.

(** No operation is in flight and no final close is under way. *)
Definition quiescent (t : hl_linux_abi) : Prop :=
  forall i e, 1 <= i -> lookupZ (ofds t) i = Some e ->
    active_operations e = 0 /\ closing e = 0.

Definition table_wf (t : hl_linux_abi) : Prop := table_inv t /\ quiescent t.

(** Descriptor [fd] names no slot: absent, unused or reserved. *)
Definition vacant (t : hl_linux_abi) (fd : Z) : Prop :=
  forall fe, lookupZ (fds t) fd = Some fe -> fd_ofd fe = 0 \/ fd_ofd fe = HL_LINUX_FD_RESERVED.

(** ** Counting descriptors *)

Lemma count_descriptors_put j fd e e' t :
  lookupZ (fds t) fd = Some e ->
  count_descriptors j (fds (put_fd fd e' t)) =
    count_descriptors j (fds t) - (if fd_ofd e =? j then 1 else 0)
    + (if fd_ofd e' =? j then 1 else 0).
Proof. intros He. unfold count_descriptors, put_fd. simpl. by rewrite (countZ_insertZ _ _ _ _ _ He). Qed.

Lemma count_descriptors_bounds j t :
  fd_capacity t <= HL_LINUX_FD_LIMIT ->
  0 <= count_descriptors j (fds t) <= HL_LINUX_FD_LIMIT.
Proof.
  intros Hcap. unfold count_descriptors, fd_capacity in *.
  pose proof (countZ_bounds (fun e => fd_ofd e =? j) (fds t)). lia.
Qed.

Lemma count_descriptors_pos fd e t :
  lookupZ (fds t) fd = Some e -> 1 <= count_descriptors (fd_ofd e) (fds t).
Proof. intros He. eapply countZ_pos; [done|]. apply Z.eqb_refl. Qed.

(** ** Slots under an update of one entry *)

Lemma slots_put c w l i e e' v :
  slots_ok c w l -> lookupZ l i = Some e ->
  slot_inv v e' -> (references e' <> 0 -> i < w) ->
  slots_ok (fun j => if decide (j = i) then v else c j) w (insertZ l i e').
Proof.
  intros Hok He Hv Hw j x Hj Hx. pose proof (lookupZ_Some_range _ _ _ He).
  rewrite lookupZ_insertZ in Hx by done.
  destruct (decide (i = j)) as [->|Hne].
  - injection Hx as <-. rewrite decide_True by done. done.
  - rewrite decide_False by done. by apply Hok.
Qed.

Lemma slots_ext c c' w l :
  (forall i, 1 <= i < lengthZ l -> c i = c' i) -> slots_ok c w l -> slots_ok c' w l.
Proof.
  intros Hc Hok i e Hi He. pose proof (lookupZ_Some_range _ _ _ He).
  rewrite <- Hc by lia. by apply Hok.
Qed.

Lemma slots_watermark c w w' l : w <= w' -> slots_ok c w l -> slots_ok c w' l.
Proof.
  intros Hw Hok i e Hi He. destruct (Hok i e Hi He) as [Hs Hr].
  split; [done|]. intros Hne. specialize (Hr Hne). lia.
Qed.

(** Changing an entry without changing its reference count. *)
Lemma table_inv_put_ofd t i e e' :
  table_inv t -> 1 <= i -> lookupZ (ofds t) i = Some e ->
  references e' = references e ->
  0 <= active_operations e' < 2 ^ 32 ->
  slot_live e' \/ slot_closing e' \/ slot_free e' ->
  table_inv (put_ofd i e' t).
Proof.
  intros [] Hi He Hr Ha Hs. constructor; try done.
  - unfold ofd_capacity. simpl. by rewrite lengthZ_insertZ.
  - unfold ofd_capacity in *. simpl in *. rewrite lengthZ_insertZ. done.
  - simpl. destruct (inv_slots0 i e Hi He) as [[] Hw].
    eapply slots_ext; [|eapply slots_put with (v := count_descriptors i (fds t))]; try done.
    + intros j Hj. simpl. by destruct (decide (j = i)) as [->|].
    + constructor; [congruence|done|done].
    + rewrite Hr. done.
  - unfold ofd_capacity in *. simpl in *. by rewrite lengthZ_insertZ.
Qed.

Lemma inv_slot t i e :
  table_inv t -> 1 <= i -> lookupZ (ofds t) i = Some e ->
  slot_inv (count_descriptors i (fds t)) e.
Proof. intros [] Hi He. by destruct (inv_slots0 i e Hi He). Qed.

(** A slot that some descriptor names is live. *)
Lemma named_live t fd fe e :
  table_inv t -> lookupZ (fds t) fd = Some fe -> 1 <= fd_ofd fe ->
  lookupZ (ofds t) (fd_ofd fe) = Some e -> slot_live e.
Proof.
  intros Hinv Hfe Hi He. destruct (inv_slot _ _ _ Hinv Hi He) as [Hc _ Hs].
  pose proof (count_descriptors_pos _ _ _ Hfe).
  destruct Hs as [?|[[]|[]]]; [done|lia|lia].
Qed.

(** ** Lookups *)

(** A successful lookup names a live slot; the corrupt answers are
    unreachable from a well-formed table. *)
Lemma get_unlocked_inv t fd :
  table_inv t ->
  match hl_linux_fd_get_unlocked t fd with
  | inl status =>
      status = HL_STATUS_NOT_FOUND /\
      (forall e, lookupZ (fds t) fd = Some e -> fd_ofd e = 0 \/ fd_ofd e = HL_LINUX_FD_RESERVED)
  | inr (fe, i, e) =>
      lookupZ (fds t) fd = Some fe /\ i = fd_ofd fe /\ 1 <= i < ofd_capacity t /\
      lookupZ (ofds t) i = Some e /\ slot_live e
  end.
Proof.
  intros Hinv. unfold hl_linux_fd_get_unlocked.
  destruct (lookupZ (fds t) fd) as [fe|] eqn:Hfe; [|by split].
  destruct (_ || _) eqn:Hres.
  { split; [done|]. intros e [= <-]. apply orb_true_iff in Hres as [?%Z.eqb_eq|?%Z.eqb_eq]; auto. }
  bool_props. destruct (inv_fds _ Hinv _ _ Hfe) as [?|[?|Hrange]]; [done|done|].
  destruct (lookupZ_is_Some (ofds t) (fd_ofd fe)) as [e He]; [unfold ofd_capacity in *; lia|].
  rewrite He. destruct (inv_slot _ _ _ Hinv (proj1 Hrange) He) as [Hc Ha Hs].
  pose proof (count_descriptors_pos _ _ _ Hfe).
  destruct (Z.eqb_spec (references e) 0); [lia|].
  repeat split; try done; try lia.
  all: destruct Hs as [[]|[[]|[]]]; try done; lia.
Qed.

Lemma find_fd_Some t fd :
  hl_linux_find_fd t = Some fd ->
  exists e, lookupZ (fds t) fd = Some e /\ fd_ofd e = 0 /\ 0 <= fd /\
    (forall j x, 0 <= j < fd -> lookupZ (fds t) j = Some x -> fd_ofd x <> 0).
Proof.
  unfold hl_linux_find_fd. intros Hs.
  apply scan_from_Some in Hs as (Hle & (e & He & Hp) & Hmin).
  rewrite Z.sub_0_r in He. exists e. repeat split; [done|by apply Z.eqb_eq|done|].
  intros j x Hj Hx. apply Z.eqb_neq. apply (Hmin j); [done|]. by rewrite Z.sub_0_r.
Qed.

Lemma find_fd_None t j x :
  hl_linux_find_fd t = None -> lookupZ (fds t) j = Some x -> fd_ofd x <> 0.
Proof. intros Hs Hj. apply Z.eqb_neq. by eapply (scan_from_None fd_unused). Qed.

Lemma find_fd_at_least_Some t minimum fd :
  0 <= minimum ->
  hl_linux_find_fd_at_least t minimum = Some fd ->
  exists e, lookupZ (fds t) fd = Some e /\ fd_ofd e = 0 /\ minimum <= fd /\
    (forall j x, minimum <= j < fd -> lookupZ (fds t) j = Some x -> fd_ofd x <> 0).
Proof.
  intros Hm. unfold hl_linux_find_fd_at_least.
  destruct (fd_capacity t <=? minimum); [done|]. intros Hs.
  apply scan_from_Some in Hs as (Hle & (e & He & Hp) & Hmin).
  rewrite lookupZ_drop in He by lia. exists e. repeat split.
  - replace fd with (Z.of_nat (Z.to_nat minimum) + (fd - minimum)) by lia. done.
  - by apply Z.eqb_eq.
  - done.
  - intros j x Hj Hx. apply Z.eqb_neq. apply (Hmin j); [done|].
    rewrite lookupZ_drop by lia.
    by replace (Z.of_nat (Z.to_nat minimum) + (j - minimum)) with j by lia.
Qed.

Lemma find_fd_at_least_None t minimum j x :
  0 <= minimum ->
  hl_linux_find_fd_at_least t minimum = None ->
  minimum <= j -> lookupZ (fds t) j = Some x -> fd_ofd x <> 0.
Proof.
  intros Hm. unfold hl_linux_find_fd_at_least. intros Hs Hj Hx.
  pose proof (lookupZ_Some_range _ _ _ Hx). unfold fd_capacity in *.
  destruct (Z.leb_spec (lengthZ (fds t)) minimum); [lia|].
  apply Z.eqb_neq. eapply (scan_from_None fd_unused _ _ Hs (j - minimum)).
  rewrite lookupZ_drop by lia.
  by replace (Z.of_nat (Z.to_nat minimum) + (j - minimum)) with j by lia.
Qed.

(** Allocation finds a free slot and only ever raises the high-water mark,
    above that slot. *)
Lemma find_ofd_Some t i t' :
  table_inv t -> hl_linux_find_ofd t = Some (i, t') ->
  table_inv t' /\ fds t' = fds t /\ ofds t' = ofds t /\ reserved_fds t' = reserved_fds t /\
  1 <= i < ofd_watermark t' /\
  exists e, lookupZ (ofds t) i = Some e /\ slot_free e.
Proof.
  intros Hinv. unfold hl_linux_find_ofd.
  destruct (scan_from _ _ _) as [k|] eqn:Hs; [|done]. intros [= -> <-].
  apply scan_from_Some in Hs as (Hle & (e & He & Hp) & _).
  rewrite lookupZ_drop in He by lia. replace (Z.of_nat 1 + (i - 1)) with i in He by lia.
  pose proof (lookupZ_Some_range _ _ _ He).
  unfold ofd_free in Hp. bool_props.
  assert (Hfree : slot_free e).
  { destruct (inv_slot _ _ _ Hinv Hle He) as [_ _ [[]|[[]|Hf]]]; [done|congruence|done]. }
  destruct (Z.ltb_spec (ofd_watermark t) (i + 1)).
  - split_and!; simpl; try done; try lia; [|by exists e].
    destruct Hinv. constructor; simpl; try done.
    + eapply slots_watermark; [|done]. lia.
    + unfold ofd_capacity in *; simpl; lia.
  - split_and!; try done; try lia. by exists e.
Qed.

Lemma find_ofd_None t i e :
  hl_linux_find_ofd t = None -> 1 <= i -> lookupZ (ofds t) i = Some e -> ofd_free e = false.
Proof.
  unfold hl_linux_find_ofd. destruct (scan_from _ _ _) eqn:Hs; [done|]. intros _ Hi He.
  eapply (scan_from_None ofd_free _ _ Hs (i - 1)). rewrite lookupZ_drop by lia.
  by replace (Z.of_nat 1 + (i - 1)) with i by lia.
Qed.
End Invariant.
