(* ===== verification/FdSections.v ===== *)
(** * Critical sections and a calculus for the handlers

    Every critical section of FdTable.v keeps the table invariant, one lemma
    each; and [wp], in which the handlers that compose them are proved. *)

From S2P Require Import Prelude Status Host FdTable Machine FdOps FdInvariant.

(** ** Every critical section keeps the table invariant

    The sections of FdTable.v, one lemma each: what the section computes on a
    table that satisfies [table_inv], and that the result satisfies it too. *)

Section Sections.
Variable has_close : Z -> bool.
#[local] Abbreviation table_inv := (table_inv has_close).
#[local] Abbreviation slot_inv := (slot_inv has_close).
#[local] Abbreviation slot_live := (slot_live has_close).
#[local] Abbreviation slot_closing := (slot_closing has_close).

(** A descriptor that named no OFD comes to name slot [i], whose count goes
    up by one. *)
Lemma table_inv_bind t fd fe fe' i e e' r :
  table_inv t -> lookupZ (fds t) fd = Some fe ->
  fd_ofd fe = 0 \/ fd_ofd fe = HL_LINUX_FD_RESERVED ->
  fd_ofd fe' = i -> 1 <= i < ofd_watermark t ->
  lookupZ (ofds t) i = Some e ->
  references e' = references e + 1 -> 0 <= active_operations e' < 2 ^ 32 ->
  slot_live e' ->
  r = reserved_fds t - (if fd_ofd fe =? HL_LINUX_FD_RESERVED then 1 else 0) ->
  table_inv (set_reserved r (put_fd fd fe' (put_ofd i e' t))).
Proof.
  intros Hinv Hfe Hfree Hi Hrange He Hr Ha Hlive ->.
  pose proof (lookupZ_Some_range _ _ _ Hfe) as Hfdr.
  pose proof (lookupZ_Some_range _ _ _ He) as Hofdr.
  pose proof (inv_slot _ _ _ _ Hinv (proj1 Hrange) He) as [Hcount _ _].
  destruct Hinv. pose proof (inv_ofd_cap : 2 <= ofd_capacity t <= _).
  assert (Hires : i <> HL_LINUX_FD_RESERVED).
  { unfold ofd_capacity, HL_LINUX_FD_RESERVED, UINT32_MAX, HL_LINUX_OFD_LIMIT in *. lia. }
  constructor; simpl.
  - done.
  - unfold fd_capacity in *. simpl. by rewrite lengthZ_insertZ.
  - unfold ofd_capacity in *. simpl. by rewrite lengthZ_insertZ.
  - intros k x Hk. unfold ofd_capacity in *. simpl in *. rewrite lengthZ_insertZ.
    rewrite lookupZ_insertZ in Hk by done. destruct (decide (fd = k)).
    + injection Hk as <-. right. right. lia.
    + by eapply inv_fds.
  - eapply slots_ext; [|eapply slots_put with (v := references e'); [done|done| |lia]].
    + intros j Hj. simpl. unfold count_descriptors.
      rewrite (countZ_insertZ _ _ _ _ _ Hfe). rewrite Hi. rewrite lengthZ_insertZ in Hj.
      destruct (decide (j = i)) as [->|Hne].
      * rewrite Z.eqb_refl. unfold count_descriptors in Hcount.
        destruct (Z.eqb_spec (fd_ofd fe) i); lia.
      * destruct (Z.eqb_spec i j); [lia|]. unfold ofd_capacity in *.
        destruct (Z.eqb_spec (fd_ofd fe) j); [|lia].
        unfold HL_LINUX_FD_RESERVED, UINT32_MAX, HL_LINUX_OFD_LIMIT in *. lia.
    + constructor; [done|done|]. by left.
  - unfold count_descriptors in *. rewrite (countZ_insertZ _ _ _ _ _ Hfe).
    rewrite inv_reserved, Hi. destruct (Z.eqb_spec i HL_LINUX_FD_RESERVED); lia.
  - unfold ofd_capacity in *. simpl. by rewrite lengthZ_insertZ.
Qed.

(** A descriptor that named slot [i] comes to name none. *)
Lemma table_inv_unbind t fd fe fe' e e' :
  table_inv t -> lookupZ (fds t) fd = Some fe -> 1 <= fd_ofd fe < ofd_capacity t ->
  fd_ofd fe' = 0 ->
  lookupZ (ofds t) (fd_ofd fe) = Some e ->
  references e' = references e - 1 -> 0 <= active_operations e' < 2 ^ 32 ->
  slot_live e' \/ slot_closing e' ->
  table_inv (put_fd fd fe' (put_ofd (fd_ofd fe) e' t)).
Proof.
  intros Hinv Hfe Hrange Hfe' He Hr Ha Hs.
  pose proof (lookupZ_Some_range _ _ _ Hfe) as Hfdr.
  pose proof (inv_slot _ _ _ _ Hinv (proj1 Hrange) He) as [Hcount _ _].
  pose proof (inv_slots _ _ Hinv _ _ (proj1 Hrange) He) as [_ Hw].
  pose proof (count_descriptors_pos _ _ _ Hfe) as Hpos.
  destruct Hinv. pose proof (inv_ofd_cap : 2 <= ofd_capacity t <= _).
  assert (Hires : fd_ofd fe <> HL_LINUX_FD_RESERVED).
  { unfold ofd_capacity, HL_LINUX_FD_RESERVED, UINT32_MAX, HL_LINUX_OFD_LIMIT in *. lia. }
  constructor; simpl.
  - done.
  - unfold fd_capacity in *. simpl. by rewrite lengthZ_insertZ.
  - unfold ofd_capacity in *. simpl. by rewrite lengthZ_insertZ.
  - intros k x Hk. unfold ofd_capacity in *. simpl in *. rewrite lengthZ_insertZ.
    rewrite lookupZ_insertZ in Hk by done. destruct (decide (fd = k)).
    + injection Hk as <-. by left.
    + by eapply inv_fds.
  - eapply slots_ext;
      [|eapply slots_put with (v := references e'); [exact inv_slots|exact He| |]].
    + intros j Hj. simpl. unfold count_descriptors.
      rewrite (countZ_insertZ _ _ _ _ _ Hfe). rewrite Hfe'.
      unfold count_descriptors in Hcount.
      destruct (decide (j = fd_ofd fe)) as [->|Hne].
      * rewrite Z.eqb_refl. destruct (Z.eqb_spec 0 (fd_ofd fe)); lia.
      * destruct (Z.eqb_spec (fd_ofd fe) j); [lia|]. destruct (Z.eqb_spec 0 j); lia.
    + constructor; [done|done|]. destruct Hs; auto.
    + intros Hne. apply Hw. lia.
  - unfold count_descriptors in *. rewrite (countZ_insertZ _ _ _ _ _ Hfe).
    rewrite inv_reserved, Hfe'.
    destruct (Z.eqb_spec (fd_ofd fe) HL_LINUX_FD_RESERVED); [lia|].
    destruct (Z.eqb_spec 0 HL_LINUX_FD_RESERVED) as [Hz|]; [|lia]. discriminate Hz.
  - unfold ofd_capacity in *. simpl. by rewrite lengthZ_insertZ.
Qed.

(** A descriptor changes between unused and reserved, or keeps its target. *)
Lemma table_inv_put_fd t fd fe fe' r :
  table_inv t -> lookupZ (fds t) fd = Some fe ->
  fd_ofd fe = fd_ofd fe' \/
  ((fd_ofd fe = 0 \/ fd_ofd fe = HL_LINUX_FD_RESERVED) /\
   (fd_ofd fe' = 0 \/ fd_ofd fe' = HL_LINUX_FD_RESERVED)) ->
  r = reserved_fds t - (if fd_ofd fe =? HL_LINUX_FD_RESERVED then 1 else 0)
      + (if fd_ofd fe' =? HL_LINUX_FD_RESERVED then 1 else 0) ->
  table_inv (set_reserved r (put_fd fd fe' t)).
Proof.
  intros Hinv Hfe Hch ->.
  pose proof (lookupZ_Some_range _ _ _ Hfe) as Hfdr.
  pose proof (inv_fds _ _ Hinv _ _ Hfe) as Htgt.
  destruct Hinv. pose proof (inv_ofd_cap : 2 <= ofd_capacity t <= _).
  constructor; simpl; try done.
  - unfold fd_capacity in *. simpl. by rewrite lengthZ_insertZ.
  - intros k x Hk. rewrite lookupZ_insertZ in Hk by done. destruct (decide (fd = k)).
    + injection Hk as <-. unfold fd_target_ok in *. destruct Hch as [<-|[_ [?|?]]]; auto.
    + by eapply inv_fds.
  - eapply slots_ext; [|done]. intros j Hj. simpl. unfold count_descriptors.
    rewrite (countZ_insertZ _ _ _ _ _ Hfe).
    unfold ofd_capacity, HL_LINUX_FD_RESERVED, UINT32_MAX, HL_LINUX_OFD_LIMIT in *.
    destruct Hch as [->|[Ha Hb]]; [lia|].
    destruct (Z.eqb_spec (fd_ofd fe) j), (Z.eqb_spec (fd_ofd fe') j); lia.
  - unfold count_descriptors in *. rewrite (countZ_insertZ _ _ _ _ _ Hfe). lia.
Qed.

Lemma set_reserved_id t : set_reserved (reserved_fds t) t = t.
Proof. by destruct t. Qed.

(** ** Close *)

Lemma references_bounds t i e :
  table_inv t -> 1 <= i -> lookupZ (ofds t) i = Some e -> 0 <= references e <= HL_LINUX_FD_LIMIT.
Proof.
  intros Hinv Hi He. destruct (inv_slot _ _ _ _ Hinv Hi He) as [-> _ _].
  apply count_descriptors_bounds. destruct Hinv. lia.
Qed.

(** What a live slot becomes when a descriptor stops naming it. *)
Definition dropped (e : hl_linux_ofd_entry) : hl_linux_ofd_entry :=
  let e1 := with_references (references e - 1) e in
  if references e =? 1 then with_closing 1 e1 else e1.

Lemma dropped_state e :
  slot_live e -> slot_live (dropped e) \/ slot_closing (dropped e).
Proof.
  intros []. unfold dropped. destruct (Z.eqb_spec (references e) 1) as [Hr|Hr].
  - right. constructor; simpl; try done. lia.
  - left. constructor; simpl; try done. lia.
Qed.

Lemma dropped_fields e :
  references (dropped e) = references e - 1 /\
  active_operations (dropped e) = active_operations e /\
  host_handle (dropped e) = host_handle e /\ io_mutex (dropped e) = io_mutex e /\
  object_ops (dropped e) = object_ops e /\ object_context (dropped e) = object_context e /\
  ofd_generation (dropped e) = ofd_generation e.
Proof. unfold dropped. by destruct (references e =? 1). Qed.

(** The decrement of the code, mark included, is [dropped]. *)
Lemma drop_code e :
  0 < references e <= HL_LINUX_FD_LIMIT ->
  (if references (with_references (u32 (references e - 1)) e) =? 0
   then with_closing 1 (with_references (u32 (references e - 1)) e)
   else with_references (u32 (references e - 1)) e) = dropped e.
Proof.
  intros Hr. unfold dropped. simpl.
  rewrite u32_small by (unfold HL_LINUX_FD_LIMIT in *; lia).
  destruct (Z.eqb_spec (references e - 1) 0), (Z.eqb_spec (references e) 1); done || lia.
Qed.

(** [close_section] on a descriptor in use: the descriptor is vacated, the
    slot loses one reference and, if that was the last one, starts closing. *)
Lemma close_section_spec t fd fe e :
  table_inv t -> lookupZ (fds t) fd = Some fe -> 1 <= fd_ofd fe < ofd_capacity t ->
  lookupZ (ofds t) (fd_ofd fe) = Some e -> slot_live e ->
  let t' := put_ofd (fd_ofd fe) (dropped e)
              (put_fd fd (mk_fd 0 0 (u32 (fd_generation fe + 1))) t) in
  let final := references e =? 1 in
  close_section fd t =
    Some (inr (mk_close_outcome (fd_ofd fe) final
                 (final && negb (active_operations e =? 0))
                 (if final then object_ops e else 0)
                 (if final then object_context e else 0), t')) /\
  table_inv t'.
Proof.
  intros Hinv Hfe Hrange He Hlive t' final.
  pose proof (references_bounds _ _ _ Hinv (proj1 Hrange) He) as Hb.
  pose proof (live_refs _ _ Hlive).
  pose proof (inv_ofd_cap _ _ Hinv).
  split.
  - unfold close_section. rewrite Hfe.
    destruct (Z.eqb_spec (fd_ofd fe) 0); [lia|].
    destruct (Z.eqb_spec (fd_ofd fe) HL_LINUX_FD_RESERVED) as [Hx|].
    { unfold ofd_capacity, HL_LINUX_FD_RESERVED, UINT32_MAX, HL_LINUX_OFD_LIMIT in *. lia. }
    simpl. rewrite He. destruct (Z.eqb_spec (references e) 0); [lia|].
    subst final t'. unfold dropped. simpl.
    rewrite u32_small by (unfold HL_LINUX_FD_LIMIT in *; lia).
    destruct (Z.eqb_spec (references e) 1), (Z.eqb_spec (references e - 1) 0); done || lia.
  - destruct (dropped_fields e) as (Hr & Ha & _).
    apply (table_inv_unbind t fd fe (mk_fd 0 0 (u32 (fd_generation fe + 1))) e); try done.
    + rewrite Ha. by destruct (inv_slot _ _ _ _ Hinv (proj1 Hrange) He).
    + by apply dropped_state.
Qed.

(** On a descriptor that is not in use nothing happens. *)
Lemma close_section_vacant t fd :
  (forall fe, lookupZ (fds t) fd = Some fe -> fd_ofd fe = 0 \/ fd_ofd fe = HL_LINUX_FD_RESERVED) ->
  close_section fd t = Some (inl HL_STATUS_NOT_FOUND).
Proof.
  intros Hv. unfold close_section. destruct (lookupZ (fds t) fd) as [fe|] eqn:Hfe; [|done].
  destruct (Hv fe eq_refl) as [->| ->]; [done|]. by rewrite orb_true_r.
Qed.

(** ** Finalisation *)

Lemma finalize_claim_spec t i e :
  table_inv t -> 1 <= i -> lookupZ (ofds t) i = Some e -> slot_closing e ->
  active_operations e = 0 ->
  finalize_claim i t =
    Some (Claimed (host_handle e) (object_ops e) (object_context e)
            (put_ofd i (cleared e) t)) /\
  table_inv (put_ofd i (cleared e) t) /\ slot_closing (cleared e) /\ slot_cleared (cleared e).
Proof.
  intros Hinv Hi He Hc Ha. destruct Hc as [Hcr Hcs Hcm Hcc] eqn:HcE.
  assert (Hcl : slot_closing (cleared e)) by (constructor; simpl; done).
  split_and!; [| |done|done].
  - unfold finalize_claim. rewrite He, Hcr, Hcs, Ha. done.
  - apply (table_inv_put_ofd _ t i e (cleared e)); simpl; auto. rewrite Ha. lia.
Qed.

Lemma finalize_release_spec t i e :
  table_inv t -> 1 <= i -> lookupZ (ofds t) i = Some e -> slot_closing e ->
  slot_cleared e -> active_operations e = 0 ->
  finalize_release i (io_mutex e) t = Some (HL_STATUS_OK, put_ofd i (released e) t) /\
  table_inv (put_ofd i (released e) t) /\ slot_free (released e).
Proof.
  intros Hinv Hi He [] [] Ha.
  assert (Hf : slot_free (released e)) by (constructor; simpl; done || by constructor).
  split_and!; [| |done].
  - unfold finalize_release. rewrite He. rewrite closing_refs, closing_set, Ha, (Z.eqb_refl (io_mutex e)). done.
  - apply (table_inv_put_ofd _ t i e); auto. simpl. rewrite Ha. lia.
Qed.

(** ** Publication of a new OFD *)

Lemma file_entry_live handle flags mutex token e :
  slot_free e -> handle <> HL_HOST_HANDLE_INVALID -> mutex <> HL_HOST_HANDLE_INVALID ->
  slot_live (file_entry handle flags mutex token e).
Proof.
  intros [Hr Ha Hc Hm []] Hh Hmx. constructor; simpl; try done.
  rewrite cleared_ops. symmetry. apply negb_true_iff. by apply Z.eqb_neq.
Qed.

Lemma object_entry_live ops context kind flags mutex token e :
  ops <> 0 -> context <> 0 -> has_close ops = true -> mutex <> HL_HOST_HANDLE_INVALID ->
  slot_live (object_entry ops context kind flags mutex token e).
Proof.
  intros Ho Hc Hcl Hm. constructor; simpl; try done.
  by apply Z.eqb_neq.
Qed.

(** [update_entry] then [bind_fd] on a free slot and an unused descriptor. *)
Lemma publish_spec t fd fe i e dflags f :
  table_inv t -> lookupZ (fds t) fd = Some fe -> fd_ofd fe = 0 ->
  1 <= i < ofd_watermark t -> lookupZ (ofds t) i = Some e -> slot_free e ->
  references (f e) = 1 -> active_operations (f e) = 0 -> slot_live (f e) ->
  let t1 := put_ofd i (f e) t in
  let t' := put_fd fd (mk_fd i dflags (u32 (fd_generation fe + 1))) t1 in
  update_entry i f t = Some t1 /\ bind_fd fd i dflags t1 = Some t' /\ table_inv t'.
Proof.
  intros Hinv Hfe H0 Hi He Hfree Hr Ha Hlive t1 t'. split_and!.
  - unfold update_entry. by rewrite He.
  - unfold bind_fd. simpl. by rewrite Hfe.
  - rewrite <- (set_reserved_id t'). eapply (table_inv_bind t fd fe _ i e); try done; auto.
    + rewrite Hr. destruct Hfree. lia.
    + rewrite Ha. lia.
    + rewrite H0. simpl. lia.
Qed.

(** ** Duplication *)

Lemma link_fd_spec t fd fe i e dflags :
  table_inv t -> lookupZ (fds t) fd = Some fe -> fd_ofd fe = 0 ->
  1 <= i < ofd_capacity t -> lookupZ (ofds t) i = Some e -> slot_live e ->
  let t' := put_fd fd (mk_fd i dflags (u32 (fd_generation fe + 1)))
              (put_ofd i (with_references (references e + 1) e) t) in
  link_fd fd i dflags t = Some t' /\ table_inv t'.
Proof.
  intros Hinv Hfe H0 Hi He Hlive t'.
  pose proof (references_bounds _ _ _ Hinv (proj1 Hi) He) as Hb.
  assert (Hl : slot_live (with_references (references e + 1) e)).
  { destruct Hlive. constructor; simpl; try done. lia. }
  split.
  - unfold link_fd, bind_fd, update_entry. rewrite Hfe. simpl. rewrite He.
    by rewrite u32_small by (unfold HL_LINUX_FD_LIMIT in *; lia).
  - rewrite <- (set_reserved_id t'). eapply (table_inv_bind t fd fe _ i e); try done; auto.
    + split; [lia|]. apply (proj2 (inv_slots _ _ Hinv _ _ (proj1 Hi) He)). apply Hlive.
    + simpl. by destruct (inv_slot _ _ _ _ Hinv (proj1 Hi) He).
    + rewrite H0. simpl. lia.
Qed.

(** ** Replacement (dup2, dup3)

    The displaced slot, if any, loses a reference before the source's slot
    gains one; both may be the same slot. *)

Definition replaced (t : hl_linux_abi) (source_ofd target dflags : Z) (te : hl_linux_fd_entry)
    (drop : option hl_linux_ofd_entry) : option hl_linux_abi :=
  let t1 := match drop with Some e => put_ofd (fd_ofd te) (dropped e) t | None => t end in
  match lookupZ (ofds t1) source_ofd with
  | Some se =>
      Some (put_fd target (mk_fd source_ofd dflags (u32 (fd_generation te + 1)))
              (put_ofd source_ofd (with_references (references se + 1) se) t1))
  | None => None
  end.

(** The intermediate table in which the target is vacated: the bridge from
    the code's order of assignments to [table_inv_unbind] and [table_inv_bind]. *)
Lemma vacate_target t target te e :
  table_inv t -> lookupZ (fds t) target = Some te -> 1 <= fd_ofd te < ofd_capacity t ->
  lookupZ (ofds t) (fd_ofd te) = Some e -> slot_live e ->
  table_inv (put_fd target (mk_fd 0 0 0) (put_ofd (fd_ofd te) (dropped e) t)).
Proof.
  intros Hinv Hte Hrange He Hlive. destruct (dropped_fields e) as (Hr & Ha & _).
  apply (table_inv_unbind t target te (mk_fd 0 0 0) e); try done.
  - rewrite Ha. by destruct (inv_slot _ _ _ _ Hinv (proj1 Hrange) He).
  - by apply dropped_state.
Qed.

Lemma relink_target t target te i e dflags g :
  table_inv t -> lookupZ (fds t) target = Some te -> fd_ofd te = 0 ->
  1 <= i < ofd_capacity t -> lookupZ (ofds t) i = Some e -> slot_live e ->
  table_inv (put_fd target (mk_fd i dflags g)
               (put_ofd i (with_references (references e + 1) e) t)).
Proof.
  intros Hinv Hte H0 Hi He Hlive.
  pose proof (references_bounds _ _ _ Hinv (proj1 Hi) He) as Hb.
  rewrite <- (set_reserved_id (put_fd _ _ _)).
  eapply (table_inv_bind t target te _ i e); try done; auto.
  - split; [lia|]. apply (proj2 (inv_slots _ _ Hinv _ _ (proj1 Hi) He)). apply Hlive.
  - simpl. by destruct (inv_slot _ _ _ _ Hinv (proj1 Hi) He).
  - destruct Hlive. constructor; simpl; try done. lia.
  - rewrite H0. simpl. lia.
Qed.

(** ** Quiescence *)

Lemma quiescent_put_ofd t i e' :
  quiescent t -> active_operations e' = 0 -> closing e' = 0 -> quiescent (put_ofd i e' t).
Proof.
  intros Hq Ha Hc k x Hk Hx. simpl in Hx.
  destruct (decide (i = k)) as [->|Hne].
  - pose proof (lookupZ_Some_range _ _ _ Hx) as Hr. rewrite lengthZ_insertZ in Hr.
    rewrite lookupZ_insertZ_eq in Hx by done. by injection Hx as <-.
  - rewrite lookupZ_insertZ_ne in Hx by done. by eapply Hq.
Qed.

Lemma quiescent_fds t t' : ofds t' = ofds t -> quiescent t -> quiescent t'.
Proof. unfold quiescent. intros ->. done. Qed.

Lemma quiescent_active t i e :
  quiescent t -> 1 <= i -> lookupZ (ofds t) i = Some e -> active_operations e = 0.
Proof. intros Hq Hi He. by destruct (Hq _ _ Hi He). Qed.

(** ** Pins *)

Lemma begin_end_entry e :
  0 <= active_operations e < 2 ^ 32 -> end_entry (begin_entry e) = e.
Proof.
  intros Ha. unfold end_entry, begin_entry. destruct e. simpl in *.
  by rewrite u32_incr_decr.
Qed.

Lemma active_range x : 0 <= u32 x < 2 ^ 32.
Proof. apply u32_range. Qed.

Lemma begin_entry_inv t i e :
  table_inv t -> 1 <= i -> lookupZ (ofds t) i = Some e -> ~ slot_free e ->
  table_inv (put_ofd i (begin_entry e) t).
Proof.
  intros Hinv Hi He Hnf. apply (table_inv_put_ofd _ t i e); try done.
  { apply active_range. }
  destruct (inv_slot _ _ _ _ Hinv Hi He) as [_ _ [[]|[[]|?]]]; [left|right; left|done];
    constructor; simpl; done.
Qed.

Lemma end_entry_inv t i e :
  table_inv t -> 1 <= i -> lookupZ (ofds t) i = Some e -> active_operations e <> 0 ->
  table_inv (put_ofd i (end_entry e) t).
Proof.
  intros Hinv Hi He Ha. apply (table_inv_put_ofd _ t i e); try done.
  { apply active_range. }
  destruct (inv_slot _ _ _ _ Hinv Hi He) as [_ _ [[]|[[]|[]]]]; [left|right; left|done];
    constructor; simpl; done.
Qed.
End Sections.

(** ** A total-correctness calculus for the handlers

    [wp c Q s]: from [s] the handler [c] returns - no call through a NULL
    pointer, no index outside an array, no endless retry - and its result and
    final state satisfy [Q]. *)

Section Wp.
Context {W : Type}.

Definition wp {A} (c : M W A) (Q : A -> machine W -> Prop) (s : machine W) : Prop :=
  exists a s', c s = Some (a, s') /\ Q a s'.

Lemma wp_ret {A} (a : A) Q s : Q a s -> wp (ret a) Q s.
Proof. intros HQ. by exists a, s. Qed.

Lemma wp_bind {A B} (c : M W A) (k : A -> M W B) Q s :
  wp c (fun a s' => wp (k a) Q s') s -> wp (bind c k) Q s.
Proof.
  intros (a & s' & Hc & b & s'' & Hk & HQ). exists b, s''. split; [|done].
  unfold bind. by rewrite Hc.
Qed.

Lemma wp_mono {A} (c : M W A) (Q Q' : A -> machine W -> Prop) s :
  wp c Q s -> (forall a s', Q a s' -> Q' a s') -> wp c Q' s.
Proof. intros (a & s' & Hc & HQ) Himp. exists a, s'. auto. Qed.

Lemma wp_get_tbl Q s : Q (tbl s) s -> wp get_tbl Q s.
Proof. intros HQ. by exists (tbl s), s. Qed.

Lemma wp_put_tbl t Q s : Q tt (set_tbl t s) -> wp (put_tbl t) Q s.
Proof. intros HQ. by exists tt, (set_tbl t s). Qed.

Lemma wp_modify f Q s : Q tt (f s) -> wp (modify_machine f) Q s.
Proof. intros HQ. by exists tt, (f s). Qed.

(** A host call: any result, any world. *)
Lemma wp_call {B} (g : W -> B * W) Q s :
  (forall b w, g (world s) = (b, w) -> Q b (set_world w s)) -> wp (call (Some g)) Q s.
Proof.
  intros HQ. unfold wp, call. destruct (g (world s)) as [b w] eqn:Hg.
  exists b, (set_world w s). split; [done|]. by apply HQ.
Qed.

Lemma wp_get_ofd i e Q s :
  lookupZ (ofds (tbl s)) i = Some e -> Q e s -> wp (get_ofd i) Q s.
Proof. intros He HQ. exists e, s. unfold get_ofd. by rewrite He. Qed.

Lemma wp_update_ofd i f e Q s :
  lookupZ (ofds (tbl s)) i = Some e -> Q tt (set_tbl (put_ofd i (f e) (tbl s)) s) ->
  wp (update_ofd i f) Q s.
Proof. intros He HQ. eexists tt, _. unfold update_ofd. rewrite He. done. Qed.

Lemma wp_section {A} (f : hl_linux_abi -> option (A * hl_linux_abi)) a t Q s :
  f (tbl s) = Some (a, t) -> Q a (set_tbl t s) -> wp (section f) Q s.
Proof. intros Hf HQ. eexists _, _. unfold section. rewrite Hf. done. Qed.

Lemma wp_new_token Q s :
  (forall token c, Q token (set_token_counter c s)) -> wp hl_linux_new_ofd_token Q s.
Proof. intros HQ. unfold wp, hl_linux_new_ofd_token. eauto. Qed.
End Wp.

(** Apply the rule of the next command. *)
Ltac wp_step :=
  match goal with
  | |- wp (bind _ _) _ _ => apply wp_bind
  | |- wp (ret _) _ _ => apply wp_ret
  | |- wp get_tbl _ _ => apply wp_get_tbl
  | |- wp (put_tbl _) _ _ => apply wp_put_tbl
  | |- wp (modify_machine _) _ _ => apply wp_modify
  | |- wp (call (Some _)) _ _ => apply wp_call; intros ? ? _
  | |- wp hl_linux_new_ofd_token _ _ => apply wp_new_token; intros ? ?
  end.
Ltac wp_steps := repeat (wp_step; cbn beta iota).
