(* ===== verification/FdHandlers.v ===== *)
(** * The descriptor handlers: total correctness

    Every handler of FdOps.v and FdControl.v, started on a well-formed table,
    returns and leaves a well-formed table, whatever the host answers; the
    postconditions say what happened to the table. *)

From S2P Require Import Prelude Status Host FdTable Machine FdOps FdControl FdIO FdInvariant FdSections.

(** What [hl_linux_abi_init] checks once, and what [hl_linux_write] relies on
    without a check: the services' mandatory entries are not NULL. *)
Class HostReady {W} (host : hl_host_services W) := {
  ready_sync : hl_host_sync_services W;
  ready_create : W -> hl_host_result * W;
  ready_lock : Z -> W -> hl_host_result * W;
  ready_unlock : Z -> W -> hl_host_result * W;
  ready_close : Z -> W -> hl_host_result * W;
  ready_sync_found : hl_linux_sync host = Some ready_sync;
  ready_create_found : mutex_create ready_sync = Some ready_create;
  ready_lock_found : mutex_lock ready_sync = Some ready_lock;
  ready_unlock_found : mutex_unlock ready_sync = Some ready_unlock;
  ready_close_found : mutex_close ready_sync = Some ready_close;
  ready_write : forall f, hl_linux_files host = Some f ->
    is_Some (f_write f) /\ is_Some (f_append f)
}.

Section Api.
Context {W : Type}.
Variable host : hl_host_services W.
Variable vtable : Z -> hl_linux_object_ops W.
Context `{!HostReady host}.

Definition has_close (ops : Z) : bool :=
  match o_close (vtable ops) with Some _ => true | None => false end.

#[local] Abbreviation table_inv := (table_inv has_close).
#[local] Abbreviation table_wf := (table_wf has_close).
#[local] Abbreviation slot_live := (slot_live has_close).
#[local] Abbreviation slot_closing := (slot_closing has_close).

(** ** Services *)

Lemma wp_sync_lock m Q s :
  (forall r w, Q r (set_world w s)) -> wp (sync_lock host m) Q s.
Proof.
  intros HQ. unfold sync_lock. rewrite ready_sync_found. unfold call1.
  rewrite ready_lock_found. by wp_steps.
Qed.

Lemma wp_sync_unlock m Q s :
  (forall r w, Q r (set_world w s)) -> wp (sync_unlock host m) Q s.
Proof.
  intros HQ. unfold sync_unlock. rewrite ready_sync_found. unfold call1.
  rewrite ready_unlock_found. by wp_steps.
Qed.

Lemma wp_sync_close m Q s :
  (forall r w, Q r (set_world w s)) -> wp (sync_close host m) Q s.
Proof.
  intros HQ. unfold sync_close. rewrite ready_sync_found. unfold call1.
  rewrite ready_close_found. by wp_steps.
Qed.

Lemma wp_mutex_close m Q s :
  (forall r w, Q r (set_world w s)) -> wp (call1 (mutex_close ready_sync) m) Q s.
Proof. intros HQ. unfold call1. rewrite ready_close_found. by wp_steps. Qed.

(** The OFD mutex is released only for a slot that exists. *)
Lemma wp_ofd_lock i e Q s :
  lookupZ (ofds (tbl s)) i = Some e -> (forall w, Q tt (set_world w s)) ->
  wp (hl_linux_ofd_lock host i) Q s.
Proof.
  intros He HQ. unfold hl_linux_ofd_lock. apply wp_bind, (wp_get_ofd _ e); [done|].
  apply wp_bind, wp_sync_lock. intros r w. by apply wp_ret.
Qed.

Lemma wp_ofd_unlock i e Q s :
  lookupZ (ofds (tbl s)) i = Some e -> (forall w, Q tt (set_world w s)) ->
  wp (hl_linux_ofd_unlock host i) Q s.
Proof.
  intros He HQ. unfold hl_linux_ofd_unlock. apply wp_bind, (wp_get_ofd _ e); [done|].
  apply wp_bind, wp_sync_unlock. intros r w. by apply wp_ret.
Qed.

(** Creation of the OFD mutex: a failure is a failure status, a success a
    valid handle, and the table is untouched either way. *)
Lemma wp_create_io_mutex Q s :
  (forall status w, status <> HL_STATUS_OK -> Q (inl status) (set_world w s)) ->
  (forall mutex w, mutex <> HL_HOST_HANDLE_INVALID ->
     Q (inr (mutex, ready_sync)) (set_world w s)) ->
  wp (create_io_mutex host) Q s.
Proof.
  intros Hf Ho. unfold create_io_mutex. rewrite ready_sync_found, ready_create_found,
    ready_close_found. apply wp_bind, wp_call. intros r w _.
  destruct (negb (is_ok (r_status r)) || (r_value r =? HL_HOST_HANDLE_INVALID)) eqn:Hr.
  - apply wp_ret. apply Hf. by destruct (r_status r).
  - apply wp_ret. bool_props. by apply Ho.
Qed.

(** ** Finalisation *)

(** The final close of a slot nobody else uses: it returns, frees the slot,
    hands the host handle to the caller, and touches no other slot. *)
Lemma wp_finalize fuel i e last Q s :
  table_inv (tbl s) -> 1 <= i -> lookupZ (ofds (tbl s)) i = Some e ->
  slot_closing e -> active_operations e = 0 ->
  (forall status s',
     tbl s' = put_ofd i (released (cleared e)) (tbl s) ->
     table_inv (tbl s') -> slot_free (released (cleared e)) ->
     Q (status, match last with Some _ => Some (host_handle e) | None => None end) s') ->
  wp (hl_linux_ofd_finalize host vtable fuel i last) Q s.
Proof.
  intros Hinv Hi He Hcl Ha HQ. unfold hl_linux_ofd_finalize.
  apply wp_bind, (wp_get_ofd _ e); [done|]. apply wp_bind, wp_sync_lock. intros lock w.
  destruct (finalize_claim_spec has_close _ _ _ Hinv Hi He Hcl Ha) as (Hclaim & Hinv1 & Hcl1 & Hcc1).
  apply wp_bind. eexists (inr (_, _, _, _)), _. split.
  { destruct fuel; simpl; unfold bind; simpl; rewrite Hclaim; reflexivity. }
  cbn beta iota.
  set (s1 := set_tbl (put_ofd i (cleared e) (tbl (set_world w s))) (set_world w s)).
  assert (He1 : lookupZ (ofds (tbl s1)) i = Some (cleared e)).
  { simpl. apply lookupZ_insertZ_eq. by eapply lookupZ_Some_range. }
  assert (Hrel : forall status s2, tbl s2 = tbl s1 ->
    wp (let! released := section (finalize_release i (io_mutex e)) in
        if negb (is_ok released) then ret (released, last)
        else ret (status, match last with Some _ => Some (host_handle e) | None => None end)) Q s2).
  { intros status s2 Ht. apply wp_bind.
    destruct (finalize_release_spec has_close (tbl s1) i (cleared e)) as (Hr & Hinv2 & Hfree);
      try done. change (io_mutex (cleared e)) with (io_mutex e) in Hr.
    eexists _, _. split; [unfold section; rewrite Ht, Hr; reflexivity|]. cbn beta iota.
    apply wp_ret. assert (Heq : put_ofd i (released (cleared e)) (tbl s1)
                                = put_ofd i (released (cleared e)) (tbl s)).
    { unfold put_ofd, set_ofds. simpl. by rewrite insertZ_insertZ_eq. }
    apply HQ; [by rewrite tbl_set_tbl|done|done]. }
  apply wp_bind.
  assert (Hclose : forall Q' s2, (forall st w, Q' st (set_world w s2)) -> (forall st, Q' st s2) ->
    wp (if negb (object_ops e =? 0) then call1 (o_close (vtable (object_ops e))) (object_context e)
        else ret (r_status lock)) Q' s2).
  { intros Q' s2 H1 H2. destruct (Z.eqb_spec (object_ops e) 0); simpl; [by apply wp_ret|].
    assert (Hc : has_close (object_ops e) = true) by (by apply (closing_close _ _ Hcl)).
    unfold has_close in Hc. unfold call1.
    destruct (o_close (vtable (object_ops e))); [|done]. by wp_steps. }
  assert (Htail : forall st s2, tbl s2 = tbl s1 ->
    wp (let! close_status :=
          (if is_ok (r_status lock) then
             let! r := sync_unlock host (io_mutex e) in ret (keep_first st (r_status r))
           else ret st) in
        let! r := sync_close host (io_mutex e) in
        let! released := section (finalize_release i (io_mutex e)) in
        if negb (is_ok released) then ret (released, last)
        else ret (keep_first close_status (r_status r),
                  match last with Some _ => Some (host_handle e) | None => None end)) Q s2).
  { intros st s2 Ht. apply wp_bind. destruct (is_ok (r_status lock)).
    - apply wp_bind, wp_sync_unlock. intros r w2. apply wp_ret.
      apply wp_bind, wp_sync_close. intros r' w3. by apply Hrel.
    - apply wp_ret. apply wp_bind, wp_sync_close. intros r' w3. by apply Hrel. }
  apply Hclose; intros; by apply Htail.
Qed.

(** ** Close *)

(** The table after [close] of a descriptor in use. *)
Definition close_result (t : hl_linux_abi) (fd : Z) (fe : hl_linux_fd_entry)
    (e : hl_linux_ofd_entry) : hl_linux_abi :=
  put_ofd (fd_ofd fe)
    (if references e =? 1 then released (cleared (dropped e)) else dropped e)
    (put_fd fd (mk_fd 0 0 (u32 (fd_generation fe + 1))) t).

(** The slot freed by a finalisation. *)
Lemma dropped_final e : references e = 1 -> slot_live e -> slot_closing (dropped e).
Proof.
  intros Hr Hl. destruct (dropped_state _ e Hl) as [[Hx]|Hx]; [|done].
  exfalso. apply Hx. unfold dropped. rewrite Hr. done.
Qed.

Lemma close_result_wf t fd fe e :
  table_wf t -> lookupZ (fds t) fd = Some fe -> 1 <= fd_ofd fe < ofd_capacity t ->
  lookupZ (ofds t) (fd_ofd fe) = Some e -> slot_live e ->
  table_inv (close_result t fd fe e) -> table_wf (close_result t fd fe e).
Proof.
  intros [Hinv Hq] Hfe Hrange He Hlive Hinv'. split; [done|].
  pose proof (quiescent_active _ _ _ Hq (proj1 Hrange) He) as Ha.
  unfold close_result. apply quiescent_put_ofd; [by eapply quiescent_fds| |];
    unfold dropped; destruct (Z.eqb_spec (references e) 1); simpl; try done.
  by destruct Hlive.
Qed.

(** The part of close after the retire notification. *)
Lemma wp_finish_close fuel fd fe e last Q (s s2 : machine W) :
  table_wf (tbl s) -> lookupZ (fds (tbl s)) fd = Some fe ->
  1 <= fd_ofd fe < ofd_capacity (tbl s) ->
  lookupZ (ofds (tbl s)) (fd_ofd fe) = Some e -> slot_live e ->
  tbl s2 = put_ofd (fd_ofd fe) (dropped e)
             (put_fd fd (mk_fd 0 0 (u32 (fd_generation fe + 1))) (tbl s)) ->
  table_inv (tbl s2) ->
  (forall status s',
     tbl s' = close_result (tbl s) fd fe e -> table_wf (tbl s') ->
     Q (status, match last with
                | Some h => Some (if references e =? 1 then host_handle e else h)
                | None => None
                end) s') ->
  wp (if (references e =? 1) && negb ((references e =? 1) && negb (active_operations e =? 0))
      then hl_linux_ofd_finalize host vtable fuel (fd_ofd fe) last
      else ret (HL_STATUS_OK, last)) Q s2.
Proof.
  intros [Hinv Hq] Hfe Hrange He Hlive Ht2 Hinv2 HQ.
  rewrite (quiescent_active _ _ _ Hq (proj1 Hrange) He). simpl.
  destruct (dropped_fields e) as (Hr' & Ha' & Hh' & _).
  destruct (Z.eqb_spec (references e) 1) as [Hone|Hmore]; simpl.
  - apply (wp_finalize fuel (fd_ofd fe) (dropped e)); [done|lia| | | |].
    { rewrite Ht2. simpl. apply lookupZ_insertZ_eq. by eapply lookupZ_Some_range. }
    { by apply dropped_final. }
    { rewrite Ha'. exact (quiescent_active _ _ _ Hq (proj1 Hrange) He). }
    intros status s' Ht' Hinv3 Hfree. rewrite Hh'.
    assert (Htt : tbl s' = close_result (tbl s) fd fe e).
    { rewrite Ht', Ht2. unfold close_result. rewrite Hone. simpl.
      unfold put_ofd, set_ofds. simpl. by rewrite insertZ_insertZ_eq. }
    apply HQ; [done|]. rewrite Htt in *. by apply close_result_wf.
  - apply wp_ret.
    assert (Htt : tbl s2 = close_result (tbl s) fd fe e).
    { rewrite Ht2. unfold close_result. by destruct (Z.eqb_spec (references e) 1). }
    replace last with (match last with Some h => Some h | None => None end) by by destruct last.
    apply HQ; [done|]. rewrite Htt in *. by apply close_result_wf.
Qed.

(** Close: a vacant descriptor is refused without effect; otherwise the
    descriptor is vacated and the last reference frees the slot and returns
    the host handle. *)
Lemma wp_fd_close fuel fd last Q s :
  table_wf (tbl s) ->
  ((forall fe, lookupZ (fds (tbl s)) fd = Some fe ->
      fd_ofd fe = 0 \/ fd_ofd fe = HL_LINUX_FD_RESERVED) ->
   Q (HL_STATUS_NOT_FOUND, match last with Some _ => Some 0 | None => None end) s) ->
  (forall fe e status s',
     lookupZ (fds (tbl s)) fd = Some fe -> 1 <= fd_ofd fe < ofd_capacity (tbl s) ->
     lookupZ (ofds (tbl s)) (fd_ofd fe) = Some e -> slot_live e ->
     tbl s' = close_result (tbl s) fd fe e -> table_wf (tbl s') ->
     Q (status, match last with
                | Some _ => Some (if references e =? 1 then host_handle e else 0)
                | None => None
                end) s') ->
  wp (hl_linux_fd_close host vtable fuel fd last) Q s.
Proof.
  intros Hwf Hvac Huse. pose proof Hwf as [Hinv Hq]. unfold hl_linux_fd_close.
  apply wp_bind, wp_get_tbl.
  pose proof (get_unlocked_inv has_close (tbl s) fd Hinv) as Hget.
  destruct (hl_linux_fd_get_unlocked (tbl s) fd) as [st|[[fe i] e]].
  { destruct Hget as [_ Hv]. rewrite close_section_vacant by done.
    apply wp_ret. destruct last; by apply Hvac. }
  destruct Hget as (Hfe & -> & Hrange & He & Hlive).
  destruct (close_section_spec has_close _ _ _ _ Hinv Hfe Hrange He Hlive) as [-> Hinv'].
  apply wp_bind, wp_put_tbl. cbn [co_retire_ops co_retire_context co_final co_deferred co_ofd].
  apply wp_bind.
  match goal with |- wp _ ?Qr _ => assert (Hrest : forall s2,
    tbl s2 = put_ofd (fd_ofd fe) (dropped e)
               (put_fd fd (mk_fd 0 0 (u32 (fd_generation fe + 1))) (tbl s)) -> Qr tt s2) end.
  { intros s2 Ht2. eapply wp_finish_close; try done; [by rewrite Ht2|].
    intros status s' Ht' Hwf'. specialize (Huse fe e status s' Hfe Hrange He Hlive Ht' Hwf').
    by destruct last. }
  destruct (negb ((if references e =? 1 then object_ops e else 0) =? 0));
    [|apply wp_ret; by apply Hrest].
  destruct (o_retire _) as [retire|]; [|apply wp_ret; by apply Hrest].
  apply wp_call. intros [] w _. by apply Hrest.
Qed.
End Api.

(** ** Creation of descriptors

    The handlers that fill a slot or make a descriptor name one - the install
    family, reservations, duplication - each return from a well-formed table
    and leave a well-formed table; the postconditions say which table. *)

(** Slot [i], free before, holds [f]'s entry and descriptor [fd], unused before
    ([busy]: reserved before), names it. *)
Definition published (t t' : hl_linux_abi) (fd i dflags : Z)
    (f : hl_linux_ofd_entry -> hl_linux_ofd_entry) : Prop :=
  exists w e fe,
    lookupZ (ofds t) i = Some e /\ slot_free e /\ 1 <= i /\
    lookupZ (fds t) fd = Some fe /\ fd_ofd fe = 0 /\
    t' = put_fd fd (mk_fd i dflags (u32 (fd_generation fe + 1)))
           (put_ofd i (f e) (set_watermark w t)).

(** The commit of a reservation. *)
Definition committed (t t' : hl_linux_abi) (fd i dflags : Z)
    (f : hl_linux_ofd_entry -> hl_linux_ofd_entry) : Prop :=
  exists w e fe,
    lookupZ (ofds t) i = Some e /\ slot_free e /\ 1 <= i /\
    lookupZ (fds t) fd = Some fe /\ fd_ofd fe = HL_LINUX_FD_RESERVED /\
    t' = set_reserved (reserved_fds t - 1)
           (put_fd fd (mk_fd i dflags (fd_generation fe))
             (put_ofd i (f e) (set_watermark w t))).

(** [fd], unused before, names the slot [i] of another descriptor. *)
Definition linked (t t' : hl_linux_abi) (fd i dflags : Z) : Prop :=
  exists e fe,
    lookupZ (ofds t) i = Some e /\ references e <> 0 /\ 1 <= i /\
    lookupZ (fds t) fd = Some fe /\ fd_ofd fe = 0 /\
    t' = put_fd fd (mk_fd i dflags (u32 (fd_generation fe + 1)))
           (put_ofd i (with_references (references e + 1) e) t).

Section Publish.
Context {W : Type}.
Variable host : hl_host_services W.
Variable vtable : Z -> hl_linux_object_ops W.
Context `{!HostReady host}.

#[local] Abbreviation has_close := (has_close vtable).
#[local] Abbreviation table_inv := (table_inv has_close).
#[local] Abbreviation table_wf := (table_wf has_close).
#[local] Abbreviation slot_live := (slot_live has_close).

Lemma wp_section_ f t' Q (s : machine W) :
  f (tbl s) = Some t' -> Q tt (set_tbl t' s) -> wp (section_ f) Q s.
Proof. intros Hf HQ. eexists tt, _. unfold section_. rewrite Hf. done. Qed.

Lemma set_watermark_id t : set_watermark (ofd_watermark t) t = t.
Proof. by destruct t. Qed.

(** Allocation of a slot, as the publications use it. *)
Lemma find_ofd_published t i t' :
  table_wf t -> hl_linux_find_ofd t = Some (i, t') ->
  exists w e, t' = set_watermark w t /\ lookupZ (ofds t) i = Some e /\ slot_free e /\
    1 <= i < w /\ i < ofd_capacity t /\ table_wf t'.
Proof.
  intros [Hinv Hq] Hf. pose proof Hf as Hf'.
  destruct (find_ofd_Some _ _ _ _ Hinv Hf) as (Hinv' & _ & _ & _ & Hi & e & He & Hfree).
  assert (exists w, t' = set_watermark w t) as [w ->].
  { unfold hl_linux_find_ofd in Hf'. destruct (scan_from _ _ _); [|done].
    injection Hf' as -> <-. destruct (_ <? _); [eauto|].
    exists (ofd_watermark t). by rewrite set_watermark_id. }
  exists w, e. pose proof (lookupZ_Some_range _ _ _ He).
  simpl in Hi. unfold ofd_capacity.
  split_and!; try done; lia.
Qed.

(** The commands that publish a slot under an unused descriptor. *)
Lemma wp_publish {A} fd fe i e w dflags f (k : M W A) Q (s s1 : machine W) :
  table_wf (tbl s) -> lookupZ (fds (tbl s)) fd = Some fe -> fd_ofd fe = 0 ->
  tbl s1 = set_watermark w (tbl s) -> table_wf (tbl s1) ->
  lookupZ (ofds (tbl s)) i = Some e -> slot_free e -> 1 <= i < w ->
  references (f e) = 1 -> slot_live (f e) -> active_operations (f e) = 0 ->
  (forall s', published (tbl s) (tbl s') fd i dflags f -> table_wf (tbl s') -> wp k Q s') ->
  wp (section_ (update_entry i f) ;;! section_ (bind_fd fd i dflags) ;;! k) Q s1.
Proof.
  intros [Hinv Hq] Hfe H0 Hs1 [Hinv' Hq'] He Hfree Hi Hr Hlive Ha HQ. rewrite Hs1 in *.
  destruct (publish_spec has_close (set_watermark w (tbl s)) fd fe i e dflags f)
    as (Hu & Hb & Hinv2); try done.
  apply wp_bind. eapply wp_section_; [rewrite Hs1; exact Hu|].
  apply wp_bind. eapply wp_section_; [exact Hb|]. simpl in Hinv2. apply HQ.
  - exists w, e, fe. split_and!; done || lia.
  - split; [done|]. eapply quiescent_fds; [|eapply (quiescent_put_ofd (set_watermark w (tbl s)) i (f e))];
      try done. by destruct Hlive.
Qed.

(** A failure status with the table as it was: what a refused publication
    leaves, whichever host call came before. *)
Lemma wp_refuse {A} (a : A) mutex Q (s : machine W) :
  (forall s', tbl s' = tbl s -> Q a s') ->
  wp (let! _ := call1 (mutex_close ready_sync) mutex in ret a) Q s.
Proof.
  intros HQ. apply wp_bind, wp_mutex_close. intros r w. apply wp_ret. by apply HQ.
Qed.

Lemma file_entry_fields handle flags mutex token e :
  slot_free e ->
  references (file_entry handle flags mutex token e) = 1 /\
  active_operations (file_entry handle flags mutex token e) = 0.
Proof. intros []. simpl. auto. Qed.

(** What install, install_at and commit do once the descriptor is chosen. *)
Lemma wp_publish_file {A} fd fe i t' handle flags dflags mutex (a : A) Q (s : machine W) :
  table_wf (tbl s) -> lookupZ (fds (tbl s)) fd = Some fe -> fd_ofd fe = 0 ->
  hl_linux_find_ofd (tbl s) = Some (i, t') ->
  handle <> HL_HOST_HANDLE_INVALID -> mutex <> HL_HOST_HANDLE_INVALID ->
  (forall token s',
     published (tbl s) (tbl s') fd i dflags (file_entry handle flags mutex token) ->
     table_wf (tbl s') -> Q a s') ->
  wp (put_tbl t' ;;!
      let! token := hl_linux_new_ofd_token in
      section_ (update_entry i (file_entry handle flags mutex token)) ;;!
      section_ (bind_fd fd i dflags) ;;! ret a) Q s.
Proof.
  intros Hwf Hfe H0 Hofd Hh Hm HQ.
  destruct (find_ofd_published _ _ _ Hwf Hofd) as (wm & e & -> & He & Hfree & Hi & _ & Hwf').
  apply wp_bind, wp_put_tbl, wp_bind, wp_new_token. intros token c.
  destruct (file_entry_fields handle flags mutex token e Hfree) as [Hr Ha].
  eapply wp_publish; try done; [by apply file_entry_live|].
  intros s' Hpub Hwf2. apply wp_ret. by eapply HQ.
Qed.

(** [hl_linux_fd_install]: on success the lowest unused descriptor names a
    slot that was free; every other answer leaves the table as it was. *)
Lemma wp_fd_install handle flags dflags out Q (s : machine W) :
  table_wf (tbl s) ->
  (forall status out' s', status <> HL_STATUS_OK -> tbl s' = tbl s -> Q (status, out') s') ->
  (forall fd i mutex token s',
     hl_linux_find_fd (tbl s) = Some fd ->
     published (tbl s) (tbl s') fd i dflags (file_entry handle flags mutex token) ->
     table_wf (tbl s') -> Q (HL_STATUS_OK, Some fd) s') ->
  wp (hl_linux_fd_install host handle flags dflags out) Q s.
Proof.
  intros Hwf Hfail Hok. unfold hl_linux_fd_install.
  destruct out as [x|]; simpl; [|apply wp_ret; by apply Hfail].
  apply wp_bind, wp_get_tbl. destruct (_ || _) eqn:Hguard; [apply wp_ret; by apply Hfail|].
  bool_props. apply wp_bind, (wp_create_io_mutex host).
  { intros status w Hs. apply wp_ret. by apply Hfail. }
  intros mutex w Hm. apply wp_bind, wp_get_tbl. simpl.
  destruct (hl_linux_find_fd (tbl s)) as [fd|] eqn:Hfd; [|apply wp_refuse; intros; by apply Hfail].
  destruct (hl_linux_find_ofd (tbl s)) as [[i t']|] eqn:Hofd; [|apply wp_refuse; intros; by apply Hfail].
  destruct (find_fd_Some _ _ Hfd) as (fe & Hfe & Hvac & _).
  eapply wp_publish_file; try done. intros token s' Hpub Hwf'. by eapply Hok.
Qed.

Lemma wp_fd_install_at fd handle flags dflags Q (s : machine W) :
  table_wf (tbl s) -> 0 <= fd ->
  (forall status s', status <> HL_STATUS_OK -> tbl s' = tbl s -> Q status s') ->
  (forall i mutex token s',
     published (tbl s) (tbl s') fd i dflags (file_entry handle flags mutex token) ->
     table_wf (tbl s') -> Q HL_STATUS_OK s') ->
  wp (hl_linux_fd_install_at host fd handle flags dflags) Q s.
Proof.
  intros Hwf Hfd0 Hfail Hok. unfold hl_linux_fd_install_at.
  apply wp_bind, wp_get_tbl. destruct (_ || _) eqn:Hguard; [apply wp_ret; by apply Hfail|].
  bool_props. apply wp_bind, (wp_create_io_mutex host).
  { intros status w Hs. apply wp_ret. by apply Hfail. }
  intros mutex w Hm. apply wp_bind, wp_get_tbl. simpl.
  destruct (lookupZ_is_Some (fds (tbl s)) fd) as [fe Hfe]; [unfold fd_capacity in *; lia|].
  rewrite Hfe. destruct (Z.eqb_spec (fd_ofd fe) 0) as [Hz|]; simpl;
    [|apply wp_refuse; intros; by apply Hfail].
  destruct (hl_linux_find_ofd (tbl s)) as [[i t']|] eqn:Hofd; [|apply wp_refuse; intros; by apply Hfail].
  eapply wp_publish_file; try done. intros token s' Hpub Hwf'. by eapply Hok.
Qed.

(** [hl_linux_object_install_common]. *)
Lemma wp_object_install_common requested ops context kind flags dflags out Q (s : machine W) :
  table_wf (tbl s) -> 0 <= requested ->
  (forall status out' s', status <> HL_STATUS_OK -> tbl s' = tbl s -> Q (status, out') s') ->
  (forall fd i mutex token s',
     (if requested =? UINT32_MAX then hl_linux_find_fd (tbl s) = Some fd else fd = requested) ->
     published (tbl s) (tbl s') fd i dflags (object_entry ops context kind flags mutex token) ->
     table_wf (tbl s') -> Q (HL_STATUS_OK, Some fd) s') ->
  wp (hl_linux_object_install_common host vtable requested ops context kind flags dflags out) Q s.
Proof.
  intros Hwf Hreq Hfail Hok. unfold hl_linux_object_install_common.
  apply wp_bind, wp_get_tbl. destruct (_ || _) eqn:Hguard; [apply wp_ret; by apply Hfail|].
  bool_props. apply wp_bind, (wp_create_io_mutex host).
  { intros status w Hs. apply wp_ret. by apply Hfail. }
  intros mutex w Hm. apply wp_bind, wp_new_token. intros token c. apply wp_bind, wp_get_tbl.
  cbn [tbl set_token_counter set_world].
  assert (Hclose : has_close ops = true).
  { unfold FdHandlers.has_close. by destruct (o_close (vtable ops)). }
  assert (Hgo : forall fd fe, lookupZ (fds (tbl s)) fd = Some fe -> fd_ofd fe = 0 ->
    (if requested =? UINT32_MAX then hl_linux_find_fd (tbl s) = Some fd else fd = requested) ->
    forall s1 : machine W, tbl s1 = tbl s ->
    wp (match match hl_linux_find_ofd (tbl s) with
              | None => inl HL_STATUS_RESOURCE_LIMIT
              | Some (ofd, t') => inr (fd, ofd, t')
              end with
        | inl status => let! _ := call1 (mutex_close ready_sync) mutex in ret (status, out)
        | inr (fd, ofd, t') =>
            put_tbl t' ;;!
            section_ (update_entry ofd (object_entry ops context kind flags mutex token)) ;;!
            section_ (bind_fd fd ofd dflags) ;;!
            ret (HL_STATUS_OK, Some fd)
        end) Q s1).
  { intros fd fe Hfe Hvac Hch s1 Hs1.
    destruct (hl_linux_find_ofd (tbl s)) as [[i t']|] eqn:Hofd;
      [|apply wp_refuse; intros; apply Hfail; congruence].
    destruct (find_ofd_published _ _ _ Hwf Hofd) as (wm & e & -> & He & Hfree & Hi & _ & Hwf').
    apply wp_bind, wp_put_tbl.
    eapply (wp_publish _ _ _ _ _ _ _ _ _ s); try done; [by apply object_entry_live|].
    intros s' Hpub Hwf2. apply wp_ret. by eapply Hok. }
  destruct (requested =? UINT32_MAX) eqn:Hr.
  - apply wp_bind, wp_ret. destruct (hl_linux_find_fd (tbl s)) as [fd|] eqn:Hfd;
      [|apply wp_refuse; intros; by apply Hfail].
    destruct (find_fd_Some _ _ Hfd) as (fe & Hfe & Hvac & _). by eapply Hgo.
  - simpl in *. bool_props.
    destruct (lookupZ_is_Some (fds (tbl s)) requested) as [fe Hfe]; [unfold fd_capacity in *; lia|].
    rewrite Hfe. apply wp_bind, wp_ret. destruct (Z.eqb_spec (fd_ofd fe) 0); simpl;
      [|apply wp_refuse; intros; by apply Hfail].
    by eapply Hgo.
Qed.

(** ** Reservations *)

Lemma reserved_bounds t : table_inv t -> 0 <= reserved_fds t <= HL_LINUX_FD_LIMIT.
Proof.
  intros Hinv. rewrite (inv_reserved _ _ Hinv). apply count_descriptors_bounds.
  apply (inv_fd_cap _ _ Hinv).
Qed.

Lemma reserved_pos t fd fe :
  table_inv t -> lookupZ (fds t) fd = Some fe -> fd_ofd fe = HL_LINUX_FD_RESERVED ->
  1 <= reserved_fds t.
Proof.
  intros Hinv Hfe Hr. rewrite (inv_reserved _ _ Hinv), <- Hr. by eapply count_descriptors_pos.
Qed.

(** A descriptor that names no slot before and after. *)
Lemma put_fd_wf t fd fe fe' r :
  table_wf t -> lookupZ (fds t) fd = Some fe ->
  (fd_ofd fe = 0 \/ fd_ofd fe = HL_LINUX_FD_RESERVED) ->
  (fd_ofd fe' = 0 \/ fd_ofd fe' = HL_LINUX_FD_RESERVED) ->
  r = reserved_fds t - (if fd_ofd fe =? HL_LINUX_FD_RESERVED then 1 else 0)
      + (if fd_ofd fe' =? HL_LINUX_FD_RESERVED then 1 else 0) ->
  table_wf (set_reserved r (put_fd fd fe' t)).
Proof.
  intros [Hinv Hq] Hfe Ha Hb Hr. split; [eapply table_inv_put_fd; eauto|].
  by apply (quiescent_fds t).
Qed.

Definition reserve_result (t : hl_linux_abi) (fd : Z) (fe : hl_linux_fd_entry) : hl_linux_abi :=
  set_reserved (reserved_fds t + 1)
    (put_fd fd (mk_fd HL_LINUX_FD_RESERVED 0 (u32 (fd_generation fe + 1))) t).

Lemma wp_fd_reserve_at fd out Q (s : machine W) :
  table_wf (tbl s) -> 0 <= fd ->
  (forall status out' s', status <> HL_STATUS_OK -> tbl s' = tbl s -> Q (status, out') s') ->
  (forall fe s', lookupZ (fds (tbl s)) fd = Some fe -> fd_ofd fe = 0 ->
     tbl s' = reserve_result (tbl s) fd fe -> table_wf (tbl s') ->
     Q (HL_STATUS_OK, Some (mk_reservation fd (u32 (fd_generation fe + 1)))) s') ->
  wp (hl_linux_fd_reserve_at fd out) Q s.
Proof.
  intros Hwf Hfd Hfail Hok. unfold hl_linux_fd_reserve_at.
  destruct out; simpl; [|apply wp_ret; by apply Hfail].
  apply wp_bind, wp_get_tbl. destruct (_ || _) eqn:Hguard; [apply wp_ret; by apply Hfail|].
  bool_props.
  destruct (lookupZ_is_Some (fds (tbl s)) fd) as [fe Hfe]; [unfold fd_capacity in *; lia|].
  rewrite Hfe. destruct (Z.eqb_spec (fd_ofd fe) 0) as [Hz|]; simpl; [|apply wp_ret; by apply Hfail].
  pose proof (reserved_bounds _ (proj1 Hwf)) as Hb.
  wp_steps. rewrite (u32_small (reserved_fds (tbl s) + 1)) by (unfold HL_LINUX_FD_LIMIT in *; lia).
  apply (Hok fe); try done. cbn [tbl set_tbl]. eapply put_fd_wf; eauto.
  rewrite Hz. simpl. lia.
Qed.

Definition cancel_result (t : hl_linux_abi) (fd : Z) (fe : hl_linux_fd_entry) : hl_linux_abi :=
  set_reserved (reserved_fds t - 1)
    (put_fd fd (mk_fd 0 (descriptor_flags fe) (fd_generation fe)) t).

Lemma drop_reserved_spec t fd fe fe' :
  table_inv t -> lookupZ (fds t) fd = Some fe -> fd_ofd fe = HL_LINUX_FD_RESERVED ->
  forall t1, reserved_fds t1 = reserved_fds t ->
  drop_reserved (put_fd fd fe' t1) = set_reserved (reserved_fds t - 1) (put_fd fd fe' t1).
Proof.
  intros Hinv Hfe Hr t1 Ht1. pose proof (reserved_pos _ _ _ Hinv Hfe Hr).
  pose proof (reserved_bounds _ Hinv). unfold drop_reserved. simpl. rewrite Ht1.
  destruct (Z.eqb_spec (reserved_fds t) 0); [lia|]. simpl.
  by rewrite u32_small by (unfold HL_LINUX_FD_LIMIT in *; lia).
Qed.

Lemma reservation_valid_true t r :
  reservation_valid t r = true ->
  exists fe, lookupZ (fds t) (rsv_fd r) = Some fe /\ fd_ofd fe = HL_LINUX_FD_RESERVED /\
    fd_generation fe = rsv_generation r.
Proof.
  unfold reservation_valid. destruct (lookupZ _ _) as [fe|]; [|done].
  intros. bool_props. by exists fe.
Qed.

Lemma wp_fd_cancel reservation Q (s : machine W) :
  table_wf (tbl s) -> match reservation with Some r => 0 <= rsv_fd r | None => True end ->
  (forall status s', status <> HL_STATUS_OK -> tbl s' = tbl s ->
     match reservation with Some r => reservation_valid (tbl s) r = false | None => True end ->
     Q status s') ->
  (forall r fe s', reservation = Some r -> reservation_valid (tbl s) r = true ->
     lookupZ (fds (tbl s)) (rsv_fd r) = Some fe -> fd_ofd fe = HL_LINUX_FD_RESERVED ->
     tbl s' = cancel_result (tbl s) (rsv_fd r) fe -> table_wf (tbl s') -> Q HL_STATUS_OK s') ->
  wp (hl_linux_fd_cancel reservation) Q s.
Proof.
  intros Hwf Hfd Hfail Hok. unfold hl_linux_fd_cancel. apply wp_bind, wp_get_tbl.
  destruct reservation as [r|]; [|apply wp_ret; by apply Hfail].
  destruct (reservation_valid (tbl s) r) eqn:Hv.
  - destruct (reservation_valid_true _ _ Hv) as (fe & Hfe & Hr & _).
    pose proof (lookupZ_Some_range _ _ _ Hfe).
    rewrite (inv_version _ _ (proj1 Hwf)). unfold fd_capacity.
    destruct (Z.leb_spec (lengthZ (fds (tbl s))) (rsv_fd r)); [lia|]. simpl. rewrite Hfe.
    wp_steps. rewrite (drop_reserved_spec (tbl s) _ fe) by (done || apply Hwf).
    apply (Hok r fe); try done. cbn [tbl set_tbl]. eapply put_fd_wf; eauto.
    rewrite Hr. simpl. lia.
  - destruct (_ || _) eqn:Hg; [apply wp_ret; by apply Hfail|]. bool_props.
    destruct (lookupZ_is_Some (fds (tbl s)) (rsv_fd r)) as [fe Hfe]; [unfold fd_capacity in *; lia|].
    rewrite Hfe. apply wp_ret. by apply Hfail.
Qed.

Lemma wp_fd_commit r handle flags dflags Q (s : machine W) :
  table_wf (tbl s) ->
  (forall status s', status <> HL_STATUS_OK -> tbl s' = tbl s -> Q status s') ->
  (forall i mutex token s', reservation_valid (tbl s) r = true ->
     committed (tbl s) (tbl s') (rsv_fd r) i dflags (file_entry handle flags mutex token) ->
     table_wf (tbl s') -> Q HL_STATUS_OK s') ->
  wp (hl_linux_fd_commit host r handle flags dflags) Q s.
Proof.
  intros Hwf Hfail Hok. unfold hl_linux_fd_commit.
  destruct (Z.eqb_spec handle HL_HOST_HANDLE_INVALID); [apply wp_ret; by apply Hfail|].
  apply wp_bind, (wp_create_io_mutex host).
  { intros status w Hs. apply wp_ret. by apply Hfail. }
  intros mutex w Hm. apply wp_bind, wp_get_tbl. cbn [tbl set_world].
  destruct (lookupZ (fds (tbl s)) (rsv_fd r)) as [fe|] eqn:Hfe;
    [|apply wp_refuse; intros; by apply Hfail].
  destruct (reservation_valid (tbl s) r) eqn:Hv; [|apply wp_refuse; intros; by apply Hfail].
  destruct (reservation_valid_true _ _ Hv) as (fe' & Hfe' & Hr & _).
  rewrite Hfe in Hfe'. injection Hfe' as <-. cbn [negb].
  destruct (hl_linux_find_ofd (tbl s)) as [[i t']|] eqn:Hofd; [|apply wp_refuse; intros; by apply Hfail].
  destruct (find_ofd_published _ _ _ Hwf Hofd) as (wm & e & -> & He & Hfree & Hi & _ & Hwf').
  apply wp_bind, wp_put_tbl, wp_bind, wp_new_token. intros token c.
  destruct (file_entry_fields handle flags mutex token e Hfree) as [Hr1 Ha].
  apply wp_bind. eapply wp_section_; [unfold update_entry; simpl; by rewrite He|].
  wp_steps. cbn [tbl set_tbl set_token_counter set_world].
  rewrite (drop_reserved_spec (tbl s) _ fe) by (done || apply Hwf).
  apply (Hok i mutex token); [done| |].
  - exists wm, e, fe. split_and!; done || lia.
  - cbn [tbl set_tbl]. split.
    + eapply (table_inv_bind has_close (set_watermark wm (tbl s)) (rsv_fd r) fe _ i e);
        try done; auto; [apply Hwf'|rewrite Hr1; destruct Hfree; lia|rewrite Ha; lia
                        |by apply file_entry_live|].
      rewrite Hr. simpl. lia.
    + eapply quiescent_fds; [|eapply (quiescent_put_ofd (set_watermark wm (tbl s)) i
        (file_entry handle flags mutex token e))]; try done; [apply Hwf'|].
      by destruct Hfree.
Qed.

(** ** Duplication *)

(** The link both entry points make. *)
Lemma wp_link {A} fd fe i e dflags (a : A) Q (s : machine W) :
  table_wf (tbl s) -> lookupZ (fds (tbl s)) fd = Some fe -> fd_ofd fe = 0 ->
  1 <= i < ofd_capacity (tbl s) -> lookupZ (ofds (tbl s)) i = Some e -> slot_live e ->
  (forall s', linked (tbl s) (tbl s') fd i dflags -> table_wf (tbl s') -> Q a s') ->
  wp (section_ (link_fd fd i dflags) ;;! ret a) Q s.
Proof.
  intros [Hinv Hq] Hfe H0 Hi He Hlive HQ.
  destruct (link_fd_spec has_close _ _ _ _ _ dflags Hinv Hfe H0 Hi He Hlive) as [Hl Hinv'].
  apply wp_bind. eapply wp_section_; [exact Hl|]. apply wp_ret. apply HQ.
  - exists e, fe. pose proof (live_refs _ _ Hlive). split_and!; done || lia.
  - split; [done|]. cbn [tbl set_tbl].
    eapply quiescent_fds; [|eapply quiescent_put_ofd; [exact Hq| |]]; [done| |].
    + exact (quiescent_active _ _ _ Hq (proj1 Hi) He).
    + by destruct Hlive.
Qed.

Lemma wp_fd_dup source dflags out Q (s : machine W) :
  table_wf (tbl s) ->
  (forall status out' s', status <> HL_STATUS_OK -> tbl s' = tbl s -> Q (status, out') s') ->
  (forall fe fd s', lookupZ (fds (tbl s)) source = Some fe ->
     1 <= fd_ofd fe < ofd_capacity (tbl s) -> hl_linux_find_fd (tbl s) = Some fd ->
     linked (tbl s) (tbl s') fd (fd_ofd fe) dflags -> table_wf (tbl s') ->
     Q (HL_STATUS_OK, Some fd) s') ->
  wp (hl_linux_fd_dup source dflags out) Q s.
Proof.
  intros Hwf Hfail Hok. unfold hl_linux_fd_dup.
  destruct out; simpl; [|apply wp_ret; by apply Hfail].
  apply wp_bind, wp_get_tbl.
  pose proof (get_unlocked_inv has_close (tbl s) source (proj1 Hwf)) as Hget.
  destruct (hl_linux_fd_get_unlocked _ _) as [st|[[fe i] e]].
  { destruct Hget as [-> _]. apply wp_ret. by apply Hfail. }
  destruct Hget as (Hfe & -> & Hrange & He & Hlive).
  destruct (hl_linux_find_fd (tbl s)) as [fd|] eqn:Hfd; [|apply wp_ret; by apply Hfail].
  destruct (find_fd_Some _ _ Hfd) as (fe' & Hfe' & Hz & _).
  eapply wp_link; eauto.
Qed.

Lemma wp_fd_dup_at_least source minimum dflags Q (s : machine W) :
  table_wf (tbl s) -> 0 <= minimum ->
  (vacant (tbl s) source -> Q (- HL_LINUX_EBADF) s) ->
  (hl_linux_find_fd_at_least (tbl s) minimum = None -> Q (- HL_LINUX_EMFILE) s) ->
  (forall fe fd s', lookupZ (fds (tbl s)) source = Some fe ->
     1 <= fd_ofd fe < ofd_capacity (tbl s) ->
     hl_linux_find_fd_at_least (tbl s) minimum = Some fd ->
     linked (tbl s) (tbl s') fd (fd_ofd fe) dflags -> table_wf (tbl s') -> Q fd s') ->
  wp (hl_linux_fd_dup_at_least source minimum dflags) Q s.
Proof.
  intros Hwf Hmin Hvac Hfull Hok. unfold hl_linux_fd_dup_at_least. apply wp_bind, wp_get_tbl.
  pose proof (get_unlocked_inv has_close (tbl s) source (proj1 Hwf)) as Hget.
  destruct (hl_linux_fd_get_unlocked _ _) as [st|[[fe i] e]].
  { destruct Hget as [-> Hv]. apply wp_ret. by apply Hvac. }
  destruct Hget as (Hfe & -> & Hrange & He & Hlive).
  destruct (hl_linux_find_fd_at_least (tbl s) minimum) as [fd|] eqn:Hfd;
    [|apply wp_ret; by apply Hfull].
  destruct (find_fd_at_least_Some _ _ _ Hmin Hfd) as (fe' & Hfe' & Hz & _).
  eapply wp_link; eauto.
Qed.
End Publish.

(** ** Replacement and close-on-exec

    [dup2] and [dup3] ([linux_abi/descriptor_control.c]), the syscall [close]
    and the exec sweep ([linux_abi/descriptor_lifecycle.c]) return from a
    well-formed table and leave a well-formed table. *)

(** What is left of a slot that lost one reference once the final close is over. *)
Definition after_drop (e : hl_linux_ofd_entry) : hl_linux_ofd_entry :=
  if references e =? 1 then released (cleared (dropped e)) else dropped e.

(** The table after descriptor [target] (before: [te], naming slot entry [e])
    came to name slot [i] (before: [se]). *)
Definition replace_result (t : hl_linux_abi) (i target dflags : Z)
    (te : hl_linux_fd_entry) (e se : hl_linux_ofd_entry) : hl_linux_abi :=
  put_fd target (mk_fd i dflags (u32 (fd_generation te + 1)))
    (if decide (i = fd_ofd te) then t
     else put_ofd i (with_references (references se + 1) se)
            (put_ofd (fd_ofd te) (after_drop e) t)).

Section Replace.
Context {W : Type}.
Variable host : hl_host_services W.
Variable vtable : Z -> hl_linux_object_ops W.
Context `{!HostReady host}.

#[local] Abbreviation has_close := (has_close vtable).
#[local] Abbreviation table_inv := (table_inv has_close).
#[local] Abbreviation table_wf := (table_wf has_close).
#[local] Abbreviation slot_live := (slot_live has_close).
#[local] Abbreviation slot_closing := (slot_closing has_close).

Lemma put_ofd_id t i e : lookupZ (ofds t) i = Some e -> put_ofd i e t = t.
Proof. intros He. unfold put_ofd, set_ofds. rewrite insertZ_id by done. by destruct t. Qed.

(** The table between the swap and the final close of the displaced slot. *)
Definition swapped (t : hl_linux_abi) (i target dflags : Z)
    (te : hl_linux_fd_entry) (e se : hl_linux_ofd_entry) : hl_linux_abi :=
  put_fd target (mk_fd i dflags (u32 (fd_generation te + 1)))
    (if decide (i = fd_ofd te) then t
     else put_ofd i (with_references (references se + 1) se)
            (put_ofd (fd_ofd te) (dropped e) t)).

Lemma swapped_inv t source sfe target te e se dflags :
  table_inv t -> source <> target ->
  lookupZ (fds t) source = Some sfe -> 1 <= fd_ofd sfe < ofd_capacity t ->
  lookupZ (ofds t) (fd_ofd sfe) = Some se ->
  lookupZ (fds t) target = Some te -> 1 <= fd_ofd te < ofd_capacity t ->
  lookupZ (ofds t) (fd_ofd te) = Some e -> slot_live e ->
  (fd_ofd sfe = fd_ofd te -> references e <> 1) /\
  table_inv (swapped t (fd_ofd sfe) target dflags te e se).
Proof.
  intros Hinv Hne Hs Hsr Hse Ht Htr He Hlive.
  pose proof (vacate_target has_close t target te e Hinv Ht Htr He Hlive) as Hv.
  pose proof (lookupZ_Some_range _ _ _ Ht) as Htl.
  pose proof (lookupZ_Some_range _ _ _ He) as Hel.
  set (tv := put_fd target (mk_fd 0 0 0) (put_ofd (fd_ofd te) (dropped e) t)) in *.
  assert (Hsv : lookupZ (fds tv) source = Some sfe).
  { simpl. by rewrite lookupZ_insertZ_ne by done. }
  assert (Htv : lookupZ (fds tv) target = Some (mk_fd 0 0 0)).
  { simpl. by rewrite lookupZ_insertZ_eq. }
  destruct (dropped_fields e) as (Hr & _).
  unfold swapped. destruct (decide (fd_ofd sfe = fd_ofd te)) as [Heq|Hneq].
  - assert (Hev : lookupZ (ofds tv) (fd_ofd sfe) = Some (dropped e)).
    { rewrite Heq. simpl. by rewrite lookupZ_insertZ_eq. }
    assert (Hlv : slot_live (dropped e)) by (eapply (named_live _ tv source sfe); eauto; lia).
    assert (Hr1 : references e <> 1) by (pose proof (live_refs _ _ Hlv); lia).
    split; [done|].
    pose proof (relink_target has_close tv target _ (fd_ofd sfe) (dropped e) dflags
      (u32 (fd_generation te + 1)) Hv Htv eq_refl) as Hre.
    assert (Hid : with_references (references (dropped e) + 1) (dropped e) = e).
    { unfold dropped. destruct (Z.eqb_spec (references e) 1); [done|].
      destruct e; unfold with_references; simpl. f_equal. lia. }
    rewrite Hid in Hre.
    assert (Heqt : put_fd target (mk_fd (fd_ofd sfe) dflags (u32 (fd_generation te + 1)))
                     (put_ofd (fd_ofd sfe) e tv)
                   = put_fd target (mk_fd (fd_ofd sfe) dflags (u32 (fd_generation te + 1))) t).
    { unfold tv, put_fd, put_ofd, set_fds, set_ofds. simpl. rewrite Heq.
      rewrite !insertZ_insertZ_eq. by rewrite (insertZ_id (ofds t)). }
    rewrite <- Heqt. apply Hre; [|done|done].
    unfold ofd_capacity in *. simpl. rewrite lengthZ_insertZ. lia.
  - split; [done|].
    assert (Hev : lookupZ (ofds tv) (fd_ofd sfe) = Some se).
    { simpl. by rewrite lookupZ_insertZ_ne by done. }
    assert (Hlv : slot_live se) by (eapply (named_live _ tv source sfe); eauto; lia).
    pose proof (relink_target has_close tv target _ (fd_ofd sfe) se dflags
      (u32 (fd_generation te + 1)) Hv Htv eq_refl) as Hre.
    assert (Heqt : put_fd target (mk_fd (fd_ofd sfe) dflags (u32 (fd_generation te + 1)))
                     (put_ofd (fd_ofd sfe) (with_references (references se + 1) se) tv)
                   = put_fd target (mk_fd (fd_ofd sfe) dflags (u32 (fd_generation te + 1)))
                       (put_ofd (fd_ofd sfe) (with_references (references se + 1) se)
                          (put_ofd (fd_ofd te) (dropped e) t))).
    { unfold tv, put_fd, put_ofd, set_fds, set_ofds. simpl. by rewrite insertZ_insertZ_eq. }
    rewrite <- Heqt. apply Hre; [|done|done].
    unfold ofd_capacity in *. simpl. rewrite lengthZ_insertZ. lia.
Qed.

(** The section of [hl_linux_fd_replace] on a target in use. *)
Lemma replace_section_used t source sfe target te e se dflags :
  table_wf t -> source <> target ->
  lookupZ (fds t) source = Some sfe -> 1 <= fd_ofd sfe < ofd_capacity t ->
  lookupZ (ofds t) (fd_ofd sfe) = Some se -> slot_live se ->
  lookupZ (fds t) target = Some te -> 1 <= fd_ofd te < ofd_capacity t ->
  lookupZ (ofds t) (fd_ofd te) = Some e -> slot_live e ->
  replace_section source target dflags t =
    Some (inr (if references e =? 1 then Some (fd_ofd te) else None,
               swapped t (fd_ofd sfe) target dflags te e se)).
Proof.
  intros [Hinv Hq] Hne Hs Hsr Hse Hsl Ht Htr He Hel.
  destruct (swapped_inv t source sfe target te e se dflags) as [Hone _]; try done.
  pose proof (references_bounds _ _ _ _ Hinv (proj1 Htr) He) as Hb.
  pose proof (references_bounds _ _ _ _ Hinv (proj1 Hsr) Hse) as Hbs.
  pose proof (live_refs _ _ Hel). pose proof (live_refs _ _ Hsl).
  pose proof (inv_ofd_cap _ _ Hinv).
  pose proof (lookupZ_Some_range _ _ _ He) as Her.
  pose proof (lookupZ_Some_range _ _ _ Hse) as Hser.
  assert (Hnr : fd_ofd sfe <> HL_LINUX_FD_RESERVED).
  { unfold ofd_capacity, HL_LINUX_FD_RESERVED, UINT32_MAX, HL_LINUX_OFD_LIMIT in *. lia. }
  unfold replace_section, hl_linux_fd_get_unlocked. rewrite Hs.
  destruct (Z.eqb_spec (fd_ofd sfe) 0); [lia|].
  destruct (Z.eqb_spec (fd_ofd sfe) HL_LINUX_FD_RESERVED); [done|]. simpl. rewrite Hse.
  destruct (Z.eqb_spec (references se) 0); [done|]. rewrite Ht.
  destruct (Z.eqb_spec source target); [done|].
  destruct (Z.eqb_spec (fd_ofd te) 0); [lia|]. simpl. rewrite He.
  destruct (Z.eqb_spec (references e) 0); [done|].
  change (references (with_references ?r e)) with r.
  assert (Hd : (if u32 (references e - 1) =? 0
                then with_closing 1 (with_references (u32 (references e - 1)) e)
                else with_references (u32 (references e - 1)) e) = dropped e)
    by (rewrite <- drop_code by lia; done).
  rewrite Hd. unfold link_fd, bind_fd, update_entry. simpl. rewrite Ht. simpl.
  unfold swapped. destruct (dropped_fields e) as (Hr & _).
  destruct (decide (fd_ofd sfe = fd_ofd te)) as [Heq|Hneq].
  - rewrite Heq. rewrite lookupZ_insertZ_eq by done. simpl.
    rewrite lookupZ_insertZ_eq by (rewrite lengthZ_insertZ; done).
    rewrite Hr. rewrite u32_small by (unfold HL_LINUX_FD_LIMIT in *; lia).
    specialize (Hone Heq). destruct (Z.eqb_spec (references e) 1); [done|].
    simpl. destruct (Z.eqb_spec (references e - 1 + 1) 0); [lia|]. simpl. do 3 f_equal.
    assert (Hid : with_references (references e - 1 + 1) (dropped e) = e).
    { unfold dropped. destruct (Z.eqb_spec (references e) 1); [done|].
      destruct e; unfold with_references; simpl. f_equal. lia. }
    rewrite Hid. unfold put_fd, put_ofd, set_fds, set_ofds. simpl.
    rewrite !insertZ_insertZ_eq. by rewrite (insertZ_id (ofds t)).
  - rewrite lookupZ_insertZ_ne by done. rewrite Hse. simpl.
    rewrite lookupZ_insertZ_ne by done. rewrite lookupZ_insertZ_eq by done.
    rewrite Hr. rewrite u32_small by (unfold HL_LINUX_FD_LIMIT in *; lia).
    destruct (Z.eqb_spec (references e) 1) as [Hr1|Hr1].
    + rewrite Hr1. simpl. done.
    + destruct (Z.eqb_spec (references e - 1) 0); [lia|]. done.
Qed.

Lemma replace_section_unused t source sfe target te se dflags :
  table_wf t -> source <> target ->
  lookupZ (fds t) source = Some sfe -> 1 <= fd_ofd sfe < ofd_capacity t ->
  lookupZ (ofds t) (fd_ofd sfe) = Some se -> slot_live se ->
  lookupZ (fds t) target = Some te -> fd_ofd te = 0 ->
  exists t', replace_section source target dflags t = Some (inr (None, t')) /\
    linked t t' target (fd_ofd sfe) dflags /\ table_wf t'.
Proof.
  intros [Hinv Hq] Hne Hs Hsr Hse Hsl Ht H0.
  destruct (link_fd_spec has_close t target te (fd_ofd sfe) se dflags) as [Hl Hinv']; try done.
  pose proof (live_refs _ _ Hsl). pose proof (inv_ofd_cap _ _ Hinv).
  assert (Hnr : fd_ofd sfe <> HL_LINUX_FD_RESERVED).
  { unfold ofd_capacity, HL_LINUX_FD_RESERVED, UINT32_MAX, HL_LINUX_OFD_LIMIT in *. lia. }
  eexists. split.
  { unfold replace_section, hl_linux_fd_get_unlocked. rewrite Hs.
    destruct (Z.eqb_spec (fd_ofd sfe) 0); [lia|].
    destruct (Z.eqb_spec (fd_ofd sfe) HL_LINUX_FD_RESERVED); [done|]. simpl. rewrite Hse.
    destruct (Z.eqb_spec (references se) 0); [done|]. rewrite Ht.
    destruct (Z.eqb_spec source target); [done|]. rewrite H0. simpl. rewrite Hl. done. }
  split; [exists se, te; split_and!; done || lia|]. split; [done|].
  eapply quiescent_fds; [|eapply quiescent_put_ofd; [exact Hq| |]]; [done| |].
  - exact (quiescent_active _ _ _ Hq (proj1 Hsr) Hse).
  - by destruct Hsl.
Qed.

Lemma after_drop_fields e :
  slot_live e -> active_operations e = 0 ->
  active_operations (after_drop e) = 0 /\ closing (after_drop e) = 0.
Proof.
  intros [] Ha. unfold after_drop, dropped. by destruct (references e =? 1).
Qed.

Lemma replace_result_quiescent t i target dflags te e se :
  quiescent t -> 1 <= fd_ofd te -> lookupZ (ofds t) (fd_ofd te) = Some e -> slot_live e ->
  1 <= i -> lookupZ (ofds t) i = Some se -> slot_live se ->
  quiescent (replace_result t i target dflags te e se).
Proof.
  intros Hq Hj He Hl Hi Hse Hsl. unfold replace_result.
  destruct (after_drop_fields e Hl (quiescent_active _ _ _ Hq Hj He)) as [Ha Hc].
  eapply quiescent_fds; [done|]. destruct (decide _); [done|].
  apply quiescent_put_ofd; [by apply quiescent_put_ofd| |by destruct Hsl].
  exact (quiescent_active _ _ _ Hq Hi Hse).
Qed.

(** Why a replacement is refused. *)
Definition replace_refused (t : hl_linux_abi) (source target : Z) (reject : bool) : Prop :=
  source = target /\ reject = true \/ vacant t source \/ lookupZ (fds t) target = None \/
  (exists te, lookupZ (fds t) target = Some te /\ fd_ofd te = HL_LINUX_FD_RESERVED).

(** [dup2] and [dup3]: an error leaves the table alone; replacing a
    descriptor by itself is the identity; otherwise the target names the
    source's slot and the displaced slot lost one reference. *)
Lemma wp_fd_replace fuel source target dflags reject Q (s : machine W) :
  table_wf (tbl s) ->
  (forall r, replace_refused (tbl s) source target reject -> -4096 < r < 0 -> Q r s) ->
  (source = target -> reject = false -> Q target s) ->
  (forall sfe s', source <> target -> lookupZ (fds (tbl s)) source = Some sfe ->
     1 <= fd_ofd sfe < ofd_capacity (tbl s) ->
     linked (tbl s) (tbl s') target (fd_ofd sfe) dflags -> table_wf (tbl s') -> Q target s') ->
  (forall sfe se te e s', source <> target -> lookupZ (fds (tbl s)) source = Some sfe ->
     1 <= fd_ofd sfe < ofd_capacity (tbl s) ->
     lookupZ (ofds (tbl s)) (fd_ofd sfe) = Some se -> slot_live se ->
     lookupZ (fds (tbl s)) target = Some te ->
     1 <= fd_ofd te < ofd_capacity (tbl s) ->
     lookupZ (ofds (tbl s)) (fd_ofd te) = Some e -> slot_live e ->
     (fd_ofd sfe = fd_ofd te -> references e <> 1) ->
     tbl s' = replace_result (tbl s) (fd_ofd sfe) target dflags te e se ->
     table_wf (tbl s') -> Q target s') ->
  wp (hl_linux_fd_replace host vtable fuel source target dflags reject) Q s.
Proof.
  intros Hwf Hfail Hsame Hlink Hrepl. pose proof Hwf as [Hinv Hq]. unfold hl_linux_fd_replace.
  destruct (_ && _) eqn:Hrej.
  { bool_props. apply wp_ret, Hfail; [by left|done]. }
  apply wp_bind, wp_get_tbl.
  pose proof (get_unlocked_inv has_close (tbl s) source Hinv) as Hget.
  destruct (hl_linux_fd_get_unlocked (tbl s) source) as [st|[[sfe i] se]] eqn:Hg.
  { unfold replace_section. rewrite Hg. apply wp_ret, Hfail; [right; left; exact (proj2 Hget)|done]. }
  destruct Hget as (Hs & -> & Hsr & Hse & Hsl).
  destruct (lookupZ (fds (tbl s)) target) as [te|] eqn:Ht;
    [|unfold replace_section; rewrite Hg, Ht; apply wp_ret, Hfail; [by do 2 right; left|done]].
  destruct (decide (source = target)) as [->|Hne].
  { unfold replace_section. rewrite Hg, Ht, Z.eqb_refl. rewrite Z.eqb_refl in Hrej.
    apply wp_ret. by apply Hsame. }
  destruct (inv_fds _ _ Hinv _ _ Ht) as [H0|[Hres|Htr]].
  - destruct (replace_section_unused (tbl s) source sfe target te se dflags)
      as (t' & -> & Hl & Hwf'); try done.
    apply wp_bind, wp_put_tbl, wp_ret. by eapply Hlink.
  - unfold replace_section. rewrite Hg, Ht.
    destruct (Z.eqb_spec source target); [done|]. rewrite Hres. simpl.
    assert (lookupZ (ofds (tbl s)) HL_LINUX_FD_RESERVED = None) as ->.
    { destruct (lookupZ (ofds (tbl s)) HL_LINUX_FD_RESERVED) eqn:Hx; [|done].
      apply lookupZ_Some_range in Hx. pose proof (inv_ofd_cap _ _ Hinv) as Hcap.
      exfalso. unfold ofd_capacity in Hcap. clear - Hx Hcap.
      unfold HL_LINUX_FD_RESERVED, UINT32_MAX, HL_LINUX_OFD_LIMIT in *. lia. }
    apply wp_ret, Hfail; [|done]. do 3 right. by exists te.
  - destruct (lookupZ_is_Some (ofds (tbl s)) (fd_ofd te)) as [e He]; [unfold ofd_capacity in *; lia|].
    assert (Hel : slot_live e) by exact (named_live _ _ _ _ _ Hinv Ht (proj1 Htr) He).
    rewrite (replace_section_used _ _ _ _ _ _ _ _ Hwf Hne Hs Hsr Hse Hsl Ht Htr He Hel).
    destruct (swapped_inv (tbl s) source sfe target te e se dflags) as [Hone Hinv2]; try done.
    pose proof (replace_result_quiescent (tbl s) (fd_ofd sfe) target dflags te e se Hq
      (proj1 Htr) He Hel (proj1 Hsr) Hse Hsl) as Hq3.
    apply wp_bind, wp_put_tbl. destruct (Z.eqb_spec (references e) 1) as [Hr1|Hr1].
    + assert (Hneq : fd_ofd sfe <> fd_ofd te) by (intros Hx; by apply Hone).
      assert (Hrep : put_ofd (fd_ofd te) (released (cleared (dropped e)))
                 (swapped (tbl s) (fd_ofd sfe) target dflags te e se)
               = replace_result (tbl s) (fd_ofd sfe) target dflags te e se).
      { unfold swapped, replace_result, after_drop. rewrite Hr1. simpl.
        destruct (decide _); [done|]. unfold put_fd, put_ofd, set_fds, set_ofds. simpl.
        rewrite (insertZ_comm _ (fd_ofd sfe) (fd_ofd te)) by done.
        by rewrite insertZ_insertZ_eq. }
      apply wp_bind.
      apply (wp_finalize host vtable fuel (fd_ofd te) (dropped e)); [done|lia| | | |].
      * cbn [tbl set_tbl]. unfold swapped. destruct (decide _); [done|]. simpl.
        rewrite lookupZ_insertZ_ne by done. apply lookupZ_insertZ_eq.
        by eapply lookupZ_Some_range.
      * by apply dropped_final.
      * destruct (dropped_fields e) as (_ & -> & _).
        exact (quiescent_active _ _ _ Hq (proj1 Htr) He).
      * intros status s' Ht' Hinv3 _. cbn [tbl set_tbl] in Ht'. rewrite Hrep in Ht'.
        rewrite Ht' in Hinv3.
        assert (Hdone : forall s2 : machine W, tbl s2 = tbl s' -> Q target s2).
        { intros s2 H2. eapply Hrepl; try done; [by rewrite H2, Ht'|].
          rewrite H2, Ht'. by split. }
        destruct (hl_linux_files host) as [f|]; [|apply wp_ret; by apply Hdone].
        destruct (f_close f) as [close|]; [|apply wp_ret; by apply Hdone].
        apply wp_bind, wp_call. intros b w _. apply wp_ret. by apply Hdone.
    + apply wp_ret.
      assert (Hrep : swapped (tbl s) (fd_ofd sfe) target dflags te e se
               = replace_result (tbl s) (fd_ofd sfe) target dflags te e se).
      { unfold swapped, replace_result, after_drop.
        by destruct (Z.eqb_spec (references e) 1). }
      eapply Hrepl; try done; cbn [tbl set_tbl]; rewrite ?Hrep; try done.
      split; [by rewrite <- Hrep|done].
Qed.
End Replace.

(** ** The syscall [close] and the exec sweep

    [hl_linux_close], [hl_linux_fd_exec] and [hl_linux_fd_exec_all]: the sweep
    terminates within one iteration per descriptor and removes exactly the
    close-on-exec descriptors. *)

(** [t'] is [t] after the close of descriptor [fd], which was in use. *)
Definition closed (has_close : Z -> bool) (t t' : hl_linux_abi) (fd : Z) : Prop :=
  exists fe e,
    lookupZ (fds t) fd = Some fe /\ 1 <= fd_ofd fe < ofd_capacity t /\
    lookupZ (ofds t) (fd_ofd fe) = Some e /\ slot_live has_close e /\
    t' = close_result t fd fe e.

Section Sweep.
Context {W : Type}.
Variable host : hl_host_services W.
Variable vtable : Z -> hl_linux_object_ops W.
Context `{!HostReady host}.

#[local] Abbreviation has_close := (has_close vtable).
#[local] Abbreviation table_inv := (table_inv has_close).
#[local] Abbreviation table_wf := (table_wf has_close).

Definition in_use (t : hl_linux_abi) (fd : Z) : bool :=
  match lookupZ (fds t) fd with
  | Some fe => negb ((fd_ofd fe =? 0) || (fd_ofd fe =? HL_LINUX_FD_RESERVED))
  | None => false
  end.

Lemma in_use_false t fd :
  (forall fe, lookupZ (fds t) fd = Some fe -> fd_ofd fe = 0 \/ fd_ofd fe = HL_LINUX_FD_RESERVED) ->
  in_use t fd = false.
Proof.
  intros Hv. unfold in_use. destruct (lookupZ (fds t) fd) as [fe|]; [|done].
  destruct (Hv fe eq_refl) as [->| ->]; [done|]. by rewrite orb_true_r.
Qed.

Lemma closed_in_use t t' fd : table_inv t -> closed has_close t t' fd -> in_use t fd = true.
Proof.
  intros Hinv (fe & e & Hfe & Hr & _). unfold in_use. rewrite Hfe.
  pose proof (inv_ofd_cap _ _ Hinv) as Hcap.
  destruct (Z.eqb_spec (fd_ofd fe) 0); [lia|].
  destruct (Z.eqb_spec (fd_ofd fe) HL_LINUX_FD_RESERVED) as [Hx|]; [|done].
  exfalso. clear - Hx Hr Hcap. unfold HL_LINUX_FD_RESERVED, UINT32_MAX, HL_LINUX_OFD_LIMIT in *. lia.
Qed.

(** A call after which nothing but the world has changed. *)
Lemma wp_optional_call {A} (f : option (Z -> W -> hl_host_result * W)) h
    (k : option hl_host_result -> A) (Q : A -> machine W -> Prop) s :
  (forall r w, Q (k r) (set_world w s)) -> (forall r, Q (k r) s) ->
  wp (match f with
      | Some _ => let! r := call1 f h in ret (k (Some r))
      | None => ret (k None)
      end) Q s.
Proof.
  intros Hw Hs. destruct f as [g|]; [|by apply wp_ret].
  apply wp_bind, wp_call. intros r w _. by apply wp_ret.
Qed.

Lemma wp_close fuel fd Q (s : machine W) :
  table_wf (tbl s) ->
  (in_use (tbl s) fd = false -> Q (- HL_LINUX_EBADF) s) ->
  (forall r s', closed has_close (tbl s) (tbl s') fd -> table_wf (tbl s') -> Q r s') ->
  wp (hl_linux_close host vtable fuel fd) Q s.
Proof.
  intros Hwf Hvac Huse. unfold hl_linux_close. apply wp_bind, (wp_fd_close host vtable); [done| |].
  { intros Hv. apply wp_ret. apply Hvac. by apply in_use_false. }
  intros fe e status s' Hfe Hr He Hl Ht Hwf'.
  assert (HQ : forall r s2, tbl s2 = tbl s' -> Q r s2).
  { intros r s2 H2. apply Huse; rewrite H2; [|done]. by exists fe, e. }
  cbn beta iota. destruct (negb (is_ok status)); [apply wp_ret; by apply HQ|].
  destruct (_ =? HL_HOST_HANDLE_INVALID); [apply wp_ret; by apply HQ|].
  destruct (hl_linux_files host) as [f|]; [|apply wp_ret; by apply HQ].
  destruct (f_close f) as [close|]; [|apply wp_ret; by apply HQ].
  apply wp_bind, wp_call. intros r w _. apply wp_ret. by apply HQ.
Qed.

(** [hl_linux_fd_exec] on a candidate of the sweep: the descriptor is closed
    and reported as removed. *)
Lemma wp_fd_exec fuel fd Q (s : machine W) :
  table_wf (tbl s) ->
  (forall status s', (forall fe, lookupZ (fds (tbl s)) fd = Some fe -> cloexec_candidate fe = false) ->
     tbl s' = tbl s -> Q (status, Some 0) s') ->
  (forall fe status s', lookupZ (fds (tbl s)) fd = Some fe -> cloexec_candidate fe = true ->
     closed has_close (tbl s) (tbl s') fd -> table_wf (tbl s') -> Q (status, Some 1) s') ->
  wp (hl_linux_fd_exec host vtable fuel fd (Some 0)) Q s.
Proof.
  intros Hwf Hnone Hcl. unfold hl_linux_fd_exec. simpl.
  apply wp_bind, wp_get_tbl. rewrite (inv_version _ _ (proj1 Hwf)). simpl.
  destruct (lookupZ (fds (tbl s)) fd) as [fe|] eqn:Hfe; [|apply wp_ret; by apply Hnone].
  destruct (_ || _) eqn:Hvac.
  { apply wp_ret. apply Hnone; [|done]. intros fe' [= <-]. unfold cloexec_candidate.
    apply orb_true_iff in Hvac as [-> | ->]; [done|]. by rewrite andb_false_r. }
  destruct (negb (has_flag _ _)) eqn:Hflag.
  { apply wp_ret. apply Hnone; [|done]. intros fe' [= <-]. unfold cloexec_candidate.
    bool_props. by rewrite Hflag, andb_false_r. }
  apply orb_false_elim in Hvac as [Hv1 Hv2]. apply negb_false_iff in Hflag.
  assert (Hcand : cloexec_candidate fe = true) by (unfold cloexec_candidate; by rewrite Hv1, Hv2, Hflag).
  apply wp_bind, (wp_fd_close host vtable); [done| |].
  { intros Hv. destruct (Hv fe Hfe) as [Hx|Hx]; rewrite Hx in *; done. }
  intros fe' e status s' Hfe' Hr He Hl Ht Hwf'. simplify_eq/=.
  assert (HQ : forall r s2, tbl s2 = tbl s' -> Q (r, Some 1) s2).
  { intros r s2 H2. eapply Hcl; try done; rewrite H2; [|done]. by eexists _, _. }
  destruct (negb (is_ok status)); [apply wp_ret; by apply HQ|].
  destruct (_ =? HL_HOST_HANDLE_INVALID); [apply wp_ret; by apply HQ|].
  destruct (hl_linux_files host) as [f|]; [|apply wp_ret; by apply HQ].
  destruct (f_close f) as [close|]; [|apply wp_ret; by apply HQ].
  apply wp_bind, wp_call. intros r w _. apply wp_ret. by apply HQ.
Qed.

(** ** What a close does to the other entries *)

Lemma closed_fds t t' fd :
  closed has_close t t' fd ->
  fd_capacity t' = fd_capacity t /\
  (exists fe, lookupZ (fds t') fd = Some fe /\ fd_ofd fe = 0) /\
  (forall k, k <> fd -> lookupZ (fds t') k = lookupZ (fds t) k).
Proof.
  intros (fe & e & Hfe & _ & _ & _ & ->). pose proof (lookupZ_Some_range _ _ _ Hfe).
  unfold close_result, fd_capacity. simpl. split_and!.
  - by rewrite lengthZ_insertZ.
  - eexists. split; [by apply lookupZ_insertZ_eq|done].
  - intros k Hk. by apply lookupZ_insertZ_ne.
Qed.

(** The slots still referenced after the sweep are those of before, unchanged
    but for the count. *)
Definition slots_kept (t t' : hl_linux_abi) : Prop :=
  forall i e', lookupZ (ofds t') i = Some e' -> references e' <> 0 ->
    exists e, lookupZ (ofds t) i = Some e /\ references e <> 0 /\
      e' = with_references (references e') e.

Lemma slots_kept_refl t : slots_kept t t.
Proof. intros i e He Hr. exists e. split_and!; try done. by destruct e. Qed.

Lemma slots_kept_trans t1 t2 t3 : slots_kept t1 t2 -> slots_kept t2 t3 -> slots_kept t1 t3.
Proof.
  intros H12 H23 i e3 H3 Hr3. destruct (H23 _ _ H3 Hr3) as (e2 & H2 & Hr2 & E3).
  destruct (H12 _ _ H2 Hr2) as (e1 & H1 & Hr1 & E2). exists e1. split_and!; try done.
  rewrite E3, E2. done.
Qed.

Lemma closed_slots_kept t t' fd : closed has_close t t' fd -> slots_kept t t'.
Proof.
  intros (fe & e & _ & _ & He & Hlive & ->) i e' He' Hr'.
  pose proof (lookupZ_Some_range _ _ _ He) as Hran.
  unfold close_result in He'. simpl in He'. rewrite lookupZ_insertZ in He' by done.
  destruct (decide (fd_ofd fe = i)) as [<-|].
  - exists e. split; [done|]. split; [by destruct Hlive|].
    injection He' as <-. unfold dropped in *.
    destruct (Z.eqb_spec (references e) 1) as [H1|]; [|by destruct e].
    simpl in Hr'. lia.
  - exists e'. split_and!; try done. by destruct e'.
Qed.

(** ** The sweep *)

(** The descriptors below [cursor] have been swept, the others not. *)
Record swept (cursor : Z) (t t' : hl_linux_abi) : Prop := {
  swept_wf : table_wf t';
  swept_cap : fd_capacity t' = fd_capacity t;
  swept_done : forall k fe, k < cursor -> lookupZ (fds t) k = Some fe ->
    cloexec_candidate fe = true -> exists fe', lookupZ (fds t') k = Some fe' /\ fd_ofd fe' = 0;
  swept_other : forall k fe, lookupZ (fds t) k = Some fe ->
    cursor <= k \/ cloexec_candidate fe = false -> lookupZ (fds t') k = Some fe;
  swept_slots : slots_kept t t'
}.

Lemma swept_skip cursor cursor' t t' :
  swept cursor t t' -> cursor <= cursor' ->
  (forall k fe, cursor <= k < cursor' -> lookupZ (fds t') k = Some fe -> cloexec_candidate fe = false) ->
  swept cursor' t t'.
Proof.
  intros [] Hle Hskip. constructor; try done.
  - intros k fe Hk Hfe Hc. destruct (decide (k < cursor)); [eauto|].
    exfalso. assert (Hx : lookupZ (fds t') k = Some fe) by (apply swept_other0; [done|left; lia]).
    rewrite (Hskip k fe) in Hc; [done|lia|done].
  - intros k fe Hfe [Hk|Hk]; apply swept_other0; auto. left. lia.
Qed.

Lemma swept_close cursor t t' t2 :
  swept cursor t t' -> closed has_close t' t2 cursor -> table_wf t2 ->
  (forall fe, lookupZ (fds t') cursor = Some fe -> cloexec_candidate fe = true) ->
  swept (cursor + 1) t t2.
Proof.
  intros [] Hcl Hwf Hcand. destruct (closed_fds _ _ _ Hcl) as (Hcap & Hat & Hoth).
  constructor; try done.
  - congruence.
  - intros k fe Hk Hfe Hc. destruct (decide (k = cursor)) as [->|]; [done|].
    rewrite Hoth by done. eapply swept_done0; eauto. lia.
  - intros k fe Hfe Hk. destruct (decide (k = cursor)) as [->|].
    + exfalso. pose proof (swept_other0 cursor fe Hfe (or_introl (Z.le_refl _))) as Hx.
      rewrite (Hcand _ Hx) in Hk. destruct Hk as [Hk|Hk]; [lia|done].
    + rewrite Hoth by done. apply swept_other0; [done|]. destruct Hk; [left; lia|by right].
  - eapply slots_kept_trans; [done|]. by eapply closed_slots_kept.
Qed.

(** The scan for the next candidate. *)
Lemma candidate_Some t cursor k :
  0 <= cursor -> scan_from cloexec_candidate (drop (Z.to_nat cursor) (fds t)) cursor = Some k ->
  cursor <= k < fd_capacity t /\
  (exists fe, lookupZ (fds t) k = Some fe /\ cloexec_candidate fe = true) /\
  (forall j fe, cursor <= j < k -> lookupZ (fds t) j = Some fe -> cloexec_candidate fe = false).
Proof.
  intros Hc Hs. apply scan_from_Some in Hs as (Hle & (fe & Hfe & Hp) & Hmin).
  rewrite lookupZ_drop in Hfe by lia.
  replace (Z.of_nat (Z.to_nat cursor) + (k - cursor)) with k in Hfe by lia.
  pose proof (lookupZ_Some_range _ _ _ Hfe). unfold fd_capacity.
  split_and!; [done|lia|by exists fe|].
  intros j x Hj Hx. apply (Hmin j); [done|]. rewrite lookupZ_drop by lia.
  by replace (Z.of_nat (Z.to_nat cursor) + (j - cursor)) with j by lia.
Qed.

Lemma candidate_None t cursor :
  0 <= cursor -> scan_from cloexec_candidate (drop (Z.to_nat cursor) (fds t)) cursor = None ->
  forall j fe, cursor <= j -> lookupZ (fds t) j = Some fe -> cloexec_candidate fe = false.
Proof.
  intros Hc Hs j x Hj Hx. eapply (scan_from_None _ _ _ Hs (j - cursor)).
  rewrite lookupZ_drop by lia.
  by replace (Z.of_nat (Z.to_nat cursor) + (j - cursor)) with j by lia.
Qed.

(** The loop, by induction on the descriptors left. *)
Lemma wp_exec_all_loop fuel callback t0 Q steps : forall cursor first count (s : machine W),
  (Z.to_nat (fd_capacity t0 - cursor) <= steps)%nat -> 0 <= cursor <= fd_capacity t0 ->
  swept cursor t0 (tbl s) ->
  (forall status n s', swept (fd_capacity t0) t0 (tbl s') -> Q (status, n) s') ->
  wp (exec_all_loop host vtable steps fuel callback cursor first count) Q s.
Proof.
  induction steps as [|steps IH]; intros cursor first count s Hsteps Hc Hsw HQ; simpl;
    apply wp_bind, wp_get_tbl; rewrite (swept_cap _ _ _ Hsw);
    destruct (Z.leb_spec (fd_capacity t0) cursor) as [Hge|Hlt]; try lia.
  1, 2: apply wp_ret, HQ; eapply swept_skip; [exact Hsw|lia|intros; lia].
  destruct (scan_from _ _ _) as [k|] eqn:Hscan.
  - destruct (candidate_Some _ _ _ (proj1 Hc) Hscan) as (Hk & (fe & Hfe & Hcand) & Hmin).
    rewrite (swept_cap _ _ _ Hsw) in Hk.
    assert (Hswk : swept k t0 (tbl s)) by (eapply swept_skip; [exact Hsw|lia|done]).
    apply wp_bind, wp_fd_exec; [apply Hsw| |].
    { intros status s' Hn. by rewrite (Hn fe Hfe) in Hcand. }
    intros fe' status s' Hfe' _ Hcl Hwf'. simpl.
    assert (Hsw' : swept (k + 1) t0 (tbl s')).
    { eapply swept_close; try done. intros x Hx. by simplify_eq. }
    apply wp_bind. destruct callback as [notify|].
    + apply wp_call. intros u w _. apply IH; [lia|lia|done|done].
    + apply wp_ret. apply IH; [lia|lia|done|done].
  - apply wp_ret, HQ. eapply swept_skip; [exact Hsw|lia|].
    intros k fe Hk. eapply candidate_None; [|exact Hscan|]; lia.
Qed.

Lemma swept_start t : table_wf t -> swept 0 t t.
Proof.
  intros Hwf. constructor; try done; [|apply slots_kept_refl].
  intros k fe Hk Hfe. apply lookupZ_Some_range in Hfe. lia.
Qed.

Lemma wp_fd_exec_all steps fuel callback out Q (s : machine W) :
  table_wf (tbl s) -> (Z.to_nat (fd_capacity (tbl s)) <= steps)%nat ->
  (out = None -> Q (HL_STATUS_INVALID_ARGUMENT, None) s) ->
  (forall status n s', swept (fd_capacity (tbl s)) (tbl s) (tbl s') -> Q (status, Some n) s') ->
  wp (hl_linux_fd_exec_all host vtable steps fuel callback out) Q s.
Proof.
  intros Hwf Hsteps Hnull HQ. unfold hl_linux_fd_exec_all.
  destruct out; simpl; [|apply wp_ret; by apply Hnull].
  apply wp_bind, wp_get_tbl. rewrite (inv_version _ _ (proj1 Hwf)). simpl.
  pose proof (inv_fd_cap _ _ (proj1 Hwf)).
  apply wp_bind, (wp_exec_all_loop _ _ (tbl s)); [lia|lia|by apply swept_start|].
  intros status n s' Hsw. apply wp_ret. by apply HQ.
Qed.

(** ** Destruction *)

Lemma wp_destroy Q (s : machine W) :
  table_wf (tbl s) ->
  ((exists fd fe, lookupZ (fds (tbl s)) fd = Some fe /\ fd_ofd fe <> 0) -> Q HL_STATUS_BUSY s) ->
  (forall s', (forall fd fe, lookupZ (fds (tbl s)) fd = Some fe -> fd_ofd fe = 0) ->
     tbl s' = set_version 0 (tbl s) ->
     destroyed_count s' = u64 (destroyed_count s + 1) -> Q HL_STATUS_OK s') ->
  wp hl_linux_abi_destroy Q s.
Proof.
  intros [Hinv Hq] Hbusy Hok. unfold hl_linux_abi_destroy.
  apply wp_bind, wp_get_tbl. rewrite (inv_version _ _ Hinv). simpl.
  destruct (scan_from fd_is_reserved _ _) as [k|] eqn:Hs1.
  { apply wp_ret, Hbusy. apply scan_from_Some in Hs1 as (_ & (fe & Hfe & Hp) & _).
    exists (k - 0), fe. split; [done|]. unfold fd_is_reserved in Hp. bool_props. by rewrite Hp. }
  destruct (scan_from ofd_busy _ _) as [k|] eqn:Hs2.
  { apply wp_ret, Hbusy. apply scan_from_Some in Hs2 as (Hk & (e & He & Hp) & _).
    rewrite lookupZ_drop in He by lia. replace (Z.of_nat 1 + (k - 1)) with k in He by lia.
    destruct (Hq _ _ Hk He) as [Ha Hc]. unfold ofd_busy in Hp. rewrite Ha, Hc in Hp.
    simpl in Hp. rewrite !orb_false_r in Hp. bool_props.
    pose proof (inv_slot _ _ _ _ Hinv Hk He) as [Hcount _ _].
    destruct (decide (count_descriptors k (fds (tbl s)) = 0)) as [|Hn]; [lia|].
    destruct (countZ_exists (fun fe => fd_ofd fe =? k) (fds (tbl s)) Hn) as (fd & fe & Hfe & Hx).
    exists fd, fe. split; [done|]. bool_props. lia. }
  wp_steps. apply Hok; [|done|done]. intros fd fe Hfe.
  destruct (inv_fds _ _ Hinv _ _ Hfe) as [?|[Hr|Hr]]; [done| |].
  - pose proof (scan_from_None _ _ _ Hs1 _ _ Hfe) as Hn. unfold fd_is_reserved in Hn.
    bool_props. done.
  - destruct (lookupZ_is_Some (ofds (tbl s)) (fd_ofd fe)) as [e He]; [unfold ofd_capacity in *; lia|].
    pose proof (live_refs _ _ (named_live _ _ _ _ _ Hinv Hfe (proj1 Hr) He)) as Hne.
    pose proof (scan_from_None _ _ _ Hs2 (fd_ofd fe - 1) e) as Hn.
    rewrite lookupZ_drop in Hn by lia.
    replace (Z.of_nat 1 + (fd_ofd fe - 1)) with (fd_ofd fe) in Hn by lia.
    specialize (Hn He). unfold ofd_busy in Hn. bool_props. done.
Qed.
End Sweep.
