(* ===== verification/FdTransfer.v ===== *)
(** * I/O on descriptors

    Every I/O entry point of FdIO.v and [fcntl] returns from a well-formed
    table; the only thing it changes in the table is the offset and the status
    flags of the one slot the descriptor names.  For the transfers the
    postcondition also says how far the offset moved. *)

From S2P Require Import Prelude Status Host FdTable Machine FdOps FdControl FdIO FdInvariant.
From S2P Require Import FdSections FdHandlers.

(** An entry with another offset and other status flags. *)
Definition touched (o f : Z) (e : hl_linux_ofd_entry) : hl_linux_ofd_entry :=
  with_status_flags f (with_offset o e).

Section Transfer.
Context {W : Type}.
Variable host : hl_host_services W.
Variable vtable : Z -> hl_linux_object_ops W.
Context `{!HostReady host}.

#[local] Abbreviation has_close := (has_close vtable).
#[local] Abbreviation table_inv := (table_inv has_close).
#[local] Abbreviation table_wf := (table_wf has_close).
#[local] Abbreviation slot_live := (slot_live has_close).

Lemma touched_id e : touched (ofd_offset e) (status_flags e) e = e.
Proof. by destruct e. Qed.
Lemma touched_begin_id e : touched (ofd_offset e) (status_flags e) (begin_entry e) = begin_entry e.
Proof. by destruct e. Qed.
Lemma touched_touched o f o' f' e : touched o f (touched o' f' e) = touched o f e.
Proof. done. Qed.
Lemma with_offset_touched o e : with_offset o e = touched o (status_flags e) e.
Proof. by destruct e. Qed.
Lemma with_status_flags_touched f e : with_status_flags f e = touched (ofd_offset e) f e.
Proof. by destruct e. Qed.

Lemma end_touched_begin o f e :
  0 <= active_operations e < 2 ^ 32 -> end_entry (touched o f (begin_entry e)) = touched o f e.
Proof.
  intros Ha. unfold end_entry, begin_entry, touched. destruct e. simpl in *.
  by rewrite u32_incr_decr.
Qed.

Lemma put_ofd_put_ofd i e e' t : put_ofd i e' (put_ofd i e t) = put_ofd i e' t.
Proof. unfold put_ofd, set_ofds. simpl. by rewrite insertZ_insertZ_eq. Qed.

Lemma lookup_put_ofd i e e' t :
  lookupZ (ofds t) i = Some e -> lookupZ (ofds (put_ofd i e' t)) i = Some e'.
Proof. intros He. simpl. apply lookupZ_insertZ_eq. by eapply lookupZ_Some_range. Qed.

(** Touching a live slot keeps the table well formed. *)
Lemma touched_wf t i e o f :
  table_wf t -> 1 <= i -> lookupZ (ofds t) i = Some e -> slot_live e ->
  table_wf (put_ofd i (touched o f e) t).
Proof.
  intros [Hinv Hq] Hi He []. split.
  - eapply table_inv_put_ofd; try done.
    + by destruct (inv_slot _ _ _ _ Hinv Hi He).
    + left. by constructor.
  - apply quiescent_put_ofd; [done| |done]. exact (quiescent_active _ _ _ Hq Hi He).
Qed.

(** ** The operation bracket *)

(** [body] run inside the bracket: it sees the pinned entry, may touch it,
    and returns a result related to the new offset and flags by [P]. *)
Definition body_spec {A} (t : hl_linux_abi) (i : Z) (e : hl_linux_ofd_entry) (body : M W A)
    (P : A -> Z -> Z -> Prop) : Prop :=
  forall s, tbl s = put_ofd i (begin_entry e) t ->
    wp body (fun r s' => exists o f,
      tbl s' = put_ofd i (touched o f (begin_entry e)) t /\ P r o f) s.

Lemma wp_with_operation {A} i e (body : M W A) P Q (s : machine W) :
  lookupZ (ofds (tbl s)) i = Some e -> 0 <= active_operations e < 2 ^ 32 ->
  body_spec (tbl s) i e body P ->
  (forall r o f s', P r o f -> tbl s' = put_ofd i (touched o f e) (tbl s) -> Q r s') ->
  wp (with_operation host i body) Q s.
Proof.
  intros He Ha Hbody HQ. unfold with_operation.
  apply wp_bind, (wp_update_ofd _ _ e); [done|].
  apply wp_bind, (wp_ofd_lock host _ (begin_entry e)).
  { cbn [tbl set_tbl]. by eapply lookup_put_ofd. }
  intros w. apply wp_bind. eapply wp_mono; [by apply Hbody|].
  intros r s' (o & f & Ht & HP). cbn beta.
  assert (He' : lookupZ (ofds (tbl s')) i = Some (touched o f (begin_entry e))).
  { rewrite Ht. by eapply lookup_put_ofd. }
  apply wp_bind, (wp_update_ofd _ _ _ _ _ He').
  rewrite end_touched_begin by done. rewrite Ht, put_ofd_put_ofd.
  apply wp_bind, (wp_ofd_unlock host _ (touched o f e)).
  { cbn [tbl set_tbl]. by eapply lookup_put_ofd. }
  intros w'. apply wp_ret. by eapply HQ.
Qed.

(** ** Rules for bodies *)

Section Body.
Variables (t : hl_linux_abi) (i : Z) (e : hl_linux_ofd_entry).
Hypothesis He : lookupZ (ofds t) i = Some e.

(** The state of the machine in the middle of a body. *)
Definition inside (o f : Z) (s : machine W) : Prop :=
  tbl s = put_ofd i (touched o f (begin_entry e)) t.

Definition finish {A} (P : A -> Z -> Z -> Prop) (r : A) (s : machine W) : Prop :=
  exists o f, tbl s = put_ofd i (touched o f (begin_entry e)) t /\ P r o f.

Lemma body_spec_inside {A} (body : M W A) P :
  (forall s, inside (ofd_offset e) (status_flags e) s -> wp body (finish P) s) ->
  body_spec t i e body P.
Proof. intros Hb s Hs. apply Hb. unfold inside. by rewrite Hs, touched_begin_id. Qed.

Lemma inside_lookup o f s :
  inside o f s -> lookupZ (ofds (tbl s)) i = Some (touched o f (begin_entry e)).
Proof. intros ->. by eapply lookup_put_ofd. Qed.

Lemma wp_inside_get o f Q s :
  inside o f s -> Q (touched o f (begin_entry e)) s -> wp (get_ofd i) Q s.
Proof. intros Hs HQ. apply (wp_get_ofd _ _ _ _ (inside_lookup _ _ _ Hs) HQ). Qed.

Lemma wp_inside_offset o f o' Q s :
  inside o f s -> (forall s', inside o' f s' -> Q tt s') ->
  wp (update_ofd i (with_offset o')) Q s.
Proof.
  intros Hs HQ. apply (wp_update_ofd _ _ _ _ _ (inside_lookup _ _ _ Hs)). apply HQ.
  unfold inside. cbn [tbl set_tbl]. rewrite Hs, put_ofd_put_ofd. done.
Qed.

Lemma inside_world o f w s : inside o f s -> inside o f (set_world w s).
Proof. done. Qed.

Lemma wp_finish {A} (r : A) P o f s : inside o f s -> P r o f -> wp (ret r) (finish P) s.
Proof. intros Hs HP. apply wp_ret. by exists o, f. Qed.

Lemma wp_inside_call {B} (g : W -> B * W) o f Q s :
  inside o f s -> (forall b s', inside o f s' -> Q b s') -> wp (call (Some g)) Q s.
Proof. intros Hs HQ. apply wp_call. intros b w _. by apply HQ. Qed.

Lemma wp_inside_call_or {B} (missing : B) (g : option (W -> B * W)) o f Q s :
  inside o f s -> (forall b s', inside o f s' -> Q b s') -> wp (call_or missing g) Q s.
Proof.
  intros Hs HQ. unfold call_or. destruct g; [by eapply wp_inside_call|]. apply wp_ret. by apply HQ.
Qed.
End Body.

(** ** Transfers *)

(** A transfer of at most [size] bytes answers an errno or the count. *)
Lemma transfer_result_range r size :
  -4096 < transfer_result r size < 0 \/
  (0 <= transfer_result r size \/ r_value r < 0) /\ transfer_result r size <= size
    /\ transfer_result r size <= INT64_MAX.
Proof.
  unfold transfer_result. destruct (is_ok (r_status r)) eqn:Hok; simpl.
  - destruct (_ || _) eqn:Hb; [left; done|]. right. bool_props. lia.
  - left. apply hl_linux_error_negative. by destruct (r_status r).
Qed.

(** The offset after a transfer that answered [r]: moved by the count. *)
Definition advanced (o r : Z) : Z :=
  if (0 <? r) && (o <=? UINT64_MAX - r) then o + r else o.

Lemma wp_advance t i e o f r Q (s : machine W) :
  lookupZ (ofds t) i = Some e -> inside t i e o f s ->
  (forall s', inside t i e (advanced o r) f s' -> Q tt s') ->
  wp (if 0 <? r then advance_offset i r else ret tt) Q s.
Proof.
  intros He Hs HQ. unfold advanced in HQ. destruct (0 <? r); [|apply wp_ret; by apply HQ].
  unfold advance_offset. eapply wp_bind, wp_inside_get; [exact He|exact Hs|]. cbn beta.
  change (ofd_offset (touched o f (begin_entry e))) with o.
  destruct (o <=? UINT64_MAX - r); [|apply wp_ret; by apply HQ].
  by eapply wp_inside_offset.
Qed.

(** After an append the offset is whatever the host says the end is. *)
Lemma wp_resync t i e o f files Q (s : machine W) :
  lookupZ (ofds t) i = Some e -> inside t i e o f s ->
  (forall o' s', inside t i e o' f s' -> Q tt s') -> wp (resync_offset i files) Q s.
Proof.
  intros He Hs HQ. unfold resync_offset. destruct (f_seek files) as [seek|]; [|apply wp_ret; by eapply HQ].
  eapply wp_bind, wp_inside_get; [exact He|exact Hs|].
  eapply wp_bind, wp_inside_call; [exact Hs|]. intros r s' Hs'. cbn beta.
  destruct (is_ok (r_status r)); [|apply wp_ret; by eapply HQ].
  eapply wp_inside_offset; [exact He|exact Hs'|]. intros. by eapply HQ.
Qed.

(** What a read of at most [size] bytes promises. *)
Definition read_post (e : hl_linux_ofd_entry) (size r o f : Z) : Prop :=
  f = status_flags e /\
  o = (if object_ops e =? 0 then advanced (ofd_offset e) r else ofd_offset e) /\
  (object_ops e = 0 -> r <= size).

(** Closes the commands of a body that neither move the offset nor stop. *)
Ltac body_step He Hs :=
  lazymatch goal with
  | |- wp (ret _) (finish _ _ _ _) _ => eapply wp_finish; [exact Hs|]
  | |- wp (bind (get_ofd _) _) _ _ => eapply wp_bind, wp_inside_get; [exact He|exact Hs|]; cbn beta
  | |- wp (bind (call (Some _)) _) _ _ =>
      let r := fresh "r" in let s := fresh "s" in let H := fresh "Hin" in
      eapply wp_bind, wp_inside_call; [exact Hs|]; intros r s H; cbn beta; clear Hs; rename H into Hs
  | |- wp (bind (call_or _ _) _) _ _ =>
      let r := fresh "r" in let s := fresh "s" in let H := fresh "Hin" in
      eapply wp_bind, wp_inside_call_or; [exact Hs|]; intros r s H; cbn beta; clear Hs; rename H into Hs
  | |- wp (call (Some _)) _ _ =>
      let r := fresh "r" in let s := fresh "s" in let H := fresh "Hin" in
      eapply wp_inside_call; [exact Hs|]; intros r s H; cbn beta; clear Hs; rename H into Hs
  | |- wp (match ?x with _ => _ end) _ _ => destruct x eqn:?
  end.
Ltac body_steps He Hs := repeat body_step He Hs.

(** The projections of a touched, pinned entry. *)
Ltac body_simpl :=
  change (host_handle (touched _ _ (begin_entry ?e))) with (host_handle e) in *;
  change (object_ops (touched _ _ (begin_entry ?e))) with (object_ops e) in *;
  change (object_context (touched _ _ (begin_entry ?e))) with (object_context e) in *.

Lemma transfer_result_le r size : 0 <= size -> transfer_result r size <= size.
Proof. intros Hs. destruct (transfer_result_range r size) as [|(_ & ? & _)]; lia. Qed.

Lemma advanced_negative o r : r <= 0 -> advanced o r = o.
Proof. intros Hr. unfold advanced. by destruct (Z.ltb_spec 0 r); [lia|]. Qed.

Lemma read_body_spec t i e buffer size :
  lookupZ (ofds t) i = Some e -> 0 <= size ->
  body_spec t i e (read_body host vtable i buffer size) (read_post e size).
Proof.
  intros He Hsize. apply body_spec_inside. intros s Hs. unfold read_body.
  assert (Hneg : forall n, 0 < n < 4096 -> read_post e size (- n) (ofd_offset e) (status_flags e)).
  { intros n Hn. unfold read_post. rewrite advanced_negative by lia.
    split_and!; [done|by destruct (_ =? _)|lia]. }
  body_step He Hs. body_simpl. body_step He Hs; [body_step He Hs; by apply (Hneg 9)|].
  body_step He Hs; [body_step He Hs; by apply (Hneg 22)|].
  body_step He Hs.
  - body_step He Hs; [|body_step He Hs; by apply (Hneg 38)].
    eapply wp_inside_call; [exact Hs|]. intros r s' Hs'. exists (ofd_offset e), (status_flags e).
    split; [done|]. bool_props. unfold read_post. destruct (Z.eqb_spec (object_ops e) 0); done.
  - body_step He Hs; [|body_step He Hs; by apply (Hneg 38)].
    body_step He Hs; [|body_step He Hs; by apply (Hneg 38)].
    body_step He Hs. apply wp_bind. eapply wp_advance; [exact He|exact Hs|].
    intros s' Hs'. eapply wp_finish; [exact Hs'|]. bool_props. unfold read_post.
    split_and!; [done| |intros _; by apply transfer_result_le].
    rewrite Heqb1. by rewrite Z.eqb_refl.
Qed.

(** Everything a body leaves, when only the pin discipline matters. *)
Definition any_post {A} (e : hl_linux_ofd_entry) (r : A) (o f : Z) : Prop := f = status_flags e.
(** Nothing moved. *)
Definition still_post {A} (e : hl_linux_ofd_entry) (r : A) (o f : Z) : Prop :=
  o = ofd_offset e /\ f = status_flags e.

Ltac still He Hs :=
  body_steps He Hs;
  try (exists (ofd_offset _), (status_flags _); split; [exact Hs|by split]);
  try by split.

Lemma pread_body_spec t i e buffer size offset :
  lookupZ (ofds t) i = Some e ->
  body_spec t i e (hl_linux_pread64_owned host i buffer size offset) (still_post e).
Proof.
  intros He. apply body_spec_inside. intros s Hs. unfold hl_linux_pread64_owned. still He Hs.
Qed.

Lemma pwrite_body_spec t i e buffer size offset :
  lookupZ (ofds t) i = Some e ->
  body_spec t i e (hl_linux_write_owned host i buffer size offset) (still_post e).
Proof.
  intros He. apply body_spec_inside. intros s Hs. unfold hl_linux_write_owned. still He Hs.
Qed.

(** A write at the current offset advances it by the count; an append leaves
    it where the host says the end is. *)
Definition write_post (e : hl_linux_ofd_entry) (object append : bool) (r o f : Z) : Prop :=
  f = status_flags e /\
  (object = true \/ r <= 0 -> o = ofd_offset e) /\
  (object = false -> append = false -> o = advanced (ofd_offset e) r).

Lemma write_post_error e object append r :
  r <= 0 -> write_post e object append r (ofd_offset e) (status_flags e).
Proof.
  intros Hr. split_and!; [done|done|]. intros _ _. by rewrite advanced_negative by lia.
Qed.

(** The tail every transfer shares. *)
Lemma wp_transfer_tail t i e (files : hl_host_file_services W) r (append : bool) (s : machine W) :
  lookupZ (ofds t) i = Some e -> inside t i e (ofd_offset e) (status_flags e) s ->
  wp (bind (if 0 <? r then if append then resync_offset i files else advance_offset i r
            else ret tt) (fun _ => ret r))
    (finish t i e (write_post e false append)) s.
Proof.
  intros He Hs. apply wp_bind. destruct append.
  - destruct (Z.ltb_spec 0 r).
    + eapply wp_resync; [exact He|exact Hs|]. intros o' s' Hs'.
      eapply wp_finish; [exact Hs'|]. split_and!; [done| |done]. intros [?|?]; [done|lia].
    + apply wp_ret. eapply wp_finish; [exact Hs|]. by apply write_post_error.
  - eapply wp_advance; [exact He|exact Hs|]. intros s' Hs'. eapply wp_finish; [exact Hs'|].
    split_and!; [done| |done]. intros [?|?]; [done|]. by apply advanced_negative.
Qed.

Lemma write_body_spec t i e buffer size append :
  lookupZ (ofds t) i = Some e ->
  body_spec t i e (write_body host vtable i buffer size append)
    (write_post e (negb (object_ops e =? 0)) append).
Proof.
  intros He. apply body_spec_inside. intros s Hs. unfold write_body.
  body_step He Hs. body_simpl.
  body_step He Hs; [body_step He Hs; by apply write_post_error|].
  destruct (negb (object_ops e =? 0)) eqn:Hobj.
  - body_step He Hs; [|body_step He Hs; by apply write_post_error].
    eapply wp_inside_call; [exact Hs|]. intros r s' Hs'.
    exists (ofd_offset e), (status_flags e). split; [done|]. by split_and!.
  - destruct (hl_linux_files host) as [files|] eqn:Hf; [|body_step He Hs; by apply write_post_error].
    destruct (ready_write files Hf) as [[wr Hwr] [ap Hap]].
    rewrite Hwr, Hap. unfold call3. eapply wp_bind.
    destruct append; (eapply wp_inside_call; [exact Hs|]); intros r s' Hs'.
    + exact (wp_transfer_tail t i e files _ true _ He Hs').
    + exact (wp_transfer_tail t i e files _ false _ He Hs').
Qed.

Definition vector_post (e : hl_linux_ofd_entry) (operation : Z) (append : bool) (r o f : Z) : Prop :=
  if 2 <=? operation then still_post e r o f else write_post e false append r o f.

Lemma vector_body_spec t i e vectors offset operation total append :
  lookupZ (ofds t) i = Some e ->
  body_spec t i e (vector_body host i vectors offset operation total append)
    (vector_post e operation append).
Proof.
  intros He. apply body_spec_inside. intros s Hs. unfold vector_body.
  body_step He Hs.
  destruct (hl_linux_files host) as [files|] eqn:Hf.
  2: { body_step He Hs. unfold vector_post, still_post.
       destruct (2 <=? operation); [done|]. by apply write_post_error. }
  assert (Htail : forall (r : hl_host_result) (s' : machine W),
    inside t i e (ofd_offset e) (status_flags e) s' ->
    wp (bind (if (0 <? transfer_result r total) && negb (2 <=? operation)
              then if append then resync_offset i files else advance_offset i (transfer_result r total)
              else ret tt) (fun _ => ret (transfer_result r total)))
      (finish t i e (vector_post e operation append)) s').
  { intros r s' Hs'. unfold vector_post. destruct (2 <=? operation).
    - rewrite andb_false_r. apply wp_bind, wp_ret. eapply wp_finish; [exact Hs'|]. by split.
    - rewrite andb_true_r. by apply wp_transfer_tail. }
  apply wp_bind. body_simpl.
  repeat match goal with |- wp (if ?b then _ else _) _ _ => destruct b end;
    (eapply wp_inside_call_or; [exact Hs|]); intros r s' Hs'; by apply Htail.
Qed.

Lemma wp_metadata_owned t i e Q (s : machine W) :
  lookupZ (ofds t) i = Some e -> inside t i e (ofd_offset e) (status_flags e) s ->
  (forall r s', inside t i e (ofd_offset e) (status_flags e) s' -> Q r s') ->
  wp (hl_linux_metadata_owned host i) Q s.
Proof.
  intros He Hs HQ. unfold hl_linux_metadata_owned.
  body_step He Hs; [|apply wp_ret; by apply HQ]. body_step He Hs; [|apply wp_ret; by apply HQ].
  body_steps He Hs. apply wp_ret. by apply HQ.
Qed.

(** [lseek]: a nonnegative answer is the new offset, an error moves nothing. *)
Definition lseek_post (e : hl_linux_ofd_entry) (r o f : Z) : Prop :=
  f = status_flags e /\
  (o = ofd_offset e /\ -4096 < r < 0 \/ o = r /\ r <= INT64_MAX).

Lemma lseek_body_spec t i e offset whence :
  lookupZ (ofds t) i = Some e ->
  body_spec t i e (lseek_body host i offset whence) (lseek_post e).
Proof.
  intros He. apply body_spec_inside. intros s Hs. unfold lseek_body.
  assert (Herr : forall n, -4096 < n < 0 -> lseek_post e n (ofd_offset e) (status_flags e)).
  { intros n Hn. split; [done|]. by left. }
  body_step He Hs; [body_step He Hs; by apply (Herr (-22))|].
  body_step He Hs; [body_step He Hs; by apply (Herr (-6))|].
  do 2 (body_step He Hs; [|body_step He Hs; by apply (Herr (-38))]).
  eapply wp_bind, wp_metadata_owned; [exact He|exact Hs|]. clear Hs. intros md s' Hs. cbn beta.
  body_step He Hs; [body_step He Hs; by apply (Herr (-5))|].
  body_step He Hs; [body_step He Hs; by apply (Herr (-29))|].
  body_step He Hs. body_step He Hs. destruct (is_ok (r_status r)) eqn:Hok.
  - destruct (INT64_MAX <? r_value r) eqn:Hmax; [body_step He Hs; by apply (Herr (-75))|].
    apply wp_bind. eapply wp_inside_offset; [exact He|exact Hs|]. intros s2 Hs2.
    eapply wp_finish; [exact Hs2|]. bool_props. split; [done|]. by right.
  - body_step He Hs; body_step He Hs; [by apply (Herr (-6))|]. apply Herr.
    apply hl_linux_error_negative. by destruct (r_status r).
Qed.

(** ** Entry points *)

(** The lookup every entry point starts with. *)
Lemma wp_named {A} fd (missing : A) (k : hl_linux_fd_entry -> Z -> hl_linux_ofd_entry -> M W A)
    Q (s : machine W) :
  table_wf (tbl s) -> Q missing s ->
  (forall fe e, lookupZ (fds (tbl s)) fd = Some fe -> 1 <= fd_ofd fe < ofd_capacity (tbl s) ->
     lookupZ (ofds (tbl s)) (fd_ofd fe) = Some e -> slot_live e -> wp (k fe (fd_ofd fe) e) Q s) ->
  forall err, err HL_STATUS_NOT_FOUND = missing ->
  wp (match hl_linux_fd_get_unlocked (tbl s) fd with
      | inl status => ret (err status)
      | inr (fe, i, e) => k fe i e
      end) Q s.
Proof.
  intros [Hinv _] Hm Hk err Herr. pose proof (get_unlocked_inv has_close (tbl s) fd Hinv) as Hg.
  destruct (hl_linux_fd_get_unlocked _ _) as [st|[[fe i] e]].
  - destruct Hg as [-> _]. rewrite Herr. by apply wp_ret.
  - destruct Hg as (Hfe & -> & Hr & He & Hl). by apply Hk.
Qed.

(** What an operation on [fd] does to the table. *)
Definition operated (t t' : hl_linux_abi) (fd : Z) (P : hl_linux_ofd_entry -> Z -> Z -> Prop) : Prop :=
  exists fe e o f,
    lookupZ (fds t) fd = Some fe /\ 1 <= fd_ofd fe < ofd_capacity t /\
    lookupZ (ofds t) (fd_ofd fe) = Some e /\ slot_live e /\
    P e o f /\ t' = put_ofd (fd_ofd fe) (touched o f e) t.

Lemma operated_wf t t' fd P : table_wf t -> operated t t' fd P -> table_wf t'.
Proof. intros Hwf (fe & e & o & f & Hfe & Hr & He & Hl & _ & ->). apply touched_wf; tauto. Qed.

Lemma wp_operation {A} fd fe e (body : M W A) P Q (s : machine W) :
  table_wf (tbl s) ->
  lookupZ (fds (tbl s)) fd = Some fe -> 1 <= fd_ofd fe < ofd_capacity (tbl s) ->
  lookupZ (ofds (tbl s)) (fd_ofd fe) = Some e -> slot_live e ->
  body_spec (tbl s) (fd_ofd fe) e body (P e) ->
  (forall r s', operated (tbl s) (tbl s') fd (fun e o f => P e r o f) -> Q r s') ->
  wp (with_operation host (fd_ofd fe) body) Q s.
Proof.
  intros [Hinv Hq] Hfe Hr He Hl Hb HQ.
  eapply wp_with_operation; [exact He| |exact Hb|].
  - by destruct (inv_slot _ _ _ _ Hinv (proj1 Hr) He).
  - intros r o f s' HP Ht. apply HQ. exists fe, e, o, f. tauto.
Qed.

(** The postcondition shared by the syscalls that answer an errno or a count:
    an error found before the operation starts leaves the table alone. *)
Definition io_post (t : hl_linux_abi) (fd : Z) (P : Z -> hl_linux_ofd_entry -> Z -> Z -> Prop)
    (r : Z) (s' : machine W) : Prop :=
  -4096 < r < 0 /\ tbl s' = t \/ operated t (tbl s') fd (P r).

Lemma io_post_wf t fd P r s' : table_wf t -> io_post t fd P r s' -> table_wf (tbl s').
Proof. intros Hwf [[_ ->]|Ho]; [done|by eapply operated_wf]. Qed.

Ltac refuse := apply wp_ret; left; done.
Ltac named Hwf := apply wp_bind, wp_get_tbl;
  eapply (wp_named _ (- HL_LINUX_EBADF)); [exact Hwf|left; done| |reflexivity];
  intros fe e Hfe Hr He Hl.
Ltac operate Hwf Hfe Hr He Hl P := eapply (wp_operation _ _ _ _ P _ _ Hwf Hfe Hr He Hl);
  [|intros r s' Ho; right; exact Ho].

Lemma wp_read fd buffer size (s : machine W) :
  table_wf (tbl s) -> 0 <= size ->
  wp (hl_linux_read host vtable fd buffer size)
    (io_post (tbl s) fd (fun r e => read_post e size r)) s.
Proof.
  intros Hwf Hsz. unfold hl_linux_read. destruct (INT64_MAX <? size); [refuse|]. named Hwf.
  operate Hwf Hfe Hr He Hl (fun e => read_post e size). by apply read_body_spec.
Qed.

Lemma wp_write fd buffer size (s : machine W) :
  table_wf (tbl s) ->
  wp (hl_linux_write host vtable fd buffer size)
    (io_post (tbl s) fd (fun r e =>
       write_post e (negb (object_ops e =? 0)) (has_flag (status_flags e) HL_LINUX_O_APPEND) r)) s.
Proof.
  intros Hwf. unfold hl_linux_write. destruct (INT64_MAX <? size); [refuse|]. named Hwf.
  destruct (is_rdonly _); [refuse|].
  operate Hwf Hfe Hr He Hl (fun e => write_post e (negb (object_ops e =? 0))
    (has_flag (status_flags e) HL_LINUX_O_APPEND)).
  by apply write_body_spec.
Qed.

Lemma wp_pread64 fd buffer size offset (s : machine W) :
  table_wf (tbl s) ->
  wp (hl_linux_pread64 host fd buffer size offset)
    (io_post (tbl s) fd (fun r e => still_post e r)) s.
Proof.
  intros Hwf. unfold hl_linux_pread64. destruct (INT64_MAX <? size); [refuse|]. named Hwf.
  operate Hwf Hfe Hr He Hl (fun e => @still_post Z e). by apply pread_body_spec.
Qed.

Lemma wp_pwrite64 fd buffer size offset (s : machine W) :
  table_wf (tbl s) ->
  wp (hl_linux_pwrite64 host fd buffer size offset)
    (io_post (tbl s) fd (fun r e => still_post e r)) s.
Proof.
  intros Hwf. unfold hl_linux_pwrite64. destruct (INT64_MAX <? size); [refuse|]. named Hwf.
  destruct (is_rdonly _); [refuse|].
  operate Hwf Hfe Hr He Hl (fun e => @still_post Z e). by apply pwrite_body_spec.
Qed.

(** Whether [hl_linux_vector] appends. *)
Definition vector_append (operation : Z) (e : hl_linux_ofd_entry) : bool :=
  negb (2 <=? operation) && ((operation =? 1) || (operation =? 3)) &&
  has_flag (status_flags e) HL_LINUX_O_APPEND.

Lemma wp_vector fd null vectors offset operation (s : machine W) :
  table_wf (tbl s) ->
  wp (hl_linux_vector host fd null vectors offset operation)
    (io_post (tbl s) fd (fun r e => vector_post e operation (vector_append operation e) r)) s.
Proof.
  intros Hwf. unfold hl_linux_vector. destruct (_ || _); [refuse|].
  destruct (vector_total vectors 0) as [total|]; [|refuse]. named Hwf.
  destruct (negb _ && _); [refuse|]. destruct (_ && _); [refuse|].
  operate Hwf Hfe Hr He Hl (fun e => vector_post e operation (vector_append operation e)).
  by apply vector_body_spec.
Qed.

Lemma wp_file_control fd size operation (s : machine W) :
  table_wf (tbl s) ->
  wp (hl_linux_file_control host fd size operation)
    (io_post (tbl s) fd (fun r e => still_post e r)) s.
Proof.
  intros Hwf. unfold hl_linux_file_control. destruct (_ && _); [refuse|]. named Hwf.
  destruct (_ && _); [refuse|].
  operate Hwf Hfe Hr He Hl (fun e => @still_post Z e).
  apply body_spec_inside. intros s1 Hs. body_step He Hs. body_step He Hs; [|still He Hs].
  apply wp_bind.
  repeat match goal with |- wp (if ?b then _ else _) _ _ => destruct b end;
    (eapply wp_inside_call_or; [exact Hs|]); intros r s2 Hs2;
    (eapply wp_finish; [exact Hs2|]); by split.
Qed.

Lemma wp_extended_sync fd offset size flags filesystem (s : machine W) :
  table_wf (tbl s) ->
  wp (hl_linux_extended_sync host fd offset size flags filesystem)
    (io_post (tbl s) fd (fun r e => still_post e r)) s.
Proof.
  intros Hwf. unfold hl_linux_extended_sync. named Hwf.
  operate Hwf Hfe Hr He Hl (fun e => @still_post Z e).
  apply body_spec_inside. intros s1 Hs. body_step He Hs. body_step He Hs; [|still He Hs].
  apply wp_bind. destruct filesystem;
    (eapply wp_inside_call_or; [exact Hs|]); intros r s2 Hs2;
    (eapply wp_finish; [exact Hs2|]); by split.
Qed.

Lemma wp_sync_range fd offset size flags (s : machine W) :
  table_wf (tbl s) ->
  wp (hl_linux_sync_range host fd offset size flags)
    (io_post (tbl s) fd (fun r e => still_post e r)) s.
Proof.
  intros Hwf. unfold hl_linux_sync_range. destruct (negb _); [refuse|]. by apply wp_extended_sync.
Qed.

Lemma wp_lseek fd offset whence (s : machine W) :
  table_wf (tbl s) ->
  wp (hl_linux_lseek host fd offset whence) (io_post (tbl s) fd (fun r e => lseek_post e r)) s.
Proof.
  intros Hwf. unfold hl_linux_lseek. named Hwf.
  operate Hwf Hfe Hr He Hl lseek_post. by apply lseek_body_spec.
Qed.

Lemma wp_fstat fd output (s : machine W) :
  table_wf (tbl s) ->
  wp (hl_linux_fstat host vtable fd output) (fun _ s' => table_wf (tbl s')) s.
Proof.
  intros Hwf. unfold hl_linux_fstat. destruct output; [|by apply wp_ret].
  apply wp_bind, wp_get_tbl.
  eapply (wp_named _ (- HL_LINUX_EBADF, Some zero_file_status)); [exact Hwf|done| |reflexivity].
  intros fe e Hfe Hr He Hl.
  eapply (wp_operation _ _ _ _ (fun e => still_post e) _ _ Hwf Hfe Hr He Hl);
    [|intros r s' Ho; by eapply operated_wf].
  apply body_spec_inside. intros s1 Hs. body_step He Hs. body_step He Hs.
  - body_step He Hs. body_step He Hs. by split.
  - eapply wp_bind, wp_metadata_owned; [exact He|exact Hs|]. clear Hs. intros md s2 Hs. cbn beta.
    body_step He Hs; body_step He Hs; by split.
Qed.

(** ** [fcntl] *)

(** The bits [F_SETFL] may not touch are kept; a refused change keeps all. *)
Definition setfl_post (argument : Z) (e : hl_linux_ofd_entry) (o f : Z) : Prop :=
  o = ofd_offset e /\
  (f = status_flags e \/ f = setfl_requested (status_flags e) argument \/
   exists effective, f = setfl_recorded (setfl_requested (status_flags e) argument) effective).

(** The object and host branches of [F_SETFL]: pin, call, record on success. *)
Lemma wp_setfl_bracket {A} i e argument (call_host : M W A) (ok : A -> bool) (eff : A -> Z)
    (result : A -> Z) (k : A -> M W Z) Q (s : machine W) :
  (forall a, k a =
    ((if ok a then update_ofd i (with_status_flags
         (setfl_recorded (setfl_requested (status_flags e) argument) (eff a)))
       else ret tt) ;;!
      update_ofd i end_entry ;;!
      hl_linux_ofd_unlock host i ;;! ret (result a))) ->
  lookupZ (ofds (tbl s)) i = Some e -> 0 <= active_operations e < 2 ^ 32 ->
  (forall Q' s1, (forall a w, Q' a (set_world w s1)) -> wp call_host Q' s1) ->
  (forall r s' o f, setfl_post argument e o f ->
     tbl s' = put_ofd i (touched o f e) (tbl s) -> Q r s') ->
  wp (update_ofd i begin_entry ;;!
      hl_linux_ofd_lock host i ;;!
      bind call_host k) Q s.
Proof.
  intros Hk He Ha Hcall HQ.
  apply wp_bind, (wp_update_ofd _ _ e); [done|].
  apply wp_bind, (wp_ofd_lock host _ (begin_entry e)).
  { cbn [tbl set_tbl]. by eapply lookup_put_ofd. }
  intros w. apply wp_bind, Hcall. intros a w'. rewrite Hk. apply wp_bind.
  assert (Htail : forall f (s2 : machine W), setfl_post argument e (ofd_offset e) f ->
    tbl s2 = put_ofd i (touched (ofd_offset e) f (begin_entry e)) (tbl s) ->
    wp (update_ofd i end_entry ;;! hl_linux_ofd_unlock host i ;;! ret (result a)) Q s2).
  { intros f s2 Hf H2. apply wp_bind. eapply wp_update_ofd.
    { rewrite H2. by eapply lookup_put_ofd. }
    rewrite end_touched_begin by done. rewrite H2, put_ofd_put_ofd.
    apply wp_bind, (wp_ofd_unlock host _ (touched (ofd_offset e) f e)).
    { cbn [tbl set_tbl]. by eapply lookup_put_ofd. }
    intros w2. apply wp_ret. by eapply HQ. }
  destruct (ok a).
  - eapply wp_update_ofd.
    { cbn [tbl set_tbl set_world]. by eapply lookup_put_ofd. }
    eapply Htail; [split; [done|]; right; right; by exists (eff a)|].
    cbn [tbl set_tbl set_world]. by rewrite put_ofd_put_ofd.
  - apply wp_ret. eapply Htail; [split; [done|]; by left|].
    cbn [tbl set_tbl set_world]. by rewrite touched_begin_id.
Qed.

Lemma wp_fcntl_setfl i e argument Q (s : machine W) :
  lookupZ (ofds (tbl s)) i = Some e -> 0 <= active_operations e < 2 ^ 32 ->
  (forall r, -4096 < r < 0 -> Q r s) ->
  (forall r s' o f, setfl_post argument e o f ->
     tbl s' = put_ofd i (touched o f e) (tbl s) -> Q r s') ->
  wp (fcntl_setfl host vtable i e argument) Q s.
Proof.
  intros He Ha Herr HQ. unfold fcntl_setfl.
  destruct (if negb (object_ops e =? 0) then _ else _) as [set_flags|].
  - eapply (wp_setfl_bracket i e argument _ (fun a => fst a =? 0) snd fst); try done.
    { by intros []. }
    intros Q' s1 HQ'. apply wp_call. intros b w _. apply HQ'.
  - destruct (negb _) eqn:Hh.
    + unfold hl_linux_streams. destruct (host_stream host) as [st|]; [|apply wp_ret; by apply Herr].
      destruct (_ || _); [apply wp_ret; by apply Herr|].
      destruct (s_set_status_flags st) as [g|] eqn:Hg; [|apply wp_ret; by apply Herr].
      rewrite Hg. unfold call2.
      eapply (wp_setfl_bracket i e argument _ (fun r => is_ok (r_status r))
        (fun r => hl_linux_status_flags_from_host_stream (u32 (r_value r)))
        (fun r => if is_ok (r_status r) then 0 else hl_linux_error (r_status r))); try done.
      intros Q' s1 HQ'. apply wp_call. intros b w _. apply HQ'.
    + apply wp_bind, (wp_update_ofd _ _ e); [done|]. apply wp_ret.
      eapply (HQ _ _ (ofd_offset e)); [|cbn [tbl set_tbl]; by rewrite with_status_flags_touched].
      split; [done|]. right. by left.
Qed.

Lemma wp_fcntl fd command argument Q (s : machine W) :
  table_wf (tbl s) -> 0 <= argument ->
  (forall r s', -4096 < r < 0 -> tbl s' = tbl s -> Q r s') ->
  (forall fe new dflags s', lookupZ (fds (tbl s)) fd = Some fe ->
     1 <= fd_ofd fe < ofd_capacity (tbl s) ->
     hl_linux_find_fd_at_least (tbl s) argument = Some new ->
     command = HL_LINUX_F_DUPFD /\ dflags = 0 \/
     command = HL_LINUX_F_DUPFD_CLOEXEC /\ dflags = HL_LINUX_FD_CLOEXEC ->
     linked (tbl s) (tbl s') new (fd_ofd fe) dflags -> table_wf (tbl s') -> Q new s') ->
  (forall fe, lookupZ (fds (tbl s)) fd = Some fe -> command = HL_LINUX_F_GETFD ->
     1 <= fd_ofd fe < ofd_capacity (tbl s) -> Q (descriptor_flags fe) s) ->
  (forall fe s', lookupZ (fds (tbl s)) fd = Some fe -> command = HL_LINUX_F_SETFD ->
     1 <= fd_ofd fe < ofd_capacity (tbl s) ->
     tbl s' = put_fd fd (mk_fd (fd_ofd fe) (Z.land (u32 argument) HL_LINUX_FD_CLOEXEC)
                           (fd_generation fe)) (tbl s) -> table_wf (tbl s') -> Q 0 s') ->
  (forall fe e, lookupZ (fds (tbl s)) fd = Some fe -> command = HL_LINUX_F_GETFL ->
     1 <= fd_ofd fe < ofd_capacity (tbl s) ->
     lookupZ (ofds (tbl s)) (fd_ofd fe) = Some e -> Q (status_flags e) s) ->
  (forall r s', command = HL_LINUX_F_SETFL ->
     operated (tbl s) (tbl s') fd (setfl_post argument) -> Q r s') ->
  wp (hl_linux_fcntl host vtable fd command argument) Q s.
Proof.
  intros Hwf Harg Herr Hdup Hgetfd Hsetfd Hgetfl Hsetfl. unfold hl_linux_fcntl.
  apply wp_bind, wp_get_tbl. destruct (_ || _) eqn:Hcmd.
  { destruct (fd_capacity (tbl s) <=? argument); [apply wp_ret; by apply Herr|].
    eapply wp_fd_dup_at_least; try done; try (intros _; by apply Herr).
    intros. eapply Hdup; try done.
    apply orb_true_iff in Hcmd as [Hc%Z.eqb_eq|Hc%Z.eqb_eq]; rewrite Hc; [by left|by right]. }
  eapply (wp_named _ (- HL_LINUX_EBADF)); [exact Hwf|by apply Herr| |reflexivity].
  intros fe e Hfe Hr He Hl.
  destruct (Z.eqb_spec command HL_LINUX_F_GETFD); [apply wp_ret; by apply Hgetfd|].
  destruct (Z.eqb_spec command HL_LINUX_F_SETFD).
  { wp_steps. apply (Hsetfd fe); try done. cbn [tbl set_tbl]. destruct Hwf as [Hinv Hq].
    split; [|by eapply quiescent_fds].
    rewrite <- (set_reserved_id (put_fd _ _ _)).
    eapply table_inv_put_fd; [exact Hinv|exact Hfe|by left|]. simpl. lia. }
  destruct (Z.eqb_spec command HL_LINUX_F_GETFL); [apply wp_ret; by eapply Hgetfl|].
  destruct (Z.eqb_spec command HL_LINUX_F_SETFL); [|apply wp_ret; by apply Herr].
  eapply wp_fcntl_setfl; [exact He| | |].
  - by destruct (inv_slot _ _ _ _ (proj1 Hwf) (proj1 Hr) He).
  - intros r Hx. by apply Herr.
  - intros r s' o f Hpost Ht. apply Hsetfl; [done|]. exists fe, e, o, f. tauto.
Qed.

(** ** Opening *)

(** What remains of [openat] once the host answered: publish, or close the
    host handle again. *)
Lemma wp_openat reservation directory_fd direct path flags mode Q (s : machine W) :
  table_wf (tbl s) ->
  (forall r s', tbl s' = tbl s -> -4096 < r < 0 -> Q r s') ->
  (forall fd i handle mutex token s', reservation = None ->
     hl_linux_find_fd (tbl s) = Some fd ->
     published (tbl s) (tbl s') fd i
       (if has_flag flags HL_LINUX_O_CLOEXEC then HL_LINUX_FD_CLOEXEC else 0)
       (file_entry handle (Z.ldiff flags HL_LINUX_O_CLOEXEC) mutex token) ->
     table_wf (tbl s') -> Q fd s') ->
  (forall r i handle mutex token s', reservation = Some r -> reservation_valid (tbl s) r = true ->
     committed (tbl s) (tbl s') (rsv_fd r) i
       (if has_flag flags HL_LINUX_O_CLOEXEC then HL_LINUX_FD_CLOEXEC else 0)
       (file_entry handle (Z.ldiff flags HL_LINUX_O_CLOEXEC) mutex token) ->
     table_wf (tbl s') -> Q (rsv_fd r) s') ->
  wp (hl_linux_openat_install host reservation directory_fd direct path flags mode) Q s.
Proof.
  intros Hwf Herr Hpub Hcom. unfold hl_linux_openat_install.
  destruct path as [[|b path]|]; try (apply wp_ret; by apply Herr).
  destruct (negb _); [apply wp_ret; by apply Herr|].
  destruct (openat_access flags) as [access|]; [|apply wp_ret; by apply Herr].
  destruct (hl_linux_files host) as [files|]; [|apply wp_ret; by apply Herr].
  destruct (f_open_relative files) as [open_relative|]; [|apply wp_ret; by apply Herr].
  match goal with |- context [ let! r := match reservation with Some token => _ | None => _ end in _ ] => idtac end.
  match goal with |- wp (if _ then _ else bind _ ?k) _ _ =>
    assert (Hpublish : forall opened s1, tbl s1 = tbl s -> wp (k opened) Q s1) end.
  { intros opened s1 Hs1. destruct (is_ok (r_status opened)) eqn:Hok; simpl.
    2: { apply wp_ret. apply Herr; [done|]. destruct (is_not_found _); [done|].
         apply hl_linux_error_negative. by destruct (r_status opened). }
    apply wp_bind.
    assert (Hrefuse : forall status fd s2, status <> HL_STATUS_OK -> tbl s2 = tbl s ->
      wp (if negb (is_ok status) then
            match f_close files with
            | Some close => let! _ := call (Some (close (r_value opened))) in ret tt
            | None => ret tt
            end ;;!
            ret (if is_resource_limit status then - HL_LINUX_EMFILE else hl_linux_error status)
          else ret fd) Q s2).
    { intros status fd s2 Hst H2. rewrite (proj2 (is_ok_false status) Hst). simpl.
      assert (Hrange : -4096 < (if is_resource_limit status then - HL_LINUX_EMFILE
                                else hl_linux_error status) < 0).
      { destruct (is_resource_limit status); [done|]. by apply hl_linux_error_negative. }
      apply wp_bind. destruct (f_close files); [|apply wp_ret, wp_ret; by apply Herr].
      apply wp_bind, wp_call. intros r w _. apply wp_ret, wp_ret. by apply Herr. }
    destruct reservation as [token|].
    - apply wp_bind, (wp_fd_commit host vtable); [by rewrite Hs1| |].
      + intros status s2 Hst H2. apply wp_ret. cbn beta iota. apply Hrefuse; [done|congruence].
      + intros i mutex tok s2 Hv Hc Hwf2. rewrite Hs1 in *. apply wp_ret. apply wp_ret.
        by eapply Hcom.
    - apply wp_bind, (wp_fd_install host vtable); [by rewrite Hs1| |].
      + intros status out s2 Hst H2. apply wp_ret. cbn beta iota. apply Hrefuse; [done|congruence].
      + intros fd i mutex tok s2 Hfd Hc Hwf2. rewrite Hs1 in *. apply wp_ret. apply wp_ret.
        by eapply Hpub. }
  destruct (_ && _).
  - destruct (directory_fd <? 0); [apply wp_ret; by apply Herr|].
    apply wp_bind, wp_get_tbl.
    eapply (wp_named _ (- HL_LINUX_EBADF)); [exact Hwf|by apply Herr| |reflexivity].
    intros fe e Hfe Hr He Hl. apply wp_bind.
    eapply (wp_operation _ _ _ _ (fun e => still_post e) _ _ Hwf Hfe Hr He Hl).
    + apply body_spec_inside. intros s1 Hs. body_step He Hs. body_step He Hs.
      exists (ofd_offset e), (status_flags e). by split; [|split].
    + intros opened s' (fe' & e' & o & f & Hfe' & _ & He' & _ & [-> ->] & Ht). simplify_eq.
      apply Hpublish. rewrite Ht, touched_id. by apply put_ofd_id.
  - apply wp_bind, wp_call. intros opened w _. by apply Hpublish.
Qed.
End Transfer.
