(* ===== verification/FdRefine.v ===== *)
(** * The handlers implement the POSIX operations

    The concrete updates of the handlers, seen through [view_of], are the
    operations of the abstract view below. *)

From stdpp Require Import gmap.
From S2P Require Import Prelude Status Host FdTable Machine FdOps FdControl FdIO.
From S2P Require Import FdInvariant FdSections FdHandlers FdTransfer.

(** ** What the guest sees of the descriptor table

    The abstract specification of the table: a finite map from descriptors to
    open file descriptions, the reservations, and the descriptions themselves,
    without slots, generations, mutexes and counts.  The POSIX operations are
    functions on that view; the second part of the file proves the handlers
    implement them. *)

(** ** Arrays as finite maps *)

Section ArrayMap.
Context {A B : Type} (f : A -> option B).

Fixpoint array_map_from (l : list A) (s : Z) : gmap Z B :=
  match l with
  | [] => ∅
  | x :: l' =>
      match f x with
      | Some b => <[s := b]> (array_map_from l' (s + 1))
      | None => array_map_from l' (s + 1)
      end
  end.
Definition array_map (l : list A) : gmap Z B := array_map_from l 0.

Lemma lookup_array_map_from l s i :
  array_map_from l s !! i = (if s <=? i then lookupZ l (i - s) else None) ≫= f.
Proof.
  revert s. induction l as [|x l IH]; intros s; simpl.
  - rewrite lookup_empty. destruct (s <=? i); [|done]. unfold lookupZ.
    destruct (0 <=? i - s); done.
  - assert (Htail : array_map_from l (s + 1) !! i =
      (if s + 1 <=? i then lookupZ (x :: l) (i - s) else None) ≫= f).
    { rewrite IH. destruct (Z.leb_spec (s + 1) i); [|done].
      rewrite lookupZ_cons_succ by lia. by replace (i - (s + 1)) with (i - s - 1) by lia. }
    destruct (decide (i = s)) as [->|Hne].
    + rewrite Z.leb_refl, Z.sub_diag. simpl. unfold lookupZ. simpl.
      destruct (f x) as [b|] eqn:Hfx; simpl; [by rewrite lookup_insert_eq|].
      rewrite Htail. destruct (Z.leb_spec (s + 1) s); [lia|done].
    + replace (array_map_from (x :: l) s !! i) with (array_map_from l (s + 1) !! i).
      * simpl. replace (match f x with Some b => <[s:=b]> (array_map_from l (s + 1))
          | None => array_map_from l (s + 1) end !! i) with (array_map_from l (s + 1) !! i)
          by (destruct (f x); [by rewrite lookup_insert_ne|done]).
        rewrite Htail. destruct (Z.leb_spec (s + 1) i), (Z.leb_spec s i); done || lia.
      * simpl. destruct (f x); [by rewrite lookup_insert_ne|done].
Qed.

Lemma lookup_array_map l i : array_map l !! i = lookupZ l i ≫= f.
Proof.
  unfold array_map. rewrite lookup_array_map_from, Z.sub_0_r.
  destruct (Z.leb_spec 0 i); [done|]. unfold lookupZ. by destruct (Z.leb_spec 0 i); [lia|].
Qed.

Lemma array_map_insertZ l i x :
  0 <= i < lengthZ l ->
  array_map (insertZ l i x) =
    match f x with Some b => <[i := b]> (array_map l) | None => delete i (array_map l) end.
Proof.
  intros Hi. apply map_eq. intros j. rewrite lookup_array_map, lookupZ_insertZ by done.
  destruct (decide (i = j)) as [->|Hne]; simpl.
  - destruct (f x); [by rewrite lookup_insert_eq|by rewrite lookup_delete_eq].
  - rewrite <- lookup_array_map. destruct (f x); [by rewrite lookup_insert_ne|by rewrite lookup_delete_ne].
Qed.
End ArrayMap.

(** ** The view *)

Record description := mk_description {
  dsc_handle : Z; dsc_offset : Z; dsc_flags : Z; dsc_kind : Z; dsc_token : Z;
  dsc_ops : Z; dsc_context : Z
}.
#[export] Instance description_eq_dec : EqDecision description.
Proof. solve_decision. Defined.

Record view := mk_view {
  v_fds : gmap Z (Z * Z);        (** descriptor -> description, FD_CLOEXEC flags *)
  v_reserved : gmap Z Z;         (** reserved descriptor -> generation of the token *)
  v_ofds : gmap Z description
}.

Definition describe (e : hl_linux_ofd_entry) : description :=
  mk_description (host_handle e) (ofd_offset e) (status_flags e) (ofd_kind e) (flock_token e)
    (object_ops e) (object_context e).

Definition view_fd (e : hl_linux_fd_entry) : option (Z * Z) :=
  if (fd_ofd e =? 0) || (fd_ofd e =? HL_LINUX_FD_RESERVED) then None
  else Some (fd_ofd e, descriptor_flags e).
Definition view_reserved (e : hl_linux_fd_entry) : option Z :=
  if fd_ofd e =? HL_LINUX_FD_RESERVED then Some (fd_generation e) else None.
Definition view_ofd (e : hl_linux_ofd_entry) : option description :=
  if references e =? 0 then None else Some (describe e).

Definition view_of (t : hl_linux_abi) : view :=
  mk_view (array_map view_fd (fds t)) (array_map view_reserved (fds t))
    (delete 0 (array_map view_ofd (ofds t))).

(** ** The POSIX operations *)

Definition still_named (m : gmap Z (Z * Z)) (i : Z) : bool :=
  bool_decide (map_Exists (fun _ p => fst p = i) m).

(** [close]: the last descriptor of a description takes it away. *)
Definition posix_close (fd : Z) (v : view) : view :=
  match v_fds v !! fd with
  | None => v
  | Some (i, _) =>
      let m := delete fd (v_fds v) in
      mk_view m (v_reserved v) (if still_named m i then v_ofds v else delete i (v_ofds v))
  end.

(** [open]: a fresh description under one descriptor. *)
Definition posix_open (fd i dflags : Z) (d : description) (v : view) : view :=
  mk_view (<[fd := (i, dflags)]> (v_fds v)) (v_reserved v) (<[i := d]> (v_ofds v)).

(** [dup]: one more descriptor for an open description. *)
Definition posix_dup (fd i dflags : Z) (v : view) : view :=
  mk_view (<[fd := (i, dflags)]> (v_fds v)) (v_reserved v) (v_ofds v).

(** [dup2]: close the target, then duplicate onto it. *)
Definition posix_dup2 (source target dflags : Z) (v : view) : view :=
  match v_fds v !! source with
  | None => v
  | Some (i, _) => posix_dup target i dflags (posix_close target v)
  end.

(** [execve]: the close-on-exec descriptors go, with the descriptions only
    they named. *)
Definition posix_exec (v : view) : view :=
  let m := filter (fun p => has_flag (snd (snd p)) HL_LINUX_FD_CLOEXEC = false) (v_fds v) in
  mk_view m (v_reserved v) (filter (fun p => still_named m (fst p) = true) (v_ofds v)).

Definition posix_reserve (fd generation : Z) (v : view) : view :=
  mk_view (v_fds v) (<[fd := generation]> (v_reserved v)) (v_ofds v).
Definition posix_cancel (fd : Z) (v : view) : view :=
  mk_view (v_fds v) (delete fd (v_reserved v)) (v_ofds v).
Definition posix_commit (fd i dflags : Z) (d : description) (v : view) : view :=
  posix_open fd i dflags d (posix_cancel fd v).

(** An operation on an open description moves its offset and flags only. *)
Definition posix_touch (i o f : Z) (v : view) : view :=
  mk_view (v_fds v) (v_reserved v)
    (alter (fun d => mk_description (dsc_handle d) o f (dsc_kind d) (dsc_token d)
                       (dsc_ops d) (dsc_context d)) i (v_ofds v)).

(** ** The view of an update *)

Lemma still_named_true m i : still_named m i = true <-> exists fd df, m !! fd = Some (i, df).
Proof.
  unfold still_named. rewrite bool_decide_eq_true. split.
  - intros (fd & [j df] & Hm & Hi). simpl in Hi. subst. eauto.
  - intros (fd & df & Hm). by exists fd, (i, df).
Qed.

Lemma view_put_fd t fd e :
  0 <= fd < fd_capacity t ->
  view_of (put_fd fd e t) =
    mk_view (match view_fd e with Some p => <[fd := p]> (v_fds (view_of t))
             | None => delete fd (v_fds (view_of t)) end)
      (match view_reserved e with Some g => <[fd := g]> (v_reserved (view_of t))
       | None => delete fd (v_reserved (view_of t)) end)
      (v_ofds (view_of t)).
Proof. intros Hfd. unfold view_of. simpl. by rewrite !array_map_insertZ. Qed.

Lemma view_put_ofd t i e :
  1 <= i < ofd_capacity t ->
  view_of (put_ofd i e t) =
    mk_view (v_fds (view_of t)) (v_reserved (view_of t))
      (match view_ofd e with Some d => <[i := d]> (v_ofds (view_of t))
       | None => delete i (v_ofds (view_of t)) end).
Proof.
  intros Hi. unfold view_of. simpl. rewrite array_map_insertZ by (unfold ofd_capacity in *; lia).
  f_equal. destruct (view_ofd e); [by rewrite delete_insert_ne by lia|apply delete_delete].
Qed.

Lemma view_set_watermark w t : view_of (set_watermark w t) = view_of t.
Proof. done. Qed.
Lemma view_set_reserved r t : view_of (set_reserved r t) = view_of t.
Proof. done. Qed.

Lemma view_lookup_fd t fd :
  v_fds (view_of t) !! fd = lookupZ (fds t) fd ≫= view_fd.
Proof. apply lookup_array_map. Qed.
Lemma view_lookup_reserved t fd :
  v_reserved (view_of t) !! fd = lookupZ (fds t) fd ≫= view_reserved.
Proof. apply lookup_array_map. Qed.
Lemma view_lookup_ofd t i :
  1 <= i -> v_ofds (view_of t) !! i = lookupZ (ofds t) i ≫= view_ofd.
Proof. intros Hi. simpl. rewrite lookup_delete_ne by lia. apply lookup_array_map. Qed.

(** ** The handlers implement the POSIX operations

    The concrete updates of the handlers, seen through [view_of], are the
    operations on that view. *)

Section Refine.
Context {W : Type}.
Variable vtable : Z -> hl_linux_object_ops W.
#[local] Abbreviation hc := (has_close vtable).
#[local] Abbreviation table_inv := (table_inv hc).
#[local] Abbreviation table_wf := (table_wf hc).
#[local] Abbreviation slot_live := (slot_live hc).

Lemma slot_not_reserved t i : table_inv t -> i < ofd_capacity t -> i <> HL_LINUX_FD_RESERVED.
Proof.
  intros Hinv Hi ->. pose proof (inv_ofd_cap _ _ Hinv) as Hc. clear Hinv.
  unfold HL_LINUX_FD_RESERVED, UINT32_MAX, HL_LINUX_OFD_LIMIT in *. lia.
Qed.

Lemma view_fd_named t fe :
  table_inv t -> 1 <= fd_ofd fe < ofd_capacity t ->
  view_fd fe = Some (fd_ofd fe, descriptor_flags fe) /\ view_reserved fe = None.
Proof.
  intros Hinv Hr. pose proof (slot_not_reserved _ _ Hinv (proj2 Hr)).
  unfold view_fd, view_reserved. destruct (Z.eqb_spec (fd_ofd fe) 0); [lia|].
  by destruct (Z.eqb_spec (fd_ofd fe) HL_LINUX_FD_RESERVED).
Qed.

Lemma view_fd_Some t fd i df :
  table_inv t -> v_fds (view_of t) !! fd = Some (i, df) ->
  exists fe, lookupZ (fds t) fd = Some fe /\ fd_ofd fe = i /\ descriptor_flags fe = df /\
    1 <= i < ofd_capacity t.
Proof.
  intros Hinv. rewrite view_lookup_fd. destruct (lookupZ (fds t) fd) as [fe|] eqn:Hfe; [|done].
  simpl. unfold view_fd. destruct (_ || _) eqn:Hg; [done|]. intros [= <- <-].
  exists fe. split_and!; try done; bool_props;
    destruct (inv_fds _ _ Hinv _ _ Hfe) as [?|[?|[? ?]]]; done.
Qed.

(** Being named in the view is being counted in the table. *)
Lemma still_named_count t i :
  table_inv t -> 1 <= i < ofd_capacity t ->
  still_named (v_fds (view_of t)) i = negb (count_descriptors i (fds t) =? 0).
Proof.
  intros Hinv Hi. apply eq_true_iff_eq. rewrite still_named_true, negb_true_iff, Z.eqb_neq. split.
  - intros (fd & df & Hm). destruct (view_fd_Some _ _ _ _ Hinv Hm) as (fe & Hfe & <- & _).
    pose proof (count_descriptors_pos _ _ _ Hfe). lia.
  - intros Hc. destruct (countZ_exists _ _ Hc) as (fd & fe & Hfe & Hx). bool_props.
    exists fd, (descriptor_flags fe). rewrite view_lookup_fd, Hfe. simpl.
    destruct (view_fd_named t fe Hinv) as [-> _]; [lia|]. by rewrite Hx.
Qed.

(** The view is exact: a description is in the view when and only when some
    descriptor names it. *)
Lemma view_exact_lemma t i :
  table_inv t -> is_Some (v_ofds (view_of t) !! i) <-> still_named (v_fds (view_of t)) i = true.
Proof.
  intros Hinv. split.
  - intros [d Hd]. simpl in Hd. destruct (decide (i = 0)) as [->|Hne]; [by rewrite lookup_delete_eq in Hd|].
    rewrite lookup_delete_ne, lookup_array_map in Hd by done.
    destruct (lookupZ (ofds t) i) as [e|] eqn:He; [|done]. simpl in Hd. unfold view_ofd in Hd.
    destruct (Z.eqb_spec (references e) 0) as [|Hr]; [done|].
    pose proof (lookupZ_Some_range _ _ _ He). assert (Hi : 1 <= i) by lia.
    rewrite still_named_count by (done || unfold ofd_capacity; lia).
    destruct (inv_slot _ _ _ _ Hinv Hi He) as [Hc _ _].
    apply negb_true_iff, Z.eqb_neq. congruence.
  - intros (fd & df & Hm)%still_named_true.
    destruct (view_fd_Some _ _ _ _ Hinv Hm) as (fe & Hfe & <- & _ & Hr).
    destruct (lookupZ_is_Some (ofds t) (fd_ofd fe)) as [e He]; [unfold ofd_capacity in *; lia|].
    rewrite view_lookup_ofd by lia. rewrite He. simpl. unfold view_ofd.
    pose proof (live_refs _ _ (named_live _ _ _ _ _ Hinv Hfe (proj1 Hr) He)).
    destruct (Z.eqb_spec (references e) 0); [done|]. eauto.
Qed.

(** ** Each update *)

Lemma view_reserved_none_delete t fd fe :
  lookupZ (fds t) fd = Some fe -> view_reserved fe = None ->
  delete fd (v_reserved (view_of t)) = v_reserved (view_of t).
Proof. intros Hfe Hv. apply delete_id. by rewrite view_lookup_reserved, Hfe. Qed.

Lemma view_ofd_insert_id t i e d :
  1 <= i -> lookupZ (ofds t) i = Some e -> view_ofd e = Some d ->
  <[i := d]> (v_ofds (view_of t)) = v_ofds (view_of t).
Proof. intros Hi He Hd. apply insert_id. by rewrite view_lookup_ofd, He by done. Qed.

Lemma view_ofd_nonzero e : references e <> 0 -> view_ofd e = Some (describe e).
Proof. intros Hr. unfold view_ofd. by destruct (Z.eqb_spec (references e) 0). Qed.
Lemma view_ofd_live e : slot_live e -> view_ofd e = Some (describe e).
Proof. intros []. by apply view_ofd_nonzero. Qed.

Lemma view_dropped e :
  slot_live e ->
  view_ofd (dropped e) = (if references e =? 1 then None else view_ofd e) /\
  view_ofd (after_drop e) = (if references e =? 1 then None else view_ofd e).
Proof.
  intros Hl. pose proof (live_refs _ _ Hl). unfold after_drop, dropped, view_ofd.
  destruct (Z.eqb_spec (references e) 1) as [Hr|Hr]; simpl.
  - rewrite Hr. done.
  - destruct (Z.eqb_spec (references e - 1) 0), (Z.eqb_spec (references e) 0); done || lia.
Qed.

Lemma view_close t fd fe e :
  table_wf t -> lookupZ (fds t) fd = Some fe -> 1 <= fd_ofd fe < ofd_capacity t ->
  lookupZ (ofds t) (fd_ofd fe) = Some e -> slot_live e ->
  view_of (close_result t fd fe e) = posix_close fd (view_of t).
Proof.
  intros [Hinv _] Hfe Hr He Hl.
  destruct (view_fd_named t fe Hinv Hr) as [Hv Hvr].
  pose proof (lookupZ_Some_range _ _ _ Hfe) as Hfd.
  destruct (close_section_spec hc t fd fe e Hinv Hfe Hr He Hl) as [_ Hinv'].
  assert (Hm : v_fds (view_of t) !! fd = Some (fd_ofd fe, descriptor_flags fe))
    by (by rewrite view_lookup_fd, Hfe).
  unfold posix_close. rewrite Hm.
  unfold close_result. fold (after_drop e). rewrite view_put_ofd by done.
  rewrite view_put_fd by done. cbn [v_fds v_reserved v_ofds view_fd view_reserved fd_ofd].
  replace (view_fd _) with (@None (Z * Z)) by done.
  replace (view_reserved _) with (@None Z) by done.
  rewrite (view_reserved_none_delete t fd fe) by done.
  destruct (view_dropped e Hl) as [_ ->].
  assert (Hst : still_named (delete fd (v_fds (view_of t))) (fd_ofd fe) = negb (references e =? 1)).
  { pose proof (still_named_count _ (fd_ofd fe) Hinv') as Hc.
    rewrite view_put_ofd, view_put_fd in Hc by done. cbn [v_fds] in Hc.
    replace (view_fd _) with (@None (Z * Z)) in Hc by done.
    rewrite Hc by (unfold ofd_capacity in *; simpl; rewrite lengthZ_insertZ; done).
    assert (He' : lookupZ (ofds (put_ofd (fd_ofd fe) (dropped e)
      (put_fd fd (mk_fd 0 0 (u32 (fd_generation fe + 1))) t))) (fd_ofd fe) = Some (dropped e)).
    { simpl. apply lookupZ_insertZ_eq. by eapply lookupZ_Some_range. }
    destruct (inv_slot _ _ _ _ Hinv' (proj1 Hr) He') as [Hcount _ _].
    rewrite <- Hcount. destruct (dropped_fields e) as [-> _]. f_equal.
    destruct (Z.eqb_spec (references e - 1) 0), (Z.eqb_spec (references e) 1); done || lia. }
  rewrite Hst. f_equal. destruct (references e =? 1); cbn [negb]; [done|].
  rewrite (view_ofd_live e Hl). eapply view_ofd_insert_id; [lia|exact He|by apply view_ofd_live].
Qed.

Lemma view_linked t t' fd i dflags :
  table_inv t -> linked t t' fd i dflags ->
  view_of t' = posix_dup fd i dflags (view_of t).
Proof.
  intros Hinv (e & fe & He & Hr & Hi & Hfe & H0 & ->).
  pose proof (lookupZ_Some_range _ _ _ Hfe) as Hfd.
  pose proof (lookupZ_Some_range _ _ _ He) as Hofd.
  rewrite view_put_fd by done. rewrite view_put_ofd by (unfold ofd_capacity; lia).
  cbn [v_fds v_reserved v_ofds].
  destruct (view_fd_named t (mk_fd i dflags (u32 (fd_generation fe + 1))) Hinv) as [-> ->];
    [unfold ofd_capacity; simpl; lia|].
  unfold posix_dup. f_equal.
  - eapply view_reserved_none_delete; [done|]. unfold view_reserved. by rewrite H0.
  - pose proof (references_bounds _ _ _ _ Hinv Hi He).
    rewrite view_ofd_nonzero by (simpl; lia).
    change (describe (with_references ?r e)) with (describe e).
    eapply view_ofd_insert_id; [lia|exact He|by apply view_ofd_nonzero].
Qed.

Lemma view_published t t' fd i dflags f :
  table_inv t -> published t t' fd i dflags f ->
  (forall e, references (f e) = 1) ->
  (exists e, lookupZ (ofds t) i = Some e /\ slot_free e /\
     view_of t' = posix_open fd i dflags (describe (f e)) (view_of t)) /\
  v_fds (view_of t) !! fd = None /\ v_ofds (view_of t) !! i = None /\
  v_reserved (view_of t) !! fd = None.
Proof.
  intros Hinv (w & e & fe & He & Hfree & Hi & Hfe & H0 & ->) Hf.
  pose proof (lookupZ_Some_range _ _ _ Hfe) as Hfd.
  pose proof (lookupZ_Some_range _ _ _ He) as Hofd.
  split_and!.
  - exists e. split_and!; try done.
    rewrite view_put_fd by done.
    rewrite view_put_ofd by (unfold ofd_capacity; simpl; lia). rewrite view_set_watermark.
    cbn [v_fds v_reserved v_ofds].
    destruct (view_fd_named t (mk_fd i dflags (u32 (fd_generation fe + 1))) Hinv) as [-> ->];
      [unfold ofd_capacity; simpl; lia|].
    unfold posix_open. f_equal.
    + eapply view_reserved_none_delete; [done|]. unfold view_reserved. by rewrite H0.
    + unfold view_ofd. by rewrite Hf.
  - rewrite view_lookup_fd, Hfe. simpl. unfold view_fd. by rewrite H0.
  - rewrite view_lookup_ofd, He by done. simpl. unfold view_ofd. by rewrite (free_refs _ Hfree).
  - rewrite view_lookup_reserved, Hfe. simpl. unfold view_reserved. by rewrite H0.
Qed.

Lemma view_operated t t' fd P :
  table_inv t -> operated vtable t t' fd P ->
  exists i df o f e, v_fds (view_of t) !! fd = Some (i, df) /\
    lookupZ (ofds t) i = Some e /\ v_ofds (view_of t) !! i = Some (describe e) /\
    P e o f /\ view_of t' = posix_touch i o f (view_of t).
Proof.
  intros Hinv (fe & e & o & f & Hfe & Hr & He & Hl & HP & ->).
  destruct (view_fd_named t fe Hinv Hr) as [Hv _].
  pose proof (live_refs _ _ Hl) as Hne.
  assert (Hd : v_ofds (view_of t) !! fd_ofd fe = Some (describe e)).
  { rewrite view_lookup_ofd, He by lia. simpl. unfold view_ofd.
    by destruct (Z.eqb_spec (references e) 0). }
  exists (fd_ofd fe), (descriptor_flags fe), o, f, e. split_and!; try done.
  - by rewrite view_lookup_fd, Hfe.
  - rewrite view_put_ofd by done. unfold posix_touch. f_equal.
    rewrite view_ofd_nonzero by done. apply map_eq. intros j. destruct (decide (j = fd_ofd fe)) as [->|Hj].
    + rewrite lookup_insert_eq. rewrite lookup_alter_eq. by rewrite Hd.
    + by rewrite lookup_insert_ne, lookup_alter_ne by done.
Qed.

(** ** Replacement *)

Lemma view_replace t source sfe se target te e dflags :
  table_wf t -> source <> target ->
  lookupZ (fds t) source = Some sfe -> 1 <= fd_ofd sfe < ofd_capacity t ->
  lookupZ (ofds t) (fd_ofd sfe) = Some se -> slot_live se ->
  lookupZ (fds t) target = Some te -> 1 <= fd_ofd te < ofd_capacity t ->
  lookupZ (ofds t) (fd_ofd te) = Some e -> slot_live e ->
  view_of (replace_result t (fd_ofd sfe) target dflags te e se) =
    posix_dup2 source target dflags (view_of t).
Proof.
  intros Hwf Hne Hs Hsr Hse Hsl Ht Htr He Hl. pose proof Hwf as [Hinv _].
  destruct (view_fd_named t sfe Hinv Hsr) as [Hvs _].
  destruct (view_fd_named t te Hinv Htr) as [Hvt Hvtr].
  pose proof (lookupZ_Some_range _ _ _ Ht) as Htl.
  assert (Hms : v_fds (view_of t) !! source = Some (fd_ofd sfe, descriptor_flags sfe))
    by (by rewrite view_lookup_fd, Hs).
  assert (Hmt : v_fds (view_of t) !! target = Some (fd_ofd te, descriptor_flags te))
    by (by rewrite view_lookup_fd, Ht).
  unfold posix_dup2. rewrite Hms. rewrite <- (view_close t target te e) by done.
  unfold replace_result, close_result, posix_dup. fold (after_drop e).
  rewrite view_put_fd by (destruct (decide _); done).
  rewrite (view_put_ofd (put_fd _ _ _)) by done. rewrite view_put_fd by done.
  cbn [v_fds v_reserved v_ofds].
  destruct (view_fd_named t (mk_fd (fd_ofd sfe) dflags (u32 (fd_generation te + 1))) Hinv Hsr)
    as [-> ->].
  replace (view_fd (mk_fd 0 0 _)) with (@None (Z * Z)) by done.
  replace (view_reserved (mk_fd 0 0 _)) with (@None Z) by done.
  rewrite insert_delete_eq.
  assert (Hrd : delete target (v_reserved (view_of t)) = v_reserved (view_of t))
    by (by apply (view_reserved_none_delete t target te)).
  destruct (view_dropped e Hl) as [_ Hvd]. rewrite Hvd, Hrd.
  destruct (decide (fd_ofd sfe = fd_ofd te)) as [Heq|Hneq].
  - destruct (swapped_inv vtable t source sfe target te e se dflags) as [Hone _]; try done.
    f_equal; [exact Hrd|]. destruct (Z.eqb_spec (references e) 1); [by exfalso; apply Hone|].
    rewrite (view_ofd_live e Hl). symmetry.
    eapply view_ofd_insert_id; [lia|exact He|by apply view_ofd_live].
  - rewrite view_put_ofd by (unfold ofd_capacity in *; simpl; rewrite lengthZ_insertZ; done).
    rewrite view_put_ofd by done. cbn [v_fds v_reserved v_ofds].
    rewrite Hvd, ?Hrd. f_equal. rewrite view_ofd_nonzero.
    + change (describe (with_references ?r se)) with (describe se).
      assert (Hx : v_ofds (view_of t) !! fd_ofd sfe = Some (describe se)).
      { rewrite view_lookup_ofd, Hse by lia. by apply view_ofd_live. }
      apply insert_id. destruct (if references e =? 1 then _ else _).
      * by rewrite lookup_insert_ne by done.
      * by rewrite lookup_delete_ne by done.
    + simpl. pose proof (references_bounds _ _ _ _ Hinv (proj1 Hsr) Hse). lia.
Qed.

(** ** The exec sweep *)

Lemma candidate_view t k fe :
  lookupZ (fds t) k = Some fe -> cloexec_candidate fe = true ->
  view_fd fe = Some (fd_ofd fe, descriptor_flags fe) /\
  has_flag (descriptor_flags fe) HL_LINUX_FD_CLOEXEC = true /\ view_reserved fe = None.
Proof.
  intros Hfe. unfold cloexec_candidate, view_fd, view_reserved. intros Hc. bool_props.
  destruct (Z.eqb_spec (fd_ofd fe) 0), (Z.eqb_spec (fd_ofd fe) HL_LINUX_FD_RESERVED); done.
Qed.

Lemma not_candidate_view fe i df :
  cloexec_candidate fe = false -> view_fd fe = Some (i, df) ->
  has_flag df HL_LINUX_FD_CLOEXEC = false.
Proof.
  unfold cloexec_candidate, view_fd.
  destruct (fd_ofd fe =? 0), (fd_ofd fe =? HL_LINUX_FD_RESERVED); try done.
  simpl. by intros Hc [= _ <-].
Qed.

Lemma swept_lookup t t' k :
  swept vtable (fd_capacity t) t t' ->
  (lookupZ (fds t) k = None /\ lookupZ (fds t') k = None) \/
  (exists fe fe', lookupZ (fds t) k = Some fe /\ cloexec_candidate fe = true /\
     lookupZ (fds t') k = Some fe' /\ fd_ofd fe' = 0) \/
  (exists fe, lookupZ (fds t) k = Some fe /\ cloexec_candidate fe = false /\
     lookupZ (fds t') k = Some fe).
Proof.
  intros Hsw. destruct (lookupZ (fds t) k) as [fe|] eqn:Hfe.
  - right. destruct (cloexec_candidate fe) eqn:Hc.
    + left. pose proof (lookupZ_Some_range _ _ _ Hfe).
      destruct (swept_done _ _ _ _ Hsw k fe) as (fe' & ? & ?); try done;
        [unfold fd_capacity; lia|]. by exists fe, fe'.
    + right. exists fe. split_and!; try done. eapply swept_other; eauto.
  - left. split; [done|]. destruct (lookupZ (fds t') k) as [fe|] eqn:Hfe'; [|done].
    pose proof (lookupZ_Some_range _ _ _ Hfe') as Hr.
    pose proof (swept_cap _ _ _ _ Hsw) as Hcap. unfold fd_capacity in Hcap.
    destruct (lookupZ_is_Some (fds t) k) as [x Hx]; [lia|]. congruence.
Qed.

Lemma view_swept t t' :
  table_inv t -> swept vtable (fd_capacity t) t t' -> view_of t' = posix_exec (view_of t).
Proof.
  intros Hinv Hsw. pose proof (proj1 (swept_wf _ _ _ _ Hsw)) as Hinv'.
  assert (Hfds : v_fds (view_of t') =
    filter (fun p => has_flag (snd (snd p)) HL_LINUX_FD_CLOEXEC = false) (v_fds (view_of t))).
  { apply map_eq. intros k. rewrite map_lookup_filter, !view_lookup_fd.
    destruct (swept_lookup _ _ k Hsw) as [[-> ->]|[(fe & fe' & Hfe & Hc & -> & H0)|(fe & -> & Hc & ->)]].
    - done.
    - rewrite Hfe. simpl. destruct (candidate_view _ _ _ Hfe Hc) as (-> & Hf & _). simpl.
      unfold view_fd. rewrite H0. simpl. by rewrite option_guard_False by congruence.
    - simpl. destruct (view_fd fe) as [[i df]|] eqn:Hv; [|done]. simpl.
      pose proof (not_candidate_view _ _ _ Hc Hv). by rewrite option_guard_True. }
  unfold posix_exec. rewrite <- Hfds.
  assert (Hres : v_reserved (view_of t') = v_reserved (view_of t)).
  { apply map_eq. intros k. rewrite !view_lookup_reserved.
    destruct (swept_lookup _ _ k Hsw) as [[-> ->]|[(fe & fe' & Hfe & Hc & -> & H0)|(fe & -> & Hc & ->)]];
      try done.
    rewrite Hfe. simpl. destruct (candidate_view _ _ _ Hfe Hc) as (_ & _ & ->).
    unfold view_reserved. by rewrite H0. }
  assert (Hofds : v_ofds (view_of t') =
    filter (fun p => still_named (v_fds (view_of t')) (fst p) = true) (v_ofds (view_of t))).
  { apply map_eq. intros i. rewrite map_lookup_filter.
    pose proof (view_exact_lemma t' i Hinv') as Hex.
    destruct (v_ofds (view_of t') !! i) as [d|] eqn:Hd.
    - assert (Hd0 : v_ofds (view_of t) !! i = Some d).
      { simpl in Hd |- *. destruct (decide (i = 0)) as [->|Hne]; [by rewrite lookup_delete_eq in Hd|].
        rewrite lookup_delete_ne, lookup_array_map in * by done.
        destruct (lookupZ (ofds t') i) as [e'|] eqn:He'; [|done]. simpl in Hd. unfold view_ofd in Hd.
        destruct (Z.eqb_spec (references e') 0); [done|].
        destruct (swept_slots _ _ _ _ Hsw i e' He') as (e & He & Hr & Heq); [done|].
        rewrite He. simpl. rewrite view_ofd_nonzero by done. rewrite <- Hd. f_equal.
        by rewrite Heq. }
      rewrite Hd0. simpl. by rewrite option_guard_True by (apply Hex; eauto).
    - destruct (v_ofds (view_of t) !! i); [|done]. simpl. rewrite option_guard_False; [done|].
      intros Hn. apply Hex in Hn as [? ?]. done. }
  rewrite <- Hofds, <- Hres. by destruct (view_of t').
Qed.

(** ** Reservations *)

Lemma view_reserve t fd fe :
  lookupZ (fds t) fd = Some fe -> fd_ofd fe = 0 ->
  view_of (reserve_result t fd fe) = posix_reserve fd (u32 (fd_generation fe + 1)) (view_of t).
Proof.
  intros Hfe H0. unfold reserve_result. rewrite view_set_reserved.
  rewrite view_put_fd by (by apply lookupZ_Some_range in Hfe).
  unfold posix_reserve. f_equal. simpl. apply delete_id.
  rewrite lookup_array_map, Hfe. simpl. unfold view_fd. by rewrite H0.
Qed.

Lemma view_cancel t fd fe :
  lookupZ (fds t) fd = Some fe -> fd_ofd fe = HL_LINUX_FD_RESERVED ->
  view_of (cancel_result t fd fe) = posix_cancel fd (view_of t).
Proof.
  intros Hfe H0. unfold cancel_result. rewrite view_set_reserved.
  rewrite view_put_fd by (by apply lookupZ_Some_range in Hfe).
  unfold posix_cancel. f_equal. simpl. apply delete_id.
  rewrite lookup_array_map, Hfe. simpl. unfold view_fd. by rewrite H0.
Qed.

Lemma view_committed t t' fd i dflags f :
  table_inv t -> committed t t' fd i dflags f -> (forall e, references (f e) = 1) ->
  exists e, lookupZ (ofds t) i = Some e /\ slot_free e /\
    view_of t' = posix_commit fd i dflags (describe (f e)) (view_of t).
Proof.
  intros Hinv (w & e & fe & He & Hfree & Hi & Hfe & H0 & ->) Hf.
  pose proof (lookupZ_Some_range _ _ _ Hfe) as Hfd.
  pose proof (lookupZ_Some_range _ _ _ He) as Hofd.
  exists e. split_and!; try done.
  rewrite view_set_reserved, view_put_fd by done.
  rewrite view_put_ofd by (unfold ofd_capacity; simpl; lia). rewrite view_set_watermark.
  cbn [v_fds v_reserved v_ofds].
  destruct (view_fd_named t (mk_fd i dflags (fd_generation fe)) Hinv) as [-> ->];
    [unfold ofd_capacity; simpl; lia|].
  unfold posix_commit, posix_open, posix_cancel. f_equal.
  rewrite view_ofd_nonzero by (by rewrite Hf). done.
Qed.
End Refine.
