(* ===== verification/FdCalls.v ===== *)
(** * The interface as one datatype

    Every entry point of the descriptor table as a constructor, its execution,
    and the composition of the per-handler lemmas: any sequence of calls from a
    well-formed table returns and leaves a well-formed table.  The sequence
    theorem itself is in FdTheorems.v. *)

From stdpp Require Import gmap.
From S2P Require Import Prelude Status Host FdTable Machine FdOps FdControl FdIO FdInvariant.
From S2P Require Import FdSections FdHandlers FdTransfer FdRefine.
From S2P Require Import FdRefine.

(** ** The calls of the interface *)

Inductive api_call :=
| CallInstall (handle flags dflags : Z) (out : option Z)
| CallInstallAt (fd handle flags dflags : Z)
| CallObjectInstall (ops context kind flags dflags : Z) (out : option Z)
| CallObjectInstallAt (fd ops context kind flags dflags : Z)
| CallReserveAt (fd : Z) (out : option hl_linux_fd_reservation)
| CallCancel (token : option hl_linux_fd_reservation)
| CallCommit (token : hl_linux_fd_reservation) (handle flags dflags : Z)
| CallFdDup (fd dflags : Z) (out : option Z)
| CallFdClose (fd : Z) (last : option Z)
| CallClose (fd : Z)
| CallDup (fd : Z)
| CallDup2 (source target : Z)
| CallDup3 (source target flags : Z)
| CallFcntl (fd command argument : Z)
| CallExec (fd : Z)
| CallExecAll
| CallRead (fd buffer size : Z)
| CallWrite (fd buffer size : Z)
| CallPread (fd buffer size offset : Z)
| CallPwrite (fd buffer size offset : Z)
| CallVector (fd : Z) (null : bool) (vectors : list hl_host_iovec) (offset operation : Z)
| CallFtruncate (fd size : Z)
| CallFsync (fd : Z)
| CallFdatasync (fd : Z)
| CallSyncRange (fd offset size flags : Z)
| CallSyncFilesystem (fd : Z)
| CallFstat (fd : Z) (output : option hl_linux_file_status)
| CallLseek (fd offset whence : Z)
| CallOpenat (directory : Z) (path : option (list Z)) (flags mode : Z)
| CallOpenatReserved (token : option hl_linux_fd_reservation) (directory : Z)
    (path : option (list Z)) (flags mode : Z)
| CallOpenatHandleReserved (token : option hl_linux_fd_reservation) (handle : Z)
    (path : option (list Z)) (flags mode : Z)
| CallAdoptReserved (token : option hl_linux_fd_reservation) (file flags : Z).

(** The unsigned arguments that index the table are not negative. *)
Definition token_ok (token : option hl_linux_fd_reservation) : bool :=
  match token with Some r => 0 <=? rsv_fd r | None => true end.
Definition call_ok (c : api_call) : bool :=
  match c with
  | CallInstallAt fd _ _ _ | CallObjectInstallAt fd _ _ _ _ _ | CallReserveAt fd _ => 0 <=? fd
  | CallCancel token => token_ok token
  | CallFcntl _ _ argument => 0 <=? argument
  | CallRead _ _ size => 0 <=? size
  | _ => true
  end.

Section Theorems.
Context {W : Type}.
Variable host : hl_host_services W.
Variable vtable : Z -> hl_linux_object_ops W.

(** One call, its result discarded; the sweep is given one step per descriptor. *)
Definition run_call (c : api_call) : M W unit :=
  match c with
  | CallInstall handle flags dflags out =>
      let! _ := hl_linux_fd_install host handle flags dflags out in ret tt
  | CallInstallAt fd handle flags dflags =>
      let! _ := hl_linux_fd_install_at host fd handle flags dflags in ret tt
  | CallObjectInstall ops context kind flags dflags out =>
      let! _ := hl_linux_object_install host vtable ops context kind flags dflags out in ret tt
  | CallObjectInstallAt fd ops context kind flags dflags =>
      let! _ := hl_linux_object_install_at host vtable fd ops context kind flags dflags in ret tt
  | CallReserveAt fd out => let! _ := hl_linux_fd_reserve_at fd out in ret tt
  | CallCancel token => let! _ := hl_linux_fd_cancel token in ret tt
  | CallCommit token handle flags dflags =>
      let! _ := hl_linux_fd_commit host token handle flags dflags in ret tt
  | CallFdDup fd dflags out => let! _ := hl_linux_fd_dup fd dflags out in ret tt
  | CallFdClose fd last => let! _ := hl_linux_fd_close host vtable 0 fd last in ret tt
  | CallClose fd => let! _ := hl_linux_close host vtable 0 fd in ret tt
  | CallDup fd => let! _ := hl_linux_dup fd in ret tt
  | CallDup2 source target => let! _ := hl_linux_dup2 host vtable 0 source target in ret tt
  | CallDup3 source target flags =>
      let! _ := hl_linux_dup3 host vtable 0 source target flags in ret tt
  | CallFcntl fd command argument =>
      let! _ := hl_linux_fcntl host vtable fd command argument in ret tt
  | CallExec fd => let! _ := hl_linux_fd_exec host vtable 0 fd (Some 0) in ret tt
  | CallExecAll =>
      let! t := get_tbl in
      let! _ := hl_linux_fd_exec_all host vtable (Z.to_nat (fd_capacity t)) 0 None (Some 0) in
      ret tt
  | CallRead fd buffer size => let! _ := hl_linux_read host vtable fd buffer size in ret tt
  | CallWrite fd buffer size => let! _ := hl_linux_write host vtable fd buffer size in ret tt
  | CallPread fd buffer size offset =>
      let! _ := hl_linux_pread64 host fd buffer size offset in ret tt
  | CallPwrite fd buffer size offset =>
      let! _ := hl_linux_pwrite64 host fd buffer size offset in ret tt
  | CallVector fd null vectors offset operation =>
      let! _ := hl_linux_vector host fd null vectors offset operation in ret tt
  | CallFtruncate fd size => let! _ := hl_linux_ftruncate host fd size in ret tt
  | CallFsync fd => let! _ := hl_linux_fsync host fd in ret tt
  | CallFdatasync fd => let! _ := hl_linux_fdatasync host fd in ret tt
  | CallSyncRange fd offset size flags =>
      let! _ := hl_linux_sync_range host fd offset size flags in ret tt
  | CallSyncFilesystem fd => let! _ := hl_linux_sync_filesystem host fd in ret tt
  | CallFstat fd output => let! _ := hl_linux_fstat host vtable fd output in ret tt
  | CallLseek fd offset whence => let! _ := hl_linux_lseek host fd offset whence in ret tt
  | CallOpenat directory path flags mode =>
      let! _ := hl_linux_openat host directory path flags mode in ret tt
  | CallOpenatReserved token directory path flags mode =>
      let! _ := hl_linux_openat_reserved host token directory path flags mode in ret tt
  | CallOpenatHandleReserved token handle path flags mode =>
      let! _ := hl_linux_openat_handle_reserved host token handle path flags mode in ret tt
  | CallAdoptReserved token file flags =>
      let! _ := hl_linux_file_adopt_reserved host token file flags in ret tt
  end.

Fixpoint run_calls (l : list api_call) : M W unit :=
  match l with
  | [] => ret tt
  | c :: l' => run_call c ;;! run_calls l'
  end.

Context `{!HostReady host}.
#[local] Abbreviation table_wf := (table_wf (has_close vtable)).

Lemma wp_discard {A} (c : M W A) (Q : unit -> machine W -> Prop) s :
  wp c (fun _ s' => Q tt s') s -> wp (let! _ := c in ret tt) Q s.
Proof. intros Hc. apply wp_bind. eapply wp_mono; [exact Hc|]. intros a s' HQ. by apply wp_ret. Qed.

(** Installations under [run_call]. *)
Lemma wp_openat_wf reservation directory_fd direct path flags mode (s : machine W) :
  table_wf (tbl s) ->
  wp (hl_linux_openat_install host reservation directory_fd direct path flags mode)
    (fun _ s' => table_wf (tbl s')) s.
Proof.
  intros Hwf. eapply (wp_openat host vtable); try done.
  intros r s' -> _. done.
Qed.

Lemma run_call_total c (s : machine W) :
  table_wf (tbl s) -> call_ok c = true -> wp (run_call c) (fun _ s' => table_wf (tbl s')) s.
Proof.
  intros Hwf Hok. destruct c; simpl in Hok |- *;
    lazymatch goal with |- wp (bind get_tbl _) _ _ => idtac | _ => apply wp_discard end.
  - eapply (wp_fd_install host vtable); try done. intros ? ? ? _ ->. done.
  - eapply (wp_fd_install_at host vtable); try done; [lia|]. intros ? ? _ ->. done.
  - eapply (wp_object_install_common host vtable); try done. intros ? ? ? _ ->. done.
  - unfold hl_linux_object_install_at. apply wp_bind.
    eapply (wp_object_install_common host vtable); try done; [lia| |].
    + intros ? ? ? _ Ht. apply wp_ret. by rewrite Ht.
    + intros. by apply wp_ret.
  - eapply (wp_fd_reserve_at vtable); try done; [lia|]. intros ? ? ? _ ->. done.
  - eapply (wp_fd_cancel vtable); try done.
    + destruct token; [|done]. simpl in Hok. lia.
    + intros ? ? _ -> _. done.
  - eapply (wp_fd_commit host vtable); try done. intros ? ? _ ->. done.
  - eapply (wp_fd_dup vtable); try done. intros ? ? ? _ ->. done.
  - eapply (wp_fd_close host vtable); try done.
  - eapply (wp_close host vtable); try done.
  - by eapply (wp_fd_dup_at_least vtable).
  - by eapply (wp_fd_replace host vtable).
  - unfold hl_linux_dup3. destruct (negb _); [by apply wp_ret|].
    by eapply (wp_fd_replace host vtable).
  - eapply (wp_fcntl host vtable); try done; [lia| |].
    + intros ? ? _ ->. done.
    + intros ? ? _ Ho. by eapply operated_wf.
  - eapply (wp_fd_exec host vtable); try done. intros ? ? _ ->. done.
  - apply wp_bind, wp_get_tbl, wp_discard.
    eapply (wp_fd_exec_all host vtable); try done. intros ? ? ? Hsw. apply (swept_wf _ _ _ _ Hsw).
  - eapply wp_mono; [eapply (wp_read host vtable); [done|lia]|]. intros. by eapply io_post_wf.
  - eapply wp_mono; [by eapply (wp_write host vtable)|]. intros. by eapply io_post_wf.
  - eapply wp_mono; [by eapply (wp_pread64 host vtable)|]. intros. by eapply io_post_wf.
  - eapply wp_mono; [by eapply (wp_pwrite64 host vtable)|]. intros. by eapply io_post_wf.
  - eapply wp_mono; [by eapply (wp_vector host vtable)|]. intros. by eapply io_post_wf.
  - eapply wp_mono; [by eapply (wp_file_control host vtable)|]. intros. by eapply io_post_wf.
  - eapply wp_mono; [by eapply (wp_file_control host vtable)|]. intros. by eapply io_post_wf.
  - eapply wp_mono; [by eapply (wp_file_control host vtable)|]. intros. by eapply io_post_wf.
  - eapply wp_mono; [by eapply (wp_sync_range host vtable)|]. intros. by eapply io_post_wf.
  - eapply wp_mono; [by eapply (wp_extended_sync host vtable)|]. intros. by eapply io_post_wf.
  - by eapply (wp_fstat host vtable).
  - eapply wp_mono; [by eapply (wp_lseek host vtable)|]. intros. by eapply io_post_wf.
  - by apply wp_openat_wf.
  - destruct token; [|by apply wp_ret]. by apply wp_openat_wf.
  - unfold hl_linux_openat_handle_reserved. destruct token; [|by apply wp_ret].
    destruct (_ =? _); [by apply wp_ret|]. by apply wp_openat_wf.
  - unfold hl_linux_file_adopt_reserved. destruct token; [|by apply wp_ret].
    destruct (_ =? _); [by apply wp_ret|]. apply wp_bind.
    eapply (wp_fd_commit host vtable); try done.
    + intros ? ? _ Ht. apply wp_ret. by rewrite Ht.
    + intros. by apply wp_ret.
Qed.

Lemma run_calls_total l (s : machine W) :
  table_wf (tbl s) -> forallb call_ok l = true ->
  wp (run_calls l) (fun _ s' => table_wf (tbl s')) s.
Proof.
  revert s. induction l as [|c l IH]; intros s Hwf Hok; [by apply wp_ret|].
  simpl in Hok |- *. apply andb_prop in Hok as [Hc Hl]. apply wp_bind.
  eapply wp_mono; [by apply run_call_total|]. intros u s' Hwf'. by apply IH.
Qed.
End Theorems.

(** ** The initial table *)

Lemma zeroed_wf has_close n m :
  0 < Z.of_nat n <= HL_LINUX_FD_LIMIT -> 2 <= Z.of_nat m <= HL_LINUX_OFD_LIMIT ->
  FdInvariant.table_wf has_close
    (mk_abi HL_LINUX_ABI_VERSION (replicate n zero_fd) (replicate m zero_ofd) 0 0).
Proof.
  intros Hn Hm.
  assert (Hz : forall A (x y : A) k i, lookupZ (replicate k x) i = Some y -> y = x).
  { clear. intros A x y k i. unfold lookupZ. destruct (0 <=? i); [|done].
    intros H%list_elem_of_lookup_2. by apply elem_of_replicate in H as [? _]. }
  assert (Hlen : forall A (x : A) k, lengthZ (replicate k x) = Z.of_nat k).
  { intros A x k. unfold lengthZ. by rewrite length_replicate. }
  assert (Hcount : forall i, i <> 0 -> count_descriptors i (replicate n zero_fd) = 0).
  { intros i Hi. apply countZ_zero. intros j x ->%Hz. change (fd_ofd zero_fd) with 0. apply Z.eqb_neq. lia. }
  assert (Hfree : slot_free zero_ofd) by (by repeat split).
  split.
  - constructor; unfold fd_capacity, ofd_capacity; simpl; rewrite ?Hlen; try done; try lia.
    + intros fd e ->%Hz. by left.
    + intros i e Hi ->%Hz. split; [|done]. constructor; [|done|by do 2 right].
      rewrite Hcount by lia. done.
    + by rewrite Hcount.
  - intros i e _ ->%Hz. done.
Qed.
