(* ===== verification/Demo.v ===== *)
(** * A concrete host

    The parameters of the model instantiated by functions: a host whose calls
    all succeed and whose world is a counter of host calls.  The witnesses of
    the theorems run the handlers on it. *)

From S2P Require Import Prelude Status Host FdTable Machine FdOps FdControl FdIO FdInvariant.
From S2P Require Import FdSections FdHandlers FdCalls.

Definition demo_ok (v : Z) (w : Z) : hl_host_result * Z := (mk_result HL_STATUS_OK v 0, w + 1).

Definition demo_metadata : hl_host_file_metadata :=
  mk_metadata 1 2 4096 4096 0 0 0 0 0 1 HL_HOST_FILE_TYPE_REGULAR 420 0 0.

Definition demo_sync : hl_host_sync_services Z :=
  mk_sync HL_HOST_SYNC_ABI sizeof_sync_services
    (Some (fun w => demo_ok (1000 + w) w)) (Some (fun _ => demo_ok 0)) (Some (fun _ => demo_ok 0))
    (Some (fun _ => demo_ok 0)) (Some (demo_ok 0)) (Some (demo_ok 0)) (Some (demo_ok 0)).

Definition demo_file : hl_host_file_services Z :=
  {| file_abi := HL_HOST_FILE_ABI;
     file_size := sizeof_file_services;
     f_open_relative := Some (fun _ _ _ _ _ w => demo_ok (100 + w) w);
     f_read_at := Some (fun _ _ _ size => demo_ok size);
     f_write_at := Some (fun _ _ _ size => demo_ok size);
     f_append := Some (fun _ _ size => demo_ok size);
     f_metadata := Some (fun _ w => ((mk_result HL_STATUS_OK 0 0, demo_metadata), w + 1));
     f_close := Some (fun _ => demo_ok 0);
     f_read := Some (fun _ _ size => demo_ok (Z.min size 5));
     f_write := Some (fun _ _ size => demo_ok size);
     f_clone_for_fork := Some (fun h => demo_ok (h + 500));
     f_seek := Some (fun _ offset _ => demo_ok offset);
     f_readv := Some (fun _ _ => demo_ok 0);
     f_writev := Some (fun _ _ => demo_ok 0);
     f_readv_at := Some (fun _ _ _ => demo_ok 0);
     f_writev_at := Some (fun _ _ _ => demo_ok 0);
     f_appendv := Some (fun _ _ => demo_ok 0);
     f_truncate := Some (fun _ _ => demo_ok 0);
     f_sync := Some (fun _ => demo_ok 0);
     f_data_sync := Some (fun _ => demo_ok 0);
     f_sync_range := Some (fun _ _ _ _ => demo_ok 0);
     f_sync_filesystem := Some (fun _ => demo_ok 0) |}.

Definition demo_stream : hl_host_stream_services Z :=
  mk_stream HL_HOST_STREAM_ABI sizeof_stream_services (Some (fun _ flags => demo_ok flags)).

Definition demo_host : hl_host_services Z :=
  mk_services (HL_HOST_CAP_FILE + HL_HOST_CAP_SYNC + HL_HOST_CAP_STREAM)
    (Some demo_file) (Some demo_sync) (Some demo_stream).

(** One object adapter, at address 7, that can be read and closed. *)
Definition demo_vtable (ops : Z) : hl_linux_object_ops Z :=
  if ops =? 7 then
    mk_object_ops 1 (Some (fun _ _ size w => (size, w))) None None None None None
      (Some (fun c w => ((HL_STATUS_OK, c + 1), w))) (Some (fun _ w => (HL_STATUS_OK, w)))
  else mk_object_ops 0 None None None None None None None None.

#[export] Instance demo_ready : HostReady demo_host.
Proof.
  refine (@Build_HostReady Z demo_host demo_sync _ _ _ _ eq_refl eq_refl eq_refl eq_refl eq_refl _).
  intros f. unfold hl_linux_files. cbn. intros [= <-]. split; eexists; reflexivity.
Defined.

Definition demo_table : hl_linux_abi :=
  mk_abi HL_LINUX_ABI_VERSION (replicate 8 zero_fd) (replicate 8 zero_ofd) 0 0.
Definition demo_start : machine Z := mk_machine demo_table 0 77 1 0 0.

(** The machine after a script. *)
Definition demo_after (l : list api_call) : machine Z :=
  match run_calls demo_host demo_vtable l demo_start with
  | Some (_, s) => s
  | None => demo_start
  end.

Lemma demo_after_wf l :
  forallb call_ok l = true -> table_wf (has_close demo_vtable) (tbl (demo_after l)).
Proof.
  intros Hok. unfold demo_after.
  assert (Hwf : table_wf (has_close demo_vtable) (tbl demo_start)).
  { apply zeroed_wf; unfold HL_LINUX_FD_LIMIT, HL_LINUX_OFD_LIMIT; lia. }
  destruct (run_calls_total demo_host demo_vtable l demo_start Hwf Hok) as (u & s & -> & Hs).
  exact Hs.
Qed.
