(* ===== verification/FdTheorems.v ===== *)
(** * The descriptor table: what holds of it

    The properties of the descriptor component, over the handlers themselves:
    totality and preservation of the ownership invariant by any sequence of
    calls, refinement of the POSIX operations of FdRefine.v, transfers and
    offsets, reservations, the self-check; each with an instance on Demo.v. *)

From stdpp Require Import gmap.
From S2P Require Import Prelude Status Host FdTable Machine FdOps FdControl FdIO FdInvariant.
From S2P Require Import FdSections FdHandlers FdTransfer FdRefine.
From S2P Require Import FdRefine FdCalls Demo.

(** ** The self-check (hl_linux_abi_validate_fds) *)

(** What the self-check is meant to establish, stated without its loops. *)
Record ownership (t : hl_linux_abi) : Prop := mk_ownership {
  own_fds : forall fd e, lookupZ (fds t) fd = Some e ->
    fd_ofd e = 0 \/ fd_ofd e = HL_LINUX_FD_RESERVED \/ fd_ofd e < ofd_capacity t;
  own_counts : forall i e, 1 <= i -> lookupZ (ofds t) i = Some e ->
    references e = count_descriptors i (fds t);
  own_live : forall i e, 1 <= i -> lookupZ (ofds t) i = Some e -> references e <> 0 ->
    (object_ops e =? 0) = negb (host_handle e =? HL_HOST_HANDLE_INVALID) /\
    (object_ops e <> 0 -> object_context e <> 0) /\
    io_mutex e <> HL_HOST_HANDLE_INVALID /\ closing e = 0;
  own_free : forall i e, 1 <= i -> lookupZ (ofds t) i = Some e ->
    references e = 0 -> active_operations e = 0 ->
    host_handle e = HL_HOST_HANDLE_INVALID /\ io_mutex e = HL_HOST_HANDLE_INVALID /\
    closing e = 0 /\ object_ops e = 0 /\ object_context e = 0
}.

Lemma validate_descriptors_spec cap l : forall seen,
  lengthZ seen + lengthZ l <= HL_LINUX_FD_LIMIT ->
  validate_descriptors cap seen l = true <->
  forall fd e, lookupZ l fd = Some e ->
    fd_ofd e = 0 \/ fd_ofd e = HL_LINUX_FD_RESERVED \/ fd_ofd e < cap.
Proof.
  assert (Hcons : forall (P : hl_linux_fd_entry -> Prop) x l',
    (forall fd e, lookupZ (x :: l') fd = Some e -> P e) <->
    P x /\ forall fd e, lookupZ l' fd = Some e -> P e).
  { intros P x l'. split.
    - intros H. split; [by apply (H 0)|]. intros fd e He. apply (H (fd + 1)).
      pose proof (lookupZ_Some_range _ _ _ He). rewrite lookupZ_cons_succ by lia.
      by replace (fd + 1 - 1) with fd by lia.
    - intros [Hx Hl] fd e He. pose proof (lookupZ_Some_range _ _ _ He).
      destruct (decide (fd = 0)) as [->|]; [by injection He as <-|].
      rewrite lookupZ_cons_succ in He by lia. by eapply Hl. }
  induction l as [|x l IH]; intros seen Hlen; simpl.
  - split; [|done]. intros _ fd e He. apply lookupZ_Some_range in He. unfold lengthZ in He. simpl in He. lia.
  - rewrite lengthZ_cons in Hlen. rewrite Hcons.
    assert (Hseen : lengthZ (seen ++ [x]) = lengthZ seen + 1)
      by (unfold lengthZ; rewrite length_app; simpl; lia).
    destruct (_ || _) eqn:Hg.
    + rewrite IH by lia. apply orb_true_iff in Hg as [Hz%Z.eqb_eq|Hz%Z.eqb_eq]; rewrite Hz; tauto.
    + apply orb_false_elim in Hg as [H0%Z.eqb_neq Hr%Z.eqb_neq].
      destruct (_ || _) eqn:Hc.
      * apply orb_true_iff in Hc as [Hc|Hc]; bool_props; [split; [done|lia]|].
        exfalso. pose proof (countZ_bounds (fun e => fd_ofd e =? fd_ofd x) seen) as Hb.
        pose proof (lengthZ_nonneg l). clear Hcons IH. unfold count_descriptors in Hc. rewrite Hc in Hb.
        unfold UINT32_MAX, HL_LINUX_FD_LIMIT in *. lia.
      * bool_props. rewrite IH by lia. split; [|tauto]. intros Hl. split; [lia|done].
Qed.

Lemma validate_ofds_spec f l : forall i,
  validate_ofds f i l = true <->
  forall j e, lookupZ l j = Some e -> ofd_inconsistent (count_descriptors (i + j) f) e = false.
Proof.
  induction l as [|x l IH]; intros i; simpl.
  - split; [|done]. intros _ j e He. apply lookupZ_Some_range in He. unfold lengthZ in He. simpl in He. lia.
  - destruct (ofd_inconsistent _ x) eqn:Hx.
    + split; [done|]. intros H. specialize (H 0 x eq_refl). rewrite Z.add_0_r in H. congruence.
    + rewrite IH. split.
      * intros H j e He. pose proof (lookupZ_Some_range _ _ _ He).
        destruct (decide (j = 0)) as [->|]; [injection He as <-; by rewrite Z.add_0_r|].
        rewrite lookupZ_cons_succ in He by lia. specialize (H _ _ He).
        by replace (i + 1 + (j - 1)) with (i + j) in H by lia.
      * intros H j e He. pose proof (lookupZ_Some_range _ _ _ He).
        replace (i + 1 + j) with (i + (j + 1)) by lia. apply H.
        rewrite lookupZ_cons_succ by lia. by replace (j + 1 - 1) with j by lia.
Qed.

Lemma ofd_consistent_spec n e :
  ofd_inconsistent n e = false <->
  references e = n /\
  (references e <> 0 ->
     (object_ops e =? 0) = negb (host_handle e =? HL_HOST_HANDLE_INVALID) /\
     (object_ops e <> 0 -> object_context e <> 0) /\
     io_mutex e <> HL_HOST_HANDLE_INVALID /\ closing e = 0) /\
  (references e = 0 -> active_operations e = 0 ->
     host_handle e = HL_HOST_HANDLE_INVALID /\ io_mutex e = HL_HOST_HANDLE_INVALID /\
     closing e = 0 /\ object_ops e = 0 /\ object_context e = 0).
Proof.
  unfold ofd_inconsistent, HL_HOST_HANDLE_INVALID.
  destruct (Z.eqb_spec (references e) n), (Z.eqb_spec (references e) 0),
    (Z.eqb_spec (active_operations e) 0), (Z.eqb_spec (object_ops e) 0),
    (Z.eqb_spec (host_handle e) 0), (Z.eqb_spec (object_context e) 0),
    (Z.eqb_spec (io_mutex e) 0), (Z.eqb_spec (closing e) 0); cbn [Bool.eqb negb andb orb];
    (split; [intros Hx; try discriminate Hx|intros (H1 & H2 & H3); try reflexivity]);
    try (split; [|split]); intuition (done || lia).
Qed.

Lemma validate_ownership t :
  abi_version t = HL_LINUX_ABI_VERSION -> fd_capacity t <= HL_LINUX_FD_LIMIT ->
  hl_linux_abi_validate_fds true t = HL_STATUS_OK <-> ownership t.
Proof.
  intros Hv Hcap. unfold hl_linux_abi_validate_fds. rewrite Hv. simpl.
  pose proof (validate_descriptors_spec (ofd_capacity t) (fds t) []) as Hd.
  pose proof (validate_ofds_spec (fds t) (drop 1 (ofds t)) 1) as Ho.
  assert (Hslots : (forall j e, lookupZ (drop 1 (ofds t)) j = Some e ->
      ofd_inconsistent (count_descriptors (1 + j) (fds t)) e = false) <->
    (forall i e, 1 <= i -> lookupZ (ofds t) i = Some e ->
      ofd_inconsistent (count_descriptors i (fds t)) e = false)).
  { split; intros H.
    - intros i e Hi He. replace i with (1 + (i - 1)) by lia. apply H.
      rewrite lookupZ_drop by lia. by replace (Z.of_nat 1 + (i - 1)) with i by lia.
    - intros j e He. pose proof (lookupZ_Some_range _ _ _ He). apply H; [lia|].
      by rewrite lookupZ_drop in He by lia. }
  destruct (validate_descriptors _ _ _); simpl.
  2: { split; [done|]. intros [Hf _ _ _]. exfalso.
       assert (Hx : false = true) by (apply Hd; [unfold fd_capacity, lengthZ in *; simpl in *; lia|done]).
       done. }
  destruct (validate_ofds _ _ _); simpl.
  - split; [intros _|done]. assert (Hall := proj1 Hslots (proj1 Ho eq_refl)).
    constructor.
    + apply Hd; [unfold fd_capacity, lengthZ in *; simpl in *; lia|done].
    + intros i e Hi He. by destruct (proj1 (ofd_consistent_spec _ _) (Hall i e Hi He)).
    + intros i e Hi He. by destruct (proj1 (ofd_consistent_spec _ _) (Hall i e Hi He)) as (_ & ? & _).
    + intros i e Hi He. by destruct (proj1 (ofd_consistent_spec _ _) (Hall i e Hi He)) as (_ & _ & ?).
  - split; [done|]. intros [_ Hc Hl Hf]. exfalso.
    assert (Hx : false = true); [|done]. apply Ho, Hslots. intros i e Hi He.
    apply ofd_consistent_spec. split; [by apply Hc|]. split; [by eapply Hl|by eapply Hf].
Qed.

(** ** Status flags *)

Lemma setfl_bits current argument f :
  f = current \/ f = setfl_requested current argument \/
  (exists effective, f = setfl_recorded (setfl_requested current argument) effective) ->
  Z.ldiff f HL_LINUX_O_SETFL = Z.ldiff current HL_LINUX_O_SETFL /\
  (f = current \/ Z.testbit f 10 = Z.testbit argument 10).
Proof.
  assert (Hsub : forall n, Z.testbit HL_LINUX_O_SETFL n = false ->
    Z.testbit HL_LINUX_O_SETFL_HOST n = false).
  { intros n Hn. replace HL_LINUX_O_SETFL with (Z.lor HL_LINUX_O_SETFL_HOST HL_LINUX_O_APPEND) in Hn
      by reflexivity. rewrite Z.lor_spec in Hn. by apply orb_false_elim in Hn as [? _]. }
  assert (H10 : Z.testbit (u32 argument) 10 = Z.testbit argument 10).
  { unfold u32. rewrite Z.mod_pow2_bits_low; [done|lia]. }
  intros [->|[->|[effective ->]]]; [split; [done|by left]| |]; (split; [|right]).
  1, 3: apply Z.bits_inj'; intros n Hn; unfold setfl_recorded, setfl_requested;
    repeat rewrite ?Z.ldiff_spec, ?Z.lor_spec, ?Z.land_spec;
    specialize (Hsub n); destruct (Z.testbit HL_LINUX_O_SETFL n);
    [by rewrite !andb_false_r|try rewrite (Hsub eq_refl)];
    by rewrite ?andb_true_r, ?andb_false_r, ?orb_false_r.
  all: unfold setfl_recorded, setfl_requested;
    repeat rewrite ?Z.ldiff_spec, ?Z.lor_spec, ?Z.land_spec;
    replace (Z.testbit HL_LINUX_O_SETFL 10) with true by reflexivity;
    try replace (Z.testbit HL_LINUX_O_SETFL_HOST 10) with false by reflexivity;
    cbn [negb]; rewrite ?andb_false_r, ?andb_true_r, ?orb_false_r; exact H10.
Qed.

(** ** The properties *)

Section Properties.
Context {W : Type}.
Variable host : hl_host_services W.
Variable vtable : Z -> hl_linux_object_ops W.
Context `{!HostReady host}.
#[local] Abbreviation table_wf := (table_wf (has_close vtable)).
#[local] Abbreviation view_at s := (view_of (tbl s)).

(** C1: any sequence of calls of the interface, with any arguments and whatever
  the host answers, returns - no access outside the arrays, no NULL call, no
  endless retry - and leaves a table whose reference counts are exactly the
  numbers of descriptors naming each slot, whose slots are each live or
  free, and whose cached counters are right. *)
Theorem api_sequences_safe (l : list api_call) (s : machine W) :
table_wf (tbl s) -> forallb call_ok l = true ->
wp (run_calls host vtable l) (fun _ s' => table_wf (tbl s')) s.
Proof. apply run_calls_total; done. Qed.

(** C5: [close] is the POSIX close: an unused or reserved descriptor answers
  EBADF and changes nothing; otherwise the descriptor goes, and the
  description goes with its last descriptor, no other descriptor being
  affected. *)
Theorem close_refines (fuel : nat) (fd : Z) (s : machine W) :
table_wf (tbl s) ->
wp (hl_linux_close host vtable fuel fd)
  (fun r s' => table_wf (tbl s') /\ view_at s' = posix_close fd (view_at s) /\
     (v_fds (view_at s) !! fd = None -> r = - HL_LINUX_EBADF)) s.
Proof.
intros Hwf. apply (wp_close host vtable); [done| |].
- intros Hu. assert (Hn : v_fds (view_at s) !! fd = None).
  { rewrite view_lookup_fd. unfold in_use in Hu. destruct (lookupZ _ _) as [fe|]; [|done].
    simpl. unfold view_fd. apply negb_false_iff in Hu. by rewrite Hu. }
  split; [done|]. split; [|done]. unfold posix_close. by rewrite Hn.
- intros r s' Hcl Hwf'. pose proof (closed_in_use vtable _ _ _ (proj1 Hwf) Hcl) as Hu.
  destruct Hcl as (fe & e & Hfe & Hr & He & Hl & Ht).
  split; [done|]. split.
  + rewrite Ht. by apply (view_close vtable).
  + rewrite view_lookup_fd, Hfe. simpl.
    by destruct (view_fd_named vtable _ _ (proj1 Hwf) Hr) as [-> _].
Qed.

(** [dup2] and [dup3] are the POSIX replacement: refused only for a
  vacant source, a target outside the table or reserved, or [dup3] of a
  descriptor onto itself, and then without effect; otherwise the answer is
  the target, which from then on names the source's description, the
  displaced description being closed. *)
Theorem replace_refines (fuel : nat) (source target dflags : Z) (reject : bool) (s : machine W) :
table_wf (tbl s) ->
wp (hl_linux_fd_replace host vtable fuel source target dflags reject)
  (fun r s' => table_wf (tbl s') /\
     ((-4096 < r < 0 /\ replace_refused (tbl s) source target reject /\ view_at s' = view_at s) \/
      (r = target /\ source = target /\ view_at s' = view_at s) \/
      (r = target /\ source <> target /\ is_Some (v_fds (view_at s) !! source) /\
       view_at s' = posix_dup2 source target dflags (view_at s)))) s.
Proof.
intros Hwf. apply (wp_fd_replace host vtable); [done| | | |].
- intros r Href Hr. split; [done|]. by left.
- intros Heq _. split; [done|]. by right; left.
- intros sfe s' Hne Hs Hr Hl Hwf'. split; [done|]. right; right.
  assert (Hm : v_fds (view_at s) !! source = Some (fd_ofd sfe, descriptor_flags sfe)).
  { rewrite view_lookup_fd, Hs. by destruct (view_fd_named vtable _ _ (proj1 Hwf) Hr). }
  split_and!; [done|done|by rewrite Hm|]. rewrite (view_linked vtable _ _ _ _ _ (proj1 Hwf) Hl).
  unfold posix_dup2. rewrite Hm. unfold posix_close.
  destruct Hl as (e & fe & _ & _ & _ & Hfe & H0 & _).
  rewrite view_lookup_fd, Hfe. simpl. unfold view_fd. by rewrite H0.
- intros sfe se te e s' Hne Hs Hsr Hse Hsl Ht Htr He Hl _ Heq Hwf'.
  split; [done|]. right; right. split_and!; [done|done| |].
  + rewrite view_lookup_fd, Hs. simpl.
    destruct (view_fd_named vtable _ _ (proj1 Hwf) Hsr) as [-> _]. done.
  + rewrite Heq. by apply (view_replace vtable).
Qed.

(** duplication at or above a minimum ([dup], [F_DUPFD]) answers EBADF for
  a vacant source, EMFILE when every descriptor from the minimum on is taken,
  and otherwise the lowest free descriptor from the minimum on, which then
  names the source's description. *)
Theorem dup_at_least_refines (source minimum dflags : Z) (s : machine W) :
table_wf (tbl s) -> 0 <= minimum ->
wp (hl_linux_fd_dup_at_least source minimum dflags)
  (fun r s' => table_wf (tbl s') /\
     ((r = - HL_LINUX_EBADF /\ v_fds (view_at s) !! source = None /\ view_at s' = view_at s) \/
      (r = - HL_LINUX_EMFILE /\ view_at s' = view_at s /\
       forall fd fe, minimum <= fd -> lookupZ (fds (tbl s)) fd = Some fe -> fd_ofd fe <> 0) \/
      (exists i df, v_fds (view_at s) !! source = Some (i, df) /\ minimum <= r /\
       v_fds (view_at s) !! r = None /\
       (forall fd fe, minimum <= fd < r -> lookupZ (fds (tbl s)) fd = Some fe -> fd_ofd fe <> 0) /\
       view_at s' = posix_dup r i dflags (view_at s)))) s.
Proof.
intros Hwf Hmin. apply (wp_fd_dup_at_least vtable); [done|done| | |].
- intros Hv. split; [done|]. left. split_and!; try done. rewrite view_lookup_fd.
  destruct (lookupZ _ _) as [fe|] eqn:Hfe; [|done]. simpl. unfold view_fd.
  destruct (Hv fe Hfe) as [->| ->]; [done|]. by rewrite orb_true_r.
- intros Hn. split; [done|]. right; left. split_and!; try done.
  intros fd fe. by apply find_fd_at_least_None.
- intros fe fd s' Hfe Hr Hfd Hl Hwf'. split; [done|]. right; right.
  destruct (find_fd_at_least_Some _ _ _ Hmin Hfd) as (fe' & Hfe' & H0 & Hle & Hlow).
  exists (fd_ofd fe), (descriptor_flags fe). split_and!; try done.
  + rewrite view_lookup_fd, Hfe. simpl. by destruct (view_fd_named vtable _ _ (proj1 Hwf) Hr).
  + rewrite view_lookup_fd, Hfe'. simpl. unfold view_fd. by rewrite H0.
  + by apply (view_linked vtable _ _ _ _ _ (proj1 Hwf)).
Qed.

(** [openat] either fails with an errno and leaves the table as it was (a
  host file opened in vain is closed again), or answers the lowest free
  descriptor, which names a fresh description at offset 0 with the open
  flags less [O_CLOEXEC] and no object behind it. *)
Theorem openat_refines (directory : Z) (path : option (list Z)) (flags mode : Z) (s : machine W) :
table_wf (tbl s) ->
wp (hl_linux_openat host directory path flags mode)
  (fun r s' => table_wf (tbl s') /\
     ((-4096 < r < 0 /\ view_at s' = view_at s) \/
      (hl_linux_find_fd (tbl s) = Some r /\
       exists i handle token,
         v_fds (view_at s) !! r = None /\ v_ofds (view_at s) !! i = None /\
         view_at s' = posix_open r i
           (if has_flag flags HL_LINUX_O_CLOEXEC then HL_LINUX_FD_CLOEXEC else 0)
           (mk_description handle 0 (Z.ldiff flags HL_LINUX_O_CLOEXEC) 0 token 0 0)
           (view_at s)))) s.
Proof.
intros Hwf. unfold hl_linux_openat. eapply (wp_openat host vtable); [done| | |].
- intros r s' Ht Hr. rewrite Ht. split; [done|]. by left.
- intros fd i handle mutex token s' _ Hfd Hp Hwf'. split; [done|]. right. split; [done|].
  destruct (view_published vtable _ _ _ _ _ _ (proj1 Hwf) Hp) as ((e & He & Hfree & Hv) & Hfn & Hon & _);
    [done|].
  exists i, handle, token. split_and!; [done|done|]. rewrite Hv. unfold describe. simpl.
  by destruct Hfree as [_ _ _ _ [_ -> _ -> -> ->]].
- done.
Qed.

(** C38: the exec sweep terminates within one iteration per descriptor and is
  [execve]: exactly the close-on-exec descriptors go, with the descriptions
  only they named; everything else survives unchanged, whatever statuses the
  host reports on the way. *)
Theorem exec_all_refines (steps fuel : nat) (callback : option (Z -> W -> W)) (out : Z) (s : machine W) :
table_wf (tbl s) -> (Z.to_nat (fd_capacity (tbl s)) <= steps)%nat ->
wp (hl_linux_fd_exec_all host vtable steps fuel callback (Some out))
  (fun _ s' => table_wf (tbl s') /\ view_at s' = posix_exec (view_at s)) s.
Proof.
intros Hwf Hsteps. eapply (wp_fd_exec_all host vtable); [done|done|done|].
intros status n s' Hsw. split; [by apply (swept_wf _ _ _ _ Hsw)|].
by apply (view_swept vtable _ _ (proj1 Hwf)).
Qed.

(** [read] changes the offset of the description it reads and nothing
  else: an error or end of file leaves it, a count of bytes moves it by
  exactly that count when the sum is a 64-bit offset, and a read of a typed
  object never moves it; the count never exceeds the size asked for. *)
Theorem read_offset (fd buffer size : Z) (s : machine W) :
table_wf (tbl s) -> 0 <= size ->
wp (hl_linux_read host vtable fd buffer size)
  (fun r s' => table_wf (tbl s') /\
     (-4096 < r < 0 /\ view_at s' = view_at s \/
      exists i df d, v_fds (view_at s) !! fd = Some (i, df) /\ v_ofds (view_at s) !! i = Some d /\
        (dsc_ops d = 0 -> r <= size) /\
        view_at s' = posix_touch i
          (if dsc_ops d =? 0 then advanced (dsc_offset d) r else dsc_offset d)
          (dsc_flags d) (view_at s))) s.
Proof.
intros Hwf Hsize. eapply wp_mono; [by apply (wp_read host vtable)|].
intros r s' Hpost. split; [by eapply io_post_wf|]. destruct Hpost as [[Hr ->]|Ho]; [by left|right].
destruct (view_operated vtable _ _ _ _ (proj1 Hwf) Ho)
  as (i & df & o & f & e & Hm & _ & Hd & (Hf & Hoff & Hle) & Hv).
exists i, df, (describe e). split_and!; [done|done|done|]. rewrite Hv, Hf, Hoff. done.
Qed.

(** [write] on a description opened without [O_APPEND] moves its offset by
  exactly the count written; any write that fails or writes nothing, and any
  write to a typed object, leaves the offset; flags and every other
  description are untouched. *)
Theorem write_offset (fd buffer size : Z) (s : machine W) :
table_wf (tbl s) ->
wp (hl_linux_write host vtable fd buffer size)
  (fun r s' => table_wf (tbl s') /\
     (-4096 < r < 0 /\ view_at s' = view_at s \/
      exists i df d o, v_fds (view_at s) !! fd = Some (i, df) /\ v_ofds (view_at s) !! i = Some d /\
        (dsc_ops d <> 0 \/ r <= 0 -> o = dsc_offset d) /\
        (dsc_ops d = 0 -> has_flag (dsc_flags d) HL_LINUX_O_APPEND = false ->
           o = advanced (dsc_offset d) r) /\
        view_at s' = posix_touch i o (dsc_flags d) (view_at s))) s.
Proof.
intros Hwf. eapply wp_mono; [by apply (wp_write host vtable)|].
intros r s' Hpost. split; [by eapply io_post_wf|]. destruct Hpost as [[Hr ->]|Ho]; [by left|right].
destruct (view_operated vtable _ _ _ _ (proj1 Hwf) Ho)
  as (i & df & o & f & e & Hm & _ & Hd & (Hf & Hobj & Happ) & Hv).
exists i, df, (describe e), o. split_and!; [done|done| | |by rewrite Hv, Hf].
- intros Hor. apply Hobj. destruct Hor as [Hne|]; [left|by right].
  change (dsc_ops (describe e)) with (object_ops e) in Hne. by destruct (Z.eqb_spec (object_ops e) 0).
- intros Hz Ha. apply Happ; [|done]. change (dsc_ops (describe e)) with (object_ops e) in Hz. by rewrite Hz.
Qed.

(** [lseek] either answers an errno and moves nothing, or answers the very
  offset it leaves in the description, which fits a signed 64-bit result. *)
Theorem lseek_offset (fd offset whence : Z) (s : machine W) :
table_wf (tbl s) ->
wp (hl_linux_lseek host fd offset whence)
  (fun r s' => table_wf (tbl s') /\
     (-4096 < r < 0 /\ view_at s' = view_at s \/
      exists i df d, v_fds (view_at s) !! fd = Some (i, df) /\ v_ofds (view_at s) !! i = Some d /\
        r <= INT64_MAX /\ view_at s' = posix_touch i r (dsc_flags d) (view_at s))) s.
Proof.
intros Hwf. eapply wp_mono; [by apply (wp_lseek host vtable)|].
intros r s' Hpost. split; [by eapply io_post_wf|]. destruct Hpost as [[Hr ->]|Ho]; [by left|].
pose proof Ho as (fe & e' & _ & _ & _ & _ & _ & _ & _ & _).
destruct (view_operated vtable _ _ _ _ (proj1 Hwf) Ho)
  as (i & df & o & f & e & Hm & _ & Hd & (Hf & [[Hoff Hr]|[Hoff Hr]]) & Hv).
- left. split; [done|]. rewrite Hv, Hf, Hoff. unfold posix_touch.
  rewrite alter_id; [by destruct (view_at s)|]. intros d. rewrite Hd. by intros [= <-].
- right. exists i, df, (describe e). split_and!; try done. by rewrite Hv, Hf, Hoff.
Qed.

(** [F_SETFL] can only change the settable status flags (append, nonblock,
  direct, async, noatime): access mode and all other bits of the description
  survive whatever flags the caller passes and whatever effective flags the
  host or the object reports; the append bit either stays or becomes the
  caller's; the offset and the rest of the table are untouched. *)
Theorem setfl_keeps_access_mode (fd argument : Z) (s : machine W) :
table_wf (tbl s) -> 0 <= argument ->
wp (hl_linux_fcntl host vtable fd HL_LINUX_F_SETFL argument)
  (fun r s' => table_wf (tbl s') /\
     (-4096 < r < 0 /\ view_at s' = view_at s \/
      exists i df d f, v_fds (view_at s) !! fd = Some (i, df) /\ v_ofds (view_at s) !! i = Some d /\
        Z.ldiff f HL_LINUX_O_SETFL = Z.ldiff (dsc_flags d) HL_LINUX_O_SETFL /\
        (f = dsc_flags d \/ Z.testbit f 10 = Z.testbit argument 10) /\
        view_at s' = posix_touch i (dsc_offset d) f (view_at s))) s.
Proof.
intros Hwf Harg. apply (wp_fcntl host vtable); try done.
- intros r s' Hr ->. split; [done|]. by left.
- intros fe new dflags s' _ _ _ [[Hc _]|[Hc _]]; discriminate Hc.
- intros r s' _ Ho. split; [by eapply operated_wf|]. right.
  destruct (view_operated vtable _ _ _ _ (proj1 Hwf) Ho)
    as (i & df & o & f & e & Hm & _ & Hd & (Hoff & Hf) & Hv).
  exists i, df, (describe e), f.
  assert (Hbits := setfl_bits (status_flags e) argument f Hf).
  destruct Hbits as [Hb1 Hb2]. split_and!; try done. by rewrite Hv, Hoff.
Qed.

(** a reservation either fails without effect or withdraws one unused
  descriptor from allocation under a token that is then valid. *)
Theorem reserve_refines (fd : Z) (out : hl_linux_fd_reservation) (s : machine W) :
table_wf (tbl s) -> 0 <= fd ->
wp (hl_linux_fd_reserve_at (W := W) fd (Some out))
  (fun '(status, token) s' => table_wf (tbl s') /\
     (status <> HL_STATUS_OK /\ view_at s' = view_at s \/
      exists generation, status = HL_STATUS_OK /\ token = Some (mk_reservation fd generation) /\
        v_fds (view_at s) !! fd = None /\ v_reserved (view_at s) !! fd = None /\
        reservation_valid (tbl s') (mk_reservation fd generation) = true /\
        view_at s' = posix_reserve fd generation (view_at s))) s.
Proof.
intros Hwf Hfd. apply (wp_fd_reserve_at vtable); [done|done| |].
- intros status out' s' Hs ->. split; [done|]. by left.
- intros fe s' Hfe H0 Ht Hwf'. split; [done|]. right.
  pose proof (lookupZ_Some_range _ _ _ Hfe).
  exists (u32 (fd_generation fe + 1)). split_and!; try done.
  + rewrite view_lookup_fd, Hfe. simpl. unfold view_fd. by rewrite H0.
  + rewrite view_lookup_reserved, Hfe. simpl. unfold view_reserved. by rewrite H0.
  + rewrite Ht. unfold reservation_valid. simpl. rewrite lookupZ_insertZ_eq by done. simpl.
    by rewrite Z.eqb_refl.
  + rewrite Ht. by apply view_reserve.
Qed.

(** a token publishes at most its own reservation: commit succeeds only
  with a token that is valid at that moment, and then turns the reserved
  descriptor into one that names a fresh description at offset 0; in every
  other case nothing changes. *)
Theorem commit_refines (token : hl_linux_fd_reservation) (handle flags dflags : Z) (s : machine W) :
table_wf (tbl s) ->
wp (hl_linux_fd_commit host token handle flags dflags)
  (fun status s' => table_wf (tbl s') /\
     (status <> HL_STATUS_OK /\ view_at s' = view_at s \/
      reservation_valid (tbl s) token = true /\
      exists i ofd_token, v_ofds (view_at s) !! i = None /\
        view_at s' = posix_commit (rsv_fd token) i dflags
          (mk_description handle 0 flags 0 ofd_token 0 0) (view_at s))) s.
Proof.
intros Hwf. apply (wp_fd_commit host vtable); [done| |].
- intros status s' Hs ->. split; [done|]. by left.
- intros i mutex tok s' Hv Hc Hwf'. split; [done|]. right. split; [done|].
  destruct (view_committed vtable _ _ _ _ _ _ (proj1 Hwf) Hc) as (e & He & Hfree & Hview); [done|].
  exists i, tok. destruct Hc as (w & e' & fe & He' & Hfree' & Hi & _). split.
  + rewrite view_lookup_ofd, He by done. simpl. unfold view_ofd. by rewrite (free_refs _ Hfree).
  + rewrite Hview. unfold describe. simpl. by destruct Hfree as [_ _ _ _ [_ -> _ -> -> ->]].
Qed.

(** a cancelled token is dead even when the same descriptor is reserved
  again: the new reservation carries another generation. *)
Theorem stale_token_refused (token : hl_linux_fd_reservation) (out : hl_linux_fd_reservation)
  (s : machine W) :
table_wf (tbl s) -> reservation_valid (tbl s) token = true ->
wp (let! cancelled := hl_linux_fd_cancel (Some token) in
    let! again := hl_linux_fd_reserve_at (rsv_fd token) (Some out) in
    ret (cancelled, fst again))
  (fun r s' => r = (HL_STATUS_OK, HL_STATUS_OK) /\
     reservation_valid (tbl s') token = false /\ v_fds (view_at s') !! rsv_fd token = None) s.
Proof.
intros Hwf Hv. destruct (reservation_valid_true _ _ Hv) as (fe & Hfe & Hres & Hgen).
pose proof (lookupZ_Some_range _ _ _ Hfe) as Hrange.
apply wp_bind, (wp_fd_cancel vtable); [done|simpl; lia|by intros; congruence|].
intros r fe' s1 [= <-] _ Hfe' _ Ht Hwf1. rewrite Hfe in Hfe'. injection Hfe' as <-.
assert (Hat : lookupZ (fds (tbl s1)) (rsv_fd token) = Some (mk_fd 0 (descriptor_flags fe) (fd_generation fe))).
{ rewrite Ht. simpl. by apply lookupZ_insertZ_eq. }
apply wp_bind. unfold hl_linux_fd_reserve_at. simpl. apply wp_bind, wp_get_tbl.
pose proof (lookupZ_Some_range _ _ _ Hat) as Hr1.
rewrite (inv_version _ _ (proj1 Hwf1)). unfold fd_capacity.
destruct (Z.leb_spec (lengthZ (fds (tbl s1))) (rsv_fd token)); [lia|]. simpl. rewrite Hat. simpl.
wp_steps. split; [done|]. cbn [tbl set_tbl]. split.
- unfold reservation_valid. simpl. rewrite lookupZ_insertZ_eq by done. simpl.
  rewrite <- Hgen. apply Z.eqb_neq. unfold u32. pose proof (Z.mod_pos_bound (fd_generation fe + 1) (2 ^ 32)).
  intros Heq. assert (0 <= fd_generation fe < 2 ^ 32) by lia.
  destruct (decide (fd_generation fe + 1 = 2 ^ 32)) as [He|].
  + rewrite He in Heq. rewrite Z.mod_same in Heq; lia.
  + rewrite Z.mod_small in Heq; lia.
- simpl. rewrite lookup_array_map. by rewrite lookupZ_insertZ_eq.
Qed.

(** the table has neither dangling descriptors nor leaked descriptions:
  after any sequence of calls a description is open exactly when some
  descriptor names it. *)
Theorem no_dangling_no_leak (l : list api_call) (s : machine W) :
table_wf (tbl s) -> forallb call_ok l = true ->
wp (run_calls host vtable l)
  (fun _ s' => forall i,
     is_Some (v_ofds (view_at s') !! i) <->
     exists fd df, v_fds (view_at s') !! fd = Some (i, df)) s.
Proof.
intros Hwf Hok. eapply wp_mono; [by apply run_calls_total|].
intros u s' [Hinv _] i. by rewrite (view_exact_lemma vtable), still_named_true.
Qed.

(** the self-check answers OK exactly on the tables that satisfy the
  ownership conditions, for any table at all of a legal size. *)
Theorem validate_exact (t : hl_linux_abi) :
abi_version t = HL_LINUX_ABI_VERSION -> fd_capacity t <= HL_LINUX_FD_LIMIT ->
hl_linux_abi_validate_fds true t = HL_STATUS_OK <-> ownership t.
Proof. apply validate_ownership. Qed.

(** destruction succeeds exactly when no descriptor is in use or
  reserved, and a refused destruction changes nothing. *)
Theorem destroy_iff_empty (s : machine W) :
table_wf (tbl s) ->
wp hl_linux_abi_destroy
  (fun status s' =>
     status = HL_STATUS_BUSY /\ s' = s /\
       (exists fd fe, lookupZ (fds (tbl s)) fd = Some fe /\ fd_ofd fe <> 0) \/
     status = HL_STATUS_OK /\ abi_version (tbl s') = 0 /\
       destroyed_count s' = u64 (destroyed_count s + 1) /\
       v_fds (view_at s) = ∅ /\ v_reserved (view_at s) = ∅ /\ v_ofds (view_at s) = ∅) s.
Proof.
intros Hwf. apply (wp_destroy vtable); [done| |].
- intros Hex. by left.
- intros s' Hnone Ht Hc. right.
  assert (Hf : v_fds (view_at s) = ∅).
  { apply map_eq. intros k. rewrite view_lookup_fd, lookup_empty.
    destruct (lookupZ _ _) as [fe|] eqn:Hfe; [|done]. simpl. unfold view_fd.
    by rewrite (Hnone _ _ Hfe). }
  rewrite Ht. split_and!; try done.
  + apply map_eq. intros k. rewrite view_lookup_reserved, lookup_empty.
    destruct (lookupZ _ _) as [fe|] eqn:Hfe; [|done]. simpl. unfold view_reserved.
    by rewrite (Hnone _ _ Hfe).
  + apply map_eq. intros i. rewrite lookup_empty. destruct (_ !! i) eqn:Hd; [|done].
    pose proof (proj1 (view_exact_lemma vtable _ i (proj1 Hwf)) (ex_intro _ _ Hd)) as Hn.
    apply still_named_true in Hn as (fd & df & Hm). by rewrite Hf, lookup_empty in Hm.
Qed.

(** initialisation on zeroed storage of a legal size gives a well-formed
  empty table; storage of an illegal size is refused without effect. *)
Theorem init_establishes (n m : nat) (s : machine W) :
wp (hl_linux_abi_init host (replicate n zero_fd) (replicate m zero_ofd))
  (fun status s' =>
     if bool_decide (0 < Z.of_nat n <= HL_LINUX_FD_LIMIT /\ 2 <= Z.of_nat m <= HL_LINUX_OFD_LIMIT)
     then status = HL_STATUS_OK /\ table_wf (tbl s') /\ view_at s' = mk_view ∅ ∅ ∅
     else status = HL_STATUS_INVALID_ARGUMENT /\ s' = s) s.
Proof.
unfold hl_linux_abi_init.
assert (Hlen : forall A (x : A) k, lengthZ (replicate k x) = Z.of_nat k).
{ intros A x k. unfold lengthZ. by rewrite length_replicate. }
rewrite !Hlen. case_bool_decide as Hsize.
- destruct (_ || _) eqn:Hg.
  { exfalso. clear - Hg Hsize. unfold HL_LINUX_FD_LIMIT, HL_LINUX_OFD_LIMIT in *.
    repeat apply orb_true_iff in Hg as [Hg|Hg]; lia. }
  apply wp_bind, wp_put_tbl. rewrite ready_sync_found.
  destruct ready_sync as [a b mc ml mu mx p q r] eqn:Hs.
  pose proof ready_create_found as H1. pose proof ready_lock_found as H2.
  pose proof ready_unlock_found as H3. pose proof ready_close_found as H4.
  rewrite Hs in H1, H2, H3, H4. simpl in H1, H2, H3, H4. subst.
  apply wp_bind, wp_modify, wp_ret.
  pose proof (zeroed_wf (has_close vtable) n m (proj1 Hsize) (proj2 Hsize)) as Hwf.
  split_and!; try apply Hwf; [done|]. cbn [tbl bump_constructed set_tbl].
  unfold view_of. simpl. f_equal.
  + apply map_eq. intros k. rewrite lookup_array_map, lookup_empty.
    destruct (lookupZ _ k) as [x|] eqn:Hx; [|done]. by rewrite (lookupZ_replicate _ _ _ _ Hx).
  + apply map_eq. intros k. rewrite lookup_array_map, lookup_empty.
    destruct (lookupZ _ k) as [x|] eqn:Hx; [|done]. by rewrite (lookupZ_replicate _ _ _ _ Hx).
  + apply map_eq. intros k. rewrite lookup_empty. apply lookup_delete_None. right.
    rewrite lookup_array_map.
    destruct (lookupZ _ k) as [x|] eqn:Hx; [|done]. by rewrite (lookupZ_replicate _ _ _ _ Hx).
- destruct (_ || _) eqn:Hg; [by apply wp_ret|].
  exfalso. apply Hsize. bool_props. lia.
Qed.
End Properties.

(** ** Instances *)

(** Two files, the second close-on-exec, a duplicate of the first, a typed
    object and a reservation. *)
Definition demo_script : list api_call :=
  [CallOpenat (-100) (Some [47]) 2 0; CallOpenat (-100) (Some [47]) 524290 0; CallDup 0;
   CallObjectInstall 7 4096 1 0 0 (Some 0); CallReserveAt 5 (Some (mk_reservation 0 0))].
Definition demo_machine : machine Z := demo_after demo_script.

Lemma demo_machine_view :
  map_to_list (v_fds (view_of (tbl demo_machine))) <> [] /\
  v_fds (view_of (tbl demo_machine)) !! 2 = Some (1, 0) /\
  v_fds (view_of (tbl demo_machine)) !! 1 = Some (2, 1) /\
  reservation_valid (tbl demo_machine) (mk_reservation 5 1) = true.
Proof. split_and!; vm_compute; done. Qed.

Lemma api_sequences_safe_witness :
  wp (run_calls demo_host demo_vtable [CallDup2 0 1; CallClose 0; CallExecAll])
    (fun _ s' => table_wf (has_close demo_vtable) (tbl s')) demo_machine.
Proof. apply (api_sequences_safe demo_host demo_vtable); [apply demo_after_wf; reflexivity|reflexivity]. Defined.

Lemma close_refines_witness :
  wp (hl_linux_close demo_host demo_vtable 0 1)
    (fun r s' => table_wf (has_close demo_vtable) (tbl s') /\
       view_of (tbl s') = posix_close 1 (view_of (tbl demo_machine)) /\
       (v_fds (view_of (tbl demo_machine)) !! 1 = None -> r = - HL_LINUX_EBADF)) demo_machine.
Proof. apply (close_refines demo_host demo_vtable), demo_after_wf. reflexivity. Defined.

Lemma replace_refines_witness :
  wp (hl_linux_fd_replace demo_host demo_vtable 0 0 1 0 true)
    (fun r s' => table_wf (has_close demo_vtable) (tbl s') /\
       ((-4096 < r < 0 /\ replace_refused (tbl demo_machine) 0 1 true /\
           view_of (tbl s') = view_of (tbl demo_machine)) \/
        (r = 1 /\ 0 = 1 /\ view_of (tbl s') = view_of (tbl demo_machine)) \/
        (r = 1 /\ 0 <> 1 /\ is_Some (v_fds (view_of (tbl demo_machine)) !! 0) /\
         view_of (tbl s') = posix_dup2 0 1 0 (view_of (tbl demo_machine))))) demo_machine.
Proof. apply (replace_refines demo_host demo_vtable), demo_after_wf. reflexivity. Defined.

Lemma dup_at_least_refines_witness :
  wp (hl_linux_fd_dup_at_least 1 4 1)
    (fun r s' => table_wf (has_close demo_vtable) (tbl s') /\
       ((r = - HL_LINUX_EBADF /\ v_fds (view_of (tbl demo_machine)) !! 1 = None /\
           view_of (tbl s') = view_of (tbl demo_machine)) \/
        (r = - HL_LINUX_EMFILE /\ view_of (tbl s') = view_of (tbl demo_machine) /\
         forall fd fe, 4 <= fd -> lookupZ (fds (tbl demo_machine)) fd = Some fe -> fd_ofd fe <> 0) \/
        (exists i df, v_fds (view_of (tbl demo_machine)) !! 1 = Some (i, df) /\ 4 <= r /\
         v_fds (view_of (tbl demo_machine)) !! r = None /\
         (forall fd fe, 4 <= fd < r -> lookupZ (fds (tbl demo_machine)) fd = Some fe -> fd_ofd fe <> 0) /\
         view_of (tbl s') = posix_dup r i 1 (view_of (tbl demo_machine))))) demo_machine.
Proof. apply (dup_at_least_refines demo_vtable); [apply demo_after_wf; reflexivity|lia]. Defined.

Lemma openat_refines_witness :
  wp (hl_linux_openat demo_host (-100) (Some [47; 97]) 524290 0)
    (fun r s' => table_wf (has_close demo_vtable) (tbl s') /\
       ((-4096 < r < 0 /\ view_of (tbl s') = view_of (tbl demo_machine)) \/
        (hl_linux_find_fd (tbl demo_machine) = Some r /\
         exists i handle token,
           v_fds (view_of (tbl demo_machine)) !! r = None /\
           v_ofds (view_of (tbl demo_machine)) !! i = None /\
           view_of (tbl s') = posix_open r i
             (if has_flag 524290 HL_LINUX_O_CLOEXEC then HL_LINUX_FD_CLOEXEC else 0)
             (mk_description handle 0 (Z.ldiff 524290 HL_LINUX_O_CLOEXEC) 0 token 0 0)
             (view_of (tbl demo_machine))))) demo_machine.
Proof. apply (openat_refines demo_host demo_vtable), demo_after_wf. reflexivity. Defined.

Lemma exec_all_refines_witness :
  wp (hl_linux_fd_exec_all demo_host demo_vtable 8 0 None (Some 0))
    (fun _ s' => table_wf (has_close demo_vtable) (tbl s') /\
       view_of (tbl s') = posix_exec (view_of (tbl demo_machine))) demo_machine.
Proof.
  apply (exec_all_refines demo_host demo_vtable); [apply demo_after_wf; reflexivity|].
  apply Nat.leb_le. vm_compute. reflexivity.
Defined.

Lemma read_offset_witness :
  wp (hl_linux_read demo_host demo_vtable 2 65536 100)
    (fun r s' => table_wf (has_close demo_vtable) (tbl s') /\
       (-4096 < r < 0 /\ view_of (tbl s') = view_of (tbl demo_machine) \/
        exists i df d, v_fds (view_of (tbl demo_machine)) !! 2 = Some (i, df) /\
          v_ofds (view_of (tbl demo_machine)) !! i = Some d /\
          (dsc_ops d = 0 -> r <= 100) /\
          view_of (tbl s') = posix_touch i
            (if dsc_ops d =? 0 then advanced (dsc_offset d) r else dsc_offset d)
            (dsc_flags d) (view_of (tbl demo_machine)))) demo_machine.
Proof. apply (read_offset demo_host demo_vtable); [apply demo_after_wf; reflexivity|lia]. Defined.

Lemma write_offset_witness :
  wp (hl_linux_write demo_host demo_vtable 0 65536 12)
    (fun r s' => table_wf (has_close demo_vtable) (tbl s') /\
       (-4096 < r < 0 /\ view_of (tbl s') = view_of (tbl demo_machine) \/
        exists i df d o, v_fds (view_of (tbl demo_machine)) !! 0 = Some (i, df) /\
          v_ofds (view_of (tbl demo_machine)) !! i = Some d /\
          (dsc_ops d <> 0 \/ r <= 0 -> o = dsc_offset d) /\
          (dsc_ops d = 0 -> has_flag (dsc_flags d) HL_LINUX_O_APPEND = false ->
             o = advanced (dsc_offset d) r) /\
          view_of (tbl s') = posix_touch i o (dsc_flags d) (view_of (tbl demo_machine)))) demo_machine.
Proof. apply (write_offset demo_host demo_vtable), demo_after_wf. reflexivity. Defined.

Lemma lseek_offset_witness :
  wp (hl_linux_lseek demo_host 2 777 HL_LINUX_SEEK_SET)
    (fun r s' => table_wf (has_close demo_vtable) (tbl s') /\
       (-4096 < r < 0 /\ view_of (tbl s') = view_of (tbl demo_machine) \/
        exists i df d, v_fds (view_of (tbl demo_machine)) !! 2 = Some (i, df) /\
          v_ofds (view_of (tbl demo_machine)) !! i = Some d /\
          r <= INT64_MAX /\
          view_of (tbl s') = posix_touch i r (dsc_flags d) (view_of (tbl demo_machine)))) demo_machine.
Proof. apply (lseek_offset demo_host demo_vtable), demo_after_wf. reflexivity. Defined.

Lemma setfl_keeps_access_mode_witness :
  wp (hl_linux_fcntl demo_host demo_vtable 0 HL_LINUX_F_SETFL 3073)
    (fun r s' => table_wf (has_close demo_vtable) (tbl s') /\
       (-4096 < r < 0 /\ view_of (tbl s') = view_of (tbl demo_machine) \/
        exists i df d f, v_fds (view_of (tbl demo_machine)) !! 0 = Some (i, df) /\
          v_ofds (view_of (tbl demo_machine)) !! i = Some d /\
          Z.ldiff f HL_LINUX_O_SETFL = Z.ldiff (dsc_flags d) HL_LINUX_O_SETFL /\
          (f = dsc_flags d \/ Z.testbit f 10 = Z.testbit 3073 10) /\
          view_of (tbl s') = posix_touch i (dsc_offset d) f (view_of (tbl demo_machine)))) demo_machine.
Proof. apply (setfl_keeps_access_mode demo_host demo_vtable); [apply demo_after_wf; reflexivity|lia]. Defined.

Lemma reserve_refines_witness :
  wp (hl_linux_fd_reserve_at 6 (Some (mk_reservation 0 0)))
    (fun '(status, token) s' => table_wf (has_close demo_vtable) (tbl s') /\
       (status <> HL_STATUS_OK /\ view_of (tbl s') = view_of (tbl demo_machine) \/
        exists generation, status = HL_STATUS_OK /\ token = Some (mk_reservation 6 generation) /\
          v_fds (view_of (tbl demo_machine)) !! 6 = None /\
          v_reserved (view_of (tbl demo_machine)) !! 6 = None /\
          reservation_valid (tbl s') (mk_reservation 6 generation) = true /\
          view_of (tbl s') = posix_reserve 6 generation (view_of (tbl demo_machine)))) demo_machine.
Proof. apply (reserve_refines demo_vtable); [apply demo_after_wf; reflexivity|lia]. Defined.

Lemma commit_refines_witness :
  wp (hl_linux_fd_commit demo_host (mk_reservation 5 1) 99 2 0)
    (fun status s' => table_wf (has_close demo_vtable) (tbl s') /\
       (status <> HL_STATUS_OK /\ view_of (tbl s') = view_of (tbl demo_machine) \/
        reservation_valid (tbl demo_machine) (mk_reservation 5 1) = true /\
        exists i ofd_token, v_ofds (view_of (tbl demo_machine)) !! i = None /\
          view_of (tbl s') = posix_commit 5 i 0
            (mk_description 99 0 2 0 ofd_token 0 0) (view_of (tbl demo_machine)))) demo_machine.
Proof. apply (commit_refines demo_host demo_vtable (mk_reservation 5 1)), demo_after_wf. reflexivity. Defined.

Lemma stale_token_refused_witness :
  wp (let! cancelled := hl_linux_fd_cancel (Some (mk_reservation 5 1)) in
      let! again := hl_linux_fd_reserve_at 5 (Some (mk_reservation 0 0)) in
      ret (cancelled, fst again))
    (fun r s' => r = (HL_STATUS_OK, HL_STATUS_OK) /\
       reservation_valid (tbl s') (mk_reservation 5 1) = false /\
       v_fds (view_of (tbl s')) !! 5 = None) demo_machine.
Proof.
  apply (stale_token_refused demo_vtable (mk_reservation 5 1)).
  - apply demo_after_wf. reflexivity.
  - vm_compute. reflexivity.
Defined.

Lemma no_dangling_no_leak_witness :
  wp (run_calls demo_host demo_vtable [CallDup2 0 1; CallClose 0; CallClose 3])
    (fun _ s' => forall i,
       is_Some (v_ofds (view_of (tbl s')) !! i) <->
       exists fd df, v_fds (view_of (tbl s')) !! fd = Some (i, df)) demo_machine.
Proof. apply (no_dangling_no_leak demo_host demo_vtable); [apply demo_after_wf; reflexivity|reflexivity]. Defined.

Lemma validate_exact_witness :
  hl_linux_abi_validate_fds true (tbl demo_machine) = HL_STATUS_OK <-> ownership (tbl demo_machine).
Proof.
  apply validate_exact; [vm_compute; reflexivity|].
  apply Z.leb_le. vm_compute. reflexivity.
Defined.

Lemma destroy_iff_empty_witness :
  wp hl_linux_abi_destroy
    (fun status s' =>
       status = HL_STATUS_BUSY /\ s' = demo_machine /\
         (exists fd fe, lookupZ (fds (tbl demo_machine)) fd = Some fe /\ fd_ofd fe <> 0) \/
       status = HL_STATUS_OK /\ abi_version (tbl s') = 0 /\
         destroyed_count s' = u64 (destroyed_count demo_machine + 1) /\
         v_fds (view_of (tbl demo_machine)) = ∅ /\ v_reserved (view_of (tbl demo_machine)) = ∅ /\
         v_ofds (view_of (tbl demo_machine)) = ∅) demo_machine.
Proof. apply (destroy_iff_empty demo_vtable), demo_after_wf. reflexivity. Defined.
