(* ===== verification/FdConcurrent.v ===== *)
(** * Descriptor operations interleaved

    The table lock makes each critical section atomic; between two sections of
    one handler the others run.  A system is a table and the activities that
    are between two of their sections; a step is one section of FdTable.v.
    An operation is any entry point of FdIO.v ([active_operations++] ...
    [active_operations--]), a pin is one of object_access.c, a finaliser is a
    run of [hl_linux_ofd_finalize] before or after its claim.  The generation
    and handle an activity carries are those of the slot when it started. *)

From S2P Require Import Prelude Status Host FdTable Machine FdOps FdInvariant FdSections FdHandlers.
From S2P Require Import FdCalls Demo.

Inductive activity :=
| Operation (i generation handle : Z)
| Pin (i generation handle : Z)
| Finalizing (i generation : Z)
| Releasing (i generation mutex : Z).

Record system := mk_system { sys_table : hl_linux_abi; sys_acts : list activity }.

(** The activities that hold slot [i] through [active_operations]. *)
Definition holds (i : Z) (a : activity) : bool :=
  match a with Operation j _ _ | Pin j _ _ => j =? i | _ => false end.
Definition finalizes (i : Z) (a : activity) : bool :=
  match a with Finalizing j _ | Releasing j _ _ => j =? i | _ => false end.

Definition changed (o f : Z) (e : hl_linux_ofd_entry) : hl_linux_ofd_entry :=
  with_status_flags f (with_offset o e).

(** The entry a publication stores: of a file or of a typed object. *)
Definition publishes (has_close : Z -> bool) (f : hl_linux_ofd_entry -> hl_linux_ofd_entry) : Prop :=
  (exists handle flags mutex token, handle <> HL_HOST_HANDLE_INVALID /\
     mutex <> HL_HOST_HANDLE_INVALID /\ f = file_entry handle flags mutex token) \/
  (exists ops context kind flags mutex token, ops <> 0 /\ context <> 0 /\ has_close ops = true /\
     mutex <> HL_HOST_HANDLE_INVALID /\ f = object_entry ops context kind flags mutex token).

Section Concurrent.
Variable has_close : Z -> bool.

(** The 32-bit pin counter does not wrap: fewer than 2^32 activities. *)
Definition room (l : list activity) : Prop := lengthZ l < UINT32_MAX.

Inductive step : system -> system -> Prop :=
| step_operation_begin t l fd fe i e :
    hl_linux_fd_get_unlocked t fd = inr (fe, i, e) -> room l ->
    step (mk_system t l)
      (mk_system (put_ofd i (begin_entry e) t)
         (Operation i (ofd_generation e) (host_handle e) :: l))
| step_operation_touch t l i g h e o f :
    In (Operation i g h) l -> lookupZ (ofds t) i = Some e ->
    step (mk_system t l) (mk_system (put_ofd i (changed o f e) t) l)
| step_operation_end t l1 l2 i g h e :
    lookupZ (ofds t) i = Some e ->
    step (mk_system t (l1 ++ Operation i g h :: l2))
      (mk_system (put_ofd i (end_entry e) t) (l1 ++ l2))
| step_pin t l fd fe i e :
    hl_linux_fd_get_unlocked t fd = inr (fe, i, e) -> object_ops e <> 0 -> room l ->
    step (mk_system t l)
      (mk_system (put_ofd i (begin_entry e) t)
         (Pin i (ofd_generation e) (host_handle e) :: l))
| step_unpin t t' l1 l2 i g h finalize :
    unpin_section i g t = Some (finalize, t') ->
    step (mk_system t (l1 ++ Pin i g h :: l2))
      (mk_system t' ((if finalize : bool then [Finalizing i g] else []) ++ l1 ++ l2))
| step_close t t' l fd outcome e :
    close_section fd t = Some (inr (outcome, t')) ->
    lookupZ (ofds t) (co_ofd outcome) = Some e ->
    step (mk_system t l)
      (mk_system t' ((if co_final outcome && negb (co_deferred outcome)
                      then [Finalizing (co_ofd outcome) (ofd_generation e)] else []) ++ l))
| step_claim t t' l1 l2 i g e handle ops context :
    lookupZ (ofds t) i = Some e ->
    finalize_claim i t = Some (Claimed handle ops context t') ->
    step (mk_system t (l1 ++ Finalizing i g :: l2))
      (mk_system t' (l1 ++ Releasing i g (io_mutex e) :: l2))
| step_claim_corrupt t l1 l2 i g :
    finalize_claim i t = Some ClaimCorrupt ->
    step (mk_system t (l1 ++ Finalizing i g :: l2)) (mk_system t (l1 ++ l2))
| step_release t t' l1 l2 i g mutex status :
    finalize_release i mutex t = Some (status, t') ->
    step (mk_system t (l1 ++ Releasing i g mutex :: l2)) (mk_system t' (l1 ++ l2))
| step_publish t t1 t2 t3 l fd i dflags f :
    hl_linux_find_fd t = Some fd -> hl_linux_find_ofd t = Some (i, t1) ->
    publishes has_close f ->
    update_entry i f t1 = Some t2 -> bind_fd fd i dflags t2 = Some t3 ->
    step (mk_system t l) (mk_system t3 l)
| step_dup t t' l source fd fe i e dflags :
    hl_linux_fd_get_unlocked t source = inr (fe, i, e) ->
    hl_linux_find_fd t = Some fd -> link_fd fd i dflags t = Some t' ->
    step (mk_system t l) (mk_system t' l).

Inductive steps : system -> system -> Prop :=
| steps_refl s : steps s s
| steps_step s1 s2 s3 : steps s1 s2 -> step s2 s3 -> steps s1 s3.

(** ** The invariant of the interleaving *)

(** What an activity may rely on. *)
Definition supported (t : hl_linux_abi) (a : activity) : Prop :=
  match a with
  | Operation i g h | Pin i g h =>
      1 <= i /\ exists e, lookupZ (ofds t) i = Some e /\ ofd_generation e = g /\
        host_handle e = h /\ ~ slot_free e
  | Finalizing i g =>
      1 <= i /\ exists e, lookupZ (ofds t) i = Some e /\ ofd_generation e = g /\
        slot_closing has_close e /\ active_operations e = 0
  | Releasing i g mutex =>
      1 <= i /\ exists e, lookupZ (ofds t) i = Some e /\ ofd_generation e = g /\
        slot_closing has_close e /\ active_operations e = 0 /\ slot_cleared e /\
        io_mutex e = mutex
  end.

Record system_inv (s : system) : Prop := mk_system_inv {
  sinv_table : table_inv has_close (sys_table s);
  sinv_active : forall i e, 1 <= i -> lookupZ (ofds (sys_table s)) i = Some e ->
    active_operations e = countZ (holds i) (sys_acts s);
  sinv_unique : forall i, countZ (finalizes i) (sys_acts s) <= 1;
  sinv_supported : forall a, In a (sys_acts s) -> supported (sys_table s) a
}.

Lemma lookup_put i j e x t :
  lookupZ (ofds t) i = Some e ->
  lookupZ (ofds (put_ofd i x t)) j = if decide (i = j) then Some x else lookupZ (ofds t) j.
Proof. intros He. simpl. apply lookupZ_insertZ. by eapply lookupZ_Some_range. Qed.

Definition subject (a : activity) : Z :=
  match a with Operation i _ _ | Pin i _ _ | Finalizing i _ | Releasing i _ _ => i end.

(** An activity on another slot does not see an update. *)
Lemma supported_other t t' a :
  supported t a -> (lookupZ (ofds t') (subject a) = lookupZ (ofds t) (subject a)) -> supported t' a.
Proof. destruct a; simpl; intros Hs Heq; rewrite Heq; done. Qed.

(** Holding a slot excludes its finalisation, and the converse. *)
Lemma holder_no_finalizer s i e :
  system_inv s -> 1 <= i -> lookupZ (ofds (sys_table s)) i = Some e ->
  active_operations e <> 0 \/ references e <> 0 \/ closing e = 0 ->
  countZ (finalizes i) (sys_acts s) = 0.
Proof.
  intros Hinv Hi He Hne. destruct (decide (countZ (finalizes i) (sys_acts s) = 0)) as [|Hc]; [done|].
  exfalso. destruct (countZ_exists _ _ Hc) as (k & a & Hk & Ha).
  assert (Hin : In a (sys_acts s)).
  { unfold lookupZ in Hk. destruct (0 <=? k); [|done].
    apply list_elem_of_In. by eapply list_elem_of_lookup_2. }
  pose proof (sinv_supported _ Hinv a Hin) as Hs. destruct a; simpl in Ha; try done;
    apply Z.eqb_eq in Ha as ->; simpl in Hs.
  - destruct Hs as (_ & e' & He' & _ & [] & ?). simplify_eq. destruct Hne as [|[|]]; lia.
  - destruct Hs as (_ & e' & He' & _ & [] & ? & _). simplify_eq. destruct Hne as [|[|]]; lia.
Qed.

Lemma no_finalizer_other s i a :
  countZ (finalizes i) (sys_acts s) = 0 -> In a (sys_acts s) -> finalizes i a = false.
Proof.
  intros Hc Hin. destruct (finalizes i a) eqn:Hf; [|done].
  pose proof (countZ_elem _ _ _ Hin Hf). lia.
Qed.

(** Replacing a slot that is in use by one of the same generation and handle
    keeps what every activity relies on. *)
Lemma supported_put_held s i e e' a :
  system_inv s -> 1 <= i -> lookupZ (ofds (sys_table s)) i = Some e ->
  countZ (finalizes i) (sys_acts s) = 0 ->
  ofd_generation e' = ofd_generation e -> host_handle e' = host_handle e -> ~ slot_free e' ->
  In a (sys_acts s) -> supported (put_ofd i e' (sys_table s)) a.
Proof.
  intros Hinv Hi He Hnf Hg Hh Hfree Hin. pose proof (sinv_supported _ Hinv a Hin) as Hs.
  destruct (decide (subject a = i)) as [Heq|Hne].
  - pose proof (no_finalizer_other s i a Hnf Hin) as Hf.
    destruct a; simpl in *; subst; try (rewrite Z.eqb_refl in Hf; done);
      destruct Hs as (_ & x & Hx & ? & ? & _); simplify_eq; (split; [done|]);
      exists e'; (split; [|done]); apply lookupZ_insertZ_eq; by eapply lookupZ_Some_range.
  - eapply supported_other; [done|]. rewrite (lookup_put _ _ _ _ _ He).
    by rewrite decide_False by done.
Qed.

(** ** Preservation *)

Lemma system_inv_update s t' l' i e' :
  system_inv s -> table_inv has_close t' -> 1 <= i ->
  (forall j, j <> i -> lookupZ (ofds t') j = lookupZ (ofds (sys_table s)) j) ->
  lookupZ (ofds t') i = Some e' ->
  active_operations e' = countZ (holds i) l' ->
  (forall j, j <> i -> countZ (holds j) l' = countZ (holds j) (sys_acts s)) ->
  (forall j, countZ (finalizes j) l' <= 1) ->
  (forall a, In a l' -> subject a = i -> supported t' a) ->
  (forall a, In a l' -> subject a <> i -> In a (sys_acts s)) ->
  system_inv (mk_system t' l').
Proof.
  intros Hinv Ht Hi Hoth Hat Ha Hholds Hfin Hsup Hin. constructor; simpl; try done.
  - intros j x Hj Hx. destruct (decide (j = i)) as [->|Hne].
    + rewrite Hat in Hx. by injection Hx as <-.
    + rewrite Hoth in Hx by done. rewrite Hholds by done. by apply (sinv_active _ Hinv).
  - intros a Ha'. destruct (decide (subject a = i)) as [|Hne]; [by apply Hsup|].
    eapply supported_other; [apply (sinv_supported _ Hinv); auto|]. by apply Hoth.
Qed.

Lemma holds_subject j a : holds j a = true -> subject a = j.
Proof. destruct a; simpl; try done; by intros ->%Z.eqb_eq. Qed.
Lemma holds_other j a : subject a <> j -> holds j a = false.
Proof. intros Hne. destruct (holds j a) eqn:Hh; [|done]. by apply holds_subject in Hh. Qed.
Lemma finalizes_other j a : subject a <> j -> finalizes j a = false.
Proof. destruct a; simpl; try done; intros; by apply Z.eqb_neq. Qed.

Lemma count_cons {A} (p : A -> bool) a l : countZ p (a :: l) = (if p a then 1 else 0) + countZ p l.
Proof. done. Qed.
Lemma count_middle {A} (p : A -> bool) a l1 l2 :
  countZ p (l1 ++ a :: l2) = (if p a then 1 else 0) + countZ p (l1 ++ l2).
Proof. rewrite !countZ_app, count_cons. lia. Qed.
Lemma in_middle {A} (a b : A) l1 l2 : In a (l1 ++ l2) -> In a (l1 ++ b :: l2).
Proof. rewrite !in_app_iff. simpl. tauto. Qed.
Lemma in_middle_eq {A} (b : A) l1 l2 : In b (l1 ++ b :: l2).
Proof. rewrite in_app_iff. simpl. tauto. Qed.
Lemma in_middle_inv {A} (a b : A) l1 l2 : In a (l1 ++ b :: l2) -> a = b \/ In a (l1 ++ l2).
Proof. rewrite !in_app_iff. simpl. intuition auto. Qed.

Lemma lookup_put_ne i j e t : j <> i -> lookupZ (ofds (put_ofd i e t)) j = lookupZ (ofds t) j.
Proof. intros Hne. simpl. by rewrite lookupZ_insertZ_ne by done. Qed.
Lemma lookup_put_eq i e x t : lookupZ (ofds t) i = Some e -> lookupZ (ofds (put_ofd i x t)) i = Some x.
Proof. intros He. simpl. apply lookupZ_insertZ_eq. by eapply lookupZ_Some_range. Qed.

Lemma live_not_free e : slot_live has_close e -> ~ slot_free e.
Proof. intros [] []. done. Qed.
Lemma closing_not_free e : slot_closing has_close e -> ~ slot_free e.
Proof. intros [] []. done. Qed.
Lemma not_free_cases t i e :
  table_inv has_close t -> 1 <= i -> lookupZ (ofds t) i = Some e -> ~ slot_free e ->
  slot_live has_close e \/ slot_closing has_close e.
Proof. intros Ht Hi He Hnf. destruct (inv_slot _ _ _ _ Ht Hi He) as [_ _ [?|[?|?]]]; tauto. Qed.

(** A new holder of a live slot. *)
Lemma begin_inv s i e a :
  system_inv s -> 1 <= i -> lookupZ (ofds (sys_table s)) i = Some e -> slot_live has_close e ->
  room (sys_acts s) -> holds i a = true ->
  supported (put_ofd i (begin_entry e) (sys_table s)) a ->
  system_inv (mk_system (put_ofd i (begin_entry e) (sys_table s)) (a :: sys_acts s)).
Proof.
  intros Hinv Hi He Hl Hroom Ha Hsup. pose proof (holds_subject _ _ Ha) as Hsub.
  pose proof (holder_no_finalizer s i e Hinv Hi He (or_intror (or_introl (live_refs _ _ Hl)))) as Hnf.
  eapply (system_inv_update s _ _ i (begin_entry e)); try done.
  - apply (begin_entry_inv has_close _ i e); [apply Hinv|done|done|by apply live_not_free].
  - intros j Hne. by apply lookup_put_ne.
  - by eapply lookup_put_eq.
  - rewrite count_cons, Ha. simpl. rewrite (sinv_active _ Hinv i e Hi He).
    pose proof (countZ_bounds (holds i) (sys_acts s)). unfold room, UINT32_MAX in *.
    rewrite u32_small; lia.
  - intros j Hne. rewrite count_cons, holds_other by congruence. done.
  - intros j. rewrite count_cons. destruct a; try done; apply (sinv_unique _ Hinv).
  - intros b [<-|Hin] Hb; [done|].
    eapply supported_put_held; try done. intros [Hr _ _ _ _]. simpl in Hr. by destruct Hl.
  - intros b [<-|Hin] Hb; [by rewrite Hsub in Hb|done].
Qed.

(** A holder leaves. *)
Lemma end_inv s i e a l1 l2 :
  system_inv s -> sys_acts s = l1 ++ a :: l2 -> holds i a = true ->
  lookupZ (ofds (sys_table s)) i = Some e ->
  system_inv (mk_system (put_ofd i (end_entry e) (sys_table s)) (l1 ++ l2)) /\
  1 <= i /\ ~ slot_free e /\ active_operations e <> 0 /\
  active_operations (end_entry e) = countZ (holds i) (l1 ++ l2) /\
  countZ (finalizes i) (l1 ++ l2) = 0.
Proof.
  intros Hinv Hl Ha He. pose proof (holds_subject _ _ Ha) as Hsub.
  assert (Hin : In a (sys_acts s)) by (rewrite Hl; apply in_middle_eq).
  pose proof (sinv_supported _ Hinv a Hin) as Hs.
  assert (Hi : 1 <= i /\ ~ slot_free e).
  { destruct a; simpl in Ha; try done; apply Z.eqb_eq in Ha as ->; simpl in Hs;
      destruct Hs as (Hi & x & Hx & _ & _ & Hnf); simplify_eq; done. }
  destruct Hi as [Hi Hnf].
  pose proof (sinv_active _ Hinv i e Hi He) as Hcount. rewrite Hl, count_middle, Ha in Hcount.
  pose proof (countZ_bounds (holds i) (l1 ++ l2)) as Hb.
  assert (Hne : active_operations e <> 0) by lia.
  destruct (inv_slot _ _ _ _ (sinv_table _ Hinv) Hi He) as [_ Hrange _].
  assert (Hact : active_operations (end_entry e) = countZ (holds i) (l1 ++ l2)).
  { simpl. rewrite u32_small; lia. }
  pose proof (holder_no_finalizer s i e Hinv Hi He (or_introl Hne)) as Hnof.
  assert (Hnf' : countZ (finalizes i) (l1 ++ l2) = 0).
  { rewrite Hl, count_middle in Hnof. pose proof (countZ_bounds (finalizes i) (l1 ++ l2)).
    destruct (finalizes i a); lia. }
  split_and!; try done. eapply (system_inv_update s _ _ i (end_entry e)); try done.
  - apply (end_entry_inv has_close _ i e); [apply Hinv|done|done|done].
  - intros j Hj. by apply lookup_put_ne.
  - by eapply lookup_put_eq.
  - intros j Hj. rewrite Hl, count_middle, (holds_other j a) by congruence. done.
  - intros j. pose proof (sinv_unique _ Hinv j) as Hu. rewrite Hl, count_middle in Hu.
    destruct (finalizes j a); lia.
  - intros b Hbin Hbi. eapply supported_put_held; try done.
    + intros [Hr Ha' Hc Hm Hcl]. apply Hnf.
      destruct (not_free_cases _ _ _ (sinv_table _ Hinv) Hi He Hnf) as [[]|[]]; done.
    + rewrite Hl. by apply in_middle.
  - intros b Hbin _. rewrite Hl. by apply in_middle.
Qed.

(** The last holder of a closing slot becomes its finaliser. *)
Lemma add_finalizer s i e :
  system_inv s -> 1 <= i -> lookupZ (ofds (sys_table s)) i = Some e ->
  slot_closing has_close e -> active_operations e = 0 ->
  countZ (finalizes i) (sys_acts s) = 0 ->
  system_inv (mk_system (sys_table s) (Finalizing i (ofd_generation e) :: sys_acts s)).
Proof.
  intros Hinv Hi He Hc Ha Hnf. eapply (system_inv_update s _ _ i e); try done.
  - apply Hinv.
  - simpl. by apply (sinv_active _ Hinv).
  - intros j. rewrite count_cons. simpl. destruct (Z.eqb_spec i j) as [<-|]; [lia|].
    apply (sinv_unique _ Hinv).
  - intros b [<-|Hin] Hb; [|by apply (sinv_supported _ Hinv)]. split; [done|]. by exists e.
  - intros b [<-|Hin] Hb; [done|done].
Qed.

Lemma step_unpin_inv t t' l1 l2 i g h finalize :
  system_inv (mk_system t (l1 ++ Pin i g h :: l2)) ->
  unpin_section i g t = Some (finalize, t') ->
  system_inv (mk_system t' ((if finalize : bool then [Finalizing i g] else []) ++ l1 ++ l2)).
Proof.
  intros Hinv Hun.
  assert (Hs : supported t (Pin i g h)) by (apply (sinv_supported _ Hinv), in_middle_eq).
  simpl in Hs. destruct Hs as (Hi & e & He & Hg & Hh & Hnf).
  destruct (end_inv _ i e (Pin i g h) l1 l2 Hinv eq_refl (Z.eqb_refl i) He)
    as (Hinv' & _ & _ & Hne & Hact & Hfin).
  unfold unpin_section in Hun. rewrite He, Hg, Z.eqb_refl in Hun.
  destruct (Z.eqb_spec (active_operations e) 0); [done|]. simpl in Hun.
  injection Hun as <- <-. destruct (_ && _) eqn:Hf; [|done].
  apply andb_prop in Hf as [Hf Hcl]. apply andb_prop in Hf as [Ha Hr]. bool_props.
  assert (Hc : slot_closing has_close (end_entry e)).
  { destruct (not_free_cases _ _ _ (sinv_table _ Hinv) Hi He Hnf) as [[]|[]]; [done|].
    by constructor. }
  rewrite <- Hg. change (ofd_generation e) with (ofd_generation (end_entry e)).
  apply (add_finalizer (mk_system _ _)); try done. by eapply lookup_put_eq.
Qed.

Lemma step_touch_inv t l i g h e o f :
  system_inv (mk_system t l) -> In (Operation i g h) l -> lookupZ (ofds t) i = Some e ->
  system_inv (mk_system (put_ofd i (changed o f e) t) l).
Proof.
  intros Hinv Hin He.
  assert (Hs : supported t (Operation i g h)) by (by apply (sinv_supported _ Hinv)).
  destruct Hs as (Hi & e' & He' & Hg & Hh & Hnf). simplify_eq.
  assert (Hcase := not_free_cases _ _ _ (sinv_table _ Hinv) Hi He Hnf).
  pose proof (sinv_active _ Hinv i e Hi He) as Hact.
  pose proof (countZ_elem (holds i) l _ Hin (Z.eqb_refl i)) as Hpos. simpl in Hact.
  assert (Hne0 : active_operations e <> 0) by lia.
  pose proof (holder_no_finalizer _ i e Hinv Hi He (or_introl Hne0)) as Hfin.
  assert (Hnf' : ~ slot_free (changed o f e)).
  { intros []. destruct Hcase as [[]|[]]; done. }
  eapply (system_inv_update _ _ _ i (changed o f e) Hinv); try done.
  - apply (table_inv_put_ofd _ t i e); try done; [apply Hinv| |].
    + by destruct (inv_slot _ _ _ _ (sinv_table _ Hinv) Hi He).
    + destruct Hcase as [[]|[]]; [left|right; left]; by constructor.
  - intros j Hne. by apply lookup_put_ne.
  - by eapply lookup_put_eq.
  - apply (sinv_unique _ Hinv).
  - intros b Hb _. by eapply (supported_put_held (mk_system t l) i e).
Qed.

Lemma step_close_inv t t' l fd outcome e :
  system_inv (mk_system t l) ->
  close_section fd t = Some (inr (outcome, t')) ->
  lookupZ (ofds t) (co_ofd outcome) = Some e ->
  system_inv (mk_system t' ((if co_final outcome && negb (co_deferred outcome)
    then [Finalizing (co_ofd outcome) (ofd_generation e)] else []) ++ l)).
Proof.
  intros Hinv Hcs He. pose proof (sinv_table _ Hinv) as Ht. simpl in Ht.
  pose proof (get_unlocked_inv has_close t fd Ht) as Hget.
  destruct (hl_linux_fd_get_unlocked t fd) as [st|[[fe i] e']].
  { destruct Hget as [_ Hv]. by rewrite (close_section_vacant _ _ Hv) in Hcs. }
  destruct Hget as (Hfe & -> & Hr & He' & Hl).
  destruct (close_section_spec has_close t fd fe e' Ht Hfe Hr He' Hl) as [Hcs' Ht'].
  rewrite Hcs in Hcs'. injection Hcs' as -> ->.
  cbn [co_ofd co_final co_deferred] in *. simplify_eq.
  destruct (dropped_fields e) as (_ & Ha & Hh & _ & _ & _ & Hg).
  assert (Hd : slot_live has_close (dropped e) \/ slot_closing has_close (dropped e)) by (by apply dropped_state).
  assert (Hnf : ~ slot_free (dropped e)) by (destruct Hd; [by apply live_not_free|by apply closing_not_free]).
  pose proof (holder_no_finalizer _ (fd_ofd fe) e Hinv (proj1 Hr) He
    (or_intror (or_introl (live_refs _ _ Hl)))) as Hfin.
  set (t2 := put_ofd (fd_ofd fe) (dropped e) (put_fd fd (mk_fd 0 0 (u32 (fd_generation fe + 1))) t)) in *.
  assert (Hat : lookupZ (ofds t2) (fd_ofd fe) = Some (dropped e)).
  { simpl. apply lookupZ_insertZ_eq. by eapply lookupZ_Some_range. }
  assert (Hinv2 : system_inv (mk_system t2 l)).
  { eapply (system_inv_update _ _ _ (fd_ofd fe) (dropped e) Hinv); try done; [lia| | | |].
    - intros j Hne. simpl. by rewrite lookupZ_insertZ_ne by done.
    - rewrite Ha. apply (sinv_active _ Hinv); [lia|done].
    - apply (sinv_unique _ Hinv).
    - intros b Hb _. eapply (supported_other (put_ofd (fd_ofd fe) (dropped e) t)); [|done].
      eapply (supported_put_held (mk_system t l) (fd_ofd fe) e); try done. lia. }
  destruct (Z.eqb_spec (references e) 1) as [H1|H1]; [|done].
  destruct (Z.eqb_spec (active_operations e) 0) as [H0|H0]; [|done]. simpl.
  rewrite <- Hg. apply (add_finalizer (mk_system t2 l)); try done; [lia| |lia].
  destruct Hd as [[Hx]|]; [|done]. exfalso. apply Hx. unfold dropped. by rewrite H1.
Qed.

(** What the finaliser of slot [i] knows about the others. *)
Lemma finalizer_alone s i a e l1 l2 :
  system_inv s -> sys_acts s = l1 ++ a :: l2 -> finalizes i a = true ->
  lookupZ (ofds (sys_table s)) i = Some e -> 1 <= i -> active_operations e = 0 ->
  countZ (holds i) (l1 ++ l2) = 0 /\ countZ (finalizes i) (l1 ++ l2) = 0.
Proof.
  intros Hinv Hl Ha He Hi H0.
  pose proof (sinv_active _ Hinv i e Hi He) as Hc. pose proof (sinv_unique _ Hinv i) as Hu.
  rewrite Hl, count_middle in Hc, Hu. rewrite Ha in Hu.
  assert (holds i a = false) as Hh by (by destruct a). rewrite Hh in Hc.
  pose proof (countZ_bounds (holds i) (l1 ++ l2)). pose proof (countZ_bounds (finalizes i) (l1 ++ l2)).
  lia.
Qed.

Lemma no_subject i l b :
  countZ (holds i) l = 0 -> countZ (finalizes i) l = 0 -> In b l -> subject b <> i.
Proof.
  intros Hh Hf Hin Hs.
  pose proof (countZ_elem (holds i) l b Hin) as H1.
  pose proof (countZ_elem (finalizes i) l b Hin) as H2. rewrite Hh in H1. rewrite Hf in H2.
  destruct b; simpl in *; subst; rewrite Z.eqb_refl in *;
    (specialize (H1 eq_refl); lia) || (specialize (H2 eq_refl); lia).
Qed.

Lemma step_claim_inv t t' l1 l2 i g e handle ops context :
  system_inv (mk_system t (l1 ++ Finalizing i g :: l2)) ->
  lookupZ (ofds t) i = Some e ->
  finalize_claim i t = Some (Claimed handle ops context t') ->
  system_inv (mk_system t' (l1 ++ Releasing i g (io_mutex e) :: l2)) /\ handle = host_handle e.
Proof.
  intros Hinv He Hcl.
  assert (Hs : supported t (Finalizing i g)) by (apply (sinv_supported _ Hinv), in_middle_eq).
  destruct Hs as (Hi & e' & He' & Hg & Hc & Ha). simplify_eq.
  destruct (finalize_claim_spec has_close t i e (sinv_table _ Hinv) Hi He Hc Ha)
    as (Hcl' & Ht' & Hc' & Hcc).
  rewrite Hcl in Hcl'. injection Hcl' as -> -> -> ->. split; [|done].
  destruct (finalizer_alone _ i (Finalizing i (ofd_generation e)) e l1 l2 Hinv eq_refl (Z.eqb_refl i) He Hi Ha)
    as [Hh Hf].
  eapply (system_inv_update _ _ _ i (cleared e) Hinv); try done.
  - intros j Hne. by apply lookup_put_ne.
  - by eapply lookup_put_eq.
  - rewrite count_middle. simpl. lia.
  - intros j Hne. cbn [sys_acts]. by rewrite !count_middle.
  - intros j. pose proof (sinv_unique _ Hinv j) as Hu. cbn [sys_acts] in Hu.
    rewrite count_middle in Hu. rewrite count_middle. exact Hu.
  - intros b Hb Hbi. apply in_middle_inv in Hb as [->|Hb].
    + split; [done|]. exists (cleared e). split_and!; try done. by eapply lookup_put_eq.
    + exfalso. by apply (no_subject i (l1 ++ l2) b).
  - intros b Hb Hne. apply in_middle_inv in Hb as [->|Hb]; [done|]. by apply in_middle.
Qed.

Lemma step_release_inv t t' l1 l2 i g mutex status :
  system_inv (mk_system t (l1 ++ Releasing i g mutex :: l2)) ->
  finalize_release i mutex t = Some (status, t') ->
  system_inv (mk_system t' (l1 ++ l2)) /\ status = HL_STATUS_OK.
Proof.
  intros Hinv Hrel.
  assert (Hs : supported t (Releasing i g mutex)) by (apply (sinv_supported _ Hinv), in_middle_eq).
  destruct Hs as (Hi & e & He & Hg & Hc & Ha & Hcc & Hm). subst mutex.
  destruct (finalize_release_spec has_close t i e (sinv_table _ Hinv) Hi He Hc Hcc Ha)
    as (Hrel' & Ht' & Hfree).
  rewrite Hrel in Hrel'. injection Hrel' as -> ->. split; [|done].
  destruct (finalizer_alone _ i (Releasing i g (io_mutex e)) e l1 l2 Hinv eq_refl (Z.eqb_refl i) He Hi Ha)
    as [Hh Hf].
  eapply (system_inv_update _ _ _ i (released e) Hinv); try done.
  - intros j Hne. by apply lookup_put_ne.
  - by eapply lookup_put_eq.
  - simpl. congruence.
  - intros j Hne. cbn [sys_acts]. by rewrite !count_middle.
  - intros j. pose proof (sinv_unique _ Hinv j) as Hu. cbn [sys_acts] in Hu.
    rewrite count_middle in Hu. destruct (finalizes j _); lia.
  - intros b Hb Hbi. exfalso. by apply (no_subject i (l1 ++ l2) b).
  - intros b Hb Hne. by apply in_middle.
Qed.

(** A free slot has no activities. *)
Lemma free_no_activity s i e b :
  system_inv s -> lookupZ (ofds (sys_table s)) i = Some e -> slot_free e ->
  In b (sys_acts s) -> subject b <> i.
Proof.
  intros Hinv He Hf Hin Hs. pose proof (sinv_supported _ Hinv b Hin) as Hsup.
  destruct b; simpl in *; subst.
  1, 2: destruct Hsup as (_ & x & Hx & _ & _ & Hnf); simplify_eq; done.
  all: destruct Hsup as (_ & x & Hx & _ & Hc & _); simplify_eq; by apply closing_not_free in Hc.
Qed.

Lemma step_publish_inv t t1 t2 t3 l fd i dflags f :
  system_inv (mk_system t l) ->
  hl_linux_find_fd t = Some fd -> hl_linux_find_ofd t = Some (i, t1) ->
  publishes has_close f ->
  update_entry i f t1 = Some t2 -> bind_fd fd i dflags t2 = Some t3 ->
  system_inv (mk_system t3 l) /\
  forall b, In b l -> subject b <> i.
Proof.
  intros Hinv Hfd Hofd Hp Hu Hb.
  destruct (find_fd_Some _ _ Hfd) as (fe & Hfe & H0 & _).
  destruct (find_ofd_Some has_close _ _ _ (sinv_table _ Hinv) Hofd)
    as (Ht1 & Hf1 & Ho1 & _ & Hi & e & He & Hfree).
  assert (Hentry : references (f e) = 1 /\ active_operations (f e) = 0 /\ slot_live has_close (f e)).
  { destruct Hp as [(h & fl & m & tk & Hh & Hm & ->)|(o & c & k & fl & m & tk & Ho & Hc & Hcl & Hm & ->)].
    - split_and!; [done|by destruct Hfree|by apply file_entry_live].
    - split_and!; [done|done|by apply object_entry_live]. }
  destruct Hentry as (Hr & Ha & Hl).
  destruct (publish_spec has_close t1 fd fe i e dflags f) as (Hu' & Hb' & Ht3);
    try done; [by rewrite Hf1|by rewrite Ho1|].
  rewrite Hu in Hu'. injection Hu' as ->. rewrite Hb in Hb'. injection Hb' as ->.
  assert (Hno : forall b, In b l -> subject b <> i).
  { intros b Hin. by apply (free_no_activity (mk_system t l) i e b Hinv). }
  split; [|done].
  eapply (system_inv_update _ _ _ i (f e) Hinv); try done; [lia| | | | |].
  - intros j Hne. simpl. by rewrite lookupZ_insertZ_ne, Ho1 by done.
  - simpl. apply lookupZ_insertZ_eq. rewrite Ho1. by eapply lookupZ_Some_range.
  - rewrite Ha. symmetry. apply countZ_none. intros b Hin. apply holds_other. by apply Hno.
  - apply (sinv_unique _ Hinv).
  - intros b Hin Hs. exfalso. by apply (Hno b).
Qed.

Lemma step_dup_inv t t' l source fd fe i e dflags :
  system_inv (mk_system t l) ->
  hl_linux_fd_get_unlocked t source = inr (fe, i, e) ->
  hl_linux_find_fd t = Some fd -> link_fd fd i dflags t = Some t' ->
  system_inv (mk_system t' l).
Proof.
  intros Hinv Hg Hfd Hlk.
  pose proof (get_unlocked_inv has_close t source (sinv_table _ Hinv)) as Hget.
  rewrite Hg in Hget. destruct Hget as (_ & _ & Hi & He & Hl).
  destruct (find_fd_Some _ _ Hfd) as (fe' & Hfe' & H0 & _).
  destruct (link_fd_spec has_close t fd fe' i e dflags (sinv_table _ Hinv) Hfe' H0 Hi He Hl) as [Hlk' Ht'].
  rewrite Hlk in Hlk'. injection Hlk' as ->.
  pose proof (references_bounds _ _ _ _ (sinv_table _ Hinv) (proj1 Hi) He).
  pose proof (holder_no_finalizer _ i e Hinv (proj1 Hi) He
    (or_intror (or_introl (live_refs _ _ Hl)))) as Hfin.
  eapply (system_inv_update _ _ _ i (with_references (references e + 1) e) Hinv); try done; [lia| | | | |].
  - intros j Hne. simpl. by rewrite lookupZ_insertZ_ne by done.
  - simpl. apply lookupZ_insertZ_eq. by eapply lookupZ_Some_range.
  - simpl. apply (sinv_active _ Hinv); [lia|done].
  - apply (sinv_unique _ Hinv).
  - intros b Hb _.
    eapply (supported_other (put_ofd i (with_references (references e + 1) e) t)); [|done].
    eapply (supported_put_held (mk_system t l) i e); try done; [lia|].
    intros [Hr _ _ _ _]. simpl in Hr. lia.
Qed.

Lemma step_inv s s' : step s s' -> system_inv s -> system_inv s'.
Proof.
  intros Hstep Hinv. destruct Hstep.
  - pose proof (get_unlocked_inv has_close t fd (sinv_table _ Hinv)) as Hget.
    rewrite H in Hget. destruct Hget as (_ & _ & Hi & He & Hl).
    apply (begin_inv (mk_system t l) i e); try done; [lia|apply Z.eqb_refl|].
    split; [lia|]. eexists. split; [by eapply lookup_put_eq|]. split_and!; try done.
    intros [Hr _ _ _ _]. simpl in Hr. by destruct Hl.
  - by eapply step_touch_inv.
  - by destruct (end_inv _ i e (Operation i g h) l1 l2 Hinv eq_refl (Z.eqb_refl i) H).
  - pose proof (get_unlocked_inv has_close t fd (sinv_table _ Hinv)) as Hget.
    rewrite H in Hget. destruct Hget as (_ & _ & Hi & He & Hl).
    apply (begin_inv (mk_system t l) i e); try done; [lia|apply Z.eqb_refl|].
    split; [lia|]. eexists. split; [by eapply lookup_put_eq|]. split_and!; try done.
    intros [Hr _ _ _ _]. simpl in Hr. by destruct Hl.
  - by eapply step_unpin_inv.
  - by eapply step_close_inv.
  - by eapply step_claim_inv.
  - exfalso.
    assert (Hs : supported t (Finalizing i g)) by (apply (sinv_supported _ Hinv), in_middle_eq).
    destruct Hs as (Hi & e & He & Hg & [] & Ha).
    unfold finalize_claim in H. rewrite He, closing_refs, closing_set, Ha in H. done.
  - by eapply step_release_inv.
  - by eapply step_publish_inv.
  - by eapply step_dup_inv.
Qed.

Lemma steps_inv s s' : steps s s' -> system_inv s -> system_inv s'.
Proof. induction 1; [done|]. intros Hinv. eapply step_inv; eauto. Qed.

(** A quiescent well-formed table with no activity. *)
Lemma initial_inv t : table_wf has_close t -> system_inv (mk_system t []).
Proof.
  intros [Hinv Hq]. constructor; simpl; try done.
  intros i e Hi He. by eapply quiescent_active.
Qed.

(** ** A closing slot nobody works on *)

Definition abandoned (i : Z) (e : hl_linux_ofd_entry) (s : system) : Prop :=
  lookupZ (ofds (sys_table s)) i = Some e /\ (forall a, In a (sys_acts s) -> subject a <> i).

Lemma put_other_abandoned i e t l j x l' :
  abandoned i e (mk_system t l) -> j <> i ->
  (forall a, In a l' -> In a l \/ subject a = j) ->
  abandoned i e (mk_system (put_ofd j x t) l').
Proof.
  intros [He Hno] Hne Hin. split.
  - cbn [sys_table]. rewrite lookup_put_ne by congruence. done.
  - intros a Ha. destruct (Hin a Ha) as [?| ->]; [by apply Hno|done].
Qed.

Lemma in_if (b : bool) (a x : activity) : In a (if b then [x] else []) -> a = x.
Proof. destruct b; simpl; [intros [->|[]]; done|done]. Qed.

(** No step touches it, so no step frees it. *)
Lemma abandoned_step i e s s' :
  1 <= i -> slot_closing has_close e ->
  system_inv s -> step s s' -> abandoned i e s -> abandoned i e s'.
Proof.
  intros Hi Hc Hinv Hstep Hab. pose proof (sinv_table _ Hinv) as Ht.
  assert (Hlive : forall j x, lookupZ (ofds (sys_table s)) j = Some x -> slot_live has_close x -> j <> i).
  { intros j x Hx [] ->. destruct Hab as [He _]. rewrite Hx in He. injection He as ->. by destruct Hc. }
  destruct Hstep; cbn [sys_table sys_acts] in *.
  - pose proof (get_unlocked_inv has_close t fd Ht) as Hg. rewrite H in Hg.
    destruct Hg as (_ & _ & _ & He & Hl). eapply put_other_abandoned; [done|by eapply Hlive|].
    intros a [<-|Ha]; [by right|by left].
  - eapply put_other_abandoned; [done|by apply (proj2 Hab _ H)|by left].
  - eapply put_other_abandoned; [done| |by left; apply in_middle].
    apply (proj2 Hab (Operation i0 g h)), in_middle_eq.
  - pose proof (get_unlocked_inv has_close t fd Ht) as Hg. rewrite H in Hg.
    destruct Hg as (_ & _ & _ & He & Hl). eapply put_other_abandoned; [done|by eapply Hlive|].
    intros a [<-|Ha]; [by right|by left].
  - assert (Hne : i0 <> i) by (apply (proj2 Hab (Pin i0 g h)), in_middle_eq).
    unfold unpin_section in H. destruct (lookupZ (ofds t) i0) as [x|]; [|done].
    destruct (_ && _); injection H as <- <-.
    + eapply put_other_abandoned; [done|done|]. intros a Ha.
      apply in_app_iff in Ha as [Ha|Ha]; [right; by rewrite (in_if _ _ _ Ha)|left; by apply in_middle].
    + destruct Hab as [He Hno]. split; [done|]. intros a Ha. apply Hno. by apply in_middle.
  - pose proof (get_unlocked_inv has_close t fd Ht) as Hg.
    destruct (hl_linux_fd_get_unlocked t fd) as [st|[[fe j] x]].
    { destruct Hg as [_ Hv]. by rewrite (close_section_vacant _ _ Hv) in H. }
    destruct Hg as (Hfe & -> & Hr & Hx & Hl).
    destruct (close_section_spec has_close t fd fe x Ht Hfe Hr Hx Hl) as [Hcs _].
    rewrite H in Hcs. injection Hcs as -> ->. cbn [co_ofd co_final co_deferred] in *.
    apply (put_other_abandoned i e (put_fd fd _ t) l); [exact Hab|by eapply Hlive|].
    intros a Ha. apply in_app_iff in Ha as [Ha|Ha]; [right|by left]. by rewrite (in_if _ _ _ Ha).
  - assert (Hne : i0 <> i) by (apply (proj2 Hab (Finalizing i0 g)), in_middle_eq).
    unfold finalize_claim in H0. rewrite H in H0. destruct (_ || _); [done|].
    destruct (negb _); [done|]. injection H0 as _ _ _ <-.
    eapply put_other_abandoned; [done|done|]. intros a Ha.
    apply in_middle_inv in Ha as [->|Ha]; [by right|left; by apply in_middle].
  - destruct Hab as [He Hno]. split; [done|]. intros a Ha. apply Hno. by apply in_middle.
  - assert (Hne : i0 <> i) by (apply (proj2 Hab (Releasing i0 g mutex)), in_middle_eq).
    unfold finalize_release in H. destruct (lookupZ (ofds t) i0); [|done].
    destruct (_ || _); injection H as _ <-.
    + destruct Hab as [He Hno]. split; [done|]. intros a Ha. apply Hno. by apply in_middle.
    + eapply put_other_abandoned; [done|done|]. intros a Ha. left. by apply in_middle.
  - destruct (find_ofd_Some has_close _ _ _ Ht H0) as (_ & Hf1 & Ho1 & _ & _ & x & Hx & Hfree).
    assert (Hne : i0 <> i).
    { intros ->. destruct Hab as [He _]. cbn [sys_table] in He. simplify_eq.
      by apply closing_not_free in Hc. }
    destruct Hab as [He Hno]. split; [|done]. cbn [sys_table] in *.
    unfold bind_fd in H3. destruct (lookupZ (fds t2) fd); [|done]. injection H3 as <-.
    unfold update_entry in H2. rewrite Ho1, Hx in H2. injection H2 as <-. simpl.
    rewrite lookupZ_insertZ_ne by done. by rewrite Ho1.
  - pose proof (get_unlocked_inv has_close t source Ht) as Hg. rewrite H in Hg.
    destruct Hg as (_ & _ & _ & Hx & Hl). pose proof (Hlive _ _ Hx Hl) as Hne.
    destruct Hab as [He Hno]. split; [|done]. cbn [sys_table] in *.
    unfold link_fd, bind_fd, update_entry in H1. destruct (lookupZ (fds t) fd); [|done].
    simpl in H1. rewrite Hx in H1. injection H1 as <-. simpl. by rewrite lookupZ_insertZ_ne.
Qed.

Lemma abandoned_steps i e s s' :
  1 <= i -> slot_closing has_close e ->
  system_inv s -> steps s s' -> abandoned i e s -> abandoned i e s'.
Proof.
  intros Hi Hc Hinv Hst. induction Hst; [done|]. intros Hab.
  apply (abandoned_step i e s2 s3 Hi Hc (steps_inv _ _ Hst Hinv) H). by apply IHHst.
Qed.
End Concurrent.

(** ** The properties *)

(** while an operation or a pin is in flight - however closes, opens,
    duplications and other operations interleave with it - the slot it works
    on keeps its generation and its host handle, is not handed out again by the
    allocator and cannot be claimed for the final close. *)
Theorem in_flight_slot_is_stable (has_close : Z -> bool) (t : hl_linux_abi) (s : system)
    (a : activity) (i g h : Z) :
  table_wf has_close t -> steps has_close (mk_system t []) s ->
  In a (sys_acts s) -> a = Operation i g h \/ a = Pin i g h ->
  (exists e, lookupZ (ofds (sys_table s)) i = Some e /\ ofd_generation e = g /\ host_handle e = h) /\
  (forall j t', hl_linux_find_ofd (sys_table s) = Some (j, t') -> j <> i) /\
  (forall handle ops context t',
     finalize_claim i (sys_table s) <> Some (Claimed handle ops context t')).
Proof.
  intros Hwf Hst Hin Ha. pose proof (steps_inv _ _ _ Hst (initial_inv _ _ Hwf)) as Hinv.
  assert (Hs : 1 <= i /\ exists e, lookupZ (ofds (sys_table s)) i = Some e /\ ofd_generation e = g /\
    host_handle e = h /\ ~ slot_free e).
  { pose proof (sinv_supported _ _ Hinv a Hin) as Hs. by destruct Ha as [-> | ->]. }
  destruct Hs as (Hi & e & He & Hg & Hh & Hnf). split_and!.
  - by exists e.
  - intros j t' Hj ->. destruct (find_ofd_Some has_close _ _ _ (sinv_table _ _ Hinv) Hj)
      as (_ & _ & _ & _ & _ & x & Hx & Hfree). simplify_eq. by apply Hnf.
  - intros handle ops context t' Hcl. unfold finalize_claim in Hcl. rewrite He in Hcl.
    destruct (_ || _); [done|]. destruct (negb (active_operations e =? 0)) eqn:H0; [done|].
    bool_props. rewrite (sinv_active _ _ Hinv i e Hi He) in H0.
    assert (Hhold : holds i a = true) by (destruct Ha as [-> | ->]; apply Z.eqb_refl).
    pose proof (countZ_elem _ _ _ Hin Hhold). lia.
Qed.

(** in every interleaving each slot has at most one finaliser, its claim
    succeeds and hands over the handle and object of that very slot, and its
    release succeeds: the corrupt branches of the final close are dead. *)
Theorem finalizer_succeeds (has_close : Z -> bool) (t : hl_linux_abi) (s : system) (i g : Z) :
  table_wf has_close t -> steps has_close (mk_system t []) s ->
  countZ (finalizes i) (sys_acts s) <= 1 /\
  (In (Finalizing i g) (sys_acts s) ->
     exists e t', lookupZ (ofds (sys_table s)) i = Some e /\
       finalize_claim i (sys_table s) =
         Some (Claimed (host_handle e) (object_ops e) (object_context e) t')) /\
  (forall mutex, In (Releasing i g mutex) (sys_acts s) ->
     exists t', finalize_release i mutex (sys_table s) = Some (HL_STATUS_OK, t')).
Proof.
  intros Hwf Hst. pose proof (steps_inv _ _ _ Hst (initial_inv _ _ Hwf)) as Hinv.
  split; [apply (sinv_unique _ _ Hinv)|]. split.
  - intros Hin. destruct (sinv_supported _ _ Hinv _ Hin) as (Hi & e & He & Hg & Hc & Ha).
    destruct (finalize_claim_spec _ _ _ _ (sinv_table _ _ Hinv) Hi He Hc Ha) as (Hcl & _). eauto.
  - intros mutex Hin.
    destruct (sinv_supported _ _ Hinv _ Hin) as (Hi & e & He & Hg & Hc & Ha & Hcc & <-).
    destruct (finalize_release_spec _ _ _ _ (sinv_table _ _ Hinv) Hi He Hc Hcc Ha) as (Hrel & _). eauto.
Qed.

(** a slot whose last descriptor was closed while an operation was in
    flight, and whose operation then ended, is never finalised: in every later
    state it is still closing with the same host handle and mutex, the
    allocator never reuses it, and destruction finds it busy. *)
Theorem deferred_close_is_lost (has_close : Z -> bool) (t : hl_linux_abi) (s1 s2 s3 : system)
    (i g h : Z) (e : hl_linux_ofd_entry) (l1 l2 : list activity) :
  table_wf has_close t -> steps has_close (mk_system t []) s1 ->
  sys_acts s1 = l1 ++ Operation i g h :: l2 ->
  lookupZ (ofds (sys_table s1)) i = Some e -> references e = 0 -> active_operations e = 1 ->
  s2 = mk_system (put_ofd i (end_entry e) (sys_table s1)) (l1 ++ l2) ->
  steps has_close s2 s3 ->
  exists e3, lookupZ (ofds (sys_table s3)) i = Some e3 /\
    closing e3 = 1 /\ host_handle e3 = h /\ io_mutex e3 = io_mutex e /\
    (forall j t', hl_linux_find_ofd (sys_table s3) = Some (j, t') -> j <> i) /\
    (exists k, scan_from ofd_busy (drop 1 (ofds (sys_table s3))) 1 = Some k).
Proof.
  intros Hwf Hst Hacts He Hr Ha -> Hst3.
  pose proof (steps_inv _ _ _ Hst (initial_inv _ _ Hwf)) as Hinv.
  destruct (end_inv has_close s1 i e (Operation i g h) l1 l2 Hinv Hacts (Z.eqb_refl i) He)
    as (Hinv2 & Hi & Hnf & _ & Hact & Hfin).
  destruct (sinv_supported _ _ Hinv (Operation i g h)) as (_ & e' & He' & Hg & Hh & _).
  { rewrite Hacts. apply in_middle_eq. }
  rewrite He in He'. injection He' as <-.
  assert (Hc : slot_closing has_close (end_entry e)).
  { destruct (not_free_cases _ _ _ _ (sinv_table _ _ Hinv) Hi He Hnf) as [[]|[]]; [done|].
    by constructor. }
  assert (Hab : abandoned i (end_entry e)
    (mk_system (put_ofd i (end_entry e) (sys_table s1)) (l1 ++ l2))).
  { split; [by eapply lookup_put_eq|]. intros a Hin. eapply no_subject; [|exact Hfin|exact Hin].
    rewrite <- Hact. simpl. by rewrite Ha. }
  destruct (abandoned_steps _ _ _ _ _ Hi Hc Hinv2 Hst3 Hab) as [He3 _].
  pose proof (steps_inv _ _ _ Hst3 Hinv2) as Hinv3.
  exists (end_entry e). split_and!; try done; [by destruct Hc| |].
  - intros j t' Hj ->. destruct (find_ofd_Some has_close _ _ _ (sinv_table _ _ Hinv3) Hj)
      as (_ & _ & _ & _ & _ & x & Hx & Hfree). simplify_eq. by apply closing_not_free in Hc.
  - destruct (scan_from ofd_busy _ _) as [k|] eqn:Hs; [by exists k|]. exfalso.
    pose proof (scan_from_None _ _ _ Hs (i - 1) (end_entry e)) as Hn.
    rewrite lookupZ_drop in Hn by lia. replace (Z.of_nat 1 + (i - 1)) with i in Hn by lia.
    specialize (Hn He3). unfold ofd_busy in Hn. bool_props. destruct Hc. lia.
Qed.

(** ** An instance: close during a read

    One file is open as descriptor 0 on slot 1; a read of it is in flight when
    the descriptor is closed; the read then ends. *)

Definition race_table : hl_linux_abi := tbl (demo_after [CallOpenat (-100) (Some [47]) 2 0]).
Definition race_entry : hl_linux_ofd_entry := default zero_ofd (lookupZ (ofds race_table) 1).
Definition race_read : activity := Operation 1 (ofd_generation race_entry) (host_handle race_entry).
Definition race_reading : system := mk_system (put_ofd 1 (begin_entry race_entry) race_table) [race_read].
Definition race_closed : system :=
  mk_system (match close_section 0 (sys_table race_reading) with
             | Some (inr (_, t)) => t
             | _ => race_table
             end) [race_read].
Definition race_closed_entry : hl_linux_ofd_entry :=
  default zero_ofd (lookupZ (ofds (sys_table race_closed)) 1).
Definition race_over : system :=
  mk_system (put_ofd 1 (end_entry race_closed_entry) (sys_table race_closed)) [].

Lemma race_wf : table_wf (has_close demo_vtable) race_table.
Proof. apply demo_after_wf. reflexivity. Qed.

Lemma race_reaches_closed : steps (has_close demo_vtable) (mk_system race_table []) race_closed.
Proof.
  eapply steps_step; [eapply steps_step; [apply steps_refl|]|].
  - apply (step_operation_begin _ race_table [] 0 (mk_fd 1 0 1) 1 race_entry); vm_compute; reflexivity.
  - apply (step_close _ (sys_table race_reading) _ [race_read] 0 (mk_close_outcome 1 true true 0 0)
      (begin_entry race_entry)); vm_compute; reflexivity.
Qed.

Lemma in_flight_slot_is_stable_witness :
  (exists e, lookupZ (ofds (sys_table race_closed)) 1 = Some e /\
     ofd_generation e = ofd_generation race_entry /\ host_handle e = host_handle race_entry) /\
  (forall j t', hl_linux_find_ofd (sys_table race_closed) = Some (j, t') -> j <> 1) /\
  (forall handle ops context t',
     finalize_claim 1 (sys_table race_closed) <> Some (Claimed handle ops context t')).
Proof.
  apply (in_flight_slot_is_stable (has_close demo_vtable) race_table race_closed race_read 1
    (ofd_generation race_entry) (host_handle race_entry)).
  - apply race_wf.
  - apply race_reaches_closed.
  - left. reflexivity.
  - left. reflexivity.
Defined.

(** The same close with no read in flight: the closer finalises. *)
Definition plain_closed : system :=
  mk_system (match close_section 0 race_table with Some (inr (_, t)) => t | _ => race_table end)
    [Finalizing 1 (ofd_generation race_entry)].

Lemma plain_reaches_closed : steps (has_close demo_vtable) (mk_system race_table []) plain_closed.
Proof.
  eapply steps_step; [apply steps_refl|].
  apply (step_close _ race_table _ [] 0 (mk_close_outcome 1 true false 0 0) race_entry);
    vm_compute; reflexivity.
Qed.

Lemma finalizer_succeeds_witness :
  countZ (finalizes 1) (sys_acts plain_closed) <= 1 /\
  (In (Finalizing 1 (ofd_generation race_entry)) (sys_acts plain_closed) ->
     exists e t', lookupZ (ofds (sys_table plain_closed)) 1 = Some e /\
       finalize_claim 1 (sys_table plain_closed) =
         Some (Claimed (host_handle e) (object_ops e) (object_context e) t')) /\
  (forall mutex, In (Releasing 1 (ofd_generation race_entry) mutex) (sys_acts plain_closed) ->
     exists t', finalize_release 1 mutex (sys_table plain_closed) = Some (HL_STATUS_OK, t')).
Proof.
  apply (finalizer_succeeds (has_close demo_vtable) race_table plain_closed 1).
  - apply race_wf.
  - apply plain_reaches_closed.
Defined.

Lemma deferred_close_is_lost_witness :
  exists e3, lookupZ (ofds (sys_table race_over)) 1 = Some e3 /\
    closing e3 = 1 /\ host_handle e3 = host_handle race_entry /\
    io_mutex e3 = io_mutex race_closed_entry /\
    (forall j t', hl_linux_find_ofd (sys_table race_over) = Some (j, t') -> j <> 1) /\
    (exists k, scan_from ofd_busy (drop 1 (ofds (sys_table race_over))) 1 = Some k).
Proof.
  apply (deferred_close_is_lost (has_close demo_vtable) race_table race_closed race_over race_over
    1 (ofd_generation race_entry) (host_handle race_entry) race_closed_entry [] []).
  - apply race_wf.
  - apply race_reaches_closed.
  - reflexivity.
  - vm_compute. reflexivity.
  - vm_compute. reflexivity.
  - vm_compute. reflexivity.
  - reflexivity.
  - apply steps_refl.
Defined.
