(* ===== verification/FdFork.v ===== *)
(** * Typed object access and fork

    [linux_abi/object_access.c] (pins on typed objects) and the fork protocol
    of [fork_snapshot.c], [fork_completion.c] and [context.c]: prepare pins
    every live slot and clones its host object, the parent unpins and discards
    the clones, the child adopts them.  A plan's first [count] records are the
    list [fp_records]. *)

From S2P Require Import Prelude Status Host FdTable Machine FdOps FdIO.

(** ** Pins (object_access.c) *)

Record hl_linux_object_pin := mk_pin {
  pin_ofd : Z; pin_generation : Z; pin_ops : Z; pin_context : Z
}.

Record hl_linux_fork_record := mk_fork_record {
  fr_ofd : Z;
  fr_generation : Z;
  fr_parent_handle : Z;
  fr_child_handle : Z;
  fr_child_mutex : Z;
  fr_object_ops : Z;
  fr_parent_context : Z;
  fr_child_context : Z;
  fr_snapshot_pin : Z
}.

Record hl_linux_fork_plan := mk_fork_plan {
  fp_abi : Z;
  fp_size : Z;
  fp_records_null : bool;
  fp_capacity : Z;
  fp_records : list hl_linux_fork_record;
  fp_armed : Z;
  fp_host_completed : Z
}.

Definition sizeof_fork_plan : Z := 32.

Definition set_records (l : list hl_linux_fork_record) (p : hl_linux_fork_plan) : hl_linux_fork_plan :=
  mk_fork_plan (fp_abi p) (fp_size p) (fp_records_null p) (fp_capacity p) l (fp_armed p)
    (fp_host_completed p).
Definition set_phase (armed completed : Z) (p : hl_linux_fork_plan) : hl_linux_fork_plan :=
  mk_fork_plan (fp_abi p) (fp_size p) (fp_records_null p) (fp_capacity p) (fp_records p) armed
    completed.
Definition with_snapshot_pin (v : Z) (r : hl_linux_fork_record) : hl_linux_fork_record :=
  mk_fork_record (fr_ofd r) (fr_generation r) (fr_parent_handle r) (fr_child_handle r)
    (fr_child_mutex r) (fr_object_ops r) (fr_parent_context r) (fr_child_context r) v.
Definition with_child_handle (h : Z) (r : hl_linux_fork_record) : hl_linux_fork_record :=
  mk_fork_record (fr_ofd r) (fr_generation r) (fr_parent_handle r) h (fr_child_mutex r)
    (fr_object_ops r) (fr_parent_context r) (fr_child_context r) (fr_snapshot_pin r).
Definition with_child_context (c : Z) (r : hl_linux_fork_record) : hl_linux_fork_record :=
  mk_fork_record (fr_ofd r) (fr_generation r) (fr_parent_handle r) (fr_child_handle r)
    (fr_child_mutex r) (fr_object_ops r) (fr_parent_context r) c (fr_snapshot_pin r).
Definition with_child_mutex (x : Z) (r : hl_linux_fork_record) : hl_linux_fork_record :=
  mk_fork_record (fr_ofd r) (fr_generation r) (fr_parent_handle r) (fr_child_handle r) x
    (fr_object_ops r) (fr_parent_context r) (fr_child_context r) (fr_snapshot_pin r).

(** The record [fork_prepare] stores for a live slot. *)
Definition snapshot_record (i : Z) (e : hl_linux_ofd_entry) : hl_linux_fork_record :=
  mk_fork_record i (ofd_generation e) (host_handle e) HL_HOST_HANDLE_INVALID HL_HOST_HANDLE_INVALID
    (object_ops e) (object_context e) 0 1.

Section Fork.
Context {W : Type}.
Variable host : hl_host_services W.
Variable vtable : Z -> hl_linux_object_ops W.

(** ** Pins *)

Definition hl_linux_object_pin_fd (fd : Z) : M W (hl_status * option hl_linux_object_pin) :=
  let! t := get_tbl in
  match hl_linux_fd_get_unlocked t fd with
  | inl status => ret (status, None)
  | inr (_, ofd, e) =>
      if object_ops e =? 0 then ret (HL_STATUS_NOT_SUPPORTED, None)
      else
        update_ofd ofd begin_entry ;;!
        let! locked := sync_lock host (io_mutex e) in
        if is_ok (r_status locked)
        then ret (HL_STATUS_OK, Some (mk_pin ofd (ofd_generation e) (object_ops e) (object_context e)))
        else update_ofd ofd end_entry ;;! ret (r_status locked, None)
  end.

Definition hl_linux_object_pin_ofd (ofd generation : Z)
  : M W (hl_status * option hl_linux_object_pin) :=
  let! t := get_tbl in
  if (ofd =? 0) || (ofd_capacity t <=? ofd) then ret (HL_STATUS_INVALID_ARGUMENT, None)
  else
    let! e := get_ofd ofd in
    if negb (ofd_generation e =? generation) || (references e =? 0) || negb (closing e =? 0) ||
       (object_ops e =? 0)
    then ret (HL_STATUS_NOT_FOUND, None)
    else
      update_ofd ofd begin_entry ;;!
      let! locked := sync_lock host (io_mutex e) in
      if is_ok (r_status locked)
      then ret (HL_STATUS_OK, Some (mk_pin ofd generation (object_ops e) (object_context e)))
      else update_ofd ofd end_entry ;;! ret (r_status locked, None).

(** The mutex is released from the entry as it is after the decrement. *)
Definition hl_linux_object_unpin (fuel : nat) (pin : hl_linux_object_pin) : M W unit :=
  let! finalize := section (unpin_section (pin_ofd pin) (pin_generation pin)) in
  let! e := get_ofd (pin_ofd pin) in
  let! _ := sync_unlock host (io_mutex e) in
  if finalize : bool
  then let! _ := hl_linux_ofd_finalize host vtable fuel (pin_ofd pin) None in ret tt
  else ret tt.

Definition hl_linux_object_unlock (pin : hl_linux_object_pin) : M W hl_status :=
  let! e := get_ofd (pin_ofd pin) in
  let! r := sync_unlock host (io_mutex e) in ret (r_status r).
Definition hl_linux_object_relock (pin : hl_linux_object_pin) : M W hl_status :=
  let! e := get_ofd (pin_ofd pin) in
  let! r := sync_lock host (io_mutex e) in ret (r_status r).

Definition hl_linux_object_abandon (fuel : nat) (pin : hl_linux_object_pin) : M W unit :=
  let! finalize := section (unpin_section (pin_ofd pin) (pin_generation pin)) in
  if finalize : bool
  then let! _ := hl_linux_ofd_finalize host vtable fuel (pin_ofd pin) None in ret tt
  else ret tt.

Definition hl_linux_object_retired (pin : hl_linux_object_pin) : M W bool :=
  let! t := get_tbl in
  ret (match lookupZ (ofds t) (pin_ofd pin) with
       | None => true
       | Some e => negb (ofd_generation e =? pin_generation pin) || (references e =? 0) ||
                   negb (closing e =? 0)
       end).

Definition HL_LINUX_READY_ERROR : Z := 8.
Definition HL_LINUX_READY_HANGUP : Z := 16.

Definition hl_linux_object_ready (pin : hl_linux_object_pin) (interests : Z) : M W Z :=
  if pin_ops pin =? 0 then ret 0
  else
    match o_readiness (vtable (pin_ops pin)) with
    | None => ret 0
    | Some readiness =>
        let! r := call (Some (readiness (pin_context pin) interests)) in
        ret (Z.land r (Z.lor interests (Z.lor HL_LINUX_READY_ERROR HL_LINUX_READY_HANGUP)))
    end.

(** ** Helpers (context.c) *)

(** One iteration of [hl_linux_fork_unpin]. *)
Definition unpin_record (fuel : nat) (r : hl_linux_fork_record) : M W unit :=
  let! t := get_tbl in
  if (fr_snapshot_pin r =? 0) || (ofd_capacity t <=? fr_ofd r) then ret tt
  else
    let! finalize := section (unpin_section (fr_ofd r) (fr_generation r)) in
    if finalize : bool
    then let! _ := hl_linux_ofd_finalize_owned host vtable fuel (fr_ofd r) in ret tt
    else ret tt.

Fixpoint hl_linux_fork_unpin (fuel : nat) (l : list hl_linux_fork_record) : M W unit :=
  match l with
  | [] => ret tt
  | r :: l' => unpin_record fuel r ;;! hl_linux_fork_unpin fuel l'
  end.

(** The clone of one record is closed: [ops->close] or [files->close]. *)
Definition close_child (files : hl_host_file_services W) (r : hl_linux_fork_record) : M W hl_status :=
  if negb (fr_object_ops r =? 0)
  then call1 (o_close (vtable (fr_object_ops r))) (fr_child_context r)
  else let! c := call1 (f_close files) (fr_child_handle r) in ret (r_status c).

(** Children closed last first, results dropped. *)
Fixpoint close_children (files : hl_host_file_services W) (l : list hl_linux_fork_record) : M W unit :=
  match l with
  | [] => ret tt
  | r :: l' => let! _ := close_child files r in close_children files l'
  end.

Definition hl_linux_fork_discard_children (l : list hl_linux_fork_record) : M W unit :=
  (fix go l :=
     match l with
     | [] => ret tt
     | r :: l' =>
         (if negb (fr_object_ops r =? 0) then
            let! _ := call1 (o_close (vtable (fr_object_ops r))) (fr_child_context r) in ret tt
          else
            match hl_linux_files host with
            | Some files =>
                match f_close files with
                | Some close => let! _ := call (Some (close (fr_child_handle r))) in ret tt
                | None => ret tt
                end
            | None => ret tt
            end) ;;!
         go l'
     end) (rev l).

Fixpoint reset_pins (l : list hl_linux_fork_record) (t : hl_linux_abi) : hl_linux_abi :=
  match l with
  | [] => t
  | r :: l' =>
      reset_pins l'
        (if (fr_snapshot_pin r =? 0) then t
         else
           match lookupZ (ofds t) (fr_ofd r) with
           | Some e => if ofd_generation e =? fr_generation r then put_ofd (fr_ofd r) (with_active 1 e) t
                       else t
           | None => t
           end)
  end.

Definition hl_linux_fork_child_abort (fuel : nat) (l : list hl_linux_fork_record) : M W unit :=
  let! t := get_tbl in
  put_tbl (reset_pins l t) ;;!
  hl_linux_fork_unpin fuel l.

(** ** Prepare (fork_snapshot.c) *)

Definition active_unsafe (threshold : Z) (e : hl_linux_ofd_entry) : bool :=
  (threshold <? active_operations e) && negb (object_ops e =? 0) &&
  (fork_while_active_safe (vtable (object_ops e)) =? 0).

Inductive snapshot_result :=
| SnapshotDone (records : list hl_linux_fork_record)
| SnapshotBusy
| SnapshotFull (records : list hl_linux_fork_record).

(** The first loop, over the slots [index .. index + n - 1], under the lock.
    The two BUSY returns set [plan->count] to zero and leave the loop at once. *)
Fixpoint fork_snapshot (n : nat) (index capacity : Z) (records : list hl_linux_fork_record)
    (t : hl_linux_abi) : option (snapshot_result * hl_linux_abi) :=
  match n with
  | O => Some (SnapshotDone records, t)
  | S n =>
      match lookupZ (ofds t) index with
      | None => None
      | Some e =>
          if references e =? 0 then fork_snapshot n (index + 1) capacity records t
          else if active_unsafe 0 e then Some (SnapshotBusy, t)
          else if negb (closing e =? 0) then Some (SnapshotBusy, t)
          else if lengthZ records =? capacity then Some (SnapshotFull records, t)
          else fork_snapshot n (index + 1) capacity (records ++ [snapshot_record index e])
                 (put_ofd index (begin_entry e) t)
      end
  end.

(** The clone of one record; the record keeps whatever the callback returned. *)
Definition clone_record (files : hl_host_file_services W) (r : hl_linux_fork_record)
  : M W (hl_status * hl_linux_fork_record) :=
  if negb (fr_object_ops r =? 0) then
    match o_clone (vtable (fr_object_ops r)) with
    | None => ret (HL_STATUS_NOT_SUPPORTED, r)
    | Some clone =>
        let! c := call (Some (clone (fr_parent_context r))) in
        let '(status, child) := c in
        ret (if is_ok status && (child =? 0) then HL_STATUS_PLATFORM_FAILURE else status,
             with_child_context child r)
    end
  else
    let! c := call1 (f_clone_for_fork files) (fr_parent_handle r) in
    ret (if is_ok (r_status c) && (r_value c =? HL_HOST_HANDLE_INVALID)
         then HL_STATUS_PLATFORM_FAILURE else r_status c,
         with_child_handle (r_value c) r).

(** [done] are the records cloned so far; on failure they are rolled back, last
    first, and every record of the plan is unpinned. *)
Fixpoint clone_all (fuel : nat) (files : hl_host_file_services W)
    (done pending : list hl_linux_fork_record) : M W (hl_status + list hl_linux_fork_record) :=
  match pending with
  | [] => ret (inr done)
  | r :: pending' =>
      let! c := clone_record files r in
      let '(status, r') := c in
      if negb (is_ok status) then
        close_children files (rev done) ;;!
        hl_linux_fork_unpin fuel (done ++ r' :: pending') ;;!
        ret (inl status)
      else clone_all fuel files (done ++ [r']) pending'
  end.

Definition record_matches (i : Z) (e : hl_linux_ofd_entry) (r : hl_linux_fork_record) : bool :=
  (fr_ofd r =? i) && (fr_generation r =? ofd_generation e) && (fr_parent_handle r =? host_handle e) &&
  (fr_object_ops r =? object_ops e) && (fr_parent_context r =? object_context e).

Inductive arm_check := ArmOk | ArmBusy | ArmTopology.

(** The bijection test: every live slot has exactly one record ... *)
Fixpoint check_slots (records : list hl_linux_fork_record) (i : Z) (l : list hl_linux_ofd_entry)
  : arm_check :=
  match l with
  | [] => ArmOk
  | e :: l' =>
      if references e =? 0 then check_slots records (i + 1) l'
      else if active_unsafe 1 e then ArmBusy
      else if negb (countZ (record_matches i e) records =? 1) || negb (closing e =? 0)
      then ArmTopology
      else check_slots records (i + 1) l'
  end.

(** ... and every record a live slot. *)
Definition record_current (t : hl_linux_abi) (r : hl_linux_fork_record) : bool :=
  match lookupZ (ofds t) (fr_ofd r) with
  | None => false
  | Some e => negb (references e =? 0) && record_matches (fr_ofd r) e r
  end.

Definition fork_check (t : hl_linux_abi) (records : list hl_linux_fork_record) : arm_check :=
  match check_slots records 1 (drop 1 (ofds t)) with
  | ArmOk => if forallb (record_current t) records then ArmOk else ArmTopology
  | bad => bad
  end.

Definition hl_linux_fork_plan_output_prepare (plan : hl_linux_fork_plan) : bool * hl_linux_fork_plan :=
  if negb (fp_abi plan =? HL_LINUX_ABI_VERSION) || (fp_size plan <? sizeof_fork_plan)
  then (false, plan) else (true, set_phase 0 0 (set_records [] plan)).

(** From [retry_snapshot]; [again] is the [goto retry_snapshot]. *)
Definition fork_attempt_body (again : hl_linux_fork_plan -> M W (hl_status * hl_linux_fork_plan))
    (fuel : nat) (files : hl_host_file_services W) (arm : W -> hl_host_result * W)
    (plan : hl_linux_fork_plan) : M W (hl_status * hl_linux_fork_plan) :=
  let! t := get_tbl in
  if negb (reserved_fds t =? 0) then ret (HL_STATUS_BUSY, plan)
  else
    let! snapshot := section (fork_snapshot (Z.to_nat (ofd_watermark t - 1)) 1 (fp_capacity plan) []) in
    match snapshot with
    | SnapshotBusy => ret (HL_STATUS_BUSY, set_records [] plan)
    | SnapshotFull records =>
        hl_linux_fork_unpin fuel records ;;! ret (HL_STATUS_RESOURCE_LIMIT, set_records [] plan)
    | SnapshotDone records =>
        let! cloned := clone_all fuel files [] records in
        match cloned with
        | inl status => ret (status, set_records [] plan)
        | inr records =>
            let! t := get_tbl in
            let failed (topology_changed : bool) : M W (hl_status * hl_linux_fork_plan) :=
              close_children files (rev records) ;;!
              hl_linux_fork_unpin fuel records ;;!
              if topology_changed then again (set_records [] plan)
              else ret (HL_STATUS_BUSY, set_records [] plan) in
            match fork_check t records with
            | ArmBusy => failed false
            | ArmTopology => failed true
            | ArmOk =>
                let! armed := call (Some arm) in
                if negb (is_ok (r_status armed)) then failed false
                else ret (HL_STATUS_OK, set_phase 1 (fp_host_completed plan) (set_records records plan))
            end
        end
    end.

(** [retries] bounds the retries after a topology change. *)
Fixpoint fork_attempt (retries fuel : nat) (files : hl_host_file_services W)
    (arm : W -> hl_host_result * W) (plan : hl_linux_fork_plan)
  : M W (hl_status * hl_linux_fork_plan) :=
  fork_attempt_body
    (match retries with
     | O => fun _ => undefined
     | S retries => fork_attempt retries fuel files arm
     end) fuel files arm plan.

Definition hl_linux_abi_fork_prepare (retries fuel : nat) (plan : hl_linux_fork_plan)
  : M W (hl_status * hl_linux_fork_plan) :=
  let '(prepared, plan) := hl_linux_fork_plan_output_prepare plan in
  if negb prepared then ret (HL_STATUS_INVALID_ARGUMENT, plan)
  else
    let! t := get_tbl in
    if negb (abi_version t =? HL_LINUX_ABI_VERSION) ||
       (negb (fp_capacity plan =? 0) && fp_records_null plan)
    then ret (HL_STATUS_INVALID_ARGUMENT, plan)
    else
      match hl_linux_files host, hl_linux_sync host with
      | Some files, Some sync =>
          match f_clone_for_fork files, f_close files, fork_prepare sync with
          | Some _, Some _, Some arm => fork_attempt retries fuel files arm plan
          | _, _, _ => ret (HL_STATUS_NOT_SUPPORTED, plan)
          end
      | _, _ => ret (HL_STATUS_NOT_SUPPORTED, plan)
      end.

(** ** Completion (fork_completion.c) *)

Definition hl_linux_abi_fork_host_completed (plan : hl_linux_fork_plan) : hl_status * hl_linux_fork_plan :=
  if negb (fp_abi plan =? HL_LINUX_ABI_VERSION) || (fp_size plan <? sizeof_fork_plan) ||
     (fp_armed plan =? 0) || negb (fp_host_completed plan =? 0)
  then (HL_STATUS_INVALID_ARGUMENT, plan)
  else (HL_STATUS_OK, set_phase (fp_armed plan) 1 plan).

(** The unpin loop of the parent, which still holds the lock; 2 marks a slot
    whose final close the pin had deferred. *)
Fixpoint parent_unpin (l : list hl_linux_fork_record) (t : hl_linux_abi)
  : list hl_linux_fork_record * hl_linux_abi :=
  match l with
  | [] => ([], t)
  | r :: l' =>
      let '(r', t') :=
        if fr_snapshot_pin r =? 0 then (r, t)
        else
          match lookupZ (ofds t) (fr_ofd r) with
          | None => (r, t)
          | Some e =>
              if (ofd_generation e =? fr_generation r) && negb (active_operations e =? 0) then
                let e' := end_entry e in
                (with_snapshot_pin
                   (if (active_operations e' =? 0) && (references e' =? 0) && negb (closing e' =? 0)
                    then 2 else 0) r,
                 put_ofd (fr_ofd r) e' t)
              else (with_snapshot_pin 0 r, t)
          end in
      let '(l'', t'') := parent_unpin l' t' in (r' :: l'', t'')
  end.

Fixpoint finalize_marked (fuel : nat) (l : list hl_linux_fork_record) : M W unit :=
  match l with
  | [] => ret tt
  | r :: l' =>
      let! t := get_tbl in
      (if negb (fr_snapshot_pin r =? 2) then ret tt
       else
         match lookupZ (ofds t) (fr_ofd r) with
         | None => ret tt
         | Some e =>
             if ofd_generation e =? fr_generation r
             then let! _ := hl_linux_ofd_finalize_owned host vtable fuel (fr_ofd r) in ret tt
             else ret tt
         end) ;;!
      finalize_marked fuel l'
  end.

Fixpoint close_children_status (files : hl_host_file_services W) (l : list hl_linux_fork_record)
    (status : hl_status) : M W hl_status :=
  match l with
  | [] => ret status
  | r :: l' =>
      let! closed := close_child files r in
      close_children_status files l' (keep_first status closed)
  end.

Definition hl_linux_abi_fork_parent (fuel : nat) (plan : hl_linux_fork_plan)
  : M W (hl_status * hl_linux_fork_plan) :=
  if negb (fp_abi plan =? HL_LINUX_ABI_VERSION) then ret (HL_STATUS_INVALID_ARGUMENT, plan)
  else
    match hl_linux_files host, hl_linux_sync host with
    | Some files, Some sync =>
        match f_close files, fork_parent sync with
        | Some _, Some resume =>
            if fp_armed plan =? 0 then ret (HL_STATUS_INVALID_ARGUMENT, plan)
            else
              let! completed :=
                (if fp_host_completed plan =? 0 then call (Some resume)
                 else ret (mk_result HL_STATUS_OK 0 0)) in
              let! t := get_tbl in
              let '(records, t') := parent_unpin (fp_records plan) t in
              put_tbl t' ;;!
              finalize_marked fuel records ;;!
              let! status := close_children_status files (rev records)
                               (keep_first HL_STATUS_OK (r_status completed)) in
              ret (status, set_records [] (set_phase 0 0 plan))
        | _, _ => ret (HL_STATUS_NOT_SUPPORTED, plan)
        end
    | _, _ => ret (HL_STATUS_NOT_SUPPORTED, plan)
    end.

(** Phase one of the child: validate a record and create its new mutex. *)
Fixpoint child_mutexes (sync : hl_host_sync_services W) (done pending : list hl_linux_fork_record)
  : M W (hl_status + list hl_linux_fork_record) :=
  match pending with
  | [] => ret (inr done)
  | r :: pending' =>
      let fail (status : hl_status) : M W (hl_status + list hl_linux_fork_record) :=
        (fix close_mutexes l :=
           match l with
           | [] => ret (inl status)
           | d :: l' => let! _ := call1 (mutex_close sync) (fr_child_mutex d) in close_mutexes l'
           end) (rev done) in
      let! t := get_tbl in
      match lookupZ (ofds t) (fr_ofd r) with
      | Some e =>
          if negb (record_matches (fr_ofd r) e r) then fail HL_STATUS_CORRUPT
          else
            let! created := call (mutex_create sync) in
            if negb (is_ok (r_status created)) || (r_value created =? HL_HOST_HANDLE_INVALID)
            then fail (if is_ok (r_status created) then HL_STATUS_PLATFORM_FAILURE
                       else r_status created)
            else child_mutexes sync (done ++ [with_child_mutex (r_value created) r]) pending'
      | None => fail HL_STATUS_CORRUPT
      end
  end.

(** Phase two: adopt the clone and the mutex, release the inherited copies. *)
Definition adopt_entry (r : hl_linux_fork_record) (e : hl_linux_ofd_entry) : hl_linux_ofd_entry :=
  let e := with_io_mutex (fr_child_mutex r) (with_active 0 e) in
  if negb (fr_object_ops r =? 0) then with_object_context (fr_child_context r) e
  else with_host_handle (fr_child_handle r) e.

Fixpoint child_adopt (files : hl_host_file_services W) (sync : hl_host_sync_services W)
    (l : list hl_linux_fork_record) : M W unit :=
  match l with
  | [] => ret tt
  | r :: l' =>
      let! e := get_ofd (fr_ofd r) in
      let! _ := call1 (mutex_close sync) (io_mutex e) in
      update_ofd (fr_ofd r) (adopt_entry r) ;;!
      (if negb (fr_object_ops r =? 0)
       then let! _ := call1 (o_close (vtable (fr_object_ops r))) (fr_parent_context r) in ret tt
       else let! _ := call1 (f_close files) (fr_parent_handle r) in ret tt) ;;!
      child_adopt files sync l'
  end.

Definition hl_linux_abi_fork_child (fuel : nat) (plan : hl_linux_fork_plan)
  : M W (hl_status * hl_linux_fork_plan) :=
  if negb (fp_abi plan =? HL_LINUX_ABI_VERSION) then ret (HL_STATUS_INVALID_ARGUMENT, plan)
  else
    match hl_linux_files host, hl_linux_sync host with
    | Some files, Some sync =>
        match f_close files, mutex_create sync, mutex_close sync, fork_child sync with
        | Some _, Some _, Some _, Some resume =>
            if fp_armed plan =? 0 then ret (HL_STATUS_NOT_SUPPORTED, plan)
            else
              let abort (status : hl_status) : M W (hl_status * hl_linux_fork_plan) :=
                hl_linux_fork_child_abort fuel (fp_records plan) ;;!
                hl_linux_fork_discard_children (fp_records plan) ;;!
                ret (status, set_records [] (set_phase 0 0 plan)) in
              let! completed :=
                (if fp_host_completed plan =? 0 then call (Some resume)
                 else ret (mk_result HL_STATUS_OK 0 0)) in
              if negb (is_ok (r_status completed)) then abort (r_status completed)
              else
                let! made := child_mutexes sync [] (fp_records plan) in
                match made with
                | inl status => abort status
                | inr records =>
                    child_adopt files sync records ;;!
                    ret (HL_STATUS_OK, set_records [] (set_phase 0 0 plan))
                end
        | _, _, _, _ => ret (HL_STATUS_NOT_SUPPORTED, plan)
        end
    | _, _ => ret (HL_STATUS_NOT_SUPPORTED, plan)
    end.
End Fork.
