(* ===== verification/FdForkTheorems.v ===== *)
(** * Fork: what holds of it

    Lemmas and properties of the fork protocol of FdFork.v on a quiescent
    table: prepare pins and records exactly the live slots or changes nothing,
    the parent's completion undoes the pins, the child adopts the clones; pins
    keep a typed object alive across a close.  Slot 0 is never used, so the
    slots are the tail of [ofds]. *)

From S2P Require Import Prelude Status Host FdTable Machine FdOps FdIO FdInvariant FdSections.
From S2P Require Import FdHandlers FdCalls Demo FdFork.

(** ** The snapshot as a list function *)

Definition pin_live (e : hl_linux_ofd_entry) : hl_linux_ofd_entry :=
  if references e =? 0 then e else begin_entry e.

(** The records of the live slots of [l], the first of which has index [i]. *)
Fixpoint live_records (i : Z) (l : list hl_linux_ofd_entry) : list hl_linux_fork_record :=
  match l with
  | [] => []
  | e :: l' =>
      if references e =? 0 then live_records (i + 1) l'
      else snapshot_record i e :: live_records (i + 1) l'
  end.

(** The fields of a record that prepare fixes under the lock. *)
Definition snapshot_part (r : hl_linux_fork_record) : hl_linux_fork_record :=
  with_child_handle 0 (with_child_context 0 (with_child_mutex 0 r)).

(** [first t :: slots t] is the array. *)
Definition unused_slot (t : hl_linux_abi) : list hl_linux_ofd_entry := take 1 (ofds t).
Definition slots (t : hl_linux_abi) : list hl_linux_ofd_entry := drop 1 (ofds t).
Definition with_slots (l : list hl_linux_ofd_entry) (t : hl_linux_abi) : hl_linux_abi :=
  set_ofds (unused_slot t ++ l) t.

(** The table prepare leaves: every live slot pinned once more. *)
Definition pinned (t : hl_linux_abi) : hl_linux_abi := with_slots (map pin_live (slots t)) t.

Definition slot_quiet (e : hl_linux_ofd_entry) : Prop := active_operations e = 0 /\ closing e = 0.

(** A child exists for the record. *)
Definition child_made (r : hl_linux_fork_record) : Prop :=
  if fr_object_ops r =? 0 then fr_child_handle r <> HL_HOST_HANDLE_INVALID
  else fr_child_context r <> 0.

Lemma snapshot_part_id i e : snapshot_part (snapshot_record i e) = snapshot_record i e.
Proof. done. Qed.

Lemma ofds_split t : ofds t = unused_slot t ++ slots t.
Proof. unfold unused_slot, slots. by rewrite take_drop. Qed.

Lemma set_ofds_id t : set_ofds (ofds t) t = t.
Proof. by destruct t. Qed.

Lemma with_slots_id t : with_slots (slots t) t = t.
Proof. unfold with_slots. rewrite <- ofds_split. apply set_ofds_id. Qed.

Lemma set_ofds_set_ofds l k t : set_ofds l (set_ofds k t) = set_ofds l t.
Proof. done. Qed.

Lemma put_ofd_middle pre e e' suf t :
  ofds t = pre ++ e :: suf -> put_ofd (lengthZ pre) e' t = set_ofds (pre ++ e' :: suf) t.
Proof. intros Ht. unfold put_ofd. by rewrite Ht, insertZ_middle. Qed.

Lemma lookup_middle pre e suf t :
  ofds t = pre ++ e :: suf -> lookupZ (ofds t) (lengthZ pre) = Some e.
Proof. intros ->. apply lookupZ_middle. Qed.

Lemma cons_parts {A} (x y : A) l k : x :: l = y :: k -> x = y /\ l = k.
Proof. by intros [= -> ->]. Qed.

Lemma pin_live_live e : references e <> 0 -> pin_live e = begin_entry e.
Proof. unfold pin_live. by destruct (Z.eqb_spec (references e) 0). Qed.

Lemma begin_quiet e : slot_quiet e -> end_entry (begin_entry e) = e /\ active_operations (begin_entry e) = 1.
Proof.
  intros [Ha _]. split; [apply begin_end_entry; rewrite Ha; lia|]. simpl. by rewrite Ha.
Qed.

Lemma record_matches_part i e r : record_matches i e r = record_matches i e (snapshot_part r).
Proof. done. Qed.

Lemma record_matches_begin i e r : record_matches i (begin_entry e) r = record_matches i e r.
Proof. done. Qed.

Lemma record_matches_snapshot i e : record_matches i e (snapshot_record i e) = true.
Proof. unfold record_matches. simpl. by rewrite !Z.eqb_refl. Qed.

(** ** The record list *)

Lemma live_records_app l k : forall i,
  live_records i (l ++ k) = live_records i l ++ live_records (i + lengthZ l) k.
Proof.
  induction l as [|e l IH]; intros i; simpl; [by rewrite Z.add_0_r|].
  rewrite IH, lengthZ_cons. replace (i + 1 + lengthZ l) with (i + (lengthZ l + 1)) by lia.
  by destruct (references e =? 0).
Qed.

Lemma live_records_in l r : forall i,
  In r (live_records i l) <->
  exists k e, lookupZ l k = Some e /\ references e <> 0 /\ r = snapshot_record (i + k) e.
Proof.
  induction l as [|x l IH]; intros i; simpl.
  - split; [done|]. intros (k & e & He & _). apply lookupZ_Some_range in He.
    unfold lengthZ in He. simpl in He. lia.
  - assert (Htl : In r (live_records (i + 1) l) <-> exists k e, 0 < k /\
      lookupZ (x :: l) k = Some e /\ references e <> 0 /\ r = snapshot_record (i + k) e).
    { rewrite IH. split; intros (k & e & H).
      - exists (k + 1), e. destruct H as (He & Hr & ->). pose proof (lookupZ_Some_range _ _ _ He).
        rewrite lookupZ_cons_succ by lia. replace (k + 1 - 1) with k by lia.
        split_and!; [lia|done|done|]. f_equal. lia.
      - destruct H as (Hk & He & Hr & ->). rewrite lookupZ_cons_succ in He by lia.
        exists (k - 1), e. split_and!; [done|done|]. f_equal. lia. }
    destruct (Z.eqb_spec (references x) 0) as [H0|H0]; simpl; rewrite Htl; split.
    + intros (k & e & _ & H). eauto.
    + intros (k & e & He & Hr & ->). pose proof (lookupZ_Some_range _ _ _ He).
      exists k, e. split_and!; try done. destruct (decide (k = 0)) as [->|]; [|lia].
      injection He as ->. done.
    + intros [<-|(k & e & _ & H)]; [|eauto]. exists 0, x. by rewrite Z.add_0_r.
    + intros (k & e & He & Hr & ->). pose proof (lookupZ_Some_range _ _ _ He).
      destruct (decide (k = 0)) as [->|]; [left; injection He as ->; by rewrite Z.add_0_r|].
      right. exists k, e. split_and!; try done. lia.
Qed.

Lemma live_records_self l : forall i, map snapshot_part (live_records i l) = live_records i l.
Proof.
  induction l as [|e l IH]; intros i; simpl; [done|]. destruct (references e =? 0); [done|].
  simpl. by rewrite IH.
Qed.

(** A live slot has exactly one record, a record exactly one slot. *)
Lemma live_records_match l : forall i k e,
  lookupZ l k = Some e -> references e <> 0 ->
  countZ (record_matches (i + k) e) (live_records i l) = 1.
Proof.
  assert (Hno : forall l i j e, j < i -> countZ (record_matches j e) (live_records i l) = 0).
  { intros l' i j e Hj. apply countZ_none. intros r Hr. apply live_records_in in Hr as (k & e' & Hk & _ & ->).
    pose proof (lookupZ_Some_range _ _ _ Hk). unfold record_matches. simpl.
    destruct (Z.eqb_spec (i + k) j); [lia|done]. }
  induction l as [|x l IH]; intros i k e He Hr.
  { apply lookupZ_Some_range in He. unfold lengthZ in He. simpl in He. lia. }
  pose proof (lookupZ_Some_range _ _ _ He). destruct (decide (k = 0)) as [->|Hk].
  - injection He as ->. rewrite Z.add_0_r. simpl. destruct (Z.eqb_spec (references e) 0); [done|].
    simpl. rewrite record_matches_snapshot, Hno by lia. lia.
  - rewrite lookupZ_cons_succ in He by lia. specialize (IH (i + 1) (k - 1) e He Hr).
    replace (i + 1 + (k - 1)) with (i + k) in IH by lia. simpl.
    destruct (references x =? 0); [done|]. simpl. rewrite IH.
    unfold record_matches at 1. simpl. destruct (Z.eqb_spec i (i + k)); [lia|done].
Qed.

Lemma count_part i e recs :
  countZ (record_matches i e) (map snapshot_part recs) = countZ (record_matches i e) recs.
Proof. induction recs as [|r recs IH]; simpl; [done|]. by rewrite IH, <- record_matches_part. Qed.

(** ** The arm check *)

Lemma check_slots_pinned {W} (vtable : Z -> hl_linux_object_ops W) recs l0 : forall l i,
  Forall slot_quiet l ->
  (forall k e, lookupZ l k = Some e -> references e <> 0 ->
     countZ (record_matches (i + k) e) recs = 1) ->
  l0 = map pin_live l -> check_slots vtable recs i l0 = ArmOk.
Proof.
  revert l0. intros l0 l. revert l0. induction l as [|x l IH]; intros l0 i Hq Hc ->; [done|].
  inversion Hq as [|? ? Hx Hq']; subst. simpl.
  assert (Hrest : check_slots vtable recs (i + 1) (map pin_live l) = ArmOk).
  { apply IH; [done| |done]. intros k e He Hr. pose proof (lookupZ_Some_range _ _ _ He).
    replace (i + 1 + k) with (i + (k + 1)) by lia. apply Hc; [|done].
    rewrite lookupZ_cons_succ by lia. by replace (k + 1 - 1) with k by lia. }
  destruct (Z.eqb_spec (references x) 0) as [H0|H0].
  { unfold pin_live at 1. rewrite H0. simpl. by rewrite H0. }
  rewrite pin_live_live by done. specialize (Hc 0 x eq_refl H0). rewrite Z.add_0_r in Hc.
  destruct (begin_quiet _ Hx) as [_ Ha]. destruct Hx as [_ Hcl].
  change (references (begin_entry x)) with (references x).
  destruct (Z.eqb_spec (references x) 0); [done|].
  unfold active_unsafe. rewrite Ha. simpl.
  change (closing (begin_entry x)) with (closing x). rewrite Hcl.
  replace (countZ (record_matches i (begin_entry x)) recs) with 1 by exact (eq_sym Hc). done.
Qed.

Lemma fork_check_pinned {W} (vtable : Z -> hl_linux_object_ops W) t recs :
  1 <= lengthZ (ofds t) -> Forall slot_quiet (slots t) ->
  map snapshot_part recs = live_records 1 (slots t) ->
  fork_check vtable (pinned t) recs = ArmOk.
Proof.
  intros Hlen Hq Hrecs. unfold fork_check.
  assert (Hpre : lengthZ (unused_slot t) = 1).
  { unfold unused_slot, lengthZ in *. rewrite length_take. lia. }
  assert (Hsl : drop 1 (ofds (pinned t)) = map pin_live (slots t)).
  { simpl. unfold unused_slot, lengthZ in *. rewrite drop_app_length'; [done|lia]. }
  rewrite Hsl, (check_slots_pinned vtable recs _ (slots t)); [|done| |done].
  - replace (forallb _ recs) with true; [done|]. symmetry. apply forallb_forall. intros r Hr.
    assert (Hin : In (snapshot_part r) (live_records 1 (slots t))).
    { rewrite <- Hrecs. by apply in_map. }
    apply live_records_in in Hin as (k & e & He & Hre & Hpart). unfold record_current.
    assert (Hofd : fr_ofd r = 1 + k) by (change (fr_ofd r) with (fr_ofd (snapshot_part r)); by rewrite Hpart).
    pose proof (lookupZ_Some_range _ _ _ He).
    assert (Hl : lookupZ (ofds (pinned t)) (1 + k) = Some (begin_entry e)).
    { rewrite <- Hpre. simpl. rewrite lookupZ_app_r by lia. rewrite lookupZ_map, He. simpl.
      by rewrite pin_live_live. }
    rewrite Hofd, Hl. simpl. destruct (Z.eqb_spec (references e) 0); [done|]. simpl.
    rewrite record_matches_part, Hpart, record_matches_begin. apply record_matches_snapshot.
  - intros k e He Hr. rewrite <- count_part, Hrecs. by apply live_records_match.
Qed.

(** ** The loops of prepare and completion *)

Lemma fork_snapshot_spec {W} (vtable : Z -> hl_linux_object_ops W) cap l : forall pre suf recs t,
  ofds t = pre ++ l ++ suf -> Forall slot_quiet l ->
  fork_snapshot vtable (length l) (lengthZ pre) cap recs t =
    Some (SnapshotDone (recs ++ live_records (lengthZ pre) l), set_ofds (pre ++ map pin_live l ++ suf) t)
  \/ exists l1 l2, l = l1 ++ l2 /\
     lengthZ (recs ++ live_records (lengthZ pre) l1) = cap /\ live_records (lengthZ pre) l1 <> live_records (lengthZ pre) l /\
     fork_snapshot vtable (length l) (lengthZ pre) cap recs t =
       Some (SnapshotFull (recs ++ live_records (lengthZ pre) l1),
             set_ofds (pre ++ map pin_live l1 ++ l2 ++ suf) t).
Proof.
  induction l as [|e l IH]; intros pre suf recs t Ht Hq; simpl.
  { left. rewrite app_nil_r. rewrite app_nil_l in Ht. by rewrite <- Ht, set_ofds_id. }
  inversion Hq as [|? ? He Hq']; subst. simpl in Ht. rewrite (lookup_middle _ _ _ _ Ht).
  assert (Hpre : lengthZ pre + 1 = lengthZ (pre ++ [e])) by (rewrite lengthZ_app; done).
  destruct (Z.eqb_spec (references e) 0) as [H0|H0].
  - rewrite Hpre. destruct (IH (pre ++ [e]) suf recs t) as [->|(l1 & l2 & -> & Hc & Hne & ->)];
      [by rewrite <- app_assoc|done| |].
    + left. rewrite <- app_assoc. simpl. unfold pin_live at 2. by rewrite H0.
    + right. exists (e :: l1), l2. simpl. rewrite H0. simpl. rewrite Hpre. split_and!; try done.
      rewrite <- app_assoc. simpl. unfold pin_live at 2. by rewrite H0.
  - destruct He as [Ha Hcl]. unfold active_unsafe. rewrite Ha, Hcl. simpl.
    destruct (Z.eqb_spec (lengthZ recs) cap) as [Hcap|Hcap].
    { right. exists [], (e :: l). simpl. rewrite app_nil_r. split_and!; [done|done| |].
      - destruct (references e =? 0) eqn:Hb; [by apply Z.eqb_eq in Hb|done].
      - by rewrite <- Ht, set_ofds_id. }
    rewrite (put_ofd_middle _ _ _ _ _ Ht).
    assert (Hpre' : lengthZ pre + 1 = lengthZ (pre ++ [begin_entry e])) by (rewrite lengthZ_app; done).
    rewrite Hpre'.
    destruct (IH (pre ++ [begin_entry e]) suf (recs ++ [snapshot_record (lengthZ pre) e])
                (set_ofds (pre ++ begin_entry e :: l ++ suf) t)) as [->|(l1 & l2 & -> & Hc & Hne & ->)];
      [by rewrite <- app_assoc|done| |].
    + left. rewrite <- !app_assoc. simpl. by rewrite (pin_live_live e) by done.
    + right. exists (e :: l1), l2. simpl. destruct (references e =? 0) eqn:Hb; [by apply Z.eqb_eq in Hb|].
      rewrite Hpre'. rewrite <- !app_assoc in *. simpl in *. rewrite (pin_live_live e) by done.
      split_and!; try done. by intros [= ?].
Qed.

Section Loops.
Context {W : Type}.
Variable host : hl_host_services W.
Variable vtable : Z -> hl_linux_object_ops W.
Context `{!HostReady host}.

(** Unpinning the records of quiet slots restores them and finalises nothing. *)
Lemma wp_fork_unpin fuel l : forall pre suf recs Q (s : machine W),
  ofds (tbl s) = pre ++ map pin_live l ++ suf -> Forall slot_quiet l ->
  map snapshot_part recs = live_records (lengthZ pre) l ->
  (forall s', tbl s' = set_ofds (pre ++ l ++ suf) (tbl s) -> Q tt s') ->
  wp (hl_linux_fork_unpin host vtable fuel recs) Q s.
Proof.
  induction l as [|e l IH]; intros pre suf recs Q s Ht Hq Hr HQ.
  { destruct recs; [|done]. apply wp_ret, HQ. simpl in Ht |- *.
    by rewrite <- Ht, set_ofds_id. }
  inversion Hq as [|? ? He Hq']; subst. simpl in Hr, Ht.
  destruct (Z.eqb_spec (references e) 0) as [H0|H0].
  - assert (Hpre : lengthZ pre + 1 = lengthZ (pre ++ [e])) by (rewrite lengthZ_app; done).
    rewrite Hpre in Hr. apply (IH (pre ++ [e]) suf); [|done|done|].
    + rewrite <- app_assoc. simpl. unfold pin_live in Ht at 1. by rewrite H0 in Ht.
    + intros s' Ht'. apply HQ. by rewrite Ht', <- app_assoc.
  - destruct recs as [|r recs]; [done|]. simpl in Hr. destruct (cons_parts _ _ _ _ Hr) as [Hrec Hrecs].
    pose proof (f_equal fr_ofd Hrec) as Hr1. pose proof (f_equal fr_generation Hrec) as Hr2.
    pose proof (f_equal fr_snapshot_pin Hrec) as Hr3. simpl in Hr1, Hr2, Hr3.
    rewrite pin_live_live in Ht by done. destruct (begin_quiet _ He) as [Hee Ha]. simpl.
    apply wp_bind. unfold unpin_record. apply wp_bind, wp_get_tbl.
    assert (Hl : lookupZ (ofds (tbl s)) (lengthZ pre) = Some (begin_entry e)) by (by eapply lookup_middle).
    pose proof (lookupZ_Some_range _ _ _ Hl).
    unfold ofd_capacity. rewrite Hr1, Hr3. destruct (Z.leb_spec (lengthZ (ofds (tbl s))) (lengthZ pre)); [lia|].
    simpl. apply wp_bind. apply (wp_section _ false (put_ofd (lengthZ pre) e (tbl s))).
    { unfold unpin_section. rewrite Hl, Hr2. simpl. rewrite Z.eqb_refl.
      change (u32 (active_operations e + 1)) with (active_operations (begin_entry e)).
      rewrite Ha. simpl. rewrite Hee. destruct (Z.eqb_spec (references e) 0); [done|]. done. }
    cbn beta iota. apply wp_ret. rewrite (put_ofd_middle _ _ _ _ _ Ht).
    assert (Hpre : lengthZ pre + 1 = lengthZ (pre ++ [e])) by (rewrite lengthZ_app; done).
    rewrite Hpre in *. apply (IH (pre ++ [e]) suf); [by rewrite <- app_assoc|done|done|].
    intros s' Ht'. apply HQ. by rewrite Ht', <- app_assoc.
Qed.

(** The close callbacks the rollbacks rely on. *)
Definition closable (r : hl_linux_fork_record) : Prop :=
  fr_object_ops r = 0 \/ has_close vtable (fr_object_ops r) = true.

Lemma closable_part r : closable r <-> closable (snapshot_part r).
Proof. done. Qed.

Lemma wp_close_child files close r Q (s : machine W) :
  f_close files = Some close -> closable r ->
  (forall status w, Q status (set_world w s)) -> wp (close_child vtable files r) Q s.
Proof.
  intros Hf Hc HQ. unfold close_child. destruct (Z.eqb_spec (fr_object_ops r) 0) as [H0|H0]; simpl.
  - unfold call1. rewrite Hf. wp_steps. apply HQ.
  - destruct Hc as [|Hc]; [done|]. unfold has_close in Hc. unfold call1.
    destruct (o_close (vtable (fr_object_ops r))); [|done]. by wp_steps.
Qed.

Lemma wp_close_children files close l : forall Q (s : machine W),
  f_close files = Some close -> Forall closable l ->
  (forall w, Q tt (set_world w s)) -> wp (close_children vtable files l) Q s.
Proof.
  induction l as [|r l IH]; intros Q s Hf Hl HQ; simpl.
  { apply wp_ret. specialize (HQ (world s)). by rewrite set_world_world in HQ. }
  inversion Hl; subst. apply wp_bind. apply (wp_close_child _ close); [done|done|].
  intros status w. apply IH; [done|done|]. intros w'. apply HQ.
Qed.

Lemma wp_close_children_status files close l : forall st Q (s : machine W),
  f_close files = Some close -> Forall closable l ->
  (forall st' w, Q st' (set_world w s)) -> wp (close_children_status vtable files l st) Q s.
Proof.
  induction l as [|r l IH]; intros st Q s Hf Hl HQ; simpl.
  { apply wp_ret. specialize (HQ st (world s)). by rewrite set_world_world in HQ. }
  inversion Hl; subst. apply wp_bind. apply (wp_close_child _ close); [done|done|].
  intros status w. apply IH; [done|done|]. intros st' w'. apply HQ.
Qed.

(** One clone: a success leaves a child in the record. *)
Lemma wp_clone_record files clone r Q (s : machine W) :
  f_clone_for_fork files = Some clone ->
  (forall status r' w, snapshot_part r' = snapshot_part r ->
     (status = HL_STATUS_OK -> child_made r') -> Q (status, r') (set_world w s)) ->
  wp (clone_record vtable files r) Q s.
Proof.
  intros Hf HQ. unfold clone_record. destruct (Z.eqb_spec (fr_object_ops r) 0) as [H0|H0]; simpl.
  - unfold call1. rewrite Hf. wp_steps. apply HQ; [done|]. unfold child_made. simpl. rewrite H0. simpl.
    destruct (r_status b); simpl; try done.
    destruct (Z.eqb_spec (r_value b) HL_HOST_HANDLE_INVALID); [done|done].
  - destruct (o_clone (vtable (fr_object_ops r))) as [c|].
    + apply wp_bind, wp_call. intros [status child] w _. apply wp_ret. apply HQ; [done|].
      unfold child_made. simpl. destruct (Z.eqb_spec (fr_object_ops r) 0); [done|].
      destruct status; simpl; try done. by destruct (Z.eqb_spec child 0).
    + apply wp_ret. specialize (HQ HL_STATUS_NOT_SUPPORTED r (world s)). rewrite set_world_world in HQ.
      by apply HQ.
Qed.

(** All clones: either every record has its child, or the clones made so far
    are closed and the pins dropped. *)
Lemma wp_clone_all fuel files clone close pre l suf pending : forall done Q (s : machine W),
  f_clone_for_fork files = Some clone -> f_close files = Some close ->
  ofds (tbl s) = pre ++ map pin_live l ++ suf -> Forall slot_quiet l ->
  map snapshot_part (done ++ pending) = live_records (lengthZ pre) l ->
  Forall closable (done ++ pending) -> Forall child_made done ->
  (forall status s', status <> HL_STATUS_OK -> tbl s' = set_ofds (pre ++ l ++ suf) (tbl s) ->
     Q (inl status) s') ->
  (forall recs w, map snapshot_part recs = live_records (lengthZ pre) l -> Forall closable recs ->
     Forall child_made recs -> Q (inr recs) (set_world w s)) ->
  wp (clone_all host vtable fuel files done pending) Q s.
Proof.
  induction pending as [|r pending IH]; intros made Q s Hf Hcl Ht Hq Hr Hc Hm HF HO; simpl.
  { apply wp_ret. rewrite app_nil_r in *. specialize (HO made (world s)). rewrite set_world_world in HO.
    by apply HO. }
  apply wp_bind. apply (wp_clone_record _ clone); [done|]. intros status r' w Hp Hok.
  assert (Hr' : forall k, map snapshot_part (made ++ r' :: k) = map snapshot_part (made ++ r :: k)).
  { intros k. rewrite !map_app. simpl. by rewrite Hp. }
  assert (Hc' : Forall closable (made ++ r' :: pending)).
  { apply Forall_app in Hc as [? Hc]. apply Forall_app. split; [done|]. inversion Hc; subst.
    constructor; [|done]. rewrite closable_part, Hp, <- closable_part. done. }
  destruct (is_ok status) eqn:Hst; simpl.
  - apply IH; try done.
    + by rewrite <- app_assoc; simpl; rewrite Hr'.
    + by rewrite <- app_assoc.
    + apply Forall_app. split; [done|]. constructor; [|done]. apply Hok. by destruct status.
  - apply wp_bind. apply (wp_close_children _ close); [done| |].
    { apply Forall_rev. by apply Forall_app in Hc as [? _]. }
    intros w'. apply wp_bind. apply (wp_fork_unpin fuel l pre suf); [done|done|by rewrite Hr'|].
    intros s' Ht'. apply wp_ret. apply HF; [|done]. intros ->. done.
Qed.
End Loops.

(** ** Prepare on a well-formed table *)

(** What a plan holds between prepare and completion, for the table [t] that
    prepare found. *)
Record plan_ready {W} (vtable : Z -> hl_linux_object_ops W) (t : hl_linux_abi)
    (plan : hl_linux_fork_plan) : Prop := mk_plan_ready {
  ready_abi : fp_abi plan = HL_LINUX_ABI_VERSION;
  ready_armed : fp_armed plan = 1;
  ready_pending : fp_host_completed plan = 0;
  ready_records : map snapshot_part (fp_records plan) = live_records 1 (slots t);
  ready_closable : Forall (closable vtable) (fp_records plan);
  ready_children : Forall child_made (fp_records plan)
}.

Section Prepare.
Context {W : Type}.
Variable host : hl_host_services W.
Variable vtable : Z -> hl_linux_object_ops W.
Context `{!HostReady host}.

#[local] Abbreviation table_inv := (table_inv (has_close vtable)).
#[local] Abbreviation table_wf := (table_wf (has_close vtable)).

Lemma slots_length t : table_inv t ->
  lengthZ (unused_slot t) = 1 /\ lengthZ (ofds t) = 1 + lengthZ (slots t).
Proof.
  intros Hinv. pose proof (inv_ofd_cap _ _ Hinv). unfold ofd_capacity, lengthZ, unused_slot, slots in *.
  rewrite length_take, length_drop. lia.
Qed.

Lemma slots_lookup t k e : table_inv t -> lookupZ (slots t) k = Some e <-> 0 <= k /\ lookupZ (ofds t) (1 + k) = Some e.
Proof.
  intros Hinv. destruct (slots_length t Hinv) as [H1 _]. rewrite (ofds_split t). split.
  - intros He. pose proof (lookupZ_Some_range _ _ _ He). split; [lia|].
    by rewrite <- H1, lookupZ_app_r by lia.
  - intros [Hk He]. by rewrite <- H1, lookupZ_app_r in He by lia.
Qed.

Lemma slots_quiet t : table_wf t -> Forall slot_quiet (slots t).
Proof.
  intros [Hinv Hq]. apply List.Forall_forall. intros e He.
  apply elem_lookupZ in He as [k Hk]. apply slots_lookup in Hk as [Hk He]; [|done].
  apply (Hq (1 + k)); [lia|done].
Qed.

(** Above the high-water mark every slot is dead. *)
Lemma slots_above_watermark t e :
  table_inv t -> In e (drop (Z.to_nat (ofd_watermark t - 1)) (slots t)) -> references e = 0.
Proof.
  intros Hinv He. apply elem_lookupZ in He as [k Hk]. pose proof (lookupZ_Some_range _ _ _ Hk).
  rewrite lookupZ_drop in Hk by lia. apply slots_lookup in Hk as [Hk He]; [|done].
  destruct (Z.eq_dec (references e) 0) as [|H0]; [done|].
  assert (H1 : 1 <= 1 + (Z.of_nat (Z.to_nat (ofd_watermark t - 1)) + k)) by lia.
  pose proof (proj2 (inv_slots _ _ Hinv _ _ H1 He) H0). lia.
Qed.

Lemma dead_records l : (forall e, In e l -> references e = 0) ->
  map pin_live l = l /\ forall i, live_records i l = [].
Proof.
  induction l as [|e l IH]; intros Hd; [done|]. destruct IH as [IH1 IH2]; [intros; apply Hd; by right|].
  simpl. unfold pin_live at 1. rewrite (Hd e) by by left. simpl. by rewrite IH1.
Qed.

Lemma live_closable t recs :
  table_inv t -> map snapshot_part recs = live_records 1 (slots t) -> Forall (closable vtable) recs.
Proof.
  intros Hinv Hr. apply List.Forall_forall. intros r Hin. rewrite closable_part.
  apply (in_map snapshot_part) in Hin. rewrite Hr in Hin.
  apply live_records_in in Hin as (k & e & He & H0 & ->). apply slots_lookup in He as [Hk He]; [|done].
  unfold closable. simpl. assert (H1 : 1 <= 1 + k) by lia.
  destruct (inv_slot _ _ _ _ Hinv H1 He) as [_ _ [Hl|[[]|[]]]]; [|done|done].
  destruct (Z.eq_dec (object_ops e) 0); [by left|right]. by apply (live_close _ _ Hl).
Qed.

(** The first loop on a well-formed table: all live slots recorded and pinned,
    or the plan is full after a prefix. *)
Lemma snapshot_wf cap t :
  table_wf t ->
  fork_snapshot vtable (Z.to_nat (ofd_watermark t - 1)) 1 cap [] t =
    Some (SnapshotDone (live_records 1 (slots t)), pinned t) \/
  exists l1 l2, slots t = l1 ++ l2 /\
    fork_snapshot vtable (Z.to_nat (ofd_watermark t - 1)) 1 cap [] t =
      Some (SnapshotFull (live_records 1 l1), with_slots (map pin_live l1 ++ l2) t).
Proof.
  intros Hwf. pose proof Hwf as [Hinv Hq]. destruct (slots_length t Hinv) as [H1 Hlen].
  pose proof (inv_watermark _ _ Hinv) as Hw. unfold ofd_capacity in Hw.
  set (n := Z.to_nat (ofd_watermark t - 1)). pose proof (slots_quiet t Hwf) as Hquiet.
  assert (Hn : length (take n (slots t)) = n).
  { rewrite length_take. unfold n, lengthZ in *. lia. }
  destruct (dead_records (drop n (slots t))) as [Hpin Hrec];
    [intros e; by apply slots_above_watermark|].
  rewrite <- (take_drop n (slots t)) in Hquiet. apply Forall_app in Hquiet as [Hq1 _].
  pose proof (ofds_split t) as Hsplit. rewrite <- (take_drop n (slots t)) in Hsplit.
  destruct (fork_snapshot_spec vtable cap _ (unused_slot t) _ [] t Hsplit Hq1) as [Hs|(l1 & l2 & Hl & _ & _ & Hs)];
    rewrite Hn, H1 in Hs; rewrite Hs.
  - left. simpl. unfold pinned, with_slots.
    replace (live_records 1 (slots t)) with (live_records 1 (take n (slots t))).
    + do 2 f_equal. f_equal. f_equal. rewrite <- (take_drop n (slots t)) at 3. rewrite map_app. by rewrite Hpin.
    + rewrite <- (take_drop n (slots t)) at 2. rewrite live_records_app, Hrec. by rewrite app_nil_r.
  - right. exists l1, (l2 ++ drop n (slots t)). simpl. split; [|done].
    rewrite app_assoc, <- Hl. by rewrite take_drop.
Qed.

(** From a ready plan whose clones are closed and pins dropped, the table is
    the one prepare found. *)
Lemma wp_rollback fuel files close recs t (k : M W (hl_status * hl_linux_fork_plan)) Q (s : machine W) :
  f_close files = Some close -> table_wf t -> tbl s = pinned t ->
  map snapshot_part recs = live_records 1 (slots t) ->
  (forall s', tbl s' = t -> wp k Q s') ->
  wp (close_children vtable files (rev recs) ;;! hl_linux_fork_unpin host vtable fuel recs ;;! k) Q s.
Proof.
  intros Hclose Hwf Ht Hr HQ. pose proof Hwf as [Hinv _]. destruct (slots_length _ Hinv) as [H1 _].
  apply wp_bind, (wp_close_children _ _ close); [done|by apply Forall_rev, (live_closable t)|].
  intros w. apply wp_bind, (wp_fork_unpin host vtable fuel (slots t) (unused_slot t) []).
  - rewrite app_nil_r, tbl_set_world, Ht. done.
  - by apply slots_quiet.
  - by rewrite H1.
  - intros s' Ht'. apply HQ. rewrite Ht', tbl_set_world, Ht, app_nil_r. unfold pinned, with_slots.
    rewrite set_ofds_set_ofds, <- ofds_split. apply set_ofds_id.
Qed.

Lemma wp_fork_attempt again fuel files clone close arm plan Q (s : machine W) :
  f_clone_for_fork files = Some clone -> f_close files = Some close -> table_wf (tbl s) ->
  fp_abi plan = HL_LINUX_ABI_VERSION -> fp_host_completed plan = 0 ->
  (forall plan' s', tbl s' = pinned (tbl s) -> plan_ready vtable (tbl s) plan' -> Q (HL_STATUS_OK, plan') s') ->
  (forall status plan' s', status <> HL_STATUS_OK -> tbl s' = tbl s -> Q (status, plan') s') ->
  wp (fork_attempt_body host vtable again fuel files arm plan) Q s.
Proof.
  intros Hclone Hclose Hwf Habi Hpend HO HF. pose proof Hwf as [Hinv _].
  destruct (slots_length _ Hinv) as [H1 _]. pose proof (slots_quiet _ Hwf) as Hquiet.
  unfold fork_attempt_body. apply wp_bind, wp_get_tbl.
  destruct (reserved_fds (tbl s) =? 0); simpl; [|apply wp_ret; by apply HF]. apply wp_bind.
  destruct (snapshot_wf (fp_capacity plan) (tbl s) Hwf) as [Hs|(l1 & l2 & Hl & Hs)];
    (eapply wp_section; [exact Hs|]); cbn beta iota; apply wp_bind.
  2: { apply (wp_fork_unpin host vtable fuel l1 (unused_slot (tbl s)) l2); [done| | |].
       - rewrite Hl in Hquiet. by apply Forall_app in Hquiet as [].
       - rewrite H1. apply live_records_self.
       - intros s' Ht'. apply wp_ret, HF; [done|]. rewrite Ht', tbl_set_tbl. unfold with_slots.
         rewrite set_ofds_set_ofds, <- Hl, <- ofds_split. apply set_ofds_id. }
  apply (wp_clone_all host vtable fuel files clone close (unused_slot (tbl s)) (slots (tbl s)) []); try done.
  { by rewrite app_nil_r. }
  { rewrite H1. apply live_records_self. }
  { eapply live_closable; [done|]. apply live_records_self. }
  { intros status s' Hst Ht'. apply wp_ret, HF; [done|]. rewrite Ht', tbl_set_tbl, app_nil_r.
    unfold pinned, with_slots. rewrite set_ofds_set_ofds, <- ofds_split. apply set_ofds_id. }
  intros recs w Hr Hc Hm. rewrite H1 in Hr. apply wp_bind, wp_get_tbl.
  rewrite tbl_set_world, tbl_set_tbl, fork_check_pinned; [|pose proof (inv_ofd_cap _ _ Hinv); unfold ofd_capacity in *; lia|done|done].
  apply wp_bind, wp_call. intros armed w' _. destruct (is_ok (r_status armed)); simpl.
  - apply wp_ret, HO; [done|]. by constructor.
  - apply (wp_rollback fuel files close recs (tbl s)); try done.
    intros s' Ht'. apply wp_ret. by apply HF.
Qed.

(** Prepare returns, and leaves either the pins with a ready plan or nothing. *)
Lemma wp_fork_prepare retries fuel plan Q (s : machine W) :
  table_wf (tbl s) ->
  (forall plan' s', tbl s' = pinned (tbl s) -> plan_ready vtable (tbl s) plan' -> Q (HL_STATUS_OK, plan') s') ->
  (forall status plan' s', status <> HL_STATUS_OK -> tbl s' = tbl s -> Q (status, plan') s') ->
  wp (hl_linux_abi_fork_prepare host vtable retries fuel plan) Q s.
Proof.
  intros Hwf HO HF.
  unfold hl_linux_abi_fork_prepare. destruct (hl_linux_fork_plan_output_prepare plan) as [ok plan0] eqn:Hp.
  unfold hl_linux_fork_plan_output_prepare in Hp.
  destruct (_ || _) eqn:Habi in Hp; injection Hp as <- <-; [apply wp_ret; by apply HF|]. bool_props.
  cbn [negb]. apply wp_bind, wp_get_tbl. destruct (_ || _); [apply wp_ret; by apply HF|].
  destruct (hl_linux_files host) as [files|]; [|apply wp_ret; by apply HF].
  rewrite ready_sync_found.
  destruct (f_clone_for_fork files) as [clone|] eqn:Hclone; [|apply wp_ret; by apply HF].
  destruct (f_close files) as [close|] eqn:Hclose; [|apply wp_ret; by apply HF].
  destruct (fork_prepare _) as [arm|]; [|apply wp_ret; by apply HF].
  destruct retries; simpl; by apply (wp_fork_attempt _ fuel files clone close arm).
Qed.
End Prepare.

(** ** Completion *)

Lemma parent_unpin_spec l : forall pre suf recs t,
  ofds t = pre ++ map pin_live l ++ suf -> Forall slot_quiet l ->
  map snapshot_part recs = live_records (lengthZ pre) l ->
  parent_unpin recs t = (map (with_snapshot_pin 0) recs, set_ofds (pre ++ l ++ suf) t).
Proof.
  induction l as [|e l IH]; intros pre suf recs t Ht Hq Hr.
  { destruct recs; [|done]. simpl in *. by rewrite <- Ht, set_ofds_id. }
  inversion Hq as [|? ? He Hq']; subst. simpl in Hr, Ht.
  destruct (Z.eqb_spec (references e) 0) as [H0|H0].
  - assert (Hpre : lengthZ pre + 1 = lengthZ (pre ++ [e])) by (rewrite lengthZ_app; done).
    rewrite Hpre in Hr. unfold pin_live in Ht at 1. rewrite H0 in Ht. simpl in Ht.
    rewrite (IH (pre ++ [e]) suf); [by rewrite <- app_assoc|by rewrite <- app_assoc|done|done].
  - destruct recs as [|r recs]; [done|]. simpl in Hr. destruct (cons_parts _ _ _ _ Hr) as [Hrec Hrecs].
    pose proof (f_equal fr_ofd Hrec) as Hr1. pose proof (f_equal fr_generation Hrec) as Hr2.
    pose proof (f_equal fr_snapshot_pin Hrec) as Hr3. simpl in Hr1, Hr2, Hr3.
    rewrite pin_live_live in Ht by done. destruct (begin_quiet _ He) as [Hee Ha]. simpl.
    rewrite Hr3, Hr1, (lookup_middle _ _ _ _ Ht), Hr2.
    change (ofd_generation (begin_entry e)) with (ofd_generation e). rewrite Z.eqb_refl, Ha, Hee. simpl.
    rewrite (put_ofd_middle _ _ _ _ _ Ht).
    destruct (Z.eqb_spec (references e) 0); [done|]. simpl.
    assert (Hpre : lengthZ pre + 1 = lengthZ (pre ++ [e])) by (rewrite lengthZ_app; done).
    rewrite Hpre in *.
    rewrite (IH (pre ++ [e]) suf); [by rewrite <- app_assoc|by rewrite <- app_assoc|done|done].
Qed.

Lemma reset_pins_spec l : forall pre suf recs t,
  ofds t = pre ++ map pin_live l ++ suf -> Forall slot_quiet l ->
  map snapshot_part recs = live_records (lengthZ pre) l -> reset_pins recs t = t.
Proof.
  induction l as [|e l IH]; intros pre suf recs t Ht Hq Hr.
  { by destruct recs. }
  inversion Hq as [|? ? He Hq']; subst. simpl in Hr, Ht.
  assert (Hpre : lengthZ pre + 1 = lengthZ (pre ++ [pin_live e])) by (rewrite lengthZ_app; done).
  assert (Hih : forall recs, map snapshot_part recs = live_records (lengthZ pre + 1) l -> reset_pins recs t = t).
  { intros recs' Hr'. rewrite Hpre in Hr'. apply (IH (pre ++ [pin_live e]) suf); [by rewrite <- app_assoc|done|done]. }
  destruct (Z.eqb_spec (references e) 0) as [H0|H0]; [by apply Hih|].
  destruct recs as [|r recs]; [done|]. simpl in Hr. destruct (cons_parts _ _ _ _ Hr) as [Hrec Hrecs].
  pose proof (f_equal fr_ofd Hrec) as Hr1. pose proof (f_equal fr_generation Hrec) as Hr2.
  pose proof (f_equal fr_snapshot_pin Hrec) as Hr3. simpl in Hr1, Hr2, Hr3. simpl.
  destruct (begin_quiet _ He) as [_ Ha].
  pose proof (lookup_middle _ _ _ _ Ht) as Hl. rewrite pin_live_live in Hl by done.
  rewrite Hr3, Hr1, Hl, Hr2. change (ofd_generation (begin_entry e)) with (ofd_generation e).
  rewrite Z.eqb_refl. simpl.
  replace (put_ofd (lengthZ pre) (with_active 1 (begin_entry e)) t) with t; [by apply Hih|].
  replace (with_active 1 (begin_entry e)) with (begin_entry e)
    by (unfold begin_entry, with_active in *; simpl in *; by rewrite Ha).
  unfold put_ofd. rewrite (insertZ_id _ _ _ Hl). by rewrite set_ofds_id.
Qed.

(** The child's array: the live slots adopt their clones. *)
Fixpoint adopt_slots (l : list hl_linux_ofd_entry) (recs : list hl_linux_fork_record)
  : list hl_linux_ofd_entry :=
  match l with
  | [] => []
  | e :: l' =>
      if references e =? 0 then e :: adopt_slots l' recs
      else match recs with
           | r :: recs' => adopt_entry r e :: adopt_slots l' recs'
           | [] => e :: adopt_slots l' []
           end
  end.

(** What the child inherits of a slot: a dead slot as it is; of a live slot
    everything but the mutex and the host object, which are its own. *)
Definition inherited (e e' : hl_linux_ofd_entry) : Prop :=
  if references e =? 0 then e' = e
  else
    references e' = references e /\ ofd_offset e' = ofd_offset e /\ status_flags e' = status_flags e /\
    ofd_generation e' = ofd_generation e /\ ofd_kind e' = ofd_kind e /\ flock_token e' = flock_token e /\
    object_ops e' = object_ops e /\ active_operations e' = 0 /\ closing e' = closing e /\
    io_mutex e' <> HL_HOST_HANDLE_INVALID /\
    (if object_ops e =? 0
     then host_handle e' <> HL_HOST_HANDLE_INVALID /\ object_context e' = object_context e
     else host_handle e' = host_handle e /\ object_context e' <> 0).

Definition mutex_made (r : hl_linux_fork_record) : Prop := fr_child_mutex r <> HL_HOST_HANDLE_INVALID.

Lemma adopt_inherited l : forall i recs,
  map snapshot_part recs = live_records i l -> Forall child_made recs -> Forall mutex_made recs ->
  Forall2 inherited l (adopt_slots l recs).
Proof.
  induction l as [|e l IH]; intros i recs Hr Hc Hm; simpl in *; [constructor|].
  destruct (references e =? 0) eqn:H0.
  { constructor; [unfold inherited; by rewrite H0|by apply (IH (i + 1))]. }
  destruct recs as [|r recs]; [done|]. simpl in Hr. destruct (cons_parts _ _ _ _ Hr) as [Hrec Hrecs].
  inversion Hc; inversion Hm; subst. constructor; [|by apply (IH (i + 1))].
  pose proof (f_equal fr_object_ops Hrec) as Hops. simpl in Hops.
  unfold inherited, adopt_entry, child_made in *. rewrite H0, Hops in *.
  destruct (object_ops e =? 0); simpl; split_and!; done.
Qed.

Section Completion.
Context {W : Type}.
Variable host : hl_host_services W.
Variable vtable : Z -> hl_linux_object_ops W.
Context `{!HostReady host}.

#[local] Abbreviation table_inv := (table_inv (has_close vtable)).
#[local] Abbreviation table_wf := (table_wf (has_close vtable)).

Lemma pinned_split t : ofds (pinned t) = unused_slot t ++ map pin_live (slots t) ++ [].
Proof. by rewrite app_nil_r. Qed.

Lemma unpinned t : set_ofds (unused_slot t ++ slots t ++ []) (pinned t) = t.
Proof. rewrite app_nil_r. unfold pinned, with_slots. rewrite set_ofds_set_ofds, <- ofds_split. apply set_ofds_id. Qed.

Lemma wp_finalize_marked_none fuel recs : forall Q (s : machine W),
  Q tt s -> wp (finalize_marked host vtable fuel (map (with_snapshot_pin 0) recs)) Q s.
Proof.
  induction recs as [|r recs IH]; intros Q s HQ; simpl; [by apply wp_ret|].
  apply wp_bind, wp_get_tbl. apply wp_bind. simpl. apply wp_ret. by apply IH.
Qed.

(** The parent's completion: the pins are gone, whatever the host answers. *)
Lemma wp_fork_parent fuel t plan files close Q (s : machine W) :
  hl_linux_files host = Some files -> f_close files = Some close ->
  is_Some (fork_parent ready_sync) ->
  table_wf t -> plan_ready vtable t plan -> tbl s = pinned t ->
  (forall status s', tbl s' = t -> Q (status, set_records [] (set_phase 0 0 plan)) s') ->
  wp (hl_linux_abi_fork_parent host vtable fuel plan) Q s.
Proof.
  intros Hf Hc [resume Hres] Hwf [] Ht HQ. pose proof Hwf as [Hinv _]. destruct (slots_length vtable t Hinv) as [H1 _].
  unfold hl_linux_abi_fork_parent. rewrite ready_abi0. simpl. rewrite Hf, ready_sync_found, Hc, Hres.
  rewrite ready_armed0, ready_pending0. simpl. apply wp_bind, wp_call. intros completed w _.
  apply wp_bind, wp_get_tbl. rewrite tbl_set_world, Ht.
  rewrite (parent_unpin_spec (slots t) (unused_slot t) []);
    [|apply pinned_split|by apply (slots_quiet vtable)|by rewrite H1].
  apply wp_bind, wp_put_tbl, wp_bind, wp_finalize_marked_none, wp_bind.
  apply (wp_close_children_status vtable _ close); [done| |].
  { apply Forall_rev. rewrite List.Forall_forall. intros r (r0 & <- & Hin)%in_map_iff.
    rewrite List.Forall_forall in ready_closable0. exact (ready_closable0 r0 Hin). }
  intros st w'. apply wp_ret, HQ. rewrite tbl_set_world, tbl_set_tbl. apply unpinned.
Qed.

(** Giving up in the child: the table is as the parent's was before. *)
Lemma wp_child_abort fuel t recs Q (s : machine W) :
  table_wf t -> tbl s = pinned t -> map snapshot_part recs = live_records 1 (slots t) ->
  (forall s', tbl s' = t -> Q tt s') ->
  wp (hl_linux_fork_child_abort host vtable fuel recs) Q s.
Proof.
  intros Hwf Ht Hr HQ. pose proof Hwf as [Hinv _]. destruct (slots_length vtable t Hinv) as [H1 _].
  unfold hl_linux_fork_child_abort. apply wp_bind, wp_get_tbl. rewrite Ht.
  rewrite (reset_pins_spec (slots t) (unused_slot t) []);
    [|apply pinned_split|by apply (slots_quiet vtable)|by rewrite H1].
  apply wp_bind, wp_put_tbl. apply (wp_fork_unpin host vtable fuel (slots t) (unused_slot t) []);
    [apply pinned_split|by apply (slots_quiet vtable)|by rewrite H1|].
  intros s' Ht'. apply HQ. rewrite Ht', tbl_set_tbl. apply unpinned.
Qed.

Lemma wp_discard_children recs Q (s : machine W) :
  Forall (closable vtable) recs -> (forall w, Q tt (set_world w s)) ->
  wp (hl_linux_fork_discard_children host vtable recs) Q s.
Proof.
  intros Hc HQ. unfold hl_linux_fork_discard_children. apply Forall_rev in Hc. revert Q s Hc HQ.
  induction (rev recs) as [|r l IH]; intros Q s Hc HQ; simpl.
  { apply wp_ret. specialize (HQ (world s)). by rewrite set_world_world in HQ. }
  inversion Hc as [|? ? Hr Hl]; subst. apply wp_bind.
  match goal with |- wp _ (fun _ s' => wp ?go Q s') _ =>
    assert (Hnext : forall w, wp go Q (set_world w s)) by (intros w; apply IH; [done|intros w'; apply HQ]) end.
  assert (Hsame := Hnext (world s)). rewrite set_world_world in Hsame.
  destruct (Z.eqb_spec (fr_object_ops r) 0) as [H0|H0]; simpl.
  - destruct (hl_linux_files host) as [files|]; [|by apply wp_ret].
    destruct (f_close files) as [close|]; [|by apply wp_ret].
    apply wp_bind, wp_call. intros b w _. by apply wp_ret.
  - destruct Hr as [|Hr]; [done|]. unfold has_close in Hr. unfold call1.
    destruct (o_close (vtable (fr_object_ops r))); [|done]. apply wp_bind, wp_call.
    intros b w _. by apply wp_ret.
Qed.
(** *** The child *)

Definition current (t : hl_linux_abi) (r : hl_linux_fork_record) : Prop :=
  exists e, lookupZ (ofds t) (fr_ofd r) = Some e /\ record_matches (fr_ofd r) e r = true.

Lemma records_current t recs :
  table_inv t -> map snapshot_part recs = live_records 1 (slots t) -> Forall (current (pinned t)) recs.
Proof.
  intros Hinv Hr. destruct (slots_length vtable t Hinv) as [H1 _]. apply List.Forall_forall. intros r Hin.
  apply (in_map snapshot_part) in Hin. rewrite Hr in Hin.
  apply live_records_in in Hin as (k & e & He & H0 & Hp).
  pose proof (lookupZ_Some_range _ _ _ He). pose proof (f_equal fr_ofd Hp) as Hofd. simpl in Hofd.
  exists (begin_entry e). rewrite record_matches_begin, record_matches_part, Hp, Hofd. split.
  - rewrite pinned_split, <- H1, lookupZ_app_r, app_nil_r, lookupZ_map, He by lia. simpl. by rewrite pin_live_live.
  - apply record_matches_snapshot.
Qed.

Lemma wp_child_mutexes pending : forall made Q (s : machine W),
  Forall (current (tbl s)) pending ->
  Forall child_made (made ++ pending) -> Forall mutex_made made ->
  (forall status w, status <> HL_STATUS_OK -> Q (inl status) (set_world w s)) ->
  (forall recs w, map snapshot_part recs = map snapshot_part (made ++ pending) ->
     Forall child_made recs -> Forall mutex_made recs -> Q (inr recs) (set_world w s)) ->
  wp (child_mutexes ready_sync made pending) Q s.
Proof.
  induction pending as [|r pending IH]; intros made Q s Hcur Hc Hm HF HO; cbn [child_mutexes].
  { apply wp_ret. rewrite app_nil_r in *. specialize (HO made (world s)). rewrite set_world_world in HO. by apply HO. }
  assert (Hclose : forall l status w, status <> HL_STATUS_OK ->
    wp ((fix close_mutexes l :=
           match l with
           | [] => ret (inl status)
           | d :: l' => let! _ := call1 (mutex_close ready_sync) (fr_child_mutex d) in close_mutexes l'
           end) l) Q (set_world w s)).
  { induction l as [|d l IHl]; intros status w Hst; [apply wp_ret; by apply HF|].
    apply wp_bind, wp_mutex_close. intros x w'. rewrite set_world_set_world. by apply IHl. }
  inversion Hcur as [|? ? (e & He & Hmatch) Hcur']; subst. apply wp_bind, wp_get_tbl. rewrite He, Hmatch. simpl.
  apply wp_bind. rewrite ready_create_found. apply wp_call. intros created w _.
  destruct (negb (is_ok (r_status created)) || _) eqn:Hbad.
  { apply Hclose. by destruct (r_status created). }
  bool_props. apply IH.
  - rewrite tbl_set_world. done.
  - rewrite <- app_assoc. simpl. apply Forall_app in Hc as [Hc1 Hc2]. apply Forall_app. split; [done|].
    by inversion Hc2; constructor.
  - apply Forall_app. split; [done|]. by constructor.
  - intros status w' Hst. by apply HF.
  - intros recs w' Hr. apply HO. rewrite Hr, !map_app. simpl. by rewrite <- app_assoc.
Qed.

Lemma wp_child_adopt files close l : forall pre suf recs Q (s : machine W),
  f_close files = Some close ->
  ofds (tbl s) = pre ++ map pin_live l ++ suf ->
  map snapshot_part recs = live_records (lengthZ pre) l -> Forall (closable vtable) recs ->
  (forall s', tbl s' = set_ofds (pre ++ adopt_slots l recs ++ suf) (tbl s) -> Q tt s') ->
  wp (child_adopt vtable files ready_sync recs) Q s.
Proof.
  induction l as [|e l IH]; intros pre suf recs Q s Hf Ht Hr Hc HQ.
  { destruct recs; [|done]. apply wp_ret, HQ. simpl in *. by rewrite <- Ht, set_ofds_id. }
  simpl in Hr, Ht, HQ. destruct (references e =? 0) eqn:H0.
  - assert (Hpre : lengthZ pre + 1 = lengthZ (pre ++ [e])) by (rewrite lengthZ_app; done).
    rewrite Hpre in Hr. unfold pin_live in Ht at 1. rewrite H0 in Ht.
    apply (IH (pre ++ [e]) suf); [done|by rewrite <- app_assoc|done|done|].
    intros s' Ht'. apply HQ. by rewrite Ht', <- app_assoc.
  - destruct recs as [|r recs]; [done|]. destruct (cons_parts _ _ _ _ Hr) as [Hrec Hrecs].
    pose proof (f_equal fr_ofd Hrec) as Hr1. simpl in Hr1. inversion Hc as [|? ? Hcr Hcs]; subst.
    rewrite pin_live_live in Ht by by apply Z.eqb_neq. cbn [child_adopt]. rewrite Hr1.
    pose proof (lookup_middle _ _ _ _ Ht) as Hl.
    apply wp_bind, (wp_get_ofd _ (begin_entry e)); [done|]. apply wp_bind, wp_mutex_close. intros x w.
    apply wp_bind, (wp_update_ofd _ _ (begin_entry e)); [done|]. rewrite tbl_set_world.
    rewrite (put_ofd_middle _ _ _ _ _ Ht). change (adopt_entry r (begin_entry e)) with (adopt_entry r e).
    assert (Hpre : lengthZ pre + 1 = lengthZ (pre ++ [adopt_entry r e])) by (rewrite lengthZ_app; done).
    rewrite Hpre in Hrecs. apply wp_bind.
    match goal with |- wp _ ?Q' _ => assert (Hnext : forall s2,
      tbl s2 = set_ofds (pre ++ adopt_entry r e :: map pin_live l ++ suf) (tbl s) -> Q' tt s2) end.
    { intros s2 Ht2. apply (IH (pre ++ [adopt_entry r e]) suf); [done|rewrite Ht2; by rewrite <- app_assoc|done|done|].
      intros s' Ht'. apply HQ. by rewrite Ht', Ht2, <- app_assoc. }
    destruct (Z.eqb_spec (fr_object_ops r) 0) as [Hz|Hz]; simpl.
    + unfold call1. rewrite Hf. apply wp_bind, wp_call. intros b w' _. apply wp_ret. by apply Hnext.
    + destruct Hcr as [|Hcr]; [done|]. unfold has_close in Hcr. unfold call1.
      destruct (o_close (vtable (fr_object_ops r))); [|done]. apply wp_bind, wp_call.
      intros b w' _. apply wp_ret. by apply Hnext.
Qed.

(** The child's table is well formed. *)
Lemma inherited_slot n e e' :
  slot_inv (has_close vtable) n e -> slot_quiet e -> inherited e e' ->
  slot_inv (has_close vtable) n e' /\ references e' = references e /\ slot_quiet e'.
Proof.
  intros [Hn Ha Hs] [Hq1 Hq2] Hi. unfold inherited in Hi. destruct (Z.eqb_spec (references e) 0) as [H0|H0].
  { subst e'. split_and!; by constructor. }
  destruct Hi as (H1 & _ & _ & _ & _ & _ & H2 & H3 & H4 & H5 & H6).
  destruct Hs as [[]|[[]|[]]]; [|done|done].
  split_and!; [constructor; [congruence|lia|]|done|split; congruence]. left. destruct (Z.eqb_spec (object_ops e) 0) as [Hz|Hz]; destruct H6 as [H6 H7].
  - constructor; try congruence. rewrite H2, Hz.
    by destruct (Z.eqb_spec (host_handle e') HL_HOST_HANDLE_INVALID).
  - constructor; rewrite ?H2; try congruence; try done. rewrite H6. by destruct (Z.eqb_spec (object_ops e) 0).
Qed.

Lemma inherited_wf t l :
  table_wf t -> Forall2 inherited (slots t) l -> table_wf (with_slots l t).
Proof.
  intros Hwf Hl. pose proof Hwf as [Hinv Hq]. destruct (slots_length vtable t Hinv) as [H1 Hlen].
  assert (Hll : lengthZ l = lengthZ (slots t)) by (unfold lengthZ; f_equal; symmetry; by eapply Forall2_length).
  assert (Hcap : lengthZ (unused_slot t ++ l) = lengthZ (ofds t)) by (rewrite lengthZ_app; lia).
  assert (Hslot : forall i e', 1 <= i -> lookupZ (unused_slot t ++ l) i = Some e' ->
    exists e, lookupZ (ofds t) i = Some e /\ inherited e e').
  { intros i e' Hi He'. replace i with (lengthZ (unused_slot t) + (i - 1)) in He' by lia.
    rewrite lookupZ_app_r in He' by lia. unfold lookupZ in He'. destruct (Z.leb_spec 0 (i - 1)); [|done].
    destruct (Forall2_lookup_r _ _ _ _ _ Hl He') as (e & He & Hin). exists e. split; [|done].
    rewrite (ofds_split t). replace i with (lengthZ (unused_slot t) + (i - 1)) by lia.
    rewrite lookupZ_app_r by lia. unfold lookupZ. by destruct (Z.leb_spec 0 (i - 1)); [|lia]. }
  split.
  - pose proof (inv_slots _ _ Hinv) as Hslots.
    destruct Hinv. constructor; unfold ofd_capacity, fd_capacity in *; simpl in *; rewrite ?Hcap; try done.
    intros i e' Hi He'. destruct (Hslot i e' Hi He') as (e & He & Hin).
    destruct (Hslots i e Hi He) as [Hsi Hw].
    destruct (inherited_slot _ e e' Hsi (Hq i e Hi He) Hin) as (Hs' & Hr & _). by rewrite Hr.
  - intros i e' Hi He'. destruct (Hslot i e' Hi He') as (e & He & Hin).
    by destruct (inherited_slot _ e e' (inv_slot _ _ _ _ Hinv Hi He) (Hq i e Hi He) Hin) as (_ & _ & []).
Qed.

(** The child's completion: every live slot is adopted, or the child gives up
    with the table prepare found. *)
Lemma wp_fork_child fuel t plan files close Q (s : machine W) :
  hl_linux_files host = Some files -> f_close files = Some close ->
  is_Some (fork_child ready_sync) ->
  table_wf t -> plan_ready vtable t plan -> tbl s = pinned t ->
  (forall status s', status <> HL_STATUS_OK -> tbl s' = t ->
     Q (status, set_records [] (set_phase 0 0 plan)) s') ->
  (forall l s', Forall2 inherited (slots t) l -> tbl s' = with_slots l t ->
     Q (HL_STATUS_OK, set_records [] (set_phase 0 0 plan)) s') ->
  wp (hl_linux_abi_fork_child host vtable fuel plan) Q s.
Proof.
  intros Hf Hc [resume Hres] Hwf [] Ht HF HO. pose proof Hwf as [Hinv _].
  destruct (slots_length vtable t Hinv) as [H1 _].
  unfold hl_linux_abi_fork_child. rewrite ready_abi0. simpl.
  rewrite Hf, ready_sync_found, Hc, ready_create_found, ready_close_found, Hres, ready_armed0, ready_pending0.
  simpl. apply wp_bind, wp_call. intros completed w _.
  assert (Habort : forall status s2, status <> HL_STATUS_OK -> tbl s2 = pinned t ->
    wp (hl_linux_fork_child_abort host vtable fuel (fp_records plan) ;;!
        hl_linux_fork_discard_children host vtable (fp_records plan) ;;!
        ret (status, set_records [] (set_phase 0 0 plan))) Q s2).
  { intros status s2 Hst Ht2. apply wp_bind, (wp_child_abort fuel t); [done|done|done|].
    intros s3 Ht3. apply wp_bind, wp_discard_children; [done|]. intros w'. apply wp_ret. by apply HF. }
  destruct (is_ok (r_status completed)) eqn:Hok; simpl.
  2: { apply Habort; [by intros Hx; rewrite Hx in Hok|done]. }
  apply wp_bind, wp_child_mutexes; [|done|done| |].
  - rewrite tbl_set_world, Ht. by apply records_current.
  - intros status w' Hst. by apply Habort.
  - intros recs w' Hr Hcm Hmm. simpl in Hr. rewrite ready_records0 in Hr.
    apply wp_bind, (wp_child_adopt files close (slots t) (unused_slot t) []); [done| | | |].
    + rewrite !tbl_set_world, Ht. apply pinned_split.
    + by rewrite H1.
    + by apply (live_closable vtable t).
    + intros s' Ht'. apply wp_ret, (HO (adopt_slots (slots t) recs)).
      * by apply (adopt_inherited _ 1).
      * rewrite Ht', !tbl_set_world, Ht, app_nil_r. done.
Qed.
End Completion.

(** ** A snapshot refused half way *)

Lemma snapshot_prefix {W} (vtable : Z -> hl_linux_object_ops W) cap l : forall pre suf n recs t,
  ofds t = pre ++ l ++ suf -> Forall slot_quiet l ->
  lengthZ recs + lengthZ l <= cap ->
  exists recs', lengthZ recs' <= lengthZ recs + lengthZ l /\
  fork_snapshot vtable (length l + n) (lengthZ pre) cap recs t =
  fork_snapshot vtable n (lengthZ (pre ++ map pin_live l)) cap recs' (set_ofds (pre ++ map pin_live l ++ suf) t).
Proof.
  induction l as [|e l IH]; intros pre suf n recs t Ht Hq Hcap.
  { exists recs. unfold lengthZ at 3. simpl. split; [lia|]. rewrite app_nil_r. simpl in Ht. by rewrite <- Ht, set_ofds_id. }
  inversion Hq as [|? ? He Hq']; subst. rewrite lengthZ_cons in Hcap |- *. simpl in Ht |- *.
  rewrite (lookup_middle _ _ _ _ Ht). pose proof (lengthZ_nonneg l).
  assert (Hpre : lengthZ pre + 1 = lengthZ (pre ++ [pin_live e])) by (rewrite lengthZ_app; done).
  assert (Hassoc : forall k, (pre ++ [pin_live e]) ++ k = pre ++ pin_live e :: k) by (intros; by rewrite <- app_assoc).
  destruct (Z.eqb_spec (references e) 0) as [H0|H0].
  - assert (Hpe : pin_live e = e) by (unfold pin_live; by rewrite H0). rewrite Hpre.
    destruct (IH (pre ++ [pin_live e]) suf n recs t) as (recs' & Hr & ->);
      [by rewrite Hassoc, Hpe|done|lia|]. exists recs'. split; [lia|]. by rewrite !Hassoc.
  - destruct He as [Ha Hcl]. unfold active_unsafe. rewrite Ha, Hcl. simpl.
    destruct (Z.eqb_spec (lengthZ recs) cap); [lia|].
    rewrite (put_ofd_middle _ _ _ _ _ Ht), <- pin_live_live by done. rewrite Hpre.
    destruct (IH (pre ++ [pin_live e]) suf n (recs ++ [snapshot_record (lengthZ pre) e])
      (set_ofds (pre ++ pin_live e :: l ++ suf) t)) as (recs' & Hr & ->);
      [by rewrite Hassoc|done|rewrite lengthZ_app; unfold lengthZ in *; simpl; lia|].
    exists recs'. split; [rewrite lengthZ_app in Hr; unfold lengthZ in *; simpl in *; lia|]. by rewrite !Hassoc.
Qed.

(** Some unsafe active object among the slots: the snapshot is refused. *)
Lemma snapshot_busy {W} (vtable : Z -> hl_linux_object_ops W) cap l : forall pre suf n recs t,
  ofds t = pre ++ l ++ suf -> lengthZ recs + lengthZ l <= cap ->
  (exists x, In x l /\ references x <> 0 /\ active_unsafe vtable 0 x = true) ->
  exists t', fork_snapshot vtable (length l + n) (lengthZ pre) cap recs t = Some (SnapshotBusy, t').
Proof.
  induction l as [|e l IH]; intros pre suf n recs t Ht Hcap (x & Hx & Hx0 & Hxu); [done|].
  rewrite lengthZ_cons in Hcap. simpl in Ht |- *. rewrite (lookup_middle _ _ _ _ Ht).
  pose proof (lengthZ_nonneg l).
  assert (Hin : references e = 0 \/ active_unsafe vtable 0 e = false ->
    exists x, In x l /\ references x <> 0 /\ active_unsafe vtable 0 x = true).
  { intros Hn. exists x. destruct Hx as [->|Hx]; [|done]. by destruct Hn; [|congruence]. }
  destruct (Z.eqb_spec (references e) 0) as [H0|H0].
  - assert (Hpre : lengthZ pre + 1 = lengthZ (pre ++ [e])) by (rewrite lengthZ_app; done). rewrite Hpre.
    apply (IH _ suf); [by rewrite <- app_assoc|lia|]. apply Hin. by left.
  - destruct (active_unsafe vtable 0 e) eqn:Hu; [by eexists|].
    destruct (negb (closing e =? 0)); [by eexists|]. destruct (Z.eqb_spec (lengthZ recs) cap); [lia|].
    rewrite (put_ofd_middle _ _ _ _ _ Ht).
    assert (Hpre : lengthZ pre + 1 = lengthZ (pre ++ [begin_entry e])) by (rewrite lengthZ_app; done). rewrite Hpre.
    apply (IH _ suf); [by rewrite <- app_assoc|rewrite lengthZ_app; unfold lengthZ in *; simpl; lia|].
    apply Hin. by right.
Qed.

(** The checks prepare makes before the first loop. *)
Record prepare_ready {W} (host : hl_host_services W) (plan : hl_linux_fork_plan) (t : hl_linux_abi) : Prop :=
  mk_prepare_ready {
  pr_plan : fp_abi plan = HL_LINUX_ABI_VERSION;
  pr_size : sizeof_fork_plan <= fp_size plan;
  pr_records : fp_records_null plan = false;
  pr_capacity : ofd_capacity t <= fp_capacity plan;
  pr_abi : abi_version t = HL_LINUX_ABI_VERSION;
  pr_host : exists files sync, hl_linux_files host = Some files /\ hl_linux_sync host = Some sync /\
    is_Some (f_clone_for_fork files) /\ is_Some (f_close files) /\ is_Some (fork_prepare sync)
}.

Lemma prepare_refused {W} (host : hl_host_services W) (vtable : Z -> hl_linux_object_ops W) retries fuel
    plan (s : machine W) t' :
  prepare_ready host plan (tbl s) -> reserved_fds (tbl s) = 0 ->
  fork_snapshot vtable (Z.to_nat (ofd_watermark (tbl s) - 1)) 1 (fp_capacity plan) [] (tbl s) =
    Some (SnapshotBusy, t') ->
  hl_linux_abi_fork_prepare host vtable retries fuel plan s =
    Some ((HL_STATUS_BUSY, set_records [] (set_phase 0 0 plan)), set_tbl t' s).
Proof.
  intros [Hp Hsz Hn Hc Ha (files & sync & Hf & Hs & [c Hc1] & [cl Hc2] & [arm Harm])] Hres Hsnap.
  unfold hl_linux_abi_fork_prepare, hl_linux_fork_plan_output_prepare. rewrite Hp.
  destruct (Z.ltb_spec (fp_size plan) sizeof_fork_plan); [lia|]. simpl.
  unfold bind at 1. simpl. rewrite Ha. simpl. rewrite Hn, andb_false_r, Hf, Hs, Hc1, Hc2, Harm.
  unfold fork_attempt. destruct retries; unfold fork_attempt_body, bind, get_tbl, section; simpl;
    rewrite Hres; simpl; by rewrite Hsnap.
Qed.

Lemma split_at_slot t l1 e l2 :
  slots t = l1 ++ e :: l2 -> 1 <= lengthZ (ofds t) ->
  ofds t = unused_slot t ++ l1 ++ e :: l2 /\ lengthZ (unused_slot t) = 1.
Proof.
  intros Hs Hl. split; [by rewrite <- Hs, <- ofds_split|].
  unfold unused_slot, lengthZ in *. rewrite length_take. lia.
Qed.

(** The BUSY returns inside the first loop of fork_snapshot.c (lines
    30-40) forget the pins already taken: the plan answers with no records
    while every live slot before the offending one keeps its extra
    [active_operations], and if one of these is an object that forbids forking
    while active, every later prepare answers BUSY too, whatever became of the
    offending slot. *)
Theorem busy_prepare_leaks_pins {W} (host : hl_host_services W) (vtable : Z -> hl_linux_object_ops W)
    retries fuel plan (s : machine W) l1 e l2 :
  prepare_ready host plan (tbl s) -> reserved_fds (tbl s) = 0 ->
  slots (tbl s) = l1 ++ e :: l2 -> Forall slot_quiet l1 ->
  1 + lengthZ l1 < ofd_watermark (tbl s) ->
  references e <> 0 -> active_unsafe vtable 0 e = true ->
  (exists s', hl_linux_abi_fork_prepare host vtable retries fuel plan s =
      Some ((HL_STATUS_BUSY, set_records [] (set_phase 0 0 plan)), s') /\
    tbl s' = with_slots (map pin_live l1 ++ e :: l2) (tbl s)) /\
  (forall retries' fuel' plan' (s2 : machine W) e' l2' x,
    In x l1 -> references x <> 0 -> object_ops x <> 0 -> fork_while_active_safe (vtable (object_ops x)) = 0 ->
    prepare_ready host plan' (tbl s2) -> reserved_fds (tbl s2) = 0 ->
    slots (tbl s2) = map pin_live l1 ++ e' :: l2' -> 1 + lengthZ l1 < ofd_watermark (tbl s2) ->
    exists s3, hl_linux_abi_fork_prepare host vtable retries' fuel' plan' s2 =
      Some ((HL_STATUS_BUSY, set_records [] (set_phase 0 0 plan')), s3)).
Proof.
  intros Hready Hres Hsl Hq Hw He0 Heu.
  assert (Hlen : forall t l1 (x : hl_linux_ofd_entry) l2, slots t = l1 ++ x :: l2 -> 1 <= lengthZ (ofds t)).
  { intros t k1 x k2 Hs. unfold slots, lengthZ in *. destruct (ofds t); [by destruct k1|]. simpl. lia. }
  assert (Hcap : forall t l1 (x : hl_linux_ofd_entry) l2 p, slots t = l1 ++ x :: l2 ->
    prepare_ready host p t -> lengthZ (@nil hl_linux_fork_record) + lengthZ l1 <= fp_capacity p).
  { intros t k1 x k2 p Hs [_ _ _ Hc _ _]. destruct (split_at_slot _ _ _ _ Hs (Hlen _ _ _ _ Hs)) as [Ho H1].
    unfold ofd_capacity in Hc. rewrite Ho, !lengthZ_app in Hc. pose proof (lengthZ_nonneg (x :: k2)).
    unfold lengthZ in *. simpl. lia. }
  split.
  - destruct (split_at_slot _ _ _ _ Hsl (Hlen _ _ _ _ Hsl)) as [Ho H1]. eexists. split.
    + apply (prepare_refused _ _ _ _ _ _ (with_slots (map pin_live l1 ++ e :: l2) (tbl s))); [done|done|].
      replace (Z.to_nat (ofd_watermark (tbl s) - 1)) with
        (length l1 + S (Z.to_nat (ofd_watermark (tbl s) - 1) - length l1 - 1))%nat by (unfold lengthZ in Hw; lia).
      rewrite <- H1.
      destruct (snapshot_prefix vtable (fp_capacity plan) l1 (unused_slot (tbl s)) (e :: l2)
        (S (Z.to_nat (ofd_watermark (tbl s) - lengthZ (unused_slot (tbl s))) - length l1 - 1)) [] (tbl s) Ho Hq)
        as (recs' & _ & ->); [by eapply Hcap|].
      simpl. rewrite app_assoc, lookupZ_middle. destruct (Z.eqb_spec (references e) 0); [done|].
      rewrite Heu. unfold with_slots. by rewrite app_assoc.
    + by rewrite tbl_set_tbl.
  - intros retries' fuel' plan' s2 e' l2' x Hx Hx0 Hxo Hxs Hready2 Hres2 Hsl2 Hw2.
    destruct (split_at_slot _ _ _ _ Hsl2 (Hlen _ _ _ _ Hsl2)) as [Ho H1].
    assert (Hlm : lengthZ (map pin_live l1) = lengthZ l1) by (unfold lengthZ; by rewrite length_map).
    destruct (snapshot_busy vtable (fp_capacity plan') (map pin_live l1) (unused_slot (tbl s2)) (e' :: l2')
      (Z.to_nat (ofd_watermark (tbl s2) - 1) - length l1) [] (tbl s2) Ho) as [t' Ht'].
    + by eapply Hcap.
    + exists (pin_live x). rewrite pin_live_live by done. split_and!; [|done|].
      * rewrite <- pin_live_live by done. by apply in_map.
      * destruct (proj1 (List.Forall_forall _ _) Hq x Hx) as [Ha _]. unfold active_unsafe. simpl. rewrite Ha. simpl.
        rewrite Hxs. by destruct (Z.eqb_spec (object_ops x) 0).
    + eexists. apply (prepare_refused _ _ _ _ _ _ t'); [done|done|]. rewrite H1, length_map in Ht'.
      replace (length l1 + (Z.to_nat (ofd_watermark (tbl s2) - 1) - length l1))%nat with
        (Z.to_nat (ofd_watermark (tbl s2) - 1)) in Ht' by (unfold lengthZ in Hw2; lia). done.
Qed.

(** ** The properties *)

Section Properties.
Context {W : Type}.
Variable host : hl_host_services W.
Variable vtable : Z -> hl_linux_object_ops W.
Context `{!HostReady host}.

#[local] Abbreviation table_wf := (table_wf (has_close vtable)).

(** C36: On a table at rest - well formed, no operation in flight and nothing
    closing - fork preparation is exact and all-or-nothing: it returns; on
    success the plan is armed with exactly one record per live slot
    (generation, host handle, object and context as they are in the table),
    each record has a child, and the table differs only by one pin on every
    live slot; on any refusal - a full plan, a clone that fails half way, a
    host that cannot be armed - the clones made are rolled back and the table
    is untouched. (With an operation in flight a refusal may leave pins behind,
    [busy_prepare_leaks_pins].) *)
Theorem fork_prepare_exact (retries fuel : nat) (plan : hl_linux_fork_plan) (s : machine W) :
  table_wf (tbl s) ->
  exists status plan' s', hl_linux_abi_fork_prepare host vtable retries fuel plan s = Some ((status, plan'), s') /\
    if is_ok status
    then tbl s' = pinned (tbl s) /\ fp_armed plan' = 1 /\
         map snapshot_part (fp_records plan') = live_records 1 (slots (tbl s)) /\
         Forall child_made (fp_records plan') /\
         (forall i e, 1 <= i -> lookupZ (ofds (tbl s)) i = Some e -> references e <> 0 ->
            countZ (record_matches i e) (fp_records plan') = 1)
    else tbl s' = tbl s.
Proof.
  intros Hwf. enough (Hwp : wp (hl_linux_abi_fork_prepare host vtable retries fuel plan)
    (fun '(status, plan') s' => if is_ok status
     then tbl s' = pinned (tbl s) /\ plan_ready vtable (tbl s) plan' else tbl s' = tbl s) s).
  { destruct Hwp as ([status plan'] & s' & Hrun & HQ). exists status, plan', s'. split; [done|].
    destruct (is_ok status); [|done]. destruct HQ as [Ht []]. split_and!; try done.
    intros i e Hi He H0. rewrite <- count_part, ready_records0. replace i with (1 + (i - 1)) by lia.
    apply live_records_match; [|done]. apply (slots_lookup vtable); [by destruct Hwf|].
    split; [lia|]. by replace (1 + (i - 1)) with i by lia. }
  apply (wp_fork_prepare host vtable); [done|intros plan' s' Ht Hr; cbn; split; [exact Ht|exact Hr]|]. intros status plan' s' Hst Ht. by destruct status.
Qed.

Lemma prepared retries fuel plan plan' (s s1 : machine W) :
  table_wf (tbl s) ->
  hl_linux_abi_fork_prepare host vtable retries fuel plan s = Some ((HL_STATUS_OK, plan'), s1) ->
  tbl s1 = pinned (tbl s) /\ plan_ready vtable (tbl s) plan'.
Proof.
  intros Hwf Hrun. enough (Hwp : wp (hl_linux_abi_fork_prepare host vtable retries fuel plan)
    (fun '(status, plan') s' => status = HL_STATUS_OK ->
       tbl s' = pinned (tbl s) /\ plan_ready vtable (tbl s) plan') s).
  { destruct Hwp as ([status plan''] & s' & Hrun' & HQ). rewrite Hrun in Hrun'.
    injection Hrun' as <- <- <-. by apply HQ. }
  by apply (wp_fork_prepare host vtable).
Qed.

(** The parent's completion undoes prepare: whatever the host answers and
    whatever the children's closes report, every pin is dropped, no slot is
    finalised, the plan is empty and disarmed, and the table is the one that
    prepare found. *)
Theorem fork_parent_undoes (retries fuel : nat) plan plan' files close (s s1 s2 : machine W) :
  table_wf (tbl s) ->
  hl_linux_abi_fork_prepare host vtable retries fuel plan s = Some ((HL_STATUS_OK, plan'), s1) ->
  tbl s2 = tbl s1 ->
  hl_linux_files host = Some files -> f_close files = Some close -> is_Some (fork_parent ready_sync) ->
  exists status s3, hl_linux_abi_fork_parent host vtable fuel plan' s2 =
      Some ((status, set_records [] (set_phase 0 0 plan')), s3) /\ tbl s3 = tbl s.
Proof.
  intros Hwf Hrun Ht Hf Hc Hp. destruct (prepared _ _ _ _ _ _ Hwf Hrun) as [Ht1 Hready].
  rewrite Ht1 in Ht.
  destruct (wp_fork_parent host vtable fuel _ plan' files close
    (fun '(_, p) s3 => p = set_records [] (set_phase 0 0 plan') /\ tbl s3 = tbl s) s2 Hf Hc Hp Hwf Hready Ht)
    as ([status p] & s3 & Hrun3 & -> & Ht3); [by intros; split|by exists status, s3].
Qed.

(** The child's completion either adopts everything or nothing: on success
    every live slot keeps its descriptors, offset, flags, kind and flock token,
    has a mutex of its own and the child's handle or object context in place of
    the parent's, with no operation in flight, and the table is well formed; on
    any failure the table is the one that prepare found. *)
Theorem fork_child_inherits (retries fuel : nat) plan plan' files close (s s1 s2 : machine W) :
  table_wf (tbl s) ->
  hl_linux_abi_fork_prepare host vtable retries fuel plan s = Some ((HL_STATUS_OK, plan'), s1) ->
  tbl s2 = tbl s1 ->
  hl_linux_files host = Some files -> f_close files = Some close -> is_Some (fork_child ready_sync) ->
  exists status s3, hl_linux_abi_fork_child host vtable fuel plan' s2 =
      Some ((status, set_records [] (set_phase 0 0 plan')), s3) /\
    if is_ok status
    then table_wf (tbl s3) /\ exists l, Forall2 inherited (slots (tbl s)) l /\ tbl s3 = with_slots l (tbl s)
    else tbl s3 = tbl s.
Proof.
  intros Hwf Hrun Ht Hf Hc Hp. destruct (prepared _ _ _ _ _ _ Hwf Hrun) as [Ht1 Hready].
  rewrite Ht1 in Ht.
  destruct (wp_fork_child host vtable fuel _ plan' files close
    (fun '(status, p) s3 => p = set_records [] (set_phase 0 0 plan') /\
       if is_ok status
       then table_wf (tbl s3) /\ exists l, Forall2 inherited (slots (tbl s)) l /\ tbl s3 = with_slots l (tbl s)
       else tbl s3 = tbl s) s2 Hf Hc Hp Hwf Hready Ht)
    as ([status p] & s3 & Hrun3 & -> & Ht3); [| |by exists status, s3].
  - intros status s3 Hst Ht3. split; [done|]. by destruct status.
  - intros l s3 Hl Ht3. split; [done|]. simpl. rewrite Ht3. split; [by apply inherited_wf|by exists l].
Qed.

Lemma pin_fd_ok fd pin (s s1 : machine W) :
  table_wf (tbl s) ->
  hl_linux_object_pin_fd host fd s = Some ((HL_STATUS_OK, Some pin), s1) ->
  exists fe e, lookupZ (fds (tbl s)) fd = Some fe /\ 1 <= fd_ofd fe < ofd_capacity (tbl s) /\
    lookupZ (ofds (tbl s)) (fd_ofd fe) = Some e /\ slot_live (has_close vtable) e /\
    pin = mk_pin (fd_ofd fe) (ofd_generation e) (object_ops e) (object_context e) /\
    tbl s1 = put_ofd (fd_ofd fe) (begin_entry e) (tbl s).
Proof.
  intros [Hinv _] Hrun.
  pose proof (get_unlocked_inv _ (tbl s) fd Hinv) as Hget.
  unfold hl_linux_object_pin_fd in Hrun. apply bind_Some in Hrun as (t & s0 & [= <- <-] & Hrun).
  destruct (hl_linux_fd_get_unlocked (tbl s) fd) as [st|[[fe i] e]]; [by injection Hrun|].
  destruct Hget as (Hfe & -> & Hrange & He & Hlive). destruct (object_ops e =? 0); [by injection Hrun|].
  apply bind_Some in Hrun as ([] & s2 & Hup & Hrun). unfold update_ofd in Hup. rewrite He in Hup.
  injection Hup as <-. apply bind_Some in Hrun as (locked & s3 & Hlock & Hrun).
  unfold sync_lock in Hlock. rewrite ready_sync_found in Hlock. unfold call1 in Hlock.
  apply call_Some in Hlock as [w ->]. destruct (is_ok (r_status locked)) eqn:Hok.
  - injection Hrun as <- <-. by exists fe, e.
  - apply bind_Some in Hrun as (u & s4 & _ & Hrun). injection Hrun as Hst. by rewrite Hst in Hok.
Qed.

Lemma unpin_dropped e :
  active_operations e = 0 -> end_entry (dropped (begin_entry e)) = dropped e.
Proof.
  intros Ha. replace (dropped (begin_entry e)) with (begin_entry (dropped e))
    by (unfold dropped, begin_entry; simpl; by destruct (references e =? 1)).
  apply begin_end_entry. destruct (dropped_fields e) as (_ & -> & _). lia.
Qed.

Lemma put_ofd_twice i e e' fd fe t :
  put_ofd i e' (put_fd fd fe (put_ofd i e t)) = put_ofd i e' (put_fd fd fe t) /\
  put_ofd i e' (put_ofd i e t) = put_ofd i e' t.
Proof. unfold put_ofd, put_fd, set_ofds, set_fds. simpl. by rewrite !insertZ_insertZ_eq. Qed.

(** Closing the last descriptor of a pinned slot leaves the final close to the pin. *)
Lemma close_pinned fuel fd fe e (s s1 : machine W) :
  table_wf (tbl s) -> lookupZ (fds (tbl s)) fd = Some fe -> 1 <= fd_ofd fe < ofd_capacity (tbl s) ->
  lookupZ (ofds (tbl s)) (fd_ofd fe) = Some e -> slot_live (has_close vtable) e ->
  tbl s1 = put_ofd (fd_ofd fe) (begin_entry e) (tbl s) ->
  exists s2, hl_linux_fd_close host vtable fuel fd None s1 = Some ((HL_STATUS_OK, None), s2) /\
    tbl s2 = put_ofd (fd_ofd fe) (dropped (begin_entry e))
               (put_fd fd (mk_fd 0 0 (u32 (fd_generation fe + 1))) (tbl s)).
Proof.
  intros [Hinv Hq] Hfe Hrange He Hlive Ht1.
  pose proof (quiescent_active _ _ _ Hq (proj1 Hrange) He) as Ha. pose proof (lookupZ_Some_range _ _ _ He) as Hr.
  assert (Hnf : ~ slot_free e) by (intros []; by destruct Hlive).
  assert (Hlive1 : slot_live (has_close vtable) (begin_entry e)) by (destruct Hlive; by constructor).
  destruct (close_section_spec (has_close vtable) (tbl s1) fd fe (begin_entry e)) as [Hsec _]; try done.
  { rewrite Ht1. by apply begin_entry_inv; try done; lia. }
  { by rewrite Ht1. }
  { rewrite Ht1. unfold ofd_capacity in *. simpl. by rewrite lengthZ_insertZ. }
  { rewrite Ht1. simpl. by apply lookupZ_insertZ_eq. }
  rewrite Ht1, (proj1 (put_ofd_twice _ _ _ _ _ _)), <- Ht1 in Hsec.
  unfold hl_linux_fd_close, bind, get_tbl. rewrite Hsec. simpl. rewrite Ha. simpl. rewrite andb_true_r.
  assert (Hend : forall b : bool, b && negb b = false) by by intros [].
  destruct (negb ((if references e =? 1 then object_ops e else 0) =? 0));
    [destruct (o_retire _) as [retire|]|]; simpl; rewrite Hend; by eexists.
Qed.

(** The pin's release finalises the slot if the close was the last one. *)
Lemma wp_unpin_closed fuel fd fe e (s s2 : machine W) :
  table_wf (tbl s) -> lookupZ (fds (tbl s)) fd = Some fe -> 1 <= fd_ofd fe < ofd_capacity (tbl s) ->
  lookupZ (ofds (tbl s)) (fd_ofd fe) = Some e -> slot_live (has_close vtable) e ->
  tbl s2 = put_ofd (fd_ofd fe) (dropped (begin_entry e))
             (put_fd fd (mk_fd 0 0 (u32 (fd_generation fe + 1))) (tbl s)) ->
  wp (hl_linux_object_unpin host vtable fuel
        (mk_pin (fd_ofd fe) (ofd_generation e) (object_ops e) (object_context e)))
    (fun _ s3 => tbl s3 = close_result (tbl s) fd fe e /\ table_wf (tbl s3)) s2.
Proof.
  intros Hwf Hfe Hrange He Hlive Ht2. pose proof Hwf as [Hinv Hq].
  pose proof (quiescent_active _ _ _ Hq (proj1 Hrange) He) as Ha. pose proof (lookupZ_Some_range _ _ _ He) as Hr.
  destruct (close_section_spec (has_close vtable) (tbl s) fd fe e) as [_ Hinv2]; try done.
  pose proof (close_result_wf vtable (tbl s) fd fe e Hwf Hfe Hrange He Hlive) as Hcwf.
  set (t3 := put_fd fd (mk_fd 0 0 (u32 (fd_generation fe + 1))) (tbl s)) in *. set (i := fd_ofd fe) in *.
  destruct (dropped_fields (begin_entry e)) as (Hd1 & Hd2 & _ & _ & _ & _ & Hd7).
  unfold hl_linux_object_unpin. simpl. apply wp_bind.
  apply (wp_section _ (references e =? 1) (put_ofd i (dropped e) t3)).
  { unfold unpin_section. rewrite Ht2. simpl. rewrite lookupZ_insertZ_eq by done.
    rewrite Hd7, Hd2, unpin_dropped by done. simpl. rewrite Z.eqb_refl, Ha. simpl.
    rewrite (proj2 (put_ofd_twice i _ _ fd fe _)).
    unfold dropped. simpl. destruct (Z.eqb_spec (references e) 1) as [H1|H1]; simpl; rewrite ?Ha, ?H1; [done|].
    destruct (Z.eqb_spec (references e - 1) 0); [lia|done]. }
  apply wp_bind, (wp_get_ofd _ (dropped e)); [simpl; by apply lookupZ_insertZ_eq|].
  apply wp_bind, (wp_sync_unlock host). intros x w'. unfold close_result in Hcwf |- *. fold i in Hcwf |- *. fold t3 in Hcwf |- *.
  destruct (Z.eqb_spec (references e) 1) as [H1|H1]; [|apply wp_ret; split; [done|by apply Hcwf]].
  apply wp_bind, (wp_finalize host vtable fuel i (dropped e)); [done|lia| | | |].
  - simpl. by apply lookupZ_insertZ_eq.
  - by apply dropped_final.
  - unfold dropped. rewrite H1. done.
  - intros status s' Ht' Hinv' _. apply wp_ret. rewrite Ht' in *. simpl in *.
    rewrite (proj2 (put_ofd_twice i _ _ fd fe _)) in *. split; [done|by apply Hcwf].
Qed.

(** A pin keeps a typed object alive: between the pin and its release the
    last descriptor can be closed, the object stays in its slot (its adapter's
    close has not run), and the release then finalises the slot - the table
    ends exactly as a close without the pin would have left it. *)
Theorem pin_survives_close (fuel fuel' : nat) fd pin (s s1 : machine W) :
  table_wf (tbl s) ->
  hl_linux_object_pin_fd host fd s = Some ((HL_STATUS_OK, Some pin), s1) ->
  exists fe e status s2 s3,
    lookupZ (fds (tbl s)) fd = Some fe /\ lookupZ (ofds (tbl s)) (fd_ofd fe) = Some e /\
    hl_linux_fd_close host vtable fuel fd None s1 = Some ((status, None), s2) /\
    (exists e2, lookupZ (ofds (tbl s2)) (pin_ofd pin) = Some e2 /\
       object_ops e2 = pin_ops pin /\ object_context e2 = pin_context pin /\ io_mutex e2 = io_mutex e /\
       hl_linux_object_retired pin s2 = Some (references e =? 1, s2)) /\
    hl_linux_object_unpin host vtable fuel' pin s2 = Some (tt, s3) /\
    tbl s3 = close_result (tbl s) fd fe e /\ table_wf (tbl s3).
Proof.
  intros Hwf Hrun.
  destruct (pin_fd_ok _ _ _ _ Hwf Hrun) as (fe & e & Hfe & Hrange & He & Hlive & -> & Ht1).
  destruct (close_pinned fuel fd fe e s s1) as (s2 & Hclose & Ht2); try done.
  destruct (wp_unpin_closed fuel' fd fe e s s2) as ([] & s3 & Hu & Ht3 & Hwf3); try done.
  exists fe, e, HL_STATUS_OK, s2, s3. split_and!; try done.
  destruct (dropped_fields (begin_entry e)) as (Hd1 & Hd2 & Hd3 & Hd4 & Hd5 & Hd6 & Hd7).
  assert (He2 : lookupZ (ofds (tbl s2)) (fd_ofd fe) = Some (dropped (begin_entry e))).
  { rewrite Ht2. simpl. apply lookupZ_insertZ_eq. by eapply lookupZ_Some_range. }
  exists (dropped (begin_entry e)). split_and!; [done|done|done|done|].
  unfold hl_linux_object_retired, bind, get_tbl, ret. simpl pin_ofd. rewrite He2, Hd1, Hd7. simpl.
  rewrite Z.eqb_refl. simpl. pose proof (live_refs _ _ Hlive). pose proof (live_closing _ _ Hlive) as Hcl.
  unfold dropped. simpl.
  destruct (Z.eqb_spec (references e) 1), (Z.eqb_spec (references e - 1) 0); simpl; try lia; [done|by rewrite Hcl].
Qed.
End Properties.

(** ** Witnesses *)

(** Descriptor 0 and 2 name a file, descriptor 1 an object. *)
Definition fork_start : machine Z :=
  demo_after [CallOpenat (-100) (Some [47]) 2 0; CallObjectInstall 7 55 1 0 0 (Some 0); CallDup 0].
Definition fork_plan : hl_linux_fork_plan := mk_fork_plan HL_LINUX_ABI_VERSION sizeof_fork_plan false 8 [] 0 0.
Definition forked : machine Z * hl_linux_fork_plan :=
  match hl_linux_abi_fork_prepare demo_host demo_vtable 0 0 fork_plan fork_start with
  | Some ((_, plan), s) => (s, plan)
  | None => (fork_start, fork_plan)
  end.

Lemma fork_start_wf : table_wf (has_close demo_vtable) (tbl fork_start).
Proof. by apply demo_after_wf. Qed.

Lemma forked_prepared :
  hl_linux_abi_fork_prepare demo_host demo_vtable 0 0 fork_plan fork_start =
    Some ((HL_STATUS_OK, snd forked), fst forked).
Proof. vm_compute. reflexivity. Qed.

Lemma fork_prepare_exact_witness :
  exists status plan' s',
    hl_linux_abi_fork_prepare demo_host demo_vtable 0 0 fork_plan fork_start = Some ((status, plan'), s') /\
    if is_ok status
    then tbl s' = pinned (tbl fork_start) /\ fp_armed plan' = 1 /\
         map snapshot_part (fp_records plan') = live_records 1 (slots (tbl fork_start)) /\
         Forall child_made (fp_records plan') /\
         (forall i e, 1 <= i -> lookupZ (ofds (tbl fork_start)) i = Some e -> references e <> 0 ->
            countZ (record_matches i e) (fp_records plan') = 1)
    else tbl s' = tbl fork_start.
Proof. apply (fork_prepare_exact demo_host demo_vtable 0 0 fork_plan fork_start). apply fork_start_wf. Defined.

Lemma fork_parent_undoes_witness :
  exists status s3, hl_linux_abi_fork_parent demo_host demo_vtable 0 (snd forked) (fst forked) =
      Some ((status, set_records [] (set_phase 0 0 (snd forked))), s3) /\ tbl s3 = tbl fork_start.
Proof.
  apply (fork_parent_undoes demo_host demo_vtable 0 0 fork_plan (snd forked) demo_file (fun _ => demo_ok 0)
    fork_start (fst forked) (fst forked)).
  - apply fork_start_wf.
  - apply forked_prepared.
  - reflexivity.
  - reflexivity.
  - reflexivity.
  - eexists. reflexivity.
Defined.

Lemma fork_child_inherits_witness :
  exists status s3, hl_linux_abi_fork_child demo_host demo_vtable 0 (snd forked) (fst forked) =
      Some ((status, set_records [] (set_phase 0 0 (snd forked))), s3) /\
    if is_ok status
    then table_wf (has_close demo_vtable) (tbl s3) /\
         exists l, Forall2 inherited (slots (tbl fork_start)) l /\ tbl s3 = with_slots l (tbl fork_start)
    else tbl s3 = tbl fork_start.
Proof.
  apply (fork_child_inherits demo_host demo_vtable 0 0 fork_plan (snd forked) demo_file (fun _ => demo_ok 0)
    fork_start (fst forked) (fst forked)).
  - apply fork_start_wf.
  - apply forked_prepared.
  - reflexivity.
  - reflexivity.
  - reflexivity.
  - eexists. reflexivity.
Defined.

(** The child of the demonstration succeeds. *)
Example child_adopts_demo :
  match hl_linux_abi_fork_child demo_host demo_vtable 0 (snd forked) (fst forked) with
  | Some ((status, _), s) => (status, map host_handle (ofds (tbl s)), map object_context (ofds (tbl s)))
  | None => (HL_STATUS_CORRUPT, [], [])
  end = (HL_STATUS_OK, [0; 600; 0; 0; 0; 0; 0; 0], [0; 0; 56; 0; 0; 0; 0; 0]).
Proof. vm_compute. reflexivity. Qed.

(** Slot 1 is an idle object that forbids forking while active, slot 2 another
    with an operation in flight. *)
Definition unsafe_idle : hl_linux_ofd_entry := mk_ofd 0 0 0 1 0 0 1 0 5 11 9 1.
Definition unsafe_active : hl_linux_ofd_entry := mk_ofd 0 0 0 1 1 0 1 0 6 12 9 2.
Definition busy_table (l : list hl_linux_ofd_entry) : hl_linux_abi :=
  mk_abi HL_LINUX_ABI_VERSION [mk_fd 1 0 1; mk_fd 2 0 1] (zero_ofd :: l) 3 0.
Definition busy_start : machine Z := mk_machine (busy_table [unsafe_idle; unsafe_active]) 0 77 1 0 0.
(** Later: the operation of slot 2 has ended, the pin of slot 1 has not. *)
Definition busy_later : machine Z :=
  mk_machine (busy_table [begin_entry unsafe_idle; with_active 0 unsafe_active]) 0 77 1 0 0.

Lemma demo_prepare_ready l : (length l <= 7)%nat -> prepare_ready demo_host fork_plan (busy_table l).
Proof.
  intros Hl. constructor; try done.
  - unfold ofd_capacity, lengthZ. simpl. lia.
  - exists demo_file, demo_sync. split_and!; try reflexivity; eexists; reflexivity.
Qed.

Lemma busy_prepare_leaks_pins_witness :
  (exists s', hl_linux_abi_fork_prepare demo_host demo_vtable 0 0 fork_plan busy_start =
      Some ((HL_STATUS_BUSY, set_records [] (set_phase 0 0 fork_plan)), s') /\
    tbl s' = with_slots (map pin_live [unsafe_idle] ++ [unsafe_active]) (tbl busy_start)) /\
  (exists s3, hl_linux_abi_fork_prepare demo_host demo_vtable 0 0 fork_plan busy_later =
      Some ((HL_STATUS_BUSY, set_records [] (set_phase 0 0 fork_plan)), s3)).
Proof.
  destruct (busy_prepare_leaks_pins demo_host demo_vtable 0 0 fork_plan busy_start [unsafe_idle] unsafe_active [])
    as [H1 H2].
  - apply demo_prepare_ready. simpl. lia.
  - reflexivity.
  - reflexivity.
  - constructor; [by split|constructor].
  - reflexivity.
  - done.
  - reflexivity.
  - split; [exact H1|].
    apply (H2 0%nat 0%nat fork_plan busy_later (with_active 0 unsafe_active) [] unsafe_idle).
    + by left.
    + done.
    + done.
    + reflexivity.
    + apply demo_prepare_ready. simpl. lia.
    + reflexivity.
    + reflexivity.
    + reflexivity.
Defined.

(** Descriptor 1 names the object of the demonstration. *)
Definition pinned_start : option (hl_linux_object_pin * machine Z) :=
  match hl_linux_object_pin_fd demo_host 1 fork_start with
  | Some ((_, Some pin), s) => Some (pin, s)
  | _ => None
  end.

Lemma pin_survives_close_witness :
  exists pin s1 fe e status s2 s3,
    hl_linux_object_pin_fd demo_host 1 fork_start = Some ((HL_STATUS_OK, Some pin), s1) /\
    lookupZ (fds (tbl fork_start)) 1 = Some fe /\ lookupZ (ofds (tbl fork_start)) (fd_ofd fe) = Some e /\
    hl_linux_fd_close demo_host demo_vtable 0 1 None s1 = Some ((status, None), s2) /\
    (exists e2, lookupZ (ofds (tbl s2)) (pin_ofd pin) = Some e2 /\
       object_ops e2 = pin_ops pin /\ object_context e2 = pin_context pin /\ io_mutex e2 = io_mutex e /\
       hl_linux_object_retired pin s2 = Some (references e =? 1, s2)) /\
    hl_linux_object_unpin demo_host demo_vtable 0 pin s2 = Some (tt, s3) /\
    tbl s3 = close_result (tbl fork_start) 1 fe e /\ table_wf (has_close demo_vtable) (tbl s3).
Proof.
  destruct pinned_start as [[pin s1]|] eqn:Hp; [|discriminate Hp].
  assert (Hrun : hl_linux_object_pin_fd demo_host 1 fork_start = Some ((HL_STATUS_OK, Some pin), s1)).
  { vm_compute in Hp. injection Hp as <- <-. vm_compute. reflexivity. }
  destruct (pin_survives_close demo_host demo_vtable 0 0 1 pin fork_start s1 fork_start_wf Hrun)
    as (fe & e & status & s2 & s3 & H).
  exists pin, s1, fe, e, status, s2, s3. split; [exact Hrun|exact H].
Defined.
