(* ===== verification/VmaLedger.v ===== *)
(** * The logical VMA ledger

    [linux_abi/logical_vma.c]: guest-visible 4 KiB intervals kept apart from
    their host representation.  A ledger is an unordered array of entries over
    reference-counted backings; every mutation publishes an immutable sorted
    snapshot which lock-free readers search.  The POSIX branch of the host
    calls is modelled (a backing's reference is a descriptor).

    Pointers to backings are keys of a store; [None] is undefined behaviour: a
    use after free, or a write past an allocated array. *)

From stdpp Require Import gmap.
From S2P Require Import Prelude.

Definition VMA_EACCES : Z := 13.
Definition VMA_ENOMEM : Z := 12.
Definition VMA_EFAULT : Z := 14.
Definition VMA_EINVAL : Z := 22.

Definition HL_LOGICAL_VMA_READ : Z := 1.
Definition HL_LOGICAL_VMA_WRITE : Z := 2.
Definition HL_LOGICAL_VMA_EXEC : Z := 4.
Definition HL_LOGICAL_VMA_SHARED : Z := 1.
Definition HL_LOGICAL_VMA_DIRECT : Z := 2.

(** [size_t] and [uintptr_t] are 64 bits wide. *)
Definition SIZE_MAX : Z := UINT64_MAX.
Definition UINTPTR_MAX : Z := UINT64_MAX.

Record hl_logical_vma_backing := mk_backing {
  b_mapping : Z;
  b_length : Z;
  b_references : Z;
  b_device : Z;
  b_inode : Z;
  b_file_offset : Z;
  b_retained : Z;        (** the duplicate descriptor, [-1] for none *)
  b_writable : bool;
  b_borrowed : bool
}.

Record hl_logical_vma_entry := mk_entry {
  guest_first : Z;
  guest_last : Z;
  backing_offset : Z;
  protection : Z;
  flags : Z;
  backing : Z
}.

Record hl_logical_vma_view := mk_view {
  v_first : Z;
  v_last : Z;
  v_delta : Z;
  v_backing : Z;
  v_backing_offset : Z;
  v_protection : Z;
  v_flags : Z
}.

(** The views and, behind them in the same block, the backings they hold. *)
Record hl_logical_vma_snapshot := mk_snapshot {
  snap_views : list hl_logical_vma_view;
  snap_backings : list Z
}.

Record hl_logical_vma_ledger := mk_ledger {
  entries : list hl_logical_vma_entry;
  capacity : Z;
  current : option hl_logical_vma_snapshot;
  retired : list hl_logical_vma_snapshot;
  generation : Z
}.

(** The store of backings.  [released] lists the backings whose last reference
    is gone: their mapping is unmapped (unless borrowed), their descriptor
    closed, their block freed. *)
Record vma_store := mk_store {
  backings : gmap Z hl_logical_vma_backing;
  next_backing : Z;
  released : list hl_logical_vma_backing
}.

Definition sizeof_entry : Z := 40.
Definition sizeof_view_item : Z := 56.
Definition sizeof_snapshot : Z := 16.
Definition sizeof_backing : Z := 72.

Definition set_entries (l : list hl_logical_vma_entry) (L : hl_logical_vma_ledger) : hl_logical_vma_ledger :=
  mk_ledger l (capacity L) (current L) (retired L) (generation L).
Definition set_capacity (c : Z) (L : hl_logical_vma_ledger) : hl_logical_vma_ledger :=
  mk_ledger (entries L) c (current L) (retired L) (generation L).
Definition with_references (r : Z) (b : hl_logical_vma_backing) : hl_logical_vma_backing :=
  mk_backing (b_mapping b) (b_length b) r (b_device b) (b_inode b) (b_file_offset b) (b_retained b)
    (b_writable b) (b_borrowed b).
Definition with_first (f o : Z) (e : hl_logical_vma_entry) : hl_logical_vma_entry :=
  mk_entry f (guest_last e) o (protection e) (flags e) (backing e).
Definition with_last (l : Z) (e : hl_logical_vma_entry) : hl_logical_vma_entry :=
  mk_entry (guest_first e) l (backing_offset e) (protection e) (flags e) (backing e).
Definition with_protection (p : Z) (e : hl_logical_vma_entry) : hl_logical_vma_entry :=
  mk_entry (guest_first e) (guest_last e) (backing_offset e) p (flags e) (backing e).
Definition with_backing (b o : Z) (e : hl_logical_vma_entry) : hl_logical_vma_entry :=
  mk_entry (guest_first e) (guest_last e) o (protection e) (flags e) b.

Definition count (L : hl_logical_vma_ledger) : Z := lengthZ (entries L).

(** ** References *)

Definition backing_get (b : Z) (h : vma_store) : option vma_store :=
  bk ← backings h !! b;
  Some (mk_store (<[b := with_references (u64 (b_references bk + 1)) bk]> (backings h)) (next_backing h)
          (released h)).

Definition backing_put (b : Z) (h : vma_store) : option vma_store :=
  bk ← backings h !! b;
  if b_references bk =? 1
  then Some (mk_store (delete b (backings h)) (next_backing h) (bk :: released h))
  else Some (mk_store (<[b := with_references (u64 (b_references bk - 1)) bk]> (backings h)) (next_backing h)
               (released h)).

Fixpoint put_all (l : list Z) (h : vma_store) : option vma_store :=
  match l with
  | [] => Some h
  | b :: l' => h' ← backing_put b h; put_all l' h'
  end.
Fixpoint get_all (l : list Z) (h : vma_store) : option vma_store :=
  match l with
  | [] => Some h
  | b :: l' => h' ← backing_get b h; get_all l' h'
  end.

(** A new backing: its pointer is one no live or dead backing has. *)
Definition new_backing (bk : hl_logical_vma_backing) (h : vma_store) : Z * vma_store :=
  (next_backing h, mk_store (<[next_backing h := bk]> (backings h)) (next_backing h + 1) (released h)).

(** ** Capacity *)

(** The doubling loop; 64 doublings exceed every [size_t]. *)
Fixpoint grow_capacity (fuel : nat) (capacity need : Z) : option Z :=
  match fuel with
  | O => None
  | S fuel =>
      if need <=? capacity then Some capacity
      else if SIZE_MAX / 2 <? capacity then None
      else grow_capacity fuel (capacity * 2) need
  end.

(** [inl] is an [errno]; [realloc] answers whether a block of that size exists. *)
Definition grow (realloc : Z -> bool) (need : Z) (L : hl_logical_vma_ledger) : Z + hl_logical_vma_ledger :=
  if need <=? capacity L then inr L
  else
    match grow_capacity 64 (if negb (capacity L =? 0) then capacity L else 8) need with
    | None => inl VMA_ENOMEM
    | Some capacity =>
        if realloc (u64 (capacity * sizeof_entry)) then inr (set_capacity capacity L) else inl VMA_ENOMEM
    end.

(** The number of views the block has room for. *)
Definition snapshot_allocate (malloc : Z -> bool) (capacity : Z) : Z + Z :=
  if (SIZE_MAX - sizeof_snapshot) / sizeof_view_item <? capacity then inl VMA_ENOMEM
  else if malloc (sizeof_snapshot + capacity * sizeof_view_item) then inr capacity else inl VMA_ENOMEM.

(** [ledger->entries\[ledger->count++\] = e]. *)
Definition append_entry (e : hl_logical_vma_entry) (L : hl_logical_vma_ledger) : option hl_logical_vma_ledger :=
  if count L <? capacity L then Some (set_entries (entries L ++ [e]) L) else None.

(** ** Publication *)

Definition view_of_entry (h : vma_store) (e : hl_logical_vma_entry) : option hl_logical_vma_view :=
  bk ← backings h !! backing e;
  let host_first := u64 (b_mapping bk + backing_offset e) in
  Some (mk_view (guest_first e) (guest_last e) (u64 (host_first - guest_first e)) (backing e)
          (backing_offset e) (protection e) (flags e)).

(** [qsort] with [view_compare]: the array sorted by first address. *)
Fixpoint insert_view (v : hl_logical_vma_view) (l : list hl_logical_vma_view) : list hl_logical_vma_view :=
  match l with
  | [] => [v]
  | w :: l' => if v_first v <=? v_first w then v :: l else w :: insert_view v l'
  end.
Fixpoint sort_views (l : list hl_logical_vma_view) : list hl_logical_vma_view :=
  match l with
  | [] => []
  | v :: l' => insert_view v (sort_views l')
  end.

Definition retire (old : option hl_logical_vma_snapshot) (retired : list hl_logical_vma_snapshot)
  : list hl_logical_vma_snapshot :=
  match old with Some s => s :: retired | None => retired end.

(** The snapshot [publish_locked] fills; [room] is what the block holds. *)
Definition fill_snapshot (room : Z) (h : vma_store) (l : list hl_logical_vma_entry)
  : option (hl_logical_vma_snapshot * vma_store) :=
  if room <? lengthZ l then None
  else
    views ← mapM (view_of_entry h) l;
    h' ← get_all (map backing l) h;
    Some (mk_snapshot (sort_views views) (map backing l), h').

Definition publish_locked (room : Z) (h : vma_store) (L : hl_logical_vma_ledger)
  : option (vma_store * hl_logical_vma_ledger) :=
  '(snapshot, h') ← fill_snapshot room h (entries L);
  Some (h', mk_ledger (entries L) (capacity L) (Some snapshot) (retire (current L) (retired L))
              (u64 (u64 (generation L + 1) + 1))).

Definition snapshot_free (s : option hl_logical_vma_snapshot) (h : vma_store) : option vma_store :=
  match s with Some s => put_all (snap_backings s) h | None => Some h end.

(** ** Unmapping *)

(** [entries\[index\] = entries\[--count\]]. *)
Definition swap_remove (index : Z) (l : list hl_logical_vma_entry) : list hl_logical_vma_entry :=
  match lookupZ l (lengthZ l - 1) with
  | Some e => take (length l - 1) (insertZ l index e)
  | None => []
  end.

Fixpoint unmap_loop (realloc : Z -> bool) (fuel : nat) (first last index : Z) (h : vma_store)
    (L : hl_logical_vma_ledger) : option (Z * (vma_store * hl_logical_vma_ledger)) :=
  match fuel with
  | O => None
  | S fuel =>
      match lookupZ (entries L) index with
      | None => Some (0, (h, L))
      | Some e =>
          let old_first := guest_first e in
          let old_last := guest_last e in
          if (last <=? old_first) || (old_last <=? first)
          then unmap_loop realloc fuel first last (index + 1) h L
          else if (first <=? old_first) && (old_last <=? last) then
            h' ← backing_put (backing e) h;
            unmap_loop realloc fuel first last index h' (set_entries (swap_remove index (entries L)) L)
          else if (old_first <? first) && (last <? old_last) then
            match grow realloc (count L + 1) L with
            | inl errno => Some (errno, (h, L))
            | inr L =>
                let tail := with_first last (u64 (backing_offset e + (last - old_first))) e in
                h' ← backing_get (backing tail) h;
                L' ← append_entry tail (set_entries (insertZ (entries L) index (with_last first e)) L);
                unmap_loop realloc fuel first last (index + 1) h' L'
            end
          else
            let e' :=
              if first <=? old_first then with_first last (u64 (backing_offset e + (last - old_first))) e
              else with_last first e in
            unmap_loop realloc fuel first last (index + 1) h (set_entries (insertZ (entries L) index e') L)
      end
  end.

(** Every iteration passes an entry or removes one, and only a split adds one:
    twice the count, and one to leave. *)
Definition unmap_locked (realloc : Z -> bool) (first last : Z) (h : vma_store) (L : hl_logical_vma_ledger)
  : option (Z * (vma_store * hl_logical_vma_ledger)) :=
  unmap_loop realloc (S (2 * length (entries L))) first last 0 h L.

Definition hl_logical_vma_unmap (realloc malloc : Z -> bool) (guest length : Z) (h : vma_store)
    (L : hl_logical_vma_ledger) : option (Z * (vma_store * hl_logical_vma_ledger)) :=
  if UINT64_MAX - length <? guest then Some (VMA_EINVAL, (h, L))
  else if length =? 0 then Some (0, (h, L))
  else
    match grow realloc (count L + 1) L with
    | inl errno => Some (errno, (h, L))
    | inr L =>
        match snapshot_allocate malloc (count L + 1) with
        | inl errno => Some (errno, (h, L))
        | inr room =>
            '(result, (h, L)) ← unmap_locked realloc guest (guest + length) h L;
            '(h, L) ← publish_locked room h L;
            Some (result, (h, L))
        end
    end.

(** ** Life cycle *)

(** [hl_logical_vma_init] stores zeroes and a generation of two; an existing
    ledger structure is overwritten. *)
Definition hl_logical_vma_init : hl_logical_vma_ledger := mk_ledger [] 0 None [] 2.

(** [while (count != 0) backing_put(entries\[--count\].backing)]. *)
Definition drop_entries (h : vma_store) (L : hl_logical_vma_ledger) : option (vma_store * hl_logical_vma_ledger) :=
  h' ← put_all (rev (map backing (entries L))) h;
  Some (h', set_entries [] L).

Fixpoint free_retired (l : list hl_logical_vma_snapshot) (h : vma_store) : option vma_store :=
  match l with
  | [] => Some h
  | s :: l' => h' ← snapshot_free (Some s) h; free_retired l' h'
  end.

Definition hl_logical_vma_destroy (h : vma_store) (L : hl_logical_vma_ledger)
  : option (vma_store * hl_logical_vma_ledger) :=
  '(h, L) ← drop_entries h L;
  h ← snapshot_free (current L) h;
  h ← free_retired (retired L) h;
  Some (h, mk_ledger [] 0 None [] (u64 (u64 (generation L + 1) + 1))).

Definition hl_logical_vma_reclaim_quiescent (h : vma_store) (L : hl_logical_vma_ledger)
  : option (vma_store * hl_logical_vma_ledger) :=
  h ← free_retired (retired L) h;
  Some (h, mk_ledger (entries L) (capacity L) (current L) [] (generation L)).

(** [abort()] when the empty snapshot cannot be allocated is [None]. *)
Definition hl_logical_vma_global_reset_quiescent (malloc : Z -> bool) (h : vma_store)
    (L : hl_logical_vma_ledger) : option (vma_store * hl_logical_vma_ledger) :=
  match snapshot_allocate malloc 0 with
  | inl _ => None
  | inr room =>
      '(h, L) ← drop_entries h L;
      '(h, L) ← publish_locked room h L;
      hl_logical_vma_reclaim_quiescent h L
  end.

(** ** Mapping *)

(** What the C library answers during one call of [map_shared]. *)
Record host_answers := mk_answers {
  ha_realloc : Z -> bool;
  ha_malloc : Z -> bool;
  ha_fstat : Z -> Z + Z * Z;                        (** [st_dev] and [st_ino] *)
  ha_mmap : Z -> Z -> bool -> Z -> Z + Z;           (** length, offset, writable, descriptor *)
  ha_dupfd : Z -> Z + Z
}.

Definition power_of_two (value : Z) : bool := negb (value =? 0) && (Z.land value (value - 1) =? 0).

(** The canonical extent while it is being widened. *)
Record extent := mk_extent {
  x_first : Z;
  x_last : Z;
  x_writable : bool;
  x_ref : Z
}.

(** One backing against the extent; the boolean tells whether it grew. *)
Definition widen_entry (device inode : Z) (requested_writable : bool) (bk : hl_logical_vma_backing) (x : extent)
  : extent * bool :=
  if negb (b_device bk =? device) || negb (b_inode bk =? inode) then (x, false)
  else
    let candidate_last := u64 (b_file_offset bk + b_length bk) in
    if (candidate_last <? x_first x) || (x_last x <? b_file_offset bk) then (x, false)
    else
      let low := b_file_offset bk <? x_first x in
      let high := x_last x <? candidate_last in
      (mk_extent (if low then b_file_offset bk else x_first x) (if high then candidate_last else x_last x)
         (x_writable x || b_writable bk)
         (if b_writable bk && negb requested_writable then b_retained bk else x_ref x),
       low || high).

(** One pass of the coalescing loop over the entries; the boolean is [expanded]. *)
Fixpoint widen_pass (device inode : Z) (requested_writable : bool) (h : vma_store)
    (l : list hl_logical_vma_entry) (x : extent) (expanded : bool) : option (extent * bool) :=
  match l with
  | [] => Some (x, expanded)
  | e :: l' =>
      bk ← backings h !! backing e;
      let '(x', grew) := widen_entry device inode requested_writable bk x in
      widen_pass device inode requested_writable h l' x' (expanded || grew)
  end.

(** [do ... while (expanded)]: each further pass has swallowed one more
    backing, so one pass per entry and a last one are enough. *)
Fixpoint widen (fuel : nat) (device inode : Z) (requested_writable : bool) (h : vma_store)
    (l : list hl_logical_vma_entry) (x : extent) : option extent :=
  match fuel with
  | O => None
  | S fuel =>
      '(x', expanded) ← widen_pass device inode requested_writable h l x false;
      if expanded : bool then widen fuel device inode requested_writable h l x' else Some x'
  end.

(** Every entry of a swallowed backing is rebound to the new one. *)
Definition rebind_entry (new : Z) (bk : hl_logical_vma_backing) (h : vma_store) (e : hl_logical_vma_entry)
  : option (hl_logical_vma_entry * vma_store) :=
  old ← backings h !! backing e;
  if negb (b_device old =? b_device bk) || negb (b_inode old =? b_inode bk) then Some (e, h)
  else
    let old_last := u64 (b_file_offset old + b_length old) in
    if (old_last <? b_file_offset bk) || (u64 (b_file_offset bk + b_length bk) <? b_file_offset old)
    then Some (e, h)
    else
      let absolute := u64 (b_file_offset old + backing_offset e) in
      h ← backing_get new h;
      h ← backing_put (backing e) h;
      Some (with_backing new (u64 (absolute - b_file_offset bk)) e, h).

Fixpoint rebind_entries (new : Z) (bk : hl_logical_vma_backing) (l : list hl_logical_vma_entry) (h : vma_store)
  : option (list hl_logical_vma_entry * vma_store) :=
  match l with
  | [] => Some ([], h)
  | e :: l' =>
      '(e', h) ← rebind_entry new bk h e;
      '(l'', h) ← rebind_entries new bk l' h;
      Some (e' :: l'', h)
  end.

(** From the unmapping of the target range to the end: the entry is appended
    and published, and the construction reference dropped. *)
Definition install_mapping (realloc : Z -> bool) (room guest last offset protection flags new : Z)
    (h : vma_store) (L : hl_logical_vma_ledger) : option (Z * (vma_store * hl_logical_vma_ledger)) :=
  '(_, (h, L)) ← unmap_locked realloc guest last h L;
  h ← backing_get new h;
  L ← append_entry (mk_entry guest last offset protection flags new) L;
  '(h, L) ← publish_locked room h L;
  h ← backing_put new h;
  Some (0, (h, L)).

Definition hl_logical_vma_map_shared (A : host_answers) (guest length protection fd file_offset host_page : Z)
    (h : vma_store) (L : hl_logical_vma_ledger) : option (Z * (vma_store * hl_logical_vma_ledger)) :=
  let fail (errno : Z) L : option (Z * (vma_store * hl_logical_vma_ledger)) := Some (errno, (h, L)) in
  if (fd <? 0) || (length =? 0) || (UINT64_MAX - length <? guest) || (INT64_MAX <? file_offset) ||
     negb (power_of_two host_page) || negb (Z.land guest 4095 =? 0) || negb (Z.land file_offset 4095 =? 0)
  then fail VMA_EINVAL L
  else
    match ha_fstat A fd with
    | inl errno => fail errno L
    | inr (device, inode) =>
        let head := Z.land file_offset (host_page - 1) in
        if (SIZE_MAX - head <? length) || (SIZE_MAX - (host_page - 1) <? length + head) ||
           (UINT64_MAX - length <? file_offset)
        then fail VMA_ENOMEM L
        else
          match grow (ha_realloc A) (count L + 2) L with
          | inl errno => fail errno L
          | inr L =>
              match snapshot_allocate (ha_malloc A) (count L + 2) with
              | inl errno => fail errno L
              | inr room =>
                  let requested_last := file_offset + length in
                  if UINT64_MAX - (host_page - 1) <? requested_last then fail VMA_ENOMEM L
                  else
                    let writable := has_flag protection HL_LOGICAL_VMA_WRITE in
                    x ← widen (S (Datatypes.length (entries L))) device inode writable h (entries L)
                          (mk_extent (file_offset - head)
                             (Z.land (requested_last + host_page - 1) (UINT64_MAX - (host_page - 1)))
                             writable fd);
                    if (x_last x <=? x_first x) || (SIZE_MAX <? x_last x - x_first x) ||
                       (INT64_MAX <? x_first x)
                    then fail VMA_ENOMEM L
                    else
                      let mapped_length := x_last x - x_first x in
                      match ha_mmap A mapped_length (x_first x) (x_writable x) (x_ref x) with
                      | inl errno => fail errno L
                      | inr mapping =>
                          if negb (ha_malloc A sizeof_backing) then fail VMA_ENOMEM L
                          else
                            match ha_dupfd A (x_ref x) with
                            | inl errno => fail errno L
                            | inr retained =>
                                let bk := mk_backing mapping mapped_length 1 device inode (x_first x) retained
                                            (x_writable x) false in
                                let '(new, h) := new_backing bk h in
                                '(l, h) ← rebind_entries new bk (entries L) h;
                                install_mapping (ha_realloc A) room guest (guest + length)
                                  (file_offset - x_first x) protection HL_LOGICAL_VMA_SHARED new h
                                  (set_entries l L)
                            end
                      end
              end
          end
    end.

(** [logical_vma_map_direct]: room for one more entry only. *)
Definition logical_vma_map_direct (A : host_answers) (guest length protection host_first : Z)
    (h : vma_store) (L : hl_logical_vma_ledger) : option (Z * (vma_store * hl_logical_vma_ledger)) :=
  if (length =? 0) || (UINT64_MAX - length <? guest) || (UINTPTR_MAX <? host_first) ||
     (UINTPTR_MAX - host_first <? length)
  then Some (VMA_EINVAL, (h, L))
  else
    match grow (ha_realloc A) (count L + 1) L with
    | inl errno => Some (errno, (h, L))
    | inr L =>
        match snapshot_allocate (ha_malloc A) (count L + 1) with
        | inl errno => Some (errno, (h, L))
        | inr room =>
            if negb (ha_malloc A sizeof_backing) then Some (VMA_ENOMEM, (h, L))
            else
              let '(new, h) := new_backing (mk_backing host_first length 1 0 0 0 (-1) false true) h in
              install_mapping (ha_realloc A) room guest (guest + length) 0 protection HL_LOGICAL_VMA_DIRECT
                new h L
        end
    end.

(** ** Protection *)

(** [last <= old_first || guest_first >= old_last]. *)
Definition misses (first last : Z) (e : hl_logical_vma_entry) : bool :=
  (last <=? guest_first e) || (guest_last e <=? first).

(** One entry that overlaps: what replaces it in place, and the copies appended. *)
Definition protect_pieces (first last prot : Z) (e : hl_logical_vma_entry)
  : hl_logical_vma_entry * list hl_logical_vma_entry :=
  let overlap_first := if guest_first e <? first then first else guest_first e in
  let overlap_last := if last <? guest_last e then last else guest_last e in
  let shifted := fun at_ => u64 (backing_offset e + (at_ - guest_first e)) in
  let tail := if overlap_last <? guest_last e then [with_first overlap_last (shifted overlap_last) e] else [] in
  if (overlap_first =? guest_first e) && (overlap_last =? guest_last e) then (with_protection prot e, [])
  else if guest_first e <? overlap_first then
    (with_last overlap_first e,
     with_protection prot (with_last overlap_last (with_first overlap_first (shifted overlap_first) e)) :: tail)
  else (with_protection prot (with_last overlap_last e), tail).

Fixpoint append_entries (l : list hl_logical_vma_entry) (h : vma_store) (L : hl_logical_vma_ledger)
  : option (vma_store * hl_logical_vma_ledger) :=
  match l with
  | [] => Some (h, L)
  | e :: l' => h ← backing_get (backing e) h; L ← append_entry e L; append_entries l' h L
  end.

(** The loop over the original count. *)
Fixpoint protect_loop (n : nat) (first last prot index : Z) (h : vma_store) (L : hl_logical_vma_ledger)
  : option (vma_store * hl_logical_vma_ledger) :=
  match n with
  | O => Some (h, L)
  | S n =>
      e ← lookupZ (entries L) index;
      if misses first last e then protect_loop n first last prot (index + 1) h L
      else
        let '(e', added) := protect_pieces first last prot e in
        '(h, L) ← append_entries added h (set_entries (insertZ (entries L) index e') L);
        protect_loop n first last prot (index + 1) h L
  end.

Definition hl_logical_vma_protect (realloc malloc : Z -> bool) (guest length prot : Z) (h : vma_store)
    (L : hl_logical_vma_ledger) : option (Z * (vma_store * hl_logical_vma_ledger)) :=
  if (length =? 0) || (UINT64_MAX - length <? guest) then Some (VMA_EINVAL, (h, L))
  else
    match grow realloc (count L + 2) L with
    | inl errno => Some (errno, (h, L))
    | inr L =>
        match snapshot_allocate malloc (count L + 2) with
        | inl errno => Some (errno, (h, L))
        | inr room =>
            '(h, L) ← protect_loop (Datatypes.length (entries L)) guest (guest + length) prot 0 h L;
            '(h, L) ← publish_locked room h L;
            Some (0, (h, L))
        end
    end.

(** Restore maps writable and then publishes the recorded protection. *)
Definition hl_logical_vma_global_restore_shared (A : host_answers)
    (guest length protection fd file_offset host_page : Z) (h : vma_store) (L : hl_logical_vma_ledger)
  : option (Z * (vma_store * hl_logical_vma_ledger)) :=
  let construction := Z.lor protection HL_LOGICAL_VMA_WRITE in
  '(errno, (h, L)) ← hl_logical_vma_map_shared A guest length construction fd file_offset host_page h L;
  if negb (errno =? 0) then Some (errno, (h, L))
  else if construction =? protection then Some (0, (h, L))
  else hl_logical_vma_protect (ha_realloc A) (ha_malloc A) guest length protection h L.
