(* ===== verification/VmaReaders.v ===== *)
(** * The logical VMA ledger: transactions and readers

    The second half of [linux_abi/logical_vma.c]: staged mapping transactions
    (prepare, commit, abort), the lock-free resolution of an address in the
    published snapshot, and the queries and copies that walk the entries. *)

From stdpp Require Import gmap.
From S2P Require Import Prelude VmaLedger.

(** ** Transactions *)

(** A staged copy of the live entries, each with a reference of its own. *)
Definition stage_copy (realloc : Z -> bool) (h : vma_store) (live : hl_logical_vma_ledger)
  : option (Z * (vma_store * hl_logical_vma_ledger)) :=
  match grow realloc (count live) hl_logical_vma_init with
  | inl errno => Some (errno, (h, hl_logical_vma_init))
  | inr staged =>
      h ← get_all (map backing (entries live)) h;
      Some (0, (h, set_entries (entries live) staged))
  end.

(** [prepare_shared] and [prepare_protect] differ in what they do to the copy.
    [inr (Some staged)] is a plan that holds the live lock. *)
Definition prepare_with (calloc mutex_ok : bool) (realloc : Z -> bool)
    (change : vma_store -> hl_logical_vma_ledger -> option (Z * (vma_store * hl_logical_vma_ledger)))
    (h : vma_store) (live : hl_logical_vma_ledger) : option (Z * option hl_logical_vma_ledger * vma_store) :=
  if negb calloc || negb mutex_ok then Some (VMA_ENOMEM, None, h)
  else
    '(errno, (h, staged)) ← stage_copy realloc h live;
    if negb (errno =? 0) then
      '(h, _) ← hl_logical_vma_destroy h staged; Some (errno, None, h)
    else
      '(errno, (h, staged)) ← change h staged;
      if negb (errno =? 0) then
        '(h, _) ← hl_logical_vma_destroy h staged; Some (errno, None, h)
      else Some (0, Some staged, h).

(** [fail_next] is [g_fail_next_prepare], cleared by the call. *)
Definition hl_logical_vma_prepare_shared (fail_next calloc mutex_ok : bool) (A : host_answers)
    (guest length protection fd file_offset host_page : Z) (h : vma_store) (live : hl_logical_vma_ledger)
  : option (Z * option hl_logical_vma_ledger * vma_store) :=
  if fail_next then Some (VMA_ENOMEM, None, h)
  else
    prepare_with calloc mutex_ok (ha_realloc A)
      (hl_logical_vma_map_shared A guest length protection fd file_offset host_page) h live.

Definition hl_logical_vma_prepare_protect (calloc mutex_ok : bool) (realloc malloc : Z -> bool)
    (guest length prot : Z) (h : vma_store) (live : hl_logical_vma_ledger)
  : option (Z * option hl_logical_vma_ledger * vma_store) :=
  prepare_with calloc mutex_ok realloc (hl_logical_vma_protect realloc malloc guest length prot) h live.

(** The plan may exist already; a failed mapping leaves it to the caller. *)
Definition hl_logical_vma_global_prepare_direct (calloc mutex_ok : bool) (A : host_answers)
    (guest length protection host_first : Z) (h : vma_store) (live : hl_logical_vma_ledger)
    (plan : option hl_logical_vma_ledger) : option (Z * option hl_logical_vma_ledger * vma_store) :=
  match plan with
  | Some staged =>
      '(errno, (h, staged)) ← logical_vma_map_direct A guest length protection host_first h staged;
      Some (errno, Some staged, h)
  | None =>
      if negb calloc || negb mutex_ok then Some (VMA_ENOMEM, None, h)
      else
        '(errno, (h, staged)) ← stage_copy (ha_realloc A) h live;
        if negb (errno =? 0) then
          '(h, _) ← hl_logical_vma_destroy h staged; Some (errno, None, h)
        else
          '(errno, (h, staged)) ← logical_vma_map_direct A guest length protection host_first h staged;
          Some (errno, Some staged, h)
  end.

Definition hl_logical_vma_global_prepare_protect (calloc mutex_ok : bool) (realloc malloc : Z -> bool)
    (guest length prot : Z) (h : vma_store) (live : hl_logical_vma_ledger) (plan : option hl_logical_vma_ledger)
  : option (Z * option hl_logical_vma_ledger * vma_store) :=
  match plan with
  | Some staged =>
      '(errno, (h, staged)) ← hl_logical_vma_protect realloc malloc guest length prot h staged;
      Some (errno, Some staged, h)
  | None => hl_logical_vma_prepare_protect calloc mutex_ok realloc malloc guest length prot h live
  end.

Definition hl_logical_vma_commit_shared (h : vma_store) (live staged : hl_logical_vma_ledger)
  : option (vma_store * hl_logical_vma_ledger) :=
  '(h, live) ← drop_entries h live;
  Some (h, mk_ledger (entries staged) (capacity staged) (current staged)
             (rev (retired staged) ++ retire (current live) (retired live))
             (u64 (u64 (generation live + 1) + 1))).

Definition hl_logical_vma_abort_shared (h : vma_store) (staged : hl_logical_vma_ledger) : option vma_store :=
  '(h, _) ← hl_logical_vma_destroy h staged; Some h.

(** ** Resolution *)

(** The binary search; [inl low] is a miss. *)
Fixpoint search_views (fuel : nat) (views : list hl_logical_vma_view) (guest low high : Z)
  : option (Z + hl_logical_vma_view) :=
  match fuel with
  | O => None
  | S fuel =>
      if low <? high then
        let middle := low + (high - low) / 2 in
        candidate ← lookupZ views middle;
        if guest <? v_first candidate then search_views fuel views guest low middle
        else if v_last candidate <=? guest then search_views fuel views guest (middle + 1) high
        else Some (inr candidate)
      else Some (inl low)
  end.

Definition snapshot_views (s : option hl_logical_vma_snapshot) : list hl_logical_vma_view :=
  match s with Some s => snap_views s | None => [] end.

(** The interval at least halves: the count, and one to leave, bounds the search. *)
Definition search (views : list hl_logical_vma_view) (guest : Z) : option (Z + hl_logical_vma_view) :=
  search_views (S (length views)) views guest 0 (lengthZ views).

Inductive resolution :=
| Resolved (host contiguous protection flags : Z)
| Unmapped
| Refused (errno : Z).

Definition hl_logical_vma_resolve (guest length required : Z) (L : hl_logical_vma_ledger) : option resolution :=
  if UINT64_MAX - length <? guest then Some (Refused VMA_EINVAL)
  else
    found ← search (snapshot_views (current L)) guest;
    Some (match found with
          | inl _ => Unmapped
          | inr v =>
              if negb (Z.land (v_protection v) required =? required) then Refused VMA_EACCES
              else if v_last v - guest <? length then Refused VMA_EFAULT
              else Resolved (u64 (guest + v_delta v)) (v_last v - guest) (v_protection v) (v_flags v)
          end).

Definition hl_logical_vma_resolve_exec (guest length : Z) (L : hl_logical_vma_ledger) : option resolution :=
  hl_logical_vma_resolve guest length HL_LOGICAL_VMA_EXEC L.

(** The first byte alone is resolved. *)
Definition hl_logical_vma_resolve_data (guest length required : Z) (L : hl_logical_vma_ledger) : option resolution :=
  if length =? 0 then Some (Refused VMA_EINVAL) else hl_logical_vma_resolve guest 1 required L.

(** The maximal interval around [guest] over which the answer holds. *)
Inductive exec_span :=
| SpanView (generation first last delta : Z)
| SpanGap (generation first last : Z)
| SpanRefused.

Definition hl_logical_vma_resolve_exec_span (guest : Z) (L : hl_logical_vma_ledger) : option exec_span :=
  let views := snapshot_views (current L) in
  found ← search views guest;
  match found with
  | inr v =>
      Some (if Z.land (v_protection v) HL_LOGICAL_VMA_EXEC =? 0 then SpanRefused
            else SpanView (generation L) (v_first v) (v_last v) (v_delta v))
  | inl low =>
      first ← (if negb (low =? 0) then v ← lookupZ views (low - 1); Some (v_last v) else Some 0);
      last ← (if negb (low =? lengthZ views) then v ← lookupZ views low; Some (v_first v) else Some UINT64_MAX);
      Some (SpanGap (generation L) first last)
  end.

Fixpoint overlap_views (first last : Z) (l : list hl_logical_vma_view) : bool :=
  match l with
  | [] => false
  | v :: l' =>
      if last <=? v_first v then false
      else if first <? v_last v then true
      else overlap_views first last l'
  end.

Definition hl_logical_vma_global_overlap (guest length : Z) (L : hl_logical_vma_ledger) : bool :=
  if (length =? 0) || (UINT64_MAX - length <? guest) then false
  else overlap_views guest (guest + length) (snapshot_views (current L)).

Definition hl_logical_vma_global_active (L : hl_logical_vma_ledger) : bool :=
  negb (lengthZ (snapshot_views (current L)) =? 0).

(** ** Queries under the lock *)

Definition covers (guest : Z) (e : hl_logical_vma_entry) : bool :=
  (guest_first e <=? guest) && (guest <? guest_last e).

Definition find_entry (guest : Z) (l : list hl_logical_vma_entry) : option hl_logical_vma_entry :=
  head (filter (fun e => covers guest e = true) l).

Record hl_logical_vma_descriptor := mk_descriptor {
  d_guest_first : Z;
  d_length : Z;
  d_device : Z;
  d_inode : Z;
  d_backing_offset : Z;
  d_protection : Z;
  d_flags : Z
}.

Definition describe_entry (h : vma_store) (e : hl_logical_vma_entry) : option hl_logical_vma_descriptor :=
  bk ← backings h !! backing e;
  Some (mk_descriptor (guest_first e) (guest_last e - guest_first e) (b_device bk) (b_inode bk)
          (u64 (b_file_offset bk + backing_offset e)) (protection e) (flags e)).

Definition is_direct (e : hl_logical_vma_entry) : bool := has_flag (flags e) HL_LOGICAL_VMA_DIRECT.

Definition exported (l : list hl_logical_vma_entry) : list hl_logical_vma_entry :=
  filter (fun e => is_direct e = false) l.

(** The count, and the descriptors stored in an array of [room]. *)
Definition hl_logical_vma_global_export (room : Z) (h : vma_store) (L : hl_logical_vma_ledger)
  : option (Z * list hl_logical_vma_descriptor) :=
  l ← mapM (describe_entry h) (take (Z.to_nat room) (exported (entries L)));
  Some (lengthZ (exported (entries L)), l).

(** [None] inside is the answer zero. *)
Definition hl_logical_vma_global_describe (guest : Z) (h : vma_store) (L : hl_logical_vma_ledger)
  : option (option hl_logical_vma_descriptor) :=
  match find_entry guest (entries L) with
  | None => Some None
  | Some e => if is_direct e then Some None else d ← describe_entry h e; Some (Some d)
  end.

(** ** Pins *)

Record hl_logical_vma_pin := mk_pin {
  p_host : Z;
  p_contiguous : Z;
  p_protection : Z;
  p_flags : Z;
  p_token : option Z
}.

(** The distance to the next entry above [guest], at most [length]. *)
Fixpoint gap_length (guest contiguous : Z) (l : list hl_logical_vma_entry) : Z :=
  match l with
  | [] => contiguous
  | e :: l' =>
      gap_length guest
        (if (guest <? guest_first e) && (guest_first e - guest <? contiguous) then guest_first e - guest
         else contiguous) l'
  end.

Inductive pin_outcome :=
| Pinned (pin : hl_logical_vma_pin)    (** 1, or 0 when the token is NULL *)
| PinRefused (errno : Z).

Definition hl_logical_vma_pin_data (guest length required : Z) (h : vma_store) (L : hl_logical_vma_ledger)
  : option (pin_outcome * vma_store) :=
  if (length =? 0) || (UINT64_MAX - length <? guest) then Some (PinRefused VMA_EINVAL, h)
  else
    match find_entry guest (entries L) with
    | Some e =>
        if negb (Z.land (protection e) required =? required) then Some (PinRefused VMA_EACCES, h)
        else
          bk ← backings h !! backing e;
          let contiguous := Z.min (guest_last e - guest) length in
          h ← backing_get (backing e) h;
          Some (Pinned (mk_pin (u64 (b_mapping bk + backing_offset e + (guest - guest_first e))) contiguous
                          (protection e) (flags e) (Some (backing e))), h)
    | None =>
        Some (Pinned (mk_pin guest (gap_length guest length (entries L))
                        (HL_LOGICAL_VMA_READ + HL_LOGICAL_VMA_WRITE + HL_LOGICAL_VMA_EXEC) 0 None), h)
    end.

Definition hl_logical_vma_unpin (pin : hl_logical_vma_pin) (h : vma_store) : option vma_store :=
  match p_token pin with
  | None => Some h
  | Some b => backing_put b h
  end.

(** ** Aliases of executable ranges *)

(** The guest range in which an executable alias shows
    [\[source_offset, source_last)] of its backing, if any. *)
Definition alias_range (source_offset source_last alias_first alias_guest alias_size : Z) : list (Z * Z) :=
  let alias_last := u64 (alias_first + alias_size) in
  let first := if alias_first <? source_offset then source_offset else alias_first in
  let last := if source_last <? alias_last then source_last else alias_last in
  if last <=? first then []
  else
    let guest := u64 (alias_guest + (first - alias_first)) in
    [(guest, u64 (guest + (last - first)))].

(** [realloc] answers for the array of ranges; the overflow answer is the
    whole address space. *)
Definition visited (realloc_ok : bool) (ranges : list (Z * Z)) : list (Z * Z) :=
  if realloc_ok then ranges else match ranges with [] => [] | _ => [(0, UINT64_MAX)] end.

Definition hl_logical_vma_visit_exec_aliases_pin (realloc_ok : bool) (pin : hl_logical_vma_pin)
    (offset length : Z) (h : vma_store) (L : hl_logical_vma_ledger) : option (list (Z * Z)) :=
  match p_token pin with
  | None => Some []
  | Some b =>
      if (length =? 0) || (p_contiguous pin <? offset) || (p_contiguous pin - offset <? length) then Some []
      else
        bk ← backings h !! b;
        let source_offset := u64 (p_host pin - b_mapping bk + offset) in
        Some (visited realloc_ok
                (concat (map (fun e =>
                   if negb (backing e =? b) || (Z.land (protection e) HL_LOGICAL_VMA_EXEC =? 0) then []
                   else alias_range source_offset (u64 (source_offset + length)) (backing_offset e)
                          (guest_first e) (guest_last e - guest_first e)) (entries L))))
  end.

(** The first view that ends after [guest_first], by bisection. *)
Fixpoint first_view_after (fuel : nat) (views : list hl_logical_vma_view) (guest source high : Z) : option Z :=
  match fuel with
  | O => None
  | S fuel =>
      if source <? high then
        let middle := source + (high - source) / 2 in
        v ← lookupZ views middle;
        if v_last v <=? guest then first_view_after fuel views guest (middle + 1) high
        else first_view_after fuel views guest source middle
      else Some source
  end.

Definition view_aliases (views : list hl_logical_vma_view) (source_offset source_last b : Z) : list (Z * Z) :=
  concat (map (fun v =>
    if negb (v_backing v =? b) || (Z.land (v_protection v) HL_LOGICAL_VMA_EXEC =? 0) then []
    else alias_range source_offset source_last (v_backing_offset v) (v_first v) (v_last v - v_first v)) views).

Fixpoint source_aliases (views rest : list hl_logical_vma_view) (guest_first guest_last : Z)
  : bool * list (Z * Z) :=
  match rest with
  | [] => (false, [])
  | v :: rest' =>
      if guest_last <=? v_first v then (false, [])
      else
        let first := if v_first v <? guest_first then guest_first else v_first v in
        let last := if guest_last <? v_last v then guest_last else v_last v in
        let '(matched, ranges) := source_aliases views rest' guest_first guest_last in
        if last <=? first then (matched, ranges)
        else
          let source_offset := u64 (v_backing_offset v + (first - v_first v)) in
          (true, view_aliases views source_offset (u64 (source_offset + (last - first))) (v_backing v) ++ ranges)
  end.

(** The result, and the ranges the visitor is called on. *)
Definition hl_logical_vma_visit_exec_aliases (realloc_ok : bool) (guest_first guest_last : Z)
    (L : hl_logical_vma_ledger) : option (bool * list (Z * Z)) :=
  if guest_last <=? guest_first then Some (false, [])
  else
    let views := snapshot_views (current L) in
    source ← first_view_after (S (length views)) views guest_first 0 (lengthZ views);
    let '(matched, ranges) := source_aliases views (drop (Z.to_nat source) views) guest_first guest_last in
    Some (matched, visited realloc_ok ranges).

Fixpoint exec_alias_file (device inode first last : Z) (h : vma_store) (l : list hl_logical_vma_entry)
  : option bool :=
  match l with
  | [] => Some false
  | e :: l' =>
      bk ← backings h !! backing e;
      if (Z.land (protection e) HL_LOGICAL_VMA_EXEC =? 0) || negb (b_device bk =? device) ||
         negb (b_inode bk =? inode)
      then exec_alias_file device inode first last h l'
      else
        let efirst := u64 (b_file_offset bk + backing_offset e) in
        let elast := u64 (efirst + (guest_last e - guest_first e)) in
        if (first <? elast) && (efirst <? last) then Some true
        else exec_alias_file device inode first last h l'
  end.

Definition hl_logical_vma_has_exec_alias_file (device inode file_offset length : Z) (h : vma_store)
    (L : hl_logical_vma_ledger) : option bool :=
  if (length =? 0) || (UINT64_MAX - length <? file_offset) then Some false
  else exec_alias_file device inode file_offset (file_offset + length) h (entries L).

(** ** Copies *)

(** Host memory, by address. *)
Definition memory := Z -> Z.
Definition read_memory (mem : memory) (address : Z) (n : nat) : list Z :=
  map (fun i => mem (address + Z.of_nat i)) (seq 0 n).
Definition write_memory (mem : memory) (address : Z) (bytes : list Z) : memory := fun a =>
  if (address <=? a) && (a <? address + lengthZ bytes) then default 0 (lookupZ bytes (a - address)) else mem a.

(** [memcpy] of [bytes] over the buffer at [at_]. *)
Definition write_buffer (buffer : list Z) (at_ : Z) (bytes : list Z) : list Z :=
  take (Z.to_nat at_) buffer ++ bytes ++ drop (Z.to_nat at_ + length bytes) buffer.

Fixpoint copy_loop (fuel : nat) (into_backing : bool) (guest done_ : Z) (h : vma_store)
    (l : list hl_logical_vma_entry) (buffer : list Z) (mem : memory) : option (Z * list Z * memory) :=
  match fuel with
  | O => None
  | S fuel =>
      if done_ =? lengthZ buffer then Some (0, buffer, mem)
      else
        let address := guest + done_ in
        match find_entry address l with
        | None => Some (VMA_EFAULT, buffer, mem)
        | Some e =>
            let chunk := Z.min (guest_last e - address) (lengthZ buffer - done_) in
            bk ← backings h !! backing e;
            let canonical := b_mapping bk + backing_offset e + (address - guest_first e) in
            if into_backing
            then copy_loop fuel into_backing guest (done_ + chunk) h l buffer
                   (write_memory mem canonical (take (Z.to_nat chunk) (drop (Z.to_nat done_) buffer)))
            else copy_loop fuel into_backing guest (done_ + chunk) h l
                   (write_buffer buffer done_ (read_memory mem canonical (Z.to_nat chunk))) mem
        end
  end.

(** Each iteration copies at least a byte. *)
Definition global_copy (into_backing : bool) (guest : Z) (buffer : list Z) (h : vma_store)
    (L : hl_logical_vma_ledger) (mem : memory) : option (Z * list Z * memory) :=
  if UINT64_MAX - lengthZ buffer <? guest then Some (VMA_EINVAL, buffer, mem)
  else copy_loop (S (length buffer)) into_backing guest 0 h (entries L) buffer mem.
