(* ===== verification/VmaIntervals.v ===== *)
(** * The store of backings and the interval lists

    Reference counting as ownership: a store is well formed for a list of
    owners when every backing in it is referenced exactly as often as the list
    names it.  Interval lists: disjointness, and what an address is mapped to. *)

From stdpp Require Import gmap.
From S2P Require Import Prelude VmaLedger VmaReaders.

(** ** Ownership *)

Definition backing_ok (bk : hl_logical_vma_backing) : Prop :=
  0 <= b_file_offset bk /\ 0 < b_length bk /\ b_file_offset bk + b_length bk <= UINT64_MAX /\
  0 <= b_mapping bk /\ b_mapping bk + b_length bk <= 2 ^ 64 /\
  (b_borrowed bk = true -> b_device bk = 0 /\ b_inode bk = 0).

(** What a backing is, its reference count apart. *)
Definition stat (h : vma_store) (b : Z) : option hl_logical_vma_backing :=
  with_references 0 <$> backings h !! b.

Record store_ok (h : vma_store) (owners : list Z) : Prop := mk_store_ok {
  so_owned : forall b, In b owners -> is_Some (backings h !! b);
  so_counts : forall b bk, backings h !! b = Some bk ->
    b_references bk = countZ (Z.eqb b) owners /\ 0 < b_references bk /\ b < next_backing h;
  so_ok : forall b bk, stat h b = Some bk -> backing_ok bk;
  so_fits : lengthZ owners < 2 ^ 64
}.

(** The two stores agree on what the owners see. *)
Definition agree (owners : list Z) (h h' : vma_store) : Prop :=
  forall b, In b owners -> stat h' b = stat h b.

Lemma agree_refl owners h : agree owners h h.
Proof. done. Qed.

Lemma agree_trans o h1 h2 h3 : agree o h1 h2 -> agree o h2 h3 -> agree o h1 h3.
Proof. intros H1 H2 b Hb. by rewrite H2, H1. Qed.

Lemma agree_incl o o' h h' : incl o' o -> agree o h h' -> agree o' h h'.
Proof. intros Hi H b Hb. by apply H, Hi. Qed.

Lemma lengthZ_perm {A} (l l' : list A) : l ≡ₚ l' -> lengthZ l = lengthZ l'.
Proof. intros H. unfold lengthZ. by rewrite H. Qed.

Lemma store_ok_perm h o o' : o ≡ₚ o' -> store_ok h o -> store_ok h o'.
Proof.
  intros Hp [H1 H2 H3 H4]. constructor.
  - intros b Hb. apply H1. eapply Permutation_in; [symmetry; exact Hp|done].
  - intros b bk Hb. rewrite <- (countZ_perm _ _ _ Hp). by apply H2.
  - done.
  - by rewrite <- (lengthZ_perm _ _ Hp).
Qed.

Lemma stat_insert h b bk b' n r :
  backings h !! b = Some bk ->
  stat (mk_store (<[b := with_references r bk]> (backings h)) n (released h)) b' = stat h b'.
Proof.
  intros Hb. unfold stat. simpl. destruct (decide (b = b')) as [->|Hne].
  - rewrite lookup_insert_eq, Hb. done.
  - by rewrite lookup_insert_ne.
Qed.

Lemma get_spec b h o :
  store_ok h o -> In b o -> lengthZ o + 1 < 2 ^ 64 ->
  exists h', backing_get b h = Some h' /\ store_ok h' (b :: o) /\ forall b', stat h' b' = stat h b'.
Proof.
  intros [H1 H2 H3 H4] Hb Hfit. destruct (H1 b Hb) as [bk Hbk]. unfold backing_get. rewrite Hbk. simpl.
  eexists. split; [done|]. destruct (H2 b bk Hbk) as (Hc & Hpos & Hn).
  pose proof (countZ_bounds (Z.eqb b) o).
  assert (Hst : forall b', stat (mk_store (<[b := with_references (u64 (b_references bk + 1)) bk]> (backings h))
    (next_backing h) (released h)) b' = stat h b') by (intros b'; by apply stat_insert).
  split; [|done]. constructor; simpl.
  - intros b' [<-|Hb']; [rewrite lookup_insert_eq; by eexists|].
    destruct (decide (b = b')) as [->|Hne]; [rewrite lookup_insert_eq; by eexists|].
    rewrite lookup_insert_ne by done. by apply H1.
  - intros b' bk' Hb'. destruct (decide (b = b')) as [->|Hne].
    + rewrite lookup_insert_eq in Hb'. injection Hb' as <-. simpl. rewrite u64_small by lia.
      rewrite Z.eqb_refl. lia.
    + rewrite lookup_insert_ne in Hb' by done. destruct (Z.eqb_spec b' b); [by subst|].
      destruct (H2 b' bk' Hb') as (? & ? & ?). lia.
  - intros b' bk'. rewrite Hst. apply H3.
  - rewrite lengthZ_cons. lia.
Qed.

Lemma put_spec b h o :
  store_ok h (b :: o) ->
  exists h', backing_put b h = Some h' /\ store_ok h' o /\ agree o h h'.
Proof.
  intros [H1 H2 H3 H4]. destruct (H1 b ltac:(by left)) as [bk Hbk]. unfold backing_put. rewrite Hbk. simpl.
  destruct (H2 b bk Hbk) as (Hc & Hpos & Hn). simpl in Hc. rewrite Z.eqb_refl in Hc.
  rewrite lengthZ_cons in H4. pose proof (countZ_bounds (Z.eqb b) o) as Hb.
  destruct (Z.eqb_spec (b_references bk) 1) as [Hone|Hmore]; eexists; (split; [done|]).
  - assert (Hno : ~ In b o).
    { intros Hin. pose proof (countZ_elem (Z.eqb b) o b Hin (Z.eqb_refl b)). lia. }
    assert (Hag : agree o h (mk_store (delete b (backings h)) (next_backing h) (bk :: released h))).
    { intros b' Hb'. unfold stat. simpl. rewrite lookup_delete_ne; [done|]. by intros ->. }
    split; [|done]. constructor; simpl.
    + intros b' Hb'. rewrite lookup_delete_ne by (by intros ->). apply H1. by right.
    + intros b' bk' Hb'. destruct (decide (b = b')) as [->|Hne]; [by rewrite lookup_delete_eq in Hb'|].
      rewrite lookup_delete_ne in Hb' by done. destruct (H2 b' bk' Hb') as (Hc' & ? & ?). simpl in Hc'.
      destruct (Z.eqb_spec b' b); [by subst|]. lia.
    + intros b' bk'. unfold stat. simpl. destruct (decide (b = b')) as [->|Hne]; [by rewrite lookup_delete_eq|].
      rewrite lookup_delete_ne by done. apply H3.
    + lia.
  - split; [|intros b' _; by apply stat_insert]. constructor; simpl.
    + intros b' Hb'. destruct (decide (b = b')) as [->|Hne]; [rewrite lookup_insert_eq; by eexists|].
      rewrite lookup_insert_ne by done. apply H1. by right.
    + intros b' bk' Hb'. destruct (decide (b = b')) as [->|Hne].
      * rewrite lookup_insert_eq in Hb'. injection Hb' as <-. simpl. rewrite u64_small by lia. lia.
      * rewrite lookup_insert_ne in Hb' by done. destruct (H2 b' bk' Hb') as (Hc' & ? & ?). simpl in Hc'.
        destruct (Z.eqb_spec b' b); [by subst|]. lia.
    + intros b' bk'. rewrite (stat_insert h b bk b' _ _ Hbk). apply H3.
    + lia.
Qed.

Lemma put_all_spec l : forall h o,
  store_ok h (l ++ o) -> exists h', put_all l h = Some h' /\ store_ok h' o /\ agree o h h'.
Proof.
  induction l as [|b l IH]; intros h o Hok; simpl; [by exists h|].
  destruct (put_spec _ _ _ Hok) as (h1 & -> & Hok1 & Hag1). simpl.
  destruct (IH h1 o Hok1) as (h2 & -> & Hok2 & Hag2). exists h2. split_and!; [done|done|].
  eapply agree_trans; [|done]. eapply agree_incl; [|done]. by apply incl_appr, incl_refl.
Qed.

Lemma get_all_spec l : forall h o,
  store_ok h o -> incl l o -> lengthZ o + lengthZ l < 2 ^ 64 ->
  exists h', get_all l h = Some h' /\ store_ok h' (l ++ o) /\ forall b, stat h' b = stat h b.
Proof.
  induction l as [|b l IH]; intros h o Hok Hin Hfit; simpl; [by exists h|].
  rewrite lengthZ_cons in Hfit. pose proof (lengthZ_nonneg l).
  destruct (get_spec b h o Hok) as (h1 & -> & Hok1 & Hst1); [apply Hin; by left|lia|]. simpl.
  destruct (IH h1 (b :: o) Hok1) as (h2 & -> & Hok2 & Hst2).
  { intros x Hx. right. apply Hin. by right. }
  { rewrite lengthZ_cons. lia. }
  exists h2. split_and!; [done| |intros b'; by rewrite Hst2].
  eapply store_ok_perm; [|done]. symmetry. apply Permutation_middle.
Qed.

(** A fresh backing with its construction reference. *)
Lemma new_backing_spec bk h o :
  store_ok h o -> backing_ok (with_references 0 bk) -> b_references bk = 1 -> lengthZ o + 1 < 2 ^ 64 ->
  let '(new, h') := new_backing bk h in
  store_ok h' (new :: o) /\ agree o h h' /\ stat h' new = Some (with_references 0 bk) /\ ~ In new o.
Proof.
  intros [H1 H2 H3 H4] Hbk Hr Hfit. simpl.
  assert (Hfresh : backings h !! next_backing h = None).
  { destruct (backings h !! next_backing h) as [bk'|] eqn:E; [|done]. destruct (H2 _ _ E) as (_ & _ & ?). lia. }
  assert (Hno : ~ In (next_backing h) o).
  { intros Hin. destruct (H1 _ Hin) as [x Hx]. congruence. }
  split_and!; try done.
  - constructor; simpl.
    + intros b [<-|Hb]; [rewrite lookup_insert_eq; by eexists|].
      rewrite lookup_insert_ne; [by apply H1|]. by intros <-.
    + intros b bk' Hb. destruct (decide (next_backing h = b)) as [<-|Hne].
      * rewrite lookup_insert_eq in Hb. injection Hb as <-. rewrite Z.eqb_refl, Hr.
        rewrite countZ_none; [lia|]. intros x Hx. apply Z.eqb_neq. by intros <-.
      * rewrite lookup_insert_ne in Hb by done. destruct (H2 b bk' Hb) as (? & ? & ?).
        destruct (Z.eqb_spec b (next_backing h)); [by subst|]. lia.
    + intros b bk'. unfold stat. simpl. destruct (decide (next_backing h = b)) as [<-|Hne].
      * rewrite lookup_insert_eq. simpl. by intros [= <-].
      * rewrite lookup_insert_ne by done. apply H3.
    + rewrite lengthZ_cons. lia.
  - intros b Hb. unfold stat. simpl. rewrite lookup_insert_ne; [done|]. by intros <-.
  - unfold stat. simpl. by rewrite lookup_insert_eq.
Qed.

(** An unreferenced store is empty: nothing leaks. *)
Lemma store_ok_nil h : store_ok h [] -> backings h = ∅.
Proof.
  intros [_ H2 _ _]. apply map_empty. intros b. destruct (backings h !! b) as [bk|] eqn:Hb; [|done].
  destruct (H2 _ _ Hb) as (Hc & Hp & _). simpl in Hc. lia.
Qed.

(** ** Interval lists

    Disjoint lists of ledger entries, what an address is mapped to in one, and
    how cutting entries into pieces (unmap, protect) changes that. *)

(** ** Disjointness *)

Definition apart (e e' : hl_logical_vma_entry) : Prop :=
  guest_last e <= guest_first e' \/ guest_last e' <= guest_first e.

Fixpoint pairwise (l : list hl_logical_vma_entry) : Prop :=
  match l with
  | [] => True
  | e :: l' => Forall (apart e) l' /\ pairwise l'
  end.

Lemma apart_sym e e' : apart e e' -> apart e' e.
Proof. unfold apart. lia. Qed.

Lemma pairwise_perm l l' : l ≡ₚ l' -> pairwise l -> pairwise l'.
Proof.
  induction 1 as [|x l l' Hp IH|x y l|l1 l2 l3 H1 IH1 H2 IH2]; simpl; [done| | |by auto].
  - intros [Hx Hl]. split; [by rewrite <- Hp|by apply IH].
  - intros [Hy [Hx Hl]]. inversion Hy; subst. split; [|done]. constructor; [by apply apart_sym|done].
Qed.

Lemma pairwise_app l k :
  pairwise (l ++ k) <-> pairwise l /\ pairwise k /\ (forall e e', In e l -> In e' k -> apart e e').
Proof.
  induction l as [|x l IH]; simpl; [split; [by intros|by intros (_ & ? & _)]|].
  rewrite Forall_app, IH. rewrite (List.Forall_forall (apart x) k). split.
  - intros [[Hl Hk] (Hpl & Hpk & Hlk)]. split_and!; try done. intros e e' [<-|He]; [by apply Hk|by apply Hlk].
  - intros ([Hl Hpl] & Hpk & Hlk). split_and!; try done; auto.
Qed.

Lemma pairwise_in l e e' : pairwise l -> In e l -> In e' l -> e = e' \/ apart e e'.
Proof.
  induction l as [|x l IH]; simpl; [done|]. intros [Hx Hl] [<-|He] [<-|He']; [by left| | |by apply IH].
  - right. by eapply List.Forall_forall in Hx.
  - right. apply apart_sym. by eapply List.Forall_forall in Hx.
Qed.

(** ** What an address is mapped to *)

(** The offset of an address within the backing of its entry. *)
Definition position (e : hl_logical_vma_entry) (a : Z) : Z := backing_offset e + (a - guest_first e).

Definition meaning (e : hl_logical_vma_entry) (a : Z) : Z * Z * Z * Z :=
  (backing e, position e a, protection e, flags e).

Definition mapped (l : list hl_logical_vma_entry) (a : Z) : option (Z * Z * Z * Z) :=
  option_map (fun e => meaning e a) (find_entry a l).

Definition maps (l : list hl_logical_vma_entry) (a : Z) (r : Z * Z * Z * Z) : Prop :=
  exists e, In e l /\ covers a e = true /\ meaning e a = r.

Lemma covers_spec a e : covers a e = true <-> guest_first e <= a < guest_last e.
Proof.
  unfold covers. rewrite andb_true_iff, Z.leb_le, Z.ltb_lt. done.
Qed.

Lemma find_entry_Some a l e : find_entry a l = Some e -> In e l /\ covers a e = true.
Proof.
  unfold find_entry. destruct (filter _ l) as [|x k] eqn:Hf; [done|]. intros [= ->].
  assert (Hin : e ∈ filter (fun e => covers a e = true) l) by (rewrite Hf; by left).
  apply list_elem_of_filter in Hin as [Hc Hin]. split; [by apply list_elem_of_In|done].
Qed.

Lemma find_entry_None a l e : find_entry a l = None -> In e l -> covers a e = false.
Proof.
  unfold find_entry. destruct (filter _ l) as [|x k] eqn:Hf; [|done]. intros _ He.
  apply list_elem_of_In in He. destruct (covers a e) eqn:Hc; [|done].
  assert (Hin : e ∈ filter (fun e => covers a e = true) l) by by apply list_elem_of_filter.
  rewrite Hf in Hin. by apply not_elem_of_nil in Hin.
Qed.

Lemma covers_unique l a e e' :
  pairwise l -> In e l -> In e' l -> covers a e = true -> covers a e' = true -> e = e'.
Proof.
  rewrite !covers_spec. intros Hp He He' Hc Hc'.
  destruct (pairwise_in _ _ _ Hp He He') as [|Ha]; [done|]. unfold apart in Ha. lia.
Qed.

Lemma mapped_maps l a r : pairwise l -> mapped l a = Some r <-> maps l a r.
Proof.
  intros Hp. unfold mapped. split.
  - destruct (find_entry a l) as [e|] eqn:Hf; [|done]. intros [= <-].
    apply find_entry_Some in Hf as [Hin Hc]. by exists e.
  - intros (e & Hin & Hc & <-). destruct (find_entry a l) as [e'|] eqn:Hf.
    + apply find_entry_Some in Hf as [Hin' Hc']. by rewrite (covers_unique l a e e').
    + by rewrite (find_entry_None _ _ _ Hf Hin) in Hc.
Qed.

Lemma mapped_None l a : mapped l a = None <-> forall e, In e l -> covers a e = false.
Proof.
  unfold mapped. destruct (find_entry a l) as [e|] eqn:Hf; simpl; split; try done.
  - intros H. apply find_entry_Some in Hf as [Hin Hc]. by rewrite (H e Hin) in Hc.
  - intros _ e He. by eapply find_entry_None.
Qed.

(** Lists that map the same triples map the same way. *)
Lemma mapped_ext l k a :
  pairwise l -> pairwise k -> (forall r, maps l a r <-> maps k a r) -> mapped l a = mapped k a.
Proof.
  intros Hl Hk H. destruct (mapped l a) as [r|] eqn:Hm.
  - apply mapped_maps in Hm; [|done]. symmetry. apply mapped_maps; [done|]. by apply H.
  - destruct (mapped k a) as [r|] eqn:Hn; [|done]. apply mapped_maps in Hn; [|done].
    apply H in Hn. apply mapped_maps in Hn; [|done]. congruence.
Qed.

Lemma maps_perm l k a r : l ≡ₚ k -> maps l a r -> maps k a r.
Proof. intros Hp (e & He & H). exists e. split; [|done]. by eapply Permutation_in. Qed.

Lemma mapped_perm l k a : l ≡ₚ k -> pairwise l -> mapped l a = mapped k a.
Proof.
  intros Hp Hl. apply mapped_ext; [done|by eapply pairwise_perm|]. intros r. split; apply maps_perm; [done|].
  by symmetry.
Qed.

Lemma maps_concat (f : hl_logical_vma_entry -> list hl_logical_vma_entry) l a r :
  maps (concat (map f l)) a r <-> exists e, In e l /\ maps (f e) a r.
Proof.
  unfold maps. split.
  - intros (p & Hp & H). apply in_concat in Hp as (k & Hk & Hp). apply in_map_iff in Hk as (e & <- & He). eauto.
  - intros (e & He & p & Hp & H). exists p. split; [|done]. apply in_concat. exists (f e).
    split; [by apply in_map|done].
Qed.

(** ** Cutting entries *)

(** An entry over a backing of that length. *)
Definition span_ok (length : Z) (e : hl_logical_vma_entry) : Prop :=
  0 <= guest_first e < guest_last e /\ guest_last e <= UINT64_MAX /\ 0 <= backing_offset e /\
  backing_offset e + (guest_last e - guest_first e) <= length /\ length <= UINT64_MAX.

Definition entry_ok (h : vma_store) (e : hl_logical_vma_entry) : Prop :=
  exists bk, stat h (backing e) = Some bk /\ span_ok (b_length bk) e.

(** [p] is a part of [e]: same backing, same position for each address. *)
Record part_of (e p : hl_logical_vma_entry) : Prop := mk_part_of {
  part_backing : backing p = backing e;
  part_flags : flags p = flags e;
  part_first : guest_first e <= guest_first p;
  part_last : guest_last p <= guest_last e;
  part_nonempty : guest_first p < guest_last p;
  part_offset : backing_offset p = backing_offset e + (guest_first p - guest_first e)
}.

Lemma part_ok n e p : span_ok n e -> part_of e p -> span_ok n p.
Proof. intros (H1 & H2 & H3 & H4 & H5) []. unfold span_ok. lia. Qed.

Lemma part_entry_ok h e p : entry_ok h e -> part_of e p -> entry_ok h p.
Proof. intros (bk & Hbk & Hs) Hp. exists bk. split; [by rewrite (part_backing _ _ Hp)|by eapply part_ok]. Qed.

Lemma part_position e p a : part_of e p -> position p a = position e a.
Proof. intros []. unfold position. lia. Qed.

Lemma pairwise_parts (f : hl_logical_vma_entry -> list hl_logical_vma_entry) l :
  (forall e, In e l -> Forall (part_of e) (f e) /\ pairwise (f e)) -> pairwise l -> pairwise (concat (map f l)).
Proof.
  induction l as [|e l IH]; intros Hf Hpl; simpl; [done|]. destruct Hpl as [He Hl]. apply pairwise_app.
  destruct (Hf e) as [Hpe Hpw]; [by left|]. split_and!; [done|apply IH; [|done]; intros; apply Hf; by right|].
  intros p p' Hp Hp'. apply in_concat in Hp' as (k & Hk & Hp'). apply in_map_iff in Hk as (e' & <- & He').
  destruct (Hf e') as [Hpe' _]; [by right|]. rewrite List.Forall_forall in Hpe, Hpe', He.
  destruct (Hpe p Hp), (Hpe' p' Hp'). specialize (He e' He'). unfold apart in *. lia.
Qed.

(** What survives of an entry when [first, last) is unmapped. *)
Definition pieces (first last : Z) (e : hl_logical_vma_entry) : list hl_logical_vma_entry :=
  if misses first last e then [e]
  else
    (if guest_first e <? first then [with_last first e] else []) ++
    (if last <? guest_last e then [with_first last (u64 (backing_offset e + (last - guest_first e))) e] else []).

Lemma offset_small n e a :
  span_ok n e -> guest_first e <= a <= guest_last e ->
  u64 (backing_offset e + (a - guest_first e)) = backing_offset e + (a - guest_first e).
Proof. intros (H1 & H2 & H3 & H4 & H5) Ha. apply u64_small. unfold UINT64_MAX in *. lia. Qed.

Lemma misses_spec first last e :
  misses first last e = true <-> last <= guest_first e \/ guest_last e <= first.
Proof. unfold misses. rewrite orb_true_iff, !Z.leb_le. done. Qed.

Lemma misses_false first last e :
  misses first last e = false <-> guest_first e < last /\ first < guest_last e.
Proof. unfold misses. rewrite orb_false_iff, !Z.leb_gt. done. Qed.

Lemma pieces_parts n first last e :
  span_ok n e -> first < last -> Forall (part_of e) (pieces first last e) /\ pairwise (pieces first last e).
Proof.
  intros Hs Hfl. pose proof Hs as (H1 & H2 & H3 & H4 & H5). unfold pieces.
  destruct (misses first last e) eqn:Hm.
  { split; [|done]. repeat constructor; simpl; lia. }
  apply misses_false in Hm as [Hm1 Hm2].
  destruct (Z.ltb_spec (guest_first e) first), (Z.ltb_spec last (guest_last e)); simpl;
    rewrite ?(offset_small n e last Hs) by lia; split; repeat constructor; simpl; unfold apart; simpl; lia.
Qed.

(** Decide every comparison of the goal, innermost first. *)
Ltac no_branch x := lazymatch x with context [if _ then _ else _] => fail | _ => idtac end.
Ltac compare_all :=
  repeat match goal with
  | |- context [?x <? ?y] => no_branch x; no_branch y; destruct (Z.ltb_spec x y); simpl
  | |- context [?x <=? ?y] => no_branch x; no_branch y; destruct (Z.leb_spec x y); simpl
  | |- context [?x =? ?y] => no_branch x; no_branch y; destruct (Z.eqb_spec x y); simpl
  end; try done; try lia.

Lemma existsb_In {A} (p : A -> bool) l : existsb p l = true <-> exists x, In x l /\ p x = true.
Proof. apply existsb_exists. Qed.

Lemma pieces_cover first last e a :
  guest_first e < guest_last e -> first < last ->
  existsb (covers a) (pieces first last e) = covers a e && negb ((first <=? a) && (a <? last)).
Proof. intros He Hfl. unfold pieces, misses, covers. compare_all. Qed.

Lemma pieces_protection first last e p : In p (pieces first last e) -> protection p = protection e.
Proof.
  unfold pieces. destruct (misses _ _ _); [by intros [<-|[]]|].
  intros [Hp|Hp]%in_app_iff; (destruct (_ <? _); [by destruct Hp as [<-|[]]|done]).
Qed.

Lemma part_meaning e p a : part_of e p -> protection p = protection e -> meaning p a = meaning e a.
Proof.
  intros Hp Hpr. unfold meaning. rewrite (part_position e p a Hp), Hpr. by destruct Hp as [-> -> _ _ _ _].
Qed.

Lemma pieces_maps n first last e a r :
  span_ok n e -> first < last ->
  maps (pieces first last e) a r <-> covers a e = true /\ ~ (first <= a < last) /\ meaning e a = r.
Proof.
  intros Hs Hfl. destruct (pieces_parts n first last e Hs Hfl) as [Hparts _]. rewrite List.Forall_forall in Hparts.
  assert (He : guest_first e < guest_last e) by (destruct Hs; lia).
  pose proof (pieces_cover first last e a He Hfl) as Hcov. split.
  - intros (p & Hp & Hc & <-). rewrite (part_meaning e p a (Hparts p Hp)) by by eapply pieces_protection.
    assert (Hex : existsb (covers a) (pieces first last e) = true) by (apply existsb_In; by exists p).
    rewrite Hcov in Hex. bool_props. split_and!; [done| |done]. intros Hin.
    destruct (Z.leb_spec first a), (Z.ltb_spec a last); done || lia.
  - intros (Hc & Hn & <-). rewrite Hc in Hcov. simpl in Hcov.
    assert (Hex : existsb (covers a) (pieces first last e) = true).
    { rewrite Hcov. destruct (Z.leb_spec first a), (Z.ltb_spec a last); done || lia. }
    apply existsb_In in Hex as (p & Hp & Hcp). exists p. split_and!; [done|done|].
    apply part_meaning; [by apply Hparts|by eapply pieces_protection].
Qed.

(** Unmapping a list. *)
Definition cut (first last : Z) (l : list hl_logical_vma_entry) : list hl_logical_vma_entry :=
  concat (map (pieces first last) l).

Lemma cut_maps h first last l a r :
  Forall (entry_ok h) l -> first < last ->
  maps (cut first last l) a r <-> maps l a r /\ ~ (first <= a < last).
Proof.
  intros Hok Hfl. rewrite List.Forall_forall in Hok. unfold cut. rewrite maps_concat. split.
  - intros (e & He & Hm). destruct (Hok e He) as (bk & _ & Hs).
    apply (pieces_maps _ _ _ _ _ _ Hs Hfl) in Hm as (Hc & Hn & Hr). split; [by exists e|done].
  - intros [(e & He & Hc & Hr) Hn]. destruct (Hok e He) as (bk & _ & Hs). exists e. split; [done|].
    by apply (pieces_maps _ _ _ _ _ _ Hs Hfl).
Qed.

Lemma cut_ok h first last l :
  Forall (entry_ok h) l -> pairwise l -> first < last ->
  Forall (entry_ok h) (cut first last l) /\ pairwise (cut first last l).
Proof.
  intros Hok Hp Hfl. rewrite List.Forall_forall in Hok. unfold cut. split.
  - apply List.Forall_forall. intros p Hin. apply in_concat in Hin as (k & Hk & Hin).
    apply in_map_iff in Hk as (e & <- & He). destruct (Hok e He) as (bk & Hbk & Hs).
    destruct (pieces_parts _ _ _ _ Hs Hfl) as [Hparts _]. rewrite List.Forall_forall in Hparts.
    eapply part_entry_ok; [by apply Hok|by apply Hparts].
  - apply pairwise_parts; [|done]. intros e He. destruct (Hok e He) as (bk & Hbk & Hs). by eapply pieces_parts.
Qed.

(** The target range is free after a cut. *)
Lemma cut_apart h first last l e :
  Forall (entry_ok h) l -> first < last -> guest_first e = first -> guest_last e = last ->
  Forall (apart e) (cut first last l).
Proof.
  intros Hok Hfl <- <-. rewrite List.Forall_forall in Hok. apply List.Forall_forall. intros p Hin.
  apply in_concat in Hin as (k & Hk & Hin). apply in_map_iff in Hk as (e' & <- & He').
  unfold pieces in Hin. destruct (misses _ _ e') eqn:Hm.
  - destruct Hin as [<-|[]]. apply misses_spec in Hm. unfold apart. lia.
  - unfold apart. apply in_app_iff in Hin as [Hin|Hin];
      [destruct (guest_first e' <? guest_first e)|destruct (guest_last e <? guest_last e')];
      try done; destruct Hin as [<-|[]]; simpl; lia.
Qed.

(** ** How many entries a boundary can cut *)

Definition straddles (p : Z) (e : hl_logical_vma_entry) : bool := (guest_first e <? p) && (p <? guest_last e).

Lemma straddles_once p l : pairwise l -> countZ (straddles p) l <= 1.
Proof.
  induction l as [|e l IH]; simpl; [lia|]. intros [He Hl]. specialize (IH Hl).
  destruct (straddles p e) eqn:Hs; [|lia]. rewrite countZ_none; [lia|]. intros x Hx.
  rewrite List.Forall_forall in He. specialize (He x Hx). unfold apart, straddles in *.
  revert Hs. compare_all.
Qed.

Definition splits (first last : Z) (e : hl_logical_vma_entry) : bool :=
  (guest_first e <? first) && (last <? guest_last e).

Lemma splits_once first last l : first < last -> pairwise l -> countZ (splits first last) l <= 1.
Proof.
  intros Hfl Hp. pose proof (straddles_once first l Hp). enough (countZ (splits first last) l <= countZ (straddles first) l) by lia.
  clear -Hfl. induction l as [|e l IH]; simpl; [lia|]. unfold splits at 1, straddles at 1. compare_all.
Qed.

Lemma cut_length first last l :
  Forall (fun e => guest_first e < guest_last e) l -> first < last ->
  lengthZ (cut first last l) <= lengthZ l + countZ (splits first last) l.
Proof.
  intros He Hfl. induction l as [|e l IH]; [done|]. inversion He as [|? ? Hne He']; subst.
  unfold cut in *. simpl. rewrite lengthZ_app, lengthZ_cons. specialize (IH He').
  enough (lengthZ (pieces first last e) <= 1 + (if splits first last e then 1 else 0)) by lia.
  clear IH. unfold pieces, misses, splits. compare_all; unfold lengthZ; simpl; lia.
Qed.

(** An entry that strictly contains the range is the only one it meets. *)
Lemma cut_length_split first last l e :
  pairwise l -> first < last -> In e l -> splits first last e = true ->
  lengthZ (cut first last l) = lengthZ l + 1.
Proof.
  intros Hp Hfl. assert (Hmiss : forall k, Forall (apart e) k -> splits first last e = true -> lengthZ (cut first last k) = lengthZ k).
  { induction k as [|x k IHk]; intros Hk Hs; [done|]. inversion Hk; subst. unfold cut in *. simpl.
    rewrite lengthZ_app, lengthZ_cons, IHk by done. unfold pieces.
    assert (Hm : misses first last x = true).
    { apply misses_spec. unfold apart, splits in *. bool_props. lia. }
    rewrite Hm. unfold lengthZ at 1. simpl. lia. }
  induction l as [|x l IH]; [done|]. destruct Hp as [Hx Hl]. intros [->|Hin] Hs.
  - unfold cut in *. simpl. rewrite lengthZ_app, lengthZ_cons. rewrite (Hmiss l Hx Hs).
    enough (lengthZ (pieces first last e) = 2) by lia. unfold pieces, misses, splits in *. bool_props. compare_all.
  - unfold cut in *. simpl. rewrite lengthZ_app, lengthZ_cons, IH by done.
    assert (Hm : misses first last x = true).
    { rewrite List.Forall_forall in Hx. specialize (Hx e Hin). apply misses_spec. unfold apart, splits in *. bool_props. lia. }
    unfold pieces. rewrite Hm. unfold lengthZ at 1. simpl. lia.
Qed.

(** ** Changing the protection *)

Definition protected (first last prot : Z) (e : hl_logical_vma_entry) : list hl_logical_vma_entry :=
  if misses first last e then [e] else fst (protect_pieces first last prot e) :: snd (protect_pieces first last prot e).

Lemma protected_parts n first last prot e :
  span_ok n e -> first < last ->
  Forall (part_of e) (protected first last prot e) /\ pairwise (protected first last prot e).
Proof.
  intros Hs Hfl. pose proof Hs as (H1 & H2 & H3 & H4 & H5). unfold protected.
  destruct (misses first last e) eqn:Hm.
  { split; [|done]. repeat constructor; simpl; lia. }
  apply misses_false in Hm as [Hm1 Hm2]. unfold protect_pieces.
  destruct (Z.ltb_spec (guest_first e) first), (Z.ltb_spec last (guest_last e));
    rewrite ?(offset_small n e last Hs), ?(offset_small n e first Hs) by lia; compare_all;
    split; repeat constructor; simpl; unfold apart; simpl; lia.
Qed.

Lemma protected_cases n first last prot e p :
  span_ok n e -> first < last -> In p (protected first last prot e) ->
  (first <= guest_first p /\ guest_last p <= last /\ protection p = prot) \/
  ((guest_last p <= first \/ last <= guest_first p) /\ protection p = protection e).
Proof.
  intros Hs Hfl. pose proof Hs as (H1 & H2 & H3 & H4 & H5). unfold protected.
  destruct (misses first last e) eqn:Hm.
  { intros [<-|[]]. right. apply misses_spec in Hm. split; [lia|done]. }
  apply misses_false in Hm as [Hm1 Hm2]. unfold protect_pieces. compare_all; intros Hin;
    repeat (destruct Hin as [<-|Hin]; [simpl; (left; split_and!; (lia || done)) || (right; split; (lia || done))|]); done.
Qed.

Lemma protected_cover first last prot e a :
  guest_first e < guest_last e -> first < last ->
  existsb (covers a) (protected first last prot e) = covers a e.
Proof. intros He Hfl. unfold protected, misses, protect_pieces, covers. compare_all. Qed.

Definition reprotect (first last prot a : Z) (r : Z * Z * Z * Z) : Z * Z * Z * Z :=
  let '(b, o, p, f) := r in (b, o, if (first <=? a) && (a <? last) then prot else p, f).

Lemma protected_maps n first last prot e a r :
  span_ok n e -> first < last ->
  maps (protected first last prot e) a r <-> covers a e = true /\ reprotect first last prot a (meaning e a) = r.
Proof.
  intros Hs Hfl. destruct (protected_parts n first last prot e Hs Hfl) as [Hparts _].
  rewrite List.Forall_forall in Hparts.
  assert (He : guest_first e < guest_last e) by (destruct Hs; lia).
  pose proof (protected_cover first last prot e a He Hfl) as Hcov.
  assert (Hmean : forall p, In p (protected first last prot e) -> covers a p = true ->
    meaning p a = reprotect first last prot a (meaning e a)).
  { intros p Hp Hc. apply covers_spec in Hc. pose proof (Hparts p Hp) as Hpart. unfold meaning, reprotect.
    rewrite (part_position e p a Hpart). destruct Hpart as [-> -> _ _ _ _]. do 2 f_equal.
    destruct (protected_cases n first last prot e p Hs Hfl Hp) as [(H1 & H2 & ->)|[Ho ->]]; compare_all. }
  split.
  - intros (p & Hp & Hc & <-). split; [|symmetry; by apply Hmean]. rewrite <- Hcov. apply existsb_In. by exists p.
  - intros [Hc <-]. rewrite <- Hcov in Hc. apply existsb_In in Hc as (p & Hp & Hcp). exists p. auto.
Qed.

Definition reprotected (first last prot : Z) (l : list hl_logical_vma_entry) : list hl_logical_vma_entry :=
  concat (map (protected first last prot) l).

Lemma reprotected_maps h first last prot l a r :
  Forall (entry_ok h) l -> first < last ->
  maps (reprotected first last prot l) a r <-> exists r0, maps l a r0 /\ reprotect first last prot a r0 = r.
Proof.
  intros Hok Hfl. rewrite List.Forall_forall in Hok. unfold reprotected. rewrite maps_concat. split.
  - intros (e & He & Hm). destruct (Hok e He) as (bk & _ & Hs).
    apply (protected_maps _ _ _ _ _ _ _ Hs Hfl) in Hm as (Hc & Hr). exists (meaning e a). split; [by exists e|done].
  - intros (r0 & (e & He & Hc & <-) & Hr). destruct (Hok e He) as (bk & _ & Hs). exists e. split; [done|].
    by apply (protected_maps _ _ _ _ _ _ _ Hs Hfl).
Qed.

Lemma reprotected_ok h first last prot l :
  Forall (entry_ok h) l -> pairwise l -> first < last ->
  Forall (entry_ok h) (reprotected first last prot l) /\ pairwise (reprotected first last prot l).
Proof.
  intros Hok Hp Hfl. rewrite List.Forall_forall in Hok. unfold reprotected. split.
  - apply List.Forall_forall. intros p Hin. apply in_concat in Hin as (k & Hk & Hin).
    apply in_map_iff in Hk as (e & <- & He). destruct (Hok e He) as (bk & Hbk & Hs).
    destruct (protected_parts _ _ _ prot _ Hs Hfl) as [Hparts _]. rewrite List.Forall_forall in Hparts.
    eapply part_entry_ok; [by apply Hok|by apply Hparts].
  - apply pairwise_parts; [|done]. intros e He. destruct (Hok e He) as (bk & Hbk & Hs). by eapply protected_parts.
Qed.

(** What the protection of an entry appends. *)
Definition added (first last prot : Z) (e : hl_logical_vma_entry) : list hl_logical_vma_entry :=
  if misses first last e then [] else snd (protect_pieces first last prot e).

Lemma added_total first last prot l :
  Forall (fun e => guest_first e < guest_last e) l -> first < last -> pairwise l ->
  lengthZ (concat (map (added first last prot) l)) <= 2.
Proof.
  intros He Hfl Hp. pose proof (straddles_once first l Hp). pose proof (straddles_once last l Hp).
  enough (lengthZ (concat (map (added first last prot) l)) <=
    countZ (straddles first) l + countZ (straddles last) l) by lia.
  clear -He Hfl. induction l as [|e l IH]; simpl; [done|]. inversion He as [|? ? Hne He']; subst.
  rewrite lengthZ_app. specialize (IH He').
  enough (lengthZ (added first last prot e) <=
    (if straddles first e then 1 else 0) + (if straddles last e then 1 else 0)) by lia.
  unfold added, misses, protect_pieces, straddles. clear IH He'. compare_all; unfold lengthZ; simpl; lia.
Qed.
