(* ===== verification/VmaOps.v ===== *)
(** * The ledger operations

    What the loops of [logical_vma.c] do to the entries, the reference counts
    and the published snapshot: total functions of a well-formed ledger. *)

From stdpp Require Import gmap.
From S2P Require Import Prelude VmaLedger VmaReaders VmaIntervals.

(** ** Capacity *)

Lemma grow_capacity_spec need fuel : forall c c',
  grow_capacity fuel c need = Some c' -> 0 <= c -> need <= c' /\ c <= c'.
Proof.
  induction fuel as [|fuel IH]; intros c c' Hg Hc; [done|]. simpl in Hg. destruct (Z.leb_spec need c).
  { injection Hg as <-. lia. }
  destruct (_ <? c); [done|]. destruct (IH _ _ Hg); lia.
Qed.

Lemma grow_spec realloc need L :
  0 <= capacity L ->
  match grow realloc need L with
  | inl errno => errno = VMA_ENOMEM
  | inr L' => exists c, L' = set_capacity c L /\ need <= c /\ capacity L <= c
  end.
Proof.
  intros Hc0. unfold grow. destruct (Z.leb_spec need (capacity L)).
  { exists (capacity L). split_and!; [by destruct L|done|done]. }
  destruct (grow_capacity _ _ _) as [c|] eqn:Hg; [|done]. destruct (realloc _); [|done].
  exists c. split; [done|]. apply grow_capacity_spec in Hg; destruct (Z.eqb_spec (capacity L) 0); cbn [negb] in *; lia.
Qed.

Lemma grow_enough realloc need L : need <= capacity L -> grow realloc need L = inr L.
Proof. intros Hn. unfold grow. destruct (Z.leb_spec need (capacity L)); [done|lia]. Qed.

Lemma snapshot_allocate_spec malloc c :
  match snapshot_allocate malloc c with
  | inl errno => errno = VMA_ENOMEM
  | inr room => room = c /\ c * 56 < 2 ^ 64
  end.
Proof.
  unfold snapshot_allocate. destruct (Z.ltb_spec ((SIZE_MAX - sizeof_snapshot) / sizeof_view_item) c); [done|].
  destruct (malloc _); [|done]. split; [done|].
  assert (c <= 329406144173384849) by (eapply Z.le_trans; [exact H|]; vm_compute; done). lia.
Qed.

Lemma append_entry_room e L :
  count L < capacity L -> append_entry e L = Some (set_entries (entries L ++ [e]) L).
Proof. intros Hc. unfold append_entry. destruct (Z.ltb_spec (count L) (capacity L)); [done|lia]. Qed.

(** ** Unmapping *)

Lemma swap_remove_middle pre e suf :
  swap_remove (lengthZ pre) (pre ++ e :: suf) =
    pre ++ match rev suf with [] => [] | z :: s => z :: rev s end.
Proof.
  unfold swap_remove. destruct suf as [|z suf _] using rev_ind.
  - replace (lengthZ (pre ++ [e]) - 1) with (lengthZ pre) by (rewrite lengthZ_app; unfold lengthZ; simpl; lia).
    rewrite lookupZ_middle, insertZ_middle. rewrite length_app. simpl.
    replace (length pre + 1 - 1)%nat with (length pre) by lia. by rewrite take_app_length, app_nil_r.
  - rewrite rev_unit. rewrite rev_involutive.
    replace (lengthZ (pre ++ e :: suf ++ [z]) - 1) with (lengthZ (pre ++ e :: suf))
      by (rewrite !lengthZ_app, !lengthZ_cons, lengthZ_app; unfold lengthZ; simpl; lia).
    replace (pre ++ e :: suf ++ [z]) with ((pre ++ e :: suf) ++ z :: []) at 1 by by rewrite <- app_assoc.
    rewrite lookupZ_middle, insertZ_middle.
    replace (length (pre ++ e :: suf ++ [z]) - 1)%nat with (length (pre ++ z :: suf))
      by (rewrite !length_app; simpl; rewrite length_app; simpl; lia).
    replace (pre ++ z :: suf ++ [z]) with ((pre ++ z :: suf) ++ [z]) by by rewrite <- app_assoc.
    by rewrite take_app_length.
Qed.

Lemma swap_remove_perm pre e suf :
  exists suf', swap_remove (lengthZ pre) (pre ++ e :: suf) = pre ++ suf' /\ suf' ≡ₚ suf.
Proof.
  rewrite swap_remove_middle. eexists. split; [done|]. destruct suf as [|z suf _] using rev_ind; [done|].
  rewrite rev_unit, rev_involutive. by rewrite Permutation_app_comm.
Qed.

Lemma set_entries_twice l k L : set_entries l (set_entries k L) = set_entries l L.
Proof. done. Qed.

Lemma set_entries_eq l L : entries L = l -> set_entries l L = L.
Proof. intros <-. by destruct L. Qed.

Definition nonempty (e : hl_logical_vma_entry) : Prop := guest_first e < guest_last e.

Lemma cut_cons first last e l : cut first last (e :: l) = pieces first last e ++ cut first last l.
Proof. done. Qed.

Lemma cut_app first last l k : cut first last (l ++ k) = cut first last l ++ cut first last k.
Proof. unfold cut. by rewrite map_app, concat_app. Qed.

Lemma cut_perm first last l k : l ≡ₚ k -> cut first last l ≡ₚ cut first last k.
Proof.
  induction 1 as [|x l k Hp IH|x y l|]; simpl; [done| | |by etransitivity].
  - by rewrite !cut_cons, IH.
  - rewrite !cut_cons, !app_assoc. by rewrite (Permutation_app_comm (pieces _ _ y)).
Qed.

Lemma pieces_backing first last e p : In p (pieces first last e) -> backing p = backing e.
Proof.
  unfold pieces. destruct (misses _ _ _); [by intros [<-|[]]|].
  intros [Hp|Hp]%in_app_iff; (destruct (_ <? _); [by destruct Hp as [<-|[]]|done]).
Qed.

Lemma cut_backings first last l : incl (map backing (cut first last l)) (map backing l).
Proof.
  intros b Hb. apply in_map_iff in Hb as (p & <- & Hp). apply in_concat in Hp as (k & Hk & Hp).
  apply in_map_iff in Hk as (e & <- & He). rewrite (pieces_backing _ _ _ _ Hp). by apply in_map.
Qed.

(** What one iteration leaves to prove. *)
Section Unmap.
Variables (realloc : Z -> bool) (first last : Z) (rest : list Z).

Definition unmap_pre (fuel : nat) (pre suf : list hl_logical_vma_entry) (h : vma_store)
    (L : hl_logical_vma_ledger) : Prop :=
  entries L = pre ++ suf /\ Forall nonempty suf /\
  lengthZ suf + countZ (splits first last) suf < Z.of_nat fuel /\
  count L + countZ (splits first last) suf <= capacity L /\
  store_ok h (map backing (entries L) ++ rest) /\
  lengthZ (map backing (entries L) ++ rest) + countZ (splits first last) suf < 2 ^ 64.

Definition unmap_post (l : list hl_logical_vma_entry) (h : vma_store) (L : hl_logical_vma_ledger)
    (result : option (Z * (vma_store * hl_logical_vma_ledger))) : Prop :=
  exists h' l', result = Some (0, (h', set_entries l' L)) /\ l' ≡ₚ l /\
    store_ok h' (map backing l' ++ rest) /\ agree (map backing l' ++ rest) h h'.

Lemma unmap_post_perm l k h L result : l ≡ₚ k -> unmap_post l h L result -> unmap_post k h L result.
Proof. intros Hp (h' & l' & Hr & Hl & H). exists h', l'. split_and!; [done|by rewrite Hl|apply H|apply H]. Qed.

Lemma unmap_step_kept fuel pre e e' suf h L :
  unmap_pre (S fuel) pre (e :: suf) h L -> backing e' = backing e -> splits first last e = false ->
  unmap_pre fuel (pre ++ [e']) suf h (set_entries (pre ++ e' :: suf) L).
Proof.
  intros (HL & Hne & Hfuel & Hcap & Hok & Hfit) Hb Hs. cbn [countZ] in *. rewrite Hs in *. rewrite lengthZ_cons in *.
  inversion Hne; subst. assert (Hown : map backing (pre ++ e' :: suf) = map backing (entries L)).
  { rewrite HL, !map_app. simpl. by rewrite Hb. }
  assert (Hc : count (set_entries (pre ++ e' :: suf) L) = count L).
  { unfold count. simpl. rewrite HL, !lengthZ_app, !lengthZ_cons. done. }
  unfold unmap_pre. rewrite Hc. simpl. rewrite Hown. split_and!; try done; try lia. by rewrite <- app_assoc.
Qed.

Lemma unmap_step_removed fuel pre e suf suf' h h' L :
  unmap_pre (S fuel) pre (e :: suf) h L -> suf' ≡ₚ suf ->
  store_ok h' (map backing (pre ++ suf') ++ rest) ->
  unmap_pre fuel pre suf' h' (set_entries (pre ++ suf') L).
Proof.
  intros (HL & Hne & Hfuel & Hcap & Hok & Hfit) Hp Hok'. inversion Hne; subst.
  cbn [countZ] in *. rewrite lengthZ_cons in *. rewrite HL in Hfit. unfold count in Hcap. rewrite HL in Hcap.
  pose proof (countZ_bounds (splits first last) suf).
  unfold unmap_pre, count. simpl. rewrite (countZ_perm _ _ _ Hp). pose proof (lengthZ_perm _ _ Hp) as Hl.
  unfold lengthZ in *. rewrite ?length_app, ?length_map, ?length_app in *. simpl in *.
  split_and!; try done; try (destruct (splits first last e); lia). by rewrite Hp.
Qed.

Lemma unmap_step_split fuel pre e suf h h' L head tail :
  unmap_pre (S fuel) pre (e :: suf) h L -> splits first last e = true ->
  backing head = backing e -> backing tail = backing e -> nonempty tail -> splits first last tail = false ->
  store_ok h' (backing e :: map backing (entries L) ++ rest) ->
  unmap_pre fuel (pre ++ [head]) (suf ++ [tail]) h' (set_entries (pre ++ head :: suf ++ [tail]) L).
Proof.
  intros (HL & Hne & Hfuel & Hcap & Hok & Hfit) Hs Hbh Hbt Hnt Hst Hok'. inversion Hne; subst.
  cbn [countZ] in *. rewrite Hs in *. rewrite lengthZ_cons in *.
  assert (Hown : map backing (pre ++ head :: suf ++ [tail]) ++ rest ≡ₚ backing e :: map backing (entries L) ++ rest).
  { rewrite HL, !map_app. simpl. rewrite map_app. simpl. rewrite Hbh, Hbt.
    rewrite (Permutation_app_comm (map backing suf)). simpl. rewrite <- !app_assoc. simpl.
    rewrite <- !Permutation_middle. done. }
  unfold unmap_pre, count in *. simpl. rewrite countZ_app. cbn [countZ]. rewrite Hst.
  split_and!.
  - by rewrite <- app_assoc.
  - apply Forall_app. split; [done|by constructor].
  - rewrite lengthZ_app. change (lengthZ [tail]) with 1. lia.
  - rewrite HL in Hcap. rewrite !lengthZ_app, !lengthZ_cons, ?lengthZ_app in *. change (lengthZ [tail]) with 1. lia.
  - eapply store_ok_perm; [symmetry; exact Hown|done].
  - rewrite (lengthZ_perm _ _ Hown), lengthZ_cons. lia.
Qed.

(** The loop of [unmap_locked] from the index after [pre]: what is behind the
    index is cut, the references follow, and neither the array nor the
    capacity is overrun. *)
Lemma unmap_loop_spec fuel : forall pre suf h L,
  first < last -> unmap_pre fuel pre suf h L ->
  unmap_post (pre ++ cut first last suf) h L (unmap_loop realloc fuel first last (lengthZ pre) h L).
Proof.
  induction fuel as [|fuel IH]; intros pre suf h L Hfl Hpre; pose proof Hpre as (HL & Hne & Hfuel & Hcap & Hok & Hfit).
  { pose proof (lengthZ_nonneg suf). pose proof (countZ_bounds (splits first last) suf). lia. }
  cbn [unmap_loop]. destruct suf as [|e suf].
  { rewrite app_nil_r in HL. rewrite HL in Hok |- *. destruct (lookupZ pre (lengthZ pre)) eqn:Hl.
    { apply lookupZ_Some_range in Hl. lia. }
    exists h, pre. rewrite (set_entries_eq _ _ HL). split_and!; [done|by rewrite app_nil_r|done|done]. }
  rewrite HL, lookupZ_middle. inversion Hne as [|? ? He Hne']; subst. unfold nonempty in He.
  assert (Hlen : forall e' : hl_logical_vma_entry, lengthZ pre + 1 = lengthZ (pre ++ [e']))
    by (intros; rewrite lengthZ_app; done).
  assert (Hkept : forall e' L', pieces first last e = [e'] -> backing e' = backing e ->
    splits first last e = false -> L' = set_entries (pre ++ e' :: suf) L ->
    unmap_post (pre ++ cut first last (e :: suf)) h L (unmap_loop realloc fuel first last (lengthZ pre + 1) h L')).
  { intros e' L' Hp Hb Hs ->. rewrite (Hlen e'), cut_cons, Hp, app_assoc.
    destruct (IH (pre ++ [e']) suf h (set_entries (pre ++ e' :: suf) L) Hfl) as (h' & l' & H);
      [by apply unmap_step_kept with e|]. by exists h', l'. }
  assert (Hcases := I). unfold pieces, misses, splits in Hkept.
  destruct (Z.leb_spec last (guest_first e)), (Z.leb_spec (guest_last e) first); cbn [orb] in *;
    try (apply (Hkept e); [done|done|compare_all|by rewrite set_entries_eq]).
  rewrite insertZ_middle.
  destruct (Z.leb_spec first (guest_first e)), (Z.leb_spec (guest_last e) last),
    (Z.ltb_spec (guest_first e) first), (Z.ltb_spec last (guest_last e)); try lia; cbn [andb app] in *.
  - (* the whole entry goes *)
    destruct (swap_remove_perm pre e suf) as (suf' & Hsw & Hp). rewrite Hsw.
    destruct (put_spec (backing e) h (map backing (pre ++ suf') ++ rest)) as (h1 & -> & Hok1 & Hag1).
    { eapply store_ok_perm; [|exact Hok]. rewrite HL, !map_app. simpl. by rewrite Hp, <- Permutation_middle. }
    simpl. destruct (IH pre suf' h1 (set_entries (pre ++ suf') L) Hfl) as (h2 & l' & Hrun & Hl & Hok2 & Hag2);
      [by eapply unmap_step_removed|].
    exists h2, l'. assert (Hpe : pieces first last e = []) by (unfold pieces, misses; compare_all).
    split_and!; [done| |done|].
    + rewrite Hl, cut_cons, Hpe. simpl. by rewrite (cut_perm _ _ _ _ Hp).
    + eapply agree_trans; [|done]. eapply agree_incl; [|exact Hag1]. intros b Hb.
      apply in_app_iff in Hb as [Hb|Hb]; [|by apply in_or_app; right]. apply in_or_app. left.
      apply (Permutation_in _ (Permutation_map backing Hl)) in Hb. rewrite map_app in Hb |- *.
      apply in_app_iff in Hb as [Hb|Hb]; apply in_or_app; [by left|right]. by apply cut_backings in Hb.
  - by apply (Hkept _ _ eq_refl).
  - by apply (Hkept _ _ eq_refl).
  - (* the entry is split *)
    assert (Hsp : splits first last e = true) by (unfold splits; compare_all).
    cbn [countZ] in Hcap, Hfit. rewrite Hsp in *. pose proof (countZ_bounds (splits first last) suf).
    rewrite grow_enough by lia. rewrite HL, insertZ_middle.
    destruct (get_spec (backing e) h (map backing (entries L) ++ rest)) as (h1 & Hget & Hok1 & Hst1);
      [done|rewrite HL, map_app; apply in_or_app; left; apply in_or_app; right; by left|lia|].
    set (tail := with_first last (u64 (backing_offset e + (last - guest_first e))) e).
    change (backing_get (backing tail) h) with (backing_get (backing e) h). rewrite Hget. simpl.
    rewrite append_entry_room by
      (unfold count in *; simpl; rewrite HL in Hcap; rewrite !lengthZ_app, !lengthZ_cons in *; lia).
    simpl. rewrite <- app_assoc. simpl. rewrite (Hlen (with_last first e)).
    destruct (IH (pre ++ [with_last first e]) (suf ++ [tail]) h1
      (set_entries (pre ++ with_last first e :: suf ++ [tail]) L) Hfl) as (h2 & l' & Hrun & Hl & Hok2 & Hag2).
    { apply (unmap_step_split _ _ e _ h); try done; unfold nonempty, splits, tail; simpl; compare_all. }
    exists h2, l'. split_and!; [done| |done|].
    + rewrite Hl, cut_app, (cut_cons first last e suf). assert (Hpt : pieces first last tail = [tail]) by
        (unfold pieces, misses, tail; simpl; compare_all).
      assert (Hpe : pieces first last e = [with_last first e; tail]) by (unfold pieces, misses; compare_all).
      assert (Hct : cut first last [tail] = [tail]) by (rewrite cut_cons, Hpt; done).
      rewrite Hpe, Hct, <- !app_assoc. simpl. do 2 f_equiv. by rewrite <- Permutation_cons_append.
    + intros b Hb. by rewrite (Hag2 b Hb), Hst1.
Qed.
End Unmap.

Lemma unmap_locked_spec realloc first last rest h L :
  first < last -> Forall (entry_ok h) (entries L) -> pairwise (entries L) ->
  count L + countZ (splits first last) (entries L) <= capacity L ->
  store_ok h (map backing (entries L) ++ rest) ->
  lengthZ (map backing (entries L) ++ rest) + 1 < 2 ^ 64 ->
  unmap_post rest (cut first last (entries L)) h L (unmap_locked realloc first last h L).
Proof.
  intros Hfl Hok Hp Hcap Hst Hfit. unfold unmap_locked.
  pose proof (splits_once first last (entries L) Hfl Hp) as Hs.
  pose proof (countZ_bounds (splits first last) (entries L)) as Hb.
  apply (unmap_loop_spec realloc first last rest _ [] (entries L)); [done|]. split_and!; try done; try lia.
  - eapply Forall_impl; [|exact Hok]. intros e (bk & _ & Hsp & _). unfold nonempty. lia.
  - unfold lengthZ in *. lia.
Qed.

(** ** Protection *)

Lemma append_entries_spec rest l : forall h L,
  count L + lengthZ l <= capacity L -> incl (map backing l) (map backing (entries L)) ->
  store_ok h (map backing (entries L) ++ rest) ->
  lengthZ (map backing (entries L) ++ rest) + lengthZ l < 2 ^ 64 ->
  exists h', append_entries l h L = Some (h', set_entries (entries L ++ l) L) /\
    store_ok h' (map backing (entries L ++ l) ++ rest) /\ forall b, stat h' b = stat h b.
Proof.
  induction l as [|e l IH]; intros h L Hcap Hin Hok Hfit; simpl.
  { exists h. rewrite app_nil_r, set_entries_eq by done. done. }
  rewrite lengthZ_cons in Hcap, Hfit. pose proof (lengthZ_nonneg l).
  destruct (get_spec (backing e) h (map backing (entries L) ++ rest)) as (h1 & -> & Hok1 & Hst1);
    [done|apply in_or_app; left; apply Hin; by left|lia|]. simpl.
  rewrite append_entry_room by lia. simpl.
  assert (Hown : map backing (entries L ++ [e]) ++ rest ≡ₚ backing e :: map backing (entries L) ++ rest).
  { rewrite map_app, <- app_assoc. simpl. by rewrite <- Permutation_middle. }
  destruct (IH h1 (set_entries (entries L ++ [e]) L)) as (h2 & -> & Hok2 & Hst2).
  - unfold count in *. simpl. rewrite lengthZ_app. change (lengthZ [e]) with 1. lia.
  - intros b Hb. simpl. rewrite map_app. apply in_or_app. left. apply Hin. by right.
  - simpl. eapply store_ok_perm; [symmetry; exact Hown|done].
  - simpl. rewrite (lengthZ_perm _ _ Hown), lengthZ_cons. lia.
  - exists h2. simpl in Hok2 |- *. rewrite <- app_assoc in *. split_and!; [done|done|].
    intros b. by rewrite Hst2.
Qed.

(** The head of [protected] stays in place, its tail is appended. *)
Definition kept (first last prot : Z) (e : hl_logical_vma_entry) : hl_logical_vma_entry :=
  if misses first last e then e else fst (protect_pieces first last prot e).

Lemma protected_kept first last prot e : protected first last prot e = kept first last prot e :: added first last prot e.
Proof. unfold protected, kept, added. by destruct (misses _ _ _). Qed.

Lemma protected_backing first last prot e p : In p (protected first last prot e) -> backing p = backing e.
Proof.
  unfold protected. destruct (misses _ _ _); [by intros [<-|[]]|]. unfold protect_pieces.
  destruct (_ && _); [by intros [<-|[]]|].
  destruct (guest_first e <? _); simpl.
  - intros [<-|[<-|Hp]]; [done|done|]. destruct (_ <? guest_last e); [by destruct Hp as [<-|[]]|done].
  - intros [<-|Hp]; [done|]. destruct (_ <? guest_last e); [by destruct Hp as [<-|[]]|done].
Qed.

Lemma protect_loop_spec first last prot rest suf : forall pre extra h L,
  entries L = pre ++ suf ++ extra ->
  count L + lengthZ (concat (map (added first last prot) suf)) <= capacity L ->
  store_ok h (map backing (entries L) ++ rest) ->
  lengthZ (map backing (entries L) ++ rest) + lengthZ (concat (map (added first last prot) suf)) < 2 ^ 64 ->
  exists h', protect_loop (length suf) first last prot (lengthZ pre) h L =
      Some (h', set_entries (pre ++ map (kept first last prot) suf ++ extra ++
                             concat (map (added first last prot) suf)) L) /\
    store_ok h' (map backing (pre ++ map (kept first last prot) suf ++ extra ++
                              concat (map (added first last prot) suf)) ++ rest) /\
    forall b, stat h' b = stat h b.
Proof.
  induction suf as [|e suf IH]; intros pre extra h L HL Hcap Hok Hfit.
  { simpl in *. exists h. rewrite app_nil_r, set_entries_eq by done. by rewrite HL in Hok. }
  cbn [protect_loop length map concat] in *. change ((e :: suf) ++ extra) with (e :: suf ++ extra) in HL.
  rewrite HL, lookupZ_middle. simpl. rewrite lengthZ_app in Hcap, Hfit.
  pose proof (lengthZ_nonneg (concat (map (added first last prot) suf))) as Hn.
  assert (Hlen : forall e' : hl_logical_vma_entry, lengthZ pre + 1 = lengthZ (pre ++ [e']))
    by (intros; rewrite lengthZ_app; done).
  destruct (misses first last e) eqn:Hm.
  { assert (Ha : added first last prot e = []) by (unfold added; by rewrite Hm).
    assert (Hk : kept first last prot e = e) by (unfold kept; by rewrite Hm). rewrite Ha, Hk in *.
    rewrite (Hlen e). destruct (IH (pre ++ [e]) extra h L) as (h' & Hrun & Hok' & Hst); [| |done| |].
    - by rewrite HL, <- app_assoc.
    - change (lengthZ []) with 0 in Hcap. lia.
    - change (lengthZ []) with 0 in Hfit. lia.
    - exists h'. rewrite <- !app_assoc in *. done. }
  assert (Ha : added first last prot e = snd (protect_pieces first last prot e)) by (unfold added; by rewrite Hm).
  assert (Hk : kept first last prot e = fst (protect_pieces first last prot e)) by (unfold kept; by rewrite Hm).
  destruct (protect_pieces first last prot e) as [e' l] eqn:Hpp. simpl in Ha, Hk. rewrite Ha, Hk in *.
  rewrite insertZ_middle.
  assert (Hbk : forall p, In p (e' :: l) -> backing p = backing e).
  { intros p Hp. apply (protected_backing first last prot). rewrite protected_kept, Ha, Hk. done. }
  assert (Hown : map backing (pre ++ e' :: suf ++ extra) = map backing (entries L)).
  { rewrite HL, !map_app. simpl. by rewrite (Hbk e') by by left. }
  assert (Hc : count (set_entries (pre ++ e' :: suf ++ extra) L) = count L).
  { unfold count. rewrite HL. simpl. by rewrite !lengthZ_app, !lengthZ_cons. }
  destruct (append_entries_spec rest l h (set_entries (pre ++ e' :: suf ++ extra) L)) as (h1 & -> & Hok1 & Hst1).
  { rewrite Hc. simpl. lia. }
  { intros b Hb. apply in_map_iff in Hb as (p & <- & Hp). simpl. rewrite map_app. apply in_or_app. right. left.
    by rewrite (Hbk p) by (by right); rewrite (Hbk e') by by left. }
  { simpl. by rewrite Hown. }
  { simpl. rewrite Hown. lia. }
  simpl. rewrite (Hlen e'). simpl in Hok1.
  destruct (IH (pre ++ [e']) (extra ++ l) h1 (set_entries ((pre ++ e' :: suf ++ extra) ++ l) L)) as (h2 & Hrun & Hok2 & Hst2).
  - simpl. by rewrite <- !app_assoc; simpl; rewrite <- !app_assoc.
  - unfold count in *. simpl in *. rewrite lengthZ_app. lia.
  - done.
  - simpl. rewrite map_app, <- app_assoc, !lengthZ_app, Hown. rewrite lengthZ_app in Hfit.
    assert (lengthZ (map backing l) = lengthZ l) by (unfold lengthZ; by rewrite length_map). lia.
  - assert (Hl : (pre ++ [e']) ++ map (kept first last prot) suf ++ (extra ++ l) ++
        concat (map (added first last prot) suf) =
      pre ++ (e' :: map (kept first last prot) suf) ++ extra ++ l ++ concat (map (added first last prot) suf))
      by by rewrite <- !app_assoc.
    rewrite Hl in Hrun, Hok2. exists h2. split_and!; [exact Hrun|exact Hok2|]. intros b. by rewrite Hst2.
Qed.

(** The array after the loop holds what [reprotected] says. *)
Lemma reprotected_perm first last prot l :
  map (kept first last prot) l ++ concat (map (added first last prot) l) ≡ₚ reprotected first last prot l.
Proof.
  induction l as [|e l IH]; simpl; [done|]. unfold reprotected in *. simpl. rewrite protected_kept. simpl.
  f_equiv. rewrite <- IH, !app_assoc. f_equiv. apply Permutation_app_comm.
Qed.

(** ** Publication *)

Lemma view_of_entry_stat h h' e :
  stat h' (backing e) = stat h (backing e) -> view_of_entry h' e = view_of_entry h e.
Proof.
  unfold stat, view_of_entry. intros H.
  destruct (backings h !! backing e) as [bk|], (backings h' !! backing e) as [bk'|]; simpl in *; try done.
  injection H as H1 H2 _ _ _ _ _ _. by rewrite H1.
Qed.

Lemma mapM_view_ok h l : Forall (entry_ok h) l -> exists views, mapM (view_of_entry h) l = Some views.
Proof.
  intros Hok. destruct (mapM (view_of_entry h) l) as [views|] eqn:Hm; [by eexists|]. exfalso.
  apply mapM_None in Hm. apply Exists_exists in Hm as (e & He & Hv). rewrite Forall_forall in Hok.
  destruct (Hok e He) as (bk & Hbk & _). unfold view_of_entry, stat in *.
  by destruct (backings h !! backing e).
Qed.

Definition snapshot_of (h : vma_store) (l : list hl_logical_vma_entry) (s : hl_logical_vma_snapshot) : Prop :=
  (exists views, mapM (view_of_entry h) l = Some views /\ snap_views s = sort_views views) /\
  snap_backings s = map backing l.

Lemma fill_snapshot_spec room rest h l :
  lengthZ l <= room -> Forall (entry_ok h) l -> store_ok h (map backing l ++ rest) ->
  lengthZ (map backing l ++ rest) + lengthZ l < 2 ^ 64 ->
  exists s h', fill_snapshot room h l = Some (s, h') /\ snapshot_of h l s /\
    store_ok h' (map backing l ++ map backing l ++ rest) /\ forall b, stat h' b = stat h b.
Proof.
  intros Hroom Hok Hst Hfit. unfold fill_snapshot. destruct (Z.ltb_spec room (lengthZ l)); [lia|].
  destruct (mapM_view_ok h l Hok) as [views Hv]. rewrite Hv. simpl.
  destruct (get_all_spec (map backing l) h _ Hst) as (h' & -> & Hst' & Hs).
  - by apply incl_appl, incl_refl.
  - assert (lengthZ (map backing l) = lengthZ l) by (unfold lengthZ; by rewrite length_map). lia.
  - simpl. eexists _, h'. split; [done|]. split; [|done]. split; [by exists views|done].
Qed.
