(* ===== verification/VmaInvariant.v ===== *)
(** * The ledger invariant

    Well-formed ledgers, what they map an address to, and the operations that
    cut and append entries under the invariant: publication, installation of a
    mapping over a range, unmap and protect. *)

From stdpp Require Import gmap.
From Stdlib Require Import Sorting.Sorted.
From S2P Require Import Prelude VmaLedger VmaReaders VmaIntervals VmaOps.

(** ** The invariant *)

Definition owners_of (s : option hl_logical_vma_snapshot) : list Z :=
  match s with Some s => snap_backings s | None => [] end.
Definition snap_owners (L : hl_logical_vma_ledger) : list Z :=
  owners_of (current L) ++ concat (map snap_backings (retired L)).
(** Every reference the ledger holds. *)
Definition owners (L : hl_logical_vma_ledger) : list Z := map backing (entries L) ++ snap_owners L.

Definition extents_apart (b1 b2 : hl_logical_vma_backing) : Prop :=
  b_file_offset b1 + b_length b1 < b_file_offset b2 \/ b_file_offset b2 + b_length b2 < b_file_offset b1.

(** Two canonical backings of one file neither overlap nor touch. *)
Definition coherent (h : vma_store) (bs : list Z) : Prop :=
  forall b1 b2 k1 k2, In b1 bs -> In b2 bs -> stat h b1 = Some k1 -> stat h b2 = Some k2 ->
    b_borrowed k1 = false -> b_borrowed k2 = false ->
    b_device k1 = b_device k2 -> b_inode k1 = b_inode k2 -> b1 = b2 \/ extents_apart k1 k2.

(** [rest] are the references held by others: pins, plans, other ledgers. *)
Record ledger_ok (h : vma_store) (L : hl_logical_vma_ledger) (rest : list Z) : Prop := mk_ledger_ok {
  lo_entries : Forall (entry_ok h) (entries L);
  lo_apart : pairwise (entries L);
  lo_capacity : count L <= capacity L;
  lo_store : store_ok h (owners L ++ rest);
  lo_coherent : coherent h (map backing (entries L))
}.

(** The references an operation adds stay countable. *)
Definition refs_fit (L : hl_logical_vma_ledger) (rest : list Z) : Prop :=
  lengthZ (owners L ++ rest) + 2 * count L + 8 < 2 ^ 64.

(** A mutation adds two entries at most and one snapshot. *)
Definition room_used (L L' : hl_logical_vma_ledger) : Prop :=
  count L' <= count L + 2 /\ lengthZ (snap_owners L') <= lengthZ (snap_owners L) + count L'.

Definition published (h : vma_store) (L : hl_logical_vma_ledger) : Prop :=
  exists s, current L = Some s /\ snapshot_of h (entries L) s.

(** ** What the guest sees *)

Inductive location :=
| InFile (device inode offset : Z)
| AtHost (address : Z).

Definition locate (h : vma_store) (r : Z * Z * Z * Z) : option (location * Z * Z) :=
  let '(b, o, p, f) := r in
  bk ← stat h b;
  Some (if b_borrowed bk then AtHost (b_mapping bk + o)
        else InFile (b_device bk) (b_inode bk) (b_file_offset bk + o), p, f).

(** The object, protection and flags an address is mapped to. *)
Definition guest_cell (h : vma_store) (L : hl_logical_vma_ledger) (a : Z) : option (location * Z * Z) :=
  r ← mapped (entries L) a; locate h r.

(** Where it lies in the host. *)
Definition host_address (h : vma_store) (L : hl_logical_vma_ledger) (a : Z) : option Z :=
  '(b, o, p, f) ← mapped (entries L) a; bk ← stat h b; Some (b_mapping bk + o).

(** ** Facts *)

Lemma room_used_same L : room_used L L.
Proof. unfold room_used, count. pose proof (lengthZ_nonneg (entries L)). lia. Qed.

Lemma room_used_grown c L : room_used L (set_capacity c L).
Proof. exact (room_used_same L). Qed.

#[export] Hint Resolve room_used_same room_used_grown : core.

Lemma stat_stable h h' l : agree (map backing l) h h' -> forall e, In e l -> stat h' (backing e) = stat h (backing e).
Proof. intros Ha e He. by apply Ha, in_map. Qed.

Lemma entries_stable h h' l : agree (map backing l) h h' -> Forall (entry_ok h) l -> Forall (entry_ok h') l.
Proof.
  intros Ha Hok. apply List.Forall_forall. intros e He. rewrite List.Forall_forall in Hok.
  destruct (Hok e He) as (bk & Hbk & Hs). exists bk. by rewrite (stat_stable h h' l Ha e He).
Qed.

Lemma coherent_stable h h' bs : agree bs h h' -> coherent h bs -> coherent h' bs.
Proof.
  intros Ha Hc b1 b2 k1 k2 H1 H2 Hs1 Hs2. rewrite (Ha b1 H1) in Hs1. rewrite (Ha b2 H2) in Hs2. by eapply Hc.
Qed.

Lemma coherent_incl h bs bs' : incl bs' bs -> coherent h bs -> coherent h bs'.
Proof. intros Hi Hc b1 b2 k1 k2 H1 H2. apply Hc; by apply Hi. Qed.

Lemma mapped_backing l a b o p f : mapped l a = Some (b, o, p, f) -> In b (map backing l).
Proof.
  unfold mapped. destruct (find_entry a l) as [e|] eqn:Hf; [|done]. intros [= <- _ _ _].
  apply find_entry_Some in Hf as [Hin _]. by apply in_map.
Qed.

(** The view of a range of addresses under a change of the store and of the
    array up to order. *)
Lemma cell_stable h h' L L' a :
  entries L' ≡ₚ entries L -> pairwise (entries L) -> agree (map backing (entries L)) h h' ->
  guest_cell h' L' a = guest_cell h L a /\ host_address h' L' a = host_address h L a.
Proof.
  intros Hp Hpw Ha. unfold guest_cell, host_address.
  rewrite <- (mapped_perm _ _ a (symmetry Hp) Hpw). destruct (mapped (entries L) a) as [[[[b o] p] f]|] eqn:Hm; [|done].
  simpl. rewrite (Ha b) by by eapply mapped_backing. done.
Qed.

Lemma mapM_view_stable h h' l :
  agree (map backing l) h h' -> mapM (view_of_entry h') l = mapM (view_of_entry h) l.
Proof.
  intros Ha. induction l as [|e l IH]; simpl; [done|].
  rewrite (view_of_entry_stat h h' e) by (apply Ha; by left).
  rewrite IH by (intros b Hb; apply Ha; by right). done.
Qed.

Lemma published_stable h h' L : published h L -> agree (map backing (entries L)) h h' -> published h' L.
Proof.
  intros (s & Hc & (views & Hv & Hs) & Hb) Ha. exists s. split; [done|]. split; [|done]. exists views. split; [|done].
  rewrite <- Hv. by apply mapM_view_stable.
Qed.

(** ** Publication *)

Lemma snap_owners_publish L s :
  snap_owners (mk_ledger (entries L) (capacity L) (Some s) (retire (current L) (retired L)) (generation L))
    = snap_backings s ++ snap_owners L.
Proof. unfold snap_owners. simpl. by destruct (current L). Qed.

Lemma publish_locked_spec room rest h L :
  count L <= room -> Forall (entry_ok h) (entries L) -> store_ok h (owners L ++ rest) ->
  lengthZ (owners L ++ rest) + count L < 2 ^ 64 ->
  exists h' L', publish_locked room h L = Some (h', L') /\ entries L' = entries L /\ capacity L' = capacity L /\
    generation L' = u64 (u64 (generation L + 1) + 1) /\
    snap_owners L' = map backing (entries L) ++ snap_owners L /\
    published h' L' /\ store_ok h' (owners L' ++ rest) /\ forall b, stat h' b = stat h b.
Proof.
  intros Hroom Hok Hst Hfit. unfold publish_locked. unfold owners in *. rewrite <- app_assoc in Hst, Hfit.
  destruct (fill_snapshot_spec room _ h (entries L) Hroom Hok Hst Hfit) as (s & h' & Hfill & Hsnap & Hst' & Hs).
  rewrite Hfill. simpl. eexists h', _. split_and!; [done|done|done|done| | | |done]; simpl.
  - destruct Hsnap as [_ Hb]. unfold snap_owners. simpl. rewrite Hb. by destruct (current L).
  - eexists. split; [done|]. destruct Hsnap as [(views & Hv & Hsv) Hb]. split; [|done]. exists views. split; [|done].
    rewrite <- Hv. apply mapM_view_stable. intros b _. apply Hs.
  - destruct Hsnap as [_ Hb]. unfold snap_owners in *. simpl.
    eapply store_ok_perm; [|exact Hst']. rewrite Hb. destruct (current L); simpl; by rewrite <- !app_assoc.
Qed.

(** Publication of a new array re-establishes the invariant. *)
Lemma publish_ok room rest h l L :
  Forall (entry_ok h) l -> pairwise l -> lengthZ l <= capacity L -> coherent h (map backing l) ->
  store_ok h (map backing l ++ snap_owners L ++ rest) -> lengthZ l <= room ->
  lengthZ (map backing l ++ snap_owners L ++ rest) + lengthZ l < 2 ^ 64 ->
  exists h' L', publish_locked room h (set_entries l L) = Some (h', L') /\ entries L' = l /\
    snap_owners L' = map backing l ++ snap_owners L /\ ledger_ok h' L' rest /\ published h' L' /\
    forall b, stat h' b = stat h b.
Proof.
  intros Hok Hp Hcap Hcoh Hst Hroom Hfit.
  destruct (publish_locked_spec room rest h (set_entries l L)) as (h' & L' & Hpub & HL & Hc & _ & Hso & Hpd & Hst' & Hs).
  - done.
  - done.
  - unfold owners. rewrite <- app_assoc. exact Hst.
  - unfold owners. rewrite <- app_assoc. exact Hfit.
  - exists h', L'. simpl in HL, Hc. split_and!; try done.
    assert (Ha : agree (map backing l) h h') by (intros b _; apply Hs).
    constructor; unfold count; rewrite ?HL, ?Hc; try done.
    + by apply (entries_stable h).
    + by apply (coherent_stable h).
Qed.

Definition in_range (first last a : Z) : bool := (first <=? a) && (a <? last).

Lemma in_range_spec first last a : in_range first last a = true <-> first <= a < last.
Proof. unfold in_range. rewrite andb_true_iff, Z.leb_le, Z.ltb_lt. done. Qed.

Lemma in_range_false first last a : in_range first last a = false <-> ~ (first <= a < last).
Proof. rewrite <- in_range_spec. by destruct (in_range first last a). Qed.

Lemma mapped_cut h first last l a :
  Forall (entry_ok h) l -> pairwise l -> first < last ->
  mapped (cut first last l) a = if in_range first last a then None else mapped l a.
Proof.
  intros Hok Hp Hfl. destruct (cut_ok h first last l Hok Hp Hfl) as [_ Hpc].
  destruct (in_range first last a) eqn:Hr.
  - apply in_range_spec in Hr. destruct (mapped (cut first last l) a) as [r|] eqn:Hm; [|done].
    apply mapped_maps in Hm; [|done]. apply (cut_maps h) in Hm as [_ Hn]; done.
  - apply in_range_false in Hr. apply mapped_ext; [done|done|]. intros r. rewrite (cut_maps h) by done. tauto.
Qed.

Lemma mapped_reprotected h first last prot l a :
  Forall (entry_ok h) l -> pairwise l -> first < last ->
  mapped (reprotected first last prot l) a = option_map (reprotect first last prot a) (mapped l a).
Proof.
  intros Hok Hp Hfl. destruct (reprotected_ok h first last prot l Hok Hp Hfl) as [_ Hpc].
  destruct (mapped l a) as [r|] eqn:Hm; simpl.
  - apply mapped_maps; [done|]. apply (reprotected_maps h); [done|done|]. exists r. split; [|done].
    by apply mapped_maps.
  - destruct (mapped (reprotected first last prot l) a) as [r|] eqn:Hn; [|done].
    apply mapped_maps in Hn; [|done]. apply (reprotected_maps h) in Hn as (r0 & Hr0 & _); [|done|done].
    apply mapped_maps in Hr0; [|done]. congruence.
Qed.

(** The room [grow] made keeps the rest of the ledger. *)
Lemma ledger_ok_grown h L rest c : ledger_ok h L rest -> capacity L <= c -> ledger_ok h (set_capacity c L) rest.
Proof. intros [] Hc. constructor; try done. unfold count in *. simpl. lia. Qed.

Lemma refs_fit_entries L rest : refs_fit L rest ->
  lengthZ (map backing (entries L) ++ snap_owners L ++ rest) + 2 * count L + 8 < 2 ^ 64.
Proof. unfold refs_fit, owners. by rewrite <- app_assoc. Qed.

Lemma entries_nonempty h l : Forall (entry_ok h) l -> Forall (fun e => guest_first e < guest_last e) l.
Proof. intros Hok. eapply Forall_impl; [|exact Hok]. intros e (bk & _ & Hs & _). lia. Qed.

Lemma lengthZ_map {A B} (f : A -> B) l : lengthZ (map f l) = lengthZ l.
Proof. unfold lengthZ. by rewrite length_map. Qed.

(** ** Unmap *)

Lemma unmap_spec realloc malloc guest length h L rest :
  ledger_ok h L rest -> refs_fit L rest -> 0 <= guest -> 0 <= length ->
  exists errno h' L', hl_logical_vma_unmap realloc malloc guest length h L = Some (errno, (h', L')) /\
    ledger_ok h' L' rest /\ room_used L L' /\
    if errno =? 0
    then guest + length <= UINT64_MAX /\ (0 < length -> published h' L') /\
         (forall a, mapped (entries L') a = if in_range guest (guest + length) a then None else mapped (entries L) a) /\
         agree (map backing (entries L') ++ snap_owners L ++ rest) h h'
    else h' = h /\ entries L' = entries L /\ current L' = current L.
Proof.
  intros Hok Hfit Hg Hn. unfold hl_logical_vma_unmap. pose proof (lo_capacity _ _ _ Hok) as Hcap.
  pose proof (lengthZ_nonneg (entries L)) as Hl0. fold (count L) in Hl0.
  destruct (Z.ltb_spec (UINT64_MAX - length) guest); [by exists VMA_EINVAL, h, L|].
  destruct (Z.eqb_spec length 0) as [->|Hpos].
  { exists 0, h, L. simpl. split_and!; try done; [lia|]. intros a.
    destruct (in_range guest (guest + 0) a) eqn:Hr; [|done]. apply in_range_spec in Hr. lia. }
  pose proof (grow_spec realloc (count L + 1) L ltac:(lia)) as Hgrow.
  destruct (grow realloc (count L + 1) L) as [errno|L1]; [subst errno; by exists VMA_ENOMEM, h, L|].
  destruct Hgrow as (c & -> & Hc1 & Hc2). apply (ledger_ok_grown _ _ _ c) in Hok; [|done].
  change (count (set_capacity c L)) with (count L).
  pose proof (snapshot_allocate_spec malloc (count L + 1)) as Hsa.
  destruct (snapshot_allocate malloc (count L + 1)) as [errno|room]; [subst errno; by exists VMA_ENOMEM, h, (set_capacity c L)|].
  destruct Hsa as [-> _]. destruct Hok as [Hent Hpw _ Hst Hcoh]. apply refs_fit_entries in Hfit.
  unfold owners in Hst. rewrite <- app_assoc in Hst.
  assert (Hfl : guest < guest + length) by lia.
  destruct (unmap_locked_spec realloc guest (guest + length) (snap_owners L ++ rest) h (set_capacity c L))
    as (h1 & l' & Hrun & Hl & Hst1 & Hag); try done.
  { pose proof (splits_once guest (guest + length) (entries L) Hfl Hpw). unfold count in *. simpl in *. lia. }
  { simpl in *. lia. }
  rewrite Hrun. simpl in *. destruct (cut_ok h guest (guest + length) (entries L) Hent Hpw Hfl) as [Hcok Hcpw].
  assert (Hll : lengthZ l' <= count L + 1).
  { rewrite (lengthZ_perm _ _ Hl). pose proof (splits_once guest (guest + length) (entries L) Hfl Hpw).
    pose proof (cut_length guest (guest + length) (entries L) (entries_nonempty _ _ Hent) Hfl). unfold count. lia. }
  assert (Hagl : agree (map backing l') h h1) by (eapply agree_incl; [|exact Hag]; by apply incl_appl, incl_refl).
  destruct (publish_ok (count L + 1) rest h1 l' (set_capacity c L)) as (h2 & L2 & Hpub & HL2 & Hso2 & Hok2 & Hpd & Hs2).
  - apply (entries_stable h); [done|]. by rewrite Hl.
  - eapply pairwise_perm; [symmetry; exact Hl|done].
  - simpl. lia.
  - apply (coherent_stable h); [done|]. eapply coherent_incl; [|exact Hcoh]. intros b Hb.
    eapply Permutation_in in Hb; [|by apply Permutation_map, Hl]. by apply cut_backings in Hb.
  - done.
  - done.
  - change (snap_owners (set_capacity c L)) with (snap_owners L) in *.
    rewrite lengthZ_app, lengthZ_map in *. unfold count in *. lia.
  - rewrite Hpub. simpl.
    assert (Hused : room_used L L2).
    { unfold room_used, count. rewrite HL2, Hso2, lengthZ_app, lengthZ_map. unfold count in Hll.
      change (snap_owners (set_capacity c L)) with (snap_owners L). lia. }
    exists 0, h2, L2. simpl. split_and!; [done|done|apply Hused|lia|done| |].
    + intros a. rewrite HL2, (mapped_perm _ _ a Hl); [by apply (mapped_cut h)|]. eapply pairwise_perm; [symmetry; exact Hl|done].
    + rewrite HL2. intros b Hb. rewrite Hs2. by apply Hag.
Qed.

(** ** Protect *)

Lemma protected_backings first last prot l : incl (map backing (reprotected first last prot l)) (map backing l).
Proof.
  intros b Hb. apply in_map_iff in Hb as (p & <- & Hp). apply in_concat in Hp as (k & Hk & Hp).
  apply in_map_iff in Hk as (e & <- & He). rewrite (protected_backing _ _ _ _ _ Hp). by apply in_map.
Qed.

Lemma protect_spec realloc malloc guest length prot h L rest :
  ledger_ok h L rest -> refs_fit L rest -> 0 <= guest -> 0 <= length ->
  exists errno h' L', hl_logical_vma_protect realloc malloc guest length prot h L = Some (errno, (h', L')) /\
    ledger_ok h' L' rest /\ room_used L L' /\
    if errno =? 0
    then 0 < length /\ guest + length <= UINT64_MAX /\ published h' L' /\
         (forall a, mapped (entries L') a = option_map (reprotect guest (guest + length) prot a) (mapped (entries L) a)) /\
         (forall b, stat h' b = stat h b)
    else h' = h /\ entries L' = entries L /\ current L' = current L.
Proof.
  intros Hok Hfit Hg Hn. unfold hl_logical_vma_protect. pose proof (lo_capacity _ _ _ Hok) as Hcap.
  pose proof (lengthZ_nonneg (entries L)) as Hl0. fold (count L) in Hl0.
  destruct (Z.eqb_spec length 0); [by exists VMA_EINVAL, h, L|].
  destruct (Z.ltb_spec (UINT64_MAX - length) guest); [by exists VMA_EINVAL, h, L|]. cbn [orb].
  pose proof (grow_spec realloc (count L + 2) L ltac:(lia)) as Hgrow.
  destruct (grow realloc (count L + 2) L) as [errno|L1]; [subst errno; by exists VMA_ENOMEM, h, L|].
  destruct Hgrow as (c & -> & Hc1 & Hc2). apply (ledger_ok_grown _ _ _ c) in Hok; [|done].
  change (count (set_capacity c L)) with (count L).
  pose proof (snapshot_allocate_spec malloc (count L + 2)) as Hsa.
  destruct (snapshot_allocate malloc (count L + 2)) as [errno|room]; [subst errno; by exists VMA_ENOMEM, h, (set_capacity c L)|].
  destruct Hsa as [-> _]. destruct Hok as [Hent Hpw _ Hst Hcoh]. apply refs_fit_entries in Hfit.
  unfold owners in Hst. rewrite <- app_assoc in Hst. simpl in Hent, Hpw, Hst, Hcoh.
  assert (Hfl : guest < guest + length) by lia.
  pose proof (added_total guest (guest + length) prot (entries L) (entries_nonempty _ _ Hent) Hfl Hpw) as Hadd.
  destruct (protect_loop_spec guest (guest + length) prot (snap_owners L ++ rest) (entries L) [] [] h (set_capacity c L))
    as (h1 & Hrun & Hst1 & Hs1); [by rewrite app_nil_r|unfold count in *; simpl in *; lia|done|simpl; lia|].
  change (lengthZ []) with 0 in Hrun. simpl in Hrun, Hst1. change (entries (set_capacity c L)) with (entries L).
  rewrite Hrun. simpl. set (l' := map _ (entries L) ++ concat _) in *.
  assert (Hl : l' ≡ₚ reprotected guest (guest + length) prot (entries L)) by apply reprotected_perm.
  destruct (reprotected_ok h guest (guest + length) prot (entries L) Hent Hpw Hfl) as [Hcok Hcpw].
  assert (Hll : lengthZ l' <= count L + 2) by (unfold l'; rewrite lengthZ_app, lengthZ_map; unfold count; lia).
  destruct (publish_ok (count L + 2) rest h1 l' (set_capacity c L)) as (h2 & L2 & Hpub & HL2 & Hso2 & Hok2 & Hpd & Hs2).
  - apply (entries_stable h); [intros b _; apply Hs1|]. by rewrite Hl.
  - eapply pairwise_perm; [symmetry; exact Hl|done].
  - simpl. lia.
  - apply (coherent_stable h); [intros b _; apply Hs1|]. eapply coherent_incl; [|exact Hcoh]. intros b Hb.
    eapply Permutation_in in Hb; [|by apply Permutation_map, Hl]. by apply protected_backings in Hb.
  - done.
  - done.
  - change (snap_owners (set_capacity c L)) with (snap_owners L) in *.
    rewrite lengthZ_app, lengthZ_map in *. unfold count in *. lia.
  - rewrite Hpub. simpl.
    assert (Hused : room_used L L2).
    { unfold room_used, count. rewrite HL2, Hso2, lengthZ_app, lengthZ_map. unfold count in Hll.
      change (snap_owners (set_capacity c L)) with (snap_owners L). lia. }
    exists 0, h2, L2. simpl. split_and!; [done|done|apply Hused|lia|lia|done| |].
    + intros a. rewrite HL2, (mapped_perm _ _ a Hl); [by apply (mapped_reprotected h)|].
      eapply pairwise_perm; [symmetry; exact Hl|done].
    + intros b. by rewrite Hs2, Hs1.
Qed.

(** ** Installing a mapping over a range *)

Lemma mapped_install h guest last e l a :
  Forall (entry_ok h) l -> pairwise l -> guest < last -> guest_first e = guest -> guest_last e = last ->
  mapped (cut guest last l ++ [e]) a = if in_range guest last a then Some (meaning e a) else mapped l a.
Proof.
  intros Hok Hp Hfl He1 He2. pose proof (mapped_cut h guest last l a Hok Hp Hfl) as Hc.
  pose proof (cut_apart h guest last l e Hok Hfl He1 He2) as Hap.
  destruct (cut_ok h guest last l Hok Hp Hfl) as [_ Hpc].
  assert (Hpe : pairwise (cut guest last l ++ [e])).
  { apply pairwise_app. split_and!; [done|by split|]. intros x y Hx [<-|[]]. apply apart_sym.
    rewrite List.Forall_forall in Hap. by apply Hap. }
  destruct (in_range guest last a) eqn:Hr.
  - apply mapped_maps; [done|]. exists e. split_and!; [apply in_or_app; right; by left| |done].
    apply covers_spec. apply in_range_spec in Hr. lia.
  - rewrite <- Hc. apply mapped_ext; [done|done|]. intros r. unfold maps. split.
    + intros (x & Hx & Hcx & Hm). apply in_app_iff in Hx as [Hx|[<-|[]]]; [by exists x|].
      apply covers_spec in Hcx. apply in_range_false in Hr. lia.
    + intros (x & Hx & H). exists x. split; [apply in_or_app; by left|done].
Qed.

(** [new] is held by a construction reference; what it shows apart, the
    installed entry makes the array and the backings coherent. *)
Lemma install_spec realloc room guest last offset prot fl new h L rest bk :
  Forall (entry_ok h) (entries L) -> pairwise (entries L) ->
  count L + countZ (splits guest last) (entries L) + 1 <= capacity L ->
  count L + countZ (splits guest last) (entries L) + 1 <= room ->
  store_ok h (new :: map backing (entries L) ++ snap_owners L ++ rest) ->
  lengthZ (map backing (entries L) ++ snap_owners L ++ rest) + count L + 6 < 2 ^ 64 ->
  coherent h (new :: map backing (entries L)) ->
  0 <= guest < last -> stat h new = Some bk -> span_ok (b_length bk) (mk_entry guest last offset prot fl new) ->
  exists h' L', install_mapping realloc room guest last offset prot fl new h L = Some (0, (h', L')) /\
    ledger_ok h' L' rest /\ room_used L L' /\ published h' L' /\
    (forall a, mapped (entries L') a =
       if in_range guest last a then Some (new, offset + (a - guest), prot, fl) else mapped (entries L) a) /\
    agree (map backing (entries L') ++ snap_owners L ++ rest) h h'.
Proof.
  intros Hent Hpw Hcap Hroom Hst Hfit Hcoh Hgl Hbk Hspan. unfold install_mapping.
  assert (Hfl : guest < last) by lia. set (e := mk_entry guest last offset prot fl new).
  destruct (unmap_locked_spec realloc guest last (new :: snap_owners L ++ rest) h L) as (h1 & l' & Hrun & Hl & Hst1 & Hag1);
    [done|done|done|lia| | |].
  { eapply store_ok_perm; [|exact Hst]. apply Permutation_middle. }
  { rewrite lengthZ_app, lengthZ_cons. rewrite lengthZ_app in Hfit. pose proof (lengthZ_nonneg (entries L)). unfold count in *. lia. }
  rewrite Hrun. simpl. destruct (cut_ok h guest last (entries L) Hent Hpw Hfl) as [Hcok Hcpw].
  pose proof (splits_once guest last (entries L) Hfl Hpw) as Hsplit.
  assert (Hll : lengthZ l' <= count L + countZ (splits guest last) (entries L)).
  { rewrite (lengthZ_perm _ _ Hl). pose proof (cut_length guest last (entries L) (entries_nonempty _ _ Hent) Hfl).
    unfold count. lia. }
  assert (Hfit1 : lengthZ (map backing l' ++ new :: snap_owners L ++ rest) + count L + 3 < 2 ^ 64).
  { rewrite lengthZ_app, lengthZ_map in Hfit |- *. rewrite lengthZ_cons. unfold count in *. lia. }
  destruct (get_spec new h1 _ Hst1) as (h2 & Hget & Hst2 & Hs2);
    [apply in_or_app; right; by left|pose proof (lengthZ_nonneg (entries L)); unfold count in *; lia|].
  rewrite Hget. simpl. rewrite append_entry_room by (unfold count in *; simpl; lia). simpl.
  rewrite set_entries_twice.
  assert (Hag2 : agree (new :: map backing l') h h2).
  { intros b Hb. rewrite Hs2. apply Hag1. apply in_or_app. destruct Hb as [<-|Hb]; [right; by left|by left]. }
  assert (Hincl : incl (map backing (l' ++ [e])) (new :: map backing (entries L))).
  { intros b Hb. rewrite map_app in Hb. apply in_app_iff in Hb as [Hb|[<-|[]]]; [right|by left].
    eapply Permutation_in in Hb; [|by apply Permutation_map, Hl]. by apply cut_backings in Hb. }
  assert (Hag3 : agree (map backing (l' ++ [e])) h h2).
  { eapply agree_incl; [|exact Hag2]. intros b Hb. rewrite map_app in Hb.
    apply in_app_iff in Hb as [Hb|[<-|[]]]; [by right|by left]. }
  assert (Hle : l' ++ [e] ≡ₚ cut guest last (entries L) ++ [e]) by by rewrite Hl.
  assert (Hpe : pairwise (l' ++ [e])).
  { eapply pairwise_perm; [symmetry; exact Hle|]. apply pairwise_app. split_and!; [done|by split|].
    intros x y Hx [<-|[]]. apply apart_sym.
    pose proof (cut_apart h guest last (entries L) e Hent Hfl eq_refl eq_refl) as Hca.
    rewrite List.Forall_forall in Hca. by apply Hca. }
  assert (Hst3 : store_ok h2 (map backing (l' ++ [e]) ++ snap_owners L ++ (new :: rest))).
  { eapply store_ok_perm; [|exact Hst2]. rewrite map_app, <- !app_assoc. simpl.
    rewrite <- !Permutation_middle. do 2 constructor. done. }
  destruct (publish_ok room (new :: rest) h2 (l' ++ [e]) L) as (h3 & L3 & Hpub & HL3 & Hso3 & Hok3 & Hpd & Hs3).
  - apply (entries_stable h); [done|]. rewrite Hle. apply Forall_app. split; [done|]. constructor; [|done].
    by exists bk.
  - done.
  - rewrite lengthZ_app. change (lengthZ [e]) with 1. lia.
  - apply (coherent_stable h); [done|]. by eapply coherent_incl.
  - exact Hst3.
  - rewrite lengthZ_app. change (lengthZ [e]) with 1. lia.
  - rewrite map_app, <- app_assoc. simpl. rewrite lengthZ_app, !lengthZ_cons, lengthZ_app, !lengthZ_cons in *.
    rewrite !lengthZ_app, lengthZ_map in *. change (lengthZ [e]) with 1. unfold count in *. lia.
  - rewrite Hpub. simpl. pose proof Hok3 as [Hent3 Hpw3 Hcap3 Hst4 Hcoh3].
    destruct (put_spec new h3 (owners L3 ++ rest)) as (h4 & Hput & Hst5 & Hag4).
    { eapply store_ok_perm; [|exact Hst4]. symmetry. apply Permutation_middle. }
    rewrite Hput. simpl. exists h4, L3.
    assert (Hag5 : agree (map backing (entries L3)) h3 h4).
    { eapply agree_incl; [|exact Hag4]. unfold owners. rewrite <- app_assoc. by apply incl_appl, incl_refl. }
    split_and!; [done| | | | |].
    + constructor; [by apply (entries_stable h3)|done|done|done|by apply (coherent_stable h3)].
    + unfold room_used, count. rewrite HL3, Hso3, (lengthZ_app (map _ _)), lengthZ_map, lengthZ_app. change (lengthZ [e]) with 1.
      unfold count in *. lia.
    + by apply (published_stable h3).
    + intros a. rewrite HL3, (mapped_perm _ _ a Hle Hpe). apply (mapped_install h); done.
    + rewrite HL3 in *. intros b Hb. rewrite Hag4, Hs3.
      * apply in_app_iff in Hb as [Hb|Hb]; [by apply Hag3|]. rewrite Hs2. apply Hag1. apply in_or_app. right. by right.
      * unfold owners. rewrite HL3, Hso3, <- !app_assoc. rewrite !in_app_iff in *. tauto.
Qed.

(** ** The published snapshot

    The views of a snapshot are sorted and disjoint, so the lock-free binary
    search of [hl_logical_vma_resolve] and its kin finds exactly the entry
    that covers an address, or the gap around it. *)

(** ** Sorting *)

Definition before (v w : hl_logical_vma_view) : Prop := v_last v <= v_first w.
Definition view_ok (v : hl_logical_vma_view) : Prop := v_first v < v_last v.

Fixpoint views_apart (l : list hl_logical_vma_view) : Prop :=
  match l with
  | [] => True
  | v :: l' => Forall (fun w => before v w \/ before w v) l' /\ views_apart l'
  end.

Lemma insert_view_perm v l : insert_view v l ≡ₚ v :: l.
Proof.
  induction l as [|w l IH]; simpl; [done|]. destruct (_ <=? _); [done|]. by rewrite IH, perm_swap.
Qed.

Lemma sort_views_perm l : sort_views l ≡ₚ l.
Proof. induction l as [|v l IH]; simpl; [done|]. by rewrite insert_view_perm, IH. Qed.

Lemma insert_view_sorted v l :
  StronglySorted before l -> view_ok v -> Forall view_ok l -> Forall (fun w => before v w \/ before w v) l ->
  StronglySorted before (insert_view v l).
Proof.
  induction l as [|w l IH]; intros Hs Hv Hok Hap; simpl; [by repeat constructor|].
  inversion Hs as [|? ? Hsl Hw]; inversion Hok as [|? ? Hwok Hlok]; inversion Hap as [|? ? Hvw Hvl]; subst.
  unfold before, view_ok in *. destruct (Z.leb_spec (v_first v) (v_first w)).
  - constructor; [done|]. constructor; [lia|]. eapply Forall_impl; [|exact Hw]. simpl. intros x Hx. lia.
  - constructor; [by apply IH|]. rewrite insert_view_perm. constructor; [lia|done].
Qed.

Lemma sort_views_sorted l : Forall view_ok l -> views_apart l -> StronglySorted before (sort_views l).
Proof.
  induction l as [|v l IH]; intros Hok Hap; simpl; [constructor|]. inversion Hok; subst. destruct Hap.
  apply insert_view_sorted; [by apply IH|done|by rewrite sort_views_perm|by rewrite sort_views_perm].
Qed.

(** ** The binary search *)

Lemma sorted_lookup l i j v w :
  StronglySorted before l -> Forall view_ok l -> i < j -> lookupZ l i = Some v -> lookupZ l j = Some w -> before v w.
Proof.
  intros Hs Hok. revert i j. induction Hs as [|x l Hs IH Hx]; intros i j Hij Hv Hw.
  { apply lookupZ_Some_range in Hv. unfold lengthZ in Hv. simpl in Hv. lia. }
  inversion Hok; subst. pose proof (lookupZ_Some_range _ _ _ Hv). pose proof (lookupZ_Some_range _ _ _ Hw).
  rewrite lookupZ_cons_succ in Hw by lia. destruct (Z.eq_dec i 0) as [->|].
  - injection Hv as <-. rewrite List.Forall_forall in Hx. apply Hx. by eapply lookupZ_elem.
  - rewrite lookupZ_cons_succ in Hv by lia. by apply (IH ltac:(done) (i - 1) (j - 1)); [lia| |].
Qed.

(** What the search answers for a sorted array. *)
Definition search_result (l : list hl_logical_vma_view) (guest : Z) (r : Z + hl_logical_vma_view) : Prop :=
  match r with
  | inr v => In v l /\ v_first v <= guest < v_last v
  | inl low => 0 <= low <= lengthZ l /\
      (forall i v, lookupZ l i = Some v -> i < low -> v_last v <= guest) /\
      (forall i v, lookupZ l i = Some v -> low <= i -> guest < v_first v)
  end.

Lemma search_views_spec l guest fuel : forall low high,
  StronglySorted before l -> Forall view_ok l -> 0 <= low <= high -> high <= lengthZ l ->
  high - low < Z.of_nat fuel ->
  (forall i v, lookupZ l i = Some v -> i < low -> v_last v <= guest) ->
  (forall i v, lookupZ l i = Some v -> high <= i -> guest < v_first v) ->
  exists r, search_views fuel l guest low high = Some r /\ search_result l guest r.
Proof.
  induction fuel as [|fuel IH]; intros low high Hs Hok Hlh Hh Hf Hlo Hhi; [lia|]. cbn [search_views].
  destruct (Z.ltb_spec low high) as [Hlt|Hge].
  2: { exists (inl low). split; [done|]. split; [lia|]. split; [done|]. intros i v Hi Hle. apply (Hhi i); [done|lia]. }
  set (mid := low + (high - low) / 2).
  assert (Hmid : low <= mid < high).
  { unfold mid. pose proof (Z.div_pos (high - low) 2 ltac:(lia) ltac:(lia)).
    pose proof (Z.div_lt_upper_bound (high - low) 2 (high - low) ltac:(lia) ltac:(lia)). lia. }
  destruct (lookupZ_is_Some l mid ltac:(lia)) as [c Hc]. rewrite Hc. cbn [mbind option_bind].
  destruct (Z.ltb_spec guest (v_first c)).
  - apply IH; try done; try lia. intros i v Hi Hle. destruct (Z.eq_dec i mid) as [->|]; [rewrite Hc in Hi; by injection Hi as <-|].
    assert (Hb : before c v) by (by apply (sorted_lookup l mid i); [| |lia| |]).
    assert (view_ok c) by (rewrite List.Forall_forall in Hok; apply Hok; by eapply lookupZ_elem).
    unfold before, view_ok in *. lia.
  - destruct (Z.leb_spec (v_last c) guest).
    + apply IH; try done; try lia. intros i v Hi Hle. destruct (Z.eq_dec i mid) as [->|]; [rewrite Hc in Hi; by injection Hi as <-|].
      assert (Hb : before v c) by (by apply (sorted_lookup l i mid); [| |lia| |]).
      assert (view_ok c) by (rewrite List.Forall_forall in Hok; apply Hok; by eapply lookupZ_elem).
      unfold before, view_ok in *. lia.
    + exists (inr c). split; [done|]. split; [by eapply lookupZ_elem|lia].
Qed.

Lemma search_spec l guest :
  StronglySorted before l -> Forall view_ok l -> exists r, search l guest = Some r /\ search_result l guest r.
Proof.
  intros Hs Hok. unfold search. pose proof (lengthZ_nonneg l). apply search_views_spec; try done; try lia.
  - unfold lengthZ. lia.
  - intros i v Hi Hlt. apply lookupZ_Some_range in Hi. lia.
  - intros i v Hi Hge. apply lookupZ_Some_range in Hi. lia.
Qed.

(** ** Views and entries *)

(** The view an entry is published as. *)
Record view_for (h : vma_store) (e : hl_logical_vma_entry) (v : hl_logical_vma_view) : Prop := mk_view_for {
  vf_first : v_first v = guest_first e;
  vf_last : v_last v = guest_last e;
  vf_protection : v_protection v = protection e;
  vf_flags : v_flags v = flags e;
  vf_backing : v_backing v = backing e;
  vf_offset : v_backing_offset v = backing_offset e;
  vf_host : forall bk a, stat h (backing e) = Some bk ->
    u64 (a + v_delta v) = u64 (b_mapping bk + position e a)
}.

Lemma view_of_entry_for h e v : view_of_entry h e = Some v -> view_for h e v.
Proof.
  unfold view_of_entry, stat. destruct (backings h !! backing e) as [k|] eqn:Hk; [|done]. cbn [mbind option_bind].
  intros [= <-]. constructor; simpl; try done. intros bk a Hbk. unfold stat in Hbk. rewrite Hk in Hbk. simpl in Hbk. injection Hbk as <-.
  simpl. unfold position, u64. rewrite Zplus_mod_idemp_r.
  replace (a + ((b_mapping k + backing_offset e) mod 2 ^ 64 - guest_first e))
    with ((b_mapping k + backing_offset e) mod 2 ^ 64 + (a - guest_first e)) by lia.
  rewrite Zplus_mod_idemp_l. f_equal. lia.
Qed.

Lemma published_views h L :
  published h L -> Forall (entry_ok h) (entries L) -> pairwise (entries L) ->
  exists s views, current L = Some s /\ snap_views s = sort_views views /\
    Forall2 (view_for h) (entries L) views /\ StronglySorted before (snap_views s) /\ Forall view_ok (snap_views s).
Proof.
  intros (s & Hc & (views & Hv & Hsort) & _) Hok Hp. exists s, views. split; [done|]. split; [done|].
  apply mapM_Some in Hv.
  assert (Hf : Forall2 (view_for h) (entries L) views)
    by (eapply Forall2_impl; [|exact Hv]; intros e v He; by apply view_of_entry_for).
  split; [done|]. rewrite Hsort. clear Hv Hsort Hc.
  assert (Hvok : Forall view_ok views).
  { induction Hf as [|e v l k [] _ IH]; [constructor|]. inversion Hok as [|? ? (bk & _ & Hs) Hok']; subst.
    destruct Hp. constructor; [unfold view_ok; destruct Hs; lia|by apply IH]. }
  split; [|by rewrite sort_views_perm]. apply sort_views_sorted; [done|].
  clear Hok Hvok. induction Hf as [|e v l k [] Hf IH]; simpl; [done|]. destruct Hp as [He Hl]. split; [|by apply IH].
  clear IH Hl. induction Hf as [|e' v' l k [] _ IH]; [constructor|]. inversion He as [|? ? Ha He']; subst.
  constructor; [|by apply IH]. unfold before, apart in *. lia.
Qed.

(** Every view of the snapshot is an entry's, and every entry has one. *)
Lemma view_entry h l views v :
  Forall2 (view_for h) l views -> In v (sort_views views) -> exists e, In e l /\ view_for h e v.
Proof.
  intros Hf Hin. apply (Permutation_in v (sort_views_perm views)) in Hin.
  induction Hf as [|e w l k Hv _ IH]; [done|]. destruct Hin as [<-|Hin]; [exists e; split; [by left|done]|].
  destruct (IH Hin) as (e' & He' & H). exists e'. split; [by right|done].
Qed.

Lemma entry_view h l views e :
  Forall2 (view_for h) l views -> In e l -> exists v, In v (sort_views views) /\ view_for h e v.
Proof.
  intros Hf Hin. enough (exists v, In v views /\ view_for h e v) as (v & Hv & H).
  { exists v. split; [|done]. by apply (Permutation_in v (symmetry (sort_views_perm views))). }
  induction Hf as [|e' w l k Hv _ IH]; [done|]. destruct Hin as [<-|Hin]; [exists w; split; [by left|done]|].
  destruct (IH Hin) as (v & Hin' & H). exists v. split; [by right|done].
Qed.

(** The search finds exactly the covering entry. *)
Lemma search_entry h L guest :
  published h L -> Forall (entry_ok h) (entries L) -> pairwise (entries L) ->
  exists r, search (snapshot_views (current L)) guest = Some r /\
    search_result (snapshot_views (current L)) guest r /\
    match r with
    | inr v => exists e, find_entry guest (entries L) = Some e /\ view_for h e v
    | inl _ => find_entry guest (entries L) = None
    end.
Proof.
  intros Hpub Hok Hp. destruct (published_views h L Hpub Hok Hp) as (s & views & Hc & Hsv & Hf & Hs & Hvok).
  rewrite Hc. simpl. destruct (search_spec _ guest Hs Hvok) as (r & Hrun & Hr). exists r. split; [done|]. split; [done|].
  destruct r as [low|v].
  - destruct Hr as (Hlow & Hlo & Hhi). destruct (find_entry guest (entries L)) as [e|] eqn:He; [|done]. exfalso.
    apply find_entry_Some in He as [Hin Hcov]. apply covers_spec in Hcov.
    destruct (entry_view _ _ _ _ Hf Hin) as (v & Hv & []). rewrite <- Hsv in Hv. apply elem_lookupZ in Hv as [i Hi].
    destruct (Z.lt_ge_cases i low); [specialize (Hlo i v Hi ltac:(done))|specialize (Hhi i v Hi ltac:(done))]; lia.
  - destruct Hr as [Hin Hcov]. rewrite Hsv in Hin. destruct (view_entry _ _ _ _ Hf Hin) as (e & He & Hv).
    exists e. split; [|done]. destruct Hv. assert (Hce : covers guest e = true) by (apply covers_spec; lia).
    destruct (find_entry guest (entries L)) as [e'|] eqn:Hfe.
    + apply find_entry_Some in Hfe as [Hin' Hc']. f_equal. by apply (covers_unique (entries L) guest).
    + by rewrite (find_entry_None _ _ _ Hfe He) in Hce.
Qed.
