(* ===== verification/VmaMap.v ===== *)
(** * Mapping: the canonical extent

    The coalescing loop of [hl_logical_vma_map_shared] ends, and ends on an
    extent that no other backing of the file touches; rebinding the swallowed
    entries keeps what every address shows. *)

From stdpp Require Import gmap.
From S2P Require Import Prelude VmaLedger VmaReaders VmaIntervals VmaOps VmaInvariant.

(** ** The canonical extent *)

Section Widen.
Variables (device inode : Z) (requested : bool) (h : vma_store).

Definition same_vnode (bk : hl_logical_vma_backing) : bool := (b_device bk =? device) && (b_inode bk =? inode).

Definition touches (x : extent) (bk : hl_logical_vma_backing) : bool :=
  (x_first x <=? b_file_offset bk + b_length bk) && (b_file_offset bk <=? x_last x).

Definition included (x : extent) (bk : hl_logical_vma_backing) : bool :=
  (x_first x <=? b_file_offset bk) && (b_file_offset bk + b_length bk <=? x_last x).

(** The entry's backing is of the file and still sticks out of the extent. *)
Definition sticks_out (x : extent) (e : hl_logical_vma_entry) : bool :=
  match stat h (backing e) with
  | Some bk => same_vnode bk && negb (included x bk)
  | None => false
  end.

Definition within (x x' : extent) : Prop := x_first x' <= x_first x /\ x_last x <= x_last x'.

Definition extent_ok (x : extent) : Prop := 0 <= x_first x < x_last x /\ x_last x <= UINT64_MAX.

(** Nothing of the file touches the extent without lying inside. *)
Definition closed (x : extent) (l : list hl_logical_vma_entry) : Prop :=
  forall e bk, In e l -> stat h (backing e) = Some bk -> same_vnode bk = true -> touches x bk = true ->
    included x bk = true.

Lemma stat_lookup b bk : stat h b = Some bk -> exists k, backings h !! b = Some k /\ bk = with_references 0 k.
Proof. unfold stat. destruct (backings h !! b) as [k|]; [|done]. intros [= <-]. by exists k. Qed.

Hypothesis Hstore : forall b bk, stat h b = Some bk -> backing_ok bk.

Lemma end_small bk : backing_ok bk -> u64 (b_file_offset bk + b_length bk) = b_file_offset bk + b_length bk.
Proof. intros (H1 & H2 & H3 & _). apply u64_small. unfold UINT64_MAX in *. lia. Qed.

Lemma countZ_lt {A} (p q : A -> bool) l e :
  (forall x, p x = true -> q x = true) -> In e l -> q e = true -> p e = false -> countZ p l < countZ q l.
Proof.
  intros Hpq. assert (Hle : forall k, countZ p k <= countZ q k).
  { induction k as [|x k IHk]; simpl; [lia|]. pose proof (Hpq x) as Hx. destruct (p x), (q x); try lia.
    all: by specialize (Hx eq_refl). }
  induction l as [|x l IH]; simpl; [done|]. intros [->|Hin] Hq Hp.
  - rewrite Hq, Hp. specialize (Hle l). lia.
  - specialize (IH Hin Hq Hp). pose proof (Hpq x) as Hx. destruct (p x), (q x); try lia.
    all: by specialize (Hx eq_refl).
Qed.

Lemma within_refl x : within x x.
Proof. split; lia. Qed.
Lemma within_trans x y z : within x y -> within y z -> within x z.
Proof. unfold within. lia. Qed.
Lemma included_within x x' bk : within x x' -> included x bk = true -> included x' bk = true.
Proof. unfold within, included. rewrite !andb_true_iff, !Z.leb_le. lia. Qed.

Lemma widen_entry_spec k bk x :
  bk = with_references 0 k -> backing_ok bk -> extent_ok x ->
  let '(x', grew) := widen_entry device inode requested k x in
  within x x' /\ extent_ok x' /\
  (if grew : bool then same_vnode bk = true /\ included x bk = false /\ included x' bk = true
   else x_first x' = x_first x /\ x_last x' = x_last x /\
        (same_vnode bk = true -> touches x bk = true -> included x bk = true)).
Proof.
  intros -> Hbok Hx. pose proof (end_small _ Hbok) as Hend. destruct Hbok as (B1 & B2 & B3 & _).
  destruct Hx as [X1 X2]. simpl in Hend, B1, B2, B3. unfold widen_entry. rewrite Hend.
  unfold same_vnode, touches, included, within, extent_ok. simpl.
  compare_all; repeat match goal with |- _ /\ _ => split end; try done; try lia; compare_all.
Qed.

Lemma widen_pass_spec l : forall x ex,
  Forall (entry_ok h) l -> extent_ok x ->
  exists x' ex', widen_pass device inode requested h l x ex = Some (x', ex') /\ within x x' /\ extent_ok x' /\
    (ex' = true -> ex = true \/ exists e, In e l /\ sticks_out x e = true /\ sticks_out x' e = false) /\
    (ex' = false -> ex = false /\ x_first x' = x_first x /\ x_last x' = x_last x /\ closed x l).
Proof.
  induction l as [|e l IH]; intros x ex Hok Hx.
  { exists x, ex. split; [done|]. split; [apply within_refl|]. split; [done|]. split; [by left|]. intros He. split_and!; try done. intros ? ? []. }
  inversion Hok as [|? ? (bk & Hbk & _) Hok']; subst. cbn [widen_pass].
  destruct (stat_lookup _ _ Hbk) as (k & Hk & Hkb). rewrite Hk. cbn [mbind option_bind].
  pose proof (widen_entry_spec k bk x Hkb (Hstore _ _ Hbk) Hx) as Hstep.
  destruct (widen_entry device inode requested k x) as [x1 grew]. destruct Hstep as (Hw1 & Hx1 & Hgrew).
  destruct (IH x1 (ex || grew) Hok' Hx1) as (x' & ex' & Hrun & Hw & Hxo & H1 & H2). exists x', ex'.
  assert (Hin : included x1 bk = true -> included x' bk = true) by (by apply included_within).
  split; [done|]. split; [by eapply within_trans|]. split; [done|]. split.
  - intros He. destruct (H1 He) as [Hor|(e0 & Hin0 & Hs1 & Hs2)].
    + apply orb_true_iff in Hor as [Hor|Hor]; [by left|right]. subst grew. exists e. unfold sticks_out. rewrite Hbk.
      destruct Hgrew as (Hv1 & Hi1 & Hi). rewrite Hv1, Hi1, (Hin Hi). split_and!; [by left|done|done].
    + right. exists e0. split_and!; [by right| |done]. unfold sticks_out in *.
      destruct (stat h (backing e0)) as [b0|]; [|done]. apply andb_true_iff in Hs1 as [Hv0 Hn0].
      rewrite Hv0. simpl. destruct (included x b0) eqn:Hi0; [|done].
      by rewrite (included_within _ _ _ Hw1 Hi0) in Hn0.
  - intros He. destruct (H2 He) as (Hor & Hf & Hl & Hcl). apply orb_false_iff in Hor as [-> ->].
    destruct Hgrew as (Hf1 & Hl1 & Hg). split_and!; [done|congruence|congruence|].
    intros e0 b0 [<-|Hin0] Hb0 Hv0 Ht0; [rewrite Hbk in Hb0; injection Hb0 as <-; by apply Hg|].
    unfold included, touches in *. rewrite <- Hf1, <- Hl1 in *. by apply (Hcl e0 b0).
Qed.

(** Each pass that grows the extent swallows a backing, so the loop ends. *)
Lemma widen_spec fuel : forall l x,
  Forall (entry_ok h) l -> extent_ok x -> countZ (sticks_out x) l < Z.of_nat fuel ->
  exists x', widen fuel device inode requested h l x = Some x' /\ within x x' /\ extent_ok x' /\ closed x' l.
Proof.
  induction fuel as [|fuel IH]; intros l x Hok Hx Hf; [pose proof (countZ_bounds (sticks_out x) l); lia|].
  cbn [widen]. destruct (widen_pass_spec l x false Hok Hx) as (x1 & ex & Hrun & Hw & Hx1 & H1 & H2).
  rewrite Hrun. cbn [mbind option_bind]. destruct ex.
  - destruct (H1 eq_refl) as [|(e & Hin & Hs & Hs')]; [done|].
    destruct (IH l x1 Hok Hx1) as (x' & Hrun' & Hw' & Hx' & Hcl).
    + enough (countZ (sticks_out x1) l < countZ (sticks_out x) l) by lia.
      apply (countZ_lt _ _ _ e); [|done|done|done]. intros e0 Hs0. unfold sticks_out in *.
      destruct (stat h (backing e0)) as [b0|]; [|done]. apply andb_true_iff in Hs0 as [-> Hn]. simpl.
      destruct (included x b0) eqn:Hi; [|done]. by rewrite (included_within _ _ _ Hw Hi) in Hn.
    + exists x'. split; [done|]. split; [by eapply within_trans|done].
  - destruct (H2 eq_refl) as (_ & Hf1 & Hl1 & Hcl). exists x1. split; [done|]. split; [done|]. split; [done|].
    intros e0 b0 Hin0 Hb0 Hv0 Ht0. unfold included, touches in *. rewrite Hf1, Hl1 in *. by apply (Hcl e0 b0).
Qed.
End Widen.

(** ** Rounding to the host page *)

Lemma power_of_two_spec v : 0 < v -> power_of_two v = true -> exists k, 0 <= k /\ v = 2 ^ k.
Proof.
  intros Hv Hp. unfold power_of_two in Hp. bool_props. exists (Z.log2 v). split; [apply Z.log2_nonneg|].
  destruct (Z.log2_spec v Hv) as [H1 H2]. destruct (Z.eq_dec v (2 ^ Z.log2 v)) as [|Hne]; [done|]. exfalso.
  assert (Hpow : 0 < 2 ^ Z.log2 v) by (apply Z.pow_pos_nonneg; [lia|apply Z.log2_nonneg]).
  assert (Hb : Z.testbit (Z.land v (v - 1)) (Z.log2 v) = true).
  { rewrite Z.land_spec, Z.bit_log2 by done. replace (Z.log2 v) with (Z.log2 (v - 1)); [apply Z.bit_log2; lia|].
    apply Z.log2_unique; [apply Z.log2_nonneg|]. lia. }
  match goal with H : Z.land _ _ = 0 |- _ => rewrite H in Hb end. by rewrite Z.bits_0 in Hb.
Qed.

Lemma round_down k y : 0 <= k -> Z.land y (2 ^ k - 1) = y mod 2 ^ k.
Proof. intros Hk. rewrite <- Z.land_ones by done. by rewrite Z.ones_equiv, Z.sub_1_r. Qed.

Lemma round_up k y :
  0 <= k <= 63 -> 0 <= y <= UINT64_MAX -> Z.land y (UINT64_MAX - (2 ^ k - 1)) = y - y mod 2 ^ k.
Proof.
  intros Hk Hy. assert (Hm : UINT64_MAX - (2 ^ k - 1) = Z.ldiff (Z.ones 64) (Z.ones k)).
  { rewrite Z.ldiff_ones_r by lia. rewrite Z.shiftr_div_pow2, Z.shiftl_mul_pow2 by lia.
    change UINT64_MAX with (2 ^ 64 - 1). rewrite Z.ones_equiv. replace (Z.pred (2 ^ 64)) with (2 ^ (64 - k) * 2 ^ k - 1).
    - assert (0 < 2 ^ k) by (apply Z.pow_pos_nonneg; lia).
      replace ((2 ^ (64 - k) * 2 ^ k - 1) / 2 ^ k) with (2 ^ (64 - k) - 1).
      + replace (2 ^ 64) with (2 ^ (64 - k) * 2 ^ k) by (rewrite <- Z.pow_add_r by lia; f_equal; lia). lia.
      + apply Z.div_unique with (2 ^ k - 1); [lia|]. lia.
    - rewrite <- Z.pow_add_r by lia. replace (64 - k + k) with 64 by lia. lia. }
  rewrite Hm. assert (Hl : Z.land y (Z.ldiff (Z.ones 64) (Z.ones k)) = Z.ldiff y (Z.ones k)).
  { apply Z.bits_inj'. intros n Hn. rewrite Z.land_spec, !Z.ldiff_spec.
    destruct (Z.testbit y n) eqn:Hb; [|done]. rewrite Z.ones_spec_low; [done|]. split; [lia|].
    destruct (Z.lt_ge_cases n 64); [done|]. exfalso. rewrite Z.bits_above_log2 in Hb; [done|lia|].
    destruct (Z.eq_dec y 0) as [->|]; [simpl; lia|]. apply Z.log2_lt_pow2; [lia|].
    assert (2 ^ 64 <= 2 ^ n) by (apply Z.pow_le_mono_r; lia). unfold UINT64_MAX in Hy. lia. }
  rewrite Hl, Z.ldiff_ones_r, Z.shiftr_div_pow2, Z.shiftl_mul_pow2 by lia.
  pose proof (Z.div_mod y (2 ^ k) ltac:(assert (0 < 2 ^ k) by (apply Z.pow_pos_nonneg; lia); lia)). lia.
Qed.

(** The initial canonical extent contains the requested range. *)
Lemma initial_extent page off length w fd :
  0 < page <= UINT64_MAX -> power_of_two page = true -> 0 <= off -> 0 < length ->
  off + length <= UINT64_MAX - (page - 1) ->
  let x := mk_extent (off - Z.land off (page - 1))
             (Z.land (off + length + page - 1) (UINT64_MAX - (page - 1))) w fd in
  extent_ok x /\ x_first x <= off /\ off + length <= x_last x.
Proof.
  intros Hpage Hp Hoff Hlen Hmax x. destruct (power_of_two_spec page ltac:(lia) Hp) as (k & Hk & ->).
  assert (Hk63 : k <= 63).
  { destruct (Z.le_gt_cases k 63); [done|]. assert (2 ^ 64 <= 2 ^ k) by (apply Z.pow_le_mono_r; lia).
    unfold UINT64_MAX in *. lia. }
  assert (Hpos : 0 < 2 ^ k) by (apply Z.pow_pos_nonneg; lia).
  unfold x, extent_ok. simpl. rewrite round_down, round_up by lia.
  pose proof (Z.mod_pos_bound off (2 ^ k) Hpos). pose proof (Z.mod_le off (2 ^ k) Hoff Hpos).
  pose proof (Z.mod_pos_bound (off + length + 2 ^ k - 1) (2 ^ k) Hpos). lia.
Qed.

(** ** Rebinding *)

Section Rebind.
Variables (new : Z) (bk : hl_logical_vma_backing).

(** [old] is of the same file and lies inside the new backing. *)
Definition swallowed (old : hl_logical_vma_backing) : Prop :=
  b_device old = b_device bk /\ b_inode old = b_inode bk /\
  b_file_offset bk <= b_file_offset old /\ b_file_offset old + b_length old <= b_file_offset bk + b_length bk.

Definition unrelated (old : hl_logical_vma_backing) : Prop :=
  (b_device old = b_device bk /\ b_inode old = b_inode bk -> False) \/ extents_apart old bk.

(** What rebinding does to an entry over [old]. *)
Definition rebound (h : vma_store) (e e' : hl_logical_vma_entry) : Prop :=
  exists old, stat h (backing e) = Some old /\
    guest_first e' = guest_first e /\ guest_last e' = guest_last e /\ protection e' = protection e /\
    flags e' = flags e /\
    (e' = e /\ unrelated old \/
     backing e' = new /\ swallowed old /\
     b_file_offset bk + backing_offset e' = b_file_offset old + backing_offset e).

Lemma rebind_entry_spec h o e :
  store_ok h (backing e :: o) -> In new o -> lengthZ (backing e :: o) + 1 < 2 ^ 64 -> entry_ok h e ->
  backing_ok (with_references 0 bk) ->
  (forall old, stat h (backing e) = Some old -> swallowed old \/ unrelated old) ->
  exists e' h', rebind_entry new bk h e = Some (e', h') /\ store_ok h' (backing e' :: o) /\
    agree (backing e' :: o) h h' /\ rebound h e e'.
Proof.
  intros Hst Hnew Hfit (old & Hold & Hspan) Hbk Hcl.
  destruct (stat_lookup h _ _ Hold) as (k & Hk & Hkb).
  pose proof (so_ok _ _ Hst _ _ Hold) as Hbok. pose proof (end_small _ Hbok) as Hend.
  pose proof (end_small _ Hbk) as Hend'. simpl in Hend'.
  assert (Hfields : b_device k = b_device old /\ b_inode k = b_inode old /\ b_file_offset k = b_file_offset old /\
    b_length k = b_length old) by by rewrite Hkb.
  destruct Hfields as (Hf1 & Hf2 & Hf3 & Hf4).
  unfold rebind_entry. rewrite Hk. cbn [mbind option_bind]. rewrite Hf1, Hf2, Hf3, Hf4, Hend, Hend'.
  assert (Hsame : unrelated old -> exists e' h', Some (e, h) = Some (e', h') /\ store_ok h' (backing e' :: o) /\
    agree (backing e' :: o) h h' /\ rebound h e e').
  { intros Hu. exists e, h. split; [done|]. split; [done|]. split; [done|]. exists old. repeat (split; [done|]). by left. }
  destruct Hbok as (B1 & B2 & B3 & _). destruct Hspan as (S1 & S2 & S3 & S4 & S5). destruct Hbk as (C1 & C2 & C3 & _).
  simpl in C1, C2, C3.
  destruct (Hcl old Hold) as [Hsw|Hu].
  - destruct Hsw as (W1 & W2 & W3 & W4). rewrite W1, W2, !Z.eqb_refl. cbn [negb orb].
    destruct (Z.ltb_spec (b_file_offset old + b_length old) (b_file_offset bk)); [lia|].
    destruct (Z.ltb_spec (b_file_offset bk + b_length bk) (b_file_offset old)); [lia|]. cbn [orb].
    destruct (get_spec new h (backing e :: o) Hst) as (h1 & -> & Hst1 & Hs1); [by right|done|].
    cbn [mbind option_bind].
    destruct (put_spec (backing e) h1 (new :: o)) as (h2 & -> & Hst2 & Hag2).
    { eapply store_ok_perm; [|exact Hst1]. apply perm_swap. }
    cbn [mbind option_bind]. eexists _, h2. split; [done|]. split; [exact Hst2|]. split.
    { intros b Hb. by rewrite (Hag2 b Hb), Hs1. }
    exists old. repeat (split; [done|]). right. simpl. split; [done|]. split; [done|].
    rewrite (u64_small (b_file_offset old + backing_offset e)) by (unfold UINT64_MAX in *; lia).
    rewrite u64_small by (unfold UINT64_MAX in *; lia). lia.
  - pose proof Hu as Hu'. destruct Hu as [Hne|Hap].
    + destruct (Z.eqb_spec (b_device old) (b_device bk)), (Z.eqb_spec (b_inode old) (b_inode bk));
        cbn [negb orb]; try (by apply Hsame). exfalso. by apply Hne.
    + destruct (negb _ || negb _); [by apply Hsame|]. unfold extents_apart in Hap.
      destruct (Z.ltb_spec (b_file_offset old + b_length old) (b_file_offset bk)); cbn [orb]; [by apply Hsame|].
      destruct (Z.ltb_spec (b_file_offset bk + b_length bk) (b_file_offset old)); [by apply Hsame|lia].
Qed.

Lemma rebound_stable h h' l l' :
  agree (map backing l) h' h -> Forall2 (rebound h) l l' -> Forall2 (rebound h') l l'.
Proof.
  intros Ha H. induction H as [|e e' l l' (old & Hold & Hr) _ IH]; [constructor|].
  constructor; [|apply IH; intros b Hb; apply Ha; by right]. exists old. split; [|done].
  rewrite <- Hold. symmetry. apply Ha. by left.
Qed.

Lemma rebound_backings h l l' b : Forall2 (rebound h) l l' -> In b (map backing l') -> b = new \/ In b (map backing l).
Proof.
  induction 1 as [|e e' l l' (old & _ & _ & _ & _ & _ & Hr) _ IH]; simpl; [done|].
  intros [<-|Hb]; [|destruct (IH Hb); auto]. destruct Hr as [[-> _]|[-> _]]; auto.
Qed.

Lemma rebind_entries_spec l : forall h o,
  store_ok h (map backing l ++ o) -> In new o -> lengthZ (map backing l ++ o) + 1 < 2 ^ 64 ->
  Forall (entry_ok h) l -> backing_ok (with_references 0 bk) ->
  (forall e old, In e l -> stat h (backing e) = Some old -> swallowed old \/ unrelated old) ->
  exists l' h', rebind_entries new bk l h = Some (l', h') /\ store_ok h' (map backing l' ++ o) /\
    agree (map backing l' ++ o) h h' /\ Forall2 (rebound h) l l'.
Proof.
  induction l as [|e l IH]; intros h o Hst Hnew Hfit Hok Hbk Hcl.
  { exists [], h. split; [done|]. split; [done|]. split; [done|constructor]. }
  cbn [rebind_entries map app] in *. inversion Hok; subst.
  destruct (rebind_entry_spec h (map backing l ++ o) e) as (e' & h1 & -> & Hst1 & Hag1 & Hr1); try done.
  { apply in_or_app. by right. }
  { intros old. apply Hcl. by left. }
  cbn [mbind option_bind].
  assert (Hagl : agree (map backing l) h h1).
  { eapply agree_incl; [|exact Hag1]. intros b Hb. right. apply in_or_app. by left. }
  destruct (IH h1 (backing e' :: o)) as (l' & h2 & Hrun & Hst2 & Hag2 & Hr2).
  - eapply store_ok_perm; [|exact Hst1]. apply Permutation_middle.
  - by right.
  - rewrite lengthZ_cons in Hfit. rewrite lengthZ_app, lengthZ_cons in *. lia.
  - by apply (entries_stable h).
  - done.
  - intros x old Hx Hold. rewrite (Hagl _ (in_map _ _ _ Hx)) in Hold. apply (Hcl x); [by right|done].
  - rewrite Hrun. cbn [mbind option_bind]. exists (e' :: l'), h2. split; [done|].
    assert (Hr3 : Forall2 (rebound h) l l') by by apply (rebound_stable h1).
    split; [|split; [|by constructor]].
    + eapply store_ok_perm; [|exact Hst2]. simpl. symmetry. apply Permutation_middle.
    + intros b Hb. rewrite (Hag2 b).
      * apply Hag1. destruct Hb as [<-|Hb]; [by left|right]. apply in_app_iff in Hb as [Hb|Hb]; apply in_or_app; [|by right].
        destruct (rebound_backings _ _ _ _ Hr3 Hb) as [->|]; [by right|by left].
      * destruct Hb as [<-|Hb]; [apply in_or_app; right; by left|].
        apply in_app_iff in Hb as [Hb|Hb]; apply in_or_app; [by left|right; by right].
Qed.
(** Rebinding moves entries to the new backing and shows the same objects. *)
Section Rebound.
Variable h : vma_store.
Hypothesis Hnew : stat h new = Some (with_references 0 bk).
Hypothesis Hbk : backing_ok bk.
Hypothesis Hborrowed : b_borrowed bk = false.
Hypothesis Hvnode : b_device bk = 0 -> b_inode bk = 0 -> False.
Hypothesis Hstore : forall b k, stat h b = Some k -> backing_ok k.

Lemma rebound_entry_ok e e' : rebound h e e' -> entry_ok h e -> entry_ok h e'.
Proof.
  intros (old & Hold & H1 & H2 & H3 & H4 & Hr) (k & Hk & Hs). rewrite Hold in Hk. injection Hk as <-.
  destruct Hr as [[-> _]|(Hb & (_ & _ & W3 & W4) & Hoff)]; [by exists old|].
  exists (with_references 0 bk). split; [by rewrite Hb|]. destruct Hbk as (B1 & B2 & B3 & _).
  destruct Hs as (S1 & S2 & S3 & S4 & S5). unfold span_ok. simpl. rewrite H1, H2. lia.
Qed.

Lemma rebound_find l l' a :
  Forall2 (rebound h) l l' ->
  match find_entry a l, find_entry a l' with
  | Some e, Some e' => rebound h e e'
  | None, None => True
  | _, _ => False
  end.
Proof.
  unfold find_entry. induction 1 as [|e e' l l' Hr _ IH]; [done|].
  assert (Hc : covers a e' = covers a e) by (destruct Hr as (old & _ & H1 & H2 & _); unfold covers; by rewrite H1, H2).
  destruct (covers a e) eqn:He.
  - rewrite !filter_cons_True by done. done.
  - rewrite !filter_cons_False by (by rewrite ?Hc, ?He). done.
Qed.

Lemma rebound_locate e e' a : rebound h e e' -> locate h (meaning e' a) = locate h (meaning e a).
Proof.
  intros (old & Hold & H1 & H2 & H3 & H4 & Hr).
  destruct Hr as [[-> _]|(Hb & (W1 & W2 & _) & Hoff)]; [done|].
  unfold meaning, locate, position. rewrite Hb, Hnew, Hold, H1, H3, H4. cbn [mbind option_bind]. simpl.
  rewrite Hborrowed. assert (Hbo : b_borrowed old = false).
  { destruct (b_borrowed old) eqn:E; [|done]. destruct (Hstore _ _ Hold) as (_ & _ & _ & _ & _ & Hz).
    destruct (Hz E) as [Hz1 Hz2]. exfalso. apply Hvnode; congruence. }
  rewrite Hbo, W1, W2. do 4 f_equal. lia.
Qed.

Lemma rebound_cells l l' a :
  Forall2 (rebound h) l l' -> (r ← mapped l' a; locate h r) = (r ← mapped l a; locate h r).
Proof.
  intros Hr. pose proof (rebound_find l l' a Hr) as Hf. unfold mapped.
  destruct (find_entry a l) as [e|], (find_entry a l') as [e'|]; try done. simpl. by apply rebound_locate.
Qed.

Lemma rebound_pairwise l l' : Forall2 (rebound h) l l' -> pairwise l -> pairwise l'.
Proof.
  induction 1 as [|e e' l l' Hr Hrs IH]; simpl; [done|]. intros [He Hl]. split; [|by apply IH].
  destruct Hr as (old & _ & H1 & H2 & _). clear IH Hl. induction Hrs as [|x x' l l' (ox & _ & X1 & X2 & _) _ IH]; [constructor|].
  inversion He; subst. constructor; [|by apply IH]. unfold apart in *. rewrite H1, H2, X1, X2. done.
Qed.

Lemma rebound_kept l l' b :
  Forall2 (rebound h) l l' -> In b (map backing l') ->
  b = new \/ In b (map backing l) /\ exists old, stat h b = Some old /\ unrelated old.
Proof.
  induction 1 as [|e e' l l' (old & Hold & _ & _ & _ & _ & Hr) _ IH]; simpl; [done|].
  intros [<-|Hb]; [|destruct (IH Hb) as [|[? ?]]; auto].
  destruct Hr as [[-> Hu]|[-> _]]; [right|by left]. split; [by left|by exists old].
Qed.

Lemma rebound_coherent l l' :
  Forall2 (rebound h) l l' -> coherent h (map backing l) -> coherent h (new :: map backing l').
Proof.
  intros Hr Hco b1 b2 k1 k2 H1 H2 Hs1 Hs2 Hb1 Hb2 Hd Hi.
  assert (Hcase : forall b, In b (new :: map backing l') ->
    b = new \/ In b (map backing l) /\ exists old, stat h b = Some old /\ unrelated old).
  { intros b [<-|Hb]; [by left|]. by apply (rebound_kept l l'). }
  destruct (Hcase b1 H1) as [->|(I1 & o1 & O1 & U1)], (Hcase b2 H2) as [->|(I2 & o2 & O2 & U2)].
  - by left.
  - right. rewrite Hnew in Hs1. injection Hs1 as <-. rewrite O2 in Hs2. injection Hs2 as <-. simpl in *.
    destruct U2 as [U2|U2]; [exfalso; by apply U2|]. unfold extents_apart in *. simpl. lia.
  - right. rewrite Hnew in Hs2. injection Hs2 as <-. rewrite O1 in Hs1. injection Hs1 as <-. simpl in *.
    destruct U1 as [U1|U1]; [exfalso; by apply U1|]. unfold extents_apart in *. simpl. lia.
  - by apply (Hco b1 b2 k1 k2).
Qed.
End Rebound.
End Rebind.

(** ** The mapping operations *)

(** What the model relies on of the C library: a failure sets a positive
    [errno], a file has an identity, a mapping lies in the address space. *)
Record host_sane (A : host_answers) : Prop := mk_host_sane {
  hs_fstat_errno : forall fd e, ha_fstat A fd = inl e -> e <> 0;
  hs_mmap_errno : forall n o w r e, ha_mmap A n o w r = inl e -> e <> 0;
  hs_dupfd_errno : forall r e, ha_dupfd A r = inl e -> e <> 0;
  hs_vnode : forall fd device inode, ha_fstat A fd = inr (device, inode) -> device = 0 -> inode = 0 -> False;
  hs_mmap_range : forall n o w r m, ha_mmap A n o w r = inr m -> 0 <= m /\ m + n <= 2 ^ 64
}.

Lemma cells_stable h h' l a :
  agree (map backing l) h h' -> (r ← mapped l a; locate h' r) = (r ← mapped l a; locate h r).
Proof.
  intros Ha. destruct (mapped l a) as [[[[b o] p] f]|] eqn:Hm; [|done]. simpl.
  by rewrite (Ha b) by by eapply mapped_backing.
Qed.

(** A new backing for the extent [x], every related entry rebound to it. *)
Lemma rebind_spec device inode mapping x w retained h L rest :
  ledger_ok h L rest -> lengthZ (owners L ++ rest) + 2 < 2 ^ 64 ->
  extent_ok x -> closed device inode h x (entries L) -> (device = 0 -> inode = 0 -> False) ->
  0 <= mapping -> mapping + (x_last x - x_first x) <= 2 ^ 64 ->
  let bk := mk_backing mapping (x_last x - x_first x) 1 device inode (x_first x) retained w false in
  let '(new, h1) := new_backing bk h in
  exists l' h2, rebind_entries new bk (entries L) h1 = Some (l', h2) /\
    Forall (entry_ok h2) l' /\ pairwise l' /\ lengthZ l' = count L /\
    store_ok h2 (new :: map backing l' ++ snap_owners L ++ rest) /\
    coherent h2 (new :: map backing l') /\ stat h2 new = Some (with_references 0 bk) /\
    agree (snap_owners L ++ rest) h h2 /\
    forall a, (r ← mapped l' a; locate h2 r) = guest_cell h L a.
Proof.
  intros [Hent Hpw Hcap Hst Hcoh] Hfit [[X1 X2] X3] Hcl Hv Hm1 Hm2 bk.
  assert (Hbok : backing_ok (with_references 0 bk)) by (unfold backing_ok; simpl; split_and!; lia || done).
  pose proof (new_backing_spec bk h _ Hst Hbok eq_refl ltac:(lia)) as Hnew.
  destruct (new_backing bk h) as [new h1]. destruct Hnew as (Hst1 & Hag1 & Hs1 & Hno).
  assert (Hagl : agree (map backing (entries L)) h h1).
  { eapply agree_incl; [|exact Hag1]. unfold owners. rewrite <- app_assoc. by apply incl_appl, incl_refl. }
  destruct (rebind_entries_spec new bk (entries L) h1 (new :: snap_owners L ++ rest)) as (l' & h2 & Hrun & Hst2 & Hag2 & Hr).
  - eapply store_ok_perm; [|exact Hst1]. unfold owners. rewrite <- app_assoc. apply Permutation_middle.
  - by left.
  - unfold owners in Hfit. rewrite <- app_assoc in Hfit. rewrite lengthZ_app, lengthZ_cons in *. lia.
  - by apply (entries_stable h).
  - exact Hbok.
  - intros e old Hin Hold. rewrite (Hagl _ (in_map _ _ _ Hin)) in Hold.
    unfold swallowed, unrelated, extents_apart. simpl.
    destruct (Z.eq_dec (b_device old) device) as [Hd|]; [|right; left; tauto].
    destruct (Z.eq_dec (b_inode old) inode) as [Hi|]; [|right; left; tauto].
    destruct (touches x old) eqn:Ht.
    + assert (Hinc : included x old = true).
      { apply (Hcl e); [done|done| |done]. unfold same_vnode. by rewrite Hd, Hi, !Z.eqb_refl. }
      unfold included in Hinc. bool_props. left. lia.
    + right. right. unfold touches in Ht. apply andb_false_iff in Ht as [Ht|Ht]; bool_props; lia.
  - assert (Hstore1 : forall b k, stat h1 b = Some k -> backing_ok k) by apply Hst1.
    assert (Hag2l : agree (new :: map backing l') h1 h2).
    { eapply agree_incl; [|exact Hag2]. intros b [<-|Hb]; apply in_or_app; [right; by left|by left]. }
    assert (Hag2' : agree (map backing l') h1 h2) by (eapply agree_incl; [|exact Hag2l]; by apply incl_tl, incl_refl).
    exists l', h2. split; [done|]. split; [|split; [by apply (rebound_pairwise new bk h1 (entries L))|]].
    { apply (entries_stable h1); [done|]. pose proof (entries_stable h h1 _ Hagl Hent) as He1.
      clear -Hr He1 Hs1 Hbok. induction Hr as [|e e' l l' Hre _ IH]; [constructor|]. inversion He1; subst.
      constructor; [|by apply IH]. by apply (rebound_entry_ok new bk h1 Hs1 Hbok e). }
    split; [unfold count, lengthZ; f_equal; symmetry; by eapply Forall2_length|].
    split; [eapply store_ok_perm; [|exact Hst2]; symmetry; apply Permutation_middle|].
    split; [apply (coherent_stable h1); [done|]; apply (rebound_coherent new bk h1 Hs1 (entries L)); [done|]; by apply (coherent_stable h)|].
    split; [rewrite (Hag2l new) by (by left); done|].
    split.
    { intros b Hb. rewrite Hag2 by (apply in_or_app; right; by right). apply Hag1. unfold owners. rewrite <- app_assoc.
      apply in_or_app. by right. }
    intros a. rewrite (cells_stable h1 h2) by done. rewrite (rebound_cells new bk h1 Hs1 eq_refl Hv Hstore1 (entries L)) by done.
    by apply cells_stable.
Qed.

Lemma splits_bound guest last h l : Forall (entry_ok h) l -> pairwise l -> guest < last ->
  0 <= countZ (splits guest last) l <= 1.
Proof.
  intros Hok Hp Hfl. pose proof (splits_once guest last l Hfl Hp).
  pose proof (countZ_bounds (splits guest last) l). lia.
Qed.

Lemma owners_grown c L : owners (set_capacity c L) = owners L /\ snap_owners (set_capacity c L) = snap_owners L.
Proof. done. Qed.

Lemma map_shared_spec A guest length prot fd off page h L rest :
  ledger_ok h L rest -> refs_fit L rest -> 0 <= guest -> 0 <= length -> 0 <= off -> 0 <= page <= UINT64_MAX ->
  host_sane A ->
  exists errno h' L', hl_logical_vma_map_shared A guest length prot fd off page h L = Some (errno, (h', L')) /\
    ledger_ok h' L' rest /\ room_used L L' /\ agree (snap_owners L ++ rest) h h' /\
    if errno =? 0
    then exists device inode, ha_fstat A fd = inr (device, inode) /\ 0 < length /\ guest + length <= UINT64_MAX /\
         published h' L' /\
         forall a, guest_cell h' L' a =
           if in_range guest (guest + length) a
           then Some (InFile device inode (off + (a - guest)), prot, HL_LOGICAL_VMA_SHARED)
           else guest_cell h L a
    else h' = h /\ entries L' = entries L /\ current L' = current L.
Proof.
  intros Hok Hfit Hg Hn Ho Hpg [HA1 HA2 HA3 HA4 HA5]. pose proof (lo_capacity _ _ _ Hok) as Hcap.
  assert (Hrefuse : forall errno c, errno <> 0 -> capacity L <= c -> exists errno' h' L',
    Some (errno, (h, set_capacity c L)) = Some (errno', (h', L')) /\ ledger_ok h' L' rest /\
    room_used L L' /\ agree (snap_owners L ++ rest) h h' /\ if errno' =? 0 then exists device inode, ha_fstat A fd = inr (device, inode) /\ 0 < length /\
         guest + length <= UINT64_MAX /\ published h' L' /\
         forall a, guest_cell h' L' a = if in_range guest (guest + length) a
           then Some (InFile device inode (off + (a - guest)), prot, HL_LOGICAL_VMA_SHARED) else guest_cell h L a
    else h' = h /\ entries L' = entries L /\ current L' = current L).
  { intros errno c He Hc. exists errno, h, (set_capacity c L). split; [done|]. split; [by apply ledger_ok_grown|]. split; [done|]. split; [done|].
    by destruct (Z.eqb_spec errno 0). }
  assert (Hsame : set_capacity (capacity L) L = L) by by destruct L.
  assert (Hrefuse0 := fun errno He => Hrefuse errno (capacity L) He ltac:(lia)). rewrite Hsame in Hrefuse0.
  pose proof (lengthZ_nonneg (entries L)) as Hl0. fold (count L) in Hl0.
  unfold hl_logical_vma_map_shared. destruct (_ || _ || _) eqn:Hguard; [by apply Hrefuse0|].
  bool_props. destruct (ha_fstat A fd) as [errno|[device inode]] eqn:Hfs; [apply Hrefuse0; by eapply HA1|].
  cbn beta iota zeta. destruct (_ || _) eqn:Hsizes; [by apply Hrefuse0|]. bool_props.
  pose proof (grow_spec (ha_realloc A) (count L + 2) L ltac:(lia)) as Hgrow.
  destruct (grow (ha_realloc A) (count L + 2) L) as [errno|L1]; [subst errno; by apply Hrefuse0|].
  destruct Hgrow as (c & -> & Hc1 & Hc2). change (count (set_capacity c L)) with (count L).
  change (entries (set_capacity c L)) with (entries L).
  pose proof (snapshot_allocate_spec (ha_malloc A) (count L + 2)) as Hsa.
  destruct (snapshot_allocate (ha_malloc A) (count L + 2)) as [errno|room]; [subst errno; by apply Hrefuse|].
  destruct Hsa as [-> _]. destruct (_ <? off + length) eqn:Hround; [by apply Hrefuse|]. bool_props.
  assert (Hpage : 0 < page <= UINT64_MAX) by (destruct (Z.eq_dec page 0) as [->|]; [done|lia]).
  destruct (initial_extent page off length (has_flag prot HL_LOGICAL_VMA_WRITE) fd Hpage) as (Hx0 & Hx1 & Hx2); try done; try lia.
  pose proof Hok as [Hent Hpw _ Hst Hcoh].
  destruct (widen_spec device inode (has_flag prot HL_LOGICAL_VMA_WRITE) h ltac:(apply Hst)
    (S (Datatypes.length (entries L))) (entries L) _ Hent Hx0) as (x & Hw & [Hin1 Hin2] & [Hxo1 Hxo2] & Hcl).
  { match goal with |- countZ ?p _ < _ => pose proof (countZ_bounds p (entries L)) end. unfold lengthZ in *. lia. }
  rewrite Hw. cbn [mbind option_bind]. destruct (_ || _) eqn:Hxs; [by apply Hrefuse|]. bool_props.
  destruct (ha_mmap A _ _ _ _) as [errno|mapping] eqn:Hmm; [apply Hrefuse; [by eapply HA2|done]|].
  destruct (negb (ha_malloc A sizeof_backing)); [by apply Hrefuse|].
  destruct (ha_dupfd A (x_ref x)) as [errno|retained] eqn:Hdup; [apply Hrefuse; [by eapply HA3|done]|].
  destruct (HA5 _ _ _ _ _ Hmm) as [Hm1 Hm2].
  assert (Hfit2 : lengthZ (owners L ++ rest) + 2 < 2 ^ 64) by (unfold refs_fit in Hfit; lia).
  pose proof (rebind_spec device inode mapping x (x_writable x) retained h L rest Hok Hfit2 (conj Hxo1 Hxo2) Hcl
    (HA4 _ _ _ Hfs) Hm1 Hm2) as Hre. cbv zeta in Hre.
  destruct (new_backing _ h) as [new h1]. destruct Hre as (l' & h2 & Hrun & He2 & Hp2 & Hlen2 & Hst2 & Hco2 & Hs2 & Hago & Hcells).
  rewrite Hrun. cbn [mbind option_bind]. apply refs_fit_entries in Hfit.
  assert (Hfl : guest < guest + length) by lia. pose proof (splits_bound guest (guest + length) h2 l' He2 Hp2 Hfl) as Hsp.
  destruct (install_spec (ha_realloc A) (count L + 2) guest (guest + length) (off - x_first x) prot HL_LOGICAL_VMA_SHARED
    new h2 (set_entries l' (set_capacity c L)) rest
    (with_references 0 (mk_backing mapping (x_last x - x_first x) 1 device inode (x_first x) retained (x_writable x) false))
    He2 Hp2) as (h3 & L3 & Hinst & Hok3 & Hused & Hpd3 & Hm3 & Hag3); try done.
  { unfold count at 1. simpl. lia. }
  { unfold count at 1. simpl. lia. }
  { simpl. rewrite lengthZ_app, lengthZ_map in Hfit |- *. unfold count in *. simpl in *.
    change (snap_owners (set_entries l' (set_capacity c L))) with (snap_owners L). lia. }
  { unfold span_ok. simpl in *. lia. }
  rewrite Hinst. exists 0, h3, L3. split; [done|]. split; [done|]. split.
  { unfold room_used in *. change (snap_owners (set_entries _ _)) with (snap_owners L) in Hused.
    change (count (set_entries l' (set_capacity c L))) with (lengthZ l') in Hused. unfold count in *. lia. }
  split.
  { intros b Hb. rewrite Hag3 by (apply in_or_app; by right). by apply Hago. }
  assert (Hag3l : agree (map backing (entries L3)) h2 h3) by (eapply agree_incl; [|exact Hag3]; by apply incl_appl, incl_refl). simpl. exists device, inode.
  split; [done|]. split; [lia|]. split; [lia|]. split; [done|]. intros a. unfold guest_cell at 1.
  rewrite (cells_stable h2 h3) by done.
  rewrite Hm3. destruct (in_range guest (guest + length) a) eqn:Hr; [|by rewrite <- Hcells].
  simpl. rewrite Hs2. simpl. do 4 f_equal. lia.
Qed.
