(* ===== verification/VmaCalls.v ===== *)
(** * Life cycle, direct mappings and transactions

    What destroy, reset, reclaim and the direct mapping do under the ledger
    invariant, the staged copy of a transaction, its commit and its abort. *)

From stdpp Require Import gmap.
From S2P Require Import Prelude VmaLedger VmaReaders VmaIntervals VmaOps VmaInvariant VmaMap.

(** ** Dropping references *)

Lemma put_all_app l k h : put_all (l ++ k) h = (h' ← put_all l h; put_all k h').
Proof. revert h. induction l as [|b l IH]; intros h; simpl; [done|]. destruct (backing_put b h); simpl; [apply IH|done]. Qed.

Lemma free_retired_put_all l : forall h, free_retired l h = put_all (concat (map snap_backings l)) h.
Proof.
  induction l as [|s l IH]; intros h; simpl; [done|]. rewrite put_all_app.
  destruct (put_all (snap_backings s) h); simpl; [apply IH|done].
Qed.

Lemma snapshot_free_put_all s h : snapshot_free s h = put_all (owners_of s) h.
Proof. by destruct s. Qed.

Lemma drop_entries_spec h L o :
  store_ok h (map backing (entries L) ++ o) ->
  exists h', drop_entries h L = Some (h', set_entries [] L) /\ store_ok h' o /\ agree o h h'.
Proof.
  intros Hst. unfold drop_entries. destruct (put_all_spec (rev (map backing (entries L))) h o) as (h' & -> & Hst' & Ha).
  - eapply store_ok_perm; [|exact Hst]. f_equiv. apply Permutation_rev.
  - simpl. by exists h'.
Qed.

Lemma snap_owners_split L :
  snap_owners L = owners_of (current L) ++ concat (map snap_backings (retired L)).
Proof. done. Qed.

Lemma destroy_spec h L rest :
  ledger_ok h L rest ->
  exists h' L', hl_logical_vma_destroy h L = Some (h', L') /\ store_ok h' rest /\ agree rest h h' /\
    entries L' = [] /\ current L' = None /\ retired L' = [] /\ capacity L' = 0.
Proof.
  intros [_ _ _ Hst _]. unfold owners in Hst. rewrite snap_owners_split, <- !app_assoc in Hst.
  unfold hl_logical_vma_destroy. destruct (drop_entries_spec h L _ Hst) as (h1 & -> & Hst1 & Ha1). simpl.
  rewrite snapshot_free_put_all. destruct (put_all_spec _ h1 _ Hst1) as (h2 & -> & Hst2 & Ha2). simpl.
  rewrite free_retired_put_all. destruct (put_all_spec _ h2 _ Hst2) as (h3 & -> & Hst3 & Ha3). simpl.
  eexists _, _. split; [done|]. split; [done|]. split; [|done]. intros b Hb.
  rewrite Ha3, Ha2, Ha1; rewrite ?in_app_iff; tauto.
Qed.

(** ** Reclaim and reset *)

Lemma reclaim_spec h L rest :
  ledger_ok h L rest ->
  exists h' L', hl_logical_vma_reclaim_quiescent h L = Some (h', L') /\ ledger_ok h' L' rest /\
    entries L' = entries L /\ current L' = current L /\ retired L' = [] /\
    agree (map backing (entries L) ++ rest) h h'.
Proof.
  intros [Hent Hpw Hcap Hst Hcoh]. unfold owners in Hst. rewrite snap_owners_split, <- !app_assoc in Hst.
  unfold hl_logical_vma_reclaim_quiescent. rewrite free_retired_put_all.
  destruct (put_all_spec (concat (map snap_backings (retired L))) h
    (map backing (entries L) ++ owners_of (current L) ++ rest)) as (h' & -> & Hst' & Ha).
  { eapply store_ok_perm; [|exact Hst]. rewrite (Permutation_app_swap_app (owners_of _)). apply Permutation_app_swap_app. }
  assert (Hae : agree (map backing (entries L)) h h') by (eapply agree_incl; [|exact Ha]; by apply incl_appl, incl_refl).
  simpl. eexists _, _. split; [done|]. split; [|split_and!; try done].
  - constructor; simpl; [by apply (entries_stable h)|done|done| |by apply (coherent_stable h)].
    unfold owners, snap_owners. simpl. by rewrite app_nil_r, <- app_assoc.
  - intros b Hb. apply Ha. rewrite !in_app_iff in *. tauto.
Qed.

Lemma reset_spec malloc h L rest :
  ledger_ok h L rest -> malloc sizeof_snapshot = true ->
  exists h' L', hl_logical_vma_global_reset_quiescent malloc h L = Some (h', L') /\ ledger_ok h' L' rest /\
    published h' L' /\ owners L' = [] /\ agree rest h h'.
Proof.
  intros Hok Hm. pose proof Hok as [_ _ Hcap Hst _]. unfold owners in Hst. rewrite <- app_assoc in Hst.
  unfold hl_logical_vma_global_reset_quiescent.
  assert (snapshot_allocate malloc 0 = inr 0) as ->.
  { unfold snapshot_allocate. change ((if malloc sizeof_snapshot then @inr Z Z 0 else inl VMA_ENOMEM) = inr 0). by rewrite Hm. }
  cbn beta iota zeta. destruct (drop_entries_spec h L _ Hst) as (h1 & -> & Hst1 & Ha1). cbn [mbind option_bind].
  pose proof (lengthZ_nonneg (entries L)) as Hl. unfold count in Hcap.
  destruct (publish_ok 0 rest h1 [] L) as (h2 & L2 & Hpub & HL2 & Hso2 & Hok2 & Hpd & Hs2); try done.
  { change (lengthZ []) with 0. lia. }
  { intros b1 b2 k1 k2 []. }
  { pose proof (so_fits _ _ Hst1). simpl. change (lengthZ []) with 0. lia. }
  rewrite Hpub. cbn [mbind option_bind].
  destruct (reclaim_spec h2 L2 rest Hok2) as (h3 & L3 & Hrec & Hok3 & He3 & Hc3 & Hr3 & Ha3). rewrite Hrec.
  destruct Hpd as (s & Hcur & Hsnap). exists h3, L3. rewrite HL2 in *. split; [done|]. split; [done|]. split.
  { apply (published_stable h2); [|rewrite He3; intros b []].
    exists s. rewrite He3, Hc3. by split. }
  split.
  - unfold owners. rewrite He3, snap_owners_split, Hc3, Hr3, Hcur. simpl. destruct Hsnap as [_ ->]. done.
  - intros b Hb. rewrite Ha3 by done. rewrite Hs2. apply Ha1. apply in_or_app. by right.
Qed.

(** ** Direct mappings *)

Definition direct_backing (length host_first : Z) : hl_logical_vma_backing :=
  mk_backing host_first length 1 0 0 0 (-1) false true.

(** [logical_vma_map_direct] past its argument checks and allocations. *)
Lemma map_direct_cases A guest length prot host h L :
  0 <= capacity L ->
  (exists errno c, errno <> 0 /\ capacity L <= c /\
     logical_vma_map_direct A guest length prot host h L = Some (errno, (h, set_capacity c L))) \/
  (exists c, capacity L <= c /\ count L + 1 <= c /\ length <> 0 /\ guest + length <= UINT64_MAX /\
     host + length <= UINTPTR_MAX /\
     logical_vma_map_direct A guest length prot host h L =
       let '(new, h1) := new_backing (direct_backing length host) h in
       install_mapping (ha_realloc A) (count L + 1) guest (guest + length) 0 prot HL_LOGICAL_VMA_DIRECT new h1
         (set_capacity c L)).
Proof.
  intros Hcap. unfold logical_vma_map_direct.
  assert (Hsame : forall errno, errno <> 0 -> exists errno' c, errno' <> 0 /\ capacity L <= c /\
    Some (errno, (h, L)) = Some (errno', (h, set_capacity c L))).
  { intros errno He. exists errno, (capacity L). split_and!; [done|lia|by destruct L]. }
  destruct (_ || _ || _ || _) eqn:Hg; [left; by apply Hsame|]. bool_props.
  pose proof (grow_spec (ha_realloc A) (count L + 1) L Hcap) as Hgrow.
  destruct (grow (ha_realloc A) (count L + 1) L) as [errno|L1]; [subst errno; left; by apply Hsame|].
  destruct Hgrow as (c & -> & Hc1 & Hc2). change (count (set_capacity c L)) with (count L).
  pose proof (snapshot_allocate_spec (ha_malloc A) (count L + 1)) as Hsa.
  destruct (snapshot_allocate (ha_malloc A) (count L + 1)) as [errno|room]; [subst errno; left; by exists VMA_ENOMEM, c|].
  destruct Hsa as [-> _]. destruct (negb (ha_malloc A sizeof_backing)); [left; by exists VMA_ENOMEM, c|].
  right. exists c. split_and!; try done; lia.
Qed.

Lemma direct_backing_ok guest length host :
  0 <= guest -> 0 < length -> guest + length <= UINT64_MAX -> 0 <= host -> host + length <= UINTPTR_MAX ->
  backing_ok (with_references 0 (direct_backing length host)).
Proof. intros. unfold backing_ok, UINTPTR_MAX, UINT64_MAX in *. simpl. split_and!; done || lia. Qed.

(** The store and the array once the direct backing exists. *)
Lemma direct_new_spec guest length host h L rest :
  ledger_ok h L rest -> refs_fit L rest -> 0 <= guest -> 0 < length -> guest + length <= UINT64_MAX ->
  0 <= host -> host + length <= UINTPTR_MAX ->
  let '(new, h1) := new_backing (direct_backing length host) h in
  store_ok h1 (new :: map backing (entries L) ++ snap_owners L ++ rest) /\ agree (owners L ++ rest) h h1 /\
  stat h1 new = Some (with_references 0 (direct_backing length host)) /\
  coherent h1 (new :: map backing (entries L)).
Proof.
  intros Hok Hfit Hg Hn Hgn Hh Hhn. pose proof Hok as [_ _ _ Hst Hcoh]. unfold refs_fit in Hfit.
  pose proof (lengthZ_nonneg (entries L)) as Hl. fold (count L) in Hl.
  pose proof (new_backing_spec (direct_backing length host) h _ Hst
    (direct_backing_ok guest length host Hg Hn Hgn Hh Hhn) eq_refl ltac:(lia)) as Hnew.
  destruct (new_backing _ h) as [new h1]. destruct Hnew as (Hst1 & Ha1 & Hs1 & Hno).
  unfold owners in Hst1. rewrite <- app_assoc in Hst1. split_and!; try done.
  assert (Hal : agree (map backing (entries L)) h h1).
  { eapply agree_incl; [|exact Ha1]. unfold owners. rewrite <- app_assoc. by apply incl_appl, incl_refl. }
  intros b1 b2 k1 k2 [<-|H1] [<-|H2] Hk1 Hk2 Hb1 Hb2; try (by left).
  - rewrite Hs1 in Hk1. injection Hk1 as <-. done.
  - rewrite Hs1 in Hk2. injection Hk2 as <-. done.
  - by apply (coherent_stable _ _ _ Hal Hcoh b1 b2 k1 k2).
Qed.

Lemma map_direct_spec A guest length prot host h L rest :
  ledger_ok h L rest -> refs_fit L rest -> 0 <= guest -> 0 <= length -> 0 <= host ->
  countZ (splits guest (guest + length)) (entries L) = 0 ->
  exists errno h' L', logical_vma_map_direct A guest length prot host h L = Some (errno, (h', L')) /\
    ledger_ok h' L' rest /\ room_used L L' /\ agree (snap_owners L ++ rest) h h' /\
    if errno =? 0
    then 0 < length /\ guest + length <= UINT64_MAX /\ published h' L' /\
         forall a, guest_cell h' L' a =
           if in_range guest (guest + length) a
           then Some (AtHost (host + (a - guest)), prot, HL_LOGICAL_VMA_DIRECT) else guest_cell h L a
    else h' = h /\ entries L' = entries L /\ current L' = current L.
Proof.
  intros Hok Hfit Hg Hn Hh Hs0. pose proof (lo_capacity _ _ _ Hok) as Hcap.
  pose proof (lengthZ_nonneg (entries L)) as Hl. fold (count L) in Hl.
  destruct (map_direct_cases A guest length prot host h L ltac:(lia))
    as [(errno & c & He & Hc & ->)|(c & Hc1 & Hc2 & Hn0 & Hgn & Hhn & ->)].
  { exists errno, h, (set_capacity c L). split; [done|]. split; [by apply ledger_ok_grown|]. split_and!; try done.
    by destruct (Z.eqb_spec errno 0). }
  pose proof (direct_new_spec guest length host h L rest Hok Hfit Hg ltac:(lia) Hgn Hh Hhn) as Hnew.
  destruct (new_backing _ h) as [new h1]. destruct Hnew as (Hst1 & Ha1 & Hs1 & Hco1).
  pose proof Hok as [Hent Hpw _ _ _]. apply refs_fit_entries in Hfit.
  assert (Hal : agree (map backing (entries L)) h h1).
  { eapply agree_incl; [|exact Ha1]. unfold owners. rewrite <- app_assoc. by apply incl_appl, incl_refl. }
  destruct (install_spec (ha_realloc A) (count L + 1) guest (guest + length) 0 prot HL_LOGICAL_VMA_DIRECT new h1
    (set_capacity c L) rest (with_references 0 (direct_backing length host)) (entries_stable _ _ _ Hal Hent) Hpw) as (h2 & L2 & Hrun & Hok2 & Hused & Hpd & Hm & Ha2);
    try done.
  { simpl. rewrite Hs0. change (count (set_capacity c L)) with (count L). lia. }
  { simpl. rewrite Hs0. change (count (set_capacity c L)) with (count L). lia. }
  { change (count (set_capacity c L)) with (count L). change (snap_owners (set_capacity c L)) with (snap_owners L). simpl. lia. }
  { lia. }
  { unfold span_ok. simpl. lia. }
  rewrite Hrun. exists 0, h2, L2. split; [done|]. split; [done|]. split; [done|]. split.
  { intros b Hb. rewrite Ha2 by (apply in_or_app; by right). apply Ha1. unfold owners. rewrite <- app_assoc.
    apply in_or_app. by right. }
  simpl. split_and!; [lia|lia|done|]. intros a.
  assert (Hal2 : agree (map backing (entries L2)) h1 h2) by (eapply agree_incl; [|exact Ha2]; by apply incl_appl, incl_refl).
  unfold guest_cell at 1. rewrite (cells_stable h1 h2) by done. rewrite Hm.
  destruct (in_range guest (guest + length) a); [by simpl; rewrite Hs1|]. by rewrite (cells_stable h h1).
Qed.

(** An entry that strictly contains the range makes two of one and is joined
    by a third: one more than the arrays were grown for. *)
Lemma map_direct_split A guest length prot host h L rest e :
  ledger_ok h L rest -> refs_fit L rest -> 0 <= guest -> 0 < length -> 0 <= host ->
  In e (entries L) -> guest_first e < guest -> guest + length < guest_last e ->
  logical_vma_map_direct A guest length prot host h L = None \/
  exists errno c, errno <> 0 /\
    logical_vma_map_direct A guest length prot host h L = Some (errno, (h, set_capacity c L)).
Proof.
  intros Hok Hfit Hg Hn Hh Hin Hf Hl. pose proof (lo_capacity _ _ _ Hok) as Hcap.
  pose proof (lengthZ_nonneg (entries L)) as Hl0. fold (count L) in Hl0.
  destruct (map_direct_cases A guest length prot host h L ltac:(lia))
    as [(errno & c & He & Hc & ->)|(c & Hc1 & Hc2 & Hn0 & Hgn & Hhn & ->)]; [right; by exists errno, c|left].
  pose proof (direct_new_spec guest length host h L rest Hok Hfit Hg Hn Hgn Hh Hhn) as Hnew.
  destruct (new_backing _ h) as [new h1]. destruct Hnew as (Hst1 & Ha1 & Hs1 & Hco1).
  pose proof Hok as [Hent Hpw _ _ _]. apply refs_fit_entries in Hfit.
  assert (Hal : agree (map backing (entries L)) h h1).
  { eapply agree_incl; [|exact Ha1]. unfold owners. rewrite <- app_assoc. by apply incl_appl, incl_refl. }
  assert (Hsp : splits guest (guest + length) e = true) by (unfold splits; rewrite andb_true_iff, !Z.ltb_lt; lia).
  assert (Hfl : guest < guest + length) by lia.
  pose proof (splits_bound guest (guest + length) h (entries L) Hent Hpw Hfl) as Hsb.
  unfold install_mapping.
  destruct (unmap_locked_spec (ha_realloc A) guest (guest + length) (new :: snap_owners L ++ rest) h1 (set_capacity c L))
    as (h2 & l' & Hrun & Hl' & Hst2 & _); try done.
  { by apply (entries_stable h). }
  { change (count (set_capacity c L)) with (count L). simpl. lia. }
  { eapply store_ok_perm; [|exact Hst1]. apply Permutation_middle. }
  { simpl. rewrite lengthZ_app, lengthZ_cons. rewrite lengthZ_app in Hfit. lia. }
  rewrite Hrun. cbn [mbind option_bind].
  assert (Hlen : lengthZ l' = count L + 1).
  { rewrite (lengthZ_perm _ _ Hl'). by apply (cut_length_split _ _ _ e). }
  destruct (backing_get new h2) as [h3|]; [|done]. cbn [mbind option_bind]. unfold append_entry.
  destruct (_ <? _); [|done]. cbn [mbind option_bind]. unfold publish_locked, fill_snapshot. simpl entries.
  rewrite lengthZ_app, Hlen. change (lengthZ [mk_entry guest (guest + length) 0 prot HL_LOGICAL_VMA_DIRECT new]) with 1.
  by destruct (Z.ltb_spec (count L + 1) (count L + 1 + 1)); [|lia].
Qed.

(** ** Transactions *)

(** The owners determine the store. *)
Lemma store_ok_unique h h' o : store_ok h o -> store_ok h' o -> agree o h h' -> backings h' = backings h.
Proof.
  intros [H1 H2 _ _] [H1' H2' _ _] Ha. apply map_eq. intros b.
  destruct (in_dec Z.eq_dec b o) as [Hin|Hno].
  - specialize (Ha b Hin). unfold stat in Ha. destruct (H1 b Hin) as [k Hk], (H1' b Hin) as [k' Hk'].
    destruct (H2 b k Hk) as (Hc & _), (H2' b k' Hk') as (Hc' & _). rewrite Hk, Hk' in *. simpl in Ha.
    destruct k, k'. simpl in *. unfold with_references in Ha. simpl in Ha. congruence.
  - assert (Hgone : forall g, (forall b k, backings g !! b = Some k -> b_references k = countZ (Z.eqb b) o /\
      0 < b_references k /\ b < next_backing g) -> backings g !! b = None).
    { intros g Hg. destruct (backings g !! b) as [k|] eqn:Hk; [|done]. destruct (Hg b k Hk) as (Hc & Hp & _).
      rewrite countZ_none in Hc; [lia|]. intros x Hx. apply Z.eqb_neq. by intros <-. }
    by rewrite (Hgone h H2), (Hgone h' H2').
Qed.

(** Two ledgers over one store: each is the other's [rest]. *)
Lemma ledger_ok_swap h L L' rest :
  Forall (entry_ok h) (entries L) -> pairwise (entries L) -> count L <= capacity L ->
  coherent h (map backing (entries L)) -> store_ok h (owners L' ++ owners L ++ rest) ->
  ledger_ok h L (owners L' ++ rest).
Proof.
  intros He Hp Hc Hco Hst. constructor; try done. eapply store_ok_perm; [|exact Hst].
  apply Permutation_app_swap_app.
Qed.

Lemma ledger_ok_agree h h' L rest rest' :
  ledger_ok h L rest -> agree (owners L) h h' -> store_ok h' (owners L ++ rest') -> ledger_ok h' L rest'.
Proof.
  intros [He Hp Hc Hst Hco] Ha Hst'.
  assert (Hal : agree (map backing (entries L)) h h') by (eapply agree_incl; [|exact Ha]; by apply incl_appl, incl_refl).
  constructor; try done; [by apply (entries_stable h)|by apply (coherent_stable h)].
Qed.

Lemma published_agree h h' L : published h L -> agree (owners L) h h' -> published h' L.
Proof.
  intros Hp Ha. apply (published_stable h); [done|]. eapply agree_incl; [|exact Ha]. by apply incl_appl, incl_refl.
Qed.

(** The staged copy shows what the live ledger shows. *)
Lemma stage_copy_spec realloc h live rest :
  ledger_ok h live rest -> refs_fit live rest ->
  (exists errno, errno <> 0 /\ stage_copy realloc h live = Some (errno, (h, hl_logical_vma_init))) \/
  (exists h' staged, stage_copy realloc h live = Some (0, (h', staged)) /\
     ledger_ok h' staged (owners live ++ rest) /\ entries staged = entries live /\ snap_owners staged = [] /\
     forall b, stat h' b = stat h b).
Proof.
  intros Hok Hfit. unfold stage_copy. pose proof Hok as [He Hp Hcap Hst Hco].
  pose proof (grow_spec realloc (count live) hl_logical_vma_init ltac:(simpl; lia)) as Hgrow.
  destruct (grow realloc (count live) hl_logical_vma_init) as [errno|L1]; [left; subst errno; by exists VMA_ENOMEM|].
  destruct Hgrow as (c & -> & Hc1 & _). unfold refs_fit in Hfit. pose proof (lengthZ_nonneg (entries live)) as Hl.
  destruct (get_all_spec (map backing (entries live)) h (owners live ++ rest) Hst) as (h1 & -> & Hst1 & Hs1).
  { unfold owners. rewrite <- app_assoc. by apply incl_appl, incl_refl. }
  { rewrite lengthZ_map. unfold count in *. lia. }
  simpl. right. eexists h1, _. split; [done|]. split; [|done].
  assert (Ha : agree (map backing (entries live)) h h1) by (intros b _; apply Hs1).
  constructor; simpl; [by apply (entries_stable h)|done|done| |by apply (coherent_stable h)].
  unfold owners at 1, snap_owners. simpl. by rewrite app_nil_r.
Qed.

(** What a change of the staged copy must promise. *)
Definition change_ok (change : vma_store -> hl_logical_vma_ledger -> option (Z * (vma_store * hl_logical_vma_ledger)))
    (Q : vma_store -> hl_logical_vma_ledger -> vma_store -> hl_logical_vma_ledger -> Prop) : Prop :=
  forall h L rest, ledger_ok h L rest -> refs_fit L rest ->
    exists errno h' L', change h L = Some (errno, (h', L')) /\ ledger_ok h' L' rest /\ agree rest h h' /\
      (errno = 0 -> Q h L h' L').

Lemma prepare_spec calloc mutex_ok realloc change Q h live rest :
  change_ok change Q -> ledger_ok h live rest ->
  lengthZ (owners live ++ rest) + 3 * count live + 8 < 2 ^ 64 ->
  exists errno plan h', prepare_with calloc mutex_ok realloc change h live = Some (errno, plan, h') /\
    agree (owners live ++ rest) h h' /\
    match plan with
    | None => errno <> 0 /\ ledger_ok h' live rest /\ backings h' = backings h
    | Some staged => errno = 0 /\ ledger_ok h' live (owners staged ++ rest) /\
        ledger_ok h' staged (owners live ++ rest) /\
        exists h1 L1, Q h1 L1 h' staged /\ entries L1 = entries live /\ snap_owners L1 = [] /\
          (forall b, stat h1 b = stat h b)
    end.
Proof.
  intros Hchange Hok Hfit. unfold prepare_with. pose proof (lengthZ_nonneg (entries live)) as Hl. unfold count in Hfit.
  pose proof (lo_store _ _ _ Hok) as Hst.
  destruct (negb calloc || negb mutex_ok); [by exists VMA_ENOMEM, None, h|].
  destruct (stage_copy_spec realloc h live rest Hok) as [(errno & He & ->)|(h1 & staged & -> & Hok1 & He1 & Hso1 & Hs1)].
  { unfold refs_fit, count. lia. }
  { cbn [mbind option_bind]. destruct (Z.eqb_spec errno 0) as [|_]; [done|]. simpl. by exists errno, None, h. }
  cbn [mbind option_bind]. simpl negb. cbn iota.
  assert (Hown : owners staged = map backing (entries live)) by (unfold owners; by rewrite He1, Hso1, app_nil_r).
  destruct (Hchange h1 staged (owners live ++ rest) Hok1) as (errno & h2 & L2 & -> & Hok2 & Ha2 & HQ).
  { unfold refs_fit, count. rewrite Hown, He1, lengthZ_app, lengthZ_map. lia. }
  assert (Ha : agree (owners live ++ rest) h h2) by (intros b Hb; by rewrite Ha2, Hs1).
  cbn [mbind option_bind]. destruct (Z.eqb_spec errno 0) as [->|He]; simpl negb; cbn iota.
  - exists 0, (Some L2), h2. split; [done|]. split; [done|]. split; [done|].
    split; [|split; [done|by exists h1, staged; auto]].
    apply (ledger_ok_agree h _ _ rest); [done|eapply agree_incl; [|exact Ha]; by apply incl_appl, incl_refl|].
    eapply store_ok_perm; [|exact (lo_store _ _ _ Hok2)]. apply Permutation_app_swap_app.
  - destruct (destroy_spec h2 L2 _ Hok2) as (h3 & L3 & -> & Hst3 & Ha3 & _). simpl.
    assert (Ha' : agree (owners live ++ rest) h h3) by (by eapply agree_trans).
    exists errno, None, h3. split; [done|]. split; [done|]. split; [done|]. split; [|by eapply store_ok_unique].
    by apply (ledger_ok_agree h _ _ rest); [|eapply agree_incl; [|exact Ha']; apply incl_appl, incl_refl|].
Qed.

Lemma abort_spec h live staged rest :
  ledger_ok h live (owners staged ++ rest) -> ledger_ok h staged (owners live ++ rest) ->
  exists h', hl_logical_vma_abort_shared h staged = Some h' /\ ledger_ok h' live rest /\
    agree (owners live ++ rest) h h'.
Proof.
  intros Hlive Hst. unfold hl_logical_vma_abort_shared.
  destruct (destroy_spec h staged _ Hst) as (h1 & L1 & -> & Hst1 & Ha & _). simpl. exists h1.
  split; [done|]. split; [|done]. by apply (ledger_ok_agree h _ _ (owners staged ++ rest)); [|eapply agree_incl; [|exact Ha]; apply incl_appl, incl_refl|].
Qed.

Lemma commit_owners live staged e c g :
  snap_owners (mk_ledger e c (current staged) (rev (retired staged) ++ retire (current live) (retired live)) g)
    ≡ₚ snap_owners staged ++ snap_owners live.
Proof.
  unfold snap_owners. simpl. rewrite map_app, concat_app, map_rev.
  assert (Hr : concat (rev (map snap_backings (retired staged))) ≡ₚ concat (map snap_backings (retired staged))).
  { induction (map snap_backings (retired staged)) as [|x l IH]; simpl; [done|]. rewrite concat_app. simpl.
    rewrite app_nil_r, IH. apply Permutation_app_comm. }
  rewrite Hr, <- !app_assoc. do 2 f_equiv. by destruct (current live).
Qed.

Lemma commit_spec h live staged rest :
  ledger_ok h live (owners staged ++ rest) -> ledger_ok h staged (owners live ++ rest) ->
  exists h' L', hl_logical_vma_commit_shared h live staged = Some (h', L') /\ ledger_ok h' L' rest /\
    entries L' = entries staged /\ current L' = current staged /\ agree (owners staged ++ rest) h h' /\
    snap_owners L' ≡ₚ snap_owners staged ++ snap_owners live /\
    generation L' = u64 (u64 (generation live + 1) + 1).
Proof.
  intros Hlive Hst. unfold hl_logical_vma_commit_shared.
  pose proof (lo_store _ _ _ Hlive) as Hs. unfold owners in Hs at 1. rewrite <- app_assoc in Hs.
  destruct (drop_entries_spec h live _ Hs) as (h1 & -> & Hs1 & Ha). simpl.
  assert (Ha' : agree (owners staged ++ rest) h h1) by (eapply agree_incl; [|exact Ha]; by apply incl_appr, incl_refl).
  eexists h1, _. split; [done|]. split; [|split_and!; try done; apply commit_owners].
  destruct Hst as [He Hp Hc _ Hco].
  assert (Hal : agree (map backing (entries staged)) h h1).
  { eapply agree_incl; [|exact Ha']. unfold owners. rewrite <- app_assoc. by apply incl_appl, incl_refl. }
  constructor; simpl; [by apply (entries_stable h)|done|done| |by apply (coherent_stable h)].
  eapply store_ok_perm; [|exact Hs1]. unfold owners. simpl. rewrite commit_owners, <- !app_assoc.
  rewrite (Permutation_app_swap_app (snap_owners live)). f_equiv. apply Permutation_app_swap_app.
Qed.
