(* ===== verification/VmaSteps.v ===== *)
(** * The calls on the live ledger

    The mutations of the live ledger as one step function, transactions with
    their commit or abort included, the sizes they keep, and what each does to
    the cells the guest sees. *)

From stdpp Require Import gmap.
From S2P Require Import Prelude VmaLedger VmaReaders VmaIntervals VmaOps VmaInvariant VmaMap.
From S2P Require Import VmaCalls.

(** ** Calls *)

(** The arguments of a file mapping. *)
Record file_mapping := mk_file_mapping {
  fm_guest : Z;
  fm_length : Z;
  fm_protection : Z;
  fm_fd : Z;
  fm_offset : Z;
  fm_page : Z
}.

(** [commit] tells whether the caller of a prepared plan commits or aborts it. *)
Inductive vma_call :=
| CallMapShared (A : host_answers) (m : file_mapping)
| CallMapDirect (A : host_answers) (guest length protection host_first : Z)
| CallUnmap (A : host_answers) (guest length : Z)
| CallProtect (A : host_answers) (guest length protection : Z)
| CallRestore (A : host_answers) (m : file_mapping)
| CallTransactionShared (A : host_answers) (fail_next calloc mutex_ok : bool) (m : file_mapping) (commit : bool)
| CallTransactionProtect (A : host_answers) (calloc mutex_ok : bool) (guest length protection : Z) (commit : bool)
| CallReclaim
| CallReset (A : host_answers).

Definition with_mapping {B} (m : file_mapping) (f : Z -> Z -> Z -> Z -> Z -> Z -> B) : B :=
  f (fm_guest m) (fm_length m) (fm_protection m) (fm_fd m) (fm_offset m) (fm_page m).

(** What the caller of [prepare] does with its plan. *)
Definition settle (commit : bool) (live : hl_logical_vma_ledger) (prepared : Z * option hl_logical_vma_ledger * vma_store)
  : option (Z * (vma_store * hl_logical_vma_ledger)) :=
  let '(errno, plan, h) := prepared in
  match plan with
  | None => Some (errno, (h, live))
  | Some staged =>
      if commit then '(h, live) ← hl_logical_vma_commit_shared h live staged; Some (0, (h, live))
      else h ← hl_logical_vma_abort_shared h staged; Some (0, (h, live))
  end.

Definition run_call (c : vma_call) (h : vma_store) (L : hl_logical_vma_ledger)
  : option (Z * (vma_store * hl_logical_vma_ledger)) :=
  match c with
  | CallMapShared A m => with_mapping m (hl_logical_vma_map_shared A) h L
  | CallMapDirect A guest length protection host_first =>
      logical_vma_map_direct A guest length protection host_first h L
  | CallUnmap A guest length => hl_logical_vma_unmap (ha_realloc A) (ha_malloc A) guest length h L
  | CallProtect A guest length protection =>
      hl_logical_vma_protect (ha_realloc A) (ha_malloc A) guest length protection h L
  | CallRestore A m => with_mapping m (hl_logical_vma_global_restore_shared A) h L
  | CallTransactionShared A fail_next calloc mutex_ok m commit =>
      prepared ← with_mapping m (hl_logical_vma_prepare_shared fail_next calloc mutex_ok A) h L;
      settle commit L prepared
  | CallTransactionProtect A calloc mutex_ok guest length protection commit =>
      prepared ← hl_logical_vma_prepare_protect calloc mutex_ok (ha_realloc A) (ha_malloc A) guest length protection h L;
      settle commit L prepared
  | CallReclaim => '(h, L) ← hl_logical_vma_reclaim_quiescent h L; Some (0, (h, L))
  | CallReset A => '(h, L) ← hl_logical_vma_global_reset_quiescent (ha_malloc A) h L; Some (0, (h, L))
  end.

Definition mapping_sane (A : host_answers) (m : file_mapping) : Prop :=
  host_sane A /\ 0 <= fm_guest m /\ 0 <= fm_length m /\ 0 <= fm_offset m /\ 0 <= fm_page m <= UINT64_MAX.

(** Arguments are of their unsigned types.  A direct mapping must not lie
    strictly inside an entry (see [map_direct_split]); reset aborts the process
    when its empty snapshot cannot be allocated. *)
Definition call_sane (c : vma_call) (L : hl_logical_vma_ledger) : Prop :=
  match c with
  | CallMapShared A m | CallRestore A m | CallTransactionShared A _ _ _ m _ => mapping_sane A m
  | CallMapDirect A guest length _ host_first =>
      0 <= guest /\ 0 <= length /\ 0 <= host_first /\ countZ (splits guest (guest + length)) (entries L) = 0
  | CallUnmap A guest length | CallProtect A guest length _ | CallTransactionProtect A _ _ guest length _ _ =>
      0 <= guest /\ 0 <= length
  | CallReclaim => True
  | CallReset A => ha_malloc A sizeof_snapshot = true
  end.

(** States reached in [k] calls from initialisation. *)
Inductive vma_reach : nat -> vma_store -> hl_logical_vma_ledger -> Prop :=
| vma_reach_init : vma_reach 0 (mk_store ∅ 0 []) hl_logical_vma_init
| vma_reach_call k h L c errno h' L' :
    vma_reach k h L -> call_sane c L -> run_call c h L = Some (errno, (h', L')) -> vma_reach (S k) h' L'.

(** ** Sizes *)

Definition sized (n : Z) (L : hl_logical_vma_ledger) : Prop :=
  0 <= n /\ count L <= n /\ lengthZ (snap_owners L) <= n * n.

Lemma sized_room n L L' : sized n L -> room_used L L' -> sized (n + 2) L'.
Proof. unfold sized, room_used. intros (H1 & H2 & H3) [H4 H5]. split_and!; [lia|lia|nia]. Qed.

Lemma sized_mono n n' L : n <= n' -> sized n L -> sized n' L.
Proof. unfold sized. intros Hle (H1 & H2 & H3). split_and!; [lia|lia|nia]. Qed.

Lemma sized_fits n L : sized n L -> n <= 2 ^ 31 -> lengthZ (owners L ++ []) + 3 * count L + 8 < 2 ^ 62 + 2 ^ 40.
Proof.
  unfold sized, owners. intros (H1 & H2 & H3) Hn. rewrite app_nil_r, lengthZ_app, lengthZ_map. unfold count in *.
  assert (n * n <= 2 ^ 31 * 2 ^ 31) by (apply Z.mul_le_mono_nonneg; lia).
  change (2 ^ 31 * 2 ^ 31) with (2 ^ 62) in *. lia.
Qed.

Lemma sized_refs_fit n L : sized n L -> n <= 2 ^ 31 -> refs_fit L [].
Proof.
  intros Hs Hn. pose proof (sized_fits n L Hs Hn). unfold refs_fit. destruct Hs as (H1 & H2 & H3).
  pose proof (lengthZ_nonneg (entries L)). unfold count in *. lia.
Qed.

(** The published snapshot shows the entries; a fresh ledger has neither. *)
Definition shown (h : vma_store) (L : hl_logical_vma_ledger) : Prop :=
  published h L \/ entries L = [] /\ current L = None.

(** ** The invariant of the calls *)

Record live_ok (n : Z) (h : vma_store) (L : hl_logical_vma_ledger) : Prop := mk_live_ok {
  lv_ledger : ledger_ok h L [];
  lv_shown : shown h L;
  lv_sized : sized n L
}.

Definition call_result (n : Z) (r : option (Z * (vma_store * hl_logical_vma_ledger))) : Prop :=
  exists errno h' L', r = Some (errno, (h', L')) /\ live_ok n h' L'.

Lemma shown_same h L L' : entries L' = entries L -> current L' = current L -> shown h L -> shown h L'.
Proof.
  intros He Hc [(s & Hs & Hsn)|[H1 H2]]; [left; exists s; rewrite He, Hc; done|right; by rewrite He, Hc].
Qed.

Lemma shown_agree h h' L : agree (map backing (entries L)) h h' -> shown h L -> shown h' L.
Proof. intros Ha [Hp|Hn]; [left; by apply (published_stable h)|by right]. Qed.

(** A result that is either published or a refusal that kept the ledger. *)
Lemma result_ok n h L h' L' :
  live_ok n h L -> ledger_ok h' L' [] -> room_used L L' ->
  (published h' L' \/ h' = h /\ entries L' = entries L /\ current L' = current L) -> live_ok (n + 2) h' L'.
Proof.
  intros [H1 H2 H3] Hok Hused Hcase. constructor; [done| |by apply (sized_room _ L)].
  destruct Hcase as [Hp|(-> & He & Hc)]; [by left|by apply (shown_same h L)].
Qed.

(** ** What an operation does to the cells *)

(** A file mapping shows the file over its range and nothing else changes. *)
Definition maps_file (A : host_answers) (m : file_mapping) (h : vma_store) (L : hl_logical_vma_ledger)
    (h' : vma_store) (L' : hl_logical_vma_ledger) : Prop :=
  exists device inode, ha_fstat A (fm_fd m) = inr (device, inode) /\ 0 < fm_length m /\
    fm_guest m + fm_length m <= UINT64_MAX /\
    forall a, guest_cell h' L' a =
      if in_range (fm_guest m) (fm_guest m + fm_length m) a
      then Some (InFile device inode (fm_offset m + (a - fm_guest m)), fm_protection m, HL_LOGICAL_VMA_SHARED)
      else guest_cell h L a.

Definition reprotect_cell (first last prot a : Z) (c : location * Z * Z) : location * Z * Z :=
  let '(l, p, f) := c in (l, if in_range first last a then prot else p, f).

(** Protection changes protections over the range, and moves nothing. *)
Definition protects (guest length prot : Z) (h : vma_store) (L : hl_logical_vma_ledger)
    (h' : vma_store) (L' : hl_logical_vma_ledger) : Prop :=
  0 < length /\ guest + length <= UINT64_MAX /\
  forall a, guest_cell h' L' a = option_map (reprotect_cell guest (guest + length) prot a) (guest_cell h L a) /\
    host_address h' L' a = host_address h L a.

(** Unmapping empties the range, and moves nothing else. *)
Definition unmaps (guest length : Z) (h : vma_store) (L : hl_logical_vma_ledger)
    (h' : vma_store) (L' : hl_logical_vma_ledger) : Prop :=
  guest + length <= UINT64_MAX /\
  forall a, guest_cell h' L' a = (if in_range guest (guest + length) a then None else guest_cell h L a) /\
    host_address h' L' a = (if in_range guest (guest + length) a then None else host_address h L a).

Lemma cell_of_mapped h h' L L' a :
  mapped (entries L') a = mapped (entries L) a -> agree (map backing (entries L')) h h' ->
  guest_cell h' L' a = guest_cell h L a /\ host_address h' L' a = host_address h L a.
Proof.
  intros Hm Ha. unfold guest_cell, host_address. rewrite Hm.
  destruct (mapped (entries L) a) as [[[[b o] p] f]|] eqn:Hl; [|done]. simpl.
  by rewrite (Ha b) by by eapply mapped_backing.
Qed.

Lemma cells_same h L L' a : entries L' = entries L ->
  guest_cell h L' a = guest_cell h L a /\ host_address h L' a = host_address h L a.
Proof. intros He. apply cell_of_mapped; [by rewrite He|done]. Qed.

Lemma map_shared_result A m h L rest :
  mapping_sane A m -> ledger_ok h L rest -> refs_fit L rest ->
  exists errno h' L', with_mapping m (hl_logical_vma_map_shared A) h L = Some (errno, (h', L')) /\
    ledger_ok h' L' rest /\ room_used L L' /\ agree (snap_owners L ++ rest) h h' /\
    if errno =? 0 then maps_file A m h L h' L' /\ published h' L'
    else h' = h /\ entries L' = entries L /\ current L' = current L.
Proof.
  intros (HA & Hg & Hl & Ho & Hp) Hok Hfit. unfold with_mapping, maps_file.
  destruct (map_shared_spec A (fm_guest m) (fm_length m) (fm_protection m) (fm_fd m) (fm_offset m) (fm_page m) h L rest)
    as (errno & h' & L' & Hrun & Hok' & Hused & Ha & Hcase); try done.
  exists errno, h', L'. split_and!; try done. destruct (errno =? 0); [|done].
  destruct Hcase as (device & inode & Hf & Hlen & Hend & Hpd & Hcells). split; [|done]. by exists device, inode.
Qed.

Lemma protect_result realloc malloc guest length prot h L rest :
  ledger_ok h L rest -> refs_fit L rest -> 0 <= guest -> 0 <= length ->
  exists errno h' L', hl_logical_vma_protect realloc malloc guest length prot h L = Some (errno, (h', L')) /\
    ledger_ok h' L' rest /\ room_used L L' /\ (forall b, stat h' b = stat h b) /\
    if errno =? 0 then protects guest length prot h L h' L' /\ published h' L'
    else h' = h /\ entries L' = entries L /\ current L' = current L.
Proof.
  intros Hok Hfit Hg Hl.
  destruct (protect_spec realloc malloc guest length prot h L rest Hok Hfit Hg Hl)
    as (errno & h' & L' & Hrun & Hok' & Hused & Hcase).
  exists errno, h', L'. split; [done|]. split; [done|]. split; [done|]. destruct (errno =? 0).
  2: { destruct Hcase as (-> & Hrest). by split. }
  destruct Hcase as (Hlen & Hend & Hpd & Hm & Hs). split; [done|]. split; [|done]. split; [done|]. split; [done|].
  intros a. unfold guest_cell, host_address. rewrite Hm.
  destruct (mapped (entries L) a) as [[[[b o] p] f]|]; [|done]. simpl. rewrite Hs.
  destruct (stat h b); [|done]. simpl. done.
Qed.

Lemma unmap_result realloc malloc guest length h L rest :
  ledger_ok h L rest -> refs_fit L rest -> 0 <= guest -> 0 <= length ->
  exists errno h' L', hl_logical_vma_unmap realloc malloc guest length h L = Some (errno, (h', L')) /\
    ledger_ok h' L' rest /\ room_used L L' /\ agree (snap_owners L ++ rest) h h' /\
    if errno =? 0 then unmaps guest length h L h' L' /\ (0 < length -> published h' L')
    else h' = h /\ entries L' = entries L /\ current L' = current L.
Proof.
  intros Hok Hfit Hg Hl.
  destruct (unmap_spec realloc malloc guest length h L rest Hok Hfit Hg Hl)
    as (errno & h' & L' & Hrun & Hok' & Hused & Hcase).
  exists errno, h', L'. split; [done|]. split; [done|]. split; [done|]. destruct (errno =? 0).
  2: { destruct Hcase as (-> & Hrest). by split. }
  destruct Hcase as (Hend & Hpd & Hm & Ha). split; [eapply agree_incl; [|exact Ha]; by apply incl_appr, incl_refl|].
  split; [|done]. split; [done|]. intros a. specialize (Hm a).
  destruct (in_range guest (guest + length) a).
  - unfold guest_cell, host_address. by rewrite Hm.
  - apply cell_of_mapped; [done|]. eapply agree_incl; [|exact Ha]. by apply incl_appl, incl_refl.
Qed.

(** ** Transactions *)

(** What a change promises a transaction. *)
Definition change_effect (Q : vma_store -> hl_logical_vma_ledger -> vma_store -> hl_logical_vma_ledger -> Prop)
    (h : vma_store) (L : hl_logical_vma_ledger) (h' : vma_store) (L' : hl_logical_vma_ledger) : Prop :=
  room_used L L' /\ (snap_owners L = [] -> lengthZ (snap_owners L') <= count L') /\ published h' L' /\ Q h L h' L'.

Lemma effect_snapshots L L' : room_used L L' -> snap_owners L = [] -> lengthZ (snap_owners L') <= count L'.
Proof. intros [_ H] He. rewrite He in H. change (lengthZ []) with 0 in H. lia. Qed.

Lemma map_shared_change A m :
  mapping_sane A m -> change_ok (with_mapping m (hl_logical_vma_map_shared A)) (change_effect (maps_file A m)).
Proof.
  intros Hs h L rest Hok Hfit.
  destruct (map_shared_result A m h L rest Hs Hok Hfit) as (errno & h' & L' & Hrun & Hok' & Hused & Ha & Hcase).
  exists errno, h', L'. split; [done|]. split; [done|]. split; [eapply agree_incl; [|exact Ha]; by apply incl_appr, incl_refl|].
  intros ->. destruct Hcase. split_and!; try done. intros. by apply (effect_snapshots L).
Qed.

Lemma protect_change realloc malloc guest length prot :
  0 <= guest -> 0 <= length ->
  change_ok (hl_logical_vma_protect realloc malloc guest length prot) (change_effect (protects guest length prot)).
Proof.
  intros Hg Hl h L rest Hok Hfit.
  destruct (protect_result realloc malloc guest length prot h L rest Hok Hfit Hg Hl)
    as (errno & h' & L' & Hrun & Hok' & Hused & Hs & Hcase).
  exists errno, h', L'. split; [done|]. split; [done|]. split; [by intros b _|].
  intros ->. destruct Hcase. split_and!; try done. intros. by apply (effect_snapshots L).
Qed.

(** A prepared plan and its live ledger. *)
Definition prepared_ok (Q : vma_store -> hl_logical_vma_ledger -> vma_store -> hl_logical_vma_ledger -> Prop)
    (h : vma_store) (live : hl_logical_vma_ledger) (rest : list Z)
    (prepared : Z * option hl_logical_vma_ledger * vma_store) : Prop :=
  let '(errno, plan, h') := prepared in
  agree (owners live ++ rest) h h' /\
  match plan with
  | None => errno <> 0 /\ ledger_ok h' live rest /\ backings h' = backings h
  | Some staged => errno = 0 /\ ledger_ok h' live (owners staged ++ rest) /\
      ledger_ok h' staged (owners live ++ rest) /\ count staged <= count live + 2 /\
      lengthZ (snap_owners staged) <= count staged /\ published h' staged /\
      exists h1 L1, Q h1 L1 h' staged /\ entries L1 = entries live /\ forall b, stat h1 b = stat h b
  end.

Lemma prepare_result calloc mutex_ok realloc change Q h live rest :
  change_ok change (change_effect Q) -> ledger_ok h live rest ->
  lengthZ (owners live ++ rest) + 3 * count live + 8 < 2 ^ 64 ->
  exists prepared, prepare_with calloc mutex_ok realloc change h live = Some prepared /\
    prepared_ok Q h live rest prepared.
Proof.
  intros Hc Hok Hfit.
  destruct (prepare_spec calloc mutex_ok realloc change _ h live rest Hc Hok Hfit) as (errno & plan & h' & Hrun & Ha & Hp).
  exists (errno, plan, h'). split; [done|]. split; [done|]. destruct plan as [staged|]; [|done].
  destruct Hp as (He & H1 & H2 & h1 & L1 & (Hused & Hsnap & Hpd & HQ) & HL1 & Hso & Hs1).
  destruct Hused as [Hcount _]. unfold count in Hcount. rewrite HL1 in Hcount.
  split_and!; try done; [by apply Hsnap|by exists h1, L1].
Qed.

Lemma settle_result Q commit n h live prepared :
  live_ok n h live -> prepared_ok Q h live [] prepared -> call_result (n + 2) (settle commit live prepared).
Proof.
  intros [Hok Hsh Hsz] Hp. destruct prepared as [[errno plan] h']. destruct Hp as [Ha Hp].
  assert (Hal : agree (map backing (entries live)) h h').
  { eapply agree_incl; [|exact Ha]. unfold owners. rewrite <- app_assoc. by apply incl_appl, incl_refl. }
  assert (Hsz' : sized (n + 2) live) by (eapply sized_mono; [|exact Hsz]; lia).
  destruct plan as [staged|]; simpl.
  2: { destruct Hp as (_ & Hok' & _). exists errno, h', live. split; [done|]. constructor; [done| |done]. by apply (shown_agree h). }
  destruct Hp as (_ & H1 & H2 & Hc & Hso & Hpd & _). destruct commit.
  - destruct (commit_spec h' live staged [] H1 H2) as (h2 & L2 & -> & Hok2 & He2 & Hc2 & Ha2 & Hso2 & _). simpl.
    exists 0, h2, L2. split; [done|]. constructor; [done| |].
    + left. destruct (published_agree h' h2 staged Hpd) as (s & Hs & Hsn).
      { eapply agree_incl; [|exact Ha2]. by apply incl_appl, incl_refl. }
      exists s. by rewrite Hc2, He2.
    + destruct Hsz as (Z1 & Z2 & Z3). unfold sized. rewrite (lengthZ_perm _ _ Hso2), lengthZ_app. unfold count in *.
      rewrite He2. split_and!; [lia|lia|nia].
  - destruct (abort_spec h' live staged [] H1 H2) as (h2 & -> & Hok2 & Ha2). simpl.
    exists 0, h2, live. split; [done|]. constructor; [done| |done].
    apply (shown_agree h); [|done]. eapply agree_trans; [exact Hal|]. eapply agree_incl; [|exact Ha2].
    unfold owners. rewrite <- app_assoc. by apply incl_appl, incl_refl.
Qed.

(** ** Every call keeps the invariant *)

Section Calls.
Variables (n : Z) (h : vma_store) (L : hl_logical_vma_ledger).
Hypothesis Hlive : live_ok n h L.
Hypothesis Hn : n <= 2 ^ 31.

Lemma live_fits : refs_fit L [] /\ lengthZ (owners L ++ []) + 3 * count L + 8 < 2 ^ 64.
Proof.
  destruct Hlive as [_ _ Hs]. split; [by apply (sized_refs_fit n)|]. pose proof (sized_fits n L Hs Hn). lia.
Qed.

Lemma map_shared_call A m : mapping_sane A m -> call_result (n + 2) (with_mapping m (hl_logical_vma_map_shared A) h L).
Proof.
  intros Hs. destruct live_fits as [Hf _].
  destruct (map_shared_result A m h L [] Hs (lv_ledger _ _ _ Hlive) Hf)
    as (errno & h' & L' & -> & Hok' & Hused & _ & Hcase).
  exists errno, h', L'. split; [done|]. apply (result_ok _ h L); try done. destruct (errno =? 0); [left; apply Hcase|by right].
Qed.

Lemma protect_call realloc malloc guest length prot :
  0 <= guest -> 0 <= length -> call_result (n + 2) (hl_logical_vma_protect realloc malloc guest length prot h L).
Proof.
  intros Hg Hl. destruct live_fits as [Hf _].
  destruct (protect_result realloc malloc guest length prot h L [] (lv_ledger _ _ _ Hlive) Hf Hg Hl)
    as (errno & h' & L' & -> & Hok' & Hused & _ & Hcase).
  exists errno, h', L'. split; [done|]. apply (result_ok _ h L); try done. destruct (errno =? 0); [left; apply Hcase|by right].
Qed.

Lemma unmap_call realloc malloc guest length :
  0 <= guest -> 0 <= length -> call_result (n + 2) (hl_logical_vma_unmap realloc malloc guest length h L).
Proof.
  intros Hg Hl. destruct live_fits as [Hf _]. destruct (Z.eq_dec length 0) as [->|Hne].
  { unfold hl_logical_vma_unmap. assert (live_ok (n + 2) h L).
    { destruct Hlive. constructor; [done|done|]. eapply sized_mono; [|done]. lia. }
    destruct (_ <? guest); [by exists VMA_EINVAL, h, L|]. simpl. by exists 0, h, L. }
  destruct (unmap_result realloc malloc guest length h L [] (lv_ledger _ _ _ Hlive) Hf Hg Hl)
    as (errno & h' & L' & -> & Hok' & Hused & _ & Hcase).
  exists errno, h', L'. split; [done|]. apply (result_ok _ h L); try done.
  destruct (errno =? 0); [left; apply Hcase; lia|by right].
Qed.

Lemma map_direct_call A guest length prot host :
  call_sane (CallMapDirect A guest length prot host) L ->
  call_result (n + 2) (logical_vma_map_direct A guest length prot host h L).
Proof.
  intros (Hg & Hl & Hh & Hs). destruct live_fits as [Hf _].
  destruct (map_direct_spec A guest length prot host h L [] (lv_ledger _ _ _ Hlive) Hf Hg Hl Hh Hs)
    as (errno & h' & L' & -> & Hok' & Hused & _ & Hcase).
  exists errno, h', L'. split; [done|]. apply (result_ok _ h L); try done. destruct (errno =? 0); [left; apply Hcase|by right].
Qed.

Lemma transaction_call calloc mutex_ok realloc change Q commit :
  change_ok change (change_effect Q) ->
  call_result (n + 2) (prepared ← prepare_with calloc mutex_ok realloc change h L; settle commit L prepared).
Proof.
  intros Hc. destruct live_fits as [_ Hf].
  destruct (prepare_result calloc mutex_ok realloc change Q h L [] Hc (lv_ledger _ _ _ Hlive) Hf) as (p & -> & Hp).
  by apply (settle_result Q commit n h).
Qed.

Lemma reclaim_call : call_result (n + 2) (run_call CallReclaim h L).
Proof.
  destruct Hlive as [Hok Hsh Hsz]. destruct (reclaim_spec h L [] Hok) as (h' & L' & Hrun & Hok' & He & Hc & Hr & Ha).
  simpl. rewrite Hrun. simpl. exists 0, h', L'. split; [done|]. rewrite app_nil_r in Ha. constructor; [done| |].
  - apply (shown_same h' L); [done|done|]. by apply (shown_agree h).
  - destruct Hsz as (Z1 & Z2 & Z3). unfold sized, snap_owners, count in *. rewrite He, Hc, Hr. simpl.
    rewrite app_nil_r. rewrite lengthZ_app in Z3. pose proof (lengthZ_nonneg (concat (map snap_backings (retired L)))).
    split_and!; [lia|lia|nia].
Qed.

Lemma reset_call A : ha_malloc A sizeof_snapshot = true -> call_result (n + 2) (run_call (CallReset A) h L).
Proof.
  intros Hm. destruct Hlive as [Hok Hsh Hsz].
  destruct (reset_spec (ha_malloc A) h L [] Hok Hm) as (h' & L' & Hrun & Hok' & Hpd & Ho & _).
  simpl. rewrite Hrun. simpl. exists 0, h', L'. split; [done|]. constructor; [done|by left|].
  destruct Hsz as (Z1 & Z2 & Z3). unfold owners in Ho. apply app_eq_nil in Ho as [Ho1 Ho2]. unfold sized.
  rewrite Ho2. unfold count. apply map_eq_nil in Ho1. rewrite Ho1. change (lengthZ []) with 0.
  change (lengthZ []) with 0. split_and!; [lia|simpl; unfold lengthZ; simpl; lia|nia].
Qed.
End Calls.

Lemma live_mono n n' h L : n <= n' -> live_ok n h L -> live_ok n' h L.
Proof. intros Hle [H1 H2 H3]. constructor; [done|done|by apply (sized_mono n)]. Qed.

Lemma call_result_mono n n' r : n <= n' -> call_result n r -> call_result n' r.
Proof. intros Hle (e & h & L & Hr & Hl). exists e, h, L. split; [done|]. by apply (live_mono n). Qed.

Lemma restore_call A m n h L :
  live_ok n h L -> n + 2 <= 2 ^ 31 -> mapping_sane A m ->
  call_result (n + 4) (with_mapping m (hl_logical_vma_global_restore_shared A) h L).
Proof.
  intros Hlive Hn Hs. unfold with_mapping, hl_logical_vma_global_restore_shared.
  set (m' := mk_file_mapping (fm_guest m) (fm_length m) (Z.lor (fm_protection m) HL_LOGICAL_VMA_WRITE) (fm_fd m)
    (fm_offset m) (fm_page m)).
  destruct (map_shared_call n h L Hlive ltac:(lia) A m' Hs) as (errno & h1 & L1 & Hrun & Hlive1).
  unfold with_mapping in Hrun. simpl in Hrun. rewrite Hrun. cbn [mbind option_bind].
  assert (Hlive2 : live_ok (n + 4) h1 L1) by (eapply live_mono; [|exact Hlive1]; lia).
  destruct (negb _); [by exists errno, h1, L1|]. destruct (_ =? fm_protection m); [by exists 0, h1, L1|].
  destruct Hs as (_ & Hg & Hl & _). replace (n + 4) with (n + 2 + 2) by lia. by apply protect_call.
Qed.

Lemma run_call_ok c n h L :
  live_ok n h L -> n + 2 <= 2 ^ 31 -> call_sane c L -> call_result (n + 4) (run_call c h L).
Proof.
  intros Hlive Hn Hs.
  assert (Hweak : forall r, call_result (n + 2) r -> call_result (n + 4) r) by (intros r; apply call_result_mono; lia).
  destruct c as [A m|A g l p host|A g l|A g l p|A m|A fail calloc mutex m commit|A calloc mutex g l p commit| |A];
    simpl in Hs |- *; [apply Hweak..| | | | |].
  - by apply (map_shared_call n h L Hlive ltac:(lia)).
  - by apply (map_direct_call n h L Hlive ltac:(lia)).
  - destruct Hs. by apply (unmap_call n h L Hlive ltac:(lia)).
  - destruct Hs. by apply (protect_call n h L Hlive ltac:(lia)).
  - by apply restore_call.
  - apply Hweak. unfold with_mapping, hl_logical_vma_prepare_shared. destruct fail.
    { simpl. exists VMA_ENOMEM, h, L. split; [done|]. eapply live_mono; [|exact Hlive]. lia. }
    by apply (transaction_call n h L Hlive ltac:(lia) _ _ _ _ _ commit (map_shared_change A m Hs)).
  - destruct Hs as [Hg Hl]. apply Hweak.
    by apply (transaction_call n h L Hlive ltac:(lia) _ _ _ _ _ commit (protect_change _ _ g l p Hg Hl)).
  - apply Hweak. by apply (reclaim_call n h L Hlive ltac:(lia)).
  - apply Hweak. by apply (reset_call n h L Hlive ltac:(lia)).
Qed.

Lemma live_init : live_ok 0 (mk_store ∅ 0 []) hl_logical_vma_init.
Proof.
  constructor; [|by right|].
  - constructor; [constructor|done|done| |intros b1 b2 k1 k2 []].
    constructor; simpl; [by intros b []|intros b bk; by rewrite lookup_empty|intros b bk; unfold stat; simpl; by rewrite lookup_empty|done].
  - unfold sized, count. simpl. change (lengthZ []) with 0. by split_and!.
Qed.

Lemma reach_live k h L : vma_reach k h L -> Z.of_nat k <= 2 ^ 28 -> live_ok (4 * Z.of_nat k) h L.
Proof.
  induction 1 as [|k h L c errno h' L' _ IH Hs Hrun]; intros Hk; [apply live_init|].
  destruct (run_call_ok c (4 * Z.of_nat k) h L (IH ltac:(lia)) ltac:(lia) Hs) as (e & h2 & L2 & Hrun2 & Hl).
  rewrite Hrun in Hrun2. injection Hrun2 as <- <- <-. eapply live_mono; [|exact Hl]. lia.
Qed.

(** ** Logical VMA ledger: the generation

    A call leaves the published snapshot and the generation alone, or steps the
    generation: what a reader remembers under a generation is what it would be
    answered now. *)

Definition kept (L L' : hl_logical_vma_ledger) : Prop := current L' = current L /\ generation L' = generation L.

Definition stepped (L L' : hl_logical_vma_ledger) : Prop := generation L < generation L' <= generation L + 4.

Lemma kept_trans L1 L2 L3 : kept L1 L2 -> kept L2 L3 -> kept L1 L3.
Proof. intros [H1 H2] [H3 H4]. split; congruence. Qed.

(** ** The parts of a call *)

Lemma grow_kept realloc need L L' : grow realloc need L = inr L' -> kept L L'.
Proof. unfold grow. intros H. repeat case_match_in H; simplify_eq; done. Qed.

Lemma append_kept e L L' : append_entry e L = Some L' -> kept L L'.
Proof. unfold append_entry. intros H. repeat case_match_in H; simplify_eq; done. Qed.

Lemma unmap_loop_kept realloc fuel first last : forall index h L r h' L',
  unmap_loop realloc fuel first last index h L = Some (r, (h', L')) -> kept L L'.
Proof.
  induction fuel as [|fuel IH]; intros index h L r h' L' H; [done|]. cbn [unmap_loop] in H.
  destruct (lookupZ (entries L) index) as [e|]; [|by simplify_eq].
  destruct (_ || _); [by eapply IH|]. destruct (_ && _).
  { destruct (backing_put _ h) as [h1|]; [|done]. by apply IH in H. }
  destruct (_ && _); [|by apply IH in H].
  destruct (grow realloc (count L + 1) L) as [errno|L1] eqn:Hg; [by simplify_eq|]. apply grow_kept in Hg.
  destruct (backing_get _ h) as [h1|]; [|done]. cbn [mbind option_bind] in H.
  destruct (append_entry _ _) as [L2|] eqn:Ha; [|done]. apply append_kept in Ha. cbn [mbind option_bind] in H.
  apply IH in H. exact (kept_trans _ _ _ Hg (kept_trans _ _ _ Ha H)).
Qed.

Lemma append_entries_kept l : forall h L h' L', append_entries l h L = Some (h', L') -> kept L L'.
Proof.
  induction l as [|e l IH]; intros h L h' L' H; simpl in H; [by simplify_eq|].
  destruct (backing_get _ h) as [h1|]; [|done]. cbn [mbind option_bind] in H.
  destruct (append_entry e L) as [L1|] eqn:Ha; [|done]. cbn [mbind option_bind] in H.
  exact (kept_trans _ _ _ (append_kept _ _ _ Ha) (IH _ _ _ _ H)).
Qed.

Lemma protect_loop_kept n first last prot : forall index h L h' L',
  protect_loop n first last prot index h L = Some (h', L') -> kept L L'.
Proof.
  induction n as [|n IH]; intros index h L h' L' H; simpl in H; [by simplify_eq|].
  destruct (lookupZ (entries L) index) as [e|]; [|done]. cbn [mbind option_bind] in H.
  destruct (misses first last e); [by eapply IH|]. destruct (protect_pieces first last prot e) as [e' added].
  destruct (append_entries added h _) as [[h1 L1]|] eqn:Ha; [|done]. cbn [mbind option_bind] in H.
  apply append_entries_kept in Ha. apply IH in H. exact (kept_trans _ _ _ Ha H).
Qed.

Lemma drop_kept h L h' L' : drop_entries h L = Some (h', L') -> kept L L'.
Proof. unfold drop_entries. destruct (put_all _ h); [|done]. by intros [= _ <-]. Qed.

(** ** Publication *)

Section Bounded.
Context (L : hl_logical_vma_ledger) (Hg : 0 <= generation L) (Hmax : generation L + 4 < 2 ^ 64).

Lemma bump_value L' : kept L L' -> u64 (u64 (generation L' + 1) + 1) = generation L + 2.
Proof using Hg Hmax. intros [_ ->]. rewrite !u64_small; [lia|lia|rewrite u64_small; lia]. Qed.

Lemma publish_steps room h L1 h' L' :
  kept L L1 -> publish_locked room h L1 = Some (h', L') -> generation L' = generation L + 2.
Proof using Hg Hmax.
  intros Hk H. unfold publish_locked in H. destruct (fill_snapshot room h (entries L1)) as [[s h1]|]; [|done].
  cbn [mbind option_bind] in H. simplify_eq. simpl. by apply bump_value.
Qed.

Lemma install_steps realloc room guest last offset protection flags new h L1 r h' L' :
  kept L L1 -> install_mapping realloc room guest last offset protection flags new h L1 = Some (r, (h', L')) ->
  generation L' = generation L + 2.
Proof using Hg Hmax.
  intros Hk H. unfold install_mapping, unmap_locked in H.
  destruct (unmap_loop _ _ _ _ _ h L1) as [[r1 [h1 L2]]|] eqn:Hu; [|done]. apply unmap_loop_kept in Hu.
  cbn [mbind option_bind] in H. destruct (backing_get new h1) as [h2|]; [|done]. cbn [mbind option_bind] in H.
  destruct (append_entry _ L2) as [L3|] eqn:Ha; [|done]. apply append_kept in Ha. cbn [mbind option_bind] in H.
  destruct (publish_locked room h2 L3) as [[h3 L4]|] eqn:Hp; [|done]. cbn [mbind option_bind] in H.
  destruct (backing_put new h3) as [h4|]; [|done]. cbn [mbind option_bind] in H. simplify_eq.
  apply (publish_steps room h2 L3 h3); [|done]. exact (kept_trans _ _ _ Hk (kept_trans _ _ _ Hu Ha)).
Qed.

(** The outcome of one operation. *)
Definition once (L' : hl_logical_vma_ledger) : Prop := kept L L' \/ generation L' = generation L + 2.

Lemma once_refl : once L.
Proof using. by left. Qed.

Lemma map_shared_once A guest length protection fd file_offset host_page h r h' L' :
  hl_logical_vma_map_shared A guest length protection fd file_offset host_page h L = Some (r, (h', L')) -> once L'.
Proof using Hg Hmax.
  unfold hl_logical_vma_map_shared. intros H. destruct (_ || _); [simplify_eq; apply once_refl|].
  destruct (ha_fstat A fd) as [errno|[device inode]]; [simplify_eq; apply once_refl|].
  destruct (_ || _); [simplify_eq; apply once_refl|].
  destruct (grow _ _ L) as [errno|L1] eqn:Hgr; [simplify_eq; apply once_refl|]. apply grow_kept in Hgr.
  destruct (snapshot_allocate _ _) as [errno|room]; [simplify_eq; by left|].
  destruct (UINT64_MAX - (host_page - 1) <? file_offset + length); [simplify_eq; by left|].
  destruct (widen _ _ _ _ _ _ _) as [x|]; [|done]. cbn [mbind option_bind] in H.
  destruct (_ || _); [simplify_eq; by left|]. destruct (ha_mmap _ _ _ _ _) as [errno|mapping]; [simplify_eq; by left|].
  destruct (negb _); [simplify_eq; by left|]. destruct (ha_dupfd _ _) as [errno|retained]; [simplify_eq; by left|].
  destruct (new_backing _ h) as [new h1]. destruct (rebind_entries _ _ _ h1) as [[l h2]|]; [|done].
  cbn [mbind option_bind] in H. right. by eapply install_steps, H.
Qed.

Lemma map_direct_once A guest length protection host_first h r h' L' :
  logical_vma_map_direct A guest length protection host_first h L = Some (r, (h', L')) -> once L'.
Proof using Hg Hmax.
  unfold logical_vma_map_direct. intros H. destruct (_ || _); [simplify_eq; apply once_refl|].
  destruct (grow _ _ L) as [errno|L1] eqn:Hgr; [simplify_eq; apply once_refl|]. apply grow_kept in Hgr.
  destruct (snapshot_allocate _ _) as [errno|room]; [simplify_eq; by left|].
  destruct (negb _); [simplify_eq; by left|]. destruct (new_backing _ h) as [new h1]. right. by eapply install_steps, H.
Qed.

Lemma unmap_once realloc malloc guest length h r h' L' :
  hl_logical_vma_unmap realloc malloc guest length h L = Some (r, (h', L')) -> once L'.
Proof using Hg Hmax.
  unfold hl_logical_vma_unmap, unmap_locked. intros H. destruct (UINT64_MAX - length <? guest); [simplify_eq; apply once_refl|].
  destruct (length =? 0); [simplify_eq; apply once_refl|].
  destruct (grow _ _ L) as [errno|L1] eqn:Hgr; [simplify_eq; apply once_refl|]. apply grow_kept in Hgr.
  destruct (snapshot_allocate _ _) as [errno|room]; [simplify_eq; by left|].
  destruct (unmap_loop _ _ _ _ _ h L1) as [[r1 [h1 L2]]|] eqn:Hu; [|done]. apply unmap_loop_kept in Hu.
  cbn [mbind option_bind] in H. destruct (publish_locked room h1 L2) as [[h3 L4]|] eqn:Hp; [|done].
  cbn [mbind option_bind] in H. simplify_eq. right.
  apply (publish_steps room h1 L2 h'); [|done]. exact (kept_trans _ _ _ Hgr Hu).
Qed.

Lemma protect_once realloc malloc guest length prot h r h' L' :
  hl_logical_vma_protect realloc malloc guest length prot h L = Some (r, (h', L')) -> once L'.
Proof using Hg Hmax.
  unfold hl_logical_vma_protect. intros H. destruct (_ || _); [simplify_eq; apply once_refl|].
  destruct (grow _ _ L) as [errno|L1] eqn:Hgr; [simplify_eq; apply once_refl|]. apply grow_kept in Hgr.
  destruct (snapshot_allocate _ _) as [errno|room]; [simplify_eq; by left|].
  destruct (protect_loop _ _ _ _ _ h L1) as [[h1 L2]|] eqn:Hu; [|done]. apply protect_loop_kept in Hu.
  cbn [mbind option_bind] in H. destruct (publish_locked room h1 L2) as [[h3 L4]|] eqn:Hp; [|done].
  cbn [mbind option_bind] in H. simplify_eq. right.
  apply (publish_steps room h1 L2 h'); [|done]. exact (kept_trans _ _ _ Hgr Hu).
Qed.

Lemma settle_once commit prepared r h' L' :
  settle commit L prepared = Some (r, (h', L')) -> once L'.
Proof using Hg Hmax.
  unfold settle. destruct prepared as [[errno [staged|]] h]; intros H; [|simplify_eq; apply once_refl].
  destruct commit.
  - unfold hl_logical_vma_commit_shared in H. destruct (drop_entries h L) as [[h1 L1]|] eqn:Hd; [|done].
    cbn [mbind option_bind] in H. simplify_eq. right. simpl. apply drop_kept in Hd. by apply bump_value.
  - destruct (hl_logical_vma_abort_shared h staged) as [h1|]; [|done]. cbn [mbind option_bind] in H. simplify_eq. apply once_refl.
Qed.
End Bounded.

(** One call of the ledger. *)
Lemma call_generation c h L errno h' L' :
  0 <= generation L -> generation L + 8 < 2 ^ 64 -> run_call c h L = Some (errno, (h', L')) -> kept L L' \/ stepped L L'.
Proof.
  intros Hg Hmax Hr.
  assert (Honce : once L L' -> kept L L' \/ stepped L L') by (intros [H|H]; [by left|right; unfold stepped; lia]).
  destruct c as [A m|A guest len prot host|A guest len|A guest len prot|A m|A fn ca mu m commit|A ca mu guest len prot commit| |A];
    simpl in Hr.
  - apply Honce. unfold with_mapping in Hr. apply map_shared_once in Hr; [done|lia|lia].
  - apply Honce. apply map_direct_once in Hr; [done|lia|lia].
  - apply Honce. apply unmap_once in Hr; [done|lia|lia].
  - apply Honce. apply protect_once in Hr; [done|lia|lia].
  - unfold with_mapping, hl_logical_vma_global_restore_shared in Hr.
    destruct (hl_logical_vma_map_shared _ _ _ _ _ _ _ h L) as [[e1 [h1 L1]]|] eqn:Hm; [|done].
    cbn [mbind option_bind] in Hr. apply map_shared_once in Hm; [|lia|lia].
    destruct (negb (e1 =? 0)); [simplify_eq; by apply Honce|]. destruct (_ =? fm_protection m); [simplify_eq; by apply Honce|].
    assert (H1 : generation L <= generation L1 <= generation L + 2) by (destruct Hm as [[_ ->]| ->]; lia).
    apply protect_once in Hr; [|lia|lia]. destruct Hm as [[Hc Hge]|Hm], Hr as [[Hc' Hge']|Hr];
      [left; split; congruence|right; unfold stepped; lia..].
  - destruct (with_mapping m _ h L) as [prepared|]; [|done]. cbn [mbind option_bind] in Hr. apply Honce. apply settle_once in Hr; [done|lia|lia].
  - destruct (hl_logical_vma_prepare_protect _ _ _ _ _ _ _ h L) as [prepared|]; [|done]. cbn [mbind option_bind] in Hr.
    apply Honce. apply settle_once in Hr; [done|lia|lia].
  - unfold hl_logical_vma_reclaim_quiescent in Hr. destruct (free_retired _ h) as [h1|]; [|done].
    cbn [mbind option_bind] in Hr. simplify_eq. by left.
  - unfold hl_logical_vma_global_reset_quiescent, hl_logical_vma_reclaim_quiescent in Hr.
    destruct (snapshot_allocate _ 0) as [e|room]; [done|]. destruct (drop_entries h L) as [[h1 L1]|] eqn:Hd; [|done].
    apply drop_kept in Hd. cbn [mbind option_bind] in Hr.
    destruct (publish_locked room h1 L1) as [[h2 L2]|] eqn:Hp; [|done]. cbn [mbind option_bind] in Hr.
    destruct (free_retired _ h2) as [h3|]; [|done]. cbn [mbind option_bind] in Hr. simplify_eq.
    apply publish_steps with (L := L) in Hp; [|lia|lia|done]. right. unfold stepped. simpl. lia.
Qed.
