(* ===== verification/VmaReads.v ===== *)
(** * What readers of the ledger see

    Resolution, execution spans, pins and copies, related to the cells and the
    host addresses of the live entries. *)

From stdpp Require Import gmap.
From Stdlib Require Import Sorting.Sorted.
From S2P Require Import Prelude VmaLedger VmaReaders VmaIntervals VmaOps VmaInvariant VmaMap.
From S2P Require Import VmaCalls VmaSteps.

(** ** Entries and cells *)

(** An entry maps every address it covers, within its backing. *)
Lemma cell_of_entry h L rest a e :
  ledger_ok h L rest -> In e (entries L) -> covers a e = true ->
  exists bk, stat h (backing e) = Some bk /\ backing_ok bk /\ 0 <= position e a < b_length bk /\
    mapped (entries L) a = Some (backing e, position e a, protection e, flags e) /\
    host_address h L a = Some (b_mapping bk + position e a) /\
    guest_cell h L a = Some (if b_borrowed bk then AtHost (b_mapping bk + position e a)
      else InFile (b_device bk) (b_inode bk) (b_file_offset bk + position e a), protection e, flags e).
Proof.
  intros [He Hp _ Hst _] Hin Hc. rewrite List.Forall_forall in He. destruct (He e Hin) as (bk & Hbk & Hs).
  assert (Hm : mapped (entries L) a = Some (backing e, position e a, protection e, flags e)).
  { apply mapped_maps; [done|]. by exists e. }
  pose proof (so_ok _ _ Hst _ _ Hbk) as Hok. apply covers_spec in Hc. destruct Hs as (S1 & S2 & S3 & S4 & S5).
  exists bk. unfold guest_cell, host_address. rewrite Hm. simpl. rewrite Hbk. simpl.
  split_and!; try done; unfold position; lia.
Qed.

Lemma cell_entry h L a c :
  guest_cell h L a = Some c -> exists e, In e (entries L) /\ covers a e = true.
Proof.
  unfold guest_cell, mapped. destruct (find_entry a (entries L)) as [e|] eqn:Hf; [|done]. intros _.
  exists e. by apply find_entry_Some.
Qed.

Lemma no_cell h L rest a :
  ledger_ok h L rest -> find_entry a (entries L) = None <-> guest_cell h L a = None.
Proof.
  intros Hok. unfold guest_cell, mapped. destruct (find_entry a (entries L)) as [e|] eqn:Hf; simpl; [|done].
  split; [done|]. intros Hn. apply find_entry_Some in Hf as [Hin Hc].
  destruct (cell_of_entry h L rest a e Hok Hin Hc) as (bk & _ & _ & _ & Hm & _ & Hcell).
  unfold guest_cell in Hcell. rewrite Hm in Hcell. unfold meaning in Hn. simpl in Hcell, Hn. congruence.
Qed.

(** Two addresses that show the same byte of a file lie at the same host address. *)
Lemma alias_host h L rest a a' d i o p f p' f' :
  ledger_ok h L rest -> guest_cell h L a = Some (InFile d i o, p, f) -> guest_cell h L a' = Some (InFile d i o, p', f') ->
  host_address h L a = host_address h L a' /\ is_Some (host_address h L a).
Proof.
  intros Hok Ha Ha'. destruct (cell_entry _ _ _ _ Ha) as (e & He & Hc). destruct (cell_entry _ _ _ _ Ha') as (e' & He' & Hc').
  destruct (cell_of_entry h L rest a e Hok He Hc) as (k & Hk & Hko & Hpos & _ & -> & Hcell).
  destruct (cell_of_entry h L rest a' e' Hok He' Hc') as (k' & Hk' & Hko' & Hpos' & _ & -> & Hcell').
  rewrite Ha in Hcell. rewrite Ha' in Hcell'.
  destruct (b_borrowed k) eqn:Hb; [done|]. destruct (b_borrowed k') eqn:Hb'; [done|].
  injection Hcell as -> -> -> -> ->. injection Hcell' as Hd Hi Ho _ _. split; [|done].
  destruct (lo_coherent _ _ _ Hok (backing e) (backing e') k k' (in_map _ _ _ He) (in_map _ _ _ He') Hk Hk' Hb Hb' Hd Hi)
    as [Heq|Hap].
  - rewrite Heq, Hk' in Hk. injection Hk as <-. f_equal. lia.
  - unfold extents_apart in Hap. lia.
Qed.

(** ** Resolution *)

Definition permits (p required : Z) : Prop := Z.land p required = required.

(** [contiguous] bytes from [guest] lie in one host range, under one protection. *)
Definition one_range (h : vma_store) (L : hl_logical_vma_ledger) (guest host contiguous p f : Z) : Prop :=
  forall i, 0 <= i < contiguous -> host_address h L (guest + i) = Some (host + i) /\
    exists loc, guest_cell h L (guest + i) = Some (loc, p, f).

Lemma entry_range h L rest guest e :
  ledger_ok h L rest -> In e (entries L) -> covers guest e = true ->
  exists host bk, stat h (backing e) = Some bk /\ host = b_mapping bk + position e guest /\ 0 <= host < 2 ^ 64 /\
    one_range h L guest host (guest_last e - guest) (protection e) (flags e).
Proof.
  intros Hok He Hc. destruct (cell_of_entry h L rest guest e Hok He Hc) as (bk & Hbk & Hbok & Hpos & _).
  exists (b_mapping bk + position e guest), bk. split; [done|]. split; [done|].
  destruct Hbok as (B1 & B2 & B3 & B4 & B5 & _). split; [lia|]. intros i Hi.
  assert (Hci : covers (guest + i) e = true) by (apply covers_spec; apply covers_spec in Hc; lia).
  destruct (cell_of_entry h L rest (guest + i) e Hok He Hci) as (bk' & Hbk' & _ & _ & _ & Hh & Hcell).
  rewrite Hbk in Hbk'. injection Hbk' as <-. split; [rewrite Hh; f_equal; unfold position; lia|].
  eexists. by rewrite Hcell.
Qed.

(** What a resolution may answer. *)
Definition resolution_ok (h : vma_store) (L : hl_logical_vma_ledger) (guest length required : Z) (r : resolution) : Prop :=
  match r with
  | Resolved host contiguous p f => permits p required /\ length <= contiguous /\ 0 < contiguous /\
      one_range h L guest host contiguous p f
  | Unmapped => guest + length <= UINT64_MAX /\ guest_cell h L guest = None
  | Refused errno =>
      errno = VMA_EINVAL /\ UINT64_MAX < guest + length \/
      exists e, In e (entries L) /\ covers guest e = true /\
        (errno = VMA_EACCES /\ (permits (protection e) required -> False) \/
         errno = VMA_EFAULT /\ permits (protection e) required /\ guest_last e - guest < length)
  end.

Lemma shown_search h L rest guest :
  ledger_ok h L rest -> shown h L ->
  exists r, search (snapshot_views (current L)) guest = Some r /\
    search_result (snapshot_views (current L)) guest r /\
    match r with
    | inr v => exists e, In e (entries L) /\ covers guest e = true /\ view_for h e v
    | inl _ => guest_cell h L guest = None
    end.
Proof.
  intros Hok [Hp|[He Hc]].
  - destruct (search_entry h L guest Hp (lo_entries _ _ _ Hok) (lo_apart _ _ _ Hok)) as (r & Hr & Hres & Hcase).
    exists r. split; [done|]. split; [done|]. destruct r as [low|v]; [by apply (no_cell h L rest)|].
    destruct Hcase as (e & Hf & Hv). exists e. apply find_entry_Some in Hf as [Hin Hcov]. by split_and!.
  - rewrite Hc. exists (inl 0). split; [done|]. split; [|unfold guest_cell, mapped; by rewrite He].
    simpl. split; [done|]. split; intros i v Hi; apply lookupZ_Some_range in Hi; change (lengthZ []) with 0 in Hi; lia.
Qed.

Lemma view_host h L rest guest e v :
  ledger_ok h L rest -> In e (entries L) -> covers guest e = true -> view_for h e v ->
  one_range h L guest (u64 (guest + v_delta v)) (v_last v - guest) (v_protection v) (v_flags v).
Proof.
  intros Hok He Hc Hv. destruct (entry_range h L rest guest e Hok He Hc) as (host & bk & Hbk & -> & Hr & Hone).
  destruct Hv as [_ -> -> -> _ _ Hh]. rewrite (Hh bk guest Hbk), u64_small by done. done.
Qed.

Lemma resolve_spec h L rest guest length required :
  ledger_ok h L rest -> shown h L ->
  exists r, hl_logical_vma_resolve guest length required L = Some r /\ resolution_ok h L guest length required r.
Proof.
  intros Hok Hs. unfold hl_logical_vma_resolve.
  destruct (Z.ltb_spec (UINT64_MAX - length) guest); [eexists; split; [done|]; left; split; [done|lia]|].
  destruct (shown_search h L rest guest Hok Hs) as (r & -> & _ & Hr). cbn [mbind option_bind]. eexists. split; [done|].
  destruct r as [low|v]; [split; [lia|done]|]. destruct Hr as (e & He & Hc & Hv).
  pose proof (view_host h L rest guest e v Hok He Hc Hv) as Hone. pose proof Hv as [Hv1 Hv2 Hv3 Hv4 _ _ _].
  apply covers_spec in Hc as Hc'.
  destruct (Z.eqb_spec (Z.land (v_protection v) required) required) as [Hp|Hp]; simpl.
  - destruct (Z.ltb_spec (v_last v - guest) length); simpl.
    + right. exists e. split_and!; [done|done|]. right. unfold permits. rewrite <- Hv3, <- Hv2. done.
    + split_and!; [done|lia|lia|done].
  - right. exists e. split_and!; [done|done|]. left. unfold permits. rewrite <- Hv3. done.
Qed.

(** ** Execution spans *)

Definition executable (p : Z) : Prop := Z.land p HL_LOGICAL_VMA_EXEC <> 0.

Definition exec_span_ok (h : vma_store) (L : hl_logical_vma_ledger) (guest : Z) (r : exec_span) : Prop :=
  match r with
  | SpanView g first last delta => g = generation L /\ first <= guest < last /\
      forall a, first <= a < last -> host_address h L a = Some (u64 (a + delta)) /\
        exists loc p f, guest_cell h L a = Some (loc, p, f) /\ executable p
  | SpanGap g first last => g = generation L /\ first <= guest < last /\
      (forall a, first <= a < last -> guest_cell h L a = None) /\
      (first = 0 \/ is_Some (guest_cell h L (first - 1))) /\
      (last = UINT64_MAX \/ is_Some (guest_cell h L last))
  | SpanRefused => exists loc p f, guest_cell h L guest = Some (loc, p, f) /\ Z.land p HL_LOGICAL_VMA_EXEC = 0
  end.

Lemma covered_cell h L rest a e :
  ledger_ok h L rest -> In e (entries L) -> covers a e = true ->
  exists loc, guest_cell h L a = Some (loc, protection e, flags e).
Proof.
  intros Hok He Hc. destruct (cell_of_entry h L rest a e Hok He Hc) as (bk & _ & _ & _ & _ & _ & ->). by eexists.
Qed.

Lemma view_span h L rest guest e v :
  ledger_ok h L rest -> In e (entries L) -> covers guest e = true -> view_for h e v ->
  exec_span_ok h L guest
    (if Z.land (v_protection v) HL_LOGICAL_VMA_EXEC =? 0 then SpanRefused
     else SpanView (generation L) (v_first v) (v_last v) (v_delta v)).
Proof.
  intros Hok He Hc Hv. pose proof Hv as [Hv1 Hv2 Hv3 _ _ _ Hh]. rewrite Hv1, Hv2, Hv3.
  destruct (Z.eqb_spec (Z.land (protection e) HL_LOGICAL_VMA_EXEC) 0) as [H0|H0].
  { destruct (covered_cell h L rest guest e Hok He Hc) as (loc & Hcell). by exists loc, (protection e), (flags e). }
  apply covers_spec in Hc as Hr. split_and!; [done|lia|lia|]. intros a Ha.
  assert (Hca : covers a e = true) by (by apply covers_spec).
  destruct (entry_range h L rest a e Hok He Hca) as (host & bk & Hbk & -> & Hb & Hone).
  destruct (Hone 0 ltac:(lia)) as [Hha _]. rewrite (Hh bk a Hbk), u64_small by done.
  split; [|destruct (covered_cell h L rest a e Hok He Hca) as (loc & Hcell); by exists loc, (protection e), (flags e)].
  by rewrite !Z.add_0_r in Hha.
Qed.

(** In a sorted array the entries before [low] end before its bound. *)
Lemma sorted_bounds l low w :
  StronglySorted before l -> Forall view_ok l ->
  (lookupZ l (low - 1) = Some w -> forall i v, lookupZ l i = Some v -> i < low -> v_last v <= v_last w) /\
  (lookupZ l low = Some w -> forall i v, lookupZ l i = Some v -> low <= i -> v_first w <= v_first v).
Proof.
  intros Hs Hok. pose proof Hok as Hv. rewrite List.Forall_forall in Hv. split; intros Hw i v Hi Hlt.
  - destruct (Z.eq_dec i (low - 1)) as [->|Hne]; [rewrite Hw in Hi; injection Hi as ->; lia|].
    pose proof (sorted_lookup l i (low - 1) v w Hs Hok ltac:(lia) Hi Hw) as Hb.
    pose proof (Hv w (lookupZ_elem _ _ _ Hw)). unfold before, view_ok in *. lia.
  - destruct (Z.eq_dec i low) as [->|Hne]; [rewrite Hw in Hi; injection Hi as ->; lia|].
    pose proof (sorted_lookup l low i w v Hs Hok ltac:(lia) Hw Hi) as Hb.
    pose proof (Hv w (lookupZ_elem _ _ _ Hw)). unfold before, view_ok in *. lia.
Qed.

Section Gap.
Variables (h : vma_store) (L : hl_logical_vma_ledger) (rest : list Z).
Hypothesis Hok : ledger_ok h L rest.
Variables (s : hl_logical_vma_snapshot) (views : list hl_logical_vma_view).
Hypothesis Hviews : snap_views s = sort_views views.
Hypothesis Hfor : Forall2 (view_for h) (entries L) views.

Lemma view_cell i v a :
  lookupZ (snap_views s) i = Some v -> v_first v <= a < v_last v -> is_Some (guest_cell h L a).
Proof.
  intros Hi Ha. apply lookupZ_elem in Hi. rewrite Hviews in Hi. destruct (view_entry _ _ _ _ Hfor Hi) as (e & He & Hv).
  destruct Hv as [Hv1 Hv2 _ _ _ _ _]. assert (Hc : covers a e = true) by (apply covers_spec; lia).
  destruct (covered_cell h L rest a e Hok He Hc) as (loc & ->). done.
Qed.

Lemma cell_view a c :
  guest_cell h L a = Some c -> exists i v, lookupZ (snap_views s) i = Some v /\ v_first v <= a < v_last v.
Proof.
  intros Ha. destruct (cell_entry _ _ _ _ Ha) as (e & He & Hc). destruct (entry_view _ _ _ _ Hfor He) as (v & Hin & Hv).
  rewrite <- Hviews in Hin. apply elem_lookupZ in Hin as [i Hi]. exists i, v. split; [done|]. apply covers_spec in Hc.
  destruct Hv as [-> -> _ _ _ _ _]. done.
Qed.

Lemma gap_span guest low :
  0 <= guest < UINT64_MAX -> StronglySorted before (snap_views s) -> Forall view_ok (snap_views s) ->
  search_result (snap_views s) guest (inl low) ->
  exists first last,
    (if negb (low =? 0) then v ← lookupZ (snap_views s) (low - 1); Some (v_last v) else Some 0) = Some first /\
    (if negb (low =? lengthZ (snap_views s)) then v ← lookupZ (snap_views s) low; Some (v_first v)
     else Some UINT64_MAX) = Some last /\
    exec_span_ok h L guest (SpanGap (generation L) first last).
Proof.
  intros Hg Hs Hvok (Hlow & Hlo & Hhi). set (l := snap_views s) in *.
  assert (Hfirst : exists first, (if negb (low =? 0) then v ← lookupZ l (low - 1); Some (v_last v) else Some 0) = Some first /\
    first <= guest /\ (forall i v, lookupZ l i = Some v -> i < low -> v_last v <= first) /\
    (first = 0 \/ is_Some (guest_cell h L (first - 1)))).
  { destruct (Z.eqb_spec low 0) as [->|Hne]; simpl.
    - exists 0. split_and!; [done|lia| |by left]. intros i v Hi Hlt. apply lookupZ_Some_range in Hi. lia.
    - destruct (lookupZ_is_Some l (low - 1) ltac:(lia)) as [w Hw]. rewrite Hw. simpl. exists (v_last w).
      split_and!; [done|by apply (Hlo (low - 1)); [|lia]|by apply (sorted_bounds l low w Hs Hvok)|right].
      apply (view_cell (low - 1) w); [done|]. rewrite List.Forall_forall in Hvok.
      pose proof (Hvok w (lookupZ_elem _ _ _ Hw)). unfold view_ok in *. lia. }
  assert (Hlast : exists last, (if negb (low =? lengthZ l) then v ← lookupZ l low; Some (v_first v) else Some UINT64_MAX) = Some last /\
    guest < last /\ (forall i v, lookupZ l i = Some v -> low <= i -> last <= v_first v) /\
    (last = UINT64_MAX \/ is_Some (guest_cell h L last))).
  { destruct (Z.eqb_spec low (lengthZ l)) as [Hl|Hne]; simpl.
    - exists UINT64_MAX. split_and!; [done|lia| |by left]. intros i v Hi Hle. apply lookupZ_Some_range in Hi. lia.
    - destruct (lookupZ_is_Some l low ltac:(lia)) as [w Hw]. rewrite Hw. simpl. exists (v_first w).
      split_and!; [done|by apply (Hhi low)|by apply (sorted_bounds l low w Hs Hvok)|right].
      apply (view_cell low w); [done|]. rewrite List.Forall_forall in Hvok.
      pose proof (Hvok w (lookupZ_elem _ _ _ Hw)). unfold view_ok in *. lia. }
  destruct Hfirst as (first & Hf1 & Hf2 & Hf3 & Hf4), Hlast as (last & Hl1 & Hl2 & Hl3 & Hl4).
  exists first, last. split; [done|]. split; [done|]. split; [done|]. split; [lia|]. split; [|done].
  intros a Ha. destruct (guest_cell h L a) as [c|] eqn:Hcell; [|done]. exfalso.
  destruct (cell_view a c Hcell) as (i & v & Hi & Hr).
  destruct (Z.lt_ge_cases i low); [specialize (Hf3 i v Hi ltac:(done))|specialize (Hl3 i v Hi ltac:(done))]; lia.
Qed.
End Gap.

Lemma exec_span_spec h L rest guest :
  ledger_ok h L rest -> shown h L -> 0 <= guest < UINT64_MAX ->
  exists r, hl_logical_vma_resolve_exec_span guest L = Some r /\ exec_span_ok h L guest r.
Proof.
  intros Hok Hs Hg. unfold hl_logical_vma_resolve_exec_span.
  destruct (shown_search h L rest guest Hok Hs) as (r & -> & Hres & Hr). cbn [mbind option_bind].
  destruct r as [low|v].
  2: { destruct Hr as (e & He & Hc & Hv). eexists. split; [done|]. by apply (view_span h L rest guest e). }
  destruct Hs as [Hp|[He Hc]].
  - destruct (published_views h L Hp (lo_entries _ _ _ Hok) (lo_apart _ _ _ Hok)) as (s & views & Hc & Hsv & Hf & Hsort & Hvok).
    rewrite Hc in *. simpl in Hres |- *.
    destruct (gap_span h L rest Hok s views Hsv Hf guest low Hg Hsort Hvok Hres) as (first & last & Hf1 & Hl1 & Hspan).
    rewrite Hf1. cbn [mbind option_bind]. rewrite Hl1. cbn [mbind option_bind]. eexists. by split.
  - rewrite Hc in *. simpl in Hres |- *. destruct Hres as [Hlow _]. change (lengthZ []) with 0 in *.
    replace low with 0 by lia. simpl. eexists. split; [done|]. split; [done|]. split; [lia|].
    split; [|split; by left]. intros a _. unfold guest_cell, mapped. by rewrite He.
Qed.

(** ** Pins *)

Lemma gap_length_spec guest l : forall c, 0 < c ->
  0 < gap_length guest c l <= c /\ forall e, In e l -> guest < guest_first e -> gap_length guest c l <= guest_first e - guest.
Proof.
  induction l as [|e l IH]; intros c Hc; simpl; [split; [lia|done]|].
  set (c' := if _ && _ then _ else c).
  assert (Hc' : 0 < c' <= c /\ (guest < guest_first e -> c' <= guest_first e - guest)).
  { unfold c'. destruct (Z.ltb_spec guest (guest_first e)), (Z.ltb_spec (guest_first e - guest) c); simpl; lia. }
  destruct (IH c' ltac:(lia)) as [H1 H2]. split; [lia|]. intros x [<-|Hx] Hlt; [lia|by apply H2].
Qed.

Definition pin_ok (h : vma_store) (L : hl_logical_vma_ledger) (rest : list Z) (guest length required : Z)
    (o : pin_outcome) (h' : vma_store) : Prop :=
  match o with
  | PinRefused errno => h' = h /\
      (errno = VMA_EINVAL /\ (length = 0 \/ UINT64_MAX < guest + length) \/
       errno = VMA_EACCES /\ exists loc p f, guest_cell h L guest = Some (loc, p, f) /\ (permits p required -> False))
  | Pinned pin => 0 < p_contiguous pin <= length /\
      match p_token pin with
      | Some b => permits (p_protection pin) required /\
          one_range h L guest (p_host pin) (p_contiguous pin) (p_protection pin) (p_flags pin) /\
          ledger_ok h' L (b :: rest) /\ forall b', stat h' b' = stat h b'
      | None => h' = h /\ p_host pin = guest /\
          forall i, 0 <= i < p_contiguous pin -> guest_cell h L (guest + i) = None
      end
  end.

Lemma pin_spec h L rest guest length required :
  ledger_ok h L rest -> lengthZ (owners L ++ rest) + 1 < 2 ^ 64 -> 0 <= guest -> 0 <= length ->
  exists o h', hl_logical_vma_pin_data guest length required h L = Some (o, h') /\
    pin_ok h L rest guest length required o h'.
Proof.
  intros Hok Hfit Hg Hl. unfold hl_logical_vma_pin_data.
  destruct (Z.eqb_spec length 0); [eexists _, h; split; [done|]; split; [done|]; left; split; [done|by left]|].
  destruct (Z.ltb_spec (UINT64_MAX - length) guest); simpl.
  { eexists _, h; split; [done|]; split; [done|]; left; split; [done|right; lia]. }
  destruct (find_entry guest (entries L)) as [e|] eqn:Hf.
  - apply find_entry_Some in Hf as [He Hc].
    destruct (Z.eqb_spec (Z.land (protection e) required) required) as [Hp|Hp]; simpl.
    2: { destruct (covered_cell h L rest guest e Hok He Hc) as (loc & Hcell).
         eexists _, h; split; [done|]. split; [done|]. right. split; [done|]. by exists loc, (protection e), (flags e). }
    destruct (entry_range h L rest guest e Hok He Hc) as (host & bk & Hbk & -> & Hr & Hone).
    destruct (stat_lookup h _ _ Hbk) as (k & Hk & Hkb). rewrite Hk. cbn [mbind option_bind].
    destruct (get_spec (backing e) h (owners L ++ rest) (lo_store _ _ _ Hok)) as (h' & -> & Hst & Hs); [|done|].
    { unfold owners. rewrite <- app_assoc. apply in_or_app. left. by apply in_map. }
    cbn [mbind option_bind]. eexists _, h'. split; [done|]. simpl. apply covers_spec in Hc. split; [lia|].
    split; [done|]. split; [|split; [|done]].
    + intros i Hi. assert (Hm : b_mapping k = b_mapping bk) by by rewrite Hkb. rewrite Hm.
      replace (b_mapping bk + backing_offset e + (guest - guest_first e)) with (b_mapping bk + position e guest)
        by (unfold position; lia). rewrite u64_small by done. apply Hone. lia.
    + apply (ledger_ok_agree h _ _ rest); [done|intros b _; apply Hs|].
      eapply store_ok_perm; [|exact Hst]. apply Permutation_middle.
  - eexists _, h. split; [done|]. simpl. destruct (gap_length_spec guest (entries L) length ltac:(lia)) as [H1 H2].
    split; [lia|]. split; [done|]. split; [done|]. intros i Hi. apply (no_cell h L rest); [done|].
    destruct (find_entry (guest + i) (entries L)) as [e|] eqn:Hfi; [|done]. exfalso.
    apply find_entry_Some in Hfi as [He Hc]. pose proof (find_entry_None _ _ _ Hf He) as Hn.
    apply covers_spec in Hc. destruct (Z.le_gt_cases (guest_first e) guest).
    + assert (covers guest e = true) by (apply covers_spec; lia). congruence.
    + specialize (H2 e He ltac:(lia)). lia.
Qed.

(** ** Copies *)

(** Byte by byte, each through the host address of its guest address. *)
Fixpoint byte_copy (n : nat) (into_backing : bool) (guest i : Z) (h : vma_store) (L : hl_logical_vma_ledger)
    (buffer : list Z) (mem : memory) : Z * list Z * memory :=
  match n with
  | O => (0, buffer, mem)
  | S n =>
      match host_address h L (guest + i) with
      | None => (VMA_EFAULT, buffer, mem)
      | Some x =>
          if into_backing
          then byte_copy n into_backing guest (i + 1) h L buffer
                 (write_memory mem x [default 0 (lookupZ buffer i)])
          else byte_copy n into_backing guest (i + 1) h L (insertZ buffer i (mem x)) mem
      end
  end.

(** Equal errno and buffer, and the same memory. *)
Definition same_copy (r r' : Z * list Z * memory) : Prop :=
  let '(e, b, m) := r in let '(e', b', m') := r' in e = e' /\ b = b' /\ forall x, m x = m' x.

Lemma same_copy_refl r : same_copy r r.
Proof. destruct r as [[e b] m]. by split_and!. Qed.

Lemma same_copy_trans r1 r2 r3 : same_copy r1 r2 -> same_copy r2 r3 -> same_copy r1 r3.
Proof.
  destruct r1 as [[e1 b1] m1], r2 as [[e2 b2] m2], r3 as [[e3 b3] m3]. intros (-> & -> & H1) (-> & -> & H2).
  split_and!; [done|done|]. intros x. by rewrite H1.
Qed.

Lemma write_memory_ext m m' x l : (forall y, m y = m' y) -> forall y, write_memory m x l y = write_memory m' x l y.
Proof. intros H y. unfold write_memory. by rewrite H. Qed.

Lemma byte_copy_ext n into guest h L : forall i buffer m m',
  (forall x, m x = m' x) -> same_copy (byte_copy n into guest i h L buffer m) (byte_copy n into guest i h L buffer m').
Proof.
  induction n as [|n IH]; intros i buffer m m' Hm; simpl; [by split_and!|].
  destruct (host_address h L (guest + i)) as [x|]; [|by split_and!].
  destruct into; [apply IH; by apply write_memory_ext|]. rewrite Hm. by apply IH.
Qed.

Lemma read_memory_S m x n : read_memory m x (S n) = m x :: read_memory m (x + 1) n.
Proof.
  unfold read_memory. simpl. rewrite Z.add_0_r. f_equal. rewrite <- seq_shift, map_map. apply map_ext. intros k. f_equal. lia.
Qed.

Lemma write_buffer_S (buffer : list Z) (i : nat) v bytes :
  (i < length buffer)%nat ->
  write_buffer (insertZ buffer (Z.of_nat i) v) (Z.of_nat i + 1) bytes = write_buffer buffer (Z.of_nat i) (v :: bytes).
Proof.
  intros Hi. unfold write_buffer, insertZ. rewrite (proj2 (Z.leb_le 0 (Z.of_nat i))) by lia. rewrite Nat2Z.id.
  replace (Z.to_nat (Z.of_nat i + 1)) with (S i) by lia.
  rewrite (take_S_r _ i v) by (by apply list_lookup_insert_eq). rewrite take_insert_ge by lia.
  rewrite drop_insert_lt by lia. rewrite <- app_assoc. cbn [app length]. by replace (i + S (length bytes))%nat with (S i + length bytes)%nat by lia.
Qed.

Lemma write_memory_S m x v bytes y :
  write_memory (write_memory m x [v]) (x + 1) bytes y = write_memory m x (v :: bytes) y.
Proof.
  unfold write_memory. change (lengthZ [v]) with 1. rewrite (lengthZ_cons v bytes). pose proof (lengthZ_nonneg bytes).
  destruct (Z.eq_dec y x) as [->|Hne].
  - rewrite !Z.sub_diag. compare_all.
  - compare_all. rewrite lookupZ_cons_succ by lia. do 2 f_equal. lia.
Qed.

(** A chunk at once is the chunk byte by byte. *)
Lemma byte_copy_chunk into guest h L n k : forall (i : nat) x buffer m,
  (i + k <= length buffer)%nat ->
  (forall j, 0 <= j < Z.of_nat k -> host_address h L (guest + Z.of_nat i + j) = Some (x + j)) ->
  same_copy
    (if into : bool
     then byte_copy n into guest (Z.of_nat i + Z.of_nat k) h L buffer (write_memory m x (take k (drop i buffer)))
     else byte_copy n into guest (Z.of_nat i + Z.of_nat k) h L (write_buffer buffer (Z.of_nat i) (read_memory m x k)) m)
    (byte_copy (k + n) into guest (Z.of_nat i) h L buffer m).
Proof.
  induction k as [|k IH]; intros i x buffer m Hi Hh; simpl.
  { rewrite Z.add_0_r. destruct into.
    - apply byte_copy_ext. intros y. unfold write_memory. rewrite take_0. change (lengthZ []) with 0.
      compare_all.
    - unfold write_buffer, read_memory. simpl. rewrite Nat2Z.id, Nat.add_0_r, take_drop. apply same_copy_refl. }
  pose proof (Hh 0 ltac:(lia)) as H0. rewrite !Z.add_0_r in H0. rewrite H0.
  assert (Hstep : forall j, 0 <= j < Z.of_nat k -> host_address h L (guest + Z.of_nat (S i) + j) = Some (x + 1 + j)).
  { intros j Hj. replace (guest + Z.of_nat (S i) + j) with (guest + Z.of_nat i + (1 + j)) by lia. rewrite Hh by lia. f_equal. lia. }
  replace (Z.of_nat i + Z.of_nat (S k)) with (Z.of_nat (S i) + Z.of_nat k) by lia.
  replace (Z.of_nat i + 1) with (Z.of_nat (S i)) by lia. destruct into.
  - eapply same_copy_trans; [|apply (IH (S i) (x + 1)); [lia|done]]. apply byte_copy_ext. intros y.
    destruct (lookup_lt_is_Some_2 buffer i ltac:(lia)) as [v Hv].
    assert (Hlv : lookupZ buffer (Z.of_nat i) = Some v).
    { unfold lookupZ. rewrite (proj2 (Z.leb_le 0 (Z.of_nat i))) by lia. by rewrite Nat2Z.id. }
    rewrite Hlv, (drop_S _ v) by done. simpl. symmetry. apply write_memory_S.
  - replace (write_buffer buffer (Z.of_nat i) (read_memory m x (S k)))
      with (write_buffer (insertZ buffer (Z.of_nat i) (m x)) (Z.of_nat (S i)) (read_memory m (x + 1) k)).
    + apply (IH (S i) (x + 1)); [|done]. unfold insertZ. rewrite (proj2 (Z.leb_le 0 (Z.of_nat i))) by lia.
      rewrite length_insert. lia.
    + rewrite read_memory_S, <- write_buffer_S by lia. f_equal. lia.
Qed.

Lemma length_write_buffer buffer i bytes :
  0 <= i -> i + lengthZ bytes <= lengthZ buffer -> lengthZ (write_buffer buffer i bytes) = lengthZ buffer.
Proof. intros. unfold write_buffer, lengthZ in *. rewrite !length_app, length_take, length_drop. lia. Qed.


Lemma copy_loop_spec into guest h L rest fuel : forall (i : nat) buffer m,
  ledger_ok h L rest -> (i <= length buffer)%nat -> (length buffer - i < fuel)%nat ->
  exists r, copy_loop fuel into guest (Z.of_nat i) h (entries L) buffer m = Some r /\
    same_copy r (byte_copy (length buffer - i) into guest (Z.of_nat i) h L buffer m).
Proof.
  induction fuel as [|fuel IH]; intros i buffer m Hok Hi Hf; [lia|]. cbn [copy_loop].
  destruct (Z.eqb_spec (Z.of_nat i) (lengthZ buffer)) as [Heq|Hne].
  { replace (length buffer - i)%nat with O by (unfold lengthZ in Heq; lia). eexists. split; [done|]. apply same_copy_refl. }
  assert (Hlt : (i < length buffer)%nat) by (unfold lengthZ in Hne; lia).
  destruct (find_entry (guest + Z.of_nat i) (entries L)) as [e|] eqn:Hfe.
  2: { eexists. split; [done|]. destruct (length buffer - i)%nat as [|n] eqn:Hn; [lia|]. simpl.
       unfold host_address, mapped. rewrite Hfe. by split_and!. }
  apply find_entry_Some in Hfe as [He Hc].
  destruct (entry_range h L rest _ e Hok He Hc) as (host & bk & Hbk & -> & Hr & Hone).
  destruct (stat_lookup h _ _ Hbk) as (kb & Hk & Hkb). rewrite Hk. cbn [mbind option_bind].
  assert (Hm : b_mapping kb = b_mapping bk) by by rewrite Hkb. rewrite Hm.
  replace (b_mapping bk + backing_offset e + (guest + Z.of_nat i - guest_first e))
    with (b_mapping bk + position e (guest + Z.of_nat i)) by (unfold position; lia).
  apply covers_spec in Hc.
  set (chunk := Z.min (guest_last e - (guest + Z.of_nat i)) (lengthZ buffer - Z.of_nat i)).
  assert (Hchunk : exists k : nat, chunk = Z.of_nat k /\ (0 < k)%nat /\ (i + k <= length buffer)%nat /\
    Z.of_nat k <= guest_last e - (guest + Z.of_nat i)).
  { exists (Z.to_nat chunk). unfold chunk, lengthZ in *. lia. }
  destruct Hchunk as (k & -> & Hk0 & Hkl & Hke). rewrite !Nat2Z.id.
  pose proof (byte_copy_chunk into guest h L (length buffer - (i + k)) k i
    (b_mapping bk + position e (guest + Z.of_nat i)) buffer m Hkl) as Hstep.
  replace (k + (length buffer - (i + k)))%nat with (length buffer - i)%nat in Hstep by lia.
  rewrite <- Nat2Z.inj_add in *. destruct into.
  - edestruct (IH (i + k)%nat buffer) as (r & -> & Hr'); [done|lia|lia|]. exists r. split; [done|].
    eapply same_copy_trans; [exact Hr'|]. apply Hstep. intros j Hj. by apply Hone; lia.
  - set (buffer' := write_buffer buffer (Z.of_nat i) _) in *.
    assert (Hlen : length buffer' = length buffer).
    { apply Nat2Z.inj. apply length_write_buffer; [lia|]. unfold lengthZ, read_memory. rewrite length_map, length_seq. lia. }
    destruct (IH (i + k)%nat buffer' m) as (r & -> & Hr'); [done|lia|lia|]. exists r. split; [done|].
    rewrite Hlen in Hr'. eapply same_copy_trans; [exact Hr'|]. apply Hstep. intros j Hj. by apply Hone; lia.
Qed.
