(* ===== verification/VmaTheorems.v ===== *)
(** * Properties of the logical VMA ledger

    The theorems of [linux_abi/logical_vma.c]: every sequence of calls keeps
    the ledger well formed, and what mapping, unmapping, protection,
    transactions, resolution, pins and copies do to the addresses a guest
    sees.  Each is followed by a witness on the small ledger of [vma_demo]. *)

From stdpp Require Import gmap.
From S2P Require Import Prelude VmaLedger VmaReaders VmaIntervals VmaOps VmaInvariant VmaMap.
From S2P Require Import VmaCalls VmaSteps VmaReads.

(** ** A small ledger *)

(** A host whose allocations succeed, with files below descriptor 100. *)
Definition vma_host : host_answers :=
  mk_answers (fun _ => true) (fun _ => true)
    (fun fd => if fd <? 100 then inr (1, fd) else inl 9)
    (fun n _ _ _ => if n <=? 2 ^ 32 then inr 65536 else inl VMA_ENOMEM)
    (fun fd => inr (fd + 100)).

(** Two pages of a file, and an executable alias of the second. *)
Definition vma_data : file_mapping := mk_file_mapping 4096 8192 3 5 0 4096.
Definition vma_alias : file_mapping := mk_file_mapping 20480 4096 5 5 4096 4096.

Definition after (c : vma_call) (s : vma_store * hl_logical_vma_ledger) : vma_store * hl_logical_vma_ledger :=
  match run_call c (fst s) (snd s) with Some (_, s') => s' | None => s end.

Definition vma_start : vma_store * hl_logical_vma_ledger := (mk_store ∅ 0 [], hl_logical_vma_init).
Definition vma_demo : vma_store * hl_logical_vma_ledger :=
  after (CallMapShared vma_host vma_alias) (after (CallMapShared vma_host vma_data) vma_start).
Definition demo_store : vma_store := fst vma_demo.
Definition demo_ledger : hl_logical_vma_ledger := snd vma_demo.

Lemma vma_host_sane : host_sane vma_host.
Proof.
  constructor; simpl.
  - intros fd e. destruct (fd <? 100); [done|]. by intros [= <-].
  - intros n o w r e. destruct (n <=? 2 ^ 32); [done|]. by intros [= <-].
  - done.
  - intros fd d i. destruct (fd <? 100); [|done]. by intros [= <- _].
  - intros n o w r m. destruct (Z.leb_spec n (2 ^ 32)); [|done]. intros [= <-]. lia.
Qed.

Lemma vma_data_sane : mapping_sane vma_host vma_data.
Proof. split; [apply vma_host_sane|]. by vm_compute. Qed.

Lemma vma_alias_sane : mapping_sane vma_host vma_alias.
Proof. split; [apply vma_host_sane|]. by vm_compute. Qed.

Lemma after_reach k c s :
  vma_reach k (fst s) (snd s) -> call_sane c (snd s) -> Z.of_nat k <= 2 ^ 28 ->
  vma_reach (S k) (fst (after c s)) (snd (after c s)).
Proof.
  intros Hr Hs Hk. pose proof (reach_live _ _ _ Hr Hk) as Hl.
  destruct (run_call_ok c _ _ _ Hl ltac:(lia) Hs) as (e & h' & L' & Hrun & _). unfold after. rewrite Hrun.
  by eapply vma_reach_call.
Qed.

Lemma demo_reach : vma_reach 2 demo_store demo_ledger.
Proof.
  apply after_reach; [|exact vma_alias_sane|done]. apply after_reach; [|exact vma_data_sane|done]. apply vma_reach_init.
Qed.

Lemma demo_ok : ledger_ok demo_store demo_ledger [].
Proof. apply (reach_live 2); [apply demo_reach|done]. Qed.

Lemma demo_shown : shown demo_store demo_ledger.
Proof. destruct (reach_live 2 _ _ demo_reach) as [_ H _]; [done|exact H]. Qed.

Lemma demo_fits : refs_fit demo_ledger [].
Proof. by vm_compute. Qed.

(** ** Sequences of calls *)

(** C2: From initialisation, whatever sequence of mapping, unmapping,
    protecting, restoring, transacting, reclaiming and resetting calls is made -
    up to 2^28 of them, no direct mapping strictly inside one entry
    ([map_direct_overflows] is what the code does there), each reset with
    memory for its empty snapshot, without which it aborts the process - the
    ledger is well formed: its entries are disjoint, lie inside live backings,
    backings of one file neither overlap nor touch, every backing is referenced
    exactly as often as something names it, and the published snapshot shows
    the entries.  Every further such call returns. *)
Theorem vma_calls_safe k h L :
  vma_reach k h L -> Z.of_nat k <= 2 ^ 28 ->
  ledger_ok h L [] /\ shown h L /\ forall c, call_sane c L -> is_Some (run_call c h L).
Proof.
  intros Hr Hk. pose proof (reach_live k h L Hr Hk) as Hl. pose proof Hl as [H1 H2 _].
  split; [done|]. split; [done|]. intros c Hc.
  destruct (run_call_ok c _ h L Hl ltac:(lia) Hc) as (e & h' & L' & -> & _). done.
Qed.

Lemma vma_calls_safe_witness :
  ledger_ok demo_store demo_ledger [] /\ shown demo_store demo_ledger /\
  forall c, call_sane c demo_ledger -> is_Some (run_call c demo_store demo_ledger).
Proof. apply (vma_calls_safe 2); [exact demo_reach|vm_compute; discriminate]. Defined.

(** ** Mapping *)

(** C22: A file mapping returns; on success every address of the range shows
    the file at the requested offset with the requested protection, every
    other address shows what it showed, and the new snapshot is published; on
    failure nothing changes.  Either way the ledger stays well formed. *)
Theorem map_shared_exact A m h L rest :
  mapping_sane A m -> ledger_ok h L rest -> refs_fit L rest ->
  exists errno h' L',
    hl_logical_vma_map_shared A (fm_guest m) (fm_length m) (fm_protection m) (fm_fd m) (fm_offset m) (fm_page m) h L
      = Some (errno, (h', L')) /\
    ledger_ok h' L' rest /\
    if errno =? 0 then maps_file A m h L h' L' /\ published h' L'
    else h' = h /\ entries L' = entries L /\ current L' = current L.
Proof.
  intros Hs Hok Hfit. destruct (map_shared_result A m h L rest Hs Hok Hfit) as (e & h' & L' & Hrun & Hok' & _ & _ & Hcase).
  by exists e, h', L'.
Qed.

Lemma map_shared_exact_witness :
  guest_cell demo_store demo_ledger 8200 = Some (InFile 1 5 4104, 3, HL_LOGICAL_VMA_SHARED) /\
  exists errno h' L',
    hl_logical_vma_map_shared vma_host 8192 4096 1 6 0 4096 demo_store demo_ledger = Some (errno, (h', L')) /\
    ledger_ok h' L' [] /\
    if errno =? 0 then maps_file vma_host (mk_file_mapping 8192 4096 1 6 0 4096) demo_store demo_ledger h' L' /\ published h' L'
    else h' = demo_store /\ entries L' = entries demo_ledger /\ current L' = current demo_ledger.
Proof.
  split; [vm_compute; reflexivity|].
  apply (map_shared_exact vma_host (mk_file_mapping 8192 4096 1 6 0 4096) demo_store demo_ledger []).
  - split; [exact vma_host_sane|vm_compute; repeat split; discriminate].
  - exact demo_ok.
  - exact demo_fits.
Defined.

(** C24: Aliases are coherent, through every widening of a backing: after any
    calls on a new ledger (fewer than 2^28), a file mapping that succeeds shows
    the file over its range, leaves what every other address shows, and
    afterwards any two addresses that show one byte of a file - old views and
    new ones, through different descriptors, over overlapping ranges - lie at
    the same host address. *)
Theorem aliases_share_host k h L A m h' L' :
  vma_reach k h L -> Z.of_nat k < 2 ^ 28 -> mapping_sane A m ->
  run_call (CallMapShared A m) h L = Some (0, (h', L')) ->
  exists device inode, ha_fstat A (fm_fd m) = inr (device, inode) /\
  (forall a, guest_cell h' L' a =
     if in_range (fm_guest m) (fm_guest m + fm_length m) a
     then Some (InFile device inode (fm_offset m + (a - fm_guest m)), fm_protection m, HL_LOGICAL_VMA_SHARED)
     else guest_cell h L a) /\
  forall a a' d i o p f p' f',
    guest_cell h' L' a = Some (InFile d i o, p, f) -> guest_cell h' L' a' = Some (InFile d i o, p', f') ->
    exists x, host_address h' L' a = Some x /\ host_address h' L' a' = Some x.
Proof.
  intros Hr Hk Hs Hrun. assert (Hr' : vma_reach (S k) h' L') by (by eapply (vma_reach_call _ _ _ (CallMapShared A m))).
  pose proof (reach_live _ _ _ Hr ltac:(lia)) as Hl. pose proof (reach_live _ _ _ Hr' ltac:(lia)) as [Hok' _ _].
  destruct (map_shared_result A m h L [] Hs (lv_ledger _ _ _ Hl)) as (errno & h2 & L2 & Hrun2 & _ & _ & _ & Hcase).
  { apply (live_fits _ _ _ Hl). lia. }
  cbn [run_call] in Hrun. rewrite Hrun in Hrun2. injection Hrun2 as <- <- <-. cbn in Hcase.
  destruct Hcase as [(d & i & Hf & _ & _ & Hcells) _]. exists d, i. split; [done|]. split; [done|].
  intros a a' d' i' o p f p' f' Ha Ha'. destruct (alias_host h' L' [] a a' d' i' o p f p' f' Hok' Ha Ha') as [E [x Hx]].
  exists x. by rewrite <- E.
Qed.

(** A third view, overlapping the two, which widens their backing. *)
Definition vma_third : file_mapping := mk_file_mapping 40960 12288 1 5 0 4096.
Definition demo_third : vma_store * hl_logical_vma_ledger := after (CallMapShared vma_host vma_third) vma_demo.

Lemma third_sane : mapping_sane vma_host vma_third.
Proof. split; [apply vma_host_sane|]. by vm_compute. Qed.

Lemma third_runs : run_call (CallMapShared vma_host vma_third) demo_store demo_ledger =
  Some (0, (fst demo_third, snd demo_third)).
Proof. vm_compute. reflexivity. Qed.

Lemma aliases_share_host_witness :
  (guest_cell (fst demo_third) (snd demo_third) 8200 = Some (InFile 1 5 4104, 3, 1) /\
   guest_cell (fst demo_third) (snd demo_third) 20488 = Some (InFile 1 5 4104, 5, 1) /\
   guest_cell (fst demo_third) (snd demo_third) 45064 = Some (InFile 1 5 4104, 1, 1)) /\
  exists device inode, ha_fstat vma_host (fm_fd vma_third) = inr (device, inode) /\
  (forall a, guest_cell (fst demo_third) (snd demo_third) a =
     if in_range (fm_guest vma_third) (fm_guest vma_third + fm_length vma_third) a
     then Some (InFile device inode (fm_offset vma_third + (a - fm_guest vma_third)), fm_protection vma_third,
       HL_LOGICAL_VMA_SHARED)
     else guest_cell demo_store demo_ledger a) /\
  forall a a' d i o p f p' f',
    guest_cell (fst demo_third) (snd demo_third) a = Some (InFile d i o, p, f) ->
    guest_cell (fst demo_third) (snd demo_third) a' = Some (InFile d i o, p', f') ->
    exists x, host_address (fst demo_third) (snd demo_third) a = Some x /\
              host_address (fst demo_third) (snd demo_third) a' = Some x.
Proof.
  split; [split; [vm_compute; reflexivity|split; vm_compute; reflexivity]|].
  exact (aliases_share_host 2 demo_store demo_ledger vma_host vma_third (fst demo_third) (snd demo_third) demo_reach
    eq_refl third_sane third_runs).
Defined.

(** ** Unmapping and protection *)

(** An unmap returns; on success the range shows nothing and every other
    address keeps its object, protection and host address; on failure nothing
    changes. *)
Theorem unmap_exact realloc malloc guest length h L rest :
  ledger_ok h L rest -> refs_fit L rest -> 0 <= guest -> 0 <= length ->
  exists errno h' L', hl_logical_vma_unmap realloc malloc guest length h L = Some (errno, (h', L')) /\
    ledger_ok h' L' rest /\
    if errno =? 0 then unmaps guest length h L h' L' /\ (0 < length -> published h' L')
    else h' = h /\ entries L' = entries L /\ current L' = current L.
Proof.
  intros Hok Hfit Hg Hl.
  destruct (unmap_result realloc malloc guest length h L rest Hok Hfit Hg Hl) as (e & h' & L' & Hrun & Hok' & _ & _ & Hcase).
  by exists e, h', L'.
Qed.

Lemma unmap_exact_witness :
  exists errno h' L', hl_logical_vma_unmap (fun _ => true) (fun _ => true) 6144 1024 demo_store demo_ledger
      = Some (errno, (h', L')) /\
    ledger_ok h' L' [] /\
    if errno =? 0 then unmaps 6144 1024 demo_store demo_ledger h' L' /\ (0 < 1024 -> published h' L')
    else h' = demo_store /\ entries L' = entries demo_ledger /\ current L' = current demo_ledger.
Proof. apply unmap_exact; [exact demo_ok|exact demo_fits|discriminate|discriminate]. Defined.

(** A protection change returns; on success the mapped addresses of the
    range carry the new protection and nothing else changes: not the object,
    not the host address, not an address outside the range; on failure
    nothing changes. *)
Theorem protect_exact realloc malloc guest length prot h L rest :
  ledger_ok h L rest -> refs_fit L rest -> 0 <= guest -> 0 <= length ->
  exists errno h' L', hl_logical_vma_protect realloc malloc guest length prot h L = Some (errno, (h', L')) /\
    ledger_ok h' L' rest /\
    if errno =? 0 then protects guest length prot h L h' L' /\ published h' L'
    else h' = h /\ entries L' = entries L /\ current L' = current L.
Proof.
  intros Hok Hfit Hg Hl.
  destruct (protect_result realloc malloc guest length prot h L rest Hok Hfit Hg Hl)
    as (e & h' & L' & Hrun & Hok' & _ & _ & Hcase).
  by exists e, h', L'.
Qed.

Lemma protect_exact_witness :
  exists errno h' L', hl_logical_vma_protect (fun _ => true) (fun _ => true) 6144 1024 5 demo_store demo_ledger
      = Some (errno, (h', L')) /\
    ledger_ok h' L' [] /\
    if errno =? 0 then protects 6144 1024 5 demo_store demo_ledger h' L' /\ published h' L'
    else h' = demo_store /\ entries L' = entries demo_ledger /\ current L' = current demo_ledger.
Proof. apply protect_exact; [exact demo_ok|exact demo_fits|discriminate|discriminate]. Defined.

(** ** Direct mappings *)

(** A direct mapping over a range that does not lie strictly inside one
    entry returns; on success the range shows the given host range under the
    given protection and nothing else changes; on failure nothing changes. *)
Theorem map_direct_exact A guest length prot host h L rest :
  ledger_ok h L rest -> refs_fit L rest -> 0 <= guest -> 0 <= length -> 0 <= host ->
  countZ (splits guest (guest + length)) (entries L) = 0 ->
  exists errno h' L', logical_vma_map_direct A guest length prot host h L = Some (errno, (h', L')) /\
    ledger_ok h' L' rest /\
    if errno =? 0
    then published h' L' /\ forall a, guest_cell h' L' a =
           if in_range guest (guest + length) a
           then Some (AtHost (host + (a - guest)), prot, HL_LOGICAL_VMA_DIRECT) else guest_cell h L a
    else h' = h /\ entries L' = entries L /\ current L' = current L.
Proof.
  intros Hok Hfit Hg Hl Hh Hs.
  destruct (map_direct_spec A guest length prot host h L rest Hok Hfit Hg Hl Hh Hs)
    as (e & h' & L' & Hrun & Hok' & _ & _ & Hcase).
  exists e, h', L'. split; [done|]. split; [done|]. destruct (e =? 0); [|done]. by destruct Hcase as (_ & _ & ? & ?).
Qed.

Lemma map_direct_exact_witness :
  exists errno h' L', logical_vma_map_direct vma_host 10240 4096 3 1048576 demo_store demo_ledger
      = Some (errno, (h', L')) /\
    ledger_ok h' L' [] /\
    if errno =? 0
    then published h' L' /\ forall a, guest_cell h' L' a =
           if in_range 10240 (10240 + 4096) a
           then Some (AtHost (1048576 + (a - 10240)), 3, HL_LOGICAL_VMA_DIRECT) else guest_cell demo_store demo_ledger a
    else h' = demo_store /\ entries L' = entries demo_ledger /\ current L' = current demo_ledger.
Proof.
  apply map_direct_exact; [exact demo_ok|exact demo_fits|discriminate|discriminate|discriminate|vm_compute; reflexivity].
Defined.

(** A direct mapping strictly inside an existing entry never completes:
    unless an allocation fails first, it writes past the arrays it grew for one
    more entry, because splitting the entry takes one and the new mapping
    another. *)
Theorem map_direct_overflows A guest length prot host h L rest e :
  ledger_ok h L rest -> refs_fit L rest -> 0 <= guest -> 0 < length -> 0 <= host ->
  In e (entries L) -> guest_first e < guest -> guest + length < guest_last e ->
  logical_vma_map_direct A guest length prot host h L = None \/
  exists errno c, errno <> 0 /\
    logical_vma_map_direct A guest length prot host h L = Some (errno, (h, set_capacity c L)).
Proof. apply map_direct_split. Qed.

(** On a host whose allocations succeed it is the overflow that happens. *)
Lemma map_direct_overflows_witness :
  logical_vma_map_direct vma_host 6144 1024 3 1048576 demo_store demo_ledger = None /\
  (logical_vma_map_direct vma_host 6144 1024 3 1048576 demo_store demo_ledger = None \/
   exists errno c, errno <> 0 /\
     logical_vma_map_direct vma_host 6144 1024 3 1048576 demo_store demo_ledger
       = Some (errno, (demo_store, set_capacity c demo_ledger))).
Proof.
  split; [vm_compute; reflexivity|].
  apply (map_direct_overflows vma_host 6144 1024 3 1048576 demo_store demo_ledger [] (mk_entry 4096 12288 0 3 1 1));
    [exact demo_ok|exact demo_fits|discriminate|reflexivity|discriminate|vm_compute; left; reflexivity|reflexivity|reflexivity].
Defined.

(** ** Reading *)

(** Resolution searches the published snapshot and answers for the entry
    that covers the address: a host range under one protection in which every
    byte lies where the guest address does, or why not, or that nothing is
    mapped there. *)
Theorem resolve_exact h L rest guest length required :
  ledger_ok h L rest -> shown h L ->
  exists r, hl_logical_vma_resolve guest length required L = Some r /\ resolution_ok h L guest length required r.
Proof. apply resolve_spec. Qed.

Lemma resolve_exact_witness :
  hl_logical_vma_resolve 8200 8 3 demo_ledger = Some (Resolved 69640 4088 3 1) /\
  exists r, hl_logical_vma_resolve 8200 8 3 demo_ledger = Some r /\
    resolution_ok demo_store demo_ledger 8200 8 3 r.
Proof. split; [vm_compute; reflexivity|]. apply (resolve_exact demo_store demo_ledger []); [exact demo_ok|exact demo_shown]. Defined.

(** The execution span answered for an address holds throughout: a span of
    a view is executable and displaced by one delta, a gap is unmapped and
    cannot be widened, a refusal means the address is mapped without
    execution.  It is stamped with the generation of the ledger. *)
Theorem exec_span_exact h L rest guest :
  ledger_ok h L rest -> shown h L -> 0 <= guest < UINT64_MAX ->
  exists r, hl_logical_vma_resolve_exec_span guest L = Some r /\ exec_span_ok h L guest r.
Proof. apply exec_span_spec. Qed.

Lemma exec_span_exact_witness :
  hl_logical_vma_resolve_exec_span 16384 demo_ledger = Some (SpanGap 6 12288 20480) /\
  exists r, hl_logical_vma_resolve_exec_span 16384 demo_ledger = Some r /\ exec_span_ok demo_store demo_ledger 16384 r.
Proof.
  split; [vm_compute; reflexivity|]. apply (exec_span_exact demo_store demo_ledger []);
    [exact demo_ok|exact demo_shown|split; [discriminate|reflexivity]].
Defined.

(** A pin on mapped memory answers a host range that holds every byte it
    covers and keeps the backing alive: destroying the whole ledger leaves the
    backing in place, and releasing the pin then drops the last reference. *)
Theorem pin_outlives_ledger h L rest guest length required pin b h1 :
  ledger_ok h L rest -> lengthZ (owners L ++ rest) + 1 < 2 ^ 64 -> 0 <= guest -> 0 <= length ->
  hl_logical_vma_pin_data guest length required h L = Some (Pinned pin, h1) -> p_token pin = Some b ->
  0 < p_contiguous pin <= length /\ permits (p_protection pin) required /\
  one_range h L guest (p_host pin) (p_contiguous pin) (p_protection pin) (p_flags pin) /\
  exists h2 L2, hl_logical_vma_destroy h1 L = Some (h2, L2) /\ is_Some (stat h b) /\ stat h2 b = stat h b /\
    exists h3, hl_logical_vma_unpin pin h2 = Some h3 /\ store_ok h3 rest.
Proof.
  intros Hok Hfit Hg Hl Hpin Ht. destruct (pin_spec h L rest guest length required Hok Hfit Hg Hl) as (o & h' & Hrun & Hp).
  rewrite Hpin in Hrun. injection Hrun as <- <-. destruct Hp as [Hc Hp]. rewrite Ht in Hp.
  destruct Hp as (Hperm & Hone & Hok1 & Hs1). split; [done|]. split; [done|]. split; [done|].
  destruct (destroy_spec h1 L _ Hok1) as (h2 & L2 & -> & Hst2 & Ha2 & _). exists h2, L2. split; [done|].
  assert (Hs2 : stat h2 b = stat h b) by (rewrite Ha2 by (by left); apply Hs1).
  split; [|split; [done|]].
  - rewrite <- Hs2. unfold stat. destruct (so_owned _ _ Hst2 b) as [k ->]; [by left|done].
  - unfold hl_logical_vma_unpin. rewrite Ht. destruct (put_spec b h2 rest Hst2) as (h3 & -> & Hst3 & _). by exists h3.
Qed.

Definition demo_pin : hl_logical_vma_pin := mk_pin 69640 8 3 1 (Some 1).
Definition demo_pinned : vma_store :=
  match hl_logical_vma_pin_data 8200 8 3 demo_store demo_ledger with Some (_, h) => h | None => demo_store end.

Lemma pin_outlives_ledger_witness :
  exists h2 L2, hl_logical_vma_destroy demo_pinned demo_ledger = Some (h2, L2) /\
    is_Some (stat demo_store 1) /\ stat h2 1 = stat demo_store 1 /\
    exists h3, hl_logical_vma_unpin demo_pin h2 = Some h3 /\ store_ok h3 [].
Proof.
  apply (pin_outlives_ledger demo_store demo_ledger [] 8200 8 3 demo_pin 1 demo_pinned);
    [exact demo_ok|vm_compute; reflexivity|discriminate|discriminate|vm_compute; reflexivity|reflexivity].
Defined.

(** A copy out of the guest or into it terminates and is the copy byte by
    byte, each through the host address of its guest address in turn, with
    [EFAULT] at the first unmapped byte: also where aliases overlap. *)
Theorem copy_is_bytewise into_backing guest buffer h L rest mem :
  ledger_ok h L rest -> guest + lengthZ buffer <= UINT64_MAX ->
  exists r, global_copy into_backing guest buffer h L mem = Some r /\
    same_copy r (byte_copy (length buffer) into_backing guest 0 h L buffer mem).
Proof.
  intros Hok Hg. unfold global_copy. destruct (Z.ltb_spec (UINT64_MAX - lengthZ buffer) guest); [lia|].
  destruct (copy_loop_spec into_backing guest h L rest (S (length buffer)) 0 buffer mem Hok) as (r & Hr & Hs); [lia|lia|].
  exists r. split; [done|]. by rewrite Nat.sub_0_r in Hs.
Qed.

Lemma copy_is_bytewise_witness :
  exists r, global_copy false 12284 [0; 0; 0; 0; 0; 0; 0; 0] demo_store demo_ledger (fun x => x) = Some r /\
    same_copy r (byte_copy 8 false 12284 0 demo_store demo_ledger [0; 0; 0; 0; 0; 0; 0; 0] (fun x => x)).
Proof. apply (copy_is_bytewise false 12284 [0; 0; 0; 0; 0; 0; 0; 0] demo_store demo_ledger []); [exact demo_ok|discriminate]. Defined.

(** ** Transactions and destruction *)

(** The caller of a plan sees the live ledger until it commits. *)
Lemma plan_cells Q h h' live staged rest :
  prepared_ok Q h live rest (0, Some staged, h') -> forall a,
  guest_cell h' live a = guest_cell h live a /\ host_address h' live a = host_address h live a.
Proof.
  intros [Ha _] a. apply cell_of_mapped; [done|]. eapply agree_incl; [|exact Ha].
  unfold owners. rewrite <- app_assoc. by apply incl_appl, incl_refl.
Qed.

Lemma maps_file_same A m h1 L1 h L h' L' h2 L2 :
  maps_file A m h1 L1 h' L' -> (forall a, guest_cell h1 L1 a = guest_cell h L a) ->
  (forall a, guest_cell h2 L2 a = guest_cell h' L' a) -> maps_file A m h L h2 L2.
Proof.
  intros (d & i & Hf & Hn & He & Hc) Hs Hs'. exists d, i. split_and!; try done. intros a. by rewrite Hs', Hc, Hs.
Qed.

Lemma commit_cells h staged rest h2 L2 :
  entries L2 = entries staged -> agree (owners staged ++ rest) h h2 -> forall a,
  guest_cell h2 L2 a = guest_cell h staged a.
Proof.
  intros He Ha a. apply cell_of_mapped; [by rewrite He|]. rewrite He. eapply agree_incl; [|exact Ha].
  unfold owners. rewrite <- app_assoc. by apply incl_appl, incl_refl.
Qed.

(** C37: A prepared file mapping is invisible until it is committed: a failed
    preparation leaves the store of backings as it was, a successful one
    leaves every cell of the live ledger as it was, and the commit then shows
    the mapping and publishes it, with no reference lost or left over. *)
Theorem transaction_commits fail_next calloc mutex_ok A m h live rest :
  mapping_sane A m -> ledger_ok h live rest -> lengthZ (owners live ++ rest) + 3 * count live + 8 < 2 ^ 64 ->
  exists errno plan h1,
    hl_logical_vma_prepare_shared fail_next calloc mutex_ok A (fm_guest m) (fm_length m) (fm_protection m) (fm_fd m)
      (fm_offset m) (fm_page m) h live = Some (errno, plan, h1) /\
    match plan with
    | None => errno <> 0 /\ backings h1 = backings h
    | Some staged =>
        (forall a, guest_cell h1 live a = guest_cell h live a /\ host_address h1 live a = host_address h live a) /\
        exists h2 live', hl_logical_vma_commit_shared h1 live staged = Some (h2, live') /\
          ledger_ok h2 live' rest /\ published h2 live' /\ maps_file A m h live h2 live'
    end.
Proof.
  intros Hm Hok Hfit. unfold hl_logical_vma_prepare_shared. destruct fail_next; [by exists VMA_ENOMEM, None, h|].
  destruct (prepare_result calloc mutex_ok (ha_realloc A) _ _ h live rest (map_shared_change A m Hm) Hok Hfit)
    as ([[errno plan] h1] & Hrun & Hp).
  exists errno, plan, h1. split; [exact Hrun|]. destruct plan as [staged|]; [|by destruct Hp as (_ & ? & _ & ?)].
  pose proof Hp as (_ & -> & H1 & H2 & _ & _ & Hpd & h0 & L0 & HQ & He0 & Hs0).
  split; [by apply (plan_cells (maps_file A m) h h1 live staged rest)|].
  destruct (commit_spec h1 live staged rest H1 H2) as (h2 & L2 & -> & Hok2 & He2 & Hc2 & Ha2 & _).
  exists h2, L2. split; [done|]. split; [done|]. split.
  - destruct (published_agree h1 h2 staged Hpd) as (s & Hs & Hsn); [eapply agree_incl; [|exact Ha2]; apply incl_appl, incl_refl|].
    exists s. by rewrite Hc2, He2.
  - apply (maps_file_same A m h0 L0 h live h1 staged); [done| |].
    + intros a. apply cell_of_mapped; [by rewrite He0|]. intros b _. apply Hs0.
    + by apply (commit_cells h1 staged rest).
Qed.

Lemma transaction_commits_witness :
  exists errno plan h1,
    hl_logical_vma_prepare_shared false true true vma_host 8192 4096 1 6 0 4096 demo_store demo_ledger
      = Some (errno, plan, h1) /\
    match plan with
    | None => errno <> 0 /\ backings h1 = backings demo_store
    | Some staged =>
        (forall a, guest_cell h1 demo_ledger a = guest_cell demo_store demo_ledger a /\
                   host_address h1 demo_ledger a = host_address demo_store demo_ledger a) /\
        exists h2 live', hl_logical_vma_commit_shared h1 demo_ledger staged = Some (h2, live') /\
          ledger_ok h2 live' [] /\ published h2 live' /\
          maps_file vma_host (mk_file_mapping 8192 4096 1 6 0 4096) demo_store demo_ledger h2 live'
    end.
Proof.
  apply (transaction_commits false true true vma_host (mk_file_mapping 8192 4096 1 6 0 4096) demo_store demo_ledger []).
  - split; [exact vma_host_sane|vm_compute; repeat split; discriminate].
  - exact demo_ok.
  - vm_compute. reflexivity.
Defined.

(** A prepared file mapping that is aborted leaves no trace: the store of
    backings, every reference count included, is the one before the
    preparation, and the live ledger is well formed over it. *)
Theorem transaction_aborts calloc mutex_ok A m h live rest h1 staged :
  mapping_sane A m -> ledger_ok h live rest -> lengthZ (owners live ++ rest) + 3 * count live + 8 < 2 ^ 64 ->
  hl_logical_vma_prepare_shared false calloc mutex_ok A (fm_guest m) (fm_length m) (fm_protection m) (fm_fd m)
    (fm_offset m) (fm_page m) h live = Some (0, Some staged, h1) ->
  exists h2, hl_logical_vma_abort_shared h1 staged = Some h2 /\ backings h2 = backings h /\ ledger_ok h2 live rest.
Proof.
  intros Hm Hok Hfit Hrun.
  destruct (prepare_result calloc mutex_ok (ha_realloc A) _ _ h live rest (map_shared_change A m Hm) Hok Hfit)
    as ([[errno plan] h1'] & Hrun' & Hp).
  assert (Heq : (errno, plan, h1') = (0, Some staged, h1)).
  { unfold hl_logical_vma_prepare_shared in Hrun. unfold with_mapping in Hrun'. congruence. }
  injection Heq as -> -> ->. pose proof Hp as (Ha & _ & H1 & H2 & _).
  destruct (abort_spec h1 live staged rest H1 H2) as (h2 & -> & Hok2 & Ha2). exists h2. split; [done|]. split; [|done].
  apply (store_ok_unique h h2 (owners live ++ rest)); [apply Hok|apply Hok2|by eapply agree_trans].
Qed.

Definition demo_plan : Z * option hl_logical_vma_ledger * vma_store :=
  default (1, None, demo_store)
    (hl_logical_vma_prepare_shared false true true vma_host 8192 4096 1 6 0 4096 demo_store demo_ledger).
Definition demo_staged : hl_logical_vma_ledger := default hl_logical_vma_init (snd (fst demo_plan)).

Lemma transaction_aborts_witness :
  exists h2, hl_logical_vma_abort_shared (snd demo_plan) demo_staged = Some h2 /\ backings h2 = backings demo_store /\
    ledger_ok h2 demo_ledger [].
Proof.
  apply (transaction_aborts true true vma_host (mk_file_mapping 8192 4096 1 6 0 4096) demo_store demo_ledger []).
  - split; [exact vma_host_sane|vm_compute; repeat split; discriminate].
  - exact demo_ok.
  - vm_compute. reflexivity.
  - vm_compute. reflexivity.
Defined.

(** Destroying a well-formed ledger drops every reference it holds and no
    other: what the others hold keeps its backings and their contents, and
    when nobody else holds anything no backing is left. *)
Theorem destroy_releases_all h L rest :
  ledger_ok h L rest ->
  exists h' L', hl_logical_vma_destroy h L = Some (h', L') /\ entries L' = [] /\ current L' = None /\
    store_ok h' rest /\ agree rest h h' /\ (rest = [] -> backings h' = ∅).
Proof.
  intros Hok. destruct (destroy_spec h L rest Hok) as (h' & L' & Hrun & Hst & Ha & He & Hc & _).
  exists h', L'. split_and!; try done. intros ->. by apply store_ok_nil.
Qed.

Lemma destroy_releases_all_witness :
  exists h' L', hl_logical_vma_destroy demo_store demo_ledger = Some (h', L') /\ entries L' = [] /\ current L' = None /\
    store_ok h' [] /\ agree [] demo_store h' /\ ([] = @nil Z -> backings h' = ∅).
Proof. apply (destroy_releases_all demo_store demo_ledger []). exact demo_ok. Defined.
