(* ===== verification/GuestAccess.v ===== *)
(** * Access to guest memory

    What the engine's [copy_from_user] and [copy_to_user] promise to a system
    call: the interface that [syscall/guest_copy.c] implements.  A copy answers
    the number of bytes it moved, the longest run of page fragments from the
    first byte on that the guest can reach, or [-EFAULT] when there is none. *)

From S2P Require Import Prelude.

Definition EFAULT : Z := 14.

Definition byte (b : Z) : Prop := 0 <= b < 256.

Class GuestMemory (G : Type) := {
  nonpie_fold : G -> Z -> Z;
  guest_copy_from : G -> Z -> Z -> option (Z * list Z * G);
  guest_copy_to : G -> Z -> list Z -> option (Z * G)
}.

(** [readable g a] is the byte the guest reads at [a], if it can; [writable]
    says that it can store there. *)
Class GuestMemoryOk (G : Type) `{GuestMemory G} := {
  guest_ok : G -> Prop;
  readable : G -> Z -> option Z;
  writable : G -> Z -> Prop;
  nonpie_fold_u64 : forall g a, guest_ok g -> 0 <= a < 2 ^ 64 -> 0 <= nonpie_fold g a < 2 ^ 64;
  copy_from_spec : forall g a n, guest_ok g -> 0 <= a < 2 ^ 64 -> 0 < n < 2 ^ 63 ->
    exists r l g', guest_copy_from g a n = Some (r, l, g') /\ guest_ok g' /\
      (forall x, readable g' x = readable g x) /\ (forall x, writable g' x <-> writable g x) /\
      (forall x, nonpie_fold g' x = nonpie_fold g x) /\
      (r = - EFAULT /\ l = [] \/ 0 < r <= n /\ lengthZ l = r) /\ Forall byte l /\
      (forall i, 0 <= i < lengthZ l -> readable g (a + i) = lookupZ l i) /\
      (lengthZ l < n -> exists i, 0 <= i < n /\ readable g (a + i) = None);
  copy_to_spec : forall g a l, guest_ok g -> 0 <= a < 2 ^ 64 -> 0 < lengthZ l < 2 ^ 63 -> Forall byte l ->
    exists r g', guest_copy_to g a l = Some (r, g') /\ guest_ok g' /\ (forall x, writable g' x <-> writable g x) /\
      (forall x, nonpie_fold g' x = nonpie_fold g x) /\
      (r = - EFAULT \/ 0 < r <= lengthZ l) /\
      (r < lengthZ l -> exists i, 0 <= i < lengthZ l /\ (writable g (a + i) -> False))
}.

(** A little-endian integer in memory. *)
Fixpoint le_value (l : list Z) : Z :=
  match l with
  | [] => 0
  | b :: l => b + 256 * le_value l
  end.

Lemma le_value_range l : Forall byte l -> 0 <= le_value l < 256 ^ lengthZ l.
Proof.
  induction 1 as [|b l Hb Hl IH]; simpl; [done|]. rewrite lengthZ_cons, Z.pow_add_r by (pose proof (lengthZ_nonneg l); lia).
  unfold byte in Hb. lia.
Qed.
