(* ===== verification/SeccompVm.v ===== *)
(** * The seccomp virtual machine

    [linux_abi/seccomp_vm.c]: validation and execution of classic BPF programs
    over the 64-byte [seccomp_data] record, and the precedence of actions.  A
    program is a non-NULL array whose length is [flen]. *)

From S2P Require Import Prelude.

Definition HL_LINUX_BPF_MAXINSNS : Z := 4096.
Definition MEMWORDS : Z := 16.

Definition HL_LINUX_SECCOMP_RET_KILL_PROCESS : Z := 0x80000000.
Definition HL_LINUX_SECCOMP_RET_KILL_THREAD : Z := 0.
Definition HL_LINUX_SECCOMP_RET_TRAP : Z := 0x00030000.
Definition HL_LINUX_SECCOMP_RET_ERRNO : Z := 0x00050000.
Definition HL_LINUX_SECCOMP_RET_USER_NOTIF : Z := 0x7fc00000.
Definition HL_LINUX_SECCOMP_RET_TRACE : Z := 0x7ff00000.
Definition HL_LINUX_SECCOMP_RET_LOG : Z := 0x7ffc0000.
Definition HL_LINUX_SECCOMP_RET_ALLOW : Z := 0x7fff0000.
Definition HL_LINUX_SECCOMP_RET_ACTION_FULL : Z := 0xffff0000.
Definition HL_LINUX_SECCOMP_RET_DATA : Z := 0xffff.

Record hl_linux_sock_filter := mk_insn {
  code : Z;      (** 16 bits *)
  jt : Z;        (** 8 bits *)
  jf : Z;        (** 8 bits *)
  k : Z          (** 32 bits *)
}.

Record hl_linux_seccomp_data := mk_data {
  nr : Z;        (** [int32_t] *)
  arch : Z;
  instruction_pointer : Z;
  args : list Z  (** six *)
}.

Definition CLASS (c : Z) : Z := Z.land c 0x07.
Definition SIZE (c : Z) : Z := Z.land c 0x18.
Definition MODE (c : Z) : Z := Z.land c 0xe0.
Definition OP (c : Z) : Z := Z.land c 0xf0.
Definition SRC (c : Z) : Z := Z.land c 0x08.
Definition RVAL (c : Z) : Z := Z.land c 0x18.
Definition MISCOP (c : Z) : Z := Z.land c 0xf8.

Definition sizeof_seccomp_data : Z := 64.

(** Membership in a list of opcodes. *)
Definition one_of (c : Z) (l : list Z) : bool := existsb (Z.eqb c) l.

(** ** Validation *)

Definition validate_ld (c value : Z) : bool :=
  if (c =? 0x00) || (c =? 0x80) then true
  else if MODE c =? 0x20 then
    negb (negb (SIZE c =? 0) || (sizeof_seccomp_data - 4 <? value) || negb (Z.land value 3 =? 0))
  else (c =? 0x60) && (value <? MEMWORDS).

Definition validate_alu (c value : Z) : bool :=
  let op := OP c in
  (if op =? 0x80 then c =? 0x84
   else one_of op [0x00; 0x10; 0x20; 0x30; 0x40; 0x50; 0x60; 0x70; 0x90; 0xa0]) &&
  negb (((op =? 0x30) || (op =? 0x90)) && (SRC c =? 0) && (value =? 0)).

Definition validate_jmp (c remaining : Z) (f : hl_linux_sock_filter) : bool :=
  if OP c =? 0x00 then negb (negb (c =? 0x05) || (remaining <=? k f))
  else one_of (OP c) [0x10; 0x20; 0x30; 0x40] && (jt f <? remaining) && (jf f <? remaining).

(** One instruction, [remaining] of which follow it. *)
Definition validate_insn (remaining : Z) (f : hl_linux_sock_filter) : bool :=
  let c := code f in
  let value := k f in
  match CLASS c with
  | 0 => validate_ld c value
  | 1 => (c =? 0x01) || (c =? 0x81) || ((c =? 0x61) && (value <? MEMWORDS))
  | 2 | 3 => negb (negb (c =? CLASS c) || (MEMWORDS <=? value))
  | 4 => validate_alu c value
  | 5 => validate_jmp c remaining f
  | 6 => (c =? 0x06) || (c =? 0x16)
  | 7 => (c =? 0x07) || (c =? 0x87)
  | _ => false
  end.

(** The loop over [pc]. *)
Fixpoint validate_from (f : list hl_linux_sock_filter) : bool :=
  match f with
  | [] => true
  | i :: f' => validate_insn (lengthZ f') i && validate_from f'
  end.

Definition hl_seccomp_validate (f : list hl_linux_sock_filter) : bool :=
  let flen := lengthZ f in
  if (flen =? 0) || (HL_LINUX_BPF_MAXINSNS <? flen) then false
  else
    match lookupZ f (flen - 1) with
    | Some i => (CLASS (code i) =? 0x06) && validate_from f
    | None => false
    end.

(** ** The packet *)

(** The record as the program sees it, on the little-endian hosts of the engine. *)
Definition packet_bytes (sd : hl_linux_seccomp_data) : list Z :=
  le_bytes 4 (nr sd) ++ le_bytes 4 (arch sd) ++ le_bytes 8 (instruction_pointer sd) ++
  concat (map (le_bytes 8) (args sd)).

Definition byte_at (packet : list Z) (offset : Z) : Z := default 0 (lookupZ packet offset).

(** ** Execution *)

Record vm_state := mk_vm {
  accumulator : Z;
  index : Z;
  memory_words : list Z;
  pc : Z
}.

(** Why the interpreter answers zero without meeting a RET. *)
Inductive vm_fault :=
| FaultLoad
| FaultMemory
| FaultDivide
| FaultJump
| FaultOpcode
| FaultRanOff.

Inductive vm_outcome :=
| Next (s : vm_state)
| Returned (v : Z)
| Faulted (f : vm_fault).

Definition set_acc (a : Z) (s : vm_state) : vm_state := mk_vm a (index s) (memory_words s) (pc s).
Definition set_index (x : Z) (s : vm_state) : vm_state := mk_vm (accumulator s) x (memory_words s) (pc s).
Definition set_word (i v : Z) (s : vm_state) : vm_state :=
  mk_vm (accumulator s) (index s) (insertZ (memory_words s) i v) (pc s).
Definition set_pc (p : Z) (s : vm_state) : vm_state := mk_vm (accumulator s) (index s) (memory_words s) p.
Definition word (s : vm_state) (i : Z) : Z := default 0 (lookupZ (memory_words s) i).

(** Bytes [offset] to [offset + size], least significant first. *)
Definition load (packet : list Z) (offset size : Z) : Z :=
  let a := byte_at packet offset in
  let a := if 1 <? size then Z.lor a (Z.shiftl (byte_at packet (offset + 1)) 8) else a in
  if 2 <? size
  then Z.lor (Z.lor a (Z.shiftl (byte_at packet (offset + 2)) 16)) (Z.shiftl (byte_at packet (offset + 3)) 24)
  else a.

Definition run_ld (packet : list Z) (c value : Z) (s : vm_state) : vm_outcome :=
  match MODE c with
  | 0x00 => Next (set_acc value s)
  | 0x80 => Next (set_acc sizeof_seccomp_data s)
  | 0x20 | 0x40 =>
      let offset := if MODE c =? 0x40 then index s + value else value in
      let size := if SIZE c =? 0x10 then 1 else if SIZE c =? 0x08 then 2 else 4 in
      if sizeof_seccomp_data <? offset + size then Faulted FaultLoad
      else Next (set_acc (load packet offset size) s)
  | 0x60 => if MEMWORDS <=? value then Faulted FaultMemory else Next (set_acc (word s value) s)
  | _ => Faulted FaultOpcode
  end.

Definition run_ldx (packet : list Z) (c value : Z) (s : vm_state) : vm_outcome :=
  match MODE c with
  | 0x00 => Next (set_index value s)
  | 0x80 => Next (set_index sizeof_seccomp_data s)
  | 0x60 => if MEMWORDS <=? value then Faulted FaultMemory else Next (set_index (word s value) s)
  | 0xa0 =>
      if sizeof_seccomp_data <=? value then Faulted FaultLoad
      else Next (set_index (4 * Z.land (byte_at packet value) 0x0f) s)
  | _ => Faulted FaultOpcode
  end.

(** The operation of an ALU instruction on two words. *)
Definition alu (op a source : Z) : vm_fault + Z :=
  match op with
  | 0x00 => inr (u32 (a + source))
  | 0x10 => inr (u32 (a - source))
  | 0x20 => inr (u32 (a * source))
  | 0x30 => if source =? 0 then inl FaultDivide else inr (a / source)
  | 0x40 => inr (Z.lor a source)
  | 0x50 => inr (Z.land a source)
  | 0x60 => inr (if source <? 32 then u32 (Z.shiftl a source) else 0)
  | 0x70 => inr (if source <? 32 then Z.shiftr a source else 0)
  | 0x80 => inr (u32 (0 - a))
  | 0x90 => if source =? 0 then inl FaultDivide else inr (a mod source)
  | 0xa0 => inr (Z.lxor a source)
  | _ => inl FaultOpcode
  end.

Definition operand (c value : Z) (s : vm_state) : Z := if SRC c =? 0x08 then index s else value.

(** The test of a conditional jump. *)
Definition jump_test (op a compare : Z) : option bool :=
  match op with
  | 0x10 => Some (a =? compare)
  | 0x20 => Some (compare <? a)
  | 0x30 => Some (compare <=? a)
  | 0x40 => Some (negb (Z.land a compare =? 0))
  | _ => None
  end.

(** [pc += displacement], guarded. *)
Definition jump (flen displacement : Z) (s : vm_state) : vm_outcome :=
  if flen - pc s - 1 <=? displacement then Faulted FaultJump else Next (set_pc (pc s + displacement) s).

Definition run_jmp (flen c : Z) (f : hl_linux_sock_filter) (s : vm_state) : vm_outcome :=
  if OP c =? 0x00 then jump flen (k f) s
  else
    match jump_test (OP c) (accumulator s) (operand c (k f) s) with
    | None => Faulted FaultOpcode
    | Some true => jump flen (jt f) s
    | Some false => jump flen (jf f) s
    end.

(** The body of the loop, [pc++] apart. *)
Definition run_insn (packet : list Z) (flen : Z) (f : hl_linux_sock_filter) (s : vm_state) : vm_outcome :=
  let c := code f in
  let value := k f in
  match CLASS c with
  | 0 => run_ld packet c value s
  | 1 => run_ldx packet c value s
  | 2 => if MEMWORDS <=? value then Faulted FaultMemory else Next (set_word value (accumulator s) s)
  | 3 => if MEMWORDS <=? value then Faulted FaultMemory else Next (set_word value (index s) s)
  | 4 =>
      match alu (OP c) (accumulator s) (operand c value s) with
      | inl fault => Faulted fault
      | inr a => Next (set_acc a s)
      end
  | 5 => run_jmp flen c f s
  | 6 => Returned (if RVAL c =? 0x10 then accumulator s else value)
  | 7 =>
      if MISCOP c =? 0x00 then Next (set_index (accumulator s) s)
      else if MISCOP c =? 0x80 then Next (set_acc (index s) s)
      else Faulted FaultOpcode
  | _ => Faulted FaultOpcode
  end.

(** [for (steps = 0; pc < flen && steps <= MAXINSNS; steps++, pc++)]. *)
Fixpoint run_loop (steps : nat) (packet : list Z) (f : list hl_linux_sock_filter) (s : vm_state) : vm_outcome :=
  match steps with
  | O => Faulted FaultRanOff
  | S steps =>
      match lookupZ f (pc s) with
      | None => Faulted FaultRanOff
      | Some i =>
          match run_insn packet (lengthZ f) i s with
          | Next s => run_loop steps packet f (set_pc (pc s + 1) s)
          | outcome => outcome
          end
      end
  end.

Definition vm_start : vm_state := mk_vm 0 0 (replicate 16 0) 0.

Definition run_program (f : list hl_linux_sock_filter) (sd : hl_linux_seccomp_data) : vm_outcome :=
  run_loop (S (Z.to_nat HL_LINUX_BPF_MAXINSNS)) (packet_bytes sd) f vm_start.

(** Every way of not meeting a RET answers zero, [KILL_THREAD]. *)
Definition hl_seccomp_run (f : list hl_linux_sock_filter) (sd : hl_linux_seccomp_data) : Z :=
  if (lengthZ f =? 0) || (HL_LINUX_BPF_MAXINSNS <? lengthZ f) then 0
  else
    match run_program f sd with
    | Returned v => v
    | _ => 0
    end.

Definition hl_seccomp_precedence (action : Z) : Z :=
  let a := Z.land action HL_LINUX_SECCOMP_RET_ACTION_FULL in
  if a =? HL_LINUX_SECCOMP_RET_KILL_PROCESS then 0
  else if a =? HL_LINUX_SECCOMP_RET_KILL_THREAD then 1
  else if a =? HL_LINUX_SECCOMP_RET_TRAP then 2
  else if a =? HL_LINUX_SECCOMP_RET_ERRNO then 3
  else if a =? HL_LINUX_SECCOMP_RET_USER_NOTIF then 4
  else if a =? HL_LINUX_SECCOMP_RET_TRACE then 5
  else if a =? HL_LINUX_SECCOMP_RET_LOG then 6
  else if a =? HL_LINUX_SECCOMP_RET_ALLOW then 7
  else 1.

(** ** Seccomp programs: the reference semantics

    Programs decoded to an instruction type, evaluated by structural recursion
    on the instructions that are left: jumps only go forward.  Loads name the
    fields of [seccomp_data].  The interpreter of [seccomp_vm.c] agrees with
    it on every validated program. *)

(** ** Instructions *)

Inductive operation := Add | Sub | Mul | Div | Or | And | Lsh | Rsh | Neg | Mod | Xor.
Inductive source := Constant (v : Z) | IndexRegister.
Inductive comparison := Equal | Greater | GreaterEqual | CommonBits.

Inductive insn :=
| LoadConstant (v : Z)
| LoadLength
| LoadField (offset : Z)
| LoadWord (i : Z)
| IndexConstant (v : Z)
| IndexLength
| IndexWord (i : Z)
| StoreWord (i : Z)
| StoreIndex (i : Z)
| Alu (op : operation) (s : source)
| Jump (n : nat)
| Branch (c : comparison) (s : source) (yes no : nat)
| ReturnConstant (v : Z)
| ReturnAccumulator
| ToIndex
| ToAccumulator.

(** ** Decoding *)

Definition decode_operation (op : Z) : option operation :=
  match op with
  | 0x00 => Some Add | 0x10 => Some Sub | 0x20 => Some Mul | 0x30 => Some Div | 0x40 => Some Or
  | 0x50 => Some And | 0x60 => Some Lsh | 0x70 => Some Rsh | 0x80 => Some Neg | 0x90 => Some Mod
  | 0xa0 => Some Xor
  | _ => None
  end.

Definition decode_comparison (op : Z) : option comparison :=
  match op with
  | 0x10 => Some Equal | 0x20 => Some Greater | 0x30 => Some GreaterEqual | 0x40 => Some CommonBits
  | _ => None
  end.

Definition decode_source (c value : Z) : source := if SRC c =? 0x08 then IndexRegister else Constant value.

Definition decode (f : hl_linux_sock_filter) : option insn :=
  let c := code f in
  let value := k f in
  match CLASS c with
  | 0 =>
      if c =? 0x00 then Some (LoadConstant value)
      else if c =? 0x80 then Some LoadLength
      else if MODE c =? 0x20 then Some (LoadField value)
      else if c =? 0x60 then Some (LoadWord value)
      else None
  | 1 =>
      if c =? 0x01 then Some (IndexConstant value)
      else if c =? 0x81 then Some IndexLength
      else if c =? 0x61 then Some (IndexWord value)
      else None
  | 2 => Some (StoreWord value)
  | 3 => Some (StoreIndex value)
  | 4 => op ← decode_operation (OP c); Some (Alu op (decode_source c value))
  | 5 =>
      if OP c =? 0x00 then Some (Jump (Z.to_nat value))
      else
        t ← decode_comparison (OP c);
        Some (Branch t (decode_source c value) (Z.to_nat (jt f)) (Z.to_nat (jf f)))
  | 6 => Some (if c =? 0x16 then ReturnAccumulator else ReturnConstant value)
  | 7 => Some (if c =? 0x07 then ToIndex else ToAccumulator)
  | _ => None
  end.

Definition decode_program (f : list hl_linux_sock_filter) : option (list insn) := mapM decode f.

(** ** Evaluation *)

(** The 32-bit word of the record at a multiple of four. *)
Definition low_word (x : Z) : Z := u32 x.
Definition high_word (x : Z) : Z := u32 (x / 2 ^ 32).
Definition field (sd : hl_linux_seccomp_data) (offset : Z) : Z :=
  if offset =? 0 then u32 (nr sd)
  else if offset =? 4 then u32 (arch sd)
  else
    let x := if offset <? 16 then instruction_pointer sd else default 0 (lookupZ (args sd) ((offset - 16) / 8)) in
    if offset mod 8 =? 0 then low_word x else high_word x.

Definition operate (op : operation) (a b : Z) : option Z :=
  match op with
  | Add => Some (u32 (a + b))
  | Sub => Some (u32 (a - b))
  | Mul => Some (u32 (a * b))
  | Div => if b =? 0 then None else Some (a / b)
  | Or => Some (Z.lor a b)
  | And => Some (Z.land a b)
  | Lsh => Some (if b <? 32 then u32 (a * 2 ^ b) else 0)
  | Rsh => Some (if b <? 32 then a / 2 ^ b else 0)
  | Neg => Some (u32 (- a))
  | Mod => if b =? 0 then None else Some (a mod b)
  | Xor => Some (Z.lxor a b)
  end.

Definition compare_words (c : comparison) (a b : Z) : bool :=
  match c with
  | Equal => a =? b
  | Greater => b <? a
  | GreaterEqual => b <=? a
  | CommonBits => negb (Z.land a b =? 0)
  end.

Inductive verdict :=
| Verdict (action : Z)
| DivideByZero
| Stuck.

(** [l] without its first [n] instructions. *)
Fixpoint skip (n : nat) (l : list insn) {struct l} : list insn :=
  match l with
  | [] => l
  | _ :: l' => match n with S n => skip n l' | O => l end
  end.

Definition source_value (s : source) (x : Z) : Z :=
  match s with Constant v => v | IndexRegister => x end.

Definition store (i v : Z) (m : Z -> Z) : Z -> Z := fun j => if j =? i then v else m j.

Fixpoint eval (sd : hl_linux_seccomp_data) (l : list insn) (a x : Z) (m : Z -> Z) : verdict :=
  match l with
  | [] => Stuck
  | i :: l =>
      match i with
      | LoadConstant v => eval sd l v x m
      | LoadLength => eval sd l sizeof_seccomp_data x m
      | LoadField offset => eval sd l (field sd offset) x m
      | LoadWord j => eval sd l (m j) x m
      | IndexConstant v => eval sd l a v m
      | IndexLength => eval sd l a sizeof_seccomp_data m
      | IndexWord j => eval sd l a (m j) m
      | StoreWord j => eval sd l a x (store j a m)
      | StoreIndex j => eval sd l a x (store j x m)
      | Alu op s =>
          match operate op a (source_value s x) with
          | Some a => eval sd l a x m
          | None => DivideByZero
          end
      | Jump n => eval sd (skip n l) a x m
      | Branch c s yes no => eval sd (skip (if compare_words c a (source_value s x) then yes else no) l) a x m
      | ReturnConstant v => Verdict v
      | ReturnAccumulator => Verdict a
      | ToIndex => eval sd l a a m
      | ToAccumulator => eval sd l x x m
      end
  end.

(** The action of a program: dividing by a zero index register kills. *)
Definition program_action (sd : hl_linux_seccomp_data) (l : list insn) : option Z :=
  match eval sd l 0 0 (fun _ => 0) with
  | Verdict v => Some v
  | DivideByZero => Some HL_LINUX_SECCOMP_RET_KILL_THREAD
  | Stuck => None
  end.

(** ** Well-formed input *)

(** The fields of an instruction have their widths. *)
Definition insn_sized (f : hl_linux_sock_filter) : Prop :=
  0 <= code f < 2 ^ 16 /\ 0 <= jt f < 2 ^ 8 /\ 0 <= jf f < 2 ^ 8 /\ 0 <= k f < 2 ^ 32.

Definition data_sized (sd : hl_linux_seccomp_data) : Prop :=
  - 2 ^ 31 <= nr sd < 2 ^ 31 /\ 0 <= arch sd < 2 ^ 32 /\ 0 <= instruction_pointer sd < 2 ^ 64 /\
  length (args sd) = 6%nat /\ Forall (fun a => 0 <= a < 2 ^ 64) (args sd).
