(* ===== verification/SeccompProofs.v ===== *)
(** * Validated seccomp programs

    The interpreter simulates the reference semantics on validated programs:
    loads read the fields of the record, every step stays inside the program,
    and the loop ends within one step per instruction. *)

From stdpp Require Import list.
From S2P Require Import Prelude SeccompVm.

(** ** Little-endian words *)

Lemma lor_shiftl a b n : 0 <= n -> 0 <= a < 2 ^ n -> Z.lor a (Z.shiftl b n) = a + b * 2 ^ n.
Proof.
  intros Hn Ha. rewrite <- Z.shiftl_mul_pow2 by done.
  assert (Hland : Z.land a (Z.shiftl b n) = 0).
  { apply Z.bits_inj'. intros i Hi. rewrite Z.land_spec, Z.bits_0. destruct (Z.lt_ge_cases i n).
    - rewrite Z.shiftl_spec_low by done. apply andb_false_r.
    - rewrite <- (Z.mod_small a (2 ^ n)) by done. rewrite Z.mod_pow2_bits_high by lia. done. }
  rewrite Z.add_nocarry_lxor by done. by rewrite Z.lxor_lor.
Qed.

Lemma four_bytes x :
  Z.lor (Z.lor (Z.lor (x mod 256) (Z.shiftl ((x / 256) mod 256) 8)) (Z.shiftl ((x / 256 / 256) mod 256) 16))
    (Z.shiftl ((x / 256 / 256 / 256) mod 256) 24) = u32 x.
Proof.
  pose proof (Z.mod_pos_bound x 256 ltac:(lia)). pose proof (Z.mod_pos_bound (x / 256) 256 ltac:(lia)).
  pose proof (Z.mod_pos_bound (x / 256 / 256) 256 ltac:(lia)).
  rewrite (lor_shiftl _ _ 8) by lia. rewrite (lor_shiftl _ _ 16) by lia. rewrite (lor_shiftl _ _ 24) by lia.
  unfold u32. change (2 ^ 32) with (256 * (256 * (256 * 256))). rewrite !Z.rem_mul_r by lia. lia.
Qed.

(** Every aligned word of the packet is a word of a field. *)
Lemma load_field sd offset :
  data_sized sd -> 0 <= offset <= 60 -> Z.land offset 3 = 0 -> load (packet_bytes sd) offset 4 = field sd offset.
Proof.
  intros (_ & _ & _ & Hlen & _) Ho Ha. destruct sd as [n a ip l]. simpl in Hlen.
  destruct l as [|a0 [|a1 [|a2 [|a3 [|a4 [|a5 [|? ?]]]]]]]; try done.
  assert (Hcase : exists i, offset = 4 * i /\ 0 <= i <= 15).
  { exists (offset / 4). change 3 with (Z.ones 2) in Ha. rewrite Z.land_ones in Ha by lia. change (2 ^ 2) with 4 in Ha.
    pose proof (Z.div_mod offset 4 ltac:(lia)). lia. }
  destruct Hcase as (i & -> & Hi). clear Ho Ha.
  assert (Hall : In i [0; 1; 2; 3; 4; 5; 6; 7; 8; 9; 10; 11; 12; 13; 14; 15]) by (simpl; lia).
  repeat (destruct Hall as [<-|Hall]); [..|done];
    unfold load, byte_at, packet_bytes, lookupZ; simpl; unfold field, low_word, high_word; simpl;
    rewrite ?four_bytes; try done; by rewrite !Z.div_div by lia.
Qed.

(** ** Lists of instructions *)

Lemma skip_drop n l : skip n l = drop n l.
Proof. revert n. induction l as [|i l IH]; intros [|n]; simpl; done. Qed.

Lemma validate_from_lookup f : forall n i,
  validate_from f = true -> f !! n = Some i -> validate_insn (lengthZ f - Z.of_nat n - 1) i = true.
Proof.
  induction f as [|j f IH]; intros n i Hv Hi; [done|]. simpl in Hv. apply andb_true_iff in Hv as [Hj Hf].
  rewrite lengthZ_cons. destruct n as [|n]; simpl in Hi.
  - injection Hi as <-. by replace (lengthZ f + 1 - Z.of_nat 0 - 1) with (lengthZ f) by lia.
  - replace (lengthZ f + 1 - Z.of_nat (S n) - 1) with (lengthZ f - Z.of_nat n - 1) by lia. by apply IH.
Qed.

(** What validation establishes of a program. *)
Record program_ok (f : list hl_linux_sock_filter) : Prop := mk_program_ok {
  po_length : 0 < lengthZ f <= HL_LINUX_BPF_MAXINSNS;
  po_insn : forall n i, f !! n = Some i -> validate_insn (lengthZ f - Z.of_nat n - 1) i = true;
  po_last : forall n i, f !! n = Some i -> S n = length f -> CLASS (code i) = 6
}.

Lemma validate_ok f : hl_seccomp_validate f = true -> program_ok f.
Proof.
  unfold hl_seccomp_validate. pose proof (lengthZ_nonneg f) as Hl. destruct (_ || _) eqn:Hg; [done|]. bool_props.
  destruct (lookupZ f (lengthZ f - 1)) as [i|] eqn:Hi; [|done]. intros Hv. bool_props. constructor.
  - lia.
  - intros n j. by apply validate_from_lookup.
  - intros n j Hj Hn. unfold lookupZ in Hi. rewrite (proj2 (Z.leb_le _ _)) in Hi by lia.
    replace (Z.to_nat (lengthZ f - 1)) with n in Hi by (unfold lengthZ; lia). congruence.
Qed.

Lemma one_of_In c l : one_of c l = true <-> In c l.
Proof.
  unfold one_of. rewrite existsb_exists. split.
  - intros (x & Hx & He). apply Z.eqb_eq in He. by subst.
  - intros Hc. exists c. split; [done|apply Z.eqb_refl].
Qed.

(** ** Words *)

Lemma u32_bits a : 0 <= a -> (forall i, 32 <= i -> Z.testbit a i = false) -> in_u32 a.
Proof.
  intros Ha Hb. unfold in_u32. enough (a = u32 a) as -> by apply u32_range.
  unfold u32. rewrite <- Z.land_ones by lia. apply Z.bits_inj'. intros i Hi. rewrite Z.land_spec.
  destruct (Z.lt_ge_cases i 32).
  - rewrite Z.ones_spec_low by lia. by rewrite andb_true_r.
  - by rewrite (Hb i).
Qed.

Lemma u32_high a i : in_u32 a -> 32 <= i -> Z.testbit a i = false.
Proof. intros Ha Hi. unfold in_u32 in Ha. rewrite <- (Z.mod_small a (2 ^ 32)) by lia. by apply Z.mod_pow2_bits_high. Qed.

Lemma u32_bitwise a b : in_u32 a -> in_u32 b -> in_u32 (Z.lor a b) /\ in_u32 (Z.land a b) /\ in_u32 (Z.lxor a b).
Proof.
  intros Ha Hb. assert (0 <= a /\ 0 <= b) as [? ?] by (unfold in_u32 in *; lia).
  split_and!; apply u32_bits; try intros i Hi.
  - by apply Z.lor_nonneg.
  - rewrite Z.lor_spec, !u32_high; done.
  - apply Z.land_nonneg; auto.
  - rewrite Z.land_spec, !u32_high; done.
  - apply Z.lxor_nonneg; lia.
  - rewrite Z.lxor_spec, !u32_high; done.
Qed.

Lemma u32_in x : in_u32 (u32 x).
Proof. apply u32_range. Qed.

Lemma operate_u32 op a b r : in_u32 a -> in_u32 b -> operate op a b = Some r -> in_u32 r.
Proof.
  intros Ha Hb. pose proof (u32_bitwise a b Ha Hb) as (? & ? & ?). unfold in_u32 in Ha, Hb.
  destruct op; simpl; try (intros [= <-]; first [done|apply u32_in]).
  - destruct (Z.eqb_spec b 0); [done|]. intros [= <-]. unfold in_u32.
    pose proof (Z.div_pos a b ltac:(lia) ltac:(lia)). pose proof (Z.div_le_upper_bound a b a ltac:(lia) ltac:(nia)). lia.
  - intros [= <-]. destruct (b <? 32); [apply u32_in|unfold in_u32; lia].
  - intros [= <-]. unfold in_u32. destruct (b <? 32); [|lia]. pose proof (Z.pow_pos_nonneg 2 b ltac:(lia) ltac:(lia)).
    pose proof (Z.div_pos a (2 ^ b) ltac:(lia) ltac:(lia)).
    pose proof (Z.div_le_upper_bound a (2 ^ b) a ltac:(lia) ltac:(nia)). lia.
  - destruct (Z.eqb_spec b 0); [done|]. intros [= <-]. pose proof (Z.mod_pos_bound a b ltac:(lia)). unfold in_u32. lia.
Qed.

(** ** The simulation *)

(** The machine holds the registers and the words of the reference. *)
Record vm_rel (s : vm_state) (a x : Z) (m : Z -> Z) : Prop := mk_vm_rel {
  vr_acc : accumulator s = a;
  vr_index : index s = x;
  vr_words : length (memory_words s) = 16%nat;
  vr_word : forall j, 0 <= j < MEMWORDS -> word s j = m j;
  vr_acc_u32 : in_u32 a;
  vr_index_u32 : in_u32 x;
  vr_word_u32 : forall j, 0 <= j < MEMWORDS -> in_u32 (m j)
}.

Lemma vm_rel_acc s a x m v : vm_rel s a x m -> in_u32 v -> vm_rel (set_acc v s) v x m.
Proof. intros [] Hv. by constructor. Qed.

Lemma vm_rel_index s a x m v : vm_rel s a x m -> in_u32 v -> vm_rel (set_index v s) a v m.
Proof. intros [] Hv. by constructor. Qed.

Lemma vm_rel_pc s a x m p : vm_rel s a x m -> vm_rel (set_pc p s) a x m.
Proof. intros []. by constructor. Qed.

Lemma vm_rel_word s a x m i v :
  vm_rel s a x m -> 0 <= i < MEMWORDS -> in_u32 v -> vm_rel (set_word i v s) a x (store i v m).
Proof.
  intros [] Hi Hv. constructor; try done.
  - simpl. unfold insertZ. destruct (0 <=? i); [|done]. by rewrite length_insert.
  - intros j Hj. unfold word, store. simpl. rewrite lookupZ_insertZ by (unfold lengthZ, MEMWORDS in *; lia).
    destruct (decide (i = j)) as [->|Hne]; [by rewrite Z.eqb_refl|]. rewrite (proj2 (Z.eqb_neq j i)) by lia. by apply vr_word0.
  - intros j Hj. unfold store. destruct (j =? i); auto.
Qed.

Lemma vm_rel_start : vm_rel vm_start 0 0 (fun _ => 0).
Proof.
  constructor; try (intros; unfold in_u32; simpl; lia); [done..|].
  intros j Hj. unfold word, vm_start, lookupZ. cbn [memory_words]. destruct (0 <=? j); [|done].
  rewrite lookup_replicate_2 by (unfold MEMWORDS in Hj; lia). done.
Qed.

(** One instruction of the interpreter against one of the reference, [rest]
    following it. *)
Definition simulates (sd : hl_linux_seccomp_data) (rest : list insn) (p : Z) (v : verdict) (o : vm_outcome) : Prop :=
  match o with
  | Next s =>
      exists n a x m, pc s = p + Z.of_nat n /\ (n = 0 \/ n < length rest)%nat /\ vm_rel s a x m /\
        v = eval sd (drop n rest) a x m
  | Returned w => v = Verdict w /\ in_u32 w
  | Faulted fault => v = DivideByZero /\ fault = FaultDivide
  end.

(** An instruction that falls through. *)
Lemma simulates_next sd rest s a x m : vm_rel s a x m -> simulates sd rest (pc s) (eval sd rest a x m) (Next s).
Proof. intros Hr. exists 0%nat, a, x, m. split_and!; [lia|by left|done|done]. Qed.

Lemma field_u32 sd offset : in_u32 (field sd offset).
Proof. unfold field, low_word, high_word. repeat (destruct (_ =? _)); apply u32_in. Qed.

Lemma CLASS_range c : 0 <= CLASS c < 8.
Proof. unfold CLASS. change 0x07 with (Z.ones 3). rewrite Z.land_ones by lia. apply Z.mod_pos_bound. lia. Qed.

Section Step.
Context (sd : hl_linux_seccomp_data) (Hsd : data_sized sd) (rest : list insn).
Context (f : hl_linux_sock_filter) (Hf : insn_sized f) (d : insn) (Hd : decode f = Some d).
Context (s : vm_state) (a x : Z) (m : Z -> Z) (Hr : vm_rel s a x m).

Lemma k_u32 : in_u32 (k f).
Proof. unfold insn_sized in Hf. unfold in_u32. lia. Qed.

Lemma simulates_ld :
  CLASS (code f) = 0 -> validate_ld (code f) (k f) = true ->
  simulates sd rest (pc s) (eval sd (d :: rest) a x m) (run_ld (packet_bytes sd) (code f) (k f) s).
Proof.
  intros Hc. unfold decode in Hd. rewrite Hc in Hd. unfold validate_ld. pose proof k_u32 as Hk.
  destruct (code f =? 0x00) eqn:H0; bool_props.
  { injection Hd as <-. rewrite H0. intros _. apply (simulates_next sd rest (set_acc (k f) s)). by eapply vm_rel_acc. }
  destruct (code f =? 0x80) eqn:H1; bool_props.
  { injection Hd as <-. rewrite H1. intros _. apply (simulates_next sd rest (set_acc sizeof_seccomp_data s)).
    by eapply vm_rel_acc. }
  cbn [orb]. unfold run_ld. destruct (MODE (code f) =? 0x20) eqn:H2; bool_props.
  - injection Hd as <-. intros Hv. rewrite H2. bool_props. unfold sizeof_seccomp_data in *.
    repeat match goal with H : SIZE (code f) = 0 |- _ => rewrite H end. simpl.
    assert (0 <= k f) by (unfold in_u32 in Hk; lia). rewrite (proj2 (Z.ltb_ge _ _)) by lia.
    rewrite load_field by (done || lia). apply (simulates_next sd rest (set_acc (field sd (k f)) s)).
    eapply vm_rel_acc; [done|apply field_u32].
  - destruct (code f =? 0x60) eqn:H3; [|done]. bool_props. injection Hd as <-. rewrite H3. intros Hv. bool_props. simpl.
    assert (0 <= k f) by (unfold in_u32 in Hk; lia). rewrite (proj2 (Z.leb_gt _ _)) by lia.
    rewrite (vr_word _ _ _ _ Hr) by lia. apply (simulates_next sd rest (set_acc (m (k f)) s)).
    eapply vm_rel_acc; [done|]. apply (vr_word_u32 _ _ _ _ Hr). lia.
Qed.

Lemma simulates_ldx :
  CLASS (code f) = 1 -> (code f =? 0x01) || (code f =? 0x81) || ((code f =? 0x61) && (k f <? MEMWORDS)) = true ->
  simulates sd rest (pc s) (eval sd (d :: rest) a x m) (run_ldx (packet_bytes sd) (code f) (k f) s).
Proof.
  intros Hc. unfold decode in Hd. rewrite Hc in Hd. pose proof k_u32 as Hk.
  destruct (code f =? 0x01) eqn:H0; bool_props.
  { injection Hd as <-. rewrite H0. intros _. apply (simulates_next sd rest (set_index (k f) s)). by eapply vm_rel_index. }
  destruct (code f =? 0x81) eqn:H1; bool_props.
  { injection Hd as <-. rewrite H1. intros _. apply (simulates_next sd rest (set_index sizeof_seccomp_data s)).
    by eapply vm_rel_index. }
  cbn [orb]. destruct (code f =? 0x61) eqn:H3; [|done]. bool_props. injection Hd as <-. rewrite H3. intros Hv. bool_props.
  unfold run_ldx. simpl. assert (0 <= k f) by (unfold in_u32 in Hk; lia). rewrite (proj2 (Z.leb_gt _ _)) by lia.
  rewrite (vr_word _ _ _ _ Hr) by lia. apply (simulates_next sd rest (set_index (m (k f)) s)).
  eapply vm_rel_index; [done|]. apply (vr_word_u32 _ _ _ _ Hr). lia.
Qed.

Lemma operand_value : operand (code f) (k f) s = source_value (decode_source (code f) (k f)) x.
Proof. unfold operand, decode_source. destruct (SRC _ =? _); [apply (vr_index _ _ _ _ Hr)|done]. Qed.

Lemma operand_u32 : in_u32 (operand (code f) (k f) s).
Proof.
  unfold operand. destruct (SRC _ =? _); [|apply k_u32]. rewrite (vr_index _ _ _ _ Hr). apply (vr_index_u32 _ _ _ _ Hr).
Qed.

Lemma alu_operate op o b1 b2 :
  in_u32 b2 -> decode_operation op = Some o ->
  alu op b1 b2 = match operate o b1 b2 with Some r => inr r | None => inl FaultDivide end.
Proof.
  intros Hb Ho. unfold in_u32 in Hb. unfold decode_operation in Ho.
  repeat case_match_in Ho; try done; injection Ho as <-; cbn [alu operate]; try done.
  all: try by destruct (b2 =? 0).
  - by rewrite Z.shiftr_div_pow2 by lia.
  - by rewrite Z.shiftl_mul_pow2 by lia.
Qed.

Lemma simulates_alu :
  CLASS (code f) = 4 ->
  simulates sd rest (pc s) (eval sd (d :: rest) a x m)
    match alu (OP (code f)) (accumulator s) (operand (code f) (k f) s) with
    | inl fault => Faulted fault
    | inr v => Next (set_acc v s)
    end.
Proof.
  intros Hc. unfold decode in Hd. rewrite Hc in Hd. simpl in Hd.
  destruct (decode_operation (OP (code f))) as [o|] eqn:Ho; [|done]. injection Hd as <-. simpl.
  rewrite (alu_operate _ _ _ _ operand_u32 Ho). rewrite (vr_acc _ _ _ _ Hr), <- operand_value.
  destruct (operate o a _) as [r|] eqn:He; [|done]. apply (simulates_next sd rest (set_acc r s)).
  eapply vm_rel_acc; [done|]. eapply operate_u32; [apply (vr_acc_u32 _ _ _ _ Hr)|apply operand_u32|done].
Qed.

Lemma simulates_jump flen n :
  flen = pc s + 1 + Z.of_nat (length rest) -> 0 <= n < Z.of_nat (length rest) ->
  simulates sd rest (pc s) (eval sd (skip (Z.to_nat n) rest) a x m) (jump flen n s).
Proof.
  intros -> Hn. unfold jump. rewrite (proj2 (Z.leb_gt _ _)) by lia. rewrite skip_drop.
  exists (Z.to_nat n), a, x, m. split_and!; [simpl; lia|right; lia|by apply vm_rel_pc|done].
Qed.

Lemma jump_test_compare op c v w :
  decode_comparison op = Some c -> jump_test op v w = Some (compare_words c v w).
Proof. unfold decode_comparison. intros H. repeat case_match_in H; try done; by injection H as <-. Qed.

Lemma simulates_jmp flen :
  CLASS (code f) = 5 -> flen = pc s + 1 + Z.of_nat (length rest) ->
  validate_jmp (code f) (Z.of_nat (length rest)) f = true ->
  simulates sd rest (pc s) (eval sd (d :: rest) a x m) (run_jmp flen (code f) f s).
Proof.
  intros Hc Hl Hv. unfold decode in Hd. rewrite Hc in Hd. simpl in Hd. pose proof k_u32 as Hk. unfold in_u32 in Hk.
  pose proof Hf as (_ & Hjt & Hjf & _). unfold validate_jmp in Hv. unfold run_jmp.
  destruct (OP (code f) =? 0x00); bool_props.
  - injection Hd as <-. apply simulates_jump; [done|lia].
  - destruct (decode_comparison (OP (code f))) as [c|] eqn:Ho; [|done]. injection Hd as <-. simpl.
    rewrite (jump_test_compare _ c) by done. rewrite (vr_acc _ _ _ _ Hr), <- operand_value.
    destruct (compare_words c a _); apply simulates_jump; (done || lia).
Qed.

(** A validated instruction. *)
Lemma simulates_insn flen :
  flen = pc s + 1 + Z.of_nat (length rest) -> validate_insn (Z.of_nat (length rest)) f = true ->
  simulates sd rest (pc s) (eval sd (d :: rest) a x m) (run_insn (packet_bytes sd) flen f s).
Proof.
  intros Hl Hv. unfold validate_insn in Hv. unfold run_insn. pose proof (CLASS_range (code f)) as Hrange.
  pose proof k_u32 as Hk. unfold in_u32 in Hk.
  assert (Hcase : In (CLASS (code f)) [0; 1; 2; 3; 4; 5; 6; 7]) by (simpl; lia).
  repeat (destruct Hcase as [Hc|Hcase]); [..|done]; rewrite <- Hc in Hv |- *; symmetry in Hc; cbn beta iota in Hv |- *.
  - by apply simulates_ld.
  - by apply simulates_ldx.
  - unfold decode in Hd. rewrite Hc in Hd. injection Hd as <-. bool_props. rewrite (proj2 (Z.leb_gt _ _)) by lia.
    rewrite (vr_acc _ _ _ _ Hr). apply (simulates_next sd rest (set_word (k f) a s)).
    eapply vm_rel_word; [done|lia|apply (vr_acc_u32 _ _ _ _ Hr)].
  - unfold decode in Hd. rewrite Hc in Hd. injection Hd as <-. bool_props. rewrite (proj2 (Z.leb_gt _ _)) by lia.
    rewrite (vr_index _ _ _ _ Hr). apply (simulates_next sd rest (set_word (k f) x s)).
    eapply vm_rel_word; [done|lia|apply (vr_index_u32 _ _ _ _ Hr)].
  - by apply simulates_alu.
  - by apply simulates_jmp.
  - unfold decode in Hd. rewrite Hc in Hd. simpl in Hd. apply orb_true_iff in Hv as [Hv|Hv]; bool_props; rewrite Hv in Hd |- *;
      injection Hd as <-; simpl.
    + split; [done|apply k_u32].
    + rewrite (vr_acc _ _ _ _ Hr). split; [done|apply (vr_acc_u32 _ _ _ _ Hr)].
  - unfold decode in Hd. rewrite Hc in Hd. simpl in Hd. apply orb_true_iff in Hv as [Hv|Hv]; bool_props; rewrite Hv in Hd |- *;
      injection Hd as <-; cbn [eval].
    + rewrite (vr_acc _ _ _ _ Hr). apply (simulates_next sd rest (set_index a s)).
      eapply vm_rel_index; [done|apply (vr_acc_u32 _ _ _ _ Hr)].
    + rewrite (vr_index _ _ _ _ Hr). apply (simulates_next sd rest (set_acc x s)).
      eapply vm_rel_acc; [done|apply (vr_index_u32 _ _ _ _ Hr)].
Qed.
End Step.

(** ** Programs *)

Lemma validate_decodes remaining i : validate_insn remaining i = true -> is_Some (decode i).
Proof.
  unfold validate_insn, decode. pose proof (CLASS_range (code i)).
  assert (Hcase : In (CLASS (code i)) [0; 1; 2; 3; 4; 5; 6; 7]) by (simpl; lia).
  repeat (destruct Hcase as [<-|Hcase]); [..|done]; cbn beta iota.
  - unfold validate_ld. destruct (code i =? 0); [done|]. destruct (code i =? 128); [done|]. cbn [orb].
    destruct (MODE (code i) =? 32); [done|]. by destruct (code i =? 96).
  - destruct (code i =? 1); [done|]. destruct (code i =? 129); [done|]. by destruct (code i =? 97).
  - done.
  - done.
  - unfold validate_alu. intros Hv. apply andb_true_iff in Hv as [Hv _].
    assert (Hop : In (OP (code i)) [0x80; 0x00; 0x10; 0x20; 0x30; 0x40; 0x50; 0x60; 0x70; 0x90; 0xa0]).
    { destruct (Z.eqb_spec (OP (code i)) 0x80); [by left|right]. by apply one_of_In. }
    repeat (destruct Hop as [<-|Hop]); [..|done]; done.
  - unfold validate_jmp. destruct (OP (code i) =? 0); [done|]. intros Hv. bool_props.
    match goal with H : one_of _ _ = true |- _ => apply one_of_In in H; rename H into Hop end.
    repeat (destruct Hop as [<-|Hop]); [..|done]; done.
  - done.
  - done.
Qed.

Lemma ok_decodes f : program_ok f -> exists l, decode_program f = Some l.
Proof.
  intros Hok. unfold decode_program. destruct (mapM decode f) as [l|] eqn:Hl; [by exists l|]. exfalso.
  assert (Hs : is_Some (mapM decode f)).
  { apply mapM_is_Some. apply Forall_lookup. intros n i Hi. eapply validate_decodes. by eapply po_insn. }
  rewrite Hl in Hs. by destruct Hs.
Qed.

Section Loop.
Context (sd : hl_linux_seccomp_data) (Hsd : data_sized sd).
Context (f : list hl_linux_sock_filter) (Hok : program_ok f) (Hsz : Forall insn_sized f).
Context (l : list insn) (Hl : decode_program f = Some l).

Lemma decoded_lookup n i : f !! n = Some i -> exists d, decode i = Some d /\ l !! n = Some d /\ length l = length f.
Proof.
  intros Hi. apply mapM_Some in Hl. destruct (Forall2_lookup_l _ _ _ _ _ Hl Hi) as (d & Hd & He).
  exists d. split_and!; [done|done|]. symmetry. by eapply Forall2_length.
Qed.

(** The loop from instruction [pc s] is the evaluation of the instructions
    left there, which ends within as many steps. *)
Lemma run_loop_eval steps : forall s a x m,
  vm_rel s a x m -> 0 <= pc s < lengthZ f -> lengthZ f - pc s <= Z.of_nat steps ->
  match run_loop steps (packet_bytes sd) f s with
  | Returned w => eval sd (drop (Z.to_nat (pc s)) l) a x m = Verdict w /\ in_u32 w
  | Faulted fault => eval sd (drop (Z.to_nat (pc s)) l) a x m = DivideByZero /\ fault = FaultDivide
  | Next _ => False
  end.
Proof.
  induction steps as [|steps IH]; intros s a x m Hr Hpc Hs; [lia|]. simpl.
  destruct (lookupZ_is_Some f (pc s) Hpc) as [i Hi]. rewrite Hi. unfold lookupZ in Hi.
  rewrite (proj2 (Z.leb_le _ _)) in Hi by lia. destruct (decoded_lookup _ _ Hi) as (d & Hd & Hdl & Hlen).
  rewrite (drop_S _ _ _ Hdl). set (rest := drop (S (Z.to_nat (pc s))) l).
  assert (Hrest : lengthZ f = pc s + 1 + Z.of_nat (length rest)).
  { unfold rest, lengthZ in *. rewrite length_drop. lia. }
  pose proof (po_insn _ Hok _ _ Hi) as Hv. replace (lengthZ f - Z.of_nat (Z.to_nat (pc s)) - 1) with (Z.of_nat (length rest)) in Hv by lia.
  rewrite Forall_lookup in Hsz. pose proof (Hsz _ _ Hi) as Hi_sized.
  pose proof (simulates_insn sd Hsd rest i Hi_sized d Hd s a x m Hr (lengthZ f) Hrest Hv) as Hsim.
  destruct (run_insn (packet_bytes sd) (lengthZ f) i s) as [s'|w|fault] eqn:Hrun; cbn [simulates] in Hsim; [|done|done].
  destruct Hsim as (n & a' & x' & m' & Hpc' & Hn & Hr' & ->).
  assert (Hlast : (0 < length rest)%nat).
  { destruct (decide (length rest = 0%nat)) as [H0|]; [|lia]. exfalso.
    pose proof (po_last _ Hok _ _ Hi ltac:(unfold lengthZ in *; lia)) as Hc.
    unfold run_insn in Hrun. by rewrite Hc in Hrun. }
  specialize (IH (set_pc (pc s' + 1) s') a' x' m' (vm_rel_pc _ _ _ _ _ Hr')). simpl in IH.
  assert (Hdrop : drop n rest = drop (Z.to_nat (pc s' + 1)) l).
  { unfold rest. rewrite drop_drop. f_equal. lia. }
  rewrite Hdrop. apply IH; lia.
Qed.

Lemma run_program_eval :
  match run_program f sd with
  | Returned w => eval sd l 0 0 (fun _ => 0) = Verdict w /\ in_u32 w
  | Faulted fault => eval sd l 0 0 (fun _ => 0) = DivideByZero /\ fault = FaultDivide
  | Next _ => False
  end.
Proof.
  pose proof (po_length _ Hok). unfold run_program.
  apply (run_loop_eval _ vm_start 0 0 (fun _ => 0) vm_rel_start); simpl; [lia|].
  unfold HL_LINUX_BPF_MAXINSNS in *. lia.
Qed.
End Loop.

(** Validated programs have a value, a 32-bit word. *)
Lemma validated_value f sd :
  hl_seccomp_validate f = true -> Forall insn_sized f -> data_sized sd ->
  exists l, decode_program f = Some l /\ program_action sd l = Some (hl_seccomp_run f sd) /\
    in_u32 (hl_seccomp_run f sd).
Proof.
  intros Hv Hsz Hsd. pose proof (validate_ok _ Hv) as Hok. destruct (ok_decodes _ Hok) as [l Hl].
  exists l. split; [done|]. pose proof (po_length _ Hok). unfold hl_seccomp_run, program_action.
  rewrite (proj2 (Z.eqb_neq _ _)), (proj2 (Z.ltb_ge _ _)) by lia. cbn [orb].
  pose proof (run_program_eval sd Hsd f Hok Hsz l Hl) as He. destruct (run_program f sd); [done| |].
  - destruct He as [-> ?]. done.
  - destruct He as [-> _]. split; [done|]. unfold in_u32. lia.
Qed.
