(* ===== verification/SeccompFilters.v ===== *)
(** * Seccomp filters: installing and enforcing

    [linux_abi/seccomp.c], with the thread registry of
    [thread/lifecycle.c] that TSYNC walks and the entry points
    [seccomp(2)] of [syscall/rare.c] and [prctl(2)] of
    [syscall/process/control.c].

    A task is a [struct cpu], named by its tid; nodes are immutable and never
    freed, so a node is its position in [nodes] and a chain is the number of
    its head.  What the code hands to the signal layer is recorded: [raised] for
    [raise_guest_signal_info], [died] for [guest_group_fatal], which exits.
    The operations are those of the interface [GuestMemory]; allocations
    answer as the call says. *)

From stdpp Require Import gmap.
From S2P Require Import Prelude GuestAccess SeccompVm.

Definition EACCES : Z := 13.
Definition ENOMEM : Z := 12.
Definition EINVAL : Z := 22.
Definition ESRCH : Z := 3.
Definition ENOSYS : Z := 38.
Definition EOPNOTSUPP : Z := 95.

Definition HL_LINUX_SECCOMP_SET_MODE_STRICT : Z := 0.
Definition HL_LINUX_SECCOMP_SET_MODE_FILTER : Z := 1.
Definition HL_LINUX_SECCOMP_FILTER_FLAG_TSYNC : Z := 0x01.
Definition HL_LINUX_SECCOMP_FILTER_FLAG_LOG : Z := 0x02.
Definition HL_LINUX_SECCOMP_FILTER_FLAG_SPEC_ALLOW : Z := 0x04.
Definition HL_LINUX_SECCOMP_FILTER_FLAG_NEW_LISTENER : Z := 0x08.
Definition HL_LINUX_SECCOMP_FILTER_FLAG_TSYNC_ESRCH : Z := 0x10.
Definition HL_LINUX_SECCOMP_FILTER_FLAGS_KNOWN : Z :=
  Z.lor HL_LINUX_SECCOMP_FILTER_FLAG_TSYNC
    (Z.lor HL_LINUX_SECCOMP_FILTER_FLAG_LOG
       (Z.lor HL_LINUX_SECCOMP_FILTER_FLAG_SPEC_ALLOW
          (Z.lor HL_LINUX_SECCOMP_FILTER_FLAG_NEW_LISTENER HL_LINUX_SECCOMP_FILTER_FLAG_TSYNC_ESRCH))).

Definition CAP_SYS_ADMIN : Z := 21.
Definition THREAD_REG_MAX : nat := 4096.

(** ** State *)

Record hl_linux_bpf_filter := mk_filter {
  insns : list hl_linux_sock_filter;   (** and [len], its length *)
  prev : option Z
}.

(** The fields of [struct cpu] the component reads or writes. *)
Record cpu := mk_cpu {
  seccomp_mode : Z;
  seccomp_filters : option Z;
  g_ret : Z;
  exited : bool;
  exit_code : Z
}.

(** The arguments of [raise_guest_signal_info]. *)
Record signal_info := mk_signal {
  si_tid : Z;
  si_signo : Z;
  si_error : Z;
  si_code : Z;
  si_value : Z;
  si_address : Z
}.

Record process (G : Type) := mk_process {
  guest : G;
  nodes : list hl_linux_bpf_filter;
  tasks : gmap Z cpu;
  g_threg : list (option Z);
  g_seccomp_active : bool;
  g_nnp : bool;
  g_cap_eff : Z;
  raised : list signal_info;
  died : option Z
}.
Arguments mk_process {G}.
Arguments guest {G}.
Arguments nodes {G}.
Arguments tasks {G}.
Arguments g_threg {G}.
Arguments g_seccomp_active {G}.
Arguments g_nnp {G}.
Arguments g_cap_eff {G}.
Arguments raised {G}.
Arguments died {G}.

(** The registers of a system call: the frontend's canonical number, and the
    raw number and arguments the guest issued. *)
Record syscall_regs := mk_regs {
  canonical_nr : Z;
  raw_nr : Z;
  ip : Z;
  call_args : list Z
}.

Definition set_mode (m : Z) (t : cpu) : cpu := mk_cpu m (seccomp_filters t) (g_ret t) (exited t) (exit_code t).
Definition attach (head : Z) (t : cpu) : cpu := mk_cpu 2 (Some head) (g_ret t) (exited t) (exit_code t).
Definition set_ret (v : Z) (t : cpu) : cpu :=
  mk_cpu (seccomp_mode t) (seccomp_filters t) (u64 v) (exited t) (exit_code t).
Definition exit_task (code : Z) (t : cpu) : cpu :=
  mk_cpu (seccomp_mode t) (seccomp_filters t) (g_ret t) true code.

Section Process.
Context {G : Type} `{GuestMemory G}.
Implicit Types (P : process G) (c : Z).

Definition set_guest (g : G) P : process G :=
  mk_process g (nodes P) (tasks P) (g_threg P) (g_seccomp_active P) (g_nnp P) (g_cap_eff P) (raised P) (died P).
Definition set_nodes (l : list hl_linux_bpf_filter) P : process G :=
  mk_process (guest P) l (tasks P) (g_threg P) (g_seccomp_active P) (g_nnp P) (g_cap_eff P) (raised P) (died P).
Definition set_tasks (t : gmap Z cpu) P : process G :=
  mk_process (guest P) (nodes P) t (g_threg P) (g_seccomp_active P) (g_nnp P) (g_cap_eff P) (raised P) (died P).
Definition set_threg (r : list (option Z)) P : process G :=
  mk_process (guest P) (nodes P) (tasks P) r (g_seccomp_active P) (g_nnp P) (g_cap_eff P) (raised P) (died P).
Definition activate P : process G :=
  mk_process (guest P) (nodes P) (tasks P) (g_threg P) true (g_nnp P) (g_cap_eff P) (raised P) (died P).
Definition set_nnp P : process G :=
  mk_process (guest P) (nodes P) (tasks P) (g_threg P) (g_seccomp_active P) true (g_cap_eff P) (raised P) (died P).
Definition set_caps (m : Z) P : process G :=
  mk_process (guest P) (nodes P) (tasks P) (g_threg P) (g_seccomp_active P) (g_nnp P) m (raised P) (died P).
Definition raise_guest_signal_info (s : signal_info) P : process G :=
  mk_process (guest P) (nodes P) (tasks P) (g_threg P) (g_seccomp_active P) (g_nnp P) (g_cap_eff P)
    (raised P ++ [s]) (died P).
Definition guest_group_fatal (signo : Z) P : process G :=
  mk_process (guest P) (nodes P) (tasks P) (g_threg P) (g_seccomp_active P) (g_nnp P) (g_cap_eff P) (raised P)
    (Some signo).
Definition update_task c (f : cpu -> cpu) P : process G := set_tasks (alter f c (tasks P)) P.

(** ** Evaluation *)

(** The loop over the chain; [None] is a dangling pointer. *)
Fixpoint evaluate_loop (fuel : nat) (l : list hl_linux_bpf_filter) (f : option Z) (sd : hl_linux_seccomp_data)
    (best best_prec : Z) : option Z :=
  match f with
  | None => Some best
  | Some i =>
      match fuel with
      | O => None
      | S fuel =>
          node ← lookupZ l i;
          let r := hl_seccomp_run (insns node) sd in
          let p := hl_seccomp_precedence r in
          if p <? best_prec then evaluate_loop fuel l (prev node) sd r p
          else evaluate_loop fuel l (prev node) sd best best_prec
      end
  end.

(** A chain holds each node once. *)
Definition hl_linux_seccomp_evaluate (l : list hl_linux_bpf_filter) (t : cpu) (sd : hl_linux_seccomp_data)
  : option Z :=
  evaluate_loop (length l) l (seccomp_filters t) sd HL_LINUX_SECCOMP_RET_ALLOW 7.

Definition hl_linux_seccomp_kill (signo : Z) P : process G := guest_group_fatal signo P.

Definition hl_linux_seccomp_kill_thread c (signo : Z) P : process G := update_task c (exit_task (128 + signo)) P.

(** [G_SECCOMP_ARCH] is the frontend's. *)
Definition seccomp_data_of (arch_word : Z) (r : syscall_regs) : hl_linux_seccomp_data :=
  mk_data (raw_nr r) arch_word (ip r) (take 6 (call_args r)).

(** The switch on the action. *)
Definition apply_action c (sd : hl_linux_seccomp_data) (action : Z) P : bool * process G :=
  let a := Z.land action HL_LINUX_SECCOMP_RET_ACTION_FULL in
  let data := Z.land action HL_LINUX_SECCOMP_RET_DATA in
  if a =? HL_LINUX_SECCOMP_RET_ALLOW then (false, P)
  else if a =? HL_LINUX_SECCOMP_RET_LOG then (false, P)
  else if a =? HL_LINUX_SECCOMP_RET_ERRNO then
    let e := if 4095 <? data then 4095 else data in (true, update_task c (set_ret (- e)) P)
  else if (a =? HL_LINUX_SECCOMP_RET_TRACE) || (a =? HL_LINUX_SECCOMP_RET_USER_NOTIF) then
    (true, update_task c (set_ret (- ENOSYS)) P)
  else if a =? HL_LINUX_SECCOMP_RET_TRAP then
    (true, raise_guest_signal_info
             (mk_signal c 31 data 1 (Z.lor (u32 (nr sd)) (Z.shiftl (arch sd) 32)) (instruction_pointer sd)) P)
  else if a =? HL_LINUX_SECCOMP_RET_KILL_THREAD then (true, hl_linux_seccomp_kill_thread c 31 P)
  else (true, hl_linux_seccomp_kill 31 P).

(** The result is whether the call was intercepted. *)
Definition hl_linux_seccomp_apply (arch_word : Z) c (r : syscall_regs) P : option (bool * process G) :=
  t ← tasks P !! c;
  if seccomp_mode t =? 1 then
    let nr := canonical_nr r in
    if (nr =? 63) || (nr =? 64) || (nr =? 93) || (nr =? 139) then Some (false, P)
    else Some (true, hl_linux_seccomp_kill 9 P)
  else if negb (seccomp_mode t =? 2) then Some (false, P)
  else
    let sd := seccomp_data_of arch_word r in
    action ← hl_linux_seccomp_evaluate (nodes P) t sd;
    Some (apply_action c sd action P).

Definition seccomp_gate (arch_word : Z) c (r : syscall_regs) P : option (bool * process G) :=
  if negb (g_seccomp_active P) then Some (false, P)
  else
    t ← tasks P !! c;
    if seccomp_mode t =? 0 then Some (false, P) else hl_linux_seccomp_apply arch_word c r P.

(** ** Installation *)

Definition seccomp_set_strict c P : option (Z * process G) :=
  t ← tasks P !! c;
  if seccomp_mode t =? 2 then Some (- EINVAL, P)
  else Some (0, activate (update_task c (set_mode 1) P)).

(** The first registered peer whose state is not the caller's. *)
Definition tsync_incompatible (caller : cpu) P (slot : option Z) : bool :=
  match slot with
  | None => false
  | Some peer =>
      match tasks P !! peer with
      | None => false
      | Some t =>
          negb (seccomp_mode t =? seccomp_mode caller) ||
          negb (bool_decide (seccomp_filters t = seccomp_filters caller))
      end
  end.

Definition attach_registered (node : Z) (slots : list (option Z)) (ts : gmap Z cpu) : gmap Z cpu :=
  foldr (fun slot ts => match slot with Some peer => alter (attach node) peer ts | None => ts end) ts slots.

Definition seccomp_tsync_attach c (node : Z) P : option (Z * process G) :=
  caller ← tasks P !! c;
  match find (tsync_incompatible caller P) (g_threg P) with
  | Some (Some peer) => Some (peer, P)
  | _ => Some (0, set_tasks (attach_registered node (g_threg P) (tasks P)) P)
  end.

(** [struct sock_filter]: u16 code, u8 jt, u8 jf, u32 k. *)
Fixpoint parse_filters (n : nat) (l : list Z) : list hl_linux_sock_filter :=
  match n with
  | O => []
  | S n =>
      mk_insn (le_value (take 2 l)) (le_value (take 1 (drop 2 l))) (le_value (take 1 (drop 3 l)))
        (le_value (take 4 (drop 4 l))) :: parse_filters n (drop 8 l)
  end.

Definition authorised P : bool := g_nnp P || has_flag (g_cap_eff P) (Z.shiftl 1 CAP_SYS_ADMIN).

(** The node is linked once nothing can refuse it any more. *)
Definition link_filter c (flags : Z) (program : list hl_linux_sock_filter) P : option (Z * process G) :=
  t ← tasks P !! c;
  let id := lengthZ (nodes P) in
  let P1 := set_nodes (nodes P ++ [mk_filter program (seccomp_filters t)]) P in
  if has_flag flags HL_LINUX_SECCOMP_FILTER_FLAG_TSYNC then
    '(status, P2) ← seccomp_tsync_attach c id P1;
    if negb (status =? 0)
    then Some (if has_flag flags HL_LINUX_SECCOMP_FILTER_FLAG_TSYNC_ESRCH then - ESRCH else status, P)
    else Some (0, activate P2)
  else Some (0, activate (update_task c (attach id) P1)).

Definition seccomp_install_filter (malloc_node malloc_insns : bool) c (fprog_ptr flags : Z) P
  : option (Z * process G) :=
  if negb (Z.land flags (Z.lxor UINT32_MAX HL_LINUX_SECCOMP_FILTER_FLAGS_KNOWN) =? 0) then Some (- EINVAL, P)
  else if has_flag flags HL_LINUX_SECCOMP_FILTER_FLAG_NEW_LISTENER && has_flag flags HL_LINUX_SECCOMP_FILTER_FLAG_TSYNC
  then Some (- EINVAL, P)
  else
    '(copied, len_bytes, g) ← guest_copy_from (guest P) fprog_ptr 2;
    if negb (copied =? 2) then Some (- EFAULT, set_guest g P)
    else
      '(copied, ptr_bytes, g) ← guest_copy_from g (u64 (fprog_ptr + 8)) 8;
      if negb (copied =? 8) then Some (- EFAULT, set_guest g P)
      else
        let len := le_value len_bytes in
        let insn_ptr := nonpie_fold g (le_value ptr_bytes) in
        if (len =? 0) || (HL_LINUX_BPF_MAXINSNS <? len) then Some (- EINVAL, set_guest g P)
        else if insn_ptr =? 0 then Some (- EFAULT, set_guest g P)
        else
          let bytes := 8 * len in
          if negb malloc_node || negb malloc_insns then Some (- ENOMEM, set_guest g P)
          else
            '(copied, text, g) ← guest_copy_from g insn_ptr bytes;
            let P := set_guest g P in
            let program := parse_filters (Z.to_nat len) text in
            if negb (copied =? bytes) then Some (- EFAULT, P)
            else if negb (hl_seccomp_validate program) then Some (- EINVAL, P)
            else if negb (authorised P) then Some (- EACCES, P)
            else if has_flag flags HL_LINUX_SECCOMP_FILTER_FLAG_NEW_LISTENER then Some (- EINVAL, P)
            else link_filter c flags program P.

Definition seccomp_get_action_avail (flags act_ptr : Z) P : option (Z * process G) :=
  if negb (flags =? 0) then Some (- EINVAL, P)
  else
    '(copied, bytes, g) ← guest_copy_from (guest P) act_ptr 4;
    let P := set_guest g P in
    if negb (copied =? 4) then Some (- EFAULT, P)
    else if one_of (le_value bytes)
              [HL_LINUX_SECCOMP_RET_KILL_PROCESS; HL_LINUX_SECCOMP_RET_KILL_THREAD; HL_LINUX_SECCOMP_RET_TRAP;
               HL_LINUX_SECCOMP_RET_ERRNO; HL_LINUX_SECCOMP_RET_USER_NOTIF; HL_LINUX_SECCOMP_RET_TRACE;
               HL_LINUX_SECCOMP_RET_LOG; HL_LINUX_SECCOMP_RET_ALLOW]
         then Some (0, P) else Some (- EOPNOTSUPP, P).

Definition seccomp_get_notif_sizes (flags sz_ptr : Z) P : option (Z * process G) :=
  if negb (flags =? 0) then Some (- EINVAL, P)
  else
    '(copied, g) ← guest_copy_to (guest P) sz_ptr [80; 0; 24; 0; sizeof_seccomp_data; 0];
    Some (if negb (copied =? 6) then - EFAULT else 0, set_guest g P).

(** ** The system calls *)

(** [seccomp(op, flags, args)]. *)
Definition sys_seccomp (malloc_node malloc_insns : bool) c (a0 a1 a2 : Z) P : option (Z * process G) :=
  let op := u32 a0 in
  if op =? HL_LINUX_SECCOMP_SET_MODE_FILTER then seccomp_install_filter malloc_node malloc_insns c a2 (u32 a1) P
  else if op =? HL_LINUX_SECCOMP_SET_MODE_STRICT then
    if negb (a1 =? 0) || negb (a2 =? 0) then Some (- EINVAL, P) else seccomp_set_strict c P
  else if op =? 2 then seccomp_get_action_avail a1 a2 P
  else if op =? 3 then seccomp_get_notif_sizes a1 a2 P
  else Some (- EINVAL, P).

(** The options of [prctl(2)] on this state, and no other; [disabled] answers
    for the option [HL_SECCOMP_BASELINE]. *)
Definition prctl_no_new_privs (option_ a1 : Z) (zeroes : bool) P : Z * process G :=
  if option_ =? 38 then
    if negb ((a1 =? 1) && zeroes) then (- EINVAL, P) else (0, set_nnp P)
  else if negb ((a1 =? 0) && zeroes) then (- EINVAL, P) else (if g_nnp P then 1 else 0, P).

Definition prctl_seccomp (disabled malloc_node malloc_insns : bool) c (option_ a1 a2 : Z) P : option (Z * process G) :=
  if option_ =? 21 then
    t ← tasks P !! c;
    Some (if negb (seccomp_mode t =? 0) then seccomp_mode t else if disabled then 0 else 2, P)
  else if a1 =? 1 then seccomp_set_strict c P
  else if a1 =? 2 then seccomp_install_filter malloc_node malloc_insns c a2 0 P
  else Some (- EINVAL, P).

Definition sys_prctl (disabled malloc_node malloc_insns : bool) c (a0 a1 a2 a3 a4 : Z) P : option (Z * process G) :=
  let option_ := u32 a0 in
  if (option_ =? 38) || (option_ =? 39)
  then Some (prctl_no_new_privs option_ a1 ((a2 =? 0) && (a3 =? 0) && (a4 =? 0)) P)
  else if (option_ =? 21) || (option_ =? 22) then prctl_seccomp disabled malloc_node malloc_insns c option_ a1 a2 P
  else None.

(** ** Threads *)

Fixpoint register_slot c (slots : list (option Z)) : list (option Z) :=
  match slots with
  | [] => []
  | None :: slots => Some c :: slots
  | slot :: slots => slot :: register_slot c slots
  end.

Definition thread_register c P : process G := set_threg (register_slot c (g_threg P)) P.

Fixpoint unregister_slot c (slots : list (option Z)) : list (option Z) :=
  match slots with
  | [] => []
  | slot :: slots =>
      if bool_decide (slot = Some c) then None :: slots else slot :: unregister_slot c slots
  end.

Definition thread_unregister c P : process G := set_threg (unregister_slot c (g_threg P)) P.

(** The child starts from a copy of its parent's state; it registers later,
    when its own thread first runs. *)
Definition spawn_thread (parent child : Z) P : option (process G) :=
  t ← tasks P !! parent;
  Some (set_tasks (<[child := mk_cpu (seccomp_mode t) (seccomp_filters t) 0 false (exit_code t)]> (tasks P)) P).
End Process.
