(* ===== verification/SeccompInvariant.v ===== *)
(** * Seccomp filters: the life of a process

    System calls behind the gate, threads that start and end, and credentials
    that change, as steps of a process; and the invariant they keep. *)

From stdpp Require Import gmap.
From S2P Require Import Prelude GuestAccess SeccompVm SeccompProofs SeccompFilters.

(** ** Steps *)

(** What the environment decides during a call. *)
Record call_answers := mk_call_answers {
  arch_word : Z;
  malloc_node : bool;
  malloc_insns : bool;
  baseline_disabled : bool
}.

Inductive seccomp_event :=
| SystemCall (c : Z) (r : syscall_regs) (A : call_answers)
| Spawn (parent child : Z)
| Register (c : Z)
| Unregister (c : Z)
| Capset (c m : Z).

Definition call_arg (r : syscall_regs) (i : Z) : Z := default 0 (lookupZ (call_args r) i).

Section Steps.
Context {G : Type} `{GuestMemory G}.
Implicit Types (P : process G) (c : Z).

(** The handlers of this component; every other call leaves the state alone. *)
Definition serve (A : call_answers) c (r : syscall_regs) P : option (process G) :=
  let a := call_arg r in
  let finish (answer : option (Z * process G)) := '(v, P) ← answer; Some (update_task c (set_ret v) P) in
  if canonical_nr r =? 277 then
    finish (sys_seccomp (malloc_node A) (malloc_insns A) c (a 0) (a 1) (a 2) P)
  else if (canonical_nr r =? 167) && one_of (u32 (a 0)) [21; 22; 38; 39] then
    finish (sys_prctl (baseline_disabled A) (malloc_node A) (malloc_insns A) c (a 0) (a 1) (a 2) (a 3) (a 4) P)
  else Some P.

Definition system_call (A : call_answers) c (r : syscall_regs) P : option (process G) :=
  '(intercepted, P) ← seccomp_gate (arch_word A) c r P;
  if intercepted : bool then Some P else serve A c r P.

(** A task that can issue a call. *)
Definition running P c : Prop := exists t, tasks P !! c = Some t /\ exited t = false.

Definition run_event (e : seccomp_event) P : option (process G) :=
  match e with
  | SystemCall c r A => system_call A c r P
  | Spawn parent child => spawn_thread parent child P
  | Register c => Some (thread_register c P)
  | Unregister c => Some (thread_unregister c P)
  | Capset _ m => Some (set_caps m P)
  end.

(** Registers of their widths. *)
Definition regs_sized (r : syscall_regs) : Prop :=
  - 2 ^ 31 <= raw_nr r < 2 ^ 31 /\ 0 <= ip r < 2 ^ 64 /\ length (call_args r) = 6%nat /\
  Forall (fun a => 0 <= a < 2 ^ 64) (call_args r).

Definition event_sane (e : seccomp_event) P : Prop :=
  match e with
  | SystemCall c r A => running P c /\ regs_sized r /\ 0 <= arch_word A < 2 ^ 32
  | Spawn parent child => running P parent /\ 0 < child /\ tasks P !! child = None
  | Register c => is_Some (tasks P !! c)
  | Unregister c => is_Some (tasks P !! c)
  | Capset c _ => running P c
  end.

(** A process ends with a fatal signal. *)
Inductive seccomp_steps : process G -> process G -> Prop :=
| steps_refl P : seccomp_steps P P
| steps_more P P1 P2 e :
    seccomp_steps P P1 -> died P1 = None -> event_sane e P1 -> run_event e P1 = Some P2 -> seccomp_steps P P2.

(** A process with its first thread. *)
Definition process_start (g : G) (c : Z) (nnp : bool) (caps : Z) : process G :=
  mk_process g [] {[ c := mk_cpu 0 None 0 false 0 ]} (register_slot c (replicate THREAD_REG_MAX None)) false nnp caps
    [] None.

(** ** Chains *)

(** The programs a task runs, newest first. *)
Fixpoint chain (fuel : nat) (l : list hl_linux_bpf_filter) (f : option Z) : list (list hl_linux_sock_filter) :=
  match f, fuel with
  | Some i, S fuel =>
      match lookupZ l i with
      | Some node => insns node :: chain fuel l (prev node)
      | None => []
      end
  | _, _ => []
  end.

Definition programs P c : list (list hl_linux_sock_filter) :=
  match tasks P !! c with
  | Some t => chain (length (nodes P)) (nodes P) (seccomp_filters t)
  | None => []
  end.

(** Pointers go down: to nodes below [n]. *)
Definition head_below (n : Z) (f : option Z) : Prop := match f with Some i => 0 <= i < n | None => True end.

Definition program_sane (f : list hl_linux_sock_filter) : Prop :=
  hl_seccomp_validate f = true /\ Forall insn_sized f.

Definition nodes_ok (l : list hl_linux_bpf_filter) : Prop :=
  forall i node, lookupZ l i = Some node -> head_below i (prev node) /\ program_sane (insns node).

Record proc_ok `{!GuestMemoryOk G} P : Prop := mk_proc_ok {
  pk_guest : guest_ok (guest P);
  pk_nodes : nodes_ok (nodes P);
  pk_tid : forall c t, tasks P !! c = Some t -> 0 < c;
  pk_task : forall c t, tasks P !! c = Some t ->
    head_below (lengthZ (nodes P)) (seccomp_filters t) /\ In (seccomp_mode t) [0; 1; 2] /\
    (seccomp_filters t = None <-> seccomp_mode t <> 2) /\
    (g_seccomp_active P = false -> seccomp_mode t = 0)
}.
End Steps.

(** ** Lemmas on chains *)

Lemma chain_None fuel l : chain fuel l None = [].
Proof. by destruct fuel. Qed.

Lemma chain_fuel l : nodes_ok l -> forall fuel fuel' f i,
  head_below i f -> i <= lengthZ l -> i <= Z.of_nat fuel -> i <= Z.of_nat fuel' -> chain fuel l f = chain fuel' l f.
Proof.
  intros Hl. induction fuel as [|fuel IH]; intros fuel' f i Hf Hi H1 H2; destruct f as [j|]; simpl in Hf; try by rewrite !chain_None.
  - lia.
  - destruct fuel' as [|fuel']; [lia|]. simpl. destruct (lookupZ l j) as [node|] eqn:Hj; [|done].
    f_equal. apply (IH _ _ j); try lia. by apply Hl.
Qed.

Lemma chain_grow l node : nodes_ok (l ++ [node]) -> forall fuel f,
  head_below (lengthZ l) f -> chain fuel (l ++ [node]) f = chain fuel l f.
Proof.
  intros Hl. induction fuel as [|fuel IH]; intros [j|] Hf; try done. simpl in Hf. simpl.
  rewrite lookupZ_app_l by lia. destruct (lookupZ l j) as [n|] eqn:Hj; [|done]. f_equal. apply IH.
  assert (Hn : lookupZ (l ++ [node]) j = Some n) by (rewrite lookupZ_app_l; [done|lia]).
  pose proof (proj1 (Hl _ _ Hn)) as Hp. destruct (prev n); simpl in *; lia.
Qed.

Lemma nodes_ok_app l node :
  nodes_ok l -> head_below (lengthZ l) (prev node) -> program_sane (insns node) -> nodes_ok (l ++ [node]).
Proof.
  intros Hl Hp Hs i n Hi. pose proof (lookupZ_Some_range _ _ _ Hi) as Hr. rewrite lengthZ_app in Hr.
  change (lengthZ [node]) with 1 in Hr. destruct (decide (i = lengthZ l)) as [->|Hne].
  - rewrite lookupZ_middle in Hi. by injection Hi as <-.
  - rewrite lookupZ_app_l in Hi by lia. by apply Hl.
Qed.

(** The chain of a fresh head is its program on the chain it was linked to. *)
Lemma chain_fresh l program f :
  nodes_ok (l ++ [mk_filter program f]) -> head_below (lengthZ l) f ->
  chain (length (l ++ [mk_filter program f])) (l ++ [mk_filter program f]) (Some (lengthZ l)) =
  program :: chain (length l) l f.
Proof.
  intros Hok Hf. rewrite length_app, Nat.add_comm. cbn [length Nat.add chain]. rewrite lookupZ_middle. cbn [insns prev].
  by rewrite chain_grow.
Qed.

Lemma programs_grow l node f :
  nodes_ok (l ++ [node]) -> head_below (lengthZ l) f ->
  chain (length (l ++ [node])) (l ++ [node]) f = chain (length l) l f.
Proof.
  intros Hok Hf. rewrite <- (chain_grow l node Hok) by done. apply (chain_fuel _ Hok _ _ _ (lengthZ l)); try done.
  - rewrite lengthZ_app. change (lengthZ [node]) with 1. lia.
  - unfold lengthZ. rewrite length_app. lia.
Qed.

Lemma chain_sane l fuel f : nodes_ok l -> Forall program_sane (chain fuel l f).
Proof.
  intros Hl. revert f. induction fuel as [|fuel IH]; intros [j|]; try constructor. simpl.
  destruct (lookupZ l j) as [n|] eqn:Hj; constructor; [|apply IH]. by apply (Hl j).
Qed.

(** ** Seccomp filters: the invariant is kept

    Every operation answers, keeps the process well formed, and lets every task
    keep its mode and its programs: a task only ever gains programs. *)

(** ** The most restrictive answer *)

Lemma evaluate_loop_spec l sd fuel : forall f i best p,
  nodes_ok l -> head_below i f -> i <= lengthZ l -> i <= Z.of_nat fuel -> p = hl_seccomp_precedence best ->
  exists r, evaluate_loop fuel l f sd best p = Some r /\
    (r = best \/ exists q, In q (chain fuel l f) /\ r = hl_seccomp_run q sd) /\
    hl_seccomp_precedence r <= p /\
    forall q, In q (chain fuel l f) -> hl_seccomp_precedence r <= hl_seccomp_precedence (hl_seccomp_run q sd).
Proof.
  induction fuel as [|fuel IH]; intros [j|] i best p Hl Hf Hil Hi Hp; simpl in Hf; try lia;
    try (exists best; split_and!; [done|by left|lia|done]).
  simpl. destruct (lookupZ_is_Some l j ltac:(lia)) as [node Hj]. rewrite Hj. cbn [mbind option_bind].
  set (r := hl_seccomp_run (insns node) sd). destruct (Hl _ _ Hj) as [Hprev _].
  destruct (Z.ltb_spec (hl_seccomp_precedence r) p) as [Hlt|Hge].
  - destruct (IH (prev node) j r _ Hl Hprev ltac:(lia) ltac:(lia) eq_refl) as (w & -> & Hw & Hle & Hall).
    exists w. split; [done|]. split_and!.
    + right. destruct Hw as [->|(q & Hq & ->)]; [exists (insns node); auto using in_eq|exists q; auto using in_cons].
    + lia.
    + intros q [<-|Hq]; [done|by apply Hall].
  - destruct (IH (prev node) j best _ Hl Hprev ltac:(lia) ltac:(lia) Hp) as (w & -> & Hw & Hle & Hall).
    exists w. split; [done|]. split_and!.
    + destruct Hw as [->|(q & Hq & ->)]; [by left|right; exists q; auto using in_cons].
    + lia.
    + intros q [<-|Hq]; [fold r; lia|by apply Hall].
Qed.

Section Invariant.
Context {G : Type} `{HG : GuestMemoryOk G}.
Implicit Types (P : process G) (c : Z).

Lemma evaluate_spec P c t sd :
  proc_ok P -> tasks P !! c = Some t ->
  exists r, hl_linux_seccomp_evaluate (nodes P) t sd = Some r /\
    (r = HL_LINUX_SECCOMP_RET_ALLOW \/ exists q, In q (programs P c) /\ r = hl_seccomp_run q sd) /\
    forall q, In q (programs P c) -> hl_seccomp_precedence r <= hl_seccomp_precedence (hl_seccomp_run q sd).
Proof.
  intros Hok Ht. destruct (pk_task _ Hok _ _ Ht) as (Hhead & _). unfold programs. rewrite Ht.
  destruct (evaluate_loop_spec (nodes P) sd (length (nodes P)) _ _ HL_LINUX_SECCOMP_RET_ALLOW 7 (pk_nodes _ Hok) Hhead)
    as (r & Hr & Hcase & _ & Hall); [done|done|done|]. by exists r.
Qed.

(** ** Keeping tasks *)

Definition keeps P P' : Prop :=
  forall c t, tasks P !! c = Some t ->
    exists t', tasks P' !! c = Some t' /\ (seccomp_mode t <> 0 -> seccomp_mode t' = seccomp_mode t) /\
      exists new, programs P' c = new ++ programs P c.

Lemma keeps_refl P : keeps P P.
Proof. intros c t Ht. exists t. split_and!; [done|done|]. by exists []. Qed.

Lemma keeps_trans P1 P2 P3 : keeps P1 P2 -> keeps P2 P3 -> keeps P1 P3.
Proof.
  intros H1 H2 c t Ht. destruct (H1 _ _ Ht) as (t1 & Ht1 & Hm1 & n1 & Hp1).
  destruct (H2 _ _ Ht1) as (t2 & Ht2 & Hm2 & n2 & Hp2). exists t2. split_and!; [done| |].
  - intros Hm. rewrite Hm2; [by apply Hm1|]. by rewrite Hm1.
  - exists (n2 ++ n1). by rewrite Hp2, Hp1, app_assoc.
Qed.

(** The answer of an operation on a well-formed process. *)
Definition answers {A} P (o : option (A * process G)) : Prop :=
  exists v P', o = Some (v, P') /\ proc_ok P' /\ keeps P P'.

Lemma answers_same {A} P (v : A) : proc_ok P -> answers P (Some (v, P)).
Proof. intros Hok. exists v, P. split_and!; [done|done|apply keeps_refl]. Qed.

(** *** Changes that leave the filters alone *)

Definition same_filters P P' : Prop :=
  nodes P' = nodes P /\ g_seccomp_active P' = g_seccomp_active P /\
  forall c, (seccomp_mode <$> tasks P' !! c) = (seccomp_mode <$> tasks P !! c) /\
    (seccomp_filters <$> tasks P' !! c) = (seccomp_filters <$> tasks P !! c).

Lemma same_filters_ok P P' : same_filters P P' -> guest_ok (guest P') -> proc_ok P -> proc_ok P' /\ keeps P P'.
Proof.
  intros (Hn & Ha & Ht) Hg [Hg0 Hn0 Hi0 Hk]. split.
  - constructor; [done|by rewrite Hn| |].
    { intros c t' Ht'. destruct (Ht c) as [Hm _]. rewrite Ht' in Hm. destruct (tasks P !! c) as [t|] eqn:Htc; [|done].
      by eapply Hi0. }
    intros c t' Ht'. destruct (Ht c) as [Hm Hf]. rewrite Ht' in Hm, Hf.
    destruct (tasks P !! c) as [t|] eqn:Htc; [|done]. simpl in Hm, Hf. injection Hm as ->. injection Hf as ->.
    rewrite Hn, Ha. by eapply Hk.
  - intros c t Htc. destruct (Ht c) as [Hm Hf]. rewrite Htc in Hm, Hf. destruct (tasks P' !! c) as [t'|] eqn:Htc'; [|done].
    simpl in Hm, Hf. injection Hm as Hm. injection Hf as Hf. exists t'. split_and!; [done|done|]. exists []. simpl.
    unfold programs. by rewrite Htc, Htc', Hn, Hf.
Qed.

Lemma same_filters_refl P P' :
  nodes P' = nodes P -> tasks P' = tasks P -> g_seccomp_active P' = g_seccomp_active P -> same_filters P P'.
Proof. intros Hn Ht Ha. split_and!; [done|done|]. intros c. by rewrite Ht. Qed.

Lemma same_filters_task P c f :
  (forall t, seccomp_mode (f t) = seccomp_mode t /\ seccomp_filters (f t) = seccomp_filters t) ->
  same_filters P (update_task c f P).
Proof.
  intros Hf. split_and!; [done|done|]. intros c'. unfold update_task. simpl. rewrite lookup_alter.
  destruct (decide (c = c')) as [->|]; [|done]. destruct (tasks P !! c') as [t|]; [|done]. simpl.
  destruct (Hf t) as [-> ->]. done.
Qed.

Lemma guest_answers {A} P (v : A) g : proc_ok P -> guest_ok g -> answers P (Some (v, set_guest g P)).
Proof.
  intros Hok Hg. exists v, (set_guest g P). split; [done|]. apply same_filters_ok; [|done|done].
  by apply same_filters_refl.
Qed.

Lemma quiet_answers {A} P (v : A) P' :
  proc_ok P -> same_filters P P' -> guest P' = guest P -> answers P (Some (v, P')).
Proof.
  intros Hok Hs Hg. exists v, P'. split; [done|]. apply same_filters_ok; [done| |done]. rewrite Hg. apply (pk_guest _ Hok).
Qed.

(** ** The gate *)

Lemma apply_action_answers P c sd action : proc_ok P -> answers P (Some (apply_action c sd action P)).
Proof.
  intros Hok. unfold apply_action.
  repeat match goal with
  | |- answers _ (Some (if ?b then _ else _)) => destruct b
  end; try (by apply answers_same); apply quiet_answers; try done;
    try (by apply same_filters_refl); by apply same_filters_task.
Qed.

Lemma apply_answers a c r P : proc_ok P -> is_Some (tasks P !! c) -> answers P (hl_linux_seccomp_apply a c r P).
Proof.
  intros Hok [t Ht]. unfold hl_linux_seccomp_apply. rewrite Ht. cbn [mbind option_bind].
  destruct (seccomp_mode t =? 1).
  { destruct (_ || _); [by apply answers_same|]. apply quiet_answers; [done|by apply same_filters_refl|done]. }
  destruct (negb _); [by apply answers_same|].
  destruct (evaluate_spec P c t (seccomp_data_of a r) Hok Ht) as (action & -> & _). by apply apply_action_answers.
Qed.

Lemma gate_answers a c r P : proc_ok P -> is_Some (tasks P !! c) -> answers P (seccomp_gate a c r P).
Proof.
  intros Hok [t Ht]. unfold seccomp_gate. destruct (negb _); [by apply answers_same|]. rewrite Ht. cbn [mbind option_bind].
  destruct (_ =? 0); [by apply answers_same|]. by apply apply_answers.
Qed.

(** What passes the gate is not issued by a strict task, unless it is one of
    the four calls. *)
Lemma gate_passes a c r P P' t :
  tasks P !! c = Some t -> seccomp_gate a c r P = Some (false, P') -> proc_ok P ->
  P' = P /\ (seccomp_mode t = 1 -> In (canonical_nr r) [63; 64; 93; 139]).
Proof.
  intros Ht Hg Hok. unfold seccomp_gate in Hg. destruct (pk_task _ Hok _ _ Ht) as (_ & _ & _ & Hact).
  destruct (g_seccomp_active P); simpl in Hg.
  2: { injection Hg as <-. split; [done|]. intros Hm. rewrite Hact in Hm; done. }
  rewrite Ht in Hg. cbn [mbind option_bind] in Hg. destruct (Z.eqb_spec (seccomp_mode t) 0) as [Hz|Hz].
  { injection Hg as <-. split; [done|]. lia. }
  unfold hl_linux_seccomp_apply in Hg. rewrite Ht in Hg. cbn [mbind option_bind] in Hg.
  destruct (Z.eqb_spec (seccomp_mode t) 1) as [Ho|Ho].
  { destruct (_ || _) eqn:Hnr; [|done]. injection Hg as <-. split; [done|]. intros _. simpl.
    repeat (apply orb_true_iff in Hnr as [Hnr|Hnr]); bool_props; auto. }
  destruct (negb _); [injection Hg as <-; done|].
  destruct (hl_linux_seccomp_evaluate _ _ _) as [action|]; [|done]. cbn [mbind option_bind] in Hg. unfold apply_action in Hg.
  injection Hg as Hg. repeat match type of Hg with (if ?b then _ else _) = _ => destruct b end; try done;
    injection Hg as <-; split; done.
Qed.

(** ** Linking *)

(** [P'] is [P] with a program linked to the tasks that hold [f]. *)
Definition linked (f : option Z) (program : list hl_linux_sock_filter) P P' : Prop :=
  guest P' = guest P /\ nodes P' = nodes P ++ [mk_filter program f] /\ g_seccomp_active P' = true /\
  forall c, tasks P' !! c = tasks P !! c \/
    exists t, tasks P !! c = Some t /\ seccomp_filters t = f /\ seccomp_mode t <> 1 /\
      tasks P' !! c = Some (attach (lengthZ (nodes P)) t).

Lemma linked_nodes f program P P' :
  linked f program P P' -> proc_ok P -> program_sane program -> head_below (lengthZ (nodes P)) f ->
  nodes_ok (nodes P ++ [mk_filter program f]).
Proof. intros _ Hok Hp Hf. apply nodes_ok_app; [apply (pk_nodes _ Hok)|done|done]. Qed.

Lemma linked_programs f program P P' c t :
  linked f program P P' -> proc_ok P -> program_sane program -> head_below (lengthZ (nodes P)) f ->
  tasks P !! c = Some t ->
  (tasks P' !! c = Some t -> programs P' c = programs P c) /\
  (seccomp_filters t = f -> tasks P' !! c = Some (attach (lengthZ (nodes P)) t) -> programs P' c = program :: programs P c).
Proof.
  intros Hl Hok Hp Hf Ht. pose proof (linked_nodes _ _ _ _ Hl Hok Hp Hf) as Hn. destruct Hl as (_ & Hnodes & _ & _).
  destruct (pk_task _ Hok _ _ Ht) as (Hhead & _). unfold programs. rewrite Ht, Hnodes. split.
  - intros ->. by apply programs_grow.
  - intros <- ->. unfold attach. cbn [seccomp_filters]. by apply chain_fresh.
Qed.

Lemma linked_ok f program P P' :
  linked f program P P' -> proc_ok P -> program_sane program -> head_below (lengthZ (nodes P)) f ->
  proc_ok P' /\ keeps P P'.
Proof.
  intros Hl Hok Hp Hf. pose proof (linked_nodes _ _ _ _ Hl Hok Hp Hf) as Hn.
  pose proof Hl as (Hg & Hnodes & Hact & Htasks).
  assert (Hlen : lengthZ (nodes P') = lengthZ (nodes P) + 1) by (rewrite Hnodes, lengthZ_app; done). split.
  - constructor; [rewrite Hg; apply (pk_guest _ Hok)|by rewrite Hnodes| |].
    { intros c t' Ht'. destruct (Htasks c) as [Heq|(t & Ht & _)]; [rewrite Ht' in Heq; symmetry in Heq|];
        by eapply (pk_tid _ Hok). }
    intros c t' Ht'. rewrite Hlen, Hact. destruct (Htasks c) as [Heq|(t & Ht & _ & _ & Hc)].
    + rewrite Ht' in Heq. symmetry in Heq. destruct (pk_task _ Hok _ _ Heq) as (Hhead & Hm & Hi & _).
      split; [|done]. destruct (seccomp_filters t'); simpl in *; lia.
    + rewrite Ht' in Hc. injection Hc as ->. pose proof (lengthZ_nonneg (nodes P)).
      simpl. split_and!; try done; try lia; auto.
  - intros c t Ht. destruct (linked_programs _ _ _ _ _ _ Hl Hok Hp Hf Ht) as [Hsame Hnew].
    destruct (Htasks c) as [Heq|(t0 & Ht0 & Hf0 & Hm & Hc)].
    + exists t. split_and!; [congruence|done|]. exists []. apply Hsame. congruence.
    + assert (t0 = t) as -> by congruence. exists (attach (lengthZ (nodes P)) t). split_and!; [done| |].
      * destruct (pk_task _ Hok _ _ Ht) as (_ & Hin & _). simpl in *. lia.
      * exists [program]. by apply Hnew.
Qed.

Lemma attach_registered_lookup id slots ts c :
  attach_registered id slots ts !! c = if decide (Some c ∈ slots) then attach id <$> ts !! c else ts !! c.
Proof.
  induction slots as [|slot slots IH]; simpl; [done|]. destruct slot as [peer|].
  - rewrite lookup_alter, IH. destruct (decide (peer = c)) as [->|Hne].
    + rewrite (decide_True (P := Some c ∈ Some c :: slots)) by by left. rewrite IH.
      destruct (decide _); [|done]. by destruct (ts !! c).
    + destruct (decide (Some c ∈ slots)); [rewrite decide_True by by right|rewrite decide_False]; try done.
      intros [[= ->]|]%elem_of_cons; done.
  - rewrite IH. destruct (decide (Some c ∈ slots)); [rewrite decide_True by by right|rewrite decide_False]; try done.
    intros [|]%elem_of_cons; done.
Qed.

(** TSYNC attaches to every registered task, or to none: then it answers one
    whose mode or filters are not the caller's. *)
Lemma tsync_spec c id t P :
  tasks P !! c = Some t ->
  (forall peer u, Some peer ∈ g_threg P -> tasks P !! peer = Some u ->
     seccomp_mode u = seccomp_mode t /\ seccomp_filters u = seccomp_filters t) /\
  seccomp_tsync_attach c id P = Some (0, set_tasks (attach_registered id (g_threg P) (tasks P)) P) \/
  exists peer u, Some peer ∈ g_threg P /\ tasks P !! peer = Some u /\
    (seccomp_mode u <> seccomp_mode t \/ seccomp_filters u <> seccomp_filters t) /\
    seccomp_tsync_attach c id P = Some (peer, P).
Proof.
  intros Ht. unfold seccomp_tsync_attach. rewrite Ht. cbn [mbind option_bind].
  destruct (find _ _) as [[peer|]|] eqn:Hfind.
  - right. apply find_some in Hfind as [Hin%list_elem_of_In Hbad]. simpl in Hbad. destruct (tasks P !! peer) as [u|] eqn:Hu; [|done].
    exists peer, u. split_and!; try done. apply orb_true_iff in Hbad as [Hb|Hb]; apply negb_true_iff in Hb.
    + left. by apply Z.eqb_neq.
    + right. by apply bool_decide_eq_false in Hb.
  - apply find_some in Hfind as [_ Hbad]. done.
  - left. split; [|done]. intros peer u Hin Hu. pose proof (find_none _ _ Hfind _ (proj1 (list_elem_of_In _ _) Hin)) as Hgood. simpl in Hgood.
    rewrite Hu in Hgood. apply orb_false_iff in Hgood as [Hm Hf]. apply negb_false_iff in Hm, Hf.
    apply Z.eqb_eq in Hm. by apply bool_decide_eq_true in Hf.
Qed.

Lemma link_answers c flags program t P :
  proc_ok P -> tasks P !! c = Some t -> seccomp_mode t <> 1 -> program_sane program ->
  (link_filter c flags program P = None -> False) /\
  forall v P', link_filter c flags program P = Some (v, P') ->
    v <> 0 /\ P' = P /\ has_flag flags HL_LINUX_SECCOMP_FILTER_FLAG_TSYNC = true \/
    v = 0 /\ linked (seccomp_filters t) program P P' /\
    (if has_flag flags HL_LINUX_SECCOMP_FILTER_FLAG_TSYNC
     then forall peer u, Some peer ∈ g_threg P -> tasks P !! peer = Some u ->
            seccomp_filters u = seccomp_filters t /\ tasks P' !! peer = Some (attach (lengthZ (nodes P)) u)
     else tasks P' !! c = Some (attach (lengthZ (nodes P)) t)).
Proof.
  intros Hok Ht Hm Hp. unfold link_filter. rewrite Ht. cbn [mbind option_bind].
  set (node := mk_filter program (seccomp_filters t)). set (P1 := set_nodes _ P).
  destruct (has_flag flags HL_LINUX_SECCOMP_FILTER_FLAG_TSYNC).
  - destruct (tsync_spec c (lengthZ (nodes P)) t P1 Ht) as [[Hall Heq]|(peer & u & Hin & Hu & Hd & Heq)]; rewrite Heq; clear Heq; cbn [mbind option_bind].
    + split; [done|]. rewrite Z.eqb_refl. simpl. intros v P' [= <- <-]. right. split; [done|]. split.
      * split_and!; [done|done|done|]. intros c'. simpl. rewrite attach_registered_lookup.
        destruct (decide _) as [Hin|]; [|by left]. destruct (tasks P !! c') as [u|] eqn:Hu; [|by left]. right. exists u.
        destruct (Hall c' u Hin Hu) as [Hmu Hfu]. split_and!; [done|done|congruence|done].
      * intros peer u Hin Hu. split; [by apply (Hall peer u)|]. simpl. rewrite attach_registered_lookup, decide_True by done.
        by rewrite Hu.
    + pose proof (pk_tid _ Hok _ _ Hu). rewrite (proj2 (Z.eqb_neq peer 0)) by lia. simpl. split; [done|].
      intros v P' [= <- <-]. left. split_and!; [|done|done]. destruct (has_flag _ _); [done|lia].
  - split; [done|]. intros v P' [= <- <-]. right. split; [done|]. split.
    + split_and!; [done|done|done|]. intros c'. simpl. rewrite lookup_alter. destruct (decide (c = c')) as [<-|]; [|by left].
      right. exists t. rewrite Ht. done.
    + simpl. rewrite lookup_alter. rewrite decide_True by done. by rewrite Ht.
Qed.
End Invariant.

(** ** Seccomp filters: installing and serving

    What an installation decides, in the order of its checks, and that every
    event of a process answers and keeps the invariant. *)

(** ** Reading a program *)

Section Reading.
Context {G : Type} `{HG : GuestMemoryOk G}.

(** The [n] bytes at [a], when the guest can read all of them. *)
Definition fetched (g : G) (a : Z) (n : nat) : option (list Z) :=
  mapM (fun i => readable g (a + Z.of_nat i)) (seq 0 n).

Lemma fetched_ext g g' a n : (forall x, readable g' x = readable g x) -> fetched g' a n = fetched g a n.
Proof. intros Hr. unfold fetched. induction (seq 0 n) as [|i l IH]; simpl; [done|]. by rewrite Hr, IH. Qed.

Lemma fetched_Some g a n l :
  length l = n -> (forall i, 0 <= i < lengthZ l -> readable g (a + i) = lookupZ l i) -> fetched g a n = Some l.
Proof.
  intros Hn Hl. unfold fetched. apply mapM_Some. apply Forall2_same_length_lookup.
  split; [by rewrite length_seq|]. intros i x y Hx Hy. apply lookup_seq in Hx as [-> Hi]. rewrite Hl.
  - unfold lookupZ. rewrite (proj2 (Z.leb_le _ _)) by lia. by rewrite Nat2Z.id.
  - apply lookup_lt_Some in Hy. unfold lengthZ. lia.
Qed.

Lemma fetched_None g a n i : 0 <= i < Z.of_nat n -> readable g (a + i) = None -> fetched g a n = None.
Proof.
  intros Hi Hr. unfold fetched. destruct (mapM _ _) as [l|] eqn:Hm; [|done]. apply mapM_Some in Hm.
  assert (Hs : seq 0 n !! Z.to_nat i = Some (Z.to_nat i)) by (apply lookup_seq; lia).
  destruct (Forall2_lookup_l _ _ _ _ _ Hm Hs) as (y & _ & Hy). rewrite Z2Nat.id in Hy by lia. congruence.
Qed.

Lemma copy_fetched g a n :
  guest_ok g -> 0 <= a < 2 ^ 64 -> 0 < n < 2 ^ 63 ->
  exists r l g', guest_copy_from g a n = Some (r, l, g') /\ guest_ok g' /\
    (forall x, readable g' x = readable g x) /\ (forall x, nonpie_fold g' x = nonpie_fold g x) /\ Forall byte l /\
    match fetched g a (Z.to_nat n) with
    | Some l' => r = n /\ l' = l /\ lengthZ l = n
    | None => r <> n
    end.
Proof.
  intros Hok Ha Hn. destruct (copy_from_spec g a n Hok Ha Hn) as (r & l & g' & Heq & Hok' & Hr & _ & Hn' & Hlen & Hb & Hl & Hbad).
  exists r, l, g'. split_and!; try done. destruct (decide (lengthZ l = n)) as [Hfull|Hpart].
  - rewrite (fetched_Some g a (Z.to_nat n) l); [|unfold lengthZ in *; lia|done]. split; [|done].
    destruct Hlen as [[_ ->]|[_ Hlen]]; [unfold lengthZ in Hfull; simpl in Hfull|]; lia.
  - destruct Hbad as (i & Hi & Hnone); [destruct Hlen as [[_ ->]|Hlen]; [unfold lengthZ; simpl; lia|lia]|].
    rewrite (fetched_None g a _ i) by (done || lia). destruct Hlen as [[-> _]|Hlen]; [unfold EFAULT|]; lia.
Qed.
End Reading.

Lemma le_value_bound l n : Forall byte l -> 0 <= le_value (take n l) < 256 ^ Z.of_nat n.
Proof.
  intros Hl. pose proof (le_value_range (take n l) (Forall_take _ _ _ Hl)) as Hr.
  assert (256 ^ lengthZ (take n l) <= 256 ^ Z.of_nat n); [|lia].
  apply Z.pow_le_mono_r; [lia|]. unfold lengthZ. rewrite length_take. lia.
Qed.

Lemma parse_sized n : forall l, Forall byte l -> Forall insn_sized (parse_filters n l).
Proof.
  induction n as [|n IH]; intros l Hl; simpl; constructor; [|apply IH; by apply Forall_drop].
  unfold insn_sized. cbn [code jt jf k].
  pose proof (le_value_bound l 2 Hl). pose proof (le_value_bound (drop 2 l) 1 (Forall_drop _ _ _ Hl)).
  pose proof (le_value_bound (drop 3 l) 1 (Forall_drop _ _ _ Hl)).
  pose proof (le_value_bound (drop 4 l) 4 (Forall_drop _ _ _ Hl)). simpl in *. lia.
Qed.

Lemma length_parse n l : length (parse_filters n l) = n.
Proof. revert l. induction n as [|n IH]; intros l; simpl; [done|]. by rewrite IH. Qed.

(** ** The decision *)

Section Install.
Context {G : Type} `{HG : GuestMemoryOk G}.
Implicit Types (P : process G) (c : Z).

(** The refusal, or the program to link. *)
Definition install_decision (memory : bool) (fprog_ptr flags : Z) P : Z + list hl_linux_sock_filter :=
  let listener := has_flag flags HL_LINUX_SECCOMP_FILTER_FLAG_NEW_LISTENER in
  if negb (Z.land flags (Z.lxor UINT32_MAX HL_LINUX_SECCOMP_FILTER_FLAGS_KNOWN) =? 0) then inl EINVAL
  else if listener && has_flag flags HL_LINUX_SECCOMP_FILTER_FLAG_TSYNC then inl EINVAL
  else
    match fetched (guest P) fprog_ptr 2, fetched (guest P) (u64 (fprog_ptr + 8)) 8 with
    | Some len_bytes, Some ptr_bytes =>
        let len := le_value len_bytes in
        let insn_ptr := nonpie_fold (guest P) (le_value ptr_bytes) in
        if negb ((1 <=? len) && (len <=? HL_LINUX_BPF_MAXINSNS)) then inl EINVAL
        else if insn_ptr =? 0 then inl EFAULT
        else if negb memory then inl ENOMEM
        else
          match fetched (guest P) insn_ptr (Z.to_nat (8 * len)) with
          | None => inl EFAULT
          | Some text =>
              let program := parse_filters (Z.to_nat len) text in
              if negb (hl_seccomp_validate program) then inl EINVAL
              else if negb (authorised P) then inl EACCES
              else if listener then inl EINVAL
              else inr program
          end
    | _, _ => inl EFAULT
    end.

(** [g] is the guest memory of [P], read. *)
Record reread P (g : G) : Prop := mk_reread {
  rr_ok : guest_ok g;
  rr_readable : forall x, readable g x = readable (guest P) x;
  rr_fold : forall x, nonpie_fold g x = nonpie_fold (guest P) x
}.

Lemma reread_refl P : proc_ok P -> reread P (guest P).
Proof. intros Hok. by constructor; [apply (pk_guest _ Hok)| |]. Qed.

Lemma set_guest_id P : set_guest (guest P) P = P.
Proof. by destruct P. Qed.

Lemma copy_reread P g a n :
  reread P g -> 0 <= a < 2 ^ 64 -> 0 < n < 2 ^ 63 ->
  exists r l g', guest_copy_from g a n = Some (r, l, g') /\ reread P g' /\ Forall byte l /\
    match fetched (guest P) a (Z.to_nat n) with
    | Some l' => r = n /\ l' = l /\ lengthZ l = n
    | None => r <> n
    end.
Proof.
  intros [Hok Hr Hf] Ha Hn. destruct (copy_fetched g a n Hok Ha Hn) as (r & l & g' & -> & Hok' & Hr' & Hf' & Hb & Hcase).
  exists r, l, g'. split; [done|]. rewrite (fetched_ext _ _ _ _ Hr) in Hcase. split; [|done].
  constructor; [done|intros x; by rewrite Hr'|intros x; by rewrite Hf'].
Qed.

Lemma install_decides malloc_node malloc_insns c fprog_ptr flags P :
  proc_ok P -> 0 <= fprog_ptr < 2 ^ 64 ->
  exists g, reread P g /\
    seccomp_install_filter malloc_node malloc_insns c fprog_ptr flags P =
      match install_decision (malloc_node && malloc_insns) fprog_ptr flags P with
      | inl errno => Some (- errno, set_guest g P)
      | inr program => link_filter c flags program (set_guest g P)
      end.
Proof.
  intros Hok Hp. pose proof (reread_refl P Hok) as Hrefl. unfold seccomp_install_filter, install_decision.
  destruct (negb (_ =? 0)); [exists (guest P); by rewrite set_guest_id|].
  destruct (_ && _); [exists (guest P); by rewrite set_guest_id|].
  destruct (copy_reread P (guest P) fprog_ptr 2 Hrefl Hp) as (r1 & l1 & g1 & -> & Hr1 & Hb1 & Hc1); [lia|].
  cbn [mbind option_bind]. change (Z.to_nat 2) with 2%nat in Hc1.
  destruct (fetched (guest P) fprog_ptr 2) as [l1'|]; [destruct Hc1 as (-> & -> & Hl1)|].
  2: { rewrite (proj2 (Z.eqb_neq _ _)) by done. by exists g1. }
  rewrite Z.eqb_refl. cbn [negb].
  destruct (copy_reread P g1 (u64 (fprog_ptr + 8)) 8 Hr1 (u64_range _)) as (r2 & l2 & g2 & -> & Hr2 & Hb2 & Hc2); [lia|].
  cbn [mbind option_bind]. change (Z.to_nat 8) with 8%nat in Hc2.
  destruct (fetched (guest P) (u64 (fprog_ptr + 8)) 8) as [l2'|]; [destruct Hc2 as (-> & -> & Hl2)|].
  2: { rewrite (proj2 (Z.eqb_neq _ _)) by done. by exists g2. }
  rewrite Z.eqb_refl. cbn [negb]. rewrite (rr_fold _ _ Hr2).
  pose proof (le_value_range _ Hb1) as Hlen. pose proof (le_value_range _ Hb2) as Hptr. rewrite Hl1 in Hlen. rewrite Hl2 in Hptr.
  destruct ((_ =? 0) || _) eqn:Hg.
  { exists g2. split; [done|]. destruct (negb _) eqn:Hn; [done|]. bool_props. lia. }
  destruct (negb (_ && _)) eqn:Hn.
  { apply negb_true_iff, andb_false_iff in Hn. bool_props. destruct Hn; bool_props; lia. }
  clear Hn. bool_props. destruct (_ =? 0); [by exists g2|].
  rewrite <- negb_andb. destruct (negb (malloc_node && malloc_insns)); [by exists g2|].
  unfold HL_LINUX_BPF_MAXINSNS in *.
  destruct (copy_reread P g2 (nonpie_fold (guest P) (le_value l2)) (8 * le_value l1) Hr2) as (r3 & l3 & g3 & -> & Hr3 & Hb3 & Hc3).
  { apply nonpie_fold_u64; [apply (pk_guest _ Hok)|exact Hptr]. }
  { lia. }
  cbn [mbind option_bind]. destruct (fetched (guest P) _ _) as [l3'|]; [destruct Hc3 as (-> & -> & Hl3)|].
  2: { rewrite (proj2 (Z.eqb_neq _ _)) by done. by exists g3. }
  rewrite Z.eqb_refl. cbn [negb]. exists g3. split; [done|].
  destruct (negb (hl_seccomp_validate _)); [done|]. change (authorised (set_guest g3 P)) with (authorised P).
  destruct (negb _); [done|]. by destruct (has_flag _ _).
Qed.

(** A program that is linked is valid and was read from the guest. *)
Lemma decision_sane memory fprog_ptr flags P program :
  proc_ok P -> 0 <= fprog_ptr < 2 ^ 64 -> install_decision memory fprog_ptr flags P = inr program ->
  program_sane program /\ authorised P = true /\ 1 <= lengthZ program <= HL_LINUX_BPF_MAXINSNS.
Proof.
  intros Hok Hp. unfold install_decision. destruct (negb (_ =? 0)); [done|]. destruct (_ && _); [done|].
  destruct (fetched _ _ 2) as [l1|]; [|done]. destruct (fetched _ _ 8) as [l2|] eqn:H2; [|done].
  destruct (negb _) eqn:Hn; [done|]. destruct (_ =? 0); [done|]. destruct (negb memory); [done|].
  destruct (fetched _ _ (Z.to_nat _)) as [l3|] eqn:H3; [|done]. destruct (negb (hl_seccomp_validate _)) eqn:Hv; [done|].
  destruct (negb (authorised P)) eqn:Ha; [done|]. destruct (has_flag _ _); [done|]. intros [= <-]. bool_props.
  split; [|split; [done|unfold lengthZ; rewrite length_parse; lia]]. split; [done|]. apply parse_sized.
  assert (Hptr : 0 <= le_value l2 < 2 ^ 64).
  { destruct (copy_reread P (guest P) (u64 (fprog_ptr + 8)) 8 (reread_refl _ Hok) (u64_range _)) as (r & l & g & _ & _ & Hb & Hc); [lia|].
    change (Z.to_nat 8) with 8%nat in Hc. rewrite H2 in Hc. destruct Hc as (_ & -> & Hl).
    pose proof (le_value_range _ Hb) as Hr. by rewrite Hl in Hr. }
  destruct (copy_reread P (guest P) (nonpie_fold (guest P) (le_value l2)) (8 * le_value l1) (reread_refl _ Hok))
    as (r & l & g & _ & _ & Hb & Hc).
  { by apply nonpie_fold_u64; [apply (pk_guest _ Hok)|]. }
  { unfold HL_LINUX_BPF_MAXINSNS in *. lia. }
  rewrite H3 in Hc. by destruct Hc as (_ & -> & _).
Qed.

Lemma install_answers malloc_node malloc_insns c fprog_ptr flags t P :
  proc_ok P -> tasks P !! c = Some t -> seccomp_mode t <> 1 -> 0 <= fprog_ptr < 2 ^ 64 ->
  answers P (seccomp_install_filter malloc_node malloc_insns c fprog_ptr flags P).
Proof.
  intros Hok Ht Hm Hp. destruct (install_decides malloc_node malloc_insns c fprog_ptr flags P Hok Hp) as (g & Hg & ->).
  destruct (guest_answers P 0 g Hok (rr_ok _ _ Hg)) as (_ & P1 & [= <- <-] & Hok1 & Hk1).
  destruct (install_decision _ _ _ _) as [errno|program] eqn:Hd.
  - exists (- errno), (set_guest g P). by split_and!.
  - destruct (decision_sane _ _ _ _ _ Hok Hp Hd) as (Hsane & _ & _).
    destruct (link_answers c flags program t (set_guest g P) Hok1 Ht Hm Hsane) as [Hsome Hall].
    destruct (link_filter _ _ _ _) as [[v P']|] eqn:Hl; [|by destruct Hsome].
    exists v, P'. split; [done|]. destruct (Hall v P' eq_refl) as [(_ & -> & _)|(_ & Hlk & _)]; [done|].
    destruct (linked_ok _ _ _ _ Hlk Hok1 Hsane) as [Hok' Hk'].
    { by destruct (pk_task _ Hok1 _ _ Ht). }
    split; [done|]. exact (keeps_trans _ _ _ Hk1 Hk').
Qed.

(** ** The other operations *)

Lemma set_strict_answers c P : proc_ok P -> is_Some (tasks P !! c) -> answers P (seccomp_set_strict c P).
Proof.
  intros Hok [t Ht]. unfold seccomp_set_strict. rewrite Ht. cbn [mbind option_bind].
  destruct (Z.eqb_spec (seccomp_mode t) 2) as [|Hm]; [by apply answers_same|].
  destruct (pk_task _ Hok _ _ Ht) as (_ & Hin & Hi & _). pose proof (proj2 Hi Hm) as Hf.
  exists 0, (activate (update_task c (set_mode 1) P)). split; [done|]. split.
  - constructor; [apply (pk_guest _ Hok)|apply (pk_nodes _ Hok)| |]; intros c' t'; simpl; rewrite lookup_alter;
      (destruct (decide (c = c')) as [<-|]; [rewrite Ht; intros [= <-]|intros Ht']).
    + by eapply (pk_tid _ Hok).
    + by eapply (pk_tid _ Hok).
    + simpl. rewrite Hf. split_and!; try done; auto; lia.
    + destruct (pk_task _ Hok _ _ Ht') as (? & ? & ? & _). by split_and!.
  - intros c' t' Ht'. unfold programs. simpl. rewrite lookup_alter. destruct (decide (c = c')) as [<-|].
    + rewrite Ht in Ht' |- *. injection Ht' as <-. exists (set_mode 1 t). split_and!; [done| |by exists []].
      simpl. simpl in Hin. lia.
    + exists t'. rewrite Ht'. split_and!; [done|done|by exists []].
Qed.

Lemma avail_answers flags act_ptr P : proc_ok P -> 0 <= act_ptr < 2 ^ 64 -> answers P (seccomp_get_action_avail flags act_ptr P).
Proof.
  intros Hok Ha. unfold seccomp_get_action_avail. destruct (negb _); [by apply answers_same|].
  destruct (copy_reread P (guest P) act_ptr 4 (reread_refl _ Hok) Ha) as (r & l & g & -> & Hg & _); [lia|].
  cbn [mbind option_bind]. apply rr_ok in Hg. destruct (negb _); [by apply guest_answers|].
  destruct (one_of _ _); by apply guest_answers.
Qed.

Lemma notif_answers flags sz_ptr P : proc_ok P -> 0 <= sz_ptr < 2 ^ 64 -> answers P (seccomp_get_notif_sizes flags sz_ptr P).
Proof.
  intros Hok Ha. unfold seccomp_get_notif_sizes. destruct (negb _); [by apply answers_same|].
  destruct (copy_to_spec (guest P) sz_ptr [80; 0; 24; 0; sizeof_seccomp_data; 0] (pk_guest _ Hok) Ha) as (r & g & -> & Hg & _).
  - done.
  - repeat constructor; unfold byte, sizeof_seccomp_data; lia.
  - cbn [mbind option_bind]. by apply guest_answers.
Qed.

Lemma sys_seccomp_answers mn mi c a0 a1 a2 t P :
  proc_ok P -> tasks P !! c = Some t -> seccomp_mode t <> 1 -> 0 <= a2 < 2 ^ 64 ->
  answers P (sys_seccomp mn mi c a0 a1 a2 P).
Proof.
  intros Hok Ht Hm Ha. unfold sys_seccomp. destruct (_ =? _); [by eapply install_answers|].
  destruct (_ =? _); [destruct (_ || _); [by apply answers_same|by apply set_strict_answers]|].
  destruct (_ =? _); [by apply avail_answers|]. destruct (_ =? _); [by apply notif_answers|by apply answers_same].
Qed.

Lemma sys_prctl_answers d mn mi c a0 a1 a2 a3 a4 t P :
  proc_ok P -> tasks P !! c = Some t -> seccomp_mode t <> 1 -> 0 <= a2 < 2 ^ 64 ->
  one_of (u32 a0) [21; 22; 38; 39] = true -> answers P (sys_prctl d mn mi c a0 a1 a2 a3 a4 P).
Proof.
  intros Hok Ht Hm Ha Ho. unfold sys_prctl. apply one_of_In in Ho. simpl in Ho.
  destruct ((u32 a0 =? 38) || (u32 a0 =? 39)) eqn:Hn.
  - unfold prctl_no_new_privs. destruct (u32 a0 =? 38); destruct (negb _); try by apply answers_same.
    apply quiet_answers; [done|by apply same_filters_refl|done].
  - assert ((u32 a0 =? 21) || (u32 a0 =? 22) = true) as ->.
    { bool_props. destruct Ho as [Ho|[Ho|[Ho|[Ho|[]]]]]; rewrite <- Ho; done || lia. }
    unfold prctl_seccomp. destruct (u32 a0 =? 21); [rewrite Ht; by apply answers_same|].
    destruct (_ =? 1); [by apply set_strict_answers|]. destruct (_ =? 2); [by eapply install_answers|by apply answers_same].
Qed.

(** ** Events *)

Lemma answers_ret c P (o : option (Z * process G)) :
  answers P o ->
  exists P', ('(v, P) ← o; Some (update_task c (set_ret v) P)) = Some P' /\ proc_ok P' /\ keeps P P'.
Proof.
  intros (v & P1 & -> & Hok1 & Hk1). cbn [mbind option_bind]. eexists. split; [done|].
  destruct (same_filters_ok P1 (update_task c (set_ret v) P1)) as [Hok2 Hk2]; [by apply same_filters_task|apply (pk_guest _ Hok1)|done|].
  split; [done|]. exact (keeps_trans _ _ _ Hk1 Hk2).
Qed.

Lemma call_arg_range r i : regs_sized r -> 0 <= call_arg r i < 2 ^ 64.
Proof.
  intros (_ & _ & _ & Hall). unfold call_arg. destruct (lookupZ (call_args r) i) as [a|] eqn:Ha; simpl; [|lia].
  apply lookupZ_elem in Ha. rewrite List.Forall_forall in Hall. by apply Hall.
Qed.

Lemma serve_ok A c r t P :
  proc_ok P -> tasks P !! c = Some t -> (seccomp_mode t = 1 -> In (canonical_nr r) [63; 64; 93; 139]) -> regs_sized r ->
  exists P', serve A c r P = Some P' /\ proc_ok P' /\ keeps P P'.
Proof.
  intros Hok Ht Hm Hr. unfold serve. destruct (Z.eqb_spec (canonical_nr r) 277) as [Hnr|_].
  { apply answers_ret. eapply sys_seccomp_answers; [done|done| |by apply call_arg_range].
    intros H1. specialize (Hm H1). rewrite Hnr in Hm. simpl in Hm. lia. }
  destruct (Z.eqb_spec (canonical_nr r) 167) as [Hnr|_]; cbn [andb].
  2: { exists P. split_and!; [done|done|apply keeps_refl]. }
  destruct (one_of _ _) eqn:Ho.
  2: { exists P. split_and!; [done|done|apply keeps_refl]. }
  apply answers_ret. eapply sys_prctl_answers; [done|done| |by apply call_arg_range|done].
  intros H1. specialize (Hm H1). rewrite Hnr in Hm. simpl in Hm. lia.
Qed.

Lemma system_call_ok A c r P :
  proc_ok P -> running P c -> regs_sized r -> exists P', system_call A c r P = Some P' /\ proc_ok P' /\ keeps P P'.
Proof.
  intros Hok (t & Ht & _) Hr. unfold system_call.
  destruct (gate_answers (arch_word A) c r P Hok) as (v & P1 & Hg & Hok1 & Hk1); [by exists t|]. rewrite Hg.
  cbn [mbind option_bind]. destruct v; [by exists P1|].
  destruct (gate_passes _ _ _ _ _ _ Ht Hg Hok) as [-> Hm]. by eapply serve_ok.
Qed.

Lemma event_ok e P :
  proc_ok P -> event_sane e P -> exists P', run_event e P = Some P' /\ proc_ok P' /\ keeps P P'.
Proof.
  intros Hok He. destruct e as [c r A|parent child|c|c|c m]; simpl in *.
  - destruct He as (Hrun & Hr & _). by apply system_call_ok.
  - destruct He as ((t & Ht & _) & Hpos & Hfresh). unfold spawn_thread. rewrite Ht. cbn [mbind option_bind].
    eexists. split; [done|]. split.
    + constructor; [apply (pk_guest _ Hok)|apply (pk_nodes _ Hok)| |]; intros c t'; simpl; rewrite lookup_insert;
        (destruct (decide (child = c)) as [<-|]; [intros [= <-]|intros Ht']).
      * done.
      * by eapply (pk_tid _ Hok).
      * exact (pk_task _ Hok _ _ Ht).
      * exact (pk_task _ Hok _ _ Ht').
    + intros c t' Ht'. exists t'. unfold programs. simpl. rewrite lookup_insert_ne by congruence. rewrite Ht'.
      split_and!; [done|done|by exists []].
  - eexists. split; [done|]. apply same_filters_ok; [by apply same_filters_refl|apply (pk_guest _ Hok)|done].
  - eexists. split; [done|]. apply same_filters_ok; [by apply same_filters_refl|apply (pk_guest _ Hok)|done].
  - eexists. split; [done|]. apply same_filters_ok; [by apply same_filters_refl|apply (pk_guest _ Hok)|done].
Qed.

Lemma steps_ok P P' : seccomp_steps P P' -> proc_ok P -> proc_ok P' /\ keeps P P'.
Proof.
  induction 1 as [|P P1 P2 e Hs IH Hd He Hr]; intros Hok; [split; [done|apply keeps_refl]|].
  destruct (IH Hok) as [Hok1 Hk1]. destruct (event_ok e P1 Hok1 He) as (P' & Hr' & Hok2 & Hk2).
  rewrite Hr in Hr'. injection Hr' as <-. split; [done|]. exact (keeps_trans _ _ _ Hk1 Hk2).
Qed.

Lemma start_ok g c nnp caps : guest_ok g -> 0 < c -> proc_ok (process_start g c nnp caps).
Proof.
  intros Hg Hc. constructor; simpl; [done| | |].
  - intros i node Hi. apply lookupZ_Some_range in Hi. unfold lengthZ in Hi. simpl in Hi. lia.
  - intros c' t. rewrite lookup_singleton. destruct (decide (c = c')) as [->|]; done.
  - intros c' t. rewrite lookup_singleton. destruct (decide (c = c')) as [->|]; [|done]. intros [= <-]. simpl.
    split_and!; try done; auto; lia.
Qed.
End Install.
