(* ===== verification/RangeLedger.v ===== *)
(** * Interval registries

    The arrays of [\[lo, hi)] intervals of [thread/bus_ranges.c] and
    [thread/file_mapping.c]: PROT_NONE ([g_gna]), read-only ([g_gro]),
    non-executable ([g_gnx]) and past-EOF ranges ([g_gbus], and those parked
    under PROT_NONE).  An array is a list; its count is the length. *)

From S2P Require Import Prelude.

Definition GNA_MAX : Z := 512.

Record range := mk_range {
  lo : Z;
  hi : Z
}.

(** [array\[i\] = array\[--count\]]. *)
Definition swap_out (i : Z) (l : list range) : list range :=
  match lookupZ l (lengthZ l - 1) with
  | Some last => take (Nat.pred (length l)) (insertZ l i last)
  | None => l
  end.

(** [lo >= e || hi <= b]. *)
Definition apart (first last : Z) (r : range) : bool := (hi r <=? first) || (last <=? lo r).

(** The scan that removes [\[first, last)]: the array, whether an entry was
    touched, and whether a tail found no room. *)
Fixpoint clear_loop (fuel : nat) (first last i : Z) (l : list range) (changed dropped : bool)
  : option (list range * bool * bool) :=
  match fuel with
  | O => None
  | S fuel =>
      match lookupZ l i with
      | None => Some (l, changed, dropped)
      | Some r =>
          if apart first last r then clear_loop fuel first last (i + 1) l changed dropped
          else
            let head := lo r <? first in
            let tail := last <? hi r in
            if negb head && negb tail then clear_loop fuel first last i (swap_out i l) true dropped
            else
              let l1 := insertZ l i (if head then mk_range (lo r) first else mk_range last (hi r)) in
              if head && tail then
                if lengthZ l <? GNA_MAX
                then clear_loop fuel first last (i + 1) (l1 ++ [mk_range last (hi r)]) true dropped
                else clear_loop fuel first last (i + 1) l1 true true
              else clear_loop fuel first last (i + 1) l1 true dropped
      end
  end.

(** Each iteration passes an entry, removes one, or splits one that is then passed twice. *)
Definition clear_raw (first last : Z) (l : list range) : option (list range * bool * bool) :=
  clear_loop (S (2 * length l)) first last 0 l false false.

(** One pass of [BUS_RANGE_ABSORB]: the bounds, the array, and whether the bounds grew. *)
Fixpoint absorb_pass (fuel : nat) (first last i : Z) (l : list range) (grew : bool)
  : option (Z * Z * list range * bool) :=
  match fuel with
  | O => None
  | S fuel =>
      match lookupZ l i with
      | None => Some (first, last, l, grew)
      | Some r =>
          if (hi r <? first) || (last <? lo r) then absorb_pass fuel first last (i + 1) l grew
          else
            absorb_pass fuel (if lo r <? first then lo r else first) (if last <? hi r then hi r else last) i
              (swap_out i l) (grew || (lo r <? first) || (last <? hi r))
      end
  end.

(** [for (pass = 0; pass < GNA_MAX; ++pass)]. *)
Fixpoint absorb_passes (passes : nat) (first last : Z) (l : list range) : option (Z * Z * list range) :=
  match passes with
  | O => Some (first, last, l)
  | S passes =>
      '(first, last, l, grew) ← absorb_pass (S (length l)) first last 0 l false;
      if grew : bool then absorb_passes passes first last l else Some (first, last, l)
  end.

Definition absorb_adjacent (first last : Z) (l : list range) : option (Z * Z * list range) :=
  absorb_passes (Z.to_nat GNA_MAX) first last l.

(** Merging, or removing what the new interval covers, and appending. *)
Definition range_add (coalesce : bool) (first last : Z) (l : list range) : option (list range * bool) :=
  if last <=? first then Some (l, false)
  else
    '(first, last, l) ←
      (if coalesce then absorb_adjacent first last l
       else '(l, _, _) ← clear_raw first last l; Some (first, last, l));
    if lengthZ l <? GNA_MAX then Some (l ++ [mk_range first last], false) else Some (l, true).

(** Whether an entry overlaps [\[first, last)]. *)
Definition range_hit (first last : Z) (l : list range) : bool :=
  existsb (fun r => (first <? hi r) && (lo r <? last)) l.

(** The scan of the prefix queries, narrowing [last]. *)
Fixpoint prefix_scan (first last : Z) (l : list range) : Z :=
  match l with
  | [] => last
  | r :: l =>
      let last' :=
        if (first <? hi r) && (lo r <? last) then
          let start := if first <? lo r then lo r else first in
          if start - first <? last - first then start else last
        else last in
      prefix_scan first last' l
  end.

(** ** The set an array stands for *)

Definition inside (x : Z) (r : range) : bool := (lo r <=? x) && (x <? hi r).
Definition covered (l : list range) (x : Z) : bool := existsb (inside x) l.

Definition nonempty (r : range) : Prop := lo r < hi r.
Definition disjoint_from (r s : range) : Prop := hi r <= lo s \/ hi s <= lo r.
Definition separate_from (r s : range) : Prop := hi r < lo s \/ hi s < lo r.

(** Entries are not empty, no two overlap, and they fit the array. *)
Record ranges_ok (l : list range) : Prop := mk_ranges_ok {
  rk_nonempty : Forall nonempty l;
  rk_disjoint : ForallOrdPairs disjoint_from l;
  rk_count : lengthZ l <= GNA_MAX
}.
