(* ===== verification/RangeProofs.v ===== *)
(** * Interval registries: what the scans compute

    Removing an interval is, entry by entry and in some order, keeping the
    pieces outside it; merging keeps the union. *)

From stdpp Require Import list.
From S2P Require Import Prelude RangeLedger.

(** ** Pieces *)

Definition pieces (first last : Z) (r : range) : list range :=
  if apart first last r then [r]
  else (if lo r <? first then [mk_range (lo r) first] else []) ++ (if last <? hi r then [mk_range last (hi r)] else []).

Definition straddles (first last : Z) (r : range) : bool :=
  negb (apart first last r) && (lo r <? first) && (last <? hi r).

Definition touched (first last : Z) (r : range) : bool := negb (apart first last r).

Lemma swap_out_middle done_ r todo :
  exists k, swap_out (lengthZ done_) (done_ ++ r :: todo) = done_ ++ k /\ k ≡ₚ todo.
Proof.
  unfold swap_out. induction todo as [|z k _] using rev_ind.
  - exists []. split; [|done]. rewrite lengthZ_app. change (lengthZ [r]) with 1.
    replace (lengthZ done_ + 1 - 1) with (lengthZ done_) by lia. rewrite lookupZ_middle, insertZ_middle, length_app.
    replace (Nat.pred (length done_ + length [r])) with (length done_) by (simpl; lia).
    rewrite take_app_length. by rewrite app_nil_r.
  - exists (z :: k). split; [|by rewrite Permutation_cons_append].
    assert (Hlast : lookupZ (done_ ++ r :: k ++ [z]) (lengthZ (done_ ++ r :: k ++ [z]) - 1) = Some z).
    { replace (done_ ++ r :: k ++ [z]) with ((done_ ++ r :: k) ++ [z]) by (by rewrite <- app_assoc).
      rewrite lengthZ_app. change (lengthZ [z]) with 1. replace (lengthZ (done_ ++ r :: k) + 1 - 1) with (lengthZ (done_ ++ r :: k)) by lia.
      apply lookupZ_middle. }
    rewrite Hlast, insertZ_middle.
    replace (done_ ++ z :: k ++ [z]) with ((done_ ++ z :: k) ++ [z]) by (by rewrite <- app_assoc).
    rewrite take_app_le by (rewrite !length_app; simpl; rewrite length_app; simpl; lia).
    apply take_ge. rewrite !length_app. simpl. rewrite length_app. simpl. lia.
Qed.

(** ** Removing an interval *)

Section Clear.
Context (first last : Z).

Lemma tail_apart e : apart first last (mk_range last e) = true.
Proof. unfold apart. simpl. apply orb_true_iff. right. apply Z.leb_le. lia. Qed.

(** The scan from [todo] on: what is left, with the tails that found no room,
    is the pieces; a tail is lost only when the array was full. *)
Lemma clear_loop_spec fuel : forall done_ todo changed dropped,
  (length todo + Z.to_nat (countZ (touched first last) todo) < fuel)%nat ->
  exists l lost, clear_loop fuel first last (lengthZ done_) (done_ ++ todo) changed dropped =
      Some (l, changed || existsb (touched first last) todo, dropped || negb (bool_decide (lost = []))) /\
    l ++ lost ≡ₚ done_ ++ concat (map (pieces first last) todo) /\
    (lengthZ (done_ ++ todo) <= GNA_MAX -> lengthZ l <= GNA_MAX) /\
    (lost <> [] -> GNA_MAX < lengthZ (done_ ++ todo) + countZ (straddles first last) todo) /\
    lengthZ lost <= countZ (straddles first last) todo.
Proof.
  induction fuel as [|fuel IH]; intros done_ todo changed dropped Hf; [lia|]. simpl.
  destruct todo as [|r todo].
  { rewrite app_nil_r. destruct (lookupZ done_ (lengthZ done_)) eqn:Hl.
    { apply lookupZ_Some_range in Hl. lia. }
    exists done_, []. simpl. rewrite !orb_false_r, !app_nil_r. done. }
  rewrite lookupZ_middle. pose proof (countZ_bounds (touched first last) todo).
  pose proof (countZ_bounds (straddles first last) todo).
  assert (Hstep : forall x rest ch dr,
    (length rest + Z.to_nat (countZ (touched first last) rest) < fuel)%nat ->
    exists l lost, clear_loop fuel first last (lengthZ done_ + 1) (done_ ++ x :: rest) ch dr =
        Some (l, ch || existsb (touched first last) rest, dr || negb (bool_decide (lost = []))) /\
      l ++ lost ≡ₚ done_ ++ x :: concat (map (pieces first last) rest) /\
      (lengthZ (done_ ++ x :: rest) <= GNA_MAX -> lengthZ l <= GNA_MAX) /\
      (lost <> [] -> GNA_MAX < lengthZ (done_ ++ x :: rest) + countZ (straddles first last) rest) /\
      lengthZ lost <= countZ (straddles first last) rest).
  { intros x rest ch dr Hr. destruct (IH (done_ ++ [x]) rest ch dr Hr) as (l & lost & He & Hp & Hl & Hx & Hn).
    rewrite lengthZ_app in He. change (lengthZ [x]) with 1 in He. rewrite <- app_assoc in He, Hp, Hl, Hx.
    by exists l, lost. }
  cbn [countZ existsb map concat length] in Hf |- *. unfold pieces at 1, touched at 1. unfold touched at 1 in Hf.
  change (straddles first last r) with (negb (apart first last r) && (lo r <? first) && (last <? hi r)).
  destruct (apart first last r) eqn:Ha; cbn [negb andb orb app] in *.
  { destruct (Hstep r todo changed dropped) as (l & lost & He & Hp & Hl & Hx & Hn); [lia|]. by exists l, lost. }
  destruct (Z.ltb_spec (lo r) first) as [Hh|Hh], (Z.ltb_spec last (hi r)) as [Ht|Ht]; cbn [negb andb app];
    try rewrite insertZ_middle.
  - destruct (Z.ltb_spec (lengthZ (done_ ++ r :: todo)) GNA_MAX) as [Hroom|Hfull].
    + rewrite <- app_assoc. cbn [app].
      destruct (Hstep (mk_range (lo r) first) (todo ++ [mk_range last (hi r)]) true dropped) as (l & lost & He & Hp & Hl & Hx & Hn).
      { rewrite length_app, countZ_app. simpl. unfold touched at 2. rewrite tail_apart. simpl. lia. }
      exists l, lost. rewrite He, !orb_true_r. split_and!.
      * done.
      * rewrite Hp, map_app, concat_app. simpl. unfold pieces at 2. rewrite tail_apart. simpl.
        rewrite <- Permutation_cons_append. done.
      * intros _. apply Hl. rewrite !lengthZ_app, !lengthZ_cons, lengthZ_app in *. change (lengthZ [_]) with 1. lia.
      * intros Hlost. specialize (Hx Hlost). rewrite countZ_app in Hx. rewrite !lengthZ_app, !lengthZ_cons, lengthZ_app in *.
        change (lengthZ [mk_range last (hi r)]) with 1 in Hx. cbn [countZ] in Hx. unfold straddles at 2 in Hx.
        rewrite tail_apart in Hx. simpl in Hx. lia.
      * rewrite countZ_app in Hn. cbn [countZ] in Hn. unfold straddles at 2 in Hn. rewrite tail_apart in Hn. simpl in Hn. lia.
    + destruct (Hstep (mk_range (lo r) first) todo true true) as (l & lost & He & Hp & Hl & Hx & Hn); [lia|].
      exists l, (mk_range last (hi r) :: lost). rewrite He, !orb_true_l, !orb_true_r. split_and!.
      * done.
      * rewrite <- Permutation_middle, Hp, (Permutation_middle done_). apply Permutation_app_head, perm_swap.
      * intros Hle. apply Hl. by rewrite !lengthZ_app, !lengthZ_cons in *.
      * intros _. rewrite lengthZ_app, lengthZ_cons in *. lia.
      * rewrite lengthZ_cons. lia.
  - destruct (Hstep (mk_range (lo r) first) todo true dropped) as (l & lost & He & Hp & Hl & Hx & Hn); [lia|].
    exists l, lost. rewrite He, orb_true_l, orb_true_r. split_and!; try done; by rewrite !lengthZ_app, !lengthZ_cons in *.
  - destruct (Hstep (mk_range last (hi r)) todo true dropped) as (l & lost & He & Hp & Hl & Hx & Hn); [lia|].
    exists l, lost. rewrite He, orb_true_l, orb_true_r. split_and!; try done; by rewrite !lengthZ_app, !lengthZ_cons in *.
  - destruct (swap_out_middle done_ r todo) as (k & -> & Hk). pose proof (Permutation_length Hk) as Hkl.
    destruct (IH done_ k true dropped) as (l & lost & He & Hp & Hl & Hx & Hn).
    { rewrite Hkl, (countZ_perm _ _ _ Hk). lia. }
    exists l, lost. rewrite He, orb_true_l, orb_true_r. split_and!; [done| | | |].
    + by rewrite Hp, Hk.
    + intros Hle. apply Hl. unfold lengthZ in *. rewrite !length_app in *. simpl in Hle. lia.
    + intros Hlost. specialize (Hx Hlost). rewrite (countZ_perm _ _ _ Hk) in Hx. unfold lengthZ in *.
      rewrite !length_app in *. simpl. lia.
    + by rewrite (countZ_perm _ _ _ Hk) in Hn.
Qed.

Lemma clear_raw_spec l :
  exists l' lost, clear_raw first last l = Some (l', existsb (touched first last) l, negb (bool_decide (lost = []))) /\
    l' ++ lost ≡ₚ concat (map (pieces first last) l) /\
    (lengthZ l <= GNA_MAX -> lengthZ l' <= GNA_MAX) /\
    (lost <> [] -> GNA_MAX < lengthZ l + countZ (straddles first last) l) /\
    lengthZ lost <= countZ (straddles first last) l.
Proof.
  destruct (clear_loop_spec (S (2 * length l)) [] l false false) as (l' & lost & He & Hrest).
  { pose proof (countZ_bounds (touched first last) l). unfold lengthZ in *. lia. }
  by exists l', lost.
Qed.
End Clear.

(** ** Sets *)

Lemma covered_In l x : covered l x = true <-> exists r, In r l /\ lo r <= x < hi r.
Proof.
  unfold covered. rewrite existsb_exists. split; intros (r & Hr & Hx); exists r; (split; [done|]); unfold inside in *.
  - bool_props. lia.
  - apply andb_true_iff. split; [apply Z.leb_le|apply Z.ltb_lt]; lia.
Qed.

Lemma covered_perm l l' x : l ≡ₚ l' -> covered l x = true -> covered l' x = true.
Proof. rewrite !covered_In. intros Hp (r & Hr & Hx). exists r. split; [|done]. by eapply Permutation_in. Qed.

Lemma covered_app l k x : covered (l ++ k) x = covered l x || covered k x.
Proof. apply existsb_app. Qed.

Lemma covered_one r x : covered [r] x = true <-> lo r <= x < hi r.
Proof. rewrite covered_In. split; [intros (s & [->|[]] & Hx); lia|intros Hx; exists r; split; [by left|done]]. Qed.

Lemma pieces_In first last r s :
  first < last -> In s (pieces first last r) ->
  lo r <= lo s /\ hi s <= hi r /\ (hi s <= first \/ last <= lo s) /\ (nonempty r -> nonempty s).
Proof.
  intros Hlt. unfold pieces, nonempty. destruct (apart first last r) eqn:Ha.
  - intros [<-|[]]. unfold apart in Ha. apply orb_true_iff in Ha as [Ha|Ha]; bool_props; lia.
  - unfold apart in Ha. bool_props. destruct (Z.ltb_spec (lo r) first), (Z.ltb_spec last (hi r)); simpl; intros Hin;
      repeat (destruct Hin as [<-|Hin]; [simpl; lia|]); done.
Qed.

Lemma covered_pieces first last r x :
  first < last -> covered (pieces first last r) x = true <-> lo r <= x < hi r /\ (x < first \/ last <= x).
Proof.
  intros Hlt. unfold pieces. destruct (apart first last r) eqn:Ha; unfold apart in Ha.
  - rewrite covered_one. apply orb_true_iff in Ha as [Ha|Ha]; bool_props; lia.
  - bool_props. destruct (Z.ltb_spec (lo r) first), (Z.ltb_spec last (hi r)); simpl app.
    + rewrite covered_In. split.
      * intros (s & [<-|[<-|[]]] & Hx); simpl in Hx; lia.
      * intros [Hx [Hf|Hl]]; [exists (mk_range (lo r) first)|exists (mk_range last (hi r))]; simpl; split; auto; lia.
    + rewrite covered_one. simpl. lia.
    + rewrite covered_one. simpl. lia.
    + split; [done|lia].
Qed.

Lemma covered_concat first last l x :
  first < last ->
  covered (concat (map (pieces first last) l)) x = true <-> covered l x = true /\ (x < first \/ last <= x).
Proof.
  intros Hlt. induction l as [|r l IH]; simpl; [split; [done|by intros [? _]]|].
  rewrite covered_app, orb_true_iff, IH, covered_pieces by done. unfold covered at 2. simpl. fold (covered l x).
  rewrite orb_true_iff. unfold inside. rewrite andb_true_iff, Z.leb_le, Z.ltb_lt. tauto.
Qed.

(** ** Pairs *)

Lemma pairs_perm {A} (R : A -> A -> Prop) l l' :
  (forall x y, R x y -> R y x) -> l ≡ₚ l' -> ForallOrdPairs R l -> ForallOrdPairs R l'.
Proof.
  intros Hsym. induction 1 as [|x l l' Hp IH|x y l|l l' l'' _ IH1 _ IH2]; intros H.
  - done.
  - inversion_clear H as [|? ? Hx Hl]. constructor; [|by apply IH]. by rewrite <- Hp.
  - inversion_clear H as [|? ? Hy Hl]. inversion_clear Hl as [|? ? Hx Hl']. inversion_clear Hy as [|? ? Hyx Hyl].
    constructor; [constructor; auto|]. by constructor.
  - auto.
Qed.

Lemma pairs_app {A} (R : A -> A -> Prop) l k :
  ForallOrdPairs R (l ++ k) <->
  ForallOrdPairs R l /\ ForallOrdPairs R k /\ forall x y, In x l -> In y k -> R x y.
Proof.
  induction l as [|z l IH]; simpl.
  { split; [intros H; split; [constructor|by split]|tauto]. }
  split.
  - inversion_clear 1 as [|? ? Hz Hl]. apply IH in Hl as (Hl & Hk & Hc). rewrite List.Forall_forall in Hz. split_and!.
    + constructor; [|done]. apply List.Forall_forall. intros x Hx. apply Hz. apply in_or_app. by left.
    + done.
    + intros x y [<-|Hx] Hy; [|by apply Hc]. apply Hz. apply in_or_app. by right.
  - intros (Hl & Hk & Hc). inversion_clear Hl as [|? ? Hz Hl']. constructor; [|apply IH; split_and!; auto].
    rewrite List.Forall_forall in *. intros x Hx. apply in_app_or in Hx as [Hx|Hx]; auto.
Qed.

Lemma disjoint_sym r s : disjoint_from r s -> disjoint_from s r.
Proof. unfold disjoint_from. tauto. Qed.

Lemma pieces_disjoint first last r : first < last -> ForallOrdPairs disjoint_from (pieces first last r).
Proof.
  intros Hlt. unfold pieces. destruct (apart first last r); [by repeat constructor|].
  destruct (lo r <? first), (last <? hi r); simpl; repeat constructor. unfold disjoint_from. simpl. lia.
Qed.

Lemma concat_In first last l s :
  In s (concat (map (pieces first last) l)) -> exists r, In r l /\ In s (pieces first last r).
Proof. intros Hs. apply in_concat in Hs as (k & Hk & Hs). apply in_map_iff in Hk as (r & <- & Hr). by exists r. Qed.

Lemma concat_disjoint first last l :
  first < last -> ForallOrdPairs disjoint_from l -> ForallOrdPairs disjoint_from (concat (map (pieces first last) l)).
Proof.
  intros Hlt. induction 1 as [|r l Hr Hl IH]; simpl; [constructor|]. apply pairs_app. split_and!; [by apply pieces_disjoint|done|].
  intros s t Hs Ht. apply concat_In in Ht as (r' & Hr' & Ht). rewrite List.Forall_forall in Hr. specialize (Hr _ Hr').
  apply pieces_In in Hs; [|done]. apply pieces_In in Ht; [|done]. unfold disjoint_from in *. lia.
Qed.

Lemma straddles_spec first last r : first < last -> straddles first last r = true <-> lo r < first /\ last < hi r.
Proof.
  intros Hlt. unfold straddles, apart. destruct (Z.leb_spec (hi r) first), (Z.leb_spec last (lo r)); simpl;
    rewrite ?andb_true_iff, ?Z.ltb_lt; lia.
Qed.

Lemma apart_spec first last r : apart first last r = true <-> hi r <= first \/ last <= lo r.
Proof. unfold apart. by rewrite orb_true_iff, !Z.leb_le. Qed.

(** A disjoint array holds at most one interval that contains [\[first, last)]
    strictly, and then no other touches it. *)
Lemma straddles_alone first last l :
  first < last -> ForallOrdPairs disjoint_from l -> countZ (straddles first last) l <> 0 ->
  forall r, In r l -> straddles first last r = true \/ apart first last r = true.
Proof.
  intros Hlt. induction 1 as [|r l Hr Hl IH]; [done|]. cbn [countZ]. rewrite List.Forall_forall in Hr.
  destruct (straddles first last r) eqn:Hs.
  - intros _ s [<-|Hin]; [by left|right]. apply straddles_spec in Hs; [|done]. apply apart_spec.
    specialize (Hr s Hin). unfold disjoint_from in Hr. lia.
  - intros Hc s [<-|Hin]; [right|apply IH; [lia|done]]. destruct (countZ_exists (straddles first last) l) as (i & t & Hi & Ht); [lia|].
    apply lookupZ_elem in Hi. apply straddles_spec in Ht; [|done]. apply apart_spec. specialize (Hr t Hi). unfold disjoint_from in Hr. lia.
Qed.

Lemma straddles_one first last l :
  first < last -> ForallOrdPairs disjoint_from l -> countZ (straddles first last) l <= 1.
Proof.
  intros Hlt. induction 1 as [|r l Hr Hl IH]; cbn [countZ]; [lia|]. destruct (straddles first last r) eqn:Hs; [|lia].
  rewrite countZ_none; [lia|]. intros s Hin. rewrite List.Forall_forall in Hr. specialize (Hr s Hin).
  destruct (straddles first last s) eqn:Hs'; [|done]. apply straddles_spec in Hs, Hs'; try done. unfold disjoint_from in Hr. lia.
Qed.

Lemma length_pieces first last l :
  first < last -> (forall r, In r l -> straddles first last r = true \/ apart first last r = true) ->
  lengthZ (concat (map (pieces first last) l)) = lengthZ l + countZ (straddles first last) l.
Proof.
  intros Hlt. induction l as [|r l IH]; intros Hall; simpl; [done|]. rewrite lengthZ_app, lengthZ_cons, IH by (intros; apply Hall; by right).
  destruct (Hall r (or_introl eq_refl)) as [Hr|Hr].
  - rewrite Hr. pose proof Hr as Hs. unfold straddles in Hs. apply andb_true_iff in Hs as [Hs Ht].
    apply andb_true_iff in Hs as [Ha Hh]. apply negb_true_iff in Ha. unfold pieces. rewrite Ha, Hh, Ht.
    unfold lengthZ. simpl. lia.
  - unfold pieces, straddles. rewrite Hr. simpl. unfold lengthZ. simpl. lia.
Qed.

(** ** The removal on a well-formed array *)

Lemma clear_raw_ok first last l :
  first < last -> ranges_ok l ->
  exists l' changed dropped, clear_raw first last l = Some (l', changed, dropped) /\ ranges_ok l' /\
    (forall x, covered l' x = true -> covered l x = true /\ (x < first \/ last <= x)) /\
    (dropped = false -> forall x, covered l x = true -> x < first \/ last <= x -> covered l' x = true) /\
    (dropped = true -> lengthZ l' = GNA_MAX) /\
    (forall P : Z -> Prop, P first -> P last -> Forall (fun r => P (lo r) /\ P (hi r)) l -> Forall (fun r => P (lo r) /\ P (hi r)) l') /\
    (changed = false -> l' ≡ₚ l).
Proof.
  intros Hlt [Hne Hd Hc]. destruct (clear_raw_spec first last l) as (l' & lost & -> & Hp & Hl & Hx & Hn).
  eexists l', _, _. split; [done|].
  assert (Hfrom : forall s, In s l' -> exists r, In r l /\ In s (pieces first last r)).
  { intros s Hs. apply concat_In. eapply Permutation_in; [exact Hp|]. apply in_or_app. by left. }
  split_and!.
  - constructor; [| |by apply Hl].
    + apply List.Forall_forall. intros s Hs. apply Hfrom in Hs as (r & Hr & Hs). rewrite List.Forall_forall in Hne.
      apply pieces_In in Hs; [|done]. by apply Hs, Hne.
    + assert (Hall : ForallOrdPairs disjoint_from (l' ++ lost)).
      { apply (pairs_perm _ (concat (map (pieces first last) l))); [apply disjoint_sym|by symmetry|by apply concat_disjoint]. }
      by apply pairs_app in Hall as (? & _).
  - intros x Hx'. apply covered_concat; [done|]. eapply covered_perm; [exact Hp|]. rewrite covered_app, Hx'. done.
  - intros Hlost. apply negb_false_iff, bool_decide_eq_true in Hlost. subst lost. rewrite app_nil_r in Hp.
    intros x Hcx Hxx. eapply covered_perm; [symmetry; exact Hp|]. by apply covered_concat.
  - intros Hlost. apply negb_true_iff, bool_decide_eq_false in Hlost. specialize (Hx Hlost).
    pose proof (straddles_one _ _ _ Hlt Hd). pose proof (countZ_bounds (straddles first last) l).
    assert (Hcount : countZ (straddles first last) l = 1) by lia.
    pose proof (length_pieces _ _ _ Hlt (straddles_alone _ _ _ Hlt Hd ltac:(lia))) as Hlen.
    apply Permutation_length in Hp. rewrite length_app in Hp. destruct lost; [done|]. specialize (Hl Hc).
    unfold lengthZ in *. simpl in *. lia.
  - intros P Pf Pl HP. apply List.Forall_forall. intros s Hs. apply Hfrom in Hs as (r & Hr & Hs).
    rewrite List.Forall_forall in HP. destruct (HP r Hr) as [P1 P2]. unfold pieces in Hs.
    destruct (apart first last r); [destruct Hs as [<-|[]]; done|].
    destruct (lo r <? first), (last <? hi r); simpl in Hs; repeat (destruct Hs as [<-|Hs]; [done|]); done.
  - intros Hch. assert (Hap : forall r, In r l -> apart first last r = true).
    { intros r Hr. destruct (apart first last r) eqn:Ha; [done|]. exfalso.
      assert (existsb (touched first last) l = true); [|congruence]. apply existsb_exists. exists r. unfold touched. by rewrite Ha. }
    assert (Hpieces : concat (map (pieces first last) l) = l).
    { clear -Hap. induction l as [|r l IH]; simpl; [done|]. unfold pieces at 1. rewrite Hap by by left. simpl.
      f_equal. apply IH. intros s Hs. apply Hap. by right. }
    rewrite Hpieces in Hp. assert (Hs0 : countZ (straddles first last) l = 0).
    { apply countZ_none. intros r Hr. unfold straddles. by rewrite Hap. }
    pose proof (lengthZ_nonneg lost). assert (lost = []) as -> by (apply length_zero_iff_nil; unfold lengthZ in *; lia).
    by rewrite app_nil_r in Hp.
Qed.

(** ** Interval registries: merging, adding and querying

    Merging keeps the union and leaves no two intervals that overlap or abut;
    adding is the union unless the array is full; the scans answer by the set
    the array stands for, so two arrays of the same set answer alike. *)

(** ** Merging *)

Definition separate_bounds (first last : Z) (r : range) : Prop := hi r < first \/ last < lo r.

Lemma absorb_pass_spec fuel : forall done_ todo first last grew,
  (length todo < fuel)%nat -> first < last -> Forall nonempty todo ->
  exists first' last' kept gone g,
    absorb_pass fuel first last (lengthZ done_) (done_ ++ todo) grew = Some (first', last', done_ ++ kept, grew || g) /\
    kept ++ gone ≡ₚ todo /\ first' <= first /\ last <= last' /\
    (forall x, first' <= x < last' <-> first <= x < last \/ covered gone x = true) /\
    (g = false -> first' = first /\ last' = last /\ Forall (separate_bounds first last) kept) /\
    (g = true -> gone <> []).
Proof.
  induction fuel as [|fuel IH]; intros done_ todo first last grew Hf Hlt Hne; [lia|]. simpl. destruct todo as [|r todo].
  { rewrite app_nil_r. destruct (lookupZ done_ (lengthZ done_)) eqn:Hl.
    { apply lookupZ_Some_range in Hl. lia. }
    exists first, last, [], [], false. rewrite app_nil_r, orb_false_r. split_and!; try done; try lia.
    intros x. simpl. split; [auto|intros [|]; done]. }
  inversion_clear Hne as [|? ? Hr Hne']. unfold nonempty in Hr. rewrite lookupZ_middle.
  destruct ((hi r <? first) || (last <? lo r)) eqn:Hsep.
  - destruct (IH (done_ ++ [r]) todo first last grew) as (f' & l' & kept & gone & g & He & Hp & Hf' & Hl' & Hu & Hg & Hg'); [simpl in Hf; lia|done|done|].
    rewrite lengthZ_app in He. change (lengthZ [r]) with 1 in He. rewrite <- !app_assoc in He. simpl in He.
    exists f', l', (r :: kept), gone, g. split; [done|]. split_and!; try done; [simpl; by rewrite Hp|].
    intros Hgf. destruct (Hg Hgf) as (-> & -> & Hall). split_and!; [done|done|]. constructor; [|done].
    unfold separate_bounds. apply orb_true_iff in Hsep as [Hs|Hs]; bool_props; lia.
  - bool_props. destruct (swap_out_middle done_ r todo) as (k & -> & Hk). pose proof (Permutation_length Hk) as Hkl.
    set (f1 := if lo r <? first then lo r else first). set (l1 := if last <? hi r then hi r else last).
    assert (Hu1 : forall x, f1 <= x < l1 <-> first <= x < last \/ lo r <= x < hi r).
    { intros x. unfold f1, l1. destruct (Z.ltb_spec (lo r) first), (Z.ltb_spec last (hi r)); lia. }
    assert (Hb1 : f1 <= first /\ last <= l1).
    { unfold f1, l1. destruct (Z.ltb_spec (lo r) first), (Z.ltb_spec last (hi r)); lia. }
    destruct (IH done_ k f1 l1 (grew || (lo r <? first) || (last <? hi r)))
      as (f' & l' & kept & gone & g & He & Hp & Hf' & Hl' & Hu & Hg & Hg'); [simpl in Hf; lia|lia|by rewrite Hk|].
    exists f', l', kept, (r :: gone), ((lo r <? first) || (last <? hi r) || g). rewrite He, !orb_assoc. split; [done|].
    split_and!; [|lia|lia| | |done].
    + rewrite <- Permutation_middle, Hp, Hk. done.
    + intros x. rewrite Hu, Hu1. unfold covered at 2. simpl. fold (covered gone x). rewrite orb_true_iff. unfold inside.
      rewrite andb_true_iff, Z.leb_le, Z.ltb_lt. tauto.
    + intros Hgf. apply orb_false_iff in Hgf as [Hb Hgf]. apply orb_false_iff in Hb as [Hb1' Hb2'].
      destruct (Hg Hgf) as (-> & -> & Hall). unfold f1, l1 in *. by rewrite Hb1', Hb2' in *.
Qed.

Lemma absorb_passes_spec passes : forall first last l,
  (length l <= passes)%nat -> first < last -> Forall nonempty l ->
  exists first' last' kept gone,
    absorb_passes passes first last l = Some (first', last', kept) /\
    kept ++ gone ≡ₚ l /\ first' <= first /\ last <= last' /\
    (forall x, first' <= x < last' <-> first <= x < last \/ covered gone x = true) /\
    Forall (separate_bounds first' last') kept.
Proof.
  induction passes as [|passes IH]; intros first last l Hl Hlt Hne; cbn [absorb_passes].
  { destruct l; [|simpl in Hl; lia]. exists first, last, [], []. split_and!; try done. intros x. split; [auto|by intros [|]]. }
  destruct (absorb_pass_spec (S (length l)) [] l first last false) as (f1 & l1 & kept & gone & g & He & Hp & Hf & Hb & Hu & Hg & Hg'); [lia|done|done|].
  change (lengthZ []) with 0 in He. simpl app in He. rewrite He. cbn [mbind option_bind orb].
  pose proof (Permutation_length Hp) as Hlen. rewrite length_app in Hlen.
  assert (Hkept : Forall nonempty kept) by (rewrite <- Hp in Hne; by apply Forall_app in Hne as [? _]).
  destruct g.
  - specialize (Hg' eq_refl). destruct gone as [|r gone]; [done|]. simpl in Hlen.
    destruct (IH f1 l1 kept) as (f2 & l2 & kept2 & gone2 & -> & Hp2 & Hf2 & Hb2 & Hu2 & Hs2); [lia|lia|done|].
    exists f2, l2, kept2, (gone2 ++ r :: gone). split; [done|]. split_and!; [|lia|lia| |done].
    + by rewrite app_assoc, Hp2.
    + intros x. rewrite Hu2, Hu, covered_app, orb_true_iff. tauto.
  - destruct (Hg eq_refl) as (-> & -> & Hall). by exists first, last, kept, gone.
Qed.

(** ** Adding *)

(** No two intervals overlap or abut. *)
Definition merged (l : list range) : Prop := ForallOrdPairs separate_from l.

Lemma merged_disjoint l : Forall nonempty l -> merged l -> ForallOrdPairs disjoint_from l.
Proof.
  intros Hne. unfold merged. induction 1 as [|r l Hr Hl IH]; constructor.
  - rewrite List.Forall_forall in *. intros s Hs. specialize (Hr s Hs). unfold separate_from, disjoint_from in *. lia.
  - apply IH. by inversion Hne.
Qed.

Lemma range_add_spec coalesce first last l :
  ranges_ok l ->
  exists l' dropped, range_add coalesce first last l = Some (l', dropped) /\ ranges_ok l' /\
    (dropped = false -> forall x, covered l' x = true <-> covered l x = true \/ first <= x < last) /\
    (forall x, covered l' x = true -> covered l x = true \/ first <= x < last) /\
    (dropped = true -> lengthZ l' = GNA_MAX) /\
    (coalesce = true -> merged l -> merged l').
Proof.
  intros Hok. unfold range_add. destruct (Z.leb_spec last first) as [Hle|Hlt].
  { exists l, false. split_and!; try done; try tauto. intros _ x. split; [auto|]. intros [|]; [done|lia]. }
  destruct coalesce.
  - destruct (absorb_passes_spec (Z.to_nat GNA_MAX) first last l) as (f & b & kept & gone & He & Hp & Hf & Hb & Hu & Hs).
    { pose proof (rk_count _ Hok). unfold lengthZ in *. lia. }
    { done. }
    { apply (rk_nonempty _ Hok). }
    unfold absorb_adjacent. rewrite He. cbn [mbind option_bind].
    assert (Hcov : forall x, covered l x = true <-> covered kept x = true \/ covered gone x = true).
    { intros x. rewrite <- orb_true_iff, <- covered_app. split; apply covered_perm; [by symmetry|done]. }
    assert (Hkept : Forall nonempty kept).
    { pose proof (rk_nonempty _ Hok) as Hne. rewrite <- Hp in Hne. by apply Forall_app in Hne as [? _]. }
    assert (Hlen : lengthZ kept <= GNA_MAX).
    { pose proof (rk_count _ Hok). apply Permutation_length in Hp. rewrite length_app in Hp. unfold lengthZ in *. lia. }
    assert (Hmk : merged l -> merged kept).
    { intros Hm. apply (pairs_perm _ _ (kept ++ gone)) in Hm; [by apply pairs_app in Hm as (? & _)| |by symmetry].
      unfold separate_from. tauto. }
    assert (Hdk : ForallOrdPairs disjoint_from kept).
    { pose proof (rk_disjoint _ Hok) as Hd. apply (pairs_perm _ _ (kept ++ gone)) in Hd; [by apply pairs_app in Hd as (? & _)|apply disjoint_sym|by symmetry]. }
    destruct (Z.ltb_spec (lengthZ kept) GNA_MAX) as [Hroom|Hfull].
    + exists (kept ++ [mk_range f b]), false. split; [done|].
      assert (Hcov' : forall x, covered (kept ++ [mk_range f b]) x = true <-> covered l x = true \/ first <= x < last).
      { intros x. rewrite covered_app, orb_true_iff, covered_one, Hcov. simpl. rewrite Hu. tauto. }
      split_and!; try done; try (intros; by apply Hcov').
      * constructor.
        -- apply Forall_app. split; [done|]. constructor; [|done]. unfold nonempty. simpl. lia.
        -- apply pairs_app. split_and!; [done|by repeat constructor|]. intros r s Hr [<-|[]]. rewrite List.Forall_forall in Hs.
           specialize (Hs r Hr). unfold separate_bounds, disjoint_from in *. simpl. lia.
        -- rewrite lengthZ_app. change (lengthZ [_]) with 1. lia.
      * intros _ Hm. apply pairs_app. split_and!; [by apply Hmk|by repeat constructor|]. intros r s Hr [<-|[]].
        rewrite List.Forall_forall in Hs. specialize (Hs r Hr). unfold separate_bounds, separate_from in *. simpl. lia.
    + exists kept, true. split; [done|]. split_and!; try done.
      * intros x Hx. left. apply Hcov. by left.
      * intros _. lia.
  - destruct (clear_raw_ok first last l Hlt Hok) as (l1 & ch & dr & He & Hok1 & Hsub & Hsup & Hfull & _).
    rewrite He. cbn [mbind option_bind]. destruct (Z.ltb_spec (lengthZ l1) GNA_MAX) as [Hroom|Hmax].
    + exists (l1 ++ [mk_range first last]), false. split; [done|].
      assert (dr = false) as -> by (destruct dr; [specialize (Hfull eq_refl); lia|done]).
      assert (Hcov' : forall x, covered (l1 ++ [mk_range first last]) x = true <-> covered l x = true \/ first <= x < last).
      { intros x. rewrite covered_app, orb_true_iff, covered_one. simpl. split.
        - intros [Hx|Hx]; [left; by apply Hsub|auto].
        - intros [Hx|Hx]; [|auto]. destruct (Z.lt_ge_cases x first), (Z.lt_ge_cases x last); auto; left; apply Hsup; auto; lia. }
      split_and!; try done; try (intros; by apply Hcov').
      constructor.
      * apply Forall_app. split; [apply (rk_nonempty _ Hok1)|]. by constructor.
      * apply pairs_app. split_and!; [apply (rk_disjoint _ Hok1)|by repeat constructor|]. intros r s Hr [<-|[]].
        assert (Hin : forall x, lo r <= x < hi r -> x < first \/ last <= x).
        { intros x Hx. apply (Hsub x). apply covered_In. by exists r. }
        pose proof (rk_nonempty _ Hok1) as Hne. rewrite List.Forall_forall in Hne. specialize (Hne r Hr). unfold nonempty in Hne.
        pose proof (Hin (lo r) ltac:(lia)). pose proof (Hin (hi r - 1) ltac:(lia)). unfold disjoint_from. simpl.
        destruct (Z.lt_ge_cases (lo r) first); [|lia]. destruct (Z.le_gt_cases (hi r) first); [lia|].
        specialize (Hin first). lia.
      * rewrite lengthZ_app. change (lengthZ [_]) with 1. lia.
    + exists l1, true. split; [done|]. split_and!; try done.
      * intros x Hx. left. by apply Hsub.
      * intros _. pose proof (rk_count _ Hok1). lia.
Qed.

(** ** Querying *)

Lemma range_hit_spec first last l :
  Forall nonempty l -> first < last ->
  range_hit first last l = true <-> exists x, first <= x < last /\ covered l x = true.
Proof.
  intros Hne Hlt. unfold range_hit. rewrite existsb_exists, List.Forall_forall in *. split.
  - intros (r & Hr & Hb). bool_props. specialize (Hne r Hr). unfold nonempty in Hne. exists (Z.max first (lo r)).
    split; [lia|]. apply covered_In. exists r. split; [done|lia].
  - intros (x & Hx & Hc). apply covered_In in Hc as (r & Hr & Hrx). exists r. split; [done|].
    apply andb_true_iff. rewrite !Z.ltb_lt. lia.
Qed.

Lemma prefix_scan_spec first l : forall last,
  Forall nonempty l -> first <= last ->
  let p := prefix_scan first last l in
  first <= p <= last /\ (forall x, first <= x < p -> covered l x = false) /\ (p < last -> covered l p = true).
Proof.
  induction l as [|r l IH]; intros last Hne Hlt; simpl; [split_and!; [lia|lia|done|lia]|].
  inversion_clear Hne as [|? ? Hr Hne']. unfold nonempty in Hr.
  set (last' := if _ && _ then _ else last).
  assert (Hl' : first <= last' <= last /\ (forall x, first <= x < last' -> inside x r = false) /\ (last' < last -> inside last' r = true)).
  { unfold last', inside. destruct (Z.ltb_spec first (hi r)), (Z.ltb_spec (lo r) last); cbn [andb];
      try (split; [lia|split; [intros x Hx; apply andb_false_iff; rewrite Z.leb_gt, Z.ltb_ge; lia|lia]]).
    destruct (Z.ltb_spec first (lo r)).
    - destruct (Z.ltb_spec (lo r - first) (last - first)); [|lia].
      split; [lia|split; [intros x Hx; apply andb_false_iff; rewrite Z.leb_gt, Z.ltb_ge; lia|]].
      intros _. apply andb_true_iff. rewrite Z.leb_le, Z.ltb_lt. lia.
    - destruct (Z.ltb_spec (first - first) (last - first)).
      + split; [lia|split; [lia|]]. intros _. apply andb_true_iff. rewrite Z.leb_le, Z.ltb_lt. lia.
      + split; [lia|split; [lia|lia]]. }
  destruct Hl' as (Hb & Hin & Hend). destruct (IH last' Hne' ltac:(lia)) as (Hp & Hc & He). split; [lia|].
  unfold covered. simpl. split.
  - intros x Hx. apply orb_false_iff. split; [apply Hin; lia|]. by apply Hc.
  - intros Hpl. apply orb_true_iff. destruct (Z.lt_ge_cases (prefix_scan first last' l) last') as [H|H]; [right; by apply He|].
    left. replace (prefix_scan first last' l) with last' in * by lia. by apply Hend.
Qed.

(** Arrays of the same set give the same answers. *)
Lemma same_set_hit l l' first last :
  Forall nonempty l -> Forall nonempty l' -> (forall x, covered l x = covered l' x) -> first < last ->
  range_hit first last l = range_hit first last l'.
Proof.
  intros Hl Hl' Hs Hlt. apply eq_true_iff_eq. rewrite !range_hit_spec by done. split; intros (x & Hx & Hc); exists x.
  - by rewrite <- Hs.
  - by rewrite Hs.
Qed.

Lemma same_set_prefix l l' first last :
  Forall nonempty l -> Forall nonempty l' -> (forall x, covered l x = covered l' x) -> first <= last ->
  prefix_scan first last l = prefix_scan first last l'.
Proof.
  intros Hl Hl' Hs Hle. destruct (prefix_scan_spec first l last Hl Hle) as (H1 & H2 & H3).
  destruct (prefix_scan_spec first l' last Hl' Hle) as (H4 & H5 & H6).
  destruct (Z.lt_trichotomy (prefix_scan first last l) (prefix_scan first last l')) as [H|[H|H]]; [|done|].
  - rewrite Hs in H3. rewrite H5 in H3; [|lia]. by specialize (H3 ltac:(lia)).
  - rewrite <- Hs in H6. rewrite H2 in H6; [|lia]. by specialize (H6 ltac:(lia)).
Qed.
