(* ===== verification/GuestRanges.v ===== *)
(** * Guest protection registries

    The PROT_NONE ([gna]), read-only ([gro]) and non-executable ([gnx])
    registries of [thread/bus_ranges.c] with the per-thread caches in front of
    them, and the fold of a displaced image from [thread/futex_mapping.c] and
    [bridge/address_projection.h].

    Calls do not overlap here: a reader finds the generation even, or odd for
    all of its attempts.  [coalesce] and [page_cache] are the options
    [HL_X86_BUS_RANGE_COALESCE] and [HL_X86_GNA_PAGE_CACHE]. *)

From S2P Require Import Prelude RangeLedger.

Definition GNA_NEGATIVE_N : Z := 1024.
Definition GNA_CLEAN_N : Z := 1024.
Definition GNA_CLEAN_PUBLISH_MAX : nat := 8.
Definition GUEST_EXEC_PAGE_CACHE_N : Z := 64.

(** ** The coordinates of a displaced image *)

Record projection := mk_projection {
  g_nonpie_lo : Z;
  g_nonpie_hi : Z;
  g_nonpie_bias : Z
}.

Definition storage_unchecked (p : projection) (guest : Z) : Z :=
  if (g_nonpie_lo p <=? guest) && (guest <? g_nonpie_hi p) then u64 (guest + g_nonpie_bias p) else guest.

Definition guest_unchecked (p : projection) (storage : Z) : Z :=
  let first := u64 (g_nonpie_lo p + g_nonpie_bias p) in
  let last := u64 (g_nonpie_hi p + g_nonpie_bias p) in
  if (first <=? storage) && (storage <? last) then u64 (storage - g_nonpie_bias p) else storage.

Definition fold (p : projection) (guest : Z) : Z :=
  if g_nonpie_lo p =? 0 then guest else storage_unchecked p guest.

Definition nonpie_unfold (p : projection) (storage : Z) : Z :=
  if g_nonpie_lo p =? 0 then storage else guest_unchecked p storage.

(** ** State *)

(** An array under its seqlock. *)
Record registry := mk_registry {
  ranges : list range;
  generation : Z
}.

Record registries := mk_registries {
  g_gna : registry;
  g_gna_filter_first : Z;
  g_gna_filter_last : Z;
  g_gro : registry;
  g_gnx : registry;
  image : projection
}.

(** [g_exec_page] and the entries of [g_exec_pages]. *)
Record guest_exec_page := mk_exec_page {
  ep_generation : Z;
  ep_first : Z;
  ep_last : Z
}.

(** The caches of a thread: a slot of the first two is a page and a generation. *)
Record thread_caches := mk_caches {
  g_gna_negative : list (Z * Z);
  g_gna_clean : list (Z * Z);
  g_exec_page : guest_exec_page;
  g_exec_pages : list guest_exec_page
}.

Definition registry_init : registry := mk_registry [] 2.
Definition registries_init (p : projection) : registries :=
  mk_registries registry_init UINT64_MAX 0 registry_init registry_init p.
Definition caches_init : thread_caches :=
  mk_caches (replicate (Z.to_nat GNA_NEGATIVE_N) (0, 0)) (replicate (Z.to_nat GNA_CLEAN_N) (0, 0)) (mk_exec_page 0 0 0)
    (replicate (Z.to_nat GUEST_EXEC_PAGE_CACHE_N) (mk_exec_page 0 0 0)).

Definition set_gna (g : registry) (R : registries) : registries :=
  mk_registries g (g_gna_filter_first R) (g_gna_filter_last R) (g_gro R) (g_gnx R) (image R).
Definition set_filter (first last : Z) (R : registries) : registries :=
  mk_registries (g_gna R) first last (g_gro R) (g_gnx R) (image R).
Definition set_gro (g : registry) (R : registries) : registries :=
  mk_registries (g_gna R) (g_gna_filter_first R) (g_gna_filter_last R) g (g_gnx R) (image R).
Definition set_gnx (g : registry) (R : registries) : registries :=
  mk_registries (g_gna R) (g_gna_filter_first R) (g_gna_filter_last R) (g_gro R) g (image R).
Definition set_negative (l : list (Z * Z)) (C : thread_caches) : thread_caches :=
  mk_caches l (g_gna_clean C) (g_exec_page C) (g_exec_pages C).
Definition set_clean (l : list (Z * Z)) (C : thread_caches) : thread_caches :=
  mk_caches (g_gna_negative C) l (g_exec_page C) (g_exec_pages C).
Definition set_exec (page : guest_exec_page) (pages : list guest_exec_page) (C : thread_caches) : thread_caches :=
  mk_caches (g_gna_negative C) (g_gna_clean C) page pages.

(** The array changed between the two steps of the generation. *)
Definition published (l : list range) (g : registry) : registry := mk_registry l (u64 (u64 (generation g + 1) + 1)).

(** ** Writers *)

Definition gna_clear_raw (first last : Z) (l : list range) : option (list range) :=
  '(l, _, _) ← clear_raw first last l; Some l.

Definition gna_add (coalesce : bool) (first last : Z) (R : registries) : option registries :=
  if last <=? first then Some R
  else
    '(first, last, l) ←
      (if coalesce then absorb_adjacent first last (ranges (g_gna R))
       else l ← gna_clear_raw first last (ranges (g_gna R)); Some (first, last, l));
    Some (if lengthZ l <? GNA_MAX
          then set_filter (Z.min first (g_gna_filter_first R)) (Z.max last (g_gna_filter_last R))
                 (set_gna (published (l ++ [mk_range first last]) (g_gna R)) R)
          else set_gna (published l (g_gna R)) R).

Definition gna_filter (R : registries) (first last : Z) : Z * Z :=
  (Z.min first (g_gna_filter_first R), Z.max last (g_gna_filter_last R)).

Definition gna_clear (first last : Z) (R : registries) : option registries :=
  if last <=? first then Some R
  else l ← gna_clear_raw first last (ranges (g_gna R)); Some (set_gna (published l (g_gna R)) R).

Definition gro_clear_raw (first last : Z) (l : list range) : option (list range) :=
  '(l, _, _) ← clear_raw first last l; Some l.

Definition gro_add (coalesce : bool) (first last : Z) (R : registries) : option registries :=
  if last <=? first then Some R
  else
    '(first, last, l) ←
      (if coalesce then absorb_adjacent first last (ranges (g_gro R))
       else l ← gro_clear_raw first last (ranges (g_gro R)); Some (first, last, l));
    Some (set_gro (published (if lengthZ l <? GNA_MAX then l ++ [mk_range first last] else l) (g_gro R)) R).

Definition gro_clear (first last : Z) (R : registries) : option registries :=
  if last <=? first then Some R
  else l ← gro_clear_raw first last (ranges (g_gro R)); Some (set_gro (published l (g_gro R)) R).

Definition gnx_clear_raw (first last : Z) (l : list range) : option (list range) :=
  '(l, _, _) ← clear_raw first last l; Some l.

Definition gnx_add (coalesce : bool) (first last : Z) (R : registries) : option registries :=
  if last <=? first then Some R
  else
    '(first, last, l) ←
      (if coalesce then absorb_adjacent first last (ranges (g_gnx R))
       else l ← gnx_clear_raw first last (ranges (g_gnx R)); Some (first, last, l));
    Some (set_gnx (published (if lengthZ l <? GNA_MAX then l ++ [mk_range first last] else l) (g_gnx R)) R).

Definition gnx_clear (first last : Z) (R : registries) : option registries :=
  if last <=? first then Some R
  else l ← gnx_clear_raw first last (ranges (g_gnx R)); Some (set_gnx (published l (g_gnx R)) R).

Definition gnx_reset (R : registries) : registries := set_gnx (published [] (g_gnx R)) R.

(** The registries' part of [gna_reset]: the read-only array is emptied without
    a step of its generation. *)
Definition gna_reset (R : registries) : registries :=
  gnx_reset (set_gro (mk_registry [] (generation (g_gro R)))
               (set_filter UINT64_MAX 0 (set_gna (published [] (g_gna R)) R))).

(** ** Readers *)

Definition page_number (a : Z) : Z := Z.shiftr a 12.
Definition page_base (a : Z) : Z := Z.land a (UINT64_MAX - 4095).
Definition settled (g : registry) : bool := negb (Z.odd (generation g)).
Definition slot_is (slots : list (Z * Z)) (slot page generation_ : Z) : bool :=
  match lookupZ slots slot with
  | Some (p, g) => (g =? generation_) && (p =? page)
  | None => false
  end.

Definition gna_negative_slot (page : Z) : Z := Z.land (u32 (page * 2654435761)) (GNA_NEGATIVE_N - 1).

Definition gna_hit (a len : Z) (R : registries) (C : thread_caches) : bool * thread_caches :=
  if (len =? 0) || (lengthZ (ranges (g_gna R)) =? 0) then (false, C)
  else
    let a := nonpie_unfold (image R) a in
    let end_ := u64 (a + len) in
    let first_page := page_number a in
    let last_page := page_number (u64 (end_ - 1)) in
    let slot := gna_negative_slot first_page in
    let g := generation (g_gna R) in
    if negb (settled (g_gna R)) then (true, C)
    else if (first_page =? last_page) && slot_is (g_gna_negative C) slot first_page g then (false, C)
    else
      let hit := range_hit a end_ (ranges (g_gna R)) in
      (hit, if negb hit && (first_page =? last_page)
            then set_negative (insertZ (g_gna_negative C) slot (first_page, g)) C else C).

(** The pages from [page] below [end_]. *)
Fixpoint gna_all_loop (fuel : nat) (page end_ : Z) (R : registries) (C : thread_caches) : bool * thread_caches :=
  match fuel with
  | O => (true, C)
  | S fuel =>
      if page <? end_ then
        let '(hit, C) := gna_hit page 1 R C in
        if negb hit then (false, C) else gna_all_loop fuel (u64 (page + 4096)) end_ R C
      else (true, C)
  end.

Definition gna_all (a len : Z) (R : registries) (C : thread_caches) : bool * thread_caches :=
  if (len =? 0) || (lengthZ (ranges (g_gna R)) =? 0) then (false, C)
  else
    let end_ := u64 (a + len) in
    gna_all_loop (S (Z.to_nat ((end_ - page_base a) / 4096 + 1))) (page_base a) end_ R C.

Definition gna_clean_slot (page : Z) : Z := Z.land (u32 (page_number page * 2654435761)) (GNA_CLEAN_N - 1).

Fixpoint gna_publish_loop (n : nat) (page end_ generation_ : Z) (slots : list (Z * Z)) : list (Z * Z) :=
  match n with
  | O => slots
  | S n =>
      if (UINT64_MAX - 4096 <? page) || (end_ <? page + 4096) then slots
      else
        gna_publish_loop n (page + 4096) end_ generation_
          (insertZ slots (gna_clean_slot page) (page, generation_))
  end.

Definition gna_clean_publish (a len generation_ : Z) (C : thread_caches) : thread_caches :=
  let end_ := u64 (a + len) in
  let page := page_base (u64 (a + 4095)) in
  if (end_ <? a) || (page <? a) then C
  else set_clean (gna_publish_loop GNA_CLEAN_PUBLISH_MAX page end_ generation_ (g_gna_clean C)) C.

Definition gna_prefix_full (a len : Z) (R : registries) : Z :=
  if negb (settled (g_gna R)) then 0 else prefix_scan a (u64 (a + len)) (ranges (g_gna R)) - a.

Definition gna_prefix_cached (a len : Z) (R : registries) (C : thread_caches) : Z * thread_caches :=
  let page := page_base a in
  let single_page :=
    (a <? u64 (a + len)) && (page <=? UINT64_MAX - 4096) && (page_base (u64 (u64 (a + len) - 1)) =? page) in
  let page_end := page + 4096 in
  let slot := if single_page then gna_clean_slot page else 0 in
  let g := generation (g_gna R) in
  if negb (settled (g_gna R)) then (0, C)
  else if single_page && slot_is (g_gna_clean C) slot page g then (len, C)
  else
    let end_ := prefix_scan a (u64 (a + len)) (ranges (g_gna R)) in
    let page_clean := single_page && negb (range_hit page page_end (ranges (g_gna R))) in
    (end_ - a,
     if single_page then
       if page_clean then set_clean (insertZ (g_gna_clean C) slot (page, g)) C else C
     else if end_ - a =? len then gna_clean_publish a len g C else C).

Definition gna_prefix (page_cache : bool) (a len : Z) (R : registries) (C : thread_caches) : Z * thread_caches :=
  if (len =? 0) || (lengthZ (ranges (g_gna R)) =? 0) then (len, C)
  else
    let a := nonpie_unfold (image R) a in
    if page_cache then gna_prefix_cached a len R C else (gna_prefix_full a len R, C).

Definition gro_hit (a len : Z) (R : registries) : bool :=
  if (len =? 0) || (lengthZ (ranges (g_gro R)) =? 0) then false
  else
    let a := nonpie_unfold (image R) a in
    if negb (settled (g_gro R)) then true else range_hit a (u64 (a + len)) (ranges (g_gro R)).

Definition gro_prefix (a len : Z) (R : registries) : Z :=
  if (len =? 0) || (lengthZ (ranges (g_gro R)) =? 0) then len
  else
    let a := nonpie_unfold (image R) a in
    if negb (settled (g_gro R)) then 0 else prefix_scan a (u64 (a + len)) (ranges (g_gro R)) - a.

Definition gnx_hit (a len : Z) (R : registries) : bool :=
  if (len =? 0) || (lengthZ (ranges (g_gnx R)) =? 0) then false
  else
    let a := nonpie_unfold (image R) a in
    let end_ := u64 (a + len) in
    if end_ <? a then true
    else if negb (settled (g_gnx R)) then true else range_hit a end_ (ranges (g_gnx R)).

Definition exec_page_answers (generation_ guest end_ : Z) (p : guest_exec_page) : bool :=
  (ep_generation p =? generation_) && (ep_first p <=? guest) && (end_ <=? ep_last p).

Definition guest_exec_direct_valid (guest length : Z) (R : registries) (C : thread_caches) : bool * thread_caches :=
  if length =? 0 then (true, C)
  else if UINT64_MAX - length <? guest then (false, C)
  else
    let g := generation (g_gnx R) in
    let end_ := guest + length in
    let first := page_base guest in
    let slot := Z.land (page_number first) (GUEST_EXEC_PAGE_CACHE_N - 1) in
    let cached := default (mk_exec_page 0 0 0) (lookupZ (g_exec_pages C) slot) in
    if settled (g_gnx R) && exec_page_answers g guest end_ cached then (true, C)
    else if settled (g_gnx R) && exec_page_answers g guest end_ (g_exec_page C) then (true, C)
    else if (first <=? UINT64_MAX - 4096) && negb (gnx_hit first 4096 R) && settled (g_gnx R) then
      let page := mk_exec_page g first (first + 4096) in
      (true, set_exec page (insertZ (g_exec_pages C) slot page) C)
    else (negb (gnx_hit guest length R), C).

(** ** Pages *)

Lemma page_base_eq a : 0 <= a < 2 ^ 64 -> page_base a = 4096 * (a / 4096).
Proof.
  intros Ha. unfold page_base. change (UINT64_MAX - 4095) with (Z.shiftl (Z.ones 52) 12).
  rewrite Z.mul_comm. change 4096 with (2 ^ 12). rewrite <- Z.shiftl_mul_pow2, <- Z.shiftr_div_pow2 by lia.
  apply Z.bits_inj'. intros i Hi. rewrite Z.land_spec. destruct (Z.lt_ge_cases i 12).
  - rewrite !Z.shiftl_spec_low by done. apply andb_false_r.
  - rewrite !Z.shiftl_spec, Z.shiftr_spec by lia. replace (i - 12 + 12) with i by lia.
    destruct (Z.lt_ge_cases (i - 12) 52).
    + rewrite Z.ones_spec_low by lia. apply andb_true_r.
    + rewrite Z.ones_spec_high, andb_false_r by lia. symmetry. rewrite <- (Z.mod_small a (2 ^ 64)) by lia.
      apply Z.mod_pow2_bits_high. lia.
Qed.
