(* ===== verification/GuestRangesSteps.v ===== *)
(** * Guest protection registries: writers against sets

    A registry stands for a set of addresses.  While the array has room, adding
    is the union and removing the difference, merged or not; an array without
    room loses addresses and never invents one. *)

From S2P Require Import Prelude RangeLedger RangeProofs GuestRanges.

(** ** Stages of an addition *)

Lemma length_pieces_le first last l :
  lengthZ (concat (map (pieces first last) l)) <= lengthZ l + countZ (straddles first last) l.
Proof.
  induction l as [|r l IH]; simpl; [unfold lengthZ; simpl; lia|]. rewrite lengthZ_app, lengthZ_cons.
  enough (lengthZ (pieces first last r) <= 1 + if straddles first last r then 1 else 0) by lia.
  unfold pieces, straddles. destruct (apart first last r), (lo r <? first), (last <? hi r); unfold lengthZ; simpl; lia.
Qed.

Lemma clear_raw_grows first last l l' ch dr :
  first < last -> ranges_ok l -> clear_raw first last l = Some (l', ch, dr) -> lengthZ l' <= lengthZ l + 1.
Proof.
  intros Hlt Hok He. destruct (clear_raw_spec first last l) as (l1 & lost & He1 & Hp & _). rewrite He in He1. injection He1 as <- _ _.
  pose proof (length_pieces_le first last l). pose proof (straddles_one _ _ _ Hlt (rk_disjoint _ Hok)).
  apply Permutation_length in Hp. rewrite length_app in Hp. unfold lengthZ in *. lia.
Qed.

Lemma clear_raw_keeps first last l :
  first < last -> ranges_ok l -> lengthZ l < GNA_MAX ->
  exists l' ch, clear_raw first last l = Some (l', ch, false) /\ ranges_ok l' /\
    forall x, covered l' x = true <-> covered l x = true /\ (x < first \/ last <= x).
Proof.
  intros Hlt Hok Hroom. destruct (clear_raw_ok first last l Hlt Hok) as (l' & ch & dr & He & Hok' & Hsub & Hsup & Hfull & _).
  exists l', ch. assert (dr = false) as ->.
  { destruct dr; [|done]. exfalso. destruct (clear_raw_spec first last l) as (l1 & lost & He1 & _ & _ & Hx & _).
    rewrite He in He1. injection He1 as <- _ Hd. destruct lost; [done|]. specialize (Hx ltac:(done)).
    pose proof (straddles_one _ _ _ Hlt (rk_disjoint _ Hok)). lia. }
  split_and!; [done|done|]. intros x. split; [apply Hsub|]. intros [? ?]. by apply Hsup.
Qed.

Lemma add_keeps c first last l :
  ranges_ok l -> lengthZ l < GNA_MAX - 1 ->
  exists l', range_add c first last l = Some (l', false) /\ ranges_ok l' /\
    forall x, covered l' x = true <-> covered l x = true \/ first <= x < last.
Proof.
  intros Hok Hroom. destruct (range_add_spec c first last l Hok) as (l' & d & He & Hok' & Hex & _).
  assert (d = false) as ->.
  { destruct d; [|done]. exfalso. unfold range_add in He. destruct (Z.leb_spec last first) as [|Hlt]; [done|]. destruct c.
    - destruct (absorb_passes_spec (Z.to_nat GNA_MAX) first last l) as (f & b & kept & gone & Ha & Hp & _).
      { pose proof (rk_count _ Hok). unfold lengthZ in *. lia. }
      { done. }
      { apply (rk_nonempty _ Hok). }
      unfold absorb_adjacent in He. rewrite Ha in He. cbn [mbind option_bind] in He. apply Permutation_length in Hp.
      rewrite length_app in Hp. destruct (Z.ltb_spec (lengthZ kept) GNA_MAX); [done|]. unfold lengthZ in *. lia.
    - destruct (clear_raw first last l) as [[[l1 ch] dr]|] eqn:Hc; [|done]. cbn [mbind option_bind] in He.
      pose proof (clear_raw_grows _ _ _ _ _ _ Hlt Hok Hc). destruct (Z.ltb_spec (lengthZ l1) GNA_MAX); [done|]. lia. }
  exists l'. split_and!; [done|done|by apply Hex].
Qed.

(** ** Events *)

Inductive which := PROT_NONE | ReadOnly | NoExec.

Inductive range_event :=
| AddRange (w : which) (first last : Z)
| ClearRange (w : which) (first last : Z)
| ResetRanges.

Definition run_range (c : bool) (e : range_event) (R : registries) : option registries :=
  match e with
  | AddRange PROT_NONE first last => gna_add c first last R
  | AddRange ReadOnly first last => gro_add c first last R
  | AddRange NoExec first last => gnx_add c first last R
  | ClearRange PROT_NONE first last => gna_clear first last R
  | ClearRange ReadOnly first last => gro_clear first last R
  | ClearRange NoExec first last => gnx_clear first last R
  | ResetRanges => Some (gna_reset R)
  end.

Definition array (w : which) (R : registries) : registry :=
  match w with PROT_NONE => g_gna R | ReadOnly => g_gro R | NoExec => g_gnx R end.

(** The sets of addresses, one for each registry. *)
Definition protections := which -> Z -> Prop.

Definition abstract_step (e : range_event) (A : protections) : protections :=
  match e with
  | AddRange w first last => fun v x => A v x \/ w = v /\ first <= x < last
  | ClearRange w first last => fun v x => A v x /\ (w = v -> x < first \/ last <= x)
  | ResetRanges => fun _ _ => False
  end.

Definition event_bounds (e : range_event) : Prop :=
  match e with
  | AddRange _ first last | ClearRange _ first last => 0 <= first /\ last <= UINT64_MAX
  | ResetRanges => True
  end.

(** Two slots are free: one for the interval, one for a split. *)
Definition room (R : registries) : Prop := forall w, lengthZ (ranges (array w R)) < GNA_MAX - 1.

(** [n] writers; the counters stay far below their wrap. *)
Inductive ranges_reach (c : bool) (p : projection) : Z -> registries -> protections -> Prop :=
| reach_init : ranges_reach c p 0 (registries_init p) (fun _ _ => False)
| reach_step n R A R' e :
    ranges_reach c p n R A -> room R -> event_bounds e -> run_range c e R = Some R' ->
    ranges_reach c p (n + 1) R' (abstract_step e A).

(** ** The invariant *)

Record registry_ok (n : Z) (g : registry) : Prop := mk_registry_ok {
  gk_ranges : ranges_ok (ranges g);
  gk_settled : settled g = true;
  gk_generation : 2 <= generation g <= 2 + 2 * n;
  gk_bounds : forall x, covered (ranges g) x = true -> 0 <= x < UINT64_MAX
}.

Record registries_ok (n : Z) (R : registries) : Prop := mk_registries_ok {
  rs_array : forall w, registry_ok n (array w R);
  rs_filter : forall x, covered (ranges (g_gna R)) x = true -> g_gna_filter_first R <= x < g_gna_filter_last R
}.

Lemma published_ok n g l :
  0 <= n < 2 ^ 62 -> registry_ok n g -> ranges_ok l -> (forall x, covered l x = true -> 0 <= x < UINT64_MAX) ->
  registry_ok (n + 1) (published l g) /\ generation (published l g) = generation g + 2.
Proof.
  intros Hn [_ Hs Hg _] Hl Hb.
  assert (Heq : generation (published l g) = generation g + 2).
  { simpl. rewrite (u64_small (generation g + 1)) by lia. rewrite u64_small by lia. lia. }
  split; [|done]. constructor; [done| |lia|done]. unfold settled in *. rewrite Heq.
  by rewrite Z.odd_add, xorb_false_r.
Qed.

Lemma registry_ok_mono n n' g : n <= n' -> registry_ok n g -> registry_ok n' g.
Proof. intros Hn []. constructor; try done. lia. Qed.

Lemma init_ok p : registries_ok 0 (registries_init p).
Proof.
  constructor; [|done]. intros w.
  assert (H : registry_ok 0 registry_init).
  { constructor; [constructor; [constructor|constructor|done]|done|simpl; lia|done]. }
  by destruct w.
Qed.

(** What an event does to the registry [w]. *)
Definition event_effect (e : range_event) (w : which) (l l' : list range) : Prop :=
  forall x, covered l' x = true <->
    match e with
    | AddRange v first last => covered l x = true \/ v = w /\ first <= x < last
    | ClearRange v first last => covered l x = true /\ (v = w -> x < first \/ last <= x)
    | ResetRanges => False
    end.

Lemma gna_add_eq c first last R :
  gna_add c first last R =
    ('(l, _) ← range_add c first last (ranges (g_gna R));
     if last <=? first then Some R
     else '(f, b, kept) ← (if c then absorb_adjacent first last (ranges (g_gna R))
                           else '(l, _, _) ← clear_raw first last (ranges (g_gna R)); Some (first, last, l));
          Some (if lengthZ kept <? GNA_MAX
                then set_filter (Z.min f (g_gna_filter_first R)) (Z.max b (g_gna_filter_last R))
                       (set_gna (published l (g_gna R)) R)
                else set_gna (published l (g_gna R)) R)).
Proof.
  unfold gna_add, range_add, gna_clear_raw. destruct (last <=? first); [done|]. destruct c.
  - destruct (absorb_adjacent _ _ _) as [[[f b] kept]|]; [|done]. cbn [mbind option_bind]. by destruct (lengthZ kept <? GNA_MAX).
  - destruct (clear_raw _ _ _) as [[[kept ch] dr]|]; [|done]. cbn [mbind option_bind]. by destruct (lengthZ kept <? GNA_MAX).
Qed.

Lemma gro_add_eq c first last R :
  gro_add c first last R =
    ('(l, _) ← range_add c first last (ranges (g_gro R));
     Some (if last <=? first then R else set_gro (published l (g_gro R)) R)).
Proof.
  unfold gro_add, range_add, gro_clear_raw. destruct (last <=? first); [done|]. destruct c.
  - destruct (absorb_adjacent _ _ _) as [[[f b] kept]|]; [|done]. cbn [mbind option_bind]. by destruct (lengthZ kept <? GNA_MAX).
  - destruct (clear_raw _ _ _) as [[[kept ch] dr]|]; [|done]. cbn [mbind option_bind]. by destruct (lengthZ kept <? GNA_MAX).
Qed.

Lemma gnx_add_eq c first last R :
  gnx_add c first last R =
    ('(l, _) ← range_add c first last (ranges (g_gnx R));
     Some (if last <=? first then R else set_gnx (published l (g_gnx R)) R)).
Proof.
  unfold gnx_add, range_add, gnx_clear_raw. destruct (last <=? first); [done|]. destruct c.
  - destruct (absorb_adjacent _ _ _) as [[[f b] kept]|]; [|done]. cbn [mbind option_bind]. by destruct (lengthZ kept <? GNA_MAX).
  - destruct (clear_raw _ _ _) as [[[kept ch] dr]|]; [|done]. cbn [mbind option_bind]. by destruct (lengthZ kept <? GNA_MAX).
Qed.

(** ** Every writer *)

#[export] Instance which_eq_dec : EqDecision which.
Proof. solve_decision. Defined.

(** One registry replaced: the others are kept. *)
Lemma replace_ok n R w g R' :
  registries_ok n R -> registry_ok (n + 1) g -> array w R' = g -> (forall v, v <> w -> array v R' = array v R) ->
  (forall x, covered (ranges (g_gna R')) x = true -> g_gna_filter_first R' <= x < g_gna_filter_last R') ->
  registries_ok (n + 1) R'.
Proof.
  intros [Ha _] Hg Hw Hv Hf. constructor; [|done]. intros v. destruct (decide (v = w)) as [->|Hne].
  - by rewrite Hw.
  - rewrite Hv by done. eapply registry_ok_mono; [|apply Ha]. lia.
Qed.

Lemma replace_effect e w R R' :
  (match e with AddRange v _ _ | ClearRange v _ _ => v = w | ResetRanges => False end) ->
  (forall v, v <> w -> array v R' = array v R) -> event_effect e w (ranges (array w R)) (ranges (array w R')) ->
  forall v, event_effect e v (ranges (array v R)) (ranges (array v R')).
Proof.
  intros He Hv Hw v. destruct (decide (v = w)) as [->|Hne]; [done|]. rewrite Hv by done. intros x.
  destruct e as [u f b|u f b|]; [subst u|subst u|done]; [|]; split; intros H.
  - by left.
  - destruct H as [H|[<- _]]; done.
  - split; [done|]. by intros <-.
  - by destruct H.
Qed.

Section Writers.
Context (c : bool) (n : Z) (R : registries) (Hn : 0 <= n < 2 ^ 62) (Hok : registries_ok n R) (Hroom : room R).

Lemma add_published w first last :
  0 <= first -> last <= UINT64_MAX -> first < last ->
  exists l, range_add c first last (ranges (array w R)) = Some (l, false) /\
    registry_ok (n + 1) (published l (array w R)) /\ event_effect (AddRange w first last) w (ranges (array w R)) l.
Proof.
  intros Hf Hl Hlt. destruct (rs_array _ _ Hok w) as [Hg Hs Hgen Hb]. pose proof (Hroom w).
  destruct (add_keeps c first last (ranges (array w R)) Hg) as (l & He & Hl' & Hc); [done|].
  exists l. split; [done|]. split.
  - apply published_ok; [done|by apply (rs_array _ _ Hok)|done|]. intros x Hx. apply Hc in Hx as [Hx|Hx]; [by apply Hb|lia].
  - intros x. rewrite Hc. tauto.
Qed.

Lemma clear_published w first last :
  first < last ->
  exists l ch, clear_raw first last (ranges (array w R)) = Some (l, ch, false) /\
    registry_ok (n + 1) (published l (array w R)) /\ event_effect (ClearRange w first last) w (ranges (array w R)) l.
Proof.
  intros Hlt. destruct (rs_array _ _ Hok w) as [Hg Hs Hgen Hb]. pose proof (Hroom w).
  destruct (clear_raw_keeps first last (ranges (array w R)) Hlt Hg) as (l & ch & He & Hl' & Hc); [lia|].
  exists l, ch. split; [done|]. split.
  - apply published_ok; [done|by apply (rs_array _ _ Hok)|done|]. intros x Hx. apply Hc in Hx as [Hx _]. by apply Hb.
  - intros x. rewrite Hc. tauto.
Qed.

Lemma event_empty e w first last :
  last <= first -> e = AddRange w first last \/ e = ClearRange w first last ->
  forall v, event_effect e v (ranges (array v R)) (ranges (array v R)).
Proof. intros Hle [->| ->] v x; split; intuition lia. Qed.

(** The filter around the PROT_NONE set, after an addition. *)
Lemma gna_add_writer first last :
  0 <= first -> last <= UINT64_MAX -> first < last ->
  exists R', gna_add c first last R = Some R' /\ registries_ok (n + 1) R' /\
    forall v, event_effect (AddRange PROT_NONE first last) v (ranges (array v R)) (ranges (array v R')).
Proof.
  intros Hf Hl Hlt. destruct (add_published PROT_NONE first last Hf Hl Hlt) as (l & He & Hg & Heff). simpl in He, Heff.
  rewrite gna_add_eq, He. cbn [mbind option_bind]. destruct (Z.leb_spec last first); [lia|].
  assert (Hstage : exists f b kept, (if c then absorb_adjacent first last (ranges (g_gna R))
      else '(l, _, _) ← clear_raw first last (ranges (g_gna R)); Some (first, last, l)) = Some (f, b, kept) /\
    (lengthZ kept <? GNA_MAX) = true /\ l = kept ++ [mk_range f b] /\
    forall x, covered kept x = true -> covered (ranges (g_gna R)) x = true).
  { unfold range_add in He. destruct (Z.leb_spec last first); [lia|]. pose proof (rs_array _ _ Hok PROT_NONE) as [Hgr _ _ _]. destruct c.
    - destruct (absorb_passes_spec (Z.to_nat GNA_MAX) first last (ranges (g_gna R))) as (f & b & kept & gone & Ha & Hp & _).
      { pose proof (rk_count _ Hgr). simpl in *. unfold lengthZ in *. lia. }
      { done. }
      { apply (rk_nonempty _ Hgr). }
      unfold absorb_adjacent in *. rewrite Ha in He |- *. cbn [mbind option_bind] in He. exists f, b, kept. split; [done|].
      destruct (lengthZ kept <? GNA_MAX); [|done]. injection He as <-. split_and!; [done|done|]. intros x Hx.
      eapply covered_perm; [exact Hp|]. by rewrite covered_app, Hx.
    - destruct (clear_raw_ok first last _ Hlt Hgr) as (kept & ch & dr & Hc & _ & Hsub & _). simpl in Hc. rewrite Hc in He |- *.
      cbn [mbind option_bind] in *. exists first, last, kept. split; [done|]. destruct (lengthZ kept <? GNA_MAX); [|done].
      injection He as <-. split_and!; [done|done|]. intros x Hx. by apply Hsub. }
  destruct Hstage as (f & b & kept & -> & Hk & -> & Hsub). cbn [mbind option_bind]. rewrite Hk. eexists. split; [done|]. split.
  - eapply (replace_ok n R PROT_NONE); [done|exact Hg|done|by intros [] ?|]. simpl. intros x Hx.
    rewrite covered_app, orb_true_iff, covered_one in Hx. simpl in Hx. destruct Hx as [Hx|Hx]; [|lia].
    apply Hsub in Hx. pose proof (rs_filter _ _ Hok _ Hx). lia.
  - eapply (replace_effect _ PROT_NONE); [done|by intros [] ?|done].
Qed.

Lemma add_writer w first last :
  0 <= first -> last <= UINT64_MAX ->
  exists R', run_range c (AddRange w first last) R = Some R' /\ registries_ok (n + 1) R' /\
    forall v, event_effect (AddRange w first last) v (ranges (array v R)) (ranges (array v R')).
Proof.
  intros Hf Hl. destruct (Z.lt_ge_cases first last) as [Hlt|Hge].
  2: { exists R. split_and!.
       - destruct w; simpl; unfold gna_add, gro_add, gnx_add; by rewrite (proj2 (Z.leb_le _ _)) by lia.
       - destruct Hok as [Ha Hfl]. constructor; [|done]. intros v. eapply registry_ok_mono; [|apply Ha]. lia.
       - eapply event_empty; [done|by left]. }
  destruct w; simpl; [by apply gna_add_writer| |].
  - destruct (add_published ReadOnly first last Hf Hl Hlt) as (l & He & Hg & Heff). simpl in He. rewrite gro_add_eq, He.
    cbn [mbind option_bind]. rewrite (proj2 (Z.leb_gt _ _)) by lia. eexists. split; [done|]. split.
    + eapply (replace_ok n R ReadOnly); [done|exact Hg|done|by intros [] ?|]. apply (rs_filter _ _ Hok).
    + eapply (replace_effect _ ReadOnly); [done|by intros [] ?|done].
  - destruct (add_published NoExec first last Hf Hl Hlt) as (l & He & Hg & Heff). simpl in He. rewrite gnx_add_eq, He.
    cbn [mbind option_bind]. rewrite (proj2 (Z.leb_gt _ _)) by lia. eexists. split; [done|]. split.
    + eapply (replace_ok n R NoExec); [done|exact Hg|done|by intros [] ?|]. apply (rs_filter _ _ Hok).
    + eapply (replace_effect _ NoExec); [done|by intros [] ?|done].
Qed.

Lemma clear_writer w first last :
  exists R', run_range c (ClearRange w first last) R = Some R' /\ registries_ok (n + 1) R' /\
    forall v, event_effect (ClearRange w first last) v (ranges (array v R)) (ranges (array v R')).
Proof.
  destruct (Z.lt_ge_cases first last) as [Hlt|Hge].
  2: { exists R. split_and!.
       - destruct w; simpl; unfold gna_clear, gro_clear, gnx_clear; by rewrite (proj2 (Z.leb_le _ _)) by lia.
       - destruct Hok as [Ha Hfl]. constructor; [|done]. intros v. eapply registry_ok_mono; [|apply Ha]. lia.
       - eapply event_empty; [done|by right]. }
  destruct (clear_published w first last Hlt) as (l & ch & He & Hg & Heff).
  destruct w; simpl in *; unfold gna_clear, gro_clear, gnx_clear, gna_clear_raw, gro_clear_raw, gnx_clear_raw;
    rewrite (proj2 (Z.leb_gt _ _)) by lia; rewrite He; cbn [mbind option_bind]; (eexists; split; [done|]; split).
  - eapply (replace_ok n R PROT_NONE); [done|exact Hg|done|by intros [] ?|]. simpl. intros x Hx. apply (rs_filter _ _ Hok).
    by apply Heff in Hx as [? _].
  - eapply (replace_effect _ PROT_NONE); [done|by intros [] ?|done].
  - eapply (replace_ok n R ReadOnly); [done|exact Hg|done|by intros [] ?|]. apply (rs_filter _ _ Hok).
  - eapply (replace_effect _ ReadOnly); [done|by intros [] ?|done].
  - eapply (replace_ok n R NoExec); [done|exact Hg|done|by intros [] ?|]. apply (rs_filter _ _ Hok).
  - eapply (replace_effect _ NoExec); [done|by intros [] ?|done].
Qed.

Lemma reset_writer :
  registries_ok (n + 1) (gna_reset R) /\
  forall v, event_effect ResetRanges v (ranges (array v R)) (ranges (array v (gna_reset R))).
Proof.
  assert (Hempty : ranges_ok []) by (constructor; [constructor|constructor|done]). split.
  - constructor; [|done]. intros [].
    + apply published_ok; [done|apply (rs_array _ _ Hok PROT_NONE)|done|done].
    + destruct (rs_array _ _ Hok ReadOnly) as [_ Hs Hg _]. by constructor; [done|done|simpl in *; lia|done].
    + apply published_ok; [done|apply (rs_array _ _ Hok NoExec)|done|done].
  - intros [] x; simpl; unfold covered; simpl; done.
Qed.

Lemma writer_ok e :
  event_bounds e ->
  exists R', run_range c e R = Some R' /\ registries_ok (n + 1) R' /\
    forall v, event_effect e v (ranges (array v R)) (ranges (array v R')).
Proof.
  destruct e as [w first last|w first last|]; intros He.
  - by apply add_writer; destruct He.
  - apply clear_writer.
  - exists (gna_reset R). split; [done|]. apply reset_writer.
Qed.
End Writers.

Lemma reach_ok c p n R A :
  ranges_reach c p n R A -> n <= 2 ^ 61 ->
  0 <= n /\ registries_ok n R /\ forall w x, covered (ranges (array w R)) x = true <-> A w x.
Proof.
  induction 1 as [|n R A R' e Hreach IH Hroom Hb Hrun]; intros Hn.
  { split; [lia|]. split; [apply init_ok|]. intros [] x; simpl; done. }
  destruct (IH ltac:(lia)) as (Hn0 & Hok & Hset).
  destruct (writer_ok c n R ltac:(lia) Hok Hroom e Hb) as (R1 & Hrun1 & Hok1 & Heff). rewrite Hrun in Hrun1. injection Hrun1 as <-.
  split; [lia|]. split; [done|]. intros w x. rewrite (Heff w x). destruct e as [v f b|v f b|]; simpl; by rewrite ?Hset.
Qed.

(** ** Guest protection registries: readers and their caches

    A slot that matches the settled generation was filled from the array as it
    is, so the caches never change an answer.  The slots of [gna_hit] record a
    miss of a part of a page: they answer for the page only when the intervals
    are whole pages. *)

(** ** Pages *)

Lemma page_number_eq a : page_number a = a / 4096.
Proof. unfold page_number. by rewrite Z.shiftr_div_pow2. Qed.

Lemma page_split a : 4096 * (a / 4096) <= a < 4096 * (a / 4096) + 4096.
Proof. pose proof (Z.div_mod a 4096). pose proof (Z.mod_pos_bound a 4096). lia. Qed.

Lemma page_unique q a : 4096 * q <= a < 4096 * q + 4096 -> a / 4096 = q.
Proof. intros H. symmetry. apply (Z.div_unique a 4096 q (a - 4096 * q)); lia. Qed.

(** The image is whole pages, displaced by whole pages. *)
Definition image_ok (p : projection) : Prop :=
  g_nonpie_lo p = 0 \/
  (0 < g_nonpie_lo p <= g_nonpie_hi p /\ 0 <= g_nonpie_bias p /\ g_nonpie_hi p + g_nonpie_bias p <= 2 ^ 63 /\
   g_nonpie_lo p mod 4096 = 0 /\ g_nonpie_hi p mod 4096 = 0 /\ g_nonpie_bias p mod 4096 = 0).

Lemma unfold_u64 p a : image_ok p -> 0 <= a < 2 ^ 64 -> 0 <= nonpie_unfold p a < 2 ^ 64.
Proof.
  intros _ Ha. unfold nonpie_unfold, guest_unchecked. destruct (_ =? 0); [done|].
  destruct (_ && _); [apply u64_range|done].
Qed.

Lemma unfold_le p a : image_ok p -> 0 <= a < 2 ^ 64 -> nonpie_unfold p a <= a.
Proof.
  intros Hp Ha. unfold nonpie_unfold, guest_unchecked. destruct (Z.eqb_spec (g_nonpie_lo p) 0); [lia|].
  destruct Hp as [|(Hlo & Hbias & Htop & _)]; [done|].
  rewrite !u64_small with (x := g_nonpie_lo p + g_nonpie_bias p) by lia.
  rewrite !u64_small with (x := g_nonpie_hi p + g_nonpie_bias p) by lia.
  destruct (Z.leb_spec (g_nonpie_lo p + g_nonpie_bias p) a), (Z.ltb_spec a (g_nonpie_hi p + g_nonpie_bias p)); cbn [andb]; try lia.
  rewrite u64_small by lia. lia.
Qed.

Lemma unfold_page p a b :
  image_ok p -> 0 <= a < 2 ^ 64 -> 0 <= b < 2 ^ 64 -> a / 4096 = b / 4096 ->
  nonpie_unfold p b = nonpie_unfold p a + (b - a).
Proof.
  intros Hp Ha Hb Hab. unfold nonpie_unfold, guest_unchecked. destruct (Z.eqb_spec (g_nonpie_lo p) 0); [lia|].
  destruct Hp as [|(Hlo & Hbias & Htop & Hl & Hh & Hm)]; [done|].
  rewrite !u64_small with (x := g_nonpie_lo p + g_nonpie_bias p) by lia.
  rewrite !u64_small with (x := g_nonpie_hi p + g_nonpie_bias p) by lia.
  pose proof (page_split a) as Hsa. pose proof (page_split b) as Hsb. rewrite Hab in Hsa.
  pose proof (Z.div_mod (g_nonpie_lo p) 4096 ltac:(lia)). pose proof (Z.div_mod (g_nonpie_hi p) 4096 ltac:(lia)).
  pose proof (Z.div_mod (g_nonpie_bias p) 4096 ltac:(lia)).
  destruct (Z.leb_spec (g_nonpie_lo p + g_nonpie_bias p) a), (Z.ltb_spec a (g_nonpie_hi p + g_nonpie_bias p)),
    (Z.leb_spec (g_nonpie_lo p + g_nonpie_bias p) b), (Z.ltb_spec b (g_nonpie_hi p + g_nonpie_bias p)); cbn [andb]; try lia.
  rewrite !u64_small by lia. lia.
Qed.

(** ** The caches *)

Definition page_uniform (l : list range) : Prop :=
  forall x y, 0 <= x -> 0 <= y -> x / 4096 = y / 4096 -> covered l x = covered l y.

Record caches_ok (R : registries) (C : thread_caches) : Prop := mk_caches_ok {
  ck_negative : forall slot p g, lookupZ (g_gna_negative C) slot = Some (p, g) ->
    g <= generation (g_gna R) /\
    (g = generation (g_gna R) -> page_uniform (ranges (g_gna R)) ->
     forall x, 0 <= x -> x / 4096 = p -> covered (ranges (g_gna R)) x = false);
  ck_clean : forall slot p g, lookupZ (g_gna_clean C) slot = Some (p, g) ->
    g <= generation (g_gna R) /\
    (g = generation (g_gna R) -> forall x, p <= x < p + 4096 -> covered (ranges (g_gna R)) x = false);
  ck_exec : forall p, In p (g_exec_page C :: g_exec_pages C) ->
    ep_generation p <= generation (g_gnx R) /\
    (ep_generation p = generation (g_gnx R) ->
     0 <= ep_first p /\ ep_first p mod 4096 = 0 /\ ep_last p = ep_first p + 4096 /\ ep_last p < 2 ^ 64 /\
     forall x, ep_first p <= x < ep_last p -> covered (ranges (g_gnx R)) (nonpie_unfold (image R) x) = false)
}.

Lemma caches_init_ok R : 2 <= generation (g_gna R) -> 2 <= generation (g_gnx R) -> caches_ok R caches_init.
Proof.
  intros Ha Hx. constructor.
  - intros slot p g Hs. unfold caches_init, lookupZ in Hs. cbn [g_gna_negative] in Hs. destruct (0 <=? slot); [|done].
    apply lookup_replicate in Hs as [[= -> ->] _]. split; [lia|lia].
  - intros slot p g Hs. unfold caches_init, lookupZ in Hs. cbn [g_gna_clean] in Hs. destruct (0 <=? slot); [|done].
    apply lookup_replicate in Hs as [[= -> ->] _]. split; [lia|lia].
  - intros p Hp. assert (p = mk_exec_page 0 0 0) as ->.
    { destruct Hp as [<-|Hp]; [done|]. apply list_elem_of_In in Hp. by apply elem_of_replicate_inv in Hp. }
    simpl. split; [lia|lia].
Qed.

(** A writer steps the generation, so no slot matches it any more; emptying
    the read-only array concerns no cache. *)
Lemma caches_stale R R' C :
  caches_ok R C -> image R' = image R ->
  (g_gna R' = g_gna R \/ generation (g_gna R) < generation (g_gna R')) ->
  (g_gnx R' = g_gnx R \/ generation (g_gnx R) < generation (g_gnx R')) -> caches_ok R' C.
Proof.
  intros [Hn Hc Hx] Hi Ha Hg. constructor.
  - intros slot p g Hs. specialize (Hn _ _ _ Hs). destruct Ha as [->|Ha]; [done|]. split; [lia|lia].
  - intros slot p g Hs. specialize (Hc _ _ _ Hs). destruct Ha as [->|Ha]; [done|]. split; [lia|lia].
  - intros p Hp. specialize (Hx p Hp). rewrite Hi. destruct Hg as [->|Hg]; [done|]. split; [lia|lia].
Qed.

Lemma slot_is_true slots slot page g : slot_is slots slot page g = true -> lookupZ slots slot = Some (page, g).
Proof.
  unfold slot_is. destruct (lookupZ slots slot) as [[p g']|]; [|done]. intros H. bool_props. by subst.
Qed.

(** A slot written keeps what the others say. *)
Lemma slots_insert {Q : Z -> Z -> Prop} slots slot page g :
  (forall i p h, lookupZ slots i = Some (p, h) -> Q p h) -> Q page g ->
  forall i p h, lookupZ (insertZ slots slot (page, g)) i = Some (p, h) -> Q p h.
Proof.
  intros Hall Hnew i p h. destruct (decide (slot = i)) as [->|Hne].
  - intros H. pose proof (lookupZ_Some_range _ _ _ H) as Hr. rewrite lengthZ_insertZ in Hr.
    rewrite lookupZ_insertZ_eq in H by done. by injection H as <- <-.
  - rewrite lookupZ_insertZ_ne by done. apply Hall.
Qed.

(** ** PROT_NONE *)

Section Reads.
Context (n : Z) (R : registries) (Hok : registries_ok n R).

Lemma empty_uncovered w x : lengthZ (ranges (array w R)) = 0 -> covered (ranges (array w R)) x = false.
Proof. destruct (ranges (array w R)); [done|]. rewrite lengthZ_cons. pose proof (lengthZ_nonneg l). lia. Qed.

(** The caches stay sound whatever the ranges are; the answer is exact when
    they are whole pages. *)
Lemma gna_hit_step a len C :
  caches_ok R C -> 0 < len ->
  0 <= nonpie_unfold (image R) a -> nonpie_unfold (image R) a + len < 2 ^ 64 ->
  exists b C', gna_hit a len R C = (b, C') /\ caches_ok R C' /\
    (page_uniform (ranges (g_gna R)) ->
     b = true <-> exists x, nonpie_unfold (image R) a <= x < nonpie_unfold (image R) a + len /\
                   covered (ranges (g_gna R)) x = true).
Proof.
  intros HC Hlen Ha Hend. unfold gna_hit. rewrite (proj2 (Z.eqb_neq len 0)) by lia. cbn [orb].
  destruct (Z.eqb_spec (lengthZ (ranges (g_gna R))) 0) as [He|He].
  { exists false, C. split_and!; [done|done|]. intros _. split; [done|]. intros (x & _ & Hx).
    by rewrite (empty_uncovered PROT_NONE) in Hx. }
  set (a' := nonpie_unfold (image R) a) in *. rewrite (u64_small (a' + len)) by lia. rewrite u64_small by lia.
  destruct (rs_array _ _ Hok PROT_NONE) as [Hr Hs _ _]. simpl in Hs. rewrite Hs. cbn [negb]. rewrite !page_number_eq.
  assert (Hscan : range_hit a' (a' + len) (ranges (g_gna R)) = true <->
    exists x, a' <= x < a' + len /\ covered (ranges (g_gna R)) x = true).
  { apply range_hit_spec; [apply (rk_nonempty _ Hr)|lia]. }
  destruct (Z.eqb_spec (a' / 4096) ((a' + len - 1) / 4096)) as [Hpage|Hpage]; cbn [andb].
  2: { rewrite andb_false_r. by eexists _, C. }
  assert (Hin : forall x, a' <= x < a' + len -> x / 4096 = a' / 4096).
  { intros x Hx. pose proof (page_split a'). pose proof (page_split (a' + len - 1)). apply page_unique. lia. }
  destruct (slot_is _ _ _ _) eqn:Hslot.
  { exists false, C. split_and!; [done|done|]. intros Hu. split; [done|]. intros (x & Hx & Hc). apply slot_is_true in Hslot.
    destruct (ck_negative _ _ HC _ _ _ Hslot) as [_ Hclean]. rewrite Hclean in Hc; [done|done|done|lia|by apply Hin]. }
  rewrite andb_true_r. eexists _, _. split; [done|]. split; [|done].
  destruct (range_hit _ _ _) eqn:Hhit; [done|]. destruct HC as [Hn Hc Hx]. constructor; [|done|done]. simpl.
  apply (slots_insert (Q := fun p g => g <= generation (g_gna R) /\ (g = generation (g_gna R) -> page_uniform (ranges (g_gna R)) ->
     forall x, 0 <= x -> x / 4096 = p -> covered (ranges (g_gna R)) x = false))); [exact Hn|].
  split; [lia|]. intros _ Hu x Hx0 Hxp. rewrite (Hu x a') by (done || lia).
  destruct (covered (ranges (g_gna R)) a') eqn:Hca; [|done]. assert (false = true); [|done]. apply Hscan. exists a'. split; [lia|done].
Qed.

Lemma gna_hit_spec a len C :
  caches_ok R C -> page_uniform (ranges (g_gna R)) -> 0 < len ->
  0 <= nonpie_unfold (image R) a -> nonpie_unfold (image R) a + len < 2 ^ 64 ->
  exists b C', gna_hit a len R C = (b, C') /\ caches_ok R C' /\
    (b = true <-> exists x, nonpie_unfold (image R) a <= x < nonpie_unfold (image R) a + len /\
                   covered (ranges (g_gna R)) x = true).
Proof.
  intros HC Hu Hl Ha Hend. destruct (gna_hit_step a len C HC Hl Ha Hend) as (b & C' & H1 & H2 & H3).
  exists b, C'. split; [done|]. split; [done|]. by apply H3.
Qed.

Lemma clean_publish_ok k : forall page end_ slots,
  (forall i p g, lookupZ slots i = Some (p, g) ->
     g <= generation (g_gna R) /\ (g = generation (g_gna R) -> forall x, p <= x < p + 4096 -> covered (ranges (g_gna R)) x = false)) ->
  (forall x, page <= x < end_ -> covered (ranges (g_gna R)) x = false) ->
  forall i p g, lookupZ (gna_publish_loop k page end_ (generation (g_gna R)) slots) i = Some (p, g) ->
    g <= generation (g_gna R) /\ (g = generation (g_gna R) -> forall x, p <= x < p + 4096 -> covered (ranges (g_gna R)) x = false).
Proof.
  induction k as [|k IH]; intros page end_ slots Hs Hc; simpl; [done|]. destruct (_ || _) eqn:Hg; [done|]. bool_props.
  apply IH.
  - apply (slots_insert (Q := fun p g => g <= generation (g_gna R) /\ (g = generation (g_gna R) ->
      forall x, p <= x < p + 4096 -> covered (ranges (g_gna R)) x = false))); [done|].
    split; [lia|]. intros _ x Hx. apply Hc. lia.
  - intros x Hx. apply Hc. lia.
Qed.

(** The longest prefix outside the set. *)
Definition prefix_of (S : Z -> bool) (a len p : Z) : Prop :=
  0 <= p <= len /\ (forall i, 0 <= i < p -> S (a + i) = false) /\ (p < len -> S (a + p) = true).

Lemma prefix_of_unique S a len p q : prefix_of S a len p -> prefix_of S a len q -> p = q.
Proof.
  intros (H1 & H2 & H3) (H4 & H5 & H6). destruct (Z.lt_trichotomy p q) as [H|[H|H]]; [|done|].
  - rewrite H5 in H3; [|lia]. by specialize (H3 ltac:(lia)).
  - rewrite H2 in H6; [|lia]. by specialize (H6 ltac:(lia)).
Qed.

Lemma scan_prefix_of w a len :
  0 <= a -> 0 < len -> a + len < 2 ^ 64 ->
  prefix_of (covered (ranges (array w R))) a len (prefix_scan a (u64 (a + len)) (ranges (array w R)) - a).
Proof.
  intros Ha Hlen Hend. rewrite u64_small by lia. destruct (rs_array _ _ Hok w) as [Hr _ _ _].
  destruct (prefix_scan_spec a (ranges (array w R)) (a + len) (rk_nonempty _ Hr)) as (H1 & H2 & H3); [lia|].
  split; [lia|]. split.
  - intros i Hi. apply H2. lia.
  - intros Hp. replace (a + (prefix_scan a (a + len) (ranges (array w R)) - a)) with (prefix_scan a (a + len) (ranges (array w R))) by lia.
    apply H3. lia.
Qed.

Lemma prefix_cached_spec a len C :
  caches_ok R C -> 0 < len -> 0 <= a -> a + len < 2 ^ 64 ->
  exists C', gna_prefix_cached a len R C = (gna_prefix_full a len R, C') /\ caches_ok R C'.
Proof.
  intros HC Hlen Ha Hend. unfold gna_prefix_cached, gna_prefix_full.
  destruct (rs_array _ _ Hok PROT_NONE) as [Hr Hs _ _]. simpl in Hr, Hs. rewrite Hs. cbn [negb].
  pose proof (scan_prefix_of PROT_NONE a len Ha Hlen Hend) as Hfull. simpl in Hfull.
  set (single := (a <? u64 (a + len)) && (page_base a <=? UINT64_MAX - 4096) &&
    (page_base (u64 (u64 (a + len) - 1)) =? page_base a)). destruct HC as [Hn Hc Hx].
  assert (Hpage : single = true -> page_base a <= a /\ a + len <= page_base a + 4096).
  { unfold single. intros H. bool_props. rewrite (u64_small (a + len)), u64_small in * by lia.
    rewrite !page_base_eq in * by lia. pose proof (page_split a). pose proof (page_split (a + len - 1)). lia. }
  destruct single eqn:Hsingle; cbn [andb].
  - specialize (Hpage eq_refl). destruct (slot_is _ _ _ _) eqn:Hslot.
    { apply slot_is_true in Hslot. destruct (Hc _ _ _ Hslot) as [_ Hclean]. specialize (Hclean eq_refl). exists C. split; [|by constructor].
      f_equal. eapply prefix_of_unique; [|exact Hfull]. split; [lia|split; [|lia]]. intros i Hi. apply Hclean. lia. }
    eexists. split; [done|]. destruct (negb (range_hit _ _ _)) eqn:Hhit; [|by constructor]. constructor; [done| |done]. simpl.
    apply (slots_insert (Q := fun p g => g <= generation (g_gna R) /\ (g = generation (g_gna R) ->
      forall x, p <= x < p + 4096 -> covered (ranges (g_gna R)) x = false))); [exact Hc|].
    split; [lia|]. intros _ x Hxp. apply negb_true_iff in Hhit. destruct (covered (ranges (g_gna R)) x) eqn:Hcx; [|done].
    rewrite (proj2 (range_hit_spec (page_base a) (page_base a + 4096) _ (rk_nonempty _ Hr) ltac:(lia))) in Hhit; [done|by exists x].
  - eexists. split; [done|]. destruct (Z.eqb_spec (prefix_scan a (u64 (a + len)) (ranges (g_gna R)) - a) len) as [Heq|]; [|by constructor].
    rewrite Heq in Hfull. destruct Hfull as (_ & Hfree & _). unfold gna_clean_publish.
    destruct (_ || _) eqn:Hg; [by constructor|]. bool_props. constructor; [done| |done].
    apply clean_publish_ok; [done|]. rewrite (u64_small (a + len)) by lia. intros x Hxe.
    replace x with (a + (x - a)) by lia. apply Hfree.
    pose proof (u64_range (a + 4095)). lia.
Qed.

Lemma gna_prefix_spec page_cache a len C :
  caches_ok R C -> 0 < len -> 0 <= nonpie_unfold (image R) a -> nonpie_unfold (image R) a + len < 2 ^ 64 ->
  exists p C', gna_prefix page_cache a len R C = (p, C') /\ caches_ok R C' /\
    prefix_of (covered (ranges (g_gna R))) (nonpie_unfold (image R) a) len p.
Proof.
  intros HC Hlen Ha Hend. unfold gna_prefix. rewrite (proj2 (Z.eqb_neq len 0)) by lia. cbn [orb].
  destruct (Z.eqb_spec (lengthZ (ranges (g_gna R))) 0) as [He|He].
  { exists len, C. split_and!; [done|done|]. split; [lia|split; [|lia]]. intros i _. by apply (empty_uncovered PROT_NONE). }
  assert (Hfull : prefix_of (covered (ranges (g_gna R))) (nonpie_unfold (image R) a) len (gna_prefix_full (nonpie_unfold (image R) a) len R)).
  { unfold gna_prefix_full. destruct (rs_array _ _ Hok PROT_NONE) as [_ Hs _ _]. simpl in Hs. rewrite Hs.
    by apply (scan_prefix_of PROT_NONE). }
  destruct page_cache; [|by exists (gna_prefix_full (nonpie_unfold (image R) a) len R), C].
  destruct (prefix_cached_spec (nonpie_unfold (image R) a) len C HC Hlen Ha Hend) as (C' & -> & HC'). by eexists _, C'.
Qed.

(** ** Read-only and non-executable *)

Lemma gro_hit_spec a len :
  0 < len -> 0 <= nonpie_unfold (image R) a -> nonpie_unfold (image R) a + len < 2 ^ 64 ->
  gro_hit a len R = true <-> exists x, nonpie_unfold (image R) a <= x < nonpie_unfold (image R) a + len /\
    covered (ranges (g_gro R)) x = true.
Proof.
  intros Hlen Ha Hend. unfold gro_hit. rewrite (proj2 (Z.eqb_neq len 0)) by lia. cbn [orb].
  destruct (Z.eqb_spec (lengthZ (ranges (g_gro R))) 0) as [He|He].
  { split; [done|]. intros (x & _ & Hx). by rewrite (empty_uncovered ReadOnly) in Hx. }
  destruct (rs_array _ _ Hok ReadOnly) as [Hr Hs _ _]. simpl in Hs. rewrite Hs. cbn [negb]. rewrite u64_small by lia.
  apply range_hit_spec; [apply (rk_nonempty _ Hr)|lia].
Qed.

Lemma gro_prefix_spec a len :
  0 < len -> 0 <= nonpie_unfold (image R) a -> nonpie_unfold (image R) a + len < 2 ^ 64 ->
  prefix_of (covered (ranges (g_gro R))) (nonpie_unfold (image R) a) len (gro_prefix a len R).
Proof.
  intros Hlen Ha Hend. unfold gro_prefix. rewrite (proj2 (Z.eqb_neq len 0)) by lia. cbn [orb].
  destruct (Z.eqb_spec (lengthZ (ranges (g_gro R))) 0) as [He|He].
  { split; [lia|split; [|lia]]. intros i _. by apply (empty_uncovered ReadOnly). }
  destruct (rs_array _ _ Hok ReadOnly) as [_ Hs _ _]. simpl in Hs. rewrite Hs. by apply (scan_prefix_of ReadOnly).
Qed.

Lemma gnx_hit_spec a len :
  0 < len -> 0 <= nonpie_unfold (image R) a -> nonpie_unfold (image R) a + len < 2 ^ 64 ->
  gnx_hit a len R = true <-> exists x, nonpie_unfold (image R) a <= x < nonpie_unfold (image R) a + len /\
    covered (ranges (g_gnx R)) x = true.
Proof.
  intros Hlen Ha Hend. unfold gnx_hit. rewrite (proj2 (Z.eqb_neq len 0)) by lia. cbn [orb].
  destruct (Z.eqb_spec (lengthZ (ranges (g_gnx R))) 0) as [He|He].
  { split; [done|]. intros (x & _ & Hx). by rewrite (empty_uncovered NoExec) in Hx. }
  destruct (rs_array _ _ Hok NoExec) as [Hr Hs _ _]. simpl in Hs. rewrite Hs. cbn [negb]. rewrite u64_small by lia.
  destruct (Z.ltb_spec (nonpie_unfold (image R) a + len) (nonpie_unfold (image R) a)); [lia|].
  apply range_hit_spec; [apply (rk_nonempty _ Hr)|lia].
Qed.

(** A query within a page, whose first byte is at [unfold guest]. *)
Lemma page_query guest length x :
  image_ok (image R) -> 0 <= guest -> 0 < length -> guest mod 4096 + length <= 4096 -> guest + length <= 2 ^ 63 ->
  guest <= x < guest + length -> nonpie_unfold (image R) x = nonpie_unfold (image R) guest + (x - guest).
Proof.
  intros Hi Hg Hl Hp Ht Hx. apply unfold_page; [done|lia|lia|]. symmetry. apply page_unique.
  pose proof (Z.div_mod guest 4096 ltac:(lia)). pose proof (Z.mod_pos_bound guest 4096 ltac:(lia)). lia.
Qed.

Lemma gnx_page_query guest length :
  image_ok (image R) -> 0 <= guest -> 0 < length -> guest mod 4096 + length <= 4096 -> guest + length <= 2 ^ 63 ->
  negb (gnx_hit guest length R) = true <->
    forall x, guest <= x < guest + length -> covered (ranges (g_gnx R)) (nonpie_unfold (image R) x) = false.
Proof.
  intros Hi Hg Hl Hp Ht. pose proof (unfold_u64 (image R) guest Hi ltac:(lia)). pose proof (unfold_le (image R) guest Hi ltac:(lia)).
  rewrite negb_true_iff, <- not_true_iff_false, gnx_hit_spec by lia. split.
  - intros Hno x Hx. rewrite (page_query guest length) by done. destruct (covered _ _) eqn:Hcov; [|done].
    exfalso. apply Hno. eexists. split; [|exact Hcov]. lia.
  - intros Hall (x & Hx & Hcov). specialize (Hall (guest + (x - nonpie_unfold (image R) guest)) ltac:(lia)).
    rewrite (page_query guest length) in Hall by (done || lia). rewrite <- not_false_iff_true in Hcov. apply Hcov.
    rewrite <- Hall. f_equal. lia.
Qed.

Lemma exec_valid_spec guest length C :
  caches_ok R C -> image_ok (image R) -> 0 <= guest -> 0 < length -> guest mod 4096 + length <= 4096 ->
  guest + length <= 2 ^ 63 ->
  exists b C', guest_exec_direct_valid guest length R C = (b, C') /\ caches_ok R C' /\
    (b = true <-> forall x, guest <= x < guest + length -> covered (ranges (g_gnx R)) (nonpie_unfold (image R) x) = false).
Proof.
  intros HC Hi Hg Hl Hp Ht. unfold guest_exec_direct_valid. rewrite (proj2 (Z.eqb_neq length 0)) by lia.
  unfold UINT64_MAX. destruct (Z.ltb_spec (18446744073709551615 - length) guest); [lia|].
  destruct (rs_array _ _ Hok NoExec) as [Hr Hs Hgen Hbd]. simpl in Hr, Hs, Hgen, Hbd. rewrite Hs. cbn [andb].
  set (slot := Z.land _ _). set (cached := default _ (lookupZ (g_exec_pages C) slot)).
  assert (Hanswer : forall p, In p (g_exec_page C :: g_exec_pages C) \/ p = mk_exec_page 0 0 0 ->
    exec_page_answers (generation (g_gnx R)) guest (guest + length) p = true ->
    forall x, guest <= x < guest + length -> covered (ranges (g_gnx R)) (nonpie_unfold (image R) x) = false).
  { intros p Hin Ha x Hx. unfold exec_page_answers in Ha. bool_props. destruct Hin as [Hin| ->].
    - destruct (ck_exec _ _ HC p Hin) as [_ Hclean]. destruct Hclean as (_ & _ & _ & _ & Hclean); [done|]. apply Hclean. lia.
    - simpl in *. lia. }
  assert (Hcached : In cached (g_exec_page C :: g_exec_pages C) \/ cached = mk_exec_page 0 0 0).
  { unfold cached. destruct (lookupZ (g_exec_pages C) slot) as [p|] eqn:Hl'; [|by right].
    left. right. simpl. by eapply lookupZ_elem. }
  destruct (exec_page_answers _ _ _ cached) eqn:H1; [exists true, C; split_and!; [done|done|split; [intros _|done]]; by eapply Hanswer|].
  destruct (exec_page_answers _ _ _ (g_exec_page C)) eqn:H2.
  { exists true, C. split_and!; [done|done|split; [intros _|done]]. eapply Hanswer; [|done]. left. by left. }
  clear Hanswer Hcached H1 H2. pose proof (page_split guest) as Hsp. rewrite page_base_eq by lia.
  pose proof (Z.div_mod guest 4096 ltac:(lia)) as Hdm. set (first := 4096 * (guest / 4096)) in *.
  assert (Hfirst : 0 <= first /\ first mod 4096 = 0 /\ first + 4096 <= 2 ^ 63).
  { pose proof (Z.div_pos guest 4096 Hg ltac:(lia)). unfold first. rewrite Z.mul_comm, Z.mod_mul by lia. lia. }
  destruct Hfirst as (Hf0 & Hfm & Hft). rewrite (proj2 (Z.leb_le first _)) by lia. cbn [andb].
  pose proof (gnx_page_query first 4096 Hi Hf0 ltac:(lia) ltac:(lia) ltac:(lia)) as Hpage.
  destruct (negb (gnx_hit first 4096 R)); cbn [andb].
  - pose proof (proj1 Hpage eq_refl) as Hclean. eexists true, _. split; [done|]. split.
    + destruct HC as [Hn Hc Hx]. constructor; [done|done|]. intros p Hin. cbn [set_exec g_exec_page g_exec_pages] in Hin.
      assert (Hp' : p = mk_exec_page (generation (g_gnx R)) first (first + 4096) \/ In p (g_exec_page C :: g_exec_pages C)).
      { destruct Hin as [<-|Hin]; [by left|]. apply elem_lookupZ in Hin as [j Hj]. destruct (decide (slot = j)) as [->|Hne].
        - pose proof (lookupZ_Some_range _ _ _ Hj) as Hjr. rewrite lengthZ_insertZ in Hjr.
          rewrite lookupZ_insertZ_eq in Hj by done. injection Hj as <-. by left.
        - rewrite lookupZ_insertZ_ne in Hj by done. right. right. by eapply lookupZ_elem. }
      destruct Hp' as [->|Hp']; [|by apply Hx]. simpl. split; [lia|]. intros _. split_and!; try done; lia.
    + split; [intros _|done]. intros x Hx. apply Hclean. lia.
  - eexists _, C. split_and!; [done|done|]. by apply gnx_page_query.
Qed.
End Reads.

(** ** A thread's caches through the life of the registries *)

Definition query_bounds (R : registries) (a len : Z) : Prop :=
  0 < len /\ 0 <= nonpie_unfold (image R) a /\ nonpie_unfold (image R) a + len < 2 ^ 64.

(** The registries are changed by anyone; the thread asks in between, and its
    caches are what its own questions have left. *)
Inductive thread_reach (c pc : bool) (p : projection) : Z -> registries -> protections -> thread_caches -> Prop :=
| thread_init : thread_reach c pc p 0 (registries_init p) (fun _ _ => False) caches_init
| thread_event n R A C R' e :
    thread_reach c pc p n R A C -> room R -> event_bounds e -> run_range c e R = Some R' ->
    thread_reach c pc p (n + 1) R' (abstract_step e A) C
| thread_hit n R A C a len :
    thread_reach c pc p n R A C -> query_bounds R a len -> thread_reach c pc p n R A (snd (gna_hit a len R C))
| thread_prefix n R A C a len :
    thread_reach c pc p n R A C -> query_bounds R a len -> thread_reach c pc p n R A (snd (gna_prefix pc a len R C)).

Lemma thread_ranges c pc p n R A C : thread_reach c pc p n R A C -> ranges_reach c p n R A.
Proof. induction 1; [apply reach_init|by eapply reach_step|done|done]. Qed.

(** A writer steps the generation of what it changes. *)
Lemma run_range_stale c e n R R' :
  0 <= n < 2 ^ 62 -> registries_ok n R -> run_range c e R = Some R' ->
  image R' = image R /\ (g_gna R' = g_gna R \/ generation (g_gna R) < generation (g_gna R')) /\
  (g_gnx R' = g_gnx R \/ generation (g_gnx R) < generation (g_gnx R')).
Proof.
  intros Hn Hok. assert (Hstep : forall w l, generation (array w R) < generation (published l (array w R))).
  { intros w l. destruct (rs_array _ _ Hok w) as [_ _ Hg _]. unfold published. cbn [generation].
    rewrite (u64_small (generation (array w R) + 1)) by lia. rewrite u64_small by lia. lia. }
  pose proof (Hstep PROT_NONE) as Ha. pose proof (Hstep NoExec) as Hx. cbn [array] in Ha, Hx. destruct e as [w f b|w f b|].
  - destruct w; cbn [run_range]; rewrite ?gna_add_eq, ?gro_add_eq, ?gnx_add_eq;
      (destruct (range_add _ _ _ _) as [[l ?]|]; [|done]); cbn [mbind option_bind].
    + destruct (b <=? f); [intros [= <-]; tauto|]. destruct (if c then _ else _) as [[[? ?] kept]|]; [|done].
      cbn [mbind option_bind]. destruct (lengthZ kept <? GNA_MAX); intros [= <-]; (split; [done|]); (split; [right; apply Ha|by left]).
    + destruct (b <=? f); intros [= <-]; tauto.
    + destruct (b <=? f); intros [= <-]; [tauto|]. split; [done|]. split; [by left|right; apply Hx].
  - destruct w; cbn [run_range]; unfold gna_clear, gro_clear, gnx_clear, gna_clear_raw, gro_clear_raw, gnx_clear_raw;
      (destruct (b <=? f); [intros [= <-]; tauto|]); (destruct (clear_raw _ _ _) as [[[l ?] ?]|]; [|done]);
      cbn [mbind option_bind]; intros [= <-]; (split; [done|]).
    + split; [right; apply Ha|by left].
    + tauto.
    + split; [by left|right; apply Hx].
  - intros [= <-]. split; [done|]. split; right; [apply Ha|apply Hx].
Qed.

Lemma thread_caches_ok c pc p n R A C : thread_reach c pc p n R A C -> n <= 2 ^ 61 -> caches_ok R C.
Proof.
  induction 1 as [|n R A C R' e Hr IH Hroom Hb Hrun|n R A C a len Hr IH (Hl & H1 & H2)|n R A C a len Hr IH (Hl & H1 & H2)];
    intros Hn.
  - by apply caches_init_ok.
  - destruct (reach_ok _ _ _ _ _ (thread_ranges _ _ _ _ _ _ _ Hr) ltac:(lia)) as (Hn0 & Hok & _).
    destruct (run_range_stale c e n R R' ltac:(lia) Hok Hrun) as (Hi & Ha & Hx). by apply (caches_stale R); [apply IH; lia|..].
  - destruct (reach_ok _ _ _ _ _ (thread_ranges _ _ _ _ _ _ _ Hr) Hn) as (_ & Hok & _).
    by destruct (gna_hit_step n R Hok a len C (IH Hn) Hl H1 H2) as (b & C' & -> & HC & _).
  - destruct (reach_ok _ _ _ _ _ (thread_ranges _ _ _ _ _ _ _ Hr) Hn) as (_ & Hok & _).
    by destruct (gna_prefix_spec n R Hok pc a len C (IH Hn) Hl H1 H2) as (q & C' & -> & HC & _).
Qed.
