(* ===== verification/BusLedger.v ===== *)
(** * The past-EOF ledger

    The interval ledger of file mappings whose bytes lie past the end of the
    file ([thread/bus_ranges.c], with the arrays of [thread/file_mapping.c]):
    the live ranges a translated access must fault on, the ranges parked while
    their pages are PROT_NONE, the two rejection filters in front of them, and
    the transactions a mapping change runs in.  What the callbacks are told is
    recorded in [told].  A range that cannot be recorded closes the ledger:
    every access then faults. *)

From S2P Require Import Prelude RangeLedger.

Definition BUS_FILTER_BITS : Z := 65536.
Definition UINT32_TOP : Z := UINT32_MAX.

Inductive bus_event :=
| Changed (generation : Z) (active : bool)
| TransitionBegin
| TransitionEnd.

Record bus_ledger := mk_bus {
  g_gbus : list range;
  g_gbus_parked : list range;
  g_bus_generation : Z;
  g_bus_fail_closed : bool;
  g_bus_prepares : Z;
  g_bus_filter_lo : Z;
  g_bus_filter_hi : Z;
  g_bus_filter_force : Z;
  g_bus_page_filter : Z;     (** the words, as one integer *)
  told : list bus_event
}.

Definition bus_init : bus_ledger := mk_bus [] [] 1 false 0 UINT64_MAX 0 0 0 [].

Definition set_live (l : list range) (closed : bool) (B : bus_ledger) : bus_ledger :=
  mk_bus l (g_gbus_parked B) (g_bus_generation B) (g_bus_fail_closed B || closed) (g_bus_prepares B) (g_bus_filter_lo B)
    (g_bus_filter_hi B) (g_bus_filter_force B) (g_bus_page_filter B) (told B).
Definition set_parked (l : list range) (closed : bool) (B : bus_ledger) : bus_ledger :=
  mk_bus (g_gbus B) l (g_bus_generation B) (g_bus_fail_closed B || closed) (g_bus_prepares B) (g_bus_filter_lo B)
    (g_bus_filter_hi B) (g_bus_filter_force B) (g_bus_page_filter B) (told B).
Definition set_envelope (first last : Z) (B : bus_ledger) : bus_ledger :=
  mk_bus (g_gbus B) (g_gbus_parked B) (g_bus_generation B) (g_bus_fail_closed B) (g_bus_prepares B) first last
    (g_bus_filter_force B) (g_bus_page_filter B) (told B).
Definition set_force (f : Z) (B : bus_ledger) : bus_ledger :=
  mk_bus (g_gbus B) (g_gbus_parked B) (g_bus_generation B) (g_bus_fail_closed B) (g_bus_prepares B) (g_bus_filter_lo B)
    (g_bus_filter_hi B) f (g_bus_page_filter B) (told B).
Definition set_page_filter (f : Z) (B : bus_ledger) : bus_ledger :=
  mk_bus (g_gbus B) (g_gbus_parked B) (g_bus_generation B) (g_bus_fail_closed B) (g_bus_prepares B) (g_bus_filter_lo B)
    (g_bus_filter_hi B) (g_bus_filter_force B) f (told B).
Definition set_prepares (n : Z) (closed : bool) (B : bus_ledger) : bus_ledger :=
  mk_bus (g_gbus B) (g_gbus_parked B) (g_bus_generation B) (g_bus_fail_closed B || closed) n (g_bus_filter_lo B)
    (g_bus_filter_hi B) (g_bus_filter_force B) (g_bus_page_filter B) (told B).
Definition step_generation (B : bus_ledger) : bus_ledger :=
  mk_bus (g_gbus B) (g_gbus_parked B) (u64 (g_bus_generation B + 1)) (g_bus_fail_closed B) (g_bus_prepares B)
    (g_bus_filter_lo B) (g_bus_filter_hi B) (g_bus_filter_force B) (g_bus_page_filter B) (told B).
Definition tell (e : bus_event) (B : bus_ledger) : bus_ledger :=
  mk_bus (g_gbus B) (g_gbus_parked B) (g_bus_generation B) (g_bus_fail_closed B) (g_bus_prepares B)
    (g_bus_filter_lo B) (g_bus_filter_hi B) (g_bus_filter_force B) (g_bus_page_filter B) (told B ++ [e]).

(** ** Filters *)

Definition envelope (l : list range) : Z * Z :=
  foldl (fun '(first, last) r => (Z.min (lo r) first, Z.max (hi r) last)) (UINT64_MAX, 0) l.

Definition gbus_filter_rebuild_locked (B : bus_ledger) : bus_ledger :=
  if g_bus_fail_closed B || negb (g_bus_prepares B =? 0) then set_envelope 0 UINT64_MAX B
  else let '(first, last) := envelope (g_gbus B) in set_envelope first last B.

Definition gbus_page_hash (page : Z) : Z := Z.land page (BUS_FILTER_BITS - 1).

Definition all_pages : Z := Z.ones BUS_FILTER_BITS.

Fixpoint mark_pages (n : nat) (page : Z) (filter : Z) : Z :=
  match n with
  | O => filter
  | S n => mark_pages n (page + 1) (Z.setbit filter (gbus_page_hash page))
  end.

Definition page_mark (first last : Z) (filter : Z) : Z :=
  if last <=? first then filter
  else
    let first_page := Z.shiftr first 12 in
    let last_page := Z.shiftr (last - 1) 12 in
    let from := if first_page =? 0 then first_page else first_page - 1 in
    if BUS_FILTER_BITS <=? last_page - from then all_pages
    else mark_pages (Z.to_nat (last_page - from + 1)) from filter.

Definition gbus_page_mark_locked (first last : Z) (B : bus_ledger) : bus_ledger :=
  set_page_filter (page_mark first last (g_bus_page_filter B)) B.

Definition gbus_page_reset_locked (B : bus_ledger) : bus_ledger := set_page_filter 0 B.

Definition gbus_page_rebuild_locked (B : bus_ledger) : bus_ledger :=
  if g_bus_fail_closed B then set_page_filter all_pages B
  else set_page_filter (foldl (fun f r => page_mark (lo r) (hi r) f) 0 (g_gbus B)) B.

(** ** Arrays *)

Definition gbus_clear_locked (first last : Z) (B : bus_ledger) : option (bool * bus_ledger) :=
  '(l, changed, dropped) ← clear_raw first last (g_gbus B); Some (changed, set_live l dropped B).

Definition gbus_parked_clear_locked (first last : Z) (B : bus_ledger) : option (bool * bus_ledger) :=
  '(l, changed, dropped) ← clear_raw first last (g_gbus_parked B); Some (changed, set_parked l dropped B).

Definition gbus_parked_append_locked (first last : Z) (B : bus_ledger) : option bus_ledger :=
  if last <=? first then Some B
  else
    '(_, B) ← gbus_parked_clear_locked first last B;
    Some (if lengthZ (g_gbus_parked B) <? GNA_MAX
          then set_parked (g_gbus_parked B ++ [mk_range first last]) false B
          else set_parked (g_gbus_parked B) true B).

(** Appending to the live array. *)
Definition live_append (first last : Z) (B : bus_ledger) : bus_ledger :=
  if lengthZ (g_gbus B) <? GNA_MAX then set_live (g_gbus B ++ [mk_range first last]) false B
  else set_live (g_gbus B) true B.

Definition bus_active (B : bus_ledger) : bool :=
  negb (lengthZ (g_gbus B) =? 0) || g_bus_fail_closed B || negb (g_bus_prepares B =? 0).

(** The force word a changed ledger publishes. *)
Definition publish_force (B : bus_ledger) : bus_ledger :=
  set_force (if negb (g_bus_prepares B =? 0) then 3 else if bus_active B then 1 else 0) B.

Definition gbus_notify (active : bool) (B : bus_ledger) : bus_ledger := tell (Changed (g_bus_generation B) active) B.

(** ** Operations *)

(** The result is 0, or -1 when the range found no room. *)
Definition gbus_add (first last : Z) (B : bus_ledger) : option (Z * bus_ledger) :=
  if last <=? first then Some (0, B)
  else
    '(_, B) ← gbus_clear_locked first last B;
    '(_, B) ← gbus_parked_clear_locked first last B;
    let ok := lengthZ (g_gbus B) <? GNA_MAX in
    let B := live_append first last B in
    let B := step_generation (gbus_filter_rebuild_locked (gbus_page_mark_locked first last B)) in
    Some (if ok then 0 else -1, gbus_notify (bus_active B) (publish_force B)).

(** What every change of the live ranges ends with. *)
Definition finish_change (changed : bool) (B : bus_ledger) : bus_ledger :=
  if changed then let B := step_generation B in gbus_notify (bus_active B) (publish_force B) else B.

Definition gbus_clear (first last : Z) (B : bus_ledger) : option bus_ledger :=
  if last <=? first then Some B
  else
    '(changed, B) ← gbus_clear_locked first last B;
    '(_, B) ← gbus_parked_clear_locked first last B;
    let B := if changed && (lengthZ (g_gbus B) =? 0) && negb (g_bus_fail_closed B) then gbus_page_reset_locked B else B in
    Some (finish_change changed (if changed : bool then gbus_filter_rebuild_locked B else B)).

(** The intersections of the live entries with the interval, parked in turn. *)
Fixpoint park_entries (first last : Z) (l : list range) (B : bus_ledger) (changed : bool) : option (bus_ledger * bool) :=
  match l with
  | [] => Some (B, changed)
  | r :: l =>
      if apart first last r then park_entries first last l B changed
      else
        B ← gbus_parked_append_locked (if first <? lo r then lo r else first) (if hi r <? last then hi r else last) B;
        park_entries first last l B true
  end.

Definition gbus_park (first last : Z) (B : bus_ledger) : option bus_ledger :=
  if last <=? first then Some B
  else
    '(B, changed) ← park_entries first last (g_gbus B) B false;
    if changed : bool then
      '(_, B) ← gbus_clear_locked first last B;
      let B := if (lengthZ (g_gbus B) =? 0) && negb (g_bus_fail_closed B) then gbus_page_reset_locked B else B in
      Some (finish_change true (gbus_filter_rebuild_locked B))
    else Some B.

Definition gbus_parked_overlap (first last : Z) (B : bus_ledger) : bool :=
  if last <=? first then false
  else existsb (fun r => (first <? hi r) && (lo r <? last)) (g_gbus_parked B).

(** Each pass moves the part of one parked entry; the scan then starts again. *)
Fixpoint unpark_loop (fuel : nat) (first last : Z) (B : bus_ledger) (changed : bool) : option (bus_ledger * bool) :=
  match fuel with
  | O => None
  | S fuel =>
      match find (fun r => negb (apart first last r)) (g_gbus_parked B) with
      | None => Some (B, changed)
      | Some r =>
          let from := if first <? lo r then lo r else first in
          let to := if hi r <? last then hi r else last in
          '(_, B) ← gbus_parked_clear_locked from to B;
          '(_, B) ← gbus_clear_locked from to B;
          unpark_loop fuel first last (gbus_page_mark_locked from to (live_append from to B)) true
      end
  end.

(** The passes end: each leaves one parked entry less to move. *)
Definition gbus_unpark (first last : Z) (B : bus_ledger) : option bus_ledger :=
  if last <=? first then Some B
  else
    '(B, changed) ← unpark_loop (S (length (g_gbus_parked B))) first last B false;
    Some (finish_change changed (if changed : bool then gbus_filter_rebuild_locked B else B)).

(** ** Transactions *)

Definition gbus_prepare (B : bus_ledger) : bus_ledger :=
  let was_active := bus_active B in
  let B := if was_active then B else gbus_notify true (step_generation B) in
  let B := set_force 3 (tell TransitionBegin B) in
  if negb (g_bus_prepares B =? UINT32_TOP) then set_prepares (g_bus_prepares B + 1) false B
  else set_prepares (g_bus_prepares B) true B.

Definition gbus_prepare_release (B : bus_ledger) : bus_ledger :=
  let B := if negb (g_bus_prepares B =? 0) then set_prepares (g_bus_prepares B - 1) false B else B in
  let B := gbus_filter_rebuild_locked (gbus_page_rebuild_locked B) in
  let active := bus_active B in
  let B := if active then B else step_generation B in
  let B := set_force (if active then 1 else 0) B in
  tell TransitionEnd (if active then B else gbus_notify false B).

Record hl_linux_bus_transition := mk_transition {
  t_generation : Z;
  t_held : bool
}.

Definition hl_linux_bus_transition_begin (t : hl_linux_bus_transition) (B : bus_ledger)
  : Z * hl_linux_bus_transition * bus_ledger :=
  if t_held t then (-1, t, B)
  else let B := gbus_prepare B in (0, mk_transition (g_bus_generation B) true, B).

Definition hl_linux_bus_transition_add (t : hl_linux_bus_transition) (first last : Z) (B : bus_ledger)
  : option (Z * bus_ledger) :=
  if negb (t_held t) then Some (-1, B) else gbus_add first last B.

Definition hl_linux_bus_transition_clear (t : hl_linux_bus_transition) (first last : Z) (B : bus_ledger)
  : option bus_ledger :=
  if t_held t then gbus_clear first last B else Some B.

Definition hl_linux_bus_transition_end (t : hl_linux_bus_transition) (B : bus_ledger)
  : hl_linux_bus_transition * bus_ledger :=
  if negb (t_held t) then (t, B)
  else let B := gbus_prepare_release B in (mk_transition (g_bus_generation B) false, B).

(** ** Queries *)

Definition nonzero (a : Z) : Z := if a =? 0 then 1 else a.

(** [None] waits for the transaction in progress. *)
Definition hl_linux_bus_fault (address length : Z) (B : bus_ledger) : option Z :=
  if length =? 0 then Some 0
  else if UINT64_MAX - length <? address then Some (nonzero address)
  else
    let end_ := address + length in
    if negb (g_bus_filter_force B =? 3) && ((g_bus_filter_hi B <=? address) || (end_ <=? g_bus_filter_lo B)) then Some 0
    else if negb (g_bus_prepares B =? 0) then None
    else if g_bus_fail_closed B then Some (nonzero address)
    else
      match find (fun r => (address <? hi r) && (lo r <? end_)) (g_gbus B) with
      | Some r => Some (nonzero (if lo r <? address then address else lo r))
      | None => Some 0
      end.

Definition hl_linux_bus_hit (address length : Z) (B : bus_ledger) : option bool :=
  fault ← hl_linux_bus_fault address length B; Some (negb (fault =? 0)).

Definition hl_linux_bus_generation (B : bus_ledger) : Z := g_bus_generation B.
Definition hl_linux_bus_active (B : bus_ledger) : bool := bus_active B.

(** The ledger's part of [gna_reset]. *)
Definition gbus_reset (B : bus_ledger) : bus_ledger :=
  let changed := bus_active B in
  let B := set_force 0 (mk_bus [] [] (g_bus_generation B) false 0 UINT64_MAX 0 (g_bus_filter_force B) 0 (told B)) in
  if changed then gbus_notify false (step_generation B) else B.
