(* ===== verification/BusSteps.v ===== *)
(** * The past-EOF ledger: what the operations keep

    Unless the ledger closed, its arrays are the live and the parked sets; the
    envelope, the page filter and the force word never reject a live byte. *)

From S2P Require Import Prelude RangeLedger RangeProofs GuestRangesSteps BusLedger.

(** ** Filters *)

Lemma gbus_page_hash_range page : 0 <= page -> 0 <= gbus_page_hash page < BUS_FILTER_BITS.
Proof.
  intros Hp. unfold gbus_page_hash, BUS_FILTER_BITS. change (65536 - 1) with (Z.ones 16). rewrite Z.land_ones by lia.
  apply Z.mod_pos_bound. lia.
Qed.

Definition marked (filter page : Z) : Prop := Z.testbit filter (gbus_page_hash page) = true.

Lemma marked_all page : 0 <= page -> marked all_pages page.
Proof.
  intros Hp. unfold marked, all_pages. pose proof (gbus_page_hash_range page Hp). apply Z.ones_spec_low. done.
Qed.

Lemma mark_pages_keeps n : forall page filter p,
  0 <= page -> 0 <= p -> marked filter p -> marked (mark_pages n page filter) p.
Proof.
  induction n as [|n IH]; intros page filter p Hpage Hp Hm; simpl; [done|]. apply IH; [lia|done|].
  unfold marked in *. pose proof (gbus_page_hash_range page Hpage). pose proof (gbus_page_hash_range p Hp).
  rewrite Z.setbit_eqb by lia. by rewrite Hm, orb_true_r.
Qed.

Lemma mark_pages_marks n : forall page filter p,
  0 <= page -> page <= p < page + Z.of_nat n -> marked (mark_pages n page filter) p.
Proof.
  induction n as [|n IH]; intros page filter p Hpage Hp; [lia|]. simpl. destruct (decide (p = page)) as [->|Hne].
  - apply mark_pages_keeps; [lia|done|]. unfold marked. pose proof (gbus_page_hash_range page Hpage).
    rewrite Z.setbit_eqb by lia. by rewrite Z.eqb_refl.
  - apply IH; lia.
Qed.

Lemma page_mark_keeps first last filter p : 0 <= first -> 0 <= p -> marked filter p -> marked (page_mark first last filter) p.
Proof.
  intros Hf Hp Hm. unfold page_mark. destruct (last <=? first); [done|]. destruct (_ <=? _); [by apply marked_all|].
  apply mark_pages_keeps; try done. rewrite Z.shiftr_div_pow2 by lia.
  pose proof (Z.div_pos first (2 ^ 12) Hf ltac:(lia)). destruct (Z.eqb_spec (first / 2 ^ 12) 0); lia.
Qed.

(** A byte's page and the page before it. *)
Definition page_guarded (filter x : Z) : Prop :=
  marked filter (x / 4096) /\ (x / 4096 <> 0 -> marked filter (x / 4096 - 1)).

Lemma page_mark_guards first last filter x : 0 <= first -> first <= x < last -> page_guarded (page_mark first last filter) x.
Proof.
  intros Hf Hx. unfold page_mark. destruct (Z.leb_spec last first); [lia|].
  rewrite !Z.shiftr_div_pow2 by lia. change (2 ^ 12) with 4096.
  pose proof (Z.div_pos first 4096 Hf ltac:(lia)). pose proof (Z.div_le_mono first x 4096 ltac:(lia) ltac:(lia)).
  pose proof (Z.div_le_mono x (last - 1) 4096 ltac:(lia) ltac:(lia)).
  set (from := if _ =? 0 then _ else _).
  assert (Hfrom : 0 <= from <= first / 4096 /\ (first / 4096 <> 0 -> from = first / 4096 - 1)).
  { unfold from. destruct (Z.eqb_spec (first / 4096) 0); lia. }
  destruct (Z.leb_spec BUS_FILTER_BITS ((last - 1) / 4096 - from)).
  - split; [|intros Hne]; apply marked_all; lia.
  - split; [|intros Hx0]; apply mark_pages_marks; lia.
Qed.

Lemma page_guarded_keeps first last filter x :
  0 <= first -> 0 <= x -> page_guarded filter x -> page_guarded (page_mark first last filter) x.
Proof.
  intros Hf Hx [H1 H2]. pose proof (Z.div_pos x 4096 Hx ltac:(lia)).
  split; [|intros Hne]; apply page_mark_keeps; auto; lia.
Qed.

Lemma rebuild_guards l : forall filter x,
  Forall (fun r => 0 <= lo r) l -> 0 <= x ->
  covered l x = true \/ page_guarded filter x -> page_guarded (foldl (fun f r => page_mark (lo r) (hi r) f) filter l) x.
Proof.
  induction l as [|r l IH]; intros filter x Hl Hx Hc; simpl; [by destruct Hc|]. inversion_clear Hl as [|? ? Hr Hl'].
  apply IH; [done|done|]. unfold covered in Hc. simpl in Hc. fold (covered l x) in Hc. rewrite orb_true_iff in Hc.
  destruct Hc as [[Hc|Hc]|Hc]; [|by left|right; by apply page_guarded_keeps].
  right. unfold inside in Hc. bool_props. apply page_mark_guards; [done|lia].
Qed.

Lemma envelope_fold l : forall first last,
  let '(f, b) := foldl (fun '(first, last) r => (Z.min (lo r) first, Z.max (hi r) last)) (first, last) l in
  f <= first /\ last <= b /\ forall x, covered l x = true -> f <= x < b.
Proof.
  induction l as [|r l IH]; intros first last; simpl; [split_and!; [lia|lia|done]|].
  specialize (IH (Z.min (lo r) first) (Z.max (hi r) last)). destruct (foldl _ _ l) as [f b]. destruct IH as (H1 & H2 & H3).
  split_and!; [lia|lia|]. intros x Hc. unfold covered in Hc. simpl in Hc. fold (covered l x) in Hc. apply orb_true_iff in Hc as [Hc|Hc].
  - unfold inside in Hc. bool_props. lia.
  - by apply H3.
Qed.

(** ** The invariant *)

Record bus_ok (B : bus_ledger) : Prop := mk_bus_ok {
  bk_live : ranges_ok (g_gbus B);
  bk_parked : ranges_ok (g_gbus_parked B);
  bk_live_bounds : forall x, covered (g_gbus B) x = true -> 0 <= x < UINT64_MAX;
  bk_parked_bounds : forall x, covered (g_gbus_parked B) x = true -> 0 <= x < UINT64_MAX;
  bk_prepares : 0 <= g_bus_prepares B;
  bk_envelope : forall x, covered (g_gbus B) x = true -> g_bus_filter_lo B <= x < g_bus_filter_hi B;
  bk_pages : forall x, covered (g_gbus B) x = true -> page_guarded (g_bus_page_filter B) x;
  bk_force : g_gbus B <> [] -> g_bus_filter_force B <> 0
}.

(** The sets of live and of parked bytes. *)
Record bus_sets := mk_sets {
  s_live : Z -> Prop;
  s_parked : Z -> Prop
}.

(** The arrays are the sets, unless the ledger closed. *)
Definition sound (B : bus_ledger) (S : bus_sets) : Prop :=
  g_bus_fail_closed B = true \/
  (forall x, covered (g_gbus B) x = true <-> s_live S x) /\ (forall x, covered (g_gbus_parked B) x = true <-> s_parked S x).

Lemma ranges_nonneg l : ranges_ok l -> (forall x, covered l x = true -> 0 <= x < UINT64_MAX) -> Forall (fun r => 0 <= lo r) l.
Proof.
  intros Hok Hb. apply List.Forall_forall. intros r Hr. pose proof (rk_nonempty _ Hok) as Hne.
  rewrite List.Forall_forall in Hne. specialize (Hne r Hr). unfold nonempty in Hne. apply (Hb (lo r)). apply covered_In.
  exists r. split; [done|lia].
Qed.

Lemma init_bus_ok : bus_ok bus_init.
Proof. constructor; try done; constructor; try constructor; done. Qed.

(** Rebuilding the envelope after the live array changed. *)
Lemma rebuild_envelope B x :
  (forall x, covered (g_gbus B) x = true -> 0 <= x < UINT64_MAX) -> covered (g_gbus B) x = true ->
  g_bus_filter_lo (gbus_filter_rebuild_locked B) <= x < g_bus_filter_hi (gbus_filter_rebuild_locked B).
Proof.
  intros Hb Hx. unfold gbus_filter_rebuild_locked. destruct (_ || _); [simpl; by apply Hb|].
  unfold envelope. pose proof (envelope_fold (g_gbus B) UINT64_MAX 0) as He. destruct (foldl _ _ _) as [f b].
  simpl. by apply He.
Qed.

Lemma rebuild_same B :
  g_gbus (gbus_filter_rebuild_locked B) = g_gbus B /\ g_gbus_parked (gbus_filter_rebuild_locked B) = g_gbus_parked B /\
  g_bus_fail_closed (gbus_filter_rebuild_locked B) = g_bus_fail_closed B /\
  g_bus_prepares (gbus_filter_rebuild_locked B) = g_bus_prepares B /\
  g_bus_page_filter (gbus_filter_rebuild_locked B) = g_bus_page_filter B /\
  g_bus_filter_force (gbus_filter_rebuild_locked B) = g_bus_filter_force B.
Proof. unfold gbus_filter_rebuild_locked. destruct (_ || _); [done|]. by destruct (envelope _). Qed.

(** ** The past-EOF ledger: the operations *)

(** ** Arrays *)

Record arrays_ok (B : bus_ledger) : Prop := mk_arrays_ok {
  ao_live : ranges_ok (g_gbus B);
  ao_parked : ranges_ok (g_gbus_parked B);
  ao_live_bounds : forall x, covered (g_gbus B) x = true -> 0 <= x < UINT64_MAX;
  ao_parked_bounds : forall x, covered (g_gbus_parked B) x = true -> 0 <= x < UINT64_MAX
}.

Definition cut (first last : Z) (P : Z -> Prop) : Z -> Prop := fun x => P x /\ (x < first \/ last <= x).
Definition join (first last : Z) (P : Z -> Prop) : Z -> Prop := fun x => P x \/ first <= x < last.

(** [P] is what the array stands for, unless the ledger closed. *)
Definition stands (B : bus_ledger) (l : list range) (P : Z -> Prop) : Prop :=
  g_bus_fail_closed B = true \/ forall x, covered l x = true <-> P x.

Lemma sound_stands B S :
  sound B S <-> stands B (g_gbus B) (s_live S) /\ stands B (g_gbus_parked B) (s_parked S).
Proof. unfold sound, stands. destruct (g_bus_fail_closed B); intuition congruence. Qed.

(** The fields an array operation leaves alone. *)
Record same_rest (B B' : bus_ledger) : Prop := mk_same_rest {
  sr_generation : g_bus_generation B' = g_bus_generation B;
  sr_prepares : g_bus_prepares B' = g_bus_prepares B;
  sr_lo : g_bus_filter_lo B' = g_bus_filter_lo B;
  sr_hi : g_bus_filter_hi B' = g_bus_filter_hi B;
  sr_force : g_bus_filter_force B' = g_bus_filter_force B;
  sr_told : told B' = told B;
  sr_closed : g_bus_fail_closed B = true -> g_bus_fail_closed B' = true
}.

Lemma same_rest_trans B1 B2 B3 : same_rest B1 B2 -> same_rest B2 B3 -> same_rest B1 B3.
Proof. intros [] []. constructor; try congruence. auto. Qed.

Section Arrays.
Context (first last : Z) (Hlt : first < last).

Lemma clear_live B P :
  arrays_ok B -> stands B (g_gbus B) P ->
  exists ch B', gbus_clear_locked first last B = Some (ch, B') /\ arrays_ok B' /\ same_rest B B' /\
    g_gbus_parked B' = g_gbus_parked B /\ g_bus_page_filter B' = g_bus_page_filter B /\
    stands B' (g_gbus B') (cut first last P) /\
    (forall x, covered (g_gbus B') x = true -> covered (g_gbus B) x = true /\ (x < first \/ last <= x)) /\
    (ch = false -> forall x, covered (g_gbus B') x = covered (g_gbus B) x).
Proof.
  intros [Hl Hp Hlb Hpb] Hs. unfold gbus_clear_locked.
  destruct (clear_raw_ok first last (g_gbus B) Hlt Hl) as (l & ch & d & -> & Hok & Hsub & Hsup & _ & _ & Hch).
  cbn [mbind option_bind]. eexists ch, _. split; [done|]. split_and!; try done.
  - constructor; try done. simpl. intros x Hx. apply Hlb, Hsub, Hx.
  - constructor; try done. simpl. by intros ->.
  - unfold stands, cut in *. simpl. destruct Hs as [->|Hs]; [by left|]. destruct d; [left; apply orb_true_r|right].
    intros x. rewrite <- Hs. split; [apply Hsub|]. intros [? ?]. by apply Hsup.
  - intros Hf x. simpl. specialize (Hch Hf). apply eq_true_iff_eq. split; apply covered_perm; [done|by symmetry].
Qed.

Lemma clear_parked B P :
  arrays_ok B -> stands B (g_gbus_parked B) P ->
  exists ch B', gbus_parked_clear_locked first last B = Some (ch, B') /\ arrays_ok B' /\ same_rest B B' /\
    g_gbus B' = g_gbus B /\ g_bus_page_filter B' = g_bus_page_filter B /\
    stands B' (g_gbus_parked B') (cut first last P) /\
    (forall x, covered (g_gbus_parked B') x = true -> covered (g_gbus_parked B) x = true /\ (x < first \/ last <= x)).
Proof.
  intros [Hl Hp Hlb Hpb] Hs. unfold gbus_parked_clear_locked.
  destruct (clear_raw_ok first last (g_gbus_parked B) Hlt Hp) as (l & ch & d & -> & Hok & Hsub & Hsup & _).
  cbn [mbind option_bind]. eexists ch, _. split; [done|]. split_and!; try done.
  - constructor; try done. simpl. intros x Hx. apply Hpb, Hsub, Hx.
  - constructor; try done. simpl. by intros ->.
  - unfold stands, cut in *. simpl. destruct Hs as [->|Hs]; [by left|]. destruct d; [left; apply orb_true_r|right].
    intros x. rewrite <- Hs. split; [apply Hsub|]. intros [? ?]. by apply Hsup.
Qed.

(** Appending an interval no entry touches. *)
Lemma append_ok l :
  ranges_ok l -> lengthZ l < GNA_MAX -> (forall x, covered l x = true -> x < first \/ last <= x) ->
  ranges_ok (l ++ [mk_range first last]) /\
  forall x, covered (l ++ [mk_range first last]) x = true <-> covered l x = true \/ first <= x < last.
Proof.
  intros Hok Hroom Hfree. split.
  - constructor.
    + apply Forall_app. split; [apply (rk_nonempty _ Hok)|]. by constructor.
    + apply pairs_app. split_and!; [apply (rk_disjoint _ Hok)|by repeat constructor|]. intros r s Hr [<-|[]].
      pose proof (rk_nonempty _ Hok) as Hne. rewrite List.Forall_forall in Hne. specialize (Hne r Hr). unfold nonempty in Hne.
      assert (Hin : forall x, lo r <= x < hi r -> x < first \/ last <= x).
      { intros x Hx. apply Hfree. apply covered_In. by exists r. }
      pose proof (Hin (lo r) ltac:(lia)). pose proof (Hin (hi r - 1) ltac:(lia)). unfold disjoint_from. simpl.
      destruct (Z.lt_ge_cases (lo r) first); [|lia]. destruct (Z.le_gt_cases (hi r) first); [lia|].
      specialize (Hin first). lia.
    + rewrite lengthZ_app. change (lengthZ [_]) with 1. lia.
  - intros x. by rewrite covered_app, orb_true_iff, covered_one.
Qed.

Lemma live_append_ok B P :
  arrays_ok B -> stands B (g_gbus B) P -> 0 <= first -> last <= UINT64_MAX ->
  (forall x, covered (g_gbus B) x = true -> x < first \/ last <= x) ->
  let B' := live_append first last B in
  arrays_ok B' /\ same_rest B B' /\ g_gbus_parked B' = g_gbus_parked B /\ g_bus_page_filter B' = g_bus_page_filter B /\
  stands B' (g_gbus B') (join first last P) /\
  (forall x, covered (g_gbus B') x = true -> covered (g_gbus B) x = true \/ first <= x < last) /\
  (g_gbus B' <> [] \/ g_bus_fail_closed B' = true).
Proof.
  intros Ha Hs Hf Hb Hfree. pose proof Ha as [Hl Hp Hlb Hpb]. unfold live_append.
  destruct (Z.ltb_spec (lengthZ (g_gbus B)) GNA_MAX) as [Hroom|Hfull]; simpl.
  - destruct (append_ok (g_gbus B) Hl Hroom Hfree) as [Hok Hc]. split_and!; try done.
    + constructor; try done. simpl. intros x Hx. apply Hc in Hx as [Hx|Hx]; [by apply Hlb|lia].
    + constructor; try done. simpl. by intros ->.
    + unfold stands, join in *. simpl. destruct Hs as [->|Hs]; [by left|right]. intros x. by rewrite Hc, Hs.
    + intros x Hx. by apply Hc.
    + left. by destruct (g_gbus B).
  - split_and!; try done.
    + constructor; try done. simpl. by intros ->.
    + left. simpl. apply orb_true_r.
    + intros x Hx. by left.
    + right. apply orb_true_r.
Qed.

Lemma parked_append_ok B P :
  arrays_ok B -> stands B (g_gbus_parked B) P -> 0 <= first -> last <= UINT64_MAX ->
  exists B', gbus_parked_append_locked first last B = Some B' /\ arrays_ok B' /\ same_rest B B' /\
    g_gbus B' = g_gbus B /\ g_bus_page_filter B' = g_bus_page_filter B /\
    stands B' (g_gbus_parked B') (join first last P).
Proof.
  intros Ha Hs Hf Hb. unfold gbus_parked_append_locked. rewrite (proj2 (Z.leb_gt _ _)) by lia.
  destruct (clear_parked B P Ha Hs) as (ch & B1 & -> & Ha1 & Hr1 & Hl1 & Hpf1 & Hs1 & Hsub). cbn [mbind option_bind].
  eexists. split; [done|]. pose proof Ha1 as [Hl Hp Hlb Hpb].
  destruct (Z.ltb_spec (lengthZ (g_gbus_parked B1)) GNA_MAX) as [Hroom|Hfull].
  - assert (Hfree : forall x, covered (g_gbus_parked B1) x = true -> x < first \/ last <= x) by (intros x Hx; by apply Hsub).
    destruct (append_ok (g_gbus_parked B1) Hp Hroom Hfree) as [Hok Hc]. split_and!; try done.
    + constructor; try done. simpl. intros x Hx. apply Hc in Hx as [Hx|Hx]; [by apply Hpb|lia].
    + destruct Hr1. constructor; try done. simpl. intros Hcl. by rewrite sr_closed0.
    + unfold stands, join, cut in *. simpl. destruct Hs1 as [->|Hs1]; [by left|right]. intros x. rewrite Hc, Hs1.
      destruct (Z.lt_ge_cases x first), (Z.lt_ge_cases x last); tauto || lia.
  - split_and!; try done.
    + destruct Hr1. constructor; try done. simpl. intros Hcl. by rewrite sr_closed0.
    + left. simpl. apply orb_true_r.
Qed.
End Arrays.

Lemma stands_iff B l (P Q : Z -> Prop) : (forall x, P x <-> Q x) -> stands B l P -> stands B l Q.
Proof. intros H [Hs|Hs]; [by left|right]. intros x. by rewrite Hs, H. Qed.

Lemma stands_same B B' l l' P :
  stands B l P -> (g_bus_fail_closed B = true -> g_bus_fail_closed B' = true) ->
  (forall x, covered l' x = covered l x) -> stands B' l' P.
Proof. intros [Hs|Hs] Hc Hl; [left; auto|right]. intros x. by rewrite Hl. Qed.

(** ** Parking *)

(** The part of [r] in the interval. *)
Definition part_from (first : Z) (r : range) : Z := if first <? lo r then lo r else first.
Definition part_to (last : Z) (r : range) : Z := if hi r <? last then hi r else last.

Lemma part_spec first last r :
  first < last -> nonempty r -> apart first last r = false ->
  part_from first r < part_to last r /\ lo r <= part_from first r /\ part_to last r <= hi r /\
  forall x, part_from first r <= x < part_to last r <-> lo r <= x < hi r /\ first <= x < last.
Proof.
  intros Hlt Hr Hap. unfold nonempty in Hr. unfold apart in Hap. bool_props. unfold part_from, part_to.
  destruct (Z.ltb_spec first (lo r)), (Z.ltb_spec (hi r) last); split_and!; try lia; intros x; lia.
Qed.

Lemma park_entries_ok first last l : forall B changed P,
  first < last -> arrays_ok B -> stands B (g_gbus_parked B) P ->
  Forall (fun r => nonempty r /\ 0 <= lo r /\ hi r <= UINT64_MAX) l ->
  exists B', park_entries first last l B changed = Some (B', changed || existsb (touched first last) l) /\
    arrays_ok B' /\ same_rest B B' /\ g_gbus B' = g_gbus B /\ g_bus_page_filter B' = g_bus_page_filter B /\
    stands B' (g_gbus_parked B') (fun x => P x \/ (covered l x = true /\ first <= x < last)).
Proof.
  induction l as [|r l IH]; intros B changed P Hlt Ha Hs Hl; simpl.
  { exists B. rewrite orb_false_r. split_and!; try done. eapply stands_iff; [|exact Hs]. simpl. intuition done. }
  inversion_clear Hl as [|? ? (Hr & Hr0 & Hr1) Hl']. unfold nonempty in Hr. unfold touched at 1. destruct (apart first last r) eqn:Hap; simpl.
  - destruct (IH B changed P Hlt Ha Hs Hl') as (B' & -> & Ha' & Hrest & Hg & Hpf & Hs'). exists B'. split_and!; try done.
    eapply stands_iff; [|exact Hs']. intros y. apply apart_spec in Hap.
    rewrite orb_true_iff. unfold inside. rewrite andb_true_iff, Z.leb_le, Z.ltb_lt. intuition lia.
  - fold (part_from first r) (part_to last r). destruct (part_spec first last r Hlt Hr Hap) as (Hft & Hf0 & Ht0 & Hiff).
    set (from := part_from first r) in *. set (to := part_to last r) in *.
    destruct (parked_append_ok from to Hft B P Ha Hs ltac:(lia) ltac:(lia)) as (B1 & -> & Ha1 & Hr1' & Hg1 & Hp1 & Hs1). cbn [mbind option_bind].
    destruct (IH B1 true _ Hlt Ha1 Hs1 Hl') as (B' & -> & Ha' & Hrest & Hg & Hpf & Hs'). exists B'. split_and!; try done.
    + f_equal. f_equal. by rewrite orb_true_r.
    + by eapply same_rest_trans.
    + congruence.
    + congruence.
    + eapply stands_iff; [|exact Hs']. intros y. unfold join. rewrite orb_true_iff. unfold inside. rewrite andb_true_iff, Z.leb_le, Z.ltb_lt, Hiff. tauto.
Qed.

(** ** Unparking *)

Lemma part_pieces_touched first last r :
  first < last -> nonempty r -> apart first last r = false ->
  countZ (touched first last) (pieces (part_from first r) (part_to last r) r) = 0.
Proof.
  intros Hlt Hr Hap. destruct (part_spec first last r Hlt Hr Hap) as (Hft & Hf & Ht & Hiff).
  apply countZ_none. intros s Hs. apply negb_false_iff, apart_spec. unfold pieces in Hs.
  assert (Hna : apart (part_from first r) (part_to last r) r = false).
  { apply not_true_iff_false. rewrite apart_spec. lia. }
  rewrite Hna in Hs. destruct (Z.ltb_spec (lo r) (part_from first r)) as [H1|H1], (Z.ltb_spec (part_to last r) (hi r)) as [H2|H2];
    simpl in Hs; repeat (destruct Hs as [<-|Hs]); try done; simpl; unfold part_from, part_to in *;
    repeat match goal with H : context [Z.ltb ?a ?b] |- _ => destruct (Z.ltb_spec a b) | |- context [Z.ltb ?a ?b] => destruct (Z.ltb_spec a b) end; lia.
Qed.

Lemma clear_part_touched first last l r l' ch d :
  first < last -> ranges_ok l -> In r l -> apart first last r = false ->
  clear_raw (part_from first r) (part_to last r) l = Some (l', ch, d) ->
  countZ (touched first last) l' + 1 <= countZ (touched first last) l.
Proof.
  intros Hlt Hok Hin Hap Hc. pose proof (rk_nonempty _ Hok) as Hne. rewrite List.Forall_forall in Hne.
  destruct (part_spec first last r Hlt (Hne r Hin) Hap) as (Hft & Hf & Ht & _).
  destruct (clear_raw_spec (part_from first r) (part_to last r) l) as (l1 & lost & He & Hp & _). rewrite Hc in He. injection He as <- _ _.
  assert (Hle : countZ (touched first last) l' <= countZ (touched first last) (concat (map (pieces (part_from first r) (part_to last r)) l))).
  { rewrite <- (countZ_perm _ _ _ Hp), countZ_app. pose proof (countZ_bounds (touched first last) lost). lia. }
  apply in_split in Hin as (l2 & l3 & ->). rewrite map_app, concat_app in Hle. cbn [map concat] in Hle.
  pose proof (rk_disjoint _ Hok) as Hd. apply pairs_app in Hd as (_ & Hd & Hcross). inversion_clear Hd as [|? ? Hd' _].
  rewrite List.Forall_forall in Hd'.
  assert (Hid : forall k, (forall s, In s k -> disjoint_from s r) -> concat (map (pieces (part_from first r) (part_to last r)) k) = k).
  { induction k as [|s k IH]; intros Hk; simpl; [done|]. rewrite IH by (intros; apply Hk; by right).
    unfold pieces. assert (apart (part_from first r) (part_to last r) s = true) as ->; [|done].
    apply apart_spec. specialize (Hk s (or_introl eq_refl)). unfold disjoint_from in Hk. lia. }
  rewrite (Hid l2), (Hid l3) in Hle.
  - rewrite !countZ_app, part_pieces_touched in Hle; [|done| |done].
    + rewrite countZ_app. cbn [countZ]. unfold touched at 3. rewrite Hap. simpl. lia.
    + apply Hne. apply in_or_app. right. by left.
  - intros s Hs. apply disjoint_sym. by apply Hd'.
  - intros s Hs. apply Hcross; [done|by left].
Qed.

Definition live_guarded (B : bus_ledger) : Prop :=
  forall x, covered (g_gbus B) x = true -> page_guarded (g_bus_page_filter B) x.

Lemma unpark_loop_ok first last fuel : forall B changed PL PP,
  first < last -> arrays_ok B -> live_guarded B -> stands B (g_gbus B) PL -> stands B (g_gbus_parked B) PP ->
  countZ (touched first last) (g_gbus_parked B) < Z.of_nat fuel ->
  exists B' ch, unpark_loop fuel first last B changed = Some (B', ch) /\ arrays_ok B' /\ same_rest B B' /\ live_guarded B' /\
    stands B' (g_gbus B') (fun x => PL x \/ (PP x /\ first <= x < last)) /\
    stands B' (g_gbus_parked B') (cut first last PP) /\
    (ch = false -> B' = B /\ changed = false) .
Proof.
  induction fuel as [|fuel IH]; intros B changed PL PP Hlt Ha Hg HL HP Hfuel.
  { pose proof (countZ_bounds (touched first last) (g_gbus_parked B)). lia. }
  cbn [unpark_loop]. destruct (find _ (g_gbus_parked B)) as [r|] eqn:Hfind.
  - apply find_some in Hfind as [Hin Hap]. apply negb_true_iff in Hap. fold (part_from first r) (part_to last r).
    pose proof (rk_nonempty _ (ao_parked _ Ha)) as Hne. rewrite List.Forall_forall in Hne. specialize (Hne r Hin).
    destruct (part_spec first last r Hlt Hne Hap) as (Hft & Hf & Ht & Hiff). set (from := part_from first r) in *. set (to := part_to last r) in *.
    assert (Hbounds : 0 <= from /\ to <= UINT64_MAX).
    { unfold nonempty in Hne. pose proof (ao_parked_bounds _ Ha (lo r) ltac:(apply covered_In; exists r; split; [done|lia])).
      pose proof (ao_parked_bounds _ Ha (hi r - 1) ltac:(apply covered_In; exists r; split; [done|lia])). lia. }
    assert (Hcin : forall x, from <= x < to -> covered (g_gbus_parked B) x = true).
    { intros x Hx. apply covered_In. exists r. split; [done|]. apply Hiff in Hx. lia. }
    destruct (clear_parked from to Hft B PP Ha HP) as (c1 & B1 & He1 & Ha1 & Hr1 & Hl1 & Hp1 & Hs1 & Hsub1).
    assert (Hcount : countZ (touched first last) (g_gbus_parked B1) + 1 <= countZ (touched first last) (g_gbus_parked B)).
    { unfold gbus_parked_clear_locked in He1. destruct (clear_raw from to (g_gbus_parked B)) as [[[l' ch'] d']|] eqn:Hc; [|done].
      cbn [mbind option_bind] in He1. injection He1 as _ <-. simpl.
      by eapply (clear_part_touched first last (g_gbus_parked B) r); [|apply (ao_parked _ Ha)|..]. }
    rewrite He1. cbn [mbind option_bind].
    assert (HL1 : stands B1 (g_gbus B1) PL) by (eapply stands_same; [exact HL|apply (sr_closed _ _ Hr1)|by rewrite Hl1]).
    destruct (clear_live from to Hft B1 PL Ha1 HL1) as (c2 & B2 & -> & Ha2 & Hr2 & Hl2 & Hp2 & Hs2 & Hsub2 & _). cbn [mbind option_bind].
    destruct (live_append_ok from to Hft B2 _ Ha2 Hs2) as (Ha3 & Hr3 & Hl3 & Hp3 & Hs3 & Hsub3 & _); [lia|lia|by intros x Hx; apply Hsub2|].
    set (B3 := live_append from to B2) in *. set (B4 := gbus_page_mark_locked from to B3).
    destruct (IH B4 true (join from to (cut from to PL)) (cut from to PP)) as (B' & ch & -> & Ha' & Hr' & Hg' & HL' & HP' & Hch).
    + done.
    + by destruct Ha3.
    + intros x Hx. simpl in Hx |- *. apply Hsub3 in Hx as [Hx|Hx]; [|apply page_mark_guards; lia].
      assert (Hx1 : covered (g_gbus B) x = true) by (rewrite <- Hl1; by apply Hsub2).
      apply page_guarded_keeps; [lia|pose proof (ao_live_bounds _ Ha x Hx1); lia|]. rewrite Hp3, Hp2, Hp1. by apply Hg.
    + exact Hs3.
    + eapply stands_same; [exact Hs1| |].
      * intros Hc. apply (sr_closed _ _ Hr3), (sr_closed _ _ Hr2), Hc.
      * intros x. simpl. by rewrite Hl3, Hl2.
    + simpl. rewrite Hl3, Hl2. lia.
    + exists B', ch. split; [done|]. split_and!; try done.
      * assert (Hr4 : same_rest B3 B4) by (constructor; done).
        exact (same_rest_trans _ _ _ (same_rest_trans _ _ _ (same_rest_trans _ _ _ (same_rest_trans _ _ _ Hr1 Hr2) Hr3) Hr4) Hr').
      * destruct HL' as [Hc|HL']; [by left|]. destruct HP as [Hc|HP].
        { left. apply (sr_closed _ _ Hr'). simpl. apply (sr_closed _ _ Hr3), (sr_closed _ _ Hr2), (sr_closed _ _ Hr1), Hc. }
        right. intros x. rewrite HL'. unfold join, cut. split.
        -- intros [[[? ?]|Hx]|[[? ?] ?]]; auto. right. split; [|by apply Hiff in Hx as [_ ?]]. by apply HP, Hcin.
        -- intros [Hx|[Hx Hxi]].
           ++ left. destruct (Z.lt_ge_cases x from), (Z.lt_ge_cases x to); auto; left; split; auto; lia.
           ++ destruct (Z.lt_ge_cases x from), (Z.lt_ge_cases x to); auto; right; split; auto.
      * eapply stands_iff; [|exact HP']. intros x. unfold cut. pose proof (Hiff x) as Hi. split.
        -- intros [[? ?] ?]. auto.
        -- intros [? Hx]. split; [split; [done|]|done]. destruct (Z.lt_ge_cases x from); [auto|]. destruct (Z.lt_ge_cases x to); [|auto].
           assert (Hxx : from <= x < to) by lia. apply Hi in Hxx. lia.
      * intros ->. by destruct (Hch eq_refl) as [_ ?].
  - exists B, changed. split; [done|]. split_and!; try done.
    + destruct HP as [Hc|HP]; [by left|]. destruct HL as [Hc|HL]; [by left|]. right. intros x. rewrite HL. split; [auto|].
      intros [?|[Hx Hxi]]; [done|]. apply HP, covered_In in Hx as (r & Hr & Hrx). pose proof (find_none _ _ Hfind r Hr) as Hn.
      apply negb_false_iff, apart_spec in Hn. lia.
    + destruct HP as [Hc|HP]; [by left|]. right. intros x. rewrite HP. unfold cut. split; [|by intros [? _]].
      intros Hx. split; [done|]. apply HP, covered_In in Hx as (r & Hr & Hrx). pose proof (find_none _ _ Hfind r Hr) as Hn.
      apply negb_false_iff, apart_spec in Hn. lia.
Qed.

(** ** The past-EOF ledger: every operation on sets *)

Inductive bus_call :=
| BusAdd (first last : Z)
| BusClear (first last : Z)
| BusPark (first last : Z)
| BusUnpark (first last : Z)
| BusPrepare
| BusRelease
| BusReset.

Definition run_bus (e : bus_call) (B : bus_ledger) : option bus_ledger :=
  match e with
  | BusAdd first last => '(_, B) ← gbus_add first last B; Some B
  | BusClear first last => gbus_clear first last B
  | BusPark first last => gbus_park first last B
  | BusUnpark first last => gbus_unpark first last B
  | BusPrepare => Some (gbus_prepare B)
  | BusRelease => Some (gbus_prepare_release B)
  | BusReset => Some (gbus_reset B)
  end.

Definition within (first last : Z) (P : Z -> Prop) : Z -> Prop := fun x => P x /\ first <= x < last.

Definition bus_abstract (e : bus_call) (S : bus_sets) : bus_sets :=
  match e with
  | BusAdd first last => mk_sets (join first last (s_live S)) (cut first last (s_parked S))
  | BusClear first last => mk_sets (cut first last (s_live S)) (cut first last (s_parked S))
  | BusPark first last =>
      mk_sets (cut first last (s_live S)) (fun x => s_parked S x \/ within first last (s_live S) x)
  | BusUnpark first last =>
      mk_sets (fun x => s_live S x \/ within first last (s_parked S) x) (cut first last (s_parked S))
  | BusPrepare | BusRelease => S
  | BusReset => mk_sets (fun _ => False) (fun _ => False)
  end.

Definition call_bounds (e : bus_call) : Prop :=
  match e with
  | BusAdd first last => 0 <= first /\ last <= UINT64_MAX /\ first <= last
  | BusClear first last | BusPark first last | BusUnpark first last => first <= last
  | _ => True
  end.

Inductive bus_reach : bus_ledger -> bus_sets -> Prop :=
| bus_reach_init : bus_reach bus_init (mk_sets (fun _ => False) (fun _ => False))
| bus_reach_step B S B' e :
    bus_reach B S -> call_bounds e -> run_bus e B = Some B' -> bus_reach B' (bus_abstract e S).

(** ** Endings *)

Lemma bus_arrays B : bus_ok B -> arrays_ok B.
Proof. intros []. by constructor. Qed.

(** The end of an operation that changed the live array. *)
Lemma finish_changed B :
  arrays_ok B -> 0 <= g_bus_prepares B -> live_guarded B ->
  let B' := finish_change true (gbus_filter_rebuild_locked B) in
  bus_ok B' /\ g_gbus B' = g_gbus B /\ g_gbus_parked B' = g_gbus_parked B /\
  g_bus_fail_closed B' = g_bus_fail_closed B.
Proof.
  intros [Hl Hp Hlb Hpb] Hpr Hg. pose proof (rebuild_envelope B) as He.
  destruct (rebuild_same B) as (E1 & E2 & E3 & E4 & E5 & E6). simpl. rewrite E1, E2, E3. split; [|done].
  constructor; simpl; rewrite ?E1, ?E2, ?E3, ?E4, ?E5; try done.
  - intros x Hx. by apply He.
  - intros Hne. unfold bus_active. simpl. rewrite E1, E3, E4. destruct (negb (g_bus_prepares B =? 0)); [done|].
    destruct (g_gbus B) as [|r l] eqn:Hb; [done|]. rewrite lengthZ_cons. pose proof (lengthZ_nonneg l).
    rewrite (proj2 (Z.eqb_neq (lengthZ l + 1) 0)) by lia. done.
Qed.

(** ** Operations *)

Section Calls.
Context (B : bus_ledger) (S : bus_sets) (Hok : bus_ok B) (Hs : sound B S).

Lemma sound_same B' S' :
  g_bus_fail_closed B' = g_bus_fail_closed B -> (forall x, covered (g_gbus B') x = covered (g_gbus B) x) ->
  (forall x, covered (g_gbus_parked B') x = covered (g_gbus_parked B) x) ->
  (forall x, s_live S x <-> s_live S' x) -> (forall x, s_parked S x <-> s_parked S' x) -> sound B' S'.
Proof.
  intros Hc Hl Hp HL HP. unfold sound. rewrite Hc. destruct Hs as [H|[H1 H2]]; [by left|right].
  split; intros x; [rewrite Hl, H1|rewrite Hp, H2]; done.
Qed.

Lemma add_call first last :
  0 <= first -> last <= UINT64_MAX -> first <= last ->
  exists r B', gbus_add first last B = Some (r, B') /\ bus_ok B' /\ sound B' (bus_abstract (BusAdd first last) S) /\
    (r = 0 \/ r = -1 /\ g_bus_fail_closed B' = true).
Proof.
  intros Hf Hb Hle. unfold gbus_add. destruct (Z.leb_spec last first) as [Hge|Hlt].
  { exists 0, B. split_and!; [done|done| |by left]. eapply sound_same; try done; intros x; simpl; unfold join, cut; intuition lia. }
  pose proof (bus_arrays _ Hok) as Ha. apply sound_stands in Hs as [HL HP].
  destruct (clear_live first last Hlt B _ Ha HL) as (c1 & B1 & -> & Ha1 & Hr1 & Hp1 & Hpf1 & HL1 & Hsub1 & _). cbn [mbind option_bind].
  assert (HP1 : stands B1 (g_gbus_parked B1) (s_parked S)) by (eapply stands_same; [exact HP|apply (sr_closed _ _ Hr1)|by rewrite Hp1]).
  destruct (clear_parked first last Hlt B1 _ Ha1 HP1) as (c2 & B2 & -> & Ha2 & Hr2 & Hl2 & Hpf2 & HP2 & _). cbn [mbind option_bind].
  assert (HL2 : stands B2 (g_gbus B2) (cut first last (s_live S))) by (eapply stands_same; [exact HL1|apply (sr_closed _ _ Hr2)|by rewrite Hl2]).
  destruct (live_append_ok first last Hlt B2 _ Ha2 HL2 Hf Hb) as (Ha3 & Hr3 & Hp3 & Hpf3 & HL3 & Hsub3 & Hdone).
  { rewrite Hl2. intros x Hx. by apply Hsub1. }
  assert (Hguard : live_guarded (gbus_page_mark_locked first last (live_append first last B2))).
  { intros x Hx. simpl in Hx |- *. rewrite Hpf3, Hpf2, Hpf1. apply Hsub3 in Hx as [Hx|Hx]; [|by apply page_mark_guards].
    rewrite Hl2 in Hx. apply Hsub1 in Hx as [Hx _]. apply page_guarded_keeps; [done| |by apply (bk_pages _ Hok)].
    pose proof (bk_live_bounds _ Hok x Hx). lia. }
  destruct (finish_changed (gbus_page_mark_locked first last (live_append first last B2))) as (Hok' & E1 & E2 & E3).
  - by destruct Ha3.
  - simpl. rewrite (sr_prepares _ _ Hr3), (sr_prepares _ _ Hr2), (sr_prepares _ _ Hr1). apply (bk_prepares _ Hok).
  - done.
  - eexists _, (finish_change true (gbus_filter_rebuild_locked (gbus_page_mark_locked first last (live_append first last B2)))).
    split; [done|]. split; [exact Hok'|]. split.
    + apply sound_stands. unfold stands in *. rewrite E1, E2, E3. simpl. split.
      * eapply stands_iff; [|exact HL3]. intros x. unfold join, cut. destruct (Z.lt_ge_cases x first), (Z.lt_ge_cases x last); intuition lia.
      * eapply stands_same; [exact HP2|apply (sr_closed _ _ Hr3)|]. by rewrite Hp3.
    + unfold live_append in *. destruct (lengthZ (g_gbus B2) <? GNA_MAX) eqn:Hroom; [by left|right]. split; [done|].
      rewrite E3. simpl. apply orb_true_r.
Qed.

Lemma clear_call first last :
  first <= last ->
  exists B', gbus_clear first last B = Some B' /\ bus_ok B' /\ sound B' (bus_abstract (BusClear first last) S).
Proof.
  intros Hle. unfold gbus_clear. destruct (Z.leb_spec last first) as [Hge|Hlt].
  { exists B. split_and!; [done|done|]. eapply sound_same; try done; intros x; simpl; unfold cut; intuition lia. }
  pose proof (bus_arrays _ Hok) as Ha. apply sound_stands in Hs as [HL HP].
  destruct (clear_live first last Hlt B _ Ha HL) as (c1 & B1 & -> & Ha1 & Hr1 & Hp1 & Hpf1 & HL1 & Hsub1 & Hch). cbn [mbind option_bind].
  assert (HP1 : stands B1 (g_gbus_parked B1) (s_parked S)) by (eapply stands_same; [exact HP|apply (sr_closed _ _ Hr1)|by rewrite Hp1]).
  destruct (clear_parked first last Hlt B1 _ Ha1 HP1) as (c2 & B2 & -> & Ha2 & Hr2 & Hl2 & Hpf2 & HP2 & _). cbn [mbind option_bind].
  assert (HL2 : stands B2 (g_gbus B2) (cut first last (s_live S))) by (eapply stands_same; [exact HL1|apply (sr_closed _ _ Hr2)|by rewrite Hl2]).
  assert (Hg2 : live_guarded B2).
  { intros x Hx. rewrite Hl2 in Hx. rewrite Hpf2, Hpf1. apply (bk_pages _ Hok). by apply Hsub1. }
  assert (Hpr : 0 <= g_bus_prepares B2) by (rewrite (sr_prepares _ _ Hr2), (sr_prepares _ _ Hr1); apply (bk_prepares _ Hok)).
  destruct c1; cbn [andb].
  - cbn zeta iota.
    set (B3 := if (lengthZ (g_gbus B2) =? 0) && negb (g_bus_fail_closed B2) then gbus_page_reset_locked B2 else B2).
    assert (H3 : arrays_ok B3 /\ 0 <= g_bus_prepares B3 /\ live_guarded B3 /\ g_gbus B3 = g_gbus B2 /\
      g_gbus_parked B3 = g_gbus_parked B2 /\ g_bus_fail_closed B3 = g_bus_fail_closed B2).
    { unfold B3. destruct ((lengthZ (g_gbus B2) =? 0) && negb (g_bus_fail_closed B2)) eqn:He; [|by split_and!].
      bool_props. assert (Hnil : g_gbus B2 = []) by (apply length_zero_iff_nil; unfold lengthZ in *; lia).
      split_and!; try done; [by destruct Ha2|]. intros x Hx. simpl in Hx. by rewrite Hnil in Hx. }
    destruct H3 as (Ha3 & Hpr3 & Hg3 & E1 & E2 & E3). destruct (finish_changed B3 Ha3 Hpr3 Hg3) as (Hok' & F1 & F2 & F3).
    eexists. split; [done|]. split; [exact Hok'|]. apply sound_stands. unfold stands in *. rewrite F1, F2, F3, E1, E2, E3. done.
  - exists B2. split; [done|]. split; [|apply sound_stands; done].
    assert (Hsame : forall x, covered (g_gbus B2) x = covered (g_gbus B) x) by (intros x; rewrite Hl2; by apply Hch).
    destruct Ha2 as [Hal Hap Halb Hapb]. constructor; try done.
    + intros x Hx. rewrite (sr_lo _ _ Hr2), (sr_hi _ _ Hr2), (sr_lo _ _ Hr1), (sr_hi _ _ Hr1). apply (bk_envelope _ Hok). by rewrite <- Hsame.
    + intros Hne. rewrite (sr_force _ _ Hr2), (sr_force _ _ Hr1). apply (bk_force _ Hok). intros Hnil.
      destruct (g_gbus B2) as [|r l] eqn:Hb; [done|]. pose proof (rk_nonempty _ Hal) as Hn. inversion_clear Hn as [|? ? Hr _]. unfold nonempty in Hr.
      assert (covered (r :: l) (lo r) = true) by (apply covered_In; exists r; split; [by left|lia]).
      rewrite Hsame, Hnil in H. done.
Qed.

Lemma park_call first last :
  first <= last ->
  exists B', gbus_park first last B = Some B' /\ bus_ok B' /\ sound B' (bus_abstract (BusPark first last) S).
Proof.
  intros Hle. unfold gbus_park. destruct (Z.leb_spec last first) as [Hge|Hlt].
  { exists B. split_and!; [done|done|]. eapply sound_same; try done; intros x; simpl; unfold cut, within; intuition lia. }
  pose proof (bus_arrays _ Hok) as Ha. pose proof Hs as Hs'. apply sound_stands in Hs' as [HL HP].
  assert (Hents : Forall (fun r => nonempty r /\ 0 <= lo r /\ hi r <= UINT64_MAX) (g_gbus B)).
  { apply List.Forall_forall. intros r Hr. pose proof (rk_nonempty _ (bk_live _ Hok)) as Hne. rewrite List.Forall_forall in Hne.
    specialize (Hne r Hr). split; [done|]. unfold nonempty in Hne.
    pose proof (bk_live_bounds _ Hok (lo r) ltac:(apply covered_In; exists r; split; [done|lia])).
    pose proof (bk_live_bounds _ Hok (hi r - 1) ltac:(apply covered_In; exists r; split; [done|lia])). lia. }
  destruct (park_entries_ok first last (g_gbus B) B false _ Hlt Ha HP Hents) as (B1 & -> & Ha1 & Hr1 & Hl1 & Hpf1 & HP1).
  cbn [mbind option_bind orb]. destruct (existsb (touched first last) (g_gbus B)) eqn:Hch.
  - assert (HL1 : stands B1 (g_gbus B1) (s_live S)) by (eapply stands_same; [exact HL|apply (sr_closed _ _ Hr1)|by rewrite Hl1]).
    destruct (clear_live first last Hlt B1 _ Ha1 HL1) as (c2 & B2 & -> & Ha2 & Hr2 & Hp2 & Hpf2 & HL2 & Hsub2 & _). cbn [mbind option_bind].
    cbn zeta iota.
    set (B3 := if (lengthZ (g_gbus B2) =? 0) && negb (g_bus_fail_closed B2) then gbus_page_reset_locked B2 else B2).
    assert (H3 : arrays_ok B3 /\ 0 <= g_bus_prepares B3 /\ live_guarded B3 /\ g_gbus B3 = g_gbus B2 /\
      g_gbus_parked B3 = g_gbus_parked B2 /\ g_bus_fail_closed B3 = g_bus_fail_closed B2).
    { assert (Hpr : 0 <= g_bus_prepares B2) by (rewrite (sr_prepares _ _ Hr2), (sr_prepares _ _ Hr1); apply (bk_prepares _ Hok)).
      unfold B3. destruct ((lengthZ (g_gbus B2) =? 0) && negb (g_bus_fail_closed B2)) eqn:He.
      - bool_props. assert (Hnil : g_gbus B2 = []) by (apply length_zero_iff_nil; unfold lengthZ in *; lia).
        split_and!; try done; [by destruct Ha2|]. intros x Hx. simpl in Hx. by rewrite Hnil in Hx.
      - split_and!; try done. intros x Hx. rewrite Hpf2, Hpf1. apply (bk_pages _ Hok). rewrite <- Hl1. by apply Hsub2. }
    destruct H3 as (Ha3 & Hpr3 & Hg3 & E1 & E2 & E3). destruct (finish_changed B3 Ha3 Hpr3 Hg3) as (Hok' & F1 & F2 & F3).
    eexists. split; [done|]. split; [exact Hok'|]. apply sound_stands. unfold stands in *. rewrite F1, F2, F3, E1, E2, E3.
    split; [done|]. destruct HP1 as [Hc|HP1]; [left; by apply (sr_closed _ _ Hr2)|].
    destruct HL as [Hc|HL]; [left; by apply (sr_closed _ _ Hr2), (sr_closed _ _ Hr1)|]. right. intros x. rewrite Hp2, HP1, HL. done.
  - exists B1. split; [done|].
    assert (Hap : forall r, In r (g_gbus B) -> apart first last r = true).
    { intros r Hr. apply not_false_iff_true. intros Hn. assert (existsb (touched first last) (g_gbus B) = true); [|congruence].
      apply existsb_exists. exists r. unfold touched. by rewrite Hn. }
    assert (Hnone : forall x, covered (g_gbus B) x = true -> x < first \/ last <= x).
    { intros x Hx. apply covered_In in Hx as (r & Hr & Hx). specialize (Hap r Hr). apply apart_spec in Hap. lia. }
    split.
    + destruct Ha1 as [Hal Hap1 Halb Hapb]. constructor; try done.
      * rewrite (sr_prepares _ _ Hr1). apply (bk_prepares _ Hok).
      * intros x Hx. rewrite Hl1 in Hx. rewrite (sr_lo _ _ Hr1), (sr_hi _ _ Hr1). by apply (bk_envelope _ Hok).
      * intros x Hx. rewrite Hl1 in Hx. rewrite Hpf1. by apply (bk_pages _ Hok).
      * rewrite Hl1, (sr_force _ _ Hr1). apply (bk_force _ Hok).
    + apply sound_stands. split.
      * destruct HL as [Hc|HL]; [left; by apply (sr_closed _ _ Hr1)|right]. intros x. rewrite Hl1. simpl. unfold cut. rewrite <- HL.
        split; [|by intros [? _]]. intros Hx. split; [done|by apply Hnone].
      * destruct HP1 as [Hc|HP1]; [by left|]. destruct HL as [Hc|HL]; [left; by apply (sr_closed _ _ Hr1)|right].
        intros x. rewrite HP1, HL. done.
Qed.

Lemma unpark_call first last :
  first <= last ->
  exists B', gbus_unpark first last B = Some B' /\ bus_ok B' /\ sound B' (bus_abstract (BusUnpark first last) S).
Proof.
  intros Hle. unfold gbus_unpark. destruct (Z.leb_spec last first) as [Hge|Hlt].
  { exists B. split_and!; [done|done|]. eapply sound_same; try done; intros x; simpl; unfold cut, within; intuition lia. }
  pose proof Hs as Hs'. apply sound_stands in Hs' as [HL HP]. pose proof (countZ_bounds (touched first last) (g_gbus_parked B)).
  destruct (unpark_loop_ok first last (Datatypes.S (length (g_gbus_parked B))) B false _ _ Hlt (bus_arrays _ Hok) (bk_pages _ Hok) HL HP)
    as (B1 & ch & -> & Ha1 & Hr1 & Hg1 & HL1 & HP1 & Hch); [unfold lengthZ in *; lia|]. cbn [mbind option_bind]. destruct ch.
  - destruct (finish_changed B1 Ha1) as (Hok' & F1 & F2 & F3); [rewrite (sr_prepares _ _ Hr1); apply (bk_prepares _ Hok)|done|].
    eexists. split; [done|]. split; [exact Hok'|]. apply sound_stands. unfold stands in *. rewrite F1, F2, F3. done.
  - destruct (Hch eq_refl) as [-> _]. exists B. split; [done|]. split; [done|]. by apply sound_stands.
Qed.

Lemma prepare_call : bus_ok (gbus_prepare B) /\ sound (gbus_prepare B) S.
Proof.
  pose proof Hok as [Hl Hp Hlb Hpb Hpr He Hg Hf]. unfold gbus_prepare.
  assert (Hfields : forall b (B1 : bus_ledger), B1 = (if b : bool then B else gbus_notify true (step_generation B)) ->
    g_gbus B1 = g_gbus B /\ g_gbus_parked B1 = g_gbus_parked B /\ g_bus_fail_closed B1 = g_bus_fail_closed B /\
    g_bus_prepares B1 = g_bus_prepares B /\ g_bus_filter_lo B1 = g_bus_filter_lo B /\ g_bus_filter_hi B1 = g_bus_filter_hi B /\
    g_bus_page_filter B1 = g_bus_page_filter B) by (intros [] B1 ->; done).
  destruct (Hfields (bus_active B) _ eq_refl) as (E1 & E2 & E3 & E4 & E5 & E6 & E7). cbn zeta.
  set (B1 := if bus_active B then B else _) in *. simpl. rewrite E4.
  destruct (negb _); (split; [constructor; simpl; rewrite ?E1, ?E2, ?E3, ?E4, ?E5, ?E6, ?E7; try done; lia|]).
  - eapply sound_same; simpl; rewrite ?E1, ?E2, ?E3; try done. apply orb_false_r.
  - left. simpl. apply orb_true_r.
Qed.

Lemma release_call : bus_ok (gbus_prepare_release B) /\ sound (gbus_prepare_release B) S.
Proof.
  pose proof Hok as [Hl Hp Hlb Hpb Hpr He Hg Hf]. unfold gbus_prepare_release.
  set (B1 := if negb (g_bus_prepares B =? 0) then set_prepares (g_bus_prepares B - 1) false B else B).
  assert (H1 : g_gbus B1 = g_gbus B /\ g_gbus_parked B1 = g_gbus_parked B /\ g_bus_fail_closed B1 = g_bus_fail_closed B /\ 0 <= g_bus_prepares B1).
  { unfold B1. destruct (Z.eqb_spec (g_bus_prepares B) 0); simpl; [done|]. rewrite orb_false_r. split_and!; try done. lia. }
  destruct H1 as (E1 & E2 & E3 & E4).
  set (B2 := gbus_page_rebuild_locked B1).
  assert (H2 : g_gbus B2 = g_gbus B /\ g_gbus_parked B2 = g_gbus_parked B /\ g_bus_fail_closed B2 = g_bus_fail_closed B /\
    g_bus_prepares B2 = g_bus_prepares B1 /\ live_guarded B2).
  { unfold B2, gbus_page_rebuild_locked, live_guarded. destruct (g_bus_fail_closed B1) eqn:Hc; simpl; rewrite ?E1, ?E2, ?E3 in *; split_and!; try done.
    - intros x Hx. pose proof (Hlb x Hx). pose proof (Z.div_pos x 4096 ltac:(lia) ltac:(lia)).
      split; [|intros Hne]; apply marked_all; lia.
    - intros x Hx. apply rebuild_guards; [by apply ranges_nonneg|pose proof (Hlb x Hx); lia|by left]. }
  destruct H2 as (F1 & F2 & F3 & F4 & F5).
  destruct (rebuild_same B2) as (G1 & G2 & G3 & G4 & G5 & G6). pose proof (rebuild_envelope B2) as Henv.
  set (B3 := gbus_filter_rebuild_locked B2) in *. cbn zeta.
  assert (Hend : forall B4, g_gbus B4 = g_gbus B -> g_gbus_parked B4 = g_gbus_parked B -> g_bus_fail_closed B4 = g_bus_fail_closed B ->
    0 <= g_bus_prepares B4 -> g_bus_filter_lo B4 = g_bus_filter_lo B3 -> g_bus_filter_hi B4 = g_bus_filter_hi B3 ->
    g_bus_page_filter B4 = g_bus_page_filter B2 -> g_bus_filter_force B4 = (if bus_active B3 then 1 else 0) ->
    bus_ok B4 /\ sound B4 S).
  { intros B4 K1 K2 K3 K4 K5 K6 K7 K8. split.
    - constructor; rewrite ?K1, ?K2, ?K3, ?K5, ?K6, ?K7, ?K8; try done.
      + intros x Hx. apply Henv; rewrite F1; done.
      + rewrite <- F1. exact F5.
      + intros Hne. unfold bus_active. rewrite G1, F1. destruct (g_gbus B) as [|r l]; [done|]. rewrite lengthZ_cons.
        pose proof (lengthZ_nonneg l). rewrite (proj2 (Z.eqb_neq (lengthZ l + 1) 0)) by lia. done.
    - eapply sound_same; rewrite ?K1, ?K2, ?K3; done. }
  destruct (bus_active B3) eqn:Hact; apply Hend; simpl; rewrite ?G1, ?G2, ?G3, ?G4, ?G5, ?F1, ?F2, ?F3, ?F4; done.
Qed.

Lemma bus_reset_call : bus_ok (gbus_reset B) /\ sound (gbus_reset B) (bus_abstract BusReset S).
Proof.
  assert (Hempty : ranges_ok []) by (constructor; [constructor|constructor|done]). unfold gbus_reset.
  destruct (bus_active B); (split; [by constructor|right; split; intros x; simpl; done]).
Qed.

Lemma bus_call_ok e :
  call_bounds e -> exists B', run_bus e B = Some B' /\ bus_ok B' /\ sound B' (bus_abstract e S).
Proof.
  destruct e as [f b|f b|f b|f b| | |]; simpl; intros Hb.
  - destruct Hb as (Hf & Hb & Hle). destruct (add_call f b Hf Hb Hle) as (r & B' & -> & H1 & H2 & _). by exists B'.
  - by apply clear_call.
  - by apply park_call.
  - by apply unpark_call.
  - eexists. split; [done|]. apply prepare_call.
  - eexists. split; [done|]. apply release_call.
  - eexists. split; [done|]. apply bus_reset_call.
Qed.
End Calls.

Lemma bus_reach_ok B S : bus_reach B S -> bus_ok B /\ sound B S.
Proof.
  induction 1 as [|B S B' e Hr [Hok Hs] Hb Hrun].
  - split; [apply init_bus_ok|]. right. split; intros x; simpl; done.
  - destruct (bus_call_ok B S Hok Hs e Hb) as (B1 & Hrun1 & H1 & H2). rewrite Hrun in Hrun1. by injection Hrun1 as <-.
Qed.

(** ** Queries *)

Lemma bus_fault_spec B S address length :
  bus_ok B -> sound B S -> 0 <= address -> 0 < length -> address + length <= UINT64_MAX ->
  g_bus_prepares B = 0 -> g_bus_fail_closed B = false ->
  exists fault, hl_linux_bus_fault address length B = Some fault /\
    (fault = 0 -> forall x, address <= x < address + length -> s_live S x -> False) /\
    (fault <> 0 -> exists x, address <= x < address + length /\ s_live S x /\ fault = nonzero x).
Proof.
  intros Hok Hs Ha Hl Ht Hp Hc. destruct Hs as [Hs|[Hs _]]; [congruence|]. unfold hl_linux_bus_fault.
  rewrite (proj2 (Z.eqb_neq length 0)), (proj2 (Z.ltb_ge _ _)) by lia. rewrite Hp, Hc. cbn [negb].
  destruct (negb (g_bus_filter_force B =? 3) && _) eqn:Hfilter.
  { exists 0. split; [done|]. split; [|done]. intros _ x Hx Hlive. apply Hs in Hlive. pose proof (bk_envelope _ Hok x Hlive).
    apply andb_true_iff in Hfilter as [_ Hf]. apply orb_true_iff in Hf as [Hf|Hf]; bool_props; lia. }
  rewrite Z.eqb_refl. cbn [negb]. destruct (find _ (g_gbus B)) as [r|] eqn:Hfind.
  - apply find_some in Hfind as [Hin Hr]. bool_props. eexists. split; [done|]. split.
    + unfold nonzero. destruct (Z.eqb_spec (if lo r <? address then address else lo r) 0) as [Hz|Hz]; [done|]. by rewrite ?Hz.
    + intros _. pose proof (rk_nonempty _ (bk_live _ Hok)) as Hne. rewrite List.Forall_forall in Hne. specialize (Hne r Hin).
      unfold nonempty in Hne. exists (if lo r <? address then address else lo r). split; [|split; [|done]].
      * destruct (Z.ltb_spec (lo r) address); lia.
      * apply Hs, covered_In. exists r. split; [done|]. destruct (Z.ltb_spec (lo r) address); lia.
  - exists 0. split; [done|]. split; [|done]. intros _ x Hx Hlive. apply Hs, covered_In in Hlive as (r & Hin & Hrx).
    pose proof (find_none _ _ Hfind r Hin) as Hn. apply andb_false_iff in Hn as [Hn|Hn]; bool_props; lia.
Qed.
