(* ===== verification/RegistryTheorems.v ===== *)
(** * What the registries of guest ranges promise

    The theorems of the protection registries, and those of the ledger of bytes
    past a file's end. *)

From S2P Require Import Prelude RangeLedger RangeProofs GuestRanges GuestRangesSteps BusLedger BusSteps.

(** ** Properties of the guest protection registries

    The registries are sets of addresses, merged or not, and neither the
    merging nor the caches of a thread change an answer. *)

(** ** Runs *)

(** The state after the events, and the sets they stand for. *)
Fixpoint run_ranges (c : bool) (l : list range_event) (R : registries) : option registries :=
  match l with
  | [] => Some R
  | e :: l => R ← run_range c e R; run_ranges c l R
  end.

Definition demo_image : projection := mk_projection 0x400000 0x480000 0x10000000.
Definition demo_event1 : range_event := AddRange PROT_NONE 8192 16384.
Definition demo_event2 : range_event := AddRange PROT_NONE 16384 20480.
Definition demo_after (c : bool) : registries :=
  default (registries_init demo_image) (run_ranges c [demo_event1; demo_event2] (registries_init demo_image)).
Definition demo_sets : protections := abstract_step demo_event2 (abstract_step demo_event1 (fun _ _ => False)).

Lemma demo_ranges_reach c : ranges_reach c demo_image 2 (demo_after c) demo_sets.
Proof.
  assert (H1 : exists R, run_range c demo_event1 (registries_init demo_image) = Some R /\ room R /\
    run_range c demo_event2 R = Some (demo_after c)).
  { destruct c; (eexists; split; [reflexivity|split; [intros []; vm_compute; reflexivity|vm_compute; reflexivity]]). }
  destruct H1 as (R & H1 & Hroom & H2).
  apply (reach_step c demo_image 1 R _ _ demo_event2); [|done|done|exact H2].
  apply (reach_step c demo_image 0 (registries_init demo_image) (fun _ _ => False) R demo_event1); [apply reach_init|intros []; vm_compute; reflexivity|done|exact H1].
Qed.

Lemma demo_image_ok : image_ok demo_image.
Proof. right. vm_compute. repeat split; discriminate. Qed.

(** ** Writers *)

(** The PROT_NONE set is whole pages. *)
Definition whole_pages (S : Z -> Prop) : Prop :=
  forall x y, 0 <= x -> 0 <= y -> x / 4096 = y / 4096 -> (S x <-> S y).

Lemma covers_bytes (S : Z -> Prop) l u len :
  (forall x, covered l x = true <-> S x) ->
  (exists x, u <= x < u + len /\ covered l x = true) <-> exists x, u <= x < u + len /\ S x.
Proof. intros H. split; intros (x & Hx & Hc); exists x; split; try done; by apply H. Qed.

Lemma whole_pages_uniform S l : (forall x, covered l x = true <-> S x) -> whole_pages S -> page_uniform l.
Proof. intros H Hw x y Hx Hy Hxy. apply eq_true_iff_eq. rewrite !H. by apply Hw. Qed.

(** C33: The registries are three sets of addresses.  Through any additions,
    removals and resets - each made while the arrays have two free slots, and
    then it does not fail - and any questions of a thread in between, whose
    caches are what those questions left: the read-only and the non-executable
    test answer whether the range holds a byte of their set, the permitted
    prefix ends at the first PROT_NONE byte, and the any-byte PROT_NONE test is
    exact while that set is whole pages ([partial_page_missed] is what happens
    when it is not).  Ranges are non-empty, in the guest's coordinates after
    the fold of a low image, and do not wrap; there are at most 2^61 changes. *)
Theorem registries_refine_sets c pc p n R A C :
  thread_reach c pc p n R A C -> n <= 2 ^ 61 ->
  (forall e, room R -> event_bounds e -> is_Some (run_range c e R)) /\
  forall a len, query_bounds R a len -> let u := nonpie_unfold (image R) a in
    (gro_hit a len R = true <-> exists x, u <= x < u + len /\ A ReadOnly x) /\
    (gnx_hit a len R = true <-> exists x, u <= x < u + len /\ A NoExec x) /\
    (let q := fst (gna_prefix pc a len R C) in
     0 <= q <= len /\ (forall i, 0 <= i < q -> ~ A PROT_NONE (u + i)) /\ (q < len -> A PROT_NONE (u + q))) /\
    (whole_pages (A PROT_NONE) ->
     fst (gna_hit a len R C) = true <-> exists x, u <= x < u + len /\ A PROT_NONE x).
Proof.
  intros Hr Hn. pose proof (thread_caches_ok _ _ _ _ _ _ _ Hr Hn) as HC. apply thread_ranges in Hr.
  destruct (reach_ok c p n R A Hr Hn) as (Hn0 & Hok & Hset). split.
  { intros e Hroom He. destruct (writer_ok c n R ltac:(lia) Hok Hroom e He) as (R' & -> & _). done. }
  intros a len (Hl & H1 & H2) u. split; [|split; [|split]].
  - rewrite (gro_hit_spec n R Hok a len Hl H1 H2). apply (covers_bytes (A ReadOnly)), (Hset ReadOnly).
  - rewrite (gnx_hit_spec n R Hok a len Hl H1 H2). apply (covers_bytes (A NoExec)), (Hset NoExec).
  - destruct (gna_prefix_spec n R Hok pc a len C HC Hl H1 H2) as (q & D & -> & _ & Hq & Hfree & Hstop). cbn [fst].
    split; [done|]. split; [|intros Hlt; by apply (Hset PROT_NONE), Hstop].
    intros i Hi Hin. apply (Hset PROT_NONE) in Hin. rewrite Hfree in Hin; done.
  - intros Hw. destruct (gna_hit_step n R Hok a len C HC Hl H1 H2) as (b & D & -> & _ & Hb). cbn [fst].
    rewrite Hb by (by apply (whole_pages_uniform (A PROT_NONE)); [apply (Hset PROT_NONE)|]).
    apply (covers_bytes (A PROT_NONE)), (Hset PROT_NONE).
Qed.

(** Two queries after the additions, the second from the slot the first left. *)
Definition demo_asked : thread_caches := snd (gna_prefix true 4096 100 (demo_after true) caches_init).

Lemma demo_query : query_bounds (demo_after true) 4096 100 /\ query_bounds (demo_after true) 4196 50.
Proof. split; (split; [lia|split; [vm_compute; discriminate|vm_compute; reflexivity]]). Qed.

Lemma demo_thread_reach : thread_reach true true demo_image 2 (demo_after true) demo_sets demo_asked.
Proof.
  apply thread_prefix; [|exact (proj1 demo_query)].
  assert (H1 : exists R, run_range true demo_event1 (registries_init demo_image) = Some R /\ room R /\
    run_range true demo_event2 R = Some (demo_after true))
    by (eexists; split; [reflexivity|split; [intros []; vm_compute; reflexivity|vm_compute; reflexivity]]).
  destruct H1 as (R & H1 & Hroom & H2).
  apply (thread_event true true demo_image 1 R _ _ _ demo_event2); [|done|done|exact H2].
  apply (thread_event true true demo_image 0 (registries_init demo_image) _ _ R demo_event1);
    [apply thread_init|intros []; vm_compute; reflexivity|done|exact H1].
Qed.

Lemma registries_refine_sets_witness :
  nonpie_unfold (image (demo_after true)) 4196 = 4196 /\
  (forall e, room (demo_after true) -> event_bounds e -> is_Some (run_range true e (demo_after true))) /\
  let u := nonpie_unfold (image (demo_after true)) 4196 in
    (gro_hit 4196 50 (demo_after true) = true <-> exists x, u <= x < u + 50 /\ demo_sets ReadOnly x) /\
    (gnx_hit 4196 50 (demo_after true) = true <-> exists x, u <= x < u + 50 /\ demo_sets NoExec x) /\
    (let q := fst (gna_prefix true 4196 50 (demo_after true) demo_asked) in
     0 <= q <= 50 /\ (forall i, 0 <= i < q -> ~ demo_sets PROT_NONE (u + i)) /\ (q < 50 -> demo_sets PROT_NONE (u + q))) /\
    (whole_pages (demo_sets PROT_NONE) ->
     fst (gna_hit 4196 50 (demo_after true) demo_asked) = true <-> exists x, u <= x < u + 50 /\ demo_sets PROT_NONE x).
Proof.
  split; [reflexivity|].
  destruct (registries_refine_sets true true demo_image 2 (demo_after true) demo_sets demo_asked demo_thread_reach ltac:(lia))
    as [Hevent Hquery].
  split; [exact Hevent|exact (Hquery 4196 50 (proj2 demo_query))].
Defined.

(** Merging adjacent intervals and the page cache are invisible: after the
    same events the merged and the unmerged registries, whatever sound caches
    the reader holds, give the same prefix of permitted bytes and the same
    hits in the read-only and non-executable registries. *)
Theorem coalescing_is_invisible p n R1 R2 A C1 C2 pc1 pc2 a len :
  ranges_reach true p n R1 A -> ranges_reach false p n R2 A -> image R1 = image R2 -> n <= 2 ^ 61 ->
  caches_ok R1 C1 -> caches_ok R2 C2 -> 0 < len -> 0 <= nonpie_unfold (image R1) a ->
  nonpie_unfold (image R1) a + len < 2 ^ 64 ->
  fst (gna_prefix pc1 a len R1 C1) = fst (gna_prefix pc2 a len R2 C2) /\
  gro_prefix a len R1 = gro_prefix a len R2 /\ gro_hit a len R1 = gro_hit a len R2 /\ gnx_hit a len R1 = gnx_hit a len R2.
Proof.
  intros H1 H2 Himg Hn HC1 HC2 Hl Ha Hb. destruct (reach_ok _ _ _ _ _ H1 Hn) as (_ & Hok1 & Hs1).
  destruct (reach_ok _ _ _ _ _ H2 Hn) as (_ & Hok2 & Hs2).
  assert (Hsame : forall w x, covered (ranges (array w R1)) x = covered (ranges (array w R2)) x).
  { intros w x. apply eq_true_iff_eq. by rewrite Hs1, Hs2. }
  destruct (gna_prefix_spec n R1 Hok1 pc1 a len C1 HC1 Hl Ha Hb) as (q1 & D1 & -> & _ & P1).
  rewrite Himg in Ha, Hb. destruct (gna_prefix_spec n R2 Hok2 pc2 a len C2 HC2 Hl Ha Hb) as (q2 & D2 & -> & _ & P2).
  pose proof (gro_prefix_spec n R2 Hok2 a len Hl Ha Hb) as Q2. pose proof (gro_hit_spec n R2 Hok2 a len Hl Ha Hb) as G2.
  pose proof (gnx_hit_spec n R2 Hok2 a len Hl Ha Hb) as X2. rewrite <- Himg in *.
  pose proof (gro_prefix_spec n R1 Hok1 a len Hl Ha Hb) as Q1. pose proof (gro_hit_spec n R1 Hok1 a len Hl Ha Hb) as G1.
  pose proof (gnx_hit_spec n R1 Hok1 a len Hl Ha Hb) as X1.
  assert (Hprefix : forall S1 S2 q1 q2, (forall x, S1 x = S2 x) -> prefix_of S1 (nonpie_unfold (image R1) a) len q1 ->
    prefix_of S2 (nonpie_unfold (image R1) a) len q2 -> q1 = q2).
  { intros S1 S2 p1 p2 HS (K1 & K2 & K3) HP. eapply prefix_of_unique; [|exact HP].
    split; [done|]. split; [intros i Hi; rewrite <- HS; by apply K2|intros Hlt; rewrite <- HS; by apply K3]. }
  split; [by apply (Hprefix _ _ _ _ (Hsame PROT_NONE))|]. split; [by apply (Hprefix _ _ _ _ (Hsame ReadOnly))|].
  split; apply eq_true_iff_eq.
  - rewrite G1, G2. split; intros (x & Hx & Hc); exists x; (split; [done|]); [rewrite <- (Hsame ReadOnly)|rewrite (Hsame ReadOnly)]; done.
  - rewrite X1, X2. split; intros (x & Hx & Hc); exists x; (split; [done|]); [rewrite <- (Hsame NoExec)|rewrite (Hsame NoExec)]; done.
Qed.

Lemma demo_caches_ok c : caches_ok (demo_after c) caches_init.
Proof. apply caches_init_ok; destruct c; vm_compute; discriminate. Qed.

Lemma coalescing_is_invisible_witness :
  fst (gna_prefix true 4096 16384 (demo_after true) caches_init) = fst (gna_prefix false 4096 16384 (demo_after false) caches_init) /\
  gro_prefix 4096 16384 (demo_after true) = gro_prefix 4096 16384 (demo_after false) /\
  gro_hit 4096 16384 (demo_after true) = gro_hit 4096 16384 (demo_after false) /\
  gnx_hit 4096 16384 (demo_after true) = gnx_hit 4096 16384 (demo_after false).
Proof.
  apply (coalescing_is_invisible demo_image 2 (demo_after true) (demo_after false) demo_sets caches_init caches_init true false);
    [apply demo_ranges_reach|apply demo_ranges_reach|reflexivity|lia|apply demo_caches_ok|apply demo_caches_ok|lia
    |vm_compute; discriminate|vm_compute; reflexivity].
Defined.

(** The two arrays differ: one entry against two. *)
Example coalesced_arrays : (ranges (g_gna (demo_after true)), ranges (g_gna (demo_after false))) =
  ([mk_range 8192 20480], [mk_range 8192 16384; mk_range 16384 20480]).
Proof. vm_compute. reflexivity. Qed.

(** ** Readers *)

(** [guest_exec_direct_valid] answers, cached or not, whether no byte of an
    instruction within a page lies in a non-executable range, in the guest's
    coordinates; and the caches it leaves are sound. *)
Theorem exec_valid_exact n R C guest length :
  registries_ok n R -> caches_ok R C -> image_ok (image R) -> 0 <= guest -> 0 < length ->
  guest mod 4096 + length <= 4096 -> guest + length <= 2 ^ 63 ->
  exists b C', guest_exec_direct_valid guest length R C = (b, C') /\ caches_ok R C' /\
    (b = true <-> forall x, guest <= x < guest + length -> covered (ranges (g_gnx R)) (nonpie_unfold (image R) x) = false).
Proof. intros Hok. by apply exec_valid_spec with (n := n). Qed.

Lemma demo_after_ok c : registries_ok 2 (demo_after c).
Proof. destruct (reach_ok _ _ _ _ _ (demo_ranges_reach c) ltac:(lia)) as (_ & Hok & _). done. Qed.

Lemma exec_valid_exact_witness :
  exists b C', guest_exec_direct_valid 0x10400010 4 (demo_after true) caches_init = (b, C') /\ caches_ok (demo_after true) C' /\
    (b = true <-> forall x, 0x10400010 <= x < 0x10400010 + 4 ->
       covered (ranges (g_gnx (demo_after true))) (nonpie_unfold (image (demo_after true)) x) = false).
Proof.
  apply (exec_valid_exact 2 (demo_after true) caches_init 0x10400010 4);
    [apply demo_after_ok|apply demo_caches_ok|exact demo_image_ok|lia|lia|vm_compute; discriminate|vm_compute; discriminate].
Defined.

(** While the PROT_NONE set is whole pages, [gna_hit] is exact, whatever
    sound caches the thread holds. *)
Theorem gna_hit_exact n R C a len :
  registries_ok n R -> caches_ok R C -> page_uniform (ranges (g_gna R)) -> 0 < len ->
  0 <= nonpie_unfold (image R) a -> nonpie_unfold (image R) a + len < 2 ^ 64 ->
  exists b C', gna_hit a len R C = (b, C') /\ caches_ok R C' /\
    (b = true <-> exists x, nonpie_unfold (image R) a <= x < nonpie_unfold (image R) a + len /\
                   covered (ranges (g_gna R)) x = true).
Proof. intros Hok. by apply gna_hit_spec with (n := n). Qed.

Lemma demo_uniform c : page_uniform (ranges (g_gna (demo_after c))).
Proof.
  intros x y Hx Hy Hxy. pose proof (page_split x). pose proof (page_split y). rewrite Hxy in *.
  assert (Hd : y / 4096 <= 1 \/ 2 <= y / 4096 <= 3 \/ y / 4096 = 4 \/ 5 <= y / 4096) by lia.
  assert (Hset : forall z, covered (ranges (g_gna (demo_after c))) z = true <-> 8192 <= z < 20480).
  { intros z. destruct (reach_ok _ _ _ _ _ (demo_ranges_reach c) ltac:(lia)) as (_ & _ & Hs).
    rewrite (Hs PROT_NONE). unfold demo_sets, demo_event1, demo_event2, abstract_step. split; [intros [[[]|[_ Hz]]|[_ Hz]]; lia|].
    intros Hz. destruct (Z.lt_ge_cases z 16384); [left; right|right]; (split; [done|lia]). }
  apply eq_true_iff_eq. rewrite !Hset. lia.
Qed.

Lemma gna_hit_exact_witness :
  exists b C', gna_hit 20000 100 (demo_after true) caches_init = (b, C') /\ caches_ok (demo_after true) C' /\
    (b = true <-> exists x, 20000 <= x < 20000 + 100 /\ covered (ranges (g_gna (demo_after true))) x = true).
Proof.
  apply (gna_hit_exact 2 (demo_after true) caches_init 20000 100);
    [apply demo_after_ok|apply demo_caches_ok|apply demo_uniform|lia|vm_compute; discriminate|vm_compute; reflexivity].
Defined.

(** An interval of part of a page, and a query of another part before it. *)
Definition demo_partial : registries := default (registries_init demo_image) (gna_add true 4196 4296 (registries_init demo_image)).

(** For a range that is not whole pages [gna_hit] is wrong: a miss of one
    part of a page is cached for the page, and a byte that is PROT_NONE is
    then missed. *)
Theorem partial_page_missed :
  exists C, gna_hit 4096 50 demo_partial caches_init = (false, C) /\
    covered (ranges (g_gna demo_partial)) 4196 = true /\
    fst (gna_hit 4196 1 demo_partial caches_init) = true /\ fst (gna_hit 4196 1 demo_partial C) = false.
Proof.
  exists (snd (gna_hit 4096 50 demo_partial caches_init)). split; [|vm_compute; done].
  rewrite (surjective_pairing (gna_hit 4096 50 demo_partial caches_init)). f_equal.
Qed.

(** ** Properties of the past-EOF ledger

    The ledger is the sets of live and of parked bytes or is closed, its
    filters never reject a live byte, and a query is exact; except that a
    range lost by [gbus_clear] closes the ledger without telling its filters. *)

(** ** Runs *)

Fixpoint run_calls (l : list bus_call) (B : bus_ledger) : option bus_ledger :=
  match l with
  | [] => Some B
  | e :: l => B ← run_bus e B; run_calls l B
  end.

Definition abstract_calls (l : list bus_call) (S : bus_sets) : bus_sets := foldl (fun S e => bus_abstract e S) S l.

Lemma run_calls_reach l : forall B S B',
  bus_reach B S -> Forall call_bounds l -> run_calls l B = Some B' -> bus_reach B' (abstract_calls l S).
Proof.
  induction l as [|e l IH]; intros B S B' Hr Hl Hrun; simpl in Hrun; [by injection Hrun as <-|].
  inversion_clear Hl. destruct (run_bus e B) as [B1|] eqn:He; [|done]. simpl in Hrun. apply (IH B1); [|done|done].
  by eapply bus_reach_step.
Qed.

Definition no_sets : bus_sets := mk_sets (fun _ => False) (fun _ => False).

(** Two tails, the second parked under PROT_NONE. *)
Definition bus_demo_calls : list bus_call :=
  [BusPrepare; BusAdd 8192 16384; BusRelease; BusAdd 32768 36864; BusPark 32768 36864].
Definition bus_demo : bus_ledger := default bus_init (run_calls bus_demo_calls bus_init).
Definition bus_demo_sets : bus_sets := abstract_calls bus_demo_calls no_sets.

Lemma bus_demo_reach : bus_reach bus_demo bus_demo_sets.
Proof.
  apply (run_calls_reach _ bus_init); [apply bus_reach_init|repeat (apply Forall_cons; [simpl; unfold UINT64_MAX; lia|]); apply Forall_nil|vm_compute; reflexivity].
Qed.

(** ** The ledger *)

(** After any calls, each of which returns, the ledger is closed or its
    arrays are exactly the live and the parked bytes, disjoint within their
    512 slots; and no filter in front of them rejects a live byte: it lies in
    the envelope, its page and the page before are marked, and the guards are
    armed. *)
Theorem bus_sets_or_closed B S :
  bus_reach B S ->
  (g_bus_fail_closed B = true \/
   (forall x, covered (g_gbus B) x = true <-> s_live S x) /\ (forall x, covered (g_gbus_parked B) x = true <-> s_parked S x)) /\
  ranges_ok (g_gbus B) /\ ranges_ok (g_gbus_parked B) /\
  (forall x, covered (g_gbus B) x = true ->
     g_bus_filter_lo B <= x < g_bus_filter_hi B /\ page_guarded (g_bus_page_filter B) x /\ g_bus_filter_force B <> 0) /\
  forall e, call_bounds e -> is_Some (run_bus e B).
Proof.
  intros Hr. destruct (bus_reach_ok B S Hr) as [Hok Hs]. split; [exact Hs|]. split; [apply Hok|]. split; [apply Hok|]. split.
  - intros x Hx. split; [by apply Hok|]. split; [by apply Hok|]. apply (bk_force _ Hok). by intros Hn; rewrite Hn in Hx.
  - intros e He. destruct (bus_call_ok B S Hok Hs e He) as (B' & -> & _). done.
Qed.

Lemma bus_sets_or_closed_witness :
  (g_bus_fail_closed bus_demo = true \/
   (forall x, covered (g_gbus bus_demo) x = true <-> s_live bus_demo_sets x) /\
   (forall x, covered (g_gbus_parked bus_demo) x = true <-> s_parked bus_demo_sets x)) /\
  ranges_ok (g_gbus bus_demo) /\ ranges_ok (g_gbus_parked bus_demo) /\
  (forall x, covered (g_gbus bus_demo) x = true ->
     g_bus_filter_lo bus_demo <= x < g_bus_filter_hi bus_demo /\ page_guarded (g_bus_page_filter bus_demo) x /\
     g_bus_filter_force bus_demo <> 0) /\
  forall e, call_bounds e -> is_Some (run_bus e bus_demo).
Proof. apply (bus_sets_or_closed bus_demo bus_demo_sets). exact bus_demo_reach. Defined.

(** C34: Between transactions, in a ledger that has not failed closed,
    [hl_linux_bus_fault] answers zero exactly when the range holds no live
    byte, and otherwise a live byte of it; and no filter that generated code
    reads before it asks hides a live byte: the byte lies in the published
    envelope, its page and the page before it are marked in the page filter,
    and the guards are armed. *)
Theorem bus_fault_exact B S :
  bus_reach B S -> g_bus_prepares B = 0 -> g_bus_fail_closed B = false ->
  (forall x, s_live S x ->
     g_bus_filter_lo B <= x < g_bus_filter_hi B /\ page_guarded (g_bus_page_filter B) x /\ g_bus_filter_force B <> 0) /\
  forall address length, 0 <= address -> 0 < length -> address + length <= UINT64_MAX ->
  exists fault, hl_linux_bus_fault address length B = Some fault /\
    (fault = 0 -> forall x, address <= x < address + length -> s_live S x -> False) /\
    (fault <> 0 -> exists x, address <= x < address + length /\ s_live S x /\ fault = nonzero x).
Proof.
  intros Hr Hp Hc. destruct (bus_reach_ok B S Hr) as [Hok Hs]. split.
  - intros x Hx. destruct Hs as [Hs|[Hs _]]; [congruence|]. apply Hs in Hx.
    split; [by apply Hok|]. split; [by apply Hok|]. apply (bk_force _ Hok). by intros Hn; rewrite Hn in Hx.
  - intros address length Ha Hl Ht. by apply bus_fault_spec.
Qed.

Lemma bus_fault_exact_witness :
  (forall x, s_live bus_demo_sets x ->
     g_bus_filter_lo bus_demo <= x < g_bus_filter_hi bus_demo /\ page_guarded (g_bus_page_filter bus_demo) x /\
     g_bus_filter_force bus_demo <> 0) /\
  exists fault, hl_linux_bus_fault 4096 8192 bus_demo = Some fault /\
    (fault = 0 -> forall x, 4096 <= x < 4096 + 8192 -> s_live bus_demo_sets x -> False) /\
    (fault <> 0 -> exists x, 4096 <= x < 4096 + 8192 /\ s_live bus_demo_sets x /\ fault = nonzero x).
Proof.
  destruct (bus_fault_exact bus_demo bus_demo_sets bus_demo_reach ltac:(vm_compute; reflexivity) ltac:(vm_compute; reflexivity))
    as [Hfilter Hfault].
  split; [exact Hfilter|apply Hfault; [lia|lia|unfold UINT64_MAX; lia]].
Defined.

(** ** A range lost in silence *)

(** 512 pieces of a tail, parked one by one, and a hole made in the last. *)
Definition piece (i : nat) : Z := 4096 * (16 + 3 * Z.of_nat i).
Definition losing_calls : list bus_call :=
  [BusAdd (piece 0) (piece 512)] ++ map (fun i => BusPark (piece i) (piece (S i))) (seq 0 512) ++
  [BusClear (piece 511 + 4096) (piece 511 + 8192)].
Definition lost_ledger : bus_ledger := default bus_init (run_calls losing_calls bus_init).

Lemma losing_bounds : Forall call_bounds losing_calls.
Proof.
  apply Forall_app_2; [apply Forall_cons; [unfold call_bounds, piece, UINT64_MAX; lia|apply Forall_nil]|].
  apply Forall_app_2; [|apply Forall_cons; [unfold call_bounds, piece; lia|apply Forall_nil]].
  apply List.Forall_forall. intros e (i & <- & _)%in_map_iff. unfold piece. simpl. lia.
Qed.

Definition silent (B : bus_ledger) : bool :=
  g_bus_fail_closed B && (g_bus_filter_force B =? 0) && (g_bus_filter_hi B =? 0).

Lemma lost_run : match run_calls losing_calls bus_init with Some B => silent B | None => false end = true.
Proof. vm_compute. reflexivity. Qed.

Lemma run_default (o : option bus_ledger) B :
  match o with Some B => silent B | None => false end = true -> B = default bus_init o -> o = Some B /\ silent B = true.
Proof. intros Ho ->. by destruct o. Qed.

Lemma lost_defined : run_calls losing_calls bus_init = Some lost_ledger /\ silent lost_ledger = true.
Proof.
  refine (run_default (run_calls losing_calls bus_init) lost_ledger lost_run _). unfold lost_ledger. reflexivity.
Qed.

Lemma silent_answers B address length :
  silent B = true -> 0 <= address -> 0 < length -> address + length <= UINT64_MAX ->
  hl_linux_bus_fault address length B = Some 0.
Proof.
  intros Hs Ha Hl Ht. unfold silent in Hs. bool_props. unfold hl_linux_bus_fault.
  rewrite (proj2 (Z.eqb_neq length 0)), (proj2 (Z.ltb_ge _ _)) by lia.
  replace (g_bus_filter_force B) with 0 by done. replace (g_bus_filter_hi B) with 0 by done.
  by rewrite (proj2 (Z.leb_le 0 address)).
Qed.

Lemma lost_reach : bus_reach lost_ledger (abstract_calls losing_calls no_sets).
Proof.
  apply (run_calls_reach _ bus_init); [apply bus_reach_init|exact losing_bounds|].
  exact (proj1 lost_defined).
Qed.

(** A hole in a parked range whose tail finds no slot closes the ledger,
    but [gbus_clear] then publishes neither the envelope nor the force word,
    and every query is still answered as if nothing were past the end. *)
Theorem lost_range_is_silent :
  exists B, bus_reach B (abstract_calls losing_calls no_sets) /\ g_bus_fail_closed B = true /\
    forall address length, 0 <= address -> 0 < length -> address + length <= UINT64_MAX ->
      hl_linux_bus_fault address length B = Some 0.
Proof.
  exists lost_ledger. split; [exact lost_reach|]. pose proof (proj2 lost_defined) as Hs. revert Hs. generalize lost_ledger.
  intros B Hs. split; [|intros address length; by apply silent_answers]. unfold silent in Hs. by bool_props.
Qed.
