(* ===== verification/GuestCopy.v ===== *)
(** * Guest userspace accessors

    [syscall/guest_copy.c] with the host probes of [thread/fault_wait.c], on a
    POSIX host: the engine's [copy_from_user] and [copy_to_user].  A guest
    address is folded into its storage address; that lies in a canonical
    mapping of the logical ledger, or is the host address itself when the
    registries, the past-EOF ledger and a guarded probe of the host let it
    through.

    [None] is a call that waits for a transaction of the past-EOF ledger, or a
    dangling backing. *)

From stdpp Require Import gmap.
From S2P Require Import Prelude VmaLedger VmaReaders RangeLedger GuestRanges BusLedger GuestAccess.

(** ** State *)

(** [mmu] answers whether the host can load the byte at an address; [page_cache]
    is the option [HL_X86_GNA_PAGE_CACHE], [realloc_ok] the allocation of the
    array of aliases; [translated] are the ranges given to [G_SMC_COPYOUT]. *)
Record guest_space := mk_space {
  store : vma_store;
  ledger : hl_logical_vma_ledger;
  host_memory : memory;
  protection_of : registries;
  caches : thread_caches;
  bus : bus_ledger;
  mmu : Z -> bool;
  page_cache : bool;
  realloc_ok : bool;
  translated : list (Z * Z)
}.

Definition set_store (h : vma_store) (g : guest_space) : guest_space :=
  mk_space h (ledger g) (host_memory g) (protection_of g) (caches g) (bus g) (mmu g) (page_cache g) (realloc_ok g)
    (translated g).
Definition set_memory (m : memory) (g : guest_space) : guest_space :=
  mk_space (store g) (ledger g) m (protection_of g) (caches g) (bus g) (mmu g) (page_cache g) (realloc_ok g)
    (translated g).
Definition set_caches (C : thread_caches) (g : guest_space) : guest_space :=
  mk_space (store g) (ledger g) (host_memory g) (protection_of g) C (bus g) (mmu g) (page_cache g) (realloc_ok g)
    (translated g).
Definition copy_out (l : list (Z * Z)) (g : guest_space) : guest_space :=
  mk_space (store g) (ledger g) (host_memory g) (protection_of g) (caches g) (bus g) (mmu g) (page_cache g)
    (realloc_ok g) (translated g ++ l).

Definition fold_address (g : guest_space) (a : Z) : Z := fold (image (protection_of g)) a.

(** ** Probes of the host *)

(** [None] is a load the fault hook caught. *)
Fixpoint probe_pages (fuel : nat) (m : Z -> bool) (p end_ : Z) : bool :=
  match fuel with
  | O => true
  | S fuel =>
      if p <? end_ then
        if negb (m p) then false
        else
          let q := if end_ <=? p + 0xfff then end_ - 1 else p + 0xfff in
          if negb (q =? p) && negb (m q) then false else probe_pages fuel m (p + 0x1000) end_
      else true
  end.

Definition host_range_mapped (a len : Z) (g : guest_space) : option (bool * guest_space) :=
  if len =? 0 then Some (true, g)
  else if (INT64_MAX <? a) || (INT64_MAX - a <? len) then Some (false, g)
  else
    let '(hidden, C) := gna_hit a len (protection_of g) (caches g) in
    let g := set_caches C g in
    if hidden then Some (false, g)
    else
      past ← hl_linux_bus_hit a len (bus g);
      if past : bool then Some (false, g)
      else
        let lo := page_base a in
        let end_ := a + len in
        Some (probe_pages (S (Z.to_nat ((end_ - lo) / 0x1000))) (mmu g) lo end_, g).

(** The fragments from [checked] up to [available]. *)
Fixpoint probe_fragments (fuel : nat) (a checked available : Z) (g : guest_space) : option (Z * guest_space) :=
  match fuel with
  | O => None
  | S fuel =>
      if checked <? available then
        let address := a + checked in
        let fragment := Z.min (4096 - Z.land address 4095) (available - checked) in
        '(mapped, g) ← host_range_mapped address fragment g;
        if negb mapped then Some (checked, g) else probe_fragments fuel a (checked + fragment) available g
      else Some (available, g)
  end.

Definition host_range_writable_prefix (a len : Z) (g : guest_space) : option (Z * guest_space) :=
  if len =? 0 then Some (0, g)
  else if (INT64_MAX <? a) || (INT64_MAX - a <? len) then Some (0, g)
  else
    let '(none, C) := gna_prefix (page_cache g) a len (protection_of g) (caches g) in
    let g := set_caches C g in
    let readonly := gro_prefix a len (protection_of g) in
    let available := len in
    let available := if none <? available then none else available in
    let available := if readonly <? available then readonly else available in
    past ← hl_linux_bus_fault a len (bus g);
    let available :=
      if negb (past =? 0) then
        let prefix := if a <? past then past - a else 0 in
        if prefix <? available then prefix else available
      else available in
    probe_fragments (S (Z.to_nat available)) a 0 available g.

Definition host_range_writable (a len : Z) (g : guest_space) : option (bool * guest_space) :=
  '(prefix, g) ← host_range_writable_prefix a len g; Some (prefix =? len, g).

(** ** Spans *)

Inductive span_outcome :=
| Span (host available : Z) (pin : hl_logical_vma_pin)   (** 1, or 0 when the token is NULL *)
| SpanFault.

(** The loop over the pages of an identity-mapped span. *)
Fixpoint mapped_prefix (fuel : nat) (write : bool) (guest prefix bound : Z) (g : guest_space)
  : option (Z * guest_space) :=
  match fuel with
  | O => None
  | S fuel =>
      if prefix <? bound then
        let page_left := 4096 - Z.land (guest + prefix) 4095 in
        let chunk := if bound - prefix <? page_left then bound - prefix else page_left in
        '(accessible, g) ← (if write then host_range_writable (guest + prefix) chunk g
                            else host_range_mapped (guest + prefix) chunk g);
        if negb accessible then Some (prefix, g) else mapped_prefix fuel write guest (prefix + chunk) bound g
      else Some (prefix, g)
  end.

Definition guest_span (guest length protection : Z) (g : guest_space) : option (span_outcome * guest_space) :=
  if (length =? 0) || (UINT64_MAX - length <? guest) then Some (SpanFault, g)
  else
    let guest := fold_address g guest in
    '(pinned, h) ← hl_logical_vma_pin_data guest length protection (store g) (ledger g);
    let g := set_store h g in
    match pinned with
    | PinRefused _ => Some (SpanFault, g)
    | Pinned pin =>
        let bound := if p_contiguous pin <? length then p_contiguous pin else length in
        match p_token pin with
        | Some _ => Some (Span (p_host pin) bound pin, g)
        | None =>
            '(prefix, g) ← mapped_prefix (S (Z.to_nat bound)) (has_flag protection HL_LOGICAL_VMA_WRITE) guest 0 bound g;
            Some (if prefix =? 0 then SpanFault else Span guest prefix pin, g)
        end
    end.

Definition unpin (pin : hl_logical_vma_pin) (g : guest_space) : option guest_space :=
  h ← hl_logical_vma_unpin pin (store g); Some (set_store h g).

(** ** Copies *)

(** The bytes read so far, and the loop's result. *)
Fixpoint copy_from_loop (fuel : nat) (source length : Z) (bytes : list Z) (g : guest_space)
  : option (Z * list Z * guest_space) :=
  match fuel with
  | O => None
  | S fuel =>
      let done_ := lengthZ bytes in
      if done_ <? length then
        '(span, g) ← guest_span (u64 (source + done_)) (length - done_) HL_LOGICAL_VMA_READ g;
        match span with
        | SpanFault => Some (if done_ =? 0 then - EFAULT else done_, bytes, g)
        | Span host n pin =>
            let bytes := bytes ++ read_memory (host_memory g) host (Z.to_nat n) in
            g ← unpin pin g;
            copy_from_loop fuel source length bytes g
        end
      else Some (done_, bytes, g)
  end.

(** Each iteration moves a byte at least. *)
Definition copy_from (g : guest_space) (source length : Z) : option (Z * list Z * guest_space) :=
  copy_from_loop (S (Z.to_nat length)) source length [] g.

Definition guest_smc_copyout (pin : hl_logical_vma_pin) (guest length : Z) (g : guest_space) : option guest_space :=
  if length =? 0 then Some g
  else
    match p_token pin with
    | Some _ =>
        l ← hl_logical_vma_visit_exec_aliases_pin (realloc_ok g) pin 0 length (store g) (ledger g);
        Some (copy_out l g)
    | None => Some (copy_out [(guest, u64 (guest + length))] g)
    end.

Fixpoint copy_to_loop (fuel : nat) (destination : Z) (source : list Z) (done_ : Z) (g : guest_space)
  : option (Z * guest_space) :=
  match fuel with
  | O => None
  | S fuel =>
      if done_ <? lengthZ source then
        let at_ := u64 (destination + done_) in
        '(span, g) ← guest_span at_ (lengthZ source - done_) HL_LOGICAL_VMA_WRITE g;
        match span with
        | SpanFault => Some (if done_ =? 0 then - EFAULT else done_, g)
        | Span host n pin =>
            let g := set_memory (write_memory (host_memory g) host
                                   (take (Z.to_nat n) (drop (Z.to_nat done_) source))) g in
            g ← guest_smc_copyout pin at_ n g;
            g ← unpin pin g;
            copy_to_loop fuel destination source (done_ + n) g
        end
      else Some (done_, g)
  end.

Definition copy_to (g : guest_space) (destination : Z) (source : list Z) : option (Z * guest_space) :=
  copy_to_loop (S (length source)) (fold_address g destination) source 0 g.

(** ** Vectors, prefixes and strings *)

Record host_vector := mk_vector {
  iov_base : Z;
  iov_len : Z;
  iov_pin : hl_logical_vma_pin;
  iov_guest : Z
}.

Fixpoint iov_loop (fuel : nat) (guest length protection capacity done_ : Z) (vectors : list host_vector)
    (g : guest_space) : option (Z * list host_vector * guest_space) :=
  match fuel with
  | O => None
  | S fuel =>
      if (done_ <? length) && (lengthZ vectors <? capacity) then
        let at_ := u64 (guest + done_) in
        '(span, g) ← guest_span at_ (length - done_) protection g;
        match span with
        | SpanFault => Some (done_, vectors, g)
        | Span host n pin =>
            iov_loop fuel guest length protection capacity (done_ + n) (vectors ++ [mk_vector host n pin at_]) g
        end
      else Some (done_, vectors, g)
  end.

(** The result, the bytes covered, and the vectors with their pins held. *)
Definition guest_iov_range (guest length protection capacity : Z) (g : guest_space)
  : option (Z * Z * list host_vector * guest_space) :=
  '(done_, vectors, g) ← iov_loop (S (Z.to_nat length)) (fold_address g guest) length protection capacity 0 [] g;
  Some (if negb (done_ =? 0) || (length =? 0) then lengthZ vectors else - EFAULT, done_, vectors, g).

Fixpoint prefix_loop (fuel : nat) (guest length protection done_ : Z) (g : guest_space) : option (Z * guest_space) :=
  match fuel with
  | O => None
  | S fuel =>
      if done_ <? length then
        '(span, g) ← guest_span (u64 (guest + done_)) (length - done_) protection g;
        match span with
        | SpanFault => Some (done_, g)
        | Span _ n pin => g ← unpin pin g; prefix_loop fuel guest length protection (done_ + n) g
        end
      else Some (done_, g)
  end.

Definition guest_accessible_prefix (guest length protection : Z) (g : guest_space) : option (Z * guest_space) :=
  prefix_loop (S (Z.to_nat length)) guest length protection 0 g.

Definition ENAMETOOLONG : Z := 36.

(** The buffer holds the bytes read; [i] counts them. *)
Fixpoint string_loop (n : nat) (source i : Z) (buffer : list Z) (g : guest_space)
  : option (Z * list Z * guest_space) :=
  match n with
  | O => Some (- ENAMETOOLONG, take (Nat.pred (length buffer)) buffer ++ [0], g)
  | S n =>
      '(copied, bytes, g) ← copy_from g (u64 (source + i)) 1;
      let buffer := buffer ++ bytes in
      if negb (copied =? 1) then Some (- EFAULT, buffer, g)
      else if default 1 (lookupZ buffer i) =? 0 then Some (i, buffer, g)
      else string_loop n source (i + 1) buffer g
  end.

Definition guest_copy_string (capacity source : Z) (g : guest_space) : option (Z * list Z * guest_space) :=
  if (source =? 0) || (capacity =? 0) then Some (- EFAULT, [], g)
  else string_loop (Z.to_nat capacity) source 0 [] g.

(** [inr] is the host address, with the pin held. *)
Definition guest_atomic_address (guest length protection : Z) (g : guest_space)
  : option ((Z + Z * hl_logical_vma_pin) * guest_space) :=
  '(span, g) ← guest_span guest length protection g;
  match span with
  | SpanFault => Some (inl (- EFAULT), g)
  | Span host available pin =>
      if available <? length then g ← unpin pin g; Some (inl (- EFAULT), g)
      else Some (inr (host, pin), g)
  end.

(** [struct iovec]: the address and the length, eight bytes each. *)
Fixpoint parse_vectors (n : nat) (l : list Z) : list (Z * Z) :=
  match n with
  | O => []
  | S n => (le_value (take 8 l), le_value (take 8 (drop 8 l))) :: parse_vectors n (drop 16 l)
  end.

Definition guest_iov_import (guest count : Z) (g : guest_space) : option (Z * list (Z * Z) * guest_space) :=
  if UINT64_MAX / 16 <? count then Some (- EFAULT, [], g)
  else
    let bytes := count * 16 in
    if bytes =? 0 then Some (0, [], g)
    else
      '(copied, text, g) ← copy_from g guest bytes;
      Some (if copied =? bytes then (0, parse_vectors (Z.to_nat count) text, g) else (- EFAULT, [], g)).
