(* ===== verification/GuestProbes.v ===== *)
(** * Guest userspace accessors: the host probes

    What [host_range_mapped] and [host_range_writable_prefix] answer, byte by
    byte: the registries, the past-EOF ledger and the probe of a page's ends
    together decide exactly which bytes of a range can be accessed. *)

From stdpp Require Import gmap.
From S2P Require Import Prelude VmaLedger VmaReaders VmaIntervals VmaOps VmaInvariant VmaMap VmaCalls VmaSteps VmaReads GuestAccess RangeLedger RangeProofs GuestRanges GuestRangesSteps BusLedger BusSteps GuestCopy.

(** ** Bytes the host lets through *)

Definition unfold_address (g : guest_space) (a : Z) : Z := nonpie_unfold (image (protection_of g)) a.

Definition accessible (g : guest_space) (x : Z) : bool :=
  (x <? INT64_MAX) && mmu g x && negb (covered (ranges (g_gna (protection_of g))) (unfold_address g x)) &&
  negb (covered (g_gbus (bus g)) x).

Definition storable (g : guest_space) (x : Z) : bool :=
  accessible g x && negb (covered (ranges (g_gro (protection_of g))) (unfold_address g x)).

(** ** Well-formed states *)

(** The readable bytes of a page are a prefix: a mapped page has no interior
    hole, but a file may end in it. *)
Definition pages_prefixed (m : Z -> bool) : Prop :=
  forall x y, 0 <= x <= y -> x / 4096 = y / 4096 -> m y = true -> m x = true.

(** [rest] are the pins of others. *)
Record space_ok (n : Z) (rest : list Z) (g : guest_space) : Prop := mk_space_ok {
  sk_ledger : ledger_ok (store g) (ledger g) rest;
  sk_registries : registries_ok n (protection_of g);
  sk_image : image_ok (image (protection_of g));
  sk_uniform : page_uniform (ranges (g_gna (protection_of g)));
  sk_caches : caches_ok (protection_of g) (caches g);
  sk_bus : bus_ok (bus g);
  sk_settled : g_bus_prepares (bus g) = 0 /\ g_bus_fail_closed (bus g) = false;
  sk_mmu : pages_prefixed (mmu g);
  sk_bytes : forall x, byte (host_memory g x)
}.

(** Only the caches differ, and they are sound. *)
Definition recached (g g' : guest_space) : Prop := exists C, g' = set_caches C g /\ caches_ok (protection_of g) C.

Lemma recached_refl n rest g : space_ok n rest g -> recached g g.
Proof. intros Hok. exists (caches g). split; [by destruct g|apply (sk_caches _ _ _ Hok)]. Qed.

Lemma recached_trans g1 g2 g3 : recached g1 g2 -> recached g2 g3 -> recached g1 g3.
Proof. intros (C1 & -> & _) (C2 & -> & H). by exists C2. Qed.

Lemma recached_ok n rest g g' : recached g g' -> space_ok n rest g -> space_ok n rest g'.
Proof. intros (C & -> & HC) []. by constructor. Qed.

Lemma recached_storable g g' x : recached g g' -> storable g' x = storable g x.
Proof. by intros (C & -> & _). Qed.

Lemma recached_accessible g g' x : recached g g' -> accessible g' x = accessible g x.
Proof. by intros (C & -> & _). Qed.

(** ** Pages *)

Lemma low_bits a : Z.land a 4095 = a mod 4096.
Proof. change 4095 with (Z.ones 12). by rewrite Z.land_ones. Qed.

Lemma mod_page a : a mod 4096 = a - 4096 * (a / 4096).
Proof. pose proof (Z.div_mod a 4096). lia. Qed.

(** The fragment of a page from [a] on. *)
Lemma same_page a i : 0 <= i < 4096 - a mod 4096 -> (a + i) / 4096 = a / 4096.
Proof. intros Hi. rewrite mod_page in Hi. apply page_unique. pose proof (page_split a). lia. Qed.

Lemma fragment_pos a : 0 < 4096 - a mod 4096 <= 4096.
Proof. pose proof (Z.mod_pos_bound a 4096). lia. Qed.

Section Probes.
Context (n : Z) (rest : list Z) (g : guest_space) (Hok : space_ok n rest g).

Lemma unfold_straight a i :
  0 <= a -> 0 <= i -> a + i < 2 ^ 64 -> (a + i) / 4096 = a / 4096 -> unfold_address g (a + i) = unfold_address g a + i.
Proof.
  intros Ha Hi Hb Hp. unfold unfold_address. rewrite (unfold_page _ a (a + i) (sk_image _ _ _ Hok)) by lia. lia.
Qed.

(** The range keeps its shape when it is unfolded. *)
Definition straight (a len : Z) : Prop := forall i, 0 <= i < len -> unfold_address g (a + i) = unfold_address g a + i.

Lemma page_straight a len : 0 <= a -> a + len <= 2 ^ 64 -> a mod 4096 + len <= 4096 -> straight a len.
Proof. intros Ha Hb Hp i Hi. apply unfold_straight; [lia|lia|lia|]. apply same_page. lia. Qed.

(** A query of the PROT_NONE registry covers the bytes of the range. *)
Lemma straight_query (l : list range) a len :
  straight a len ->
  (exists x, unfold_address g a <= x < unfold_address g a + len /\ covered l x = true) <->
  (exists i, 0 <= i < len /\ covered l (unfold_address g (a + i)) = true).
Proof.
  intros Hs. split.
  - intros (x & Hx & Hc). exists (x - unfold_address g a). split; [lia|]. rewrite Hs by lia. by rewrite Z.add_comm, Z.sub_add.
  - intros (i & Hi & Hc). exists (unfold_address g a + i). split; [lia|]. by rewrite <- Hs.
Qed.

Lemma unfold_bounds a len :
  0 <= a -> a + len <= INT64_MAX -> 0 < len -> 0 <= unfold_address g a /\ unfold_address g a + len < 2 ^ 64.
Proof.
  intros Ha Hb Hl. unfold unfold_address, INT64_MAX in *.
  pose proof (unfold_u64 _ a (sk_image _ _ _ Hok) ltac:(lia)). pose proof (unfold_le _ a (sk_image _ _ _ Hok) ltac:(lia)). lia.
Qed.

Lemma gna_query a len :
  0 <= a -> a + len <= INT64_MAX -> 0 < len -> straight a len ->
  exists b C, gna_hit a len (protection_of g) (caches g) = (b, C) /\ caches_ok (protection_of g) C /\
    (b = true <-> exists i, 0 <= i < len /\ covered (ranges (g_gna (protection_of g))) (unfold_address g (a + i)) = true).
Proof.
  intros Ha Hb Hl Hs. destruct (unfold_bounds a len Ha Hb Hl) as [H1 H2].
  destruct (gna_hit_spec n _ (sk_registries _ _ _ Hok) a len (caches g) (sk_caches _ _ _ Hok) (sk_uniform _ _ _ Hok) Hl H1 H2)
    as (b & C & Hrun & HC & Hiff).
  exists b, C. split; [done|]. split; [done|]. rewrite Hiff. by apply straight_query.
Qed.

(** The past-EOF ledger as the set of its array. *)
Lemma bus_query a len :
  0 <= a -> a + len <= INT64_MAX -> 0 < len ->
  exists fault, hl_linux_bus_fault a len (bus g) = Some fault /\
    (fault = 0 -> forall x, a <= x < a + len -> covered (g_gbus (bus g)) x = false) /\
    (fault <> 0 -> exists x, a <= x < a + len /\ covered (g_gbus (bus g)) x = true /\ fault = nonzero x).
Proof.
  intros Ha Hb Hl. destruct (sk_settled _ _ _ Hok) as [Hp Hc].
  set (S := mk_sets (fun x => covered (g_gbus (bus g)) x = true) (fun x => covered (g_gbus_parked (bus g)) x = true)).
  destruct (bus_fault_spec (bus g) S a len (sk_bus _ _ _ Hok)) as (fault & Hrun & H1 & H2); try done.
  - right. by split.
  - unfold INT64_MAX, UINT64_MAX in *. lia.
  - exists fault. split; [done|]. split; [|done]. intros H0 x Hx. destruct (covered _ x) eqn:Hcov; [|done].
    by destruct (H1 H0 x Hx).
Qed.

Lemma probe_pages_spec fuel : forall p end_,
  0 <= p -> p mod 4096 = 0 -> end_ - p <= 4096 * Z.of_nat fuel ->
  probe_pages fuel (mmu g) p end_ = true <-> forall x, p <= x < end_ -> mmu g x = true.
Proof.
  induction fuel as [|fuel IH]; intros p end_ Hp Hm Hf; cbn [probe_pages]; [split; [lia|done]|].
  destruct (Z.ltb_spec p end_) as [Hlt|]; [|split; [lia|done]].
  destruct (mmu g p) eqn:Hlo; cbn [negb]; [|split; [done|]; intros H; rewrite H in Hlo; [done|lia]].
  set (q := if end_ <=? p + 0xfff then end_ - 1 else p + 0xfff).
  assert (Hq : p <= q < end_ /\ q <= p + 4095 /\ (q = end_ - 1 \/ q = p + 4095)).
  { unfold q. destruct (Z.leb_spec end_ (p + 0xfff)); lia. }
  assert (Hpage : forall x, p <= x <= q -> x / 4096 = q / 4096).
  { intros x Hx. assert (p = 4096 * (p / 4096)) by (pose proof (Z.div_mod p 4096 ltac:(lia)); lia).
    rewrite (page_unique (p / 4096) q) by lia. apply page_unique. lia. }
  destruct (negb (q =? p) && negb (mmu g q)) eqn:Hbad.
  { bool_props. split; [done|]. intros Hall. assert (mmu g q = true) by (apply Hall; lia). congruence. }
  assert (Hmq : mmu g q = true).
  { apply andb_false_iff in Hbad as [H|H]; apply negb_false_iff in H; [|done]. apply Z.eqb_eq in H. by rewrite H. }
  rewrite IH; [|lia|rewrite <- (Z.mul_1_l 0x1000), Z.mod_add by lia; done|lia]. split.
  - intros H x Hx. destruct (Z.le_gt_cases x q) as [Hle|Hgt]; [|apply H; lia].
    apply (sk_mmu _ _ _ Hok x q); [lia|apply Hpage; lia|done].
  - intros H x Hx. apply H. lia.
Qed.

Lemma mapped_spec a len :
  0 <= a -> 0 < len -> straight a len ->
  exists b g', host_range_mapped a len g = Some (b, g') /\ recached g g' /\
    (a + len <= INT64_MAX \/ a mod 4096 + len <= 4096 ->
     b = true <-> forall i, 0 <= i < len -> accessible g (a + i) = true).
Proof.
  intros Ha Hl Hs. unfold host_range_mapped. rewrite (proj2 (Z.eqb_neq len 0)) by lia.
  destruct ((INT64_MAX <? a) || (INT64_MAX - a <? len)) eqn:Htop.
  { exists false, g. split; [done|]. split; [by eapply recached_refl|]. intros Hside. split; [done|]. intros Hev. exfalso.
    assert (Hbad : exists i, 0 <= i < len /\ INT64_MAX <= a + i).
    { apply orb_true_iff in Htop as [Htop|Htop]; bool_props; [exists 0; lia|exists (len - 1); lia]. }
    destruct Hbad as (i & Hi & Hge). specialize (Hev i Hi). unfold accessible in Hev. bool_props. lia. }
  bool_props. destruct (gna_query a len) as (hidden & C & -> & HC & Hhit); [lia|lia|lia|done|].
  assert (Hre : recached g (set_caches C g)) by by exists C.
  destruct hidden.
  { exists false, (set_caches C g). split; [done|]. split; [done|]. intros _. split; [done|]. intros Hev. exfalso.
    destruct (proj1 Hhit eq_refl) as (i & Hi & Hc). specialize (Hev i Hi). unfold accessible in Hev. rewrite Hc in Hev. bool_props. done. }
  unfold hl_linux_bus_hit. change (bus (set_caches C g)) with (bus g). change (mmu (set_caches C g)) with (mmu g).
  destruct (bus_query a len) as (fault & -> & Hf0 & Hf1); [lia|lia|lia|]. cbn [mbind option_bind].
  destruct (Z.eqb_spec fault 0) as [Hz0|Hne]; cbn [negb].
  2: { exists false, (set_caches C g). split; [done|]. split; [done|]. intros _. split; [done|]. intros Hev. exfalso.
       destruct (Hf1 Hne) as (x & Hx & Hc & _). specialize (Hev (x - a) ltac:(lia)). unfold accessible in Hev.
       rewrite Z.add_comm, Z.sub_add, Hc in Hev. bool_props. done. }
  eexists _, _. split; [done|]. split; [done|]. intros _.
  pose proof (page_split a) as Hpa. assert (Ha64 : 0 <= a < 2 ^ 64) by (unfold INT64_MAX in *; lia).
  rewrite page_base_eq by done. pose proof (Z.div_pos a 4096 Ha ltac:(lia)). rewrite probe_pages_spec; [|lia| |].
  - split.
    + intros Hev i Hi. unfold accessible. rewrite Hev, (Hf0 Hz0) by lia. rewrite (proj2 (Z.ltb_lt _ _)) by lia. simpl.
      rewrite andb_true_r. destruct (covered _ _) eqn:Hc; [|done]. assert (false = true) by (apply Hhit; by exists i); done.
    + intros Hev x Hx. assert (Hge : forall y, a <= y < a + len -> mmu g y = true).
      { intros y Hy. specialize (Hev (y - a) ltac:(lia)). rewrite Z.add_comm, Z.sub_add in Hev. unfold accessible in Hev. by bool_props. }
      destruct (Z.lt_ge_cases x a); [|apply Hge; lia]. apply (sk_mmu _ _ _ Hok x a); [lia| |apply Hge; lia].
      apply page_unique. lia.
  - rewrite Z.mul_comm. apply Z.mod_mul. lia.
  - set (b := a + len - 4096 * (a / 4096)). pose proof (Z.div_mod b 4096 ltac:(lia)). pose proof (Z.mod_pos_bound b 4096 ltac:(lia)).
    assert (0 <= b / 4096) by (apply Z.div_pos; lia). lia.
Qed.
End Probes.

(** A store can go through wherever a load can, but in the read-only ranges. *)
Lemma storable_accessible g x : storable g x = true -> accessible g x = true.
Proof. unfold storable. intros Hev. by bool_props. Qed.

(** ** Fragments *)

(** A refused fragment holds a refused byte. *)
Lemma some_byte (ok : Z -> bool) a len :
  0 <= len -> ((forall i, 0 <= i < len -> ok (a + i) = true) -> False) -> exists i, 0 <= i < len /\ ok (a + i) = false.
Proof.
  intros Hl Hno. destruct (existsb (fun i => negb (ok (a + Z.of_nat i))) (seq 0 (Z.to_nat len))) eqn:He.
  - apply existsb_exists in He as (i & Hi%in_seq & Hb). apply negb_true_iff in Hb. exists (Z.of_nat i). split; [lia|done].
  - exfalso. apply Hno. intros i Hi. destruct (ok (a + i)) eqn:Hb; [done|]. exfalso. apply not_true_iff_false in He. apply He. apply existsb_exists.
    exists (Z.to_nat i). split; [apply in_seq; lia|]. rewrite Z2Nat.id by lia. by rewrite Hb.
Qed.


Lemma probe_fragments_spec n rest fuel : forall a checked available g,
  space_ok n rest g -> 0 <= a -> 0 <= checked <= available -> a + available <= INT64_MAX -> straight g a available ->
  available - checked < Z.of_nat fuel ->
  exists p g', probe_fragments fuel a checked available g = Some (p, g') /\ recached g g' /\ checked <= p <= available /\
    (forall i, checked <= i < p -> accessible g (a + i) = true) /\
    (p < available -> exists i, p <= i < available /\ (a + i) / 4096 = (a + p) / 4096 /\ accessible g (a + i) = false).
Proof.
  induction fuel as [|fuel IH]; intros a checked available g Hok Ha Hc Ht Hs Hf; [lia|]. cbn [probe_fragments].
  destruct (Z.ltb_spec checked available) as [Hlt|Hge].
  2: { exists available, g. split_and!; [done|by eapply recached_refl|lia|lia|lia|lia]. }
  rewrite low_bits. pose proof (fragment_pos (a + checked)) as Hfr.
  set (k := Z.min (4096 - (a + checked) mod 4096) (available - checked)).
  assert (Hk : 0 < k <= available - checked /\ (a + checked) mod 4096 + k <= 4096) by (unfold k; lia). unfold INT64_MAX in *.
  destruct (mapped_spec n rest g Hok (a + checked) k) as (b & g1 & -> & Hre & Hb); [lia|lia|apply (page_straight n rest g Hok); lia|].
  cbn [mbind option_bind]. specialize (Hb ltac:(right; lia)). destruct b; cbn [negb].
  - destruct (IH a (checked + k) available g1 (recached_ok _ _ _ _ Hre Hok)) as (p & g2 & -> & Hre2 & Hp & Hall & Hstop); try lia.
    { destruct Hre as (C & -> & _). exact Hs. }
    exists p, g2. split; [done|]. split; [exact (recached_trans _ _ _ Hre Hre2)|]. split; [lia|]. split.
    + intros i Hi. destruct (Z.lt_ge_cases i (checked + k)).
      * replace (a + i) with (a + checked + (i - checked)) by lia. apply Hb; [done|lia].
      * rewrite <- (recached_accessible _ _ _ Hre). apply Hall. lia.
    + intros H. destruct (Hstop H) as (i & Hi & Hpg & Hno). exists i. split_and!; [lia|lia|done|].
      by rewrite <- (recached_accessible _ _ _ Hre).
  - exists checked, g1. split_and!; [done|done|lia|lia|lia|]. intros _.
    destruct (some_byte (accessible g) (a + checked) k) as (i & Hi & Hno); [lia|by intros Hev; apply Hb in Hev|].
    exists (checked + i). rewrite Z.add_assoc. split_and!; [lia|lia|apply same_page; lia|done].
Qed.

(** A byte in the way of the range's next fragment. *)
Definition stopped (ok : Z -> bool) (a p len : Z) : Prop :=
  p < len -> exists i, p <= i < len /\ (a + i) / 4096 = (a + p) / 4096 /\ ok (a + i) = false.

Lemma first_of_three len none readonly :
  let available := if none <? len then none else len in
  let available := if readonly <? available then readonly else available in
  0 <= none <= len -> 0 <= readonly <= len ->
  0 <= available <= len /\ available <= none /\ available <= readonly /\
  (available < len -> available = none \/ available = readonly).
Proof. cbn zeta. intros Hn Hr. destruct (Z.ltb_spec none len); compare_all. Qed.

Lemma writable_prefix_spec n rest g a len :
  space_ok n rest g -> 0 <= a -> 0 < len -> a + len <= INT64_MAX -> straight g a len ->
  exists p g', host_range_writable_prefix a len g = Some (p, g') /\ recached g g' /\ 0 <= p <= len /\
    (forall i, 0 <= i < p -> storable g (a + i) = true) /\ stopped (storable g) a p len.
Proof.
  intros Hok Ha Hl Ht Hs. unfold host_range_writable_prefix. rewrite (proj2 (Z.eqb_neq len 0)) by lia.
  rewrite (proj2 (Z.ltb_ge _ _)), (proj2 (Z.ltb_ge _ _)) by lia. cbn [orb].
  destruct (unfold_bounds n rest g Hok a len Ha Ht Hl) as [Hu1 Hu2]. unfold unfold_address in Hu1, Hu2.
  destruct (gna_prefix_spec n _ (sk_registries _ _ _ Hok) (page_cache g) a len (caches g) (sk_caches _ _ _ Hok) Hl Hu1 Hu2)
    as (none & C & -> & HC & Hn1 & Hn2 & Hn3).
  pose proof (gro_prefix_spec n _ (sk_registries _ _ _ Hok) a len Hl Hu1 Hu2) as (Hr1 & Hr2 & Hr3).
  change (protection_of (set_caches C g)) with (protection_of g). change (bus (set_caches C g)) with (bus g).
  set (ro := gro_prefix a len (protection_of g)) in *. cbn zeta.
  pose proof (first_of_three len none ro Hn1 Hr1) as Hthree. cbn zeta in Hthree.
  set (av := if ro <? _ then _ else _) in *. destruct Hthree as (Hav & Hvn & Hvr & Hvx).
  destruct (bus_query n rest g Hok a len Ha Ht Hl) as (past & -> & Hp0 & Hp1).
  cbn [mbind option_bind]. set (av' := if negb (past =? 0) then _ else _).
  assert (Hav' : 0 <= av' <= av /\ (av' < av -> past <> 0 /\ av' = (if a <? past then past - a else 0))).
  { unfold av'. destruct (Z.eqb_spec past 0) as [|Hne]; cbn [negb]; [split; [lia|intros; lia]|].
    destruct (Z.ltb_spec a past); cbn zeta; [destruct (Z.ltb_spec (past - a) av)|destruct (Z.ltb_spec 0 av)];
      (split; [lia|intros; split; [done|lia]]). }
  destruct Hav' as [Hb1 Hb2].
  assert (Hre : recached g (set_caches C g)) by by exists C.
  destruct (probe_fragments_spec n rest (S (Z.to_nat av')) a 0 av' (set_caches C g) (recached_ok _ _ _ _ Hre Hok))
    as (p & g' & -> & Hre2 & Hp & Hall & Hstop); [lia|lia|lia|intros i Hi; apply Hs; lia|lia|].
  exists p, g'. split; [done|]. split; [exact (recached_trans _ _ _ Hre Hre2)|]. split; [lia|].
  assert (Hfree : forall i, 0 <= i < av -> covered (ranges (g_gro (protection_of g))) (unfold_address g (a + i)) = false).
  { intros i Hi. rewrite Hs by lia. apply Hr2. lia. }
  split.
  - intros i Hi. unfold storable. rewrite Hfree by lia. rewrite <- (recached_accessible _ _ _ Hre), Hall by lia. done.
  - intros Hplen. destruct (Z.lt_ge_cases p av') as [Hlt|Hge].
    { destruct (Hstop Hlt) as (i & Hi & Hpg & Hno). exists i. split_and!; [lia|lia|done|].
      unfold storable. by rewrite <- (recached_accessible _ _ _ Hre), Hno. }
    assert (p = av') as -> by lia. exists av'. split_and!; [lia|lia|done|].
    destruct (Z.lt_ge_cases av' av) as [Hbus|Hnb].
    + destruct (Hb2 Hbus) as [Hpast Heq]. destruct (Hp1 Hpast) as (x & Hx & Hcov & Hfault).
      assert (Hx0 : x <> 0).
      { intros ->. assert (a = 0) as -> by lia. subst past. change (nonzero 0) with 1 in Heq. simpl in Heq.
        specialize (Hall 0 ltac:(lia)). rewrite (recached_accessible _ _ _ Hre) in Hall. unfold accessible in Hall.
        change (0 + 0) with 0 in Hall. rewrite Hcov in Hall. by bool_props. }
      unfold nonzero in Hfault. rewrite (proj2 (Z.eqb_neq _ _)) in Hfault by done. subst past.
      assert (Hxa : a + av' = x) by (destruct (Z.ltb_spec a x); lia).
      unfold storable, accessible. rewrite Hxa, Hcov. by rewrite andb_false_r.
    + assert (av' = av) as Hav2 by lia. rewrite Hav2 in *. destruct (Hvx ltac:(lia)) as [He|He]; unfold storable.
      * unfold accessible. rewrite He, Hs by lia. unfold unfold_address. rewrite Hn3 by lia. by rewrite andb_false_r.
      * rewrite He, Hs by lia. unfold unfold_address. rewrite Hr3 by lia. apply andb_false_r.
Qed.

(** The probes of one fragment of a page. *)
Definition fragment_ok (write : bool) (g : guest_space) (x : Z) : bool := if write then storable g x else accessible g x.

Lemma recached_fragment write g g' x : recached g g' -> fragment_ok write g' x = fragment_ok write g x.
Proof. intros Hre. destruct write; [by apply recached_storable|by apply recached_accessible]. Qed.

Lemma top_not_accessible g x : INT64_MAX <= x -> accessible g x = false.
Proof. intros Hx. unfold accessible. by rewrite (proj2 (Z.ltb_ge _ _)). Qed.

Lemma fragment_spec n rest (write : bool) g a len :
  space_ok n rest g -> 0 <= a -> 0 < len -> a + len <= 2 ^ 64 -> a mod 4096 + len <= 4096 ->
  exists b g', (if write then host_range_writable a len g else host_range_mapped a len g) = Some (b, g') /\ recached g g' /\
    (b = true <-> forall i, 0 <= i < len -> fragment_ok write g (a + i) = true).
Proof.
  intros Hok Ha Hl Hb Hp. pose proof (page_straight n rest g Hok a len Ha Hb Hp) as Hs. destruct write.
  2: { destruct (mapped_spec n rest g Hok a len Ha Hl Hs) as (b & g' & Hrun & Hre & Hiff). exists b, g'.
       split; [done|]. split; [done|]. apply Hiff. by right. }
  unfold host_range_writable. destruct (Z.le_gt_cases (a + len) INT64_MAX) as [Ht|Ht].
  - destruct (writable_prefix_spec n rest g a len Hok Ha Hl Ht Hs) as (p & g' & -> & Hre & Hpr & Hall & Hstop).
    cbn [mbind option_bind]. eexists _, g'. split; [done|]. split; [done|]. rewrite Z.eqb_eq. split.
    + intros ->. exact Hall.
    + intros Hev. destruct (Z.eq_dec p len) as [|Hne]; [done|]. destruct (Hstop ltac:(lia)) as (i & Hi & _ & Hno).
      simpl in Hev. rewrite Hev in Hno; [done|lia].
  - unfold host_range_writable_prefix. rewrite (proj2 (Z.eqb_neq len 0)) by lia.
    assert ((INT64_MAX <? a) || (INT64_MAX - a <? len) = true) as ->.
    { apply orb_true_iff. right. apply Z.ltb_lt. lia. }
    cbn [mbind option_bind]. exists false, g. rewrite (proj2 (Z.eqb_neq 0 len)) by lia. split; [done|].
    split; [by eapply recached_refl|]. split; [done|]. intros Hev. specialize (Hev (len - 1) ltac:(lia)). simpl in Hev.
    apply storable_accessible in Hev. rewrite top_not_accessible in Hev; [done|lia].
Qed.

Lemma mapped_prefix_spec n rest write fuel : forall guest prefix bound g,
  space_ok n rest g -> 0 <= guest < 2 ^ 64 -> 0 <= prefix <= bound -> bound - prefix < Z.of_nat fuel ->
  guest + prefix < 2 ^ 63 \/ prefix = 0 /\ guest + bound <= 2 ^ 64 ->
  exists p g', mapped_prefix fuel write guest prefix bound g = Some (p, g') /\ recached g g' /\ prefix <= p <= bound /\
    (forall i, prefix <= i < p -> fragment_ok write g (guest + i) = true) /\
    stopped (fragment_ok write g) guest p bound.
Proof.
  induction fuel as [|fuel IH]; intros guest prefix bound g Hok Hg Hp Hf Hside; [lia|]. cbn [mapped_prefix].
  destruct (Z.ltb_spec prefix bound) as [Hlt|Hge].
  2: { exists prefix, g. split_and!; [done|by eapply recached_refl|lia|lia|lia|intros ?; lia]. }
  rewrite low_bits. pose proof (fragment_pos (guest + prefix)) as Hfr. set (left := 4096 - (guest + prefix) mod 4096) in *.
  set (k := if bound - prefix <? left then bound - prefix else left).
  assert (Hk : 0 < k <= bound - prefix /\ (guest + prefix) mod 4096 + k <= 4096).
  { unfold k. destruct (Z.ltb_spec (bound - prefix) left); unfold left in *; lia. }
  destruct (fragment_spec n rest write g (guest + prefix) k Hok) as (b & g1 & -> & Hre & Hb); [lia|lia|lia|lia|].
  cbn [mbind option_bind]. destruct b; cbn [negb].
  - pose proof (proj1 Hb eq_refl) as Hfirst.
    assert (Hlow : guest + (prefix + k) < 2 ^ 63).
    { specialize (Hfirst (k - 1) ltac:(lia)). destruct (Z.lt_ge_cases (guest + (prefix + k)) (2 ^ 63)); [done|].
      assert (accessible g (guest + prefix + (k - 1)) = true) as Hacc by (destruct write; [by apply storable_accessible|done]).
      rewrite top_not_accessible in Hacc; [done|unfold INT64_MAX; lia]. }
    destruct (IH guest (prefix + k) bound g1 (recached_ok _ _ _ _ Hre Hok)) as (p & g2 & -> & Hre2 & Hpr & Hall & Hstop); try lia.
    exists p, g2. split; [done|]. split; [exact (recached_trans _ _ _ Hre Hre2)|]. split; [lia|]. split.
    + intros i Hi. destruct (Z.lt_ge_cases i (prefix + k)).
      * replace (guest + i) with (guest + prefix + (i - prefix)) by lia. apply Hfirst. lia.
      * rewrite <- (recached_fragment write _ _ _ Hre). apply Hall. lia.
    + intros Hpb. destruct (Hstop Hpb) as (i & Hi & Hpg & Hno). exists i. split_and!; [lia|lia|done|].
      by rewrite <- (recached_fragment write _ _ _ Hre).
  - exists prefix, g1. split_and!; [done|done|lia|lia|lia|]. intros _.
    destruct (some_byte (fragment_ok write g) (guest + prefix) k) as (i & Hi & Hno); [lia|by intros Hev; apply Hb in Hev|].
    exists (prefix + i). rewrite Z.add_assoc. split_and!; [lia|lia|apply same_page; lia|done].
Qed.

(** ** Guest userspace accessors: spans and pins

    A span lies in one host range, each of its bytes permitted; a fault means a
    byte in the way on the page it starts in.  The executable aliases of what
    a pin covers are all visited. *)

(** ** Bytes of the guest *)

(** By storage address: the byte's host address, and whether it can be accessed. *)
Definition host_of (g : guest_space) (x : Z) : Z := default x (host_address (store g) (ledger g) x).

Definition permitted (required : Z) (g : guest_space) (x : Z) : bool :=
  match guest_cell (store g) (ledger g) x with
  | Some (_, p, _) => Z.land p required =? required
  | None => fragment_ok (has_flag required HL_LOGICAL_VMA_WRITE) g x
  end.

(** The address spaces are the same; memory and what was invalidated aside. *)
Record same_view (g g' : guest_space) : Prop := mk_same_view {
  sv_ledger : ledger g' = ledger g;
  sv_store : agree (map backing (entries (ledger g))) (store g) (store g');
  sv_protection : protection_of g' = protection_of g;
  sv_bus : bus g' = bus g;
  sv_mmu : mmu g' = mmu g;
  sv_realloc : realloc_ok g' = realloc_ok g
}.

Lemma same_view_refl g : same_view g g.
Proof. by constructor. Qed.

Lemma same_view_trans g1 g2 g3 : same_view g1 g2 -> same_view g2 g3 -> same_view g1 g3.
Proof.
  intros [L1 S1 P1 B1 M1 R1] [L2 S2 P2 B2 M2 R2]. constructor; try congruence.
  rewrite L1 in S2. by eapply agree_trans.
Qed.

Lemma view_cell_same g g' x :
  same_view g g' ->
  guest_cell (store g') (ledger g') x = guest_cell (store g) (ledger g) x /\ host_of g' x = host_of g x.
Proof.
  intros [L S _ _ _ _]. unfold host_of. rewrite L.
  destruct (cell_of_mapped (store g) (store g') (ledger g) (ledger g) x eq_refl S) as [-> ->]. done.
Qed.

Lemma same_view_permitted required g g' x : same_view g g' -> permitted required g' x = permitted required g x.
Proof.
  intros Hv. unfold permitted. rewrite (proj1 (view_cell_same g g' x Hv)). destruct Hv as [_ _ P B M _].
  unfold fragment_ok, storable, accessible, unfold_address. by rewrite P, B, M.
Qed.

Lemma same_view_fold g g' a : same_view g g' -> fold_address g' a = fold_address g a.
Proof. intros [_ _ P _ _ _]. unfold fold_address. by rewrite P. Qed.

Lemma recached_view g g' :
  recached g g' -> same_view g g' /\ host_memory g' = host_memory g /\ translated g' = translated g.
Proof. intros (C & -> & _). split; [by constructor|done]. Qed.

(** ** Spans *)

(** The references with those of a pin. *)
Definition held (pin : hl_logical_vma_pin) (rest : list Z) : list Z :=
  match p_token pin with Some b => b :: rest | None => rest end.

Definition room_for (k : Z) (rest : list Z) (g : guest_space) : Prop := lengthZ (owners (ledger g) ++ rest) + k < 2 ^ 64.

Lemma set_store_ok n rest rest' g h :
  space_ok n rest g -> ledger_ok h (ledger g) rest' -> space_ok n rest' (set_store h g).
Proof. intros [] Hl. by constructor. Qed.

(** What a pin says of the entry it holds. *)
Definition pins_entry (g : guest_space) (x : Z) (pin : hl_logical_vma_pin) : Prop :=
  forall b, p_token pin = Some b ->
    exists e bk, In e (entries (ledger g)) /\ covers x e = true /\ backing e = b /\ stat (store g) b = Some bk /\
      p_host pin = b_mapping bk + position e x /\ p_contiguous pin <= guest_last e - x.

Lemma pin_entry n rest g x length required pin h :
  space_ok n rest g -> hl_logical_vma_pin_data x length required (store g) (ledger g) = Some (Pinned pin, h) ->
  pins_entry g x pin.
Proof.
  intros Hok Hrun b Hb. unfold hl_logical_vma_pin_data in Hrun. destruct (_ || _); [done|].
  destruct (find_entry x (entries (ledger g))) as [e|] eqn:Hf; [|by injection Hrun as <- <-].
  destruct (negb _); [done|]. destruct (backings (store g) !! backing e) as [k|] eqn:Hk; [|done]. cbn [mbind option_bind] in Hrun.
  destruct (backing_get (backing e) (store g)) as [h1|]; [|done]. cbn [mbind option_bind] in Hrun. injection Hrun as <- <-.
  simpl in Hb. injection Hb as <-. apply find_entry_Some in Hf as [He Hc].
  destruct (cell_of_entry _ _ _ x e (sk_ledger _ _ _ Hok) He Hc) as (bk & Hbk & (B1 & B2 & B3 & B4 & B5 & _) & Hpos & _).
  exists e, bk. assert (Hm : b_mapping k = b_mapping bk).
  { unfold stat in Hbk. rewrite Hk in Hbk. injection Hbk as <-. done. }
  split_and!; try done; simpl.
  - rewrite Hm. rewrite u64_small; unfold position in *; lia.
  - lia.
Qed.

Lemma fold_bounds n rest g a length :
  space_ok n rest g -> 0 <= a < 2 ^ 64 -> 0 < length < 2 ^ 63 -> a + length <= UINT64_MAX ->
  0 <= fold_address g a < 2 ^ 64 /\ fold_address g a + length <= UINT64_MAX.
Proof.
  intros Hok Ha Hl Ht. unfold fold_address, fold, storage_unchecked. destruct (Z.eqb_spec (g_nonpie_lo (image (protection_of g))) 0); [lia|].
  destruct (sk_image _ _ _ Hok) as [|(H1 & H2 & H3 & _)]; [done|].
  destruct (Z.leb_spec (g_nonpie_lo (image (protection_of g))) a), (Z.ltb_spec a (g_nonpie_hi (image (protection_of g)))); cbn [andb]; try lia.
  rewrite u64_small by lia. unfold UINT64_MAX. lia.
Qed.

Lemma cell_none_permitted required g x :
  guest_cell (store g) (ledger g) x = None ->
  permitted required g x = fragment_ok (has_flag required HL_LOGICAL_VMA_WRITE) g x /\ host_of g x = x.
Proof.
  intros Hc. unfold permitted, host_of. rewrite Hc. split; [done|]. unfold guest_cell, host_address in *.
  destruct (mapped (entries (ledger g)) x) as [[[[b o] p] f]|]; [|done]. simpl in *. by destruct (stat (store g) b).
Qed.

Definition span_result n rest required g x length (o : span_outcome) (g' : guest_space) : Prop :=
  match o with
  | SpanFault => space_ok n rest g' /\ stopped (permitted required g) x 0 length
  | Span host k pin => space_ok n (held pin rest) g' /\ 0 < k <= length /\ pins_entry g x pin /\
      (forall i, 0 <= i < k -> permitted required g (x + i) = true /\ host_of g (x + i) = host + i) /\
      match p_token pin with
      | Some _ => p_host pin = host /\ k <= p_contiguous pin
      | None => host = x /\ forall i, 0 <= i < k -> guest_cell (store g) (ledger g) (x + i) = None
      end
  end.

Lemma pinned_span n rest required g x length pin h :
  space_ok n rest g -> 0 < length ->
  hl_logical_vma_pin_data x length required (store g) (ledger g) = Some (Pinned pin, h) ->
  pin_ok (store g) (ledger g) rest x length required (Pinned pin) h -> 0 <= x -> x + length <= UINT64_MAX ->
  exists o g', match p_token pin with
    | Some _ => Some (Span (p_host pin) (if p_contiguous pin <? length then p_contiguous pin else length) pin, set_store h g)
    | None =>
        '(prefix, g) ← mapped_prefix (S (Z.to_nat (if p_contiguous pin <? length then p_contiguous pin else length)))
           (has_flag required HL_LOGICAL_VMA_WRITE) x 0 (if p_contiguous pin <? length then p_contiguous pin else length) (set_store h g);
        Some (if prefix =? 0 then SpanFault else Span x prefix pin, g)
    end = Some (o, g') /\ same_view g g' /\ host_memory g' = host_memory g /\ translated g' = translated g /\
    span_result n rest required g x length o g'.
Proof.
  intros Hok Hl Hrun (Hc & Hpin) Hx Ht. pose proof (pin_entry n rest g x length required pin h Hok Hrun) as Hentry.
  assert (Hbound : (if p_contiguous pin <? length then p_contiguous pin else length) = p_contiguous pin).
  { destruct (Z.ltb_spec (p_contiguous pin) length); lia. }
  rewrite Hbound. unfold span_result, held. destruct (p_token pin) as [b|] eqn:Htok.
  - destruct Hpin as (Hperm & Hone & Hled & Hst). eexists _, _. split; [done|]. split.
    { constructor; try done. intros b' _. apply Hst. }
    split; [done|]. split; [done|]. rewrite Htok. split; [by eapply set_store_ok|]. split; [done|]. split; [done|]. split; [|done].
    intros i Hi. destruct (Hone i Hi) as [Hh (loc & Hcell)]. unfold permitted, host_of. rewrite Hcell, Hh. split; [|done].
    by apply Z.eqb_eq.
  - destruct Hpin as (-> & Hhost & Hnone). assert (Heq : set_store (store g) g = g) by by destruct g. rewrite Heq.
    set (w := has_flag required HL_LOGICAL_VMA_WRITE).
    destruct (mapped_prefix_spec n rest w (S (Z.to_nat (p_contiguous pin))) x 0 (p_contiguous pin) g Hok)
      as (p & g' & -> & Hre & Hp & Hall & Hstop); [unfold UINT64_MAX in *; lia|lia|lia|right; unfold UINT64_MAX in *; lia|].
    destruct (recached_view _ _ Hre) as (Hv & Hm & Htr). cbn [mbind option_bind]. eexists _, g'. split; [done|].
    split; [done|]. split; [done|]. split; [done|].
    assert (Hperm : forall i, 0 <= i < p_contiguous pin -> permitted required g (x + i) = fragment_ok w g (x + i) /\ host_of g (x + i) = x + i).
    { intros i Hi. apply cell_none_permitted. by apply Hnone. }
    destruct (Z.eqb_spec p 0) as [->|Hne].
    + split; [by eapply recached_ok|]. intros _. destruct (Hstop ltac:(lia)) as (i & Hi & Hpg & Hno). exists i.
      split_and!; [lia|lia|done|]. by rewrite (proj1 (Hperm i ltac:(lia))).
    + rewrite Htok. split; [by eapply recached_ok|]. split; [lia|]. split; [by intros b; rewrite Htok|]. split.
      * intros i Hi. destruct (Hperm i ltac:(lia)) as [-> ->]. split; [apply Hall; lia|done].
      * split; [done|]. intros i Hi. apply Hnone. lia.
Qed.

Lemma span_spec n rest required g guest length :
  space_ok n rest g -> room_for 1 rest g -> 0 <= guest < 2 ^ 64 -> 0 < length < 2 ^ 63 -> guest + length <= UINT64_MAX ->
  exists o g', guest_span guest length required g = Some (o, g') /\ same_view g g' /\
    host_memory g' = host_memory g /\ translated g' = translated g /\
    span_result n rest required g (fold_address g guest) length o g'.
Proof.
  intros Hok Hroom Hg Hl Ht. unfold guest_span. rewrite (proj2 (Z.eqb_neq length 0)), (proj2 (Z.ltb_ge _ _)) by lia. cbn [orb].
  destruct (fold_bounds n rest g guest length Hok Hg Hl Ht) as [Hx Hxt]. set (x := fold_address g guest) in *.
  destruct (pin_spec (store g) (ledger g) rest x length required (sk_ledger _ _ _ Hok) Hroom) as (o & h & Hrun & Hpin); [lia|lia|].
  rewrite Hrun. cbn [mbind option_bind]. destruct o as [pin|errno].
  - apply (pinned_span n rest required g x length pin h); try done; lia.
  - destruct Hpin as [-> Hcase]. eexists _, _. split; [done|]. assert (Heq : set_store (store g) g = g) by by destruct g. rewrite Heq.
    split; [apply same_view_refl|]. split; [done|]. split; [done|]. split; [done|]. intros _.
    destruct Hcase as [(_ & [?|?])|(_ & loc & p & f & Hcell & Hno)]; [lia|lia|]. exists 0. split_and!; [lia|lia|done|].
    rewrite Z.add_0_r. unfold permitted. rewrite Hcell. by apply Z.eqb_neq.
Qed.

(** A range that leaves the address space faults at once. *)
Lemma span_wraps required g guest length :
  UINT64_MAX < guest + length -> guest_span guest length required g = Some (SpanFault, g).
Proof.
  intros Ht. unfold guest_span. assert ((UINT64_MAX - length <? guest) = true) as -> by (apply Z.ltb_lt; lia).
  by rewrite orb_true_r.
Qed.

Lemma unpin_spec n rest pin g :
  space_ok n (held pin rest) g ->
  exists g', unpin pin g = Some g' /\ same_view g g' /\ host_memory g' = host_memory g /\ translated g' = translated g /\
    space_ok n rest g'.
Proof.
  intros Hok. unfold unpin, hl_logical_vma_unpin, held in *. destruct (p_token pin) as [b|].
  2: { cbn [mbind option_bind]. exists g. assert (Heq : set_store (store g) g = g) by by destruct g. rewrite Heq.
       split_and!; try done. }
  pose proof (sk_ledger _ _ _ Hok) as Hl.
  destruct (put_spec b (store g) (owners (ledger g) ++ rest)) as (h & -> & Hst & Ha).
  { eapply store_ok_perm; [|apply (lo_store _ _ _ Hl)]. symmetry. apply Permutation_middle. }
  cbn [mbind option_bind]. exists (set_store h g). split; [done|]. split.
  - constructor; try done. simpl. eapply agree_incl; [|exact Ha]. unfold owners. rewrite <- app_assoc. by apply incl_appl, incl_refl.
  - split; [done|]. split; [done|]. eapply set_store_ok; [done|]. eapply ledger_ok_agree; [done| |done].
    eapply agree_incl; [|exact Ha]. by apply incl_appl, incl_refl.
Qed.

(** ** Executable aliases *)

(** The range an alias shows of the bytes written holds the address of each. *)
Lemma alias_range_shows source_offset source_last first guest size x :
  0 <= first -> 0 <= guest -> 0 < size -> first + size <= UINT64_MAX -> guest + size <= UINT64_MAX ->
  guest <= x < guest + size -> source_offset <= first + (x - guest) < source_last ->
  exists r, In r (alias_range source_offset source_last first guest size) /\ fst r <= x < snd r.
Proof.
  intros Hf Hg Hs Hft Hgt Hx Hpos. unfold alias_range, UINT64_MAX in *. rewrite u64_small by lia. cbn zeta.
  set (a := if first <? source_offset then source_offset else first).
  set (b := if source_last <? first + size then source_last else first + size).
  assert (Ha : first <= a <= first + (x - guest)) by (unfold a; destruct (Z.ltb_spec first source_offset); lia).
  assert (Hb : first + (x - guest) < b <= first + size) by (unfold b; destruct (Z.ltb_spec source_last (first + size)); lia).
  destruct (Z.leb_spec b a); [lia|]. eexists. split; [by left|]. cbn [fst snd]. rewrite !(u64_small (guest + _)) by lia.
  rewrite u64_small by lia. lia.
Qed.

(** [y] executes the file byte that [x] shows. *)
Definition executes (g : guest_space) (x y : Z) : Prop :=
  exists d i o p f p' f', guest_cell (store g) (ledger g) x = Some (InFile d i o, p, f) /\
    guest_cell (store g) (ledger g) y = Some (InFile d i o, p', f') /\ Z.land p' HL_LOGICAL_VMA_EXEC <> 0.

Lemma executes_entries n rest g x y e :
  space_ok n rest g -> executes g x y -> In e (entries (ledger g)) -> covers x e = true ->
  exists e', In e' (entries (ledger g)) /\ covers y e' = true /\ backing e' = backing e /\ position e' y = position e x /\
    Z.land (protection e') HL_LOGICAL_VMA_EXEC <> 0.
Proof.
  intros Hok (d & i & o & p & f & p' & f' & Hx & Hy & Hexec) He Hc. pose proof (sk_ledger _ _ _ Hok) as Hl.
  destruct (cell_entry _ _ _ _ Hy) as (e' & He' & Hc').
  destruct (cell_of_entry _ _ _ x e Hl He Hc) as (k & Hk & Hko & Hpos & _ & _ & Hcell).
  destruct (cell_of_entry _ _ _ y e' Hl He' Hc') as (k' & Hk' & Hko' & Hpos' & _ & _ & Hcell').
  rewrite Hx in Hcell. rewrite Hy in Hcell'. destruct (b_borrowed k) eqn:Hb; [done|]. destruct (b_borrowed k') eqn:Hb'; [done|].
  injection Hcell as -> -> -> -> ->. injection Hcell' as Hd Hi Ho -> _. exists e'. split; [done|]. split; [done|].
  destruct (lo_coherent _ _ _ Hl (backing e) (backing e') k k' (in_map _ _ _ He) (in_map _ _ _ He') Hk Hk' Hb Hb' Hd Hi) as [Heq|Hap].
  - rewrite Heq, Hk' in Hk. injection Hk as <-. split_and!; [done|lia|done].
  - unfold extents_apart in Hap. lia.
Qed.

Lemma visited_holds ok (l : list (Z * Z)) r x :
  In r l -> fst r <= x < snd r -> 0 <= x < UINT64_MAX -> exists r', In r' (visited ok l) /\ fst r' <= x < snd r'.
Proof.
  intros Hr Hx Hb. unfold visited. destruct ok; [by exists r|]. destruct l; [done|]. exists (0, UINT64_MAX). split; [by left|done].
Qed.

Lemma copyout_spec n rest g g' x k pin guest :
  space_ok n (held pin rest) g' -> space_ok n rest g -> same_view g g' -> 0 < k -> pins_entry g x pin -> 0 <= x -> x + k <= UINT64_MAX ->
  match p_token pin with
  | Some _ => k <= p_contiguous pin
  | None => guest = x
  end ->
  exists l, guest_smc_copyout pin guest k g' = Some (copy_out l g') /\
    (p_token pin = None -> l = [(x, x + k)]) /\
    (is_Some (p_token pin) -> forall i y, 0 <= i < k -> executes g (x + i) y -> exists r, In r l /\ fst r <= y < snd r).
Proof.
  intros Hok' Hok Hv Hk Hentry Hx Ht Hpin. unfold guest_smc_copyout. rewrite (proj2 (Z.eqb_neq k 0)) by lia.
  destruct (p_token pin) as [b|] eqn:Htok.
  2: { exists [(x, x + k)]. subst guest. unfold UINT64_MAX in *. rewrite u64_small by lia. split; [done|]. split; [done|]. by intros []. }
  destruct (Hentry b Htok) as (e & bk & He & Hc & <- & Hbk & Hhost & Hcont).
  unfold hl_logical_vma_visit_exec_aliases_pin. rewrite Htok. rewrite (proj2 (Z.eqb_neq k 0)) by lia.
  rewrite (proj2 (Z.ltb_ge _ 0)), (proj2 (Z.ltb_ge _ k)) by lia. cbn [orb]. rewrite (sv_ledger _ _ Hv).
  assert (Hst : stat (store g') (backing e) = Some bk) by (rewrite (sv_store _ _ Hv); [done|by apply in_map]).
  destruct (stat_lookup _ _ _ Hst) as (kb & -> & Hkb). cbn [mbind option_bind]. eexists. split; [done|]. split; [done|].
  intros _ i y Hi Hexec. pose proof (sk_ledger _ _ _ Hok) as Hl. pose proof Hc as Hcx. apply covers_spec in Hcx.
  assert (Hci : covers (x + i) e = true) by (apply covers_spec; lia).
  destruct (executes_entries n rest g (x + i) y e Hok Hexec He Hci) as (e' & He' & Hc' & Hbe & Hpos & Hprot).
  destruct (cell_of_entry _ _ _ x e Hl He Hc) as (k1 & Hk1 & (B1 & B2 & B3 & B4 & B5 & _) & Hp1 & _). rewrite Hbk in Hk1. injection Hk1 as <-.
  pose proof (lo_entries _ _ _ Hl) as Hentries. rewrite List.Forall_forall in Hentries.
  destruct (Hentries e' He') as (bk' & Hbk' & (S1 & S2 & S3 & S4 & S5)). rewrite Hbe, Hbk in Hbk'. injection Hbk' as <-.
  destruct (Hentries e He) as (bk' & Hbk' & (E1 & E2 & E3 & E4 & E5)). rewrite Hbk in Hbk'. injection Hbk' as <-.
  pose proof Hc' as Hcy. apply covers_spec in Hcy. assert (Hm : b_mapping kb = b_mapping bk) by by rewrite Hkb.
  unfold position, UINT64_MAX in *. set (so := u64 (p_host pin - b_mapping kb + 0)).
  assert (Hso : so = backing_offset e + (x - guest_first e)).
  { unfold so. rewrite Hm, Hhost. rewrite u64_small; lia. }
  destruct (alias_range_shows so (u64 (so + k)) (backing_offset e') (guest_first e') (guest_last e' - guest_first e') y)
    as (r & Hr & Hry); unfold UINT64_MAX; try lia.
  { rewrite u64_small; lia. }
  apply (visited_holds _ _ r); [|done|unfold UINT64_MAX; lia].
  apply in_concat. eexists. split; [|exact Hr]. apply in_map_iff. exists e'. split; [|done].
  rewrite Hbe, Z.eqb_refl. rewrite (proj2 (Z.eqb_neq _ 0)) by done. done.
Qed.
