(* ===== verification/GuestCopies.v ===== *)
(** * Guest userspace accessors: copies

    The copies move the longest run of page fragments that is permitted from
    the first byte on, byte by byte through the host address of each; a copy
    out drops the translations of every executable alias of what it wrote. *)

From stdpp Require Import gmap.
From S2P Require Import Prelude VmaLedger VmaReaders VmaIntervals VmaInvariant VmaCalls VmaSteps VmaReads.
From S2P Require Import RangeLedger GuestRanges GuestRangesSteps BusLedger BusSteps.
From S2P Require Import GuestAccess GuestCopy GuestProbes.

(** The range keeps its shape when it is folded. *)
Definition linear (g : guest_space) (a len : Z) : Prop := forall i, 0 <= i < len -> fold_address g (a + i) = fold_address g a + i.

Definition read_guest (g : guest_space) (x : Z) (n : nat) : list Z :=
  map (fun i => host_memory g (host_of g (x + Z.of_nat i))) (seq 0 n).

Fixpoint write_guest (g : guest_space) (x : Z) (l : list Z) (m : memory) : memory :=
  match l with
  | [] => m
  | b :: l => write_guest g (x + 1) l (write_memory m (host_of g x) [b])
  end.

(** ** Reading *)

Lemma length_read_guest g x n : lengthZ (read_guest g x n) = Z.of_nat n.
Proof. unfold read_guest, lengthZ. by rewrite length_map, length_seq. Qed.

Lemma read_guest_app g x n host k :
  (forall i, 0 <= i < Z.of_nat k -> host_of g (x + Z.of_nat n + i) = host + i) ->
  read_guest g x n ++ read_memory (host_memory g) host k = read_guest g x (n + k).
Proof.
  intros Hh. unfold read_guest, read_memory. rewrite seq_app, map_app. f_equal. cbn [Nat.add].
  assert (Hseq : seq n k = map (Nat.add n) (seq 0 k)).
  { rewrite <- (Nat.add_0_r n) at 1. symmetry. apply (fmap_add_seq n 0 k). }
  rewrite Hseq, map_map. symmetry. apply map_ext_in.
  intros i Hi%in_seq. f_equal. rewrite Nat2Z.inj_add, Z.add_assoc, Hh; [done|lia].
Qed.

Lemma read_guest_same g g' x n :
  same_view g g' -> host_memory g' = host_memory g -> read_guest g' x n = read_guest g x n.
Proof.
  intros Hv Hm. unfold read_guest. apply map_ext. intros i. rewrite Hm. f_equal. apply view_cell_same; done.
Qed.

Lemma read_guest_bytes n rest g x k : space_ok n rest g -> Forall byte (read_guest g x k).
Proof. intros Hok. unfold read_guest. apply List.Forall_forall. intros b (i & <- & _)%in_map_iff. apply (sk_bytes _ _ _ Hok). Qed.

Definition copy_result (k len : Z) : Z := if (k =? 0) && negb (len =? 0) then - EFAULT else k.

Lemma stopped_same required g g' x p len :
  same_view g g' -> stopped (permitted required g') x p len -> stopped (permitted required g) x p len.
Proof.
  intros Hv Hs Hlt. destruct (Hs Hlt) as (i & Hi & Hp & Hno). exists i. by rewrite <- (same_view_permitted required g g' _ Hv).
Qed.

Lemma stopped_shift ok x p len : stopped ok (x + p) 0 (len - p) -> stopped ok x p len.
Proof.
  intros Hs Hlt. destruct (Hs ltac:(lia)) as (i & Hi & Hp & Hno). exists (p + i). rewrite Z.add_assoc.
  rewrite Z.add_0_r in Hp. split_and!; [lia|lia|done|done].
Qed.

Section Copies.
Context (n : Z) (rest : list Z).

Lemma copy_from_loop_spec fuel : forall (k : nat) a len g0 g,
  space_ok n rest g -> room_for 1 rest g -> same_view g0 g -> host_memory g = host_memory g0 -> translated g = translated g0 ->
  0 <= a < 2 ^ 64 -> len < 2 ^ 63 -> a + len <= UINT64_MAX -> linear g0 a len -> Z.of_nat k <= len ->
  (forall i, 0 <= i < Z.of_nat k -> permitted HL_LOGICAL_VMA_READ g0 (fold_address g0 a + i) = true) ->
  len - Z.of_nat k < Z.of_nat fuel ->
  exists (m : nat) g', copy_from_loop fuel a len (read_guest g0 (fold_address g0 a) k) g =
      Some (copy_result (Z.of_nat m) len, read_guest g0 (fold_address g0 a) m, g') /\
    space_ok n rest g' /\ same_view g0 g' /\ host_memory g' = host_memory g0 /\ translated g' = translated g0 /\
    Z.of_nat m <= len /\
    (forall i, 0 <= i < Z.of_nat m -> permitted HL_LOGICAL_VMA_READ g0 (fold_address g0 a + i) = true) /\
    stopped (permitted HL_LOGICAL_VMA_READ g0) (fold_address g0 a) (Z.of_nat m) len.
Proof.
  induction fuel as [|fuel IH]; intros k a len g0 g Hok Hroom Hv Hm Htr Ha Hlen Ht Hlin Hk Hperm Hf; [lia|].
  cbn [copy_from_loop]. rewrite length_read_guest. destruct (Z.ltb_spec (Z.of_nat k) len) as [Hlt|Hge].
  2: { exists k, g. split; [|split_and!; try done; intros ?; lia]. unfold copy_result.
       destruct (Z.eqb_spec (Z.of_nat k) 0), (Z.eqb_spec len 0); cbn [andb negb]; try done. lia. }
  unfold UINT64_MAX in Ht. rewrite u64_small by lia.
  destruct (span_spec n rest HL_LOGICAL_VMA_READ g (a + Z.of_nat k) (len - Z.of_nat k) Hok Hroom) as (o & g1 & -> & Hv1 & Hm1 & Ht1 & Ho);
    [lia|lia|unfold UINT64_MAX; lia|]. cbn [mbind option_bind].
  rewrite (same_view_fold _ _ _ Hv), Hlin in Ho by lia. set (x := fold_address g0 a) in *.
  pose proof (same_view_trans _ _ _ Hv Hv1) as Hv01.
  assert (Hpp : forall y, permitted HL_LOGICAL_VMA_READ g y = permitted HL_LOGICAL_VMA_READ g0 y) by (intros; by apply same_view_permitted).
  destruct o as [host c pin|]; unfold span_result in Ho.
  - destruct Ho as (Hok1 & Hc & _ & Hbytes & _).
    assert (Hread : read_guest g0 x k ++ read_memory (host_memory g1) host (Z.to_nat c) = read_guest g0 x (k + Z.to_nat c)).
    { rewrite Hm1, Hm. apply read_guest_app. intros i Hi. rewrite <- (proj2 (view_cell_same g0 g _ Hv)). apply Hbytes. lia. }
    rewrite Hread. destruct (unpin_spec n rest pin g1 Hok1) as (g2 & -> & Hv2 & Hm2 & Ht2 & Hok2). cbn [mbind option_bind].
    apply IH; try done; try congruence.
    + unfold room_for in *. by rewrite (sv_ledger _ _ Hv2), (sv_ledger _ _ Hv1).
    + exact (same_view_trans _ _ _ Hv01 Hv2).
    + lia.
    + intros i Hi. destruct (Z.lt_ge_cases i (Z.of_nat k)); [apply Hperm; lia|].
      rewrite <- Hpp. fold x. replace (x + i) with (x + Z.of_nat k + (i - Z.of_nat k)) by lia. apply Hbytes. lia.
    + lia.
  - destruct Ho as (Hok1 & Hstop). exists k, g1. split.
    { unfold copy_result. rewrite (proj2 (Z.eqb_neq len 0)) by lia. by destruct (Z.of_nat k =? 0). }
    split_and!; try done; [congruence|congruence|]. apply stopped_shift. by apply (stopped_same _ g0 g).
Qed.

Lemma copy_from_result g a len :
  space_ok n rest g -> room_for 1 rest g -> 0 <= a < 2 ^ 64 -> 0 <= len < 2 ^ 63 -> a + len <= UINT64_MAX -> linear g a len ->
  exists (m : nat) g', copy_from g a len = Some (copy_result (Z.of_nat m) len, read_guest g (fold_address g a) m, g') /\
    space_ok n rest g' /\ same_view g g' /\ host_memory g' = host_memory g /\ translated g' = translated g /\
    Z.of_nat m <= len /\
    (forall i, 0 <= i < Z.of_nat m -> permitted HL_LOGICAL_VMA_READ g (fold_address g a + i) = true) /\
    stopped (permitted HL_LOGICAL_VMA_READ g) (fold_address g a) (Z.of_nat m) len.
Proof.
  intros Hok Hroom Ha Hlen Ht Hlin.
  apply (copy_from_loop_spec (S (Z.to_nat len)) 0 a len g g Hok Hroom); try done; try lia.
Qed.

Lemma copy_from_wraps g a len : 0 < len -> a < 2 ^ 64 -> 0 <= a -> UINT64_MAX < a + len -> copy_from g a len = Some (- EFAULT, [], g).
Proof.
  intros Hl Ha Ha0 Ht. unfold copy_from. cbn [copy_from_loop]. change (lengthZ []) with 0. rewrite (proj2 (Z.ltb_lt 0 len)) by done.
  rewrite Z.add_0_r, Z.sub_0_r, u64_small by lia. by rewrite span_wraps.
Qed.

(** ** Writing *)

Lemma write_guest_ext g x l : forall m m', (forall y, m y = m' y) -> forall y, write_guest g x l m y = write_guest g x l m' y.
Proof.
  revert x. induction l as [|b l IH]; intros x m m' Hm y; simpl; [done|]. apply IH. intros z. by apply write_memory_ext.
Qed.

Lemma write_guest_app g x l1 l2 m : write_guest g x (l1 ++ l2) m = write_guest g (x + lengthZ l1) l2 (write_guest g x l1 m).
Proof.
  revert x m. induction l1 as [|b l1 IH]; intros x m; cbn [app write_guest].
  - change (lengthZ []) with 0. by rewrite Z.add_0_r.
  - rewrite IH, lengthZ_cons. f_equal. lia.
Qed.

Lemma write_guest_chunk g x host l : forall m,
  (forall i, 0 <= i < lengthZ l -> host_of g (x + i) = host + i) -> forall y, write_guest g x l m y = write_memory m host l y.
Proof.
  revert x host. induction l as [|b l IH]; intros x host m Hh y; cbn [write_guest].
  - unfold write_memory. change (lengthZ []) with 0. compare_all.
  - rewrite lengthZ_cons in Hh. pose proof (lengthZ_nonneg l). pose proof (Hh 0 ltac:(lia)) as H0. rewrite !Z.add_0_r in H0.
    rewrite H0, (IH _ (host + 1)), <- write_memory_S; [done|]. intros i Hi.
    replace (x + 1 + i) with (x + (1 + i)) by lia. rewrite Hh by lia. lia.
Qed.

Lemma write_guest_same g g' x l : same_view g g' -> forall m, write_guest g' x l m = write_guest g x l m.
Proof.
  intros Hv. revert x. induction l as [|b l IH]; intros x m; simpl; [done|]. by rewrite IH, (proj2 (view_cell_same g g' x Hv)).
Qed.

Lemma write_memory_bytes m x l : (forall y, byte (m y)) -> Forall byte l -> forall y, byte (write_memory m x l y).
Proof.
  intros Hm Hl y. unfold write_memory. destruct (_ && _); [|done]. destruct (lookupZ l (y - x)) as [b|] eqn:Hb; [|done].
  apply lookupZ_elem in Hb. rewrite List.Forall_forall in Hl. by apply Hl.
Qed.

(** The code at [y] is dropped by one of the ranges. *)
Definition dropped (l : list (Z * Z)) (y : Z) : Prop := exists r, In r l /\ fst r <= y < snd r.

(** What is translated from a written byte: the byte itself outside the
    ledger, or what executes its file byte. *)
Definition code_of (g : guest_space) (x y : Z) : Prop :=
  guest_cell (store g) (ledger g) x = None /\ y = x \/ executes g x y.

Lemma code_same g g' x y : same_view g g' -> code_of g' x y <-> code_of g x y.
Proof.
  intros Hv. unfold code_of, executes. by rewrite !(proj1 (view_cell_same g g' _ Hv)).
Qed.

Lemma set_memory_ok g m : space_ok n rest g -> (forall y, byte (m y)) -> space_ok n rest (set_memory m g).
Proof. intros [] Hm. by constructor. Qed.

Lemma copy_out_view g l : same_view g (copy_out l g).
Proof. by constructor. Qed.

Lemma copy_out_ok g l : space_ok n rest g -> space_ok n rest (copy_out l g).
Proof. intros []. by constructor. Qed.

Lemma take_all_of_drop (l : list Z) (k : nat) (c : Z) :
  0 <= c <= lengthZ l - Z.of_nat k -> lengthZ (take (Z.to_nat c) (drop k l)) = c.
Proof. unfold lengthZ. rewrite length_take, length_drop. lia. Qed.

(** What a run of [copy_to] from [g0] that moved [k] bytes of [l] leaves. *)
Record wrote (g0 : guest_space) (x : Z) (l : list Z) (k : nat) (g : guest_space) : Prop := mk_wrote {
  wr_ok : space_ok n rest g;
  wr_view : same_view g0 g;
  wr_count : Z.of_nat k <= lengthZ l;
  wr_memory : forall y, host_memory g y = write_guest g0 x (take k l) (host_memory g0) y;
  wr_permitted : forall i, 0 <= i < Z.of_nat k -> permitted HL_LOGICAL_VMA_WRITE g0 (x + i) = true;
  wr_dropped : exists new : list (Z * Z), translated g = translated g0 ++ new /\
    forall i y, 0 <= i < Z.of_nat k -> code_of g0 (x + i) y -> dropped new y
}.

(** One chunk: the copy, the aliases dropped, and the pin put back. *)
Lemma chunk_spec g0 x l k g g1 host c pin guest :
  wrote g0 x l k g -> Forall byte l -> 0 <= x + Z.of_nat k -> x + lengthZ l <= UINT64_MAX ->
  same_view g g1 -> host_memory g1 = host_memory g -> translated g1 = translated g ->
  span_result n rest HL_LOGICAL_VMA_WRITE g (x + Z.of_nat k) (lengthZ l - Z.of_nat k) (Span host c pin) g1 ->
  guest = x + Z.of_nat k \/ is_Some (p_token pin) ->
  exists g2 g3, guest_smc_copyout pin guest c
      (set_memory (write_memory (host_memory g1) host (take (Z.to_nat c) (drop k l))) g1) = Some g2 /\
    unpin pin g2 = Some g3 /\ wrote g0 x l (k + Z.to_nat c) g3 /\ 0 < c <= lengthZ l - Z.of_nat k.
Proof.
  intros [Hok Hv Hk Hmem Hperm (new & Htr & Hdrop)] Hl Hx Ht Hv1 Hm1 Ht1 (Hok1 & Hc & Hentry & Hbytes & Htok) Hguest.
  set (part := take (Z.to_nat c) (drop k l)). pose proof (same_view_trans _ _ _ Hv Hv1) as Hv01.
  assert (Hpart : lengthZ part = c) by (apply take_all_of_drop; lia).
  assert (Hpb : Forall byte part) by (by apply Forall_take, Forall_drop).
  set (g1m := set_memory _ g1).
  assert (Hok1m : space_ok n (held pin rest) g1m).
  { destruct Hok1. constructor; try done. simpl. by apply write_memory_bytes. }
  assert (Hv1m : same_view g g1m) by (destruct Hv1; by constructor).
  destruct (copyout_spec n rest g g1m (x + Z.of_nat k) c pin guest Hok1m Hok Hv1m) as (out & -> & Hnone & Hsome); try done; try lia.
  { destruct (p_token pin) as [b|]; [by destruct Htok|]. destruct Hguest as [|[]]; done. }
  assert (Hok2 : space_ok n (held pin rest) (copy_out out g1m)) by (destruct Hok1m; by constructor).
  destruct (unpin_spec n rest pin _ Hok2) as (g3 & Hg3 & Hv3 & Hm3 & Ht3 & Hok3).
  assert (Hv1c : same_view g (copy_out out g1m)) by (destruct Hv1; by constructor).
  pose proof (same_view_trans _ _ _ Hv (same_view_trans _ _ _ Hv1c Hv3)) as Hv03.
  eexists _, g3. split; [done|]. split; [exact Hg3|]. split; [|done]. constructor; [done|done|lia| | |].
  - intros y. rewrite Hm3. simpl. rewrite <- (take_take_drop l k (Z.to_nat c)). fold part.
    rewrite write_guest_app. unfold lengthZ. rewrite length_take, Nat.min_l by (unfold lengthZ in *; lia).
    rewrite (write_guest_chunk g0 _ host part).
    + apply write_memory_ext. intros z. by rewrite Hm1.
    + rewrite Hpart. intros i Hi. rewrite <- (proj2 (view_cell_same g0 g _ Hv)). by apply Hbytes.
  - intros i Hi. destruct (Z.lt_ge_cases i (Z.of_nat k)); [by apply Hperm; lia|].
    rewrite <- (same_view_permitted _ g0 g _ Hv). replace (x + i) with (x + Z.of_nat k + (i - Z.of_nat k)) by lia. apply Hbytes. lia.
  - exists (new ++ out). split; [rewrite Ht3; simpl; by rewrite Ht1, Htr, app_assoc|].
    intros i y Hi Hcode. destruct (Z.lt_ge_cases i (Z.of_nat k)).
    { destruct (Hdrop i y ltac:(lia) Hcode) as (r & Hr & Hy). exists r. split; [by apply in_or_app; left|done]. }
    set (j := i - Z.of_nat k). replace (x + i) with (x + Z.of_nat k + j) in Hcode by (unfold j; lia).
    apply (code_same g0 g _ _ Hv) in Hcode. enough (Hout : dropped out y).
    { destruct Hout as (r & Hr & Hy). exists r. split; [by apply in_or_app; right|done]. }
    destruct (p_token pin) as [b|] eqn:Htk.
    + destruct Hcode as [[Hcell _]|Hexec]; [|eapply Hsome; [done| |exact Hexec]; unfold j; lia]. exfalso.
      destruct (Hentry b Htk) as (e & bk & He & Hcov & _ & _ & _ & Hcont). apply covers_spec in Hcov.
      destruct (cell_of_entry _ _ _ (x + Z.of_nat k + j) e (sk_ledger _ _ _ Hok) He) as (bk' & _ & _ & _ & _ & _ & Hsc).
      { apply covers_spec. unfold j. lia. }
      rewrite Hcell in Hsc. done.
    + rewrite (Hnone eq_refl). eexists. split; [by left|]. cbn [fst snd]. destruct Htok as [_ Hcells].
      destruct Hcode as [[_ ->]|(d & o1 & o2 & p & f & p' & f' & Hcell & _)]; [unfold j; lia|].
      rewrite Hcells in Hcell; [done|unfold j; lia].
Qed.

Lemma copy_to_loop_spec fuel : forall (k : nat) d l g0 g,
  wrote g0 (fold_address g0 d) l k g -> room_for 1 rest g0 -> Forall byte l -> 0 <= d < 2 ^ 64 ->
  lengthZ l < 2 ^ 63 -> d + lengthZ l <= UINT64_MAX -> fold_address g0 d + lengthZ l <= UINT64_MAX ->
  linear g0 d (lengthZ l) -> 0 <= fold_address g0 d -> lengthZ l - Z.of_nat k < Z.of_nat fuel ->
  (forall i, 0 <= i < lengthZ l -> fold_address g0 (fold_address g0 d + i) = fold_address g0 d + i) ->
  exists (m : nat) g', copy_to_loop fuel (fold_address g0 d) l (Z.of_nat k) g = Some (copy_result (Z.of_nat m) (lengthZ l), g') /\
    wrote g0 (fold_address g0 d) l m g' /\
    stopped (permitted HL_LOGICAL_VMA_WRITE g0) (fold_address g0 d) (Z.of_nat m) (lengthZ l).
Proof.
  induction fuel as [|fuel IH]; intros k d l g0 g Hw Hroom Hl Hd Hlen Ht Hxt Hlin Hx Hf Hidem; [pose proof (wr_count _ _ _ _ _ Hw); lia|].
  pose proof Hw as [Hok Hv Hk _ _ _]. set (x := fold_address g0 d) in *. cbn [copy_to_loop].
  destruct (Z.ltb_spec (Z.of_nat k) (lengthZ l)) as [Hlt|Hge].
  2: { exists k, g. split; [|split; [done|intros ?; lia]]. unfold copy_result.
       destruct (Z.eqb_spec (Z.of_nat k) 0), (Z.eqb_spec (lengthZ l) 0); cbn [andb negb]; try done. lia. }
  unfold UINT64_MAX in *. cbn zeta. rewrite u64_small by lia.
  destruct (span_spec n rest HL_LOGICAL_VMA_WRITE g (x + Z.of_nat k) (lengthZ l - Z.of_nat k) Hok) as (o & g1 & -> & Hv1 & Hm1 & Ht1 & Ho).
  { unfold room_for in *. by rewrite (sv_ledger _ _ Hv). }
  { lia. }
  { lia. }
  { unfold UINT64_MAX. lia. }
  cbn [mbind option_bind]. rewrite (same_view_fold _ _ _ Hv), Hidem in Ho by lia. destruct o as [host c pin|].
  - destruct (chunk_spec g0 x l k g g1 host c pin (x + Z.of_nat k) Hw Hl) as (g2 & g3 & Hg2 & Hg3 & Hw3 & Hc); try done; try lia.
    rewrite Nat2Z.id, Hg2. cbn [mbind option_bind]. rewrite Hg3. cbn [mbind option_bind].
    replace (Z.of_nat k + c) with (Z.of_nat (k + Z.to_nat c)) by lia. apply IH; try done. lia.
  - destruct Ho as (Hok1 & Hstop). exists k, g1. split.
    { unfold copy_result. rewrite (proj2 (Z.eqb_neq (lengthZ l) 0)) by lia. by destruct (Z.of_nat k =? 0). }
    split; [|apply stopped_shift; by apply (stopped_same _ g0 g)]. destruct Hw as [_ _ _ Hmem Hperm (new & Htr & Hdrop)].
    constructor; [done|exact (same_view_trans _ _ _ Hv Hv1)|done|intros y; by rewrite Hm1|done|].
    exists new. by rewrite Ht1.
Qed.
End Copies.

(** ** The interface of guest memory

    For an image that is not displaced: a displaced image folds every address,
    and a range that leaves its link range keeps the displacement. *)

Definition copying (g : guest_space) : Prop :=
  g_nonpie_lo (image (protection_of g)) = 0 /\ exists n rest, space_ok n rest g /\ room_for 1 rest g.

Definition guest_byte (g : guest_space) (x : Z) : option Z :=
  if permitted HL_LOGICAL_VMA_READ g x then Some (host_memory g (host_of g x)) else None.

Definition guest_store (g : guest_space) (x : Z) : Prop := permitted HL_LOGICAL_VMA_WRITE g x = true.

Lemma undisplaced g a : g_nonpie_lo (image (protection_of g)) = 0 -> fold_address g a = a.
Proof. intros H. unfold fold_address, fold. by rewrite H. Qed.

Lemma undisplaced_u64 g a : copying g -> 0 <= a < 2 ^ 64 -> 0 <= fold_address g a < 2 ^ 64.
Proof. intros [H _] Ha. by rewrite undisplaced. Qed.

Lemma copying_same g g' n rest : copying g -> same_view g g' -> space_ok n rest g' -> room_for 1 rest g -> copying g'.
Proof.
  intros [H _] Hv Hok Hroom. split; [by rewrite (sv_protection _ _ Hv)|]. exists n, rest. split; [done|].
  unfold room_for in *. by rewrite (sv_ledger _ _ Hv).
Qed.

Lemma guest_byte_same g g' x : same_view g g' -> host_memory g' = host_memory g -> guest_byte g' x = guest_byte g x.
Proof.
  intros Hv Hm. unfold guest_byte. by rewrite (same_view_permitted _ g g' x Hv), Hm, (proj2 (view_cell_same g g' x Hv)).
Qed.

(** The last byte of the address space is never mapped. *)
Lemma top_not_permitted n rest required g : space_ok n rest g -> permitted required g UINT64_MAX = false.
Proof.
  intros Hok. unfold permitted. pose proof (sk_ledger _ _ _ Hok) as Hl.
  destruct (guest_cell (store g) (ledger g) UINT64_MAX) as [[[loc p] f]|] eqn:Hc.
  - apply cell_entry in Hc as (e & He & Hcov). apply covers_spec in Hcov. pose proof (lo_entries _ _ _ Hl) as Hes.
    rewrite List.Forall_forall in Hes. destruct (Hes e He) as (bk & _ & (_ & H & _)). lia.
  - assert (Ha : accessible g UINT64_MAX = false) by (by apply top_not_accessible).
    unfold fragment_ok, storable. rewrite Ha. by destruct (has_flag _ _).
Qed.

Lemma copy_from_guest g a len :
  copying g -> 0 <= a < 2 ^ 64 -> 0 < len < 2 ^ 63 ->
  exists r l g', copy_from g a len = Some (r, l, g') /\ copying g' /\
    (forall x, guest_byte g' x = guest_byte g x) /\ (forall x, guest_store g' x <-> guest_store g x) /\
    (forall x, fold_address g' x = fold_address g x) /\
    (r = - EFAULT /\ l = [] \/ 0 < r <= len /\ lengthZ l = r) /\ Forall byte l /\
    (forall i, 0 <= i < lengthZ l -> guest_byte g (a + i) = lookupZ l i) /\
    (lengthZ l < len -> exists i, 0 <= i < len /\ guest_byte g (a + i) = None).
Proof.
  intros Hcp Ha Hlen. pose proof Hcp as (Hlo & n & rest & Hok & Hroom). destruct (Z.le_gt_cases (a + len) UINT64_MAX) as [Ht|Ht].
  - destruct (copy_from_result n rest g a len Hok Hroom Ha) as (m & g' & -> & Hok' & Hv & Hm & _ & Hle & Hperm & Hstop); [lia|done| |].
    { intros i Hi. by rewrite !undisplaced. }
    rewrite undisplaced in * by done. eexists _, _, g'. split; [done|]. split; [by eapply copying_same|].
    split; [intros x; by apply guest_byte_same|]. split; [intros x; unfold guest_store; by rewrite (same_view_permitted _ g g' x Hv)|].
    split; [intros x; by apply same_view_fold|]. rewrite length_read_guest. split.
    { unfold copy_result. rewrite (proj2 (Z.eqb_neq len 0)) by lia. destruct (Z.eqb_spec (Z.of_nat m) 0); cbn [andb negb]; [left|right; lia].
      split; [done|]. by assert (m = O) as -> by lia. }
    split; [by eapply read_guest_bytes|]. split.
    + intros i Hi. unfold guest_byte. rewrite Hperm by done. unfold read_guest. rewrite lookupZ_map. unfold lookupZ.
      rewrite (proj2 (Z.leb_le 0 i)) by lia. rewrite lookup_seq_lt by lia. simpl. by rewrite Z2Nat.id by lia.
    + intros Hlt. destruct (Hstop Hlt) as (i & Hi & _ & Hno). exists i. split; [lia|]. unfold guest_byte. by rewrite Hno.
  - rewrite copy_from_wraps by lia. eexists _, _, g. split; [done|]. split; [done|]. split_and!; try done; [by left| |].
    + intros i Hi. unfold lengthZ in Hi. simpl in Hi. lia.
    + intros _. exists (UINT64_MAX - a). split; [unfold UINT64_MAX in *; lia|]. unfold guest_byte.
      replace (a + (UINT64_MAX - a)) with UINT64_MAX by lia. by rewrite (top_not_permitted n rest).
Qed.

Lemma copy_to_wraps g a l : g_nonpie_lo (image (protection_of g)) = 0 -> 0 <= a < 2 ^ 64 -> 0 < lengthZ l ->
  UINT64_MAX < a + lengthZ l -> copy_to g a l = Some (- EFAULT, g).
Proof.
  intros Hlo Ha Hl Ht. unfold copy_to. rewrite undisplaced by done. cbn [copy_to_loop]. rewrite (proj2 (Z.ltb_lt 0 _)) by done.
  cbn zeta. rewrite Z.add_0_r, Z.sub_0_r, u64_small by lia. by rewrite span_wraps.
Qed.

Lemma wrote_nothing n rest g x l : space_ok n rest g -> wrote n rest g x l 0 g.
Proof.
  intros Hok. constructor; [done|apply same_view_refl|pose proof (lengthZ_nonneg l); lia|done|lia|]. exists []. split; [by rewrite app_nil_r|lia].
Qed.

Lemma copy_to_result n rest g a l :
  space_ok n rest g -> room_for 1 rest g -> 0 <= a < 2 ^ 64 -> 0 < lengthZ l < 2 ^ 63 -> Forall byte l ->
  a + lengthZ l <= UINT64_MAX -> linear g a (lengthZ l) -> linear g (fold_address g a) (lengthZ l) ->
  fold_address g (fold_address g a) = fold_address g a ->
  exists (m : nat) g', copy_to g a l = Some (copy_result (Z.of_nat m) (lengthZ l), g') /\
    wrote n rest g (fold_address g a) l m g' /\
    stopped (permitted HL_LOGICAL_VMA_WRITE g) (fold_address g a) (Z.of_nat m) (lengthZ l).
Proof.
  intros Hok Hroom Ha Hl Hb Ht Hlin Hlin2 Hid. destruct (fold_bounds n rest g a (lengthZ l) Hok Ha Hl Ht) as [Hx Hxt].
  apply (copy_to_loop_spec n rest (S (length l)) 0 a l g g (wrote_nothing n rest g _ l Hok)); try done; try lia.
  - unfold lengthZ. lia.
  - intros i Hi. by rewrite Hlin2, Hid.
Qed.

Lemma copy_to_guest g a l :
  copying g -> 0 <= a < 2 ^ 64 -> 0 < lengthZ l < 2 ^ 63 -> Forall byte l ->
  exists r g', copy_to g a l = Some (r, g') /\ copying g' /\ (forall x, guest_store g' x <-> guest_store g x) /\
    (forall x, fold_address g' x = fold_address g x) /\
    (r = - EFAULT \/ 0 < r <= lengthZ l) /\
    (r < lengthZ l -> exists i, 0 <= i < lengthZ l /\ (guest_store g (a + i) -> False)).
Proof.
  intros Hcp Ha Hl Hb. pose proof Hcp as (Hlo & n & rest & Hok & Hroom). destruct (Z.le_gt_cases (a + lengthZ l) UINT64_MAX) as [Ht|Ht].
  - destruct (copy_to_result n rest g a l Hok Hroom Ha Hl Hb Ht) as (m & g' & -> & Hw & Hstop); try by rewrite !undisplaced.
    { intros i Hi. by rewrite !undisplaced. }
    { intros i Hi. by rewrite !undisplaced. }
    rewrite undisplaced in * by done. eexists _, g'. split; [done|]. pose proof Hw as [Hok' Hv Hc _ _ _].
    split; [by eapply copying_same|]. split; [intros x; unfold guest_store; by rewrite (same_view_permitted _ g g' x Hv)|].
    split; [intros x; by apply same_view_fold|]. unfold copy_result. rewrite (proj2 (Z.eqb_neq (lengthZ l) 0)) by lia. cbn [negb].
    split; [destruct (Z.eqb_spec (Z.of_nat m) 0); cbn [andb]; [by left|right; lia]|]. intros Hr.
    destruct (Hstop ltac:(destruct (Z.eqb_spec (Z.of_nat m) 0); cbn [andb] in Hr; lia)) as (i & Hi & _ & Hno).
    exists i. split; [lia|]. unfold guest_store. by rewrite Hno.
  - rewrite copy_to_wraps by (done || lia). eexists _, g. split; [done|]. split_and!; try done; [by left|].
    intros _. exists (UINT64_MAX - a). split; [unfold UINT64_MAX in *; lia|]. unfold guest_store.
    replace (a + (UINT64_MAX - a)) with UINT64_MAX by lia. by rewrite (top_not_permitted n rest).
Qed.

#[export] Instance guest_space_memory : GuestMemory guest_space :=
  {| nonpie_fold := fold_address; guest_copy_from := copy_from; guest_copy_to := copy_to |}.

#[export] Instance guest_space_memory_ok : GuestMemoryOk guest_space :=
  {| guest_ok := copying; readable := guest_byte; writable := guest_store; nonpie_fold_u64 := undisplaced_u64;
     copy_from_spec := copy_from_guest; copy_to_spec := copy_to_guest |}.
