(* ===== verification/GuestCopyTheorems.v ===== *)
(** * Properties of the guest userspace accessors

    What [guest_copy_from], [guest_copy_to] and [host_range_writable_prefix]
    answer, over the live ledger of logical mappings, the protection
    registries, the past-EOF ledger and a host with partly readable pages. *)

From stdpp Require Import gmap.
From S2P Require Import Prelude VmaLedger VmaReaders VmaIntervals VmaInvariant VmaCalls VmaSteps VmaReads VmaTheorems.
From S2P Require Import RangeLedger GuestRanges GuestRangesSteps BusLedger BusSteps.
From S2P Require Import GuestAccess GuestCopy GuestProbes GuestCopies.

(** ** A small address space *)

(** The ledger of [demo_ledger]: a file's two pages at 4096, an executable
    alias of the second at 20480; the host is readable up to 2 KiB into the
    page at 61440, and 53248 to 57344 is PROT_NONE. *)
Definition demo_registries : registries :=
  default (registries_init (mk_projection 0 0 0)) (gna_add true 53248 57344 (registries_init (mk_projection 0 0 0))).

Definition demo_space_of (m : memory) : guest_space :=
  mk_space demo_store demo_ledger m demo_registries caches_init bus_init (fun x => (32768 <=? x) && (x <? 63488))
    true true [].

Definition demo_space : guest_space := demo_space_of (fun x => x mod 256).

Lemma demo_prefixed : pages_prefixed (fun x => (32768 <=? x) && (x <? 63488)).
Proof.
  intros x y Hxy Hp Hy. bool_props. pose proof (page_split x). pose proof (page_split y). rewrite Hp in *.
  pose proof (Z.div_le_mono 32768 y 4096 ltac:(lia) ltac:(lia)) as Hd. change (32768 / 4096) with 8 in Hd.
  apply andb_true_iff. split; [apply Z.leb_le|apply Z.ltb_lt]; lia.
Qed.

Lemma demo_registries_ok : registries_ok 1 demo_registries.
Proof.
  destruct (writer_ok true 0 _ ltac:(lia) (init_ok (mk_projection 0 0 0)) ltac:(intros []; done) (AddRange PROT_NONE 53248 57344)) as (R & HR & Hok & _).
  - done.
  - assert (HR' : R = demo_registries) by (unfold demo_registries; simpl in HR; by rewrite HR). by rewrite <- HR'.
Qed.

Lemma demo_space_ok m : (forall x, byte (m x)) -> space_ok 1 [] (demo_space_of m).
Proof.
  intros Hm. constructor; simpl.
  - exact demo_ok.
  - exact demo_registries_ok.
  - by left.
  - intros x y Hx Hy Hxy. unfold covered. simpl. unfold inside. simpl. rewrite !orb_false_r.
    pose proof (page_split x). pose proof (page_split y). rewrite Hxy in *.
    assert (Hd : y / 4096 <= 12 \/ y / 4096 = 13 \/ 14 <= y / 4096) by lia.
    apply eq_true_iff_eq. rewrite !andb_true_iff, !Z.leb_le, !Z.ltb_lt. lia.
  - by apply caches_init_ok.
  - apply init_bus_ok.
  - done.
  - apply demo_prefixed.
  - exact Hm.
Qed.

Lemma demo_bytes x : byte (x mod 256).
Proof. unfold byte. apply Z.mod_pos_bound. lia. Qed.

Lemma demo_room m : room_for 1 [] (demo_space_of m).
Proof. vm_compute. reflexivity. Qed.

Lemma demo_linear m a len : linear (demo_space_of m) a len.
Proof. intros i _. by rewrite !undisplaced. Qed.

(** ** Copies *)

(** C35: In an address space at rest - the registries sound, PROT_NONE ranges
    whole pages, the past-EOF ledger open and between transactions - and for a
    range that does not wrap and that the displacement of the image, if any,
    keeps in one piece: [guest_copy_from] returns, and reads a prefix of the
    source, each byte through the host address of its mapping: every byte of it
    may be read by the guest, and when it is short of the source some byte of
    the fragment of a page at which it stops may not - readable bytes before
    that one in the fragment may be left unread; with no byte read it answers
    [-EFAULT]. Nothing but the caches of the registries changes: no pin is left
    behind. *)
Theorem copy_from_exact n rest g a len :
  space_ok n rest g -> room_for 1 rest g -> 0 <= a < 2 ^ 64 -> 0 < len < 2 ^ 63 -> a + len <= UINT64_MAX -> linear g a len ->
  exists (m : nat) g', copy_from g a len =
      Some (if Z.of_nat m =? 0 then - EFAULT else Z.of_nat m, read_guest g (fold_address g a) m, g') /\
    space_ok n rest g' /\ same_view g g' /\ host_memory g' = host_memory g /\ Z.of_nat m <= len /\
    (forall i, 0 <= i < Z.of_nat m -> permitted HL_LOGICAL_VMA_READ g (fold_address g a + i) = true) /\
    stopped (permitted HL_LOGICAL_VMA_READ g) (fold_address g a) (Z.of_nat m) len.
Proof.
  intros Hok Hroom Ha Hl Ht Hlin.
  destruct (copy_from_result n rest g a len Hok Hroom Ha ltac:(lia) Ht Hlin) as (m & g' & Hrun & Hok' & Hv & Hm & _ & Hle & Hp & Hs).
  exists m, g'. rewrite Hrun. unfold copy_result. rewrite (proj2 (Z.eqb_neq len 0)) by lia. rewrite andb_true_r. by split_and!.
Qed.

Lemma copy_from_exact_witness :
  exists (m : nat) g', copy_from demo_space 61440 4096 =
      Some (if Z.of_nat m =? 0 then - EFAULT else Z.of_nat m, read_guest demo_space 61440 m, g') /\
    space_ok 1 [] g' /\ same_view demo_space g' /\ host_memory g' = host_memory demo_space /\ Z.of_nat m <= 4096 /\
    (forall i, 0 <= i < Z.of_nat m -> permitted HL_LOGICAL_VMA_READ demo_space (61440 + i) = true) /\
    stopped (permitted HL_LOGICAL_VMA_READ demo_space) 61440 (Z.of_nat m) 4096.
Proof.
  apply (copy_from_exact 1 [] demo_space 61440 4096);
    [exact (demo_space_ok _ demo_bytes)|apply demo_room|lia|lia|unfold UINT64_MAX; lia|apply demo_linear].
Defined.

(** C23: In an address space at rest - the registries sound, PROT_NONE ranges
    whole pages, the past-EOF ledger open and between transactions - and for a
    range that does not wrap and that the displacement of the image, if any,
    keeps in one piece: [guest_copy_to] returns, and writes a prefix of the
    range: every byte of it may be written by the guest, and when it is short
    of the range some byte of the fragment of a page at which it stops may not
    - bytes before that one in the fragment may be left unwritten. Memory is
    then what storing the prefix byte after byte through the host addresses
    gives, aliases included. Every translation of what was written is dropped:
    the bytes themselves, or each executable alias of a file byte. *)
Theorem copy_to_exact n rest g a l :
  space_ok n rest g -> room_for 1 rest g -> 0 <= a < 2 ^ 64 -> 0 < lengthZ l < 2 ^ 63 -> Forall byte l ->
  a + lengthZ l <= UINT64_MAX -> linear g a (lengthZ l) -> linear g (fold_address g a) (lengthZ l) ->
  fold_address g (fold_address g a) = fold_address g a ->
  exists (m : nat) g', copy_to g a l = Some (if Z.of_nat m =? 0 then - EFAULT else Z.of_nat m, g') /\
    space_ok n rest g' /\ Z.of_nat m <= lengthZ l /\
    (forall y, host_memory g' y = write_guest g (fold_address g a) (take m l) (host_memory g) y) /\
    (forall i, 0 <= i < Z.of_nat m -> permitted HL_LOGICAL_VMA_WRITE g (fold_address g a + i) = true) /\
    stopped (permitted HL_LOGICAL_VMA_WRITE g) (fold_address g a) (Z.of_nat m) (lengthZ l) /\
    exists new : list (Z * Z), translated g' = (translated g ++ new)%list /\
      forall i y, 0 <= i < Z.of_nat m -> code_of g (fold_address g a + i) y -> dropped new y.
Proof.
  intros Hok Hroom Ha Hl Hb Ht Hlin Hlin2 Hid.
  destruct (copy_to_result n rest g a l Hok Hroom Ha Hl Hb Ht Hlin Hlin2 Hid) as (m & g' & Hrun & [Hok' _ Hc Hm Hp Hd] & Hs).
  exists m, g'. rewrite Hrun. unfold copy_result. rewrite (proj2 (Z.eqb_neq (lengthZ l) 0)) by lia. rewrite andb_true_r. by split_and!.
Qed.

Lemma copy_to_exact_witness :
  exists (m : nat) g', copy_to demo_space 8190 [1; 2; 3; 4] = Some (if Z.of_nat m =? 0 then - EFAULT else Z.of_nat m, g') /\
    space_ok 1 [] g' /\ Z.of_nat m <= 4 /\
    (forall y, host_memory g' y = write_guest demo_space 8190 (take m [1; 2; 3; 4]) (host_memory demo_space) y) /\
    (forall i, 0 <= i < Z.of_nat m -> permitted HL_LOGICAL_VMA_WRITE demo_space (8190 + i) = true) /\
    stopped (permitted HL_LOGICAL_VMA_WRITE demo_space) 8190 (Z.of_nat m) 4 /\
    exists new : list (Z * Z), translated g' = (translated demo_space ++ new)%list /\
      forall i y, 0 <= i < Z.of_nat m -> code_of demo_space (8190 + i) y -> dropped new y.
Proof.
  apply (copy_to_exact 1 [] demo_space 8190 [1; 2; 3; 4]);
    [exact (demo_space_ok _ demo_bytes)|apply demo_room|lia|unfold lengthZ; simpl; lia|repeat constructor; done|unfold UINT64_MAX, lengthZ; simpl; lia
    |apply demo_linear|apply demo_linear|reflexivity].
Defined.

(** The write reached the executable alias of the second page. *)
Example copy_to_drops_alias :
  (x ← copy_to demo_space 8190 [1; 2; 3; 4]; Some (fst x, translated (snd x))) = Some (4, [(20480, 20482)]).
Proof. vm_compute. reflexivity. Qed.

(** ** Probing for a store *)

(** C39: In an address space at rest - the registries sound, PROT_NONE ranges
    whole pages, the past-EOF ledger open and between transactions - and for a
    range that does not wrap and that the displacement of the image, if any,
    keeps in one piece: [host_range_writable_prefix] answers, without a store,
    a prefix of which every byte can be stored to: mapped, in no PROT_NONE,
    read-only or past-EOF range; when it is short, some byte of the fragment of
    the page it stops at cannot be - it may stop at the start of that fragment,
    before the first such byte. *)
Theorem writable_prefix_exact n rest g a len :
  space_ok n rest g -> 0 <= a -> 0 < len -> a + len <= INT64_MAX -> straight g a len ->
  exists p g', host_range_writable_prefix a len g = Some (p, g') /\ recached g g' /\ 0 <= p <= len /\
    (forall i, 0 <= i < p -> storable g (a + i) = true) /\ stopped (storable g) a p len.
Proof. apply writable_prefix_spec. Qed.

Lemma writable_prefix_exact_witness :
  exists p g', host_range_writable_prefix 49152 16384 demo_space = Some (p, g') /\ recached demo_space g' /\ 0 <= p <= 16384 /\
    (forall i, 0 <= i < p -> storable demo_space (49152 + i) = true) /\ stopped (storable demo_space) 49152 p 16384.
Proof.
  apply (writable_prefix_exact 1 [] demo_space 49152 16384);
    [exact (demo_space_ok _ demo_bytes)|lia|lia|unfold INT64_MAX; lia|intros i Hi; reflexivity].
Defined.

Example writable_prefix_stops : (x ← host_range_writable_prefix 49152 16384 demo_space; Some (fst x)) = Some 4096.
Proof. vm_compute. reflexivity. Qed.
