(* ===== verification/SeccompTheorems.v ===== *)
(** * Properties of seccomp filters

    Validated programs never go wrong, a process never loosens the filters of
    a task, the gate enforces the most restrictive verdict, and how an
    installation refuses or reaches the whole thread group. *)

From stdpp Require Import gmap.
From S2P Require Import Prelude GuestAccess SeccompVm SeccompProofs SeccompFilters SeccompInvariant.
From S2P Require Import SeccompInvariant.
From S2P Require Import VmaLedger VmaReaders VmaTheorems GuestCopy GuestProbes GuestCopies GuestCopyTheorems.

(** ** A small process *)

(** Denies system call 59 with [EPERM] and allows the others. *)
Definition demo_program : list hl_linux_sock_filter :=
  [mk_insn 0x20 0 0 0; mk_insn 0x15 0 1 59; mk_insn 0x06 0 0 0x00050001; mk_insn 0x06 0 0 0x7fff0000].

Definition insn_bytes (f : hl_linux_sock_filter) : list Z :=
  le_bytes 2 (code f) ++ [jt f; jf f] ++ le_bytes 4 (k f).

(** A [sock_fprog] at 36864, its program behind it. *)
Definition demo_text : list Z :=
  le_bytes 8 4 ++ le_bytes 8 36880 ++ concat (map insn_bytes demo_program).

Definition demo_memory : memory := fun x => default 0 (lookupZ demo_text (x - 36864)).

Lemma demo_memory_bytes x : byte (demo_memory x).
Proof.
  unfold demo_memory. destruct (lookupZ demo_text (x - 36864)) as [b|] eqn:Hb; simpl; [|done].
  apply lookupZ_elem in Hb. assert (Hall : Forall byte demo_text); [|rewrite List.Forall_forall in Hall; by apply Hall].
  vm_compute. repeat constructor; done.
Qed.

Definition demo_guest : guest_space := demo_space_of demo_memory.

Lemma demo_guest_ok : guest_ok demo_guest.
Proof. split; [done|]. exists 1, []. split; [apply demo_space_ok, demo_memory_bytes|apply demo_room]. Qed.

Definition demo_start : process guest_space := process_start demo_guest 7 true 0.
Definition demo_regs (nr a0 a1 a2 : Z) : syscall_regs := mk_regs nr nr 65536 [a0; a1; a2; 0; 0; 0].
Definition demo_answers : call_answers := mk_call_answers 0xc00000b7 true true false.
Definition run_or (e : seccomp_event) (P : process guest_space) : process guest_space := default P (run_event e P).

(** The task 7 starts a task 8, which has not run yet, and installs a filter
    for the thread group. *)
Definition demo_spawned : process guest_space := run_or (Spawn 7 8) demo_start.
Definition demo_filtered : process guest_space :=
  run_or (SystemCall 7 (demo_regs 277 1 1 36864) demo_answers) demo_spawned.

Lemma demo_start_died : died demo_start = None.
Proof. vm_compute. reflexivity. Qed.

Lemma demo_spawned_runs : run_event (Spawn 7 8) demo_start = Some demo_spawned.
Proof. reflexivity. Qed.

Lemma demo_start_task : tasks demo_start !! 7 = Some (mk_cpu 0 None 0 false 0).
Proof. vm_compute. reflexivity. Qed.

Lemma demo_start_free : tasks demo_start !! 8 = None.
Proof. vm_compute. reflexivity. Qed.

Lemma demo_spawned_steps : seccomp_steps demo_start demo_spawned.
Proof.
  eapply (steps_more _ demo_start _ (Spawn 7 8)); [apply steps_refl|exact demo_start_died| |exact demo_spawned_runs].
  split; [|split; [lia|exact demo_start_free]]. exists (mk_cpu 0 None 0 false 0). split; [exact demo_start_task|done].
Qed.

Lemma demo_regs_sized nr a0 a1 a2 :
  - 2 ^ 31 <= nr < 2 ^ 31 -> Forall (fun a => 0 <= a < 2 ^ 64) [a0; a1; a2] -> regs_sized (demo_regs nr a0 a1 a2).
Proof.
  intros Hn Ha. split; [done|]. split; [simpl; lia|]. split; [done|]. simpl.
  apply Forall_app_2 with (l1 := [a0; a1; a2]) (l2 := [0; 0; 0]); [done|]. repeat constructor; lia.
Qed.

Lemma demo_spawned_died : died demo_spawned = None.
Proof. vm_compute. reflexivity. Qed.

Lemma demo_spawned_task : tasks demo_spawned !! 7 = Some (mk_cpu 0 None 0 false 0).
Proof. vm_compute. reflexivity. Qed.

Lemma demo_filtered_task :
  (seccomp_mode <$> tasks demo_filtered !! 7, programs demo_filtered 7) = (Some 2, [demo_program]).
Proof. vm_compute. reflexivity. Qed.

Lemma demo_install_sane : event_sane (SystemCall 7 (demo_regs 277 1 1 36864) demo_answers) demo_spawned.
Proof.
  split; [exists (mk_cpu 0 None 0 false 0); split; [exact demo_spawned_task|done]|].
  split; [apply demo_regs_sized; [lia|repeat constructor; lia]|simpl; lia].
Qed.

Lemma demo_spawned_ok : proc_ok demo_spawned.
Proof. apply (steps_ok demo_start); [exact demo_spawned_steps|]. by apply start_ok; [exact demo_guest_ok|]. Qed.

Lemma demo_filtered_steps : seccomp_steps demo_spawned demo_filtered.
Proof.
  destruct (event_ok _ _ demo_spawned_ok demo_install_sane) as (P & Hrun & _).
  eapply (steps_more _ demo_spawned); [apply steps_refl|exact demo_spawned_died|exact demo_install_sane|].
  unfold demo_filtered, run_or. rewrite Hrun. reflexivity.
Qed.

Lemma demo_filtered_ok : proc_ok demo_filtered.
Proof. apply (steps_ok demo_spawned); [exact demo_filtered_steps|exact demo_spawned_ok]. Qed.

(** ** Programs *)

(** C31: A program the validator accepts goes wrong in one way only: it decodes
    into the reference instructions, whose evaluation never gets stuck; where
    that evaluation returns a verdict the interpreter returns the same 32-bit
    word within its 4097 steps, and where it divides by a zero index register
    the interpreter stops with the division fault - no load, store or jump
    fault, no unknown opcode, no running off the end - and the filter answers
    KILL_THREAD. *)
Theorem validated_never_stuck f sd :
  hl_seccomp_validate f = true -> Forall insn_sized f -> data_sized sd ->
  exists l, decode_program f = Some l /\
  match eval sd l 0 0 (fun _ => 0) with
  | Verdict w => run_program f sd = Returned w /\ hl_seccomp_run f sd = w /\ in_u32 w
  | DivideByZero => run_program f sd = Faulted FaultDivide /\ hl_seccomp_run f sd = HL_LINUX_SECCOMP_RET_KILL_THREAD
  | Stuck => False
  end.
Proof.
  intros Hv Hsz Hsd. pose proof (validate_ok _ Hv) as Hok. destruct (ok_decodes _ Hok) as [l Hl].
  exists l. split; [done|]. pose proof (po_length _ Hok). unfold hl_seccomp_run.
  rewrite (proj2 (Z.eqb_neq _ _)), (proj2 (Z.ltb_ge _ _)) by lia. cbn [orb].
  pose proof (run_program_eval sd Hsd f Hok Hsz l Hl) as He. destruct (run_program f sd) as [s'|w|fault]; [done| |].
  - by destruct He as [-> ?].
  - by destruct He as [-> ->].
Qed.

Definition demo_data : hl_linux_seccomp_data := mk_data 59 0xc00000b7 65536 [1; 2; 3; 4; 5; 6].

Lemma demo_data_sized : data_sized demo_data.
Proof. split_and!; simpl; try lia. repeat constructor; lia. Qed.

Lemma demo_program_sized : Forall insn_sized demo_program.
Proof. repeat constructor; simpl; lia. Qed.

Lemma validated_never_stuck_witness :
  exists l, decode_program demo_program = Some l /\
  match eval demo_data l 0 0 (fun _ => 0) with
  | Verdict w => run_program demo_program demo_data = Returned w /\ hl_seccomp_run demo_program demo_data = w /\ in_u32 w
  | DivideByZero =>
      run_program demo_program demo_data = Faulted FaultDivide /\
      hl_seccomp_run demo_program demo_data = HL_LINUX_SECCOMP_RET_KILL_THREAD
  | Stuck => False
  end.
Proof. apply (validated_never_stuck demo_program demo_data); [reflexivity|exact demo_program_sized|exact demo_data_sized]. Defined.

Example demo_denies : hl_seccomp_run demo_program demo_data = 0x00050001.
Proof. vm_compute. reflexivity. Qed.

(** ** The life of a process *)

Section Process.
Context {G : Type} `{HG : GuestMemoryOk G}.
Implicit Types (P : process G).

(** In every state a process reaches, all linked programs are validated,
    chains end, a task filters exactly when it has filters, and no task filters
    before the gate is active; and every event then has a next state: no
    system call finds a dangling filter. *)
Theorem filters_stay_valid g c nnp caps P :
  guest_ok g -> 0 < c -> seccomp_steps (process_start g c nnp caps) P ->
  proc_ok P /\ (forall c' q, In q (programs P c') -> program_sane q) /\
  forall e, event_sane e P -> is_Some (run_event e P).
Proof.
  intros Hg Hc Hs. destruct (steps_ok _ _ Hs (start_ok g c nnp caps Hg Hc)) as [Hok _]. split; [done|]. split.
  - intros c' q Hq. unfold programs in Hq. destruct (tasks P !! c') as [t|]; [|done].
    pose proof (chain_sane (nodes P) (length (nodes P)) (seccomp_filters t) (pk_nodes _ Hok)) as Hall.
    rewrite List.Forall_forall in Hall. by apply Hall.
  - intros e He. destruct (event_ok e P Hok He) as (P' & -> & _). done.
Qed.

(** C13: Whatever a process does, a task that confined itself stays confined:
    it keeps its mode, and on every call the verdict of its filters only
    becomes more restrictive. *)
Theorem filters_never_loosen P P' c t sd r :
  proc_ok P -> seccomp_steps P P' -> tasks P !! c = Some t -> hl_linux_seccomp_evaluate (nodes P) t sd = Some r ->
  exists t' r', tasks P' !! c = Some t' /\ (seccomp_mode t <> 0 -> seccomp_mode t' = seccomp_mode t) /\
    hl_linux_seccomp_evaluate (nodes P') t' sd = Some r' /\ hl_seccomp_precedence r' <= hl_seccomp_precedence r.
Proof.
  intros Hok Hs Ht Hr. destruct (steps_ok _ _ Hs Hok) as [Hok' Hk]. destruct (Hk c t Ht) as (t' & Ht' & Hm & new & Hp).
  destruct (evaluate_spec P c t sd Hok Ht) as (r0 & Hr0 & Hcase & _). rewrite Hr in Hr0. injection Hr0 as <-.
  destruct (evaluate_spec P' c t' sd Hok' Ht') as (r' & Hr' & Hcase' & Hall). exists t', r'. split_and!; try done.
  destruct Hcase as [->|(q & Hq & ->)].
  - change (hl_seccomp_precedence HL_LINUX_SECCOMP_RET_ALLOW) with 7. unfold hl_seccomp_precedence.
    repeat match goal with |- context [if ?b then _ else _] => destruct b end; lia.
  - apply Hall. rewrite Hp. apply in_or_app. by right.
Qed.

(** C32: For a task in filter mode the gate applies one action that is at
    least as restrictive as the verdict, by the reference semantics, of each
    of the task's programs, and is the verdict of one of them, or ALLOW when
    all of them allow. *)
Theorem gate_most_restrictive a c r P t :
  proc_ok P -> tasks P !! c = Some t -> seccomp_mode t = 2 -> regs_sized r -> 0 <= a < 2 ^ 32 ->
  exists action, seccomp_gate a c r P = Some (apply_action c (seccomp_data_of a r) action P) /\
    (action = HL_LINUX_SECCOMP_RET_ALLOW \/
     exists q l, In q (programs P c) /\ decode_program q = Some l /\ program_action (seccomp_data_of a r) l = Some action) /\
    forall q, In q (programs P c) -> exists l verdict, decode_program q = Some l /\
      program_action (seccomp_data_of a r) l = Some verdict /\
      hl_seccomp_precedence action <= hl_seccomp_precedence verdict.
Proof.
  intros Hok Ht Hm (Hnr & Hip & Hlen & Hargs) Ha. set (sd := seccomp_data_of a r).
  destruct (pk_task _ Hok _ _ Ht) as (_ & _ & _ & Hact).
  assert (Hsd : data_sized sd) by (split_and!; simpl; try lia; rewrite take_ge; try done; lia).
  assert (Hvalue : forall q, In q (programs P c) ->
    exists l, decode_program q = Some l /\ program_action sd l = Some (hl_seccomp_run q sd)).
  { intros q Hq. unfold programs in Hq. rewrite Ht in Hq.
    pose proof (chain_sane (nodes P) (length (nodes P)) (seccomp_filters t) (pk_nodes _ Hok)) as Hall.
    rewrite List.Forall_forall in Hall. destruct (Hall q Hq) as [Hv Hs].
    destruct (validated_value q sd Hv Hs Hsd) as (l & Hd & Hp & _). by exists l. }
  destruct (evaluate_spec P c t sd Hok Ht) as (action & He & Hcase & Hall). exists action. split_and!.
  - unfold seccomp_gate. destruct (g_seccomp_active P) eqn:Hg; [|by rewrite Hact in Hm]. cbn [negb]. rewrite Ht.
    cbn [mbind option_bind]. rewrite Hm. unfold hl_linux_seccomp_apply. rewrite Ht. cbn [mbind option_bind]. rewrite Hm.
    fold sd. simpl. by rewrite He.
  - destruct Hcase as [->|(q & Hq & ->)]; [by left|right]. destruct (Hvalue q Hq) as (l & Hd & Hp). by exists q, l.
  - intros q Hq. destruct (Hvalue q Hq) as (l & Hd & Hp). exists l, (hl_seccomp_run q sd). split_and!; try done. by apply Hall.
Qed.

(** ** Installation *)

(** An installation refuses for the first of its reasons, in order:
    unknown or conflicting flags, an unreadable [sock_fprog], a length outside
    1 to 4096, a null program, no memory, an unreadable program, an invalid
    one, a caller that is not authorised, a listener.  A refusal changes
    nothing but what reading guest memory changes; otherwise the program, as
    the guest's memory holds it, is linked. *)
Theorem install_refusals malloc_node malloc_insns c fprog_ptr flags P :
  proc_ok P -> 0 <= fprog_ptr < 2 ^ 64 ->
  exists g, reread P g /\
    seccomp_install_filter malloc_node malloc_insns c fprog_ptr flags P =
      match install_decision (malloc_node && malloc_insns) fprog_ptr flags P with
      | inl errno => Some (- errno, set_guest g P)
      | inr program => link_filter c flags program (set_guest g P)
      end.
Proof. apply install_decides. Qed.

(** TSYNC reaches every registered thread or none: it succeeds exactly
    when all of them have the caller's mode and filters, and then each runs
    the program before those it had; otherwise the process is unchanged and
    the answer names a thread that differs, or is [-ESRCH]. *)
Theorem tsync_all_or_none c flags program t P :
  proc_ok P -> tasks P !! c = Some t -> seccomp_mode t <> 1 -> program_sane program ->
  has_flag flags HL_LINUX_SECCOMP_FILTER_FLAG_TSYNC = true ->
  let alike u := seccomp_mode u = seccomp_mode t /\ seccomp_filters u = seccomp_filters t in
  (forall peer u, Some peer ∈ g_threg P -> tasks P !! peer = Some u -> alike u) /\
    (exists P', link_filter c flags program P = Some (0, P') /\ proc_ok P' /\
       forall peer u, Some peer ∈ g_threg P -> tasks P !! peer = Some u ->
         programs P' peer = program :: programs P peer /\ tasks P' !! peer = Some (attach (lengthZ (nodes P)) u)) \/
  exists peer u, Some peer ∈ g_threg P /\ tasks P !! peer = Some u /\ (alike u -> False) /\
    link_filter c flags program P =
      Some (if has_flag flags HL_LINUX_SECCOMP_FILTER_FLAG_TSYNC_ESRCH then - ESRCH else peer, P).
Proof.
  intros Hok Ht Hm Hp Hflag alike. destruct (link_answers c flags program t P Hok Ht Hm Hp) as [_ Hall].
  pose proof (tsync_spec c (lengthZ (nodes P)) t (set_nodes (nodes P ++ [mk_filter program (seccomp_filters t)]) P) Ht) as Hsync.
  assert (Hrun : link_filter c flags program P =
    '(status, P2) ← seccomp_tsync_attach c (lengthZ (nodes P)) (set_nodes (nodes P ++ [mk_filter program (seccomp_filters t)]) P);
    if negb (status =? 0)
    then Some (if has_flag flags HL_LINUX_SECCOMP_FILTER_FLAG_TSYNC_ESRCH then - ESRCH else status, P)
    else Some (0, activate P2)).
  { unfold link_filter. rewrite Ht. cbn [mbind option_bind]. by rewrite Hflag. }
  destruct Hsync as [[Hsame Heq]|(peer & u & Hin & Hu & Hd & Heq)]; rewrite Heq in Hrun; cbn [mbind option_bind] in Hrun.
  - left. split; [exact Hsame|]. change (negb (0 =? 0)) with false in Hrun. cbn iota in Hrun. eexists. split; [exact Hrun|].
    destruct (Hall _ _ Hrun) as [(H0 & _)|(_ & Hl & Htasks)]; [done|]. rewrite Hflag in Htasks.
    destruct (pk_task _ Hok _ _ Ht) as (Hhead & _). destruct (linked_ok _ _ _ _ Hl Hok Hp Hhead) as [Hok' _].
    split; [done|]. intros peer u Hin Hu. destruct (Htasks peer u Hin Hu) as [Hfu Htu]. split; [|done].
    destruct (linked_programs _ _ _ _ peer u Hl Hok Hp Hhead Hu) as [_ Hnew]. by apply Hnew.
  - right. exists peer, u. split_and!; [done|done|unfold alike; tauto|]. pose proof (pk_tid _ Hok _ _ Hu).
    rewrite (proj2 (Z.eqb_neq peer 0)) in Hrun by lia. exact Hrun.
Qed.

(** A thread that has started but not registered yet is not reached: it
    keeps the state its parent had when it started, so the caller's filter
    does not hold for the whole group. *)
Theorem tsync_misses_unregistered c flags program t P P' child u :
  proc_ok P -> tasks P !! c = Some t -> has_flag flags HL_LINUX_SECCOMP_FILTER_FLAG_TSYNC = true ->
  link_filter c flags program P = Some (0, P') -> tasks P !! child = Some u -> Some child ∉ g_threg P ->
  tasks P' !! child = Some u.
Proof.
  intros Hok Ht Hflag Hrun Hu Hout. unfold link_filter in Hrun. rewrite Ht in Hrun. cbn [mbind option_bind] in Hrun.
  rewrite Hflag in Hrun.
  destruct (tsync_spec c (lengthZ (nodes P)) t (set_nodes (nodes P ++ [mk_filter program (seccomp_filters t)]) P) Ht)
    as [[_ Heq]|(peer & v & _ & Hv & _ & Heq)]; rewrite Heq in Hrun; cbn [mbind option_bind] in Hrun.
  - change (negb (0 =? 0)) with false in Hrun. cbn iota in Hrun. injection Hrun as <-. simpl. rewrite attach_registered_lookup.
    by rewrite decide_False.
  - pose proof (pk_tid _ Hok _ _ Hv). rewrite (proj2 (Z.eqb_neq peer 0)) in Hrun by lia. simpl in Hrun.
    destruct (has_flag flags HL_LINUX_SECCOMP_FILTER_FLAG_TSYNC_ESRCH); injection Hrun as Hr _; [done|lia].
Qed.
End Process.

(** ** The theorems on the small process *)

Lemma filters_stay_valid_witness :
  proc_ok demo_spawned /\ (forall c q, In q (programs demo_spawned c) -> program_sane q) /\
  forall e, event_sane e demo_spawned -> is_Some (run_event e demo_spawned).
Proof. apply (filters_stay_valid demo_guest 7 true 0 demo_spawned); [exact demo_guest_ok|lia|exact demo_spawned_steps]. Defined.

Lemma filters_never_loosen_witness :
  exists t' r', tasks demo_filtered !! 7 = Some t' /\ (0 <> 0 -> seccomp_mode t' = 0) /\
    hl_linux_seccomp_evaluate (nodes demo_filtered) t' demo_data = Some r' /\
    hl_seccomp_precedence r' <= hl_seccomp_precedence HL_LINUX_SECCOMP_RET_ALLOW.
Proof.
  apply (filters_never_loosen demo_spawned demo_filtered 7 (mk_cpu 0 None 0 false 0) demo_data);
    [exact demo_spawned_ok|exact demo_filtered_steps|exact demo_spawned_task|reflexivity].
Defined.

Definition demo_task : cpu := mk_cpu 2 (Some 0) 0 false 0.

Lemma demo_filtered_lookup : tasks demo_filtered !! 7 = Some demo_task.
Proof. vm_compute. reflexivity. Qed.

Lemma gate_most_restrictive_witness :
  exists action, seccomp_gate 0xc00000b7 7 (demo_regs 59 1 2 3) demo_filtered =
      Some (apply_action 7 (seccomp_data_of 0xc00000b7 (demo_regs 59 1 2 3)) action demo_filtered) /\
    (action = HL_LINUX_SECCOMP_RET_ALLOW \/
     exists q l, In q (programs demo_filtered 7) /\ decode_program q = Some l /\
       program_action (seccomp_data_of 0xc00000b7 (demo_regs 59 1 2 3)) l = Some action) /\
    forall q, In q (programs demo_filtered 7) -> exists l verdict, decode_program q = Some l /\
      program_action (seccomp_data_of 0xc00000b7 (demo_regs 59 1 2 3)) l = Some verdict /\
      hl_seccomp_precedence action <= hl_seccomp_precedence verdict.
Proof.
  apply (gate_most_restrictive 0xc00000b7 7 (demo_regs 59 1 2 3) demo_filtered demo_task);
    [exact demo_filtered_ok|exact demo_filtered_lookup|reflexivity|apply demo_regs_sized; [lia|repeat constructor; lia]|lia].
Defined.

Lemma install_refusals_witness :
  exists g, reread demo_spawned g /\
    seccomp_install_filter true true 7 36864 8 demo_spawned =
      match install_decision (true && true) 36864 8 demo_spawned with
      | inl errno => Some (- errno, set_guest g demo_spawned)
      | inr program => link_filter 7 8 program (set_guest g demo_spawned)
      end.
Proof. apply (install_refusals true true 7 36864 8 demo_spawned); [exact demo_spawned_ok|lia]. Defined.

(** A listener is refused last. *)
Example install_listener : install_decision true 36864 8 demo_spawned = inl EINVAL.
Proof. vm_compute. reflexivity. Qed.

Lemma demo_program_sane : program_sane demo_program.
Proof. split; [reflexivity|exact demo_program_sized]. Qed.

Lemma tsync_all_or_none_witness :
  (forall peer u, Some peer ∈ g_threg demo_spawned -> tasks demo_spawned !! peer = Some u ->
     seccomp_mode u = 0 /\ seccomp_filters u = None) /\
    (exists P', link_filter 7 1 demo_program demo_spawned = Some (0, P') /\ proc_ok P' /\
       forall peer u, Some peer ∈ g_threg demo_spawned -> tasks demo_spawned !! peer = Some u ->
         programs P' peer = demo_program :: programs demo_spawned peer /\
         tasks P' !! peer = Some (attach (lengthZ (nodes demo_spawned)) u)) \/
  exists peer u, Some peer ∈ g_threg demo_spawned /\ tasks demo_spawned !! peer = Some u /\
    (seccomp_mode u = 0 /\ seccomp_filters u = None -> False) /\
    link_filter 7 1 demo_program demo_spawned =
      Some (if has_flag 1 HL_LINUX_SECCOMP_FILTER_FLAG_TSYNC_ESRCH then - ESRCH else peer, demo_spawned).
Proof.
  apply (tsync_all_or_none 7 1 demo_program (mk_cpu 0 None 0 false 0) demo_spawned);
    [exact demo_spawned_ok|exact demo_spawned_task|discriminate|exact demo_program_sane|reflexivity].
Defined.

(** Task 8 has started and not registered when task 7 synchronises. *)
Definition demo_synced : process guest_space :=
  match link_filter 7 1 demo_program demo_spawned with Some (_, P) => P | None => demo_spawned end.

Lemma demo_synced_run : link_filter 7 1 demo_program demo_spawned = Some (0, demo_synced).
Proof.
  unfold demo_synced. assert (Hv : fst <$> link_filter 7 1 demo_program demo_spawned = Some 0) by (vm_compute; reflexivity).
  destruct (link_filter 7 1 demo_program demo_spawned) as [[v P]|]; [|done]. simpl in Hv. by injection Hv as ->.
Qed.

Lemma demo_unregistered : Some 8 ∉ g_threg demo_spawned.
Proof.
  assert (Hb : bool_decide (Some 8 ∈ g_threg demo_spawned) = false) by (vm_compute; reflexivity).
  by apply bool_decide_eq_false in Hb.
Qed.

Lemma demo_child : tasks demo_spawned !! 8 = Some (mk_cpu 0 None 0 false 0).
Proof. vm_compute. reflexivity. Qed.

Lemma tsync_misses_unregistered_witness : tasks demo_synced !! 8 = Some (mk_cpu 0 None 0 false 0).
Proof.
  apply (tsync_misses_unregistered 7 1 demo_program (mk_cpu 0 None 0 false 0) demo_spawned demo_synced 8);
    [exact demo_spawned_ok|exact demo_spawned_task|reflexivity|exact demo_synced_run|exact demo_child|exact demo_unregistered].
Defined.

(** The caller filters from then on; the thread it started does not. *)
Example demo_synced_programs : (programs demo_synced 7, programs demo_synced 8) = ([demo_program], []).
Proof. vm_compute. reflexivity. Qed.
