(* ===== verification/Authority.v ===== *)
(** * The instruction-byte authority

    [translator/guest_fetch.c], the word [g_decode_authority]: a publication of
    a guest mapping is bracketed by [authority_begin] and [authority_end]; code
    built from fetched bytes is published under [authority_lease].  The word
    holds a version (bits 32 to 62), the lease bit, the number of writers and a
    sticky disabled bit.  Threads interleave one atomic access at a time, the
    weak compare-and-exchange may fail spuriously. *)

From S2P Require Import Prelude.

(** ** The word *)

Definition HL_GUEST_FETCH_AUTHORITY_ACTIVE_MASK : Z := 0xffff.
Definition HL_GUEST_FETCH_AUTHORITY_READER_MASK : Z := 0xffff0000.
Definition HL_GUEST_FETCH_AUTHORITY_READER_ONE : Z := 0x10000.
Definition HL_GUEST_FETCH_AUTHORITY_VERSION_ONE : Z := 0x100000000.
Definition HL_GUEST_FETCH_AUTHORITY_DISABLED : Z := Z.shiftl 1 63.

Definition complement (x : Z) : Z := Z.lxor UINT64_MAX x.

Definition is_disabled (state : Z) : bool := has_flag state HL_GUEST_FETCH_AUTHORITY_DISABLED.
Definition version_of (state : Z) : Z :=
  Z.land state (complement (Z.lor HL_GUEST_FETCH_AUTHORITY_DISABLED
                  (Z.lor HL_GUEST_FETCH_AUTHORITY_READER_MASK HL_GUEST_FETCH_AUTHORITY_ACTIVE_MASK))).
Definition active_of (state : Z) : Z := Z.land state HL_GUEST_FETCH_AUTHORITY_ACTIVE_MASK.
Definition readers_of (state : Z) : Z := Z.land state HL_GUEST_FETCH_AUTHORITY_READER_MASK.
Definition token_of (state : Z) : Z := Z.land state (complement HL_GUEST_FETCH_AUTHORITY_READER_MASK).

(** The last version: the next increment would reach the disabled bit. *)
Definition last_version : Z := HL_GUEST_FETCH_AUTHORITY_DISABLED - HL_GUEST_FETCH_AUTHORITY_VERSION_ONE.

(** What the exchange of [authority_begin_observed] stores, and [begun]. *)
Definition begin_next (state : Z) : Z * bool :=
  if (active_of state =? HL_GUEST_FETCH_AUTHORITY_ACTIVE_MASK) || (version_of state =? last_version)
  then (Z.lor state HL_GUEST_FETCH_AUTHORITY_DISABLED, false)
  else (Z.lor (readers_of state)
          (Z.lor (version_of state + HL_GUEST_FETCH_AUTHORITY_VERSION_ONE) (active_of state + 1)), true).

(** What the exchange of [authority_end] stores. *)
Definition end_next (state : Z) : Z :=
  if (active_of state =? 0) || (version_of state =? last_version)
  then Z.lor state HL_GUEST_FETCH_AUTHORITY_DISABLED
  else Z.lor (readers_of state)
         (Z.lor (version_of state + HL_GUEST_FETCH_AUTHORITY_VERSION_ONE) (active_of state - 1)).

Definition decode_authority_stable (authority : Z) : bool :=
  negb (authority =? 0) && negb (is_disabled authority) &&
  negb (has_flag authority HL_GUEST_FETCH_AUTHORITY_ACTIVE_MASK).

(** The word a lease or its undoing leaves. *)
Definition set_reader (state : Z) : Z := Z.lor state HL_GUEST_FETCH_AUTHORITY_READER_ONE.
Definition clear_reader (state : Z) : Z := Z.land state (complement HL_GUEST_FETCH_AUTHORITY_READER_ONE).

Definition hl_guest_fetch_authority_after_fork_child (inherited : Z) : Z :=
  Z.lor (Z.land inherited
           (complement (Z.lor HL_GUEST_FETCH_AUTHORITY_READER_MASK HL_GUEST_FETCH_AUTHORITY_ACTIVE_MASK)))
    HL_GUEST_FETCH_AUTHORITY_DISABLED.

Definition authority_after_fork_rebind (inherited : Z) : Z :=
  if version_of inherited <=? HL_GUEST_FETCH_AUTHORITY_DISABLED - 2 * HL_GUEST_FETCH_AUTHORITY_VERSION_ONE
  then version_of inherited + HL_GUEST_FETCH_AUTHORITY_VERSION_ONE
  else HL_GUEST_FETCH_AUTHORITY_DISABLED.

(** ** Threads *)

(** Who called [authority_begin]: a publisher of a mapping, or
    [hl_guest_fetch_authority_disable]. *)
Inductive errand := Publish | Disable.

(** Where a thread stands.  [Sampled] and [Leased] carry the token of the
    transaction and, as a ghost, the mapping at the time of the sample. *)
Inductive phase :=
| Idle
| Beginning (e : errand) (state : Z)
| Registered (e : errand)
| Inside (begun : bool)
| Disabling
| Ending (state : Z)
| Sampled (token seen : Z)
| Leased (token seen : Z)
| Undoing.

(** [mapping] is a ghost: the number of changes of the guest's bytes so far. *)
Record authority_system := mk_authority {
  word : Z;
  threads : list phase;
  mapping : Z
}.

(** [Advance] is the next access of the thread's call (nothing when idle). *)
Inductive action :=
| Start (e : errand)
| Sample
| Mutate
| Commit
| Withdraw
| Spurious
| Advance.

(** One round of the loop of [authority_begin_observed]. *)
Definition begin_round (e : errand) (state w : Z) : phase * Z :=
  if is_disabled state then (match e with Publish => Inside false | Disable => Idle end, w)
  else if w =? state then
    let (next, begun) := begin_next state in
    (if begun then Registered e else match e with Publish => Inside false | Disable => Idle end, next)
  else (Beginning e w, w).

(** [while (authority & READER_MASK) {}]. *)
Definition wait_round (e : errand) (w : Z) : phase * Z :=
  if readers_of w =? 0 then (match e with Publish => Inside true | Disable => Disabling end, w) else (Registered e, w).

(** One round of the loop of [authority_end]. *)
Definition end_round (state w : Z) : phase * Z :=
  if is_disabled state then (Idle, w)
  else if w =? state then (Idle, end_next state)
  else (Ending w, w).

(** [authority_lease]; an owner that must undo its bit does so with its next access. *)
Definition authority_lease (token seen w : Z) : phase * Z :=
  let w' := set_reader w in
  if negb (readers_of w =? 0) then (Idle, w')
  else if (token_of w =? token) &&
          negb (has_flag (token_of w) (Z.lor HL_GUEST_FETCH_AUTHORITY_DISABLED HL_GUEST_FETCH_AUTHORITY_ACTIVE_MASK))
  then (Leased token seen, w')
  else (Undoing, w').

(** [hl_x86_decode_transaction_begin]. *)
Definition transaction_begin (w m : Z) : phase :=
  if decode_authority_stable (token_of w) then Sampled (token_of w) m else Idle.

(** One access of a thread: its phase, the word and the mapping after it. *)
Definition thread_step (a : action) (p : phase) (w m : Z) : option (phase * Z * Z) :=
  let keep '(p, w) := Some (p, w, m) in
  match a, p with
  | Start e, Idle => keep (Beginning e w, w)
  | Sample, Idle => keep (transaction_begin w m, w)
  | Advance, Idle => keep (Idle, w)
  | Advance, Beginning e state => keep (begin_round e state w)
  | Spurious, Beginning e state => if is_disabled state then None else keep (Beginning e w, w)
  | Advance, Registered e => keep (wait_round e w)
  | Mutate, Inside begun => Some (Inside begun, w, m + 1)
  | Advance, Inside begun => keep (if begun then Ending w else Idle, w)
  | Advance, Disabling => keep (Idle, Z.lor w HL_GUEST_FETCH_AUTHORITY_DISABLED)
  | Advance, Ending state => keep (end_round state w)
  | Spurious, Ending state => if is_disabled state then None else keep (Ending w, w)
  | Commit, Sampled token seen => keep (authority_lease token seen w)
  | Withdraw, Sampled _ _ => keep (Idle, w)
  | Advance, Sampled token seen => keep (Sampled token seen, w)
  | Advance, Leased _ _ | Advance, Undoing => keep (Idle, clear_reader w)
  | _, _ => None
  end.

Definition system_step (i : Z) (a : action) (s : authority_system) : option authority_system :=
  p ← lookupZ (threads s) i;
  '(p', w, m) ← thread_step a p (word s) (mapping s);
  Some (mk_authority w (insertZ (threads s) i p') m).

Fixpoint run (l : list (Z * action)) (s : authority_system) : option authority_system :=
  match l with
  | [] => Some s
  | (i, a) :: l => s ← system_step i a s; run l s
  end.

(** The process starts with version one. *)
Definition authority_init (n : nat) : authority_system :=
  mk_authority HL_GUEST_FETCH_AUTHORITY_VERSION_ONE (replicate n Idle) 0.

(** The child of a fork: the forking thread alone, in a call of none of these
    functions, the word private and passed through both handlers of
    [thread_after_fork]. *)
Definition fork_child (s : authority_system) : authority_system :=
  mk_authority (authority_after_fork_rebind (hl_guest_fetch_authority_after_fork_child (word s)))
    (replicate (length (threads s)) Idle) (mapping s).

Inductive reachable (n : nat) : authority_system -> Prop :=
| reachable_init : reachable n (authority_init n)
| reachable_step s s' i a : reachable n s -> system_step i a s = Some s' -> reachable n s'
| reachable_fork s : reachable n s -> reachable n (fork_child s).
