(* ===== verification/AuthorityInvariant.v ===== *)
(** * The fields of the authority word

    The word as four fields, and what the accesses of the protocol do to them. *)

From S2P Require Import Prelude Authority.

Definition pack (d : bool) (v : Z) (r : bool) (a : Z) : Z :=
  Z.b2z d * 2 ^ 63 + v * 2 ^ 32 + Z.b2z r * 2 ^ 16 + a.

Definition max_version : Z := 2 ^ 31 - 1.

Definition fields_ok (v a : Z) : Prop := 0 <= v <= max_version /\ 0 <= a < 2 ^ 16.

Section Bits.
Context (x s k : Z) (Hs : 0 <= s) (Hk : 0 <= k).

(** Masking a field of [k] bits at [s]. *)
Lemma land_field : Z.land x (Z.shiftl (Z.ones k) s) = x / 2 ^ s mod 2 ^ k * 2 ^ s.
Proof using Hs Hk.
  rewrite <- (Z.shiftr_div_pow2 x s), <- Z.land_ones by done. rewrite <- Z.shiftl_mul_pow2 by done.
  apply Z.bits_inj'. intros n Hn. rewrite Z.land_spec, !Z.shiftl_spec by lia.
  destruct (Z.lt_ge_cases n s) as [Hlt|Hge].
  - rewrite !(Z.testbit_neg_r _ (n - s)) by lia. apply andb_false_r.
  - rewrite Z.land_spec, Z.shiftr_spec by lia. by replace (n - s + s) with n by lia.
Qed.
End Bits.

Lemma shiftl_ones_0 k : Z.shiftl (Z.ones k) 0 = Z.ones k.
Proof. apply Z.shiftl_0_r. Qed.

(** Every mask of the protocol is a field. *)
Ltac unpack :=
  unfold pack, is_disabled, version_of, active_of, readers_of, token_of, has_flag, fields_ok, max_version in *;
  change HL_GUEST_FETCH_AUTHORITY_ACTIVE_MASK with (Z.shiftl (Z.ones 16) 0) in *;
  change HL_GUEST_FETCH_AUTHORITY_READER_MASK with (Z.shiftl (Z.ones 16) 16) in *;
  change HL_GUEST_FETCH_AUTHORITY_DISABLED with (Z.shiftl (Z.ones 1) 63) in *;
  rewrite ?land_field by lia.

Section Fields.
Context (d r : bool) (v a : Z) (Hf : fields_ok v a).

Lemma pack_version : version_of (pack d v r a) = v * 2 ^ 32.
Proof using Hf.
  unfold version_of.
  change (complement _) with (Z.shiftl (Z.ones 31) 32). rewrite land_field by lia.
  unpack. destruct d, r; simpl Z.b2z; f_equal; div_lia.
Qed.

Lemma pack_active : active_of (pack d v r a) = a.
Proof using Hf. unpack. destruct d, r; simpl Z.b2z; div_lia. Qed.

Lemma pack_readers : readers_of (pack d v r a) = Z.b2z r * 2 ^ 16.
Proof using Hf. unpack. destruct d, r; simpl Z.b2z; div_lia. Qed.

Lemma pack_disabled : is_disabled (pack d v r a) = d.
Proof using Hf.
  unpack. replace (_ / 2 ^ 63 mod 2 ^ 1 * 2 ^ 63) with (Z.b2z d * 2 ^ 63); [by destruct d|].
  destruct d, r; simpl Z.b2z; div_lia.
Qed.

Lemma pack_token : token_of (pack d v r a) = pack d v false a.
Proof using Hf.
  unfold token_of.
  change (complement _) with (Z.lor (Z.shiftl (Z.ones 32) 32) (Z.shiftl (Z.ones 16) 0)).
  rewrite Z.land_lor_distr_r, !land_field by lia. rewrite lor_disjoint.
  { unpack. destruct d, r; simpl Z.b2z; div_lia. }
  rewrite <- !land_field by lia. rewrite (Z.land_comm (pack _ _ _ _) (Z.shiftl (Z.ones 16) 0)).
  rewrite Z.land_assoc, <- (Z.land_assoc (pack _ _ _ _)).
  change (Z.land (Z.shiftl (Z.ones 32) 32) (Z.shiftl (Z.ones 16) 0)) with 0. by rewrite Z.land_0_r.
Qed.

Lemma pack_disable : Z.lor (pack d v r a) HL_GUEST_FETCH_AUTHORITY_DISABLED = pack true v r a.
Proof using Hf.
  destruct d eqn:Hd.
  - apply Z.bits_inj'. intros n Hn. rewrite Z.lor_spec. destruct (decide (n = 63)) as [->|Hne].
    + assert (Ht : Z.testbit (pack true v r a) 63 = true); [|by rewrite Ht].
      pose proof pack_disabled as Hp. rewrite Hd in Hp. unfold is_disabled, has_flag in Hp. apply negb_true_iff, Z.eqb_neq in Hp.
      rewrite Z.testbit_true by lia. unfold pack. destruct r; unfold fields_ok, max_version in Hf; simpl Z.b2z; div_lia.
    + unfold HL_GUEST_FETCH_AUTHORITY_DISABLED. rewrite Z.shiftl_1_l, Z.pow2_bits_false by lia. apply orb_false_r.
  - rewrite lor_disjoint; [change HL_GUEST_FETCH_AUTHORITY_DISABLED with (2 ^ 63); unfold pack; destruct r; simpl Z.b2z; lia|].
    pose proof pack_disabled as Hp. rewrite Hd in Hp. unfold is_disabled, has_flag in Hp.
    by apply negb_false_iff, Z.eqb_eq in Hp.
Qed.

Lemma pack_set_reader : set_reader (pack d v r a) = pack d v true a.
Proof using Hf.
  unfold set_reader. destruct r eqn:Hr.
  - apply Z.bits_inj'. intros n Hn. rewrite Z.lor_spec. destruct (decide (n = 16)) as [->|Hne].
    + assert (Ht : Z.testbit (pack d v true a) 16 = true); [|by rewrite Ht].
      rewrite Z.testbit_true by lia. unfold pack, fields_ok, max_version in *. destruct d; simpl Z.b2z; div_lia.
    + change HL_GUEST_FETCH_AUTHORITY_READER_ONE with (2 ^ 16). rewrite Z.pow2_bits_false by lia. apply orb_false_r.
  - rewrite lor_disjoint; [unfold pack, HL_GUEST_FETCH_AUTHORITY_READER_ONE; destruct d; simpl Z.b2z; div_lia|].
    change HL_GUEST_FETCH_AUTHORITY_READER_ONE with (Z.shiftl (Z.ones 1) 16). rewrite land_field by lia.
    unfold pack, fields_ok, max_version in *. destruct d; simpl Z.b2z; div_lia.
Qed.

Lemma pack_clear_reader : clear_reader (pack d v r a) = pack d v false a.
Proof using Hf.
  unfold clear_reader.
  change (complement _) with (Z.lor (Z.shiftl (Z.ones 47) 17) (Z.shiftl (Z.ones 16) 0)).
  rewrite Z.land_lor_distr_r, !land_field by lia. rewrite lor_disjoint.
  { unpack. destruct d, r; simpl Z.b2z; div_lia. }
  rewrite <- !land_field by lia. rewrite (Z.land_comm (pack _ _ _ _) (Z.shiftl (Z.ones 16) 0)).
  rewrite Z.land_assoc, <- (Z.land_assoc (pack _ _ _ _)).
  change (Z.land (Z.shiftl (Z.ones 47) 17) (Z.shiftl (Z.ones 16) 0)) with 0. by rewrite Z.land_0_r.
Qed.

(** The word is its fields. *)
Lemma pack_inj d' v' r' a' :
  fields_ok v' a' -> pack d v r a = pack d' v' r' a' -> d = d' /\ v = v' /\ r = r' /\ a = a'.
Proof using Hf.
  intros Hf' He. unfold pack, fields_ok, max_version in *.
  destruct d, d', r, r'; simpl Z.b2z in He; split_and!; try done; lia.
Qed.
End Fields.

Lemma join_fields r v a :
  fields_ok v a -> Z.lor (Z.b2z r * 2 ^ 16) (Z.lor (v * 2 ^ 32) a) = pack false v r a.
Proof.
  intros Hf. rewrite (lor_disjoint (v * 2 ^ 32) a), lor_disjoint.
  - unfold pack. simpl Z.b2z. lia.
  - rewrite Z.land_comm. change (2 ^ 16) with (Z.shiftl (Z.ones 1) 16) at 1.
    destruct r; simpl Z.b2z; [rewrite Z.mul_1_l, land_field by lia|by rewrite Z.mul_0_l, Z.land_0_r].
    unfold fields_ok, max_version in Hf. div_lia.
  - rewrite Z.land_comm, <- Z.shiftl_mul_pow2 by lia. apply Z.bits_inj'. intros n Hn.
    rewrite Z.land_spec, Z.shiftl_spec, Z.bits_0 by done.
    destruct (Z.lt_ge_cases n 32); [rewrite (Z.testbit_neg_r v) by lia; apply andb_false_r|].
    rewrite (Z.bits_above_log2 a) by (unfold fields_ok in Hf; (lia || (destruct (decide (a = 0)) as [->|]; [simpl; lia|apply Z.lt_le_trans with 16; [apply Z.log2_lt_pow2; lia|lia]]))). done.
Qed.

(** What the exchanges store. *)
Lemma begin_next_pack v r a :
  fields_ok v a ->
  begin_next (pack false v r a) =
    if (a =? 2 ^ 16 - 1) || (v =? max_version) then (pack true v r a, false) else (pack false (v + 1) r (a + 1), true).
Proof.
  intros Hf. unfold begin_next. rewrite pack_active, pack_version, pack_readers, pack_disable by done.
  change HL_GUEST_FETCH_AUTHORITY_ACTIVE_MASK with (2 ^ 16 - 1).
  change last_version with (max_version * 2 ^ 32).
  replace (v * 2 ^ 32 =? max_version * 2 ^ 32) with (v =? max_version) by (apply eq_true_iff_eq; rewrite !Z.eqb_eq; lia).
  destruct (_ || _) eqn:Hc; [done|]. apply orb_false_iff in Hc as [H1%Z.eqb_neq H2%Z.eqb_neq].
  change HL_GUEST_FETCH_AUTHORITY_VERSION_ONE with (2 ^ 32).
  replace (v * 2 ^ 32 + 2 ^ 32) with ((v + 1) * 2 ^ 32) by lia. rewrite join_fields; [done|].
  unfold fields_ok in *. lia.
Qed.

Lemma end_next_pack v r a :
  fields_ok v a ->
  end_next (pack false v r a) =
    if (a =? 0) || (v =? max_version) then pack true v r a else pack false (v + 1) r (a - 1).
Proof.
  intros Hf. unfold end_next. rewrite pack_active, pack_version, pack_readers, pack_disable by done.
  change last_version with (max_version * 2 ^ 32).
  replace (v * 2 ^ 32 =? max_version * 2 ^ 32) with (v =? max_version) by (apply eq_true_iff_eq; rewrite !Z.eqb_eq; lia).
  destruct (_ || _) eqn:Hc; [done|]. apply orb_false_iff in Hc as [H1%Z.eqb_neq H2%Z.eqb_neq].
  change HL_GUEST_FETCH_AUTHORITY_VERSION_ONE with (2 ^ 32).
  replace (v * 2 ^ 32 + 2 ^ 32) with ((v + 1) * 2 ^ 32) by lia. rewrite join_fields; [done|].
  unfold fields_ok in *. lia.
Qed.

(** A stable sample: enabled, nobody inside. *)
Lemma pack_stable d v a :
  fields_ok v a -> decode_authority_stable (pack d v false a) = true -> d = false /\ a = 0 /\ 0 < v.
Proof.
  intros Hf Hs. unfold decode_authority_stable in Hs. rewrite pack_disabled in Hs by done.
  unfold has_flag in Hs. change (Z.land ?w HL_GUEST_FETCH_AUTHORITY_ACTIVE_MASK) with (active_of w) in Hs.
  rewrite pack_active in Hs by done. bool_props. subst. destruct Hf.
  unfold pack in *. split_and!; [done|lia|]. simpl Z.b2z in *. lia.
Qed.

Lemma pack_fork d v r a :
  fields_ok v a ->
  authority_after_fork_rebind (hl_guest_fetch_authority_after_fork_child (pack d v r a)) =
    if v <? max_version then pack false (v + 1) false 0 else pack true 0 false 0.
Proof.
  intros Hf. unfold hl_guest_fetch_authority_after_fork_child.
  assert (Hm : Z.land (pack d v r a) (complement (Z.lor HL_GUEST_FETCH_AUTHORITY_READER_MASK
     HL_GUEST_FETCH_AUTHORITY_ACTIVE_MASK))= pack d v false 0).
  { change (complement _) with (Z.shiftl (Z.ones 32) 32). rewrite land_field by lia.
    unfold pack, fields_ok, max_version in *. destruct d, r; simpl Z.b2z; div_lia. }
  rewrite Hm. assert (Hf0 : fields_ok v 0) by (unfold fields_ok in *; lia).
  rewrite pack_disable by done. unfold authority_after_fork_rebind. rewrite !pack_version by done.
  change (HL_GUEST_FETCH_AUTHORITY_DISABLED - 2 * HL_GUEST_FETCH_AUTHORITY_VERSION_ONE) with ((max_version - 1) * 2 ^ 32).
  change HL_GUEST_FETCH_AUTHORITY_VERSION_ONE with (2 ^ 32).
  replace (v * 2 ^ 32 <=? (max_version - 1) * 2 ^ 32) with (v <? max_version)
    by (apply eq_true_iff_eq; rewrite Z.leb_le, Z.ltb_lt; lia).
  destruct (v <? max_version); [unfold pack; simpl Z.b2z; div_lia|done].
Qed.

(** ** The invariant of the authority protocol

    The lease bit has one owner, the writer count is the number of writers that
    registered, and nobody is past the wait while a lease is held. *)

(** Threads that registered as writers and have not left, that own the lease
    bit, and that are past the wait for it. *)
Definition counted (p : phase) : bool :=
  match p with Registered _ | Inside true | Disabling | Ending _ => true | _ => false end.
Definition holder (p : phase) : bool := match p with Leased _ _ | Undoing => true | _ => false end.
Definition past (p : phase) : bool := match p with Inside _ | Disabling | Ending _ => true | _ => false end.
Definition leased (p : phase) : bool := match p with Leased _ _ => true | _ => false end.

(** What has happened since a sample of version [vt] under mapping [seen]. *)
Definition since (vt seen : Z) (d : bool) (v a m : Z) : Prop :=
  vt <= v /\ (v = vt -> d = false -> a = 0 /\ m = seen).

Definition sampled (token seen : Z) (d : bool) (v a m : Z) : Prop :=
  exists vt, token = pack false vt false 0 /\ fields_ok vt 0 /\ since vt seen d v a m.

Definition phase_ok (d : bool) (v a m : Z) (p : phase) : Prop :=
  match p with
  | Beginning _ state | Ending state => is_disabled state = true -> d = true
  | Inside false => d = true
  | Sampled token seen => sampled token seen d v a m
  | Leased token seen => sampled token seen d v a m /\ (v < max_version -> d = false /\ m = seen)
  | _ => True
  end.

Record word_ok (d : bool) (v : Z) (r : bool) (a : Z) (s : authority_system) : Prop := mk_word_ok {
  wo_word : word s = pack d v r a;
  wo_fields : fields_ok v a;
  wo_holder : countZ holder (threads s) = Z.b2z r;
  wo_counted : d = false -> countZ counted (threads s) = a;
  wo_phases : forall i p, lookupZ (threads s) i = Some p -> phase_ok d v a (mapping s) p;
  wo_exclusive : forall i j p q, lookupZ (threads s) i = Some p -> leased p = true -> v < max_version ->
    lookupZ (threads s) j = Some q -> past q = false
}.

Definition authority_ok (n : nat) (s : authority_system) : Prop :=
  length (threads s) = n /\ exists d v r a, word_ok d v r a s.

(** ** One thread moves *)

Section Update.
Context (d : bool) (v : Z) (r : bool) (a : Z) (s : authority_system) (i : Z) (p : phase).
Context (Hok : word_ok d v r a s) (Hp : lookupZ (threads s) i = Some p).
Context (p' : phase) (d' : bool) (v' : Z) (r' : bool) (a' m' : Z).

Lemma word_ok_update :
  fields_ok v' a' ->
  Z.b2z r' = Z.b2z r - (if holder p then 1 else 0) + (if holder p' then 1 else 0) ->
  (d' = false -> d = false /\ a' = a - (if counted p then 1 else 0) + (if counted p' then 1 else 0)) ->
  v <= v' ->
  (v' = v -> d' = false -> a = 0 -> a' = 0 /\ m' = mapping s) ->
  (forall j q, j <> i -> lookupZ (threads s) j = Some q -> leased q = true -> v' < max_version ->
     d' = false /\ m' = mapping s /\ past p' = false) ->
  phase_ok d' v' a' m' p' ->
  (leased p' = true -> v' < max_version -> forall j q, j <> i -> lookupZ (threads s) j = Some q -> past q = false) ->
  word_ok d' v' r' a' (mk_authority (pack d' v' r' a') (insertZ (threads s) i p') m').
Proof using Hok Hp.
  intros Hf Hr Ha Hv Hsame Hlease Hph Hexcl. destruct Hok as [Hw Hf0 Hh Hc Hps Hx].
  assert (Hd : d = true -> d' = true) by (intros ->; destruct d'; [done|by destruct (Ha eq_refl)]).
  assert (Hs : forall token seen, sampled token seen d v a (mapping s) -> sampled token seen d' v' a' m').
  { intros t se (vt & -> & Hvt & Hle & Hst). exists vt. split_and!; [done|done|]. split; [lia|].
    intros -> Hd'. destruct (Ha Hd') as [-> _]. destruct (Hst ltac:(lia) eq_refl) as [-> <-].
    by apply Hsame; [lia|..]. }
  constructor; simpl.
  - done.
  - done.
  - rewrite (countZ_insertZ _ _ _ _ _ Hp), Hh. lia.
  - intros Hd'. destruct (Ha Hd') as [Hd0 ->]. rewrite (countZ_insertZ _ _ _ _ _ Hp), Hc by done. lia.
  - intros j q Hq. destruct (decide (j = i)) as [->|Hne].
    { rewrite lookupZ_insertZ_eq in Hq by (by eapply lookupZ_Some_range). by injection Hq as <-. }
    rewrite lookupZ_insertZ_ne in Hq by done. specialize (Hps j q Hq).
    destruct q as [|e st|e|[]| |st|t se|t se|]; simpl in *; auto.
    destruct Hps as [Hsm Hl]. split; [by apply Hs|]. intros Hlt.
    destruct (Hlease j _ Hne Hq eq_refl Hlt) as (-> & -> & _). split; [done|]. by apply Hl; lia.
  - intros j k q q' Hq Hlq Hlt Hq'. destruct (decide (j = i)) as [->|Hne].
    + rewrite lookupZ_insertZ_eq in Hq by (by eapply lookupZ_Some_range). injection Hq as <-.
      destruct (decide (k = i)) as [->|Hnk].
      * rewrite lookupZ_insertZ_eq in Hq' by (by eapply lookupZ_Some_range). injection Hq' as <-. by destruct p'.
      * rewrite lookupZ_insertZ_ne in Hq' by done. by apply (Hexcl Hlq Hlt k q').
    + rewrite lookupZ_insertZ_ne in Hq by done. destruct (decide (k = i)) as [->|Hnk].
      * rewrite lookupZ_insertZ_eq in Hq' by (by eapply lookupZ_Some_range). injection Hq' as <-.
        by destruct (Hlease j q Hne Hq Hlq Hlt) as (_ & _ & ->).
      * rewrite lookupZ_insertZ_ne in Hq' by done. by apply (Hx j k q q' Hq Hlq ltac:(lia) Hq').
Qed.
End Update.

(** Nobody holds a lease while a thread is past the wait, and the version can grow. *)
Lemma past_no_lease d v r a s i p j q :
  word_ok d v r a s -> lookupZ (threads s) i = Some p -> past p = true ->
  lookupZ (threads s) j = Some q -> leased q = true -> v < max_version -> False.
Proof. intros Hok Hp Hpp Hq Hl Hv. by rewrite (wo_exclusive _ _ _ _ _ Hok j i q p Hq Hl Hv Hp) in Hpp. Qed.

(** What a lease records is current while the version can grow. *)
Lemma lease_current d v r a s j q :
  word_ok d v r a s -> lookupZ (threads s) j = Some q -> leased q = true -> v < max_version -> d = false.
Proof.
  intros Hok Hq Hl Hv. pose proof (wo_phases _ _ _ _ _ Hok j q Hq) as Hph.
  destruct q; try done. simpl in Hph. by apply Hph.
Qed.

Lemma counted_pos d v r a s i p :
  word_ok d v r a s -> lookupZ (threads s) i = Some p -> counted p = true -> d = false -> 1 <= a.
Proof. intros Hok Hp Hc Hd. rewrite <- (wo_counted _ _ _ _ _ Hok Hd). by eapply countZ_pos. Qed.

Lemma holder_bit d v r a s i p :
  word_ok d v r a s -> lookupZ (threads s) i = Some p -> holder p = true -> r = true.
Proof.
  intros Hok Hp Hh. pose proof (countZ_pos holder _ _ _ Hp Hh) as H1. rewrite (wo_holder _ _ _ _ _ Hok) in H1.
  by destruct r.
Qed.

(** A thread past the wait is a registered writer, or the word is disabled. *)
Lemma past_counted d v r a s i p :
  word_ok d v r a s -> lookupZ (threads s) i = Some p -> past p = true -> d = false -> 1 <= a.
Proof.
  intros Hok Hp Hpp Hd. pose proof (wo_phases _ _ _ _ _ Hok i p Hp) as Hph.
  apply (counted_pos _ _ _ _ _ _ _ Hok Hp); [|done].
  destruct p as [| | |[]| | | | |]; try done. simpl in Hph. by rewrite Hph in Hd.
Qed.

(** One access keeps the protocol: the word only grows, and a quiet word that
    did not grow names the same mapping. *)
Definition steps_to (d : bool) (v a : Z) (s s' : authority_system) : Prop :=
  exists d' v' r' a', word_ok d' v' r' a' s' /\ (d = true -> d' = true) /\ v <= v' /\
    (v' = v -> d' = false -> a = 0 -> a' = 0 /\ mapping s' = mapping s).

Section Step.
Context (d : bool) (v : Z) (r : bool) (a : Z) (s : authority_system) (i : Z) (p : phase).
Context (Hok : word_ok d v r a s) (Hp : lookupZ (threads s) i = Some p).

(** The thread moves to a harmless phase and the word stays. *)
Lemma stays p' :
  holder p' = holder p -> counted p' = counted p -> past p' = false -> leased p' = false ->
  phase_ok d v a (mapping s) p' ->
  steps_to d v a s (mk_authority (word s) (insertZ (threads s) i p') (mapping s)).
Proof using Hok Hp.
  intros Hh Hc Hpa Hl Hph. exists d, v, r, a. split; [|split_and!; [done|lia|done]].
  rewrite (wo_word _ _ _ _ _ Hok). apply word_ok_update with (1 := Hok) (2 := Hp); try done.
  - apply Hok.
  - rewrite Hh. lia.
  - intros Hd. rewrite Hc. split; [done|lia].
  - intros j q Hne Hq Hlq Hv. split_and!; [by eapply lease_current|done|done].
  - by rewrite Hl.
Qed.

(** A thread past the wait moves on. *)
Lemma leaves p' d' v' a' m' :
  past p = true -> holder p' = false -> leased p' = false -> fields_ok v' a' ->
  (d' = false -> d = false /\ a' = a - (if counted p then 1 else 0) + (if counted p' then 1 else 0)) ->
  v <= v' -> phase_ok d' v' a' m' p' ->
  steps_to d v a s (mk_authority (pack d' v' r a') (insertZ (threads s) i p') m').
Proof using Hok Hp.
  intros Hpa Hh Hl Hf Ha Hv Hph.
  assert (Hq : d' = false -> a <> 0).
  { intros Hd. destruct (Ha Hd) as [Hd0 _]. pose proof (past_counted _ _ _ _ _ _ _ Hok Hp Hpa Hd0). lia. }
  exists d', v', r, a'. split; [|split_and!; [|done|intros _ H1 H2; by destruct (Hq H1)]].
  - apply word_ok_update with (1 := Hok) (2 := Hp); try done.
    + rewrite Hh. destruct p; simpl in *; try done; lia.
    + intros _ H1 H2. by destruct (Hq H1).
    + intros j q Hne Hj Hlq Hlt. destruct (past_no_lease _ _ _ _ _ _ _ _ _ Hok Hp Hpa Hj Hlq). lia.
    + by rewrite Hl.
  - intros ->. destruct d'; [done|by destruct (Ha eq_refl)].
Qed.

(** The owner of the lease bit gives it back. *)
Lemma unlease_ok :
  holder p = true -> steps_to d v a s (mk_authority (clear_reader (word s)) (insertZ (threads s) i Idle) (mapping s)).
Proof using Hok Hp.
  intros Hh. pose proof (wo_fields _ _ _ _ _ Hok) as Hf.
  rewrite (wo_word _ _ _ _ _ Hok), pack_clear_reader by done.
  exists d, v, false, a. split; [|split_and!; [done|lia|done]].
  apply word_ok_update with (1 := Hok) (2 := Hp); try done.
  - rewrite Hh, (holder_bit _ _ _ _ _ _ _ Hok Hp Hh). simpl. lia.
  - intros Hd. split; [done|]. destruct p; try done; simpl; lia.
  - intros j q Hne Hq Hlq Hlt. split_and!; [by eapply lease_current|done|done].
Qed.
End Step.

(** ** The rounds of the calls *)

Section Rounds.
Context (d : bool) (v : Z) (r : bool) (a : Z) (s : authority_system) (i : Z).
Context (Hok : word_ok d v r a s).

(** A round of [authority_begin_observed]. *)
Lemma begin_round_ok e state p' w' :
  lengthZ (threads s) < 2 ^ 16 - 1 -> lookupZ (threads s) i = Some (Beginning e state) -> begin_round e state (word s) = (p', w') ->
  steps_to d v a s (mk_authority w' (insertZ (threads s) i p') (mapping s)).
Proof using Hok.
  intros Hn Hp Hr. pose proof (wo_fields _ _ _ _ _ Hok) as Hf. pose proof (wo_phases _ _ _ _ _ Hok i _ Hp) as Hph.
  simpl in Hph. unfold begin_round in Hr. destruct (is_disabled state) eqn:Hd.
  { exists true, v, r, a. rewrite Hph in Hok by done. split; [|split_and!; [done|lia|done]].
    injection Hr as <- <-. rewrite (wo_word _ _ _ _ _ Hok). apply word_ok_update with (1 := Hok) (2 := Hp); try done.
    - destruct e; simpl; lia.
    - intros j q Hne Hq Hlq Hlt. by pose proof (lease_current _ _ _ _ _ _ _ Hok Hq Hlq Hlt).
    - by destruct e.
    - by destruct e. }
  destruct (word s =? state) eqn:Hw.
  - apply Z.eqb_eq in Hw. rewrite (wo_word _ _ _ _ _ Hok) in Hw. subst state.
    rewrite pack_disabled in Hd by done. pose proof (wo_counted _ _ _ _ _ Hok Hd) as Hc.
    rewrite Hd in Hr. rewrite begin_next_pack in Hr by done. pose proof (countZ_bounds counted (threads s)) as Hb.
    replace (a =? 2 ^ 16 - 1) with false in Hr by (symmetry; apply Z.eqb_neq; lia). simpl orb in Hr.
    destruct (v =? max_version) eqn:Hm; injection Hr as <- <-.
    + apply Z.eqb_eq in Hm. exists true, v, r, a. split; [|split_and!; [done|lia|done]].
      apply word_ok_update with (1 := Hok) (2 := Hp); try done.
      * destruct e; simpl; lia.
      * intros j q Hne Hq Hlq Hlt. lia.
      * by destruct e.
      * by destruct e.
    + apply Z.eqb_neq in Hm. exists false, (v + 1), r, (a + 1).
      split; [|split_and!; [by rewrite Hd|lia|intros; lia]].
      apply word_ok_update with (1 := Hok) (2 := Hp); try done.
      * unfold fields_ok in *. lia.
      * simpl. lia.
      * intros _. split; [done|]. simpl. lia.
      * lia.
      * intros H. lia.
  - injection Hr as <- <-. apply (stays _ _ _ _ _ _ _ Hok Hp); try done. simpl. rewrite (wo_word _ _ _ _ _ Hok). by rewrite pack_disabled.
Qed.

(** A round of [authority_end]; the writer count is never zero. *)
Lemma end_round_ok state p' w' :
  lookupZ (threads s) i = Some (Ending state) -> end_round state (word s) = (p', w') ->
  steps_to d v a s (mk_authority w' (insertZ (threads s) i p') (mapping s)).
Proof using Hok.
  intros Hp Hr. pose proof (wo_fields _ _ _ _ _ Hok) as Hf. pose proof (wo_phases _ _ _ _ _ Hok i _ Hp) as Hph.
  simpl in Hph. unfold end_round in Hr. destruct (is_disabled state) eqn:Hd.
  { injection Hr as <- <-. rewrite (wo_word _ _ _ _ _ Hok). apply (leaves _ _ _ _ _ _ _ Hok Hp); try done; try lia.
    intros Hd'. by rewrite Hph in Hd'. }
  destruct (word s =? state) eqn:Hw.
  - apply Z.eqb_eq in Hw. rewrite (wo_word _ _ _ _ _ Hok) in Hw. subst state.
    rewrite pack_disabled in Hd by done. pose proof (counted_pos _ _ _ _ _ _ _ Hok Hp eq_refl Hd) as Ha.
    rewrite Hd in Hr. rewrite end_next_pack in Hr by done.
    replace (a =? 0) with false in Hr by (symmetry; apply Z.eqb_neq; lia). simpl orb in Hr.
    destruct (v =? max_version) eqn:Hm; injection Hr as <- <-.
    + apply (leaves _ _ _ _ _ _ _ Hok Hp); try done; lia.
    + apply Z.eqb_neq in Hm. apply (leaves _ _ _ _ _ _ _ Hok Hp); try done; [unfold fields_ok in *; lia|intros _; simpl; split; [done|lia]|lia].
  - injection Hr as <- <-. rewrite (wo_word _ _ _ _ _ Hok). apply (leaves _ _ _ _ _ _ _ Hok Hp); try done.
    + intros ->. split; [done|]. simpl. lia.
    + simpl. by rewrite pack_disabled.
Qed.

(** [authority_lease] gives the lease only for the present, quiet word. *)
Lemma lease_ok token seen p' w' :
  lookupZ (threads s) i = Some (Sampled token seen) -> authority_lease token seen (word s) = (p', w') ->
  steps_to d v a s (mk_authority w' (insertZ (threads s) i p') (mapping s)).
Proof using Hok.
  intros Hp Hr. pose proof (wo_fields _ _ _ _ _ Hok) as Hf. pose proof (wo_phases _ _ _ _ _ Hok i _ Hp) as Hph.
  simpl in Hph. unfold authority_lease in Hr. rewrite (wo_word _ _ _ _ _ Hok) in Hr.
  rewrite pack_set_reader, pack_readers, pack_token in Hr by done.
  assert (Hupd : forall p', counted p' = false -> past p' = false -> phase_ok d v a (mapping s) p' ->
     (if holder p' then r = false else r = true) ->
     (leased p' = true -> d = false /\ a = 0) ->
     steps_to d v a s (mk_authority (pack d v true a) (insertZ (threads s) i p') (mapping s))).
  { intros q Hc Hpa Hq Hh Hl. exists d, v, true, a. split; [|split_and!; [done|lia|done]].
    apply word_ok_update with (1 := Hok) (2 := Hp); try done.
    - simpl. destruct (holder q); rewrite Hh; simpl; lia.
    - intros Hd. split; [done|]. rewrite Hc. simpl. lia.
    - intros j q' Hne Hq' Hlq Hlt. split_and!; [by eapply lease_current|done|done].
    - intros Hlq _ j q' Hne Hq'. destruct (Hl Hlq) as [Hd Ha]. destruct (past q') eqn:Hpq; [|done].
      pose proof (past_counted _ _ _ _ _ _ _ Hok Hq' Hpq Hd). lia. }
  destruct r eqn:Hrd; simpl in Hr.
  - injection Hr as <- <-. by apply Hupd.
  - destruct ((pack d v false a =? token) && _) eqn:Hc; injection Hr as <- <-; [|by apply Hupd].
    apply andb_prop in Hc as [Ht%Z.eqb_eq _]. destruct Hph as (vt & Hvt & Hft & Hsi).
    rewrite Hvt in Ht. destruct (pack_inj _ _ _ _ Hf _ _ _ _ Hft Ht) as (Hd & Hv & _ & Ha).
    destruct Hsi as [Hle Hsame]. destruct (Hsame Hv Hd) as [_ Hm].
    apply Hupd; try done. simpl. split; [|done]. exists vt. split_and!; try done; by split.
Qed.

(** A writer passes the wait when the lease bit is clear. *)
Lemma wait_ok e p' w' :
  lookupZ (threads s) i = Some (Registered e) -> wait_round e (word s) = (p', w') ->
  steps_to d v a s (mk_authority w' (insertZ (threads s) i p') (mapping s)).
Proof using Hok.
  intros Hp Hr. pose proof (wo_fields _ _ _ _ _ Hok) as Hf. unfold wait_round in Hr.
  rewrite (wo_word _ _ _ _ _ Hok), pack_readers in Hr by done.
  destruct (Z.b2z r * 2 ^ 16 =? 0) eqn:Hz; injection Hr as <- <-; rewrite <- (wo_word _ _ _ _ _ Hok); [|by apply (stays _ _ _ _ _ _ _ Hok Hp)].
  assert (Hr : r = false) by (by destruct r). rewrite (wo_word _ _ _ _ _ Hok).
  exists d, v, r, a. split; [|split_and!; [done|lia|done]].
  apply word_ok_update with (1 := Hok) (2 := Hp); try done.
  - destruct e; simpl; lia.
  - intros Hd. split; [done|]. destruct e; simpl; lia.
  - intros j q Hne Hq Hlq Hlt. assert (Hh : holder q = true) by (by destruct q).
    by rewrite (holder_bit _ _ _ _ _ _ _ Hok Hq Hh) in Hr.
  - by destruct e.
  - by destruct e.
Qed.

(** One access of the thread, whatever it is. *)
Lemma thread_step_ok act p p' w' m' :
  lengthZ (threads s) < 2 ^ 16 - 1 -> lookupZ (threads s) i = Some p -> thread_step act p (word s) (mapping s) = Some (p', w', m') ->
  steps_to d v a s (mk_authority w' (insertZ (threads s) i p') m').
Proof using Hok.
  intros Hn Hp Hr. pose proof (wo_fields _ _ _ _ _ Hok) as Hf. pose proof (wo_phases _ _ _ _ _ Hok i _ Hp) as Hph.
  pose proof (wo_word _ _ _ _ _ Hok) as Hw.
  assert (Hloaded : is_disabled (word s) = true -> d = true) by (by rewrite Hw, pack_disabled).
  destruct act as [er| | | | | |], p as [|e st|e|begun| |st|t se|t se|]; simpl in Hr; try done.
  - injection Hr as <- <- <-. by apply (stays _ _ _ _ _ _ _ Hok Hp).
  - injection Hr as <- <- <-. unfold transaction_begin.
    destruct (decode_authority_stable (token_of (word s))) eqn:Hst; [|by apply (stays _ _ _ _ _ _ _ Hok Hp)].
    rewrite Hw, pack_token in Hst by done. destruct (pack_stable _ _ _ Hf Hst) as (-> & -> & _).
    apply (stays _ _ _ _ _ _ _ Hok Hp); try done. simpl. exists v. rewrite Hw, pack_token by done. split_and!; [done|done|split; [lia|done]].
  - injection Hr as <- <- <-. rewrite Hw. apply (leaves _ _ _ _ _ _ _ Hok Hp); try done.
    intros ->. split; [done|]. destruct begun; simpl; lia.
  - destruct (authority_lease t se (word s)) as [q w] eqn:Hl. injection Hr as <- <- <-. by eapply lease_ok.
  - injection Hr as <- <- <-. by apply (stays _ _ _ _ _ _ _ Hok Hp).
  - destruct (is_disabled st); [done|]. injection Hr as <- <- <-. by apply (stays _ _ _ _ _ _ _ Hok Hp).
  - destruct (is_disabled st); [done|]. injection Hr as <- <- <-. rewrite Hw in *. apply (leaves _ _ _ _ _ _ _ Hok Hp); try done.
    intros ->. split; [done|]. simpl. lia.
  - injection Hr as <- <- <-. by apply (stays _ _ _ _ _ _ _ Hok Hp).
  - destruct (begin_round e st (word s)) as [q w] eqn:Hl. injection Hr as <- <- <-. by eapply begin_round_ok.
  - destruct (wait_round e (word s)) as [q w] eqn:Hl. injection Hr as <- <- <-. by eapply wait_ok.
  - injection Hr as <- <- <-. rewrite Hw in *. apply (leaves _ _ _ _ _ _ _ Hok Hp); try done.
    + by destruct begun.
    + by destruct begun.
    + intros ->. split; [done|]. destruct begun; simpl; lia.
    + by destruct begun.
  - injection Hr as <- <- <-. rewrite Hw, pack_disable by done. apply (leaves _ _ _ _ _ _ _ Hok Hp); done.
  - destruct (end_round st (word s)) as [q w] eqn:Hl. injection Hr as <- <- <-. by eapply end_round_ok.
  - injection Hr as <- <- <-. by apply (stays _ _ _ _ _ _ _ Hok Hp).
  - injection Hr as <- <- <-. by apply (unlease_ok _ _ _ _ _ _ _ Hok Hp).
  - injection Hr as <- <- <-. by apply (unlease_ok _ _ _ _ _ _ _ Hok Hp).
Qed.
End Rounds.

(** ** Executions *)

Definition few_threads (n : nat) : Prop := Z.of_nat n < 2 ^ 16 - 1.

Lemma system_step_ok n i act s s' d v r a :
  few_threads n -> length (threads s) = n -> word_ok d v r a s -> system_step i act s = Some s' ->
  length (threads s') = n /\ steps_to d v a s s'.
Proof.
  intros Hn Hlen Hok Hs. unfold system_step in Hs.
  destruct (lookupZ (threads s) i) as [p|] eqn:Hp; [|done]. simpl in Hs.
  destruct (thread_step act p (word s) (mapping s)) as [[[p' w'] m']|] eqn:Ht; [|done]. simpl in Hs. injection Hs as <-.
  split.
  - simpl. pose proof (lengthZ_insertZ (threads s) i p') as Hl. unfold lengthZ in Hl. lia.
  - apply (thread_step_ok _ _ _ _ _ _ Hok act p p' w' m'); [|done|done].
    unfold lengthZ. rewrite Hlen. done.
Qed.

Lemma idle_ok n d v a s :
  threads s = replicate n Idle -> word s = pack d v false a -> fields_ok v a -> (d = false -> a = 0) ->
  word_ok d v false a s.
Proof.
  intros Ht Hw Hf Ha.
  assert (Hidle : forall i p, lookupZ (threads s) i = Some p -> p = Idle).
  { intros i p Hp. rewrite Ht in Hp. unfold lookupZ in Hp. destruct (0 <=? i); [|done].
    by apply lookup_replicate in Hp as [-> _]. }
  constructor; try done.
  - rewrite countZ_zero. intros i p Hp. by rewrite (Hidle i p Hp).
  - intros Hd. rewrite (Ha Hd). rewrite countZ_zero. intros i p Hp. by rewrite (Hidle i p Hp).
  - intros i p Hp. by rewrite (Hidle i p Hp).
  - intros i j p q Hp Hl. by rewrite (Hidle i p Hp) in Hl.
Qed.

Lemma reachable_ok n s : few_threads n -> reachable n s -> authority_ok n s.
Proof.
  intros Hn. induction 1 as [|s s' i a _ [Hlen (d & v & r & ac & Hok)] Hs|s _ [Hlen (d & v & r & ac & Hok)]].
  - split; [apply length_replicate|]. exists false, 1, false, 0. by apply (idle_ok n).
  - destruct (system_step_ok n i a s s' d v r ac Hn Hlen Hok Hs) as [Hl (d' & v' & r' & a' & Hok' & _)].
    split; [done|]. by exists d', v', r', a'.
  - split; [by rewrite <- Hlen; apply length_replicate|].
    pose proof (wo_fields _ _ _ _ _ Hok) as Hf. pose proof (pack_fork d v r ac Hf) as Hk.
    rewrite <- (wo_word _ _ _ _ _ Hok) in Hk. destruct (v <? max_version) eqn:Hlt.
    + exists false, (v + 1), false, 0. apply (idle_ok (length (threads s))); try done.
      apply Z.ltb_lt in Hlt. unfold fields_ok in *. lia.
    + exists true, 0, false, 0. by apply (idle_ok (length (threads s))).
Qed.

(** Along a run the sample of a quiet word stays good until the word grows. *)
Lemma run_since n l : forall s s' vt seen,
  few_threads n -> length (threads s) = n ->
  (exists d v r a, word_ok d v r a s /\ since vt seen d v a (mapping s)) -> run l s = Some s' ->
  length (threads s') = n /\ exists d v r a, word_ok d v r a s' /\ since vt seen d v a (mapping s').
Proof.
  induction l as [|[i act] l IH]; intros s s' vt seen Hn Hlen (d & v & r & a & Hok & Hle & Hsame) Hr; simpl in Hr.
  { injection Hr as <-. split; [done|]. by exists d, v, r, a. }
  destruct (system_step i act s) as [s1|] eqn:Hs; [|done]. simpl in Hr.
  destruct (system_step_ok n i act s s1 d v r a Hn Hlen Hok Hs) as [Hl (d' & v' & r' & a' & Hok' & Hd & Hv & Hm)].
  apply (IH s1 s' vt seen Hn Hl); [|done]. exists d', v', r', a'. split; [done|]. split; [lia|].
  intros -> Hd'. assert (Hd0 : d = false) by (destruct d; [by rewrite Hd in Hd'|done]).
  destruct (Hsame ltac:(lia) Hd0) as [Ha Hse]. destruct (Hm ltac:(lia) Hd' Ha) as [Ha' Hm']. by rewrite Hm'.
Qed.
