(* ===== verification/AuthorityTheorems.v ===== *)
(** * What the authority promises

    Exclusion of writers by a lease, tokens that name a mapping, progress of a
    waiting writer, and the two places where the promise ends. *)

From S2P Require Import Prelude Authority AuthorityInvariant.

(** ** Progress of the authority protocol

    Infinite executions as functions of time; a registered writer waits only
    for the owner of the lease bit. *)

(** An execution of [n] threads: at time [k] thread [fst (who k)] makes one access. *)
Record execution (n : nat) (tr : nat -> authority_system) (who : nat -> Z * action) : Prop := mk_execution {
  ex_start : reachable n (tr O);
  ex_next : forall k, system_step (fst (who k)) (snd (who k)) (tr k) = Some (tr (S k))
}.

(** Every thread makes the next access of its call again and again. *)
Definition fair (n : nat) (who : nat -> Z * action) : Prop :=
  forall i k, 0 <= i < Z.of_nat n -> exists m, (k <= m)%nat /\ who m = (i, Advance).

(** From some time on nobody asks for a new lease. *)
Definition leases_cease (who : nat -> Z * action) : Prop :=
  exists N, forall k, (N <= k)%nat -> snd (who k) <> Commit.

Definition entered (e : errand) : phase := match e with Publish => Inside true | Disable => Disabling end.

Section Progress.
Context (n : nat) (tr : nat -> authority_system) (who : nat -> Z * action).
Context (Hn : few_threads n) (Hex : execution n tr who).

Lemma ex_ok k : authority_ok n (tr k).
Proof using Hn Hex.
  apply reachable_ok; [done|]. induction k as [|k IH]; [apply Hex|]. by eapply reachable_step, Hex.
Qed.

(** What one access does to the thread that makes it, and to the others. *)
Lemma ex_thread k : exists p p',
  lookupZ (threads (tr k)) (fst (who k)) = Some p /\
  thread_step (snd (who k)) p (word (tr k)) (mapping (tr k)) = Some (p', word (tr (S k)), mapping (tr (S k))) /\
  threads (tr (S k)) = insertZ (threads (tr k)) (fst (who k)) p'.
Proof using Hex.
  pose proof (ex_next _ _ _ Hex k) as Hs. unfold system_step in Hs.
  destruct (lookupZ (threads (tr k)) (fst (who k))) as [p|]; [|done]. simpl in Hs.
  destruct (thread_step (snd (who k)) p (word (tr k)) (mapping (tr k))) as [[[p' w'] m']|] eqn:Ht; [|done].
  simpl in Hs. injection Hs as <-. by exists p, p'.
Qed.

Lemma lookup_next k j p p' q :
  lookupZ (threads (tr k)) (fst (who k)) = Some p -> threads (tr (S k)) = insertZ (threads (tr k)) (fst (who k)) p' ->
  lookupZ (threads (tr k)) j = Some q ->
  lookupZ (threads (tr (S k))) j = Some (if decide (j = fst (who k)) then p' else q).
Proof using.
  intros Hp Ht Hj. rewrite Ht, lookupZ_insertZ by (by eapply lookupZ_Some_range).
  destruct (decide (j = fst (who k))) as [->|Hne]; [by rewrite decide_True|by rewrite decide_False].
Qed.

(** *** The lease bit *)

Definition free (k : nat) : Prop := countZ holder (threads (tr k)) = 0.

Lemma no_new_holder p act w m p' w' m' :
  thread_step act p w m = Some (p', w', m') -> act <> Commit -> holder p' = true -> holder p = true /\ act <> Advance.
Proof using.
  intros Ht Ha Hh. destruct act as [er| | | | | |], p as [|e st|e|[]| |st|t se|t se|]; simpl in Ht; try done;
    try (injection Ht as <- <- <-; done).
  - unfold transaction_begin in Ht. injection Ht as <- <- <-. by destruct (decode_authority_stable _).
  - destruct (is_disabled st); [done|]. by injection Ht as <- <- <-.
  - destruct (is_disabled st); [done|]. by injection Ht as <- <- <-.
  - unfold begin_round, begin_next in Ht. destruct e; repeat case_match_in Ht; simplify_eq; done.
  - unfold wait_round in Ht. destruct e; repeat case_match_in Ht; simplify_eq; done.
  - unfold end_round in Ht. repeat case_match_in Ht; simplify_eq; done.
Qed.

Lemma free_stays k : free k -> snd (who k) <> Commit -> free (S k).
Proof using Hex.
  unfold free. intros Hf Ha. destruct (ex_thread k) as (p & p' & Hp & Ht & ->).
  rewrite (countZ_insertZ _ _ _ _ _ Hp), Hf. destruct (holder p') eqn:Hh.
  - destruct (no_new_holder _ _ _ _ _ _ _ Ht Ha Hh) as [-> _]. lia.
  - pose proof (proj1 (countZ_zero _ _) Hf _ _ Hp) as ->. lia.
Qed.

(** The owner of the lease bit keeps it until its own next access, which clears it. *)
Lemma owner_step k h q :
  lookupZ (threads (tr k)) h = Some q -> holder q = true -> snd (who k) <> Commit ->
  free (S k) \/ (exists q', lookupZ (threads (tr (S k))) h = Some q' /\ holder q' = true /\ who k <> (h, Advance)).
Proof using Hn Hex.
  intros Hq Hh Ha. destruct (ex_thread k) as (p & p' & Hp & Ht & Hthr).
  pose proof (lookup_next k h p p' q Hp Hthr Hq) as Hq'. destruct (decide (h = fst (who k))) as [He|He].
  - rewrite <- He in *. rewrite Hq in Hp. injection Hp as <-. destruct (holder p') eqn:Hh'.
    + right. exists p'. split_and!; [done|done|]. intros Hw. destruct (no_new_holder _ _ _ _ _ _ _ Ht Ha Hh') as [_ Hadv].
      by rewrite Hw in Hadv.
    + left. unfold free. rewrite Hthr, (countZ_insertZ _ _ _ _ _ Hq), Hh, Hh'.
      destruct (ex_ok k) as [_ (d & v & r & a & Hok)]. rewrite (wo_holder _ _ _ _ _ Hok).
      rewrite (holder_bit _ _ _ _ _ _ _ Hok Hq Hh). simpl. lia.
  - right. exists q. split_and!; [done|done|]. intros Hw. by rewrite Hw in He.
Qed.

Lemma becomes_free N : fair n who -> (forall k, (N <= k)%nat -> snd (who k) <> Commit) ->
  exists k, (N <= k)%nat /\ free k.
Proof using Hn Hex.
  intros Hfair Hq. destruct (decide (countZ holder (threads (tr N)) = 0)) as [Hz|Hz]; [by exists N|].
  destruct (countZ_exists _ _ Hz) as (h & q & Hh & Hhold).
  assert (Hrange : 0 <= h < Z.of_nat n).
  { pose proof (lookupZ_Some_range _ _ _ Hh) as Hr. unfold lengthZ in Hr. by rewrite (proj1 (ex_ok N)) in Hr. }
  destruct (Hfair h N Hrange) as (m & Hm & Hw).
  assert (Hinv : forall j, (exists k, (N <= k)%nat /\ free k) \/
     (exists q', lookupZ (threads (tr (N + j)%nat)) h = Some q' /\ holder q' = true /\
        forall k, (N <= k < N + j)%nat -> who k <> (h, Advance))).
  { induction j as [|j [Hfree|(q' & Hq' & Hh' & Hno)]]; [right|by left|].
    - exists q. replace (N + 0)%nat with N by lia. split_and!; [done|done|]. intros k Hk. lia.
    - destruct (owner_step (N + j)%nat h q' Hq' Hh' ltac:(apply Hq; lia)) as [Hfree|(q'' & Hq'' & Hh'' & Hne)].
      + left. exists (S (N + j)). split; [lia|done].
      + right. exists q''. replace (N + S j)%nat with (S (N + j)) by lia. split_and!; [done|done|].
        intros k Hk. destruct (decide (k = N + j)%nat) as [->|]; [done|apply Hno; lia]. }
  destruct (Hinv (S (m - N))) as [Hfree|(q' & _ & _ & Hno)]; [done|]. destruct (Hno m); [lia|done].
Qed.

(** *** The wait *)

(** A registered writer stays registered or enters; its own access lets it in when the bit is clear. *)
Lemma waiter_step k i e :
  lookupZ (threads (tr k)) i = Some (Registered e) ->
  lookupZ (threads (tr (S k))) i = Some (entered e) \/
  (lookupZ (threads (tr (S k))) i = Some (Registered e) /\ (free k -> who k <> (i, Advance))).
Proof using Hn Hex.
  intros Hi. destruct (ex_thread k) as (p & p' & Hp & Ht & Hthr).
  pose proof (lookup_next k i p p' _ Hp Hthr Hi) as Hi'. destruct (decide (i = fst (who k))) as [He|He].
  - rewrite <- He in *. rewrite Hi in Hp. injection Hp as <-. rewrite Hi'.
    destruct (ex_ok k) as [_ (d & v & r & a & Hok)]. pose proof (wo_fields _ _ _ _ _ Hok) as Hf.
    destruct (snd (who k)); simpl in Ht; try done. unfold wait_round in Ht.
    rewrite (wo_word _ _ _ _ _ Hok), pack_readers in Ht by done.
    destruct (Z.b2z r * 2 ^ 16 =? 0) eqn:Hr; simplify_eq; [by left; destruct e|].
    right. split; [done|]. unfold free. rewrite (wo_holder _ _ _ _ _ Hok). by destruct r.
  - right. split; [done|]. intros _ Hw. by rewrite Hw in He.
Qed.

Lemma waiter_or_entered k i e :
  lookupZ (threads (tr k)) i = Some (Registered e) -> forall j,
  (exists m, (k <= m)%nat /\ lookupZ (threads (tr m)) i = Some (entered e)) \/
  lookupZ (threads (tr (k + j)%nat)) i = Some (Registered e).
Proof using Hn Hex.
  intros Hi. induction j as [|j [Hm|Hj]]; [right; by replace (k + 0)%nat with k by lia|by left|].
  replace (k + S j)%nat with (S (k + j)) by lia. destruct (waiter_step _ _ _ Hj) as [He|[Hr _]]; [left|by right].
  exists (S (k + j)). split; [lia|done].
Qed.

Lemma free_from K : (forall k, (K <= k)%nat -> snd (who k) <> Commit) -> free K -> forall j, free (K + j)%nat.
Proof using Hex.
  intros Hq Hf. induction j as [|j IH]; [by replace (K + 0)%nat with K by lia|].
  replace (K + S j)%nat with (S (K + j)) by lia. apply free_stays; [done|]. apply Hq. lia.
Qed.

Lemma waiter_enters k i e :
  fair n who -> leases_cease who -> lookupZ (threads (tr k)) i = Some (Registered e) ->
  exists m, (k <= m)%nat /\ lookupZ (threads (tr m)) i = Some (entered e).
Proof using Hn Hex.
  intros Hfair [N HN] Hi. destruct (becomes_free (Nat.max N k) Hfair) as (K & HK & Hfree).
  { intros j Hj. apply HN. lia. }
  assert (Hrange : 0 <= i < Z.of_nat n).
  { pose proof (lookupZ_Some_range _ _ _ Hi) as Hr. unfold lengthZ in Hr. by rewrite (proj1 (ex_ok k)) in Hr. }
  destruct (Hfair i K Hrange) as (m & Hm & Hw).
  destruct (waiter_or_entered k i e Hi (m - k)) as [Hdone|Hreg]; [done|].
  replace (k + (m - k))%nat with m in Hreg by lia.
  destruct (waiter_step m i e Hreg) as [He|[_ Hno]]; [exists (S m); split; [lia|done]|].
  destruct Hno; [|done]. pose proof (free_from K ltac:(intros j Hj; apply HN; lia) Hfree (m - K)) as Hf.
  by replace (K + (m - K))%nat with m in Hf by lia.
Qed.
End Progress.

(** ** A round robin *)

(** Any state has an execution in which the threads advance in turn: every
    phase has a next access. *)
Definition turn (n : nat) (k : nat) : Z * action := (Z.of_nat k mod Z.of_nat n, Advance).

Fixpoint round_robin (n : nat) (s : authority_system) (k : nat) : authority_system :=
  match k with
  | O => s
  | S k => default (round_robin n s k) (system_step (fst (turn n k)) Advance (round_robin n s k))
  end.

Lemma advance_defined p w m : exists x, thread_step Advance p w m = Some x.
Proof.
  destruct p as [|e st|e|begun| |st|t se|t se|]; simpl; eauto.
  - destruct (begin_round e st w). eauto.
  - destruct (wait_round e w). eauto.
  - destruct (end_round st w). eauto.
Qed.

Lemma step_length i act s s' : system_step i act s = Some s' -> length (threads s') = length (threads s).
Proof.
  unfold system_step. destruct (lookupZ (threads s) i) as [p|]; [|done]. simpl.
  destruct (thread_step act p (word s) (mapping s)) as [[[p' w'] m']|]; [|done]. simpl. intros [= <-]. simpl.
  pose proof (lengthZ_insertZ (threads s) i p') as Hl. unfold lengthZ in Hl. lia.
Qed.

Lemma advance_total i s : 0 <= i < lengthZ (threads s) -> exists s', system_step i Advance s = Some s'.
Proof.
  intros Hi. unfold system_step. destruct (lookupZ_is_Some _ _ Hi) as [p ->]. cbn [mbind option_bind].
  destruct (advance_defined p (word s) (mapping s)) as [[[p' w'] m'] ->]. eauto.
Qed.

Lemma round_robin_executes n s :
  few_threads n -> (0 < n)%nat -> reachable n s -> execution n (round_robin n s) (turn n) /\ fair n (turn n) /\ leases_cease (turn n).
Proof.
  intros Hn Hpos Hs. assert (Hr : forall k, reachable n (round_robin n s k) /\
    system_step (fst (turn n k)) Advance (round_robin n s k) = Some (round_robin n s (S k))).
  { assert (Hstep : forall k, reachable n (round_robin n s k) ->
       system_step (fst (turn n k)) Advance (round_robin n s k) = Some (round_robin n s (S k))).
    { intros k Hk. destruct (advance_total (fst (turn n k)) (round_robin n s k)) as [s' Hs'].
      - unfold lengthZ. rewrite (proj1 (reachable_ok _ _ Hn Hk)). apply Z.mod_pos_bound. lia.
      - cbn [round_robin]. by rewrite Hs'. }
    induction k as [|k [IH IHs]]; split; try done; [by apply Hstep| |].
    - by eapply reachable_step.
    - apply Hstep. by eapply reachable_step. }
  split_and!.
  - constructor; [done|]. intros k. apply Hr.
  - intros i k Hi. exists (k * n + Z.to_nat i)%nat. split; [nia|]. unfold turn. f_equal.
    rewrite Nat2Z.inj_add, Nat2Z.inj_mul, Z2Nat.id, Z.add_comm, Z_mod_plus_full by lia. by apply Z.mod_small.
  - exists O. by intros k _.
Qed.

(** ** Two threads *)

Lemma run_reachable n l : forall s s', reachable n s -> run l s = Some s' -> reachable n s'.
Proof.
  induction l as [|[i a] l IH]; intros s s' Hr Hl; simpl in Hl; [by injection Hl as <-|].
  destruct (system_step i a s) as [s1|] eqn:Hs; [|done]. simpl in Hl. apply (IH s1); [|done]. by eapply reachable_step.
Qed.

(** Thread 1 holds a lease; then thread 0 registers as a writer. *)
Definition demo_token : Z := HL_GUEST_FETCH_AUTHORITY_VERSION_ONE.
Definition demo_leased : authority_system := mk_authority (pack false 1 true 0) [Idle; Leased demo_token 0] 0.
Definition demo_waiting : authority_system :=
  mk_authority (pack false 2 true 1) [Registered Publish; Leased demo_token 0] 0.
Definition demo_disabled : authority_system := mk_authority (pack true 2 false 1) [Idle; Idle] 0.

Lemma demo_leased_reachable : reachable 2 demo_leased.
Proof. apply (run_reachable 2 [(1, Sample); (1, Commit)] (authority_init 2)); [constructor|by vm_compute]. Qed.

Lemma demo_waiting_reachable : reachable 2 demo_waiting.
Proof. apply (run_reachable 2 [(0, Start Publish); (0, Advance)] demo_leased); [apply demo_leased_reachable|by vm_compute]. Qed.

Lemma demo_disabled_reachable : reachable 2 demo_disabled.
Proof.
  apply (run_reachable 2 [(0, Start Disable); (0, Advance); (0, Advance); (0, Advance)] (authority_init 2));
    [constructor|by vm_compute].
Qed.

Lemma two_threads : few_threads 2.
Proof. done. Qed.

(** C4: With fewer than 65535 threads, and while the version field is not used
    up (after 2^30 - 1 publications it is, and [saturated_writer_races_lease]
    is what happens then): while a commit lease is held nobody is past the
    writer's wait, no other thread holds the word, the authority is not
    disabled, and the guest bytes are those of the sample the lease was given
    for. *)
Theorem lease_excludes_writers n s i token seen :
  few_threads n -> reachable n s -> lookupZ (threads s) i = Some (Leased token seen) ->
  version_of (word s) <> last_version ->
  mapping s = seen /\ is_disabled (word s) = false /\
  (forall j q, lookupZ (threads s) j = Some q -> past q = false) /\
  (forall j q, lookupZ (threads s) j = Some q -> j <> i -> holder q = false).
Proof.
  intros Hn Hr Hi Hv. destruct (reachable_ok n s Hn Hr) as [_ (d & v & r & a & Hok)].
  pose proof (wo_fields _ _ _ _ _ Hok) as Hf.
  assert (Hlt : v < max_version).
  { rewrite (wo_word _ _ _ _ _ Hok), pack_version in Hv by done.
    change last_version with (max_version * 2 ^ 32) in Hv. unfold fields_ok in Hf. nia. }
  pose proof (wo_phases _ _ _ _ _ Hok i _ Hi) as [_ Hl]. destruct (Hl Hlt) as [Hd Hm]. split_and!; [done| | |].
  - by rewrite (wo_word _ _ _ _ _ Hok), pack_disabled.
  - intros j q Hq. by apply (wo_exclusive _ _ _ _ _ Hok i j _ q Hi eq_refl Hlt Hq).
  - intros j q Hq Hne. destruct (holder q) eqn:Hh; [|done].
    pose proof (wo_holder _ _ _ _ _ Hok) as Hc.
    pose proof (countZ_insertZ holder _ _ Idle _ Hi) as H1. simpl in H1.
    assert (Hq' : lookupZ (insertZ (threads s) i Idle) j = Some q) by (by rewrite lookupZ_insertZ_ne).
    pose proof (countZ_pos holder _ _ _ Hq' Hh). destruct r; simpl in Hc; lia.
Qed.

Lemma lease_excludes_writers_witness :
  mapping demo_leased = 0 /\ is_disabled (word demo_leased) = false /\
  (forall j q, lookupZ (threads demo_leased) j = Some q -> past q = false) /\
  (forall j q, lookupZ (threads demo_leased) j = Some q -> j <> 1 -> holder q = false).
Proof.
  apply (lease_excludes_writers 2 demo_leased 1 demo_token 0);
    [exact two_threads|exact demo_leased_reachable|reflexivity|discriminate].
Defined.

(** C15: A token names a mapping: if a quiet, enabled word is seen again later
    in the process, the guest bytes have not changed in between, which is what
    the decoder's memo relies on. *)
Theorem token_names_mapping n s l s' :
  few_threads n -> reachable n s -> run l s = Some s' ->
  decode_authority_stable (token_of (word s)) = true -> token_of (word s') = token_of (word s) ->
  mapping s' = mapping s.
Proof.
  intros Hn Hr Hl Hst Ht. destruct (reachable_ok n s Hn Hr) as [Hlen (d & v & r & a & Hok)].
  pose proof (wo_fields _ _ _ _ _ Hok) as Hf. rewrite (wo_word _ _ _ _ _ Hok), pack_token in Hst, Ht by done.
  destruct (pack_stable _ _ _ Hf Hst) as (-> & -> & _).
  destruct (run_since n l s s' v (mapping s) Hn Hlen) as [_ (d' & v' & r' & a' & Hok' & _ & Hsame)]; [|done|].
  { exists false, v, r, 0. split; [done|]. by split. }
  pose proof (wo_fields _ _ _ _ _ Hok') as Hf'. rewrite (wo_word _ _ _ _ _ Hok'), pack_token in Ht by done.
  destruct (pack_inj _ _ _ _ Hf' _ _ _ _ Hf Ht) as (-> & -> & _ & _). by apply Hsame.
Qed.

Lemma token_names_mapping_witness : mapping demo_leased = mapping (authority_init 2).
Proof.
  apply (token_names_mapping 2 (authority_init 2) [(1, Sample); (1, Commit)] demo_leased);
    [exact two_threads|constructor|vm_compute; reflexivity|vm_compute; reflexivity|vm_compute; reflexivity].
Defined.

(** C17: A registered writer is admitted: in every fair execution in which
    commits stop asking for the lease, the wait of a writer ends, with its
    count still registered. *)
Theorem writer_is_admitted n tr who k i e :
  few_threads n -> execution n tr who -> fair n who -> leases_cease who ->
  lookupZ (threads (tr k)) i = Some (Registered e) ->
  exists m, (k <= m)%nat /\ lookupZ (threads (tr m)) i = Some (entered e) /\
    (is_disabled (word (tr m)) = false -> active_of (word (tr m)) <> 0).
Proof.
  intros Hn Hex Hf Hl Hi. destruct (waiter_enters n tr who Hn Hex k i e Hf Hl Hi) as (m & Hm & He).
  exists m. split_and!; [done|done|]. destruct (ex_ok n tr who Hn Hex m) as [_ (d & v & r & a & Hok)].
  pose proof (wo_fields _ _ _ _ _ Hok) as Hfi. rewrite (wo_word _ _ _ _ _ Hok), pack_disabled, pack_active by done.
  intros Hd. pose proof (counted_pos _ _ _ _ _ _ _ Hok He ltac:(by destruct e) Hd). lia.
Qed.

Lemma writer_is_admitted_witness :
  exists m, (0 <= m)%nat /\ lookupZ (threads (round_robin 2 demo_waiting m)) 0 = Some (entered Publish) /\
    (is_disabled (word (round_robin 2 demo_waiting m)) = false -> active_of (word (round_robin 2 demo_waiting m)) <> 0).
Proof.
  destruct (round_robin_executes 2 demo_waiting two_threads ltac:(lia) demo_waiting_reachable) as (Hex & Hfair & Hq).
  exact (writer_is_admitted 2 (round_robin 2 demo_waiting) (turn 2) 0 0 Publish two_threads Hex Hfair Hq eq_refl).
Defined.

(** ** Where the promise ends *)

Lemma reach_next n w t m i act p p' w' m' t' :
  reachable n (mk_authority w t m) -> lookupZ t i = Some p -> thread_step act p w m = Some (p', w', m') ->
  insertZ t i p' = t' -> reachable n (mk_authority w' t' m').
Proof.
  intros Hr Hp Ht <-. apply (reachable_step n (mk_authority w t m) _ i act Hr).
  unfold system_step. simpl. rewrite Hp. cbn [mbind option_bind]. by rewrite Ht.
Qed.

Section Saturation.
Context (v : Z) (Hv : 0 < v <= max_version).

Lemma quiet_fields : fields_ok v 0.
Proof using Hv. unfold fields_ok. lia. Qed.

(** One publication of thread 0 from a quiet word adds two to the version. *)
Lemma publication m :
  v + 2 <= max_version -> reachable 2 (mk_authority (pack false v false 0) [Idle; Idle] m) ->
  reachable 2 (mk_authority (pack false (v + 2) false 0) [Idle; Idle] m).
Proof using Hv.
  intros H2 Hr. pose proof quiet_fields as Hf.
  assert (Hf1 : fields_ok (v + 1) 1) by (unfold fields_ok, max_version in *; lia).
  pose proof (reach_next _ _ _ _ 0 (Start Publish) _ _ _ _ _ Hr eq_refl eq_refl eq_refl) as R1.
  eapply (reach_next _ _ _ _ 0 Advance) in R1; [|reflexivity| |reflexivity].
  2: { cbn [thread_step]. unfold begin_round. rewrite pack_disabled, Z.eqb_refl, begin_next_pack by done.
       replace (v =? max_version) with false by (symmetry; apply Z.eqb_neq; lia). reflexivity. }
  eapply (reach_next _ _ _ _ 0 Advance) in R1; [|reflexivity| |reflexivity].
  2: { cbn [thread_step]. unfold wait_round. rewrite pack_readers by done. reflexivity. }
  eapply (reach_next _ _ _ _ 0 Advance) in R1; [|reflexivity|reflexivity|reflexivity].
  eapply (reach_next _ _ _ _ 0 Advance) in R1; [|reflexivity| |reflexivity].
  2: { cbn [thread_step]. unfold end_round. rewrite pack_disabled, Z.eqb_refl, end_next_pack by done.
       replace (v + 1 =? max_version) with false by (symmetry; apply Z.eqb_neq; lia). reflexivity. }
  replace (v + 2) with (v + 1 + 1) by lia. exact R1.
Qed.

(** Thread 1 takes a lease of a quiet word. *)
Lemma take_lease m :
  reachable 2 (mk_authority (pack false v false 0) [Idle; Idle] m) ->
  reachable 2 (mk_authority (pack false v true 0) [Idle; Leased (pack false v false 0) m] m).
Proof using Hv.
  intros Hr. pose proof quiet_fields as Hf.
  assert (Hst : decode_authority_stable (pack false v false 0) = true).
  { unfold decode_authority_stable. rewrite pack_disabled by done. unfold has_flag.
    change (Z.land ?w HL_GUEST_FETCH_AUTHORITY_ACTIVE_MASK) with (active_of w). rewrite pack_active by done.
    rewrite (proj2 (Z.eqb_neq _ 0)); [done|]. unfold pack. simpl. lia. }
  eapply (reach_next _ _ _ _ 1 Sample) in Hr; [|reflexivity| |reflexivity].
  2: { cbn [thread_step]. unfold transaction_begin. rewrite pack_token, Hst by done. reflexivity. }
  eapply (reach_next _ _ _ _ 1 Commit) in Hr; [|reflexivity| |reflexivity].
  2: { cbn [thread_step]. unfold authority_lease.
       rewrite pack_set_reader, pack_readers, pack_token, !Z.eqb_refl by done. unfold has_flag.
       rewrite Z.land_lor_distr_r. change (Z.land ?w HL_GUEST_FETCH_AUTHORITY_ACTIVE_MASK) with (active_of w).
       rewrite pack_active, Z.lor_0_r by done.
       change (negb (Z.land ?w HL_GUEST_FETCH_AUTHORITY_DISABLED =? 0)) with (is_disabled w).
       rewrite pack_disabled by done. reflexivity. }
  exact Hr.
Qed.
End Saturation.

Lemma many_publications k :
  2 * Z.of_nat k + 1 <= max_version -> reachable 2 (mk_authority (pack false (2 * Z.of_nat k + 1) false 0) [Idle; Idle] 0).
Proof.
  induction k as [|k IH]; intros Hk; [exact (reachable_init 2)|].
  replace (2 * Z.of_nat (S k) + 1) with (2 * Z.of_nat k + 1 + 2) by lia.
  apply publication; [lia|lia|]. apply IH. lia.
Qed.

(** The guard fails when the version is used up: after 2^30 - 1 publications
    a writer whose [authority_begin] saturates the word does not wait, and
    changes the guest bytes under a commit lease. *)
Theorem saturated_writer_races_lease :
  exists s token seen, reachable 2 s /\ lookupZ (threads s) 0 = Some (Inside false) /\
    lookupZ (threads s) 1 = Some (Leased token seen) /\ mapping s <> seen.
Proof.
  pose proof (many_publications (Z.to_nat (2 ^ 30 - 1))) as Hr. rewrite Z2Nat.id in Hr by lia.
  change (2 * (2 ^ 30 - 1) + 1) with max_version in Hr. specialize (Hr ltac:(lia)).
  apply (take_lease max_version) in Hr; [|done]. assert (Hf : fields_ok max_version 0) by done.
  pose proof (reach_next _ _ _ _ 0 (Start Publish) _ _ _ _ _ Hr eq_refl eq_refl eq_refl) as R1.
  eapply (reach_next _ _ _ _ 0 Advance) in R1; [|reflexivity| |reflexivity].
  2: { cbn [thread_step]. unfold begin_round. rewrite pack_disabled, Z.eqb_refl, begin_next_pack, Z.eqb_refl by done.
       rewrite orb_true_r. reflexivity. }
  eapply (reach_next _ _ _ _ 0 Mutate) in R1; [|reflexivity|reflexivity|reflexivity].
  eexists _, _, _. split_and!; [exact R1|reflexivity|reflexivity|]. simpl. lia.
Qed.

(** The disabled bit does not survive a fork: the child's word is stable
    again although the child inherits the writable alias it was set for. *)
Theorem fork_forgets_disable n s :
  few_threads n -> reachable n s -> is_disabled (word s) = true -> version_of (word s) <> last_version ->
  decode_authority_stable (token_of (word (fork_child s))) = true.
Proof.
  intros Hn Hr Hd Hv. destruct (reachable_ok n s Hn Hr) as [_ (d & v & r & a & Hok)].
  pose proof (wo_fields _ _ _ _ _ Hok) as Hf. simpl. rewrite (wo_word _ _ _ _ _ Hok) in *.
  rewrite pack_version in Hv by done. change last_version with (max_version * 2 ^ 32) in Hv.
  rewrite pack_fork by done. assert (Hlt : v < max_version) by (unfold fields_ok in Hf; nia).
  rewrite (proj2 (Z.ltb_lt _ _) Hlt). assert (Hf' : fields_ok (v + 1) 0) by (unfold fields_ok in *; lia).
  rewrite pack_token by done. unfold decode_authority_stable. rewrite pack_disabled by done. unfold has_flag.
  change (Z.land ?w HL_GUEST_FETCH_AUTHORITY_ACTIVE_MASK) with (active_of w). rewrite pack_active by done.
  rewrite (proj2 (Z.eqb_neq _ 0)); [done|]. unfold pack, fields_ok in *. simpl. lia.
Qed.

Lemma fork_forgets_disable_witness : decode_authority_stable (token_of (word (fork_child demo_disabled))) = true.
Proof.
  apply (fork_forgets_disable 2 demo_disabled);
    [exact two_threads|exact demo_disabled_reachable|vm_compute; reflexivity|vm_compute; discriminate].
Defined.
