(* ===== verification/GuestFetch.v ===== *)
(** * Fetching instruction bytes

    [translator/guest_fetch.c] from [span_hit] to [hl_guest_fetch_exec], with the
    logical ledger bound as the guest memory and [guest_exec_direct_valid] as
    the validator of ordinary memory ([thread_int_install] in
    [thread/lifecycle.c]).  A context remembers one resolved mapping and one
    proven page; both are stamped with a generation and looked up again.

    An address is a storage address: [x86_guest_fetch_exec_context] folds before
    the call.  [None] is a search that leaves the snapshot. *)

From S2P Require Import Prelude VmaLedger VmaReaders RangeLedger GuestRanges GuestCopy.

(** [hl_guest_fetch_context]. *)
Record fetch_span := mk_span {
  fs_generation : Z;
  fs_first : Z;
  fs_last : Z;
  fs_delta : Z;
  direct_generation : Z;
  direct_first : Z;
  direct_last : Z;
  indirect : bool
}.

Definition fetch_span_init : fetch_span := mk_span 0 0 0 0 0 0 0 false.

Definition set_direct (generation_ first last : Z) (s : fetch_span) : fetch_span :=
  mk_span (fs_generation s) (fs_first s) (fs_last s) (fs_delta s) generation_ first last (indirect s).

Definition span_hit (context : fetch_span) (guest : Z) (g : guest_space) : bool :=
  (fs_first context <=? guest) && (guest <? fs_last context) &&
  (fs_generation context =? VmaLedger.generation (ledger g)).

(** [inr] is the context afterwards, which is the span; [inl] a refusal. *)
Definition span_for (context : fetch_span) (guest : Z) (g : guest_space) : option (unit + fetch_span) :=
  if span_hit context guest g then Some (inr context)
  else
    resolved ← hl_logical_vma_resolve_exec_span guest (ledger g);
    Some (match resolved with
          | SpanRefused => inl tt
          | SpanView generation_ first last delta => inr (mk_span generation_ first last delta 0 0 0 true)
          | SpanGap generation_ first last => inr (mk_span generation_ first last 0 0 0 0 false)
          end).

Definition direct_validator (guest length : Z) (g : guest_space) : bool * guest_space :=
  let '(valid, C) := guest_exec_direct_valid guest length (protection_of g) (caches g) in (valid, set_caches C g).

(** The verdict, and the span with the page it proved. *)
Definition chunk_valid (guest : Z) (span : fetch_span) (chunk : Z) (g : guest_space) : bool * fetch_span * guest_space :=
  if indirect span then (chunk <=? fs_last span - guest, span, g)
  else
    let g_gnx := g_gnx (protection_of g) in
    let end_ := u64 (guest + chunk) in
    if settled g_gnx && (direct_generation span =? generation g_gnx) && (direct_first span <=? guest) &&
       (end_ <=? direct_last span)
    then (true, span, g)
    else
      let first := page_base guest in
      let '(valid, g) := if first <=? UINT64_MAX - 4096 then direct_validator first 4096 g else (false, g) in
      if valid && settled g_gnx then (true, set_direct (generation g_gnx) first (first + 4096) span, g)
      else let '(valid, g) := direct_validator guest chunk g in (valid, span, g).

(** [memcpy] from the storage of a span; ordinary memory may be absent. *)
Definition load_chunk (guest : Z) (span : fetch_span) (chunk : Z) (g : guest_space) : option (list Z) :=
  let host := u64 (guest + fs_delta span) in
  let present := forallb (fun i => mmu g (host + Z.of_nat i)) (seq 0 (Z.to_nat chunk)) in
  if indirect span || present then Some (read_memory (host_memory g) host (Z.to_nat chunk)) else None.

Inductive fetch_result :=
| Fetched (bytes : list Z)
| FetchRefused
| HostFault.

(** [copy] tells whether there is an output. *)
Fixpoint fetch_walk (fuel : nat) (copy : bool) (context : fetch_span) (guest length : Z) (bytes : list Z)
    (g : guest_space) : option (fetch_result * fetch_span * guest_space) :=
  match fuel with
  | O => None
  | S fuel =>
      if length =? 0 then Some (Fetched bytes, context, g)
      else
        let page_left := 4096 - Z.land guest 4095 in
        let chunk := if length <? page_left then length else page_left in
        span ← span_for context guest g;
        match span with
        | inl _ => Some (FetchRefused, context, g)
        | inr span =>
            let '(valid, context, g) := chunk_valid guest span chunk g in
            if negb valid then Some (FetchRefused, context, g)
            else
              match (if copy then load_chunk guest context chunk g else Some []) with
              | None => Some (HostFault, context, g)
              | Some chunk_bytes =>
                  fetch_walk fuel copy context (u64 (guest + chunk)) (length - chunk) (bytes ++ chunk_bytes) g
              end
        end
  end.

(** An iteration for each page and one to leave. *)
Definition walk_fuel (length : Z) : nat := Z.to_nat (length / 4096) + 3.

Definition hl_guest_fetch_exec_context (context : fetch_span) (guest length : Z) (g : guest_space)
  : option (fetch_result * fetch_span * guest_space) :=
  if negb (length =? 0) && (UINT64_MAX - length <? guest) then Some (FetchRefused, context, g)
  else if (length <=? 4096 - Z.land guest 4095) && span_hit context guest g then
    let '(valid, context, g) := chunk_valid guest context length g in
    if negb valid then Some (FetchRefused, context, g)
    else
      match load_chunk guest context length g with
      | None => Some (HostFault, context, g)
      | Some bytes => Some (Fetched bytes, context, g)
      end
  else if length <=? 64 then fetch_walk (walk_fuel length) true context guest length [] g
  else
    '(validated, context, g) ← fetch_walk (walk_fuel length) false context guest length [] g;
    match validated with
    | Fetched _ => fetch_walk (walk_fuel length) true context guest length [] g
    | _ => Some (validated, context, g)
    end.

(** [hl_guest_fetch_u32]: the same fetch of four bytes. *)
Definition hl_guest_fetch_u32 (context : fetch_span) (guest : Z) (g : guest_space)
  : option (fetch_result * fetch_span * guest_space) := hl_guest_fetch_exec_context context guest 4 g.
