(* ===== verification/GuestFetchWalk.v ===== *)
(** * Instruction fetch: spans, chunks and walks

    What one chunk answers under a sound context, and the walk over the pages. *)

From stdpp Require Import gmap.
From S2P Require Import Prelude VmaLedger VmaReaders VmaIntervals VmaInvariant VmaSteps VmaReads.
From S2P Require Import RangeLedger RangeProofs GuestRanges GuestRangesSteps GuestCopy GuestProbes GuestCopies GuestFetch.

(** What a fetch relies on. *)
Record fetch_ok (n : Z) (rest : list Z) (g : guest_space) : Prop := mk_fetch_ok {
  fk_ledger : ledger_ok (store g) (ledger g) rest;
  fk_shown : shown (store g) (ledger g);
  fk_registries : registries_ok n (protection_of g);
  fk_image : image_ok (image (protection_of g));
  fk_caches : caches_ok (protection_of g) (caches g)
}.

(** The callers of the ledger map whole guest pages. *)
Definition page_bounded (L : hl_logical_vma_ledger) : Prop :=
  forall e, In e (entries L) -> guest_first e mod 4096 = 0 /\ guest_last e mod 4096 = 0.

(** May the guest execute the byte: its mapping says so, or it is ordinary memory
    outside the non-executable set. *)
Definition executes (g : guest_space) (x : Z) : bool :=
  match guest_cell (store g) (ledger g) x with
  | Some (_, p, _) => negb (Z.land p HL_LOGICAL_VMA_EXEC =? 0)
  | None => negb (covered (ranges (g_gnx (protection_of g))) (nonpie_unfold (image (protection_of g)) x))
  end.

Definition executable_range (g : guest_space) (x len : Z) : bool :=
  forallb (fun i => executes g (x + Z.of_nat i)) (seq 0 (Z.to_nat len)).

(** The ordinary bytes of the range are present in the host. *)
Definition present (g : guest_space) (x len : Z) : Prop :=
  forall i, 0 <= i < len -> guest_cell (store g) (ledger g) (x + i) = None -> mmu g (x + i) = true.

Definition span_of (s : fetch_span) : exec_span :=
  if indirect s then SpanView (fs_generation s) (fs_first s) (fs_last s) (fs_delta s)
  else SpanGap (fs_generation s) (fs_first s) (fs_last s).

(** A context of the present generations was answered by the present ledger and
    the present registry. *)
Record context_ok (g : guest_space) (s : fetch_span) : Prop := mk_context_ok {
  co_past : fs_generation s <= VmaLedger.generation (ledger g);
  co_span : fs_generation s = VmaLedger.generation (ledger g) -> fs_first s < fs_last s ->
    (indirect s = false -> fs_delta s = 0) /\
    exists x, 0 <= x < UINT64_MAX /\ hl_logical_vma_resolve_exec_span x (ledger g) = Some (span_of s);
  co_direct : direct_generation s <= generation (g_gnx (protection_of g));
  co_page : direct_generation s = generation (g_gnx (protection_of g)) ->
    forall x, direct_first s <= x < direct_last s ->
      covered (ranges (g_gnx (protection_of g))) (nonpie_unfold (image (protection_of g)) x) = false
}.

(** ** Caches change nothing *)

Section Recached.
Context (g g' : guest_space) (Hr : recached g g').

Lemma recached_executes x : executes g' x = executes g x.
Proof using Hr. by destruct Hr as (C & -> & _). Qed.

Lemma recached_range x len : executable_range g' x len = executable_range g x len.
Proof using Hr. by destruct Hr as (C & -> & _). Qed.

Lemma recached_present x len : present g x len -> present g' x len.
Proof using Hr. by destruct Hr as (C & -> & _). Qed.

Lemma recached_read x n : read_guest g' x n = read_guest g x n.
Proof using Hr. by destruct Hr as (C & -> & _). Qed.

Lemma recached_context s : context_ok g s -> context_ok g' s.
Proof using Hr. destruct Hr as (C & -> & _). intros []. by constructor. Qed.

Lemma recached_fetch n rest : fetch_ok n rest g -> fetch_ok n rest g'.
Proof using Hr. destruct Hr as (C & -> & HC). intros []. by constructor. Qed.
End Recached.

Lemma fetch_recached n rest g : fetch_ok n rest g -> recached g g.
Proof. intros Hok. exists (caches g). split; [by destruct g|apply (fk_caches _ _ _ Hok)]. Qed.

(** ** Ranges of bytes *)

Lemma executable_range_spec g x len :
  executable_range g x len = true <-> forall i, 0 <= i < len -> executes g (x + i) = true.
Proof.
  unfold executable_range. rewrite forallb_forall. split.
  - intros H i Hi. specialize (H (Z.to_nat i)). rewrite Z2Nat.id in H by lia. apply H. apply in_seq. lia.
  - intros H i Hi%in_seq. apply H. lia.
Qed.

Lemma executable_range_split g x k len :
  0 <= k <= len -> executable_range g x len = executable_range g x k && executable_range g (x + k) (len - k).
Proof.
  intros Hk. apply eq_true_iff_eq. rewrite andb_true_iff, !executable_range_spec. split.
  - intros H. split; intros i Hi; [apply H; lia|]. rewrite <- Z.add_assoc. apply H. lia.
  - intros [H1 H2] i Hi. destruct (Z.lt_ge_cases i k); [apply H1; lia|].
    replace (x + i) with (x + k + (i - k)) by lia. apply H2. lia.
Qed.

(** The validator of ordinary memory. *)
Lemma validator_spec n rest g a len :
  fetch_ok n rest g ->
  0 <= a -> 0 < len -> a mod 4096 + len <= 4096 -> a + len <= 2 ^ 63 ->
  exists b g', direct_validator a len g = (b, g') /\ recached g g' /\
    (b = true <-> forall x, a <= x < a + len ->
       covered (ranges (g_gnx (protection_of g))) (nonpie_unfold (image (protection_of g)) x) = false).
Proof.
  intros Hok Ha Hl Hp Ht.
  destruct (exec_valid_spec _ _ (fk_registries _ _ _ Hok) a len (caches g) (fk_caches _ _ _ Hok) (fk_image _ _ _ Hok) Ha Hl Hp Ht)
    as (b & C & Hv & HC & Hb'). exists b, (set_caches C g). unfold direct_validator. rewrite Hv.
  split_and!; [done|by exists C|done].
Qed.

(** ** What a span says *)

Section Spans.
Context (n : Z) (rest : list Z) (g : guest_space) (Hok : fetch_ok n rest g) (Hb : page_bounded (ledger g)).

(** A view is an entry. *)
Lemma resolved_entry x gen first last delta :
  hl_logical_vma_resolve_exec_span x (ledger g) = Some (SpanView gen first last delta) ->
  exists e, In e (entries (ledger g)) /\ guest_first e = first /\ guest_last e = last /\ Z.land (protection e) HL_LOGICAL_VMA_EXEC <> 0.
Proof using Hok.
  unfold hl_logical_vma_resolve_exec_span. intros Hr.
  destruct (shown_search _ _ _ x (fk_ledger _ _ _ Hok) (fk_shown _ _ _ Hok)) as (r & Hs & _ & Hcase).
  rewrite Hs in Hr. cbn [mbind option_bind] in Hr. destruct r as [low|v].
  { destruct (if negb (low =? 0) then _ else _) as [f|]; [|done]. cbn [mbind option_bind] in Hr.
    by destruct (if negb (low =? _) then _ else _). }
  destruct Hcase as (e & He & _ & Hv). exists e. rewrite (vf_protection _ _ _ Hv), (vf_first _ _ _ Hv), (vf_last _ _ _ Hv) in Hr.
  destruct (Z.eqb_spec (Z.land (protection e) HL_LOGICAL_VMA_EXEC) 0); [done|]. by injection Hr as _ <- <- _.
Qed.

(** Chunk of an executable mapping. *)
Lemma view_chunk x gen first last delta a len :
  0 <= x < UINT64_MAX -> hl_logical_vma_resolve_exec_span x (ledger g) = Some (SpanView gen first last delta) ->
  first <= a < last -> 0 < len -> a mod 4096 + len <= 4096 ->
  len <= last - a /\ forall i, 0 <= i < len -> executes g (a + i) = true /\ host_of g (a + i) = u64 (a + delta) + i.
Proof using Hok Hb.
  intros Hx Hr Ha Hl Hp. destruct (resolved_entry _ _ _ _ _ Hr) as (e & He & Hf & Hla & Hex).
  destruct (Hb e He) as [Hf0 Hl0]. rewrite Hf in Hf0. rewrite Hla in Hl0.
  assert (Hlen : len <= last - a).
  { clear - Hl0 Ha Hp Hl. div_lia. }
  split; [done|]. intros i Hi. assert (Hc : covers a e = true) by (apply covers_spec; lia).
  destruct (entry_range _ _ _ a e (fk_ledger _ _ _ Hok) He Hc) as (host & bk & _ & _ & Hhost & Hone).
  destruct (exec_span_spec _ _ _ x (fk_ledger _ _ _ Hok) (fk_shown _ _ _ Hok) Hx) as (r & Hr' & Hspan).
  rewrite Hr in Hr'. injection Hr' as <-. destruct Hspan as (_ & _ & Hspan). destruct (Hspan a Ha) as [Hh _].
  destruct (Hone 0 ltac:(lia)) as [Hh0 _]. rewrite !Z.add_0_r, Hh in Hh0. injection Hh0 as Hh0.
  destruct (Hone i ltac:(lia)) as [Hhi (loc & Hcell)]. split.
  - unfold executes. rewrite Hcell. by apply negb_true_iff, Z.eqb_neq.
  - unfold host_of. rewrite Hhi. simpl. lia.
Qed.

(** A chunk of a gap is ordinary memory: the next mapping starts on a page. *)
Lemma gap_chunk x gen first last a len :
  0 <= x < UINT64_MAX -> hl_logical_vma_resolve_exec_span x (ledger g) = Some (SpanGap gen first last) ->
  first <= a < last -> 0 < len -> a mod 4096 + len <= 4096 ->
  forall i, 0 <= i < len -> guest_cell (store g) (ledger g) (a + i) = None.
Proof using Hok Hb.
  intros Hx Hr Ha Hl Hp i Hi.
  destruct (exec_span_spec _ _ _ x (fk_ledger _ _ _ Hok) (fk_shown _ _ _ Hok) Hx) as (r & Hr' & Hspan).
  rewrite Hr in Hr'. injection Hr' as <-. destruct Hspan as (_ & _ & Hgap & _).
  destruct (guest_cell (store g) (ledger g) (a + i)) as [c|] eqn:Hc; [|done]. exfalso.
  destruct (cell_entry _ _ _ _ Hc) as (e & He & Hcov). apply covers_spec in Hcov.
  destruct (Z.le_gt_cases (guest_first e) a) as [Hle|Hgt].
  - assert (Hca : covers a e = true) by (apply covers_spec; lia).
    destruct (covered_cell _ _ _ a e (fk_ledger _ _ _ Hok) He Hca) as (loc & Hcell). by rewrite (Hgap a Ha) in Hcell.
  - destruct (Hb e He) as [Hf0 _]. clear - Hf0 Hgt Hcov Hi Hp. div_lia.
Qed.

Lemma gap_host a : guest_cell (store g) (ledger g) a = None -> host_of g a = a.
Proof using Hok.
  intros Hc. apply (no_cell _ _ _ a (fk_ledger _ _ _ Hok)) in Hc.
  unfold host_of, host_address, mapped. by rewrite Hc.
Qed.

(** ** A chunk *)

(** The span in use was answered around [a]. *)
Definition spans (s : fetch_span) (a : Z) : Prop :=
  fs_first s <= a < fs_last s /\ (indirect s = false -> fs_delta s = 0) /\
  exists x, 0 <= x < UINT64_MAX /\ hl_logical_vma_resolve_exec_span x (ledger g) = Some (span_of s).

Lemma span_hit_spans s a : context_ok g s -> span_hit s a g = true -> spans s a.
Proof using.
  intros Hc Hh. unfold span_hit in Hh. bool_props. destruct (co_span _ _ Hc) as [Hd Hx]; [done|lia|]. by split_and!.
Qed.

(** A fresh span or a remembered one; a refusal is a byte the guest may not execute. *)
Lemma span_for_spec s a :
  context_ok g s -> 0 <= a < UINT64_MAX ->
  match span_for s a g with
  | None => False
  | Some (inl _) => executes g a = false
  | Some (inr s') => context_ok g s' /\ spans s' a
  end.
Proof using Hok.
  intros Hc Ha. unfold span_for. destruct (span_hit s a g) eqn:Hh; [split; [done|by apply span_hit_spans]|].
  destruct (exec_span_spec _ _ _ a (fk_ledger _ _ _ Hok) (fk_shown _ _ _ Hok) Ha) as (r & Hr & Hspan).
  rewrite Hr. cbn [mbind option_bind].
  pose proof (gk_generation _ _ (rs_array _ _ (fk_registries _ _ _ Hok) NoExec)) as Hg. simpl in Hg.
  destruct r as [gen f l d|gen f l|].
  - destruct Hspan as (-> & Hr1 & _). split.
    + constructor; simpl; [lia| |lia|lia]. intros _ _. split; [done|]. by exists a.
    + split_and!; simpl; try lia; try done. by exists a.
  - destruct Hspan as (-> & Hr1 & _). split.
    + constructor; simpl; [lia| |lia|lia]. intros _ _. split; [done|]. by exists a.
    + split_and!; simpl; try lia; try done. by exists a.
  - destruct Hspan as (loc & p & f & Hcell & Hp). unfold executes. rewrite Hcell. by rewrite Hp.
Qed.

Definition same_mapping (s s' : fetch_span) : Prop :=
  fs_generation s' = fs_generation s /\ fs_first s' = fs_first s /\ fs_last s' = fs_last s /\
  fs_delta s' = fs_delta s /\ indirect s' = indirect s.

Lemma ordinary_executes a len :
  (forall i, 0 <= i < len -> guest_cell (store g) (ledger g) (a + i) = None) ->
  (forall x, a <= x < a + len -> covered (ranges (g_gnx (protection_of g))) (nonpie_unfold (image (protection_of g)) x) = false)
  <-> executable_range g a len = true.
Proof using.
  intros Hn. rewrite executable_range_spec. split; intros H.
  - intros i Hi. unfold executes. rewrite Hn by done. rewrite H by lia. done.
  - intros x Hx. specialize (H (x - a) ltac:(lia)). unfold executes in H. rewrite Hn in H by lia.
    replace (a + (x - a)) with x in H by lia. by apply negb_true_iff in H.
Qed.

Lemma fetch_chunk_spec s a len :
  context_ok g s -> spans s a -> 0 <= a -> 0 < len -> a mod 4096 + len <= 4096 -> a + len <= 2 ^ 63 ->
  exists b s' g', chunk_valid a s len g = (b, s', g') /\ recached g g' /\ context_ok g' s' /\ same_mapping s s' /\
    b = executable_range g a len.
Proof using Hok Hb.
  intros Hc (Ha & Hdelta & x & Hx & Hres) Ha0 Hl Hp Ht. unfold chunk_valid, span_of in *.
  destruct (indirect s) eqn:Hi.
  { destruct (view_chunk x _ _ _ _ a len Hx Hres Ha Hl Hp) as [Hlen Hex]. exists true, s, g.
    rewrite (proj2 (Z.leb_le _ _) Hlen). split_and!; [done|by eapply fetch_recached|done|done|].
    symmetry. apply executable_range_spec. intros i Hi'. by apply Hex. }
  pose proof (gap_chunk x _ _ _ a len Hx Hres Ha Hl Hp) as Hnone.
  pose proof (gk_settled _ _ (rs_array _ _ (fk_registries _ _ _ Hok) NoExec)) as Hset. simpl in Hset. rewrite Hset. cbn [andb].
  rewrite (u64_small (a + len)) by lia.
  destruct ((direct_generation s =? _) && _ && _) eqn:Hhit.
  { bool_props. exists true, s, g. split_and!; [done|by eapply fetch_recached|done|done|].
    symmetry. apply (ordinary_executes a len Hnone). intros y Hy. apply (co_page _ _ Hc); [done|lia]. }
  rewrite page_base_eq by lia. set (first := 4096 * (a / 4096)).
  assert (Hfirst : 0 <= first /\ first mod 4096 = 0 /\ first <= a /\ a + len <= first + 4096 /\ first + 4096 <= 2 ^ 63).
  { clear - Ha0 Hl Hp Ht. unfold first. split_and!; div_lia. }
  destruct Hfirst as (F1 & F2 & F3 & F4 & F5). clear Hhit.
  assert (Hle : (first <=? UINT64_MAX - 4096) = true) by (apply Z.leb_le; unfold UINT64_MAX; lia). rewrite Hle.
  destruct (validator_spec n rest g first 4096 Hok F1 ltac:(lia) ltac:(lia) F5) as (b1 & g1 & Hv1 & Hr1 & Hb1). rewrite Hv1.
  destruct b1; cbn [andb].
  - exists true. eexists. exists g1. split; [done|]. split; [done|].
    split_and!; try done.
    + apply (recached_context _ _ Hr1). destruct Hc as [C1 C2 C3 C4]. constructor; simpl; [done|done|lia|].
      intros _ y Hy. by apply Hb1.
    + symmetry. apply (ordinary_executes a len Hnone). intros y Hy. apply Hb1; [done|lia].
  - assert (Hok1 : fetch_ok n rest g1) by (by apply (recached_fetch _ _ Hr1)).
    destruct (validator_spec n rest g1 a len Hok1 Ha0 Hl Hp Ht) as (b2 & g2 & Hv2 & Hr2 & Hb2). rewrite Hv2.
    assert (Hr : recached g g2) by exact (recached_trans _ _ _ Hr1 Hr2).
    assert (Hprot : protection_of g1 = protection_of g) by (by destruct Hr1 as (C & -> & _)).
    exists b2, s, g2. split_and!; try done; [by apply (recached_context _ _ Hr)|].
    apply eq_true_iff_eq. rewrite Hb2, Hprot. by apply ordinary_executes.
Qed.

(** The copy of a chunk the guest may execute reads the bytes it shows. *)
Lemma load_chunk_spec s a len :
  spans s a -> 0 <= a -> 0 < len -> a mod 4096 + len <= 4096 -> a + len <= 2 ^ 63 -> present g a len ->
  load_chunk a s len g = Some (read_guest g a (Z.to_nat len)).
Proof using Hok Hb.
  intros (Ha & Hdelta & x & Hx & Hres) Ha0 Hl Hp Ht Hpres. unfold load_chunk, span_of in *.
  assert (Hread : forall host, (forall i, 0 <= i < len -> host_of g (a + i) = host + i) ->
    read_memory (host_memory g) host (Z.to_nat len) = read_guest g a (Z.to_nat len)).
  { intros host Hh. unfold read_memory, read_guest. apply map_ext_in. intros i Hi%in_seq. rewrite Hh by lia. done. }
  destruct (indirect s) eqn:Hi; cbn [orb].
  { destruct (view_chunk x _ _ _ _ a len Hx Hres Ha Hl Hp) as [_ Hex]. rewrite Hread; [done|].
    intros i Hi'. by apply Hex. }
  pose proof (gap_chunk x _ _ _ a len Hx Hres Ha Hl Hp) as Hnone.
  rewrite Hdelta, Z.add_0_r, u64_small by (done || lia).
  rewrite (proj2 (forallb_forall _ _)).
  - rewrite Hread; [done|]. intros i Hi'. apply gap_host. by apply Hnone.
  - intros i Hi'%in_seq. apply Hpres; [lia|]. apply Hnone. lia.
Qed.
End Spans.

Lemma load_chunk_same g g' s s' a len :
  recached g g' -> same_mapping s s' -> load_chunk a s' len g' = load_chunk a s len g.
Proof. intros (C & -> & _) (_ & _ & _ & Hd & Hi). unfold load_chunk. by rewrite Hd, Hi. Qed.

(** ** The walk *)

Lemma present_sub g x len k l : present g x len -> 0 <= k -> k + l <= len -> present g (x + k) l.
Proof. intros H Hk Hl i Hi. rewrite <- Z.add_assoc. apply H. lia. Qed.

Lemma read_guest_split g x (a b : nat) : read_guest g x (a + b) = read_guest g x a ++ read_guest g (x + Z.of_nat a) b.
Proof.
  unfold read_guest. rewrite seq_app, map_app. f_equal. cbn [Nat.add].
  rewrite <- (Nat.add_0_r a) at 1. rewrite <- (fmap_add_seq a 0 b), map_map. apply map_ext. intros i. do 2 f_equal. lia.
Qed.

(** What a fetch answers. *)
Definition fetched (copy : bool) (g : guest_space) (x len : Z) (bytes : list Z) : fetch_result :=
  if executable_range g x len then Fetched (bytes ++ if copy then read_guest g x (Z.to_nat len) else [])
  else FetchRefused.

Lemma fetched_recached copy g g' x len bytes : recached g g' -> fetched copy g' x len bytes = fetched copy g x len bytes.
Proof. intros Hr. unfold fetched. by rewrite (recached_range _ _ Hr), (recached_read _ _ Hr). Qed.

Definition enough (fuel : nat) (x len : Z) : Prop :=
  (0 < fuel)%nat /\ (0 < len -> x mod 4096 + len <= 4096 * (Z.of_nat fuel - 1)).

Lemma fetch_walk_spec n rest fuel : forall copy s x len bytes g,
  fetch_ok n rest g -> page_bounded (ledger g) -> context_ok g s -> 0 <= x -> 0 <= len -> x + len <= 2 ^ 63 ->
  present g x len -> enough fuel x len ->
  exists s' g', fetch_walk fuel copy s x len bytes g = Some (fetched copy g x len bytes, s', g') /\
    recached g g' /\ context_ok g' s'.
Proof.
  induction fuel as [|fuel IH]; intros copy s x len bytes g Hok Hb Hc Hx Hl Ht Hp [Hf0 Hf]; [lia|]. cbn [fetch_walk].
  destruct (Z.eqb_spec len 0) as [->|Hne].
  { exists s, g. split_and!; [|by eapply fetch_recached|done]. unfold fetched. simpl. destruct copy; by rewrite app_nil_r. }
  rewrite low_bits. set (page_left := 4096 - x mod 4096). pose proof (Z.mod_pos_bound x 4096 ltac:(lia)) as Hmod.
  set (chunk := if len <? page_left then len else page_left).
  assert (Hchunk : 0 < chunk <= len /\ x mod 4096 + chunk <= 4096 /\ enough fuel (x + chunk) (len - chunk)).
  { unfold chunk, page_left, enough. specialize (Hf ltac:(lia)). clear - Hf Hmod Hne Hl.
    destruct (Z.ltb_spec len (4096 - x mod 4096)); split_and!; try lia.
    replace ((x + (4096 - x mod 4096)) mod 4096) with 0 by div_lia. lia. }
  destruct Hchunk as (C1 & C2 & C3). clearbody chunk. clear Hf.
  pose proof (span_for_spec n rest g Hok s x Hc ltac:(unfold UINT64_MAX; lia)) as Hspan.
  unfold fetched. rewrite (executable_range_split g x chunk len) by lia.
  destruct (span_for s x g) as [[[]|s1]|]; [| |done]; cbn [mbind option_bind].
  { exists s, g. split_and!; [|by eapply fetch_recached|done].
    replace (executable_range g x chunk) with false; [done|]. symmetry. apply not_true_is_false.
    rewrite executable_range_spec. intros H. specialize (H 0 ltac:(lia)). rewrite Z.add_0_r in H. congruence. }
  destruct Hspan as [Hc1 Hs1].
  destruct (fetch_chunk_spec n rest g Hok Hb s1 x chunk Hc1 Hs1 Hx ltac:(lia) C2 ltac:(lia)) as (b & s2 & g2 & Hv & Hr & Hc2 & Hm & Hbe).
  rewrite Hv. rewrite <- Hbe. destruct b; cbn [negb andb]; [|by exists s2, g2].
  rewrite (load_chunk_same g g2 s1 s2 x chunk Hr Hm).
  rewrite (load_chunk_spec n rest g Hok Hb s1 x chunk Hs1 Hx ltac:(lia) C2 ltac:(lia))
    by (intros i Hi; apply Hp; lia).
  assert (Hok2 : fetch_ok n rest g2) by (by apply (recached_fetch _ _ Hr)).
  assert (Hled : ledger g2 = ledger g) by (by destruct Hr as (C & -> & _)).
  rewrite (u64_small (x + chunk)) by lia.
  set (more := if copy then read_guest g x (Z.to_nat chunk) else []).
  assert (Hmore : (if copy then Some (read_guest g x (Z.to_nat chunk)) else Some []) = Some more) by (by destruct copy).
  rewrite Hmore.
  destruct (IH copy s2 (x + chunk) (len - chunk) (bytes ++ more) g2) as (s3 & g3 & Hw & Hr3 & Hc3); try done; try lia.
  { by rewrite Hled. }
  { apply (recached_present _ _ Hr). apply (present_sub g x len); [done|lia|lia]. }
  rewrite Hw. exists s3, g3. split_and!; [|exact (recached_trans _ _ _ Hr Hr3)|done].
  rewrite (fetched_recached copy g g2) by done. unfold fetched.
  destruct (executable_range g (x + chunk) (len - chunk)); [|done]. do 3 f_equal. rewrite <- app_assoc. f_equal.
  unfold more. destruct copy; [|done]. replace (Z.to_nat len) with (Z.to_nat chunk + Z.to_nat (len - chunk))%nat by lia.
  rewrite read_guest_split. by rewrite Z2Nat.id by lia.
Qed.

(** ** The fetch *)

Lemma walk_fuel_enough x len : 0 <= len -> enough (walk_fuel len) x len.
Proof.
  intros Hl. unfold enough, walk_fuel. split; [lia|]. intros _. rewrite Nat2Z.inj_add, Z2Nat.id by (apply Z.div_pos; lia).
  div_lia.
Qed.

Lemma fetch_exec_spec n rest s x len g :
  fetch_ok n rest g -> page_bounded (ledger g) -> context_ok g s -> 0 <= x -> 0 < len -> x + len <= 2 ^ 63 ->
  present g x len ->
  exists s' g', hl_guest_fetch_exec_context s x len g = Some (fetched true g x len [], s', g') /\
    recached g g' /\ context_ok g' s'.
Proof.
  intros Hok Hb Hc Hx Hl Ht Hp. unfold hl_guest_fetch_exec_context.
  rewrite (proj2 (Z.eqb_neq len 0)) by lia. unfold UINT64_MAX. rewrite (proj2 (Z.ltb_ge _ x)) by lia. cbn [negb andb].
  rewrite low_bits. destruct ((len <=? 4096 - x mod 4096) && span_hit s x g) eqn:Hfast.
  { apply andb_prop in Hfast as [Hpage%Z.leb_le Hhit]. pose proof (span_hit_spans g s x Hc Hhit) as Hs.
    destruct (fetch_chunk_spec n rest g Hok Hb s x len Hc Hs Hx Hl ltac:(lia) Ht) as (b & s2 & g2 & Hv & Hr & Hc2 & Hm & Hbe).
    rewrite Hv. unfold fetched. rewrite <- Hbe. destruct b; cbn [negb]; [|by exists s2, g2].
    rewrite (load_chunk_same g g2 s s2 x len Hr Hm).
    rewrite (load_chunk_spec n rest g Hok Hb s x len Hs Hx Hl ltac:(lia) Ht Hp). by exists s2, g2. }
  destruct (len <=? 64).
  { apply (fetch_walk_spec n rest); try done; [lia|apply walk_fuel_enough; lia]. }
  destruct (fetch_walk_spec n rest (walk_fuel len) false s x len [] g) as (s1 & g1 & Hw & Hr1 & Hc1); try done; [lia|apply walk_fuel_enough; lia|].
  rewrite Hw. cbn [mbind option_bind]. unfold fetched at 1. destruct (executable_range g x len) eqn:Hex.
  2: { exists s1, g1. unfold fetched. by rewrite Hex. }
  assert (Hled : ledger g1 = ledger g) by (by destruct Hr1 as (C & -> & _)).
  destruct (fetch_walk_spec n rest (walk_fuel len) true s1 x len [] g1) as (s2 & g2 & Hw2 & Hr2 & Hc2); try done.
  { by apply (recached_fetch _ _ Hr1). }
  { by rewrite Hled. }
  { lia. }
  { by apply (recached_present _ _ Hr1). }
  { apply walk_fuel_enough. lia. }
  rewrite Hw2. rewrite (fetched_recached true g g1) by done. exists s2, g2.
  split_and!; [done|exact (recached_trans _ _ _ Hr1 Hr2)|done].
Qed.
