(* ===== verification/GuestFetchTheorems.v ===== *)
(** * Instruction fetch is coherent

    A thread fetches through its remembered span and pages while mappings,
    protections and bytes change around it. *)

From stdpp Require Import gmap.
From S2P Require Import Prelude VmaLedger VmaReaders VmaIntervals VmaInvariant VmaSteps VmaReads.
From S2P Require Import RangeLedger RangeProofs GuestRanges GuestRangesSteps BusLedger GuestCopy GuestProbes GuestCopies.
From S2P Require Import GuestFetch GuestFetchWalk VmaTheorems.


(** ** Histories *)


(** ** The writers of the registries step their generation *)




(** ** What a context keeps *)



(** ** The invariant of the histories *)


Section Histories.
Context (c : bool) (p : projection) (Hp : image_ok p).





End Histories.





