(* ===== verification/Carve.v ===== *)
(** * Carving an interval out of an array of records

    Six registries of the personality remove an address interval from an array
    of records in one way: a record inside the interval is replaced by the last
    one, a record that reaches out of it is trimmed, and one that reaches out
    on both sides keeps its head and has its tail appended.  This file has the
    loop once, over any kind of record, and what it computes. *)

From Stdlib Require Import Permutation.
From S2P Require Import Prelude.

(** Records that cover an interval and can be cut. *)
Class Carvable (A : Type) := {
  first_of : A -> Z;
  last_of : A -> Z;
  keep_head : Z -> A -> A;      (** the part below an address *)
  keep_tail : Z -> A -> A       (** the part from an address on *)
}.

(** [array\[i\] = array\[--count\]]. *)
Definition take_last {A} (l : list A) (i : Z) : list A :=
  match lookupZ l (lengthZ l - 1) with Some x => take (length l - 1) (insertZ l i x) | None => l end.

Section Loop.
Context `{Carvable A}.

Definition untouched (start end_ : Z) (x : A) : bool := (last_of x <=? start) || (end_ <=? first_of x).

(** [room] says whether the array can take another record; [fuel] counts the
    rounds. *)
Fixpoint carve_loop (fuel : nat) (room : Z -> bool) (start end_ i : Z) (l : list A) : option (list A) :=
  match fuel with
  | O => None
  | S fuel =>
      match lookupZ l i with
      | None => Some l
      | Some x =>
          if untouched start end_ x then carve_loop fuel room start end_ (i + 1) l
          else
            let head := first_of x <? start in
            let tail := end_ <? last_of x in
            if negb head && negb tail then carve_loop fuel room start end_ i (take_last l i)
            else
              let l1 := insertZ l i (if head then keep_head start x else keep_tail end_ x) in
              let l2 := if head && tail && room (lengthZ l) then l1 ++ [keep_tail end_ x] else l1 in
              carve_loop fuel room start end_ (i + 1) l2
      end
  end.

(** A round passes a record, removes one, or splits one that is passed twice. *)
Definition carve (room : Z -> bool) (start end_ : Z) (l : list A) : option (list A) :=
  carve_loop (S (2 * length l)) room start end_ 0 l.

(** ** What is left *)

Definition parts (start end_ : Z) (x : A) : list A :=
  if untouched start end_ x then [x]
  else (if first_of x <? start then [keep_head start x] else []) ++ (if end_ <? last_of x then [keep_tail end_ x] else []).
Definition splits (start end_ : Z) (x : A) : bool :=
  negb (untouched start end_ x) && (first_of x <? start) && (end_ <? last_of x).
End Loop.

(** The cuts are where they should be. *)
Class CarvableLaws A `{Carvable A} := {
  first_head : forall s x, first_of (keep_head s x) = first_of x;
  last_head : forall s x, last_of (keep_head s x) = s;
  first_tail : forall e x, first_of (keep_tail e x) = e;
  last_tail : forall e x, last_of (keep_tail e x) = last_of x
}.

Lemma take_last_perm {A} (D : list A) r R : exists R', take_last (D ++ r :: R) (lengthZ D) = D ++ R' /\ R' ≡ₚ R.
Proof.
  unfold take_last. destruct R as [|x R _] using rev_ind.
  - replace (lengthZ (D ++ [r]) - 1) with (lengthZ D) by (rewrite lengthZ_app; change (lengthZ [r]) with 1; lia).
    rewrite lookupZ_middle, insertZ_middle, length_app. simpl. exists []. split; [|done].
    rewrite app_nil_r. apply take_app_length'. lia.
  - assert (Hl : lookupZ (D ++ r :: R ++ [x]) (lengthZ (D ++ r :: R ++ [x]) - 1) = Some x).
    { replace (D ++ r :: R ++ [x]) with ((D ++ r :: R) ++ x :: []) by (by rewrite <- app_assoc).
      rewrite lengthZ_app. change (lengthZ [x]) with 1. replace (lengthZ (D ++ r :: R) + 1 - 1) with (lengthZ (D ++ r :: R)) by lia.
      apply lookupZ_middle. }
    rewrite Hl, insertZ_middle. exists (x :: R). split; [|by rewrite Permutation_app_comm].
    replace (D ++ x :: R ++ [x]) with ((D ++ x :: R) ++ [x]) by (by rewrite <- app_assoc).
    rewrite take_app_le by (rewrite !length_app; simpl; rewrite length_app; simpl; lia).
    apply take_ge. rewrite !length_app. simpl. rewrite length_app. simpl. lia.
Qed.

Lemma lookupZ_split {A} (l : list A) i x : lookupZ l i = Some x -> exists D R, l = D ++ x :: R /\ i = lengthZ D.
Proof.
  unfold lookupZ. destruct (Z.leb_spec 0 i); [|done]. intros Hx. exists (take (Z.to_nat i) l), (drop (S (Z.to_nat i)) l).
  split; [by rewrite take_drop_middle|]. unfold lengthZ. apply lookup_lt_Some in Hx. rewrite length_take. lia.
Qed.

Lemma snoc_lengthZ {A} (l : list A) x : lengthZ (l ++ [x]) = lengthZ l + 1.
Proof. by rewrite lengthZ_app. Qed.

Lemma flat_map_at_end {A B} (f : A -> list B) l x : flat_map f (l ++ [x]) = flat_map f l ++ f x.
Proof. rewrite flat_map_app. simpl. by rewrite app_nil_r. Qed.

(** What the loop makes has every property its cuts keep. *)
Lemma carve_loop_Forall `{Carvable A} (P : A -> Prop) room start end_ fuel :
  (forall x, P x -> P (keep_head start x)) -> (forall x, P x -> P (keep_tail end_ x)) ->
  forall i (l l' : list A), carve_loop fuel room start end_ i l = Some l' -> Forall P l -> Forall P l'.
Proof.
  intros Hh Ht. induction fuel as [|fuel IH]; intros i l l' Hrun Hl; [done|]. cbn [carve_loop] in Hrun.
  destruct (lookupZ l i) as [x|] eqn:Ex; [|by simplify_eq]. destruct (untouched start end_ x); [by eapply IH|].
  apply lookupZ_split in Ex as (D & R & -> & ->).
  assert (Hx : P x) by (apply Forall_app in Hl as [_ Hl]; by inversion Hl).
  destruct (negb (first_of x <? start) && negb (end_ <? last_of x)).
  - destruct (take_last_perm D x R) as (R' & HR & Hp). rewrite HR in Hrun. eapply IH; [exact Hrun|].
    apply Forall_app in Hl as [HD Hl]. inversion_clear Hl. apply Forall_app. split; [done|]. by rewrite Hp.
  - eapply IH; [exact Hrun|]. rewrite insertZ_middle. apply Forall_app in Hl as [HD Hl]. inversion_clear Hl.
    assert (Hcut : P (if first_of x <? start then keep_head start x else keep_tail end_ x)) by (destruct (first_of x <? start); auto).
    destruct (_ && _ && _); [|apply Forall_app; split; [done|by constructor]].
    apply Forall_app. split; [apply Forall_app; split; [done|by constructor]|]. constructor; [auto|done].
Qed.

Section Spec.
Context `{CarvableLaws A}.
Implicit Types (x : A) (l D R : list A).

(** The tail of a split record is appended and passed over later. *)
Lemma parts_tail start end_ x : parts start end_ (keep_tail end_ x) = [keep_tail end_ x] /\ splits start end_ (keep_tail end_ x) = false.
Proof.
  assert (Hm : untouched start end_ (keep_tail end_ x) = true).
  { unfold untouched. rewrite first_tail. apply orb_true_iff. right. lia. }
  unfold parts, splits. by rewrite Hm.
Qed.

(** The loop leaves the parts of every record, in some order, when there is
    room for the records it splits. *)
Lemma carve_loop_spec room start end_ fuel : forall D R,
  lengthZ R + countZ (splits start end_) R < Z.of_nat fuel ->
  (forall n, n < lengthZ (D ++ R) + countZ (splits start end_) R -> room n = true) ->
  exists l', carve_loop fuel room start end_ (lengthZ D) (D ++ R) = Some l' /\ l' ≡ₚ D ++ flat_map (parts start end_) R.
Proof.
  induction fuel as [|fuel IH]; intros D R Hf Hroom.
  { pose proof (countZ_bounds (splits start end_) R). pose proof (lengthZ_nonneg R). lia. }
  cbn [carve_loop]. destruct R as [|x R].
  - rewrite app_nil_r. destruct (lookupZ D (lengthZ D)) eqn:E; [apply lookupZ_Some_range in E; lia|].
    exists D. split; [done|]. simpl. by rewrite app_nil_r.
  - rewrite lookupZ_middle. rewrite lengthZ_cons in Hf. rewrite lengthZ_app, lengthZ_cons in Hroom. simpl in Hf, Hroom.
    pose proof (countZ_bounds (splits start end_) R) as Hcb.
    assert (Hkeep : forall y, exists l', carve_loop fuel room start end_ (lengthZ D + 1) (D ++ y :: R) = Some l' /\
                l' ≡ₚ D ++ y :: flat_map (parts start end_) R).
    { intros y. rewrite <- (snoc_lengthZ D y). replace (D ++ y :: R) with ((D ++ [y]) ++ R) by (by rewrite <- app_assoc).
      destruct (IH (D ++ [y]) R) as (l' & Hl & Hp).
      - destruct (splits start end_ x); lia.
      - intros n Hn. apply Hroom. rewrite lengthZ_app, snoc_lengthZ in Hn. destruct (splits start end_ x); lia.
      - exists l'. split; [done|]. by rewrite <- app_assoc in Hp. }
    simpl. unfold parts at 1. destruct (untouched start end_ x) eqn:Em; [apply Hkeep|].
    destruct (first_of x <? start) eqn:Eh, (end_ <? last_of x) eqn:Et; simpl.
    + assert (Es : splits start end_ x = true) by (unfold splits; by rewrite Em, Eh, Et). rewrite Es in *.
      rewrite (Hroom (lengthZ (D ++ x :: R))) by (rewrite lengthZ_app, lengthZ_cons; lia).
      rewrite insertZ_middle. destruct (parts_tail start end_ x) as [Hpt Hst].
      rewrite <- (snoc_lengthZ D (keep_head start x)).
      replace ((D ++ keep_head start x :: R) ++ [keep_tail end_ x]) with ((D ++ [keep_head start x]) ++ R ++ [keep_tail end_ x])
        by (by rewrite <- !app_assoc).
      destruct (IH (D ++ [keep_head start x]) (R ++ [keep_tail end_ x])) as (l' & Hl & Hp).
      * rewrite snoc_lengthZ, countZ_app. simpl. rewrite Hst. lia.
      * intros n. rewrite lengthZ_app, !snoc_lengthZ, countZ_app. simpl. rewrite Hst. intros Hn. apply Hroom. lia.
      * exists l'. split; [done|]. rewrite Hp, flat_map_at_end, Hpt, <- app_assoc. simpl.
        do 2 f_equiv. by rewrite Permutation_app_comm.
    + rewrite insertZ_middle. apply Hkeep.
    + rewrite insertZ_middle. apply Hkeep.
    + destruct (take_last_perm D x R) as (R' & -> & Hp). destruct (IH D R') as (l' & Hl & Hp').
      * unfold lengthZ. rewrite (Permutation_length Hp), (countZ_perm _ _ _ Hp). fold (lengthZ R).
        destruct (splits start end_ x); lia.
      * intros n. rewrite lengthZ_app. unfold lengthZ at 2. rewrite (Permutation_length Hp), (countZ_perm _ _ _ Hp). fold (lengthZ R).
        intros Hn. apply Hroom. destruct (splits start end_ x); lia.
      * exists l'. split; [done|]. rewrite Hp'. by rewrite (Permutation_flat_map _ Hp).
Qed.

Lemma carve_spec room start end_ l :
  (forall n, n < lengthZ l + countZ (splits start end_) l -> room n = true) ->
  exists l', carve room start end_ l = Some l' /\ l' ≡ₚ flat_map (parts start end_) l.
Proof.
  intros Hroom. apply (carve_loop_spec room start end_ (S (2 * length l)) [] l); [|done].
  pose proof (countZ_bounds (splits start end_) l). unfold lengthZ in *. lia.
Qed.

Lemma parts_length start end_ l : lengthZ (flat_map (parts start end_) l) <= lengthZ l + countZ (splits start end_) l.
Proof.
  induction l as [|x l IH]; simpl; [done|]. rewrite lengthZ_app, lengthZ_cons.
  enough (lengthZ (parts start end_ x) <= 1 + (if splits start end_ x then 1 else 0)) by lia.
  unfold parts, splits, lengthZ. by destruct (untouched start end_ x), (first_of x <? start), (end_ <? last_of x).
Qed.
End Spec.

(** ** What the records say of an address *)

Definition covers {A} `{Carvable A} (va : Z) (x : A) : bool := (first_of x <=? va) && (va <? last_of x).
Definition in_interval (start end_ va : Z) : bool := (start <=? va) && (va <? end_).

(** A record gives every address it covers a value, and a part of it the same. *)
Class Valued (A V : Type) := value_at : A -> Z -> V.
Class ValuedLaws A V `{Carvable A, Valued A V} := {
  value_head : forall s va x, covers va (keep_head s x) = true -> s < last_of x -> value_at (keep_head s x) va = value_at x va;
  value_tail : forall e va x, covers va (keep_tail e x) = true -> first_of x < e -> value_at (keep_tail e x) va = value_at x va
}.

(** [l] gives the address [va] the value [v]; records that overlap may give
    several. *)
Definition holds {A V} `{Carvable A, Valued A V} (l : list A) (va : Z) (v : V) : Prop :=
  exists x, In x l /\ covers va x = true /\ value_at x va = v.
Definition covered_by {A} `{Carvable A} (l : list A) (va : Z) : bool := existsb (covers va) l.

Lemma holds_perm {A V} `{Carvable A, Valued A V} (l l' : list A) va (v : V) : l ≡ₚ l' -> holds l va v <-> holds l' va v.
Proof.
  intros Hp. split; intros (x & Hin & ?); exists x; (split; [|done]).
  - by apply (Permutation_in _ Hp).
  - by apply (Permutation_in _ (symmetry Hp)).
Qed.

Lemma holds_nil {A V} `{Carvable A, Valued A V} va (v : V) : ~ holds (A := A) [] va v.
Proof. by intros (x & [] & _). Qed.

Lemma holds_app {A V} `{Carvable A, Valued A V} (l l' : list A) va (v : V) :
  holds (l ++ l') va v <-> holds l va v \/ holds l' va v.
Proof.
  split.
  - intros (x & [Hin|Hin]%in_app_or & Hx); [left|right]; by exists x.
  - intros [(x & Hin & Hx)|(x & Hin & Hx)]; exists x; (split; [apply in_or_app; auto|done]).
Qed.

Lemma holds_single {A V} `{Carvable A, Valued A V} (x : A) va (v : V) :
  holds [x] va v <-> covers va x = true /\ value_at x va = v.
Proof. split; [by intros (y & [->|[]] & Hy)|]. intros Hx. exists x. split; [by left|done]. Qed.

Lemma covered_by_perm {A} `{Carvable A} (l l' : list A) va : l ≡ₚ l' -> covered_by l va = covered_by l' va.
Proof.
  intros Hp. apply eq_true_iff_eq. unfold covered_by. rewrite !existsb_exists.
  split; intros (x & Hin & Hx); exists x; (split; [|done]).
  - by apply (Permutation_in _ Hp).
  - by apply (Permutation_in _ (symmetry Hp)).
Qed.

Section Cuts.
Context `{CarvableLaws A}.
Implicit Types (x : A) (l : list A).

(** The interval is cut out of every record, and nothing else is. *)
Lemma parts_count start end_ x va : start < end_ ->
  countZ (covers va) (parts start end_ x) = if covers va x && negb (in_interval start end_ va) then 1 else 0.
Proof.
  intros Hs. unfold parts, untouched, in_interval.
  assert (Hh : covers va (keep_head start x) = (first_of x <=? va) && (va <? start))
    by (unfold covers; by rewrite first_head, last_head).
  assert (Ht : covers va (keep_tail end_ x) = (end_ <=? va) && (va <? last_of x))
    by (unfold covers; by rewrite first_tail, last_tail).
  assert (Hc : covers va x = (first_of x <=? va) && (va <? last_of x)) by done.
  destruct (Z.leb_spec (last_of x) start), (Z.leb_spec end_ (first_of x)), (Z.ltb_spec (first_of x) start), (Z.ltb_spec end_ (last_of x));
    simpl; rewrite ?Hh, ?Ht, ?Hc; repeat match goal with |- context [?a <=? ?b] => destruct (Z.leb_spec a b) | |- context [?a <? ?b] => destruct (Z.ltb_spec a b) end;
    simpl; lia.
Qed.

Lemma flat_parts_count start end_ l va : start < end_ ->
  countZ (covers va) (flat_map (parts start end_) l) = if in_interval start end_ va then 0 else countZ (covers va) l.
Proof.
  intros Hs. induction l as [|x l IH]; simpl; [by destruct (in_interval _ _ _)|].
  rewrite countZ_app, IH, parts_count by done. destruct (covers va x), (in_interval start end_ va); simpl; lia.
Qed.

(** Only one of several disjoint records is split. *)
Lemma splits_at_most_one start end_ l : start < end_ -> (forall va, countZ (covers va) l <= 1) -> countZ (splits start end_) l <= 1.
Proof.
  intros Hs Hc. transitivity (countZ (covers start) l); [|done].
  enough (Hle : forall x, splits start end_ x = true -> covers start x = true).
  { clear Hc. induction l as [|x l IH]; simpl; [done|]. specialize (Hle x).
    destruct (splits start end_ x); [rewrite Hle by done; lia|]. destruct (covers start x); lia. }
  intros x. unfold splits, untouched, covers. lia.
Qed.

Lemma covered_by_count l va : covered_by l va = (1 <=? countZ (covers va) l).
Proof.
  unfold covered_by. induction l as [|x l IH]; simpl; [done|]. rewrite IH. pose proof (countZ_bounds (covers va) l).
  destruct (covers va x); simpl; lia.
Qed.

Lemma flat_parts_covered start end_ l va : start < end_ ->
  covered_by (flat_map (parts start end_) l) va = covered_by l va && negb (in_interval start end_ va).
Proof.
  intros Hs. rewrite !covered_by_count, flat_parts_count by done. destruct (in_interval _ _ _); simpl; [by rewrite andb_false_r|by rewrite andb_true_r].
Qed.

Lemma parts_source start end_ x y : In y (parts start end_ x) ->
  y = x \/ (y = keep_head start x /\ first_of x < start < last_of x) \/ (y = keep_tail end_ x /\ first_of x < end_ < last_of x).
Proof.
  unfold parts, untouched. destruct ((last_of x <=? start) || (end_ <=? first_of x)) eqn:E; [intros [->|[]]; auto|].
  intros Hin. apply orb_false_iff in E as [E1 E2]. apply Z.leb_gt in E1, E2.
  apply in_app_or in Hin as [Hin|Hin].
  - destruct (Z.ltb_spec (first_of x) start); [|done]. destruct Hin as [<-|[]]. auto.
  - destruct (Z.ltb_spec end_ (last_of x)); [|done]. destruct Hin as [<-|[]]. auto.
Qed.
End Cuts.

Lemma holds_parts {A V} `{CarvableLaws A, !Valued A V, !ValuedLaws A V} start end_ (l : list A) va (v : V) : start < end_ ->
  holds (flat_map (parts start end_) l) va v <-> in_interval start end_ va = false /\ holds l va v.
Proof.
  intros Hs. split.
  - intros (y & Hin & Hc & Hv). apply in_flat_map in Hin as (x & Hin & Hy).
    pose proof (countZ_elem _ _ _ Hy Hc) as Hn. rewrite parts_count in Hn by done.
    destruct (covers va x) eqn:Ec, (in_interval start end_ va) eqn:Ei; simpl in Hn; try lia.
    split; [done|]. exists x. split; [done|]. split; [done|]. rewrite <- Hv.
    apply parts_source in Hy as [->|[[-> ?]|[-> ?]]]; [done| |]; symmetry.
    + apply value_head; [done|lia].
    + apply value_tail; [done|lia].
  - intros [Hi (x & Hin & Hc & Hv)]. pose proof (parts_count start end_ x va Hs) as Hn. rewrite Hc, Hi in Hn. simpl in Hn.
    destruct (countZ_exists (covers va) (parts start end_ x)) as (i & y & Hy & Hcy); [lia|]. apply lookupZ_elem in Hy.
    exists y. split; [apply in_flat_map; eauto|]. split; [done|]. rewrite <- Hv.
    apply parts_source in Hy as [->|[[-> ?]|[-> ?]]]; [done| |].
    + apply value_head; [done|lia].
    + apply value_tail; [done|lia].
Qed.

(** ** The loop, when there is room *)

Lemma carve_exact {A V} `{CarvableLaws A, !Valued A V, !ValuedLaws A V} room start end_ (l : list A) : start < end_ ->
  (forall n, n < lengthZ l + countZ (splits start end_) l -> room n = true) ->
  exists l', carve room start end_ l = Some l' /\ l' ≡ₚ flat_map (parts start end_) l /\
    (forall va (v : V), holds l' va v <-> in_interval start end_ va = false /\ holds l va v).
Proof.
  intros Hs Hroom. destruct (carve_spec room start end_ l Hroom) as (l' & Hl & Hp). exists l'. split; [done|]. split; [done|].
  intros va v. rewrite (holds_perm _ _ va v Hp). by apply holds_parts.
Qed.

(** ** Forgetting whole records *)

Section Drop.
Context {A : Type}.
Implicit Types (p : A -> bool) (l D R : list A).

(** [if (p(array\[i\])) array\[i\] = array\[--count\]; else i++;] *)
Fixpoint drop_loop p (fuel : nat) (i : Z) l : option (list A) :=
  match fuel with
  | O => None
  | S fuel =>
      match lookupZ l i with
      | None => Some l
      | Some x => if p x then drop_loop p fuel i (take_last l i) else drop_loop p fuel (i + 1) l
      end
  end.

Definition drop_matching p l : option (list A) := drop_loop p (S (length l)) 0 l.

Lemma drop_loop_spec p fuel : forall D R, (length R < fuel)%nat ->
  exists l', drop_loop p fuel (lengthZ D) (D ++ R) = Some l' /\ l' ≡ₚ D ++ List.filter (fun x => negb (p x)) R.
Proof.
  induction fuel as [|fuel IH]; intros D R Hf; [lia|]. cbn [drop_loop]. destruct R as [|x R].
  - rewrite app_nil_r. destruct (lookupZ D (lengthZ D)) eqn:E; [apply lookupZ_Some_range in E; lia|].
    exists D. split; [done|]. simpl. by rewrite app_nil_r.
  - rewrite lookupZ_middle. simpl. simpl in Hf. destruct (p x); simpl.
    + destruct (take_last_perm D x R) as (R' & -> & Hp). destruct (IH D R') as (l' & Hl & Hp').
      { rewrite (Permutation_length Hp). lia. }
      exists l'. split; [done|]. rewrite Hp'. f_equiv. clear -Hp. induction Hp; simpl; repeat case_match; eauto using perm_skip, perm_swap, perm_trans.
    + rewrite <- (snoc_lengthZ D x). replace (D ++ x :: R) with ((D ++ [x]) ++ R) by (by rewrite <- app_assoc).
      destruct (IH (D ++ [x]) R) as (l' & Hl & Hp'); [lia|]. exists l'. split; [done|]. by rewrite <- app_assoc in Hp'.
Qed.

Lemma drop_matching_spec p l : exists l', drop_matching p l = Some l' /\ l' ≡ₚ List.filter (fun x => negb (p x)) l.
Proof. apply (drop_loop_spec p (S (length l)) [] l). lia. Qed.
End Drop.
