(* ===== verification/GuestMaps.v ===== *)
(** * Guest mappings and memory locks

    [container/vfs/gmap.c]: the registry of guest mappings, the ownership of
    host mappings behind it, and the ranges the guest has locked.

    [None] is [abort()], or a loop out of its rounds.  An array that cannot
    grow aborts: the registry of mappings has no capacity here.  No record
    leaves the address space, so the end of one is a plain sum. *)

From S2P Require Import Prelude Status Host GuestRanges Carve.

Definition MLK_N : Z := 1024.
Definition HL_EXEC_MAPPING_CAPACITY : Z := 16384 + 32.

(** ** State *)

Record hl_gmap_entry := mk_gmap_entry {
  gm_address : Z;
  gm_length : Z;
  gm_guest_length : Z;
  gm_physical_address : Z;
  gm_physical_length : Z
}.

Record hl_exec_mapping := mk_exec_mapping {
  xm_address : Z;
  xm_length : Z;
  xm_handle : Z
}.

Record hl_gmap_lock_range := mk_lock_range {
  lk_low : Z;
  lk_high : Z
}.

(** What the registry asked of the host. *)
Inductive gmap_call :=
| Discarded (handle : Z)
| Released (handle : Z)
| Unmapped (first last : Z)
| Wired (address length : Z)
| Unwired (address length : Z).

(** [memlock] is the soft limit bound to the registry, if it is set. *)
Record hl_gmap_context := mk_gmap_context {
  mappings : list hl_gmap_entry;
  locks : list hl_gmap_lock_range;
  lock_all : bool;
  lock_future : bool;
  memlock : option Z;
  exec_mappings : list hl_exec_mapping;
  gmap_calls : list gmap_call
}.

(** The operations of [hl_host_services] and the page size of the host.
    [host_discard] answers a status, [host_wire] whether the pages are resident. *)
Record gmap_host := mk_gmap_host {
  host_discard : Z -> hl_status;
  host_wire : Z -> Z -> bool;
  host_granularity : Z
}.

Definition gmap_init : hl_gmap_context := mk_gmap_context [] [] false false None [] [].

Definition set_mappings (l : list hl_gmap_entry) (G : hl_gmap_context) : hl_gmap_context :=
  mk_gmap_context l (locks G) (lock_all G) (lock_future G) (memlock G) (exec_mappings G) (gmap_calls G).
Definition set_locks (l : list hl_gmap_lock_range) (G : hl_gmap_context) : hl_gmap_context :=
  mk_gmap_context (mappings G) l (lock_all G) (lock_future G) (memlock G) (exec_mappings G) (gmap_calls G).
Definition set_lock_flags (all future : bool) (G : hl_gmap_context) : hl_gmap_context :=
  mk_gmap_context (mappings G) (locks G) all future (memlock G) (exec_mappings G) (gmap_calls G).
Definition set_exec_mappings (l : list hl_exec_mapping) (calls : list gmap_call) (G : hl_gmap_context) : hl_gmap_context :=
  mk_gmap_context (mappings G) (locks G) (lock_all G) (lock_future G) (memlock G) l calls.
Definition set_gmap_calls (calls : list gmap_call) (G : hl_gmap_context) : hl_gmap_context :=
  set_exec_mappings (exec_mappings G) calls G.

Definition hl_gmap_host_release_span (address length granularity : Z) : option (Z * Z) :=
  if (length =? 0) || (granularity =? 0) || has_flag granularity (granularity - 1) || (UINT64_MAX - length <? address) then None
  else
    let low := Z.land address (UINT64_MAX - (granularity - 1)) in
    let high := address + length in
    if UINT64_MAX - (granularity - 1) <? high then None
    else
      let high := Z.land (high + granularity - 1) (UINT64_MAX - (granularity - 1)) in
      if high <=? low then None else Some (low, high).

Definition gmap_release_unowned (H : gmap_host) (address length : Z) (calls : list gmap_call) : list gmap_call :=
  match hl_gmap_host_release_span address length (host_granularity H) with
  | None => calls
  | Some (start, end_) => calls ++ [Unmapped start end_]
  end.

(** ** Ownership of host mappings *)

Definition hl_exec_mapping_add (address length host_mapping : Z) (G : hl_gmap_context) : bool * hl_gmap_context :=
  if (address =? 0) || (length =? 0) || (UINT64_MAX - length <? address) || (host_mapping =? HL_HOST_HANDLE_INVALID) ||
     (HL_EXEC_MAPPING_CAPACITY <=? lengthZ (exec_mappings G)) then (false, G)
  else if existsb (fun e => (address <? xm_address e + xm_length e) && (xm_address e <? address + length)) (exec_mappings G)
  then (false, G)
  else (true, set_exec_mappings (exec_mappings G ++ [mk_exec_mapping address length host_mapping]) (gmap_calls G) G).

(** A failed discard that is not [HL_STATUS_INVALID_ARGUMENT] aborts, and so
    does a split of a full table. *)
Fixpoint discard_loop (H : gmap_host) (fuel : nat) (address end_ index : Z) (l : list hl_exec_mapping) (calls : list gmap_call)
  : option (list hl_exec_mapping * list gmap_call) :=
  match fuel with
  | O => None
  | S fuel =>
      match lookupZ l index with
      | None => Some (l, calls)
      | Some entry =>
          let old_address := xm_address entry in
          let old_end := old_address + xm_length entry in
          if (end_ <=? old_address) || (old_end <=? address) then discard_loop H fuel address end_ (index + 1) l calls
          else
            calls ←
              (if xm_handle entry =? HL_HOST_HANDLE_INVALID then Some calls
               else
                 match host_discard H (xm_handle entry) with
                 | HL_STATUS_OK | HL_STATUS_INVALID_ARGUMENT => Some (calls ++ [Discarded (xm_handle entry)])
                 | _ => None
                 end);
            let keep_head := old_address <? address in
            let keep_tail := end_ <? old_end in
            if negb keep_head && negb keep_tail then discard_loop H fuel address end_ index (take_last l index) calls
            else
              let entry :=
                if keep_head then mk_exec_mapping old_address (address - old_address) HL_HOST_HANDLE_INVALID
                else mk_exec_mapping end_ (old_end - end_) HL_HOST_HANDLE_INVALID in
              let l := insertZ l index entry in
              if keep_head && keep_tail then
                if HL_EXEC_MAPPING_CAPACITY <=? lengthZ l then None
                else discard_loop H fuel address end_ (index + 1)
                       (l ++ [mk_exec_mapping end_ (old_end - end_) HL_HOST_HANDLE_INVALID]) calls
              else discard_loop H fuel address end_ (index + 1) l calls
      end
  end.

Definition hl_exec_mapping_discard_range (H : gmap_host) (address length : Z) (G : hl_gmap_context) : option hl_gmap_context :=
  if (length =? 0) || (UINT64_MAX - length <? address) then Some G
  else
    '(l, calls) ← discard_loop H (S (2 * List.length (exec_mappings G))) address (address + length) 0 (exec_mappings G) (gmap_calls G);
    Some (set_exec_mappings l calls G).

Definition hl_exec_mapping_reset (H : gmap_host) (G : hl_gmap_context) : hl_gmap_context :=
  set_exec_mappings []
    (foldl (fun calls e =>
        if xm_handle e =? HL_HOST_HANDLE_INVALID then gmap_release_unowned H (xm_address e) (xm_length e) calls
        else calls ++ [Released (xm_handle e)]) (gmap_calls G) (exec_mappings G)) G.

Definition hl_exec_mapping_owns (address length : Z) (G : hl_gmap_context) : bool :=
  if (length =? 0) || (UINT64_MAX - length <? address) then false
  else
    existsb (fun e => negb (xm_handle e =? HL_HOST_HANDLE_INVALID) && (xm_address e <=? address) &&
                      (address + length <=? xm_address e + xm_length e)) (exec_mappings G).

(** ** The registry of mappings *)

Definition same_address (address : Z) (e : hl_gmap_entry) : bool := gm_address e =? address.

Fixpoint last_index (p : hl_gmap_entry -> bool) (l : list hl_gmap_entry) (index : Z) : option Z :=
  match l with
  | [] => None
  | e :: l' =>
      match last_index p l' (index + 1) with
      | Some i => Some i
      | None => if p e then Some index else None
      end
  end.

Definition with_guest_length (n : Z) (e : hl_gmap_entry) : hl_gmap_entry :=
  mk_gmap_entry (gm_address e) (gm_length e) n (gm_physical_address e) (gm_physical_length e).

(** The scan runs from the tail. *)
Definition set_guest_length_in (address guest_length : Z) (l : list hl_gmap_entry) : list hl_gmap_entry :=
  match last_index (same_address address) l 0 with
  | Some i => match lookupZ l i with Some e => insertZ l i (with_guest_length guest_length e) | None => l end
  | None => l
  end.

(** [hl_gmap_split_range] appends the tail of a split record with
    [hl_gmap_add_physical], which splits the registry around the tail first. *)
Fixpoint split_loop (fuel : nat) (start end_ index : Z) (l : list hl_gmap_entry) : option (list hl_gmap_entry) :=
  match fuel with
  | O => None
  | S fuel =>
      match lookupZ l index with
      | None => Some l
      | Some entry =>
          let base := gm_address entry in
          let mapped_end := base + gm_length entry in
          let guest_end := base + (if gm_guest_length entry <? gm_length entry then gm_guest_length entry else gm_length entry) in
          let physical_start := gm_physical_address entry in
          let physical_end := physical_start + gm_physical_length entry in
          if (end_ <=? base) || (mapped_end <=? start) then split_loop fuel start end_ (index + 1) l
          else
            let keep_head := base <? start in
            let keep_tail := end_ <? mapped_end in
            if negb keep_head && negb keep_tail then split_loop fuel start end_ index (take_last l index)
            else
              let entry' :=
                if keep_head then
                  let head_length := start - base in
                  let guest_length := if base <? guest_end then guest_end - base else 0 in
                  mk_gmap_entry base head_length (if head_length <? guest_length then head_length else guest_length)
                    physical_start (start - physical_start)
                else
                  let tail_length := mapped_end - end_ in
                  let guest_length := if end_ <? guest_end then guest_end - end_ else 0 in
                  mk_gmap_entry end_ tail_length (if tail_length <? guest_length then tail_length else guest_length)
                    end_ (physical_end - end_) in
              let l := insertZ l index entry' in
              if keep_head && keep_tail then
                let tail_length := mapped_end - end_ in
                let tail_guest_length := if end_ <? guest_end then guest_end - end_ else 0 in
                let tail_guest_length := if tail_length <? tail_guest_length then tail_length else tail_guest_length in
                l ← add_physical_loop fuel end_ tail_length end_ (physical_end - end_) l;
                split_loop fuel start end_ (index + 1) (set_guest_length_in end_ tail_guest_length l)
              else split_loop fuel start end_ (index + 1) l
      end
  end
with add_physical_loop (fuel : nat) (address length physical_address physical_length : Z) (l : list hl_gmap_entry)
  : option (list hl_gmap_entry) :=
  match fuel with
  | O => None
  | S fuel =>
      if (address =? 0) || (length =? 0) || (UINT64_MAX - length <? address) || (physical_address =? 0) ||
         (physical_length =? 0) || (UINT64_MAX - physical_length <? physical_address) || (address <? physical_address) ||
         (physical_address + physical_length <? address + length) then Some l
      else
        l ← split_loop fuel address (address + length) 0 l;
        Some (l ++ [mk_gmap_entry address length length physical_address physical_length])
  end.

(** The rounds of a split, of the split nested in it and of its own tail. *)
Definition split_rounds (l : list hl_gmap_entry) : nat := 4 * length l + 8.

Definition hl_gmap_split_range (start end_ : Z) (G : hl_gmap_context) : option hl_gmap_context :=
  l ← split_loop (split_rounds (mappings G)) start end_ 0 (mappings G); Some (set_mappings l G).

Definition hl_gmap_add_physical (address length physical_address physical_length : Z) (G : hl_gmap_context)
  : option hl_gmap_context :=
  l ← add_physical_loop (S (split_rounds (mappings G))) address length physical_address physical_length (mappings G);
  Some (set_mappings l G).

Definition hl_gmap_add (address length : Z) (G : hl_gmap_context) : option hl_gmap_context :=
  hl_gmap_add_physical address length address length G.

Definition hl_gmap_set_guest_length (address guest_length : Z) (G : hl_gmap_context) : hl_gmap_context :=
  set_mappings (set_guest_length_in address guest_length (mappings G)) G.

Definition hl_gmap_supersede_range (start end_ : Z) (G : hl_gmap_context) : option hl_gmap_context :=
  if end_ <=? start then Some G else hl_gmap_split_range start end_ G.

Definition hl_gmap_unmap_range (H : gmap_host) (start end_ : Z) (G : hl_gmap_context) : option hl_gmap_context :=
  G ← (if start <? end_ then hl_exec_mapping_discard_range H start (end_ - start) G else Some G);
  hl_gmap_split_range start end_ G.

Definition hl_gmap_remove (H : gmap_host) (address : Z) (G : hl_gmap_context) : option hl_gmap_context :=
  match scan_from (same_address address) (mappings G) 0 with
  | None => Some G
  | Some index =>
      let length := default 0 (gm_length <$> lookupZ (mappings G) index) in
      G ← hl_exec_mapping_discard_range H address length G;
      Some (set_mappings (take_last (mappings G) index) G)
  end.

(** The first record that starts at an address. *)
Definition entry_from (address : Z) (G : hl_gmap_context) : option hl_gmap_entry :=
  i ← scan_from (same_address address) (mappings G) 0; lookupZ (mappings G) i.

Definition hl_gmap_count (G : hl_gmap_context) : Z := lengthZ (mappings G).
Definition hl_gmap_get (index : Z) (G : hl_gmap_context) : option hl_gmap_entry := lookupZ (mappings G) index.
Definition hl_gmap_find_length (address : Z) (G : hl_gmap_context) : Z := default 0 (gm_length <$> entry_from address G).
Definition hl_gmap_find_guest_length (address : Z) (G : hl_gmap_context) : Z :=
  default 0 (gm_guest_length <$> entry_from address G).
Definition hl_gmap_find_physical (address : Z) (G : hl_gmap_context) : option (Z * Z) :=
  (fun e => (gm_physical_address e, gm_physical_length e)) <$> entry_from address G.

(** Both tests follow the records that cover the address reached. *)
Fixpoint contains_loop (reach : hl_gmap_entry -> Z) (fuel : nat) (at_ end_ : Z) (l : list hl_gmap_entry) : option Z :=
  match fuel with
  | O => None
  | S fuel =>
      if at_ <? end_ then
        match scan_from (fun e => (gm_address e <=? at_) && (at_ <? reach e)) l 0 with
        | Some i => contains_loop reach fuel (default 0 (reach <$> lookupZ l i)) end_ l
        | None => Some at_
        end
      else Some at_
  end.

Definition contains_by (reach : hl_gmap_entry -> Z) (address length : Z) (l : list hl_gmap_entry) : option bool :=
  let end_ := u64 (address + length) in
  if end_ <? address then Some false
  else at_ ← contains_loop reach (2 + List.length l) address end_ l; Some (end_ <=? at_).

Definition gm_end (e : hl_gmap_entry) : Z := gm_address e + gm_length e.
Definition gm_guest_end (e : hl_gmap_entry) : Z := u64 (gm_address e + gm_guest_length e).

Definition hl_gmap_contains (address length : Z) (G : hl_gmap_context) : option bool :=
  contains_by gm_end address length (mappings G).
Definition hl_gmap_guest_contains (address length : Z) (G : hl_gmap_context) : option bool :=
  contains_by gm_guest_end address length (mappings G).

Definition hl_gmap_reset (H : gmap_host) (G : hl_gmap_context) : hl_gmap_context :=
  let calls :=
    foldl (fun calls e =>
        if hl_exec_mapping_owns (gm_address e) (gm_length e) G then calls
        else gmap_release_unowned H (gm_physical_address e) (gm_physical_length e) calls) (gmap_calls G) (mappings G) in
  set_mappings [] (hl_exec_mapping_reset H (set_gmap_calls calls G)).

(** [mapped] is what the host's [map_anonymous] answers: a status, a handle, an
    address and a size. *)
Definition hl_gmap_map_anonymous (mapped : hl_status * Z * Z * Z) (length : Z) (G : hl_gmap_context)
  : option (hl_status * option Z * hl_gmap_context) :=
  if length =? 0 then Some (HL_STATUS_INVALID_ARGUMENT, None, G)
  else
    let '(status, handle, address, size) := mapped in
    if negb (is_ok status) then Some (status, None, G)
    else
      let refuse (G : hl_gmap_context) :=
        Some (HL_STATUS_PLATFORM_FAILURE, None,
              if handle =? HL_HOST_HANDLE_INVALID then G else set_gmap_calls (gmap_calls G ++ [Released handle]) G) in
      if (handle =? HL_HOST_HANDLE_INVALID) || (address =? 0) || negb (size =? length) then refuse G
      else
        let '(added, G) := hl_exec_mapping_add address length handle G in
        if negb added then refuse G
        else G ← hl_gmap_add address length G; Some (HL_STATUS_OK, Some address, G).

(** ** Memory locks *)

Definition page_above (a : Z) : Z := page_base (u64 (a + 0xfff)).

#[export] Instance lock_carvable : Carvable hl_gmap_lock_range := {|
  first_of := lk_low;
  last_of := lk_high;
  keep_head low r := mk_lock_range (lk_low r) low;
  keep_tail high r := mk_lock_range high (lk_high r)
|}.

Definition hl_gmap_lock_remove (address length : Z) (G : hl_gmap_context) : option hl_gmap_context :=
  if (length =? 0) || (lengthZ (locks G) =? 0) then Some G
  else
    l ← carve (fun n => n <? MLK_N) (page_base address) (page_above (u64 (address + length))) (locks G);
    Some (set_locks l G).

Definition hl_gmap_lock_add (address length : Z) (G : hl_gmap_context) : option hl_gmap_context :=
  if length =? 0 then Some G
  else
    let low := page_base address in
    let high := page_above (u64 (address + length)) in
    if high <=? low then Some G
    else
      G ← hl_gmap_lock_remove low (high - low) G;
      Some (if MLK_N <=? lengthZ (locks G) then G else set_locks (locks G ++ [mk_lock_range low high]) G).

Definition hl_gmap_lock_reset (G : hl_gmap_context) : hl_gmap_context := set_lock_flags false false (set_locks [] G).

Definition nonempty_mapping (e : hl_gmap_entry) : bool := negb (gm_address e =? 0) && negb (gm_length e =? 0).

(** The number of mappings the host did not wire. *)
Definition hl_gmap_lock_wire_current (H : gmap_host) (G : hl_gmap_context) : Z * hl_gmap_context :=
  let wired := List.filter nonempty_mapping (mappings G) in
  (countZ (fun e => negb (host_wire H (gm_address e) (gm_length e))) wired,
   set_gmap_calls (gmap_calls G ++ map (fun e => Wired (gm_address e) (gm_length e)) wired) G).

Definition hl_gmap_lock_unwire_all (G : hl_gmap_context) : hl_gmap_context :=
  set_gmap_calls (gmap_calls G ++ map (fun e => Unwired (gm_address e) (gm_length e)) (List.filter nonempty_mapping (mappings G))) G.

Fixpoint sum_of {A} (f : A -> Z) (l : list A) : Z :=
  match l with
  | [] => 0
  | x :: l' => f x + sum_of f l'
  end.

(** The bytes of a range below [high] and from [low]. *)
Definition overlap_bytes (low high : Z) (r : hl_gmap_lock_range) : Z :=
  let start := if low <? lk_low r then lk_low r else low in
  let end_ := if lk_high r <? high then lk_high r else high in
  if start <? end_ then end_ - start else 0.

Definition hl_gmap_lock_region_bytes (low high : Z) (G : hl_gmap_context) : Z :=
  if high <=? low then 0
  else if lock_all G then high - low
  else u64 (sum_of (overlap_bytes low high) (locks G)).

Definition hl_gmap_locked_bytes (G : hl_gmap_context) : Z := u64 (sum_of (fun r => lk_high r - lk_low r) (locks G)).

Definition hl_gmap_lock_total_bytes (G : hl_gmap_context) : Z :=
  if lock_all G then u64 (sum_of gm_guest_length (mappings G)) else hl_gmap_locked_bytes G.

Definition hl_gmap_memlock_limit (G : hl_gmap_context) : Z := default UINT64_MAX (memlock G).

Definition hl_gmap_uncounted_bytes (address length : Z) (G : hl_gmap_context) : Z :=
  if length =? 0 then 0
  else
    let low := page_base address in
    if (UINT64_MAX - length <? address) || (UINT64_MAX - 0xfff <? address + length) then UINT64_MAX
    else
      let high := page_above (address + length) in
      if high <=? low then 0 else u64 (high - low - u64 (sum_of (overlap_bytes low high) (locks G))).

Definition EPERM : Z := 1.
Definition ENOMEM : Z := 12.

Definition hl_gmap_lock_limit_range (address length : Z) (G : hl_gmap_context) : Z :=
  let limit := hl_gmap_memlock_limit G in
  if limit =? UINT64_MAX then 0
  else if limit =? 0 then - EPERM
  else if length =? 0 then 0
  else
    let locked := hl_gmap_locked_bytes G in
    let additional := hl_gmap_uncounted_bytes address length G in
    if (limit <? additional) || (limit - additional <? locked) then - ENOMEM else 0.

Definition hl_gmap_lock_limit_all (G : hl_gmap_context) : Z :=
  let limit := hl_gmap_memlock_limit G in
  if limit =? UINT64_MAX then 0
  else if limit =? 0 then - EPERM
  else if limit <? u64 (sum_of gm_guest_length (mappings G)) then - ENOMEM else 0.

Definition hl_gmap_lock_future (G : hl_gmap_context) : bool := lock_future G.

Definition hl_gmap_lock_all (future : bool) (G : hl_gmap_context) : hl_gmap_context :=
  set_lock_flags true (if future then true else lock_future G) G.
