(* ===== verification/GuestMapsProofs.v ===== *)
(** * The registry of mappings is a set of addresses

    The records of [hl_gmap_context] never overlap, so the nested splits of
    [hl_gmap_split_range] are one pass of the loop of Carve.v, and the registry
    is the set of addresses the guest has mapped. *)

From Stdlib Require Import Permutation.
From S2P Require Import Prelude Status Host GuestRanges Carve GuestMaps.

(** ** Records *)

Definition guest_end_of (e : hl_gmap_entry) : Z :=
  gm_address e + (if gm_guest_length e <? gm_length e then gm_guest_length e else gm_length e).

Definition gmap_head (start : Z) (e : hl_gmap_entry) : hl_gmap_entry :=
  let head_length := start - gm_address e in
  let guest_length := if gm_address e <? guest_end_of e then guest_end_of e - gm_address e else 0 in
  mk_gmap_entry (gm_address e) head_length (if head_length <? guest_length then head_length else guest_length)
    (gm_physical_address e) (start - gm_physical_address e).

Definition gmap_tail (end_ : Z) (e : hl_gmap_entry) : hl_gmap_entry :=
  let tail_length := gm_address e + gm_length e - end_ in
  let guest_length := if end_ <? guest_end_of e then guest_end_of e - end_ else 0 in
  mk_gmap_entry end_ tail_length (if tail_length <? guest_length then tail_length else guest_length)
    end_ (gm_physical_address e + gm_physical_length e - end_).

#[export] Instance gmap_carvable : Carvable hl_gmap_entry := {|
  first_of := gm_address;
  last_of := gm_end;
  keep_head := gmap_head;
  keep_tail := gmap_tail
|}.
#[export] Instance gmap_carvable_laws : CarvableLaws hl_gmap_entry.
Proof. split; intros; unfold last_of, keep_head, keep_tail; simpl; unfold gm_end, gmap_head, gmap_tail; simpl; lia. Qed.

(** Whether the guest asked for the byte: it is no part of a guard tail. *)
#[export] Instance gmap_visible : Valued hl_gmap_entry bool := fun e va => va <? gm_address e + gm_guest_length e.
#[export] Instance gmap_visible_laws : ValuedLaws hl_gmap_entry bool.
Proof.
  split; intros ? va e; unfold covers, value_at, gmap_visible; simpl; unfold gm_end, gmap_head, gmap_tail; simpl; intros Hc Hin;
    apply andb_prop in Hc as [H1%Z.leb_le H2%Z.ltb_lt]; apply eq_true_iff_eq; rewrite !Z.ltb_lt; unfold guest_end_of in *;
    repeat case_match_goal; bool_props; lia.
Qed.

#[export] Instance lock_laws : CarvableLaws hl_gmap_lock_range.
Proof. by split. Qed.

Record mapping_ok (e : hl_gmap_entry) : Prop := mk_mapping_ok {
  mo_address : 0 < gm_address e;
  mo_length : 0 < gm_length e;
  mo_guest : 0 <= gm_guest_length e;
  mo_physical : 0 < gm_physical_address e <= gm_address e;
  mo_inside : gm_end e <= gm_physical_address e + gm_physical_length e <= UINT64_MAX
}.

Definition disjoint_records {A} `{Carvable A} (l : list A) : Prop := forall va, countZ (covers va) l <= 1.

Definition mappings_ok (l : list hl_gmap_entry) : Prop := Forall mapping_ok l /\ disjoint_records l.

Lemma disjoint_perm {A} `{Carvable A} (l l' : list A) : l ≡ₚ l' -> disjoint_records l -> disjoint_records l'.
Proof. intros Hp Hd va. rewrite <- (countZ_perm _ _ _ Hp). apply Hd. Qed.

Lemma mappings_ok_perm l l' : l ≡ₚ l' -> mappings_ok l -> mappings_ok l'.
Proof. intros Hp [Ho Hd]. split; [by rewrite <- Hp|by apply (disjoint_perm l)]. Qed.

Lemma parts_mapping_ok start end_ e : mapping_ok e -> Forall mapping_ok (parts start end_ e).
Proof.
  intros Ho. apply List.Forall_forall. intros y Hy. destruct Ho as [Ha Hl Hg Hp Hi]. unfold gm_end in *.
  apply parts_source in Hy as [->|[[-> Hy]|[-> Hy]]]; [by split| |]; simpl in Hy; unfold gm_end in Hy;
    (split; simpl; unfold gm_end, guest_end_of; simpl);
    repeat case_match_goal; bool_props; lia.
Qed.

Definition length_ok (e : hl_gmap_entry) : Prop := gm_guest_length e <= gm_length e.

Lemma parts_length_ok start end_ e : mapping_ok e -> length_ok e -> Forall length_ok (parts start end_ e).
Proof.
  intros [Ha Hl Hg _ _] Ho. apply List.Forall_forall. intros y Hy.
  apply parts_source in Hy as [->|[[-> Hy]|[-> Hy]]]; [done| |]; simpl in Hy; unfold gm_end, length_ok in *; simpl;
    repeat case_match_goal; bool_props; lia.
Qed.

Lemma flat_parts_disjoint {A} `{CarvableLaws A} start end_ (l : list A) : start < end_ -> disjoint_records l ->
  disjoint_records (flat_map (parts start end_) l).
Proof. intros Hs Hd va. rewrite flat_parts_count by done. specialize (Hd va). destruct (in_interval _ _ _); lia. Qed.

Lemma flat_parts_ok start end_ l : start < end_ -> mappings_ok l -> mappings_ok (flat_map (parts start end_) l).
Proof.
  intros Hs [Ho Hd]. split; [|by apply flat_parts_disjoint]. clear Hd.
  induction Ho as [|e l He _ IH]; simpl; [constructor|]. apply Forall_app. split; [by apply parts_mapping_ok|done].
Qed.

Lemma flat_parts_length_ok start end_ l : Forall mapping_ok l -> Forall length_ok l -> Forall length_ok (flat_map (parts start end_) l).
Proof.
  induction 1 as [|e l He _ IH]; simpl; [constructor|]. inversion_clear 1. apply Forall_app. split; [by apply parts_length_ok|auto].
Qed.

(** ** The nested split *)

(** A split that meets no record changes nothing. *)
Lemma split_loop_past start end_ fuel : forall D R, (length R < fuel)%nat ->
  (forall e, In e R -> untouched start end_ e = true) ->
  split_loop fuel start end_ (lengthZ D) (D ++ R) = Some (D ++ R).
Proof.
  induction fuel as [|fuel IH]; intros D R Hf Hr; [lia|]. cbn [split_loop]. destruct R as [|e R].
  - rewrite app_nil_r. destruct (lookupZ D (lengthZ D)) eqn:E; [apply lookupZ_Some_range in E; lia|done].
  - rewrite lookupZ_middle. specialize (Hr e (or_introl eq_refl)) as He. unfold untouched in He. simpl in He. unfold gm_end in He.
    rewrite orb_comm in He. rewrite He. rewrite <- (snoc_lengthZ D e).
    replace (D ++ e :: R) with ((D ++ [e]) ++ R) by (by rewrite <- app_assoc). apply IH; [simpl in Hf; lia|].
    intros y Hy. apply Hr. by right.
Qed.

Lemma last_index_snoc p l e i : p e = true -> last_index p (l ++ [e]) i = Some (i + lengthZ l).
Proof.
  revert i. induction l as [|x l IH]; intros i Hp; simpl; [rewrite Hp; f_equal; unfold lengthZ; simpl; lia|].
  rewrite IH by done. f_equal. rewrite lengthZ_cons. lia.
Qed.

Lemma set_guest_length_last address n l e : gm_address e = address ->
  set_guest_length_in address n (l ++ [e]) = l ++ [with_guest_length n e].
Proof.
  intros Ha. unfold set_guest_length_in. rewrite last_index_snoc by (unfold same_address; lia). rewrite Z.add_0_l.
  change (l ++ [e]) with (l ++ e :: []). by rewrite lookupZ_middle, insertZ_middle.
Qed.

(** Adding a mapping nothing overlaps. *)
Lemma add_physical_fresh fuel address length physical_address physical_length l :
  (List.length l + 1 < fuel)%nat ->
  mapping_ok (mk_gmap_entry address length length physical_address physical_length) ->
  (forall e, In e l -> untouched address (address + length) e = true) ->
  add_physical_loop fuel address length physical_address physical_length l =
    Some (l ++ [mk_gmap_entry address length length physical_address physical_length]).
Proof.
  intros Hf [Ha Hl Hg Hp Hi] Hu. unfold gm_end in Hi. simpl in *. destruct fuel as [|fuel]; [lia|]. cbn [add_physical_loop].
  unfold UINT64_MAX in *.
  rewrite !(proj2 (Z.eqb_neq _ _)), !(proj2 (Z.ltb_ge _ _)) by lia. simpl.
  change l with ([] ++ l) at 1. change 0 with (lengthZ (@nil hl_gmap_entry)).
  by rewrite split_loop_past by (done || lia).
Qed.

(** Two of several disjoint records do not meet. *)
Lemma disjoint_apart D (x : hl_gmap_entry) R y start end_ : mappings_ok (D ++ x :: R) -> In y (D ++ R) ->
  gm_address x <= start -> end_ <= gm_end x -> start < end_ -> untouched start end_ y = true.
Proof.
  intros [Ho Hd] Hin Hs He Hlt.
  assert (Hy : gm_address y < gm_end y).
  { pose proof (proj1 (List.Forall_forall _ _) Ho y) as [_ Hl _ _ _]; [|unfold gm_end; lia].
    apply in_app_or in Hin as [Hin|Hin]; apply in_or_app; [by left|right; by right]. }
  unfold untouched. simpl. apply orb_true_iff.
  destruct (Z.leb_spec (gm_end y) start), (Z.leb_spec end_ (gm_address y)); auto. exfalso.
  specialize (Hd (Z.max (gm_address y) start)). rewrite countZ_app in Hd. simpl in Hd.
  assert (Hx : covers (Z.max (gm_address y) start) x = true) by (unfold covers; simpl; lia).
  rewrite Hx in Hd.
  assert (Hc : covers (Z.max (gm_address y) start) y = true) by (unfold covers; simpl; lia).
  pose proof (countZ_bounds (covers (Z.max (gm_address y) start)) D). pose proof (countZ_bounds (covers (Z.max (gm_address y) start)) R).
  apply in_app_or in Hin as [Hin|Hin]; pose proof (countZ_elem _ _ _ Hin Hc); lia.
Qed.

Lemma replace_by_parts start end_ D x R : start < end_ -> disjoint_records (D ++ x :: R) -> untouched start end_ x = false ->
  forall l, l ≡ₚ D ++ parts start end_ x ++ R -> disjoint_records l.
Proof.
  intros Hs Hd Hx l Hp va. rewrite (countZ_perm _ _ _ Hp). specialize (Hd va). rewrite !countZ_app, parts_count in * by done.
  simpl in Hd. destruct (covers va x), (in_interval start end_ va); simpl; lia.
Qed.

(** ** The split is one pass of the loop of Carve.v *)

Lemma split_loop_carve start end_ fuel : start < end_ -> forall D R, mappings_ok (D ++ R) ->
  lengthZ R + countZ (splits start end_) R + lengthZ (D ++ R) + countZ (splits start end_) R + 4 < Z.of_nat fuel ->
  split_loop fuel start end_ (lengthZ D) (D ++ R) = carve_loop fuel (fun _ => true) start end_ (lengthZ D) (D ++ R).
Proof.
  intros Hs. induction fuel as [|fuel IH]; intros D R Hok Hf; [done|]. cbn [split_loop carve_loop].
  destruct R as [|x R].
  { rewrite app_nil_r. destruct (lookupZ D (lengthZ D)) eqn:E; [apply lookupZ_Some_range in E; lia|done]. }
  rewrite lookupZ_middle. rewrite lengthZ_cons, lengthZ_app, lengthZ_cons in Hf. cbn [countZ] in Hf.
  pose proof (countZ_bounds (splits start end_) R) as Hcb. pose proof (lengthZ_nonneg R). pose proof (lengthZ_nonneg D).
  assert (Hpass : forall y, mappings_ok ((D ++ [y]) ++ R) ->
            split_loop fuel start end_ (lengthZ D + 1) (D ++ y :: R) = carve_loop fuel (fun _ => true) start end_ (lengthZ D + 1) (D ++ y :: R)).
  { intros y Hy. rewrite <- (snoc_lengthZ D y). replace (D ++ y :: R) with ((D ++ [y]) ++ R) by (by rewrite <- app_assoc).
    apply IH; [done|]. rewrite lengthZ_app, snoc_lengthZ. destruct (splits start end_ x); lia. }
  fold (gm_end x). fold (guest_end_of x). unfold untouched at 1. simpl first_of. simpl last_of.
  rewrite (orb_comm (end_ <=? _)). destruct ((gm_end x <=? start) || (end_ <=? gm_address x)) eqn:Eu.
  { apply Hpass. by rewrite <- app_assoc. }
  assert (Hux : untouched start end_ x = false) by done.
  assert (Hparts : forall l, l ≡ₚ D ++ parts start end_ x ++ R -> mappings_ok l).
  { intros l Hp. split.
    - rewrite Hp. destruct Hok as [Ho _]. apply Forall_app in Ho as [HoD Ho]. inversion_clear Ho as [|? ? Hox HoR].
      apply Forall_app. split; [done|]. apply Forall_app. split; [by apply parts_mapping_ok|done].
    - by apply (replace_by_parts start end_ D x R); [done|apply Hok| |]. }
  apply orb_false_iff in Eu as [E1%Z.leb_gt E2%Z.leb_gt].
  unfold parts in Hparts. rewrite Hux in Hparts. simpl first_of in Hparts. simpl last_of in Hparts.
  destruct (gm_address x <? start) eqn:Eh, (end_ <? gm_end x) eqn:Et; cbn [negb andb].
  - rewrite !insertZ_middle. change (keep_head start x) with (gmap_head start x) in *. change (keep_tail end_ x) with (gmap_tail end_ x) in *.
    assert (Es : splits start end_ x = true) by (unfold splits; rewrite Hux; simpl; by rewrite Eh, Et).
    rewrite Es in Hf. apply Z.ltb_lt in Eh, Et. fold (gmap_head start x).
    pose proof (Hparts (D ++ [gmap_head start x] ++ R ++ [gmap_tail end_ x])) as Hnew.
    specialize (Hnew ltac:(simpl; do 2 f_equiv; by rewrite Permutation_app_comm)).
    rewrite add_physical_fresh.
    + cbn [mbind option_bind]. rewrite set_guest_length_last by done. unfold with_guest_length.
      change (mk_gmap_entry _ _ _ _ _) with (gmap_tail end_ x). rewrite <- (snoc_lengthZ D (gmap_head start x)).
      replace ((D ++ gmap_head start x :: R) ++ [gmap_tail end_ x]) with ((D ++ [gmap_head start x]) ++ R ++ [gmap_tail end_ x])
        by (by rewrite <- !app_assoc).
      destruct (parts_tail start end_ x) as [_ Hst]. change (keep_tail end_ x) with (gmap_tail end_ x) in Hst.
      apply IH; [by rewrite <- app_assoc|].
      rewrite !lengthZ_app, countZ_app. simpl. rewrite Hst.
      change (lengthZ [gmap_tail end_ x]) with 1. change (lengthZ [gmap_head start x]) with 1. lia.
    + rewrite length_app. simpl. unfold lengthZ in *. lia.
    + destruct Hnew as [Ho _]. destruct Hok as [Hok _]. apply Forall_app in Hok as [_ Hok]. inversion_clear Hok as [|? ? Hx _].
      destruct Hx as [Ha Hl Hg Hp Hi]. unfold gm_end in *. split; simpl; unfold gm_end; simpl; lia.
    + intros e He. apply in_app_or in He as [He|[<-|He]].
      * apply (disjoint_apart D x R); [done|apply in_or_app; by left|lia|unfold gm_end; lia|lia].
      * unfold untouched. simpl. unfold gm_end, gmap_head. simpl. apply orb_true_iff. left. lia.
      * apply (disjoint_apart D x R); [done|apply in_or_app; by right|lia|unfold gm_end; lia|lia].
  - rewrite !insertZ_middle. apply Hpass. apply Hparts. simpl. by rewrite <- app_assoc.
  - rewrite !insertZ_middle. apply Hpass. apply Hparts. simpl. by rewrite <- app_assoc.
  - destruct (take_last_perm D x R) as (R' & -> & Hp). apply IH.
    + apply Hparts. simpl. by rewrite Hp.
    + rewrite lengthZ_app. unfold lengthZ at 1 3. rewrite (Permutation_length Hp), (countZ_perm _ _ _ Hp). fold (lengthZ R).
      destruct (splits start end_ x); lia.
Qed.

(** ** Calls on the registry *)

Definition gmap_ok (G : hl_gmap_context) : Prop := mappings_ok (mappings G).

(** [hl_gmap_split_range] forgets the interval and nothing else. *)
Lemma split_range_spec start end_ G : start < end_ -> gmap_ok G ->
  exists l, hl_gmap_split_range start end_ G = Some (set_mappings l G) /\ mappings_ok l /\
    (Forall length_ok (mappings G) -> Forall length_ok l) /\
    forall va v, holds l va v <-> in_interval start end_ va = false /\ holds (mappings G) va v.
Proof.
  intros Hs Hok. unfold hl_gmap_split_range, gmap_ok in *. set (l := mappings G) in *.
  assert (Hn : countZ (splits start end_) l <= 1) by (apply splits_at_most_one; [done|apply Hok]).
  pose proof (split_loop_carve start end_ (split_rounds l) Hs [] l Hok) as Hc. change (lengthZ []) with 0 in Hc. simpl in Hc.
  rewrite Hc by (unfold split_rounds, lengthZ; lia).
  destruct (carve_loop_spec (fun _ => true) start end_ (split_rounds l) [] l) as (l' & Hl & Hp); [unfold split_rounds, lengthZ; lia|done|].
  change (lengthZ []) with 0 in Hl. simpl in Hl, Hp. rewrite Hl. cbn [mbind option_bind]. exists l'. split; [done|].
  split; [apply (mappings_ok_perm _ _ (symmetry Hp)); by apply flat_parts_ok|].
  split; [intros Hlen; rewrite Hp; apply flat_parts_length_ok; [apply Hok|done]|].
  intros va v. rewrite (holds_perm _ _ va v Hp). by apply holds_parts.
Qed.

(** The guards of [hl_gmap_add_physical]. *)
Definition mapping_valid (address length physical_address physical_length : Z) : Prop :=
  mapping_ok (mk_gmap_entry address length length physical_address physical_length).

Lemma mapping_valid_same address length : 0 < address -> 0 < length -> address + length <= UINT64_MAX ->
  mapping_valid address length address length.
Proof. intros. split; simpl; unfold gm_end; simpl; lia. Qed.

(** A mapping takes the place of what its addresses held. *)
Lemma add_physical_spec address length physical_address physical_length G :
  gmap_ok G -> mapping_valid address length physical_address physical_length ->
  exists l, hl_gmap_add_physical address length physical_address physical_length G = Some (set_mappings l G) /\ mappings_ok l /\
    (Forall length_ok (mappings G) -> Forall length_ok l) /\ (exists l0, l = l0 ++ [mk_gmap_entry address length length physical_address physical_length]) /\
    forall va v, holds l va v <->
      if in_interval address (address + length) va then v = true else holds (mappings G) va v.
Proof.
  intros Hok Hv. pose proof Hv as [Ha Hl Hg Hp Hi]. unfold gm_end in Hi. simpl in *.
  destruct (split_range_spec address (address + length) G) as (l0 & Hl0 & Hok0 & Hlen0 & Hh0); [lia|done|].
  unfold hl_gmap_split_range in Hl0. unfold hl_gmap_add_physical. cbn [add_physical_loop].
  unfold UINT64_MAX in *. rewrite !(proj2 (Z.eqb_neq _ _)), !(proj2 (Z.ltb_ge _ _)) by lia. simpl orb. cbn [negb].
  destruct (split_loop (split_rounds (mappings G)) _ _ _ _) as [l1|]; [|done]. cbn [mbind option_bind] in *.
  assert (l1 = l0) as -> by (by injection Hl0).
  set (new := mk_gmap_entry address length length physical_address physical_length).
  assert (Hholds : forall va v, holds (l0 ++ [new]) va v <-> if in_interval address (address + length) va then v = true else holds (mappings G) va v).
  { intros va v. rewrite holds_app, holds_single, Hh0. change (covers va new) with (in_interval address (address + length) va).
    destruct (in_interval address (address + length) va) eqn:Ei.
    - assert (Hval : value_at new va = true) by (unfold value_at, gmap_visible, in_interval, new in *; simpl; lia). rewrite Hval.
      split; [by intros [[]|[_ ->]]|by right].
    - split; [by intros [[]|[]]|by left]. }
  exists (l0 ++ [new]). split; [done|]. split; [split|].
  - apply Forall_app. split; [apply Hok0|]. by constructor.
  - intros va. destruct Hok0 as [_ Hd]. specialize (Hd va). rewrite countZ_app. simpl.
    change (covers va new) with (in_interval address (address + length) va). destruct (in_interval address (address + length) va) eqn:Ei; [|lia].
    assert (countZ (covers va) l0 = 0); [|lia]. apply countZ_none. intros x Hx. destruct (covers va x) eqn:Ec; [|done].
    assert (Hcontra : in_interval address (address + length) va = false); [|congruence].
    apply (Hh0 va (value_at x va)). by exists x.
  - split; [|by split; [exists l0|]]. intros Hlen. apply Forall_app. split; [by apply Hlen0|]. constructor; [unfold length_ok; simpl; lia|done].
Qed.

(** A new mapping is the last record: its length can be set at once. *)
Lemma set_guest_length_new address length guest_length physical_address physical_length l G :
  hl_gmap_set_guest_length address guest_length
    (set_mappings (l ++ [mk_gmap_entry address length length physical_address physical_length]) G) =
  set_mappings (l ++ [mk_gmap_entry address length guest_length physical_address physical_length]) G.
Proof. unfold hl_gmap_set_guest_length. simpl. by rewrite set_guest_length_last. Qed.

(** ** The union of the records *)

Section Contains.
Variable reach : hl_gmap_entry -> Z.
Implicit Types (l : list hl_gmap_entry).

Definition reached (va : Z) (e : hl_gmap_entry) : bool := (gm_address e <=? va) && (va <? reach e).

Lemma countZ_le_pointwise {A} (p q : A -> bool) (k : list A) : (forall x, In x k -> p x = true -> q x = true) -> countZ p k <= countZ q k.
Proof.
  induction k as [|x k IH]; intros Hpq; simpl; [lia|]. specialize (IH (fun y Hy => Hpq y (or_intror Hy))).
  specialize (Hpq x (or_introl eq_refl)). destruct (p x); [rewrite Hpq by done; lia|]. destruct (q x); lia.
Qed.

Lemma countZ_lt_pointwise {A} (p q : A -> bool) (k : list A) x : (forall y, In y k -> p y = true -> q y = true) ->
  In x k -> p x = false -> q x = true -> countZ p k < countZ q k.
Proof.
  intros Hpq Hin Hp Hq. apply in_split in Hin as (k1 & k2 & ->).
  assert (H1 : countZ p k1 <= countZ q k1) by (apply countZ_le_pointwise; intros y Hy; apply Hpq, in_or_app; by left).
  assert (H2 : countZ p k2 <= countZ q k2) by (apply countZ_le_pointwise; intros y Hy; apply Hpq, in_or_app; right; by right).
  rewrite !countZ_app. simpl. rewrite Hp, Hq. lia.
Qed.

(** The walk ends at the first address no record reaches, or past the end. *)
Lemma contains_loop_spec fuel : forall at_ end_ l, countZ (fun e => at_ <? reach e) l < Z.of_nat fuel ->
  exists at', contains_loop reach fuel at_ end_ l = Some at' /\ at_ <= at' /\
    (forall va, at_ <= va < at' -> existsb (reached va) l = true) /\ (end_ <= at' \/ existsb (reached at') l = false).
Proof.
  induction fuel as [|fuel IH]; intros at_ end_ l Hf; [pose proof (countZ_bounds (fun e => at_ <? reach e) l); lia|].
  cbn [contains_loop]. destruct (Z.ltb_spec at_ end_) as [Hlt|Hge].
  2:{ exists at_. split; [done|]. split; [lia|]. split; [intros; lia|auto]. }
  destruct (scan_from _ l 0) as [i|] eqn:Ei.
  - apply scan_from_Some in Ei as (_ & (e & He & Hr) & _). rewrite Z.sub_0_r in He. rewrite He. simpl.
    apply lookupZ_elem in He. fold (reached at_ e) in Hr. pose proof Hr as Hr'. unfold reached in Hr'.
    apply andb_prop in Hr' as [Hr1%Z.leb_le Hr2%Z.ltb_lt].
    destruct (IH (reach e) end_ l) as (at' & Hat & Hle & Hcov & Hend).
    { enough (Hlt' : countZ (fun x => reach e <? reach x) l < countZ (fun x => at_ <? reach x) l) by lia.
      apply (countZ_lt_pointwise _ _ l e); [|done|apply Z.ltb_irrefl|by apply Z.ltb_lt].
      intros y _ Hy%Z.ltb_lt. apply Z.ltb_lt. lia. }
    exists at'. split; [done|]. split; [lia|]. split; [|done]. intros va Hva.
    destruct (Z.lt_ge_cases va (reach e)); [|by apply Hcov; lia].
    apply existsb_exists. exists e. split; [done|]. unfold reached. lia.
  - exists at_. split; [done|]. split; [lia|]. split; [intros; lia|]. right.
    apply not_true_iff_false. intros (e & Hin & He)%existsb_exists. apply elem_lookupZ in Hin as [j Hj].
    pose proof (scan_from_None _ _ _ Ei j e Hj) as Hn. unfold reached in He. congruence.
Qed.

Lemma contains_by_spec address length l : 0 <= address < 2 ^ 64 -> 0 <= length < 2 ^ 64 ->
  exists b, contains_by reach address length l = Some b /\
    (b = true <-> address + length < 2 ^ 64 /\ forall va, address <= va < address + length -> existsb (reached va) l = true).
Proof.
  intros Ha Hl. unfold contains_by. destruct (Z.lt_ge_cases (address + length) (2 ^ 64)) as [Hw|Hw].
  - rewrite u64_small by lia. destruct (Z.ltb_spec (address + length) address); [lia|].
    destruct (contains_loop_spec (2 + List.length l) address (address + length) l) as (at' & -> & Hle & Hcov & Hend).
    { pose proof (countZ_bounds (fun e => address <? reach e) l). unfold lengthZ in *. lia. }
    cbn [mbind option_bind]. eexists. split; [done|]. rewrite Z.leb_le. split.
    + intros Hge. split; [done|]. intros va Hva. apply Hcov. lia.
    + intros [_ Hall]. destruct Hend as [Hend|Hend]; [done|]. destruct (Z.lt_ge_cases at' (address + length)); [|lia].
      rewrite Hall in Hend by lia. done.
  - assert (Hu : u64 (address + length) = address + length - 2 ^ 64).
    { unfold u64. symmetry. apply (Zmod_unique _ _ 1); lia. }
    rewrite Hu. destruct (Z.ltb_spec (address + length - 2 ^ 64) address); [|lia]. exists false. split; [done|]. split; [done|lia].
Qed.
End Contains.

(** The bytes of the registry. *)
Definition mapped (G : hl_gmap_context) (va : Z) : bool := covered_by (mappings G) va.

Lemma mapped_holds G va : mapped G va = true <-> exists v, holds (mappings G) va v.
Proof.
  unfold mapped, covered_by. rewrite existsb_exists. split.
  - intros (e & Hin & Hc). by exists (value_at e va), e.
  - intros (v & e & Hin & Hc & _). eauto.
Qed.

(** ** Locked bytes *)

(** The number of addresses of [low, low + n) that satisfy [p]. *)
Fixpoint bytes_in (p : Z -> bool) (low : Z) (n : nat) : Z :=
  match n with
  | O => 0
  | S n => bytes_in p low n + (if p (low + Z.of_nat n) then 1 else 0)
  end.

Lemma bytes_in_ext p q low n : (forall va, low <= va < low + Z.of_nat n -> p va = q va) -> bytes_in p low n = bytes_in q low n.
Proof.
  induction n as [|n IH]; intros Hpq; [done|]. simpl. rewrite IH by (intros; apply Hpq; lia). by rewrite Hpq by lia.
Qed.

Lemma bytes_in_split p low n m : bytes_in p low (n + m) = bytes_in p low n + bytes_in p (low + Z.of_nat n) m.
Proof.
  induction m as [|m IH]; [simpl; rewrite Nat.add_0_r; lia|]. rewrite Nat.add_succ_r. simpl. rewrite IH.
  replace (low + Z.of_nat (n + m)) with (low + Z.of_nat n + Z.of_nat m) by lia. lia.
Qed.

Lemma bytes_in_bounds p low n : 0 <= bytes_in p low n <= Z.of_nat n.
Proof. induction n as [|n IH]; simpl; [lia|]. destruct (p _); lia. Qed.

Lemma bytes_in_none p low n : (forall va, low <= va < low + Z.of_nat n -> p va = false) -> bytes_in p low n = 0.
Proof. induction n as [|n IH]; intros H; [done|]. simpl. rewrite IH by (intros; apply H; lia). by rewrite H by lia. Qed.

Lemma bytes_in_all p low n : (forall va, low <= va < low + Z.of_nat n -> p va = true) -> bytes_in p low n = Z.of_nat n.
Proof. induction n as [|n IH]; intros H; [done|]. simpl bytes_in. rewrite IH by (intros; apply H; lia). rewrite H by lia. lia. Qed.

Lemma overlap_bytes_count low n r : overlap_bytes low (low + Z.of_nat n) r = bytes_in (fun va => covers va r) low n.
Proof.
  unfold overlap_bytes, covers. simpl. induction n as [|n IH].
  - simpl. repeat case_match_goal; bool_props; lia.
  - simpl bytes_in. rewrite <- IH. clear IH. repeat case_match_goal; bool_props; try lia.
Qed.

Lemma sum_of_count low n (l : list hl_gmap_lock_range) : disjoint_records l ->
  sum_of (overlap_bytes low (low + Z.of_nat n)) l = bytes_in (covered_by l) low n.
Proof.
  induction l as [|r l IH]; intros Hd; [simpl; symmetry; by apply bytes_in_none|]. cbn [sum_of].
  assert (Hd' : disjoint_records l).
  { intros va. specialize (Hd va). simpl in Hd. pose proof (countZ_bounds (covers va) l). destruct (covers va r); lia. }
  rewrite IH, overlap_bytes_count by done. clear IH Hd'. induction n as [|n IH]; [done|]. simpl bytes_in.
  rewrite <- IH. specialize (Hd (low + Z.of_nat n)). simpl in Hd.
  change (covered_by (r :: l) ?va) with (covers va r || covered_by l va).
  pose proof (covered_by_count l (low + Z.of_nat n)) as Hc. destruct (covers (low + Z.of_nat n) r); simpl; [|lia].
  rewrite Hc. destruct (Z.leb_spec 1 (countZ (covers (low + Z.of_nat n)) l)); lia.
Qed.

(** The table of locks: whole pages below the last one, none twice. *)
Definition lock_ok (r : hl_gmap_lock_range) : Prop := 0 <= lk_low r < lk_high r /\ lk_high r < 2 ^ 64.
Definition locks_ok (G : hl_gmap_context) : Prop := Forall lock_ok (locks G) /\ disjoint_records (locks G).
Definition locked (G : hl_gmap_context) (va : Z) : bool := covered_by (locks G) va.

(** The bytes of the table in an interval. *)
Definition locked_in (G : hl_gmap_context) (low high : Z) : Z := bytes_in (locked G) low (Z.to_nat (high - low)).

Lemma region_sum low high G : locks_ok G -> low <= high -> sum_of (overlap_bytes low high) (locks G) = locked_in G low high.
Proof.
  intros [_ Hd] Hl. unfold locked_in. change (locked G) with (covered_by (locks G)). rewrite <- sum_of_count by done. by replace (low + Z.of_nat (Z.to_nat (high - low))) with high by lia.
Qed.

Lemma total_sum G : locks_ok G -> sum_of (fun r => lk_high r - lk_low r) (locks G) = locked_in G 0 (2 ^ 64).
Proof.
  intros Hok. rewrite <- region_sum by (done || lia). destruct Hok as [Ho _].
  induction Ho as [|r l [Hr Hr'] _ IH]; [done|]. cbn [sum_of]. rewrite IH. f_equal. unfold overlap_bytes.
  repeat case_match_goal; bool_props; lia.
Qed.

Lemma locked_in_bounds G low high : low <= high -> 0 <= locked_in G low high <= high - low.
Proof. intros Hl. unfold locked_in. pose proof (bytes_in_bounds (locked G) low (Z.to_nat (high - low))). lia. Qed.

Lemma locked_in_split G low mid high : low <= mid <= high -> locked_in G low high = locked_in G low mid + locked_in G mid high.
Proof.
  intros Hm. unfold locked_in. replace (Z.to_nat (high - low)) with (Z.to_nat (mid - low) + Z.to_nat (high - mid))%nat by lia.
  rewrite bytes_in_split. do 2 f_equal. lia.
Qed.

(** No lock reaches the last byte. *)
Lemma locked_total_small G : locks_ok G -> locked_in G 0 (2 ^ 64) < 2 ^ 64.
Proof.
  intros [Ho _]. rewrite (locked_in_split G 0 (2 ^ 64 - 1)) by lia.
  pose proof (locked_in_bounds G 0 (2 ^ 64 - 1) ltac:(lia)). enough (locked_in G (2 ^ 64 - 1) (2 ^ 64) = 0) by lia.
  apply bytes_in_none. intros va Hva. apply not_true_iff_false. intros (r & Hin & Hc)%existsb_exists.
  pose proof (proj1 (List.Forall_forall _ _) Ho r Hin) as [_ Hh]. unfold covers in Hc. simpl in Hc. lia.
Qed.

Lemma locked_bytes_exact G : locks_ok G -> hl_gmap_locked_bytes G = locked_in G 0 (2 ^ 64).
Proof.
  intros Hok. unfold hl_gmap_locked_bytes. rewrite total_sum by done. apply u64_small.
  pose proof (locked_in_bounds G 0 (2 ^ 64) ltac:(lia)). pose proof (locked_total_small G Hok). lia.
Qed.

Lemma lock_ok_parts start end_ r : lock_ok r -> Forall lock_ok (parts start end_ r).
Proof.
  intros [H1 H2]. apply List.Forall_forall. intros y Hy.
  apply parts_source in Hy as [->|[[-> Hy]|[-> Hy]]]; simpl in *; unfold lock_ok; simpl; lia.
Qed.

Lemma flat_parts_locks_ok start end_ l : Forall lock_ok l -> Forall lock_ok (flat_map (parts start end_) l).
Proof. induction 1; simpl; [constructor|]. apply Forall_app. split; [by apply lock_ok_parts|done]. Qed.

Lemma page_above_eq a : 0 <= a -> a + 4095 < 2 ^ 64 -> page_above a = 4096 * ((a + 4095) / 4096).
Proof. intros Ha Hw. unfold page_above. rewrite u64_small, page_base_eq by lia. done. Qed.

(** A page range a lock call names. *)
Definition lock_range_ok (address length : Z) : Prop := 0 <= address /\ 0 < length /\ address + length + 4095 < 2 ^ 64.
Definition in_pages (address length va : Z) : bool := in_interval (4096 * (address / 4096)) (4096 * ((address + length + 4095) / 4096)) va.

Lemma lock_pages address length : lock_range_ok address length ->
  page_base address = 4096 * (address / 4096) /\ page_above (u64 (address + length)) = 4096 * ((address + length + 4095) / 4096) /\
  0 <= page_base address < page_above (u64 (address + length)) /\ page_above (u64 (address + length)) < 2 ^ 64.
Proof.
  intros (Ha & Hl & Hw). rewrite (u64_small (address + length)), page_base_eq, page_above_eq by lia. split; [done|]. split; [done|].
  div_lia.
Qed.

Lemma carve_locks start end_ G : start < end_ -> locks_ok G -> lengthZ (locks G) < MLK_N ->
  exists l, carve (fun n => n <? MLK_N) start end_ (locks G) = Some l /\ locks_ok (set_locks l G) /\ lengthZ l <= lengthZ (locks G) + 1 /\
    forall va, covered_by l va = locked G va && negb (in_interval start end_ va).
Proof.
  intros Hs [Ho Hd] Hroom.
  assert (Hn : countZ (splits start end_) (locks G) <= 1) by (by apply splits_at_most_one).
  destruct (carve_spec (fun n => n <? MLK_N) start end_ (locks G)) as (l & Hl & Hp); [intros n Hlt; apply Z.ltb_lt; lia|].
  exists l. split; [done|]. split; [split; simpl|split].
  - rewrite Hp. by apply flat_parts_locks_ok.
  - apply (disjoint_perm _ _ (symmetry Hp)). by apply flat_parts_disjoint.
  - unfold lengthZ at 1. rewrite (Permutation_length Hp). pose proof (parts_length start end_ (locks G)). unfold lengthZ in *. lia.
  - intros va. rewrite (covered_by_perm _ _ va Hp). by apply flat_parts_covered.
Qed.

Lemma set_locks_id G : set_locks (locks G) G = G.
Proof. by destruct G. Qed.

(** [hl_gmap_lock_remove] unlocks the pages of its range. *)
Lemma lock_remove_spec address length G : lock_range_ok address length -> locks_ok G -> lengthZ (locks G) < MLK_N ->
  exists l, hl_gmap_lock_remove address length G = Some (set_locks l G) /\ locks_ok (set_locks l G) /\ lengthZ l <= lengthZ (locks G) + 1 /\
    forall va, covered_by l va = locked G va && negb (in_pages address length va).
Proof.
  intros Hr Hok Hroom. destruct (lock_pages address length Hr) as (H1 & H2 & H3 & H4). destruct Hr as (Ha & Hl & Hw).
  unfold hl_gmap_lock_remove. destruct (Z.eqb_spec length 0); [lia|]. simpl.
  destruct (Z.eqb_spec (lengthZ (locks G)) 0) as [Hz|Hz].
  - exists (locks G). rewrite set_locks_id. split; [done|]. split; [done|]. split; [lia|]. intros va. unfold locked.
    destruct (locks G); [done|]. rewrite lengthZ_cons in Hz. pose proof (lengthZ_nonneg l). lia.
  - destruct (carve_locks (page_base address) (page_above (u64 (address + length))) G) as (l & Hc & Ho & Hlen & Hcov); [lia|done|done|].
    rewrite Hc. cbn [mbind option_bind]. exists l. split; [done|]. split; [done|]. split; [done|]. intros va. rewrite Hcov.
    unfold in_pages. by rewrite H1, H2.
Qed.

(** [hl_gmap_lock_add] locks them. *)
Lemma lock_add_spec address length G : lock_range_ok address length -> locks_ok G -> lengthZ (locks G) + 1 < MLK_N ->
  exists l, hl_gmap_lock_add address length G = Some (set_locks l G) /\ locks_ok (set_locks l G) /\ lengthZ l <= lengthZ (locks G) + 2 /\
    forall va, covered_by l va = in_pages address length va || locked G va.
Proof.
  intros Hr Hok Hroom. destruct (lock_pages address length Hr) as (H1 & H2 & H3 & H4). pose proof Hr as (Ha & Hl & Hw).
  unfold hl_gmap_lock_add. destruct (Z.eqb_spec length 0); [lia|]. set (low := page_base address) in *.
  set (high := page_above (u64 (address + length))) in *. destruct (Z.leb_spec high low); [lia|].
  assert (Hh : high = 4096 * ((address + length + 4095) / 4096)) by done.
  destruct (lock_remove_spec low (high - low) G) as (l & -> & [Ho Hd] & Hlen & Hcov); [split; [|split]; div_lia|done|lia|].
  assert (Hpages : forall va, in_pages low (high - low) va = in_pages address length va).
  { intros va. unfold in_pages. f_equal; rewrite ?H1, ?Hh; div_lia. }
  cbn [mbind option_bind]. simpl in Ho, Hd |- *. destruct (Z.leb_spec MLK_N (lengthZ l)); [lia|]. exists (l ++ [mk_lock_range low high]).
  assert (Hnew : forall va, covers va (mk_lock_range low high) = in_pages address length va) by (intros va; unfold in_pages, covers; simpl; by rewrite <- H1, <- Hh).
  split; [done|]. split; [split; simpl|split].
  - apply Forall_app. split; [done|]. constructor; [|done]. split; simpl; lia.
  - intros va. rewrite countZ_app. cbn [countZ]. rewrite Hnew. specialize (Hd va). destruct (in_pages address length va) eqn:Ei; [|lia].
    assert (countZ (covers va) l = 0); [|lia]. specialize (Hcov va). rewrite Hpages, Ei, covered_by_count in Hcov.
    rewrite andb_false_r in Hcov. apply Z.leb_gt in Hcov. pose proof (countZ_bounds (covers va) l). lia.
  - rewrite snoc_lengthZ. lia.
  - intros va. unfold covered_by. rewrite existsb_app. simpl. rewrite orb_false_r, Hnew. fold (covered_by l va). rewrite Hcov, Hpages.
    destruct (in_pages address length va), (locked G va); done.
Qed.

Lemma uncounted_exact address length G : lock_range_ok address length -> locks_ok G ->
  hl_gmap_uncounted_bytes address length G =
    page_above (address + length) - page_base address - locked_in G (page_base address) (page_above (address + length)).
Proof.
  intros Hr Hok. destruct (lock_pages address length Hr) as (H1 & H2 & H3 & H4). destruct Hr as (Ha & Hl & Hw).
  rewrite (u64_small (address + length)) in H2, H3, H4 by lia.
  unfold hl_gmap_uncounted_bytes, UINT64_MAX. destruct (Z.eqb_spec length 0); [lia|].
  rewrite !(proj2 (Z.ltb_ge _ _)) by lia. simpl.
  destruct (Z.leb_spec (page_above (address + length)) (page_base address)); [lia|].
  rewrite region_sum by (done || lia). pose proof (locked_in_bounds G (page_base address) (page_above (address + length)) ltac:(lia)).
  rewrite (u64_small (locked_in _ _ _)) by lia. apply u64_small. lia.
Qed.

(** What a lock adds is what was not counted yet. *)
Lemma lock_add_total address length G l : lock_range_ok address length -> locks_ok G ->
  (forall va, covered_by l va = in_pages address length va || locked G va) ->
  locked_in (set_locks l G) 0 (2 ^ 64) = locked_in G 0 (2 ^ 64) + hl_gmap_uncounted_bytes address length G.
Proof.
  intros Hr Hok Hcov. rewrite uncounted_exact by done. destruct (lock_pages address length Hr) as (H1 & H2 & H3 & H4).
  destruct Hr as (Ha & Hl & Hw). rewrite (u64_small (address + length)) in H2, H3, H4 by lia.
  remember (page_base address) as low eqn:Elow. remember (page_above (address + length)) as high eqn:Ehigh.
  assert (Hpart : forall a b, (forall va, a <= va < b -> in_pages address length va = false) -> locked_in (set_locks l G) a b = locked_in G a b).
  { intros a b Hout. unfold locked_in. apply bytes_in_ext. intros va Hva. unfold locked. simpl. rewrite Hcov, Hout by lia. done. }
  assert (Hsum : forall K, locked_in K 0 (2 ^ 64) = locked_in K 0 low + locked_in K low high + locked_in K high (2 ^ 64)).
  { intros K. rewrite (locked_in_split K 0 low), (locked_in_split K low high) by lia. lia. }
  rewrite !Hsum. rewrite (Hpart 0 low), (Hpart high (2 ^ 64)) by (intros va Hva; unfold in_pages, in_interval; lia).
  assert (Hin : locked_in (set_locks l G) low high = high - low).
  { unfold locked_in. rewrite bytes_in_all; [lia|]. intros va Hva. unfold locked. simpl. rewrite Hcov. unfold in_pages, in_interval.
    replace ((4096 * (address / 4096) <=? va) && (va <? 4096 * ((address + length + 4095) / 4096))) with true by lia. done. }
  rewrite Hin. lia.
Qed.

(** ** Ownership of host mappings *)

#[export] Instance exec_carvable : Carvable hl_exec_mapping := {|
  first_of := xm_address;
  last_of e := xm_address e + xm_length e;
  keep_head start e := mk_exec_mapping (xm_address e) (start - xm_address e) HL_HOST_HANDLE_INVALID;
  keep_tail end_ e := mk_exec_mapping end_ (xm_address e + xm_length e - end_) HL_HOST_HANDLE_INVALID
|}.
#[export] Instance exec_laws : CarvableLaws hl_exec_mapping.
Proof. split; intros; simpl; lia. Qed.

Definition owned (e : hl_exec_mapping) : bool := negb (xm_handle e =? HL_HOST_HANDLE_INVALID).
Definition handles (l : list hl_exec_mapping) : list Z := map xm_handle (List.filter owned l).

(** The handles whose mapping an interval meets. *)
Definition met (start end_ : Z) (l : list hl_exec_mapping) : list Z :=
  handles (List.filter (fun e => negb (untouched start end_ e)) l).

(** Every discard succeeds, or finds the handle retired. *)
Definition discards_accepted (H : gmap_host) : Prop :=
  forall h, host_discard H h = HL_STATUS_OK \/ host_discard H h = HL_STATUS_INVALID_ARGUMENT.

Lemma filter_perm {A} (p : A -> bool) (l l' : list A) : l ≡ₚ l' -> List.filter p l ≡ₚ List.filter p l'.
Proof. induction 1; simpl; repeat case_match; eauto using perm_skip, perm_swap, perm_trans. Qed.

Lemma met_perm start end_ l l' : l ≡ₚ l' -> met start end_ l ≡ₚ met start end_ l'.
Proof. intros Hp. by apply Permutation_map, filter_perm, filter_perm. Qed.

Lemma discard_step H e calls : discards_accepted H ->
  (if xm_handle e =? HL_HOST_HANDLE_INVALID then Some calls
   else match host_discard H (xm_handle e) with
        | HL_STATUS_OK | HL_STATUS_INVALID_ARGUMENT => Some (calls ++ [Discarded (xm_handle e)])
        | _ => None
        end) = Some (calls ++ map Discarded (if owned e then [xm_handle e] else [])).
Proof.
  intros Ha. unfold owned. destruct (xm_handle e =? HL_HOST_HANDLE_INVALID); simpl; [by rewrite app_nil_r|].
  by destruct (Ha (xm_handle e)) as [-> | ->].
Qed.

Lemma discard_loop_spec H start end_ fuel : discards_accepted H -> forall D R calls,
  lengthZ R + countZ (splits start end_) R < Z.of_nat fuel ->
  lengthZ (D ++ R) + countZ (splits start end_) R <= HL_EXEC_MAPPING_CAPACITY ->
  exists l' hs, discard_loop H fuel start end_ (lengthZ D) (D ++ R) calls = Some (l', calls ++ map Discarded hs) /\
    l' ≡ₚ D ++ flat_map (parts start end_) R /\ hs ≡ₚ met start end_ R.
Proof.
  intros Ha. induction fuel as [|fuel IH]; intros D R calls Hf Hroom.
  { pose proof (countZ_bounds (splits start end_) R). pose proof (lengthZ_nonneg R). lia. }
  cbn [discard_loop]. destruct R as [|e R].
  { rewrite app_nil_r. destruct (lookupZ D (lengthZ D)) eqn:E; [apply lookupZ_Some_range in E; lia|].
    exists D, []. simpl. by rewrite !app_nil_r. }
  rewrite lookupZ_middle. rewrite lengthZ_cons in Hf. rewrite lengthZ_app, lengthZ_cons in Hroom. cbn [countZ] in Hf, Hroom.
  pose proof (countZ_bounds (splits start end_) R) as Hcb.
  assert (Hpass : forall y c, exists l' hs,
            discard_loop H fuel start end_ (lengthZ D + 1) (D ++ y :: R) c = Some (l', c ++ map Discarded hs) /\
            l' ≡ₚ D ++ y :: flat_map (parts start end_) R /\ hs ≡ₚ met start end_ R).
  { intros y c. rewrite <- (snoc_lengthZ D y). replace (D ++ y :: R) with ((D ++ [y]) ++ R) by (by rewrite <- app_assoc).
    destruct (IH (D ++ [y]) R c) as (l' & hs & Hl & Hp & Hh).
    - destruct (splits start end_ e); lia.
    - rewrite lengthZ_app, snoc_lengthZ. destruct (splits start end_ e); lia.
    - exists l', hs. split; [done|]. split; [|done]. by rewrite <- app_assoc in Hp. }
  assert (Hu : untouched start end_ e = (end_ <=? xm_address e) || (xm_address e + xm_length e <=? start))
    by (unfold untouched; simpl; apply orb_comm).
  rewrite <- Hu. cbn [flat_map]. unfold parts at 1. unfold met. cbn [List.filter].
  destruct (untouched start end_ e) eqn:Eu; cbn [negb]; [apply Hpass|].
  rewrite discard_step by done. cbn [mbind option_bind]. set (mine := if owned e then [xm_handle e] else []).
  assert (Hmet : handles (e :: List.filter (fun x => negb (untouched start end_ x)) R) = mine ++ met start end_ R).
  { unfold handles, mine. simpl. by destruct (owned e). }
  rewrite Hmet. assert (Hjoin : forall hs, (calls ++ map Discarded mine) ++ map Discarded hs = calls ++ map Discarded (mine ++ hs)).
  { intros hs. by rewrite map_app, app_assoc. }
  simpl first_of. simpl last_of.
  destruct (xm_address e <? start) eqn:Eh, (end_ <? xm_address e + xm_length e) eqn:Et; cbn [negb andb].
  - assert (Es : splits start end_ e = true) by (unfold splits; rewrite Eu; simpl; by rewrite Eh, Et). rewrite Es in Hf, Hroom.
    rewrite insertZ_middle. destruct (Z.leb_spec HL_EXEC_MAPPING_CAPACITY (lengthZ (D ++ mk_exec_mapping (xm_address e) (start - xm_address e) HL_HOST_HANDLE_INVALID :: R))) as [Hbad|_].
    { rewrite lengthZ_app, lengthZ_cons in Hbad. lia. }
    destruct (parts_tail start end_ e) as [Hpt Hst].
    set (head := mk_exec_mapping (xm_address e) _ _). set (tail := mk_exec_mapping end_ _ _).
    change (keep_tail end_ e) with tail in Hpt, Hst. rewrite <- (snoc_lengthZ D head).
    replace ((D ++ head :: R) ++ [tail]) with ((D ++ [head]) ++ R ++ [tail]) by (by rewrite <- !app_assoc).
    destruct (IH (D ++ [head]) (R ++ [tail]) (calls ++ map Discarded mine)) as (l' & hs & Hl & Hp & Hh).
    + rewrite snoc_lengthZ, countZ_app. simpl. rewrite Hst. lia.
    + rewrite !lengthZ_app, countZ_app. simpl. rewrite Hst. change (lengthZ [head]) with 1. change (lengthZ [tail]) with 1. lia.
    + exists l', (mine ++ hs). rewrite Hl, Hjoin. split; [done|]. split.
      * rewrite Hp, flat_map_at_end, Hpt, <- app_assoc. simpl. do 2 f_equiv. by rewrite Permutation_app_comm.
      * rewrite Hh. unfold met. rewrite List.filter_app. simpl.
        assert (Hut : untouched start end_ tail = true) by (unfold untouched, tail; simpl; lia). rewrite Hut. simpl. by rewrite app_nil_r.
  - destruct (Hpass (keep_head start e) (calls ++ map Discarded mine)) as (l' & hs & Hl & Hp & Hh). rewrite insertZ_middle.
    exists l', (mine ++ hs). split; [by rewrite <- Hjoin|]. split; [done|by rewrite Hh].
  - destruct (Hpass (keep_tail end_ e) (calls ++ map Discarded mine)) as (l' & hs & Hl & Hp & Hh). rewrite insertZ_middle.
    exists l', (mine ++ hs). split; [by rewrite <- Hjoin|]. split; [done|by rewrite Hh].
  - destruct (take_last_perm D e R) as (R' & -> & Hp). destruct (IH D R' (calls ++ map Discarded mine)) as (l' & hs & Hl & Hp' & Hh).
    + unfold lengthZ. rewrite (Permutation_length Hp), (countZ_perm _ _ _ Hp). fold (lengthZ R). destruct (splits start end_ e); lia.
    + rewrite lengthZ_app. unfold lengthZ at 2. rewrite (Permutation_length Hp), (countZ_perm _ _ _ Hp). fold (lengthZ R).
      destruct (splits start end_ e); lia.
    + exists l', (mine ++ hs). rewrite Hl, Hjoin. split; [done|]. split; [rewrite Hp'; by rewrite (Permutation_flat_map _ Hp)|].
      by rewrite Hh, (met_perm _ _ _ _ Hp).
Qed.
