(* ===== verification/GuestMapsTheorems.v ===== *)
(** * Properties of the guest mappings and memory locks

    After any calls the registry is the map of what the guest has mapped, the
    tests over the union of its records are exact, a host mapping is given back
    once, and the limit on locked memory is the one the guest set. *)

From Stdlib Require Import Permutation.
From S2P Require Import Prelude Status Host GuestRanges Carve GuestMaps GuestMapsProofs.

(** ** One record *)

Lemma two_apart {A} `{Carvable A} (D : list A) x R va : disjoint_records (D ++ x :: R) -> covers va x = true ->
  countZ (covers va) (D ++ R) = 0.
Proof.
  intros Hd Hx. specialize (Hd va). rewrite countZ_app in *. simpl in Hd. rewrite Hx in Hd.
  pose proof (countZ_bounds (covers va) D). pose proof (countZ_bounds (covers va) R). lia.
Qed.

Lemma countZ_zero_In {A} (p : A -> bool) (l : list A) x : countZ p l = 0 -> In x l -> p x = false.
Proof. intros Hc Hin. destruct (p x) eqn:Hp; [|done]. pose proof (countZ_elem _ _ _ Hin Hp). lia. Qed.

(** What the other records say, when one of them is taken out. *)
Lemma holds_without {V} `{Valued hl_gmap_entry V} D x R va (v : V) : disjoint_records (D ++ x :: R) ->
  holds (D ++ R) va v <-> covers va x = false /\ holds (D ++ x :: R) va v.
Proof.
  intros Hd. split.
  - intros (y & Hin & Hc & Hv). assert (Hx : covers va x = false).
    { destruct (covers va x) eqn:Ex; [|done]. pose proof (two_apart _ _ _ _ Hd Ex) as Hz.
      rewrite (countZ_zero_In _ _ _ Hz Hin) in Hc. done. }
    split; [done|]. exists y. split; [|done]. apply in_app_or in Hin as [Hin|Hin]; apply in_or_app; [by left|right; by right].
  - intros [Hx (y & Hin & Hc & Hv)]. exists y. split; [|done].
    apply in_app_or in Hin as [Hin|[<-|Hin]]; [apply in_or_app; by left|congruence|apply in_or_app; by right].
Qed.

Lemma same_start D x R y : mappings_ok (D ++ x :: R) -> In y (D ++ R) -> gm_address y = gm_address x -> False.
Proof.
  intros [Ho Hd] Hin Ha.
  assert (Hall : forall e, In e (D ++ x :: R) -> covers (gm_address e) e = true).
  { intros e He. destruct (proj1 (List.Forall_forall _ _) Ho e He) as [_ Hl _ _ _]. unfold covers. simpl. unfold gm_end. lia. }
  pose proof (two_apart D x R (gm_address x) Hd ltac:(apply Hall, in_or_app; right; by left)) as Hz.
  assert (Hy : covers (gm_address y) y = true).
  { apply Hall. apply in_app_or in Hin as [Hin|Hin]; apply in_or_app; [by left|right; by right]. }
  rewrite Ha in Hy. rewrite (countZ_zero_In _ _ _ Hz Hin) in Hy. done.
Qed.

Lemma last_index_Some p l : forall i j, last_index p l i = Some j -> exists x, lookupZ l (j - i) = Some x /\ p x = true.
Proof.
  induction l as [|y l IH]; intros i j; simpl; [done|]. destruct (last_index p l (i + 1)) as [k|] eqn:Ek.
  - intros [= <-]. apply IH in Ek as (x & Hx & Hp). pose proof (lookupZ_Some_range _ _ _ Hx). exists x. split; [|done].
    rewrite lookupZ_cons_succ by lia. by replace (k - i - 1) with (k - (i + 1)) by lia.
  - destruct (p y) eqn:Hp; [|done]. intros [= <-]. exists y. by rewrite Z.sub_diag.
Qed.

Lemma last_index_None p l : forall i, last_index p l i = None -> forall x, In x l -> p x = false.
Proof.
  induction l as [|y l IH]; intros i; simpl; [by intros _ x []|]. destruct (last_index p l (i + 1)) eqn:Ek; [done|].
  destruct (p y) eqn:Hp; [done|]. intros _ x [<-|Hx]; [done|by eapply IH].
Qed.

(** The length of a mapping that starts at the address. *)
Lemma set_guest_length_spec address n D e R : mappings_ok (D ++ e :: R) -> gm_address e = address ->
  set_guest_length_in address n (D ++ e :: R) = D ++ with_guest_length n e :: R.
Proof.
  intros Hok Ha. unfold set_guest_length_in. destruct (last_index (same_address address) (D ++ e :: R) 0) as [i|] eqn:Ei.
  - apply last_index_Some in Ei as (x & Hx & Hp). rewrite Z.sub_0_r in Hx. rewrite Hx. unfold same_address in Hp. apply Z.eqb_eq in Hp.
    apply lookupZ_split in Hx as (D' & R' & Heq & ->).
    destruct (decide (lengthZ D' = lengthZ D)) as [Hlen|Hne].
    + assert (D' = D /\ x :: R' = e :: R) as [-> Hr].
      { apply app_inj_1; [unfold lengthZ in Hlen; lia|done]. }
      injection Hr as -> ->. by rewrite insertZ_middle.
    + exfalso. apply (same_start D e R x Hok); [|congruence].
      assert (Hx : lookupZ (D ++ e :: R) (lengthZ D') = Some x) by (rewrite Heq; apply lookupZ_middle).
      destruct (Z.lt_ge_cases (lengthZ D') (lengthZ D)).
      * rewrite lookupZ_app_l in Hx by done. apply in_or_app. left. by eapply lookupZ_elem.
      * replace (lengthZ D') with (lengthZ D + (lengthZ D' - lengthZ D)) in Hx by lia. rewrite lookupZ_app_r in Hx by lia.
        rewrite lookupZ_cons_succ in Hx by lia. apply in_or_app. right. by eapply lookupZ_elem.
  - pose proof (last_index_None _ _ _ Ei e ltac:(apply in_or_app; right; by left)) as Hn. unfold same_address in Hn. lia.
Qed.

(** ** What the calls give back *)

Definition given_back (c : gmap_call) : option Z :=
  match c with Discarded h | Released h => Some h | _ => None end.
Definition consumed (calls : list gmap_call) : list Z := omap given_back calls.

(** No mapping of the host is owned twice, or owned after it was given back. *)
Definition ownership_ok (G : hl_gmap_context) : Prop := NoDup (handles (exec_mappings G) ++ consumed (gmap_calls G)).

Definition exec_ok (G : hl_gmap_context) : Prop :=
  Forall (fun e => 0 < xm_length e) (exec_mappings G) /\ disjoint_records (exec_mappings G).

Lemma handles_app l l' : handles (l ++ l') = handles l ++ handles l'.
Proof. unfold handles. by rewrite List.filter_app, map_app. Qed.

Lemma handles_parts start end_ l : handles (flat_map (parts start end_) l) ++ met start end_ l ≡ₚ handles l.
Proof.
  unfold met. induction l as [|e l IH]; [done|]. cbn [flat_map List.filter]. rewrite handles_app. unfold parts at 1.
  assert (Hcons : forall k, handles (e :: k) = handles [e] ++ handles k) by (intros k; apply (handles_app [e])).
  destruct (untouched start end_ e); cbn [negb].
  - by rewrite (Hcons l), <- app_assoc, IH.
  - assert (Hnone : forall k : list hl_exec_mapping, (forall x, In x k -> xm_handle x = HL_HOST_HANDLE_INVALID) -> handles k = []).
    { induction k as [|x k IHk]; intros Hk; [done|]. unfold handles in *. simpl. unfold owned at 1. rewrite Hk by by left. simpl.
      apply IHk. intros y Hy. apply Hk. by right. }
    rewrite Hnone.
    2:{ intros x Hx. apply in_app_or in Hx as [Hx|Hx].
        - destruct (first_of e <? start); [|done]. by destruct Hx as [<-|[]].
        - destruct (end_ <? last_of e); [|done]. by destruct Hx as [<-|[]]. }
    simpl app. rewrite (Hcons l), (Hcons (List.filter _ l)), <- IH, !app_assoc. f_equiv. by rewrite Permutation_app_comm.
Qed.

Lemma consumed_app c c' : consumed (c ++ c') = consumed c ++ consumed c'.
Proof. apply omap_app. Qed.

Lemma consumed_discarded hs : consumed (map Discarded hs) = hs.
Proof. induction hs as [|h hs IH]; [done|]. simpl. by rewrite IH. Qed.

Lemma parts_exec_positive start end_ e : 0 < xm_length e -> Forall (fun x => 0 < xm_length x) (parts start end_ e).
Proof.
  intros Hl. apply List.Forall_forall. intros y Hy. apply parts_source in Hy as [->|[[-> Hy]|[-> Hy]]]; simpl in *; lia.
Qed.

(** [hl_exec_mapping_discard_range] gives back what the range meets. *)
Lemma discard_range_spec H address length G : discards_accepted H -> 0 <= address -> 0 < length -> address + length <= UINT64_MAX ->
  exec_ok G -> lengthZ (exec_mappings G) < HL_EXEC_MAPPING_CAPACITY ->
  exists G', hl_exec_mapping_discard_range H address length G = Some G' /\ exec_ok G' /\ mappings G' = mappings G /\
    locks G' = locks G /\ lengthZ (exec_mappings G') <= lengthZ (exec_mappings G) + 1 /\ (ownership_ok G -> ownership_ok G') /\
    memlock G' = memlock G /\ lock_all G' = lock_all G /\ lock_future G' = lock_future G /\
    (forall h, In h (consumed (gmap_calls G)) -> In h (consumed (gmap_calls G'))) /\
    (forall h, In h (handles (exec_mappings G')) -> In h (handles (exec_mappings G))).
Proof.
  intros Ha H0 Hl Hw [Hpos Hd] Hroom. unfold hl_exec_mapping_discard_range, UINT64_MAX in *.
  destruct (Z.eqb_spec length 0); [lia|]. destruct (Z.ltb_spec (18446744073709551615 - length) address); [lia|]. simpl.
  assert (Hn : countZ (splits address (address + length)) (exec_mappings G) <= 1) by (apply splits_at_most_one; [lia|done]).
  destruct (discard_loop_spec H address (address + length) (S (2 * List.length (exec_mappings G))) Ha [] (exec_mappings G) (gmap_calls G))
    as (l & hs & Hrun & Hp & Hh).
  { pose proof (countZ_bounds (splits address (address + length)) (exec_mappings G)). unfold lengthZ in *. lia. }
  { simpl. lia. }
  change (lengthZ []) with 0 in Hrun. simpl in Hrun, Hp. rewrite Hrun. cbn [mbind option_bind]. eexists. split; [done|].
  pose proof (handles_parts address (address + length) (exec_mappings G)) as Hparts.
  assert (Hhl : handles l ++ hs ≡ₚ handles (exec_mappings G)).
  { rewrite <- Hparts, Hh. f_equiv. unfold handles. apply Permutation_map. by apply filter_perm. }
  split; [split; simpl|].
  - rewrite Hp. clear -Hpos. induction Hpos; simpl; [constructor|]. apply Forall_app. split; [by apply parts_exec_positive|done].
  - apply (disjoint_perm _ _ (symmetry Hp)). apply flat_parts_disjoint; [lia|done].
  - split; [done|]. split; [done|]. split.
    { simpl. unfold lengthZ at 1. rewrite (Permutation_length Hp). pose proof (parts_length address (address + length) (exec_mappings G)).
      unfold lengthZ in *. lia. }
    split.
    { unfold ownership_ok. simpl. rewrite consumed_app, consumed_discarded. intros Hnd. rewrite <- Hhl in Hnd. revert Hnd. apply NoDup_Permutation_proper.
      rewrite <- app_assoc. f_equiv. apply Permutation_app_comm. }
    split; [done|]. split; [done|]. split; [done|]. split; simpl.
    + intros h Hin. rewrite consumed_app. apply in_or_app. by left.
    + intros h Hin. apply (Permutation_in _ Hhl). apply in_or_app. by left.
Qed.

(** ** Runs *)

(** What the guest has mapped: whether it asked for the byte, or the byte pads
    a mapping. *)
Definition guest_map := Z -> option bool.
Definition remap (start end_ : Z) (v : Z -> option bool) (f : guest_map) : guest_map :=
  fun va => if in_interval start end_ va then v va else f va.

Definition fresh (handle : Z) (G : hl_gmap_context) : Prop :=
  ~ In handle (handles (exec_mappings G)) /\ ~ In handle (consumed (gmap_calls G)).
Definition exec_room (G : hl_gmap_context) : Prop := lengthZ (exec_mappings G) < HL_EXEC_MAPPING_CAPACITY.

Inductive gmap_history (H : gmap_host) : hl_gmap_context -> guest_map -> Prop :=
| gh_init : gmap_history H gmap_init (fun _ => None)
| gh_add G f address length physical_address physical_length G' :
    gmap_history H G f -> mapping_valid address length physical_address physical_length ->
    hl_gmap_add_physical address length physical_address physical_length G = Some G' ->
    gmap_history H G' (remap address (address + length) (fun _ => Some true) f)
| gh_length G f address n :
    gmap_history H G f -> 0 <= n <= hl_gmap_find_length address G ->
    gmap_history H (hl_gmap_set_guest_length address n G)
      (remap address (address + hl_gmap_find_length address G) (fun va => Some (va <? address + n)) f)
| gh_anonymous G f status handle address size length out final G' :
    gmap_history H G f -> 0 <= address -> 0 < length -> fresh handle G ->
    hl_gmap_map_anonymous (status, handle, address, size) length G = Some (final, out, G') ->
    gmap_history H G' (match out with Some address => remap address (address + length) (fun _ => Some true) f | None => f end)
| gh_supersede G f start end_ G' :
    gmap_history H G f -> hl_gmap_supersede_range start end_ G = Some G' ->
    gmap_history H G' (remap start end_ (fun _ => None) f)
| gh_unmap G f start end_ G' :
    gmap_history H G f -> discards_accepted H -> exec_room G -> 0 <= start < end_ -> end_ <= UINT64_MAX ->
    hl_gmap_unmap_range H start end_ G = Some G' ->
    gmap_history H G' (remap start end_ (fun _ => None) f)
| gh_remove G f address G' :
    gmap_history H G f -> discards_accepted H -> exec_room G -> hl_gmap_remove H address G = Some G' ->
    gmap_history H G' (remap address (address + hl_gmap_find_length address G) (fun _ => None) f)
| gh_reset G f : gmap_history H G f -> gmap_history H (hl_gmap_reset H G) (fun _ => None).

Record gmap_inv (G : hl_gmap_context) (f : guest_map) : Prop := mk_gmap_inv {
  gi_ok : mappings_ok (mappings G);
  gi_lengths : Forall length_ok (mappings G);
  gi_exec : exec_ok G;
  gi_owned : ownership_ok G;
  gi_map : forall va v, holds (mappings G) va v <-> f va = Some v
}.

(** The record found at an address. *)
Lemma entry_from_spec address G : mappings_ok (mappings G) ->
  match entry_from address G with
  | Some e => exists D R, mappings G = D ++ e :: R /\ gm_address e = address /\ hl_gmap_find_length address G = gm_length e /\
      scan_from (same_address address) (mappings G) 0 = Some (lengthZ D)
  | None => scan_from (same_address address) (mappings G) 0 = None /\ hl_gmap_find_length address G = 0
  end.
Proof.
  intros Hok. unfold hl_gmap_find_length, entry_from. destruct (scan_from (same_address address) (mappings G) 0) as [i|] eqn:Ei; [|done].
  apply scan_from_Some in Ei as (_ & (e & He & Hp) & _). rewrite Z.sub_0_r in He. cbn [mbind option_bind]. rewrite He.
  apply lookupZ_split in He as (D & R & HDR & ->). exists D, R. unfold same_address in Hp. split_and!; [done|lia|done|done].
Qed.

Lemma Forall_split_record {A} (P : A -> Prop) D x R : Forall P (D ++ x :: R) -> Forall P (D ++ R) /\ P x.
Proof. intros Hf. apply Forall_app in Hf as [HD Hf]. inversion_clear Hf. split; [by apply Forall_app|done]. Qed.

Section Steps.
Context (H : gmap_host) (G : hl_gmap_context) (f : guest_map) (Hinv : gmap_inv G f).

Lemma split_step start end_ : start < end_ ->
  exists l, hl_gmap_split_range start end_ G = Some (set_mappings l G) /\ gmap_inv (set_mappings l G) (remap start end_ (fun _ => None) f).
Proof.
  intros Hs. destruct Hinv as [Hok Hlen Hex Hown Hmap].
  destruct (split_range_spec start end_ G Hs Hok) as (l & Hl & Hok' & Hlen' & Hh). exists l. split; [done|]. constructor; simpl; auto.
  intros va v. rewrite Hh, Hmap. unfold remap. destruct (in_interval start end_ va); [by split; [intros []|]|]. by split; [intros []|].
Qed.

Lemma add_step address length physical_address physical_length :
  mapping_valid address length physical_address physical_length ->
  exists G', hl_gmap_add_physical address length physical_address physical_length G = Some G' /\ exec_mappings G' = exec_mappings G /\
    gmap_calls G' = gmap_calls G /\
    gmap_inv G' (remap address (address + length) (fun _ => Some true) f).
Proof.
  intros Hv. destruct Hinv as [Hok Hlen Hex Hown Hmap].
  destruct (add_physical_spec _ _ _ _ G Hok Hv) as (l & Hl & Hok' & Hlen' & _ & Hh). exists (set_mappings l G). split; [done|].
  split; [done|]. split; [done|]. constructor; simpl; auto.
  intros va v. rewrite Hh. unfold remap. destruct (in_interval address (address + length) va); [|apply Hmap]. split; [by intros ->|by intros [= ->]].
Qed.

Lemma length_step address n : 0 <= n <= hl_gmap_find_length address G ->
  gmap_inv (hl_gmap_set_guest_length address n G)
    (remap address (address + hl_gmap_find_length address G) (fun va => Some (va <? address + n)) f).
Proof.
  intros Hn. destruct Hinv as [Hok Hlen Hex Hown Hmap]. pose proof (entry_from_spec address G Hok) as He.
  destruct (entry_from address G) as [e|].
  - destruct He as (D & R & HDR & Ha & Hfl & _). rewrite Hfl in *. unfold hl_gmap_set_guest_length. rewrite HDR in *.
    rewrite (set_guest_length_spec address n D e R Hok Ha).
    assert (Hd' : disjoint_records (D ++ with_guest_length n e :: R)).
    { intros va. pose proof (proj2 Hok va) as Hd. rewrite countZ_app in *. exact Hd. }
    constructor; simpl; [| |done|done|].
    + destruct Hok as [Ho _]. split; [|exact Hd']. apply Forall_app in Ho as [HoD Ho]. inversion_clear Ho as [|? ? Hoe HoR].
      apply Forall_app. split; [done|]. constructor; [|done]. destruct Hoe. split; [done|done|simpl; lia|done|done].
    + apply Forall_app in Hlen as [HlD Hl]. inversion_clear Hl. apply Forall_app. split; [done|]. constructor; [|done]. unfold length_ok. simpl. lia.
    + intros va v. pose proof (holds_without D e R va v (proj2 Hok)) as Hw. pose proof (holds_without D (with_guest_length n e) R va v Hd') as Hw'.
      change (covers va (with_guest_length n e)) with (covers va e) in Hw'. unfold remap.
      assert (Hcov : covers va e = in_interval address (address + gm_length e) va) by (unfold covers, in_interval; simpl; unfold gm_end; by rewrite Ha).
      rewrite <- Hcov. destruct (covers va e) eqn:Ec.
      * split.
        -- intros (y & Hin & Hc & Hv). apply in_app_or in Hin as [Hin|[<-|Hin]].
           ++ pose proof (two_apart _ _ _ _ (proj2 Hok) Ec) as Hz. rewrite (countZ_zero_In _ _ y Hz) in Hc; [done|apply in_or_app; by left].
           ++ rewrite <- Hv. unfold value_at, gmap_visible. simpl. by rewrite Ha.
           ++ pose proof (two_apart _ _ _ _ (proj2 Hok) Ec) as Hz. rewrite (countZ_zero_In _ _ y Hz) in Hc; [done|apply in_or_app; by right].
        -- intros [= <-]. exists (with_guest_length n e). split; [apply in_or_app; right; by left|]. split; [done|].
           unfold value_at, gmap_visible. simpl. by rewrite Ha.
      * rewrite <- Hmap. tauto.
  - destruct He as [Hs ->]. assert (Hsame : hl_gmap_set_guest_length address n G = G).
    { unfold hl_gmap_set_guest_length, set_guest_length_in. destruct (last_index (same_address address) (mappings G) 0) as [i|] eqn:Ei; [|by destruct G].
      apply last_index_Some in Ei as (x & Hx & Hp). by rewrite (scan_from_None _ _ _ Hs _ _ Hx) in Hp. }
    rewrite Hsame. constructor; [done..|]. intros va v. rewrite Hmap. unfold remap, in_interval.
    replace ((address <=? va) && (va <? address + 0)) with false by lia. done.
Qed.

Lemma supersede_step start end_ :
  exists G', hl_gmap_supersede_range start end_ G = Some G' /\ gmap_inv G' (remap start end_ (fun _ => None) f).
Proof.
  unfold hl_gmap_supersede_range. destruct (Z.leb_spec end_ start) as [Hle|Hlt].
  - exists G. split; [done|]. destruct Hinv as [Hok Hlen Hex Hown Hmap]. constructor; try done. intros va v. rewrite Hmap.
    unfold remap. replace (in_interval start end_ va) with false by (unfold in_interval; lia). done.
  - destruct (split_step start end_ Hlt) as (l & Hl & Hi). by exists (set_mappings l G).
Qed.
End Steps.

Lemma anonymous_step G f status handle address size length : gmap_inv G f -> 0 <= address -> 0 < length -> fresh handle G ->
  exists final out G', hl_gmap_map_anonymous (status, handle, address, size) length G = Some (final, out, G') /\
    gmap_inv G' (match out with Some address => remap address (address + length) (fun _ => Some true) f | None => f end).
Proof.
  intros Hinv Ha Hl [Hf1 Hf2]. unfold hl_gmap_map_anonymous. destruct (Z.eqb_spec length 0); [lia|].
  destruct (is_ok status); cbn [negb]; [|by exists status, None, G].
  assert (Hrefuse : gmap_inv (if handle =? HL_HOST_HANDLE_INVALID then G else set_gmap_calls (gmap_calls G ++ [Released handle]) G) f).
  { destruct Hinv as [Hok Hlen Hex Hown Hmap]. destruct (handle =? HL_HOST_HANDLE_INVALID); [done|]. constructor; try done.
    unfold ownership_ok in *. simpl. rewrite consumed_app, app_assoc. simpl. apply list.NoDup_app. split; [done|]. split.
    - intros x [Hx|Hx]%elem_of_app; intros ->%list_elem_of_singleton; [by apply Hf1, list_elem_of_In|by apply Hf2, list_elem_of_In].
    - apply NoDup_singleton. }
  destruct ((handle =? HL_HOST_HANDLE_INVALID) || (address =? 0) || negb (size =? length)) eqn:Eg; [by eexists _, None, _|].
  apply orb_false_iff in Eg as [Eg _]. apply orb_false_iff in Eg as [E1%Z.eqb_neq E2%Z.eqb_neq].
  destruct (hl_exec_mapping_add address length handle G) as [added G1] eqn:Eadd. unfold hl_exec_mapping_add in Eadd.
  destruct (_ || _) eqn:Eguard in Eadd; [injection Eadd as <- <-; by eexists _, None, _|].
  repeat (apply orb_false_iff in Eguard as [Eguard ?]). bool_props.
  destruct (existsb _ _) eqn:Emeet; injection Eadd as <- <-; cbn [negb]; [by eexists _, None, _|].
  set (G1 := set_exec_mappings _ _ G). destruct Hinv as [Hok Hlen Hex Hown Hmap].
  assert (Hinv1 : gmap_inv G1 f).
  { constructor; try done.
    - destruct Hex as [Hpos Hd]. split; simpl.
      + apply Forall_app. split; [done|]. constructor; [simpl; lia|done].
      + intros va. rewrite countZ_app. specialize (Hd va). simpl. destruct (covers va (mk_exec_mapping address length handle)) eqn:Ec; [|lia].
        assert (countZ (covers va) (exec_mappings G) = 0); [|lia]. apply countZ_none. intros x Hx. destruct (covers va x) eqn:Ex; [|done].
        exfalso. apply not_true_iff_false in Emeet. apply Emeet. apply existsb_exists. exists x. split; [done|].
        unfold covers in *. simpl in *. lia.
    - unfold ownership_ok in *. simpl. rewrite handles_app. unfold handles at 2, owned. simpl. rewrite (proj2 (Z.eqb_neq _ _) E1). simpl.
      rewrite <- app_assoc. simpl. apply list.NoDup_app in Hown as (N1 & N2 & N3). apply list.NoDup_app. split; [done|]. split.
      + intros x Hx [->|Hx']%elem_of_cons; [by apply Hf1, list_elem_of_In|by apply (N2 x)].
      + apply list.NoDup_cons. split; [|done]. by rewrite list_elem_of_In. }
  destruct (add_step G1 f Hinv1 address length address length) as (G' & Hadd & _ & _ & Hi).
  { apply mapping_valid_same; unfold UINT64_MAX in *; lia. }
  unfold hl_gmap_add. rewrite Hadd. cbn [mbind option_bind]. by eexists _, _, _.
Qed.

Lemma discard_step_inv H G f address length : gmap_inv G f -> discards_accepted H -> exec_room G -> 0 <= address -> 0 < length ->
  address + length <= UINT64_MAX ->
  exists G', hl_exec_mapping_discard_range H address length G = Some G' /\ gmap_inv G' f /\ mappings G' = mappings G.
Proof.
  intros [Hok Hlen Hex Hown Hmap] Ha Hroom H0 Hl Hw.
  destruct (discard_range_spec H address length G Ha H0 Hl Hw Hex Hroom) as (G' & Hd & Hex' & Hm & _ & _ & Ho & _).
  exists G'. split; [done|]. split; [|done]. constructor; rewrite ?Hm; auto.
Qed.

Lemma unmap_step H G f start end_ : gmap_inv G f -> discards_accepted H -> exec_room G -> 0 <= start < end_ -> end_ <= UINT64_MAX ->
  exists G', hl_gmap_unmap_range H start end_ G = Some G' /\ gmap_inv G' (remap start end_ (fun _ => None) f).
Proof.
  intros Hinv Ha Hroom Hs He. unfold hl_gmap_unmap_range. destruct (Z.ltb_spec start end_); [|lia].
  destruct (discard_step_inv H G f start (end_ - start) Hinv Ha Hroom) as (G1 & -> & Hinv1 & _); [lia..|]. cbn [mbind option_bind].
  destruct (split_step G1 f Hinv1 start end_) as (l & Hl & Hi); [lia|]. by exists (set_mappings l G1).
Qed.

Lemma remove_step H G f address : gmap_inv G f -> discards_accepted H -> exec_room G ->
  exists G', hl_gmap_remove H address G = Some G' /\
    gmap_inv G' (remap address (address + hl_gmap_find_length address G) (fun _ => None) f).
Proof.
  intros Hinv Ha Hroom. pose proof Hinv as [Hok Hlen Hex Hown Hmap]. pose proof (entry_from_spec address G Hok) as He. unfold hl_gmap_remove.
  destruct (entry_from address G) as [e|].
  - destruct He as (D & R & HDR & Haddr & -> & ->). rewrite HDR, lookupZ_middle. simpl default.
    assert (Hoe : mapping_ok e).
    { destruct Hok as [Ho _]. rewrite HDR in Ho. by apply Forall_split_record in Ho as [_ ?]. }
    destruct Hoe as [He1 He2 He3 He4 He5]. unfold gm_end in He5.
    destruct (discard_step_inv H G f address (gm_length e) Hinv Ha Hroom) as (G1 & -> & [Hok1 Hlen1 Hex1 Hown1 Hmap1] & Hm1); [lia..|].
    cbn [mbind option_bind]. rewrite Hm1, HDR in *. destruct (take_last_perm D e R) as (R' & -> & Hp).
    assert (HpDR : D ++ R' ≡ₚ D ++ R) by (by rewrite Hp). exists (set_mappings (D ++ R') G1). split; [done|].
    constructor; simpl; [| |done|done|].
    + apply (mappings_ok_perm (D ++ R)); [done|]. destruct Hok1 as [Ho Hd]. split; [by apply Forall_split_record in Ho as [? _]|].
      intros va. specialize (Hd va). rewrite countZ_app in *. simpl in Hd. pose proof (countZ_bounds (covers va) R).
      destruct (covers va e); lia.
    + rewrite HpDR. by apply Forall_split_record in Hlen1 as [? _].
    + intros va v. rewrite (holds_perm _ _ va v HpDR), (holds_without D e R va v (proj2 Hok1)), Hmap1. unfold remap.
      assert (Hcov : covers va e = in_interval address (address + gm_length e) va) by (unfold covers, in_interval; simpl; unfold gm_end; by rewrite Haddr).
      rewrite Hcov. destruct (in_interval _ _ va); [by split; [intros []|]|]. by split; [intros []|].
  - destruct He as [-> ->]. exists G. split; [done|]. constructor; [done..|]. intros va v. rewrite Hmap. unfold remap, in_interval.
    replace ((address <=? va) && (va <? address + 0)) with false by lia. done.
Qed.

Lemma consumed_unowned H address length calls : consumed (gmap_release_unowned H address length calls) = consumed calls.
Proof.
  unfold gmap_release_unowned. destruct (hl_gmap_host_release_span _ _ _) as [[s e]|]; [|done]. rewrite consumed_app. simpl. by rewrite app_nil_r.
Qed.

Lemma reset_step H G f : gmap_inv G f -> gmap_inv (hl_gmap_reset H G) (fun _ => None) /\
  exec_mappings (hl_gmap_reset H G) = [] /\
  consumed (gmap_calls (hl_gmap_reset H G)) = consumed (gmap_calls G) ++ handles (exec_mappings G).
Proof.
  intros [Hok Hlen Hex Hown Hmap].
  assert (H1 : forall l calls, consumed (foldl (fun calls e => if hl_exec_mapping_owns (gm_address e) (gm_length e) G then calls
              else gmap_release_unowned H (gm_physical_address e) (gm_physical_length e) calls) calls l) = consumed calls).
  { induction l as [|e l IH]; intros calls; [done|]. simpl. rewrite IH. destruct (hl_exec_mapping_owns _ _ _); [done|apply consumed_unowned]. }
  assert (H2 : forall l calls, consumed (foldl (fun calls e => if xm_handle e =? HL_HOST_HANDLE_INVALID
              then gmap_release_unowned H (xm_address e) (xm_length e) calls else calls ++ [Released (xm_handle e)]) calls l) =
              consumed calls ++ handles l).
  { induction l as [|e l IH]; intros calls; simpl; [unfold handles; simpl; by rewrite app_nil_r|]. rewrite IH. unfold handles. simpl. unfold owned at 2.
    destruct (xm_handle e =? HL_HOST_HANDLE_INVALID); simpl; [by rewrite consumed_unowned|]. by rewrite consumed_app, <- app_assoc. }
  assert (Hc : consumed (gmap_calls (hl_gmap_reset H G)) = consumed (gmap_calls G) ++ handles (exec_mappings G)).
  { unfold hl_gmap_reset, hl_exec_mapping_reset. simpl. by rewrite H2, H1. }
  split; [|done]. constructor; simpl; [split; [constructor|intros va; simpl; lia]|constructor|split; [constructor|intros va; simpl; lia]| |].
  - unfold ownership_ok in *. rewrite Hc. change (handles (exec_mappings (hl_gmap_reset H G))) with (@nil Z). rewrite app_nil_l.
    revert Hown. apply NoDup_Permutation_proper, Permutation_app_comm.
  - intros va v. split; [by intros ?%holds_nil|done].
Qed.

Lemma history_inv H G f : gmap_history H G f -> gmap_inv G f.
Proof.
  induction 1 as [|G f a n pa pn G' _ IH Hv Hr|G f a n _ IH Hn|G f st h a sz n out fin G' _ IH Ha Hl Hf Hr|G f s e G' _ IH Hr
    |G f s e G' _ IH Ha Hroom Hs He Hr|G f a G' _ IH Ha Hroom Hr|G f _ IH].
  - constructor; simpl; [split; [constructor|intros va; simpl; lia]|constructor|split; [constructor|intros va; simpl; lia]|constructor|].
    intros va v. split; [by intros ?%holds_nil|done].
  - destruct (add_step G f IH a n pa pn Hv) as (G1 & H1 & _ & _ & Hi). assert (G1 = G') as -> by congruence. done.
  - by apply length_step.
  - destruct (anonymous_step G f st h a sz n IH Ha Hl Hf) as (fin' & out' & G1 & H1 & Hi). rewrite Hr in H1. injection H1 as <- <- <-. done.
  - destruct (supersede_step G f IH s e) as (G1 & H1 & Hi). assert (G1 = G') as -> by congruence. done.
  - destruct (unmap_step H G f s e IH Ha Hroom Hs He) as (G1 & H1 & Hi). assert (G1 = G') as -> by congruence. done.
  - destruct (remove_step H G f a IH Ha Hroom) as (G1 & H1 & Hi). assert (G1 = G') as -> by congruence. done.
  - destruct (reset_step H G f IH) as [? _]. done.
Qed.

(** ** Theorems *)

Lemma reached_covered (G : hl_gmap_context) f va : gmap_inv G f -> existsb (reached gm_end va) (mappings G) = true <-> is_Some (f va).
Proof.
  intros [_ _ _ _ Hmap]. rewrite existsb_exists. split.
  - intros (e & Hin & He). exists (value_at e va). apply Hmap. by exists e.
  - intros [v Hv]. apply Hmap in Hv as (e & Hin & Hc & _). by exists e.
Qed.

Lemma reached_visible (G : hl_gmap_context) f va : gmap_inv G f -> existsb (reached gm_guest_end va) (mappings G) = true <-> f va = Some true.
Proof.
  intros [[Ho _] Hlen _ _ Hmap]. rewrite <- Hmap, existsb_exists.
  assert (Hend : forall e, In e (mappings G) -> gm_guest_end e = gm_address e + gm_guest_length e /\ gm_guest_end e <= gm_end e).
  { intros e He. destruct (proj1 (List.Forall_forall _ _) Ho e He) as [Ha Hl Hg Hp Hi].
    pose proof (proj1 (List.Forall_forall _ _) Hlen e He) as Hle. unfold length_ok, gm_guest_end, gm_end, UINT64_MAX in *. rewrite u64_small by lia. lia. }
  split.
  - intros (e & Hin & He). destruct (Hend e Hin) as [E1 E2]. unfold reached in He. exists e. split; [done|].
    unfold covers, value_at, gmap_visible. simpl. lia.
  - intros (e & Hin & Hc & Hv). destruct (Hend e Hin) as [E1 E2]. exists e. split; [done|].
    unfold covers, value_at, gmap_visible, reached in *. simpl in *. lia.
Qed.

(** C26: After any calls of the registry the two tests over the union of its
    records are exact: [hl_gmap_contains] answers whether every byte of a range
    is mapped, however the records are split, and [hl_gmap_guest_contains]
    whether the guest asked for every one; both return. *)
Theorem mapped_ranges_exact H G f address length :
  gmap_history H G f -> 0 <= address < 2 ^ 64 -> 0 <= length < 2 ^ 64 ->
  (exists b, hl_gmap_contains address length G = Some b /\
     (b = true <-> address + length < 2 ^ 64 /\ forall va, address <= va < address + length -> is_Some (f va))) /\
  (exists b, hl_gmap_guest_contains address length G = Some b /\
     (b = true <-> address + length < 2 ^ 64 /\ forall va, address <= va < address + length -> f va = Some true)).
Proof.
  intros Hh Ha Hl. pose proof (history_inv _ _ _ Hh) as Hinv. split.
  - destruct (contains_by_spec gm_end address length (mappings G) Ha Hl) as (b & Hb & Hiff). exists b. split; [done|]. rewrite Hiff.
    split; intros [Hw Hall]; (split; [done|]); intros va Hva; apply (reached_covered G f va Hinv); by apply Hall.
  - destruct (contains_by_spec gm_guest_end address length (mappings G) Ha Hl) as (b & Hb & Hiff). exists b. split; [done|]. rewrite Hiff.
    split; intros [Hw Hall]; (split; [done|]); intros va Hva; apply (reached_visible G f va Hinv); by apply Hall.
Qed.

Definition demo_gmap_host : gmap_host := mk_gmap_host (fun _ => HL_STATUS_OK) (fun _ _ => true) 4096.

(** A mapping of four pages with a guard tail, split by a second one. *)
Definition demo_gmap1 : hl_gmap_context := default gmap_init (hl_gmap_add 0x10000 0x14000 gmap_init).
Definition demo_gmap2 : hl_gmap_context := hl_gmap_set_guest_length 0x10000 0x4000 demo_gmap1.
Definition demo_gmap3 : hl_gmap_context := default gmap_init (hl_gmap_add 0x11000 0x1000 demo_gmap2).
Definition demo_map : guest_map :=
  remap 0x11000 (0x11000 + 0x1000) (fun _ => Some true)
    (remap 0x10000 (0x10000 + hl_gmap_find_length 0x10000 demo_gmap1) (fun va => Some (va <? 0x10000 + 0x4000))
       (remap 0x10000 (0x10000 + 0x14000) (fun _ => Some true) (fun _ => None))).

Lemma demo_gmap_history : gmap_history demo_gmap_host demo_gmap3 demo_map.
Proof.
  apply (gh_add demo_gmap_host demo_gmap2 _ 0x11000 0x1000 0x11000 0x1000); [|apply mapping_valid_same; unfold UINT64_MAX; lia|reflexivity].
  apply (gh_length demo_gmap_host demo_gmap1 _ 0x10000 0x4000); [|vm_compute; split; discriminate].
  apply (gh_add demo_gmap_host gmap_init _ 0x10000 0x14000 0x10000 0x14000); [apply gh_init|apply mapping_valid_same; unfold UINT64_MAX; lia|reflexivity].
Qed.

Lemma mapped_ranges_exact_witness :
  (exists b, hl_gmap_contains 0x10000 0x14000 demo_gmap3 = Some b /\
     (b = true <-> 0x10000 + 0x14000 < 2 ^ 64 /\ forall va, 0x10000 <= va < 0x10000 + 0x14000 -> is_Some (demo_map va))) /\
  (exists b, hl_gmap_guest_contains 0x10000 0x14000 demo_gmap3 = Some b /\
     (b = true <-> 0x10000 + 0x14000 < 2 ^ 64 /\ forall va, 0x10000 <= va < 0x10000 + 0x14000 -> demo_map va = Some true)).
Proof. apply (mapped_ranges_exact demo_gmap_host); [apply demo_gmap_history|lia|lia]. Defined.

(** Three records; the range holds, and the guest did not ask for its tail. *)
Example demo_answers : (lengthZ (mappings demo_gmap3), hl_gmap_contains 0x10000 0x14000 demo_gmap3,
    hl_gmap_guest_contains 0x10000 0x4000 demo_gmap3, hl_gmap_guest_contains 0x10000 0x14000 demo_gmap3) =
  (3, Some true, Some true, Some false).
Proof. vm_compute. reflexivity. Qed.

(** C27: A mapping of the host is given back once: after any calls no handle is
    owned twice, none that was discarded or released is owned still, and none
    was discarded or released twice; a reset gives back every handle left. *)
Theorem host_mapping_given_back_once H G f :
  gmap_history H G f ->
  NoDup (handles (exec_mappings G) ++ consumed (gmap_calls G)) /\
  handles (exec_mappings (hl_gmap_reset H G)) = [] /\
  consumed (gmap_calls (hl_gmap_reset H G)) = consumed (gmap_calls G) ++ handles (exec_mappings G).
Proof.
  intros Hh. pose proof (history_inv _ _ _ Hh) as Hinv. split; [apply Hinv|].
  destruct (reset_step H G f Hinv) as (_ & -> & Hc). done.
Qed.

(** An owned mapping whose middle the guest gave back. *)
Definition demo_owned1 : hl_gmap_context := snd (default (HL_STATUS_OK, None, gmap_init)
  (hl_gmap_map_anonymous (HL_STATUS_OK, 7, 0x20000, 0x3000) 0x3000 gmap_init)).
Definition demo_owned2 : hl_gmap_context := default gmap_init (hl_gmap_unmap_range demo_gmap_host 0x21000 0x22000 demo_owned1).

Lemma host_mapping_given_back_once_witness :
  NoDup (handles (exec_mappings demo_owned2) ++ consumed (gmap_calls demo_owned2)) /\
  handles (exec_mappings (hl_gmap_reset demo_gmap_host demo_owned2)) = [] /\
  consumed (gmap_calls (hl_gmap_reset demo_gmap_host demo_owned2)) = consumed (gmap_calls demo_owned2) ++ handles (exec_mappings demo_owned2).
Proof.
  eapply (host_mapping_given_back_once demo_gmap_host).
  eapply (gh_unmap demo_gmap_host demo_owned1 _ 0x21000 0x22000); [|by intros h; left|reflexivity|lia|vm_compute; discriminate|reflexivity].
  eapply (gh_anonymous demo_gmap_host gmap_init _ HL_STATUS_OK 7 0x20000 0x3000 0x3000 (Some 0x20000) HL_STATUS_OK);
    [apply gh_init|lia|lia|split; intros []|reflexivity].
Defined.

Example demo_owned_calls : (gmap_calls demo_owned2, lengthZ (exec_mappings demo_owned2), lengthZ (mappings demo_owned2)) =
  ([Discarded 7], 2, 2).
Proof. vm_compute. reflexivity. Qed.

(** While the table of locks has room, [mlock] is admitted exactly when the
    bytes locked afterwards fit under a limit that is set: pages locked already
    are counted once, and a limit of zero admits nothing. *)
Theorem lock_limit_exact address length limit G :
  lock_range_ok address length -> locks_ok G -> lengthZ (locks G) + 1 < MLK_N -> memlock G = Some limit -> 0 < limit < UINT64_MAX ->
  exists l, hl_gmap_lock_add address length G = Some (set_locks l G) /\ locks_ok (set_locks l G) /\
    (forall va, locked (set_locks l G) va = in_pages address length va || locked G va) /\
    hl_gmap_locked_bytes (set_locks l G) = locked_in (set_locks l G) 0 (2 ^ 64) /\
    hl_gmap_lock_limit_range address length G = if hl_gmap_locked_bytes (set_locks l G) <=? limit then 0 else - ENOMEM.
Proof.
  intros Hr Hok Hroom Hlim Hl. destruct (lock_add_spec address length G Hr Hok Hroom) as (l & Hadd & Hok' & _ & Hcov).
  exists l. split; [done|]. split; [done|]. split; [done|]. pose proof (locked_bytes_exact _ Hok') as Hbytes. split; [done|].
  pose proof (lock_add_total address length G l Hr Hok Hcov) as Htot. rewrite Hbytes, Htot.
  unfold hl_gmap_lock_limit_range, hl_gmap_memlock_limit. rewrite Hlim. simpl default.
  destruct (Z.eqb_spec limit UINT64_MAX); [lia|]. destruct (Z.eqb_spec limit 0); [lia|].
  destruct (Z.eqb_spec length 0); [destruct Hr; lia|]. rewrite (locked_bytes_exact G Hok).
  destruct (locked_in_bounds G 0 (2 ^ 64)) as [Hb _]; [lia|]. revert Hb.
  generalize (locked_in G 0 (2 ^ 64)) (hl_gmap_uncounted_bytes address length G). intros b u Hb. clear -Hl Hb.
  destruct (Z.ltb_spec limit u), (Z.ltb_spec (limit - u) b), (Z.leb_spec (b + u) limit); simpl; try done; lia.
Qed.

Definition demo_locks : hl_gmap_context := mk_gmap_context [] [mk_lock_range 0x1000 0x3000] false false (Some 0x4000) [] [].

Lemma demo_locks_ok : locks_ok demo_locks.
Proof.
  split; [constructor; [split; simpl; lia|constructor]|]. intros va. simpl. destruct (covers va _); lia.
Qed.

Lemma lock_limit_exact_witness :
  exists l, hl_gmap_lock_add 0x2ff0 0x1010 demo_locks = Some (set_locks l demo_locks) /\ locks_ok (set_locks l demo_locks) /\
    (forall va, locked (set_locks l demo_locks) va = in_pages 0x2ff0 0x1010 va || locked demo_locks va) /\
    hl_gmap_locked_bytes (set_locks l demo_locks) = locked_in (set_locks l demo_locks) 0 (2 ^ 64) /\
    hl_gmap_lock_limit_range 0x2ff0 0x1010 demo_locks = if hl_gmap_locked_bytes (set_locks l demo_locks) <=? 0x4000 then 0 else - ENOMEM.
Proof.
  apply (lock_limit_exact 0x2ff0 0x1010 0x4000 demo_locks); [split; [lia|split; lia]|apply demo_locks_ok|vm_compute; reflexivity|reflexivity|vm_compute; split; reflexivity].
Defined.

Example demo_lock_verdicts : (hl_gmap_lock_limit_range 0x2ff0 0x1010 demo_locks, hl_gmap_lock_limit_range 0x3000 0x2001 demo_locks) = (0, - ENOMEM).
Proof. vm_compute. reflexivity. Qed.

(** A full table drops what it cannot hold: the middle of the only range it
    could split is unlocked together with its tail. *)
Definition full_locks : hl_gmap_context :=
  mk_gmap_context [] (mk_lock_range 0x1000 0x4000 :: map (fun i => mk_lock_range (0x10000 + 0x2000 * Z.of_nat i) (0x11000 + 0x2000 * Z.of_nat i)) (seq 0 1023))
    false false None [] [].

Example full_table_drops_locks :
  (fun G => (locked full_locks 0x3000, locked G 0x2000, locked G 0x3000)) <$> hl_gmap_lock_remove 0x2000 0x1000 full_locks =
  Some (true, false, false).
Proof. vm_compute. reflexivity. Qed.

(** [MCL_FUTURE] alone marks everything mapped now as locked. *)
Example future_locks_the_present :
  hl_gmap_lock_total_bytes (hl_gmap_lock_all true demo_gmap2) = 0x4000 /\ hl_gmap_lock_total_bytes demo_gmap2 = 0.
Proof. split; vm_compute; reflexivity. Qed.
