(* ===== verification/MemoryRegistries.v ===== *)
(** * Registries of private and file mappings

    The anonymous mappings ([syscall/emulation_state.c], [syscall/memory/access.c])
    that [madvise] and [mremap] consult, the ranges a fork wipes or drops, and
    the file mappings of [thread/file_mapping.c] with the descriptors they retain. *)

From Stdlib Require Import Permutation.
From S2P Require Import Prelude Carve.

(** ** Anonymous mappings *)

Record anon_mapping := mk_anon {
  an_addr : Z;
  an_len : Z;
  an_prot : Z
}.

Definition an_end (m : anon_mapping) : Z := an_addr m + an_len m.

#[export] Instance anon_carvable : Carvable anon_mapping := {|
  first_of := an_addr;
  last_of := an_end;
  keep_head ustart m := mk_anon (an_addr m) (ustart - an_addr m) (an_prot m);
  keep_tail uend m := mk_anon uend (an_end m - uend) (an_prot m)
|}.

(** An array that cannot grow aborts: it has no capacity here. *)
Definition anon_track (addr len prot : Z) (l : list anon_mapping) : list anon_mapping :=
  if addr =? 0 then l else l ++ [mk_anon addr len prot].

Definition anon_untrack (addr len : Z) (l : list anon_mapping) : option (list anon_mapping) :=
  let end_ := u64 (addr + len) in
  drop_matching (fun m => (an_addr m <? end_) && (addr <? an_end m)) l.

(** The records appended meanwhile are not visited. *)
Fixpoint update_prot_loop (n : nat) (i addr end_ prot : Z) (l : list anon_mapping) : list anon_mapping :=
  match n with
  | O => l
  | S n =>
      match lookupZ l i with
      | None => l
      | Some m =>
          let a := an_addr m in
          let e := an_end m in
          let old := an_prot m in
          if (end_ <=? a) || (e <=? addr) || (old =? prot) then update_prot_loop n (i + 1) addr end_ prot l
          else
            let lo := if a <? addr then addr else a in
            let hi := if end_ <? e then end_ else e in
            let l := insertZ l i (mk_anon lo (hi - lo) prot) in
            let l := if a <? lo then anon_track a (lo - a) old l else l in
            let l := if hi <? e then anon_track hi (e - hi) old l else l in
            update_prot_loop n (i + 1) addr end_ prot l
      end
  end.

Definition anon_update_prot (addr len prot : Z) (l : list anon_mapping) : list anon_mapping :=
  let end_ := u64 (addr + len) in
  if (addr =? 0) || (end_ <=? addr) then l else update_prot_loop (length l) 0 addr end_ prot l.

(** -1 is a range in no single record. *)
Definition anon_prot_if_contained (addr len : Z) (l : list anon_mapping) : Z :=
  let end_ := u64 (addr + len) in
  match scan_from (fun m => (an_addr m <=? addr) && (end_ <=? an_end m)) l 0 with
  | Some i => default (-1) (an_prot <$> lookupZ l i)
  | None => -1
  end.

(** The tail of a split record goes through [anon_track_locked]. *)
Definition anon_split_unmap (ustart uend : Z) (l : list anon_mapping) : option (list anon_mapping) :=
  carve (fun _ => negb (uend =? 0)) ustart uend l.

(** ** Ranges a fork treats specially *)

Definition FORK_RANGES : Z := 256.
Definition fork_range : Type := Z * Z.

Definition wipefork_add (addr len : Z) (l : list fork_range) : list fork_range :=
  if (addr =? 0) || (len =? 0) then l
  else if existsb (fun r => (fst r =? addr) && (snd r =? len)) l then l
  else if FORK_RANGES <=? lengthZ l then l
  else l ++ [(addr, len)].

(** A record that overlaps the range is forgotten as a whole. *)
Definition wipefork_del (addr len : Z) (l : list fork_range) : option (list fork_range) :=
  let end_ := u64 (addr + len) in
  drop_matching (fun r => (fst r <? end_) && (addr <? fst r + snd r)) l.

(** The second table has the same code. *)
Definition dontfork_add : Z -> Z -> list fork_range -> list fork_range := wipefork_add.
Definition dontfork_del : Z -> Z -> list fork_range -> option (list fork_range) := wipefork_del.

(** ** File mappings *)

Definition FILEMAP_MAX : Z := 512.

Record guest_file_mapping := mk_filemap {
  fm_lo : Z;
  fm_hi : Z;
  fm_offset : Z;
  fm_device : Z;
  fm_inode : Z;
  fm_follow_lo : Z;
  fm_follow_hi : Z;
  fm_fd : Z;
  fm_shared : bool;
  fm_emulated : bool
}.

Definition file_head (lo : Z) (m : guest_file_mapping) : guest_file_mapping :=
  mk_filemap (fm_lo m) lo (fm_offset m) (fm_device m) (fm_inode m) (fm_follow_lo m) (fm_follow_hi m) (fm_fd m)
    (fm_shared m) (fm_emulated m).
Definition file_tail (hi : Z) (m : guest_file_mapping) : guest_file_mapping :=
  mk_filemap hi (fm_hi m) (u64 (fm_offset m + (hi - fm_lo m))) (fm_device m) (fm_inode m) (fm_follow_lo m) (fm_follow_hi m)
    (fm_fd m) (fm_shared m) (fm_emulated m).

#[export] Instance filemap_carvable : Carvable guest_file_mapping := {|
  first_of := fm_lo;
  last_of := fm_hi;
  keep_head := file_head;
  keep_tail := file_tail
|}.

Definition retains (fd : Z) (m : guest_file_mapping) : bool := fm_fd m =? fd.

(** [closed] are the descriptors given to [close]. *)
Fixpoint filemap_unmap_loop (fuel : nat) (lo hi i : Z) (l : list guest_file_mapping) (closed : list Z)
  : option (list guest_file_mapping * list Z) :=
  match fuel with
  | O => None
  | S fuel =>
      match lookupZ l i with
      | None => Some (l, closed)
      | Some m =>
          if (hi <=? fm_lo m) || (fm_hi m <=? lo) then filemap_unmap_loop fuel lo hi (i + 1) l closed
          else if (lo <=? fm_lo m) && (fm_hi m <=? hi) then
            let retained := fm_fd m in
            let l := take_last l i in
            let used := existsb (retains retained) l in
            filemap_unmap_loop fuel lo hi i l (if negb used && (0 <=? retained) then closed ++ [retained] else closed)
          else if (fm_lo m <? lo) && (hi <? fm_hi m) && (lengthZ l <? FILEMAP_MAX) then
            filemap_unmap_loop fuel lo hi (i + 1) (insertZ l i (file_head lo m) ++ [file_tail hi m]) closed
          else if lo <=? fm_lo m then filemap_unmap_loop fuel lo hi (i + 1) (insertZ l i (file_tail hi m)) closed
          else filemap_unmap_loop fuel lo hi (i + 1) (insertZ l i (file_head lo m)) closed
      end
  end.

Definition filemap_unmap (lo hi : Z) (l : list guest_file_mapping) : option (list guest_file_mapping * list Z) :=
  if hi <=? lo then Some (l, []) else filemap_unmap_loop (S (2 * length l)) lo hi 0 l [].

(** [F_SEAL_WRITE] is refused while this answers true; [identity] is what
    [fstat] answers for the descriptor. *)
Definition filemap_has_shared_mapping (identity : option (Z * Z)) (l : list guest_file_mapping) : bool :=
  match identity with
  | None => false
  | Some (device, inode) => existsb (fun m => fm_shared m && (fm_device m =? device) && (fm_inode m =? inode)) l
  end.

(** ** What the registries know *)

#[export] Instance anon_laws : CarvableLaws anon_mapping.
Proof. split; intros; unfold last_of, keep_head, keep_tail; simpl; unfold an_end; simpl; lia. Qed.
#[export] Instance anon_prots : Valued anon_mapping Z := fun m _ => an_prot m.
#[export] Instance anon_prot_laws : ValuedLaws anon_mapping Z.
Proof. by split. Qed.

#[export] Instance filemap_laws : CarvableLaws guest_file_mapping.
Proof. by split. Qed.

(** Device, inode, offset of the byte, and whether the mapping is shared. *)
Abbreviation file_byte := (Z * Z * Z * bool)%type.
#[export] Instance filemap_bytes : Valued guest_file_mapping file_byte :=
  fun m va => (fm_device m, fm_inode m, u64 (fm_offset m + (va - fm_lo m)), fm_shared m).
#[export] Instance filemap_byte_laws : ValuedLaws guest_file_mapping file_byte.
Proof.
  split; [done|]. intros e va m _ _. unfold value_at, filemap_bytes. simpl. do 2 f_equal. unfold u64.
  rewrite Zplus_mod_idemp_l. f_equal. lia.
Qed.

Definition anon_ok (m : anon_mapping) : Prop := 0 < an_addr m /\ 0 <= an_len m.

(** Records may overlap, but not disagree. *)
Definition anon_agrees (l : list anon_mapping) : Prop := forall va (v w : Z), holds l va v -> holds l va w -> v = w.

Lemma anon_split_unmap_spec ustart uend l : ustart < uend -> uend <> 0 ->
  exists l', anon_split_unmap ustart uend l = Some l' /\ (Forall anon_ok l -> 0 < uend -> Forall anon_ok l') /\
    forall va (v : Z), holds l' va v <-> in_interval ustart uend va = false /\ holds l va v.
Proof.
  intros Hs Hu. destruct (carve_exact (V := Z) (fun _ => negb (uend =? 0)) ustart uend l Hs) as (l' & Hl & Hp & Hh).
  { intros n _. by apply negb_true_iff, Z.eqb_neq. }
  exists l'. split; [done|]. split; [|done]. intros Ho Hpos. rewrite Hp. clear -Ho Hpos.
  induction Ho as [|m l [Ha Hl] _ IH]; simpl; [constructor|]. apply Forall_app. split; [|done]. apply List.Forall_forall. intros y Hy.
  apply parts_source in Hy as [->|[[-> Hy]|[-> Hy]]]; simpl in *; unfold anon_ok, an_end in *; simpl; lia.
Qed.

(** The records that overlap the range are gone. *)
Lemma anon_untrack_spec addr len l : 0 <= addr -> 0 <= len -> addr + len < 2 ^ 64 ->
  exists l', anon_untrack addr len l = Some l' /\ (Forall anon_ok l -> Forall anon_ok l') /\
    (forall va (v : Z), holds l' va v -> in_interval addr (addr + len) va = false /\ holds l va v).
Proof.
  intros Ha Hl Hw. unfold anon_untrack. rewrite u64_small by lia.
  destruct (drop_matching_spec (fun m => (an_addr m <? addr + len) && (addr <? an_end m)) l) as (l' & Hd & Hp).
  exists l'. split; [done|]. split.
  - intros Ho. rewrite Hp. apply List.Forall_forall. intros m Hm. apply filter_In in Hm as [Hm _].
    by apply (proj1 (List.Forall_forall _ _) Ho).
  - intros va v (m & Hm & Hc & Hv). apply (Permutation_in _ Hp) in Hm. apply filter_In in Hm as [Hm Hn].
    split; [|by exists m]. unfold covers in Hc. simpl in Hc. unfold in_interval. lia.
Qed.

Lemma anon_track_holds addr len prot l va (v : Z) : addr <> 0 ->
  holds (anon_track addr len prot l) va v <-> holds l va v \/ (in_interval addr (addr + len) va = true /\ prot = v).
Proof. intros Ha. unfold anon_track. destruct (Z.eqb_spec addr 0); [done|]. by rewrite holds_app, holds_single. Qed.

(** A changed protection replaces the old one where the range is tracked. *)
Definition reprotected (addr end_ prot : Z) (l : list anon_mapping) (va v : Z) : Prop :=
  if in_interval addr end_ va then v = prot /\ exists w : Z, holds l va w else holds l va v.

Lemma update_prot_loop_spec addr end_ prot : 0 < addr < end_ -> forall R D T, Forall anon_ok R -> Forall anon_ok (D ++ T) ->
  let l' := update_prot_loop (length R) (lengthZ D) addr end_ prot (D ++ R ++ T) in
  Forall anon_ok l' /\ forall va (v : Z), holds l' va v <-> holds D va v \/ holds T va v \/ reprotected addr end_ prot R va v.
Proof.
  intros Hae. induction R as [|m R IH]; intros D T HR HDT; simpl.
  { split; [done|]. intros va v. rewrite holds_app. unfold reprotected. pose proof (holds_nil (A := anon_mapping) va v) as Hn.
    assert (Hn' : ~ exists w : Z, holds (A := anon_mapping) [] va w) by (intros [w Hw]; by apply (holds_nil va w)).
    destruct (in_interval _ _ _); tauto. }
  rewrite lookupZ_middle. inversion_clear HR as [|? ? Hm HR']. destruct Hm as [Ha Hl]. apply Forall_app in HDT as [HD HT].
  assert (Hle : an_addr m <= an_end m) by (unfold an_end; lia).
  set (a := an_addr m) in *. set (e := an_end m) in *.
  assert (Hstep : forall x E, Forall anon_ok (x :: E) ->
    (forall va (v : Z), holds (x :: E) va v <-> reprotected addr end_ prot [m] va v) ->
    let l' := update_prot_loop (length R) (lengthZ D + 1) addr end_ prot (D ++ x :: R ++ T ++ E) in
    Forall anon_ok l' /\ forall va (v : Z), holds l' va v <-> holds D va v \/ holds T va v \/ reprotected addr end_ prot (m :: R) va v).
  { intros x E HE Hx. inversion_clear HE as [|? ? Hxo HEo]. rewrite <- (snoc_lengthZ D x).
    replace (D ++ x :: R ++ T ++ E) with ((D ++ [x]) ++ R ++ (T ++ E)) by (by rewrite <- app_assoc).
    destruct (IH (D ++ [x]) (T ++ E) HR') as [Hok Hh].
    { rewrite <- app_assoc. apply Forall_app. split; [done|]. constructor; [done|]. apply Forall_app. by split. }
    split; [exact Hok|]. intros va v. rewrite Hh, !holds_app. specialize (Hx va v).
    rewrite (holds_app [x] E va v : holds (x :: E) va v <-> _) in Hx. unfold reprotected in *.
    pose proof (holds_app [m] R va v) as Hmr. simpl in Hmr.
    assert (Hmr' : (exists w : Z, holds (m :: R) va w) <-> (exists w : Z, holds [m] va w) \/ exists w : Z, holds R va w).
    { split.
      - intros [w Hw]. change (m :: R) with ([m] ++ R) in Hw. apply holds_app in Hw as [Hw|Hw]; eauto.
      - intros [[w Hw]|[w Hw]]; exists w; change (m :: R) with ([m] ++ R); apply holds_app; auto. }
    destruct (in_interval addr end_ va); tauto. }
  assert (Hcov : forall va, covers va m = in_interval a e va) by done.
  destruct ((end_ <=? a) || (e <=? addr) || (an_prot m =? prot)) eqn:Eskip.
  - specialize (Hstep m []). rewrite app_nil_r in Hstep. apply Hstep; [by constructor|]. intros va v. unfold reprotected.
    destruct (in_interval addr end_ va) eqn:Ei; [|done]. rewrite holds_single, Hcov.
    assert (Hex : (exists w : Z, holds [m] va w) <-> in_interval a e va = true).
    { split; [intros [w Hw]; apply holds_single in Hw as [Hw _]; by rewrite <- Hcov|]. intros Hw. exists (an_prot m). apply holds_single. by rewrite Hcov. }
    rewrite Hex. unfold value_at, anon_prots. unfold in_interval in *. split; [|intros [-> H]].
    + intros [H1 <-]. split; [|done]. lia.
    + split; [done|]. lia.
  - apply orb_false_iff in Eskip as [Eskip Eprot]. apply orb_false_iff in Eskip as [E1%Z.leb_gt E2%Z.leb_gt].
    set (lo := if a <? addr then addr else a). set (hi := if end_ <? e then end_ else e).
    assert (Hlo : lo = Z.max a addr) by (unfold lo; destruct (Z.ltb_spec a addr); lia).
    assert (Hhi : hi = Z.min e end_) by (unfold hi; destruct (Z.ltb_spec end_ e); lia). clearbody lo hi.
    rewrite insertZ_middle. set (x := mk_anon lo (hi - lo) prot).
    set (H0 := if a <? lo then [mk_anon a (lo - a) (an_prot m)] else []). set (T0 := if hi <? e then [mk_anon hi (e - hi) (an_prot m)] else []).
    assert (Hlist : (if hi <? e then anon_track hi (e - hi) (an_prot m) (if a <? lo then anon_track a (lo - a) (an_prot m) (D ++ x :: R ++ T) else D ++ x :: R ++ T)
                     else (if a <? lo then anon_track a (lo - a) (an_prot m) (D ++ x :: R ++ T) else D ++ x :: R ++ T)) = D ++ x :: R ++ T ++ (H0 ++ T0)).
    { unfold anon_track, H0, T0. rewrite !(proj2 (Z.eqb_neq _ _)) by lia. destruct (a <? lo), (hi <? e); rewrite ?app_nil_r; rewrite <- ?app_assoc; simpl; rewrite <- ?app_assoc; done. }
    rewrite Hlist. clear Hlist. apply Hstep.
    + constructor; [split; simpl; lia|]. unfold H0, T0. apply Forall_app.
      split; repeat case_match_goal; bool_props; repeat constructor; simpl; lia.
    + intros va v. change (x :: H0 ++ T0) with ([x] ++ H0 ++ T0). rewrite !holds_app, holds_single.
      assert (HH : holds H0 va v <-> in_interval a lo va = true /\ an_prot m = v).
      { unfold H0. destruct (Z.ltb_spec a lo); [rewrite holds_single; unfold covers; simpl; unfold an_end, in_interval; simpl; by replace (a + (lo - a)) with lo by lia|].
        split; [by intros ?%holds_nil|]. unfold in_interval. lia. }
      assert (HT0 : holds T0 va v <-> in_interval hi e va = true /\ an_prot m = v).
      { unfold T0. destruct (Z.ltb_spec hi e); [rewrite holds_single; unfold covers; simpl; unfold an_end at 1, in_interval; simpl; by replace (hi + (e - hi)) with e by lia|].
        split; [by intros ?%holds_nil|]. unfold in_interval. lia. }
      rewrite HH, HT0. assert (Hcx : covers va x = in_interval lo hi va) by (unfold covers; simpl; unfold an_end; simpl; unfold in_interval; by replace (lo + (hi - lo)) with hi by lia).
      rewrite Hcx. unfold value_at, anon_prots. simpl. unfold reprotected.
      assert (Hex : (exists w : Z, holds [m] va w) <-> in_interval a e va = true).
      { split; [intros [w Hw]; apply holds_single in Hw as [Hw _]; by rewrite <- Hcov|]. intros Hw. exists (an_prot m). apply holds_single. by rewrite Hcov. }
      destruct (in_interval addr end_ va) eqn:Ei; [rewrite Hex|rewrite holds_single, Hcov]; unfold value_at, anon_prots, in_interval in *.
      * split; [intros [[H1 <-]|[[H1 _]|[H1 _]]]; (split; [done || lia|lia])|intros [-> H1]; left; split; [lia|done]].
      * split; [intros [[H1 _]|[[H1 <-]|[H1 <-]]]; [exfalso; lia|split; [lia|done]..]|intros [H1 <-]].
        destruct (Z.lt_ge_cases va lo); [right; left; split; [lia|done]|right; right; split; [lia|done]].
Qed.

Lemma anon_update_prot_spec addr len prot l : 0 < addr -> 0 < len -> addr + len < 2 ^ 64 -> Forall anon_ok l ->
  Forall anon_ok (anon_update_prot addr len prot l) /\
  forall va (v : Z), holds (anon_update_prot addr len prot l) va v <-> reprotected addr (addr + len) prot l va v.
Proof.
  intros Ha Hl Hw Ho. unfold anon_update_prot. rewrite u64_small by lia.
  destruct (Z.eqb_spec addr 0); [lia|]. destruct (Z.leb_spec (addr + len) addr); [lia|]. simpl.
  destruct (update_prot_loop_spec addr (addr + len) prot ltac:(lia) l [] []) as [Hok Hh]; [done|done|].
  rewrite app_nil_r in Hok, Hh. simpl in Hok, Hh. change (lengthZ []) with 0 in Hok, Hh. split; [done|]. intros va v. rewrite Hh.
  pose proof (holds_nil (A := anon_mapping) va v). tauto.
Qed.

(** A protection the test answers is that of every byte of the range. *)
Lemma anon_contained_spec addr len l : 0 <= addr -> 0 < len -> addr + len < 2 ^ 64 -> 0 <= anon_prot_if_contained addr len l ->
  forall va, addr <= va < addr + len -> holds l va (anon_prot_if_contained addr len l).
Proof.
  intros Ha Hl Hw. unfold anon_prot_if_contained. rewrite u64_small by lia. destruct (scan_from _ l 0) as [i|] eqn:Ei; [|lia].
  apply scan_from_Some in Ei as (_ & (m & Hm & Hc) & _). rewrite Z.sub_0_r in Hm. rewrite Hm. simpl. intros _ va Hva.
  exists m. split; [by eapply lookupZ_elem|]. split; [|done]. unfold covers. simpl. lia.
Qed.

(** ** Agreement *)

Lemma split_agrees ustart uend l l' : (forall va (v : Z), holds l' va v <-> in_interval ustart uend va = false /\ holds l va v) ->
  anon_agrees l -> anon_agrees l'.
Proof. intros Hh Ha va v w [_ Hv]%Hh [_ Hw]%Hh. by apply (Ha va). Qed.

Lemma reprotected_agrees addr end_ prot l l' : (forall va (v : Z), holds l' va v <-> reprotected addr end_ prot l va v) ->
  anon_agrees l -> anon_agrees l'.
Proof.
  intros Hh Ha va v w Hv Hw. apply Hh in Hv, Hw. unfold reprotected in *. destruct (in_interval _ _ _); [|by apply (Ha va)].
  destruct Hv as [-> _], Hw as [-> _]. done.
Qed.

(** A record over a range that holds its protection already. *)
Lemma track_agrees addr len prot l : addr <> 0 -> anon_agrees l ->
  (forall va (v : Z), in_interval addr (addr + len) va = true -> holds l va v -> v = prot) -> anon_agrees (anon_track addr len prot l).
Proof.
  intros Ha Hl Hp va v w Hv Hw. apply anon_track_holds in Hv, Hw; [|done..].
  destruct Hv as [Hv|[Hv <-]], Hw as [Hw|[Hw <-]]; [by apply (Hl va)|by apply (Hp va)|symmetry; by apply (Hp va)|done].
Qed.

(** ** The descriptors of file mappings *)

Definition uses (fd : Z) (l : list guest_file_mapping) : Prop := exists m, In m l /\ fm_fd m = fd.

Lemma uses_perm fd l l' : l ≡ₚ l' -> uses fd l <-> uses fd l'.
Proof.
  intros Hp. split; intros (m & Hm & Hf); exists m; (split; [|done]); [by apply (Permutation_in _ Hp)|by apply (Permutation_in _ (symmetry Hp))].
Qed.

Lemma uses_existsb fd l : existsb (retains fd) l = true <-> uses fd l.
Proof. rewrite existsb_exists. unfold retains, uses. split; intros (m & Hm & Hf); exists m; (split; [done|lia]). Qed.

Lemma uses_cons fd m l : uses fd (m :: l) <-> fm_fd m = fd \/ uses fd l.
Proof. split; [intros (x & [->|Hx] & Hf); [by left|right; by exists x]|intros [Hf|(x & Hx & Hf)]; [exists m|exists x]; (split; [simpl; auto|done])]. Qed.

Lemma uses_app fd l l' : uses fd (l ++ l') <-> uses fd l \/ uses fd l'.
Proof.
  split; [intros (x & [Hx|Hx]%in_app_or & Hf); [left|right]; by exists x|].
  intros [(x & Hx & Hf)|(x & Hx & Hf)]; exists x; (split; [apply in_or_app; auto|done]).
Qed.

(** The array is the loop of Carve.v; the descriptors closed are those whose
    last mapping went. *)
Lemma filemap_unmap_loop_spec lo hi fuel : lo < hi -> forall i l closed,
  match filemap_unmap_loop fuel lo hi i l closed with
  | None => carve_loop fuel (fun n => n <? FILEMAP_MAX) lo hi i l = None
  | Some (l', closed') => carve_loop fuel (fun n => n <? FILEMAP_MAX) lo hi i l = Some l' /\
      exists new, closed' = closed ++ new /\ NoDup new /\ forall fd, In fd new <-> 0 <= fd /\ uses fd l /\ ~ uses fd l'
  end.
Proof.
  intros Hlt. induction fuel as [|fuel IH]; intros i l closed; [done|]. cbn [filemap_unmap_loop carve_loop].
  destruct (lookupZ l i) as [m|] eqn:Em.
  2:{ split; [done|]. exists []. rewrite app_nil_r. split; [done|]. split; [constructor|]. intros fd. simpl. tauto. }
  assert (Hsame : forall j k c, (forall fd, uses fd k <-> uses fd l) ->
    match filemap_unmap_loop fuel lo hi j k c with
    | None => carve_loop fuel (fun n => n <? FILEMAP_MAX) lo hi j k = None
    | Some (l', closed') => carve_loop fuel (fun n => n <? FILEMAP_MAX) lo hi j k = Some l' /\
        exists new, closed' = c ++ new /\ NoDup new /\ forall fd, In fd new <-> 0 <= fd /\ uses fd l /\ ~ uses fd l'
    end).
  { intros j k c Hk. specialize (IH j k c). destruct (filemap_unmap_loop fuel lo hi j k c) as [[l' c']|]; [|done].
    destruct IH as (Hc & new & -> & Hn & Hin). split; [done|]. exists new. split; [done|]. split; [done|]. intros fd. by rewrite Hin, Hk. }
  apply lookupZ_split in Em as (D & R & -> & Hi). subst i.
  assert (Hins : forall m', fm_fd m' = fm_fd m -> forall fd, uses fd (insertZ (D ++ m :: R) (lengthZ D) m') <-> uses fd (D ++ m :: R)).
  { intros m' Hf fd. rewrite insertZ_middle, !uses_app, !uses_cons, Hf. done. }
  unfold untouched. simpl first_of. simpl last_of. rewrite orb_comm.
  destruct ((fm_hi m <=? lo) || (hi <=? fm_lo m)) eqn:Eu; [by apply Hsame|].
  rewrite !(Z.leb_antisym (fm_lo m) lo), !(Z.leb_antisym hi (fm_hi m)). destruct (fm_lo m <? lo) eqn:Eh, (hi <? fm_hi m) eqn:Et; cbn [negb andb].
  - destruct (lengthZ (D ++ m :: R) <? FILEMAP_MAX); [|by apply Hsame, Hins].
    apply Hsame. intros fd. rewrite uses_app, Hins by done. rewrite uses_app, !uses_cons. simpl. unfold uses at 4. simpl.
    split; [intros [H|[->|(x & [] & _)]]; tauto|tauto].
  - by apply Hsame, Hins.
  - by apply Hsame, Hins.
  - destruct (take_last_perm D m R) as (R' & -> & Hp). set (l1 := D ++ R').
    assert (Hl1 : forall fd, uses fd (D ++ m :: R) <-> fm_fd m = fd \/ uses fd l1).
    { intros fd. unfold l1. rewrite !uses_app, uses_cons, (uses_perm fd _ _ Hp). tauto. }
    set (c1 := if negb (existsb (retains (fm_fd m)) l1) && (0 <=? fm_fd m) then closed ++ [fm_fd m] else closed).
    specialize (IH (lengthZ D) l1 c1). destruct (filemap_unmap_loop fuel lo hi (lengthZ D) l1 c1) as [[l' c']|]; [|done].
    destruct IH as (Hc & new & -> & Hn & Hin). split; [done|].
    assert (Hsub : forall fd, uses fd l' -> uses fd l1).
    { intros fd (m' & Hm' & Hf). assert (Hall : Forall (fun y => uses (fm_fd y) l1) l').
      { eapply (carve_loop_Forall (fun y => uses (fm_fd y) l1)); [| |exact Hc|]; [done|done|].
        apply List.Forall_forall. intros y Hy. by exists y. }
      rewrite <- Hf. by apply (proj1 (List.Forall_forall _ _) Hall). }
    unfold c1. destruct (existsb (retains (fm_fd m)) l1) eqn:Ex; simpl.
    + apply uses_existsb in Ex. exists new. split; [done|]. split; [done|]. intros fd. rewrite Hin, Hl1. split; [tauto|].
      intros (H1 & [<-|H2] & H3); tauto.
    + assert (Hnot : ~ uses (fm_fd m) l1) by (intros Hu%uses_existsb; congruence).
      destruct (Z.leb_spec 0 (fm_fd m)) as [Hpos|Hneg].
      * exists (fm_fd m :: new). rewrite <- app_assoc. split; [done|]. split.
        { apply list.NoDup_cons. split; [|done]. rewrite list_elem_of_In, Hin. tauto. }
        intros fd. simpl. rewrite Hin, Hl1. split.
        -- intros [<-|(H1 & H2 & H3)]; [|tauto]. split; [done|]. split; [by left|]. intros Hu. by apply Hnot, Hsub.
        -- intros (H1 & [<-|H2] & H3); [by left|]. right. tauto.
      * exists new. split; [done|]. split; [done|]. intros fd. rewrite Hin, Hl1. split; [tauto|]. intros (H1 & [<-|H2] & H3); [lia|tauto].
Qed.

Definition file_ok (m : guest_file_mapping) : Prop := 0 <= fm_lo m < fm_hi m /\ fm_hi m < 2 ^ 64.

(** [filemap_unmap] forgets the interval, and closes the descriptors of the
    mappings it ends. *)
Lemma filemap_unmap_spec lo hi l : lo < hi -> lengthZ l + countZ (splits lo hi) l < FILEMAP_MAX ->
  exists l' closed, filemap_unmap lo hi l = Some (l', closed) /\ l' ≡ₚ flat_map (parts lo hi) l /\
    (forall va (v : file_byte), holds l' va v <-> in_interval lo hi va = false /\ holds l va v) /\
    NoDup closed /\ forall fd, In fd closed <-> 0 <= fd /\ uses fd l /\ ~ uses fd l'.
Proof.
  intros Hlt Hroom. unfold filemap_unmap. destruct (Z.leb_spec hi lo); [lia|].
  pose proof (filemap_unmap_loop_spec lo hi (S (2 * length l)) Hlt 0 l []) as Hs.
  destruct (carve_exact (V := file_byte) (fun n => n <? FILEMAP_MAX) lo hi l Hlt) as (l' & Hc & Hp & Hh); [intros n Hn; lia|].
  unfold carve in Hc. rewrite Hc in Hs. destruct (filemap_unmap_loop _ _ _ _ _ _) as [[l1 closed]|]; [|done].
  destruct Hs as (Hl & new & -> & Hn & Hin). injection Hl as <-. exists l', new. by split_and!.
Qed.
