(* ===== verification/Watch.v ===== *)
(** * The watch set

    [linux_abi/watch.c]: which files are watched for changes, how often, and
    which changes wait for the next drain.  A watch is a slot of an array that
    grows; its token is the slot's index and generation.  Every call holds the
    mutex from its first access to its last, except [fork_prepare], which
    returns with it held; [None] is a mutex that is never released, or an
    index outside the array. *)

From S2P Require Import Prelude Status.

Record watch_slot := mk_slot {
  w_device : Z;
  w_object : Z;
  w_size : Z;
  w_pending_size : Z;
  w_generation : Z;
  w_references : Z;
  w_pending_flags : Z;
  w_queued : bool
}.

(** [calloc]'s and [memset]'s bytes. *)
Definition zero_slot : watch_slot := mk_slot 0 0 0 0 0 0 0 false.

(** [slots] holds [capacity] slots, of which [count] are used; [queue] holds
    the [queued] positions of a block of [queue_capacity]. *)
Record watch_state := mk_watch {
  w_locked : bool;
  w_slots : list watch_slot;
  w_count : Z;
  w_queue : list Z;
  w_queue_capacity : Z;
  w_shutdown : bool
}.

Definition put_slot (st : watch_state) (index : Z) (slot : watch_slot) : watch_state :=
  mk_watch (w_locked st) (insertZ (w_slots st) index slot) (w_count st) (w_queue st) (w_queue_capacity st)
    (w_shutdown st).
Definition put_locked (b : bool) (st : watch_state) : watch_state :=
  mk_watch b (w_slots st) (w_count st) (w_queue st) (w_queue_capacity st) (w_shutdown st).

Definition watch_token (index generation : Z) : Z :=
  Z.lor (Z.shiftl generation 32) (u64 (index + 1)).

(** The position a token names, when it names a live watch. *)
Definition watch_lookup (st : watch_state) (token : Z) : option (Z * watch_slot) :=
  let low := u32 token in
  if low =? 0 then None
  else
    let position := low - 1 in
    if w_count st <=? position then None
    else
      match lookupZ (w_slots st) position with
      | None => None
      | Some slot =>
          if (w_references slot =? 0) || negb (w_generation slot =? u32 (Z.shiftr token 32)) then None
          else Some (position, slot)
      end.

(** [None] is a failed allocation. *)
Definition hl_linux_watch_init (alloc mutex : bool) : hl_status * option watch_state :=
  if negb alloc then (HL_STATUS_OUT_OF_MEMORY, None)
  else if negb mutex then (HL_STATUS_PLATFORM_FAILURE, None)
  else (HL_STATUS_OK, Some (mk_watch false [] 0 [] 0 false)).

(** ** Retain and release *)

(** The search for the file, remembering the first free slot. *)
Fixpoint retain_loop (slots : list watch_slot) (n : nat) (index : Z) (free_index : option Z)
    (device object : Z) : option ((Z * watch_slot) + option Z) :=
  match n with
  | O => Some (inr free_index)
  | S n' =>
      match lookupZ slots index with
      | None => None
      | Some slot =>
          if negb (w_references slot =? 0) && (w_device slot =? device) && (w_object slot =? object) then
            Some (inl (index, slot))
          else
            let free' :=
              match free_index with
              | None => if w_references slot =? 0 then Some index else None
              | Some i => Some i
              end in
            retain_loop slots n' (index + 1) free' device object
      end
  end.

Definition next_generation (g : Z) : Z :=
  let g' := u32 (g + 1) in if g' =? 0 then 1 else g'.

(** The slot a new watch takes: a free one, or the next of the array, which
    grows when [grow] says [realloc] succeeds. *)
Definition retain_claim (grow : bool) (free_index : option Z) (st : watch_state)
    : hl_status + (watch_state * Z) :=
  match free_index with
  | Some i => inr (st, i)
  | None =>
      if w_count st =? UINT32_MAX then inl HL_STATUS_RESOURCE_LIMIT
      else
        let capacity := lengthZ (w_slots st) in
        let take slots :=
          inr (mk_watch (w_locked st) slots (w_count st + 1) (w_queue st) (w_queue_capacity st) (w_shutdown st),
               w_count st) in
        if w_count st =? capacity then
          if grow then
            let capacity' := if capacity =? 0 then 8 else capacity * 2 in
            take (w_slots st ++ replicate (Z.to_nat (capacity' - capacity)) zero_slot)
          else inl HL_STATUS_OUT_OF_MEMORY
        else take (w_slots st)
  end.

(** The answer's second half is [*token] and [*created]. *)
Definition hl_linux_watch_retain (grow : bool) (device object size : Z) (st : watch_state)
    : option (watch_state * hl_status * option (Z * bool)) :=
  if w_locked st then None
  else if w_shutdown st then Some (st, HL_STATUS_INTERRUPTED, None)
  else
    match retain_loop (w_slots st) (Z.to_nat (w_count st)) 0 None device object with
    | None => None
    | Some (inl (index, slot)) =>
        if w_references slot =? UINT32_MAX then Some (st, HL_STATUS_RESOURCE_LIMIT, None)
        else
          let slot' :=
            mk_slot (w_device slot) (w_object slot) (w_size slot) (w_pending_size slot) (w_generation slot)
              (u32 (w_references slot + 1)) (w_pending_flags slot) (w_queued slot) in
          Some (put_slot st index slot', HL_STATUS_OK, Some (watch_token index (w_generation slot), false))
    | Some (inr free_index) =>
        match retain_claim grow free_index st with
        | inl status => Some (st, status, None)
        | inr (st', index) =>
            match lookupZ (w_slots st') index with
            | None => None
            | Some slot =>
                let generation := next_generation (w_generation slot) in
                Some (put_slot st' index (mk_slot device object size size generation 1 0 false), HL_STATUS_OK,
                      Some (watch_token index generation, true))
            end
        end
    end.

(** The answer's second half is [*removed]. *)
Definition hl_linux_watch_release (token : Z) (st : watch_state)
    : option (watch_state * hl_status * option bool) :=
  if w_locked st then None
  else
    match watch_lookup st token with
    | None => Some (st, HL_STATUS_NOT_FOUND, None)
    | Some (index, slot) =>
        let references := w_references slot - 1 in
        let removed := references =? 0 in
        let slot' :=
          mk_slot (w_device slot) (w_object slot) (w_size slot) (w_pending_size slot) (w_generation slot) references
            (if removed then 0 else w_pending_flags slot) (if removed then false else w_queued slot) in
        Some (put_slot st index slot', HL_STATUS_OK, Some removed)
    end.

(** ** Changes *)

Definition hl_linux_watch_enqueue (grow : bool) (token size flags : Z) (st : watch_state)
    : option (watch_state * hl_status) :=
  if w_locked st then None
  else
    match watch_lookup st token with
    | None => Some (st, HL_STATUS_NOT_FOUND)
    | Some (index, slot) =>
        if w_shutdown st then Some (st, HL_STATUS_INTERRUPTED)
        else
          let noted queued :=
            mk_slot (w_device slot) (w_object slot) (w_size slot) size (w_generation slot) (w_references slot)
              (Z.lor (w_pending_flags slot) flags) queued in
          if w_queued slot then Some (put_slot st index (noted true), HL_STATUS_OK)
          else
            let full := lengthZ (w_queue st) =? w_queue_capacity st in
            if full && negb grow then Some (put_slot st index (noted false), HL_STATUS_OUT_OF_MEMORY)
            else
              let capacity :=
                if full then (if w_queue_capacity st =? 0 then 8 else w_queue_capacity st * 2)
                else w_queue_capacity st in
              let st' := put_slot st index (noted true) in
              Some (mk_watch (w_locked st') (w_slots st') (w_count st') (w_queue st' ++ [index]) capacity
                      (w_shutdown st'), HL_STATUS_OK)
    end.

Record watch_change := mk_change {
  c_token : Z;
  c_device : Z;
  c_object : Z;
  c_old_size : Z;
  c_new_size : Z;
  c_flags : Z
}.

(** The loop of [drain]: the changes it collects, in the order of the queue. *)
Fixpoint drain_loop (queue : list Z) (slots : list watch_slot) : option (list watch_slot * list watch_change) :=
  match queue with
  | [] => Some (slots, [])
  | position :: queue' =>
      match lookupZ slots position with
      | None => None
      | Some slot =>
          if negb (w_queued slot) || (w_references slot =? 0) then drain_loop queue' slots
          else
            let change :=
              mk_change (watch_token position (w_generation slot)) (w_device slot) (w_object slot) (w_size slot)
                (w_pending_size slot) (w_pending_flags slot) in
            let slot' :=
              mk_slot (w_device slot) (w_object slot) (w_pending_size slot) (w_pending_size slot)
                (w_generation slot) (w_references slot) 0 false in
            match drain_loop queue' (insertZ slots position slot') with
            | None => None
            | Some (slots', changes) => Some (slots', change :: changes)
            end
      end
  end.

(** The calls of [callback], made after the mutex is released, are the list
    of changes. *)
Definition hl_linux_watch_drain (alloc : bool) (st : watch_state)
    : option (watch_state * hl_status * list watch_change) :=
  if w_locked st then None
  else if negb (lengthZ (w_queue st) =? 0) && negb alloc then Some (st, HL_STATUS_OUT_OF_MEMORY, [])
  else
    match drain_loop (w_queue st) (w_slots st) with
    | None => None
    | Some (slots, changes) =>
        Some (mk_watch (w_locked st) slots (w_count st) [] (w_queue_capacity st) (w_shutdown st), HL_STATUS_OK,
              changes)
    end.

Definition hl_linux_watch_shutdown (st : watch_state) : option watch_state :=
  if w_locked st then None
  else Some (mk_watch (w_locked st) (w_slots st) (w_count st) (w_queue st) (w_queue_capacity st) true).

(** ** Fork *)

Record fork_record := mk_record { r_token : Z; r_device : Z; r_object : Z }.

(** One record per live slot; [inl] is a plan without room. *)
Fixpoint record_loop (slots : list watch_slot) (n : nat) (index capacity : Z) (records : list fork_record)
    : option (list fork_record + list fork_record) :=
  match n with
  | O => Some (inr records)
  | S n' =>
      match lookupZ slots index with
      | None => None
      | Some slot =>
          if w_references slot =? 0 then record_loop slots n' (index + 1) capacity records
          else if lengthZ records =? capacity then Some (inl records)
          else
            record_loop slots n' (index + 1) capacity
              (records ++ [mk_record (watch_token index (w_generation slot)) (w_device slot) (w_object slot)])
      end
  end.

(** Returns with the mutex held. *)
Definition hl_linux_watch_fork_prepare (capacity : Z) (st : watch_state)
    : option (watch_state * hl_status * list fork_record) :=
  if w_locked st then None
  else
    match record_loop (w_slots st) (Z.to_nat (w_count st)) 0 capacity [] with
    | None => None
    | Some (inl records) => Some (st, HL_STATUS_RESOURCE_LIMIT, records)
    | Some (inr records) => Some (put_locked true st, HL_STATUS_OK, records)
    end.

(** The owner has stopped every other user: the mutex is overwritten. *)
Definition hl_linux_watch_fork_snapshot (capacity : Z) (st : watch_state)
    : option (watch_state * hl_status * list fork_record) :=
  match record_loop (w_slots st) (Z.to_nat (w_count st)) 0 capacity [] with
  | None => None
  | Some (inl records) => Some (put_locked false st, HL_STATUS_RESOURCE_LIMIT, records)
  | Some (inr records) => Some (put_locked false st, HL_STATUS_OK, records)
  end.

Definition hl_linux_watch_fork_parent (st : watch_state) : watch_state := put_locked false st.

(** What the child does to each used slot. *)
Definition child_slot (slot : watch_slot) : watch_slot :=
  mk_slot (w_device slot) (w_object slot) (w_size slot) (w_size slot)
    (if w_references slot =? 0 then w_generation slot else next_generation (w_generation slot))
    (w_references slot) 0 false.

Fixpoint child_loop (slots : list watch_slot) (n : nat) (index : Z) : option (list watch_slot) :=
  match n with
  | O => Some slots
  | S n' =>
      match lookupZ slots index with
      | None => None
      | Some slot => child_loop (insertZ slots index (child_slot slot)) n' (index + 1)
      end
  end.

(** The plan's records get the new tokens; a record that names no live slot
    stops the loop, [done] holds the records before it. *)
Fixpoint retoken_loop (slots : list watch_slot) (count : Z) (records : list fork_record)
    : option (bool * list fork_record) :=
  match records with
  | [] => Some (true, [])
  | r :: records' =>
      let low := u32 (r_token r) in
      if (low =? 0) || (count <=? low - 1) then Some (false, r :: records')
      else
        match lookupZ slots (low - 1) with
        | None => None
        | Some slot =>
            if w_references slot =? 0 then Some (false, r :: records')
            else
              match retoken_loop slots count records' with
              | None => None
              | Some (ok, out) =>
                  Some (ok, mk_record (watch_token (low - 1) (w_generation slot)) (r_device r) (r_object r) :: out)
              end
        end
  end.

(** The answer is the plan's records and the calls of [rebuild], one per
    record when every record was renewed. *)
Definition hl_linux_watch_fork_child (records : list fork_record) (st : watch_state)
    : option (watch_state * hl_status * list fork_record * list fork_record) :=
  match child_loop (w_slots st) (Z.to_nat (w_count st)) 0 with
  | None => None
  | Some slots =>
      let st' := mk_watch false slots (w_count st) [] (w_queue_capacity st) false in
      match retoken_loop slots (w_count st) records with
      | None => None
      | Some (true, out) => Some (st', HL_STATUS_OK, out, out)
      | Some (false, out) => Some (st', HL_STATUS_PLATFORM_FAILURE, out, [])
      end
  end.

(** ** The calls of a process *)

(** Forking is the preparation followed by one of its completions; a failed
    preparation is not completed. *)
Inductive watch_call :=
| Retain (grow : bool) (device object size : Z)
| Release (token : Z)
| Enqueue (grow : bool) (token size flags : Z)
| Drain (alloc : bool)
| Shutdown
| ForkParent (snapshot : bool) (capacity : Z)
| ForkChild (snapshot : bool) (capacity : Z).

Inductive watch_answer :=
| Retained (status : hl_status) (watch : option (Z * bool))
| Released (status : hl_status) (removed : option bool)
| Enqueued (status : hl_status)
| Drained (status : hl_status) (changes : list watch_change)
| Stopped
| Forked (status : hl_status) (records : list fork_record)
| Child (status : hl_status) (records rebuilt : list fork_record).

Definition fork_take (snapshot : bool) (capacity : Z) (st : watch_state)
    : option (watch_state * hl_status * list fork_record) :=
  if snapshot then hl_linux_watch_fork_snapshot capacity st else hl_linux_watch_fork_prepare capacity st.

Definition watch_run (c : watch_call) (st : watch_state) : option (watch_state * watch_answer) :=
  match c with
  | Retain grow device object size =>
      '(st', s, w) ← hl_linux_watch_retain grow device object size st; Some (st', Retained s w)
  | Release token => '(st', s, r) ← hl_linux_watch_release token st; Some (st', Released s r)
  | Enqueue grow token size flags =>
      '(st', s) ← hl_linux_watch_enqueue grow token size flags st; Some (st', Enqueued s)
  | Drain alloc => '(st', s, cs) ← hl_linux_watch_drain alloc st; Some (st', Drained s cs)
  | Shutdown => st' ← hl_linux_watch_shutdown st; Some (st', Stopped)
  | ForkParent snapshot capacity =>
      '(st', s, records) ← fork_take snapshot capacity st;
      if is_ok s then Some (if snapshot then st' else hl_linux_watch_fork_parent st', Forked s records)
      else Some (st', Forked s records)
  | ForkChild snapshot capacity =>
      '(st', s, records) ← fork_take snapshot capacity st;
      if is_ok s then
        '(st'', s', out, rebuilt) ← hl_linux_watch_fork_child records st'; Some (st'', Child s' out rebuilt)
      else Some (st', Forked s records)
  end.

(** A sequence of calls and its answers. *)
Fixpoint watch_runs (cs : list watch_call) (st : watch_state) : option (watch_state * list watch_answer) :=
  match cs with
  | [] => Some (st, [])
  | c :: cs' =>
      '(st', a) ← watch_run c st;
      '(st'', l) ← watch_runs cs' st';
      Some (st'', a :: l)
  end.

Definition watch_empty : watch_state := mk_watch false [] 0 [] 0 false.
