(* ===== verification/WatchSpec.v ===== *)
(** * The watch set: specification and invariant

    The abstract watch set is a finite map from tokens to watches.  A call is
    a relation between two abstract sets and an answer; which token a new
    watch gets, and whether an allocation succeeds, is left open. *)

From stdpp Require Import gmap.
From S2P Require Import Prelude Status Watch.

(** A watch: the file, the size last reported, what waits for the next drain,
    how many users it has, and whether a drain reports it. *)
Record watch := mk_w {
  f_device : Z;
  f_object : Z;
  f_size : Z;
  f_pending : Z;
  f_flags : Z;
  f_users : Z;
  f_changed : bool
}.

#[export] Instance watch_eq_dec : EqDecision watch.
Proof. solve_decision. Defined.

Abbreviation watches := (gmap Z watch).

Definition same_file (w : watch) (device object : Z) : Prop := f_device w = device /\ f_object w = object.

Definition with_users (w : watch) (n : Z) : watch :=
  mk_w (f_device w) (f_object w) (f_size w) (f_pending w) (f_flags w) n (f_changed w).
Definition noted (w : watch) (size flags : Z) (changed : bool) : watch :=
  mk_w (f_device w) (f_object w) (f_size w) size (Z.lor (f_flags w) flags) (f_users w) changed.

(** What a drain does to a watch, and the report it makes of it. *)
Definition settled (w : watch) : watch :=
  if f_changed w then mk_w (f_device w) (f_object w) (f_pending w) (f_pending w) 0 (f_users w) false else w.
Definition report (tw : Z * watch) : option watch_change :=
  let w := tw.2 in
  if f_changed w then Some (mk_change tw.1 (f_device w) (f_object w) (f_size w) (f_pending w) (f_flags w)) else None.

(** What a child inherits of a watch: nothing waits. *)
Definition inherited (w : watch) : watch :=
  mk_w (f_device w) (f_object w) (f_size w) (f_size w) 0 (f_users w) false.
Definition fork_record_of (tw : Z * watch) : fork_record := mk_record tw.1 (f_device tw.2) (f_object tw.2).

(** A renaming of the tokens of [m]: old token, new token, watch. *)
Definition renames (m : watches) (l : list (Z * Z * watch)) : Prop :=
  map_to_list m ≡ₚ (fun x => (x.1.1, x.2)) <$> l /\
  NoDup ((fun x => x.1.2) <$> l) /\
  (forall x, x ∈ l -> m !! x.1.2 = None).

Definition renamed (l : list (Z * Z * watch)) : watches := list_to_map ((fun x => (x.1.2, inherited x.2)) <$> l).

(** The abstract call: watches, whether the set is shut down. *)
Inductive watch_spec : watches * bool -> watch_call -> watch_answer -> watches * bool -> Prop :=
| SRetainStopped m g d o s :
    watch_spec (m, true) (Retain g d o s) (Retained HL_STATUS_INTERRUPTED None) (m, true)
| SRetainAgain m g d o s t w :
    m !! t = Some w -> same_file w d o -> f_users w < UINT32_MAX ->
    watch_spec (m, false) (Retain g d o s) (Retained HL_STATUS_OK (Some (t, false)))
      (<[t := with_users w (f_users w + 1)]> m, false)
| SRetainMany m g d o s t w :
    m !! t = Some w -> same_file w d o -> f_users w = UINT32_MAX ->
    watch_spec (m, false) (Retain g d o s) (Retained HL_STATUS_RESOURCE_LIMIT None) (m, false)
| SRetainNew m g d o s t :
    (forall t w, m !! t = Some w -> ~ same_file w d o) -> m !! t = None ->
    watch_spec (m, false) (Retain g d o s) (Retained HL_STATUS_OK (Some (t, true)))
      (<[t := mk_w d o s s 0 1 false]> m, false)
| SRetainFull m d o s g :
    (forall t w, m !! t = Some w -> ~ same_file w d o) -> Z.of_nat (size m) = UINT32_MAX ->
    watch_spec (m, false) (Retain g d o s) (Retained HL_STATUS_RESOURCE_LIMIT None) (m, false)
| SRetainNoMemory m d o s :
    (forall t w, m !! t = Some w -> ~ same_file w d o) ->
    watch_spec (m, false) (Retain false d o s) (Retained HL_STATUS_OUT_OF_MEMORY None) (m, false)
| SReleaseLast m b t w :
    m !! t = Some w -> f_users w = 1 ->
    watch_spec (m, b) (Release t) (Released HL_STATUS_OK (Some true)) (delete t m, b)
| SReleaseOne m b t w :
    m !! t = Some w -> 1 < f_users w ->
    watch_spec (m, b) (Release t) (Released HL_STATUS_OK (Some false)) (<[t := with_users w (f_users w - 1)]> m, b)
| SReleaseStale m b t :
    m !! t = None -> watch_spec (m, b) (Release t) (Released HL_STATUS_NOT_FOUND None) (m, b)
| SEnqueue m g t s f w :
    m !! t = Some w ->
    watch_spec (m, false) (Enqueue g t s f) (Enqueued HL_STATUS_OK) (<[t := noted w s f true]> m, false)
| SEnqueueNoMemory m t s f w :
    m !! t = Some w -> f_changed w = false ->
    watch_spec (m, false) (Enqueue false t s f) (Enqueued HL_STATUS_OUT_OF_MEMORY)
      (<[t := noted w s f false]> m, false)
| SEnqueueStopped m g t s f w :
    m !! t = Some w ->
    watch_spec (m, true) (Enqueue g t s f) (Enqueued HL_STATUS_INTERRUPTED) (m, true)
| SEnqueueStale m b g t s f :
    m !! t = None -> watch_spec (m, b) (Enqueue g t s f) (Enqueued HL_STATUS_NOT_FOUND) (m, b)
| SDrain m b g cs :
    cs ≡ₚ omap report (map_to_list m) ->
    watch_spec (m, b) (Drain g) (Drained HL_STATUS_OK cs) (settled <$> m, b)
| SDrainNoMemory m b :
    watch_spec (m, b) (Drain false) (Drained HL_STATUS_OUT_OF_MEMORY []) (m, b)
| SShutdown m b : watch_spec (m, b) Shutdown Stopped (m, true)
| SForkParent m b sn c rs :
    rs ≡ₚ fork_record_of <$> map_to_list m ->
    watch_spec (m, b) (ForkParent sn c) (Forked HL_STATUS_OK rs) (m, b)
| SForkChild m b sn c l rs :
    renames m l -> rs ≡ₚ (fun x => fork_record_of (x.1.2, x.2)) <$> l ->
    watch_spec (m, b) (ForkChild sn c) (Child HL_STATUS_OK rs rs) (renamed l, false)
| SForkFull m b sn c rs call :
    call = ForkParent sn c \/ call = ForkChild sn c -> c < Z.of_nat (size m) ->
    watch_spec (m, b) call (Forked HL_STATUS_RESOURCE_LIMIT rs) (m, b).

(** Sequences of abstract calls. *)
Inductive watch_specs : watches * bool -> list watch_call -> list watch_answer -> watches * bool -> Prop :=
| specs_nil a : watch_specs a [] [] a
| specs_cons a c ans a' cs l a'' :
    watch_spec a c ans a' -> watch_specs a' cs l a'' -> watch_specs a (c :: cs) (ans :: l) a''.

(** ** Arguments *)

(** The arguments have the widths of the C parameters. *)
Definition call_ok (c : watch_call) : Prop :=
  match c with
  | Release token | Enqueue _ token _ _ => 0 <= token < 2 ^ 64
  | ForkParent _ capacity | ForkChild _ capacity => 0 <= capacity
  | _ => True
  end.

(** ** Tokens *)

Definition index_ok (i : Z) : Prop := 0 <= i < UINT32_MAX.
Definition generation_ok (g : Z) : Prop := 1 <= g < 2 ^ 32.

Section Tokens.
Context (i g : Z) (Hi : index_ok i) (Hg : generation_ok g).

Lemma token_value : watch_token i g = g * 2 ^ 32 + (i + 1).
Proof using Hi Hg.
  unfold watch_token, index_ok, generation_ok, UINT32_MAX in *. rewrite u64_small by lia.
  by apply lor_shiftl_low; lia.
Qed.

Lemma token_low : u32 (watch_token i g) = i + 1.
Proof using Hi Hg. rewrite token_value. unfold u32, index_ok, UINT32_MAX in *. div_lia. Qed.

Lemma token_high : u32 (Z.shiftr (watch_token i g) 32) = g.
Proof using Hi Hg.
  rewrite token_value, Z.shiftr_div_pow2 by lia. unfold u32, index_ok, generation_ok, UINT32_MAX in *. div_lia.
Qed.

Lemma token_range : 0 <= watch_token i g < 2 ^ 64.
Proof using Hi Hg. rewrite token_value. unfold index_ok, generation_ok, UINT32_MAX in *. lia. Qed.
End Tokens.

Lemma token_inj i g i' g' :
  index_ok i -> generation_ok g -> index_ok i' -> generation_ok g' ->
  watch_token i g = watch_token i' g' -> i = i' /\ g = g'.
Proof.
  intros Hi Hg Hi' Hg' He. pose proof (token_low i g Hi Hg) as H1. pose proof (token_high i g Hi Hg) as H2.
  rewrite He, token_low in H1 by done. rewrite He, token_high in H2 by done. lia.
Qed.

(** A token is what its halves say. *)
Lemma token_of_halves t :
  0 <= t < 2 ^ 64 -> u32 t <> 0 -> 1 <= u32 (Z.shiftr t 32) -> t = watch_token (u32 t - 1) (u32 (Z.shiftr t 32)).
Proof.
  intros Ht Hl Hh. pose proof (u32_range t). pose proof (u32_range (Z.shiftr t 32)).
  rewrite token_value by (unfold index_ok, generation_ok, UINT32_MAX; lia).
  rewrite Z.shiftr_div_pow2 in * by lia. unfold u32 in *. div_lia.
Qed.

Lemma next_generation_ok g : 0 <= g < 2 ^ 32 -> generation_ok (next_generation g).
Proof.
  intros Hg. unfold next_generation, generation_ok, u32. destruct (Z.eqb_spec ((g + 1) mod 2 ^ 32) 0); div_lia.
Qed.

Lemma next_generation_ne g : generation_ok g -> next_generation g <> g.
Proof.
  unfold next_generation, generation_ok, u32. intros Hg. destruct (Z.eqb_spec ((g + 1) mod 2 ^ 32) 0); div_lia.
Qed.

(** ** The invariant *)

Definition live (slot : watch_slot) : Prop := w_references slot <> 0.

Record slot_ok (slot : watch_slot) : Prop := {
  so_generation : generation_ok (w_generation slot);
  so_references : 0 <= w_references slot < 2 ^ 32;
  so_dead : w_references slot = 0 -> w_queued slot = false
}.

Record watch_inv (st : watch_state) : Prop := {
  wi_count : 0 <= w_count st <= lengthZ (w_slots st);
  wi_max : w_count st <= UINT32_MAX;
  wi_slot : forall i s, lookupZ (w_slots st) i = Some s -> i < w_count st -> slot_ok s;
  wi_fresh : forall i s, lookupZ (w_slots st) i = Some s -> w_count st <= i -> s = zero_slot;
  wi_queue : forall p, p ∈ w_queue st -> 0 <= p < w_count st;
  wi_queued : forall i s, lookupZ (w_slots st) i = Some s -> w_queued s = true -> i ∈ w_queue st;
  wi_once : forall i j s s', lookupZ (w_slots st) i = Some s -> lookupZ (w_slots st) j = Some s' ->
    live s -> live s' -> w_device s = w_device s' -> w_object s = w_object s' -> i = j
}.

(** ** The abstract set a state stands for *)

Definition watch_of (slot : watch_slot) : watch :=
  mk_w (w_device slot) (w_object slot) (w_size slot) (w_pending_size slot) (w_pending_flags slot)
    (w_references slot) (w_queued slot).

Definition entry (slots : list watch_slot) (i : Z) : option (Z * watch) :=
  match lookupZ slots i with
  | Some s => if w_references s =? 0 then None else Some (watch_token i (w_generation s), watch_of s)
  | None => None
  end.

Definition watch_entries (st : watch_state) : list (Z * watch) :=
  omap (entry (w_slots st)) (seqZ 0 (w_count st)).

Definition watch_view (st : watch_state) : watches := list_to_map (watch_entries st).

Definition abstraction (st : watch_state) : watches * bool := (watch_view st, w_shutdown st).

(** ** The watch set: what the loops and updates do to the abstract set

    A token names at most one live slot; searching, filling, changing and
    emptying a slot are lookup, insertion and deletion of the abstract map. *)

(** [t] is the token of the live slot [s] at [i]. *)
Definition names (st : watch_state) (t i : Z) (s : watch_slot) : Prop :=
  0 <= i < w_count st /\ lookupZ (w_slots st) i = Some s /\ live s /\ t = watch_token i (w_generation s).

Section Names.
Context (st : watch_state) (HI : watch_inv st).

Lemma count_index i : 0 <= i < w_count st -> index_ok i.
Proof using HI. intros Hi. pose proof (wi_max _ HI). unfold index_ok, UINT32_MAX in *. lia. Qed.

Lemma names_slot_ok t i s : names st t i s -> slot_ok s.
Proof using HI. intros (Hi & Hs & _). apply (wi_slot _ HI _ _ Hs). lia. Qed.

(** A live slot is below the count. *)
Lemma live_below i s : lookupZ (w_slots st) i = Some s -> live s -> 0 <= i < w_count st.
Proof using HI.
  intros Hs Hl. pose proof (lookupZ_Some_range _ _ _ Hs). destruct (Z.lt_ge_cases i (w_count st)); [lia|].
  pose proof (wi_fresh _ HI _ _ Hs ltac:(lia)) as ->. by destruct Hl.
Qed.

Lemma names_token t i s : names st t i s -> t = watch_token i (w_generation s) /\ index_ok i /\ generation_ok (w_generation s).
Proof using HI.
  intros Hn. pose proof (names_slot_ok _ _ _ Hn) as Hok. destruct Hn as (Hi & _ & _ & ->).
  split; [done|]. split; [by apply count_index|apply Hok].
Qed.

Lemma names_fun t i s j s' : names st t i s -> names st t j s' -> i = j /\ s = s'.
Proof using HI.
  intros H1 H2. destruct (names_token _ _ _ H1) as (E1 & Hi & Hg), (names_token _ _ _ H2) as (E2 & Hj & Hg').
  destruct (token_inj i (w_generation s) j (w_generation s')) as [-> _]; [done..|congruence|].
  destruct H1 as (_ & L1 & _), H2 as (_ & L2 & _). split; congruence.
Qed.

Lemma names_range t i s : names st t i s -> 0 <= t < 2 ^ 64.
Proof using HI. intros Hn. destruct (names_token _ _ _ Hn) as (-> & Hi & Hg). by apply token_range. Qed.

Lemma entry_Some slots i t w :
  entry slots i = Some (t, w) <->
  exists s, lookupZ slots i = Some s /\ live s /\ t = watch_token i (w_generation s) /\ w = watch_of s.
Proof using.
  unfold entry, live. destruct (lookupZ slots i) as [s|]; [|naive_solver].
  destruct (Z.eqb_spec (w_references s) 0); naive_solver.
Qed.

Lemma elem_entries t w : (t, w) ∈ watch_entries st <-> exists i s, names st t i s /\ w = watch_of s.
Proof using.
  unfold watch_entries, names. rewrite list_elem_of_omap. split.
  - intros (i & Hi & (s & Hs & Hl & -> & ->)%entry_Some). apply elem_of_seqZ in Hi. exists i, s. split; [|done]. split; [lia|done].
  - intros (i & s & (Hi & Hs & Hl & ->) & ->). exists i. split; [apply elem_of_seqZ; lia|].
    apply entry_Some. eauto.
Qed.

Lemma entries_nodup : NoDup (watch_entries st).*1.
Proof using HI.
  unfold watch_entries.
  assert (Hsub : forall p, p ∈ seqZ 0 (w_count st) -> 0 <= p < w_count st) by (intros p ?%elem_of_seqZ; lia).
  pose proof (NoDup_seqZ 0 (w_count st)) as Hnd. induction Hnd as [|p l Hp Hnd IH]; [constructor|].
  assert (IH' := IH ltac:(set_solver)). simpl. destruct (entry _ p) as [[t w]|] eqn:He; [|done].
  simpl. constructor; [|done]. rewrite list_elem_of_fmap. intros ([t' w'] & Ht & Hin). simpl in Ht. subst t'.
  apply list_elem_of_omap in Hin as (q & Hq & He'). apply entry_Some in He as (s & Hs & Hl & Ht & _), He' as (s' & Hs' & Hl' & Ht' & _).
  assert (N1 : names st t p s) by (split; [apply Hsub; set_solver|done]).
  assert (N2 : names st t q s') by (split; [apply Hsub; set_solver|done]).
  destruct (names_fun _ _ _ _ _ N1 N2) as [-> _]. done.
Qed.

Lemma view_lookup t w : watch_view st !! t = Some w <-> exists i s, names st t i s /\ w = watch_of s.
Proof using HI. rewrite <- elem_entries. symmetry. apply elem_of_list_to_map, entries_nodup. Qed.

Lemma view_ext (m : watches) :
  (forall t w, m !! t = Some w <-> exists i s, names st t i s /\ w = watch_of s) -> watch_view st = m.
Proof using HI.
  intros Hm. apply map_eq. intros t. apply option_eq. intros w. by rewrite view_lookup, Hm.
Qed.

Lemma view_to_list : map_to_list (watch_view st) ≡ₚ watch_entries st.
Proof using HI. apply map_to_list_to_map, entries_nodup. Qed.

Lemma view_size : Z.of_nat (size (watch_view st)) <= w_count st.
Proof using HI.
  rewrite <- length_map_to_list, view_to_list. unfold watch_entries.
  assert (Hle : forall l : list Z, (length (omap (entry (w_slots st)) l) <= length l)%nat).
  { intros l. induction l as [|x l IH]; [done|]. csimpl. destruct (entry _ x); csimpl; lia. }
  specialize (Hle (seqZ 0 (w_count st))). rewrite length_seqZ in Hle. pose proof (wi_count _ HI) as [H0 _].
  apply (Z.le_trans _ (Z.of_nat (Z.to_nat (w_count st)))); [by apply inj_le|lia].
Qed.

(** The lookup by token finds the slot the token names. *)
Lemma watch_lookup_Some t i s : 0 <= t < 2 ^ 64 -> watch_lookup st t = Some (i, s) <-> names st t i s.
Proof using HI.
  intros Ht. unfold watch_lookup, names. split.
  - intros H. destruct (Z.eqb_spec (u32 t) 0) as [|Hl]; [done|]. destruct (Z.leb_spec (w_count st) (u32 t - 1)) as [|Hc]; [done|].
    destruct (lookupZ _ _) as [x|] eqn:Hs; [|done].
    destruct (Z.eqb_spec (w_references x) 0), (Z.eqb_spec (w_generation x) (u32 (Z.shiftr t 32))); try done.
    simpl in H. simplify_eq. pose proof (u32_range t). split; [lia|]. split; [done|]. split; [done|].
    pose proof (so_generation _ (wi_slot _ HI _ _ Hs ltac:(lia))) as Hg. rewrite e. apply token_of_halves; [done..|].
    unfold generation_ok in Hg. lia.
  - intros Hn. destruct (names_token t i s Hn) as (-> & Hi & Hg). destruct Hn as (Hr & Hs & Hl & _).
    rewrite token_low, token_high by done. replace (i + 1 - 1) with i by lia. rewrite Hs.
    destruct (Z.eqb_spec (i + 1) 0); [lia|]. destruct (Z.leb_spec (w_count st) i); [lia|].
    unfold live in Hl. rewrite (proj2 (Z.eqb_neq _ _) Hl), Z.eqb_refl. done.
Qed.

Lemma watch_lookup_None t : 0 <= t < 2 ^ 64 -> watch_lookup st t = None -> watch_view st !! t = None.
Proof using HI.
  intros Ht Hn. apply eq_None_not_Some. intros [w (i & s & Hs & _)%view_lookup].
  apply watch_lookup_Some in Hs; [|done]. congruence.
Qed.
End Names.

(** Replacing the slot a token names by one of the same generation. *)
Lemma names_put st t i s s' t' j x :
  watch_inv st -> names st t i s -> w_generation s' = w_generation s -> live s' ->
  names (put_slot st i s') t' j x <-> (t' = t /\ j = i /\ x = s') \/ (t' <> t /\ names st t' j x).
Proof.
  intros HI Hn Hg Hl. pose proof Hn as (Hi & Hs & _ & Ht). pose proof (lookupZ_Some_range _ _ _ Hs) as Hr.
  unfold names at 1. cbn [put_slot w_slots w_count]. rewrite lookupZ_insertZ by lia.
  destruct (decide (i = j)) as [<-|Hne].
  - split.
    + intros (_ & [= <-] & _ & ->). left. by rewrite Hg, Ht.
    + intros [(-> & _ & ->)|(Hne & Hx)]; [by rewrite Hg, Ht|].
      destruct Hne. destruct Hx as (_ & Hx & _ & ->). congruence.
  - assert (t' = t -> names st t' j x -> False).
    { intros -> Hx. destruct (names_fun _ HI _ _ _ _ _ Hn Hx). done. }
    split; [|unfold names; naive_solver]. intros Hx. right. split; [|done]. intros ->. eauto.
Qed.
