(* ===== verification/WatchSteps.v ===== *)
(** * The watch set: the calls implement the specification

    Each call returns, keeps the invariant, and is an abstract call. *)

From stdpp Require Import gmap.
From S2P Require Import Prelude Status Watch WatchSpec.

(** ** Updates of one slot *)

Lemma put_inv st t i s s' :
  watch_inv st -> names st t i s -> slot_ok s' -> w_device s' = w_device s -> w_object s' = w_object s ->
  (w_queued s' = true -> i ∈ w_queue st) -> watch_inv (put_slot st i s').
Proof.
  intros HI (Hi & Hs & Hl & _) Hok Hd Ho Hq. pose proof (lookupZ_Some_range _ _ _ Hs) as Hr.
  constructor; cbn [put_slot w_slots w_count w_queue].
  - rewrite lengthZ_insertZ. apply HI.
  - apply HI.
  - intros j x. rewrite lookupZ_insertZ by lia. case_decide; [by intros [= <-]|]. apply HI.
  - intros j x. rewrite lookupZ_insertZ by lia. case_decide; [lia|]. apply HI.
  - apply HI.
  - intros j x. rewrite lookupZ_insertZ by lia. case_decide; [intros [= <-]; subst; done|]. apply HI.
  - intros j k x y. rewrite !lookupZ_insertZ by lia. pose proof (wi_once _ HI) as Hone.
    repeat case_decide; subst; intros Hx Hy; simplify_eq; [done|..]; intros Lx Ly Ed Eo.
    + apply (Hone j k s y); [done..|congruence|congruence].
    + apply (Hone j k x s); [done..|congruence|congruence].
    + by apply (Hone j k x y).
Qed.

Lemma put_view st t i s s' :
  watch_inv st -> watch_inv (put_slot st i s') -> names st t i s -> w_generation s' = w_generation s -> live s' ->
  watch_view (put_slot st i s') = <[t := watch_of s']> (watch_view st).
Proof.
  intros HI HI' Hn Hg Hl. apply view_ext; [done|]. intros t' w. rewrite lookup_insert_Some, view_lookup by done.
  setoid_rewrite (names_put st t i s s'); [|done..]. naive_solver.
Qed.

(** Emptying a slot deletes its token. *)
Lemma put_dead_view st t i s s' :
  watch_inv st -> watch_inv (put_slot st i s') -> names st t i s -> ~ live s' ->
  watch_view (put_slot st i s') = delete t (watch_view st).
Proof.
  intros HI HI' Hn Hl. pose proof Hn as (Hi & Hs & _). pose proof (lookupZ_Some_range _ _ _ Hs) as Hr.
  apply view_ext; [done|]. intros t' w. rewrite lookup_delete_Some, view_lookup by done. split.
  - intros (Hne & j & x & Hx & ->). exists j, x. split; [|done]. destruct Hx as (Hj & Hx & Hlx & Ht).
    assert (i <> j) by (intros <-; destruct Hn as (_ & Hs' & _ & ->); congruence).
    split; [done|]. cbn [put_slot w_slots]. by rewrite lookupZ_insertZ_ne.
  - intros (j & x & (Hj & Hx & Hlx & Ht) & ->). cbn [put_slot w_slots w_count] in *.
    rewrite lookupZ_insertZ in Hx by lia. case_decide as Hij; [by simplify_eq|].
    assert (Hnx : names st t' j x) by done. split; [|eauto].
    intros <-. destruct (names_fun _ HI _ _ _ _ _ Hn Hnx). done.
Qed.

(** ** Retain *)

Lemma retain_loop_spec slots count d o n index free :
  0 <= index -> Z.of_nat n = count - index -> count <= lengthZ slots ->
  exists r, retain_loop slots n index free d o = Some r /\
    match r with
    | inl (i, s) => index <= i < count /\ lookupZ slots i = Some s /\ live s /\ w_device s = d /\ w_object s = o
    | inr f =>
        (forall i s, index <= i < count -> lookupZ slots i = Some s -> live s -> w_device s = d -> w_object s = o -> False) /\
        match f with
        | Some i => free = Some i \/
                    (free = None /\ index <= i < count /\ exists s, lookupZ slots i = Some s /\ w_references s = 0)
        | None => free = None /\ forall i s, index <= i < count -> lookupZ slots i = Some s -> live s
        end
    end.
Proof.
  revert index free. induction n as [|n IH]; intros index free Hi Hn Hc.
  { eexists. split; [done|]. split; [lia|]. destruct free; [by left|]. split; [done|lia]. }
  cbn [retain_loop]. destruct (lookupZ_is_Some slots index) as [s Hs]; [lia|]. rewrite Hs.
  destruct (Z.eqb_spec (w_references s) 0) as [Hz|Hz]; cbn [negb andb].
  - edestruct (IH (index + 1)) as (r & -> & Hr); [lia..|done|]. eexists. split; [done|].
    destruct r as [[i x]|f]; [destruct Hr as (? & ?); split; [lia|done]|]. destruct Hr as [Hno Hf]. split.
    + intros i x Hr Hx Hl. destruct (decide (i = index)) as [->|]; [unfold live in *; congruence|].
      apply (Hno i x); [lia|done..].
    + destruct f as [i|]; [|destruct free; naive_solver].
      destruct Hf as [Hf|(Hf & Hr & Hx)]; destruct free as [j|]; simplify_eq; [by left|right].
      split; [done|]. split; [lia|eauto].
  - destruct (decide (w_device s = d /\ w_object s = o)) as [[Ed Eo]|Hne].
    { rewrite (proj2 (Z.eqb_eq _ _) Ed), (proj2 (Z.eqb_eq _ _) Eo). cbn. eexists. split; [done|]. split; [lia|done]. }
    replace ((w_device s =? d) && (w_object s =? o)) with false by (symmetry; apply andb_false_iff; rewrite !Z.eqb_neq; lia).
    edestruct (IH (index + 1)) as (r & Hrun & Hr); [lia..|done|].
    replace (match free with Some i => Some i | None => None end) with free by (by destruct free).
    rewrite Hrun. eexists. split; [done|].
    destruct r as [[i x]|f]; [destruct Hr as (? & ?); split; [lia|done]|]. destruct Hr as [Hno Hf]. split.
    + intros i x Hr Hx Hl Ed Eo. destruct (decide (i = index)) as [->|]; [simplify_eq; auto|].
      apply (Hno i x); [lia|done..].
    + destruct f as [i|].
      * destruct Hf as [Hf|(Hf & Hr & Hx)]; [by left|right]. split; [done|]. split; [lia|done].
      * destruct Hf as [-> Hall]. split; [done|]. intros i x Hr Hx.
        destruct (decide (i = index)) as [->|]; [unfold live; congruence|]. apply (Hall i); [lia|done].
Qed.

(** Growing the array adds empty slots. *)
Lemma grown_inv st slots :
  watch_inv st -> w_count st < UINT32_MAX -> w_count st < lengthZ slots ->
  (forall i, i < w_count st -> lookupZ slots i = lookupZ (w_slots st) i) ->
  (forall i s, lookupZ slots i = Some s -> w_count st <= i -> s = zero_slot) ->
  forall s', slot_ok s' -> live s' -> w_queued s' = false ->
  (forall i s, lookupZ (w_slots st) i = Some s -> live s -> w_device s = w_device s' -> w_object s = w_object s' -> False) ->
  watch_inv (put_slot (mk_watch (w_locked st) slots (w_count st + 1) (w_queue st) (w_queue_capacity st) (w_shutdown st))
               (w_count st) s').
Proof.
  intros HI Hmax Hlen Hold Hnew s' Hok Hl Hq Hone. pose proof (wi_count _ HI) as Hc.
  assert (Hlive : forall i s, lookupZ slots i = Some s -> live s -> lookupZ (w_slots st) i = Some s).
  { intros i s Hs Hls. destruct (Z.lt_ge_cases i (w_count st)); [by rewrite <- Hold|].
    rewrite (Hnew i s) in Hls by done. by destruct Hls. }
  constructor; cbn [put_slot w_slots w_count w_queue].
  - rewrite lengthZ_insertZ. lia.
  - lia.
  - intros i s. rewrite lookupZ_insertZ by lia. case_decide; [by intros [= <-]|]. intros Hs Hi.
    rewrite Hold in Hs by lia. apply (wi_slot _ HI _ _ Hs). lia.
  - intros i s. rewrite lookupZ_insertZ by lia. case_decide; [lia|]. intros Hs Hi. apply (Hnew i); [done|lia].
  - intros p Hp. apply HI in Hp. lia.
  - intros i s. rewrite lookupZ_insertZ by lia. case_decide; [congruence|]. intros Hs Hqs.
    destruct (Z.lt_ge_cases i (w_count st)); [rewrite Hold in Hs by done; by apply (wi_queued _ HI _ _ Hs)|].
    by rewrite (Hnew i s) in Hqs by done.
  - intros i j x y. rewrite !lookupZ_insertZ by lia. repeat case_decide; subst; intros Hx Hy; simplify_eq; [done|..];
      intros Lx Ly Ed Eo.
    + destruct (Hone j y); auto.
    + destruct (Hone i x); auto.
    + apply (wi_once _ HI i j x y); auto.
Qed.

(** Filling a free slot of the array. *)
Lemma refilled_inv st i s s' :
  watch_inv st -> 0 <= i < w_count st -> lookupZ (w_slots st) i = Some s -> slot_ok s' -> live s' -> w_queued s' = false ->
  (forall i s, lookupZ (w_slots st) i = Some s -> live s -> w_device s = w_device s' -> w_object s = w_object s' -> False) ->
  watch_inv (put_slot st i s').
Proof.
  intros HI Hi Hs Hok Hl Hq Hone. pose proof (wi_count _ HI) as Hc.
  constructor; cbn [put_slot w_slots w_count w_queue].
  - rewrite lengthZ_insertZ. apply HI.
  - apply HI.
  - intros j x. rewrite lookupZ_insertZ by lia. case_decide; [by intros [= <-]|]. apply HI.
  - intros j x. rewrite lookupZ_insertZ by lia. case_decide; [lia|]. apply HI.
  - apply HI.
  - intros j x. rewrite lookupZ_insertZ by lia. case_decide; [congruence|]. apply HI.
  - intros j k x y. rewrite !lookupZ_insertZ by lia. repeat case_decide; subst; intros Hx Hy; simplify_eq; [done|..];
      intros Lx Ly Ed Eo.
    + destruct (Hone k y); auto.
    + destruct (Hone j x); auto.
    + by apply (wi_once _ HI j k x y).
Qed.

(** A filled slot is the one new watch. *)
Lemma filled_view st st' i s' t :
  watch_inv st -> watch_inv st' -> t = watch_token i (w_generation s') ->
  (forall j x, lookupZ (w_slots st') j = Some x -> live x ->
     (j = i /\ x = s') \/ (j <> i /\ lookupZ (w_slots st) j = Some x)) ->
  (forall j x, lookupZ (w_slots st) j = Some x -> live x -> j <> i /\ lookupZ (w_slots st') j = Some x) ->
  lookupZ (w_slots st') i = Some s' -> live s' ->
  watch_view st !! t = None /\ watch_view st' = <[t := watch_of s']> (watch_view st).
Proof.
  intros HI HI' -> Hfrom Hto Hs Hl.
  assert (Hnew : names st' (watch_token i (w_generation s')) i s').
  { split; [by apply (live_below st' HI' i s')|done]. }
  assert (Hone : forall j x, names st (watch_token i (w_generation s')) j x -> False).
  { intros j x (Hj & Hx & Hlx & Ht). destruct (Hto j x Hx Hlx) as [Hne Hx'].
    assert (Hn : names st' (watch_token i (w_generation s')) j x) by (split; [by apply (live_below st' HI' j x)|done]).
    destruct (names_fun _ HI' _ _ _ _ _ Hnew Hn). done. }
  assert (Hnone : watch_view st !! watch_token i (w_generation s') = None).
  { apply eq_None_not_Some. intros [w (j & x & Hx & _)%view_lookup]; [|done]. eauto. }
  split; [done|]. apply view_ext; [done|]. intros t w. rewrite lookup_insert_Some, view_lookup by done. split.
  - intros [[<- <-]|(Hne & j & x & (Hj & Hx & Hlx & ->) & ->)]; [eauto|]. destruct (Hto j x Hx Hlx) as [_ Hx'].
    exists j, x. split; [|done]. split; [by apply (live_below st' HI' j x)|done].
  - intros (j & x & (Hj & Hx & Hlx & ->) & ->). destruct (Hfrom j x Hx Hlx) as [[-> ->]|[Hne Hx']]; [by left|right].
    split.
    + intros Heq. apply (Hone j x). split; [by apply (live_below st HI j x)|done].
    + exists j, x. split; [|done]. split; [by apply (live_below st HI j x)|done].
Qed.

(** A call that returns, keeps the invariant, releases the mutex and is the
    abstract call. *)
Definition implemented (c : watch_call) (st : watch_state) : Prop :=
  exists st' a, watch_run c st = Some (st', a) /\ watch_inv st' /\ w_locked st' = false /\
    watch_spec (abstraction st) c a (abstraction st').

Definition ready (st : watch_state) : Prop := watch_inv st /\ w_locked st = false.

Lemma view_size_full st :
  watch_inv st -> (forall i s, 0 <= i < w_count st -> lookupZ (w_slots st) i = Some s -> live s) ->
  Z.of_nat (size (watch_view st)) = w_count st.
Proof.
  intros HI Hall. pose proof (wi_count _ HI) as Hc.
  rewrite <- length_map_to_list, view_to_list by done. unfold watch_entries.
  assert (Hlen : forall l : list Z, (forall i, i ∈ l -> 0 <= i < w_count st) ->
                   length (omap (entry (w_slots st)) l) = length l).
  { intros l. induction l as [|i l IH]; intros Hl; [done|]. csimpl. destruct (Hl i) as [H0 H1]; [set_solver|].
    destruct (lookupZ_is_Some (w_slots st) i) as [s Hs]; [lia|].
    unfold entry. rewrite Hs. pose proof (Hall i s ltac:(lia) Hs) as Hlv. unfold live in Hlv.
    rewrite (proj2 (Z.eqb_neq _ _) Hlv). csimpl. f_equal. apply IH. set_solver. }
  rewrite Hlen by (intros i ?%elem_of_seqZ; lia). rewrite length_seqZ. lia.
Qed.

(** A new watch in the next slot of an array that has room. *)
Lemma retain_grown st g d o s :
  watch_inv st -> w_count st < UINT32_MAX ->
  (forall i x, lookupZ (w_slots st) i = Some x -> live x -> w_device x = d -> w_object x = o -> False) ->
  forall slots, w_count st < lengthZ slots ->
    (forall i, i < w_count st -> lookupZ slots i = lookupZ (w_slots st) i) ->
    (forall i y, lookupZ slots i = Some y -> w_count st <= i -> y = zero_slot) ->
    let st1 := mk_watch (w_locked st) slots (w_count st + 1) (w_queue st) (w_queue_capacity st) (w_shutdown st) in
    let x' := mk_slot d o s s (next_generation 0) 1 0 false in
    lookupZ slots (w_count st) = Some zero_slot /\ watch_inv (put_slot st1 (w_count st) x') /\
    watch_spec (watch_view st, false) (Retain g d o s)
      (Retained HL_STATUS_OK (Some (watch_token (w_count st) (next_generation 0), true)))
      (watch_view (put_slot st1 (w_count st) x'), false).
Proof.
  intros HI Hmax Hno' slots Hlen Hold Hnew st1 x'. pose proof (wi_count _ HI) as Hc.
  assert (Hnone : forall t w, watch_view st !! t = Some w -> ~ same_file w d o).
  { intros t w (i & x & (Hi & Hx & Hl & _) & ->)%view_lookup [Ed Eo]; [|done]. by apply (Hno' i x). }
  assert (HI' : watch_inv (put_slot st1 (w_count st) x')) by (by apply grown_inv).
  split. { destruct (lookupZ_is_Some slots (w_count st)) as [y Hy]; [lia|]. by rewrite Hy, (Hnew _ _ Hy ltac:(lia)). }
  split; [done|].
  destruct (filled_view st (put_slot st1 (w_count st) x') (w_count st) x' (watch_token (w_count st) (next_generation 0)))
    as [Hn Hv]; [done|done|done|..].
  - intros j y. cbn [put_slot w_slots st1]. rewrite lookupZ_insertZ by lia. case_decide; [left; by simplify_eq|].
    intros Hy Hl. right. split; [done|]. destruct (Z.lt_ge_cases j (w_count st)); [by rewrite <- Hold|].
    rewrite (Hnew j y) in Hl by (done || lia). by destruct Hl.
  - intros j y Hy Hl. pose proof (live_below st HI j y Hy Hl). cbn [put_slot w_slots st1].
    split; [lia|]. rewrite lookupZ_insertZ_ne by lia. rewrite Hold by lia. done.
  - cbn [put_slot w_slots st1]. apply lookupZ_insertZ_eq. lia.
  - done.
  - rewrite Hv. by apply SRetainNew.
Qed.

(** A new watch in the slot that was claimed. *)
Lemma retain_fresh st g d o s free :
  ready st -> w_shutdown st = false ->
  retain_loop (w_slots st) (Z.to_nat (w_count st)) 0 None d o = Some (inr free) -> implemented (Retain g d o s) st.
Proof.
  intros [HI Hlk] Hsd Hloop. pose proof (wi_count _ HI) as Hc.
  destruct (retain_loop_spec (w_slots st) (w_count st) d o (Z.to_nat (w_count st)) 0 None) as (r & Hr & Hspec); [lia..|].
  rewrite Hloop in Hr. injection Hr as <-. destruct Hspec as [Hno Hfree].
  assert (Hno' : forall i x, lookupZ (w_slots st) i = Some x -> live x -> w_device x = d -> w_object x = o -> False).
  { intros i x Hx Hl. apply (Hno i x); [by apply (live_below st HI i x)|done..]. }
  assert (Hnone : forall t w, watch_view st !! t = Some w -> ~ same_file w d o).
  { intros t w (i & x & (Hi & Hx & Hl & _) & ->)%view_lookup [Ed Eo]; [|done]. by apply (Hno' i x). }
  unfold implemented, abstraction. cbn [watch_run]. unfold hl_linux_watch_retain. rewrite Hlk, Hsd, Hloop.
  unfold retain_claim. destruct free as [i|].
  - destruct Hfree as [?|(_ & Hi & x & Hx & Hz)]; [done|]. rewrite Hx. cbn [mbind option_bind].
    set (g' := next_generation (w_generation x)). set (x' := mk_slot d o s s g' 1 0 false).
    assert (Hok : slot_ok x').
    { constructor; cbn; [|lia|done]. apply next_generation_ok. pose proof (so_generation _ (wi_slot _ HI _ _ Hx ltac:(lia))) as Hg.
      unfold generation_ok in Hg. lia. }
    assert (HI' : watch_inv (put_slot st i x')) by (by apply (refilled_inv st i x x')).
    destruct (filled_view st (put_slot st i x') i x' (watch_token i g')) as [Hn Hv]; [done|done|done|..].
    + intros j y. cbn [put_slot w_slots]. rewrite lookupZ_insertZ by lia. case_decide; [left; by simplify_eq|by right].
    + intros j y Hy Hl. cbn [put_slot w_slots]. destruct (decide (i = j)) as [<-|]; [unfold live in Hl; congruence|].
      by rewrite lookupZ_insertZ_ne.
    + cbn [put_slot w_slots]. apply lookupZ_insertZ_eq. lia.
    + done.
    + do 2 eexists. split; [done|]. split; [done|]. split; [done|]. cbn [put_slot w_shutdown]. rewrite Hsd, Hv.
      by apply SRetainNew.
  - destruct Hfree as [_ Hall]. destruct (Z.eqb_spec (w_count st) UINT32_MAX) as [Hfull|Hroom].
    { do 2 eexists. split; [done|]. split; [done|]. split; [done|]. rewrite Hsd. apply SRetainFull; [done|].
      rewrite view_size_full by (done || (intros i x ? ?; by apply (Hall i))). done. }
    pose proof (wi_max _ HI).
    pose proof (retain_grown st g d o s HI ltac:(lia) Hno') as Hgrow.
    pose proof (lengthZ_nonneg (w_slots st)).
    destruct (Z.eqb_spec (w_count st) (lengthZ (w_slots st))) as [Heq|Hne].
    + destruct g; [|do 2 eexists; split; [done|]; split; [done|]; split; [done|]; rewrite Hsd; by apply SRetainNoMemory].
      set (cap := if lengthZ (w_slots st) =? 0 then 8 else lengthZ (w_slots st) * 2).
      assert (Hcap : lengthZ (w_slots st) < cap) by (unfold cap; destruct (Z.eqb_spec (lengthZ (w_slots st)) 0); lia).
      edestruct (Hgrow (w_slots st ++ replicate (Z.to_nat (cap - lengthZ (w_slots st))) zero_slot)) as (Hz & HI' & Hsp).
      * rewrite lengthZ_app. unfold lengthZ at 2. rewrite length_replicate. lia.
      * intros i Hi. apply lookupZ_app_l. lia.
      * intros i y Hy Hi. replace i with (lengthZ (w_slots st) + (i - w_count st)) in Hy by lia.
        rewrite lookupZ_app_r in Hy by lia. apply lookupZ_elem in Hy. by apply list_elem_of_In, elem_of_replicate in Hy as [-> _].
      * cbn [w_slots]. rewrite Hz. cbn [mbind option_bind]. do 2 eexists. split; [done|]. split; [done|]. split; [done|].
        rewrite Hsd. exact Hsp.
    + edestruct (Hgrow (w_slots st)) as (Hz & HI' & Hsp); [lia|done|apply HI|].
      cbn [w_slots]. rewrite Hz. cbn [mbind option_bind]. do 2 eexists. split; [done|]. split; [done|]. split; [done|].
      rewrite Hsd. exact Hsp.
Qed.

Lemma retain_refines g d o s st : ready st -> implemented (Retain g d o s) st.
Proof.
  intros [HI Hlk]. destruct (w_shutdown st) eqn:Hsd.
  { unfold implemented, abstraction. cbn [watch_run]. unfold hl_linux_watch_retain. rewrite Hlk, Hsd. cbn [mbind option_bind].
    do 2 eexists. split; [done|]. split; [done|]. split; [done|]. rewrite Hsd. constructor. }
  destruct (retain_loop_spec (w_slots st) (w_count st) d o (Z.to_nat (w_count st)) 0 None) as (r & Hr & Hspec);
    [lia|pose proof (wi_count _ HI); lia|apply HI|].
  destruct r as [[i x]|free]; [|by apply (retain_fresh st g d o s free)].
  destruct Hspec as (Hi & Hx & Hl & Ed & Eo).
  assert (Hn : names st (watch_token i (w_generation x)) i x) by done.
  assert (Hv : watch_view st !! watch_token i (w_generation x) = Some (watch_of x)) by (apply view_lookup; eauto).
  unfold implemented, abstraction. cbn [watch_run]. unfold hl_linux_watch_retain. rewrite Hlk, Hsd, Hr.
  destruct (Z.eqb_spec (w_references x) UINT32_MAX) as [Hmax|Hmax]; cbn [mbind option_bind].
  { do 2 eexists. split; [done|]. split; [done|]. split; [done|]. rewrite Hsd. by apply (SRetainMany _ _ _ _ _ _ _ Hv). }
  pose proof (names_slot_ok _ HI _ _ _ Hn) as [Hg Href Hdead].
  set (x' := mk_slot _ _ _ _ _ _ _ _).
  assert (Hu : u32 (w_references x + 1) = w_references x + 1) by (apply u32_small; unfold UINT32_MAX in *; lia).
  assert (Hl' : live x') by (unfold live; cbn; lia).
  assert (HI' : watch_inv (put_slot st i x')).
  { apply (put_inv st (watch_token i (w_generation x)) i x); try done.
    - constructor; cbn; [done| |lia]. rewrite Hu. unfold UINT32_MAX in *. lia.
    - cbn. intros Hq. by apply (wi_queued _ HI i x). }
  do 2 eexists. split; [done|]. split; [done|]. split; [done|]. cbn [put_slot w_shutdown]. rewrite Hsd.
  rewrite (put_view st (watch_token i (w_generation x)) i x) by done.
  replace (watch_of x') with (with_users (watch_of x) (f_users (watch_of x) + 1)) by (unfold watch_of, with_users; cbn; by rewrite Hu).
  apply SRetainAgain; [done|done|]. cbn. unfold UINT32_MAX in *. lia.
Qed.

(** ** The watch set: release, changes and fork

    The calls of the second half of [watch.c] implement the specification. *)

(** A call whose answer and next state are known. *)
Ltac answer := do 2 eexists; split; [reflexivity|].

(** ** Release and enqueue *)

Lemma release_refines t st : 0 <= t < 2 ^ 64 -> ready st -> implemented (Release t) st.
Proof.
  intros Ht [HI Hlk]. unfold implemented, abstraction. cbn [watch_run]. unfold hl_linux_watch_release. rewrite Hlk.
  destruct (watch_lookup st t) as [[i s]|] eqn:Hlook; cbn [mbind option_bind]; answer.
  2:{ split; [done|]. split; [done|]. apply SReleaseStale. by apply watch_lookup_None. }
  apply watch_lookup_Some in Hlook; [|done..].
  pose proof (names_slot_ok _ HI _ _ _ Hlook) as [Hg Href Hdead]. pose proof Hlook as (_ & Hs & Hl & _).
  assert (Hv : watch_view st !! t = Some (watch_of s)) by (apply view_lookup; eauto).
  unfold live in Hl. destruct (Z.eqb_spec (w_references s - 1) 0) as [Hz|Hz].
  - set (s' := mk_slot _ _ _ _ _ _ _ _).
    assert (HI' : watch_inv (put_slot st i s')) by (apply (put_inv st t i s); try done; constructor; cbn; (done || lia)).
    split; [done|]. split; [done|]. cbn [put_slot w_shutdown].
    rewrite (put_dead_view st t i s) by (done || (unfold live; cbn; lia)).
    apply (SReleaseLast _ _ _ _ Hv). cbn. lia.
  - set (s' := mk_slot _ _ _ _ _ _ _ _). assert (Hl' : live s') by (unfold live; cbn; lia).
    assert (HI' : watch_inv (put_slot st i s')).
    { apply (put_inv st t i s); try done; [constructor; cbn; (done || lia)|]. cbn. intros Hq. by apply (wi_queued _ HI i s). }
    split; [done|]. split; [done|]. cbn [put_slot w_shutdown]. rewrite (put_view st t i s) by done.
    apply (SReleaseOne _ _ _ _ Hv). cbn. lia.
Qed.

(** A longer queue, and the same slots. *)
Definition longer (st : watch_state) (i capacity : Z) : watch_state :=
  mk_watch (w_locked st) (w_slots st) (w_count st) (w_queue st ++ [i]) capacity (w_shutdown st).

Lemma longer_inv st i capacity : watch_inv st -> 0 <= i < w_count st -> watch_inv (longer st i capacity).
Proof.
  intros HI Hi. constructor; try apply HI; cbn.
  - intros p [Hp|Hp]%elem_of_app; [by apply HI|]. apply list_elem_of_singleton in Hp. lia.
  - intros j x Hx Hq. apply elem_of_app. left. by apply (wi_queued _ HI j x).
Qed.

Lemma enqueue_refines g t size flags st : 0 <= t < 2 ^ 64 -> ready st -> implemented (Enqueue g t size flags) st.
Proof.
  intros Ht [HI Hlk]. unfold implemented, abstraction. cbn [watch_run]. unfold hl_linux_watch_enqueue. rewrite Hlk.
  destruct (watch_lookup st t) as [[i s]|] eqn:Hlook; cbn [mbind option_bind].
  2:{ answer. split; [done|]. split; [done|]. apply SEnqueueStale. by apply watch_lookup_None. }
  apply watch_lookup_Some in Hlook; [|done..].
  pose proof (names_slot_ok _ HI _ _ _ Hlook) as [Hg Href Hdead]. pose proof Hlook as (_ & Hs & Hl & _). unfold live in Hl.
  assert (Hv : watch_view st !! t = Some (watch_of s)) by (apply view_lookup; eauto).
  destruct (w_shutdown st) eqn:Hsd.
  { answer. split; [done|]. split; [done|]. rewrite Hsd. by apply (SEnqueueStopped _ _ _ _ _ _ Hv). }
  assert (Hok : forall q, slot_ok (mk_slot (w_device s) (w_object s) (w_size s) size (w_generation s) (w_references s)
                                     (Z.lor (w_pending_flags s) flags) q)) by (intros q; constructor; cbn; (done || lia)).
  destruct (w_queued s) eqn:Hq; [|destruct (_ && negb g) eqn:Hroom]; cbn [mbind option_bind].
  - answer. assert (HI' : watch_inv (put_slot st i (mk_slot (w_device s) (w_object s) (w_size s) size (w_generation s)
      (w_references s) (Z.lor (w_pending_flags s) flags) true))).
    { apply (put_inv st t i s); try done. intros _. by apply (wi_queued _ HI i s). }
    split; [done|]. split; [done|]. cbn [put_slot w_shutdown]. rewrite Hsd, (put_view st t i s) by done.
    apply (SEnqueue _ _ _ _ _ _ Hv).
  - answer. assert (HI' : watch_inv (put_slot st i (mk_slot (w_device s) (w_object s) (w_size s) size (w_generation s)
      (w_references s) (Z.lor (w_pending_flags s) flags) false))) by (by apply (put_inv st t i s)).
    split; [done|]. split; [done|]. cbn [put_slot w_shutdown]. rewrite Hsd, (put_view st t i s) by done.
    apply andb_true_iff in Hroom as [_ Hg'%negb_true_iff]. subst g. by apply (SEnqueueNoMemory _ _ _ _ _ Hv).
  - answer. cbn [put_slot w_locked w_slots w_count w_queue w_shutdown]. match goal with |- context [mk_watch _ _ _ (_ ++ _) ?c _] => set (cap := c) end.
    set (s' := mk_slot _ _ _ _ _ _ _ _).
    pose proof Hlook as (Hi & _).
    pose proof (longer_inv st i cap HI Hi) as HI2.
    assert (HI' : watch_inv (put_slot (longer st i cap) i s')).
    { apply (put_inv _ t i s); try done. cbn. set_solver. }
    split; [exact HI'|]. split; [done|]. rewrite Hsd.
    pose proof (put_view (longer st i cap) t i s s' HI2 HI' Hlook eq_refl Hl) as Hview.
    unfold put_slot, longer in Hview. cbn in Hview. rewrite Hsd in Hview.
    cbn. rewrite Hview. apply (SEnqueue _ _ _ _ _ _ Hv).
Qed.

(** ** Drain *)

Definition settle_slot (s : watch_slot) : watch_slot :=
  if negb (w_queued s) || (w_references s =? 0) then s
  else mk_slot (w_device s) (w_object s) (w_pending_size s) (w_pending_size s) (w_generation s) (w_references s) 0 false.

Definition slot_report (slots : list watch_slot) (i : Z) : option watch_change :=
  match lookupZ slots i with
  | Some s => if negb (w_queued s) || (w_references s =? 0) then None else report (watch_token i (w_generation s), watch_of s)
  | None => None
  end.

Lemma slot_report_Some slots i c :
  slot_report slots i = Some c ->
  exists s, lookupZ slots i = Some s /\ w_queued s = true /\ live s /\ c_token c = watch_token i (w_generation s).
Proof.
  unfold slot_report, report, watch_of, live. destruct (lookupZ slots i) as [s|]; [|done]. cbn.
  destruct (w_queued s) eqn:Hq, (Z.eqb_spec (w_references s) 0); cbn; try done. intros [= <-]. eauto.
Qed.

Lemma drain_loop_spec queue slots :
  (forall i, i ∈ queue -> exists s, lookupZ slots i = Some s /\ index_ok i /\ generation_ok (w_generation s)) ->
  exists slots' cs, drain_loop queue slots = Some (slots', cs) /\
    lengthZ slots' = lengthZ slots /\
    (forall i, lookupZ slots' i = if decide (i ∈ queue) then settle_slot <$> lookupZ slots i else lookupZ slots i) /\
    NoDup cs /\ (forall c, c ∈ cs <-> exists i, i ∈ queue /\ slot_report slots i = Some c).
Proof.
  revert slots. induction queue as [|p queue IH]; intros slots Hq.
  { exists slots, []. repeat split; [constructor|set_solver|set_solver]. }
  destruct (Hq p) as (s & Hs & Hp & Hg); [set_solver|]. cbn [drain_loop]. rewrite Hs.
  destruct (negb (w_queued s) || (w_references s =? 0)) eqn:Hskip.
  - destruct (IH slots) as (slots' & cs & Hrun & Hlen & Hlook & Hnd & Hcs); [set_solver|].
    assert (Hrep : slot_report slots p = None) by (unfold slot_report; by rewrite Hs, Hskip).
    exists slots', cs. split; [done|]. split; [done|]. split; [|split; [done|]].
    + intros i. rewrite Hlook. destruct (decide (i = p)) as [->|].
      * rewrite Hs. cbn. unfold settle_slot. rewrite Hskip. by repeat case_decide.
      * destruct (decide (i ∈ queue)), (decide (i ∈ p :: queue)); set_solver.
    + intros c. rewrite Hcs. split; [set_solver|]. intros (i & [->|Hi]%elem_of_cons & Hc); [congruence|eauto].
  - set (s' := mk_slot _ _ _ _ _ _ _ _). pose proof (lookupZ_Some_range _ _ _ Hs) as Hr.
    assert (Hother : forall i, i <> p -> lookupZ (insertZ slots p s') i = lookupZ slots i) by (intros; by apply lookupZ_insertZ_ne).
    assert (Hself : lookupZ (insertZ slots p s') p = Some s') by (by apply lookupZ_insertZ_eq).
    destruct (IH (insertZ slots p s')) as (slots' & cs & Hrun & Hlen & Hlook & Hnd & Hcs).
    { intros i Hi. destruct (decide (i = p)) as [->|Hne]; [by exists s'|].
      rewrite Hother by done. apply Hq. set_solver. }
    rewrite Hrun. eexists _, _. split; [done|]. split; [by rewrite Hlen, lengthZ_insertZ|].
    set (c0 := mk_change _ _ _ _ _ _).
    assert (Hc0 : slot_report slots p = Some c0).
    { unfold slot_report, report. rewrite Hs, Hskip. apply orb_false_iff in Hskip as [Hq'%negb_false_iff _]. cbn. by rewrite Hq'. }
    assert (Hp' : slot_report (insertZ slots p s') p = None) by (unfold slot_report; by rewrite Hself).
    assert (Hrep : forall i, i <> p -> slot_report (insertZ slots p s') i = slot_report slots i)
      by (intros i Hne; unfold slot_report; by rewrite Hother).
    split; [|split].
    + intros i. rewrite Hlook. destruct (decide (i = p)) as [->|Hne].
      * rewrite Hself, Hs. assert (Hst : settle_slot <$> Some s = Some s') by (cbn; unfold settle_slot; by rewrite Hskip).
        rewrite Hst. destruct (decide (p ∈ queue)), (decide (p ∈ p :: queue)); set_solver.
      * rewrite Hother by done. destruct (decide (i ∈ queue)), (decide (i ∈ p :: queue)); set_solver.
    + constructor; [|done]. rewrite Hcs. intros (i & Hi & Hc).
      destruct (decide (i = p)) as [->|Hne]; [congruence|]. rewrite Hrep in Hc by done.
      apply slot_report_Some in Hc as (x & Hx & _ & _ & Ht). destruct (Hq i) as (y & Hy & Hiok & Hgy); [set_solver|].
      replace y with x in Hgy by congruence.
      destruct (token_inj p (w_generation s) i (w_generation x)) as [-> _]; done.
    + intros c. rewrite elem_of_cons, Hcs. split.
      * intros [->|(i & Hi & Hc)]; [exists p; set_solver|]. destruct (decide (i = p)) as [->|Hne]; [congruence|].
        rewrite Hrep in Hc by done. exists i. set_solver.
      * intros (i & [->|Hi]%elem_of_cons & Hc); [left; congruence|].
        destruct (decide (i = p)) as [->|Hne]; [left; congruence|]. right. exists i. by rewrite Hrep.
Qed.

Lemma settle_keeps s :
  w_device (settle_slot s) = w_device s /\ w_object (settle_slot s) = w_object s /\
  w_generation (settle_slot s) = w_generation s /\ w_references (settle_slot s) = w_references s.
Proof. unfold settle_slot. by destruct (_ || _). Qed.

Lemma settle_watch s : live s -> watch_of (settle_slot s) = settled (watch_of s).
Proof.
  unfold live, settle_slot, settled, watch_of. intros Hl. rewrite (proj2 (Z.eqb_neq _ _) Hl). cbn.
  by destruct (w_queued s) eqn:Hq; cbn; rewrite ?Hq.
Qed.

(** Slots changed one by one, each kept live or dead, in place and with its
    file: the watches that are shown are the changed ones. *)
Lemma mapped_names st st' (f : watch_slot -> watch_slot) t i x :
  (forall j, lookupZ (w_slots st') j = f <$> lookupZ (w_slots st) j) -> w_count st' = w_count st ->
  (forall s, w_references (f s) = w_references s) -> (forall s, w_generation (f s) = w_generation s) ->
  names st' t i x <-> exists s, names st t i s /\ x = f s.
Proof.
  intros Hslots Hcount Href Hgen. unfold names, live. rewrite Hcount, Hslots. split.
  - intros (Hi & Hx & Hl & ->). destruct (lookupZ (w_slots st) i) as [s|]; [|done]. cbn in Hx. injection Hx as <-.
    exists s. rewrite Hgen. by rewrite Href in Hl.
  - intros (s & (Hi & -> & Hl & ->) & ->). by rewrite Href, Hgen.
Qed.

(** Every slot settled, and nothing queued. *)
Section Drained.
Context (st st' : watch_state) (HI : watch_inv st).
Context (Hall : forall i, lookupZ (w_slots st') i = settle_slot <$> lookupZ (w_slots st) i).
Context (Hlen : lengthZ (w_slots st') = lengthZ (w_slots st)) (Hcount : w_count st' = w_count st) (Hqueue : w_queue st' = []).

Lemma drained_slot i s :
  lookupZ (w_slots st') i = Some s -> exists x, lookupZ (w_slots st) i = Some x /\ s = settle_slot x.
Proof using Hall.
  rewrite Hall. destruct (lookupZ (w_slots st) i) as [x|]; [|done]. intros [= <-]. eauto.
Qed.

Lemma drained_none i s : lookupZ (w_slots st') i = Some s -> w_queued s = true -> False.
Proof using Hall HI.
  intros (x & Hx & ->)%drained_slot Hq. unfold settle_slot in Hq. destruct (w_queued x) eqn:Hqx; [|cbn in Hq; congruence].
  destruct (Z.eqb_spec (w_references x) 0) as [Hz|]; [|done]. pose proof (wi_count _ HI).
  destruct (Z.lt_ge_cases i (w_count st)) as [Hi|Hi].
  - pose proof (so_dead _ (wi_slot _ HI _ _ Hx Hi) Hz). congruence.
  - rewrite (wi_fresh _ HI _ _ Hx Hi) in Hqx. done.
Qed.

Lemma drained_inv : watch_inv st'.
Proof using Hall HI Hlen Hcount Hqueue.
  constructor; rewrite ?Hlen, ?Hcount, ?Hqueue; [apply HI|apply HI| | | | |].
  - intros i s (x & Hx & ->)%drained_slot Hi. destruct (settle_keeps x) as (_ & _ & Eg & Er).
    pose proof (wi_slot _ HI _ _ Hx Hi) as [Sg Sr Sd].
    constructor; rewrite ?Eg, ?Er; [done..|]. intros Hz. unfold settle_slot. rewrite Hz, orb_true_r. auto.
  - intros i s (x & Hx & ->)%drained_slot Hi. by rewrite (wi_fresh _ HI _ _ Hx Hi).
  - set_solver.
  - intros i s Hs Hq. destruct (drained_none i s Hs Hq).
  - intros i j x y (a & Ha & ->)%drained_slot (b & Hb & ->)%drained_slot. unfold live.
    destruct (settle_keeps a) as (-> & -> & _ & ->), (settle_keeps b) as (-> & -> & _ & ->).
    by apply (wi_once _ HI i j a b).
Qed.

Lemma drained_view : watch_view st' = settled <$> watch_view st.
Proof using Hall HI Hlen Hcount Hqueue.
  apply view_ext; [apply drained_inv|]. intros t w. rewrite lookup_fmap, fmap_Some. setoid_rewrite view_lookup; [|done].
  setoid_rewrite (mapped_names st st' settle_slot); [|done|done|apply settle_keeps|apply settle_keeps]. split.
  - intros (w' & (i & s & Hn & ->) & ->). exists i, (settle_slot s). split; [eauto|]. symmetry. apply settle_watch, Hn.
  - intros (i & x & (s & Hn & ->) & ->). exists (watch_of s). split; [eauto|]. apply settle_watch, Hn.
Qed.
End Drained.

Lemma reports_nodup (l : list (Z * watch)) : NoDup l.*1 -> NoDup (omap report l).
Proof.
  induction l as [|[t w] l IH]; [constructor|]. cbn [fmap list_fmap fst]. intros Hnd. inversion Hnd as [|? ? Ht Hl]; subst. csimpl.
  destruct (report (t, w)) as [c|] eqn:Hc; [|auto]. constructor; [|auto].
  intros ([t' w'] & Hin & Hc')%list_elem_of_omap. apply Ht. apply list_elem_of_fmap. exists (t', w'). split; [|done].
  unfold report in *. cbn in *. destruct (f_changed w), (f_changed w'); try done. congruence.
Qed.

(** The changes collected from the queue are the reports of the watches. *)
Lemma reports_exact st c :
  watch_inv st ->
  (exists i, i ∈ w_queue st /\ slot_report (w_slots st) i = Some c) <-> c ∈ omap report (map_to_list (watch_view st)).
Proof.
  intros HI. rewrite list_elem_of_omap. unfold slot_report. split.
  - intros (i & Hi & Hc). destruct (lookupZ (w_slots st) i) as [s|] eqn:Hs; [|done].
    destruct (_ || _) eqn:Hskip; [done|]. exists (watch_token i (w_generation s), watch_of s). split; [|done].
    apply elem_of_map_to_list, view_lookup; [done|]. exists i, s. split; [|done].
    apply orb_false_iff in Hskip as [_ Hr%Z.eqb_neq]. split; [by apply (wi_queue _ HI)|done].
  - intros ([t w] & Hin & Hc). apply elem_of_map_to_list, view_lookup in Hin as (i & s & (Hi & Hs & Hl & ->) & ->); [|done].
    assert (Hq : w_queued s = true) by (unfold report in Hc; cbn in Hc; by destruct (w_queued s)).
    exists i. split; [by apply (wi_queued _ HI i s)|]. unfold live in Hl. by rewrite Hs, Hq, (proj2 (Z.eqb_neq _ _) Hl).
Qed.

Lemma drain_refines g st : ready st -> implemented (Drain g) st.
Proof.
  intros [HI Hlk]. unfold implemented, abstraction. cbn [watch_run]. unfold hl_linux_watch_drain. rewrite Hlk.
  destruct (_ && negb g) eqn:Hroom.
  { apply andb_true_iff in Hroom as [_ Hg%negb_true_iff]. subst g. answer. split; [done|]. split; [done|]. apply SDrainNoMemory. }
  destruct (drain_loop_spec (w_queue st) (w_slots st)) as (slots & cs & Hrun & Hlen & Hlook & Hnd & Hcs).
  { intros i Hi. pose proof (wi_queue _ HI _ Hi). pose proof (wi_count _ HI).
    destruct (lookupZ_is_Some (w_slots st) i) as [s Hs]; [lia|]. exists s. split; [done|]. split; [by apply (count_index st HI)|].
    apply (wi_slot _ HI _ _ Hs). lia. }
  rewrite Hrun. answer.
  assert (Hall : forall i, lookupZ slots i = settle_slot <$> lookupZ (w_slots st) i).
  { intros i. rewrite Hlook. case_decide as Hi; [done|]. destruct (lookupZ (w_slots st) i) as [s|] eqn:Hs; [|done].
    cbn. unfold settle_slot. destruct (w_queued s) eqn:Hq; [|done]. by destruct Hi; apply (wi_queued _ HI i s). }
  split; [by apply (drained_inv st)|]. split; [done|].
  match goal with |- context [watch_view (mk_watch ?l ?a ?b ?c ?d ?e)] =>
    rewrite (drained_view st (mk_watch l a b c d e)) by done end.
  apply SDrain. apply NoDup_Permutation; [done|apply reports_nodup, NoDup_fst_map_to_list|].
  intros c. rewrite Hcs. by apply reports_exact.
Qed.

Lemma shutdown_refines st : ready st -> implemented Shutdown st.
Proof.
  intros [HI Hlk]. unfold implemented, abstraction. cbn [watch_run]. unfold hl_linux_watch_shutdown. rewrite Hlk.
  answer. split; [by constructor; apply HI|]. split; [done|]. constructor.
Qed.

(** ** The watch set: fork

    A fork records the live watches; the child gives each of them a token the
    parent never used for a live watch, and forgets what was waiting. *)

Lemma seqZ_step m n : seqZ m (Z.of_nat (S n)) = m :: seqZ (m + 1) (Z.of_nat n).
Proof. rewrite seqZ_cons by lia. f_equal. f_equal; lia. Qed.

(** ** Recording *)

Lemma record_loop_spec slots capacity n index records :
  0 <= index -> index + Z.of_nat n <= lengthZ slots -> lengthZ records <= capacity ->
  let live := fork_record_of <$> omap (entry slots) (seqZ index (Z.of_nat n)) in
  if decide (lengthZ records + lengthZ live <= capacity)
  then record_loop slots n index capacity records = Some (inr (records ++ live))
  else exists part, record_loop slots n index capacity records = Some (inl part).
Proof.
  revert index records. induction n as [|n IH]; intros index records Hi Hn Hcap live.
  { change live with (@nil fork_record). change (lengthZ (@nil fork_record)) with 0. rewrite Z.add_0_r, decide_True by done.
    cbn. by rewrite app_nil_r. }
  cbn [record_loop]. destruct (lookupZ_is_Some slots index) as [s Hs]; [lia|]. rewrite Hs.
  assert (Hlive : live = (if w_references s =? 0 then []
      else [mk_record (watch_token index (w_generation s)) (w_device s) (w_object s)]) ++
      (fork_record_of <$> omap (entry slots) (seqZ (index + 1) (Z.of_nat n)))).
  { unfold live. rewrite seqZ_step. csimpl. unfold entry at 1. rewrite Hs. by destruct (w_references s =? 0). }
  rewrite Hlive. set (rest := fork_record_of <$> _). pose proof (lengthZ_nonneg rest).
  destruct (w_references s =? 0).
  - apply (IH (index + 1) records); [lia..|done].
  - rewrite lengthZ_app. set (r := mk_record _ _ _). change (lengthZ [r]) with 1.
    destruct (Z.eqb_spec (lengthZ records) capacity) as [Hfull|Hroom].
    { rewrite decide_False by lia. eauto. }
    assert (Hr : lengthZ (records ++ [r]) = lengthZ records + 1) by (by rewrite lengthZ_app).
    specialize (IH (index + 1) (records ++ [r]) ltac:(lia) ltac:(lia) ltac:(lia)). cbv zeta in IH. fold rest in IH.
    rewrite Hr, <- app_assoc in IH. cbn [app] in *. rewrite Z.add_assoc. done.
Qed.

(** Both preparations record the watches and hold or release the mutex. *)
Lemma fork_take_spec sn capacity st :
  ready st -> 0 <= capacity ->
  exists st' s records, fork_take sn capacity st = Some (st', s, records) /\
    ((s = HL_STATUS_OK /\ records = fork_record_of <$> watch_entries st /\ st' = put_locked (negb sn) st) \/
     (s = HL_STATUS_RESOURCE_LIMIT /\ capacity < Z.of_nat (size (watch_view st)) /\ st' = st)).
Proof.
  intros [HI Hlk] Hcap. pose proof (wi_count _ HI) as Hc.
  pose proof (record_loop_spec (w_slots st) capacity (Z.to_nat (w_count st)) 0 []) as Hloop. cbv zeta in Hloop.
  rewrite Z2Nat.id in Hloop by lia. change (omap (entry (w_slots st)) (seqZ 0 (w_count st))) with (watch_entries st) in Hloop.
  specialize (Hloop ltac:(lia) ltac:(lia) Hcap). unfold fork_take, hl_linux_watch_fork_snapshot, hl_linux_watch_fork_prepare.
  rewrite Hlk. assert (Hst : put_locked false st = st) by (unfold put_locked; rewrite <- Hlk; by destruct st).
  case_decide as Hfit.
  - rewrite Hloop. destruct sn; do 3 eexists; (split; [done|]); left; done.
  - destruct Hloop as [part ->]. rewrite Hst.
    assert (capacity < Z.of_nat (size (watch_view st))).
    { rewrite <- length_map_to_list, view_to_list by done. unfold lengthZ in Hfit. rewrite length_fmap in Hfit. cbn in Hfit. lia. }
    destruct sn; do 3 eexists; (split; [done|]); right; done.
Qed.

Lemma fork_parent_refines sn capacity st : 0 <= capacity -> ready st -> implemented (ForkParent sn capacity) st.
Proof.
  intros Hcap Hst. pose proof Hst as [HI Hlk]. unfold implemented, abstraction. cbn [watch_run].
  destruct (fork_take_spec sn capacity st Hst Hcap) as (st' & s & records & -> & [(-> & -> & ->)|(-> & Hfull & ->)]);
    cbn [mbind option_bind is_ok].
  - answer. assert (He : (if sn then put_locked (negb sn) st else hl_linux_watch_fork_parent (put_locked (negb sn) st)) = st).
    { unfold hl_linux_watch_fork_parent, put_locked. destruct st, sn; cbn in *; by subst. }
    rewrite He. split; [done|]. split; [done|]. apply SForkParent. by rewrite view_to_list.
  - answer. split; [done|]. split; [done|]. by apply (SForkFull _ _ sn capacity); [left|].
Qed.

(** ** The child *)

Lemma child_loop_spec n slots index :
  0 <= index -> index + Z.of_nat n <= lengthZ slots ->
  exists slots', child_loop slots n index = Some slots' /\ lengthZ slots' = lengthZ slots /\
    forall i, lookupZ slots' i =
      if decide (index <= i < index + Z.of_nat n) then child_slot <$> lookupZ slots i else lookupZ slots i.
Proof.
  revert slots index. induction n as [|n IH]; intros slots index Hi Hn.
  { exists slots. split; [done|]. split; [done|]. intros i. by rewrite decide_False by lia. }
  cbn [child_loop]. destruct (lookupZ_is_Some slots index) as [s Hs]; [lia|]. rewrite Hs.
  destruct (IH (insertZ slots index (child_slot s)) (index + 1)) as (slots' & -> & Hlen & Hlook);
    [lia|rewrite lengthZ_insertZ; lia|].
  exists slots'. split; [done|]. split; [by rewrite Hlen, lengthZ_insertZ|]. intros i. rewrite Hlook, lookupZ_insertZ by lia.
  destruct (decide (index = i)) as [<-|Hne]; [rewrite Hs, decide_False, decide_True by lia; done|].
  destruct (decide (index + 1 <= i < index + 1 + Z.of_nat n)), (decide (index <= i < index + Z.of_nat (S n))); done || lia.
Qed.

(** The old token, the new token and the watch at a position. *)
Definition renamed_entry (slots : list watch_slot) (i : Z) : option (Z * Z * watch) :=
  match lookupZ slots i with
  | Some s =>
      if w_references s =? 0 then None
      else Some (watch_token i (w_generation s), watch_token i (next_generation (w_generation s)), watch_of s)
  | None => None
  end.

Section Child.
Context (st : watch_state) (HI : watch_inv st) (slots : list watch_slot).
Context (Hslots : forall i, 0 <= i < w_count st -> lookupZ slots i = child_slot <$> lookupZ (w_slots st) i).

Lemma retoken_spec (ps : list Z) :
  (forall i, i ∈ ps -> 0 <= i < w_count st) ->
  retoken_loop slots (w_count st) (fork_record_of <$> omap (entry (w_slots st)) ps) =
  Some (true, (fun x => fork_record_of (x.1.2, x.2)) <$> omap (renamed_entry (w_slots st)) ps).
Proof using HI Hslots.
  induction ps as [|i ps IH]; intros Hps; [done|]. csimpl.
  assert (Hi : 0 <= i < w_count st) by set_solver. pose proof (wi_count _ HI) as Hc.
  destruct (lookupZ_is_Some (w_slots st) i) as [s Hs]; [lia|].
  assert (He : entry (w_slots st) i = if w_references s =? 0 then None else Some (watch_token i (w_generation s), watch_of s))
    by (unfold entry; by rewrite Hs).
  assert (Hr : renamed_entry (w_slots st) i = if w_references s =? 0 then None
    else Some (watch_token i (w_generation s), watch_token i (next_generation (w_generation s)), watch_of s))
    by (unfold renamed_entry; by rewrite Hs).
  rewrite He, Hr. destruct (w_references s =? 0) eqn:Hz; [apply IH; set_solver|]. csimpl. cbn [retoken_loop r_token fork_record_of fst snd].
  pose proof (so_generation _ (wi_slot _ HI _ _ Hs ltac:(lia))) as Hg. pose proof (count_index st HI i Hi) as Hok.
  rewrite token_low by done. replace (i + 1 - 1) with i by lia.
  destruct (Z.eqb_spec (i + 1) 0); [lia|]. destruct (Z.leb_spec (w_count st) i); [lia|]. cbn [orb].
  rewrite Hslots, Hs by done. cbn [fmap option_fmap option_map child_slot w_references w_generation].
  rewrite Hz, IH by set_solver. done.
Qed.

Lemma child_entries (ps : list Z) :
  (forall i, i ∈ ps -> 0 <= i < w_count st) ->
  omap (entry slots) ps = (fun x => (x.1.2, inherited x.2)) <$> omap (renamed_entry (w_slots st)) ps /\
  omap (entry (w_slots st)) ps = (fun x => (x.1.1, x.2)) <$> omap (renamed_entry (w_slots st)) ps.
Proof using HI Hslots.
  induction ps as [|i ps IH]; intros Hps; [done|]. csimpl. destruct (IH ltac:(set_solver)) as [-> ->].
  assert (Hi : 0 <= i < w_count st) by set_solver. pose proof (wi_count _ HI) as Hc.
  destruct (lookupZ_is_Some (w_slots st) i) as [s Hs]; [lia|]. unfold entry, renamed_entry.
  rewrite Hslots, Hs by done. cbn [fmap option_fmap option_map child_slot w_references w_generation].
  destruct (Z.eqb_spec (w_references s) 0) as [Hz|Hz]; [done|]. csimpl.
  split; [|done]. f_equal.
Qed.
End Child.

Lemma child_inv st slots :
  watch_inv st -> lengthZ slots = lengthZ (w_slots st) ->
  (forall i, lookupZ slots i = if decide (0 <= i < w_count st) then child_slot <$> lookupZ (w_slots st) i else lookupZ (w_slots st) i) ->
  watch_inv (mk_watch false slots (w_count st) [] (w_queue_capacity st) false).
Proof.
  intros HI Hlen Hlook. constructor; cbn [w_slots w_count w_queue]; rewrite ?Hlen; [apply HI|apply HI| | | | |].
  - intros i s Hs Hi. pose proof (lookupZ_Some_range _ _ _ Hs). rewrite Hlook, decide_True in Hs by lia.
    destruct (lookupZ (w_slots st) i) as [x|] eqn:Hx; [|done]. injection Hs as <-.
    pose proof (wi_slot _ HI _ _ Hx Hi) as [Sg Sr Sd]. constructor; [|done|done]. cbn.
    destruct (w_references x =? 0); [done|]. apply next_generation_ok. unfold generation_ok in Sg. lia.
  - intros i s Hs Hi. rewrite Hlook, decide_False in Hs by lia. by apply (wi_fresh _ HI i s).
  - set_solver.
  - intros i s Hs Hq. rewrite Hlook in Hs. case_decide as Hi.
    + destruct (lookupZ (w_slots st) i) as [x|]; [|done]. by injection Hs as <-.
    + pose proof (lookupZ_Some_range _ _ _ Hs). by rewrite (wi_fresh _ HI i s Hs ltac:(lia)) in Hq.
  - assert (Hfrom : forall i s, lookupZ slots i = Some s -> live s -> exists x, lookupZ (w_slots st) i = Some x /\ live x /\
                      w_device s = w_device x /\ w_object s = w_object x).
    { intros i s. rewrite Hlook. case_decide as Hi; [|intros Hs Hl; by exists s].
      destruct (lookupZ (w_slots st) i) as [x|]; [|done]. intros [= <-] Hl. by exists x. }
    intros i j x y Hx Hy Lx Ly Ed Eo.
    destruct (Hfrom i x Hx Lx) as (a & Ha & La & Da & Oa), (Hfrom j y Hy Ly) as (b & Hb & Lb & Db & Ob).
    apply (wi_once _ HI i j a b); congruence || done.
Qed.

(** What the child runs with: the records name exactly its watches. *)
Lemma fork_child_run sn capacity st :
  0 <= capacity -> ready st ->
  (exists part, watch_run (ForkChild sn capacity) st = Some (st, Forked HL_STATUS_RESOURCE_LIMIT part) /\
     capacity < Z.of_nat (size (watch_view st))) \/
  (exists slots out, let st' := mk_watch false slots (w_count st) [] (w_queue_capacity st) false in
     watch_run (ForkChild sn capacity) st = Some (st', Child HL_STATUS_OK out out) /\ watch_inv st' /\
     out = fork_record_of <$> watch_entries st' /\
     (forall i, 0 <= i < w_count st -> lookupZ slots i = child_slot <$> lookupZ (w_slots st) i) /\
     (forall i, ~ 0 <= i < w_count st -> lookupZ slots i = lookupZ (w_slots st) i)).
Proof.
  intros Hcap Hst. pose proof Hst as [HI Hlk]. cbn [watch_run].
  destruct (fork_take_spec sn capacity st Hst Hcap) as (st' & s & records & -> & [(-> & -> & ->)|(-> & Hfull & ->)]);
    cbn [mbind option_bind is_ok]; [right|left; eauto].
  pose proof (wi_count _ HI) as Hc. unfold hl_linux_watch_fork_child, put_locked. cbn [w_slots w_count w_queue_capacity].
  destruct (child_loop_spec (Z.to_nat (w_count st)) (w_slots st) 0) as (slots & -> & Hlen & Hlook); [lia..|].
  rewrite Z2Nat.id in Hlook by lia. change (0 + w_count st) with (w_count st) in Hlook.
  assert (Hslots : forall i, 0 <= i < w_count st -> lookupZ slots i = child_slot <$> lookupZ (w_slots st) i)
    by (intros i Hi; rewrite Hlook, decide_True by done; done).
  assert (Hps : forall i, i ∈ seqZ 0 (w_count st) -> 0 <= i < w_count st) by (intros i ?%elem_of_seqZ; lia).
  unfold watch_entries at 1. rewrite (retoken_spec st HI slots Hslots) by done. cbn [mbind option_bind].
  destruct (child_entries st HI slots Hslots _ Hps) as [Hnew _].
  eexists _, _. split; [done|]. split; [by apply child_inv|]. split.
  - unfold watch_entries. cbn [w_slots w_count]. rewrite Hnew, <- !list_fmap_compose. done.
  - split; [done|]. intros i Hi. by rewrite Hlook, decide_False.
Qed.

Lemma fork_child_refines sn capacity st : 0 <= capacity -> ready st -> implemented (ForkChild sn capacity) st.
Proof.
  intros Hcap Hst. pose proof Hst as [HI Hlk]. unfold implemented, abstraction.
  destruct (fork_child_run sn capacity st Hcap Hst) as [(part & -> & Hfull)|(slots & out & -> & HI' & -> & Hslots & Hrest)].
  { answer. split; [done|]. split; [done|]. by apply (SForkFull _ _ sn capacity); [right|]. }
  answer. split; [done|]. split; [done|]. cbn [w_shutdown].
  assert (Hps : forall i, i ∈ seqZ 0 (w_count st) -> 0 <= i < w_count st) by (intros i ?%elem_of_seqZ; lia).
  destruct (child_entries st HI slots Hslots _ Hps) as [Hnew Hold]. set (l := omap (renamed_entry _) _) in *.
  set (st' := mk_watch _ _ _ _ _ _) in *.
  assert (Hentries : watch_entries st' = (fun x => (x.1.2, inherited x.2)) <$> l) by exact Hnew.
  assert (Hview : watch_view st' = renamed l) by (unfold watch_view, renamed; by rewrite Hentries).
  rewrite Hview, Hentries. apply (SForkChild _ _ _ _ l); [|by rewrite <- list_fmap_compose].
  split; [by rewrite (view_to_list st HI); unfold watch_entries; rewrite Hold|]. split.
  - pose proof (entries_nodup st' HI') as Hnd. rewrite Hentries, <- list_fmap_compose in Hnd. exact Hnd.
  - intros [[t t'] w] (i & Hi & Hr)%list_elem_of_omap. unfold renamed_entry in Hr.
    destruct (lookupZ (w_slots st) i) as [s|] eqn:Hs; [|done]. destruct (w_references s =? 0); [done|].
    injection Hr as <- <- <-. cbn. apply eq_None_not_Some. intros [w (j & x & Hn & _)%view_lookup]; [|done].
    destruct (names_token st HI _ _ _ Hn) as (Ht & Hj & Hg'). pose proof (Hps _ Hi) as Hi'.
    pose proof (so_generation _ (wi_slot _ HI _ _ Hs ltac:(lia))) as Hg.
    destruct (token_inj i (next_generation (w_generation s)) j (w_generation x)) as [<- Heq]; try done.
    + by apply (count_index st HI).
    + apply next_generation_ok. unfold generation_ok in Hg. lia.
    + destruct Hn as (_ & Hx & _). replace x with s in Heq by congruence. by apply (next_generation_ne (w_generation s)).
Qed.

(** ** Every call *)

Lemma watch_call_refines c st : call_ok c -> ready st -> implemented c st.
Proof.
  intros Hok Hst. destruct c; cbn in Hok;
    eauto using retain_refines, release_refines, enqueue_refines, drain_refines, shutdown_refines, fork_parent_refines,
      fork_child_refines.
Qed.

Lemma watch_empty_ready : ready watch_empty /\ abstraction watch_empty = (∅, false).
Proof.
  assert (Hnone : forall i s, lookupZ (w_slots watch_empty) i = Some s -> False).
  { intros i s Hs. apply lookupZ_Some_range in Hs. change (lengthZ _) with 0 in Hs. lia. }
  split; [|done]. split; [|done].
  constructor; try (intros; exfalso; eauto; fail); cbn; [done|done|]. intros p Hp. by apply elem_of_nil in Hp.
Qed.
