(* ===== verification/WatchTheorems.v ===== *)
(** * Properties of the watch set

    Any sequence of calls is a sequence of abstract calls, and tokens are
    fresh. *)

From stdpp Require Import gmap.
From S2P Require Import Prelude Status Watch WatchSpec WatchSteps.

Lemma watch_runs_refine cs st :
  Forall call_ok cs -> ready st ->
  exists st' l, watch_runs cs st = Some (st', l) /\ ready st' /\ watch_specs (abstraction st) cs l (abstraction st').
Proof.
  intros Hcs. revert st. induction Hcs as [|c cs Hc Hcs IH]; intros st Hst.
  { exists st, []. split; [done|]. split; [done|constructor]. }
  destruct (watch_call_refines c st Hc Hst) as (st1 & a & Hrun & HI & Hlk & Hsp).
  destruct (IH st1) as (st2 & l & Hruns & Hst2 & Hsps); [done|].
  exists st2, (a :: l). cbn. rewrite Hrun. cbn. rewrite Hruns. split; [done|]. split; [done|]. by apply (specs_cons _ _ _ (abstraction st1)).
Qed.

(** C40: from an empty set every sequence of calls returns - no index leaves
    its array, the mutex is never left locked - and its answers are those of
    the abstract map from tokens to watches: one watch per file, users
    counted, each changed watch reported exactly once per drain with the sum
    of its flags and its last size, and a child's watches under new tokens
    with nothing pending. *)
Theorem watch_set_refines cs :
  Forall call_ok cs ->
  exists st l, watch_runs cs watch_empty = Some (st, l) /\ w_locked st = false /\
    watch_specs (∅, false) cs l (abstraction st).
Proof.
  intros Hcs. destruct watch_empty_ready as [Hr Ha].
  destruct (watch_runs_refine cs watch_empty Hcs Hr) as (st & l & Hrun & [_ Hlk] & Hsp). rewrite Ha in Hsp. eauto.
Qed.

(** Two files, one retained twice; a coalesced change; a slot reused. *)
Definition watch_demo : list watch_call :=
  [Retain true 1 7 100; Retain true 1 8 50; Retain true 1 7 100; Enqueue true (2 ^ 32 + 1) 120 1;
   Enqueue true (2 ^ 32 + 1) 130 2; Drain true; Release (2 ^ 32 + 2); Retain true 3 9 10; Enqueue true (2 ^ 32 + 2) 5 1;
   ForkChild true 4; Enqueue true (2 ^ 32 + 1) 1 1].

Definition watch_demo_answers : list watch_answer :=
  [Retained HL_STATUS_OK (Some (2 ^ 32 + 1, true)); Retained HL_STATUS_OK (Some (2 ^ 32 + 2, true));
   Retained HL_STATUS_OK (Some (2 ^ 32 + 1, false)); Enqueued HL_STATUS_OK; Enqueued HL_STATUS_OK;
   Drained HL_STATUS_OK [mk_change (2 ^ 32 + 1) 1 7 100 130 3]; Released HL_STATUS_OK (Some true);
   Retained HL_STATUS_OK (Some (2 * 2 ^ 32 + 2, true)); Enqueued HL_STATUS_NOT_FOUND;
   Child HL_STATUS_OK [mk_record (2 * 2 ^ 32 + 1) 1 7; mk_record (3 * 2 ^ 32 + 2) 3 9]
     [mk_record (2 * 2 ^ 32 + 1) 1 7; mk_record (3 * 2 ^ 32 + 2) 3 9];
   Enqueued HL_STATUS_NOT_FOUND].

Lemma watch_demo_ok : Forall call_ok watch_demo.
Proof. repeat constructor; cbn; lia. Qed.

Lemma watch_set_refines_witness :
  Forall call_ok watch_demo /\ (snd <$> watch_runs watch_demo watch_empty) = Some watch_demo_answers /\
  exists st l, watch_runs watch_demo watch_empty = Some (st, l) /\ w_locked st = false /\
    watch_specs (∅, false) watch_demo l (abstraction st).
Proof.
  split; [exact watch_demo_ok|]. split; [vm_compute; reflexivity|]. exact (watch_set_refines watch_demo watch_demo_ok).
Defined.

(** ** Fresh tokens *)

(** The tokens an answer introduces. *)
Definition introduced (a : watch_answer) : list Z :=
  match a with
  | Retained HL_STATUS_OK (Some (t, true)) => [t]
  | Child HL_STATUS_OK records _ => r_token <$> records
  | _ => []
  end.

(** The generation of a slot, zero beyond the array. *)
Definition generation_at (slots : list watch_slot) (i : Z) : Z :=
  match lookupZ slots i with Some s => w_generation s | None => 0 end.

(** A call raises a generation by at most one, and only to introduce a token
    of it. *)
Definition raises (st st' : watch_state) (fresh : list Z) : Prop :=
  (forall i, generation_at (w_slots st) i <= generation_at (w_slots st') i <= generation_at (w_slots st) i + 1) /\
  NoDup fresh /\
  (forall t, t ∈ fresh -> exists i, 0 <= i < w_count st' /\ t = watch_token i (generation_at (w_slots st') i) /\
     generation_at (w_slots st) i < generation_at (w_slots st') i).

Lemma raises_none st st' : (forall i, generation_at (w_slots st') i = generation_at (w_slots st) i) -> raises st st' [].
Proof. intros H. split; [intros i; rewrite H; lia|]. split; [constructor|set_solver]. Qed.

Lemma generation_put slots i s s' j :
  lookupZ slots i = Some s -> generation_at (insertZ slots i s') j = if decide (i = j) then w_generation s' else generation_at slots j.
Proof.
  intros Hs. pose proof (lookupZ_Some_range _ _ _ Hs). unfold generation_at. rewrite lookupZ_insertZ by done. by case_decide.
Qed.

Lemma raises_same_put st i s s' :
  lookupZ (w_slots st) i = Some s -> w_generation s' = w_generation s ->
  forall st', w_slots st' = insertZ (w_slots st) i s' -> raises st st' [].
Proof.
  intros Hs Hg st' Hst. apply raises_none. intros j. rewrite Hst, (generation_put _ _ s) by done.
  case_decide as E; [|done]. subst. unfold generation_at. by rewrite Hs.
Qed.

Ltac same_put Hx := eapply raises_same_put; [exact Hx|..|reflexivity]; reflexivity.

(** A slot below the bound of the generations steps to its successor. *)
Lemma next_generation_step g : 0 <= g < 2 ^ 32 - 1 -> next_generation g = g + 1.
Proof. intros Hg. unfold next_generation. rewrite u32_small by lia. destruct (Z.eqb_spec (g + 1) 0); lia. Qed.

Definition below (k : Z) (st : watch_state) : Prop := forall i, 0 <= generation_at (w_slots st) i <= k.

Lemma generation_grown slots n i : generation_at (slots ++ replicate n zero_slot) i = generation_at slots i.
Proof.
  unfold generation_at. destruct (Z.lt_ge_cases i (lengthZ slots)) as [Hi|Hi]; [by rewrite lookupZ_app_l|].
  assert (Hn : lookupZ slots i = None) by (apply eq_None_not_Some; intros [s Hs]; apply lookupZ_Some_range in Hs; lia).
  rewrite Hn. destruct (lookupZ (slots ++ _) i) as [s|] eqn:Hs; [|reflexivity]. pose proof (lengthZ_nonneg slots).
  replace i with (lengthZ slots + (i - lengthZ slots)) in Hs by lia. rewrite lookupZ_app_r in Hs by lia.
  apply lookupZ_elem, list_elem_of_In, elem_of_replicate in Hs as [-> _]. done.
Qed.

Lemma retain_raises k g d o s st st' a :
  ready st -> below k st -> k < 2 ^ 32 - 1 -> watch_run (Retain g d o s) st = Some (st', a) -> raises st st' (introduced a).
Proof.
  intros [HI Hlk] Hk Hmax Hrun. cbn [watch_run] in Hrun. unfold hl_linux_watch_retain in Hrun. rewrite Hlk in Hrun.
  destruct (w_shutdown st); [cbn in Hrun; simplify_eq; by apply raises_none|].
  pose proof (wi_count _ HI) as Hc.
  destruct (retain_loop_spec (w_slots st) (w_count st) d o (Z.to_nat (w_count st)) 0 None) as (r & Hr & Hspec); [lia..|].
  rewrite Hr in Hrun. destruct r as [[i x]|free].
  { destruct Hspec as (_ & Hx & _). destruct (_ =? UINT32_MAX); cbn [mbind option_bind] in Hrun; simplify_eq; [by apply raises_none|].
    same_put Hx. }
  destruct (retain_claim g free st) as [status|[st1 i]] eqn:Hclaim.
  { cbn in Hrun. simplify_eq. destruct status; by apply raises_none. }
  assert (Hgrow : (forall j, generation_at (w_slots st1) j = generation_at (w_slots st) j) /\ 0 <= i < w_count st1).
  { unfold retain_claim in Hclaim. destruct free as [j|].
    - simplify_eq. split; [done|]. destruct Hspec as [_ [?|(_ & Hi & _)]]; [done|lia].
    - destruct (_ =? UINT32_MAX); [done|]. destruct (_ =? lengthZ _); [destruct g; [|done]|]; simplify_eq; cbn; (split; [|lia]);
        intros j; [apply generation_grown|done]. }
  destruct Hgrow as [Hsame Hi]. destruct (lookupZ (w_slots st1) i) as [x|] eqn:Hx; [|done].
  cbn [mbind option_bind] in Hrun. simplify_eq. set (x' := mk_slot _ _ _ _ _ _ _ _).
  assert (Hg : w_generation x = generation_at (w_slots st) i) by (rewrite <- Hsame; unfold generation_at; by rewrite Hx).
  pose proof (Hk i) as Hki. assert (Hnext : next_generation (w_generation x) = w_generation x + 1) by (apply next_generation_step; lia).
  assert (Hput : forall j, generation_at (w_slots (put_slot st1 i x')) j = if decide (i = j) then w_generation x + 1 else generation_at (w_slots st) j).
  { intros j. cbn [put_slot w_slots]. rewrite (generation_put _ _ x) by done. rewrite Hsame. by case_decide. }
  split; [intros j; rewrite Hput; case_decide; subst; lia|]. cbn [introduced]. split; [apply NoDup_singleton|].
  intros t ->%list_elem_of_singleton. exists i. cbn [put_slot w_count]. split; [done|]. rewrite Hput, decide_True, Hnext by done.
  split; [done|lia].
Qed.

Lemma drain_generations queue slots slots' cs i :
  drain_loop queue slots = Some (slots', cs) -> generation_at slots' i = generation_at slots i.
Proof.
  revert slots cs. induction queue as [|p queue IH]; intros slots cs Hrun; [by simplify_eq/=|]. cbn [drain_loop] in Hrun.
  destruct (lookupZ slots p) as [s|] eqn:Hs; [|done]. destruct (_ || _); [by apply (IH slots cs)|].
  destruct (drain_loop queue _) as [[slots1 cs1]|] eqn:Hrest; [|done]. simplify_eq.
  rewrite (IH _ _ Hrest), (generation_put _ _ s) by done. case_decide as E; [|done]. subst. unfold generation_at. by rewrite Hs.
Qed.

Lemma child_raises k sn capacity st st' a :
  0 <= capacity -> ready st -> below k st -> k < 2 ^ 32 - 1 -> watch_run (ForkChild sn capacity) st = Some (st', a) ->
  raises st st' (introduced a).
Proof.
  intros Hcap Hst Hk Hmax Hrun. pose proof Hst as [HI _].
  destruct (fork_child_run sn capacity st Hcap Hst) as [(part & Hrun' & _)|(slots & out & Hrun' & HI' & -> & Hin & Hout)];
    rewrite Hrun in Hrun'; simplify_eq; [by apply raises_none|].
  set (st' := mk_watch _ _ _ _ _ _) in *.
  assert (Hgen : forall i, generation_at slots i = generation_at (w_slots st) i \/
                 (generation_at slots i = generation_at (w_slots st) i + 1)).
  { intros i. destruct (decide (0 <= i < w_count st)) as [Hi|Hi]; unfold generation_at; [rewrite Hin by done|rewrite Hout by done; by left].
    pose proof (Hk i) as Hki. unfold generation_at in Hki. destruct (lookupZ (w_slots st) i) as [x|]; [|by left]. cbn.
    destruct (_ =? 0); [by left|right]. apply next_generation_step. lia. }
  split; [intros i; destruct (Hgen i) as [E|E]; cbn [st' w_slots]; rewrite E; lia|].
  assert (Hfresh : r_token <$> (fork_record_of <$> watch_entries st') = (watch_entries st').*1)
    by (by rewrite <- list_fmap_compose).
  cbn [introduced]. rewrite Hfresh. split; [by apply entries_nodup|].
  intros t ([t' w] & -> & Hw)%list_elem_of_fmap. apply elem_entries in Hw as (i & x & (Hi & Hx & Hl & Ht) & _).
  exists i. split; [done|]. cbn [fst]. assert (Hgx : generation_at (w_slots st') i = w_generation x) by (unfold generation_at; by rewrite Hx).
  rewrite Hgx. split; [done|]. cbn [st' w_slots w_count] in *. rewrite Hin in Hx by done. unfold generation_at.
  pose proof (Hk i) as Hki. unfold generation_at in Hki. destruct (lookupZ (w_slots st) i) as [y|]; [|done]. cbn in Hx. injection Hx as <-.
  unfold live in Hl. cbn in *. rewrite (proj2 (Z.eqb_neq _ _) Hl), next_generation_step by lia. lia.
Qed.

Lemma call_raises k c st st' a :
  call_ok c -> ready st -> below k st -> k < 2 ^ 32 - 1 -> watch_run c st = Some (st', a) -> raises st st' (introduced a).
Proof.
  intros Hok Hst Hk Hmax Hrun. pose proof Hst as [HI Hlk].
  destruct c as [g d o s|t|g t s f|g| |sn cap|sn cap]; cbn [call_ok] in Hok.
  - by apply (retain_raises k g d o s).
  - cbn [watch_run] in Hrun. unfold hl_linux_watch_release in Hrun. rewrite Hlk in Hrun.
    destruct (watch_lookup st t) as [[i x]|] eqn:Hlook; cbn [mbind option_bind] in Hrun; simplify_eq; [|by apply raises_none].
    apply watch_lookup_Some in Hlook as (_ & Hx & _); [|done..]. same_put Hx.
  - cbn [watch_run] in Hrun. unfold hl_linux_watch_enqueue in Hrun. rewrite Hlk in Hrun.
    destruct (watch_lookup st t) as [[i x]|] eqn:Hlook; [|cbn in Hrun; simplify_eq; by apply raises_none].
    apply watch_lookup_Some in Hlook as (_ & Hx & _); [|done..].
    destruct (w_shutdown st); [cbn in Hrun; simplify_eq; by apply raises_none|].
    destruct (w_queued x); [|destruct (_ && negb g)]; cbn [mbind option_bind] in Hrun; simplify_eq;
      same_put Hx.
  - cbn [watch_run] in Hrun. unfold hl_linux_watch_drain in Hrun. rewrite Hlk in Hrun.
    destruct (_ && negb g); [cbn in Hrun; simplify_eq; by apply raises_none|].
    destruct (drain_loop _ _) as [[slots cs]|] eqn:Hloop; [|done]. cbn [mbind option_bind] in Hrun. simplify_eq.
    apply raises_none. intros i. by apply (drain_generations _ _ _ _ i Hloop).
  - cbn [watch_run] in Hrun. unfold hl_linux_watch_shutdown in Hrun. rewrite Hlk in Hrun. cbn in Hrun. simplify_eq.
    by apply raises_none.
  - cbn [watch_run] in Hrun.
    destruct (fork_take_spec sn cap st Hst Hok) as (st1 & s & records & Htake & [(-> & -> & ->)|(-> & _ & ->)]);
      rewrite Htake in Hrun; cbn [mbind option_bind is_ok] in Hrun; simplify_eq; apply raises_none; [|done].
    intros i. by destruct sn.
  - by apply (child_raises k sn cap).
Qed.

(** Every token introduced so far is of a generation its slot has reached. *)
Definition reached (st : watch_state) (t : Z) : Prop :=
  exists i g, index_ok i /\ 1 <= g <= generation_at (w_slots st) i /\ t = watch_token i g.

Lemma runs_fresh cs st k seen st' l :
  Forall call_ok cs -> ready st -> below k st -> k + lengthZ cs <= 2 ^ 32 - 1 ->
  NoDup seen -> (forall t, t ∈ seen -> reached st t) -> watch_runs cs st = Some (st', l) ->
  NoDup (seen ++ (l ≫= introduced)).
Proof.
  intros Hcs. revert st k seen l. induction Hcs as [|c cs Hc Hcs IH]; intros st k seen l Hst Hk Hlen Hnd Hseen Hrun.
  { cbn in Hrun. simplify_eq. cbn. by rewrite app_nil_r. }
  rewrite lengthZ_cons in Hlen. pose proof (lengthZ_nonneg cs). cbn [watch_runs] in Hrun.
  destruct (watch_call_refines c st Hc Hst) as (st1 & a & Hone & HI1 & Hlk1 & _). rewrite Hone in Hrun. cbn [mbind option_bind] in Hrun.
  destruct (watch_runs cs st1) as [[st2 l2]|] eqn:Hruns; [|done]. cbn in Hrun. simplify_eq. cbn [mbind list_bind].
  destruct (call_raises k c st st1 a Hc Hst Hk ltac:(lia) Hone) as (Hstep & Hfresh & Hnew).
  assert (Hk1 : below (k + 1) st1) by (intros i; specialize (Hstep i); specialize (Hk i); lia).
  rewrite app_assoc. apply (IH st1 (k + 1)); [done|done|lia| | |done].
  - apply list.NoDup_app. split; [done|]. split; [|done]. intros t Ht (i & Hi & -> & Hlt)%Hnew.
    destruct (Hseen _ Ht) as (j & g & Hj & Hg & Heq). pose proof (Hk1 i). pose proof (Hk j). pose proof (Hk i).
    destruct (token_inj i (generation_at (w_slots st1) i) j g) as [Ei Eg];
      [by apply (count_index st1 HI1)|unfold generation_ok; lia|done|unfold generation_ok; lia|done|subst i; lia].
  - intros t [Ht|Ht]%elem_of_app.
    + destruct (Hseen _ Ht) as (j & g & Hj & Hg & ->). exists j, g. specialize (Hstep j). split; [done|]. split; [lia|done].
    + destruct (Hnew _ Ht) as (i & Hi & -> & Hlt). exists i, (generation_at (w_slots st1) i). pose proof (Hk i).
      split; [by apply (count_index st1 HI1)|]. split; [lia|done].
Qed.

(** in a run of fewer than 2^32 - 1 calls no token is handed out twice for
    two watches, a child's tokens included: a token of a released watch, or of
    the parent, never names another watch. *)
Theorem watch_tokens_fresh cs st l :
  Forall call_ok cs -> lengthZ cs <= 2 ^ 32 - 1 -> watch_runs cs watch_empty = Some (st, l) ->
  NoDup (l ≫= introduced).
Proof.
  intros Hcs Hlen Hrun. destruct watch_empty_ready as [Hst _].
  apply (runs_fresh cs watch_empty 0 [] st l); [done|done| |done|constructor|set_solver|done].
  intros i. unfold generation_at. destruct (lookupZ _ i) as [s|] eqn:Hs; [|lia].
  apply lookupZ_Some_range in Hs. change (lengthZ _) with 0 in Hs. lia.
Qed.

Lemma watch_tokens_fresh_witness :
  exists st, watch_runs watch_demo watch_empty = Some (st, watch_demo_answers) /\ NoDup (watch_demo_answers ≫= introduced).
Proof.
  destruct (watch_runs watch_demo watch_empty) as [[st l]|] eqn:Hrun; [|vm_compute in Hrun; discriminate].
  assert (Hl : l = watch_demo_answers).
  { assert (H : snd <$> watch_runs watch_demo watch_empty = Some watch_demo_answers) by (vm_compute; reflexivity).
    rewrite Hrun in H. cbn in H. congruence. }
  exists st. split; [by rewrite Hl|]. rewrite <- Hl.
  apply (watch_tokens_fresh watch_demo st l); [exact watch_demo_ok|vm_compute; discriminate|exact Hrun].
Defined.
