(* ===== verification/Futex.v ===== *)
(** * Futex buckets and keys

    [thread/futex_mapping.c] and the wake of [thread/fault_wait.c]: a table of
    256 buckets, each a mutex, a condition variable, the number of parked
    threads per address and a slot per waiting thread by which a wake selects
    exactly whom it releases.  A futex is named by a key: the address, or the
    file position for a word in a shared file mapping.  Every function here
    runs under the mutex of its bucket. *)

From Stdlib Require Import Permutation.
From S2P Require Import Prelude Status Carve.

Definition FUTEX_NBUCKET : Z := 256.
Definition FUTEX_ASLOTS : nat := 16.
Definition FUTEX_WSLOTS : nat := 128.
Definition INT_MAX : Z := 2147483647.
Definition ALL_BITS : Z := UINT32_MAX.

(** ** Buckets *)

(** [saddr], [scnt], [sbits] at one index. *)
Record address_slot := mk_aslot { saddr : Z; scnt : Z; sbits : Z }.
(** [waddr], [wbits], [wgrant] at one index. *)
Record waiter_slot := mk_wslot { waddr : Z; wbits : Z; wgrant : bool }.

Record futex_bucket := mk_bucket {
  waiters : Z;
  aslots : list address_slot;
  wslots : list waiter_slot;
  wcursor : Z;
  imprecise : bool
}.

Definition zero_aslot : address_slot := mk_aslot 0 0 0.
Definition zero_wslot : waiter_slot := mk_wslot 0 0 false.
Definition zero_bucket : futex_bucket :=
  mk_bucket 0 (replicate FUTEX_ASLOTS zero_aslot) (replicate FUTEX_WSLOTS zero_wslot) 0 false.

Definition set_waiters (n : Z) (b : futex_bucket) : futex_bucket :=
  mk_bucket n (aslots b) (wslots b) (wcursor b) (imprecise b).
Definition set_aslots (l : list address_slot) (b : futex_bucket) : futex_bucket :=
  mk_bucket (waiters b) l (wslots b) (wcursor b) (imprecise b).
Definition set_wslots (l : list waiter_slot) (b : futex_bucket) : futex_bucket :=
  mk_bucket (waiters b) (aslots b) l (wcursor b) (imprecise b).
Definition set_wcursor (c : Z) (b : futex_bucket) : futex_bucket :=
  mk_bucket (waiters b) (aslots b) (wslots b) c (imprecise b).
Definition set_imprecise (v : bool) (b : futex_bucket) : futex_bucket :=
  mk_bucket (waiters b) (aslots b) (wslots b) (wcursor b) v.

(** ** The slots of waiting threads *)

(** The slot taken, [-1] when all are in use. *)
Definition fbk_wait_register (b : futex_bucket) (address bits : Z) : futex_bucket * Z :=
  match scan_from (fun w => waddr w =? 0) (wslots b) 0 with
  | Some i => (set_wslots (insertZ (wslots b) i (mk_wslot address bits false)) b, i)
  | None => (b, -1)
  end.

Definition fbk_wait_unregister (b : futex_bucket) (slot : Z) : futex_bucket :=
  if slot <? 0 then b else set_wslots (insertZ (wslots b) slot zero_wslot) b.

(** [offset] rounds are done, [n] are left; the slots are visited from the
    cursor on, and the cursor moves past each slot that is granted. *)
Fixpoint grant_loop (n : nat) (start offset : Z) (address count mask granted : Z) (has_registered : bool)
    (b : futex_bucket) : option (futex_bucket * Z * bool) :=
  match n with
  | O => Some (b, granted, has_registered)
  | S n' =>
      let i := (start + offset) mod Z.of_nat FUTEX_WSLOTS in
      match lookupZ (wslots b) i with
      | None => None
      | Some w =>
          if negb (waddr w =? address) then grant_loop n' start (offset + 1) address count mask granted has_registered b
          else if wgrant w || (Z.land (wbits w) mask =? 0) || (count <=? granted) then
            grant_loop n' start (offset + 1) address count mask granted true b
          else
            let b' := set_wslots (insertZ (wslots b) i (mk_wslot (waddr w) (wbits w) true)) b in
            let b'' := set_wcursor (u16 ((i + 1) mod Z.of_nat FUTEX_WSLOTS)) b' in
            grant_loop n' start (offset + 1) address count mask (granted + 1) true b''
      end
  end.

Definition fbk_wait_grant (b : futex_bucket) (address count mask : Z) : option (futex_bucket * Z * bool) :=
  grant_loop FUTEX_WSLOTS (wcursor b mod Z.of_nat FUTEX_WSLOTS) 0 address count mask 0 false b.

(** ** The count of parked threads per address *)

Definition parked_on (address : Z) (s : address_slot) : bool := negb (scnt s =? 0) && (saddr s =? address).
Definition aslot_free (s : address_slot) : bool := scnt s =? 0.

(** One loop in the source: it looks for the address and remembers the first
    free slot. *)
Definition fbk_park (b : futex_bucket) (address bits : Z) : futex_bucket :=
  match scan_from (parked_on address) (aslots b) 0 with
  | Some i =>
      match lookupZ (aslots b) i with
      | Some s => set_aslots (insertZ (aslots b) i (mk_aslot (saddr s) (u32 (scnt s + 1)) (Z.lor (sbits s) bits))) b
      | None => b
      end
  | None =>
      match scan_from aslot_free (aslots b) 0 with
      | Some i => set_aslots (insertZ (aslots b) i (mk_aslot address 1 bits)) b
      | None => set_imprecise true b
      end
  end.

Definition fbk_unpark (b : futex_bucket) (address : Z) : futex_bucket :=
  match scan_from (parked_on address) (aslots b) 0 with
  | Some i =>
      match lookupZ (aslots b) i with
      | Some s =>
          let c := u32 (scnt s - 1) in
          set_aslots (insertZ (aslots b) i (if c =? 0 then mk_aslot 0 0 0 else mk_aslot (saddr s) c (sbits s))) b
      | None => b
      end
  | None => b
  end.

Definition fbk_match (b : futex_bucket) (address mask : Z) : bool :=
  if imprecise b then true
  else
    match scan_from (parked_on address) (aslots b) 0 with
    | Some i => match lookupZ (aslots b) i with Some s => negb (Z.land (sbits s) mask =? 0) | None => false end
    | None => false
    end.

Definition fbk_parked (b : futex_bucket) (address : Z) : Z :=
  if imprecise b then waiters b
  else
    match scan_from (parked_on address) (aslots b) 0 with
    | Some i => match lookupZ (aslots b) i with Some s => scnt s | None => 0 end
    | None => 0
    end.

(** What a leaving thread does last: its park is undone and the last one out
    makes the counts exact again. *)
Definition leave_bucket (b : futex_bucket) (address : Z) : futex_bucket :=
  let b' := fbk_unpark b address in
  let previous := waiters b' in
  let b'' := set_waiters (previous - 1) b' in
  if previous =? 1 then set_imprecise false b'' else b''.

(** [futex_wake_bucket] under the mutex: the bucket, the answer, and whether
    the condition variable is broadcast. *)
Definition futex_wake_bucket (key n mask : Z) (grant_all : bool) (b : futex_bucket) : option (futex_bucket * Z * bool) :=
  if negb (fbk_match b key mask) then Some (b, 0, false)
  else
    match fbk_wait_grant b key n mask with
    | None => None
    | Some (b1, woke, registered) =>
        let released := if grant_all && registered then fbk_wait_grant b1 key INT_MAX mask else Some (b1, 0, registered) in
        match released with
        | None => None
        | Some (b2, _, _) => Some (b2, if registered then woke else Z.min (fbk_parked b2 key) n, true)
        end
    end.

(** ** Keys *)

(** [g_shkey]: a shared file mapping of this process. *)
Record shared_range := mk_shared { sk_lo : Z; sk_hi : Z; sk_dev : Z; sk_ino : Z; sk_foff : Z }.

Definition FSHKEY_MAX : Z := 4096.

(** The token of a file position. *)
Definition shared_token (dev ino off : Z) : Z :=
  let h := u64 (u64 (ino + 0x9E3779B97F4A7C15) * 1099511628211) in
  let h := Z.lxor h (u64 (u64 (dev + 0x100000001B3) * 2654435761)) in
  let h := Z.lxor h (u64 (off * 0xD6E8FEB86659FD93)) in
  let h := Z.lxor h (Z.shiftr h 29) in
  Z.lor h 1.

Fixpoint futex_key (ranges : list shared_range) (uaddr : Z) : Z :=
  match ranges with
  | [] => uaddr
  | r :: ranges' =>
      if (sk_lo r <=? uaddr) && (uaddr <? sk_hi r)
      then shared_token (sk_dev r) (sk_ino r) (u64 (sk_foff r + (uaddr - sk_lo r)))
      else futex_key ranges' uaddr
  end.

(** The bucket of a key. *)
Definition fbk_index (key : Z) : Z := Z.land (u32 (u64 (Z.shiftr key 2 * 2654435761))) (FUTEX_NBUCKET - 1).

(** The key of a private futex lies outside the canonical addresses. *)
Definition private_tag : Z := 2 ^ 63.
Definition private_key (uaddr : Z) : Z := Z.lxor uaddr private_tag.

(** [g_shkey[i] = g_shkey[--g_shkey_n]]. *)
Definition swap_last (l : list shared_range) (i : Z) : list shared_range :=
  match lookupZ l (lengthZ l - 1) with
  | Some last => take (length l - 1) (insertZ l i last)
  | None => l
  end.

(** Both loops run over the ranges once; [fuel] counts their rounds. *)
Fixpoint shared_drop_loop (fuel : nat) (i base end_ : Z) (l : list shared_range) : option (list shared_range) :=
  match fuel with
  | O => None
  | S fuel' =>
      match lookupZ l i with
      | None => Some l
      | Some r =>
          if (base <=? sk_lo r) && (sk_hi r <=? end_) then shared_drop_loop fuel' i base end_ (swap_last l i)
          else shared_drop_loop fuel' (i + 1) base end_ l
      end
  end.

(** [identity] is the device and inode [fstat] answers, [None] its failure. *)
Definition futex_shared_register (base len : Z) (identity : option (Z * Z)) (foff : Z) (l : list shared_range)
    : option (list shared_range) :=
  match identity with
  | None => Some l
  | Some (dev, ino) =>
      if len =? 0 then Some l
      else
        l' ← shared_drop_loop (S (length l)) 0 base (u64 (base + len)) l;
        Some (if lengthZ l' <? FSHKEY_MAX then l' ++ [mk_shared base (u64 (base + len)) dev ino foff] else l')
  end.

Fixpoint shared_unmap_loop (fuel : nat) (i ustart uend : Z) (l : list shared_range) : option (list shared_range) :=
  match fuel with
  | O => None
  | S fuel' =>
      match lookupZ l i with
      | None => Some l
      | Some r =>
          if (sk_hi r <=? ustart) || (uend <=? sk_lo r) then shared_unmap_loop fuel' (i + 1) ustart uend l
          else
            let keep_head := sk_lo r <? ustart in
            let keep_tail := uend <? sk_hi r in
            if negb keep_head && negb keep_tail then shared_unmap_loop fuel' i ustart uend (swap_last l i)
            else
              let foff' := u64 (sk_foff r + (uend - sk_lo r)) in
              let r' :=
                if keep_head then mk_shared (sk_lo r) ustart (sk_dev r) (sk_ino r) (sk_foff r)
                else mk_shared uend (sk_hi r) (sk_dev r) (sk_ino r) foff' in
              let l' := insertZ l i r' in
              let l'' :=
                if keep_head && keep_tail && (lengthZ l' <? FSHKEY_MAX)
                then l' ++ [mk_shared uend (sk_hi r) (sk_dev r) (sk_ino r) foff'] else l' in
              shared_unmap_loop fuel' (i + 1) ustart uend l''
      end
  end.

Definition futex_shared_unmap (ustart uend : Z) (l : list shared_range) : option (list shared_range) :=
  match l with
  | [] => Some []
  | _ => shared_unmap_loop (2 * length l + 1) 0 ustart uend l
  end.

(** What a successful [mmap] does to the registry.  A fixed mapping first
    forgets the [mapped] bytes it replaces, its guard included; the mapping of
    a shared file, [file] with its identity and offset, then records the
    length asked for. *)
Definition forget_replaced (fixed : bool) (base mapped : Z) (l : list shared_range) : option (list shared_range) :=
  if fixed then futex_shared_unmap base (u64 (base + mapped)) l else Some l.

Definition mmap_shared_keys (fixed : bool) (base len mapped : Z) (file : option (option (Z * Z) * Z))
    (l : list shared_range) : option (list shared_range) :=
  l ← forget_replaced fixed base mapped l;
  match file with
  | Some (identity, foff) => futex_shared_register base len identity foff l
  | None => Some l
  end.

(** ** Futex keys follow the mappings

    The registry of shared file mappings against a reference: the partial
    function from addresses to file positions. *)

(** A file position: device, inode, offset. *)
Abbreviation position := (Z * Z * Z)%type.

Definition spans_va (va : Z) (r : shared_range) : bool := (sk_lo r <=? va) && (va <? sk_hi r).
Definition position_in (r : shared_range) (va : Z) : position := (sk_dev r, sk_ino r, u64 (sk_foff r + (va - sk_lo r))).

(** The first range that spans_va the address. *)
Fixpoint shared_at (l : list shared_range) (va : Z) : option position :=
  match l with
  | [] => None
  | r :: l' => if spans_va va r then Some (position_in r va) else shared_at l' va
  end.

Definition key_of_position (p : position) : Z := let '(dev, ino, off) := p in shared_token dev ino off.

Lemma futex_key_at l va : futex_key l va = match shared_at l va with Some p => key_of_position p | None => va end.
Proof. induction l as [|r l IH]; [done|]. simpl. unfold spans_va. by destruct (_ && _). Qed.

(** The ranges of one process: none is empty or leaves the user half, no two
    overlap. *)
Definition range_ok (r : shared_range) : Prop := 0 <= sk_lo r < sk_hi r /\ sk_hi r <= 2 ^ 63 /\ 0 <= sk_foff r /\ sk_foff r + (sk_hi r - sk_lo r) <= 2 ^ 64.
Definition registry_ok (l : list shared_range) : Prop := Forall range_ok l /\ forall va, countZ (spans_va va) l <= 1.

Lemma shared_at_Some l va p : (forall x, countZ (spans_va x) l <= 1) ->
  (shared_at l va = Some p <-> exists r, In r l /\ spans_va va r = true /\ p = position_in r va).
Proof.
  induction l as [|r l IH]; intros Hc; simpl.
  - split; [done|]. by intros (r & [] & _).
  - assert (Hc' : forall x, countZ (spans_va x) l <= 1) by (intros x; specialize (Hc x); simpl in Hc; destruct (spans_va x r); lia).
    destruct (spans_va va r) eqn:E.
    + split; [intros [= <-]; eauto|]. intros (r' & [->|Hin] & Hr' & ->); [done|]. exfalso.
      specialize (Hc va). simpl in Hc. rewrite E in Hc. pose proof (countZ_elem _ _ _ Hin Hr'). lia.
    + rewrite IH by done. split; intros (r' & Hin & Hr' & ->); [eauto|]. destruct Hin as [->|Hin]; [congruence|eauto].
Qed.

Lemma shared_at_None l va : shared_at l va = None <-> forall r, In r l -> spans_va va r = false.
Proof.
  induction l as [|r l IH]; simpl; [by split|]. destruct (spans_va va r) eqn:E.
  - split; [done|]. intros H. rewrite (H r) in E by auto. done.
  - rewrite IH. split; [intros H r' [->|?]; auto|auto].
Qed.

Lemma registry_ok_perm l l' : l ≡ₚ l' -> registry_ok l -> registry_ok l'.
Proof.
  intros Hp [Hr Hc]. split; [by rewrite <- Hp|]. intros va. rewrite <- (countZ_perm _ _ _ Hp). apply Hc.
Qed.

Lemma shared_at_perm l l' va : l ≡ₚ l' -> registry_ok l -> shared_at l va = shared_at l' va.
Proof.
  intros Hp Hok. pose proof (registry_ok_perm _ _ Hp Hok) as Hok'. apply option_eq. intros p.
  rewrite (shared_at_Some l va p (proj2 Hok)), (shared_at_Some l' va p (proj2 Hok')). split; intros (r & Hin & ?); exists r; (split; [|done]).
  - by apply (Permutation_in _ Hp).
  - by apply (Permutation_in _ (symmetry Hp)).
Qed.

(** ** The loops *)

(** The ranges a remap drops. *)
Definition within (base end_ : Z) (r : shared_range) : bool := (base <=? sk_lo r) && (sk_hi r <=? end_).
Definition survivors (base end_ : Z) (r : shared_range) : list shared_range := if within base end_ r then [] else [r].

Lemma shared_drop_is_drop fuel base end_ : forall i l, shared_drop_loop fuel i base end_ l = drop_loop (within base end_) fuel i l.
Proof.
  induction fuel as [|fuel IH]; intros i l; [done|]. cbn [shared_drop_loop drop_loop]. destruct (lookupZ l i) as [r|]; [|done].
  by rewrite !IH.
Qed.

Lemma filter_survivors base end_ l : List.filter (fun r => negb (within base end_ r)) l = flat_map (survivors base end_) l.
Proof. induction l as [|r l IH]; [done|]. simpl. rewrite IH. unfold survivors. by destruct (within base end_ r). Qed.

(** The range as a record that can be cut: its tail starts later in the file. *)
#[export] Instance shared_carvable : Carvable shared_range := {|
  first_of := sk_lo;
  last_of := sk_hi;
  keep_head ustart r := mk_shared (sk_lo r) ustart (sk_dev r) (sk_ino r) (sk_foff r);
  keep_tail uend r := mk_shared uend (sk_hi r) (sk_dev r) (sk_ino r) (u64 (sk_foff r + (uend - sk_lo r)))
|}.
#[export] Instance shared_laws : CarvableLaws shared_range.
Proof. by split. Qed.
#[export] Instance shared_positions : Valued shared_range position := fun r va => position_in r va.
#[export] Instance shared_position_laws : ValuedLaws shared_range position.
Proof.
  split; [done|]. intros e va r _ _. unfold value_at, shared_positions, position_in. simpl. f_equal. unfold u64.
  rewrite Zplus_mod_idemp_l. f_equal. lia.
Qed.

Lemma shared_unmap_is_carve fuel ustart uend : forall i l,
  shared_unmap_loop fuel i ustart uend l = carve_loop fuel (fun n => n <? FSHKEY_MAX) ustart uend i l.
Proof.
  induction fuel as [|fuel IH]; intros i l; [done|]. cbn [shared_unmap_loop carve_loop]. destruct (lookupZ l i) as [r|]; [|done].
  unfold untouched. simpl. rewrite lengthZ_insertZ, !IH. done.
Qed.

(** ** The reference *)

Lemma shared_at_holds l va p : (forall x, countZ (spans_va x) l <= 1) -> (shared_at l va = Some p <-> holds l va p).
Proof. intros Hc. rewrite shared_at_Some by done. by split; intros (r & Hin & Hr & Hp); exists r. Qed.

Lemma pieces_ok ustart uend r : ustart < uend -> range_ok r -> Forall range_ok (parts ustart uend r).
Proof.
  intros Hu (Hr & Hm & Hf & Hw). apply List.Forall_forall. intros y Hy.
  apply parts_source in Hy as [->|[[-> Hy]|[-> Hy]]]; [done| |]; simpl in Hy; unfold range_ok; simpl; [lia|].
  rewrite u64_small by lia. lia.
Qed.

Lemma flat_pieces_ok ustart uend l : ustart < uend -> registry_ok l -> registry_ok (flat_map (parts ustart uend) l).
Proof.
  intros Hu [Hr Hc]. split.
  - clear Hc. induction Hr as [|r l Hr _ IH]; simpl; [constructor|]. apply Forall_app. split; [by apply pieces_ok|done].
  - intros va. change (spans_va va) with (covers va). rewrite flat_parts_count by done. specialize (Hc va).
    change (spans_va va) with (covers va) in Hc. destruct (in_interval _ _ _); lia.
Qed.

Lemma flat_pieces_at ustart uend l va : ustart < uend -> registry_ok l ->
  shared_at (flat_map (parts ustart uend) l) va = if in_interval ustart uend va then None else shared_at l va.
Proof.
  intros Hu Hok. pose proof (flat_pieces_ok _ _ _ Hu Hok) as [_ Hc']. destruct Hok as [_ Hc]. apply option_eq. intros p.
  rewrite shared_at_holds, holds_parts by done. destruct (in_interval ustart uend va); [by split; [intros []|]|].
  rewrite shared_at_holds by done. by split; [intros []|].
Qed.

(** [futex_shared_unmap] forgets the interval and nothing else. *)
Lemma shared_unmap_spec ustart uend l : ustart < uend -> registry_ok l -> lengthZ l < FSHKEY_MAX ->
  exists l', futex_shared_unmap ustart uend l = Some l' /\ registry_ok l' /\ lengthZ l' <= lengthZ l + 1 /\
    forall va, shared_at l' va = if in_interval ustart uend va then None else shared_at l va.
Proof.
  intros Hu Hok Hmax. assert (Hs : countZ (splits ustart uend) l <= 1) by (apply splits_at_most_one; [done|apply Hok]).
  unfold futex_shared_unmap. destruct l as [|r l]; [|set (l0 := r :: l) in *].
  { exists []. do 3 (split; [done|]). intros va. by destruct (in_interval _ _ _). }
  rewrite shared_unmap_is_carve. replace (2 * length l0 + 1)%nat with (S (2 * length l0)) by lia.
  destruct (carve_spec (fun n => n <? FSHKEY_MAX) ustart uend l0) as (l' & Hrun & Hp); [intros n Hn; apply Z.ltb_lt; lia|].
  exists l'. split; [exact Hrun|]. pose proof (flat_pieces_ok _ _ _ Hu Hok) as Hok'.
  split; [by apply (registry_ok_perm _ _ (symmetry Hp))|]. split.
  - unfold lengthZ at 1. rewrite (Permutation_length Hp). fold (lengthZ (flat_map (parts ustart uend) l0)).
    pose proof (parts_length ustart uend l0). lia.
  - intros va. rewrite (shared_at_perm l' _ va Hp) by (by apply (registry_ok_perm _ _ (symmetry Hp))).
    by apply flat_pieces_at.
Qed.

(** The ranges a new mapping meets are replaced or disjoint. *)
Definition fits (base len : Z) (l : list shared_range) : Prop :=
  Forall (fun r => within base (base + len) r = true \/ untouched base (base + len) r = true) l.

(** Where no address has a file position every range is out of the way. *)
Lemma empty_fits base len l :
  0 < len -> registry_ok l -> (forall va, base <= va < base + len -> shared_at l va = None) -> fits base len l.
Proof.
  intros Hlen [Hr Hc] Hnone. apply List.Forall_forall. intros r Hin. right.
  pose proof (proj1 (List.Forall_forall _ _) Hr r Hin) as (Hlt & _).
  destruct (untouched base (base + len) r) eqn:Hu; [done|]. exfalso. unfold untouched in Hu. simpl in Hu. bool_props.
  assert (Hs : exists va, base <= va < base + len /\ spans_va va r = true).
  { exists (Z.max base (sk_lo r)). unfold spans_va. lia. }
  destruct Hs as (va & Hva & Hs). pose proof (proj1 (shared_at_None l va) (Hnone va Hva) r Hin). congruence.
Qed.

Lemma fits_pieces base len l : 0 < len -> Forall range_ok l -> fits base len l ->
  flat_map (survivors base (base + len)) l = flat_map (parts base (base + len)) l.
Proof.
  intros Hlen Hr. unfold fits. induction l as [|r l IH]; [done|]. inversion_clear Hr as [|? ? Hro Hro']. inversion_clear 1 as [|? ? Hf Hf'].
  simpl. rewrite IH by done. f_equal. unfold survivors, parts. destruct Hro as [Hro _].
  unfold within, untouched in *. repeat (case_match; simpl in * ); try done; lia.
Qed.

(** [futex_shared_register] adds the positions of the new mapping. *)
Lemma shared_register_spec base len dev ino foff l :
  0 < len -> 0 <= base -> base + len <= 2 ^ 63 -> 0 <= foff -> foff + len <= 2 ^ 64 -> 
  registry_ok l -> fits base len l -> lengthZ l < FSHKEY_MAX ->
  exists l', futex_shared_register base len (Some (dev, ino)) foff l = Some l' /\ registry_ok l' /\ lengthZ l' <= lengthZ l + 1 /\
    forall va, shared_at l' va = if in_interval base (base + len) va then Some (dev, ino, foff + (va - base)) else shared_at l va.
Proof.
  intros Hlen Hbase Htop Hfoff Hend Hok Hfit Hmax. unfold futex_shared_register.
  destruct (Z.eqb_spec len 0); [lia|]. rewrite u64_small by lia.
  destruct (drop_matching_spec (within base (base + len)) l) as (l1 & Hrun & Hp). unfold drop_matching in Hrun.
  rewrite filter_survivors in Hp. rewrite shared_drop_is_drop, Hrun. cbn [mbind option_bind].
  assert (Hl1 : lengthZ l1 <= lengthZ l).
  { unfold lengthZ. rewrite (Permutation_length Hp). clear. induction l as [|r l IH]; simpl; [lia|].
    unfold survivors at 1. destruct (within _ _ r); simpl; lia. }
  destruct (Z.ltb_spec (lengthZ l1) FSHKEY_MAX); [|lia].
  rewrite fits_pieces in Hp by (done || apply Hok). 
  assert (Hu : base < base + len) by lia. pose proof (flat_pieces_ok base (base + len) l Hu Hok) as Hok1.
  set (new := mk_shared base (base + len) dev ino foff).
  assert (Hcount : forall va, countZ (spans_va va) (l1 ++ [new]) = if in_interval base (base + len) va then 1 else countZ (spans_va va) l).
  { intros va. rewrite countZ_app, (countZ_perm _ _ _ Hp). change (spans_va va) with (covers va) at 1. rewrite flat_parts_count by done.
    change (countZ (covers va) l) with (countZ (spans_va va) l). simpl. unfold spans_va at 2. simpl. unfold in_interval. destruct ((base <=? va) && (va <? base + len)); lia. }
  assert (Hok' : registry_ok (l1 ++ [new])).
  { split.
    - apply Forall_app. split; [rewrite Hp; apply Hok1|]. constructor; [|constructor]. unfold range_ok. simpl. lia.
    - intros va. rewrite Hcount. destruct Hok as [_ Hc]. specialize (Hc va). destruct (in_interval _ _ _); lia. }
  eexists. split; [done|]. split; [done|]. split; [rewrite snoc_lengthZ; lia|]. intros va.
  pose proof (flat_pieces_at base (base + len) l va Hu Hok) as Hat. rewrite (shared_at_perm _ _ va (symmetry Hp) Hok1) in Hat.
  destruct (in_interval base (base + len) va) eqn:Ew.
  - apply shared_at_Some; [apply Hok'|]. exists new. split; [apply in_or_app; right; by left|]. unfold in_interval in Ew.
    split; [done|]. unfold position_in. simpl. rewrite u64_small by lia. done.
  - rewrite <- Hat. assert (Happ : forall k, shared_at (k ++ [new]) va = shared_at k va).
    { induction k as [|x k IH]; simpl; [|by rewrite IH]. unfold spans_va. simpl. unfold in_interval in Ew. by rewrite Ew. }
    apply Happ.
Qed.

(** What [forget_replaced] leaves. *)
Lemma forget_replaced_spec fixed base mapped l :
  0 < mapped -> 0 <= base -> base + mapped <= 2 ^ 63 -> registry_ok l -> lengthZ l < FSHKEY_MAX ->
  exists l', forget_replaced fixed base mapped l = Some l' /\ registry_ok l' /\ lengthZ l' <= lengthZ l + 1 /\
    forall va, shared_at l' va = if fixed && in_interval base (base + mapped) va then None else shared_at l va.
Proof.
  intros Hm Hb Ht Hok Hmax. destruct fixed; simpl; [|exists l; split_and!; try done; lia].
  rewrite u64_small by lia. by apply shared_unmap_spec; [lia|..].
Qed.

(** A shared mapping, fixed over anything or placed where nothing is. *)
Lemma mmap_keys_spec fixed base len mapped dev ino foff l :
  0 < len <= mapped -> 0 <= base -> base + mapped <= 2 ^ 63 -> 0 <= foff -> foff + len <= 2 ^ 64 ->
  registry_ok l -> lengthZ l < FSHKEY_MAX - 1 ->
  (fixed = false -> forall va, base <= va < base + len -> shared_at l va = None) ->
  exists l', mmap_shared_keys fixed base len mapped (Some (Some (dev, ino), foff)) l = Some l' /\ registry_ok l' /\
    forall va, shared_at l' va =
      if in_interval base (base + len) va then Some (dev, ino, foff + (va - base))
      else if fixed && in_interval base (base + mapped) va then None else shared_at l va.
Proof.
  intros Hlen Hb Ht Hf He Hok Hmax Hfree. unfold mmap_shared_keys.
  destruct (forget_replaced_spec fixed base mapped l) as (l1 & -> & Hok1 & Hl1 & Hat1); [lia|done|done|done|lia|].
  cbn [mbind option_bind].
  destruct (shared_register_spec base len dev ino foff l1) as (l2 & -> & Hok2 & _ & Hat2); try done; [lia|lia| |lia|].
  { apply empty_fits; [lia|done|]. intros va Hva. rewrite Hat1. destruct fixed; [|by apply Hfree].
    unfold in_interval. by rewrite (proj2 (Z.leb_le _ _)), (proj2 (Z.ltb_lt _ _)) by lia. }
  exists l2. split; [done|]. split; [done|]. intros va. rewrite Hat2. by destruct (in_interval base (base + len) va).
Qed.
