(* ===== verification/FutexSystem.v ===== *)
(** * Threads on futexes

    [futex_op] of [thread/fault_wait.c] with its wakes, its PI mutexes and the
    teardown wakes, as a system of threads.  A section under the mutex of a
    bucket is one step; so is the load and the successful compare-and-exchange
    of a PI lock, whose failed attempts change nothing.  A thread that sleeps
    in [pthread_cond_wait] can resume at any time: the event says whether it
    was interrupted and whether its deadline passed. *)

From stdpp Require Import gmap.
From S2P Require Import Prelude Status VmaLedger Futex.

Definition EPERM : Z := 1.
Definition EFAULT : Z := 14.
Definition EDEADLK : Z := 35.

Definition HL_FUTEX_WAITERS : Z := 0x80000000.
Definition HL_FUTEX_OWNER_DIED : Z := 0x40000000.
Definition HL_FUTEX_TID_MASK : Z := 0x3fffffff.

(** ** State *)

(** [g_fbk], in memory shared by all processes, and the [g_fbk_private] of
    one process. *)
Inductive table := SharedTable | PrivateTable (pid : Z).

#[export] Instance table_eq_dec : EqDecision table.
Proof. solve_decision. Defined.

(** A bucket: its table and index. *)
Abbreviation bid := (table * Z)%type.

(** Where [futex_op] and [futex_lock_pi] sleep. *)
Inductive wait_kind :=
| KWait (word expected slot : Z)
| KLockPi (word : Z)
| KRequeuePi (uaddr2 : option Z) (key2 : Z).

#[export] Instance wait_kind_eq_dec : EqDecision wait_kind.
Proof. solve_decision. Defined.

(** The locals of a thread asleep in a bucket: [key], [ts != NULL] and what
    depends on the operation.  [p_address] and [p_bits] are what it parked
    under; the code computes the address again from [key] when it leaves. *)
Record parked := mk_parked {
  p_pid : Z;
  p_bid : bid;
  p_key : Z;
  p_address : Z;
  p_bits : Z;
  p_timed : bool;
  p_kind : wait_kind
}.

(** A thread between two sections of a call. *)
Inductive status :=
| Parked (p : parked)
| Relock (pid : Z) (tb : table) (uaddr2 : option Z) (key2 : Z) (timed : bool)
| Waking (pid : Z) (tb : table) (woke : Z) (todo : list (Z * Z * bool))
| Notifying (pid : Z) (host : Z) (todo : list table).

Record sys := mk_sys {
  buckets : bid -> futex_bucket;
  registry : Z -> list shared_range;
  words : Z -> Z;
  threads : gmap Z status
}.

Definition set_bucket (k : bid) (b : futex_bucket) (s : sys) : sys :=
  mk_sys (fun k' => if decide (k' = k) then b else buckets s k') (registry s) (words s) (threads s).
Definition set_registry (pid : Z) (l : list shared_range) (s : sys) : sys :=
  mk_sys (buckets s) (fun p => if p =? pid then l else registry s p) (words s) (threads s).
Definition store (w v : Z) (s : sys) : sys :=
  mk_sys (buckets s) (registry s) (fun x => if x =? w then v else words s x) (threads s).
Definition become (t : Z) (st : status) (s : sys) : sys :=
  mk_sys (buckets s) (registry s) (words s) (<[t := st]> (threads s)).
Definition finish (t : Z) (s : sys) : sys := mk_sys (buckets s) (registry s) (words s) (delete t (threads s)).

Definition key_of (s : sys) (pid key : Z) : Z := futex_key (registry s pid) key.
Definition fbk_of (s : sys) (pid : Z) (tb : table) (key : Z) : bid := (tb, fbk_index (key_of s pid key)).

(** A section's outcome: [None] says the thread stays in the call. *)
Abbreviation outcome := (sys * option Z)%type.

(** The thread leaves its bucket and the call. *)
Definition leave (t : Z) (p : parked) (b : futex_bucket) (s : sys) : sys :=
  finish t (set_bucket (p_bid p) (leave_bucket b (key_of s (p_pid p) (p_key p))) s).

(** ** [FUTEX_WAIT], [FUTEX_WAIT_BITSET] *)

Definition futex_wait (t pid : Z) (tb : table) (word key val bits : Z) (timed interrupted : bool) (s : sys) : outcome :=
  let k := fbk_of s pid tb key in
  let address := key_of s pid key in
  let b := buckets s k in
  if negb (words s word =? u32 val) then (s, Some (- HL_LINUX_EAGAIN))
  else if interrupted then (s, Some (- HL_LINUX_EINTR))
  else
    let b := fbk_park (set_waiters (waiters b + 1) b) address bits in
    let (b, slot) := fbk_wait_register b address bits in
    let p := mk_parked pid k key address bits timed (KWait word (u32 val) slot) in
    (become t (Parked p) (set_bucket k b s), None).

Definition granted_at (b : futex_bucket) (slot : Z) : bool :=
  match lookupZ (wslots b) slot with Some w => wgrant w | None => false end.

Definition resume_wait (t : Z) (p : parked) (slot : Z) (interrupted timed_out : bool) (s : sys) : outcome :=
  let b := buckets s (p_bid p) in
  let out := leave t p (fbk_wait_unregister b slot) s in
  if interrupted then (out, Some (- HL_LINUX_EINTR))
  else if timed_out then (out, Some (- HL_LINUX_ETIMEDOUT))
  else if (slot <? 0) || granted_at b slot then (out, Some 0)
  else (s, None).

(** ** PI mutexes *)

(** What one round of the loop makes of the word it read. *)
Inductive pi_decision := PiTake (word : Z) | PiRefuse (errno : Z) | PiQueue (word : Z).

Definition pi_decide (mytid v others : Z) (waiting precise trylock : bool) : pi_decision :=
  let owner := Z.land v HL_FUTEX_TID_MASK in
  let must_queue := negb waiting && (0 <? others) && precise in
  if (owner =? 0) && negb must_queue then
    PiTake (Z.lor mytid (Z.lor (Z.land v HL_FUTEX_OWNER_DIED) (if 0 <? others then HL_FUTEX_WAITERS else 0)))
  else if owner =? mytid then PiRefuse EDEADLK
  else if trylock then PiRefuse HL_LINUX_EAGAIN
  else PiQueue (Z.lor v HL_FUTEX_WAITERS).

(** A round: the thread takes the mutex, gives up, or goes (back) to sleep. *)
Definition lock_pi_round (t : Z) (p : parked) (word : Z) (waiting trylock interrupted : bool) (s : sys) : outcome :=
  let b := buckets s (p_bid p) in
  let address := key_of s (p_pid p) (p_key p) in
  let others := fbk_parked b address - (if waiting then 1 else 0) in
  let out b s := if waiting then leave t p b s else s in
  match pi_decide t (words s word) others waiting (negb (imprecise b)) trylock with
  | PiTake v => (out b (store word v s), Some 0)
  | PiRefuse e => (out b s, Some (- e))
  | PiQueue v =>
      let b := if waiting then b else fbk_park (set_waiters (waiters b + 1) b) address ALL_BITS in
      let s := store word v s in
      if interrupted then (leave t p b s, Some (- HL_LINUX_EINTR))
      else (become t (Parked p) (set_bucket (p_bid p) b s), None)
  end.

(** [word] is [None] for a null or unmapped address. *)
Definition futex_lock_pi (t pid : Z) (tb : table) (word : option Z) (key : Z) (trylock timed interrupted : bool) (s : sys)
    : outcome :=
  match word with
  | None => (s, Some (- EFAULT))
  | Some w =>
      let p := mk_parked pid (fbk_of s pid tb key) key (key_of s pid key) ALL_BITS timed (KLockPi w) in
      lock_pi_round t p w false trylock interrupted s
  end.

Definition resume_lock_pi (t : Z) (p : parked) (word : Z) (interrupted timed_out again : bool) (s : sys) : outcome :=
  let out := leave t p (buckets s (p_bid p)) s in
  if interrupted then (out, Some (- HL_LINUX_EINTR))
  else if timed_out then (out, Some (- HL_LINUX_ETIMEDOUT))
  else lock_pi_round t p word true false again s.

Definition futex_unlock_pi (t pid : Z) (tb : table) (word : option Z) (key : Z) (s : sys) : outcome :=
  match word with
  | None => (s, Some (- EFAULT))
  | Some w =>
      if negb (Z.land (words s w) HL_FUTEX_TID_MASK =? t) then (s, Some (- EPERM))
      else
        let waiters := fbk_parked (buckets s (fbk_of s pid tb key)) (key_of s pid key) in
        (store w (if 0 <? waiters then HL_FUTEX_WAITERS else 0) s, Some 0)
  end.

(** [FUTEX_WAIT_REQUEUE_PI] up to its sleep. *)
Definition futex_wait_requeue_pi (t pid : Z) (tb : table) (word : option Z) (key val : Z) (uaddr2 : option Z) (key2 : Z)
    (timed interrupted : bool) (s : sys) : outcome :=
  match word with
  | None => (s, Some (- EFAULT))
  | Some w =>
      let k := fbk_of s pid tb key in
      let address := key_of s pid key in
      let b := buckets s k in
      if negb (words s w =? u32 val) then (s, Some (- HL_LINUX_EAGAIN))
      else
        let b := fbk_park (set_waiters (waiters b + 1) b) address ALL_BITS in
        let p := mk_parked pid k key address ALL_BITS timed (KRequeuePi uaddr2 key2) in
        if interrupted then (leave t p b s, Some (- HL_LINUX_EINTR))
        else (become t (Parked p) (set_bucket k b s), None)
  end.

(** Its tail: it leaves the bucket and goes on to lock the target. *)
Definition resume_requeue_pi (t : Z) (p : parked) (uaddr2 : option Z) (key2 : Z) (interrupted timed_out : bool) (s : sys)
    : outcome :=
  let out := leave t p (buckets s (p_bid p)) s in
  if interrupted then (out, Some (- HL_LINUX_EINTR))
  else if timed_out then (out, Some (- HL_LINUX_ETIMEDOUT))
  else (become t (Relock (p_pid p) (p_bid p).1 uaddr2 key2 (p_timed p)) out, None).

(** ** Wakes *)

Definition wake_bucket (pid : Z) (tb : table) (key n mask : Z) (grant_all : bool) (s : sys) : option (sys * Z) :=
  let k := fbk_of s pid tb key in
  '(b, woke, _) ← futex_wake_bucket (key_of s pid key) n mask grant_all (buckets s k);
  Some (set_bucket k b s, woke).

(** The wakes a call has left, one bucket at a time; the answers add up. *)
Definition continue_wakes (t pid : Z) (tb : table) (woke : Z) (todo : list (Z * Z * bool)) (s : sys) : option outcome :=
  match todo with
  | [] => Some (finish t s, Some woke)
  | (key, n, grant_all) :: todo' =>
      '(s', more) ← wake_bucket pid tb key n ALL_BITS grant_all s;
      match todo' with
      | [] => Some (finish t s', Some (s32 (woke + more)))
      | _ => Some (become t (Waking pid tb (s32 (woke + more)) todo') s', None)
      end
  end.

(** [futex_wake_op_apply] on the value of the word: the new value and whether
    the old one satisfies the comparison.  The word is written even when the
    comparison is not one the code knows. *)
Definition wake_op_value (op2 oparg old : Z) : option Z :=
  match op2 with
  | 0 => Some (u32 oparg)
  | 1 => Some (u32 (old + oparg))
  | 2 => Some (Z.lor old (u32 oparg))
  | 3 => Some (Z.land old (Z.lxor (u32 oparg) UINT32_MAX))
  | 4 => Some (Z.lxor old (u32 oparg))
  | _ => None
  end.

Definition wake_op_compare (cmp cmparg old : Z) : option bool :=
  match cmp with
  | 0 => Some (s32 old =? cmparg)
  | 1 => Some (negb (s32 old =? cmparg))
  | 2 => Some (s32 old <? cmparg)
  | 3 => Some (s32 old <=? cmparg)
  | 4 => Some (cmparg <? s32 old)
  | 5 => Some (cmparg <=? s32 old)
  | _ => None
  end.

Definition futex_wake_op_apply (word : option Z) (val3 : Z) (s : sys) : sys * Z * bool :=
  let op2 := Z.land (Z.shiftr val3 28) 0xf in
  let cmp := Z.land (Z.shiftr val3 24) 0xf in
  let oparg := Z.land (Z.shiftr val3 12) 0xfff in
  let cmparg := Z.land val3 0xfff in
  let shifted := has_flag op2 8 in
  let oparg := if shifted then s32 (Z.shiftl 1 (Z.land oparg 31)) else oparg in
  let op2 := if shifted then Z.land op2 7 else op2 in
  match word with
  | None => (s, - EFAULT, false)
  | Some w =>
      let old := words s w in
      match wake_op_value op2 oparg old with
      | None => (s, - HL_LINUX_ENOSYS, false)
      | Some new =>
          let s := store w new s in
          match wake_op_compare cmp cmparg old with
          | None => (s, - HL_LINUX_ENOSYS, false)
          | Some holds => (s, 0, holds)
          end
      end
  end.

(** ** [futex_op] *)

Record futex_call := mk_futex_call {
  c_pid : Z;
  c_word : option Z;     (** the word of [uaddr], [None] when null or unmapped *)
  c_key : Z;
  c_op : Z;
  c_private : bool;
  c_val : Z;
  c_timed : bool;
  c_nr_wake2 : Z;
  c_word2 : option Z;
  c_key2 : Z;
  c_val3 : Z
}.

(** The call up to its first sleep or its answer; [None] is an access to a
    word that is not there. *)
Definition futex_op (t : Z) (c : futex_call) (interrupted : bool) (s : sys) : option outcome :=
  let op := c_op c in
  let pid := c_pid c in
  let tb := if c_private c then PrivateTable pid else SharedTable in
  if ((op =? 9) || (op =? 10)) && (c_val3 c =? 0) then Some (s, Some (- HL_LINUX_EINVAL))
  else if (op =? 6) || (op =? 13) then
    Some (futex_lock_pi t pid tb (c_word c) (c_key c) false (c_timed c) interrupted s)
  else if op =? 8 then Some (futex_lock_pi t pid tb (c_word c) (c_key c) true false interrupted s)
  else if op =? 7 then Some (futex_unlock_pi t pid tb (c_word c) (c_key c) s)
  else if op =? 11 then
    Some (futex_wait_requeue_pi t pid tb (c_word c) (c_key c) (c_val c) (c_word2 c) (c_key2 c) (c_timed c) interrupted s)
  else if op =? 12 then
    let differs := match c_word c with Some w => negb (words s w =? c_val3 c) | None => false end in
    if differs then Some (s, Some (- HL_LINUX_EAGAIN))
    else
      let budget := Z.max 1 (c_val c) + Z.max 0 (c_nr_wake2 c) in
      Some (become t (Waking pid tb 0 [(c_key c, Z.min budget INT_MAX, true)]) s, None)
  else if (op =? 0) || (op =? 9) then
    w ← c_word c;
    Some (futex_wait t pid tb w (c_key c) (c_val c) (if op =? 9 then c_val3 c else ALL_BITS) (c_timed c) interrupted s)
  else if (op =? 1) || (op =? 10) || (op =? 3) || (op =? 4) then
    '(s', woke) ← wake_bucket pid tb (c_key c) (c_val c) (if op =? 10 then c_val3 c else ALL_BITS)
      ((op =? 3) || (op =? 4)) s;
    Some (s', Some woke)
  else if op =? 5 then
    let '(s', rc, do_wake2) := futex_wake_op_apply (c_word2 c) (c_val3 c) s in
    if rc <? 0 then Some (s', Some rc)
    else
      let todo := (c_key c, c_val c, false) :: (if do_wake2 then [(c_key2 c, c_nr_wake2 c, false)] else []) in
      Some (become t (Waking pid tb 0 todo) s', None)
  else if (op =? 2) || (14 <=? op) then Some (s, Some (- HL_LINUX_ENOSYS))
  else Some (s, Some 0).

(** ** The system call *)

Definition is_op (ops : list Z) (operation : Z) : bool := existsb (Z.eqb operation) ops.

(** [svc_proc_98]: the errors found before [futex_op], or its arguments.
    [atomic_address] answers the host address of a guest word and [word_at]
    the word found there; only whether the timeout is readable matters. *)
Definition svc_proc_98 (atomic_address : Z -> Z -> Z -> option Z) (word_at : Z -> option Z) (pid a0 a1 a2 a3 a4 a5 : Z)
    : Z + futex_call :=
  let raw_operation := u32 a1 in
  let operation := Z.land raw_operation 0x7f in
  if negb (Z.land raw_operation (Z.lxor UINT32_MAX 0x1ff) =? 0) then inl (- HL_LINUX_EINVAL)
  else if has_flag raw_operation 0x100 && negb (is_op [9; 11; 13] operation) then inl (- HL_LINUX_ENOSYS)
  else if has_flag a0 3 then inl (- HL_LINUX_EINVAL)
  else
    let access := if is_op [6; 7; 8; 13] operation then Z.lor HL_LOGICAL_VMA_READ HL_LOGICAL_VMA_WRITE else HL_LOGICAL_VMA_READ in
    match atomic_address a0 4 access with
    | None => inl (- EFAULT)
    | Some primary =>
        let pinned := negb (a4 =? 0) && is_op [3; 4; 5; 11; 12] operation in
        let access2 := if is_op [5; 11; 12] operation then Z.lor HL_LOGICAL_VMA_READ HL_LOGICAL_VMA_WRITE else HL_LOGICAL_VMA_READ in
        if pinned && has_flag a4 3 then inl (- HL_LINUX_EINVAL)
        else
          match (if pinned then atomic_address a4 4 access2 else Some a4) with
          | None => inl (- EFAULT)
          | Some secondary =>
              let reads_timeout := negb (a3 =? 0) && is_op [0; 6; 9; 11; 13] operation in
              match (if reads_timeout then atomic_address a3 16 HL_LOGICAL_VMA_READ else Some a3) with
              | None => inl (- EFAULT)
              | Some timeout =>
                  let is_private := has_flag raw_operation 0x80 in
                  inr (mk_futex_call pid (word_at primary) (if is_private then private_key a0 else primary) operation
                         is_private (s32 a2) (negb (timeout =? 0)) (s32 a3) (word_at secondary)
                         (if is_private then private_key a4 else secondary) (u32 a5))
              end
          end
    end.

(** ** Teardown *)

(** [futex_wake_addr]: the word is zeroed, then each table is notified. *)
Definition futex_wake_addr (t pid : Z) (word : option Z) (host : Z) (s : sys) : outcome :=
  match word with
  | None => (s, Some 0)
  | Some w => (become t (Notifying pid host [PrivateTable pid; SharedTable]) (store w 0 s), None)
  end.

Definition notify (t pid host : Z) (todo : list table) (s : sys) : option outcome :=
  match todo with
  | [] => Some (finish t s, Some 0)
  | tb :: todo' =>
      let k := fbk_of s pid tb host in
      '(b, _, _) ← fbk_wait_grant (buckets s k) (key_of s pid host) INT_MAX ALL_BITS;
      let s' := set_bucket k b s in
      match todo' with
      | [] => Some (finish t s', Some 0)
      | _ => Some (become t (Notifying pid host todo') s', None)
      end
  end.

(** [robust_handle_death] on a resolved word: the owner's death is marked and
    one waiter of the shared table is woken. *)
Definition robust_handle_death (t pid mytid : Z) (word : option Z) (host : Z) (s : sys) : outcome :=
  match word with
  | None => (s, Some 0)
  | Some w =>
      let v := words s w in
      if negb (Z.land v HL_FUTEX_TID_MASK =? mytid) then (s, Some 0)
      else
        let s' := store w (Z.lor (Z.land v HL_FUTEX_WAITERS) HL_FUTEX_OWNER_DIED) s in
        if has_flag v HL_FUTEX_WAITERS then (become t (Waking pid SharedTable 0 [(host, 1, false)]) s', None) else (s', Some 0)
  end.

(** ** Fork *)

(** [futex_private_table_after_fork] on one bucket. *)
Definition private_bucket_after_fork (b : futex_bucket) : futex_bucket :=
  mk_bucket 0 (replicate (length (aslots b)) zero_aslot) (replicate (length (wslots b)) zero_wslot) 0 false.

(** The child of a threaded parent rebuilds its private table, the child of a
    lone thread keeps its copy; the registry is inherited. *)
Definition futex_fork (parent child : Z) (threaded : bool) (s : sys) : sys :=
  let inherit k :=
    match k with
    | (PrivateTable p, i) =>
        if p =? child then
          let b := buckets s (PrivateTable parent, i) in if threaded then private_bucket_after_fork b else b
        else buckets s k
    | _ => buckets s k
    end in
  set_registry child (registry s parent) (mk_sys inherit (registry s) (words s) (threads s)).

(** ** The system *)

Inductive futex_event :=
| Call (t : Z) (c : futex_call) (interrupted : bool)
| Resume (t : Z) (interrupted timed_out again : bool)
| ClearTid (t pid : Z) (word : option Z) (host : Z)
| OwnerDeath (t pid : Z) (word : option Z) (host : Z)
| Store (w v : Z)
| CompareExchange (t w old new : Z)
| MapShared (pid base len : Z) (identity : option (Z * Z)) (foff : Z)
| UnmapShared (pid ustart uend : Z)
| Fork (parent child : Z) (threaded : bool).

(** A thread goes on with the call it is in. *)
Definition futex_resume (t : Z) (st : status) (interrupted timed_out again : bool) (s : sys) : option outcome :=
  match st with
  | Parked p =>
      if timed_out && negb (p_timed p) then None
      else
        Some (match p_kind p with
              | KWait _ _ slot => resume_wait t p slot interrupted timed_out s
              | KLockPi w => resume_lock_pi t p w interrupted timed_out again s
              | KRequeuePi uaddr2 key2 => resume_requeue_pi t p uaddr2 key2 interrupted timed_out s
              end)
  | Relock pid tb uaddr2 key2 timed => Some (futex_lock_pi t pid tb uaddr2 key2 false timed interrupted (finish t s))
  | Waking pid tb woke todo => continue_wakes t pid tb woke todo s
  | Notifying pid host todo => notify t pid host todo s
  end.

(** A thread in a call begins no other. *)
Definition when_idle (t : Z) (s : sys) (o : option outcome) : option outcome :=
  match threads s !! t with Some _ => None | None => o end.

(** The answer is [None] for a step that ends no call. *)
Definition futex_step (e : futex_event) (s : sys) : option outcome :=
  match e with
  | Call t c interrupted => when_idle t s (futex_op t c interrupted s)
  | Resume t interrupted timed_out again => st ← threads s !! t; futex_resume t st interrupted timed_out again s
  | ClearTid t pid word host => when_idle t s (Some (futex_wake_addr t pid word host s))
  | OwnerDeath t pid word host => when_idle t s (Some (robust_handle_death t pid t word host s))
  | Store w v => Some (store w (u32 v) s, None)
  | CompareExchange t w old new =>
      when_idle t s (Some (if words s w =? old then (store w new s, Some 1) else (s, Some 0)))
  | MapShared pid base len identity foff =>
      l ← futex_shared_register base len identity foff (registry s pid); Some (set_registry pid l s, None)
  | UnmapShared pid ustart uend => l ← futex_shared_unmap ustart uend (registry s pid); Some (set_registry pid l s, None)
  | Fork parent child threaded => Some (futex_fork parent child threaded s, None)
  end.

Fixpoint run_events (es : list futex_event) (s : sys) : option (sys * list (option Z)) :=
  match es with
  | [] => Some (s, [])
  | e :: es' => '(s', a) ← futex_step e s; '(s'', l) ← run_events es' s'; Some (s'', a :: l)
  end.

(** No call has been made. *)
Definition initial_sys (memory : Z -> Z) : sys := mk_sys (fun _ => zero_bucket) (fun _ => []) memory ∅.
