(* ===== verification/FutexBuckets.v ===== *)
(** * Futex buckets: what the loops compute

    The slot a registration takes, the slots a wake grants, and the tally of
    parked threads per address. *)

From stdpp Require Import gmap.
From S2P Require Import Prelude Status Futex FutexSystem.

(** The scans of the buckets read the slot they stop at. *)
Lemma scan_lookup {A} (p : A -> bool) (l : list A) :
  match scan_from p l 0 with Some i => lookupZ l i | None => None end = List.find p l.
Proof.
  enough (forall l' k, match scan_from p l (lengthZ k) with Some i => lookupZ (k ++ l ++ l') i | None => None end = List.find p l) as H.
  { specialize (H [] []). by rewrite app_nil_r in H. }
  induction l as [|x l IH]; intros l' k; [done|]. simpl. destruct (p x) eqn:Hp.
  - apply lookupZ_middle.
  - specialize (IH l' (k ++ [x])). rewrite lengthZ_app, lengthZ_cons in IH. simpl in IH.
    by rewrite <- app_assoc in IH.
Qed.

Lemma find_lookupZ {A} (p : A -> bool) (l : list A) x : List.find p l = Some x -> exists i, lookupZ l i = Some x /\ p x = true.
Proof. intros H. apply List.find_some in H as [Hin Hp]. apply elem_lookupZ in Hin as [i Hi]. eauto. Qed.

Lemma find_none_lookupZ {A} (p : A -> bool) (l : list A) i x : List.find p l = None -> lookupZ l i = Some x -> p x = false.
Proof. intros H Hi. apply lookupZ_elem in Hi. by apply (List.find_none _ _ H). Qed.

(** ** Waiter slots *)

Lemma register_cases b address bits b' slot :
  fbk_wait_register b address bits = (b', slot) ->
  (slot = -1 /\ b' = b /\ forall i w, lookupZ (wslots b) i = Some w -> waddr w <> 0) \/
  (exists w, lookupZ (wslots b) slot = Some w /\ waddr w = 0 /\
             b' = set_wslots (insertZ (wslots b) slot (mk_wslot address bits false)) b).
Proof.
  unfold fbk_wait_register. destruct (scan_from _ _ _) as [i|] eqn:E; intros H; simplify_eq.
  - right. apply scan_from_Some in E as (_ & (w & Hw & Hp) & _). rewrite Z.sub_0_r in Hw.
    exists w. split; [done|]. split; [lia|done].
  - left. repeat split. intros i w Hi. pose proof (scan_from_None _ _ _ E _ _ Hi) as Hw. simpl in Hw. lia.
Qed.

(** What a grant may take. *)
Definition eligible_slot (address mask : Z) (w : waiter_slot) : bool :=
  (waddr w =? address) && negb (wgrant w) && negb (Z.land (wbits w) mask =? 0).
Definition give (w : waiter_slot) : waiter_slot := mk_wslot (waddr w) (wbits w) true.

(** [b'] is [b] with the slots of [L] granted. *)
Definition grants (address mask : Z) (L : list Z) (b b' : futex_bucket) : Prop :=
  NoDup L /\
  waiters b' = waiters b /\ aslots b' = aslots b /\ imprecise b' = imprecise b /\
  length (wslots b') = length (wslots b) /\
  (forall i, i ∈ L -> exists w, lookupZ (wslots b) i = Some w /\ eligible_slot address mask w = true) /\
  (forall i, lookupZ (wslots b') i = if decide (i ∈ L) then give <$> lookupZ (wslots b) i else lookupZ (wslots b) i).

Lemma grants_nil address mask b : grants address mask [] b b.
Proof.
  repeat split; try done.
  - constructor.
  - intros i Hi. by apply not_elem_of_nil in Hi.
Qed.

Lemma grants_snoc address mask L b b1 i w c :
  grants address mask L b b1 -> lookupZ (wslots b1) i = Some w -> eligible_slot address mask w = true ->
  grants address mask (i :: L) b (set_wcursor c (set_wslots (insertZ (wslots b1) i (give w)) b1)).
Proof.
  intros (Hnd & Hw & Ha & Him & Hlen & HL & Hl) Hi He.
  assert (Hn : i ∉ L).
  { intros Hin. rewrite Hl, decide_True in Hi by done. destruct (lookupZ (wslots b) i); simplify_eq/=.
    unfold eligible_slot in He. simpl in He. rewrite andb_false_r in He. done. }
  rewrite Hl, decide_False in Hi by done.
  repeat split; simpl; try done.
  - by apply list.NoDup_cons.
  - rewrite <- Hlen. pose proof (lengthZ_insertZ (wslots b1) i (give w)). unfold lengthZ in *. lia.
  - intros j [->|Hj]%elem_of_cons; eauto.
  - intros j. assert (Hr : 0 <= i < lengthZ (wslots b1)).
    { pose proof (lookupZ_Some_range _ _ _ Hi). unfold lengthZ in *. lia. }
    rewrite (lookupZ_insertZ _ _ _ _ Hr), Hl. destruct (decide (i = j)) as [->|Hne].
    + rewrite decide_True by (by left). by rewrite Hi.
    + destruct (decide (j ∈ L)); [rewrite decide_True by (by right); done|].
      rewrite decide_False; [done|]. intros [->|?]%elem_of_cons; done.
Qed.

(** The slots that [n] rounds look at. *)
Definition visits (start offset : Z) (n : nat) (i : Z) : Prop :=
  exists k, 0 <= k < Z.of_nat n /\ i = (start + (offset + k)) mod Z.of_nat FUTEX_WSLOTS.

Lemma visits_S start offset n i :
  visits start offset (S n) i <-> i = (start + offset) mod Z.of_nat FUTEX_WSLOTS \/ visits start (offset + 1) n i.
Proof.
  split.
  - intros (k & Hk & ->). destruct (decide (k = 0)) as [->|Hne]; [left; by rewrite Z.add_0_r|].
    right. exists (k - 1). split; [lia|]. f_equal. lia.
  - intros [->|(k & Hk & ->)]; [exists 0; split; [lia|]; f_equal; lia|]. exists (k + 1). split; [lia|]. f_equal. lia.
Qed.

Lemma visits_all start i : 0 <= i < Z.of_nat FUTEX_WSLOTS -> visits (start mod Z.of_nat FUTEX_WSLOTS) 0 FUTEX_WSLOTS i.
Proof.
  intros Hi. exists ((i - start) mod Z.of_nat FUTEX_WSLOTS). change (Z.of_nat FUTEX_WSLOTS) with 128 in *.
  split; [apply Z.mod_pos_bound; lia|]. div_lia.
Qed.

Lemma grants_lookup address mask L b b' i w' :
  grants address mask L b b' -> lookupZ (wslots b') i = Some w' ->
  exists w, lookupZ (wslots b) i = Some w /\ waddr w' = waddr w /\ wbits w' = wbits w /\
            wgrant w' = (if decide (i ∈ L) then true else wgrant w).
Proof.
  intros (_ & _ & _ & _ & _ & _ & Hl) Hi. rewrite Hl in Hi. case_decide; [|eauto 10].
  destruct (lookupZ (wslots b) i) as [w|]; simplify_eq/=. eauto 10.
Qed.

Section Grant.
Context (address count mask start : Z).

(** The loop grants a set of slots, no more than asked for, and all eligible
    ones it passes when it grants fewer. *)
Definition loop_grants (offset : Z) (n : nat) (reg : bool) (b0 : futex_bucket) (L : list Z)
    (r : option (futex_bucket * Z * bool)) : Prop :=
  exists b' L' reg',
    r = Some (b', lengthZ L', reg') /\
    grants address mask L' b0 b' /\ lengthZ L <= lengthZ L' <= Z.max (lengthZ L) count /\ (forall i, i ∈ L -> i ∈ L') /\
    (reg' = true <-> reg = true \/ exists i w, visits start offset n i /\ lookupZ (wslots b0) i = Some w /\ waddr w = address) /\
    (lengthZ L' < count -> forall i w, visits start offset n i -> lookupZ (wslots b0) i = Some w ->
       eligible_slot address mask w = true -> i ∈ L').

Lemma loop_grants_skip offset n reg reg1 b0 L r w0 :
  lookupZ (wslots b0) ((start + offset) mod Z.of_nat FUTEX_WSLOTS) = Some w0 ->
  (reg1 = true <-> reg = true \/ waddr w0 = address) ->
  (lengthZ L < count -> eligible_slot address mask w0 = true -> (start + offset) mod Z.of_nat FUTEX_WSLOTS ∈ L) ->
  loop_grants (offset + 1) n reg1 b0 L r -> loop_grants offset (S n) reg b0 L r.
Proof.
  intros Hw0 Hreg1 Hel (b' & L' & reg' & Hrun & HG & Hle & Hsub & Hreg & Hall).
  exists b', L', reg'. do 4 (split; [done|]). split.
  - rewrite Hreg, Hreg1. setoid_rewrite visits_S. split.
    + intros [[?|?]|(i & w1 & ? & ? & ?)]; eauto 10.
    + intros [?|(i & w1 & [->|?] & ? & ?)]; simplify_eq; eauto 10.
  - intros Hlt i w1 [->|Hv]%visits_S Hi1 He; [|eauto]. simplify_eq. apply Hsub, Hel; [lia|done].
Qed.

Lemma loop_grants_give offset n reg b0 L r w0 :
  lookupZ (wslots b0) ((start + offset) mod Z.of_nat FUTEX_WSLOTS) = Some w0 -> waddr w0 = address ->
  lengthZ L < count ->
  loop_grants (offset + 1) n true b0 ((start + offset) mod Z.of_nat FUTEX_WSLOTS :: L) r -> loop_grants offset (S n) reg b0 L r.
Proof.
  intros Hw0 Haddr Hlt (b' & L' & reg' & Hrun & HG & Hle & Hsub & Hreg & Hall). rewrite lengthZ_cons in Hle.
  exists b', L', reg'. do 2 (split; [done|]). split; [lia|]. split; [intros; apply Hsub; by right|]. split.
  - rewrite Hreg. setoid_rewrite visits_S. split; [|by left]. intros _. right. eauto 10.
  - intros Hl i w1 [->|Hv]%visits_S Hi1 He; [|eauto]. apply Hsub. by left.
Qed.

Lemma grant_loop_spec n : forall offset reg b0 b L,
  length (wslots b0) = FUTEX_WSLOTS -> grants address mask L b0 b ->
  loop_grants offset n reg b0 L (grant_loop n start offset address count mask (lengthZ L) reg b).
Proof.
  induction n as [|n IH]; intros offset reg b0 b L Hlen HG.
  - exists b, L, reg. do 2 (split; [done|]). split; [lia|]. split; [done|]. split.
    + split; [by left|]. intros [?|(i & w & (k & ? & _) & _)]; [done|lia].
    + intros _ i w (k & ? & _). lia.
  - cbn [grant_loop].
    assert (Hi0 : 0 <= (start + offset) mod Z.of_nat FUTEX_WSLOTS < lengthZ (wslots b)).
    { unfold lengthZ. pose proof HG as (_ & _ & _ & _ & -> & _). rewrite Hlen. apply Z.mod_pos_bound. done. }
    apply lookupZ_is_Some in Hi0 as [w Hw]. rewrite Hw.
    destruct (grants_lookup _ _ _ _ _ _ _ HG Hw) as (w0 & Hw0 & Haddr & Hbits & Hgr).
    destruct (waddr w =? address) eqn:Ea; simpl.
    2:{ eapply (loop_grants_skip _ _ _ reg); [exact Hw0| | |by apply IH].
        - rewrite <- Haddr. split; [by left|]. intros [?|?]; [done|lia].
        - intros _ He. unfold eligible_slot in He. rewrite <- Haddr, Ea in He. done. }
    destruct (wgrant w || (Z.land (wbits w) mask =? 0) || (count <=? lengthZ L)) eqn:Es.
    + eapply loop_grants_skip; [exact Hw0| | |by apply IH].
      * split; [|done]. intros _. right. lia.
      * intros Hlt He. unfold eligible_slot in He. rewrite <- Hbits in He.
        case_decide; [done|]. rewrite <- Hgr in He. bool_props; destruct (wgrant w); simpl in *; try done; lia.
    + apply orb_false_iff in Es as [Es Hc]. apply orb_false_iff in Es as [Hg Hb].
      eapply loop_grants_give; [exact Hw0|lia|lia|]. 
      rewrite <- lengthZ_cons with (x := (start + offset) mod Z.of_nat FUTEX_WSLOTS).
      apply IH; [done|]. eapply grants_snoc; [done|done|].
      unfold eligible_slot. by rewrite Ea, Hg, Hb.
Qed.
End Grant.

(** [fbk_wait_grant]: it always answers, grants at most [count] eligible slots
    and all of them when it grants fewer. *)
Lemma wait_grant_spec b address count mask :
  length (wslots b) = FUTEX_WSLOTS ->
  exists b' L reg,
    fbk_wait_grant b address count mask = Some (b', lengthZ L, reg) /\
    grants address mask L b b' /\ lengthZ L <= Z.max 0 count /\
    (reg = true <-> exists i w, lookupZ (wslots b) i = Some w /\ waddr w = address) /\
    (lengthZ L < count -> forall i w, lookupZ (wslots b) i = Some w -> eligible_slot address mask w = true -> i ∈ L).
Proof.
  intros Hlen. unfold fbk_wait_grant.
  destruct (grant_loop_spec address count mask (wcursor b mod Z.of_nat FUTEX_WSLOTS) FUTEX_WSLOTS 0 false b b [] Hlen
              (grants_nil _ _ _)) as (b' & L & reg & Hrun & HG & Hle & _ & Hreg & Hall).
  assert (Hv : forall i w, lookupZ (wslots b) i = Some w -> visits (wcursor b mod Z.of_nat FUTEX_WSLOTS) 0 FUTEX_WSLOTS i).
  { intros i w Hi. apply visits_all. apply lookupZ_Some_range in Hi. unfold lengthZ in Hi. lia. }
  exists b', L, reg. split; [done|]. split; [done|]. split; [change (lengthZ []) with 0 in Hle; lia|]. split; [|eauto].
  rewrite Hreg. split; [intros [?|(i & w & _ & ? & ?)]; [done|eauto]|]. intros (i & w & Hi & Ha). right. eauto 10.
Qed.

Lemma grants_trans address mask L L' b b1 b2 :
  grants address mask L b b1 -> grants address mask L' b1 b2 -> grants address mask (L' ++ L) b b2.
Proof.
  intros HG (Hnd' & Hw' & Ha' & Hi' & Hlen' & HL' & Hl').
  pose proof HG as (Hnd & Hw & Ha & Hi & Hlen & HL & Hl).
  assert (Hdisj : forall i, i ∈ L' -> i ∉ L).
  { intros i Hi1 Hi2. destruct (HL' _ Hi1) as (w & Hw1 & He). rewrite Hl, decide_True in Hw1 by done.
    destruct (lookupZ (wslots b) i); simplify_eq/=. unfold eligible_slot in He. simpl in He. by rewrite andb_false_r in He. }
  split; [apply list.NoDup_app; repeat split; auto|]. split; [congruence|]. split; [congruence|]. split; [congruence|].
  split; [congruence|]. split.
  - intros i [Hi1|Hi1]%elem_of_app; [|by apply HL].
    destruct (HL' _ Hi1) as (w & Hw1 & He). rewrite Hl, decide_False in Hw1 by auto. eauto.
  - intros i. rewrite Hl', Hl. destruct (decide (i ∈ L')).
    + rewrite decide_False by auto. rewrite decide_True; [done|]. apply elem_of_app; auto.
    + destruct (decide (i ∈ L)); [rewrite decide_True; [done|apply elem_of_app; auto]|].
      rewrite decide_False; [done|]. rewrite elem_of_app. naive_solver.
Qed.

(** ** The tally of parked threads *)

Definition tally (l : list address_slot) (a : Z) : option (Z * Z) :=
  match List.find (parked_on a) l with Some s => Some (scnt s, sbits s) | None => None end.

(** At most one slot counts an address, and no count wraps. *)
Definition tally_ok (l : list address_slot) : Prop :=
  (forall i s, lookupZ l i = Some s -> 0 <= scnt s < 2 ^ 32) /\
  (forall i j s s', lookupZ l i = Some s -> lookupZ l j = Some s' -> scnt s <> 0 -> scnt s' <> 0 ->
     saddr s = saddr s' -> i = j).

Definition count_at (b : futex_bucket) (a : Z) : Z := match tally (aslots b) a with Some (c, _) => c | None => 0 end.

Lemma parked_on_true a s : parked_on a s = true <-> scnt s <> 0 /\ saddr s = a.
Proof. unfold parked_on. rewrite andb_true_iff, negb_true_iff. lia. Qed.

Lemma tally_Some l a cb : tally_ok l ->
  (tally l a = Some cb <-> exists i s, lookupZ l i = Some s /\ scnt s <> 0 /\ saddr s = a /\ cb = (scnt s, sbits s)).
Proof.
  intros [_ Hu]. unfold tally. split.
  - destruct (List.find _ _) as [s|] eqn:E; [|done]. intros [= <-].
    apply find_lookupZ in E as (i & Hi & [Hc Ha]%parked_on_true). eauto 10.
  - intros (i & s & Hi & Hc & Ha & ->). destruct (List.find _ _) as [s'|] eqn:E.
    + apply find_lookupZ in E as (j & Hj & [Hc' Ha']%parked_on_true).
      assert (i = j) as -> by (eapply Hu; eauto; congruence). by simplify_eq.
    + pose proof (find_none_lookupZ _ _ _ _ E Hi) as Hp. rewrite (proj2 (parked_on_true a s)) in Hp; done.
Qed.

Lemma tally_scan l a i : scan_from (parked_on a) l 0 = Some i -> exists s, lookupZ l i = Some s /\ tally l a = Some (scnt s, sbits s).
Proof.
  intros E. pose proof (scan_lookup (parked_on a) l) as Hs. rewrite E in Hs.
  apply scan_from_Some in E as (_ & (s & Hl & _) & _). rewrite Z.sub_0_r in Hl. exists s. split; [done|].
  unfold tally. by rewrite <- Hs, Hl.
Qed.

Lemma tally_scan_none l a : scan_from (parked_on a) l 0 = None -> tally l a = None.
Proof. intros E. pose proof (scan_lookup (parked_on a) l) as Hs. rewrite E in Hs. unfold tally. by rewrite <- Hs. Qed.

(** Writing slot [i], when no other slot counts the address it gets. *)
Lemma tally_insert l i s0 s : tally_ok l -> lookupZ l i = Some s0 -> 0 <= scnt s < 2 ^ 32 ->
  (forall j s', lookupZ l j = Some s' -> j <> i -> scnt s' <> 0 -> scnt s <> 0 -> saddr s' <> saddr s) ->
  tally_ok (insertZ l i s) /\
  forall a, tally (insertZ l i s) a =
    if parked_on a s then Some (scnt s, sbits s) else if parked_on a s0 then None else tally l a.
Proof.
  intros Hok Hi Hr Hu. pose proof (lookupZ_Some_range _ _ _ Hi) as Hir.
  assert (Hl : forall j, lookupZ (insertZ l i s) j = if decide (i = j) then Some s else lookupZ l j).
  { intros j. by apply lookupZ_insertZ. }
  assert (Hok' : tally_ok (insertZ l i s)).
  { destruct Hok as [Hok1 Hok2]. split.
    - intros j x. rewrite Hl. case_decide; [by intros [= <-]|]. apply Hok1.
    - intros j k x y. rewrite !Hl. repeat case_decide; intros; simplify_eq; auto.
      + exfalso. eapply Hu; eauto.
      + exfalso. eapply Hu; [| | |eauto|]; eauto.
      + eapply Hok2; eauto. }
  split; [done|]. intros a. apply option_eq. intros cb. rewrite tally_Some by done.
  destruct (parked_on a s) eqn:Es; [|destruct (parked_on a s0) eqn:E0].
  - apply parked_on_true in Es as [Hc Ha]. split.
    + intros (j & x & Hj & Hcx & Hax & ->). rewrite Hl in Hj. case_decide; simplify_eq; [done|].
      exfalso. eapply Hu; eauto.
    + intros [= <-]. exists i, s. rewrite Hl, decide_True by done. eauto 10.
  - split; [|done]. intros (j & x & Hj & Hcx & Hax & ->). rewrite Hl in Hj. case_decide; simplify_eq.
    + rewrite (proj2 (parked_on_true _ _)) in Es; done.
    + apply parked_on_true in E0 as [? ?]. exfalso. assert (i = j); [|done]. eapply (proj2 Hok); eauto; congruence.
  - rewrite tally_Some by done. split.
    + intros (j & x & Hj & Hcx & Hax & ->). rewrite Hl in Hj. case_decide; simplify_eq; [|eauto 10].
      rewrite (proj2 (parked_on_true _ _)) in Es; done.
    + intros (j & x & Hj & Hcx & Hax & ->). exists j, x. rewrite Hl. case_decide; simplify_eq; [|eauto 10].
      rewrite (proj2 (parked_on_true _ _)) in E0; done.
Qed.

(** [b'] is [b] up to its tally. *)
Definition same_but_tally (b b' : futex_bucket) : Prop :=
  waiters b' = waiters b /\ wslots b' = wslots b /\ wcursor b' = wcursor b /\ length (aslots b') = length (aslots b).

Lemma length_insertZ {A} (l : list A) i x : length (insertZ l i x) = length l.
Proof. pose proof (lengthZ_insertZ l i x). unfold lengthZ in *. lia. Qed.

Lemma park_spec b a bits :
  tally_ok (aslots b) -> count_at b a + 1 < 2 ^ 32 ->
  same_but_tally b (fbk_park b a bits) /\ tally_ok (aslots (fbk_park b a bits)) /\
  ((imprecise (fbk_park b a bits) = imprecise b /\
    forall a', tally (aslots (fbk_park b a bits)) a' =
      if a' =? a then Some (match tally (aslots b) a with Some (c, m) => (c + 1, Z.lor m bits) | None => (1, bits) end)
      else tally (aslots b) a') \/
   (imprecise (fbk_park b a bits) = true /\ aslots (fbk_park b a bits) = aslots b)).
Proof.
  intros Hok Hc. unfold fbk_park, count_at in *.
  destruct (scan_from (parked_on a) (aslots b) 0) as [i|] eqn:E.
  - destruct (tally_scan _ _ _ E) as (s & Hi & Ht). rewrite Hi. rewrite Ht in *.
    apply scan_from_Some in E as (_ & (s' & Hs' & [Hn Hsa]%parked_on_true) & _). rewrite Z.sub_0_r in Hs'.
    assert (s = s') as -> by congruence. clear Hs'. subst a.
    pose proof (proj1 Hok _ _ Hi). rewrite u32_small by lia.
    destruct (tally_insert (aslots b) i s' (mk_aslot (saddr s') (scnt s' + 1) (Z.lor (sbits s') bits)) Hok Hi) as [Hok' Hl].
    + simpl. lia.
    + intros j' s'' Hj' Hne' Hc' _. simpl. intros Heq'. apply Hne'. eapply (proj2 Hok); eauto.
    + split; [repeat split; apply length_insertZ|]. split; [done|]. left. split; [done|]. intros a'. simpl. rewrite Hl.
      destruct (a' =? saddr s') eqn:Ea.
      * rewrite (proj2 (parked_on_true _ _)); [done|]. simpl. split; lia.
      * rewrite (not_true_is_false (parked_on a' s')), (not_true_is_false (parked_on a' _)); [done|..];
          rewrite parked_on_true; simpl; lia.
  - pose proof (tally_scan_none _ _ E) as Ht. rewrite Ht in *.
    destruct (scan_from aslot_free (aslots b) 0) as [i|] eqn:Ef.
    + apply scan_from_Some in Ef as (_ & (s & Hi & Hf) & _). rewrite Z.sub_0_r in Hi. unfold aslot_free in Hf.
      destruct (tally_insert (aslots b) i s (mk_aslot a 1 bits) Hok Hi) as [Hok' Hl].
      * simpl. lia.
      * simpl. intros j s' Hj _ Hc' _ <-. pose proof (scan_from_None _ _ _ E _ _ Hj) as Hp.
        rewrite (proj2 (parked_on_true _ _)) in Hp; done.
      * split; [repeat split; apply length_insertZ|]. split; [done|]. left. split; [done|]. intros a'. simpl. rewrite Hl.
        destruct (a' =? a) eqn:Ea.
        -- rewrite (proj2 (parked_on_true _ _)); [done|]. simpl. split; lia.
        -- rewrite (not_true_is_false (parked_on a' s)), (not_true_is_false (parked_on a' _)); [done|..];
             rewrite parked_on_true; simpl; lia.
    + split; [done|]. split; [done|]. by right.
Qed.

Lemma unpark_spec b a :
  tally_ok (aslots b) ->
  same_but_tally b (fbk_unpark b a) /\ tally_ok (aslots (fbk_unpark b a)) /\
  imprecise (fbk_unpark b a) = imprecise b /\
  forall a', tally (aslots (fbk_unpark b a)) a' =
    if a' =? a then match tally (aslots b) a with Some (c, m) => if c =? 1 then None else Some (c - 1, m) | None => None end
    else tally (aslots b) a'.
Proof.
  intros Hok. unfold fbk_unpark.
  destruct (scan_from (parked_on a) (aslots b) 0) as [i|] eqn:E.
  - destruct (tally_scan _ _ _ E) as (s & Hi & Ht). rewrite Hi, Ht.
    apply scan_from_Some in E as (_ & (s' & Hs' & [Hn Hsa]%parked_on_true) & _). rewrite Z.sub_0_r in Hs'.
    assert (s = s') as -> by congruence. clear Hs'. subst a.
    pose proof (proj1 Hok _ _ Hi). rewrite u32_small by lia.
    set (s1 := if scnt s' - 1 =? 0 then mk_aslot 0 0 0 else mk_aslot (saddr s') (scnt s' - 1) (sbits s')).
    destruct (tally_insert (aslots b) i s' s1 Hok Hi) as [Hok' Hl].
    + subst s1. destruct (_ =? 0); simpl; lia.
    + intros j' s'' Hj' Hne' Hc' Hs1 Heq'. apply Hne'. eapply (proj2 Hok); eauto.
      subst s1. destruct (_ =? 0); simpl in *; done.
    + split; [repeat split; apply length_insertZ|]. split; [done|]. split; [done|]. intros a'. simpl. rewrite Hl.
      destruct (a' =? saddr s') eqn:Ea.
      * assert (a' = saddr s') as -> by lia. subst s1. destruct (scnt s' - 1 =? 0) eqn:E1.
        -- rewrite (not_true_is_false (parked_on _ (mk_aslot 0 0 0))) by (rewrite parked_on_true; simpl; lia).
           rewrite (proj2 (parked_on_true _ s')) by done. destruct (Z.eqb_spec (scnt s') 1); [done|lia].
        -- rewrite (proj2 (parked_on_true _ _)) by (simpl; lia). destruct (Z.eqb_spec (scnt s') 1); [lia|done].
      * rewrite (not_true_is_false (parked_on a' s')), (not_true_is_false (parked_on a' s1)); [done|..];
          rewrite parked_on_true; subst s1; [|lia]. destruct (_ =? 0); simpl; lia.
  - rewrite (tally_scan_none _ _ E). repeat (split; [done|]). intros a'.
    destruct (Z.eqb_spec a' a) as [->|]; [|done]. by apply tally_scan_none.
Qed.

Lemma match_spec b a mask :
  fbk_match b a mask = imprecise b || match tally (aslots b) a with Some (_, m) => negb (Z.land m mask =? 0) | None => false end.
Proof.
  unfold fbk_match. destruct (imprecise b); [done|]. simpl.
  destruct (scan_from _ _ _) as [i|] eqn:E; [|by rewrite (tally_scan_none _ _ E)].
  destruct (tally_scan _ _ _ E) as (s & -> & ->). done.
Qed.

Lemma parked_spec b a : fbk_parked b a = if imprecise b then waiters b else count_at b a.
Proof.
  unfold fbk_parked, count_at. destruct (imprecise b); [done|].
  destruct (scan_from _ _ _) as [i|] eqn:E; [|by rewrite (tally_scan_none _ _ E)].
  destruct (tally_scan _ _ _ E) as (s & -> & ->). done.
Qed.

(** ** The invariant of the futex buckets

    A bucket against the threads asleep in it: each waiter slot belongs to one
    of them, the tally counts them per address unless it has overflowed, and
    [waiters] is their number. *)

(** ** Counting in a finite map *)

Definition cnt {A} (f : A -> bool) (m : gmap Z A) : Z := countZ (fun kv => f kv.2) (map_to_list m).

Section Counting.
Context {A : Type} (f : A -> bool).
Implicit Types m : gmap Z A.

Lemma cnt_insert m i x : m !! i = None -> cnt f (<[i := x]> m) = (if f x then 1 else 0) + cnt f m.
Proof. intros Hi. unfold cnt. rewrite (countZ_perm _ _ _ (map_to_list_insert m i x Hi)). done. Qed.

Lemma cnt_delete m i x : m !! i = Some x -> cnt f m = (if f x then 1 else 0) + cnt f (delete i m).
Proof.
  intros Hi. rewrite <- (cnt_insert (delete i m) i x) by apply lookup_delete_eq. by rewrite insert_delete_id.
Qed.

Lemma cnt_nonneg m : 0 <= cnt f m.
Proof. apply countZ_bounds. Qed.

Lemma cnt_le_size m : cnt f m <= Z.of_nat (size m).
Proof. unfold cnt. rewrite <- length_map_to_list. apply countZ_bounds. Qed.

Lemma cnt_zero m : cnt f m = 0 <-> forall i x, m !! i = Some x -> f x = false.
Proof.
  unfold cnt. rewrite countZ_zero. split.
  - intros H i x Hi. apply elem_of_map_to_list, list_elem_of_In, elem_lookupZ in Hi as [n Hn]. apply (H _ _ Hn).
  - intros H n [i x] Hn. apply lookupZ_elem, list_elem_of_In, elem_of_map_to_list in Hn. by apply (H i).
Qed.

Lemma size_delete_Z m i x : m !! i = Some x -> Z.of_nat (size m) = 1 + Z.of_nat (size (delete i m)).
Proof.
  intros Hi. rewrite <- (insert_delete_id m i x Hi) at 1.
  rewrite map_size_insert_None by apply lookup_delete_eq. lia.
Qed.
End Counting.

(** ** One bucket *)

Definition at_address (a : Z) (p : parked) : bool := p_address p =? a.
(** The waiter slot a sleeper holds. *)
Definition slot_of (p : parked) : option Z :=
  match p_kind p with KWait _ _ slot => if slot <? 0 then None else Some slot | _ => None end.

Record bucket_ok (b : futex_bucket) (q : gmap Z parked) : Prop := mk_bucket_ok {
  bo_length : length (wslots b) = FUTEX_WSLOTS;
  bo_slot : forall t p i, q !! t = Some p -> slot_of p = Some i ->
    exists g, lookupZ (wslots b) i = Some (mk_wslot (p_address p) (p_bits p) g);
  bo_own : forall t t' p p' i, q !! t = Some p -> q !! t' = Some p' -> slot_of p = Some i -> slot_of p' = Some i -> t = t';
  bo_used : forall i w, lookupZ (wslots b) i = Some w -> waddr w <> 0 -> exists t p, q !! t = Some p /\ slot_of p = Some i;
  bo_waiters : waiters b = Z.of_nat (size q);
  bo_tally : tally_ok (aslots b);
  bo_exact : imprecise b = false -> forall a, count_at b a = cnt (at_address a) q;
  bo_bits : imprecise b = false -> forall t p, q !! t = Some p ->
    exists c m, tally (aslots b) (p_address p) = Some (c, m) /\ Z.land m (p_bits p) = p_bits p;
  bo_below : forall a, count_at b a <= cnt (at_address a) q;
  bo_address : forall t p, q !! t = Some p -> p_address p <> 0
}.

Lemma bucket_ok_blank n : bucket_ok (mk_bucket 0 (replicate n zero_aslot) (replicate FUTEX_WSLOTS zero_wslot) 0 false) ∅.
Proof.
  set (l := replicate n zero_aslot). set (ws := replicate FUTEX_WSLOTS zero_wslot).
  assert (Ha : forall i s, lookupZ l i = Some s -> s = zero_aslot) by (intros i s; apply lookupZ_replicate).
  assert (Hc : forall a, tally l a = None).
  { intros a. unfold tally. destruct (List.find _ _) eqn:E; [|done].
    apply find_lookupZ in E as (i & Hi & Hp). apply Ha in Hi as ->. done. }
  assert (Hc' : forall a, count_at (mk_bucket 0 l ws 0 false) a = 0) by (intros a; unfold count_at; simpl; by rewrite Hc).
  split; try done.
  - intros i w Hi Hne. apply lookupZ_replicate in Hi as ->. done.
  - split; simpl.
    + intros i s ->%Ha. simpl. lia.
    + intros i j s s' ->%Ha _ Hne. done.
  - intros a. by rewrite Hc'.
Qed.

(** A grant changes no ownership and no count. *)
Lemma bucket_ok_grants address mask L b b' q : grants address mask L b b' -> bucket_ok b q -> bucket_ok b' q.
Proof.
  intros HG Hok. pose proof HG as (_ & Hw & Ha & Hi & Hlen & _ & Hl). destruct Hok. split; unfold count_at in *;
    rewrite ?Ha, ?Hi, ?Hw; try done.
  - by rewrite Hlen.
  - intros t p i Ht Hs. destruct (bo_slot0 t p i Ht Hs) as [g Hg]. rewrite Hl, Hg. case_decide; simpl; eauto.
  - intros i w' Hw' Hne. destruct (grants_lookup _ _ _ _ _ _ _ HG Hw') as (w & Hw0 & Haddr & _). 
    eapply bo_used0; [exact Hw0|congruence].
Qed.

Lemma count_le_size b q a : bucket_ok b q -> count_at b a <= Z.of_nat (size q).
Proof. intros Hok. pose proof (bo_below _ _ Hok a). pose proof (cnt_le_size (at_address a) q). lia. Qed.

Lemma land_lor_self x y : Z.land (Z.lor x y) y = y.
Proof. apply Z.bits_inj'. intros n Hn. rewrite Z.land_spec, Z.lor_spec. by destruct (Z.testbit x n), (Z.testbit y n). Qed.

Lemma land_lor_keep x y z : Z.land x z = z -> Z.land (Z.lor x y) z = z.
Proof.
  intros H. apply Z.bits_inj'. intros n Hn. rewrite Z.land_spec, Z.lor_spec.
  assert (Hb : Z.testbit (Z.land x z) n = Z.testbit z n) by (by rewrite H).
  rewrite Z.land_spec in Hb. by destruct (Z.testbit x n), (Z.testbit z n), (Z.testbit y n).
Qed.

(** The counting half of an arrival. *)
Definition arrive (b : futex_bucket) (address bits : Z) : futex_bucket :=
  fbk_park (set_waiters (waiters b + 1) b) address bits.

Lemma arrive_ok b q t p : bucket_ok b q -> q !! t = None -> p_address p <> 0 -> slot_of p = None ->
  Z.of_nat (size q) + 1 < 2 ^ 32 ->
  bucket_ok (arrive b (p_address p) (p_bits p)) (<[t := p]> q) /\ wslots (arrive b (p_address p) (p_bits p)) = wslots b.
Proof.
  intros Hok Ht Hne Hs Hsz. pose proof (count_le_size b q (p_address p) Hok) as Hcl.
  unfold arrive. set (b1 := set_waiters (waiters b + 1) b).
  destruct (park_spec b1 (p_address p) (p_bits p)) as ((Hw & Hws & _ & _) & Hok' & Hcase).
  { apply Hok. } { change (count_at b1 (p_address p)) with (count_at b (p_address p)). lia. }
  split; [|by rewrite Hws]. destruct Hok.
  assert (Hc : forall a, count_at (fbk_park b1 (p_address p) (p_bits p)) a <= cnt (at_address a) (<[t := p]> q) /\
                 (imprecise (fbk_park b1 (p_address p) (p_bits p)) = false ->
                  count_at (fbk_park b1 (p_address p) (p_bits p)) a = cnt (at_address a) (<[t := p]> q))).
  { intros a. rewrite cnt_insert by done. specialize (bo_below0 a).
    change (at_address a p) with (p_address p =? a).
    destruct Hcase as [[Him Hl]|[Him Hl]].
    - assert (Hca : count_at (fbk_park b1 (p_address p) (p_bits p)) a = (if p_address p =? a then 1 else 0) + count_at b a).
      { unfold count_at in *. rewrite Hl. rewrite Z.eqb_sym. destruct (Z.eqb_spec (p_address p) a) as [<-|]; [|done].
        change (aslots b1) with (aslots b). destruct (tally (aslots b) (p_address p)) as [[c m]|]; lia. }
      rewrite Hca. split; [lia|]. rewrite Him. intros Hi. by rewrite bo_exact0.
    - rewrite Him. split; [|done]. unfold count_at in *. rewrite Hl. change (aslots b1) with (aslots b).
      destruct (_ =? a); lia. }
  split; try done.
  - by rewrite Hws.
  - intros t' p' i Ht' Hs'. rewrite Hws. destruct (decide (t = t')) as [->|].
    + rewrite lookup_insert_eq in Ht'. congruence.
    + rewrite lookup_insert_ne in Ht' by done. eauto.
  - intros t1 t2 p1 p2 i Ht1 Ht2 Hs1 Hs2. rewrite lookup_insert in Ht1, Ht2. repeat case_decide; simplify_eq; eauto.
  - intros i w Hw' Hnz. rewrite Hws in Hw'. destruct (bo_used0 i w Hw' Hnz) as (t' & p' & Ht' & Hs').
    exists t', p'. split; [|done]. rewrite lookup_insert_ne; [done|]. intros ->. congruence.
  - rewrite Hw. rewrite map_size_insert_None by done. simpl. lia.
  - intros Hi a. by apply Hc.
  - intros Hi t' p' Ht'. destruct Hcase as [[Him Hl]|[Him _]]; [|congruence].
    rewrite Him in Hi. rewrite Hl. change (aslots b1) with (aslots b). rewrite lookup_insert in Ht'. case_decide; simplify_eq.
    + rewrite Z.eqb_refl. destruct (tally (aslots b) (p_address p')) as [[c m]|]; eexists _, _; (split; [done|]).
      * apply land_lor_self.
      * apply Z.land_diag.
    + destruct (bo_bits0 Hi _ _ Ht') as (c & m & Htl & Hb). destruct (Z.eqb_spec (p_address p') (p_address p)) as [E|]; [|eauto].
      rewrite <- E, Htl. eexists _, _. split; [done|]. by apply land_lor_keep.
  - intros a. apply Hc.
  - intros t' p' Ht'. rewrite lookup_insert in Ht'. case_decide; simplify_eq; eauto.
Qed.

(** Counts depend on the addresses alone. *)
Lemma cnt_replace (q : gmap Z parked) t p p' a : q !! t = Some p -> p_address p' = p_address p ->
  cnt (at_address a) (<[t := p']> q) = cnt (at_address a) q.
Proof.
  intros Ht Ha. rewrite (cnt_delete (at_address a) q t p Ht).
  rewrite (cnt_delete (at_address a) (<[t := p']> q) t p') by apply lookup_insert_eq.
  change (at_address a p') with (p_address p' =? a). change (at_address a p) with (p_address p =? a).
  by rewrite Ha, delete_insert_eq.
Qed.

Definition with_kind (p : parked) (kind : wait_kind) : parked :=
  mk_parked (p_pid p) (p_bid p) (p_key p) (p_address p) (p_bits p) (p_timed p) kind.

(** The slot half of an arrival: the sleeper learns its slot. *)
Lemma register_ok b q t p b' slot w v :
  bucket_ok b q -> q !! t = Some p -> slot_of p = None ->
  fbk_wait_register b (p_address p) (p_bits p) = (b', slot) ->
  bucket_ok b' (<[t := with_kind p (KWait w v slot)]> q).
Proof.
  intros Hok Ht Hs Hr. set (p' := with_kind p (KWait w v slot)).
  pose proof (cnt_replace q t p p') as Hcnt. specialize (fun a => Hcnt a Ht eq_refl).
  assert (Hother : forall t' x, <[t := p']> q !! t' = Some x -> t' = t /\ x = p' \/ t' <> t /\ q !! t' = Some x).
  { intros t' x. rewrite lookup_insert. case_decide; [intros [= <-]; subst; by left|]. right. by split. }
  assert (Haddr : p_address p' <> 0) by apply (bo_address _ _ Hok _ _ Ht).
  assert (Hsize : size (<[t := p']> q) = size q) by (by apply map_size_insert_Some; eauto).
  destruct (register_cases _ _ _ _ _ Hr) as [(-> & -> & Hfull)|(w0 & Hw0 & Hz & ->)]; destruct Hok.
  - assert (Hp' : slot_of p' = None) by done.
    split; try done; try (by rewrite Hsize); try (intros; rewrite Hcnt; by auto).
    + intros t' x i [[-> ->]|[_ Hx]]%Hother Hi; [congruence|eauto].
    + intros t1 t2 p1 p2 i [[-> ->]|[_ H1]]%Hother [[-> ->]|[_ H2]]%Hother Hi1 Hi2; try congruence; eauto.
    + intros i x Hi Hne. destruct (bo_used0 i x Hi Hne) as (t' & y & Hy & Hsy). exists t', y. split; [|done].
      rewrite lookup_insert_ne; [done|]. intros ->. congruence.
    + intros Hi t' x [[-> ->]|[_ Hx]]%Hother; [by apply (bo_bits0 Hi t p)|eauto].
    + intros t' x [[-> ->]|[_ Hx]]%Hother; eauto.
  - pose proof (lookupZ_Some_range _ _ _ Hw0) as Hrange.
    assert (Hp' : slot_of p' = Some slot).
    { unfold slot_of. simpl. destruct (Z.ltb_spec slot 0); [lia|done]. }
    assert (Hfresh : forall t' x, q !! t' = Some x -> slot_of x = Some slot -> False).
    { intros t' x Hx Hsx. destruct (bo_slot0 _ _ _ Hx Hsx) as [g Hg]. rewrite Hw0 in Hg. injection Hg as ->.
      simpl in Hz. by apply (bo_address0 _ _ Hx). }
    split; simpl; try done; try (by rewrite Hsize); try (intros; rewrite Hcnt; by apply bo_exact0); try (intros; rewrite Hcnt; by apply bo_below0).
    + by rewrite length_insertZ.
    + intros t' x i [[-> ->]|[_ Hx]]%Hother Hi.
      * assert (i = slot) as -> by congruence. exists false. by apply lookupZ_insertZ_eq.
      * rewrite lookupZ_insertZ_ne by (intros ->; eauto). eauto.
    + intros t1 t2 p1 p2 i [[-> ->]|[_ H1]]%Hother [[-> ->]|[_ H2]]%Hother Hi1 Hi2; try congruence; eauto;
        exfalso; eapply Hfresh; eauto; congruence.
    + intros i x Hi Hne. destruct (decide (slot = i)) as [->|Hn].
      * exists t, p'. by rewrite lookup_insert_eq.
      * rewrite lookupZ_insertZ_ne in Hi by done. destruct (bo_used0 i x Hi Hne) as (t' & y & Hy & Hsy).
        exists t', y. split; [|done]. rewrite lookup_insert_ne; [done|]. intros ->. congruence.
    + intros Hi t' x [[-> ->]|[_ Hx]]%Hother; [by apply (bo_bits0 Hi t p)|eauto].
    + intros t' x [[-> ->]|[_ Hx]]%Hother; eauto.
Qed.

(** ** Departures *)

Definition release_slot (b : futex_bucket) (p : parked) : futex_bucket :=
  match p_kind p with KWait _ _ slot => fbk_wait_unregister b slot | _ => b end.

Lemma release_slot_spec b p : 
  release_slot b p = match slot_of p with Some i => set_wslots (insertZ (wslots b) i zero_wslot) b | None => b end.
Proof. unfold release_slot, slot_of, fbk_wait_unregister. destruct (p_kind p); try done. by destruct (_ <? 0). Qed.

Lemma depart_ok b q t p : bucket_ok b q -> q !! t = Some p ->
  bucket_ok (leave_bucket (release_slot b p) (p_address p)) (delete t q).
Proof.
  intros Hok Ht. rewrite release_slot_spec. set (b1 := match slot_of p with Some _ => _ | None => b end).
  assert (Hb1 : waiters b1 = waiters b /\ aslots b1 = aslots b /\ imprecise b1 = imprecise b /\ length (wslots b1) = length (wslots b) /\
            forall i, lookupZ (wslots b1) i = if decide (slot_of p = Some i) then Some zero_wslot else lookupZ (wslots b) i).
  { subst b1. destruct (slot_of p) as [i0|] eqn:Es; [|repeat split; intros; by rewrite decide_False].
    destruct (bo_slot _ _ Hok _ _ _ Ht Es) as [g Hg]. pose proof (lookupZ_Some_range _ _ _ Hg).
    simpl. repeat split; [apply length_insertZ|]. intros i. rewrite lookupZ_insertZ by done. by repeat case_decide; simplify_eq. }
  destruct Hb1 as (Hw1 & Ha1 & Hi1 & Hlen1 & Hl1).
  destruct (unpark_spec b1 (p_address p)) as ((Hw2 & Hs2 & _ & _) & Ht2 & Hi2 & Hl2); [rewrite Ha1; apply Hok|].
  set (b2 := fbk_unpark b1 (p_address p)) in *.
  assert (Hb' : wslots (leave_bucket b1 (p_address p)) = wslots b2 /\ aslots (leave_bucket b1 (p_address p)) = aslots b2 /\
            waiters (leave_bucket b1 (p_address p)) = waiters b2 - 1 /\
            imprecise (leave_bucket b1 (p_address p)) = (if waiters b2 =? 1 then false else imprecise b2)).
  { unfold leave_bucket. fold b2. by destruct (_ =? 1). }
  destruct Hb' as (HA & HB & HC & HD). pose proof (size_delete_Z q t p Ht) as Hsz.
  assert (Hcnt : forall a, cnt (at_address a) q = (if p_address p =? a then 1 else 0) + cnt (at_address a) (delete t q)).
  { intros a. exact (cnt_delete (at_address a) q t p Ht). }
  assert (Hcount : forall a, count_at (leave_bucket b1 (p_address p)) a =
            if a =? p_address p then Z.max 0 (count_at b a - 1) else count_at b a).
  { intros a. unfold count_at at 1. rewrite HB, Hl2, Ha1. destruct (Z.eqb_spec a (p_address p)) as [->|]; [|done].
    unfold count_at. destruct (tally (aslots b) (p_address p)) as [[c m]|] eqn:E; [|done].
    apply tally_Some in E as (i & s & Hi & Hne & _ & [= -> ->]); [|apply Hok].
    pose proof (proj1 (bo_tally _ _ Hok) _ _ Hi). destruct (Z.eqb_spec (scnt s) 1); lia. }
  assert (Hdel : forall t' x, delete t q !! t' = Some x -> t' <> t /\ q !! t' = Some x).
  { intros t' x. rewrite lookup_delete. case_decide; [done|]. by split. }
  destruct Hok. split.
  - by rewrite HA, Hs2, Hlen1.
  - intros t' x i [Hne Hx]%Hdel Hi. rewrite HA, Hs2, Hl1. destruct (bo_slot0 _ _ _ Hx Hi) as [g Hg].
    rewrite decide_False; [eauto|]. intros Hpi. by apply Hne, (bo_own0 t' t x p i).
  - intros t1 t2 p1 p2 i [_ H1]%Hdel [_ H2]%Hdel. eauto.
  - intros i w. rewrite HA, Hs2, Hl1. case_decide as Hpi; [by intros [= <-]|]. intros Hi Hne.
    destruct (bo_used0 i w Hi Hne) as (t' & y & Hy & Hsy). exists t', y. split; [|done].
    rewrite lookup_delete_ne; [done|]. intros ->. congruence.
  - rewrite HC, Hw2, Hw1, bo_waiters0. lia.
  - by rewrite HB.
  - intros Him a. rewrite Hcount. specialize (bo_below0 a). specialize (Hcnt a). rewrite (Z.eqb_sym (p_address p) a) in Hcnt.
    pose proof (cnt_nonneg (at_address a) (delete t q)).
    rewrite HD, Hi2, Hi1 in Him. destruct (Z.eqb_spec (waiters b2) 1) as [E1|].
    + pose proof (cnt_le_size (at_address a) (delete t q)). rewrite Hw2, Hw1, bo_waiters0 in E1.
      pose proof (proj1 bo_tally0) as Hrange. assert (0 <= count_at b a).
      { unfold count_at. destruct (tally (aslots b) a) as [[c m]|] eqn:E; [|done].
        apply tally_Some in E as (i & s & Hi & _ & _ & [= -> ->]); [|done]. apply Hrange in Hi. lia. }
      destruct (a =? p_address p); lia.
    + rewrite (bo_exact0 Him a) in *. destruct (a =? p_address p); lia.
  - intros Him t' x [Hne Hx]%Hdel. rewrite HB, Hl2, Ha1. rewrite HD, Hi2, Hi1 in Him.
    destruct (Z.eqb_spec (waiters b2) 1) as [E1|].
    { exfalso. rewrite Hw2, Hw1, bo_waiters0 in E1. assert (size (delete t q) = 0%nat) as E0 by lia.
      apply map_size_empty_inv in E0. assert (Hn : delete t q !! t' = Some x) by (rewrite lookup_delete_ne; done).
      rewrite E0 in Hn. done. }
    destruct (bo_bits0 Him _ _ Hx) as (c & m & Htl & Hb). destruct (Z.eqb_spec (p_address x) (p_address p)) as [E|]; [|eauto].
    rewrite <- E, Htl. destruct (Z.eqb_spec c 1) as [->|]; [|eauto]. exfalso.
    pose proof (bo_exact0 Him (p_address p)) as Hc. unfold count_at in Hc. rewrite <- E, Htl in Hc.
    rewrite Hcnt, E, Z.eqb_refl in Hc. assert (H0 : cnt (at_address (p_address p)) (delete t q) = 0) by lia.
    rewrite cnt_zero in H0. specialize (H0 t' x). rewrite lookup_delete_ne in H0 by done. specialize (H0 Hx).
    unfold at_address in H0. lia.
  - intros a. rewrite Hcount. specialize (bo_below0 a). specialize (Hcnt a). rewrite (Z.eqb_sym (p_address p) a) in Hcnt.
    pose proof (cnt_nonneg (at_address a) (delete t q)). destruct (a =? p_address p); lia.
  - intros t' x [_ Hx]%Hdel. eauto.
Qed.
