(* ===== verification/FutexSteps.v ===== *)
(** * The invariant of the futex system

    Every bucket agrees with the threads asleep in it, after any events which
    leave the keys of sleeping threads alone. *)

From stdpp Require Import gmap.
From S2P Require Import Prelude Status Futex FutexBuckets FutexSystem.

Definition asleep_in (k : bid) (st : status) : option parked :=
  match st with Parked p => if decide (p_bid p = k) then Some p else None | _ => None end.
Definition asleep (s : sys) (k : bid) : gmap Z parked := omap (asleep_in k) (threads s).

Lemma asleep_Some s k t p : asleep s k !! t = Some p <-> threads s !! t = Some (Parked p) /\ p_bid p = k.
Proof.
  unfold asleep. rewrite lookup_omap. destruct (threads s !! t) as [[]|]; simpl; try naive_solver.
  case_decide; naive_solver.
Qed.

Lemma asleep_None s k t : (forall p, threads s !! t = Some (Parked p) -> p_bid p <> k) -> asleep s k !! t = None.
Proof.
  intros H. destruct (asleep s k !! t) as [p|] eqn:E; [|done]. apply asleep_Some in E as [Ht Hk]. by apply H in Ht.
Qed.

(** The keys a thread still has to use name something. *)
Definition target_ok (word : option Z) (key : Z) : Prop := match word with Some _ => key <> 0 | None => True end.
Definition status_ok (st : status) : Prop :=
  match st with
  | Parked p => 0 < p_bits p < 2 ^ 32 /\ match p_kind p with KRequeuePi w key2 => target_ok w key2 | _ => True end
  | Relock _ _ w key2 _ => target_ok w key2
  | _ => True
  end.

Record sys_ok (s : sys) : Prop := mk_sys_ok {
  so_buckets : forall k, bucket_ok (buckets s k) (asleep s k);
  so_keys : forall t p, threads s !! t = Some (Parked p) ->
    key_of s (p_pid p) (p_key p) = p_address p /\ (p_bid p).2 = fbk_index (p_address p);
  so_status : forall t st, threads s !! t = Some st -> status_ok st;
  so_room : Z.of_nat (size (threads s)) < 2 ^ 31
}.

Definition not_parked (o : option status) : Prop := match o with Some (Parked _) => False | _ => True end.

Lemma not_parked_asleep s t k : not_parked (threads s !! t) -> asleep s k !! t = None.
Proof. intros H. apply asleep_None. intros p Hp. by rewrite Hp in H. Qed.

Lemma asleep_become s t p k : not_parked (threads s !! t) ->
  asleep (become t (Parked p) s) k = if decide (p_bid p = k) then <[t := p]> (asleep s k) else asleep s k.
Proof.
  intros H. unfold asleep. simpl. rewrite omap_insert. simpl. case_decide; [done|].
  apply delete_id. by apply (not_parked_asleep s t k).
Qed.

Lemma asleep_finish s t k : asleep (finish t s) k = delete t (asleep s k).
Proof. unfold asleep. simpl. by rewrite omap_delete. Qed.

Lemma asleep_le s k : (size (asleep s k) <= size (threads s))%nat.
Proof.
  rewrite <- !size_dom. apply subseteq_size. intros t. rewrite !elem_of_dom. intros [p Hp].
  apply asleep_Some in Hp as [Hp _]. eauto.
Qed.

Lemma store_ok w v s : sys_ok s -> sys_ok (store w v s).
Proof. intros [? ? ? ?]. by split. Qed.

(** A bucket with the same sleepers. *)
Lemma set_bucket_ok k b s : sys_ok s -> bucket_ok b (asleep s k) -> sys_ok (set_bucket k b s).
Proof.
  intros [Hb ? ? ?] Hok. split; try done. intros k'. simpl. case_decide; [by subst|]. apply Hb.
Qed.

(** A thread that does not sleep goes on. *)
Lemma become_awake_ok t st s : sys_ok s -> not_parked (threads s !! t) -> not_parked (Some st) -> status_ok st ->
  (threads s !! t = None -> Z.of_nat (size (threads s)) + 1 < 2 ^ 31) -> sys_ok (become t st s).
Proof.
  intros [Hb Hk Hs Hr] Ht Hst Hok Hroom. split.
  - intros k. replace (asleep (become t st s) k) with (asleep s k); [apply Hb|].
    unfold asleep. simpl. rewrite omap_insert. destruct st; try done; simpl; symmetry; apply delete_id;
      by apply (not_parked_asleep s t k).
  - intros t' p. simpl. rewrite lookup_insert. case_decide; [|apply Hk]. intros [= ->]. done.
  - intros t' st'. simpl. rewrite lookup_insert. case_decide; [by intros [= <-]|apply Hs].
  - simpl. rewrite map_size_insert. destruct (threads s !! t) eqn:E; [done|]. specialize (Hroom eq_refl). lia.
Qed.

Lemma finish_awake_ok t s : sys_ok s -> not_parked (threads s !! t) -> sys_ok (finish t s).
Proof.
  intros [Hb Hk Hs Hr] Ht. split.
  - intros k. rewrite asleep_finish, delete_id; [apply Hb|]. by apply not_parked_asleep.
  - intros t' p. simpl. rewrite lookup_delete. case_decide; [done|]. apply Hk.
  - intros t' st'. simpl. rewrite lookup_delete. case_decide; [done|]. apply Hs.
  - simpl. rewrite map_size_delete. destruct (threads s !! t); simpl; lia.
Qed.

(** A thread goes to sleep in a bucket that knows it. *)
Lemma become_parked_ok t p b s : sys_ok s -> not_parked (threads s !! t) ->
  bucket_ok b (<[t := p]> (asleep s (p_bid p))) ->
  key_of s (p_pid p) (p_key p) = p_address p -> (p_bid p).2 = fbk_index (p_address p) -> status_ok (Parked p) ->
  (threads s !! t = None -> Z.of_nat (size (threads s)) + 1 < 2 ^ 31) ->
  sys_ok (become t (Parked p) (set_bucket (p_bid p) b s)).
Proof.
  intros [Hb Hk Hs Hr] Ht Hbp Hkey Hidx Hst Hroom. split.
  - intros k. rewrite asleep_become by done. change (asleep (set_bucket (p_bid p) b s)) with (asleep s). simpl.
    destruct (decide (p_bid p = k)) as [<-|]; [by rewrite decide_True by done|]. rewrite decide_False by done. apply Hb.
  - intros t' p'. simpl. rewrite lookup_insert. case_decide; [by intros [= <-]|apply Hk].
  - intros t' st'. simpl. rewrite lookup_insert. case_decide; [by intros [= <-]|apply Hs].
  - simpl. rewrite map_size_insert. destruct (threads s !! t) eqn:E; [done|]. specialize (Hroom eq_refl). lia.
Qed.

(** A sleeper leaves. *)
Lemma leave_ok t p s : sys_ok s -> threads s !! t = Some (Parked p) ->
  sys_ok (leave t p (release_slot (buckets s (p_bid p)) p) s).
Proof.
  intros [Hb Hk Hs Hr] Ht. unfold leave. destruct (Hk t p Ht) as [-> _].
  pose proof (depart_ok _ _ t p (Hb (p_bid p)) (proj2 (asleep_Some s (p_bid p) t p) (conj Ht eq_refl))) as Hd. split.
  - intros k. rewrite asleep_finish. change (asleep (set_bucket _ _ s) k) with (asleep s k). simpl.
    case_decide as Hk'; [by subst|]. rewrite delete_id; [apply Hb|]. apply asleep_None. congruence.
  - intros t' p'. simpl. rewrite lookup_delete. case_decide; [done|]. apply Hk.
  - intros t' st'. simpl. rewrite lookup_delete. case_decide; [done|]. apply Hs.
  - simpl. rewrite map_size_delete, Ht. lia.
Qed.

(** A thread that is about to sleep and turns away. *)
Lemma pass_ok t p b s : sys_ok s -> threads s !! t = None -> bucket_ok b (<[t := p]> (asleep s (p_bid p))) ->
  slot_of p = None -> key_of s (p_pid p) (p_key p) = p_address p -> sys_ok (leave t p b s).
Proof.
  intros Hok Ht Hb Hs Hkey. unfold leave. rewrite Hkey. pose proof Hok as [_ _ _ _]. apply finish_awake_ok; [|by simpl; rewrite Ht].
  apply set_bucket_ok; [done|].
  assert (Hn : asleep s (p_bid p) !! t = None) by (apply not_parked_asleep; by rewrite Ht).
  pose proof (depart_ok b _ t p Hb (lookup_insert_eq _ _ _)) as Hd. rewrite delete_insert_id in Hd by done.
  by rewrite release_slot_spec, Hs in Hd.
Qed.

Lemma futex_key_nonzero ranges key : key <> 0 -> futex_key ranges key <> 0.
Proof.
  intros Hk. induction ranges as [|r ranges IH]; [done|]. simpl. destruct (_ && _); [|done].
  unfold shared_token. intros H. apply (f_equal (fun x => Z.testbit x 0)) in H. by rewrite Z.lor_spec, orb_true_r in H.
Qed.

(** ** The operations *)

Section Operations.
Context (t : Z) (s : sys) (Hok : sys_ok s).

Definition may_enter : Prop := threads s !! t = None /\ Z.of_nat (size (threads s)) + 1 < 2 ^ 31.

Lemma asleep_room k : Z.of_nat (size (asleep s k)) + 1 < 2 ^ 32.
Proof. pose proof (asleep_le s k). destruct Hok as [_ _ _ Hr]. lia. Qed.

Lemma arrived p : threads s !! t = None -> p_address p <> 0 -> slot_of p = None ->
  bucket_ok (arrive (buckets s (p_bid p)) (p_address p) (p_bits p)) (<[t := p]> (asleep s (p_bid p))).
Proof.
  intros Ht Ha Hs. apply arrive_ok; try done; [apply Hok| |apply asleep_room].
  apply not_parked_asleep. by rewrite Ht.
Qed.

Lemma futex_wait_ok pid tb word key val bits timed interrupted :
  may_enter -> key <> 0 -> 0 < bits < 2 ^ 32 -> sys_ok (futex_wait t pid tb word key val bits timed interrupted s).1.
Proof.
  intros [Ht Hroom] Hkey Hbits. unfold futex_wait. destruct (negb _); [done|]. destruct interrupted; [done|].
  fold (arrive (buckets s (fbk_of s pid tb key)) (key_of s pid key) bits).
  destruct (fbk_wait_register _ _ _) as [b slot] eqn:Hr. simpl.
  set (p0 := mk_parked pid (fbk_of s pid tb key) key (key_of s pid key) bits timed (KWait word (u32 val) (-1))).
  set (p := mk_parked _ _ _ _ _ _ _).
  assert (Ha : bucket_ok b (<[t := p]> (asleep s (p_bid p)))).
  { pose proof (arrived p0 Ht (futex_key_nonzero _ _ Hkey) eq_refl) as Hp0.
    pose proof (register_ok _ _ t p0 b slot word (u32 val) Hp0 (lookup_insert_eq _ _ _) eq_refl Hr) as H.
    by rewrite insert_insert_eq in H. }
  apply (become_parked_ok t p b s); try done. by rewrite Ht.
Qed.

Lemma resume_wait_ok p w v slot interrupted timed_out :
  threads s !! t = Some (Parked p) -> p_kind p = KWait w v slot -> sys_ok (resume_wait t p slot interrupted timed_out s).1.
Proof.
  intros Ht Hp. pose proof (leave_ok t p s Hok Ht) as Hl. unfold release_slot in Hl. rewrite Hp in Hl.
  unfold resume_wait. by repeat case_match.
Qed.

Lemma lock_pi_fresh_ok p w trylock interrupted :
  may_enter -> p_kind p = KLockPi w -> p_address p <> 0 -> p_bits p = ALL_BITS ->
  key_of s (p_pid p) (p_key p) = p_address p -> (p_bid p).2 = fbk_index (p_address p) ->
  sys_ok (lock_pi_round t p w false trylock interrupted s).1.
Proof.
  intros [Ht Hroom] Hp Ha Hbits Hkey Hidx. assert (Hs : slot_of p = None) by (unfold slot_of; by rewrite Hp).
  unfold lock_pi_round. rewrite Hkey, <- Hbits.
  fold (arrive (buckets s (p_bid p)) (p_address p) (p_bits p)).
  pose proof (arrived p Ht Ha Hs) as Harr.
  destruct (pi_decide _ _ _ _ _ _) as [v|e|v]; simpl; [by apply store_ok|done|].
  destruct interrupted; simpl.
  - by apply pass_ok; [apply store_ok| | | |].
  - apply become_parked_ok; try done; [by apply store_ok|by simpl; rewrite Ht|]. simpl. by rewrite Hp, Hbits.
Qed.

Lemma lock_pi_waiting_ok p w trylock interrupted :
  threads s !! t = Some (Parked p) -> p_kind p = KLockPi w -> sys_ok (lock_pi_round t p w true trylock interrupted s).1.
Proof.
  intros Ht Hp. assert (Hrel : release_slot (buckets s (p_bid p)) p = buckets s (p_bid p)) by (unfold release_slot; by rewrite Hp).
  assert (Hl : forall v, sys_ok (leave t p (buckets s (p_bid p)) (store w v s))).
  { intros v. rewrite <- Hrel. by apply (leave_ok t p (store w v s)); [apply store_ok|]. }
  pose proof (leave_ok t p s Hok Ht) as Hl0. rewrite Hrel in Hl0.
  unfold lock_pi_round. destruct (pi_decide _ _ _ _ _ _) as [v|e|v]; simpl; [done|done|].
  destruct interrupted; simpl; [done|].
  destruct Hok as [Hb Hk Hs Hr]. split.
  - intros k. replace (asleep _ k) with (asleep s k).
    + simpl. case_decide; [by subst|]. apply Hb.
    + apply map_eq. intros t'. apply option_eq. intros x. rewrite !asleep_Some. simpl. rewrite lookup_insert.
      case_decide; [|done]. subst. by rewrite Ht.
  - intros t' p'. simpl. rewrite lookup_insert. case_decide; [intros [= <-]; subst; by apply (Hk t')|apply Hk].
  - intros t' st. simpl. rewrite lookup_insert. case_decide; [intros <-%(inj Some); subst; by apply (Hs t')|apply Hs].
  - simpl. rewrite map_size_insert, Ht. done.
Qed.

Lemma futex_lock_pi_ok pid tb word key trylock timed interrupted :
  may_enter -> target_ok word key -> sys_ok (futex_lock_pi t pid tb word key trylock timed interrupted s).1.
Proof.
  intros Hm Hkey. unfold futex_lock_pi. destruct word as [w|]; [|done].
  apply lock_pi_fresh_ok; try done. by apply futex_key_nonzero.
Qed.

Lemma resume_lock_pi_ok p w interrupted timed_out again :
  threads s !! t = Some (Parked p) -> p_kind p = KLockPi w -> sys_ok (resume_lock_pi t p w interrupted timed_out again s).1.
Proof.
  intros Ht Hp. pose proof (leave_ok t p s Hok Ht) as Hl. unfold release_slot in Hl. rewrite Hp in Hl.
  unfold resume_lock_pi. destruct interrupted; [done|]. destruct timed_out; [done|]. by apply lock_pi_waiting_ok.
Qed.

Lemma futex_unlock_pi_ok pid tb word key : sys_ok (futex_unlock_pi t pid tb word key s).1.
Proof. unfold futex_unlock_pi. destruct word; [|done]. destruct (negb _); [done|]. by apply store_ok. Qed.

Lemma futex_wait_requeue_pi_ok pid tb word key val uaddr2 key2 timed interrupted :
  may_enter -> key <> 0 -> target_ok uaddr2 key2 ->
  sys_ok (futex_wait_requeue_pi t pid tb word key val uaddr2 key2 timed interrupted s).1.
Proof.
  intros [Ht Hroom] Hkey H2. unfold futex_wait_requeue_pi. destruct word as [w|]; [|done]. destruct (negb _); [done|].
  set (p := mk_parked _ _ _ _ _ _ _).
  pose proof (arrived p Ht (futex_key_nonzero _ _ Hkey) eq_refl) as Harr.
  destruct interrupted; simpl.
  - by apply (pass_ok t p).
  - apply (become_parked_ok t p); try done. by rewrite Ht.
Qed.

Lemma resume_requeue_pi_ok p uaddr2 key2 interrupted timed_out :
  threads s !! t = Some (Parked p) -> p_kind p = KRequeuePi uaddr2 key2 ->
  sys_ok (resume_requeue_pi t p uaddr2 key2 interrupted timed_out s).1.
Proof.
  intros Ht Hp. pose proof (leave_ok t p s Hok Ht) as Hl. unfold release_slot in Hl. rewrite Hp in Hl.
  unfold resume_requeue_pi. destruct interrupted; [done|]. destruct timed_out; [done|]. simpl.
  pose proof (so_status _ Hok _ _ Ht) as Hst. simpl in Hst. rewrite Hp in Hst.
  apply become_awake_ok; try done; [|by apply Hst|].
  - simpl. by rewrite lookup_delete_eq.
  - intros _. simpl. rewrite map_size_delete, Ht. destruct Hok as [_ _ _ Hr]. lia.
Qed.
End Operations.

(** ** Wakes *)

(** What a wake does to its bucket: it grants slots of the key. *)
Lemma wake_bucket_grants key n mask grant_all b q : bucket_ok b q ->
  exists b' woke hit L, futex_wake_bucket key n mask grant_all b = Some (b', woke, hit) /\ grants key mask L b b'.
Proof.
  intros Hok. unfold futex_wake_bucket. destruct (negb _).
  { exists b, 0, false, []. split; [done|]. apply grants_nil. }
  destruct (wait_grant_spec b key n mask (bo_length _ _ Hok)) as (b1 & L & reg & -> & HG & _).
  destruct (grant_all && reg); [|by eauto 10].
  pose proof (bucket_ok_grants _ _ _ _ _ _ HG Hok) as Hok1.
  destruct (wait_grant_spec b1 key INT_MAX mask (bo_length _ _ Hok1)) as (b2 & L2 & reg2 & -> & HG2 & _).
  exists b2, (if reg then lengthZ L else Z.min (fbk_parked b2 key) n), true, (L2 ++ L). split; [done|]. by eapply grants_trans.
Qed.

Lemma wake_bucket_ok pid tb key n mask grant_all s : sys_ok s ->
  exists s' woke, wake_bucket pid tb key n mask grant_all s = Some (s', woke) /\ sys_ok s' /\ threads s' = threads s.
Proof.
  intros Hok. unfold wake_bucket. set (k := fbk_of s pid tb key).
  destruct (wake_bucket_grants (key_of s pid key) n mask grant_all _ _ (so_buckets _ Hok k)) as (b & woke & hit & L & -> & HG).
  exists (set_bucket k b s), woke. split; [done|]. split; [|done]. apply set_bucket_ok; [done|].
  eapply bucket_ok_grants; [exact HG|apply Hok].
Qed.

(** ** Events *)

(** A change of the registry keeps the keys of sleeping threads. *)
Definition keeps_keys (s : sys) (pid : Z) (l : list shared_range) : Prop :=
  forall t p, threads s !! t = Some (Parked p) -> p_pid p = pid -> futex_key l (p_key p) = p_address p.

Definition room (s : sys) : Prop := Z.of_nat (size (threads s)) + 1 < 2 ^ 31.

(** What the theorems ask of an event: no null key, a 32-bit bitset, fewer than 2^31 threads in
    calls, no sleeper whose key changes, a fresh child whose parent, when it
    claims to be alone, has no sleeper. *)
Definition legal_event (e : futex_event) (s : sys) : Prop :=
  match e with
  | Call t c _ => c_key c <> 0 /\ target_ok (c_word2 c) (c_key2 c) /\ in_u32 (c_val3 c) /\ room s
  | ClearTid _ _ _ _ | OwnerDeath _ _ _ _ => room s
  | MapShared pid base len identity foff =>
      forall l, futex_shared_register base len identity foff (registry s pid) = Some l -> keeps_keys s pid l
  | UnmapShared pid ustart uend => forall l, futex_shared_unmap ustart uend (registry s pid) = Some l -> keeps_keys s pid l
  | Fork parent child threaded =>
      forall t p, threads s !! t = Some (Parked p) ->
        p_pid p <> child /\ (p_bid p).1 <> PrivateTable child /\ (threaded = false -> (p_bid p).1 <> PrivateTable parent)
  | _ => True
  end.

Inductive futex_reaches (s0 : sys) : sys -> Prop :=
| ReachStart : futex_reaches s0 s0
| ReachStep s e s' a : futex_reaches s0 s -> legal_event e s -> futex_step e s = Some (s', a) -> futex_reaches s0 s'.

(** Becoming awake from a state with the same threads. *)
Lemma begin_awake_ok t st s : sys_ok s -> threads s !! t = None -> room s -> not_parked (Some st) -> status_ok st ->
  sys_ok (become t st s).
Proof. intros Hok Ht Hr Hst Hs. apply become_awake_ok; try done. by rewrite Ht. Qed.

Lemma continue_wakes_ok t pid tb woke todo s st : sys_ok s -> threads s !! t = Some st -> not_parked (Some st) ->
  exists o, continue_wakes t pid tb woke todo s = Some o /\ sys_ok o.1.
Proof.
  intros Hok Ht Hst. unfold continue_wakes. destruct todo as [|[[key n] grant_all] todo].
  { eexists. split; [done|]. apply finish_awake_ok; [done|]. by rewrite Ht. }
  destruct (wake_bucket_ok pid tb key n ALL_BITS grant_all s Hok) as (s' & more & -> & Hok' & Hth). cbn [mbind option_bind].
  destruct todo; eexists; (split; [done|]); simpl.
  - apply finish_awake_ok; [done|]. by rewrite Hth, Ht.
  - apply become_awake_ok; try done; rewrite Hth, Ht; done.
Qed.

Lemma notify_ok t pid host todo s st : sys_ok s -> threads s !! t = Some st -> not_parked (Some st) ->
  exists o, notify t pid host todo s = Some o /\ sys_ok o.1.
Proof.
  intros Hok Ht Hst. unfold notify. destruct todo as [|tb todo].
  { eexists. split; [done|]. apply finish_awake_ok; [done|]. by rewrite Ht. }
  set (k := fbk_of s pid tb host).
  destruct (wait_grant_spec (buckets s k) (key_of s pid host) INT_MAX ALL_BITS (bo_length _ _ (so_buckets _ Hok k)))
    as (b & L & reg & -> & HG & _). cbn [mbind option_bind].
  assert (Hok' : sys_ok (set_bucket k b s)) by (apply set_bucket_ok; [done|]; eapply bucket_ok_grants; [exact HG|apply Hok]).
  destruct todo; eexists; (split; [done|]); simpl.
  - apply finish_awake_ok; [done|]. by simpl; rewrite Ht.
  - apply become_awake_ok; try done; simpl; rewrite Ht; done.
Qed.

(** A thread in a call can always go on. *)
Lemma futex_resume_ok t st interrupted timed_out again s : sys_ok s -> threads s !! t = Some st ->
  (timed_out = true -> match st with Parked p => p_timed p = true | _ => True end) ->
  exists o, futex_resume t st interrupted timed_out again s = Some o /\ sys_ok o.1.
Proof.
  intros Hok Ht Htime. destruct st as [p|pid tb w key2 timed|pid tb woke todo|pid host todo]; simpl.
  - destruct (timed_out && negb (p_timed p)) eqn:E.
    { destruct timed_out; [|done]. rewrite (Htime eq_refl) in E. done. }
    eexists. split; [done|]. destruct (p_kind p) eqn:Hp; simpl.
    + by eapply resume_wait_ok.
    + by apply resume_lock_pi_ok.
    + by apply resume_requeue_pi_ok.
  - eexists. split; [done|]. apply futex_lock_pi_ok.
    + apply finish_awake_ok; [done|]. by rewrite Ht.
    + split; simpl; [apply lookup_delete_eq|]. rewrite map_size_delete, Ht. destruct Hok as [_ _ _ Hr]. lia.
    + by apply (so_status _ Hok _ _ Ht).
  - by eapply continue_wakes_ok.
  - by eapply notify_ok.
Qed.

Lemma futex_op_ok t c interrupted s s' a : sys_ok s -> threads s !! t = None -> room s -> c_key c <> 0 ->
  target_ok (c_word2 c) (c_key2 c) -> in_u32 (c_val3 c) -> futex_op t c interrupted s = Some (s', a) -> sys_ok s'.
Proof.
  intros Hok Ht Hr Hk H2 H3. assert (Hm : may_enter t s) by done.
  assert (Hone : forall o, Some o = Some (s', a) -> sys_ok o.1 -> sys_ok s') by (intros o [= ->]; done).
  assert (Hk' : target_ok (c_word c) (c_key c)) by (by destruct (c_word c)).
  unfold futex_op. set (tb := if c_private c then _ else _).
  destruct (((c_op c =? 9) || (c_op c =? 10)) && (c_val3 c =? 0)) eqn:E9; [intros H; by apply (Hone _ H)|].
  assert (H9 : 0 < (if c_op c =? 9 then c_val3 c else ALL_BITS) < 2 ^ 32).
  { unfold in_u32 in H3. destruct (c_op c =? 9); [simpl in E9; lia|done]. }
  clear E9.
  destruct (_ || _); [intros H; apply (Hone _ H), futex_lock_pi_ok; done|].
  destruct (_ =? 8); [intros H; apply (Hone _ H), futex_lock_pi_ok; done|].
  destruct (_ =? 7); [intros H; apply (Hone _ H), futex_unlock_pi_ok; done|].
  destruct (_ =? 11); [intros H; apply (Hone _ H), futex_wait_requeue_pi_ok; done|].
  destruct (_ =? 12).
  { set (differs := match c_word c with Some w => _ | None => _ end). destruct differs; intros H; [by apply (Hone _ H)|].
    by apply (Hone _ H), begin_awake_ok. }
  destruct (_ || _).
  { destruct (c_word c) as [w|]; [|done]. intros H. apply (Hone _ H), futex_wait_ok; done. }
  destruct (_ || _).
  { destruct (wake_bucket_ok (c_pid c) tb (c_key c) (c_val c) (if c_op c =? 10 then c_val3 c else ALL_BITS)
                ((c_op c =? 3) || (c_op c =? 4)) s Hok) as (s1 & woke & -> & Hok1 & _). simpl. by intros [= <- _]. }
  destruct (_ =? 5).
  { destruct (futex_wake_op_apply (c_word2 c) (c_val3 c) s) as [[s1 rc] do_wake2] eqn:Ha.
    assert (Hs1 : s1 = s \/ exists w v, s1 = store w v s).
    { unfold futex_wake_op_apply in Ha. repeat case_match; simplify_eq; eauto. }
    assert (sys_ok s1 /\ threads s1 = threads s) as [Hok1 Hth].
    { destruct Hs1 as [->|(w & v & ->)]; [done|]. split; [by apply store_ok|done]. }
    destruct (rc <? 0); intros H; apply (Hone _ H); [done|]. simpl. apply begin_awake_ok; try done; [by rewrite Hth|].
    unfold room. by rewrite Hth. }
  destruct (_ || _); intros H; by apply (Hone _ H).
Qed.

Lemma set_registry_ok pid l s : sys_ok s -> keeps_keys s pid l -> sys_ok (set_registry pid l s).
Proof.
  intros [Hb Hk Hs Hr] Hkeep. split; try done. intros t p Ht. simpl in Ht. destruct (Hk t p Ht) as [Hkey Hidx]. split; [|done].
  unfold key_of. simpl. destruct (Z.eqb_spec (p_pid p) pid) as [E|]; [by eapply Hkeep|done].
Qed.

Lemma futex_fork_ok parent child threaded s : sys_ok s -> legal_event (Fork parent child threaded) s ->
  sys_ok (futex_fork parent child threaded s).
Proof.
  intros Hok Hl. pose proof Hok as [Hb Hk Hs Hr]. split; try done.
  - intros [tb i]. change (asleep (futex_fork parent child threaded s) (tb, i)) with (asleep s (tb, i)). simpl.
    destruct tb as [|p]; [apply Hb|]. destruct (Z.eqb_spec p child) as [->|]; [|apply Hb].
    assert (Hempty : forall x, (forall t p, threads s !! t = Some (Parked p) -> (p_bid p).1 <> x) -> asleep s (x, i) = ∅).
    { intros x Hx. apply map_empty. intros t. apply asleep_None. intros p Hp Heq. apply (Hx t p Hp). by rewrite Heq. }
    rewrite Hempty by (intros t p Hp; by apply (Hl t p)).
    destruct threaded.
    + unfold private_bucket_after_fork. rewrite (bo_length _ _ (Hb (PrivateTable parent, i))). apply bucket_ok_blank.
    + rewrite <- (Hempty (PrivateTable parent)) by (intros t p Hp; by apply (Hl t p)). apply Hb.
  - intros t p Ht. simpl in Ht. destruct (Hk t p Ht) as [Hkey Hidx]. split; [|done]. unfold key_of. simpl.
    destruct (Z.eqb_spec (p_pid p) child) as [E|]; [|done]. exfalso. by destruct (Hl t p Ht) as [? _].
Qed.

Lemma futex_step_ok e s s' a : sys_ok s -> legal_event e s -> futex_step e s = Some (s', a) -> sys_ok s'.
Proof.
  intros Hok Hl. destruct e as [t c i|t i o ag|t pid w h|t pid w h|w v|t w old new|pid base len id foff|pid us ue|par child th];
    simpl in *; unfold when_idle.
  - destruct (threads s !! t) eqn:Ht; [done|]. destruct Hl as (Hk & H2 & H3 & Hr). by apply futex_op_ok.
  - destruct (threads s !! t) as [st|] eqn:Ht; [|done]. simpl. intros H.
    destruct (futex_resume_ok t st i o ag s Hok Ht) as (out & Hout & Hok'); [|rewrite Hout in H; by injection H as ->].
    intros ->. destruct st as [p| | |]; try done. simpl in H. by destruct (p_timed p).
  - destruct (threads s !! t) eqn:Ht; [done|]. intros H. injection H as H. unfold futex_wake_addr in H.
    destruct w as [w|]; simplify_eq; [|done]. apply begin_awake_ok; try done. by apply store_ok.
  - destruct (threads s !! t) eqn:Ht; [done|]. intros H. injection H as H. unfold robust_handle_death in H.
    destruct w as [w|]; [|by simplify_eq]. destruct (negb _); [by simplify_eq|].
    destruct (has_flag _ _); simplify_eq; [|by apply store_ok]. apply begin_awake_ok; try done. by apply store_ok.
  - intros [= <- _]. by apply store_ok.
  - destruct (threads s !! t); [done|]. destruct (words s w =? old); intros [= <- _]; [by apply store_ok|done].
  - destruct (futex_shared_register _ _ _ _ _) as [l|] eqn:E; [|done]. simpl. intros [= <- _]. apply set_registry_ok; auto.
  - destruct (futex_shared_unmap _ _ _) as [l|] eqn:E; [|done]. simpl. intros [= <- _]. apply set_registry_ok; auto.
  - intros [= <- _]. by apply futex_fork_ok.
Qed.

Lemma initial_ok memory : sys_ok (initial_sys memory).
Proof.
  split; try done. intros k. apply (bucket_ok_blank FUTEX_ASLOTS).
Qed.

Lemma reaches_ok s0 s : sys_ok s0 -> futex_reaches s0 s -> sys_ok s.
Proof. intros Hok H. induction H; [done|]. by eapply futex_step_ok. Qed.
