(* ===== verification/FutexWakes.v ===== *)
(** * Wakes and the threads they reach

    Which threads a wake selects, and that a selected thread stays selected
    until it leaves. *)

From stdpp Require Import gmap.
From S2P Require Import Prelude Status Futex FutexBuckets FutexSystem FutexSteps.

(** A sleeper that holds a slot of the bucket under the address. *)
Definition waits_on (s : sys) (k : bid) (address t : Z) : Prop :=
  exists p i, asleep s k !! t = Some p /\ slot_of p = Some i /\ p_address p = address.

(** The thread has been selected by a wake. *)
Definition granted (s : sys) (t : Z) : Prop :=
  exists p i, threads s !! t = Some (Parked p) /\ slot_of p = Some i /\ granted_at (buckets s (p_bid p)) i = true.

(** A wake of the address with this mask may select the thread. *)
Definition eligible (s : sys) (k : bid) (address mask t : Z) : Prop :=
  exists p i, asleep s k !! t = Some p /\ slot_of p = Some i /\ p_address p = address /\
    Z.land (p_bits p) mask <> 0 /\ granted_at (buckets s k) i = false.

Lemma eligible_slot_iff s k address mask t p i : sys_ok s -> asleep s k !! t = Some p -> slot_of p = Some i ->
  (eligible s k address mask t <-> exists w, lookupZ (wslots (buckets s k)) i = Some w /\ eligible_slot address mask w = true).
Proof.
  intros Hok Ht Hi. destruct (bo_slot _ _ (so_buckets _ Hok k) t p i Ht Hi) as [g Hg].
  unfold eligible, eligible_slot, granted_at. rewrite Hg. split.
  - intros (p' & i' & Ht' & Hi' & <- & Hb & Hgr). assert (p' = p) as -> by congruence. assert (i' = i) as -> by congruence.
    rewrite Hg in Hgr. simpl in Hgr. subst g. eexists. split; [done|]. simpl.
    rewrite Z.eqb_refl. by destruct (Z.eqb_spec (Z.land (p_bits p) mask) 0).
  - intros (w & [= <-] & H). simpl in H. apply andb_true_iff in H as [H Hb]. apply andb_true_iff in H as [Hadr Hgr].
    exists p, i. rewrite Hg. simpl. split; [done|]. split; [done|]. split; [lia|]. split; [lia|]. by destruct g.
Qed.

(** The owners of a set of slots. *)
Lemma slot_owners b q L : bucket_ok b q -> NoDup L ->
  (forall i, i ∈ L -> exists w, lookupZ (wslots b) i = Some w /\ waddr w <> 0) ->
  exists S : gset Z, Z.of_nat (size S) = lengthZ L /\ forall t, t ∈ S <-> exists p i, q !! t = Some p /\ slot_of p = Some i /\ i ∈ L.
Proof.
  intros Hok. induction L as [|i L IH]; intros Hnd HL.
  - exists ∅. split; [done|]. intros t. split; [set_solver|]. intros (p & i & _ & _ & Hi). by apply not_elem_of_nil in Hi.
  - apply list.NoDup_cons in Hnd as [Hni Hnd]. destruct IH as (S & Hsz & HS); [done|intros j Hj; apply HL; by right|].
    destruct (HL i) as (w & Hw & Hne); [by left|]. destruct (bo_used _ _ Hok _ _ Hw Hne) as (t & p & Ht & Hs).
    exists ({[t]} ∪ S). split.
    + rewrite size_union, size_singleton, lengthZ_cons; [lia|]. intros t' ->%elem_of_singleton (p' & j & Ht' & Hj & Hin)%HS.
      by simplify_eq.
    + intros t'. rewrite elem_of_union, elem_of_singleton, HS. split.
      * intros [->|(p' & j & ? & ? & ?)]; [exists p, i; repeat split; try done; by left|exists p', j; repeat split; try done; by right].
      * intros (p' & j & Ht' & Hj & [->|Hin]%elem_of_cons); [|eauto 10]. left. by eapply (bo_own _ _ Hok).
Qed.

(** [S] was selected among the sleepers of bucket [k]. *)
Definition selects (s : sys) (k : bid) (address mask : Z) (S : gset Z) (s' : sys) : Prop :=
  threads s' = threads s /\
  (forall t, t ∈ S -> eligible s k address mask t) /\
  forall t, granted s' t <-> granted s t \/ t ∈ S.

Lemma grants_selects s k address mask L b : sys_ok s -> address <> 0 -> grants address mask L (buckets s k) b ->
  exists S, Z.of_nat (size S) = lengthZ L /\ selects s k address mask S (set_bucket k b s) /\
    forall t p i, asleep s k !! t = Some p -> slot_of p = Some i -> (t ∈ S <-> i ∈ L).
Proof.
  intros Hok Ha HG. pose proof HG as (Hnd & _ & _ & _ & _ & HL & Hl). pose proof (so_buckets _ Hok k) as Hb.
  destruct (slot_owners _ _ L Hb Hnd) as (S & Hsz & HS).
  { intros i Hi. destruct (HL i Hi) as (w & Hw & He). exists w. split; [done|]. unfold eligible_slot in He. bool_props. lia. }
  assert (HSL : forall t p i, asleep s k !! t = Some p -> slot_of p = Some i -> (t ∈ S <-> i ∈ L)).
  { intros t p i Ht Hi. rewrite HS. split; [intros (p' & j & ? & ? & ?); by simplify_eq|eauto 10]. }
  exists S. split; [done|]. split; [|done]. split; [done|]. split.
  - intros t (p & i & Ht & Hs & Hi)%HS. eapply eligible_slot_iff; eauto.
  - intros t. split.
    + intros (p & i & Ht & Hi & Hg). simpl in *. case_decide as Hk; [|left; by exists p, i].
      assert (Hta : asleep s k !! t = Some p) by (by apply asleep_Some).
      unfold granted_at in Hg. rewrite Hl in Hg. destruct (decide (i ∈ L)) as [Hin|]; [right; by eapply HSL|].
      left. exists p, i. repeat split; try done. by rewrite Hk.
    + intros [(p & i & Ht & Hi & Hg)|(p & i & Ht & Hi & Hin)%HS].
      * exists p, i. repeat split; try done. simpl. case_decide as Hk; [|done]. unfold granted_at in *. rewrite Hl. rewrite Hk in Hg.
        case_decide; [|done]. by destruct (lookupZ (wslots (buckets s k)) i).
      * apply asleep_Some in Ht as [Ht Hk]. exists p, i. repeat split; try done. simpl. rewrite decide_True by done.
        unfold granted_at. rewrite Hl, decide_True by done. by destruct (HL i Hin) as (w & -> & _).
Qed.

(** A wake that finds no overlapping bits has nobody to select. *)
Lemma no_match_no_eligible s k address mask t : sys_ok s -> fbk_match (buckets s k) address mask = false ->
  ~ eligible s k address mask t.
Proof.
  intros Hok Hm (p & i & Ht & Hi & <- & Hbits & _). rewrite match_spec in Hm. apply orb_false_iff in Hm as [Him Hm].
  destruct (bo_bits _ _ (so_buckets _ Hok k) Him t p Ht) as (c & m & Htl & Hsub). rewrite Htl in Hm.
  apply Hbits. rewrite <- Hsub, <- Z.land_assoc, (Z.land_comm (p_bits p)), Z.land_assoc.
  replace (Z.land m mask) with 0 by lia. apply Z.land_0_l.
Qed.

(** [FUTEX_WAKE]: at most [n] eligible threads are selected, all of them when
    fewer than [n] are, and the answer counts them. *)
Lemma wake_selects pid tb key n mask s : sys_ok s -> key <> 0 ->
  exists b woke S, wake_bucket pid tb key n mask false s = Some (set_bucket (fbk_of s pid tb key) b s, woke) /\
    selects s (fbk_of s pid tb key) (key_of s pid key) mask S (set_bucket (fbk_of s pid tb key) b s) /\
    Z.of_nat (size S) <= Z.max 0 n /\
    (Z.of_nat (size S) < n -> forall t, eligible s (fbk_of s pid tb key) (key_of s pid key) mask t -> t ∈ S) /\
    ((exists t, waits_on s (fbk_of s pid tb key) (key_of s pid key) t) -> woke = Z.of_nat (size S)).
Proof.
  intros Hok Hkey. set (k := fbk_of s pid tb key). set (address := key_of s pid key).
  assert (Ha : address <> 0) by (by apply futex_key_nonzero). pose proof (so_buckets _ Hok k) as Hb.
  unfold wake_bucket, futex_wake_bucket. fold k address. destruct (negb (fbk_match (buckets s k) address mask)) eqn:Em.
  - assert (Hm : fbk_match (buckets s k) address mask = false) by (by destruct (fbk_match _ _ _)).
    destruct (grants_selects s k address mask [] (buckets s k) Hok Ha (grants_nil _ _ _)) as (S & Hsz & Hsel & _).
    exists (buckets s k), 0, S. split; [done|]. split; [done|]. change (lengthZ (A:=Z) []) with 0 in Hsz. split; [lia|]. split; [|lia].
    intros _ t He. by apply no_match_no_eligible in He.
  - destruct (wait_grant_spec (buckets s k) address n mask (bo_length _ _ Hb)) as (b & L & reg & -> & HG & Hle & Hreg & Hall).
    destruct (grants_selects s k address mask L b Hok Ha HG) as (S & Hsz & Hsel & HSL). simpl.
    eexists b, _, S. split; [done|]. split; [done|]. rewrite Hsz. split; [done|]. split.
    + intros Hlt t He. pose proof He as (p & i & Ht & Hi & _). eapply HSL; [done..|].
      apply (eligible_slot_iff s k address mask t p i) in He as (w & Hw & He); [|done..]. eauto.
    + intros (t & p & i & Ht & Hi & Hp). destruct (bo_slot _ _ Hb t p i Ht Hi) as [g Hg].
      rewrite (proj2 Hreg); [done|]. by exists i, (mk_wslot (p_address p) (p_bits p) g).
Qed.

(** ** Selected threads stay selected *)

(** Every sleeper of [s'] slept in [s], and what was granted still is. *)
Definition calm (s s' : sys) : Prop :=
  forall t p i, threads s' !! t = Some (Parked p) -> slot_of p = Some i ->
    threads s !! t = Some (Parked p) /\
    (granted_at (buckets s (p_bid p)) i = true -> granted_at (buckets s' (p_bid p)) i = true).

Lemma calm_refl s : calm s s.
Proof. by intros t p i. Qed.

Lemma calm_trans s s1 s2 : calm s s1 -> calm s1 s2 -> calm s s2.
Proof. intros H1 H2 t p i Ht Hi. destruct (H2 t p i Ht Hi) as [Ht1 Hg1]. destruct (H1 t p i Ht1 Hi) as [Ht0 Hg0]. auto. Qed.

Lemma calm_become t st s : match st with Parked p => slot_of p = None | _ => True end -> calm s (become t st s).
Proof.
  intros Hst t' p i. simpl. rewrite lookup_insert. case_decide; [|done]. intros [= ->]. congruence.
Qed.

Lemma calm_finish t s : calm s (finish t s).
Proof. intros t' p i. simpl. rewrite lookup_delete. by case_decide. Qed.

Lemma calm_bucket k b s :
  (forall t p i, asleep s k !! t = Some p -> slot_of p = Some i -> granted_at (buckets s k) i = true -> granted_at b i = true) ->
  calm s (set_bucket k b s).
Proof.
  intros Hb t p i Ht Hi. split; [done|]. simpl. case_decide as Hk; [|done]. intros Hg.
  eapply Hb; [by apply asleep_Some|done|by rewrite <- Hk].
Qed.

Lemma calm_bucket_leave t k b s :
  (forall t' p i, t' <> t -> asleep s k !! t' = Some p -> slot_of p = Some i ->
     granted_at (buckets s k) i = true -> granted_at b i = true) ->
  calm s (finish t (set_bucket k b s)).
Proof.
  intros Hb t' p i. simpl. rewrite lookup_delete. case_decide; [done|]. intros Ht Hi. split; [done|].
  case_decide as Hk; [|done]. intros Hg. eapply Hb; [|by apply asleep_Some|done|by rewrite <- Hk]. done.
Qed.

Lemma granted_at_grants address mask L b b' i : grants address mask L b b' -> granted_at b i = true -> granted_at b' i = true.
Proof.
  intros (_ & _ & _ & _ & _ & _ & Hl). unfold granted_at. rewrite Hl. case_decide; [|done].
  by destruct (lookupZ (wslots b) i).
Qed.

Lemma wslots_leave b a : wslots (leave_bucket b a) = wslots b.
Proof.
  unfold leave_bucket. assert (H : wslots (fbk_unpark b a) = wslots b).
  { unfold fbk_unpark. by repeat case_match. }
  by case_match.
Qed.

Lemma wslots_arrive b a bits : wslots (arrive b a bits) = wslots b.
Proof. unfold arrive, fbk_park. by repeat case_match. Qed.

Lemma calm_leave t p s : sys_ok s -> threads s !! t = Some (Parked p) ->
  calm s (leave t p (release_slot (buckets s (p_bid p)) p) s).
Proof.
  intros Hok Ht. apply calm_bucket_leave. intros t' p' i Hne Ht' Hi Hg.
  unfold granted_at in *. rewrite wslots_leave, release_slot_spec. destruct (slot_of p) as [j|] eqn:Hj; [|done].
  simpl. rewrite lookupZ_insertZ_ne; [done|]. intros ->. apply Hne.
  eapply (bo_own _ _ (so_buckets _ Hok (p_bid p))); [done|by apply asleep_Some|done|done].
Qed.

Lemma calm_pass t p a bits s : calm s (leave t p (arrive (buckets s (p_bid p)) a bits) s).
Proof.
  apply calm_bucket_leave. intros t' p' i _ _ _ Hg. unfold granted_at in *. by rewrite wslots_leave, wslots_arrive.
Qed.

Lemma calm_arrive k a bits s : calm s (set_bucket k (arrive (buckets s k) a bits) s).
Proof. apply calm_bucket. intros t' p' i _ _ Hg. unfold granted_at in *. by rewrite wslots_arrive. Qed.

Lemma calm_wake pid tb key n mask grant_all s s' woke : sys_ok s ->
  wake_bucket pid tb key n mask grant_all s = Some (s', woke) -> calm s s'.
Proof.
  intros Hok. unfold wake_bucket. set (k := fbk_of s pid tb key).
  destruct (wake_bucket_grants (key_of s pid key) n mask grant_all _ _ (so_buckets _ Hok k)) as (b & w & hit & L & -> & HG).
  intros [= <- <-]. apply calm_bucket. intros t p i _ _. by eapply granted_at_grants.
Qed.

Lemma calm_lock_pi_round t p w waiting trylock interrupted s : sys_ok s -> p_kind p = KLockPi w ->
  (waiting = true -> threads s !! t = Some (Parked p)) -> calm s (lock_pi_round t p w waiting trylock interrupted s).1.
Proof.
  intros Hok Hp Hw. assert (Hs : slot_of p = None) by (unfold slot_of; by rewrite Hp).
  assert (Hrel : release_slot (buckets s (p_bid p)) p = buckets s (p_bid p)) by (unfold release_slot; by rewrite Hp).
  unfold lock_pi_round. fold (arrive (buckets s (p_bid p)) (key_of s (p_pid p) (p_key p)) ALL_BITS).
  assert (Hstore : forall v, calm s (store w v s)) by (by intros v t' p' i).
  assert (Hleave : forall v, waiting = true -> calm s (leave t p (buckets s (p_bid p)) (store w v s))).
  { intros v E. eapply calm_trans; [apply (Hstore v)|]. rewrite <- Hrel. by apply (calm_leave t p (store w v s)); [apply store_ok|apply Hw]. }
  assert (Hleave0 : waiting = true -> calm s (leave t p (buckets s (p_bid p)) s)).
  { intros E. rewrite <- Hrel at 1. apply calm_leave; auto. }
  destruct (pi_decide _ _ _ _ _ _) as [v|e|v]; simpl.
  - destruct waiting; auto.
  - destruct waiting; [auto|apply calm_refl].
  - destruct interrupted, waiting; simpl.
    + auto.
    + eapply calm_trans; [apply (Hstore v)|]. apply (calm_pass t p _ _ (store w v s)).
    + eapply calm_trans; [apply (Hstore v)|]. eapply calm_trans; [|by apply calm_become]. by apply calm_bucket.
    + eapply calm_trans; [apply (Hstore v)|]. eapply calm_trans; [apply (calm_arrive (p_bid p))|]. by apply calm_become.
Qed.

(** A step that puts a waiter to sleep read the value it waits for. *)
Definition calm_or_sleeps (s s' : sys) : Prop :=
  calm s s' \/ exists t p w v i, threads s !! t = None /\ threads s' !! t = Some (Parked p) /\ p_kind p = KWait w v i /\
    words s w = v /\ calm s (finish t s').

Lemma futex_wait_calm t pid tb word key val bits timed interrupted s : sys_ok s -> threads s !! t = None ->
  calm_or_sleeps s (futex_wait t pid tb word key val bits timed interrupted s).1.
Proof.
  intros Hok Ht. unfold futex_wait. destruct (negb _) eqn:Ew; [left; apply calm_refl|].
  destruct interrupted; [left; apply calm_refl|].
  fold (arrive (buckets s (fbk_of s pid tb key)) (key_of s pid key) bits).
  destruct (fbk_wait_register _ _ _) as [b slot] eqn:Hr. simpl. right. eexists t, _, word, (u32 val), slot.
  split; [done|]. split; [apply lookup_insert_eq|]. split; [done|]. split; [lia|].
  set (k := fbk_of s pid tb key) in *. intros t' p' i. simpl. rewrite lookup_delete. case_decide; [done|].
  rewrite lookup_insert_ne by done. intros Ht' Hi. split; [done|]. case_decide as Hk; [|done]. subst k.
  destruct (bo_slot _ _ (so_buckets _ Hok (p_bid p')) t' p' i (proj2 (asleep_Some _ _ _ _) (conj Ht' eq_refl)) Hi) as [g Hg].
  pose proof (bo_address _ _ (so_buckets _ Hok (p_bid p')) t' p' (proj2 (asleep_Some _ _ _ _) (conj Ht' eq_refl))) as Hne.
  unfold granted_at. rewrite Hk in Hg |- *. rewrite Hg.
  destruct (register_cases _ _ _ _ _ Hr) as [(_ & -> & _)|(w0 & Hw0 & Hz & ->)]; [by rewrite wslots_arrive, Hg|].
  rewrite wslots_arrive in *. simpl. rewrite lookupZ_insertZ_ne; [by rewrite Hg|]. intros ->. rewrite Hg in Hw0.
  injection Hw0 as <-. done.
Qed.

Lemma calm_leave_kind t p s (b : futex_bucket) : sys_ok s -> threads s !! t = Some (Parked p) ->
  b = release_slot (buckets s (p_bid p)) p -> calm s (leave t p b s).
Proof. intros Hok Ht ->. by apply calm_leave. Qed.

Lemma futex_resume_calm t st interrupted timed_out again s s' a : sys_ok s -> threads s !! t = Some st ->
  futex_resume t st interrupted timed_out again s = Some (s', a) -> calm s s'.
Proof.
  intros Hok Ht. destruct st as [p|pid tb w key2 timed|pid tb woke todo|pid host todo]; simpl.
  - destruct (_ && _); [done|]. intros [= H]. replace s' with (s', a).1 by done. rewrite <- H. clear H.
    pose proof (calm_leave_kind t p s) as Hl. unfold release_slot in Hl.
    destruct (p_kind p) as [w v slot|w|w2 key2] eqn:Hp.
    + unfold resume_wait. repeat case_match; simpl; try apply calm_refl; by apply Hl.
    + unfold resume_lock_pi. repeat case_match; simpl; try (by apply Hl). by apply calm_lock_pi_round.
    + unfold resume_requeue_pi. repeat case_match; simpl; try (by apply Hl).
      eapply calm_trans; [by apply Hl|]. by apply calm_become.
  - intros [= H]. replace s' with (s', a).1 by done. rewrite <- H. clear H. unfold futex_lock_pi.
    destruct w as [w|]; [|apply calm_finish]. eapply calm_trans; [apply (calm_finish t)|].
    apply calm_lock_pi_round; try done. apply finish_awake_ok; [done|]. by rewrite Ht.
  - unfold continue_wakes. destruct todo as [|[[key n] grant_all] todo]; [intros [= <- _]; apply calm_finish|].
    destruct (wake_bucket _ _ _ _ _ _ _) as [[s1 more]|] eqn:E; [|done]. simpl. pose proof (calm_wake _ _ _ _ _ _ _ _ _ Hok E).
    destruct todo; intros [= <- _]; (eapply calm_trans; [done|]); [apply calm_finish|by apply calm_become].
  - unfold notify. destruct todo as [|tb todo]; [intros [= <- _]; apply calm_finish|].
    set (k := fbk_of s pid tb host).
    destruct (wait_grant_spec (buckets s k) (key_of s pid host) INT_MAX ALL_BITS (bo_length _ _ (so_buckets _ Hok k)))
      as (b & L & reg & -> & HG & _). simpl.
    assert (Hc : calm s (set_bucket k b s)) by (apply calm_bucket; intros ? ? ? _ _; by eapply granted_at_grants).
    destruct todo; intros [= <- _]; (eapply calm_trans; [apply Hc|]); [apply calm_finish|by apply calm_become].
Qed.

Lemma futex_op_calm t c interrupted s s' a : sys_ok s -> threads s !! t = None ->
  futex_op t c interrupted s = Some (s', a) -> calm_or_sleeps s s'.
Proof.
  intros Hok Ht.
  assert (Hone : forall o, Some o = Some (s', a) -> calm_or_sleeps s o.1 -> calm_or_sleeps s s') by (intros o [= ->]; done).
  assert (Hcalm : forall o, Some o = Some (s', a) -> calm s o.1 -> calm_or_sleeps s s') by (intros o [= ->] ?; by left).
  unfold futex_op. set (tb := if c_private c then _ else _).
  assert (Hlock : forall word trylock timed, calm s (futex_lock_pi t (c_pid c) tb word (c_key c) trylock timed interrupted s).1).
  { intros [w|] trylock timed; [|apply calm_refl]. by apply calm_lock_pi_round. }
  destruct (_ && _); [intros H; apply (Hcalm _ H), calm_refl|].
  destruct (_ || _); [intros H; by apply (Hcalm _ H)|].
  destruct (_ =? 8); [intros H; by apply (Hcalm _ H)|].
  destruct (_ =? 7).
  { intros H. apply (Hcalm _ H). unfold futex_unlock_pi. repeat case_match; simpl; by intros t' p i. }
  destruct (_ =? 11).
  { intros H. apply (Hcalm _ H). unfold futex_wait_requeue_pi. destruct (c_word c); [|apply calm_refl].
    destruct (negb _); [apply calm_refl|]. destruct interrupted; simpl; [by apply (calm_pass t)|].
    eapply calm_trans; [apply (calm_arrive (fbk_of s (c_pid c) tb (c_key c)))|]. by apply calm_become. }
  destruct (_ =? 12).
  { set (differs := match c_word c with Some w => _ | None => _ end). destruct differs; intros H; apply (Hcalm _ H); [apply calm_refl|].
    by apply calm_become. }
  destruct (_ || _).
  { destruct (c_word c) as [w|]; [|done]. intros H. by apply (Hone _ H), futex_wait_calm. }
  destruct (_ || _).
  { destruct (wake_bucket _ _ _ _ _ _ _) as [[s1 more]|] eqn:E; [|done]. intros [= <- _]. left. by eapply calm_wake. }
  destruct (_ =? 5).
  { destruct (futex_wake_op_apply (c_word2 c) (c_val3 c) s) as [[s1 rc] do_wake2] eqn:Ha.
    assert (Hs1 : calm s s1).
    { unfold futex_wake_op_apply in Ha. repeat case_match; simplify_eq; by intros t' p i. }
    destruct (rc <? 0); intros H; apply (Hcalm _ H); [done|]. eapply calm_trans; [apply Hs1|]. by apply calm_become. }
  destruct (_ || _); intros H; apply (Hcalm _ H), calm_refl.
Qed.

Lemma futex_step_calm e s s' a : sys_ok s -> legal_event e s -> futex_step e s = Some (s', a) -> calm_or_sleeps s s'.
Proof.
  intros Hok Hl. destruct e as [t c i|t i o ag|t pid w h|t pid w h|w v|t w old new|pid base len id foff|pid us ue|par child th];
    simpl in *; unfold when_idle.
  - destruct (threads s !! t) eqn:Ht; [done|]. by apply futex_op_calm.
  - destruct (threads s !! t) as [st|] eqn:Ht; [|done]. simpl. intros H. left. by eapply futex_resume_calm.
  - destruct (threads s !! t) eqn:Ht; [done|]. intros [= H]. left. unfold futex_wake_addr in H.
    destruct w as [w|]; simplify_eq; [|apply calm_refl]. by apply (calm_become t _ (store w 0 s)).
  - destruct (threads s !! t) eqn:Ht; [done|]. intros [= H]. left. unfold robust_handle_death in H.
    destruct w as [w|]; [|simplify_eq; apply calm_refl]. destruct (negb _); [simplify_eq; apply calm_refl|].
    destruct (has_flag _ _); simplify_eq; [|by intros t' p i]. by apply (calm_become t _ (store w _ s)).
  - intros [= <- _]. left. by intros t' p i.
  - destruct (threads s !! t); [done|]. destruct (words s w =? old); intros [= <- _]; left; by intros t' p i.
  - destruct (futex_shared_register _ _ _ _ _); [|done]. intros [= <- _]. left. by intros t' p i.
  - destruct (futex_shared_unmap _ _ _); [|done]. intros [= <- _]. left. by intros t' p i.
  - intros [= <- _]. left. intros t p i Ht Hi. split; [done|]. simpl.
    destruct (Hl t p Ht) as (_ & Hb & _). destruct (p_bid p) as [[|x] j]; [done|]. simpl in Hb.
    destruct (Z.eqb_spec x child) as [->|]; [done|]. done.
Qed.

(** ** A wake of everybody *)

(** Runs in which the word never has the value. *)
Inductive runs_without (w v : Z) : sys -> sys -> Prop :=
| RunHere s : words s w <> v -> runs_without w v s s
| RunStep s e s1 a s2 : words s w <> v -> legal_event e s -> futex_step e s = Some (s1, a) -> runs_without w v s1 s2 ->
    runs_without w v s s2.

(** Whoever waits for the value on the address has been selected. *)
Definition all_granted (k : bid) (address w v : Z) (s : sys) : Prop :=
  forall t p i, asleep s k !! t = Some p -> p_address p = address -> p_kind p = KWait w v i -> 0 <= i -> granted s t.

Lemma all_granted_step k address w v e s s' a : sys_ok s -> legal_event e s -> futex_step e s = Some (s', a) ->
  words s w <> v -> all_granted k address w v s -> all_granted k address w v s'.
Proof.
  intros Hok Hl Hst Hw Hall t p i [Ht Hk]%asleep_Some Ha Hp Hi.
  assert (Hs : slot_of p = Some i) by (unfold slot_of; rewrite Hp; destruct (Z.ltb_spec i 0); [lia|done]).
  assert (Hkeep : threads s !! t = Some (Parked p) ->
            (granted_at (buckets s (p_bid p)) i = true -> granted_at (buckets s' (p_bid p)) i = true) -> granted s' t).
  { intros Ht0 Hg. destruct (Hall t p i) as (p' & j & Ht' & Hj & Hgr); try done; [by apply asleep_Some|].
    assert (p' = p) as -> by congruence. assert (j = i) as -> by congruence. exists p, i. auto. }
  destruct (futex_step_calm e s s' a Hok Hl Hst) as [Hc|(t1 & p1 & w1 & v1 & i1 & Hn & Ht1 & Hp1 & Hw1 & Hc)].
  - destruct (Hc t p i Ht Hs) as [Ht0 Hg]. by apply Hkeep.
  - destruct (decide (t = t1)) as [->|Hne]; [exfalso; simplify_eq; congruence|].
    destruct (Hc t p i) as [Ht0 Hg]; [simpl; by rewrite lookup_delete_ne|done|]. by apply Hkeep.
Qed.

Lemma all_granted_runs k address w v s s' : sys_ok s -> runs_without w v s s' -> all_granted k address w v s ->
  sys_ok s' /\ all_granted k address w v s'.
Proof.
  intros Hok H. induction H as [|s e s1 a s2 Hw Hl Hst Hrun IH]; [done|]. intros Hall. apply IH.
  - by eapply futex_step_ok.
  - by eapply all_granted_step.
Qed.

Lemma wake_all_granted pid tb key w v s s' woke : sys_ok s -> room s -> key <> 0 ->
  wake_bucket pid tb key INT_MAX ALL_BITS false s = Some (s', woke) ->
  all_granted (fbk_of s pid tb key) (key_of s pid key) w v s'.
Proof.
  intros Hok Hr Hkey Hwake. destruct (wake_selects pid tb key INT_MAX ALL_BITS s Hok Hkey)
    as (b & woke' & S & Hw' & (Hth & HS & Hg) & Hle & Hall & _). rewrite Hwake in Hw'. injection Hw' as -> ->.
  assert (Hsz : Z.of_nat (size S) < INT_MAX).
  { assert (Hsub : S ⊆ dom (threads s)).
    { intros t Hin. destruct (HS t Hin) as (p & i & Ht & _). apply asleep_Some in Ht as [Ht _]. apply elem_of_dom. eauto. }
    apply subseteq_size in Hsub. rewrite size_dom in Hsub. unfold room in Hr. change INT_MAX with (2 ^ 31 - 1). lia. }
  intros t p i [Ht Hk]%asleep_Some Ha Hp Hi. simpl in Ht. apply Hg.
  assert (Hs : slot_of p = Some i) by (unfold slot_of; rewrite Hp; destruct (Z.ltb_spec i 0); [lia|done]).
  destruct (granted_at (buckets s (p_bid p)) i) eqn:E; [left; by exists p, i|right].
  apply Hall; [done|]. exists p, i. split; [by apply asleep_Some|]. split; [done|]. split; [done|]. split; [|by rewrite <- Hk].
  pose proof (so_status _ Hok _ _ Ht) as [Hbits _]. change ALL_BITS with (Z.ones 32).
  rewrite Z.land_ones, Z.mod_small by lia. lia.
Qed.

(** A selected thread answers 0, unless it is interrupted or out of time. *)
Lemma granted_answers t s : granted s t -> exists s', futex_step (Resume t false false false) s = Some (s', Some 0).
Proof.
  intros (p & i & Ht & Hi & Hg). simpl. rewrite Ht. simpl. unfold slot_of in Hi. destruct (p_kind p) as [w v slot| |]; try done.
  destruct (Z.ltb_spec slot 0); [done|]. injection Hi as ->. unfold resume_wait. rewrite Hg, orb_true_r. eauto.
Qed.
