(* ===== verification/FutexPi.v ===== *)
(** * PI mutexes

    The word of a PI mutex names its owner.  Who acquires and who releases it
    is read off the answers the threads get, and compared with the word. *)

From stdpp Require Import gmap.
From S2P Require Import Prelude Status Futex FutexSystem.

(** The owner the word names, 0 for none. *)
Definition holder (w : Z) (s : sys) : Z := Z.land (words s w) HL_FUTEX_TID_MASK.

Definition is_tid (t : Z) : Prop := 0 < t < 2 ^ 30.

Inductive pi_action := Acquired (t : Z) | Released (t : Z).

Definition locks_pi (op : Z) : bool := is_op [6; 8; 13] op.

(** What the answer [a] tells thread [t]: it was told that it holds the
    mutex, or that it gave it up. *)
Definition told (w : Z) (e : futex_event) (s : sys) (a : option Z) : option pi_action :=
  match e with
  | Call t c _ =>
      if bool_decide (a = Some 0) && bool_decide (c_word c = Some w) then
        if locks_pi (c_op c) then Some (Acquired t) else if c_op c =? 7 then Some (Released t) else None
      else None
  | Resume t _ _ _ =>
      let locks := match threads s !! t with
                   | Some (Parked p) => bool_decide (p_kind p = KLockPi w)
                   | Some (Relock _ _ w' _ _) => bool_decide (w' = Some w)
                   | _ => false
                   end in
      if bool_decide (a = Some 0) && locks then Some (Acquired t) else None
  | CompareExchange t w' old new =>
      if bool_decide (a = Some 1) && (w' =? w) then (if old =? 0 then Some (Acquired t) else Some (Released t)) else None
  | OwnerDeath t _ w' _ => if bool_decide (w' = Some w) && (holder w s =? t) then Some (Released t) else None
  | _ => None
  end.

(** The guest uses the word as a PI mutex: besides the kernel only
    compare-and-exchanges of a thread's own id write it. *)
Definition pi_event (w : Z) (e : futex_event) : Prop :=
  match e with
  | Call t c _ => is_tid t /\ (c_op c = 5 -> c_word2 c <> Some w)
  | Resume t _ _ _ => is_tid t
  | ClearTid _ _ word _ => word <> Some w
  | OwnerDeath t _ _ _ => is_tid t
  | Store w' _ => w' <> w
  | CompareExchange t w' old new => w' = w -> is_tid t /\ (old = 0 /\ new = t \/ old = t /\ new = 0)
  | _ => True
  end.

(** Acquisitions and releases alternate, and the releaser is the holder. *)
Fixpoint owner_after (h : Z) (l : list pi_action) : option Z :=
  match l with
  | [] => Some h
  | Acquired t :: l' => if h =? 0 then owner_after t l' else None
  | Released t :: l' => if h =? t then owner_after 0 l' else None
  end.

Fixpoint told_all (w : Z) (es : list futex_event) (s : sys) : list pi_action :=
  match es with
  | [] => []
  | e :: es' =>
      match futex_step e s with
      | Some (s', a) => match told w e s a with Some x => x :: told_all w es' s' | None => told_all w es' s' end
      | None => []
      end
  end.

(** ** The bits of the word *)

Lemma tid_mask x : Z.land x HL_FUTEX_TID_MASK = x mod 2 ^ 30.
Proof. change HL_FUTEX_TID_MASK with (Z.ones 30). by apply Z.land_ones. Qed.

Lemma tid_of_lor x y : y mod 2 ^ 30 = 0 -> Z.land (Z.lor x y) HL_FUTEX_TID_MASK = Z.land x HL_FUTEX_TID_MASK.
Proof.
  intros Hy. rewrite Z.land_lor_distr_l, (tid_mask y), Hy. apply Z.lor_0_r.
Qed.

Lemma tid_self t : is_tid t -> Z.land t HL_FUTEX_TID_MASK = t.
Proof. intros Ht. rewrite tid_mask. apply Z.mod_small. unfold is_tid in Ht. lia. Qed.

Lemma flags_low v b : (Z.lor (Z.land v HL_FUTEX_OWNER_DIED) (if b : bool then HL_FUTEX_WAITERS else 0)) mod 2 ^ 30 = 0.
Proof.
  rewrite <- tid_mask, Z.land_lor_distr_l, <- Z.land_assoc. change (Z.land HL_FUTEX_OWNER_DIED HL_FUTEX_TID_MASK) with 0.
  rewrite Z.land_0_r. by destruct b.
Qed.

Lemma died_low v : Z.land (Z.lor (Z.land v HL_FUTEX_WAITERS) HL_FUTEX_OWNER_DIED) HL_FUTEX_TID_MASK = 0.
Proof.
  rewrite tid_of_lor by done. rewrite <- Z.land_assoc. change (Z.land HL_FUTEX_WAITERS HL_FUTEX_TID_MASK) with 0.
  apply Z.land_0_r.
Qed.

Lemma pi_decide_take t v others waiting precise trylock v' : is_tid t ->
  pi_decide t v others waiting precise trylock = PiTake v' ->
  Z.land v HL_FUTEX_TID_MASK = 0 /\ Z.land v' HL_FUTEX_TID_MASK = t.
Proof.
  intros Ht. unfold pi_decide. set (v2 := Z.lor (Z.land v HL_FUTEX_OWNER_DIED) _).
  destruct (Z.land v HL_FUTEX_TID_MASK =? 0) eqn:E; simpl.
  - destruct (negb (negb waiting && (0 <? others) && precise)); [|by repeat case_match].
    intros [= <-]. split; [lia|]. rewrite tid_of_lor by apply flags_low. by apply tid_self.
  - by repeat case_match.
Qed.

Lemma pi_decide_queue t v others waiting precise trylock v' :
  pi_decide t v others waiting precise trylock = PiQueue v' -> Z.land v' HL_FUTEX_TID_MASK = Z.land v HL_FUTEX_TID_MASK.
Proof. unfold pi_decide. repeat case_match; intros [= <-]. by apply tid_of_lor. Qed.

Lemma pi_decide_refuse t v others waiting precise trylock e :
  pi_decide t v others waiting precise trylock = PiRefuse e -> e = EDEADLK \/ e = HL_LINUX_EAGAIN.
Proof. unfold pi_decide. repeat case_match; intros [= <-]; auto. Qed.

(** ** The effect of each step on the holder *)

(** The action explains how the holder changed. *)
Definition explains (w : Z) (x : option pi_action) (s s' : sys) : Prop :=
  match x with
  | Some (Acquired t) => holder w s = 0 /\ holder w s' = t
  | Some (Released t) => holder w s = t /\ holder w s' = 0
  | None => holder w s' = holder w s
  end.

Lemma holder_store w w' v s : holder w (store w' v s) = if w =? w' then Z.land v HL_FUTEX_TID_MASK else holder w s.
Proof. unfold holder. simpl. by destruct (w =? w'). Qed.

(** Nothing was said and the words are the same. *)
Lemma explains_same w x s s' : words s' = words s -> x = None -> explains w x s s'.
Proof. intros Hw ->. unfold explains, holder. by rewrite Hw. Qed.

Lemma lock_pi_round_explains w t p w' waiting trylock interrupted s s' a : is_tid t ->
  lock_pi_round t p w' waiting trylock interrupted s = (s', a) ->
  explains w (if bool_decide (a = Some 0) && (w' =? w) then Some (Acquired t) else None) s s'.
Proof.
  intros Ht. unfold lock_pi_round. destruct (pi_decide _ _ _ _ _ _) as [v|e|v] eqn:E.
  - intros [= <- <-]. rewrite bool_decide_true by done. simpl. apply pi_decide_take in E as [Hfree Hv]; [|done].
    assert (Hs : forall s1, words s1 = words (store w' v s) -> explains w (if w' =? w then Some (Acquired t) else None) s s1).
    { intros s1 H1. unfold explains, holder. rewrite H1. simpl. destruct (Z.eqb_spec w' w) as [->|]; simpl.
      - by rewrite Z.eqb_refl.
      - destruct (Z.eqb_spec w w'); [congruence|done]. }
    destruct waiting; by apply Hs.
  - intros [= <- <-]. assert (e <> 0) by (by apply pi_decide_refuse in E as [-> | ->]).
    rewrite bool_decide_false by (intros [= ?]; lia). apply explains_same; [|done]. by destruct waiting.
  - apply pi_decide_queue in E.
    assert (Hs : forall s1, words s1 = words (store w' v s) -> explains w None s s1).
    { intros s1 H1. unfold explains, holder. rewrite H1. simpl. destruct (Z.eqb_spec w w') as [->|]; done. }
    destruct interrupted; intros [= <- <-]; rewrite bool_decide_false by done; by apply Hs.
Qed.

Lemma futex_lock_pi_explains w t pid tb word key trylock timed interrupted s s' a : is_tid t ->
  futex_lock_pi t pid tb word key trylock timed interrupted s = (s', a) ->
  explains w (if bool_decide (a = Some 0) && bool_decide (word = Some w) then Some (Acquired t) else None) s s'.
Proof.
  intros Ht. unfold futex_lock_pi. destruct word as [w'|]; [|by intros [= <- <-]].
  intros H. pose proof (lock_pi_round_explains w _ _ _ _ _ _ _ _ _ Ht H) as He.
  destruct (Z.eqb_spec w' w) as [->|Hne]; [by rewrite (bool_decide_true (Some w = Some w))|].
  by rewrite (bool_decide_false (Some w' = Some w)) by congruence.
Qed.

Lemma wake_bucket_words pid tb key n mask grant_all s s' woke :
  wake_bucket pid tb key n mask grant_all s = Some (s', woke) -> words s' = words s.
Proof. unfold wake_bucket. destruct (futex_wake_bucket _ _ _ _ _) as [[[b z] h]|]; [|done]. by intros [= <- <-]. Qed.

Lemma resume_explains w t st interrupted timed_out again s s' a : is_tid t -> threads s !! t = Some st ->
  futex_resume t st interrupted timed_out again s = Some (s', a) ->
  explains w (told w (Resume t interrupted timed_out again) s a) s s'.
Proof.
  intros Ht Hst H. unfold told. rewrite Hst.
  destruct st as [p|pid tb word key2 timed|pid tb woke todo|pid host todo]; simpl in H.
  - destruct (_ && _); [done|]. injection H as H. destruct (p_kind p) as [w1 v slot|w'|w2 key2].
    + apply explains_same; [|by rewrite andb_false_r]. unfold resume_wait in H. by repeat case_match; simplify_eq.
    + replace (bool_decide (KLockPi w' = KLockPi w)) with (w' =? w).
      2:{ destruct (Z.eqb_spec w' w); case_bool_decide; congruence. }
      unfold resume_lock_pi in H. destruct interrupted; [by simplify_eq|]. destruct timed_out; [by simplify_eq|].
      by apply (lock_pi_round_explains w) in H.
    + apply explains_same; [|by rewrite andb_false_r]. unfold resume_requeue_pi in H. by repeat case_match; simplify_eq.
  - injection H as H. apply (futex_lock_pi_explains w) in H; [|done]. exact H.
  - apply explains_same; [|by rewrite andb_false_r].
    unfold continue_wakes in H. destruct todo as [|[[key n] g] todo]; [by simplify_eq|].
    destruct (wake_bucket _ _ _ _ _ _ _) as [[s1 more]|] eqn:E; [|done]. simpl in H. apply wake_bucket_words in E.
    destruct todo; by simplify_eq.
  - apply explains_same; [|by rewrite andb_false_r].
    unfold notify in H. destruct todo as [|tb todo]; [by simplify_eq|].
    destruct (fbk_wait_grant _ _ _ _) as [[[b z] h]|]; [|done]. simpl in H. destruct todo; by simplify_eq.
Qed.

Lemma unlock_pi_explains w t pid tb word key s s' a : 
  futex_unlock_pi t pid tb word key s = (s', a) ->
  explains w (if bool_decide (a = Some 0) && bool_decide (word = Some w) then Some (Released t) else None) s s'.
Proof.
  unfold futex_unlock_pi. destruct word as [w'|]; [|by intros [= <- <-]].
  destruct (negb (Z.land (words s w') HL_FUTEX_TID_MASK =? t)) eqn:E; intros [= <- <-]; [done|].
  rewrite (bool_decide_true (Some 0 = Some 0)) by done. simpl. case_bool_decide as Ew.
  - injection Ew as ->. unfold explains. rewrite holder_store, Z.eqb_refl. split; [|by destruct (0 <? _)].
    unfold holder. destruct (Z.eqb_spec (Z.land (words s w) HL_FUTEX_TID_MASK) t); done.
  - unfold explains. rewrite holder_store. destruct (Z.eqb_spec w w'); [congruence|done].
Qed.

Lemma futex_op_explains w t c interrupted s s' a : is_tid t -> (c_op c = 5 -> c_word2 c <> Some w) ->
  futex_op t c interrupted s = Some (s', a) -> explains w (told w (Call t c interrupted) s a) s s'.
Proof.
  intros Ht H5. unfold futex_op, told. set (tb := if c_private c then _ else _).
  destruct (((c_op c =? 9) || (c_op c =? 10)) && (c_val3 c =? 0)); [by intros [= <- <-]|].
  destruct ((c_op c =? 6) || (c_op c =? 13)) eqn:E6.
  { intros [= H]. replace (locks_pi (c_op c)) with true by (unfold locks_pi, is_op; simpl; lia).
    by apply (futex_lock_pi_explains w) in H. }
  destruct (c_op c =? 8) eqn:E8.
  { intros [= H]. replace (locks_pi (c_op c)) with true by (unfold locks_pi, is_op; simpl; lia).
    by apply (futex_lock_pi_explains w) in H. }
  replace (locks_pi (c_op c)) with false by (unfold locks_pi, is_op; simpl; lia).
  destruct (c_op c =? 7) eqn:E7; [intros [= H]; by apply (unlock_pi_explains w) in H|].
  replace (if bool_decide (a = Some 0) && bool_decide (c_word c = Some w) then _ else _) with (@None pi_action) by (by destruct (_ && _)).
  clear E6 E8 E7.
  assert (Hone : forall o, Some o = Some (s', a) -> words o.1 = words s -> explains w None s s').
  { intros o [= ->] Hw. by apply explains_same. }
  destruct (_ =? 11).
  { intros H. apply (Hone _ H). unfold futex_wait_requeue_pi. by repeat case_match. }
  destruct (_ =? 12).
  { set (differs := match c_word c with Some w => _ | None => _ end). destruct differs; intros H; by apply (Hone _ H). }
  destruct (_ || _).
  { destruct (c_word c) as [w'|]; [|done]. intros H. apply (Hone _ H). unfold futex_wait. by repeat case_match. }
  destruct (_ || _).
  { destruct (wake_bucket _ _ _ _ _ _ _) as [[s1 more]|] eqn:E; [|done]. intros [= <- _].
    apply explains_same; [|done]. by eapply wake_bucket_words. }
  destruct (c_op c =? 5) eqn:E5.
  { destruct (futex_wake_op_apply (c_word2 c) (c_val3 c) s) as [[s1 rc] do_wake2] eqn:Ha.
    assert (Hs1 : holder w s1 = holder w s).
    { specialize (H5 ltac:(lia)). unfold futex_wake_op_apply in Ha.
      destruct (c_word2 c) as [w2|]; [|by simplify_eq]. assert (Hne : w <> w2) by congruence.
      repeat case_match; simplify_eq; try done; rewrite holder_store; destruct (Z.eqb_spec w w2); done. }
    destruct (rc <? 0); by intros [= <- _]. }
  destruct (_ || _); intros H; by apply (Hone _ H).
Qed.

Lemma pi_step_explains w e s s' a : pi_event w e -> futex_step e s = Some (s', a) -> explains w (told w e s a) s s'.
Proof.
  intros Hpi. destruct e as [t c i|t i o ag|t pid w' h|t pid w' h|w' v|t w' old new|pid base len id foff|pid us ue|par child th];
    simpl in Hpi; cbn [futex_step]; unfold when_idle.
  - destruct (threads s !! t); [done|]. destruct Hpi. by apply futex_op_explains.
  - destruct (threads s !! t) as [st|] eqn:Ht; [|done]. simpl. intros H. by eapply resume_explains.
  - destruct (threads s !! t); [done|]. intros [= H]. unfold futex_wake_addr in H. destruct w' as [w'|]; simplify_eq; [|done].
    unfold explains, holder. simpl. destruct (Z.eqb_spec w w'); [congruence|done].
  - destruct (threads s !! t); [done|]. intros [= H]. unfold robust_handle_death in H. simpl.
    destruct w' as [w'|]; [|by simplify_eq]. destruct (Z.eqb_spec (Z.land (words s w') HL_FUTEX_TID_MASK) t) as [E|E]; simpl in H.
    + assert (Hs : words s' = words (store w' (Z.lor (Z.land (words s w') HL_FUTEX_WAITERS) HL_FUTEX_OWNER_DIED) s)).
      { destruct (has_flag _ _); by simplify_eq. }
      assert (Hh : holder w s' = if w =? w' then 0 else holder w s).
      { unfold holder at 1. rewrite Hs. simpl. destruct (w =? w'); [apply died_low|done]. }
      case_bool_decide as Ew; simpl.
      * injection Ew as ->. unfold holder at 1. rewrite E, Z.eqb_refl. simpl. by rewrite Hh, Z.eqb_refl.
      * rewrite Hh. destruct (Z.eqb_spec w w'); [congruence|done].
    + simplify_eq. case_bool_decide as Ew; simpl; [|done]. injection Ew as ->. unfold holder.
      destruct (Z.eqb_spec (Z.land (words s' w) HL_FUTEX_TID_MASK) t); done.
  - intros [= <- <-]. simpl. rewrite holder_store. destruct (Z.eqb_spec w w'); [congruence|done].
  - destruct (threads s !! t); [done|]. simpl. destruct (Z.eqb_spec (words s w') old) as [E|E]; intros [= <- <-].
    + rewrite (bool_decide_true (Some 1 = Some 1)) by done. simpl. destruct (Z.eqb_spec w' w) as [->|Hne].
      * destruct (Hpi eq_refl) as [Ht Hcas]. unfold explains. rewrite holder_store, Z.eqb_refl. unfold holder. rewrite E.
        unfold is_tid in Ht. destruct Hcas as [[-> ->]|[-> ->]]; simpl.
        -- split; [done|]. by apply tid_self.
        -- destruct (Z.eqb_spec t 0); [lia|]. split; [|done]. by apply tid_self.
      * simpl. rewrite holder_store. destruct (Z.eqb_spec w w'); [congruence|done].
    + by rewrite bool_decide_false.
  - destruct (futex_shared_register _ _ _ _ _); [|done]. by intros [= <- _].
  - destruct (futex_shared_unmap _ _ _); [|done]. by intros [= <- _].
  - by intros [= <- _].
Qed.

Lemma pi_run_owner w es : forall s s' l, Forall (pi_event w) es -> run_events es s = Some (s', l) ->
  owner_after (holder w s) (told_all w es s) = Some (holder w s').
Proof.
  induction es as [|e es IH]; intros s s' l Hpi; simpl; [by intros [= <- _]|].
  inversion_clear Hpi as [|? ? He Hes].
  destruct (futex_step e s) as [[s1 a]|] eqn:E; [|done]. simpl.
  destruct (run_events es s1) as [[s2 l2]|] eqn:E2; [|done]. intros [= <- _].
  pose proof (pi_step_explains w e s s1 a He E) as Hx. specialize (IH s1 s2 l2 Hes E2).
  destruct (told w e s a) as [[t|t]|]; simpl in *.
  - destruct Hx as [-> Ht]. by rewrite Z.eqb_refl, <- Ht.
  - destruct Hx as [-> H0]. by rewrite Z.eqb_refl, <- H0.
  - by rewrite <- Hx.
Qed.
