(* ===== verification/FutexTheorems.v ===== *)
(** * Futexes: theorems

    The invariant of the buckets, what a wake selects and that it is not lost,
    mutual exclusion of PI mutexes, the keys of shared words, and four runs in
    which the code does not do what it means to. *)

From stdpp Require Import gmap.
From S2P Require Import Prelude Carve Status Futex FutexBuckets FutexSystem FutexSteps FutexWakes FutexPi.

(** C29: After any legal events the buckets agree with the sleeping threads: a
    waiter slot in use belongs to exactly one sleeper and carries its address
    and bitset, [waiters] is the number of sleepers, the tally counts them per
    address unless the bucket has overflowed, and it never counts more than
    there are. Legal is: no mapping change that changes the key of a thread
    asleep in that process ([unmapped_wait_leaves_phantom] is what it does to
    the tally), no null key, 32-bit bitsets, fewer than 2^31 threads in calls,
    and a fork of a fresh child whose parent, if it is taken for
    single-threaded, has no sleeper. *)
Theorem futex_invariant memory s : futex_reaches (initial_sys memory) s ->
  forall k, bucket_ok (buckets s k) (asleep s k).
Proof. intros Hr. apply (reaches_ok (initial_sys memory) s); [apply initial_ok|done]. Qed.

(** A call of thread [t] of process 7 on word 1 at host address 4096. *)
Definition sample_call (op val : Z) (timed : bool) : futex_call :=
  mk_futex_call 7 (Some 1) 4096 op false val timed 0 None 0 0.
Definition sample_memory : Z -> Z := fun _ => 5.

Lemma sample_legal op val timed s t i : room s -> legal_event (Call t (sample_call op val timed) i) s.
Proof. intros Hr. simpl. repeat split; try done. Qed.

Definition sample_waiting : sys :=
  match run_events [Call 1 (sample_call 0 5 false) false; Call 2 (sample_call 0 5 true) false] (initial_sys sample_memory) with
  | Some (s, _) => s
  | None => initial_sys sample_memory
  end.

Lemma sample_waiting_reached : futex_reaches (initial_sys sample_memory) sample_waiting.
Proof.
  eapply (ReachStep _ _ (Call 2 (sample_call 0 5 true) false)).
  - eapply (ReachStep _ _ (Call 1 (sample_call 0 5 false) false)); [apply ReachStart|by apply sample_legal|reflexivity].
  - by apply sample_legal.
  - reflexivity.
Qed.

Lemma futex_invariant_witness :
  bucket_ok (buckets sample_waiting (SharedTable, 0)) (asleep sample_waiting (SharedTable, 0)) /\
  waiters (buckets sample_waiting (SharedTable, fbk_index 4096)) = 2.
Proof.
  split; [|vm_compute; reflexivity]. apply (futex_invariant sample_memory). apply sample_waiting_reached.
Defined.




(** C18: No wakeup is lost by a thread that has a slot. After a [FUTEX_WAKE] of
    everybody, made once the word has another value than [v], then for as long
    as the word does not get the value [v] back, every thread that holds a slot
    and waits for [v] on that key has been selected, also those that arrive
    later; and if a selected thread resumes with neither an interruption nor
    its time up it answers 0 (with either it may answer that instead,
    [grant_lost_to_timeout]). The events before are legal ([legal_event]). *)
Theorem futex_no_lost_wake memory s t c i s1 a w v s2 :
  futex_reaches (initial_sys memory) s -> c_op c = 1 -> c_val c = INT_MAX -> legal_event (Call t c i) s ->
  futex_step (Call t c i) s = Some (s1, a) -> runs_without w v s1 s2 ->
  let tb := if c_private c then PrivateTable (c_pid c) else SharedTable in
  forall u p slot, asleep s2 (fbk_of s (c_pid c) tb (c_key c)) !! u = Some p -> p_address p = key_of s (c_pid c) (c_key c) ->
    p_kind p = KWait w v slot -> 0 <= slot ->
    granted s2 u /\ exists s3, futex_step (Resume u false false false) s2 = Some (s3, Some 0).
Proof.
  intros Hreach Hop Hval Hl Hst Hrun tb u p slot Hu Ha Hp Hs. pose proof (reaches_ok _ _ (initial_ok memory) Hreach) as Hok.
  assert (Hall : all_granted (fbk_of s (c_pid c) tb (c_key c)) (key_of s (c_pid c) (c_key c)) w v s1).
  { pose proof Hl as (Hkey & _ & _ & Hr). simpl in Hst. unfold when_idle in Hst. destruct (threads s !! t); [done|].
    unfold futex_op in Hst. fold tb in Hst. rewrite Hop, Hval in Hst. simpl in Hst.
    destruct (wake_bucket _ _ _ _ _ _ _) as [[s' woke]|] eqn:E; [|done]. simpl in Hst. injection Hst as <- _.
    by eapply wake_all_granted. }
  pose proof (futex_step_ok _ _ _ _ Hok Hl Hst) as Hok1.
  destruct (all_granted_runs _ _ w v s1 s2 Hok1 Hrun Hall) as [_ Hall2].
  assert (Hg : granted s2 u) by (by eapply Hall2). split; [done|]. by apply granted_answers.
Qed.

(** Two threads wait for 5, the word becomes 6 and everybody is woken. *)
Definition after (es : list futex_event) (s : sys) : sys := match run_events es s with Some (s', _) => s' | None => s end.

Definition sample_stored : sys := after [Store 1 6] sample_waiting.
Definition sample_woken : sys := after [Call 3 (sample_call 1 INT_MAX false) false] sample_stored.

Lemma futex_no_lost_wake_witness :
  exists s3 s4, futex_step (Resume 1 false false false) sample_woken = Some (s3, Some 0) /\
    futex_step (Resume 2 false false false) sample_woken = Some (s4, Some 0).
Proof.
  assert (Hreach : futex_reaches (initial_sys sample_memory) sample_stored).
  { eapply (ReachStep _ _ (Store 1 6)); [apply sample_waiting_reached|done|reflexivity]. }
  assert (Hl : legal_event (Call 3 (sample_call 1 INT_MAX false) false) sample_stored) by (by apply sample_legal).
  destruct (futex_step (Call 3 (sample_call 1 INT_MAX false) false) sample_stored) as [[s1 a]|] eqn:Hst; [|vm_compute in Hst; discriminate].
  assert (Hs1 : sample_woken = s1) by (unfold sample_woken, after; cbn [run_events]; by rewrite Hst).
  assert (Hw : words s1 1 <> 5).
  { rewrite <- Hs1. vm_compute. discriminate. }
  pose proof (fun u p slot => futex_no_lost_wake sample_memory sample_stored 3 (sample_call 1 INT_MAX false) false s1 a 1 5 s1
                Hreach eq_refl eq_refl Hl Hst (RunHere 1 5 s1 Hw) u p slot) as H.
  rewrite <- Hs1 in *.
  destruct (H 1 (mk_parked 7 (SharedTable, 0) 4096 4096 ALL_BITS false (KWait 1 5 0)) 0) as [_ [s3 H3]];
    [vm_compute; reflexivity|vm_compute; reflexivity|done|done|].
  destruct (H 2 (mk_parked 7 (SharedTable, 0) 4096 4096 ALL_BITS true (KWait 1 5 1)) 1) as [_ [s4 H4]];
    [vm_compute; reflexivity|vm_compute; reflexivity|done|done|].
  exists s3, s4. split; [exact H3|exact H4].
Defined.

(** C20: PI mutexes exclude.  In any run in which the guest uses a word as a PI
    mutex, and from any state, the threads that are told they hold it and those
    that give it up alternate: a thread is told that it holds the mutex only
    when nobody holds it, only the holder gives it up, and the word names the
    holder, through waiting, timeouts, interruptions and deaths of owners. *)
Theorem pi_mutual_exclusion w es s s' answers :
  Forall (pi_event w) es -> run_events es s = Some (s', answers) ->
  owner_after (holder w s) (told_all w es s) = Some (holder w s').
Proof. apply pi_run_owner. Qed.

Definition free_memory : Z -> Z := fun _ => 0.
Definition pi_call (op : Z) (timed : bool) : futex_call := mk_futex_call 7 (Some 1) 4096 op false 0 timed 0 None 0 0.

(** Thread 11 locks in user space, 12 queues, 11 unlocks through the kernel,
    12 takes the mutex, 13 gives up trying, 12 unlocks, 13 dies as its holder. *)
Definition pi_demo : list futex_event :=
  [CompareExchange 11 1 0 11; Call 12 (pi_call 6 false) false; Call 11 (pi_call 7 false) false; Resume 12 false false false;
   Call 13 (pi_call 8 false) false; Call 12 (pi_call 7 false) false; Call 13 (pi_call 13 false) false; OwnerDeath 13 7 (Some 1) 4096].

Lemma pi_mutual_exclusion_witness :
  told_all 1 pi_demo (initial_sys free_memory) =
    [Acquired 11; Released 11; Acquired 12; Released 12; Acquired 13; Released 13] /\
  exists s', owner_after 0 (told_all 1 pi_demo (initial_sys free_memory)) = Some (holder 1 s').
Proof.
  split; [vm_compute; reflexivity|].
  destruct (run_events pi_demo (initial_sys free_memory)) as [[s' l]|] eqn:Hrun; [|vm_compute in Hrun; discriminate].
  exists s'. apply (pi_mutual_exclusion 1 pi_demo (initial_sys free_memory) s' l); [|exact Hrun].
  unfold pi_demo, is_tid. repeat constructor; simpl; try lia; discriminate.
Defined.

(** ** Keys *)

(** What a process has mapped and released, as the handlers of [mmap] and
    [munmap] tell the registry, and the position in a shared file each address
    then has.  A mapping may be longer than what was asked for, by its guard. *)
Inductive mapping_history : list shared_range -> (Z -> option position) -> Prop :=
| HistoryEmpty : mapping_history [] (fun _ => None)
| HistoryShared l f fixed base len mapped dev ino foff l' :
    mapping_history l f -> 0 < len <= mapped -> 0 <= base -> base + mapped <= 2 ^ 63 -> 0 <= foff -> foff + len <= 2 ^ 64 ->
    lengthZ l < FSHKEY_MAX - 1 -> (fixed = false -> forall va, base <= va < base + len -> f va = None) ->
    mmap_shared_keys fixed base len mapped (Some (Some (dev, ino), foff)) l = Some l' ->
    mapping_history l' (fun va => if in_interval base (base + len) va then Some (dev, ino, foff + (va - base))
                                  else if fixed && in_interval base (base + mapped) va then None else f va)
| HistoryOther l f fixed base len mapped l' :
    mapping_history l f -> 0 < len <= mapped -> 0 <= base -> base + mapped <= 2 ^ 63 -> lengthZ l < FSHKEY_MAX - 1 ->
    mmap_shared_keys fixed base len mapped None l = Some l' ->
    mapping_history l' (fun va => if fixed && in_interval base (base + mapped) va then None else f va)
| HistoryUnmap l f ustart uend l' :
    mapping_history l f -> ustart < uend -> lengthZ l < FSHKEY_MAX - 1 -> futex_shared_unmap ustart uend l = Some l' ->
    mapping_history l' (fun va => if in_interval ustart uend va then None else f va).

Lemma history_at l f : mapping_history l f -> registry_ok l /\ forall va, shared_at l va = f va.
Proof.
  induction 1 as [|l f fixed base len mapped dev ino foff l' _ [Hok Hat] Hlen Hb Ht Hf He Hmax Hfree Hrun
    |l f fixed base len mapped l' _ [Hok Hat] Hlen Hb Ht Hmax Hrun|l f us ue l' _ [Hok Hat] Hu Hmax Hrun].
  - split; [|done]. split; [constructor|done].
  - destruct (mmap_keys_spec fixed base len mapped dev ino foff l) as (l1 & Hrun1 & Hok1 & Hat1); try done.
    { intros Hx va Hva. rewrite Hat. by apply Hfree. }
    assert (l1 = l') as -> by congruence. split; [done|]. intros va. by rewrite Hat1, Hat.
  - destruct (forget_replaced_spec fixed base mapped l) as (l1 & Hrun1 & Hok1 & _ & Hat1); [lia|done|done|done|lia|].
    unfold mmap_shared_keys in Hrun. rewrite Hrun1 in Hrun. injection Hrun as <-. split; [done|].
    intros va. by rewrite Hat1, Hat.
  - destruct (shared_unmap_spec us ue l) as (l1 & Hrun1 & Hok1 & _ & Hat1); [done|done|lia|].
    assert (l1 = l') as -> by congruence. split; [done|]. intros va. by rewrite Hat1, Hat.
Qed.

(** C30: A key follows the mappings. Whatever two processes have mapped - fixed
    over anything there was, or placed by the host where no shared file is
    mapped - and released, parts of mappings too, with fewer than 4095 ranges
    before each step: a word in a live shared file mapping is keyed by its file
    position, so any two addresses of one file position agree, in one process
    or in both, every other address is its own key, and the key of a private
    futex is never taken for a shared one. *)
Theorem futex_keys_follow_mappings l1 f1 l2 f2 : mapping_history l1 f1 -> mapping_history l2 f2 ->
  (forall va, futex_key l1 va = match f1 va with Some p => key_of_position p | None => va end) /\
  (forall va1 va2 p, f1 va1 = Some p -> f2 va2 = Some p -> futex_key l1 va1 = futex_key l2 va2) /\
  (forall va, 0 <= va < 2 ^ 63 -> futex_key l1 (private_key va) = private_key va).
Proof.
  intros [Hok1 H1]%history_at [_ H2]%history_at. split; [|split].
  - intros va. by rewrite futex_key_at, H1.
  - intros va1 va2 p E1 E2. by rewrite !futex_key_at, H1, H2, E1, E2.
  - intros va Hva. rewrite futex_key_at. assert (Hp : 2 ^ 63 <= private_key va).
    { unfold private_key, private_tag. rewrite Z.lxor_comm, <- Z.add_nocarry_lxor; [lia|].
      apply Z.bits_inj'. intros n Hn. rewrite Z.land_spec, Z.bits_0. destruct (decide (n = 63)) as [->|Hne].
      - rewrite <- (Z.mod_small va (2 ^ 63)) by done. by rewrite Z.mod_pow2_bits_high.
      - by rewrite Z.pow2_bits_false. }
    replace (shared_at l1 (private_key va)) with (@None position); [done|]. symmetry. apply shared_at_None.
    intros r Hin. destruct Hok1 as [Hr _]. pose proof (proj1 (List.Forall_forall _ _) Hr r Hin) as (_ & Htop & _).
    unfold spans_va. lia.
Qed.

(** One process maps a file at 4096, and fixed over the end of that, with a
    guard, another file; another process maps the first file's second page. *)
Definition history_a : option (list shared_range) :=
  l ← mmap_shared_keys false 4096 12288 12288 (Some (Some (3, 77), 0)) [];
  mmap_shared_keys true 12288 4096 8192 (Some (Some (3, 78), 0)) l.
Definition history_b : option (list shared_range) := mmap_shared_keys false 65536 4096 4096 (Some (Some (3, 77), 4096)) [].

Lemma futex_keys_follow_mappings_witness :
  exists l1 l2, history_a = Some l1 /\ history_b = Some l2 /\ futex_key l1 8200 = futex_key l2 65544 /\
    futex_key l1 12296 = key_of_position (3, 78, 8) /\ futex_key l1 16392 = 16392.
Proof.
  destruct (mmap_shared_keys false 4096 12288 12288 (Some (Some (3, 77), 0)) []) as [l0|] eqn:E0; [|vm_compute in E0; discriminate].
  destruct (mmap_shared_keys true 12288 4096 8192 (Some (Some (3, 78), 0)) l0) as [l1|] eqn:E1;
    [|vm_compute in E0; injection E0 as <-; vm_compute in E1; discriminate].
  destruct (mmap_shared_keys false 65536 4096 4096 (Some (Some (3, 77), 4096)) []) as [l2|] eqn:E2; [|vm_compute in E2; discriminate].
  exists l1, l2. unfold history_a, history_b. rewrite E0. cbn [mbind option_bind]. split; [exact E1|]. split; [exact E2|].
  assert (Hl0 : lengthZ l0 < FSHKEY_MAX - 1) by (vm_compute in E0; injection E0 as <-; vm_compute; reflexivity).
  assert (H0 : mapping_history l0 (fun va => if in_interval 4096 (4096 + 12288) va then Some (3, 77, 0 + (va - 4096))
                                             else if false && in_interval 4096 (4096 + 12288) va then None else None)).
  { refine (HistoryShared _ _ _ _ _ _ _ _ _ _ HistoryEmpty _ _ _ _ _ _ _ E0); try lia; [vm_compute; reflexivity|done]. }
  destruct (futex_keys_follow_mappings l1
      (fun va => if in_interval 12288 (12288 + 4096) va then Some (3, 78, 0 + (va - 12288))
         else if true && in_interval 12288 (12288 + 8192) va then None
         else if in_interval 4096 (4096 + 12288) va then Some (3, 77, 0 + (va - 4096))
         else if false && in_interval 4096 (4096 + 12288) va then None else None)
      l2 (fun va => if in_interval 65536 (65536 + 4096) va then Some (3, 77, 4096 + (va - 65536))
         else if false && in_interval 65536 (65536 + 4096) va then None else None)) as (Hkey & Hagree & _).
  - refine (HistoryShared _ _ _ _ _ _ _ _ _ _ H0 _ _ _ _ _ Hl0 _ E1); (lia || discriminate).
  - refine (HistoryShared _ _ _ _ _ _ _ _ _ _ HistoryEmpty _ _ _ _ _ _ _ E2); try lia; [vm_compute; reflexivity|done].
  - split; [by apply (Hagree 8200 65544 (3, 77, 4104))|]. split; by rewrite Hkey.
Defined.

(** ** Runs that go wrong *)

(** The sleepers of the demo bucket: thread and whether it was selected. *)
Definition sleepers (s : sys) : list (Z * bool) :=
  (fun '(t, st) => (t, match st with
                       | Parked p => match slot_of p with Some i => granted_at (buckets s (p_bid p)) i | None => false end
                       | _ => false
                       end)) <$> map_to_list (threads s).

(** A wake is swallowed.  Two threads wait, a wake of one selects the first
    and answers 1; the first finds its time up and answers -ETIMEDOUT, the
    second sleeps on, and nobody was woken by the wake that counted one. *)
Theorem grant_lost_to_timeout :
  exists s, run_events [Call 1 (sample_call 0 5 true) false; Call 2 (sample_call 0 5 false) false;
                        Call 3 (sample_call 1 1 false) false; Resume 1 false true false; Resume 2 false false false]
              (initial_sys sample_memory) = Some (s, [None; None; Some 1; Some (- HL_LINUX_ETIMEDOUT); None]) /\
    sleepers s = [(2, false)].
Proof.
  set (es := [_; _; _; _; _]).
  assert (H : (fun x => (sleepers x.1, x.2)) <$> run_events es (initial_sys sample_memory) =
              Some ([(2, false)], [None; None; Some 1; Some (- HL_LINUX_ETIMEDOUT); None])) by (vm_compute; reflexivity).
  destruct (run_events es (initial_sys sample_memory)) as [[s l]|]; [|done]. injection H as Hs Hl. exists s. split; [|done].
  by rewrite Hl.
Qed.

(** A free PI mutex on which everybody sleeps.  11 holds it, 12 queues, 11
    unlocks and broadcasts, 13 arrives and queues behind 12, 12 is interrupted
    and answers -EINTR, and when it tries again it queues behind 13: the word
    names no owner, both sleep without a deadline, and nothing was broadcast
    since they went to sleep; the next to arrive queues as well. *)
Theorem pi_mutex_deadlock :
  exists s, run_events [CompareExchange 11 1 0 11; Call 12 (pi_call 6 false) false; Call 11 (pi_call 7 false) false;
                        Call 13 (pi_call 6 false) false; Resume 12 true false false; Call 12 (pi_call 6 false) false;
                        Call 14 (pi_call 6 false) false]
              (initial_sys free_memory) = Some (s, [Some 1; None; Some 0; None; Some (- HL_LINUX_EINTR); None; None]) /\
    holder 1 s = 0 /\ words s 1 = HL_FUTEX_WAITERS /\ (sleepers s).*1 = [13; 14; 12].
Proof.
  set (es := [_; _; _; _; _; _; _]).
  assert (H : (fun x => (holder 1 x.1, words x.1 1, (sleepers x.1).*1, x.2)) <$> run_events es (initial_sys free_memory) =
              Some (0, HL_FUTEX_WAITERS, [13; 14; 12], [Some 1; None; Some 0; None; Some (- HL_LINUX_EINTR); None; None]))
    by (vm_compute; reflexivity).
  destruct (run_events es (initial_sys free_memory)) as [[s l]|]; [|done]. injection H as H1 H2 H3 Hl. exists s. by rewrite Hl.
Qed.

(** A private wait on the word at 4096 and the exit of the thread it waits for. *)
Definition private_join : futex_call := mk_futex_call 7 (Some 1) (private_key 4096) 0 true 5 false 0 None 0 0.

(** The wake of an exiting thread never selects a private waiter, although
    it notifies the private table: the waiter sleeps under the tagged key, in
    the same bucket, and the wake grants the plain address. *)
Theorem clear_tid_misses_private :
  fbk_index (private_key 4096) = fbk_index 4096 /\
  exists s, run_events [Call 1 private_join false; ClearTid 2 7 (Some 1) 4096; Resume 2 false false false;
                        Resume 2 false false false; Resume 1 false false false]
              (initial_sys sample_memory) = Some (s, [None; None; None; Some 0; None]) /\
    words s 1 = 0 /\ sleepers s = [(1, false)].
Proof.
  split; [vm_compute; reflexivity|]. set (es := [_; _; _; _; _]).
  assert (H : (fun x => (words x.1 1, sleepers x.1, x.2)) <$> run_events es (initial_sys sample_memory) =
              Some (0, [(1, false)], [None; None; None; Some 0; None])) by (vm_compute; reflexivity).
  destruct (run_events es (initial_sys sample_memory)) as [[s l]|]; [|done]. injection H as H1 H2 Hl. exists s. by rewrite Hl.
Qed.

(** The address a thread leaves is computed again.  A thread waits on a
    word of a shared file mapping, another unmaps the file, the first leaves:
    nobody sleeps, and the file position still counts one parked thread, so a
    wake through another mapping answers 1. *)
Theorem unmapped_wait_leaves_phantom :
  exists s, run_events [MapShared 7 4096 4096 (Some (3, 77)) 0; MapShared 8 65536 4096 (Some (3, 77)) 0;
                        Call 1 (sample_call 0 5 false) false; UnmapShared 7 4096 8192; Resume 1 true false false;
                        Call 2 (mk_futex_call 8 (Some 1) 65536 1 false 1 false 0 None 0 0) false]
              (initial_sys sample_memory) = Some (s, [None; None; None; None; Some (- HL_LINUX_EINTR); Some 1]) /\ threads s = ∅.
Proof.
  set (es := [_; _; _; _; _; _]).
  assert (H : (fun x => (map_to_list (threads x.1), x.2)) <$> run_events es (initial_sys sample_memory) =
              Some ([], [None; None; None; None; Some (- HL_LINUX_EINTR); Some 1])) by (vm_compute; reflexivity).
  destruct (run_events es (initial_sys sample_memory)) as [[s l]|]; [|done]. injection H as H1 Hl. exists s. split; [by rewrite Hl|].
  by apply map_to_list_empty_iff in H1.
Qed.

(** [FUTEX_OP_ADD] of the 12-bit operand -1 adds 4095, and a comparison with
    -1 compares with 4095. *)
Example wake_op_zero_extends :
  (fun x => (words x.1.1 1, x.1.2, x.2)) (futex_wake_op_apply (Some 1) 0x10ffffff (initial_sys (fun _ => UINT32_MAX))) = (4094, 0, false).
Proof. vm_compute. reflexivity. Qed.

(** [FUTEX_CMP_REQUEUE] does not compare: the word is 5, the call expects 9. *)
Example cmp_requeue_ignores_val3 :
  snd <$> futex_step (Call 3 (mk_futex_call 7 (Some 1) 4096 4 false 1 false 1 (Some 2) 8192 9) false) sample_waiting = Some (Some 1).
Proof. vm_compute. reflexivity. Qed.
