(* ===== verification/MemoryCalls.v ===== *)
(** * The memory system calls

    The handlers of [syscall/memory/] on a Linux or other POSIX host: [brk] and
    [munmap] (mapping.c), [mprotect], [msync], [mlock] and [munlock]
    (protection.c), [madvise] (advice.c), and [mlock2], [mlockall] and
    [munlockall] (rare.c), over every registry that knows of a mapping.

    A handler is one step: the transition lock and the stopped world it takes
    order it among the others.  The host's calls are parameters with what they
    do to the pages; [None] is an abort, or a loop out of its rounds. *)

From stdpp Require Import gmap.
From S2P Require Import Prelude Status VmaLedger VmaReaders RangeLedger GuestRanges BusLedger GuestAccess GuestCopy.
From S2P Require Import Carve GuestMaps MemoryRegistries Futex.

Definition GUEST_PAGE : Z := 4096.
Definition PROT_READ : Z := 1.
Definition PROT_WRITE : Z := 2.
Definition PROT_EXEC : Z := 4.
Definition EINVAL : Z := 22.

(** ** State *)

(** [guest] holds the logical ledger, the protection registries, the past-EOF
    ledger and which pages the host maps. *)
Record memory_state := mk_memory_state {
  guest : guest_space;
  gmap : hl_gmap_context;
  anonmap : list anon_mapping;
  wipefork : list fork_range;
  dontfork : list fork_range;
  filemap : list guest_file_mapping;
  closed_fds : list Z;
  shared_keys : list shared_range;
  mem_max : Z;
  mem_charged : Z;
  brk_lo : Z;
  brk_cur : Z;
  brk_hi : Z;
  soft_active : bool;               (** [jit_guest_soft_active()] *)
  exec_bytes_unstable : bool;
  authority_disabled : bool;        (** [hl_guest_fetch_authority_disable()] was called *)
  rwx_guest : bool;
  smc_unmapped : list (Z * Z);      (** ranges given to [G_SMC_UNMAP] *)
  refreshed : list (Z * Z)          (** ranges given to [filemap_refresh_emulated] *)
}.

(** The host: a page operation answers an error or the pages mapped afterwards. *)
Record memory_host := mk_memory_host {
  mh_gmap : gmap_host;
  mh_munmap : Z -> Z -> (Z -> bool) -> option (Z -> bool);
  mh_mprotect : Z -> Z -> Z -> (Z -> bool) -> Z + (Z -> bool);
  mh_mlock : Z -> Z -> Z;           (** 0 or an error number *)
  mh_munlock : Z -> Z -> Z;
  mh_map_zero : Z -> Z -> Z -> bool;    (** [mmap] with [MAP_FIXED|MAP_ANON|MAP_PRIVATE] *)
  mh_remove : Z -> Z -> Z;          (** [madvise] with [MADV_REMOVE] *)
  mh_soft_activate : bool;          (** [jit_guest_soft_activate()] *)
  mh_calloc : bool;
  mh_mutex : bool;
  mh_vma : host_answers;
  mh_growable : bool;               (** [G_BRK_GROWABLE] *)
  mh_coalesce : bool
}.

Definition set_guest (g : guest_space) (S : memory_state) : memory_state :=
  mk_memory_state g (gmap S) (anonmap S) (wipefork S) (dontfork S) (filemap S) (closed_fds S) (shared_keys S) (mem_max S)
    (mem_charged S) (brk_lo S) (brk_cur S) (brk_hi S) (soft_active S) (exec_bytes_unstable S) (authority_disabled S)
    (rwx_guest S) (smc_unmapped S) (refreshed S).
Definition set_registries_of (G : hl_gmap_context) (a : list anon_mapping) (w d : list fork_range) (f : list guest_file_mapping)
    (c : list Z) (k : list shared_range) (S : memory_state) : memory_state :=
  mk_memory_state (guest S) G a w d f c k (mem_max S) (mem_charged S) (brk_lo S) (brk_cur S) (brk_hi S) (soft_active S)
    (exec_bytes_unstable S) (authority_disabled S) (rwx_guest S) (smc_unmapped S) (refreshed S).
Definition set_charge (charged cur : Z) (S : memory_state) : memory_state :=
  mk_memory_state (guest S) (gmap S) (anonmap S) (wipefork S) (dontfork S) (filemap S) (closed_fds S) (shared_keys S)
    (mem_max S) charged (brk_lo S) cur (brk_hi S) (soft_active S) (exec_bytes_unstable S) (authority_disabled S)
    (rwx_guest S) (smc_unmapped S) (refreshed S).
Definition set_latches (soft unstable disabled rwx : bool) (S : memory_state) : memory_state :=
  mk_memory_state (guest S) (gmap S) (anonmap S) (wipefork S) (dontfork S) (filemap S) (closed_fds S) (shared_keys S)
    (mem_max S) (mem_charged S) (brk_lo S) (brk_cur S) (brk_hi S) soft unstable disabled rwx (smc_unmapped S) (refreshed S).
Definition set_traces (smc refresh : list (Z * Z)) (S : memory_state) : memory_state :=
  mk_memory_state (guest S) (gmap S) (anonmap S) (wipefork S) (dontfork S) (filemap S) (closed_fds S) (shared_keys S)
    (mem_max S) (mem_charged S) (brk_lo S) (brk_cur S) (brk_hi S) (soft_active S) (exec_bytes_unstable S)
    (authority_disabled S) (rwx_guest S) smc refresh.

Definition set_gmap (G : hl_gmap_context) (S : memory_state) : memory_state :=
  set_registries_of G (anonmap S) (wipefork S) (dontfork S) (filemap S) (closed_fds S) (shared_keys S) S.
Definition set_anon (a : list anon_mapping) (S : memory_state) : memory_state :=
  set_registries_of (gmap S) a (wipefork S) (dontfork S) (filemap S) (closed_fds S) (shared_keys S) S.
Definition set_forks (w d : list fork_range) (S : memory_state) : memory_state :=
  set_registries_of (gmap S) (anonmap S) w d (filemap S) (closed_fds S) (shared_keys S) S.
Definition set_soft (S : memory_state) : memory_state :=
  set_latches true (exec_bytes_unstable S) (authority_disabled S) (rwx_guest S) S.
Definition smc_unmap (first last : Z) (S : memory_state) : memory_state :=
  set_traces (smc_unmapped S ++ [(first, last)]) (refreshed S) S.
Definition refresh (first last : Z) (S : memory_state) : memory_state :=
  set_traces (smc_unmapped S) (refreshed S ++ [(first, last)]) S.

Definition set_protections (R : registries) (g : guest_space) : guest_space :=
  mk_space (store g) (ledger g) (host_memory g) R (caches g) (bus g) (mmu g) (page_cache g) (realloc_ok g) (translated g).
Definition set_bus (B : bus_ledger) (g : guest_space) : guest_space :=
  mk_space (store g) (ledger g) (host_memory g) (protection_of g) (caches g) B (mmu g) (page_cache g) (realloc_ok g) (translated g).
Definition set_mmu (m : Z -> bool) (g : guest_space) : guest_space :=
  mk_space (store g) (ledger g) (host_memory g) (protection_of g) (caches g) (bus g) m (page_cache g) (realloc_ok g) (translated g).
Definition set_ledger (h : vma_store) (L : hl_logical_vma_ledger) (g : guest_space) : guest_space :=
  mk_space h L (host_memory g) (protection_of g) (caches g) (bus g) (mmu g) (page_cache g) (realloc_ok g) (translated g).

(** ** brk *)

Definition brk (H : memory_host) (a0 : Z) (S : memory_state) : Z * memory_state :=
  if negb (mh_growable H) then (brk_lo S, S)
  else if a0 =? 0 then (brk_cur S, S)
  else if (brk_lo S <=? a0) && (a0 <=? brk_hi S) then
    if negb (mem_max S =? 0) && (brk_cur S <? a0) then
      let delta := a0 - brk_cur S in
      let charged := u64 (mem_charged S + delta) in
      if mem_max S <? charged then (brk_cur S, set_charge (u64 (charged - delta)) (brk_cur S) S)
      else (a0, set_charge charged a0 S)
    else if negb (mem_max S =? 0) && (a0 <? brk_cur S) then
      let delta := brk_cur S - a0 in
      let cur := mem_charged S in
      (a0, set_charge (cur - (if cur <? delta then cur else delta)) a0 S)
    else (a0, set_charge (mem_charged S) a0 S)
  else (brk_cur S, S).

(** ** munmap *)

(** The protection registries, each under its own writer. *)
Definition gna_change (f : registries -> option registries) (S : memory_state) : option memory_state :=
  R ← f (protection_of (guest S)); Some (set_guest (set_protections R (guest S)) S).
Definition gbus_change (f : bus_ledger -> option bus_ledger) (S : memory_state) : option memory_state :=
  B ← f (bus (guest S)); Some (set_guest (set_bus B (guest S)) S).

(** The registries that know of mappings forget an interval. *)
Definition retire_range (H : memory_host) (lo hi : Z) (S : memory_state) : option memory_state :=
  G ← hl_gmap_unmap_range (mh_gmap H) lo hi (gmap S);
  a ← anon_split_unmap lo hi (anonmap S);
  '(f, closed) ← filemap_unmap lo hi (filemap S);
  k ← futex_shared_unmap lo hi (shared_keys S);
  w ← wipefork_del lo (hi - lo) (wipefork S);
  d ← dontfork_del lo (hi - lo) (dontfork S);
  G ← hl_gmap_lock_remove lo (hi - lo) G;
  Some (set_registries_of G a w d f (closed_fds S ++ closed) k S).

(** What the host released: the pages mapped afterwards and the interval;
    [None] is a refused [munmap]. *)
Definition host_release (H : memory_host) (a0 a1 : Z) (S : memory_state) : option ((Z -> bool) * Z * Z) :=
  let hp := host_granularity (mh_gmap H) in
  let m := mmu (guest S) in
  let full := hl_gmap_find_length a0 (gmap S) in
  let guest_length := hl_gmap_find_guest_length a0 (gmap S) in
  let physical := hl_gmap_find_physical a0 (gmap S) in
  let complete :=
    negb (full =? 0) && (guest_length =? a1) &&
    (negb (has_flag a0 (hp - 1)) || match physical with Some (pa, _) => negb (pa =? a0) | None => false end) in
  if complete then
    let '(pa, pl) := default (a0, full) physical in
    m ← mh_munmap H pa pl m; Some (m, a0, u64 (a0 + full))
  else
    let lo := Z.land (u64 (a0 + hp - 1)) (UINT64_MAX - (hp - 1)) in
    let hi := Z.land (u64 (a0 + a1)) (UINT64_MAX - (hp - 1)) in
    if lo <? hi then m ← mh_munmap H lo (hi - lo) m; Some (m, lo, hi) else Some (m, lo, lo).

Definition uncharge (a1 : Z) (S : memory_state) : memory_state :=
  if mem_max S =? 0 then S
  else
    let cur := mem_charged S in
    set_charge (cur - (if cur <? a1 then cur else a1)) (brk_cur S) S.

(** The answer of [hl_logical_vma_global_unmap] is dropped. *)
Definition logical_unmap (H : memory_host) (a0 a1 : Z) (S : memory_state) : option memory_state :=
  '(_, (h, L)) ← hl_logical_vma_unmap (ha_realloc (mh_vma H)) (ha_malloc (mh_vma H)) a0 a1 (store (guest S)) (ledger (guest S));
  '(h, L) ← hl_logical_vma_reclaim_quiescent h L;
  Some (set_guest (set_ledger h L (guest S)) S).

Definition munmap (H : memory_host) (a0 a1 : Z) (S : memory_state) : option (Z * memory_state) :=
  if (a1 =? 0) || has_flag a0 (GUEST_PAGE - 1) || (u64 (a0 + a1) <? a0) then Some (- EINVAL, S)
  else
    let hp := host_granularity (mh_gmap H) in
    let c := mh_coalesce H in
    let coarse_partial := (GUEST_PAGE <? hp) && (has_flag a0 (hp - 1) || has_flag a1 (hp - 1)) in
    if coarse_partial && negb (soft_active S) && negb (mh_soft_activate H) then Some (- ENOMEM, S)
    else
      let S := if coarse_partial && negb (soft_active S) then set_soft S else S in
      let logical_mapping_prepared :=
        (soft_active S || coarse_partial) && (coarse_partial || hl_logical_vma_global_overlap a0 a1 (ledger (guest S))) in
      let first := page_base a0 in
      let last := page_above (u64 (a0 + a1)) in
      S ← gna_change (gna_clear first last) S;
      S ← gna_change (gro_clear first last) S;
      S ← gna_change (gnx_clear first last) S;
      S ← gbus_change (gbus_clear a0 (u64 (a0 + a1))) S;
      match host_release H a0 a1 S with
      | None => Some (-1, S)
      | Some (m, u_lo, u_hi) =>
          let S := set_guest (set_mmu m (guest S)) S in
          S ← (if u_lo <? u_hi then
                 S ← retire_range H u_lo u_hi S;
                 let first := if coarse_partial then a0 else u_lo in
                 let last := if coarse_partial then u64 (a0 + a1) else u_hi in
                 S ← gna_change (gna_add c first last) S;
                 gna_change (gnx_add c first last) S
               else if coarse_partial then
                 S ← gna_change (gna_add c a0 (u64 (a0 + a1))) S;
                 S ← gna_change (gnx_add c a0 (u64 (a0 + a1))) S;
                 retire_range H a0 (u64 (a0 + a1)) S
               else Some S);
          let S := uncharge a1 S in
          S ← (if logical_mapping_prepared then logical_unmap H a0 a1 S else Some S);
          Some (0, smc_unmap a0 (u64 (a0 + a1)) S)
      end.

(** ** mprotect *)

(** A tracked mapping, or memory the host maps and the guest may load. *)
Definition backed (a len : Z) (S : memory_state) : option (bool * memory_state) :=
  known ← hl_gmap_contains a len (gmap S);
  if known : bool then Some (true, S)
  else '(there, g) ← host_range_mapped a len (guest S); Some (there, set_guest g S).

Inductive staged_change :=
| Staged (prepared : bool) (plan : option hl_logical_vma_ledger) (h : vma_store)
| StageFailed (errno : Z) (h : vma_store).

(** The three spellings of the range, each staged once. *)
Fixpoint stage_protect (H : memory_host) (earlier ranges : list Z) (a1 prot : Z) (prepared : bool)
    (plan : option hl_logical_vma_ledger) (h : vma_store) (L : hl_logical_vma_ledger) : option staged_change :=
  match ranges with
  | [] => Some (Staged prepared plan h)
  | a :: ranges =>
      if existsb (Z.eqb a) earlier || negb (hl_logical_vma_global_overlap a a1 L)
      then stage_protect H (earlier ++ [a]) ranges a1 prot prepared plan h L
      else
        '(errno, plan, h) ← hl_logical_vma_global_prepare_protect (mh_calloc H) (mh_mutex H) (ha_realloc (mh_vma H))
                             (ha_malloc (mh_vma H)) a a1 prot h L plan;
        if errno =? 0 then stage_protect H (earlier ++ [a]) ranges a1 prot true plan h L
        else
          h ← match plan with Some staged => hl_logical_vma_abort_shared h staged | None => Some h end;
          Some (StageFailed errno h)
  end.

(** What [mprotect] asks of the logical ledger before the host. *)
Definition stage_mprotect (H : memory_host) (a0 physical alias a1 prot : Z) (S : memory_state) : option staged_change :=
  let h := store (guest S) in
  let L := ledger (guest S) in
  staged ← stage_protect H [] [a0; physical; alias] a1 prot false None h L;
  match staged with
  | StageFailed _ _ => Some staged
  | Staged prepared plan h =>
      if physical =? a0 then Some staged
      else
        '(errno, plan, h) ← hl_logical_vma_global_prepare_direct (mh_calloc H) (mh_mutex H) (mh_vma H) physical a1 prot physical
                             h L plan;
        if errno =? 0 then Some (Staged true plan h)
        else
          h ← match plan with Some staged => hl_logical_vma_abort_shared h staged | None => Some h end;
          Some (StageFailed errno h)
  end.

Definition set_store_of (h : vma_store) (S : memory_state) : memory_state := set_guest (set_store h (guest S)) S.

(** One registry call over the range and, when it is another, its alias. *)
Definition over_both (f : Z -> Z -> memory_state -> option memory_state) (glo ghi alias_glo alias_ghi : Z) (S : memory_state)
  : option memory_state :=
  S ← f glo ghi S; if alias_glo =? glo then Some S else f alias_glo alias_ghi S.

Definition gna_add_to (H : memory_host) (lo hi : Z) : memory_state -> option memory_state := gna_change (gna_add (mh_coalesce H) lo hi).
Definition gro_add_to (H : memory_host) (lo hi : Z) : memory_state -> option memory_state := gna_change (gro_add (mh_coalesce H) lo hi).
Definition gnx_add_to (H : memory_host) (lo hi : Z) : memory_state -> option memory_state := gna_change (gnx_add (mh_coalesce H) lo hi).
Definition gna_clear_of (lo hi : Z) : memory_state -> option memory_state := gna_change (gna_clear lo hi).
Definition gro_clear_of (lo hi : Z) : memory_state -> option memory_state := gna_change (gro_clear lo hi).
Definition gnx_clear_of (lo hi : Z) : memory_state -> option memory_state := gna_change (gnx_clear lo hi).
Definition park_of (lo hi : Z) : memory_state -> option memory_state := gbus_change (gbus_park lo hi).
Definition unpark_of (lo hi : Z) : memory_state -> option memory_state := gbus_change (gbus_unpark lo hi).

(** The registries after the host agreed. *)
Definition publish_protection (H : memory_host) (prot physical a1 glo ghi alias_glo alias_ghi : Z) (S : memory_state)
  : option memory_state :=
  let both f := over_both f glo ghi alias_glo alias_ghi in
  S ← (if prot =? 0 then S ← both (gna_add_to H) S; both park_of S else both gna_clear_of S);
  S ← (if negb (prot =? 0) && negb (has_flag prot PROT_WRITE)
       then S ← both (gro_add_to H) S; Some (refresh physical (u64 (physical + a1)) S)
       else both gro_clear_of S);
  if has_flag prot PROT_EXEC then both gnx_clear_of S else both (gnx_add_to H) S.

Definition host_protection (prot : Z) : Z :=
  if has_flag prot PROT_EXEC then Z.land (Z.lor prot PROT_READ) (UINT64_MAX - PROT_EXEC) else prot.

Definition commit_plan (plan : option hl_logical_vma_ledger) (S : memory_state) : option memory_state :=
  match plan with
  | None => Some S
  | Some staged =>
      '(h, L) ← hl_logical_vma_commit_shared (store (guest S)) (ledger (guest S)) staged;
      Some (set_guest (set_ledger h L (guest S)) S)
  end.

Definition reclaim_logical (S : memory_state) : option memory_state :=
  '(h, L) ← hl_logical_vma_reclaim_quiescent (store (guest S)) (ledger (guest S));
  Some (set_guest (set_ledger h L (guest S)) S).

(** From the staged ledger on: the host, then the registries. *)
Definition apply_protection (H : memory_host) (a0 physical alias a1 prot : Z) (prepared : bool)
    (plan : option hl_logical_vma_ledger) (S : memory_state) : option (Z * memory_state) :=
  let S := if has_flag prot PROT_WRITE || negb (has_flag prot PROT_EXEC) then smc_unmap physical (u64 (physical + a1)) S else S in
  match mh_mprotect H physical a1 (host_protection prot) (mmu (guest S)) with
  | inl errno =>
      S ← match plan with
          | Some staged => h ← hl_logical_vma_abort_shared (store (guest S)) staged; Some (set_store_of h S)
          | None => Some S
          end;
      S ← (if prepared then reclaim_logical S else Some S);
      Some (- errno, S)
  | inr m =>
      let S := set_guest (set_mmu m (guest S)) S in
      let plo := page_base physical in
      let S := set_anon (anon_update_prot plo (page_above (u64 (physical + a1)) - plo) (host_protection prot) (anonmap S)) S in
      S ← publish_protection H prot physical a1 (page_base a0) (page_above (u64 (a0 + a1))) (page_base alias)
            (page_above (u64 (alias + a1))) S;
      S ← (if prepared then S ← commit_plan plan S; reclaim_logical S else Some S);
      Some (0, if has_flag prot PROT_EXEC
               then set_latches (soft_active S) (exec_bytes_unstable S) (authority_disabled S) true S else S)
  end.

Definition PROT_MASK : Z := 7 + 0x03000000.

Definition mprotect (H : memory_host) (a0 a1 a2 : Z) (S : memory_state) : option (Z * memory_state) :=
  if a1 =? 0 then Some (0, S)
  else
    let physical := fold (image (protection_of (guest S))) a0 in
    if has_flag a0 (GUEST_PAGE - 1) then Some (- EINVAL, S)
    else if has_flag a2 (UINT64_MAX - PROT_MASK) then Some (- EINVAL, S)
    else
      '(there, S) ← backed a0 a1 S;
      '(there, S) ← (if there : bool then Some (true, S)
                     else if physical =? a0 then Some (false, S) else backed physical a1 S);
      if negb there then Some (- ENOMEM, S)
      else
        let S :=
          if has_flag a2 PROT_EXEC
          then set_latches (soft_active S) true (authority_disabled S || has_flag a2 PROT_WRITE) (rwx_guest S) S else S in
        let alias := nonpie_unfold (image (protection_of (guest S))) physical in
        let glo := page_base a0 in
        let ghi := page_above (u64 (a0 + a1)) in
        let alias_glo := page_base alias in
        let alias_ghi := page_above (u64 (alias + a1)) in
        S ← (if negb (a2 =? 0) && (gbus_parked_overlap glo ghi (bus (guest S)) ||
                 negb (alias_glo =? glo) && gbus_parked_overlap alias_glo alias_ghi (bus (guest S))) then
               S ← gbus_change (fun B => Some (gbus_prepare B)) S;
               S ← over_both unpark_of glo ghi alias_glo alias_ghi S;
               gbus_change (fun B => Some (gbus_prepare_release B)) S
             else Some S);
        if soft_active S || negb (physical =? a0) then
          if negb (soft_active S) && negb (mh_soft_activate H) then Some (- ENOMEM, S)
          else
            let S := set_soft S in
            staged ← stage_mprotect H a0 physical alias a1 a2 S;
            match staged with
            | StageFailed errno h => Some (- errno, set_store_of h S)
            | Staged prepared plan h => apply_protection H a0 physical alias a1 a2 prepared plan (set_store_of h S)
            end
        else apply_protection H a0 physical alias a1 a2 false None S.

(** ** msync and the locks *)

Definition msync (a0 a1 a2 : Z) (S : memory_state) : option (Z * memory_state) :=
  if has_flag a2 (UINT32_MAX - 7) || (has_flag a2 1 && has_flag a2 4) then Some (- EINVAL, S)
  else
    '(there, S) ← (if a1 =? 0 then Some (true, S) else backed a0 a1 S);
    if negb there then Some (- ENOMEM, S) else Some (0, refresh a0 (u64 (a0 + a1)) S).

Definition mlock (H : memory_host) (a0 a1 : Z) (S : memory_state) : option (Z * memory_state) :=
  let rl := hl_gmap_lock_limit_range a0 a1 (gmap S) in
  if rl <? 0 then Some (rl, S)
  else
    let errno := if a1 =? 0 then 0 else mh_mlock H a0 a1 in
    if negb (errno =? 0) then Some (- errno, S)
    else G ← hl_gmap_lock_add a0 a1 (gmap S); Some (0, set_gmap G S).

Definition munlock (H : memory_host) (a0 a1 : Z) (S : memory_state) : option (Z * memory_state) :=
  let errno := if a1 =? 0 then 0 else mh_munlock H a0 a1 in
  if negb (errno =? 0) then Some (- errno, S)
  else G ← hl_gmap_lock_remove a0 a1 (gmap S); Some (0, set_gmap G S).

(** The host wires nothing. *)
Definition mlock2 (a0 a1 a2 : Z) (S : memory_state) : option (Z * memory_state) :=
  if has_flag a2 (UINT32_MAX - 1) then Some (- EINVAL, S)
  else
    let rl := hl_gmap_lock_limit_range a0 a1 (gmap S) in
    if rl <? 0 then Some (rl, S)
    else G ← hl_gmap_lock_add a0 a1 (gmap S); Some (0, set_gmap G S).

Definition mlockall (H : memory_host) (a0 : Z) (S : memory_state) : Z * memory_state :=
  let f := u32 a0 in
  if (f =? 0) || has_flag f (UINT32_MAX - 7) || (has_flag f 4 && negb (has_flag f 3)) then (- EINVAL, S)
  else
    let rl := hl_gmap_lock_limit_all (gmap S) in
    if (rl <? 0) && (has_flag f 1 || (rl =? - EPERM)) then (rl, S)
    else
      let G := if has_flag f 1 then snd (hl_gmap_lock_wire_current (mh_gmap H) (gmap S)) else gmap S in
      (0, set_gmap (hl_gmap_lock_all (has_flag f 2) G) S).

Definition munlockall (S : memory_state) : Z * memory_state :=
  (0, set_gmap (hl_gmap_lock_reset (hl_gmap_lock_unwire_all (gmap S))) S).

(** ** madvise *)

Definition MADV_DONTNEED : Z := 4.
Definition MADV_REMOVE : Z := 9.
Definition MADV_DONTFORK : Z := 10.
Definition MADV_DOFORK : Z := 11.
Definition MADV_WIPEONFORK : Z := 18.
Definition MADV_KEEPONFORK : Z := 19.

Definition advice_known (adv : Z) : bool :=
  (0 <=? adv) && (adv <=? 4) || (8 <=? adv) && (adv <=? 23) || (adv =? 25) || (adv =? 100) || (adv =? 101).

(** Zeroes over [first, last): [memset], or fresh pages of the host. *)
Definition zero_memory (first last : Z) (S : memory_state) : memory_state :=
  set_guest (set_memory (write_memory (host_memory (guest S)) first (replicate (Z.to_nat (last - first)) 0)) (guest S)) S.

(** The pages the range covers whole are mapped afresh, the edges are cleared in
    place; [None] leaves the advice to the host. *)
Definition dontneed (H : memory_host) (a0 a1 aprot : Z) (S : memory_state) : option memory_state * memory_state :=
  let hp := host_granularity (mh_gmap H) in
  let hi := u64 (a0 + a1) in
  let ilo := Z.land (u64 (a0 + hp - 1)) (UINT64_MAX - (hp - 1)) in
  let ihi := Z.land hi (UINT64_MAX - (hp - 1)) in
  let interior := ilo <? ihi in
  let done_ := negb interior || mh_map_zero H ilo (ihi - ilo) aprot in
  let S1 := if interior && done_ then zero_memory ilo ihi S else S in
  if done_ && has_flag aprot PROT_WRITE then
    let he := if ilo <? hi then ilo else hi in
    let S2 := if a0 <? he then zero_memory a0 he S1 else S1 in
    let tl := if a0 <? ihi then ihi else a0 in
    (Some (if tl <? hi then zero_memory tl hi S2 else S2), S1)
  else if done_ && interior then (Some S1, S1) else (None, S1).

(** What the host makes of advice forwarded to it is outside the model. *)
Definition madvise (H : memory_host) (a0 a1 adv : Z) (S : memory_state) : option (Z * memory_state) :=
  if negb (advice_known adv) then Some (- EINVAL, S)
  else if has_flag a0 (GUEST_PAGE - 1) then Some (- EINVAL, S)
  else if (adv =? MADV_WIPEONFORK) || (adv =? MADV_KEEPONFORK) then
    if a1 =? 0 then Some (0, S)
    else if anon_prot_if_contained a0 a1 (anonmap S) <? 0 then Some (- EINVAL, S)
    else if adv =? MADV_WIPEONFORK then Some (0, set_forks (wipefork_add a0 a1 (wipefork S)) (dontfork S) S)
    else w ← wipefork_del a0 a1 (wipefork S); Some (0, set_forks w (dontfork S) S)
  else if adv =? MADV_REMOVE then
    if a1 =? 0 then Some (0, S) else Some (- mh_remove H a0 a1, S)
  else
    let aprot := anon_prot_if_contained a0 a1 (anonmap S) in
    let advised :=
      if (adv =? MADV_DONTNEED) && negb (a1 =? 0) && (0 <=? aprot) then dontneed H a0 a1 aprot S else (None, S) in
    match advised with
    | (Some advised, _) => Some (0, advised)
    | (None, T) =>
        if ((adv =? MADV_DONTFORK) || (adv =? MADV_DOFORK)) && negb (a1 =? 0) && (0 <=? aprot) then
          if adv =? MADV_DONTFORK then Some (0, set_forks (wipefork T) (dontfork_add a0 a1 (dontfork T)) T)
          else d ← dontfork_del a0 a1 (dontfork T); Some (0, set_forks (wipefork T) d T)
        else Some (0, T)
    end.

(** ** The child of a fork *)

Definition wipefork_apply_child (S : memory_state) : memory_state :=
  foldl (fun S r => zero_memory (fst r) (fst r + snd r) S) S (wipefork S).

Fixpoint dontfork_apply_loop (H : memory_host) (l : list fork_range) (S : memory_state) : option memory_state :=
  match l with
  | [] => Some S
  | (a, len) :: l =>
      let m := default (mmu (guest S)) (mh_munmap H a len (mmu (guest S))) in
      an ← anon_untrack a len (anonmap S);
      S ← gna_change (gna_add (mh_coalesce H) (page_base a) (page_above (u64 (a + len))))
            (set_anon an (set_guest (set_mmu m (guest S)) S));
      dontfork_apply_loop H l S
  end.

Definition dontfork_apply_child (H : memory_host) (S : memory_state) : option memory_state :=
  dontfork_apply_loop H (dontfork S) S.
