(* ===== verification/MemoryProofs.v ===== *)
(** * What a memory call does to every registry

    The chains of registry calls in the handlers: each keeps its invariant and
    leaves room for the next. *)

From Stdlib Require Import Permutation.
From stdpp Require Import gmap.
From S2P Require Import Prelude Status VmaReaders RangeLedger RangeProofs GuestRanges GuestRangesSteps BusLedger BusSteps GuestCopy.
From S2P Require Import Carve GuestMaps GuestMapsProofs GuestMapsTheorems MemoryRegistries Futex MemoryCalls.

(** ** The protection registries *)

(** [k] more entries fit in every array. *)
Definition room_for (k : Z) (R : registries) : Prop := forall w, lengthZ (ranges (array w R)) + k < GNA_MAX - 1.

Lemma stage_grows (c : bool) first last l : first < last -> ranges_ok l ->
  match (if c then absorb_adjacent first last l else '(l, _, _) ← clear_raw first last l; Some (first, last, l)) : option (Z * Z * list range) with
  | Some (_, _, kept) => lengthZ kept <= lengthZ l + 1
  | None => True
  end.
Proof.
  intros Hlt Hok. destruct c.
  - destruct (absorb_passes_spec (Z.to_nat GNA_MAX) first last l) as (f & b & kept & gone & Ha & Hp & _).
    { pose proof (rk_count _ Hok). unfold lengthZ in *. lia. }
    { done. }
    { apply (rk_nonempty _ Hok). }
    unfold absorb_adjacent. rewrite Ha. apply Permutation_length in Hp. rewrite length_app in Hp. unfold lengthZ. lia.
  - destruct (clear_raw first last l) as [[[l1 ch] dr]|] eqn:Hc; [|done]. cbn [mbind option_bind]. by eapply clear_raw_grows.
Qed.

Lemma event_grows c n R e R' : registries_ok n R -> run_range c e R = Some R' ->
  image R' = image R /\ forall w, lengthZ (ranges (array w R')) <= lengthZ (ranges (array w R)) + 2.
Proof.
  intros Hok Hrun. assert (Hr : forall w, ranges_ok (ranges (array w R))) by (intros w; apply (rs_array _ _ Hok w)).
  assert (Hrefl : image R = image R /\ forall w, lengthZ (ranges (array w R)) <= lengthZ (ranges (array w R)) + 2) by (split; [done|intros w; lia]).
  destruct e as [w first last|w first last|].
  - pose proof (stage_grows c first last (ranges (array w R))) as Hst. specialize (Hr w).
    destruct w; simpl in Hrun; unfold gna_add, gro_add, gnx_add, gna_clear_raw, gro_clear_raw, gnx_clear_raw in Hrun;
      destruct (Z.leb_spec last first); try (by injection Hrun as <-); specialize (Hst ltac:(lia) Hr); simpl in Hst;
      destruct c; cbn [mbind option_bind] in *;
      repeat match type of Hrun with
      | context [absorb_adjacent ?a ?b ?l] => destruct (absorb_adjacent a b l) as [[[f b0] kept]|]; [|done]
      | context [clear_raw ?a ?b ?l] => destruct (clear_raw a b l) as [[[kept ch] dr]|]; [|done]
      end; cbn [mbind option_bind] in *; destruct (lengthZ kept <? GNA_MAX); injection Hrun as <-; (split; [done|]);
      intros []; simpl; rewrite ?snoc_lengthZ; lia.
  - assert (Hst : first < last -> match clear_raw first last (ranges (array w R)) with Some (l, _, _) => lengthZ l <= lengthZ (ranges (array w R)) + 1 | None => True end).
    { intros Hlt. destruct (clear_raw _ _ _) as [[[l ch] dr]|] eqn:Hc; [|done]. by eapply clear_raw_grows. }
    destruct w; simpl in Hrun; unfold gna_clear, gro_clear, gnx_clear, gna_clear_raw, gro_clear_raw, gnx_clear_raw in Hrun;
      destruct (Z.leb_spec last first); try (by injection Hrun as <-); specialize (Hst ltac:(lia)); simpl in Hst;
      destruct (clear_raw _ _ _) as [[[l ch] dr]|]; try done; cbn [mbind option_bind] in Hrun; injection Hrun as <-; (split; [done|]);
      intros []; simpl; lia.
  - simpl in Hrun. injection Hrun as <-. split; [done|]. intros []; simpl; change (lengthZ (@nil range)) with 0; pose proof (lengthZ_nonneg (ranges (g_gna R)));
      pose proof (lengthZ_nonneg (ranges (g_gro R))); pose proof (lengthZ_nonneg (ranges (g_gnx R))); lia.
Qed.

(** A writer among several. *)
Lemma range_call c n k R e : 0 <= n < 2 ^ 62 -> 0 <= k -> registries_ok n R -> room_for (k + 2) R -> event_bounds e ->
  exists R', run_range c e R = Some R' /\ registries_ok (n + 1) R' /\ room_for k R' /\ image R' = image R /\
    forall v, event_effect e v (ranges (array v R)) (ranges (array v R')).
Proof.
  intros Hn Hk Hok Hroom He. destruct (writer_ok c n R Hn Hok ltac:(intros w; specialize (Hroom w); lia) e He) as (R' & Hrun & Hok' & Heff).
  destruct (event_grows c n R e R' Hok Hrun) as [Himg Hlen]. exists R'. split_and!; try done. intros w. specialize (Hroom w). specialize (Hlen w). lia.
Qed.

(** On the state of the memory calls. *)
Lemma gna_change_run c e S R' : run_range c e (protection_of (guest S)) = Some R' ->
  gna_change (run_range c e) S = Some (set_guest (set_protections R' (guest S)) S).
Proof. intros Hr. unfold gna_change. by rewrite Hr. Qed.

(** A run of writers over the sets of addresses. *)
Fixpoint run_changes (c : bool) (es : list range_event) (S : memory_state) : option memory_state :=
  match es with
  | [] => Some S
  | e :: es => S ← gna_change (run_range c e) S; run_changes c es S
  end.

Definition shown (R : registries) : protections := fun w x => covered (ranges (array w R)) x = true.
Definition after_events (es : list range_event) (A : protections) : protections := foldl (fun A e => abstract_step e A) A es.

Lemma set_same_protections S : set_guest (set_protections (protection_of (guest S)) (guest S)) S = S.
Proof. by destruct S as [[] ]. Qed.

Lemma after_same es : forall A B : protections, (forall w x, A w x <-> B w x) -> forall w x, after_events es A w x <-> after_events es B w x.
Proof.
  induction es as [|e es IH]; intros A B HAB; [exact HAB|]. apply IH. intros w x. destruct e as [v f b|v f b|]; simpl; [rewrite (HAB w x)|rewrite (HAB w x)|]; done.
Qed.

Lemma run_changes_spec c es : forall n k S, 0 <= n -> n + lengthZ es < 2 ^ 62 -> 0 <= k ->
  registries_ok n (protection_of (guest S)) -> room_for (k + 2 * lengthZ es) (protection_of (guest S)) -> Forall event_bounds es ->
  exists R', run_changes c es S = Some (set_guest (set_protections R' (guest S)) S) /\ registries_ok (n + lengthZ es) R' /\ room_for k R' /\
    image R' = image (protection_of (guest S)) /\ forall w x, shown R' w x <-> after_events es (shown (protection_of (guest S))) w x.
Proof.
  induction es as [|e es IH]; intros n k S Hn Hw Hk Hok Hroom Hb.
  - exists (protection_of (guest S)). simpl. rewrite set_same_protections. change (lengthZ (@nil range_event)) with 0 in *. rewrite Z.add_0_r in *. done.
  - apply List.Forall_cons_iff in Hb as [He Hb]. rewrite lengthZ_cons in *. pose proof (lengthZ_nonneg es).
    destruct (range_call c n (k + 2 * lengthZ es) (protection_of (guest S)) e) as (R1 & E1 & Hok1 & Hr1 & Hi1 & F1); [lia|lia|done| |done|].
    { intros w. specialize (Hroom w). lia. }
    simpl. rewrite (gna_change_run c e S R1 E1). cbn [mbind option_bind].
    destruct (IH (n + 1) k (set_guest (set_protections R1 (guest S)) S)) as (R2 & E2 & Hok2 & Hr2 & Hi2 & F2); [lia|lia|lia|done|done|done|].
    exists R2. split_and!; [exact E2|by replace (n + (lengthZ es + 1)) with (n + 1 + lengthZ es) by lia|done|by rewrite Hi2|].
    intros w x. rewrite (F2 w x). unfold after_events at 2. simpl. apply after_same. intros v y. change (protection_of (guest (set_guest (set_protections R1 (guest S)) S))) with R1.
    unfold shown at 1. rewrite (F1 v y). unfold shown. destruct e; simpl; done.
Qed.

Lemma changes_two {B} c e1 e2 (k : memory_state -> option B) S :
  (S ← gna_change (run_range c e1) S; S ← gna_change (run_range c e2) S; k S) = (S ← run_changes c [e1; e2] S; k S).
Proof. simpl. destruct (gna_change _ S) as [S1|]; cbn [mbind option_bind]; [|done]. by destruct (gna_change _ S1). Qed.

Lemma changes_last c e1 e2 S : (S ← gna_change (run_range c e1) S; gna_change (run_range c e2) S) = run_changes c [e1; e2] S.
Proof. simpl. destruct (gna_change _ S) as [S1|]; cbn [mbind option_bind]; [|done]. by destruct (gna_change _ S1). Qed.

Lemma changes_three {B} c e1 e2 e3 (k : memory_state -> option B) S :
  (S ← gna_change (run_range c e1) S; S ← gna_change (run_range c e2) S; S ← gna_change (run_range c e3) S; k S) =
  (S ← run_changes c [e1; e2; e3] S; k S).
Proof. simpl. destruct (gna_change _ S) as [S1|]; cbn [mbind option_bind]; [|done]. rewrite changes_two. simpl. by destruct (gna_change _ S1). Qed.

(** ** Forgetting an interval *)

(** What an unmapping leaves in the registries of mappings. *)
Record retired (lo hi : Z) (S S' : memory_state) : Prop := mk_retired {
  rt_mapped : forall va (v : bool), holds (mappings (gmap S')) va v <-> in_interval lo hi va = false /\ holds (mappings (gmap S)) va v;
  rt_anon : forall va (v : Z), holds (anonmap S') va v <-> in_interval lo hi va = false /\ holds (anonmap S) va v;
  rt_file : forall va (v : file_byte), holds (filemap S') va v <-> in_interval lo hi va = false /\ holds (filemap S) va v;
  rt_fds : exists closed, closed_fds S' = closed_fds S ++ closed /\ NoDup closed /\
    forall fd, In fd closed <-> 0 <= fd /\ uses fd (filemap S) /\ ~ uses fd (filemap S');
  rt_keys : forall va, shared_at (shared_keys S') va = if in_interval lo hi va then None else shared_at (shared_keys S) va;
  rt_locked : forall va, locked (gmap S') va = locked (gmap S) va && negb (in_pages lo (hi - lo) va);
  rt_wiped : forall r, In r (wipefork S') <-> In r (wipefork S) /\ ~ (fst r < hi /\ lo < fst r + snd r);
  rt_dropped : forall r, In r (dontfork S') <-> In r (dontfork S) /\ ~ (fst r < hi /\ lo < fst r + snd r)
}.

(** The registries are those of [S']. *)
Record same_registries (S S' : memory_state) : Prop := mk_same_registries {
  sr_gmap : gmap S' = gmap S;
  sr_anon : anonmap S' = anonmap S;
  sr_wipe : wipefork S' = wipefork S;
  sr_dont : dontfork S' = dontfork S;
  sr_file : filemap S' = filemap S;
  sr_fds : closed_fds S' = closed_fds S;
  sr_keys : shared_keys S' = shared_keys S
}.

(** The invariant of those registries, and room for one more entry in each. *)
Record mappings_sound (S : memory_state) : Prop := mk_mappings_sound {
  ms_gmap : mappings_ok (mappings (gmap S));
  ms_lengths : Forall length_ok (mappings (gmap S));
  ms_exec : exec_ok (gmap S);
  ms_locks : locks_ok (gmap S);
  ms_anon : Forall anon_ok (anonmap S);
  ms_keys : Futex.registry_ok (shared_keys S)
}.
Record mappings_room (lo hi : Z) (S : memory_state) : Prop := mk_mappings_room {
  mr_exec : exec_room (gmap S);
  mr_locks : lengthZ (locks (gmap S)) < MLK_N;
  mr_keys : lengthZ (shared_keys S) < FSHKEY_MAX;
  mr_files : lengthZ (filemap S) + countZ (splits lo hi) (filemap S) < FILEMAP_MAX
}.

Lemma retired_same lo hi S T T' : same_registries T T' -> retired lo hi S T -> retired lo hi S T'.
Proof. intros [E1 E2 E3 E4 E5 E6 E7] []. constructor; rewrite ?E1, ?E2, ?E3, ?E4, ?E5, ?E6, ?E7; done. Qed.

Lemma sound_same_registries S S' : same_registries S S' -> mappings_sound S -> mappings_sound S'.
Proof. intros [E1 E2 E3 E4 E5 E6 E7] []. constructor; rewrite ?E1, ?E2, ?E7; done. Qed.

Lemma uncharge_same a1 S : same_registries S (uncharge a1 S) /\ guest (uncharge a1 S) = guest S /\ smc_unmapped (uncharge a1 S) = smc_unmapped S /\
  (0 <= a1 -> mem_charged (uncharge a1 S) = if mem_max S =? 0 then mem_charged S else mem_charged S - Z.min (mem_charged S) a1).
Proof.
  unfold uncharge. destruct (mem_max S =? 0); simpl; [done|]. split_and!; try done. intros _. destruct (Z.ltb_spec (mem_charged S) a1); lia.
Qed.

Lemma fork_del_spec addr len l : 0 <= addr -> 0 <= len -> addr + len < 2 ^ 64 ->
  exists l', wipefork_del addr len l = Some l' /\ forall r, In r l' <-> In r l /\ ~ (fst r < addr + len /\ addr < fst r + snd r).
Proof.
  intros Ha Hl Hw. unfold wipefork_del. rewrite u64_small by lia.
  destruct (drop_matching_spec (fun r : fork_range => (fst r <? addr + len) && (addr <? fst r + snd r)) l) as (l' & Hd & Hp).
  exists l'. split; [done|]. intros r. split.
  - intros Hr. apply (Permutation_in _ Hp), filter_In in Hr as [Hr Hn]. split; [done|]. intros [H1 H2].
    rewrite (proj2 (Z.ltb_lt _ _) H1), (proj2 (Z.ltb_lt _ _) H2) in Hn. done.
  - intros [Hr Hn]. apply (Permutation_in _ (symmetry Hp)), filter_In. split; [done|]. apply negb_true_iff, not_true_iff_false.
    intros H. apply Hn. lia.
Qed.

(** [retire_range] forgets the interval in every registry. *)
Lemma retire_range_spec H lo hi S : discards_accepted (mh_gmap H) -> 0 <= lo < hi -> hi + 4095 < 2 ^ 64 ->
  mappings_sound S -> mappings_room lo hi S ->
  exists S', retire_range H lo hi S = Some S' /\ retired lo hi S S' /\ mappings_sound S' /\ guest S' = guest S /\
    mem_max S' = mem_max S /\ mem_charged S' = mem_charged S /\ brk_cur S' = brk_cur S /\ smc_unmapped S' = smc_unmapped S.
Proof.
  intros Hd Hlo Hhi [Hg Hlen He Hl Ha Hk] [Re Rl Rk Rf]. unfold retire_range, hl_gmap_unmap_range.
  destruct (Z.ltb_spec lo hi); [|lia].
  destruct (discard_range_spec (mh_gmap H) lo (hi - lo) (gmap S) Hd) as (G1 & -> & He1 & Hm1 & Hl1 & _); [lia|lia|unfold UINT64_MAX; lia|done|done|].
  cbn [mbind option_bind]. destruct (split_range_spec lo hi G1) as (l2 & -> & Hok2 & Hlen2 & Hh2); [lia|unfold gmap_ok; by rewrite Hm1|].
  cbn [mbind option_bind]. set (G2 := set_mappings l2 G1).
  destruct (anon_split_unmap_spec lo hi (anonmap S)) as (a & -> & Hao & Hah); [lia|lia|]. cbn [mbind option_bind].
  destruct (filemap_unmap_spec lo hi (filemap S)) as (f & closed & -> & _ & Hfh & Hnd & Hfc); [lia|done|]. cbn [mbind option_bind].
  destruct (shared_unmap_spec lo hi (shared_keys S)) as (k & -> & Hko & _ & Hkh); [lia|done|done|]. cbn [mbind option_bind].
  destruct (fork_del_spec lo (hi - lo) (wipefork S)) as (w & -> & Hw); [lia|lia|lia|]. cbn [mbind option_bind].
  destruct (fork_del_spec lo (hi - lo) (dontfork S)) as (d & Hdel & Hdd); [lia|lia|lia|]. unfold dontfork_del. rewrite Hdel. cbn [mbind option_bind].
  assert (Hlk : locks G2 = locks (gmap S)) by done. assert (Hlk' : locks_ok G2) by (unfold locks_ok; by rewrite Hlk).
  destruct (lock_remove_spec lo (hi - lo) G2) as (l3 & -> & Hok3 & _ & Hcov); [split; [|split]; lia|done|by rewrite Hlk|]. cbn [mbind option_bind].
  eexists. split; [done|]. replace (lo + (hi - lo)) with hi in * by lia. split; [constructor; simpl|split; [constructor; simpl|done]]; try done.
  - intros va v. by rewrite Hh2, Hm1.
  - by exists closed.
  - intros va. specialize (Hcov va). unfold locked in *. rewrite Hlk in Hcov. exact Hcov.
  - apply Hlen2. by rewrite Hm1.
  - apply Hao; [done|lia].
Qed.

(** ** Pages *)

Lemma has_flag_page a : 0 <= a -> has_flag a (GUEST_PAGE - 1) = negb (a mod 4096 =? 0).
Proof. intros Ha. unfold has_flag, GUEST_PAGE. change (4096 - 1) with (Z.ones 12). by rewrite Z.land_ones by lia. Qed.

Lemma page_base_aligned a : 0 <= a < 2 ^ 64 -> a mod 4096 = 0 -> page_base a = a.
Proof. intros Ha Hm. rewrite page_base_eq by done. div_lia. Qed.

Lemma page_above_aligned a : 0 <= a -> a + 4095 < 2 ^ 64 -> a mod 4096 = 0 -> page_above a = a.
Proof. intros Ha Hw Hm. rewrite page_above_eq by done. div_lia. Qed.

(** What the host releases of whole pages of its own size. *)
Lemma host_release_interval H a0 a1 S m lo hi :
  host_granularity (mh_gmap H) = GUEST_PAGE -> 0 <= a0 -> 0 < a1 -> a0 + a1 + 4095 < 2 ^ 64 ->
  a0 mod 4096 = 0 -> a1 mod 4096 = 0 -> mappings_ok (mappings (gmap S)) -> Forall length_ok (mappings (gmap S)) ->
  host_release H a0 a1 S = Some (m, lo, hi) -> lo = a0 /\ a0 + a1 <= hi.
Proof.
  intros Hhp Ha Hl Hw Hm0 Hm1 Hok Hlen. unfold host_release. rewrite Hhp. unfold GUEST_PAGE.
  pose proof (entry_from_spec a0 (gmap S) Hok) as He. unfold hl_gmap_find_length, hl_gmap_find_guest_length, hl_gmap_find_physical in *.
  assert (Hpart :
    (let lo := Z.land (u64 (a0 + 4096 - 1)) (UINT64_MAX - (4096 - 1)) in
     let hi := Z.land (u64 (a0 + a1)) (UINT64_MAX - (4096 - 1)) in
     if lo <? hi then m ← mh_munmap H lo (hi - lo) (mmu (guest S)); Some (m, lo, hi) else Some (mmu (guest S), lo, lo)) = Some (m, lo, hi) ->
    lo = a0 /\ a0 + a1 <= hi).
  { cbn zeta. change (UINT64_MAX - (4096 - 1)) with (UINT64_MAX - 4095).
    change (Z.land (u64 (a0 + 4096 - 1)) (UINT64_MAX - 4095)) with (page_base (u64 (a0 + 4096 - 1))).
    change (Z.land (u64 (a0 + a1)) (UINT64_MAX - 4095)) with (page_base (u64 (a0 + a1))).
    rewrite !u64_small by lia. rewrite (page_base_aligned (a0 + a1)), (page_base_eq (a0 + 4096 - 1)) by (lia || div_lia).
    replace (4096 * ((a0 + 4096 - 1) / 4096)) with a0 by div_lia. destruct (Z.ltb_spec a0 (a0 + a1)); [|lia].
    destruct (mh_munmap H a0 (a0 + a1 - a0) (mmu (guest S))); cbn [mbind option_bind]; [|done]. intros [= _ <- <-]. lia. }
  cbn zeta in Hpart |- *.
  destruct (entry_from a0 (gmap S)) as [e|]; cbn [fmap option_fmap option_map default from_option id] in He |- *; [|exact Hpart].
  destruct He as (D & R & HDR & Haddr & _ & _). rewrite HDR in Hok, Hlen. apply Forall_split_record in Hlen as [_ Hlen].
  destruct Hok as [Ho _]. apply Forall_split_record in Ho as [_ [He1 He2 He3 He4 He5]]. unfold gm_end, length_ok, UINT64_MAX in *.
  destruct (negb (gm_length e =? 0) && (gm_guest_length e =? a1) && _) eqn:Ec; [|exact Hpart].
  clear Hpart. bool_props. destruct (mh_munmap _ _ _ _); cbn [mbind option_bind]; [|done]. intros [= _ <- <-]. rewrite u64_small by lia. lia.
Qed.

Lemma host_release_same H a0 a1 S S' : mmu (guest S') = mmu (guest S) -> gmap S' = gmap S -> host_release H a0 a1 S' = host_release H a0 a1 S.
Proof. unfold host_release. by intros -> ->. Qed.

(** ** Publishing a protection *)

(** What a registry says of every byte of a range given protection [prot]. *)
Definition denies (prot : Z) (w : which) : bool :=
  match w with
  | PROT_NONE => prot =? 0
  | ReadOnly => negb (prot =? 0) && negb (has_flag prot PROT_WRITE)
  | NoExec => negb (has_flag prot PROT_EXEC)
  end.
Definition set_event (prot lo hi : Z) (w : which) : range_event := if denies prot w then AddRange w lo hi else ClearRange w lo hi.

(** The sets once the range carries [prot]. *)
Definition reprotect_sets (prot lo hi : Z) (A : protections) : protections :=
  fun w x => if in_interval lo hi x then denies prot w = true else A w x.

Lemma set_events_exact prot lo hi A w x :
  after_events [set_event prot lo hi PROT_NONE; set_event prot lo hi ReadOnly; set_event prot lo hi NoExec] A w x <->
  reprotect_sets prot lo hi A w x.
Proof.
  unfold after_events, reprotect_sets, set_event, in_interval. simpl.
  assert (Hin : (lo <=? x) && (x <? hi) = true /\ lo <= x < hi \/ (lo <=? x) && (x <? hi) = false /\ ~ lo <= x < hi) by lia.
  destruct w; simpl; repeat (match goal with |- context [if ?b then AddRange _ _ _ else _] => destruct b end); simpl;
    destruct Hin as [[-> Hx]|[-> Hx]]; intuition (done || lia).
Qed.

Lemma set_event_bounds prot lo hi w : 0 <= lo -> hi <= UINT64_MAX -> event_bounds (set_event prot lo hi w).
Proof. intros Hl Hh. unfold set_event. by destruct (denies prot w). Qed.

(** One writer, on the state. *)
Lemma change_call c e n k S : 0 <= n -> n + 1 < 2 ^ 62 -> 0 <= k -> registries_ok n (protection_of (guest S)) ->
  room_for (k + 2) (protection_of (guest S)) -> event_bounds e ->
  exists R', gna_change (run_range c e) S = Some (set_guest (set_protections R' (guest S)) S) /\ registries_ok (n + 1) R' /\ room_for k R' /\
    image R' = image (protection_of (guest S)) /\ forall w x, shown R' w x <-> abstract_step e (shown (protection_of (guest S))) w x.
Proof.
  intros Hn Hw Hk Hok Hroom He. destruct (range_call c n k (protection_of (guest S)) e) as (R' & E & H1 & H2 & H3 & F); [lia|lia|done|done|done|].
  exists R'. split; [by apply gna_change_run|]. split_and!; try done. intros w x. unfold shown at 1. rewrite (F w x). destruct e; done.
Qed.

Lemma over_both_same f lo hi hi' S : over_both f lo hi lo hi' S = (S ← f lo hi S; Some S).
Proof. unfold over_both. by rewrite Z.eqb_refl. Qed.

(** The chain of [publish_protection] when the range is its own alias. *)
Lemma publish_protection_same H prot physical a1 lo hi hi' S :
  publish_protection H prot physical a1 lo hi lo hi' S =
  (S ← gna_change (run_range (mh_coalesce H) (set_event prot lo hi PROT_NONE)) S;
   S ← (if prot =? 0 then gbus_change (gbus_park lo hi) S else Some S);
   S ← gna_change (run_range (mh_coalesce H) (set_event prot lo hi ReadOnly)) S;
   gna_change (run_range (mh_coalesce H) (set_event prot lo hi NoExec))
     (if denies prot ReadOnly then refresh physical (u64 (physical + a1)) S else S)).
Proof.
  unfold publish_protection, set_event, denies. rewrite !over_both_same. unfold gna_add_to, gna_clear_of, park_of.
  destruct (prot =? 0); cbn [negb andb].
  - change (run_range (mh_coalesce H) (AddRange PROT_NONE lo hi)) with (gna_add (mh_coalesce H) lo hi).
    destruct (gna_change _ S) as [S1|]; cbn [mbind option_bind]; [|done]. rewrite over_both_same.
    destruct (gbus_change _ S1) as [S2|]; cbn [mbind option_bind]; [|done]. rewrite over_both_same.
    change (run_range (mh_coalesce H) (ClearRange ReadOnly lo hi)) with (gro_clear lo hi). unfold gro_clear_of.
    destruct (gna_change (gro_clear _ _) S2) as [S3|]; cbn [mbind option_bind]; [|done].
    destruct (has_flag prot PROT_EXEC); rewrite over_both_same; unfold gnx_clear_of, gnx_add_to; simpl; by destruct (gna_change _ S3).
  - change (run_range (mh_coalesce H) (ClearRange PROT_NONE lo hi)) with (gna_clear lo hi).
    destruct (gna_change _ S) as [S1|]; cbn [mbind option_bind]; [|done].
    destruct (has_flag prot PROT_WRITE); cbn [negb]; rewrite over_both_same; unfold gro_clear_of, gro_add_to; simpl;
      (destruct (gna_change _ S1) as [S3|]; cbn [mbind option_bind]; [|done]);
      (destruct (has_flag prot PROT_EXEC); rewrite over_both_same; unfold gnx_clear_of, gnx_add_to; simpl; by destruct (gna_change _ _)).
Qed.

Lemma set_same_bus (f : bus_ledger -> option bus_ledger) S B : f (bus (guest S)) = Some B ->
  gbus_change f S = Some (set_guest (set_bus B (guest S)) S).
Proof. intros Hf. unfold gbus_change. by rewrite Hf. Qed.

(** What [publish_protection] leaves: other parts of the state stand. *)
Definition published_state (R : registries) (B : bus_ledger) (traces : list (Z * Z)) (S : memory_state) : memory_state :=
  set_traces (smc_unmapped S) traces (set_guest (set_bus B (set_protections R (guest S))) S).

Lemma publish_protection_spec H n sets prot physical a1 lo hi hi' S :
  0 <= n < 2 ^ 61 -> 0 <= lo <= hi -> hi <= UINT64_MAX -> registries_ok n (protection_of (guest S)) ->
  room_for 6 (protection_of (guest S)) -> bus_ok (bus (guest S)) -> sound (bus (guest S)) sets ->
  exists R B t, publish_protection H prot physical a1 lo hi lo hi' S = Some (published_state R B t S) /\
    registries_ok (n + 3) R /\ (forall w x, shown R w x <-> reprotect_sets prot lo hi (shown (protection_of (guest S))) w x) /\
    bus_ok B /\ sound B (if prot =? 0 then bus_abstract (BusPark lo hi) sets else sets).
Proof.
  intros Hn Hlo Hhi Hok Hroom Hbus Hsets. rewrite publish_protection_same. set (c := mh_coalesce H).
  assert (He : forall w, event_bounds (set_event prot lo hi w)) by (intros w; apply set_event_bounds; lia).
  destruct (change_call c (set_event prot lo hi PROT_NONE) n 4 S) as (R1 & -> & Hok1 & Hr1 & _ & F1); [lia|lia|lia|done|done|apply He|].
  cbn [mbind option_bind]. set (S1 := set_guest (set_protections R1 (guest S)) S).
  assert (HB : exists B, (if prot =? 0 then gbus_change (gbus_park lo hi) S1 else Some S1) = Some (set_guest (set_bus B (guest S1)) S1) /\
    bus_ok B /\ sound B (if prot =? 0 then bus_abstract (BusPark lo hi) sets else sets)).
  { destruct (prot =? 0).
    - destruct (park_call (bus (guest S1)) sets Hbus Hsets lo hi) as (B & EB & HB); [lia|]. exists B. split; [by apply set_same_bus|done].
    - exists (bus (guest S1)). split; [by destruct S as [[] ]|done]. }
  destruct HB as (B & -> & HokB & HsB). cbn [mbind option_bind]. set (S2 := set_guest (set_bus B (guest S1)) S1).
  destruct (change_call c (set_event prot lo hi ReadOnly) (n + 1) 2 S2) as (R2 & -> & Hok2 & Hr2 & _ & F2); [lia|lia|lia|done|done|apply He|].
  cbn [mbind option_bind]. set (S3 := set_guest (set_protections R2 (guest S2)) S2).
  set (S4 := if denies prot ReadOnly then refresh physical (u64 (physical + a1)) S3 else S3).
  assert (HS4 : guest S4 = guest S3) by (unfold S4; by destruct (denies prot ReadOnly)).
  assert (HR4 : protection_of (guest S4) = R2) by (by rewrite HS4).
  destruct (change_call c (set_event prot lo hi NoExec) (n + 1 + 1) 0 S4) as (R3 & -> & Hok3 & _ & _ & F3); [lia|lia|lia|by rewrite HR4|by rewrite HR4|apply He|].
  exists R3, B, (refreshed S4). rewrite HS4. split_and!; try done.
  - unfold S4. by destruct (denies prot ReadOnly).
  - by replace (n + 3) with (n + 1 + 1 + 1) by lia.
  - intros w x. rewrite <- set_events_exact, F3, HR4. apply (after_same [_]). intros v y. rewrite F2. apply (after_same [_]). exact F1.
Qed.

(** ** Unparking before the host is asked *)

Lemma parked_overlap_false lo hi B sets : bus_ok B -> sound B sets -> lo < hi -> gbus_parked_overlap lo hi B = false ->
  sound B (bus_abstract (BusUnpark lo hi) sets).
Proof.
  intros Hok [Hc|[HL HP]] Hlt Ho; [by left|]. right. unfold gbus_parked_overlap in Ho. destruct (Z.leb_spec hi lo); [lia|].
  assert (Hnone : forall x, lo <= x < hi -> ~ s_parked sets x).
  { intros x Hx Hp. apply HP in Hp. unfold covered in Hp. apply existsb_exists in Hp as (r & Hr & Hin). unfold inside in Hin. apply andb_true_iff in Hin as [Hin1%Z.leb_le Hin2%Z.ltb_lt].
    apply not_true_iff_false in Ho. apply Ho, existsb_exists. exists r. split; [done|]. apply andb_true_iff; split; apply Z.ltb_lt; lia. }
  split; intros x; simpl; unfold BusSteps.within, cut; [rewrite HL|rewrite HP]; specialize (Hnone x); [tauto|].
  destruct (decide (lo <= x < hi)) as [Hx|Hx]; [|intuition lia]. split; [intros Hp|]; [by destruct (Hnone Hx)|tauto].
Qed.

Lemma asked_unpark lo hi S sets : 0 <= lo < hi -> bus_ok (bus (guest S)) -> sound (bus (guest S)) sets ->
  exists B, (if gbus_parked_overlap lo hi (bus (guest S)) then
               S ← gbus_change (fun B => Some (gbus_prepare B)) S;
               S ← over_both unpark_of lo hi lo hi S;
               gbus_change (fun B => Some (gbus_prepare_release B)) S
             else Some S) = Some (set_guest (set_bus B (guest S)) S) /\
    bus_ok B /\ sound B (bus_abstract (BusUnpark lo hi) sets).
Proof.
  intros Hlt Hok Hs. destruct (gbus_parked_overlap lo hi (bus (guest S))) eqn:Ho.
  - destruct (prepare_call (bus (guest S)) sets Hok Hs) as [Hok1 Hs1].
    destruct (unpark_call _ sets Hok1 Hs1 lo hi) as (B & EB & Hok2 & Hs2); [lia|].
    destruct (release_call B _ Hok2 Hs2) as [Hok3 Hs3]. exists (gbus_prepare_release B). split; [|done].
    change (gbus_change (fun B => Some (gbus_prepare B)) S) with (Some (set_guest (set_bus (gbus_prepare (bus (guest S))) (guest S)) S)).
    cbn [mbind option_bind]. rewrite over_both_same. unfold unpark_of.
    rewrite (set_same_bus (gbus_unpark lo hi) (set_guest (set_bus (gbus_prepare (bus (guest S))) (guest S)) S) B EB). done.
  - exists (bus (guest S)). split; [by destruct S as [[] ]|]. split; [done|]. by apply parked_overlap_false; [| |lia|].
Qed.

(** ** The second half of mprotect *)

(** The past-EOF sets while the host is asked: a range that becomes accessible
    is live again before that. *)
Definition asked_sets (prot lo hi : Z) (sets : bus_sets) : bus_sets :=
  if prot =? 0 then sets else bus_abstract (BusUnpark lo hi) sets.

Definition given_sets (prot lo hi : Z) (sets : bus_sets) : bus_sets :=
  bus_abstract (if prot =? 0 then BusPark lo hi else BusUnpark lo hi) sets.

(** What [mprotect] never touches. *)
Record unprotected_part (S S' : memory_state) : Prop := mk_unprotected_part {
  up_gmap : gmap S' = gmap S;
  up_file : filemap S' = filemap S /\ closed_fds S' = closed_fds S;
  up_keys : shared_keys S' = shared_keys S;
  up_forks : wipefork S' = wipefork S /\ dontfork S' = dontfork S;
  up_ledger : ledger (guest S') = ledger (guest S) /\ store (guest S') = store (guest S);
  up_memory : host_memory (guest S') = host_memory (guest S);
  up_charge : mem_charged S' = mem_charged S
}.

Lemma unprotected_refl S : unprotected_part S S.
Proof. by constructor. Qed.

Lemma apply_protection_spec H n sets a0 a1 prot S :
  0 < a0 -> 0 < a1 -> a0 mod 4096 = 0 -> a0 + a1 + 4095 < 2 ^ 64 ->
  0 <= n < 2 ^ 61 -> registries_ok n (protection_of (guest S)) -> room_for 6 (protection_of (guest S)) ->
  bus_ok (bus (guest S)) -> sound (bus (guest S)) (asked_sets prot a0 (page_above (a0 + a1)) sets) -> Forall anon_ok (anonmap S) ->
  exists S', unprotected_part S S' /\ bus_ok (bus (guest S')) /\
    match mh_mprotect H a0 a1 (host_protection prot) (mmu (guest S)) with
    | inl errno =>
        apply_protection H a0 a0 a0 a1 prot false None S = Some (- errno, S') /\ protection_of (guest S') = protection_of (guest S) /\
        mmu (guest S') = mmu (guest S) /\ anonmap S' = anonmap S /\ bus (guest S') = bus (guest S)
    | inr m =>
        apply_protection H a0 a0 a0 a1 prot false None S = Some (0, S') /\ registries_ok (n + 3) (protection_of (guest S')) /\ mmu (guest S') = m /\
        (forall w x, shown (protection_of (guest S')) w x <-> reprotect_sets prot a0 (page_above (a0 + a1)) (shown (protection_of (guest S))) w x) /\
        Forall anon_ok (anonmap S') /\
        (forall va (v : Z), holds (anonmap S') va v <-> reprotected a0 (page_above (a0 + a1)) (host_protection prot) (anonmap S) va v) /\
        sound (bus (guest S')) (given_sets prot a0 (page_above (a0 + a1)) sets)
    end.
Proof.
  intros Ha Hl Hm Hw Hn Hok Hroom Hbus Hsets Hanon. unfold apply_protection. rewrite (u64_small (a0 + a1)) by lia.
  set (hi := page_above (a0 + a1)) in *. assert (Hhi : a0 + a1 <= hi /\ hi < 2 ^ 64) by (unfold hi; rewrite page_above_eq by lia; div_lia).
  set (S1 := if has_flag prot PROT_WRITE || negb (has_flag prot PROT_EXEC) then smc_unmap a0 (a0 + a1) S else S).
  assert (H1 : unprotected_part S S1 /\ guest S1 = guest S /\ anonmap S1 = anonmap S) by (unfold S1; by destruct (_ || _)).
  destruct H1 as (Hpart & Hg & Han). rewrite Hg. destruct (mh_mprotect _ _ _ _ _) as [errno|m].
  - exists S1. rewrite Hg, Han. done.
  - rewrite !(page_base_aligned a0) by lia. set (an := anon_update_prot a0 (hi - a0) (host_protection prot) (anonmap (set_guest (set_mmu m (guest S)) S1))).
    set (S2 := set_anon an (set_guest (set_mmu m (guest S)) S1)).
    destruct (publish_protection_spec H n (asked_sets prot a0 hi sets) prot a0 a1 a0 hi hi S2) as (R & B & t & -> & Hok' & Hshown & HB & HsB);
      [done|lia|unfold UINT64_MAX; lia|done..|].
    cbn [mbind option_bind]. change (protection_of (guest S2)) with (protection_of (guest S)) in Hshown.
    destruct (anon_update_prot_spec a0 (hi - a0) (host_protection prot) (anonmap S)) as [Hao Hah]; [done|lia|lia|done|].
    replace (a0 + (hi - a0)) with hi in Hah by lia.
    set (S3 := published_state R B t S2).
    set (S4 := if has_flag prot PROT_EXEC then set_latches (soft_active S3) (exec_bytes_unstable S3) (authority_disabled S3) true S3 else S3).
    exists S4.
    assert (Hgiven : sound B (given_sets prot a0 hi sets)).
    { unfold given_sets. unfold asked_sets in HsB. by destruct (prot =? 0). }
    assert (Hg4 : guest S4 = set_bus B (set_protections R (set_mmu m (guest S)))) by (unfold S4; by destruct (has_flag prot PROT_EXEC)).
    assert (Ha4 : anonmap S4 = anon_update_prot a0 (hi - a0) (host_protection prot) (anonmap S)).
    { transitivity an; [unfold S4; by destruct (has_flag prot PROT_EXEC)|]. unfold an. simpl. by rewrite Han. }
    assert (Hp4 : unprotected_part S S4).
    { destruct Hpart as [P1 P2 P3 P4 P5 P6 P7]. unfold S4. destruct (has_flag prot PROT_EXEC); by constructor. }
    rewrite Ha4, Hg4. by split_and!.
Qed.

(** ** Clearing *)

(** Rounding down to a page of the host. *)
Lemma host_round_down k a : 0 <= k <= 63 -> 0 <= a < 2 ^ 64 -> Z.land a (UINT64_MAX - (2 ^ k - 1)) = 2 ^ k * (a / 2 ^ k).
Proof.
  intros Hk Ha. assert (Hmask : UINT64_MAX - (2 ^ k - 1) = Z.shiftl (Z.ones (64 - k)) k).
  { rewrite Z.shiftl_mul_pow2, Z.ones_equiv by lia. rewrite Z.mul_pred_l, <- Z.pow_add_r by lia.
    replace (64 - k + k) with 64 by lia. change UINT64_MAX with (2 ^ 64 - 1). lia. }
  rewrite Hmask, Z.mul_comm, <- Z.shiftl_mul_pow2, <- Z.shiftr_div_pow2 by lia. apply Z.bits_inj'. intros i Hi. rewrite Z.land_spec.
  destruct (Z.lt_ge_cases i k).
  - rewrite !Z.shiftl_spec_low by done. apply andb_false_r.
  - rewrite !Z.shiftl_spec, Z.shiftr_spec by lia. replace (i - k + k) with i by lia. destruct (Z.lt_ge_cases i 64).
    + rewrite Z.ones_spec_low by lia. apply andb_true_r.
    + rewrite Z.ones_spec_high, andb_false_r by lia. symmetry. rewrite <- (Z.mod_small a (2 ^ 64)) by lia. apply Z.mod_pow2_bits_high. lia.
Qed.

(** Memory with the bytes of an interval cleared. *)
Definition cleared (first last : Z) (m : memory) : memory := fun x => if in_interval first last x then 0 else m x.

Lemma zero_memory_spec first last S : first <= last -> forall x, host_memory (guest (zero_memory first last S)) x = cleared first last (host_memory (guest S)) x.
Proof.
  intros Hle x. simpl. unfold write_memory, cleared, in_interval. unfold lengthZ. rewrite length_replicate, Z2Nat.id by lia.
  replace (first + (last - first)) with last by lia. destruct (_ && _); [|done].
  destruct (lookupZ _ _) as [y|] eqn:Hy; [by apply lookupZ_replicate in Hy|done].
Qed.

(** A state that differs in memory only. *)
Definition memory_only (S S' : memory_state) : Prop := S' = set_guest (set_memory (host_memory (guest S')) (guest S)) S.

Lemma memory_only_zero f l S S' : memory_only S S' -> memory_only S (zero_memory f l S').
Proof. unfold memory_only. intros ->. done. Qed.

(** The part of [MADV_DONTNEED] on memory the guest may write: pages of the host
    mapped afresh, and the edges cleared in place. *)
Lemma dontneed_clears H k a0 a1 aprot S :
  host_granularity (mh_gmap H) = 2 ^ k -> 0 <= k <= 32 -> 0 <= a0 -> 0 < a1 -> a0 + a1 + 2 ^ k < 2 ^ 64 -> has_flag aprot PROT_WRITE = true ->
  (forall lo len, mh_map_zero H lo len aprot = true) ->
  exists S', fst (dontneed H a0 a1 aprot S) = Some S' /\
    memory_only S S' /\ forall x, host_memory (guest S') x = cleared a0 (a0 + a1) (host_memory (guest S)) x.
Proof.
  intros Hk Hkb Ha Hl Hw Hp Hz. assert (Hpos : 0 < 2 ^ k) by lia. unfold dontneed. rewrite Hk, (u64_small (a0 + a1)), (u64_small (a0 + 2 ^ k - 1)) by lia.
  rewrite !(host_round_down k) by lia. set (ilo := 2 ^ k * ((a0 + 2 ^ k - 1) / 2 ^ k)). set (ihi := 2 ^ k * ((a0 + a1) / 2 ^ k)).
  assert (Hilo : a0 <= ilo < a0 + 2 ^ k).
  { unfold ilo. pose proof (Z.div_mod (a0 + 2 ^ k - 1) (2 ^ k)). pose proof (Z.mod_pos_bound (a0 + 2 ^ k - 1) (2 ^ k)). lia. }
  assert (Hihi : ihi <= a0 + a1 < ihi + 2 ^ k).
  { unfold ihi. pose proof (Z.div_mod (a0 + a1) (2 ^ k)). pose proof (Z.mod_pos_bound (a0 + a1) (2 ^ k)). lia. }
  assert (Hedge : ilo <= a0 + a1 -> ilo <= ihi).
  { intros Hle. unfold ilo, ihi. apply Z.mul_le_mono_nonneg_l; [lia|]. apply Z.div_le_lower_bound; [lia|]. exact Hle. }
  rewrite Hz, orb_true_r, Hp. cbn [andb]. rewrite andb_true_r.
  assert (Hs : memory_only S S) by (unfold memory_only; by destruct S as [[] ]).
  destruct (Z.ltb_spec ilo ihi), (Z.ltb_spec ilo (a0 + a1)), (Z.ltb_spec a0 ihi);
    repeat match goal with |- context [if ?u <? ?v then _ else _] => destruct (Z.ltb_spec u v) end; try lia;
    (eexists; split; [reflexivity|]; split; [by repeat apply memory_only_zero|]); intros x;
    repeat (rewrite zero_memory_spec by lia; unfold cleared); unfold in_interval, cleared;
    repeat match goal with |- context [?u <=? ?v] => destruct (Z.leb_spec u v) | |- context [?u <? ?v] => destruct (Z.ltb_spec u v) end; simpl; done || lia.
Qed.
