(* ===== verification/MemoryTheorems.v ===== *)
(** * Properties of the memory system calls *)

From Stdlib Require Import Permutation.
From stdpp Require Import gmap.
From S2P Require Import Prelude Status RangeLedger RangeProofs GuestRanges GuestRangesSteps BusLedger BusSteps VmaLedger VmaReaders VmaTheorems GuestCopy.
From S2P Require Import Carve GuestMaps GuestMapsProofs GuestMapsTheorems MemoryRegistries Futex MemoryCalls MemoryProofs.

(** ** munmap *)

Lemma no_coarse a0 a1 hp : hp = GUEST_PAGE -> (GUEST_PAGE <? hp) && (has_flag a0 (hp - 1) || has_flag a1 (hp - 1)) = false.
Proof. intros ->. by rewrite Z.ltb_irrefl. Qed.

Definition unmapped_sets (lo last hi : Z) (A : protections) : protections :=
  after_events [ClearRange PROT_NONE lo last; ClearRange ReadOnly lo last; ClearRange NoExec lo last; AddRange PROT_NONE lo hi; AddRange NoExec lo hi] A.

Lemma unmapped_none lo last hi A x : last <= hi -> unmapped_sets lo last hi A PROT_NONE x <-> A PROT_NONE x \/ lo <= x < hi.
Proof. intros Hle. unfold unmapped_sets, after_events. simpl. destruct (Z.lt_ge_cases x lo), (Z.lt_ge_cases x hi); intuition (done || lia). Qed.
Lemma unmapped_noexec lo last hi A x : last <= hi -> unmapped_sets lo last hi A NoExec x <-> A NoExec x \/ lo <= x < hi.
Proof. intros Hle. unfold unmapped_sets, after_events. simpl. destruct (Z.lt_ge_cases x lo), (Z.lt_ge_cases x hi); intuition (done || lia). Qed.
Lemma unmapped_readonly lo last hi A x : unmapped_sets lo last hi A ReadOnly x <-> A ReadOnly x /\ (x < lo \/ last <= x).
Proof. unfold unmapped_sets, after_events. simpl. intuition (done || lia). Qed.

(** C10: On a host with the guest's page size that accepts discards, with
    [jit_guest_soft_active] off and room in the arrays: [munmap] of whole pages
    - address and length - that the host gives back answers 0. What it forgets
    is the interval the host gave back: the pages asked for, and beyond them
    the guard of a host mapping whose guest part is unmapped whole. No mapping,
    anonymous record, file byte, futex key or lock covers that interval
    afterwards, it is PROT_NONE and non-executable, and the descriptors of file
    mappings that ended are closed once; the pages asked for are neither
    read-only nor past the end of a file. Outside, no mapping, anonymous
    record, file byte, futex key, lock or protection changes; of the
    MADV_WIPEONFORK and MADV_DONTFORK records exactly those that overlap the
    interval are dropped, each whole, with what it said of addresses outside.
    The charge falls by the length asked for and the translations of the pages
    are reported unmapped. *)
Theorem munmap_retires H n sets S a0 a1 m lo hi :
  host_granularity (mh_gmap H) = GUEST_PAGE -> discards_accepted (mh_gmap H) -> soft_active S = false ->
  0 <= a0 -> 0 < a1 -> a0 mod 4096 = 0 -> a1 mod 4096 = 0 -> a0 + a1 + 4095 < 2 ^ 64 ->
  0 <= n < 2 ^ 61 -> registries_ok n (protection_of (guest S)) -> room_for 10 (protection_of (guest S)) ->
  bus_ok (bus (guest S)) -> sound (bus (guest S)) sets -> mappings_sound S ->
  host_release H a0 a1 S = Some (m, lo, hi) -> hi + 4095 < 2 ^ 64 -> mappings_room lo hi S ->
  exists S', munmap H a0 a1 S = Some (0, S') /\ lo = a0 /\ a0 + a1 <= hi /\ retired lo hi S S' /\ mappings_sound S' /\
    registries_ok (n + 5) (protection_of (guest S')) /\ mmu (guest S') = m /\ ledger (guest S') = ledger (guest S) /\
    (forall x, shown (protection_of (guest S')) PROT_NONE x <-> shown (protection_of (guest S)) PROT_NONE x \/ lo <= x < hi) /\
    (forall x, shown (protection_of (guest S')) NoExec x <-> shown (protection_of (guest S)) NoExec x \/ lo <= x < hi) /\
    (forall x, shown (protection_of (guest S')) ReadOnly x <->
       shown (protection_of (guest S)) ReadOnly x /\ (x < a0 \/ a0 + a1 <= x)) /\
    bus_ok (bus (guest S')) /\ sound (bus (guest S')) (bus_abstract (BusClear a0 (a0 + a1)) sets) /\
    mem_charged S' = (if mem_max S =? 0 then mem_charged S else mem_charged S - Z.min (mem_charged S) a1) /\
    smc_unmapped S' = smc_unmapped S ++ [(a0, a0 + a1)].
Proof.
  intros Hhp Hd Hsoft Ha Hl Hm0 Hm1 Hw Hn Hok Hroom Hbus Hsets Hms Hrel Hhi Hmr.
  destruct (host_release_interval H a0 a1 S m lo hi Hhp Ha Hl Hw Hm0 Hm1 (ms_gmap _ Hms) (ms_lengths _ Hms) Hrel) as [-> Hle].
  unfold munmap. rewrite Hhp, has_flag_page, Hm0, (u64_small (a0 + a1)) by lia.
  destruct (Z.eqb_spec a1 0); [lia|]. destruct (Z.ltb_spec (a0 + a1) a0); [lia|]. cbn [negb orb Z.eqb].
  rewrite Z.ltb_irrefl, Hsoft. cbn [andb orb negb]. rewrite (page_base_aligned a0), (page_above_aligned (a0 + a1)) by (lia || div_lia).
  set (c := mh_coalesce H).
  destruct (run_changes_spec c [ClearRange PROT_NONE a0 (a0 + a1); ClearRange ReadOnly a0 (a0 + a1); ClearRange NoExec a0 (a0 + a1)] n 4 S)
    as (R3 & E3 & Hok3 & Hr3 & _ & F3); [lia|unfold lengthZ; simpl; lia|lia|done|done|repeat constructor; simpl; unfold UINT64_MAX; lia|].
  change (gna_clear a0 (a0 + a1)) with (run_range c (ClearRange PROT_NONE a0 (a0 + a1))).
  change (gro_clear a0 (a0 + a1)) with (run_range c (ClearRange ReadOnly a0 (a0 + a1))).
  change (gnx_clear a0 (a0 + a1)) with (run_range c (ClearRange NoExec a0 (a0 + a1))).
  rewrite changes_three, E3. cbn [mbind option_bind]. set (S3 := set_guest (set_protections R3 (guest S)) S).
  destruct (clear_call (bus (guest S)) sets Hbus Hsets a0 (a0 + a1)) as (B & EB & HokB & HsB); [lia|].
  rewrite (set_same_bus (gbus_clear a0 (a0 + a1)) S3 B EB). cbn [mbind option_bind]. set (S4 := set_guest (set_bus B (guest S3)) S3).
  rewrite (host_release_same H a0 a1 S S4), Hrel by done. set (S5 := set_guest (set_mmu m (guest S4)) S4).
  destruct (Z.ltb_spec a0 hi); [|lia].
  destruct (retire_range_spec H a0 hi S5 Hd) as (S6 & E6 & Hret & Hms6 & Hg6 & Hmx6 & Hch6 & Hbk6 & Hsmc6); [lia|done|by destruct Hms|by destruct Hmr|].
  rewrite E6. cbn [mbind option_bind].
  assert (HR6 : protection_of (guest S6) = R3) by (by rewrite Hg6).
  destruct (run_changes_spec c [AddRange PROT_NONE a0 hi; AddRange NoExec a0 hi] (n + 3) 0 S6)
    as (R8 & E8 & Hok8 & _ & _ & F8); [lia|unfold lengthZ; simpl; lia|lia|by rewrite HR6|by rewrite HR6|repeat constructor; simpl; unfold UINT64_MAX; lia|].
  change (gna_add c a0 hi) with (run_range c (AddRange PROT_NONE a0 hi)). change (gnx_add c a0 hi) with (run_range c (AddRange NoExec a0 hi)).
  rewrite changes_last, E8. cbn [mbind option_bind]. set (S8 := set_guest (set_protections R8 (guest S6)) S6).
  destruct (uncharge_same a1 S8) as (Hsame & Hg9 & Hsmc9 & Hcharge). set (S9 := uncharge a1 S8) in *.
  assert (Hg : guest S9 = set_protections R8 (guest S5)) by (rewrite Hg9; unfold S8; simpl; by rewrite Hg6).
  exists (smc_unmap a0 (a0 + a1) S9).
  split; [by rewrite Hsoft|]. split; [done|]. split; [done|].
  change (guest (smc_unmap a0 (a0 + a1) S9)) with (guest S9). rewrite Hg.
  change (protection_of (set_protections R8 (guest S5))) with R8.
  assert (Hsets8 : forall w x, shown R8 w x <-> unmapped_sets a0 (a0 + a1) hi (shown (protection_of (guest S))) w x).
  { intros w x. rewrite F8, HR6. exact (after_same _ _ _ F3 w x). }
  split_and!; try done.
  - eapply (retired_same _ _ S S6); [|by destruct Hret; constructor]. by destruct Hsame; constructor.
  - eapply (sound_same_registries S6); [|done]. by destruct Hsame; constructor.
  - by replace (n + 5) with (n + 3 + 2) by lia.
  - intros x. rewrite Hsets8. by apply unmapped_none.
  - intros x. rewrite Hsets8. by apply unmapped_noexec.
  - intros x. rewrite Hsets8. by apply unmapped_readonly.
  - change (mem_charged S9 = (if mem_max S =? 0 then mem_charged S else mem_charged S - Z.min (mem_charged S) a1)).
    rewrite Hcharge by lia. unfold S8. simpl. by rewrite Hmx6, Hch6.
  - simpl. rewrite Hsmc9. unfold S8. simpl. by rewrite Hsmc6.
Qed.

(** A guest page inside an anonymous mapping of four, mapped from a file whose
    words carry futex keys, and locked. *)
Definition demo_memory_host : memory_host :=
  mk_memory_host demo_gmap_host (fun a l m => Some (fun x => m x && negb ((a <=? x) && (x <? a + l)))) (fun _ _ _ m => inr m)
    (fun _ _ => 0) (fun _ _ => 0) (fun _ _ _ => true) (fun _ _ => 0) true true true vma_host true true.
Definition demo_mapped : guest_space :=
  mk_space demo_store demo_ledger (fun x => x mod 256) (registries_init (mk_projection 0 0 0)) caches_init bus_init (fun x => (0x10000 <=? x) && (x <? 0x14000)) true true [].
Definition demo_memory : memory_state :=
  mk_memory_state demo_mapped (mk_gmap_context (mappings demo_gmap2) [mk_lock_range 0x10000 0x14000] false false None [] [])
    [mk_anon 0x10000 0x4000 3] [(0x10000, 0x4000)] [] [mk_filemap 0x11000 0x12000 0 1 7 0x11000 0x12000 5 true false] []
    [mk_shared 0x11000 0x12000 1 7 0] 0x8000 0x4000 0 0 0 false false false false [] [].

Example demo_munmap :
  (fun '(r, T) => (r, hl_gmap_contains 0x10000 0x1000 (gmap T), hl_gmap_contains 0x11000 0x1000 (gmap T), map an_len (anonmap T), closed_fds T,
     shared_keys T, mem_charged T, wipefork T)) <$> munmap demo_memory_host 0x11000 0x1000 demo_memory =
  Some (0, Some true, Some false, [0x1000; 0x2000], [5], [], 0x3000, []).
Proof. vm_compute. reflexivity. Qed.

Lemma demo_mappings_sound : mappings_sound demo_memory.
Proof.
  constructor.
  - split; [constructor; [constructor; vm_compute; done|constructor]|]. intros va. simpl. destruct (covers va _); lia.
  - constructor; [vm_compute; discriminate|constructor].
  - split; [by apply List.Forall_nil|]. intros va. simpl. lia.
  - split; [constructor; [split; simpl; lia|constructor]|]. intros va. simpl. destruct (covers va _); lia.
  - constructor; [split; simpl; lia|constructor].
  - split; [constructor; [split; simpl; lia|constructor]|]. intros va. simpl. destruct (spans_va va _); lia.
Qed.

Definition demo_released : Z -> bool := fun x => ((0x10000 <=? x) && (x <? 0x14000)) && negb ((0x11000 <=? x) && (x <? 0x11000 + 0x1000)).

Lemma munmap_retires_witness :
  exists S', munmap demo_memory_host 0x11000 0x1000 demo_memory = Some (0, S') /\ 0x11000 = 0x11000 /\ 0x11000 + 0x1000 <= 0x12000 /\
    retired 0x11000 0x12000 demo_memory S' /\ mappings_sound S' /\
    registries_ok (0 + 5) (protection_of (guest S')) /\ mmu (guest S') = demo_released /\ ledger (guest S') = demo_ledger /\
    (forall x, shown (protection_of (guest S')) PROT_NONE x <-> shown (protection_of (guest demo_memory)) PROT_NONE x \/ 0x11000 <= x < 0x12000) /\
    (forall x, shown (protection_of (guest S')) NoExec x <-> shown (protection_of (guest demo_memory)) NoExec x \/ 0x11000 <= x < 0x12000) /\
    (forall x, shown (protection_of (guest S')) ReadOnly x <->
       shown (protection_of (guest demo_memory)) ReadOnly x /\ (x < 0x11000 \/ 0x11000 + 0x1000 <= x)) /\
    bus_ok (bus (guest S')) /\ sound (bus (guest S')) (bus_abstract (BusClear 0x11000 (0x11000 + 0x1000)) (mk_sets (fun _ => False) (fun _ => False))) /\
    mem_charged S' = (if mem_max demo_memory =? 0 then mem_charged demo_memory else mem_charged demo_memory - Z.min (mem_charged demo_memory) 0x1000) /\
    smc_unmapped S' = smc_unmapped demo_memory ++ [(0x11000, 0x11000 + 0x1000)].
Proof.
  apply (munmap_retires demo_memory_host 0 (mk_sets (fun _ => False) (fun _ => False)) demo_memory 0x11000 0x1000 demo_released 0x11000 0x12000);
    try reflexivity; try lia.
  - by intros h; left.
  - apply init_ok.
  - intros []; reflexivity.
  - apply init_bus_ok.
  - right. split; intros x; done.
  - apply demo_mappings_sound.
  - constructor; reflexivity.
Defined.

(** ** mprotect *)

(** C12: [mprotect] of a range the guest owns, on an address the image does not
    displace, with [jit_guest_soft_active] off and room in the arrays, asks the host once. When the host agrees, the
    answer is 0 and exactly the pages of the range change: PROT_NONE, read-only
    and non-executable become what the new protection says of each, the
    anonymous records carry what the host was given, and past-EOF ranges are
    parked by PROT_NONE and revived by anything else. When the host refuses,
    the answer is its error and no page, registry or record changes protection;
    but the past-EOF ranges parked under the range, which anything other than
    PROT_NONE revives before the host is asked, stay revived
    ([refused_mprotect_revives]). *)
Theorem mprotect_exact H n sets S a0 a1 prot :
  fold (image (protection_of (guest S))) a0 = a0 -> nonpie_unfold (image (protection_of (guest S))) a0 = a0 -> soft_active S = false ->
  0 < a0 -> 0 < a1 -> a0 mod 4096 = 0 -> a0 + a1 + 4095 < 2 ^ 64 -> has_flag prot (UINT64_MAX - PROT_MASK) = false ->
  hl_gmap_contains a0 a1 (gmap S) = Some true ->
  0 <= n < 2 ^ 61 -> registries_ok n (protection_of (guest S)) -> room_for 6 (protection_of (guest S)) ->
  bus_ok (bus (guest S)) -> sound (bus (guest S)) sets -> Forall anon_ok (anonmap S) ->
  let lo := a0 in
  let hi := page_above (a0 + a1) in
  exists S', unprotected_part S S' /\ bus_ok (bus (guest S')) /\
    match mh_mprotect H a0 a1 (host_protection prot) (mmu (guest S)) with
    | inl errno =>
        mprotect H a0 a1 prot S = Some (- errno, S') /\ protection_of (guest S') = protection_of (guest S) /\
        mmu (guest S') = mmu (guest S) /\ anonmap S' = anonmap S /\ sound (bus (guest S')) (asked_sets prot lo hi sets)
    | inr m =>
        mprotect H a0 a1 prot S = Some (0, S') /\ registries_ok (n + 3) (protection_of (guest S')) /\ mmu (guest S') = m /\
        (forall w x, shown (protection_of (guest S')) w x <-> reprotect_sets prot lo hi (shown (protection_of (guest S))) w x) /\
        Forall anon_ok (anonmap S') /\
        (forall va v, holds (anonmap S') va v <-> reprotected lo hi (host_protection prot) (anonmap S) va v) /\
        sound (bus (guest S')) (given_sets prot lo hi sets)
    end.
Proof.
  intros Hfold Hunfold Hsoft Ha Hl Hm Hw Hprot Hmapped Hn Hok Hroom Hbus Hsets Hanon lo hi. subst lo.
  assert (Hhi : a0 + a1 <= hi /\ hi < 2 ^ 64) by (unfold hi; rewrite page_above_eq by lia; div_lia).
  unfold mprotect. destruct (Z.eqb_spec a1 0); [lia|]. rewrite Hfold, has_flag_page, Hm, Hprot by lia. cbn [negb Z.eqb].
  unfold backed. rewrite Hmapped. cbn [mbind option_bind negb].
  set (T := if has_flag prot PROT_EXEC then set_latches _ _ _ _ S else S).
  assert (HT : unprotected_part S T /\ guest T = guest S /\ anonmap T = anonmap S /\ soft_active T = false) by (unfold T; by destruct (has_flag prot PROT_EXEC)).
  destruct HT as (HpT & HgT & HaT & HsT). rewrite HgT, Hunfold, !Z.eqb_refl, (u64_small (a0 + a1)), !(page_base_aligned a0) by lia.
  fold hi. cbn [negb andb orb]. rewrite orb_false_r.
  assert (Hasked : exists B, (if negb (prot =? 0) && gbus_parked_overlap a0 hi (bus (guest S)) then
       S ← gbus_change (fun B => Some (gbus_prepare B)) T;
       S ← over_both unpark_of a0 hi a0 hi S;
       gbus_change (fun B => Some (gbus_prepare_release B)) S
     else Some T) = Some (set_guest (set_bus B (guest T)) T) /\ bus_ok B /\ sound B (asked_sets prot a0 hi sets)).
  { rewrite <- HgT in Hbus, Hsets |- *. unfold asked_sets. destruct (prot =? 0); cbn [negb andb].
    - exists (bus (guest T)). split; [|done]. clear. by destruct T as [[] ].
    - apply asked_unpark; [lia|done|done]. }
  destruct Hasked as (B & -> & HokB & HsB). cbn [mbind option_bind]. set (T1 := set_guest (set_bus B (guest T)) T).
  change (soft_active T1) with (soft_active T). rewrite HsT. cbn [orb].
  destruct (apply_protection_spec H n sets a0 a1 prot T1) as (S' & Hpart & HbS & Hcase);
    [done|done|done|done|done|unfold T1; simpl; rewrite ?HgT, ?HaT; done..|].
  exists S'. assert (Hp : unprotected_part S S').
  { destruct HpT as [P1 [P2 P2'] P3 [P4 P4'] [P5 P5'] P6 P7], Hpart as [Q1 [Q2 Q2'] Q3 [Q4 Q4'] [Q5 Q5'] Q6 Q7]. constructor; by etrans || (split; by etrans). }
  split; [done|]. split; [done|]. change (mmu (guest T1)) with (mmu (guest T)) in Hcase.
  change (protection_of (guest T1)) with (protection_of (guest T)) in Hcase. change (bus (guest T1)) with B in Hcase.
  change (anonmap T1) with (anonmap T) in Hcase. rewrite HgT, HaT in Hcase.
  destruct (mh_mprotect _ _ _ _ _) as [errno|m]; [|by destruct Hcase as (E & Hcase)].
  destruct Hcase as (E & H1 & H2 & H3 & H4). rewrite H4. by split_and!.
Qed.

Lemma demo_sound : sound (bus (guest demo_memory)) (mk_sets (fun _ => False) (fun _ => False)).
Proof. right. split; intros x; done. Qed.

Lemma mprotect_exact_witness :
  exists S', mprotect demo_memory_host 0x11000 0x1000 PROT_READ demo_memory = Some (0, S') /\ unprotected_part demo_memory S' /\
    (forall w x, shown (protection_of (guest S')) w x <->
       reprotect_sets PROT_READ 0x11000 0x12000 (shown (protection_of (guest demo_memory))) w x) /\
    (forall va v, holds (anonmap S') va v <-> reprotected 0x11000 0x12000 1 (anonmap demo_memory) va v).
Proof.
  destruct (mprotect_exact demo_memory_host 0 (mk_sets (fun _ => False) (fun _ => False)) demo_memory 0x11000 0x1000 PROT_READ)
    as (S' & Hpart & _ & E & _ & _ & Hs & _ & Ha & _);
    try reflexivity; try lia; [apply init_ok|intros []; reflexivity|apply init_bus_ok|apply demo_sound|apply demo_mappings_sound|].
  by exists S'.
Defined.

Definition refusing_host : memory_host :=
  mk_memory_host demo_gmap_host (mh_munmap demo_memory_host) (fun _ _ _ _ => inl ENOMEM) (mh_mlock demo_memory_host) (mh_munlock demo_memory_host)
    (mh_map_zero demo_memory_host) (mh_remove demo_memory_host) true true true vma_host true true.

(** A refused [mprotect] has revived the parked bytes all the same. *)
Definition parked_memory : memory_state :=
  set_guest (set_bus (mk_bus [] [mk_range 0x11000 0x12000] 1 false 0 UINT64_MAX 0 0 0 []) demo_mapped) demo_memory.

Example refused_mprotect_revives :
  (fun '(r, T) => (r, map (fun r => (RangeLedger.lo r, RangeLedger.hi r)) (g_gbus (bus (guest T))), lengthZ (g_gbus_parked (bus (guest T))))) <$>
    mprotect refusing_host 0x11000 0x1000 PROT_READ parked_memory = Some (- ENOMEM, [(0x11000, 0x12000)], 0).
Proof. vm_compute. reflexivity. Qed.

(** ** madvise *)

(** [MADV_DONTNEED] on writable private anonymous memory reads back as zero:
    whatever the page size of the host, exactly the bytes asked for are cleared,
    the edges that share a page of the host with other memory included, and
    nothing else of the state changes. *)
Theorem dontneed_zeroes H k S a0 a1 :
  host_granularity (mh_gmap H) = 2 ^ k -> 12 <= k <= 32 -> 0 <= a0 -> 0 < a1 -> a0 mod 4096 = 0 -> a0 + a1 + 2 ^ k < 2 ^ 64 ->
  0 <= anon_prot_if_contained a0 a1 (anonmap S) -> has_flag (anon_prot_if_contained a0 a1 (anonmap S)) PROT_WRITE = true ->
  (forall lo len prot, mh_map_zero H lo len prot = true) ->
  exists S', madvise H a0 a1 MADV_DONTNEED S = Some (0, S') /\ memory_only S S' /\
    forall x, host_memory (guest S') x = cleared a0 (a0 + a1) (host_memory (guest S)) x.
Proof.
  intros Hk Hkb Ha Hl Hm Hw Hp Hwr Hz. unfold madvise. rewrite has_flag_page, Hm by lia. cbn [negb Z.eqb advice_known].
  destruct (dontneed_clears H k a0 a1 (anon_prot_if_contained a0 a1 (anonmap S)) S) as (S' & HS & Hrest);
    [done|lia|done|done|done|done|by intros lo len; apply Hz|].
  exists S'. split; [|done]. destruct (Z.eqb_spec a1 0); [lia|]. destruct (Z.leb_spec 0 (anon_prot_if_contained a0 a1 (anonmap S))); [|lia].
  change (negb (advice_known MADV_DONTNEED)) with false. cbn -[dontneed anon_prot_if_contained].
  destruct (dontneed _ _ _ _ _) as [o T]. simpl in HS. by subst o.
Qed.

(** The host's page is four of the guest's: a page in its middle. *)
Definition coarse_host : memory_host :=
  mk_memory_host (mk_gmap_host (fun _ => HL_STATUS_OK) (fun _ _ => true) 16384) (mh_munmap demo_memory_host) (fun _ _ _ m => inr m)
    (fun _ _ => 0) (fun _ _ => 0) (fun _ _ _ => true) (fun _ _ => 0) true true true vma_host true true.

Lemma dontneed_zeroes_witness :
  exists S', madvise coarse_host 0x11000 0x1000 MADV_DONTNEED demo_memory = Some (0, S') /\ memory_only demo_memory S' /\
    forall x, host_memory (guest S') x = cleared 0x11000 (0x11000 + 0x1000) (host_memory (guest demo_memory)) x.
Proof. apply (dontneed_zeroes coarse_host 14 demo_memory 0x11000 0x1000); try reflexivity; try lia. vm_compute. discriminate. Defined.

(** ** The child of a fork *)

Definition wiped (l : list fork_range) (x : Z) : bool := existsb (fun r => in_interval (fst r) (fst r + snd r) x) l.

Lemma wipe_loop l : Forall (fun r : fork_range => 0 <= snd r) l -> forall S,
  let S' := foldl (fun S r => zero_memory (fst r) (fst r + snd r) S) S l in
  forall x, host_memory (guest S') x = if wiped l x then 0 else host_memory (guest S) x.
Proof.
  induction 1 as [|r l Hr Hl IH]; intros S; simpl; [done|]. intros x. rewrite IH, zero_memory_spec by lia. unfold cleared.
  destruct (in_interval _ _ x), (wiped l x); done.
Qed.

Lemma wiped_add a0 a1 l x : a0 <> 0 -> a1 <> 0 -> lengthZ l < FORK_RANGES ->
  wiped (wipefork_add a0 a1 l) x = in_interval a0 (a0 + a1) x || wiped l x.
Proof.
  intros Ha Hl Hroom. unfold wipefork_add. destruct (Z.eqb_spec a0 0), (Z.eqb_spec a1 0); try done. cbn [orb].
  destruct (existsb (fun r => (fst r =? a0) && (snd r =? a1)) l) eqn:He.
  - apply existsb_exists in He as (r & Hr & Heq). bool_props. destruct (in_interval a0 (a0 + a1) x) eqn:Hx; [|done].
    apply existsb_exists. exists r. split; [done|]. by replace (fst r) with a0 by lia; replace (snd r) with a1 by lia.
  - destruct (Z.leb_spec FORK_RANGES (lengthZ l)); [lia|]. unfold wiped. rewrite existsb_app. simpl. rewrite orb_false_r. apply orb_comm.
Qed.

(** Advice to wipe on fork, on memory within one anonymous mapping, is
    honoured while the table has room: the child of the next fork finds zeros in
    exactly the range advised and the ranges advised before, and finds the rest
    of memory as the parent left it; the parent's own memory is untouched. *)
Theorem wiped_in_child H S a0 a1 :
  0 < a0 -> 0 < a1 -> a0 mod 4096 = 0 -> 0 <= anon_prot_if_contained a0 a1 (anonmap S) ->
  Forall (fun r : fork_range => 0 <= snd r) (wipefork S) -> lengthZ (wipefork S) < FORK_RANGES ->
  exists S', madvise H a0 a1 MADV_WIPEONFORK S = Some (0, S') /\ guest S' = guest S /\
    forall x, host_memory (guest (wipefork_apply_child S')) x =
      if in_interval a0 (a0 + a1) x || wiped (wipefork S) x then 0 else host_memory (guest S) x.
Proof.
  intros Ha Hl Hm Hp Hf Hroom. exists (set_forks (wipefork_add a0 a1 (wipefork S)) (dontfork S) S). split; [|split; [done|]].
  - unfold madvise. rewrite has_flag_page, Hm by lia. change (negb (advice_known MADV_WIPEONFORK)) with false. cbn [negb Z.eqb].
    destruct (Z.eqb_spec a1 0); [lia|]. destruct (Z.ltb_spec (anon_prot_if_contained a0 a1 (anonmap S)) 0); [lia|]. done.
  - intros x. unfold wipefork_apply_child. rewrite wipe_loop; [simpl; by rewrite wiped_add by lia|]. simpl. unfold wipefork_add.
    destruct (_ || _); [done|]. destruct (existsb (fun r : Z * Z => (fst r =? a0) && (snd r =? a1)) (wipefork S)); [done|]. destruct (_ <=? _); [done|].
    apply Forall_app. split; [done|]. constructor; [simpl; lia|constructor].
Qed.

Lemma wiped_in_child_witness :
  exists S', madvise demo_memory_host 0x12000 0x1000 MADV_WIPEONFORK (set_forks [] [] demo_memory) = Some (0, S') /\
    guest S' = guest demo_memory /\
    forall x, host_memory (guest (wipefork_apply_child S')) x =
      if in_interval 0x12000 (0x12000 + 0x1000) x || wiped [] x then 0 else host_memory (guest demo_memory) x.
Proof.
  apply (wiped_in_child demo_memory_host (set_forks [] [] demo_memory) 0x12000 0x1000); try reflexivity; try lia; [vm_compute; discriminate|constructor].
Defined.

(** Advice to keep one page of a wiped range keeps all of it: the child reads
    the parent's bytes in the pages that were to be wiped. *)
Example keep_one_page_keeps_all :
  (fun '(r, T) => (r, wipefork T, host_memory (guest (wipefork_apply_child T)) 0x10001)) <$>
    madvise demo_memory_host 0x13000 0x1000 MADV_KEEPONFORK demo_memory = Some (0, [], 1) /\
  host_memory (guest (wipefork_apply_child demo_memory)) 0x10001 = 0.
Proof. split; vm_compute; reflexivity. Qed.

(** So does unmapping one page of it. *)
Example unmap_one_page_keeps_all :
  (fun '(r, T) => (r, wipefork T, host_memory (guest (wipefork_apply_child T)) 0x10001)) <$>
    munmap demo_memory_host 0x13000 0x1000 demo_memory = Some (0, [], 1).
Proof. vm_compute. reflexivity. Qed.

(** The charge of memory.max falls by what is asked, mapped or not. *)
Example unmapping_nothing_uncharges :
  (fun '(r, T) => (r, mem_charged T)) <$> munmap demo_memory_host 0x500000 0x3000 demo_memory = Some (0, 0x1000).
Proof. vm_compute. reflexivity. Qed.

(** ** brk *)

Fixpoint run_brks (H : memory_host) (l : list Z) (S : memory_state) : memory_state :=
  match l with
  | [] => S
  | a :: l => run_brks H l (snd (brk H a S))
  end.

Lemma brk_step H a S S' r : mh_growable H = true -> brk H a S = (r, S') ->
  0 < brk_lo S <= brk_cur S -> brk_cur S <= brk_hi S -> brk_hi S < 2 ^ 63 -> 0 < mem_max S < 2 ^ 63 ->
  brk_cur S - brk_lo S <= mem_charged S <= mem_max S ->
  r = brk_cur S' /\ (brk_cur S' = brk_cur S \/ brk_cur S' = a) /\ brk_lo S' = brk_lo S /\ brk_hi S' = brk_hi S /\ mem_max S' = mem_max S /\
  brk_lo S <= brk_cur S' <= brk_hi S /\ mem_charged S' - brk_cur S' = mem_charged S - brk_cur S /\ mem_charged S' <= mem_max S /\
  (brk_lo S <= a <= brk_hi S -> mem_charged S + (a - brk_cur S) <= mem_max S -> brk_cur S' = a).
Proof.
  intros Hg Hb Hlo Hhi H63 Hmax Hch. unfold brk in Hb. rewrite Hg in Hb. cbn [negb] in Hb.
  destruct (Z.eqb_spec a 0) as [->|Hne]. { injection Hb as <- <-. split_and!; try done; try lia; by left. }
  destruct (Z.leb_spec (brk_lo S) a), (Z.leb_spec a (brk_hi S)); cbn [andb] in Hb;
    try (injection Hb as <- <-; split_and!; try done; try lia; by left).
  destruct (Z.eqb_spec (mem_max S) 0); [lia|]. cbn [negb andb] in Hb.
  destruct (Z.ltb_spec (brk_cur S) a).
  - rewrite u64_small in Hb by lia. destruct (Z.ltb_spec (mem_max S) (mem_charged S + (a - brk_cur S))); injection Hb as <- <-; simpl.
    + rewrite u64_small by lia. split_and!; try done; try lia; by left.
    + split_and!; try done; try lia; by right.
  - destruct (Z.ltb_spec a (brk_cur S)); injection Hb as <- <-; simpl.
    + destruct (Z.ltb_spec (mem_charged S) (brk_cur S - a)); [lia|]. split_and!; try done; try lia; by right.
    + split_and!; try done; try lia; by right.
Qed.

(** Under a memory limit any sequence of [brk] calls keeps the break inside
    its reservation and the charge in step with it and under the limit; a break
    the reservation and the limit admit is granted, any other leaves it. *)
Theorem brk_within_limit H l S a :
  mh_growable H = true -> 0 < brk_lo S <= brk_cur S -> brk_cur S <= brk_hi S -> brk_hi S < 2 ^ 63 -> 0 < mem_max S < 2 ^ 63 ->
  brk_cur S - brk_lo S <= mem_charged S <= mem_max S ->
  let T := run_brks H l S in
  let T' := snd (brk H a T) in
  brk_lo S <= brk_cur T <= brk_hi S /\ mem_charged T = mem_charged S + (brk_cur T - brk_cur S) /\ mem_charged T <= mem_max S /\
  fst (brk H a T) = brk_cur T' /\ (brk_cur T' = brk_cur T \/ brk_cur T' = a) /\
  (brk_lo S <= a <= brk_hi S -> mem_charged T + (a - brk_cur T) <= mem_max S -> brk_cur T' = a).
Proof.
  intros Hg. revert S. induction l as [|b l IH]; intros S Hlo Hhi H63 Hmax Hch.
  - simpl. destruct (brk H a S) as [r S'] eqn:Hb. destruct (brk_step H a S S' r Hg Hb) as (-> & H1 & H2 & H3 & H4 & H5 & H6 & H7 & H8); try done.
    simpl. split_and!; try done; lia.
  - simpl. destruct (brk H b S) as [r S'] eqn:Hb. destruct (brk_step H b S S' r Hg Hb) as (_ & H1 & H2 & H3 & H4 & H5 & H6 & H7 & H8); try done. simpl.
    destruct (IH S') as (G1 & G2 & G3 & G4 & G5 & G6); lia.
Qed.

Definition brk_memory : memory_state :=
  mk_memory_state demo_mapped gmap_init [] [] [] [] [] [] 0x8000 0x4000 0x100000 0x101000 0x140000 false false false false [] [].

Lemma brk_within_limit_witness :
  let T := run_brks demo_memory_host [0x104000; 0; 0x10A000; 0x102000] brk_memory in
  let T' := snd (brk demo_memory_host 0x105000 T) in
  brk_lo brk_memory <= brk_cur T <= brk_hi brk_memory /\
  mem_charged T = mem_charged brk_memory + (brk_cur T - brk_cur brk_memory) /\ mem_charged T <= mem_max brk_memory /\
  fst (brk demo_memory_host 0x105000 T) = brk_cur T' /\ (brk_cur T' = brk_cur T \/ brk_cur T' = 0x105000) /\
  (brk_lo brk_memory <= 0x105000 <= brk_hi brk_memory -> mem_charged T + (0x105000 - brk_cur T) <= mem_max brk_memory -> brk_cur T' = 0x105000).
Proof. apply (brk_within_limit demo_memory_host [0x104000; 0; 0x10A000; 0x102000] brk_memory 0x105000); simpl; lia || done. Defined.

Example demo_brks : map (fun l => brk_cur (run_brks demo_memory_host l brk_memory)) [[0x104000]; [0x104000; 0x10A000]; [0x104000; 0x102000]] =
  [0x104000; 0x104000; 0x102000].
Proof. vm_compute. reflexivity. Qed.

(** A length that is no multiple of the page: its last page stays mapped and
    loses what protected it. *)
Definition guarded_memory : memory_state :=
  set_guest (set_protections (default (registries_init (mk_projection 0 0 0)) (gna_add true 0x12000 0x13000 (registries_init (mk_projection 0 0 0)))) demo_mapped)
    demo_memory.

Example partial_page_unguarded :
  (fun '(r, T) => (r, hl_gmap_contains 0x12000 0x1000 (gmap T), covered (ranges (g_gna (protection_of (guest T)))) 0x12000)) <$>
    munmap demo_memory_host 0x11000 0x1800 guarded_memory = Some (0, Some true, false) /\
  covered (ranges (g_gna (protection_of (guest guarded_memory)))) 0x12000 = true.
Proof. split; vm_compute; reflexivity. Qed.
