(* ===== verification/Signals.v ===== *)
(** * Signals

    [linux_abi/signal.c]: pending words, the queues of signal information,
    signalfd wake tokens, delivery to a handler and the return from it, and
    signals a process sends itself.

    Each function runs in guest context and is one step; the host's handlers
    are the step [host_sig_pend].  No process is traced and no image is
    displaced ([nonpie_fold] is the identity). *)

From S2P Require Import Prelude.

Definition SIGQ_DEPTH : Z := 128.
Definition HL_SFD_MAX : Z := 64.

(** ** State *)

Record sigaction := mk_sigaction {
  sa_handler : Z;         (** 0 is SIG_DFL and 1 is SIG_IGN *)
  sa_flags : Z;
  sa_mask : Z
}.

Record sigq_ent := mk_sigq_ent {
  qe_error : Z;
  qe_code : Z;
  qe_value : Z;
  qe_pid : Z;
  qe_uid : Z;
  qe_addr : Z;
  qe_tag : Z;
  qe_target_tid : Z;      (** 0 is process-directed *)
  qe_slots : Z            (** signalfds that hold a wake token for it *)
}.

(** The arrays [g_sigerror], [g_sigcode] and so on at one signal. *)
Record siginfo_slot := mk_slot {
  si_error : Z;
  si_code : Z;
  si_value : Z;
  si_pid : Z;
  si_uid : Z;
  si_addr : Z
}.

(** [sfd_pipe] is what the self-pipe holds; it never fills. *)
Record sfd_ofd := mk_sfd {
  sfd_refs : Z;
  sfd_open : bool;        (** [rd >= 0] and [wr >= 0] *)
  sfd_mask : Z;
  sfd_pipe : list Z
}.

(** The head of a ring is always 0: every removal compacts it.  [gmem] is guest
    memory, a word at each multiple of eight. *)
Record signals := mk_signals {
  g_sigact : Z -> sigaction;
  g_pending : Z;
  g_pending_hi : Z;
  g_sigq : Z -> list sigq_ent;
  g_siginfo : Z -> siginfo_slot;
  g_sfd : list sfd_ofd;
  gmem : Z -> Z
}.

(** [r_x] is [x0] to [x30], and [r_v] the 64 halves of the vector registers. *)
Record regs := mk_regs {
  r_x : list Z;
  r_v : list Z;
  r_nzcv : Z;
  r_sp : Z;
  r_pc : Z
}.

(** One level per running handler. *)
Record levels := mk_levels {
  sig_defer : Z;
  sig_defer_hi : Z;
  sig_depth : Z;
  sig_defer_stack : list Z;
  sig_defer_hi_stack : list Z;
  sig_frame_sp : list Z
}.

Record sync_fault := mk_sync { sync_signal : Z; sync_code : Z; sync_address : Z }.
Record force_marks := mk_force { force_deliver : Z; force_deliver_hi : bool }.
Record alt_stack := mk_alt { alt_sp : Z; alt_size : Z; alt_flags : Z }.

Record cpu := mk_cpu {
  c_tid : Z;              (** what [cpu_tid] answers *)
  sigmask : Z;
  tpending : Z;
  tpending_hi : Z;
  c_levels : levels;
  c_sync : sync_fault;
  c_force : force_marks;
  c_regs : regs;
  c_alt : alt_stack;
  irq : bool
}.

Definition upd {A} (i : Z) (x : A) (f : Z -> A) : Z -> A := fun j => if j =? i then x else f j.

Definition set_sigact (s : Z) (a : sigaction) (G : signals) : signals :=
  mk_signals (upd s a (g_sigact G)) (g_pending G) (g_pending_hi G) (g_sigq G) (g_siginfo G) (g_sfd G) (gmem G).
Definition set_pending (w hi : Z) (G : signals) : signals :=
  mk_signals (g_sigact G) w hi (g_sigq G) (g_siginfo G) (g_sfd G) (gmem G).
Definition set_sigq (s : Z) (l : list sigq_ent) (G : signals) : signals :=
  mk_signals (g_sigact G) (g_pending G) (g_pending_hi G) (upd s l (g_sigq G)) (g_siginfo G) (g_sfd G) (gmem G).
Definition set_siginfo (s : Z) (i : siginfo_slot) (G : signals) : signals :=
  mk_signals (g_sigact G) (g_pending G) (g_pending_hi G) (g_sigq G) (upd s i (g_siginfo G)) (g_sfd G) (gmem G).
Definition set_sfd (l : list sfd_ofd) (G : signals) : signals :=
  mk_signals (g_sigact G) (g_pending G) (g_pending_hi G) (g_sigq G) (g_siginfo G) l (gmem G).
Definition set_gmem (m : Z -> Z) (G : signals) : signals :=
  mk_signals (g_sigact G) (g_pending G) (g_pending_hi G) (g_sigq G) (g_siginfo G) (g_sfd G) m.

Definition set_sigmask (m : Z) (c : cpu) : cpu :=
  mk_cpu (c_tid c) m (tpending c) (tpending_hi c) (c_levels c) (c_sync c) (c_force c) (c_regs c) (c_alt c) (irq c).
Definition set_tpending (w hi : Z) (c : cpu) : cpu :=
  mk_cpu (c_tid c) (sigmask c) w hi (c_levels c) (c_sync c) (c_force c) (c_regs c) (c_alt c) (irq c).
Definition set_levels (l : levels) (c : cpu) : cpu :=
  mk_cpu (c_tid c) (sigmask c) (tpending c) (tpending_hi c) l (c_sync c) (c_force c) (c_regs c) (c_alt c) (irq c).
Definition set_sync (y : sync_fault) (c : cpu) : cpu :=
  mk_cpu (c_tid c) (sigmask c) (tpending c) (tpending_hi c) (c_levels c) y (c_force c) (c_regs c) (c_alt c) (irq c).
Definition set_force (f : force_marks) (c : cpu) : cpu :=
  mk_cpu (c_tid c) (sigmask c) (tpending c) (tpending_hi c) (c_levels c) (c_sync c) f (c_regs c) (c_alt c) (irq c).
Definition set_regs (r : regs) (c : cpu) : cpu :=
  mk_cpu (c_tid c) (sigmask c) (tpending c) (tpending_hi c) (c_levels c) (c_sync c) (c_force c) r (c_alt c) (irq c).
Definition set_alt (a : alt_stack) (c : cpu) : cpu :=
  mk_cpu (c_tid c) (sigmask c) (tpending c) (tpending_hi c) (c_levels c) (c_sync c) (c_force c) (c_regs c) a (irq c).
Definition set_irq (c : cpu) : cpu :=
  mk_cpu (c_tid c) (sigmask c) (tpending c) (tpending_hi c) (c_levels c) (c_sync c) (c_force c) (c_regs c) (c_alt c) true.

(** ** Pending words *)

Definition valid_signal (s : Z) : bool := (1 <=? s) && (s <=? 64).
Definition signal_pending_bit (s : Z) : Z := if s =? 64 then 1 else Z.shiftl 1 s.
Definition mask_bit (s : Z) : Z := Z.shiftl 1 (s - 1).

Definition process_pending_test (s : Z) (G : signals) : bool :=
  valid_signal s && has_flag (if s =? 64 then g_pending_hi G else g_pending G) (signal_pending_bit s).
Definition process_pending_set (s : Z) (G : signals) : signals :=
  if negb (valid_signal s) then G
  else if s =? 64 then set_pending (g_pending G) (Z.lor (g_pending_hi G) (signal_pending_bit s)) G
  else set_pending (Z.lor (g_pending G) (signal_pending_bit s)) (g_pending_hi G) G.
Definition process_pending_clear (s : Z) (G : signals) : signals :=
  if negb (valid_signal s) then G
  else if s =? 64 then set_pending (g_pending G) (Z.ldiff (g_pending_hi G) (signal_pending_bit s)) G
  else set_pending (Z.ldiff (g_pending G) (signal_pending_bit s)) (g_pending_hi G) G.

Definition thread_pending_test (s : Z) (c : cpu) : bool :=
  valid_signal s && (if s =? 64 then has_flag (tpending_hi c) 1 else has_flag (tpending c) (signal_pending_bit s)).
Definition thread_pending_set (s : Z) (c : cpu) : cpu :=
  if negb (valid_signal s) then c
  else if s =? 64 then set_tpending (tpending c) 1 c
  else set_tpending (Z.lor (tpending c) (signal_pending_bit s)) (tpending_hi c) c.
Definition thread_pending_clear (s : Z) (c : cpu) : cpu :=
  if negb (valid_signal s) then c
  else if s =? 64 then set_tpending (tpending c) 0 c
  else set_tpending (Z.ldiff (tpending c) (signal_pending_bit s)) (tpending_hi c) c.

Definition signal_force_test (s : Z) (c : cpu) : bool :=
  if s =? 64 then force_deliver_hi (c_force c) else has_flag (force_deliver (c_force c)) (signal_pending_bit s).
Definition signal_force_set (s : Z) (c : cpu) : cpu :=
  let f := c_force c in
  if s =? 64 then set_force (mk_force (force_deliver f) true) c
  else set_force (mk_force (Z.lor (force_deliver f) (signal_pending_bit s)) (force_deliver_hi f)) c.
Definition signal_force_clear (s : Z) (c : cpu) : cpu :=
  let f := c_force c in
  if s =? 64 then set_force (mk_force (force_deliver f) false) c
  else set_force (mk_force (Z.ldiff (force_deliver f) (signal_pending_bit s)) (force_deliver_hi f)) c.

Definition sig_is_rt (s : Z) : bool := (32 <=? s) && (s <=? 64).
Definition sig_is_sync (s : Z) : bool := existsb (Z.eqb s) [4; 5; 7; 8; 11].
Definition sig_default_terminates (s : Z) : bool :=
  if existsb (Z.eqb s) [17; 18; 23; 28; 19; 20; 21; 22] then false else valid_signal s.
Definition sig_coredumps (s : Z) : bool := existsb (Z.eqb s) [3; 4; 5; 6; 7; 8; 11; 24; 25; 31].

(** ** signalfd tokens *)

(** The slots that watch the signal, as a word. *)
Fixpoint subscribers_from (slot s : Z) (l : list sfd_ofd) : Z :=
  match l with
  | [] => 0
  | d :: l =>
      let rest := subscribers_from (slot + 1) s l in
      if (0 <? sfd_refs d) && sfd_open d && has_flag (sfd_mask d) (mask_bit s) then Z.lor (Z.shiftl 1 slot) rest else rest
  end.
Definition sfd_subscribers (s : Z) (G : signals) : Z := subscribers_from 0 s (g_sfd G).

Definition put_token (s : Z) (d : sfd_ofd) : sfd_ofd := mk_sfd (sfd_refs d) (sfd_open d) (sfd_mask d) (sfd_pipe d ++ [s]).
Definition take_token (d : sfd_ofd) : sfd_ofd := mk_sfd (sfd_refs d) (sfd_open d) (sfd_mask d) (tl (sfd_pipe d)).

Fixpoint deliver_slots_from (slot slots s : Z) (l : list sfd_ofd) : list sfd_ofd :=
  match l with
  | [] => []
  | d :: l => (if has_flag slots (Z.shiftl 1 slot) && sfd_open d then put_token s d else d) :: deliver_slots_from (slot + 1) slots s l
  end.
Definition sfd_deliver_slots (slots s : Z) (G : signals) : signals := set_sfd (deliver_slots_from 0 slots s (g_sfd G)) G.

Fixpoint consume_slots_from (slot slots : Z) (l : list sfd_ofd) : list sfd_ofd :=
  match l with
  | [] => []
  | d :: l =>
      (if has_flag slots (Z.shiftl 1 slot) && sfd_open d then take_token d else d) :: consume_slots_from (slot + 1) slots l
  end.
Definition sfd_consume_slots (slots : Z) (G : signals) : signals := set_sfd (consume_slots_from 0 slots (g_sfd G)) G.

(** [sfd_deliver] wakes every subscriber there is. *)
Definition sfd_deliver (s : Z) (G : signals) : signals :=
  if negb (valid_signal s) then G else sfd_deliver_slots (sfd_subscribers s G) s G.
Definition sfd_routed (s : Z) (G : signals) : bool :=
  valid_signal s &&
  existsb (fun d => (0 <? sfd_refs d) && sfd_open d && has_flag (sfd_mask d) (mask_bit s)) (g_sfd G).

(** ** Queues *)

(** 1 is a new instance, 0 one that coalesced, -1 a full queue. *)
Definition sigq_push_target_locked (s target_tid : Z) (wake_signalfd : bool) (e : sigq_ent) (G : signals) : Z * signals :=
  if negb (valid_signal s) then (0, G)
  else
    let duplicate := negb (sig_is_rt s) && existsb (fun q => qe_target_tid q =? target_tid) (g_sigq G s) in
    if negb duplicate && (lengthZ (g_sigq G s) <? SIGQ_DEPTH) then
      let slots := if wake_signalfd then sfd_subscribers s G else 0 in
      let e := mk_sigq_ent (qe_error e) (qe_code e) (qe_value e) (qe_pid e) (qe_uid e) (qe_addr e) (qe_tag e) target_tid slots in
      let G := set_sigq s (g_sigq G s ++ [e]) G in
      let G := if negb (slots =? 0) then sfd_deliver_slots slots s G else G in
      (1, if target_tid =? 0 then process_pending_set s G else G)
    else if negb duplicate then (-1, G)
    else (0, if target_tid =? 0 then process_pending_set s G else G).

Definition sigq_push (s : Z) (e : sigq_ent) (G : signals) : Z * signals := sigq_push_target_locked s 0 false e G.
Definition sigq_push_signalfd (s : Z) (e : sigq_ent) (G : signals) : Z * signals := sigq_push_target_locked s 0 true e G.

Definition sigq_tag_queued (s tag : Z) (G : signals) : bool :=
  valid_signal s && existsb (fun q => qe_tag q =? tag) (g_sigq G s).

Definition sigq_drop_tag (s tag : Z) (G : signals) : signals :=
  if negb (valid_signal s) || (tag =? 0) then G
  else
    let kept := List.filter (fun q => negb (qe_tag q =? tag)) (g_sigq G s) in
    let dropped := lengthZ (g_sigq G s) - lengthZ kept in
    let G := set_sigq s kept G in
    if (0 <? dropped) && (lengthZ kept =? 0) then process_pending_clear s G else G.

Definition eligible (tid : Z) (q : sigq_ent) : bool := (qe_target_tid q =? 0) || (qe_target_tid q =? tid).

(** The oldest entry the thread may take, and the others in their order. *)
Fixpoint take_first (tid : Z) (l : list sigq_ent) : option (sigq_ent * list sigq_ent) :=
  match l with
  | [] => None
  | q :: l =>
      if eligible tid q then Some (q, l)
      else '(e, kept) ← take_first tid l; Some (e, q :: kept)
  end.

(** The entry taken, with the state of the queue and of the thread. *)
Definition sigq_pop_for (s : Z) (c : cpu) (G : signals) : option sigq_ent * cpu * signals :=
  if negb (valid_signal s) then (None, c, G)
  else
    match take_first (c_tid c) (g_sigq G s) with
    | None => (None, c, G)
    | Some (e, kept) =>
        let process_remaining := existsb (fun q => qe_target_tid q =? 0) kept in
        let targeted_remaining := existsb (fun q => qe_target_tid q =? c_tid c) kept in
        let popped_targeted := negb (qe_target_tid e =? 0) in
        let G := set_sigq s kept G in
        let G := if negb popped_targeted && negb process_remaining then process_pending_clear s G else G in
        let c := if popped_targeted && negb targeted_remaining then thread_pending_clear s c else c in
        (Some e, c, sfd_consume_slots (qe_slots e) G)
    end.

Definition sigq_flush (s : Z) (G : signals) : signals :=
  if negb (valid_signal s) then G else process_pending_clear s (set_sigq s [] G).

Definition sigq_drop_target_tid (tid : Z) (G : signals) : signals :=
  if tid <=? 0 then G
  else
    mk_signals (g_sigact G) (g_pending G) (g_pending_hi G)
      (fun s => if valid_signal s then List.filter (fun q => negb (qe_target_tid q =? tid)) (g_sigq G s) else g_sigq G s)
      (g_siginfo G) (g_sfd G) (gmem G).

(** The thread that a [tkill] names keeps the signal to itself. *)
Definition thread_directed_signal_publish (s : Z) (e : sigq_ent) (target : cpu) (G : signals) : Z * cpu * signals :=
  let '(queued, G) := sigq_push_target_locked s (c_tid target) false e G in
  (queued, if 0 <=? queued then thread_pending_set s target else target, G).
