(* ===== verification/SignalDelivery.v ===== *)
(** * Delivery of signals

    [maybe_deliver_signal] of [linux_abi/signal.c] and the return from a
    handler, with the frame [translator/guest/aarch64/signal.c] builds on the
    guest stack and restores from it. *)

From S2P Require Import Prelude Signals.

Definition SIGRETURN_PC : Z := 0xFFFFFFFFFFF0.
Definition SIG_LEVELS : Z := 32.       (** the length of [sig_defer_stack] *)
Definition SA_ONSTACK_L : Z := 0x08000000.
Definition SS_DISABLE_L : Z := 2.
Definition SA_NODEFER : Z := 0x40000000.
Definition SA_RESETHAND : Z := 0x80000000.

(** ** The frame *)

(** Two 32-bit stores, at an address and four bytes on. *)
Definition pair32 (lo hi : Z) : Z := u32 lo + u32 hi * 2 ^ 32.

Fixpoint write_words (a : Z) (l : list Z) (m : Z -> Z) : Z -> Z :=
  match l with
  | [] => m
  | w :: l => write_words (a + 8) l (upd a w m)
  end.

Fixpoint read_words (a : Z) (n : nat) (m : Z -> Z) : list Z :=
  match n with
  | O => []
  | S n => m a :: read_words (a + 8) n m
  end.

Definition runs_on_alt (a : sigaction) (c : cpu) : bool :=
  let alt := c_alt c in
  has_flag (sa_flags a) SA_ONSTACK_L && negb (alt_sp alt =? 0) && negb (has_flag (alt_flags alt) SS_DISABLE_L) &&
  negb ((alt_sp alt <=? r_sp (c_regs c)) && (r_sp (c_regs c) <? u64 (alt_sp alt + alt_size alt))).

Definition frame_base (a : sigaction) (c : cpu) : Z :=
  if runs_on_alt a c then u64 (alt_sp (c_alt c) + alt_size (c_alt c)) else r_sp (c_regs c).
Definition frame_at (a : sigaction) (c : cpu) : Z := Z.ldiff (u64 (frame_base a c - 4688)) 15.

(** The frame's 586 words. *)
Definition write_siginfo (s : Z) (i : siginfo_slot) (code address frame : Z) (m : Z -> Z) : Z -> Z :=
  write_words frame
    [pair32 s (si_error i); pair32 code 0;
     if si_pid i =? 0 then address else pair32 (si_pid i) (si_uid i); si_value i] m.

Definition write_ucontext (a : sigaction) (c : cpu) (frame : Z) (m : Z -> Z) : Z -> Z :=
  let alt := c_alt c in
  let r := c_regs c in
  let uc := frame + 128 in
  let mc := uc + 176 in
  let rsv := mc + 288 in
  let ss_flags :=
    if (alt_sp alt =? 0) || has_flag (alt_flags alt) SS_DISABLE_L then SS_DISABLE_L
    else if negb (frame_base a c =? r_sp r) then 1 else 0 in
  let m := upd (uc + 16) (alt_sp alt) m in
  let m := upd (uc + 32) (alt_size alt) m in
  let m := upd (uc + 24) (pair32 ss_flags 0) m in
  let m := upd (uc + 40) (sigmask c) m in
  let m := write_words (mc + 8) (r_x r) m in
  let m := upd (mc + 256) (r_sp r) m in
  let m := upd (mc + 264) (r_pc r) m in
  let m := upd (mc + 272) (r_nzcv r) m in
  let m := upd rsv (pair32 0x46508001 528) m in
  let m := upd (rsv + 8) 0 m in
  let m := write_words (rsv + 16) (r_v r) m in
  upd (rsv + 16 + 512) 0 m.

(** The frame and the siginfo arguments it takes away. *)
Definition build_signal_frame (s : Z) (synchronous : bool) (c : cpu) (G : signals) : cpu * signals :=
  let a := g_sigact G s in
  let i := g_siginfo G s in
  let r := c_regs c in
  let y := c_sync c in
  let code := if synchronous then sync_code y else si_code i in
  let address := if synchronous then sync_address y else si_addr i in
  let frame := frame_at a c in
  let m := write_words frame (replicate 586 0) (gmem G) in
  let m := write_siginfo s i code address frame m in
  let taken := mk_slot 0 (if synchronous then si_code i else 0) 0 0 0 (if synchronous then si_addr i else 0) in
  let G := set_siginfo s taken G in
  let c' := if synchronous then set_sync (mk_sync (sync_signal y) 0 0) c else c in
  let m := write_ucontext a c frame m in
  let trampoline := frame + 4608 in
  let m := if s =? 32 then upd trampoline (pair32 0xd2801168 0xd4000001) m else m in
  let lr := if s =? 32 then trampoline else SIGRETURN_PC in
  let x := insertZ (insertZ (insertZ (insertZ (r_x r) 0 s) 1 frame) 2 (frame + 128)) 30 lr in
  let c' := set_regs (mk_regs x (r_v r) (r_nzcv r) frame (sa_handler a)) c' in
  let mask := Z.lor (sigmask c) (sa_mask a) in
  let mask := if has_flag (sa_flags a) SA_NODEFER then mask else Z.lor mask (mask_bit s) in
  (set_sigmask mask c', set_gmem m G).

Definition do_sigreturn (m : Z -> Z) (c : cpu) : cpu :=
  let uc := r_sp (c_regs c) + 128 in
  let mc := uc + 176 in
  set_sigmask (m (uc + 40))
    (set_regs (mk_regs (read_words (mc + 8) 31 m) (read_words (mc + 288 + 16) 64 m) (m (mc + 272)) (m (mc + 256)) (m (mc + 264))) c).

(** ** Levels *)

Definition stack_at (l : list Z) (i : Z) : Z := default 0 (lookupZ l i).

(** The deferred set of the enclosing level comes back. *)
Definition pop_level (l : levels) : levels :=
  let depth := sig_depth l - 1 in
  mk_levels (if 0 <? depth then stack_at (sig_defer_stack l) depth else 0)
    (if 0 <? depth then stack_at (sig_defer_hi_stack l) depth else 0)
    depth (sig_defer_stack l) (sig_defer_hi_stack l) (sig_frame_sp l).

Definition G_IS_SIGNAL_RETURN (c : cpu) : bool :=
  let l := c_levels c in
  (r_pc (c_regs c) =? SIGRETURN_PC) ||
  ((0 <? sig_depth l) && (r_pc (c_regs c) =? stack_at (sig_frame_sp l) (sig_depth l - 1) + 4608)).

(** A jump out of handlers leaves the stack pointer above their frames; every
    turn gives up a level, so there are [sig_depth] of them at most. *)
Fixpoint unwind (turns : nat) (c : cpu) : cpu :=
  match turns with
  | O => c
  | S turns =>
      let l := c_levels c in
      if negb (G_IS_SIGNAL_RETURN c) && (0 <? sig_depth l) &&
         (stack_at (sig_frame_sp l) (sig_depth l - 1) <? r_sp (c_regs c))
      then unwind turns (set_levels (pop_level l) c)
      else c
  end.

Definition push_level (s : Z) (c : cpu) (G : signals) : cpu :=
  let l := c_levels c in
  let depth := sig_depth l in
  if depth <? SIG_LEVELS then
    let hi := negb (s =? 64) && (process_pending_test 64 G || thread_pending_test 64 c) in
    set_levels
      (mk_levels
         (Z.lor (sig_defer l) (Z.ldiff (Z.lor (g_pending G) (tpending c)) (signal_pending_bit s)))
         (if hi then 1 else sig_defer_hi l)
         (depth + 1)
         (insertZ (sig_defer_stack l) depth (sig_defer l))
         (insertZ (sig_defer_hi_stack l) depth (sig_defer_hi l))
         (sig_frame_sp l)) c
  else c.

Definition record_frame (c : cpu) : cpu :=
  let l := c_levels c in
  if 0 <? sig_depth l then
    set_levels
      (mk_levels (sig_defer l) (sig_defer_hi l) (sig_depth l) (sig_defer_stack l) (sig_defer_hi_stack l)
         (insertZ (sig_frame_sp l) (sig_depth l - 1) (r_sp (c_regs c)))) c
  else c.

(** ** Which signals can be delivered *)

Definition signal_deliverable (c : cpu) (G : signals) (s : Z) : bool :=
  if negb (valid_signal s) then false
  else if negb (process_pending_test s G) && negb (thread_pending_test s c) then false
  else
    let forced := signal_force_test s c in
    if has_flag (sigmask c) (mask_bit s) && negb forced then false
    else if (if s =? 64 then negb (sig_defer_hi (c_levels c) =? 0)
             else has_flag (sig_defer (c_levels c)) (signal_pending_bit s)) && negb forced then false
    else true.

(** [63 - clz] is the logarithm; a word has 64 bits at most to go through. *)
Fixpoint pending_scan (turns : nat) (c : cpu) (G : signals) (pending : Z) : option bool :=
  match turns with
  | O => None
  | S turns =>
      if pending =? 0 then Some false
      else
        let s := Z.log2 pending in
        let pending := Z.ldiff pending (Z.shiftl 1 s) in
        if signal_deliverable c G s then Some true else pending_scan turns c G pending
  end.

Definition signal_deliverable_for_cpu (c : cpu) (G : signals) : option bool :=
  if negb (Z.lor (g_pending_hi G) (tpending_hi c) =? 0) && signal_deliverable c G 64 then Some true
  else pending_scan 65 c G (Z.lor (g_pending G) (tpending c)).

(** ** Delivery *)

Inductive outcome :=
| Ran
| Died (s : Z)      (** [guest_group_fatal] *)
| Stopped (s : Z).  (** the process stops until SIGCONT, then goes on *)

(** An instance of the signal is claimed and its handler entered. *)
Definition enter_handler (s : Z) (popped : option sigq_ent) (had_t : bool) (c : cpu) (G : signals) : cpu * signals :=
  let c := signal_force_clear s c in
  let G :=
    match popped with
    | Some e => set_siginfo s (mk_slot (qe_error e) (qe_code e) (qe_value e) (qe_pid e) (qe_uid e) (qe_addr e)) G
    | None => G
    end in
  let c := push_level s c G in
  let flags := sa_flags (g_sigact G s) in
  let synchronous := had_t && (sync_signal (c_sync c) =? s) in
  let '(c, G) := build_signal_frame s synchronous c G in
  let c := record_frame c in
  let c := if synchronous then set_sync (mk_sync 0 0 0) c else c in
  (c, if has_flag flags SA_RESETHAND
      then set_sigact s (mk_sigaction 0 (sa_flags (g_sigact G s)) (sa_mask (g_sigact G s))) G else G).

(** One instance is taken out: its entry, if it has one, whether the thread's
    bit is behind it, and whether there was one at all. *)
Definition claim_instance (s : Z) (c : cpu) (G : signals) : option sigq_ent * bool * bool * cpu * signals :=
  let '(popped, c, G) := sigq_pop_for s c G in
  let was_popped := match popped with Some _ => true | None => false end in
  let had_t := thread_pending_test s c in
  let c := if negb was_popped && had_t then thread_pending_clear s c else c in
  let had_p := negb was_popped && process_pending_test s G in
  let G := if was_popped then G else process_pending_clear s G in
  (popped, had_t, was_popped || had_t || had_p, c, G).

Definition discard (s : Z) (c : cpu) (G : signals) : cpu * signals :=
  (thread_pending_clear s (signal_force_clear s c), process_pending_clear s (sigq_flush s G)).

(** The signals left to look at, highest first. *)
Fixpoint deliver_scan (l : list Z) (c : cpu) (G : signals) : outcome * cpu * signals :=
  match l with
  | [] => (Ran, c, G)
  | s :: l =>
      if negb (process_pending_test s G) && negb (thread_pending_test s c) then deliver_scan l c G
      else if has_flag (sigmask c) (mask_bit s) && negb (signal_force_test s c) then deliver_scan l c G
      else if (if s =? 64 then negb (sig_defer_hi (c_levels c) =? 0)
               else has_flag (sig_defer (c_levels c)) (signal_pending_bit s)) && negb (signal_force_test s c)
           then deliver_scan l c G
      else
        let h := sa_handler (g_sigact G s) in
        if h <=? 1 then
          let '(c, G) := discard s c G in
          if (h =? 0) && sig_default_terminates s then (Died s, c, G) else deliver_scan l c G
        else
          let '(popped, had_t, claimed, c, G) := claim_instance s c G in
          if claimed then let '(c, G) := enter_handler s popped had_t c G in (Ran, c, G)
          else deliver_scan l c G
  end.

Definition from_64 : list Z := rev (seqZ 1 64).

Definition maybe_deliver_signal (c : cpu) (G : signals) : outcome * cpu * signals :=
  deliver_scan from_64 (unwind (Z.to_nat (sig_depth (c_levels c))) c) G.

Definition signal_return_complete (c : cpu) (G : signals) : outcome * cpu * signals :=
  maybe_deliver_signal
    (if 0 <? sig_depth (c_levels c) then set_levels (pop_level (c_levels c)) c else c) G.

(** The dispatcher's arm, and system call 139. *)
Definition sigreturn (c : cpu) (G : signals) : outcome * cpu * signals :=
  signal_return_complete (do_sigreturn (gmem G) c) G.
