(* ===== verification/SignalCalls.v ===== *)
(** * Sending signals, and the system calls on them

    The sending half of [linux_abi/signal.c], the signal parts of
    [linux_abi/thread/lifecycle.c], and the calls of
    [linux_abi/syscall/signal.c] that act on the calling process.

    An integer argument is the [int] the code casts it to.  Dispositions the
    engine mirrors onto the host, and [kill] of another process, are left out;
    [checkpoint] and [ptrace] stops are not requested unless an argument says
    so. *)

From S2P Require Import Prelude Signals SignalDelivery.

Definition HL_SI_TKILL : Z := -6.
Definition SA_RESTART_L : Z := 0x10000000.
Definition SIG_EINTR : Z := 4.
Definition SIG_EAGAIN : Z := 11.
Definition SIG_EFAULT : Z := 14.
Definition SIG_EINVAL : Z := 22.
Definition SIG_ENOMEM : Z := 12.
Definition SIG_ESRCH : Z := 3.

(** A pointer the guest passes, with what it holds. *)
Inductive user (A : Type) :=
| UNull
| UBad
| UAt (a : A).
Arguments UNull {A}.
Arguments UBad {A}.
Arguments UAt {A} a.

Definition u_null {A} (p : user A) : bool := match p with UNull => true | _ => false end.
Definition u_bad {A} (p : user A) : bool := match p with UBad => true | _ => false end.

(** ** Host handlers *)

(** [host_sig_pend], on the thread the host picked. *)
Definition host_sig_pend (s : Z) (c : cpu) (G : signals) : cpu * signals :=
  (set_irq c, sfd_deliver s (process_pending_set s G)).

(** The process's own sigexit and sigstop tables. *)
Record sigexit_ent := mk_sigexit { ex_pid : Z; ex_signo : Z; ex_core : bool }.

Fixpoint sigexit_record (pid signo : Z) (core : bool) (l : list sigexit_ent) : list sigexit_ent :=
  match l with
  | [] => []
  | e :: l => if ex_pid e =? 0 then mk_sigexit pid signo core :: l else e :: sigexit_record pid signo core l
  end.

Fixpoint sigexit_scan (pid : Z) (consume : bool) (l : list sigexit_ent) : option (sigexit_ent * list sigexit_ent) :=
  match l with
  | [] => None
  | e :: l =>
      if ex_pid e =? pid then Some (e, (if consume then mk_sigexit 0 (ex_signo e) (ex_core e) else e) :: l)
      else '(found, l) ← sigexit_scan pid consume l; Some (found, e :: l)
  end.
Definition sigexit_lookup (pid : Z) (consume : bool) (l : list sigexit_ent) : option (sigexit_ent * list sigexit_ent) :=
  if pid <=? 0 then None else sigexit_scan pid consume l.

(** ** Raising a signal *)

Definition info (error code value pid uid addr : Z) : sigq_ent := mk_sigq_ent error code value pid uid addr 0 0 0.

Definition raise_guest_signal_info (s : Z) (e : sigq_ent) (c : cpu) (G : signals) : outcome * signals :=
  if negb (valid_signal s) then (Ran, G)
  else
    let h := sa_handler (g_sigact G s) in
    let blocked := has_flag (sigmask c) (mask_bit s) in
    if blocked && sfd_routed s G then (Ran, (sigq_push_signalfd s e G).2)
    else if 1 <? h then (Ran, (sigq_push s e G).2)
    else if h =? 1 then (Ran, G)
    else if blocked then (Ran, (sigq_push_signalfd s e G).2)
    else if existsb (Z.eqb s) [17; 18; 23; 28] then (Ran, G)
    else if sig_default_terminates s then (Died s, G)
    else (Stopped s, G).

(** [pid] and [ruid] are [container_pid()] and [g_ruid]. *)
Definition raise_guest_signal (pid ruid s : Z) (c : cpu) (G : signals) : outcome * signals :=
  raise_guest_signal_info s (info 0 0 0 pid ruid 0) c G.

(** ** Threads *)

(** The registry's slots in use, and what the calls read of the process. *)
Record process := mk_process {
  p_threads : list cpu;
  p_signals : signals;
  p_pid : Z;
  p_ruid : Z
}.

Definition set_thread (i : Z) (c : cpu) (P : process) : process :=
  mk_process (insertZ (p_threads P) i c) (p_signals P) (p_pid P) (p_ruid P).
Definition set_signals (G : signals) (P : process) : process := mk_process (p_threads P) G (p_pid P) (p_ruid P).

Definition find_tid (tid : Z) (l : list cpu) : option Z := scan_from (fun c => c_tid c =? tid) l 0.

Definition thread_tid_alive (tid : Z) (P : process) : bool :=
  match find_tid tid (p_threads P) with Some _ => true | None => false end.

Definition thread_tid_blocks_signal (tid s : Z) (P : process) : bool :=
  valid_signal s &&
  match find_tid tid (p_threads P) ≫= lookupZ (p_threads P) with
  | Some c => has_flag (sigmask c) (mask_bit s)
  | None => false
  end.

(** 1 when the thread was found, 0 when not, -1 when the queue is full.  The
    wake of a thread that waits is the host's. *)
Definition thread_target_signal_info (tid s : Z) (e : sigq_ent) (P : process) : Z * process :=
  match find_tid tid (p_threads P) with
  | None => (0, P)
  | Some i =>
      match lookupZ (p_threads P) i with
      | None => (0, P)
      | Some c =>
          let '(queued, c, G) := thread_directed_signal_publish s e c (p_signals P) in
          if queued <? 0 then (-1, P) else (1, set_signals G (set_thread i (set_irq c) P))
      end
  end.

(** [me] is the caller's slot, and [c] its state. *)
Definition thread_kill (me : Z) (c : cpu) (tid s : Z) (P : process) : Z * outcome * process :=
  let G := p_signals P in
  let fallback (P : process) :=
    let '(o, G) := raise_guest_signal_info s (info 0 HL_SI_TKILL 0 (p_pid P) (p_ruid P) 0) c (p_signals P) in
    (0, o, set_signals G P) in
  if valid_signal s && ((1 <? sa_handler (g_sigact G s)) || thread_tid_blocks_signal tid s P) then
    let i := g_siginfo G s in
    let G := set_siginfo s (mk_slot (si_error i) HL_SI_TKILL 0 (p_pid P) 0 (si_addr i)) G in
    let P := set_signals G P in
    let e := info 0 HL_SI_TKILL 0 (p_pid P) (p_ruid P) 0 in
    if tid =? c_tid c then
      let '(queued, c, G) := thread_directed_signal_publish s e c G in
      if queued <? 0 then (- SIG_EAGAIN, Ran, P) else (0, Ran, set_signals G (set_thread me (set_irq c) P))
    else
      let '(targeted, P) := thread_target_signal_info tid s e P in
      if 0 <? targeted then (0, Ran, P)
      else if targeted <? 0 then (- SIG_EAGAIN, Ran, P)
      else fallback P
  else fallback P.

Definition tkill (me : Z) (c : cpu) (tid s : Z) (P : process) : Z * outcome * process :=
  if (tid <=? 0) || (s <? 0) || (64 <? s) then (- SIG_EINVAL, Ran, P)
  else if negb (tid =? c_tid c) && negb (thread_tid_alive tid P) then (- SIG_ESRCH, Ran, P)
  else thread_kill me c tid s P.

Definition tgkill (me : Z) (c : cpu) (tgid tid s : Z) (P : process) : Z * outcome * process :=
  if (tgid <=? 0) || (tid <=? 0) || (s <? 0) || (64 <? s) then (- SIG_EINVAL, Ran, P)
  else if negb (tgid =? p_pid P) || (negb (tid =? c_tid c) && negb (thread_tid_alive tid P)) then (- SIG_ESRCH, Ran, P)
  else thread_kill me c tid s P.

(** [kill] of the process itself, and of the group 0 when it has no other
    member in it. *)
Definition kill_self (pid ruid s : Z) (c : cpu) (G : signals) : Z * outcome * signals :=
  if (s <? 0) || (64 <? s) then (- SIG_EINVAL, Ran, G)
  else let '(o, G) := raise_guest_signal pid ruid s c G in (0, o, G).

(** The siginfo's code, value, sender and uid. *)
Definition rt_sigqueueinfo (pid ruid s : Z) (siginfo : user (Z * Z * Z * Z)) (c : cpu) (G : signals) :
    Z * outcome * signals :=
  match siginfo with
  | UNull | UBad => (- SIG_EFAULT, Ran, G)
  | UAt (code, value, sender, uid) =>
      let '(o, G) :=
        if valid_signal s then
          raise_guest_signal_info s (info 0 code value (if sender =? 0 then pid else sender) uid 0) c G
        else raise_guest_signal pid ruid s c G in
      (0, o, G)
  end.

(** What a new thread takes over from its creator's signal state. *)
Definition spawn_signal_state (tid stack_top resume_pc : Z) (parent : cpu) : cpu :=
  let l := c_levels parent in
  let r := c_regs parent in
  mk_cpu tid (sigmask parent) 0 0
    (mk_levels (sig_defer l) 0 (sig_depth l) (sig_defer_stack l) (replicate 32 0) (sig_frame_sp l))
    (mk_sync 0 0 0) (mk_force 0 false)
    (mk_regs (insertZ (r_x r) 0 0) (r_v r) (r_nzcv r) stack_top resume_pc) (c_alt parent) false.

(** [thread_unregister]: the entries the thread alone could take go with it. *)
Definition thread_unregister (i : Z) (P : process) : process :=
  match lookupZ (p_threads P) i with
  | None => P
  | Some c =>
      mk_process (take (Z.to_nat i) (p_threads P) ++ drop (S (Z.to_nat i)) (p_threads P))
        (sigq_drop_target_tid (c_tid c) (p_signals P)) (p_pid P) (p_ruid P)
  end.

Definition empty_slot : siginfo_slot := mk_slot 0 0 0 0 0 0.

(** The child's; its signalfds get empty pipes of their own. *)
Definition signal_after_fork (c : cpu) (G : signals) : cpu * signals :=
  (set_tpending 0 0 c,
   mk_signals (g_sigact G) 0 0 (fun _ => []) (fun _ => empty_slot)
     (map (fun d => if (0 <? sfd_refs d) && sfd_open d then mk_sfd (sfd_refs d) (sfd_open d) (sfd_mask d) [] else d) (g_sfd G))
     (gmem G)).

(** ** Calls an interruption ends *)

Definition runnable_handler (c : cpu) (G : signals) (s : Z) : bool :=
  signal_deliverable c G s && (1 <? sa_handler (g_sigact G s)).

(** What a call that a signal interrupted does next. *)
Inductive interrupted :=
| Reblock          (** the host call is made again *)
| Restart          (** EINTR is hidden: the call runs again after the handler *)
| Interrupt        (** the guest sees EINTR *)
| Suspend.         (** the checkpoint keeps the call *)

Definition syscall_should_restart (exited checkpoint : bool) (c : cpu) (G : signals) : interrupted :=
  if exited then Interrupt
  else
    let handlers := List.filter (runnable_handler c G) (seqZ 1 64) in
    if negb (lengthZ handlers =? 0) then
      if forallb (fun s => has_flag (sa_flags (g_sigact G s)) SA_RESTART_L) handlers then Restart else Interrupt
    else if checkpoint then Suspend
    else Reblock.

(** The calls that are never restarted. *)
Definition svc_poll_retry (exited checkpoint : bool) (c : cpu) (G : signals) : interrupted :=
  if exited then Interrupt
  else if existsb (runnable_handler c G) (seqZ 1 64) then Interrupt
  else if checkpoint then Suspend
  else Reblock.

(** ** Masks and dispositions *)

(** The answer, what was stored through [old], and the thread. *)
Definition rt_sigprocmask (how : Z) (set : user Z) (old : user unit) (size : Z) (c : cpu) : Z * option Z * cpu :=
  if negb (size =? 8) then (- SIG_EINVAL, None, c)
  else if negb (u_null set) && negb (existsb (Z.eqb how) [0; 1; 2]) then (- SIG_EINVAL, None, c)
  else if u_bad set then (- SIG_EFAULT, None, c)
  else if u_bad old then (- SIG_EFAULT, None, c)
  else
    let stored := match old with UAt _ => Some (sigmask c) | _ => None end in
    match set with
    | UAt set =>
        let mask :=
          if how =? 0 then Z.lor (sigmask c) set
          else if how =? 1 then Z.ldiff (sigmask c) set
          else set in
        (0, stored, set_sigmask (Z.ldiff mask (Z.lor (Z.shiftl 1 (9 - 1)) (Z.shiftl 1 (19 - 1)))) c)
    | _ => (0, stored, c)
    end.

Definition rt_sigpending (set : user unit) (c : cpu) (G : signals) : Z * option Z :=
  match set with
  | UAt _ =>
      (0, Some (foldl (fun out s => if process_pending_test s G || thread_pending_test s c then Z.lor out (mask_bit s) else out)
                  0 (seqZ 1 64)))
  | _ => (- SIG_EFAULT, None)
  end.

Definition rt_sigaction (s : Z) (act : user sigaction) (old : user unit) (size : Z) (c : cpu) (G : signals) :
    Z * option sigaction * cpu * signals :=
  if negb (size =? 8) then (- SIG_EINVAL, None, c, G)
  else if (s <? 1) || (64 <? s) then (- SIG_EINVAL, None, c, G)
  else if (s =? 9) || (s =? 19) then (- SIG_EINVAL, None, c, G)
  else if u_bad act then (- SIG_EFAULT, None, c, G)
  else if u_bad old then (- SIG_EFAULT, None, c, G)
  else
    let stored := match old with UAt _ => Some (g_sigact G s) | _ => None end in
    match act with
    | UAt a =>
        let G := set_sigact s a G in
        if (sa_handler a =? 1) || ((sa_handler a =? 0) && negb (sig_default_terminates s)) then
          (0, stored, thread_pending_clear s c, sigq_flush s G)
        else (0, stored, c, G)
    | _ => (0, stored, c, G)
    end.

(** [struct sigaltstack]; the answer has the old one, when it is asked for. *)
Definition sigaltstack (new : user alt_stack) (old : user unit) (c : cpu) : Z * option alt_stack * cpu :=
  if u_bad new || u_bad old then (- SIG_EFAULT, None, c)
  else
    let status :=
      match new with
      | UAt n =>
          if negb (Z.ldiff (u32 (alt_flags n)) (Z.lor 3 0x80000000) =? 0) then - SIG_EINVAL
          else if negb (has_flag (alt_flags n) SS_DISABLE_L) && (alt_size n <? 2048) then - SIG_ENOMEM
          else 0
      | _ => 0
      end in
    if negb (status =? 0) then (status, None, c)
    else
      let a := c_alt c in
      let flags := if alt_sp a =? 0 then 2 else alt_flags a in
      let sp := r_sp (c_regs c) in
      let on := negb (alt_sp a =? 0) && negb (has_flag flags 2) && (alt_sp a <=? sp) && (sp <? u64 (alt_sp a + alt_size a)) in
      let stored :=
        match old with
        | UAt _ => Some (mk_alt (alt_sp a) (alt_size a) (if on then Z.lor flags 1 else flags))
        | _ => None
        end in
      match new with
      | UAt n => (0, stored, set_alt (mk_alt (alt_sp n) (alt_size n) (u32 (alt_flags n))) c)
      | _ => (0, stored, c)
      end.

(** ** Waiting *)

(** The signals the scan of [rt_sigsuspend] passes over lose their process bit. *)
Fixpoint suspend_scan (l : list Z) (newmask : Z) (G : signals) : option Z * signals :=
  match l with
  | [] => (None, G)
  | s :: l =>
      if negb (process_pending_test s G) || has_flag newmask (mask_bit s) then suspend_scan l newmask G
      else if sa_handler (g_sigact G s) <=? 1 then suspend_scan l newmask (process_pending_clear s G)
      else (Some s, G)
  end.

Definition host_signals (l : list Z) (c : cpu) (G : signals) : cpu * signals :=
  foldl (fun st s => host_sig_pend s st.1 st.2) (c, G) l.

(** Each element of [wakes] is what host handlers pend before a [sigsuspend] of
    the host returns.  [None] when the call still sleeps after the last. *)
Fixpoint suspend_loop (wakes : list (list Z)) (newmask : Z) (c : cpu) (G : signals) : option (Z * cpu * signals) :=
  match suspend_scan (seqZ 1 64) newmask G with
  | (Some s, G) => Some (s, c, G)
  | (None, G) =>
      match wakes with
      | [] => None
      | w :: wakes => let '(c, G) := host_signals w c G in suspend_loop wakes newmask c G
      end
  end.

Definition rt_sigsuspend (newmask : user Z) (size : Z) (wakes : list (list Z)) (c : cpu) (G : signals) :
    option (Z * cpu * signals) :=
  if negb (size =? 8) then Some (- SIG_EINVAL, c, G)
  else
    match newmask with
    | UAt newmask =>
        '(s, c', G) ← suspend_loop wakes newmask (set_sigmask newmask c) G;
        Some (- SIG_EINTR, signal_force_set s (set_sigmask (sigmask c) c'), G)
    | _ => Some (- SIG_EFAULT, c, G)
    end.

(** The lowest signal of the set that is pending. *)
Fixpoint awaited (l : list Z) (set : Z) (c : cpu) (G : signals) : option Z :=
  match l with
  | [] => None
  | s :: l =>
      if (process_pending_test s G || thread_pending_test s c) && has_flag set (mask_bit s) then Some s
      else awaited l set c G
  end.

(** The siginfo a wait stores has no address, and no uid without a sender. *)
Definition reported (error code value pid uid : Z) : siginfo_slot :=
  mk_slot error code value pid (if pid =? 0 then 0 else uid) 0.

(** One instance, from the queue or from the slots the host's handler filled. *)
Definition dequeue_waited (s : Z) (want_info : bool) (c : cpu) (G : signals) : siginfo_slot * cpu * signals :=
  let '(popped, c, G) := sigq_pop_for s c G in
  match popped with
  | Some e => (reported (qe_error e) (qe_code e) (qe_value e) (qe_pid e) (qe_uid e), c, G)
  | None =>
      let c := thread_pending_clear s c in
      let G := process_pending_clear s G in
      let i := g_siginfo G s in
      (reported (si_error i) (si_code i) (si_value i) (si_pid i) (si_uid i), c,
       if want_info then set_siginfo s (mk_slot 0 0 0 0 0 (si_addr i)) G else G)
  end.

(** [slices] are the host signals of each slice of the wait; when they are over,
    a [finite] wait has timed out and another still sleeps. *)
Fixpoint timedwait_loop (finite : bool) (slices : list (list Z)) (set : Z) (want_info : bool) (c : cpu) (G : signals) :
    option (Z * option siginfo_slot * cpu * signals) :=
  match awaited (seqZ 1 64) set c G with
  | Some s =>
      let '(i, c, G) := dequeue_waited s want_info c G in Some (s, if want_info then Some i else None, c, G)
  | None =>
      match slices with
      | [] => if finite then Some (- SIG_EAGAIN, None, c, G) else None
      | w :: slices => let '(c, G) := host_signals w c G in timedwait_loop finite slices set want_info c G
      end
  end.

(** [timeout] holds the seconds and the nanoseconds. *)
Definition rt_sigtimedwait (set : user Z) (out : user unit) (timeout : user (Z * Z)) (size : Z) (slices : list (list Z))
    (c : cpu) (G : signals) : option (Z * option siginfo_slot * cpu * signals) :=
  if negb (size =? 8) then Some (- SIG_EINVAL, None, c, G)
  else
    match set with
    | UAt set =>
        if u_bad out || u_bad timeout then Some (- SIG_EFAULT, None, c, G)
        else
          match timeout with
          | UAt (sec, nsec) =>
              if (sec <? 0) || (nsec <? 0) || (1000000000 <=? nsec) then Some (- SIG_EINVAL, None, c, G)
              else timedwait_loop true slices set (negb (u_null out)) c G
          | _ => timedwait_loop false slices set (negb (u_null out)) c G
          end
    | _ => Some (- SIG_EFAULT, None, c, G)
    end.

(** ** Reading a signalfd *)

(** The lowest signal of the mask with an entry for the thread. *)
Fixpoint sfd_pop (l : list Z) (mask : Z) (c : cpu) (G : signals) : option (Z * sigq_ent) * cpu * signals :=
  match l with
  | [] => (None, c, G)
  | s :: l =>
      if has_flag mask (mask_bit s) then
        let '(popped, c, G) := sigq_pop_for s c G in
        match popped with
        | Some e => (Some (s, e), c, G)
        | None => sfd_pop l mask c G
        end
      else sfd_pop l mask c G
  end.

Definition sfd_bare (mask : Z) (G : signals) : option Z :=
  find (fun s => has_flag mask (mask_bit s) && process_pending_test s G) (seqZ 1 64).

(** One attempt on a descriptor that does not block, with the record read. *)
Definition svc_read_signalfd (slot : Z) (count : Z) (buffer : user unit) (c : cpu) (G : signals) :
    Z * option (Z * siginfo_slot) * cpu * signals :=
  if count <? 128 then (- SIG_EINVAL, None, c, G)
  else
    match buffer with
    | UAt _ =>
        let omask := match lookupZ (g_sfd G) slot with Some d => sfd_mask d | None => 0 end in
        match sfd_pop (seqZ 1 64) omask c G with
        | (Some (s, e), c, G) =>
            (128, Some (s, mk_slot (qe_error e) (qe_code e) (qe_value e) (qe_pid e) (qe_uid e) 0), c, G)
        | (None, c, G) =>
            match sfd_bare omask G with
            | Some s =>
                let G := process_pending_clear s G in
                let i := g_siginfo G s in
                (128, Some (s, mk_slot (si_error i) (si_code i) (si_value i) (si_pid i) (si_uid i) 0), c,
                 set_siginfo s (mk_slot 0 0 0 0 0 (si_addr i)) G)
            | None => (- SIG_EAGAIN, None, c, G)
            end
        end
    | _ => (- SIG_EFAULT, None, c, G)
    end.

Definition sfd_ready_for_cpu (slot : Z) (c : cpu) (G : signals) : bool :=
  match lookupZ (g_sfd G) slot with
  | None => false
  | Some d =>
      existsb (fun s => has_flag (sfd_mask d) (mask_bit s) && process_pending_test s G) (seqZ 1 64) ||
      existsb (fun s => has_flag (sfd_mask d) (mask_bit s) && existsb (eligible (c_tid c)) (g_sigq G s)) (seqZ 1 64)
  end.
