(* ===== verification/SignalProofs.v ===== *)
(** * Lemmas on signals

    Pending words by their bits, queues by their targets, and what a claim of an
    instance leaves alone. *)

From S2P Require Import Prelude Signals SignalDelivery SignalCalls.

(** ** Bits *)

Lemma has_flag_testbit w s : 0 <= s -> has_flag w (Z.shiftl 1 s) = Z.testbit w s.
Proof.
  intros Hs. unfold has_flag. rewrite Z.shiftl_1_l.
  destruct (Z.testbit w s) eqn:Hb.
  - apply negb_true_iff, Z.eqb_neq. intros H0.
    assert (Hz : Z.testbit (Z.land w (2 ^ s)) s = false) by (rewrite H0; apply Z.bits_0).
    rewrite Z.land_spec, Z.pow2_bits_true, Hb in Hz by lia. discriminate.
  - apply negb_false_iff, Z.eqb_eq. apply Z.bits_inj'. intros n Hn.
    rewrite Z.land_spec, Z.bits_0, Z.pow2_bits_eqb by lia.
    destruct (Z.eqb_spec s n) as [<-|]; [rewrite Hb|]; auto using andb_false_r.
Qed.

Lemma shiftl_bit s n : 0 <= s -> Z.testbit (Z.shiftl 1 s) n = (s =? n).
Proof. intros Hs. rewrite Z.shiftl_1_l. destruct (Z.eqb_spec s n) as [<-|Hn]; [now apply Z.pow2_bits_true | now apply Z.pow2_bits_false]. Qed.

Lemma valid_signal_spec s : valid_signal s = true <-> 1 <= s <= 64.
Proof. unfold valid_signal. lia. Qed.

(** Where a signal's bit is. *)
Definition bit_no (s : Z) : Z := if s =? 64 then 0 else s.
Definition word_test (s lo hi : Z) : bool := valid_signal s && Z.testbit (if s =? 64 then hi else lo) (bit_no s).

Lemma pending_bit_shiftl s : signal_pending_bit s = Z.shiftl 1 (bit_no s).
Proof. unfold signal_pending_bit, bit_no. now destruct (s =? 64). Qed.

Lemma bit_no_nonneg s : valid_signal s = true -> 0 <= bit_no s.
Proof. unfold valid_signal, bit_no. destruct (s =? 64); lia. Qed.

Lemma flag_pending_bit w s : valid_signal s = true -> has_flag w (signal_pending_bit s) = Z.testbit w (bit_no s).
Proof. intros Hs. rewrite pending_bit_shiftl. apply has_flag_testbit, bit_no_nonneg, Hs. Qed.

Lemma flag_mask_bit w s : valid_signal s = true -> has_flag w (mask_bit s) = Z.testbit w (s - 1).
Proof. intros Hs%valid_signal_spec. unfold mask_bit. apply has_flag_testbit. lia. Qed.

Lemma process_pending_word s G : process_pending_test s G = word_test s (g_pending G) (g_pending_hi G).
Proof.
  unfold process_pending_test, word_test. destruct (valid_signal s) eqn:Hs; [|easy]. cbn.
  rewrite flag_pending_bit by easy. now destruct (s =? 64).
Qed.

Lemma thread_pending_word s c : thread_pending_test s c = word_test s (tpending c) (tpending_hi c).
Proof.
  unfold thread_pending_test, word_test, bit_no. destruct (valid_signal s) eqn:Hs; [|easy]. cbn.
  destruct (s =? 64) eqn:E.
  - exact (has_flag_testbit (tpending_hi c) 0 ltac:(lia)).
  - rewrite flag_pending_bit by easy. unfold bit_no. now rewrite E.
Qed.

(** The update of a word, by the signal looked at and the signal updated. *)
Ltac word_cases s t :=
  unfold word_test, bit_no, signal_pending_bit;
  destruct (valid_signal s) eqn:?Hs; cbn [andb orb];
  [|destruct (Z.eqb_spec s t); [congruence | cbn [andb orb negb]; auto]];
  repeat match goal with H : valid_signal _ = true |- _ => apply valid_signal_spec in H end;
  destruct (Z.eqb_spec t 64) as [->|?Ht], (Z.eqb_spec s 64) as [->|?Hs'];
  cbn [set_pending set_tpending g_pending g_pending_hi tpending tpending_hi];
  rewrite ?Z.lor_spec, ?Z.ldiff_spec;
  try change 1 with (Z.shiftl 1 0); rewrite ?shiftl_bit by lia;
  repeat (change (Z.shiftl 1 0) with 1);
  repeat match goal with |- context [?a =? ?b] => destruct (Z.eqb_spec a b); try lia end;
  cbn; rewrite ?orb_true_r, ?orb_false_r, ?andb_true_r, ?andb_false_r; auto.

Lemma process_pending_set_test s t G :
  process_pending_test s (process_pending_set t G) = ((s =? t) && valid_signal t) || process_pending_test s G.
Proof.
  rewrite !process_pending_word. unfold process_pending_set.
  destruct (valid_signal t) eqn:Ht; cbn [negb]; [|now rewrite andb_false_r].
  word_cases s t.
Qed.

Lemma process_pending_clear_test s t G :
  process_pending_test s (process_pending_clear t G) = process_pending_test s G && negb ((s =? t) && valid_signal t).
Proof.
  rewrite !process_pending_word. unfold process_pending_clear.
  destruct (valid_signal t) eqn:Ht; cbn [negb]; [|now rewrite andb_false_r, andb_true_r].
  word_cases s t.
Qed.

Lemma thread_pending_set_test s t c :
  thread_pending_test s (thread_pending_set t c) = ((s =? t) && valid_signal t) || thread_pending_test s c.
Proof.
  rewrite !thread_pending_word. unfold thread_pending_set.
  destruct (valid_signal t) eqn:Ht; cbn [negb]; [|now rewrite andb_false_r].
  word_cases s t.
Qed.

Lemma thread_pending_clear_test s t c :
  thread_pending_test s (thread_pending_clear t c) = thread_pending_test s c && negb ((s =? t) && valid_signal t).
Proof.
  rewrite !thread_pending_word. unfold thread_pending_clear.
  destruct (valid_signal t) eqn:Ht; cbn [negb]; [|now rewrite andb_false_r, andb_true_r].
  word_cases s t.
Qed.

(** ** What can be delivered *)

(** Neither the mask nor a running handler holds the signal back. *)
Definition open_to (s : Z) (c : cpu) : bool :=
  signal_force_test s c ||
  negb (has_flag (sigmask c) (mask_bit s) ||
        (if s =? 64 then negb (sig_defer_hi (c_levels c) =? 0)
         else has_flag (sig_defer (c_levels c)) (signal_pending_bit s))).

Definition pending_test (s : Z) (c : cpu) (G : signals) : bool := process_pending_test s G || thread_pending_test s c.

Lemma deliverable_split c G s : signal_deliverable c G s = pending_test s c G && open_to s c.
Proof.
  unfold signal_deliverable, pending_test, open_to.
  destruct (valid_signal s) eqn:Hs; cbn [negb].
  2:{ unfold process_pending_test, thread_pending_test. now rewrite Hs. }
  destruct (process_pending_test s G), (thread_pending_test s c); cbn [negb andb orb]; try easy;
  destruct (signal_force_test s c), (has_flag (sigmask c) (mask_bit s)),
    (if s =? 64 then negb (sig_defer_hi (c_levels c) =? 0) else has_flag (sig_defer (c_levels c)) (signal_pending_bit s)); easy.
Qed.

Lemma pending_low s c G :
  pending_test s c G = true -> s <> 64 -> 1 <= s <= 63 /\ Z.testbit (Z.lor (g_pending G) (tpending c)) s = true.
Proof.
  unfold pending_test. rewrite process_pending_word, thread_pending_word. unfold word_test, bit_no.
  intros H Hn. apply Z.eqb_neq in Hn as E. rewrite E in H. rewrite Z.lor_spec.
  destruct (valid_signal s) eqn:Hs; [|discriminate]. apply valid_signal_spec in Hs. cbn in H. split; [lia|exact H].
Qed.

Lemma pending_high c G : pending_test 64 c G = true -> Z.lor (g_pending_hi G) (tpending_hi c) <> 0.
Proof.
  unfold pending_test. rewrite process_pending_word, thread_pending_word.
  change (Z.testbit (g_pending_hi G) 0 || Z.testbit (tpending_hi c) 0 = true -> Z.lor (g_pending_hi G) (tpending_hi c) <> 0).
  intros H H0.
  apply (f_equal (fun w => Z.testbit w 0)) in H0. rewrite Z.lor_spec, Z.bits_0, H in H0. discriminate.
Qed.

Lemma testbit_below p k s : 0 <= p < 2 ^ k -> 0 <= k -> Z.testbit p s = true -> 0 <= s < k.
Proof.
  intros Hp Hk Hb. destruct (Z.ltb_spec s 0); [rewrite Z.testbit_neg_r in Hb by lia; discriminate|].
  destruct (Z.eqb_spec p 0) as [->|]; [rewrite Z.bits_0 in Hb; discriminate|].
  destruct (Z.ltb_spec s k); [lia|]. rewrite Z.bits_above_log2 in Hb; [discriminate|lia|].
  apply Z.lt_le_trans with k; [|lia]. apply Z.log2_lt_pow2; lia.
Qed.

Lemma lor_below a b n : 0 <= n -> 0 <= a < 2 ^ n -> 0 <= b < 2 ^ n -> Z.lor a b < 2 ^ n.
Proof.
  intros Hn Ha Hb. destruct (Z.eqb_spec (Z.lor a b) 0) as [->|H0]; [lia|].
  assert (0 <= Z.lor a b) by (apply Z.lor_nonneg; lia).
  destruct (Z.eqb_spec a 0) as [->|], (Z.eqb_spec b 0) as [->|]; rewrite ?Z.lor_0_l, ?Z.lor_0_r; try lia.
  apply Z.log2_lt_pow2; [lia|]. rewrite Z.log2_lor by lia.
  apply Z.max_lub_lt; apply Z.log2_lt_pow2; lia.
Qed.

(** Without its highest bit a word is below that bit. *)
Lemma clear_top p : 0 < p -> 0 <= Z.ldiff p (Z.shiftl 1 (Z.log2 p)) < 2 ^ Z.log2 p.
Proof.
  intros Hp. pose proof (Z.log2_nonneg p) as Hl. pose proof (Z.log2_spec p Hp) as [Hlo Hhi].
  assert (H : Z.ldiff p (Z.shiftl 1 (Z.log2 p)) = p - 2 ^ Z.log2 p).
  { rewrite Z.shiftl_1_l. symmetry. apply Z.sub_nocarry_ldiff, Z.bits_inj'. intros n Hn.
    rewrite Z.ldiff_spec, Z.bits_0. destruct (Z.eqb_spec n (Z.log2 p)) as [->|Hne].
    - rewrite Z.bit_log2 by lia. apply andb_false_r.
    - rewrite Z.pow2_bits_false by lia. reflexivity. }
  rewrite H. rewrite Z.pow_succ_r in Hhi by lia. lia.
Qed.

Lemma pending_scan_exact c G n p :
  0 <= p < 2 ^ Z.of_nat n ->
  exists b, pending_scan (S n) c G p = Some b /\
    (b = true <-> exists s, Z.testbit p s = true /\ signal_deliverable c G s = true).
Proof.
  revert p. induction n as [|n IH]; intros p Hp; cbn [pending_scan].
  all: destruct (Z.eqb_spec p 0) as [->|Hp0].
  1, 3: exists false; split; [easy|]; split; [easy|]; intros (s & Hs & _); rewrite Z.bits_0 in Hs; discriminate.
  - change (2 ^ Z.of_nat 0) with 1 in Hp. lia.
  - pose proof (clear_top p ltac:(lia)) as Hc. pose proof (Z.log2_nonneg p) as Hl.
    destruct (signal_deliverable c G (Z.log2 p)) eqn:Hd.
    + exists true. split; [easy|]. split; [|easy]. intros _. exists (Z.log2 p). split; [apply Z.bit_log2; lia|exact Hd].
    + destruct (IH (Z.ldiff p (Z.shiftl 1 (Z.log2 p)))) as (b & Hb & Hiff).
      { split; [lia|]. apply Z.lt_le_trans with (2 ^ Z.log2 p); [lia|]. apply Z.pow_le_mono_r; [lia|].
        apply Z.lt_succ_r. rewrite <- Nat2Z.inj_succ. apply Z.log2_lt_pow2; lia. }
      exists b. split; [exact Hb|]. rewrite Hiff. clear Hb Hiff IH.
      split; intros (s & Hs & Hds); exists s; (split; [|exact Hds]).
      * rewrite Z.ldiff_spec in Hs. now apply andb_prop in Hs as [Hs _].
      * rewrite Z.ldiff_spec, Hs, shiftl_bit by lia. destruct (Z.eqb_spec (Z.log2 p) s) as [<-|]; [congruence|easy].
Qed.

(** ** Delivery *)

Lemma deliver_scan_step s l c G :
  deliver_scan (s :: l) c G =
  if pending_test s c G && open_to s c then
    let h := sa_handler (g_sigact G s) in
    if h <=? 1 then
      let '(c, G) := discard s c G in
      if (h =? 0) && sig_default_terminates s then (Died s, c, G) else deliver_scan l c G
    else
      let '(popped, had_t, claimed, c, G) := claim_instance s c G in
      if claimed then let '(c, G) := enter_handler s popped had_t c G in (Ran, c, G)
      else deliver_scan l c G
  else deliver_scan l c G.
Proof.
  cbn [deliver_scan]. unfold pending_test, open_to.
  destruct (process_pending_test s G), (thread_pending_test s c); cbn [negb andb orb]; try easy;
  destruct (signal_force_test s c), (has_flag (sigmask c) (mask_bit s)),
    (if s =? 64 then negb (sig_defer_hi (c_levels c) =? 0) else has_flag (sig_defer (c_levels c)) (signal_pending_bit s)); easy.
Qed.

(** What an update leaves of a signal's state. *)
Record agree (s : Z) (c : cpu) (G : signals) (c' : cpu) (G' : signals) : Prop := {
  ag_tid : c_tid c' = c_tid c;
  ag_mask : sigmask c' = sigmask c;
  ag_levels : c_levels c' = c_levels c;
  ag_sync : c_sync c' = c_sync c;
  ag_regs : c_regs c' = c_regs c;
  ag_alt : c_alt c' = c_alt c;
  ag_mem : gmem G' = gmem G;
  ag_act : g_sigact G' = g_sigact G;
  ag_queue : g_sigq G' s = g_sigq G s;
  ag_info : g_siginfo G' s = g_siginfo G s;
  ag_process : process_pending_test s G' = process_pending_test s G;
  ag_thread : thread_pending_test s c' = thread_pending_test s c;
  ag_force : signal_force_test s c' = signal_force_test s c
}.

Lemma agrees_refl s c G : agree s c G c G.
Proof. now split. Qed.

Lemma agrees_trans s c G c' G' c'' G'' : agree s c G c' G' -> agree s c' G' c'' G'' -> agree s c G c'' G''.
Proof. intros [] []. split; congruence. Qed.

Lemma agree_deliverable s c G c' G' :
  agree s c G c' G' -> pending_test s c' G' && open_to s c' = pending_test s c G && open_to s c.
Proof.
  intros [_ Hm Hl _ _ _ _ _ _ _ Hp Ht Hf].
  unfold pending_test, open_to. now rewrite Hm, Hl, Hp, Ht, Hf.
Qed.

Lemma upd_eq {A} i (x : A) f : upd i x f i = x.
Proof. unfold upd. now rewrite Z.eqb_refl. Qed.
Lemma upd_ne {A} i j (x : A) f : j <> i -> upd i x f j = f j.
Proof. intros H%Z.eqb_neq. unfold upd. now rewrite H. Qed.

Lemma force_clear_test s t c :
  valid_signal s = true -> valid_signal t = true ->
  signal_force_test s (signal_force_clear t c) = signal_force_test s c && negb (s =? t).
Proof.
  intros Hs Ht. unfold signal_force_test, signal_force_clear. apply valid_signal_spec in Hs as Hs', Ht as Ht'.
  destruct (Z.eqb_spec t 64) as [->|Et], (Z.eqb_spec s 64) as [->|Es]; cbn [set_force c_force force_deliver force_deliver_hi].
  - now rewrite andb_false_r.
  - destruct (Z.eqb_spec s 64); [lia|]. now rewrite andb_true_r.
  - destruct (Z.eqb_spec 64 t); [lia|]. now rewrite andb_true_r.
  - rewrite !flag_pending_bit, Z.ldiff_spec, pending_bit_shiftl, shiftl_bit by (try apply bit_no_nonneg; easy).
    unfold bit_no. destruct (Z.eqb_spec s 64), (Z.eqb_spec t 64); try lia. now rewrite (Z.eqb_sym t s).
Qed.

Lemma process_clear_agree s t c G : s <> t -> agree s c G c (process_pending_clear t G).
Proof.
  intros Hn. assert (Ht := process_pending_clear_test s t G). apply Z.eqb_neq in Hn. rewrite Hn, andb_true_r in Ht.
  unfold process_pending_clear in *. destruct (valid_signal t); cbn [negb] in *; [|apply agrees_refl].
  destruct (t =? 64); now split.
Qed.

Lemma thread_clear_agree s t c G : s <> t -> agree s c G (thread_pending_clear t c) G.
Proof.
  intros Hn. assert (Ht := thread_pending_clear_test s t c). apply Z.eqb_neq in Hn. rewrite Hn, andb_true_r in Ht.
  unfold thread_pending_clear in *. destruct (valid_signal t); cbn [negb] in *; [|apply agrees_refl].
  destruct (t =? 64); now split.
Qed.

Lemma discard_agree s t c G :
  valid_signal s = true -> valid_signal t = true -> s <> t -> agree s c G (discard t c G).1 (discard t c G).2.
Proof.
  intros Hs Ht Hn. cbn [discard fst snd].
  eapply agrees_trans; [|now apply thread_clear_agree]. eapply agrees_trans; [|now apply process_clear_agree].
  unfold sigq_flush. rewrite Ht. cbn [negb]. eapply agrees_trans; [|now apply process_clear_agree].
  assert (Hf := force_clear_test s t c Hs Ht). apply Z.eqb_neq in Hn as E. rewrite E, andb_true_r in Hf.
  unfold signal_force_clear in *. destruct (t =? 64); split; try easy; cbn; now rewrite upd_ne.
Qed.

Lemma discard_pending s t c G :
  pending_test s (discard t c G).1 (discard t c G).2 = pending_test s c G && negb ((s =? t) && valid_signal t).
Proof.
  assert (Hq : process_pending_test s (process_pending_clear t (sigq_flush t G)) =
               process_pending_test s G && negb ((s =? t) && valid_signal t)).
  { rewrite process_pending_clear_test. unfold sigq_flush. destruct (valid_signal t) eqn:Ht; cbn [negb].
    - rewrite process_pending_clear_test, Ht, <- andb_assoc, andb_diag. reflexivity.
    - now rewrite andb_false_r. }
  assert (Hf : thread_pending_test s (signal_force_clear t c) = thread_pending_test s c).
  { unfold signal_force_clear. now destruct (t =? 64). }
  unfold pending_test, discard. cbn [fst snd]. rewrite Hq, thread_pending_clear_test, Hf.
  now rewrite andb_orb_distrib_l.
Qed.

(** A signal's delivery does something other than discard it. *)
Definition acts (c : cpu) (G : signals) (s : Z) : bool :=
  pending_test s c G && open_to s c &&
  ((1 <? sa_handler (g_sigact G s)) || ((sa_handler (g_sigact G s) =? 0) && sig_default_terminates s)).

Definition act (s : Z) (c : cpu) (G : signals) : outcome * cpu * signals :=
  if 1 <? sa_handler (g_sigact G s) then
    let '(popped, had_t, _, c, G) := claim_instance s c G in
    let '(c, G) := enter_handler s popped had_t c G in (Ran, c, G)
  else let '(c, G) := discard s c G in (Died s, c, G).

Lemma take_first_pop tid l :
  take_first tid l = None -> forall q, In q l -> eligible tid q = false.
Proof.
  induction l as [|e l IH]; cbn; [easy|]. destruct (eligible tid e) eqn:He; [easy|].
  destruct (take_first tid l) as [[]|]; cbn [mbind option_bind]; [easy|]. intros _ q [->|Hq]; auto.
Qed.

(** A claim finds an instance of a signal that is pending. *)
Lemma claim_pending s c G :
  valid_signal s = true -> pending_test s c G = true ->
  exists popped had_t c' G', claim_instance s c G = (popped, had_t, true, c', G').
Proof.
  intros Hs Hp. unfold claim_instance, sigq_pop_for. rewrite Hs. cbn [negb].
  destruct (take_first (c_tid c) (g_sigq G s)) as [[e kept]|]; cbn [negb andb orb].
  - eauto.
  - exists None, (thread_pending_test s c). unfold pending_test in Hp. rewrite orb_comm in Hp. rewrite Hp. eauto.
Qed.

Lemma find_ext {A} (p q : A -> bool) l : (forall x, In x l -> p x = q x) -> List.find p l = List.find q l.
Proof.
  induction l as [|x l IH]; intros H; cbn; [easy|]. rewrite (H x) by now left.
  destruct (q x); [easy|]. apply IH. intros y Hy. apply H. now right.
Qed.

Lemma acts_agree s c G c' G' : agree s c G c' G' -> acts c' G' s = acts c G s.
Proof. intros H. unfold acts. now rewrite (agree_deliverable s c G c' G' H), (ag_act _ _ _ _ _ H). Qed.

Lemma handler_cases a s :
  (a <=? 1) = true -> ((a =? 0) && sig_default_terminates s) = ((1 <? a) || ((a =? 0) && sig_default_terminates s)).
Proof. intros H. destruct (Z.ltb_spec 1 a); [lia|easy]. Qed.

Lemma scan_acts l c G :
  NoDup l -> (forall s, In s l -> valid_signal s = true) ->
  match List.find (acts c G) l with
  | None => exists c' G', deliver_scan l c G = (Ran, c', G') /\ c_regs c' = c_regs c /\
              forall s, valid_signal s = true -> ~ In s l -> agree s c G c' G'
  | Some s => exists c0 G0, agree s c G c0 G0 /\ c_regs c0 = c_regs c /\ deliver_scan l c G = act s c0 G0
  end.
Proof.
  revert c G. induction l as [|t l IH]; intros c G Hnd Hv; cbn [List.find].
  { exists c, G. split; [reflexivity|]. split; [reflexivity|]. intros. apply agrees_refl. }
  apply list.NoDup_cons in Hnd as [Hni Hnd].
  assert (Hvt : valid_signal t = true) by (apply Hv; now left).
  assert (Hvl : forall s, In s l -> valid_signal s = true) by (intros; apply Hv; now right).
  rewrite deliver_scan_step. unfold acts at 1, act.
  destruct (pending_test t c G && open_to t c) eqn:Hd; cbn [andb].
  2:{ specialize (IH c G Hnd Hvl). destruct (List.find (acts c G) l); [exact IH|].
      destruct IH as (c' & G' & He & Hr & Ha). exists c', G'. split; [exact He|]. split; [exact Hr|].
      intros s Hs Hn. apply Ha; [exact Hs|]. intros Hin. apply Hn. now right. }
  destruct (sa_handler (g_sigact G t) <=? 1) eqn:Hh.
  - cbn zeta. rewrite <- (handler_cases _ t Hh). destruct (discard t c G) as [c1 G1] eqn:E.
    destruct ((sa_handler (g_sigact G t) =? 0) && sig_default_terminates t).
    + exists c, G. rewrite E. split; [apply agrees_refl|]. split; [easy|].
      destruct (Z.ltb_spec 1 (sa_handler (g_sigact G t))); [lia|easy].
    + assert (Ha : forall s, valid_signal s = true -> s <> t -> agree s c G c1 G1).
      { intros s Hs Hn. pose proof (discard_agree s t c G Hs Hvt Hn) as H. now rewrite E in H. }
      assert (Hr1 : c_regs c1 = c_regs c).
      { destruct (Z.eqb_spec t 1) as [->|Hn]; [apply (ag_regs 2 c G c1 G1), Ha; [easy|lia]|].
        apply (ag_regs 1 c G c1 G1), Ha; [easy|lia]. }
      specialize (IH c1 G1 Hnd Hvl). rewrite (find_ext (acts c G) (acts c1 G1)).
      2:{ intros s Hs. symmetry. apply acts_agree, Ha; [auto|]. intros ->. apply Hni. now apply list_elem_of_In. }
      destruct (List.find (acts c1 G1) l) as [s|] eqn:Hf.
      * destruct IH as (c0 & G0 & Hag & Hr & He). exists c0, G0. split; [|split; [congruence|exact He]].
        apply find_some in Hf as [Hs _]. eapply agrees_trans; [apply Ha; [auto|]|exact Hag].
        intros ->. apply Hni. now apply list_elem_of_In.
      * destruct IH as (c' & G' & He & Hr & Hag). exists c', G'. split; [exact He|]. split; [congruence|].
        intros s Hs Hn. eapply agrees_trans; [apply Ha; [auto|]|apply Hag; [auto|]].
        -- intros ->. apply Hn. now left.
        -- intros Hin. apply Hn. now right.
  - destruct (Z.ltb_spec 1 (sa_handler (g_sigact G t))); [|lia]. cbn [orb].
    apply andb_prop in Hd as [Hp _]. destruct (claim_pending t c G Hvt Hp) as (popped & had_t & c1 & G1 & Hc).
    exists c, G. split; [apply agrees_refl|]. split; [easy|]. cbn zeta. rewrite Hc.
    destruct (Z.ltb_spec 1 (sa_handler (g_sigact G t))); [reflexivity|lia].
Qed.

(** ** Entering a handler *)

(** The slots of the signal's siginfo when the frame is built. *)
Definition info_of (popped : option sigq_ent) (i : siginfo_slot) : siginfo_slot :=
  match popped with
  | Some e => mk_slot (qe_error e) (qe_code e) (qe_value e) (qe_pid e) (qe_uid e) (qe_addr e)
  | None => i
  end.

Definition entered_mask (s : Z) (a : sigaction) (m : Z) : Z :=
  if has_flag (sa_flags a) SA_NODEFER then Z.lor m (sa_mask a) else Z.lor (Z.lor m (sa_mask a)) (mask_bit s).

Definition entered_regs (s : Z) (a : sigaction) (c : cpu) : regs :=
  let r := c_regs c in
  let frame := frame_at a c in
  let lr := if s =? 32 then frame + 4608 else SIGRETURN_PC in
  mk_regs (insertZ (insertZ (insertZ (insertZ (r_x r) 0 s) 1 frame) 2 (frame + 128)) 30 lr) (r_v r) (r_nzcv r) frame (sa_handler a).

Lemma push_level_keeps s c G :
  let c' := push_level s c G in
  c_tid c' = c_tid c /\ sigmask c' = sigmask c /\ tpending c' = tpending c /\ tpending_hi c' = tpending_hi c /\
  c_sync c' = c_sync c /\ c_force c' = c_force c /\ c_regs c' = c_regs c /\ c_alt c' = c_alt c.
Proof. unfold push_level. destruct (sig_depth (c_levels c) <? SIG_LEVELS); auto 10. Qed.

Lemma record_frame_keeps c :
  let c' := record_frame c in
  c_tid c' = c_tid c /\ sigmask c' = sigmask c /\ tpending c' = tpending c /\ tpending_hi c' = tpending_hi c /\
  c_sync c' = c_sync c /\ c_force c' = c_force c /\ c_regs c' = c_regs c /\ c_alt c' = c_alt c.
Proof. unfold record_frame. destruct (0 <? sig_depth (c_levels c)); auto 10. Qed.

Lemma force_clear_keeps s c :
  let c' := signal_force_clear s c in
  c_tid c' = c_tid c /\ sigmask c' = sigmask c /\ tpending c' = tpending c /\ tpending_hi c' = tpending_hi c /\
  c_sync c' = c_sync c /\ c_regs c' = c_regs c /\ c_alt c' = c_alt c /\ c_levels c' = c_levels c.
Proof. unfold signal_force_clear. destruct (s =? 64); auto 10. Qed.

Section Enter.
Context (s : Z) (popped : option sigq_ent) (had_t : bool) (c : cpu) (G : signals).

Definition entered : cpu * signals := enter_handler s popped had_t c G.

Lemma frame_at_ext a c1 c2 :
  c_regs c1 = c_regs c2 -> c_alt c1 = c_alt c2 -> frame_base a c1 = frame_base a c2 /\ frame_at a c1 = frame_at a c2.
Proof. intros Hr Ha. unfold frame_at, frame_base, runs_on_alt. now rewrite Hr, Ha. Qed.

(** What is pushed under the handler. *)
Definition before_frame : cpu :=
  push_level s (signal_force_clear s c)
    (match popped with
     | Some e => set_siginfo s (mk_slot (qe_error e) (qe_code e) (qe_value e) (qe_pid e) (qe_uid e) (qe_addr e)) G
     | None => G
     end).

Definition with_info : signals := match popped with Some e => set_siginfo s (info_of popped (g_siginfo G s)) G | None => G end.

Lemma entered_unfold :
  exists c1 G1 synchronous,
    build_signal_frame s synchronous before_frame with_info = (c1, G1) /\
    synchronous = (had_t && (sync_signal (c_sync c) =? s)) /\
    (fst entered = record_frame c1 \/ fst entered = set_sync (mk_sync 0 0 0) (record_frame c1)) /\
    gmem (snd entered) = gmem G1 /\ g_pending (snd entered) = g_pending G1 /\ g_pending_hi (snd entered) = g_pending_hi G1 /\
    g_sigq (snd entered) = g_sigq G1.
Proof.
  unfold entered, enter_handler. fold before_frame.
  replace (match popped with
     | Some e => set_siginfo s (mk_slot (qe_error e) (qe_code e) (qe_value e) (qe_pid e) (qe_uid e) (qe_addr e)) G
     | None => G end) with with_info by (unfold with_info; now destruct popped).
  assert (Hs : c_sync before_frame = c_sync c).
  { unfold before_frame. rewrite (proj1 (proj2 (proj2 (proj2 (proj2 (push_level_keeps _ _ _)))))).
    apply (force_clear_keeps s c). }
  fold before_frame in *. replace (push_level s (signal_force_clear s c) with_info) with before_frame
    by (unfold before_frame, with_info; now destruct popped).
  rewrite Hs. destruct (build_signal_frame s _ before_frame with_info) as [c1 G1] eqn:E.
  exists c1, G1, (had_t && (sync_signal (c_sync c) =? s)). split; [exact E|]. split; [reflexivity|].
  destruct (had_t && (sync_signal (c_sync c) =? s)), (has_flag _ SA_RESETHAND); cbn; auto 10.
Qed.

Lemma before_frame_keeps :
  c_tid before_frame = c_tid c /\ sigmask before_frame = sigmask c /\ tpending before_frame = tpending c /\
  tpending_hi before_frame = tpending_hi c /\ c_sync before_frame = c_sync c /\ c_regs before_frame = c_regs c /\
  c_alt before_frame = c_alt c.
Proof.
  unfold before_frame.
  match goal with |- context [push_level s ?c ?G] => pose proof (push_level_keeps s c G) as H end.
  pose proof (force_clear_keeps s c) as H'. cbn zeta in H, H'. intuition congruence.
Qed.

Lemma entered_context :
  let a := g_sigact G s in
  c_regs (fst entered) = entered_regs s a c /\ sigmask (fst entered) = entered_mask s a (sigmask c) /\
  tpending (fst entered) = tpending c /\ tpending_hi (fst entered) = tpending_hi c /\
  c_tid (fst entered) = c_tid c /\ c_alt (fst entered) = c_alt c.
Proof.
  cbn zeta. destruct entered_unfold as (c1 & G1 & sy & E & _ & Hc & _).
  pose proof before_frame_keeps as (Ht & Hm & Hp & Hph & Hy & Hr & Ha).
  assert (Hact : g_sigact with_info = g_sigact G) by (unfold with_info; now destruct popped).
  destruct (frame_at_ext (g_sigact G s) before_frame c Hr Ha) as [_ Hfr].
  unfold build_signal_frame in E. rewrite Hact, Hr, Hfr in E. injection E as <- _.
  match type of Hc with _ = record_frame ?k \/ _ => pose proof (record_frame_keeps k) as Hk end.
  cbn zeta in Hk. destruct Hk as (K1 & K2 & K3 & K4 & K5 & K6 & K7 & K8).
  unfold entered_regs, entered_mask.
  destruct Hc as [-> | ->]; cbn [set_sync sigmask tpending tpending_hi c_regs c_tid c_alt];
    rewrite K1, K2, K3, K4, K7, K8; destruct sy, (has_flag (sa_flags (g_sigact G s)) SA_NODEFER);
    cbn [set_sigmask set_regs set_sync sigmask tpending tpending_hi c_regs c_tid c_alt]; rewrite ?Hm; auto 10.
Qed.

Lemma entered_process :
  g_pending (snd entered) = g_pending G /\ g_pending_hi (snd entered) = g_pending_hi G /\ g_sigq (snd entered) = g_sigq G.
Proof.
  destruct entered_unfold as (c1 & G1 & sy & E & _ & _ & _ & H1 & H2 & H3). rewrite H1, H2, H3. clear H1 H2 H3.
  injection E as _ <-. cbn. unfold with_info. now destruct popped.
Qed.

(** The levels, but for the stack pointer recorded for a jump. *)
Lemma entered_levels :
  let l := c_levels c in
  let l' := c_levels (fst entered) in
  sig_depth l < SIG_LEVELS ->
  let hi := negb (s =? 64) && pending_test 64 c G in
  sig_defer l' = Z.lor (sig_defer l) (Z.ldiff (Z.lor (g_pending G) (tpending c)) (signal_pending_bit s)) /\
  sig_defer_hi l' = (if hi then 1 else sig_defer_hi l) /\ sig_depth l' = sig_depth l + 1 /\
  sig_defer_stack l' = insertZ (sig_defer_stack l) (sig_depth l) (sig_defer l) /\
  sig_defer_hi_stack l' = insertZ (sig_defer_hi_stack l) (sig_depth l) (sig_defer_hi l).
Proof.
  cbn zeta. intros Hd. destruct entered_unfold as (c1 & G1 & sy & E & _ & Hc & _).
  assert (Hl : c_levels c1 = c_levels before_frame).
  { injection E as <- _. destruct sy; reflexivity. }
  assert (Hr : forall k, let l := c_levels k in let l' := c_levels (record_frame k) in
      sig_defer l' = sig_defer l /\ sig_defer_hi l' = sig_defer_hi l /\ sig_depth l' = sig_depth l /\
      sig_defer_stack l' = sig_defer_stack l /\ sig_defer_hi_stack l' = sig_defer_hi_stack l).
  { intros k. unfold record_frame. cbn zeta. destruct (0 <? sig_depth (c_levels k)); cbn; auto. }
  specialize (Hr c1). cbn zeta in Hr. rewrite Hl in Hr. clear Hl E.
  assert (Hp := force_clear_keeps s c). cbn zeta in Hp. destruct Hp as (_ & _ & P1 & P2 & _ & _ & _ & P3).
  unfold before_frame, push_level in Hr.
  rewrite P3 in Hr. destruct (Z.ltb_spec (sig_depth (c_levels c)) SIG_LEVELS); [|lia].
  cbn [set_levels c_levels sig_defer sig_defer_hi sig_depth sig_defer_stack sig_defer_hi_stack] in Hr.
  unfold pending_test. rewrite process_pending_word, !thread_pending_word in *. rewrite P1, P2 in Hr.
  destruct popped; destruct Hc as [-> | ->]; cbn [set_sync c_levels] in *; exact Hr.
Qed.

Definition entered_memory : Z -> Z :=
  let a := g_sigact G s in
  let frame := frame_at a c in
  let i := info_of popped (g_siginfo G s) in
  let synchronous := had_t && (sync_signal (c_sync c) =? s) in
  let m := write_words frame (replicate 586 0) (gmem G) in
  let m := write_siginfo s i (if synchronous then sync_code (c_sync c) else si_code i)
             (if synchronous then sync_address (c_sync c) else si_addr i) frame m in
  let m := write_ucontext a c frame m in
  if s =? 32 then upd (frame + 4608) (pair32 0xd2801168 0xd4000001) m else m.

Lemma write_ucontext_ext a c1 c2 frame m :
  c_regs c1 = c_regs c2 -> c_alt c1 = c_alt c2 -> sigmask c1 = sigmask c2 ->
  write_ucontext a c1 frame m = write_ucontext a c2 frame m.
Proof.
  intros Hr Ha Hm. destruct (frame_at_ext a c1 c2 Hr Ha) as [Hb _]. unfold write_ucontext. now rewrite Hr, Ha, Hm, Hb.
Qed.

Lemma entered_gmem : gmem (snd entered) = entered_memory.
Proof.
  destruct entered_unfold as (c1 & G1 & sy & E & Hsy & _ & -> & _).
  pose proof before_frame_keeps as (Ht & Hm & Hp & Hph & Hy & Hr & Ha).
  assert (Hact : g_sigact with_info = g_sigact G) by (unfold with_info; now destruct popped).
  assert (Hi : g_siginfo with_info s = info_of popped (g_siginfo G s)).
  { unfold with_info. destruct popped; [cbn; apply upd_eq|reflexivity]. }
  assert (Hg : gmem with_info = gmem G) by (unfold with_info; now destruct popped).
  destruct (frame_at_ext (g_sigact G s) before_frame c Hr Ha) as [_ Hfr].
  unfold build_signal_frame in E. injection E as _ <-. cbn [set_gmem gmem].
  rewrite Hact, Hi, Hg, Hy, Hfr. unfold entered_memory. rewrite <- Hsy.
  rewrite (write_ucontext_ext _ before_frame c) by assumption. reflexivity.
Qed.

End Enter.

(** ** Words of guest memory *)

Lemma write_words_other b a l m : b < a \/ a + 8 * lengthZ l <= b -> write_words a l m b = m b.
Proof.
  revert a m. induction l as [|w l IH]; intros a m Hb; cbn [write_words]; [easy|].
  rewrite lengthZ_cons in Hb. pose proof (lengthZ_nonneg l). rewrite IH by lia. apply upd_ne. lia.
Qed.

Lemma read_written a l m : read_words a (length l) (write_words a l m) = l.
Proof.
  revert a m. induction l as [|w l IH]; intros a m; cbn [write_words read_words length]; [easy|].
  rewrite IH, write_words_other by lia. now rewrite upd_eq.
Qed.

Lemma read_words_ext a n m m' :
  (forall b, a <= b < a + 8 * Z.of_nat n -> m b = m' b) -> read_words a n m = read_words a n m'.
Proof.
  revert a. induction n as [|n IH]; intros a H; cbn [read_words]; [easy|]. f_equal; [apply H; lia|].
  apply IH. intros b Hb. apply H. lia.
Qed.

Ltac peel_writes := repeat first [rewrite upd_ne by lia | rewrite write_words_other by lia].

(** What the return from a handler reads back. *)
Lemma saved_context a c frame m m' :
  length (r_x (c_regs c)) = 31%nat -> length (r_v (c_regs c)) = 64%nat ->
  (forall b, frame + 128 <= b < frame + 1120 -> m' b = write_ucontext a c frame m b) ->
  let uc := frame + 128 in let mc := uc + 176 in
  read_words (mc + 8) 31 m' = r_x (c_regs c) /\ read_words (mc + 288 + 16) 64 m' = r_v (c_regs c) /\
  m' (mc + 272) = r_nzcv (c_regs c) /\ m' (mc + 256) = r_sp (c_regs c) /\ m' (mc + 264) = r_pc (c_regs c) /\
  m' (uc + 40) = sigmask c.
Proof.
  intros Hx Hv Hm. cbn zeta.
  assert (Lx : lengthZ (r_x (c_regs c)) = 31) by (unfold lengthZ; lia).
  assert (Lv : lengthZ (r_v (c_regs c)) = 64) by (unfold lengthZ; lia).
  unfold write_ucontext in Hm. cbn zeta in Hm.
  repeat apply conj.
  - etransitivity; [apply read_words_ext; intros b Hb; rewrite Hm by lia; peel_writes; reflexivity|].
    rewrite <- Hx. apply read_written.
  - etransitivity; [apply read_words_ext; intros b Hb; rewrite Hm by lia; peel_writes; reflexivity|].
    rewrite <- Hv. apply read_written.
  - rewrite Hm by lia. peel_writes. apply upd_eq.
  - rewrite Hm by lia. peel_writes. apply upd_eq.
  - rewrite Hm by lia. peel_writes. apply upd_eq.
  - rewrite Hm by lia. peel_writes. apply upd_eq.
Qed.

(** ** Claiming an instance *)

Lemma consume_slots_keeps slots G :
  let G' := sfd_consume_slots slots G in
  g_sigact G' = g_sigact G /\ g_pending G' = g_pending G /\ g_pending_hi G' = g_pending_hi G /\ g_sigq G' = g_sigq G /\
  g_siginfo G' = g_siginfo G /\ gmem G' = gmem G.
Proof. cbn. auto 10. Qed.

Lemma process_clear_keeps s G :
  let G' := process_pending_clear s G in
  g_sigact G' = g_sigact G /\ g_sigq G' = g_sigq G /\ g_siginfo G' = g_siginfo G /\ g_sfd G' = g_sfd G /\ gmem G' = gmem G.
Proof. unfold process_pending_clear. destruct (valid_signal s), (s =? 64); cbn; auto 10. Qed.

Lemma thread_clear_keeps s c :
  let c' := thread_pending_clear s c in
  c_tid c' = c_tid c /\ sigmask c' = sigmask c /\ c_levels c' = c_levels c /\ c_sync c' = c_sync c /\
  c_force c' = c_force c /\ c_regs c' = c_regs c /\ c_alt c' = c_alt c.
Proof. unfold thread_pending_clear. destruct (valid_signal s), (s =? 64); cbn; auto 10. Qed.

(** The queue after a claim. *)
Definition queue_after (tid : Z) (l : list sigq_ent) : list sigq_ent :=
  match take_first tid l with Some (_, kept) => kept | None => l end.

Record claimed_from (s : Z) (c : cpu) (G : signals) (c' : cpu) (G' : signals) : Prop := {
  cl_tid : c_tid c' = c_tid c;
  cl_mask : sigmask c' = sigmask c;
  cl_levels : c_levels c' = c_levels c;
  cl_sync : c_sync c' = c_sync c;
  cl_force : c_force c' = c_force c;
  cl_regs : c_regs c' = c_regs c;
  cl_alt : c_alt c' = c_alt c;
  cl_mem : gmem G' = gmem G;
  cl_act : g_sigact G' = g_sigact G;
  cl_info : g_siginfo G' = g_siginfo G;
  cl_queue : g_sigq G' s = queue_after (c_tid c) (g_sigq G s);
  cl_queues : forall t, t <> s -> g_sigq G' t = g_sigq G t;
  cl_process : forall t, process_pending_test t G' = true -> process_pending_test t G = true;
  cl_thread : forall t, thread_pending_test t c' = true -> thread_pending_test t c = true
}.

Lemma cleared_process t s G : process_pending_test t (process_pending_clear s G) = true -> process_pending_test t G = true.
Proof. rewrite process_pending_clear_test. now intros [H _]%andb_prop. Qed.
Lemma cleared_thread t s c : thread_pending_test t (thread_pending_clear s c) = true -> thread_pending_test t c = true.
Proof. rewrite thread_pending_clear_test. now intros [H _]%andb_prop. Qed.

Lemma popped_from s c G popped c' G' :
  valid_signal s = true -> sigq_pop_for s c G = (popped, c', G') ->
  popped = fst <$> take_first (c_tid c) (g_sigq G s) /\ claimed_from s c G c' G'.
Proof.
  intros Hs. unfold sigq_pop_for. rewrite Hs. cbn [negb].
  destruct (take_first (c_tid c) (g_sigq G s)) as [[e kept]|] eqn:E; cbn zeta.
  2:{ intros [= <- <- <-]. split; [reflexivity|]. split; auto. unfold queue_after. now rewrite E. }
  set (B1 := negb (qe_target_tid e =? 0) && negb _). set (B2 := negb (negb _) && negb _).
  pose proof (thread_clear_keeps s c) as Hc. pose proof (process_clear_keeps s (set_sigq s kept G)) as HG.
  cbn zeta in Hc, HG. destruct Hc as (C1 & C2 & C3 & C4 & C5 & C6 & C7), HG as (P1 & P2 & P3 & P4 & P5).
  intros [= <- <- <-]. split; [reflexivity|].
  assert (Q : upd s kept (g_sigq G) s = queue_after (c_tid c) (g_sigq G s)) by (unfold queue_after; now rewrite E, upd_eq).
  assert (Q' : forall t, t <> s -> upd s kept (g_sigq G) t = g_sigq G t) by (intros; now apply upd_ne).
  assert (T : forall t k, process_pending_test t (sfd_consume_slots k (set_sigq s kept G)) = process_pending_test t G) by reflexivity.
  assert (T' : forall t k, process_pending_test t (sfd_consume_slots k (process_pending_clear s (set_sigq s kept G))) = true ->
      process_pending_test t G = true).
  { intros t k H. change (process_pending_test t (process_pending_clear s (set_sigq s kept G)) = true) in H.
    now apply cleared_process in H. }
  split; try (destruct B1; assumption || reflexivity); destruct B2; cbn [sfd_consume_slots set_sfd gmem g_sigact g_siginfo g_sigq];
    rewrite ?P1, ?P2, ?P3, ?P5; auto; try (intros t H; rewrite ?T in H; eauto; fail);
    destruct B1; auto; intros t; apply cleared_thread.
Qed.

Lemma claim_facts s c G popped had_t b c' G' :
  valid_signal s = true -> claim_instance s c G = (popped, had_t, b, c', G') ->
  popped = fst <$> take_first (c_tid c) (g_sigq G s) /\ claimed_from s c G c' G'.
Proof.
  intros Hs. unfold claim_instance. destruct (sigq_pop_for s c G) as [[p c1] G1] eqn:E.
  destruct (popped_from _ _ _ _ _ _ Hs E) as [-> [H1 H2 H3 H4 H5 H6 H7 H8 H9 H10 H11 H12 H13 H14]].
  intros [= <- _ _ <- <-]. split; [reflexivity|].
  pose proof (thread_clear_keeps s c1) as Hc. pose proof (process_clear_keeps s G1) as HG.
  cbn zeta in Hc, HG. destruct Hc as (C1 & C2 & C3 & C4 & C5 & C6 & C7), HG as (P1 & P2 & P3 & P4 & P5).
  split; try (destruct (negb _ && thread_pending_test s c1); congruence);
    try (destruct (fst <$> take_first (c_tid c) (g_sigq G s)); congruence).
  - destruct (fst <$> take_first (c_tid c) (g_sigq G s)); intros t Ht; rewrite ?P2; now apply H12.
  - intros t. destruct (fst <$> take_first (c_tid c) (g_sigq G s)); [apply H13|].
    intros H%cleared_process. now apply H13.
  - intros t. destruct (negb _ && thread_pending_test s c1); [intros H%cleared_thread|intros H]; now apply H14.
Qed.

Lemma from_64_spec s : In s from_64 <-> valid_signal s = true.
Proof.
  unfold from_64. rewrite <- in_rev, <- list_elem_of_In, elem_of_seqZ, valid_signal_spec. lia.
Qed.

Lemma from_64_NoDup : NoDup from_64.
Proof. unfold from_64. apply NoDup_ListNoDup, NoDup_rev, NoDup_ListNoDup, NoDup_seqZ. Qed.

Lemma unwind_sync n c : c_sync (unwind n c) = c_sync c.
Proof. revert c. induction n as [|n IH]; intros c; cbn [unwind]; [easy|]. destruct (_ && _); [now rewrite IH|easy]. Qed.

Lemma siginfo_words s i code address frame m a c m' :
  (forall b, frame <= b < frame + 32 -> m' b = write_ucontext a c frame (write_siginfo s i code address frame m) b) ->
  read_words frame 4 m' =
    [pair32 s (si_error i); pair32 code 0; if si_pid i =? 0 then address else pair32 (si_pid i) (si_uid i); si_value i].
Proof.
  intros Hm. etransitivity.
  { apply read_words_ext. intros b Hb. rewrite Hm by lia. unfold write_ucontext. cbn zeta. peel_writes. reflexivity. }
  apply (read_written frame [_; _; _; _]).
Qed.

(** Whether the thread's own bit is behind the signal once the oldest instance
    has been taken: a fault the thread recorded then gives the siginfo its code
    and address. *)
Definition still_pending (s : Z) (c : cpu) (l : list sigq_ent) : bool :=
  thread_pending_test s c &&
  match take_first (c_tid c) l with
  | Some (e, kept) => (qe_target_tid e =? 0) || existsb (fun q => qe_target_tid q =? c_tid c) kept
  | None => true
  end.

Lemma thread_pending_cleared s c : valid_signal s = true -> thread_pending_test s (thread_pending_clear s c) = false.
Proof. intros H. rewrite thread_pending_clear_test by easy. rewrite Z.eqb_refl, H. apply andb_false_r. Qed.

Lemma claim_had s c G popped had_t b c' G' :
  valid_signal s = true -> claim_instance s c G = (popped, had_t, b, c', G') -> had_t = still_pending s c (g_sigq G s).
Proof.
  intros Hs. unfold claim_instance, sigq_pop_for, still_pending. rewrite Hs. cbn [negb].
  destruct (take_first (c_tid c) (g_sigq G s)) as [[e kept]|]; intros [= _ <- _ _ _].
  - destruct (qe_target_tid e =? 0), (existsb (fun q => qe_target_tid q =? c_tid c) kept); cbn [negb andb orb];
      now rewrite ?andb_true_r, ?andb_false_r, ?thread_pending_cleared.
  - now rewrite andb_true_r.
Qed.

(** The handler's context, its queue and its siginfo. *)
Lemma entered_handler_spec s popped had_t c G c' G' :
  entered s popped had_t c G = (c', G') ->
  let a := g_sigact G s in
  let i := info_of popped (g_siginfo G s) in
  let fault := had_t && (sync_signal (c_sync c) =? s) in
  c_regs c' = entered_regs s a c /\ sigmask c' = entered_mask s a (sigmask c) /\ g_sigq G' s = g_sigq G s /\
  read_words (frame_at a c) 4 (gmem G') =
    [pair32 s (si_error i); pair32 (if fault then sync_code (c_sync c) else si_code i) 0;
     if si_pid i =? 0 then (if fault then sync_address (c_sync c) else si_addr i) else pair32 (si_pid i) (si_uid i);
     si_value i].
Proof.
  intros He. pose proof (entered_context s popped had_t c G) as (C1 & C2 & _).
  pose proof (entered_process s popped had_t c G) as (_ & _ & Q). pose proof (entered_gmem s popped had_t c G) as M.
  rewrite He in *. cbn [fst snd] in *. cbn zeta. rewrite Q, M. repeat split; auto.
  unfold entered_memory. cbn zeta.
  eapply siginfo_words. intros b Hb. destruct (s =? 32); [|reflexivity]. apply upd_ne. lia.
Qed.

(** ** No forced delivery *)

Definition unforced (c : cpu) : Prop := c_force c = mk_force 0 false.

Lemma unforced_test c t : unforced c -> signal_force_test t c = false.
Proof. intros H. unfold signal_force_test. rewrite H. cbn. now destruct (t =? 64). Qed.

Lemma unforced_clear s c : unforced c -> unforced (signal_force_clear s c).
Proof. unfold unforced, signal_force_clear. intros H. rewrite H. now destruct (s =? 64). Qed.

Lemma unforced_discard s c G : unforced c -> unforced (discard s c G).1.
Proof.
  intros H%(unforced_clear s). cbn. unfold unforced. now rewrite (proj1 (proj2 (proj2 (proj2 (proj2 (thread_clear_keeps _ _)))))).
Qed.

Lemma unforced_entered s popped had_t c G : unforced c -> unforced (entered s popped had_t c G).1.
Proof.
  intros H. destruct (entered_unfold s popped had_t c G) as (c1 & G1 & sy & E & _ & Hc & _).
  pose proof (record_frame_keeps c1) as (_ & _ & _ & _ & _ & F & _).
  assert (H1 : c_force c1 = mk_force 0 false).
  { transitivity (c_force (before_frame s popped c G)); [injection E as <- _; now destruct sy|].
    unfold before_frame. match goal with |- context [push_level s ?k ?K] => pose proof (push_level_keeps s k K) as (_ & _ & _ & _ & _ & -> & _) end.
    now apply unforced_clear. }
  unfold unforced. destruct Hc as [-> | ->]; cbn [set_sync c_force]; congruence.
Qed.

Lemma unwind_keeps n c :
  c_force (unwind n c) = c_force c /\ sig_depth (c_levels (unwind n c)) <= sig_depth (c_levels c).
Proof.
  revert c. induction n as [|n IH]; intros c; cbn [unwind]; [split; [easy|lia]|].
  destruct (_ && _); [|split; [easy|lia]]. destruct (IH (set_levels (pop_level (c_levels c)) c)) as [-> H].
  split; [easy|]. cbn in H. lia.
Qed.

(** A push for a thread, with no wake, leaves the process's words. *)
Lemma push_private s target e G :
  target <> 0 ->
  forall t, process_pending_test t (sigq_push_target_locked s target false e G).2 = process_pending_test t G.
Proof.
  intros Hn t. apply Z.eqb_neq in Hn. unfold sigq_push_target_locked. rewrite Hn.
  destruct (negb (valid_signal s)); [easy|]. cbn zeta.
  destruct (negb (negb (sig_is_rt s) && existsb (fun q => qe_target_tid q =? target) (g_sigq G s)) && _); [reflexivity|].
  now destruct (negb (negb (sig_is_rt s) && _)).
Qed.
