(* ===== verification/SignalInvariant.v ===== *)
(** * The signal state of a process

    Steps of the threads of a process on its signals, and what every one of
    them keeps: the queues stay within their bounds, and whoever may take an
    entry has the pending bit that makes it look. *)

From S2P Require Import Prelude Signals SignalDelivery SignalCalls SignalProofs.

(** ** Steps that only take entries away *)

Record takes (c : cpu) (G : signals) (c' : cpu) (G' : signals) : Prop := {
  tk_tid : c_tid c' = c_tid c;
  tk_queue : forall s, g_sigq G' s `sublist_of` g_sigq G s;
  tk_process : forall s q, In q (g_sigq G' s) -> qe_target_tid q = 0 ->
    process_pending_test s G = true -> process_pending_test s G' = true;
  tk_thread : forall s q, In q (g_sigq G' s) -> qe_target_tid q = c_tid c ->
    thread_pending_test s c = true -> thread_pending_test s c' = true
}.

Lemma takes_refl c G : takes c G c G.
Proof. now split. Qed.

Lemma sublist_In {A} (l k : list A) x : l `sublist_of` k -> In x l -> In x k.
Proof. rewrite <- !list_elem_of_In. intros H. now apply sublist_subseteq. Qed.

Lemma takes_trans c G c' G' c'' G'' : takes c G c' G' -> takes c' G' c'' G'' -> takes c G c'' G''.
Proof.
  intros [A1 A2 A3 A4] [B1 B2 B3 B4]. split; [congruence|intros s; now rewrite B2| |].
  - intros s q Hq H0 Hp. eapply B3; eauto using sublist_In.
  - intros s q Hq H0 Hp. eapply B4; eauto using sublist_In. congruence.
Qed.

(** The queues and the pending bits are all that counts. *)
Lemma takes_same c G c' G' :
  c_tid c' = c_tid c -> tpending c' = tpending c -> tpending_hi c' = tpending_hi c -> g_sigq G' = g_sigq G ->
  g_pending G' = g_pending G -> g_pending_hi G' = g_pending_hi G -> takes c G c' G'.
Proof.
  intros H1 H2 H3 H4 H5 H6. split; [easy|now intros s; rewrite H4| |]; intros s q _ _.
  - now rewrite !process_pending_word, H5, H6.
  - now rewrite !thread_pending_word, H2, H3.
Qed.

Lemma clear_process_other s t G : s <> t -> process_pending_test s (process_pending_clear t G) = process_pending_test s G.
Proof. intros H%Z.eqb_neq. now rewrite process_pending_clear_test, H, andb_true_r. Qed.
Lemma clear_thread_other s t c : s <> t -> thread_pending_test s (thread_pending_clear t c) = thread_pending_test s c.
Proof. intros H%Z.eqb_neq. now rewrite thread_pending_clear_test, H, andb_true_r. Qed.

(** Bits of a signal go only when nobody needs them. *)
Lemma takes_clear s c G (tq : bool) :
  (forall q, In q (g_sigq G s) -> qe_target_tid q <> 0 /\ (tq = true -> qe_target_tid q <> c_tid c)) ->
  takes c G (if tq then thread_pending_clear s c else c) (process_pending_clear s G).
Proof.
  intros H. pose proof (process_clear_keeps s G) as (_ & Q & _). pose proof (thread_clear_keeps s c) as (T & _). split.
  - now destruct tq.
  - intros t. now rewrite Q.
  - intros t q Hq H0 Hp. rewrite Q in Hq. destruct (Z.eq_dec t s) as [->|Hn]; [destruct (H q Hq); lia|].
    now rewrite clear_process_other.
  - intros t q Hq H0 Hp. rewrite Q in Hq. destruct tq; [|easy].
    destruct (Z.eq_dec t s) as [->|Hn]; [destruct (H q Hq) as [_ Hc]; now destruct Hc|]. now rewrite clear_thread_other.
Qed.

Lemma takes_flush s c G : valid_signal s = true -> takes c G (thread_pending_clear s c) (sigq_flush s G).
Proof.
  intros Hs. unfold sigq_flush. rewrite Hs. cbn [negb]. eapply takes_trans with (c' := c) (G' := set_sigq s [] G).
  - split; try easy; intros t; cbn [set_sigq g_sigq]; (destruct (Z.eq_dec t s) as [->|Hn]; [rewrite upd_eq|rewrite upd_ne by lia]);
      try easy. apply sublist_nil_l.
  - apply (takes_clear s c (set_sigq s [] G) true). intros q. cbn [set_sigq g_sigq]. now rewrite upd_eq.
Qed.

Lemma takes_clear_forced s c G : takes c G (signal_force_clear s c) G.
Proof. pose proof (force_clear_keeps s c) as (H1 & _ & H2 & H3 & _). now apply takes_same. Qed.

Lemma takes_discard s c G : valid_signal s = true -> takes c G (discard s c G).1 (discard s c G).2.
Proof.
  intros Hs. cbn [discard fst snd]. eapply takes_trans; [apply takes_clear_forced with (s := s)|].
  eapply takes_trans; [apply takes_flush with (s := s); exact Hs|].
  assert (Hq : g_sigq (sigq_flush s G) s = []).
  { unfold sigq_flush. rewrite Hs. cbn [negb]. rewrite (proj1 (proj2 (process_clear_keeps _ _))). apply upd_eq. }
  apply (takes_clear s _ (sigq_flush s G) false). now rewrite Hq.
Qed.

Lemma take_first_sublist tid l e kept :
  take_first tid l = Some (e, kept) -> kept `sublist_of` l /\ eligible tid e = true.
Proof.
  revert kept. induction l as [|q l IH]; intros kept; cbn [take_first]; [easy|].
  destruct (eligible tid q) eqn:Hq; [intros [= <- <-]; split; [now apply sublist_cons|exact Hq]|].
  destruct (take_first tid l) as [[e' k]|]; cbn [mbind option_bind]; [|easy]. intros [= <- <-].
  destruct (IH k eq_refl) as [H1 H2]. split; [now apply sublist_skip|exact H2].
Qed.

Lemma existsb_none {A} (p : A -> bool) l x : existsb p l = false -> In x l -> p x = false.
Proof.
  intros H Hx. destruct (p x) eqn:Hp; [|easy]. enough (existsb p l = true) by congruence. apply existsb_exists. eauto.
Qed.

Lemma takes_pop s c G :
  takes c G (sigq_pop_for s c G).1.2 (sigq_pop_for s c G).2.
Proof.
  unfold sigq_pop_for. destruct (valid_signal s) eqn:Hs; cbn [negb]; [|apply takes_refl].
  destruct (take_first (c_tid c) (g_sigq G s)) as [[e kept]|] eqn:E; [|apply takes_refl].
  destruct (take_first_sublist _ _ _ _ E) as [Hsub He]. cbn zeta. cbn [fst snd].
  set (P := existsb (fun q => qe_target_tid q =? 0) kept). set (T := existsb (fun q => qe_target_tid q =? c_tid c) kept).
  assert (HP : P = false -> forall q, In q kept -> qe_target_tid q <> 0).
  { intros H q Hq. apply Z.eqb_neq. exact (existsb_none _ _ _ H Hq). }
  assert (HT : T = false -> forall q, In q kept -> qe_target_tid q <> c_tid c).
  { intros H q Hq. apply Z.eqb_neq. exact (existsb_none _ _ _ H Hq). }
  clearbody P T.
  assert (Hqs : forall t, upd s kept (g_sigq G) t `sublist_of` g_sigq G t).
  { intros t. destruct (Z.eq_dec t s) as [->|Hn]; [now rewrite upd_eq|now rewrite upd_ne by lia]. }
  pose proof (process_clear_keeps s (set_sigq s kept G)) as (_ & Q & _). pose proof (thread_clear_keeps s c) as (C & _).
  split.
  - destruct (_ && _); [exact C|easy].
  - intros t. destruct (_ && negb P); cbn [sfd_consume_slots set_sfd g_sigq]; [rewrite Q|]; apply Hqs.
  - intros t q Hq H0 Hp.
    destruct (negb (negb (qe_target_tid e =? 0)) && negb P) eqn:B; [|exact Hp].
    apply andb_prop in B as [_ B]. apply negb_true_iff in B. cbn [sfd_consume_slots set_sfd g_sigq] in Hq. rewrite Q in Hq.
    change (process_pending_test t (process_pending_clear s (set_sigq s kept G)) = true).
    destruct (Z.eq_dec t s) as [->|Hn]; [|now rewrite clear_process_other].
    cbn [set_sigq g_sigq] in Hq. rewrite upd_eq in Hq. now destruct (HP B q Hq).
  - intros t q Hq H0 Hp. destruct (negb (qe_target_tid e =? 0) && negb T) eqn:B; [|exact Hp].
    apply andb_prop in B as [_ B]. apply negb_true_iff in B.
    destruct (Z.eq_dec t s) as [->|Hn]; [|now rewrite clear_thread_other].
    assert (Hk : In q kept).
    { destruct (_ && negb P); cbn [sfd_consume_slots set_sfd g_sigq] in Hq; [rewrite Q in Hq|];
        cbn [set_sigq g_sigq] in Hq; now rewrite upd_eq in Hq. }
    now destruct (HT B q Hk).
Qed.

Lemma pop_none s c G c' G' :
  valid_signal s = true -> sigq_pop_for s c G = (None, c', G') ->
  c' = c /\ G' = G /\ forall q, In q (g_sigq G s) -> qe_target_tid q <> 0 /\ qe_target_tid q <> c_tid c.
Proof.
  intros Hs. unfold sigq_pop_for. rewrite Hs. cbn [negb].
  destruct (take_first (c_tid c) (g_sigq G s)) as [[e kept]|] eqn:E; [intros [=]|]. intros [= <- <-].
  split; [easy|]. split; [easy|]. intros q Hq. pose proof (take_first_pop _ _ E q Hq) as H. unfold eligible in H. lia.
Qed.

(** Where a pop found nothing, both bits may go. *)
Lemma takes_unqueued s c G (tq : bool) :
  (forall q, In q (g_sigq G s) -> qe_target_tid q <> 0 /\ qe_target_tid q <> c_tid c) ->
  takes c G (if tq then thread_pending_clear s c else c) (process_pending_clear s G).
Proof. intros H. apply takes_clear. intros q Hq. destruct (H q Hq). auto. Qed.

Lemma takes_claim s c G popped had_t b c' G' :
  valid_signal s = true -> claim_instance s c G = (popped, had_t, b, c', G') -> takes c G c' G'.
Proof.
  intros Hs. unfold claim_instance. pose proof (takes_pop s c G) as Ht.
  destruct (sigq_pop_for s c G) as [[[e|] c1] G1] eqn:E; cbn [fst snd] in Ht.
  - now intros [= _ _ _ <- <-].
  - destruct (pop_none _ _ _ _ _ Hs E) as (-> & -> & Hq). intros [= _ _ _ <- <-]. now apply takes_unqueued.
Qed.

Lemma takes_entered s popped had_t c G : takes c G (entered s popped had_t c G).1 (entered s popped had_t c G).2.
Proof.
  pose proof (entered_context s popped had_t c G) as (_ & _ & H1 & H2 & H3 & _).
  pose proof (entered_process s popped had_t c G) as (H4 & H5 & H6). now apply takes_same.
Qed.

Lemma takes_scan l c G o c' G' :
  (forall s, In s l -> valid_signal s = true) -> deliver_scan l c G = (o, c', G') -> takes c G c' G'.
Proof.
  revert c G. induction l as [|s l IH]; intros c G Hv; [cbn; intros [= _ <- <-]; apply takes_refl|].
  assert (Hs : valid_signal s = true) by (apply Hv; now left).
  assert (Hvl : forall t, In t l -> valid_signal t = true) by (intros; apply Hv; now right).
  rewrite deliver_scan_step. destruct (pending_test s c G && open_to s c); [|now apply IH]. cbn zeta.
  destruct (sa_handler (g_sigact G s) <=? 1).
  - pose proof (takes_discard s c G Hs) as H. destruct (discard s c G) as [c1 G1]. cbn [fst snd] in H.
    destruct ((sa_handler (g_sigact G s) =? 0) && sig_default_terminates s); [now intros [= _ <- <-]|].
    intros Hd. eapply takes_trans; [exact H|]. now apply IH.
  - destruct (claim_instance s c G) as [[[[popped had_t] b] c1] G1] eqn:Ec. apply takes_claim in Ec; [|exact Hs].
    destruct b; [|intros Hd; eapply takes_trans; [exact Ec|]; now apply IH].
    pose proof (takes_entered s popped had_t c1 G1) as H. unfold entered in H.
    destruct (enter_handler s popped had_t c1 G1) as [c2 G2]. intros [= _ <- <-]. eapply takes_trans; [exact Ec|exact H].
Qed.

Lemma takes_levels l c G : takes c G (set_levels l c) G.
Proof. now apply takes_same. Qed.

Lemma takes_unwind n c G : takes c G (unwind n c) G.
Proof.
  revert c. induction n as [|n IH]; intros c; cbn [unwind]; [apply takes_refl|].
  destruct (_ && _); [|apply takes_refl]. eapply takes_trans; [apply takes_levels|apply IH].
Qed.

Lemma takes_deliver c G o c' G' : maybe_deliver_signal c G = (o, c', G') -> takes c G c' G'.
Proof.
  unfold maybe_deliver_signal. generalize from_64 from_64_spec. intros l Hl H.
  eapply takes_trans; [apply takes_unwind|]. eapply takes_scan; [|exact H]. intros s. apply Hl.
Qed.

Lemma takes_restored m c G : takes c G (do_sigreturn m c) G.
Proof. apply takes_same; reflexivity. Qed.

Lemma takes_return c G o c' G' : signal_return_complete c G = (o, c', G') -> takes c G c' G'.
Proof.
  unfold signal_return_complete. intros H%takes_deliver. eapply takes_trans; [|exact H].
  destruct (0 <? sig_depth (c_levels c)); [apply takes_levels|apply takes_refl].
Qed.

Lemma takes_sigreturn c G o c' G' : sigreturn c G = (o, c', G') -> takes c G c' G'.
Proof.
  unfold sigreturn. intros H%takes_return. eapply takes_trans; [apply (takes_restored (gmem G))|exact H].
Qed.

Lemma takes_host s c G : takes c G (host_sig_pend s c G).1 (host_sig_pend s c G).2.
Proof.
  cbn [host_sig_pend fst snd].
  assert (Hq : g_sigq (sfd_deliver s (process_pending_set s G)) = g_sigq G).
  { unfold sfd_deliver, process_pending_set. destruct (valid_signal s), (s =? 64); reflexivity. }
  split; [easy|intros t; now rewrite Hq| |easy].
  intros t q _ _ Hp. assert (H : process_pending_test t (process_pending_set s G) = true)
    by (rewrite process_pending_set_test, Hp; apply orb_true_r).
  unfold sfd_deliver. now destruct (negb (valid_signal s)).
Qed.

Lemma takes_hosts l c G : takes c G (host_signals l c G).1 (host_signals l c G).2.
Proof.
  revert c G. induction l as [|s l IH]; intros c G; [apply takes_refl|].
  change (takes c G (host_signals l (host_sig_pend s c G).1 (host_sig_pend s c G).2).1
            (host_signals l (host_sig_pend s c G).1 (host_sig_pend s c G).2).2).
  eapply takes_trans; [apply takes_host|apply IH].
Qed.

Lemma takes_dequeue s w c G i c' G' :
  valid_signal s = true -> dequeue_waited s w c G = (i, c', G') -> takes c G c' G'.
Proof.
  intros Hs. unfold dequeue_waited. pose proof (takes_pop s c G) as Ht.
  destruct (sigq_pop_for s c G) as [[[e|] c1] G1] eqn:E; cbn [fst snd] in Ht; [now intros [= _ <- <-]|].
  destruct (pop_none _ _ _ _ _ Hs E) as (-> & -> & Hq). intros [= _ <- <-].
  eapply takes_trans; [exact (takes_unqueued s c G true Hq)|]. destruct w; now apply takes_same.
Qed.

Lemma awaited_valid l set c G s : awaited l set c G = Some s -> valid_signal s = true.
Proof.
  induction l as [|t l IH]; cbn [awaited]; [easy|]. destruct (_ && _) eqn:E; [|exact IH]. intros [= <-].
  apply andb_prop in E as [E _]. unfold process_pending_test, thread_pending_test in E. now destruct (valid_signal t).
Qed.

Lemma takes_wait finite slices set w c G r c' G' :
  timedwait_loop finite slices set w c G = Some (r, c', G') -> takes c G c' G'.
Proof.
  revert c G. induction slices as [|x slices IH]; intros c G; cbn [timedwait_loop];
    destruct (awaited (seqZ 1 64) set c G) as [s|] eqn:E.
  1, 3: pose proof (takes_dequeue s w c G) as H; destruct (dequeue_waited s w c G) as [[i c1] G1];
    intros [= _ <- <-]; exact (H _ _ _ (awaited_valid _ _ _ _ _ E) eq_refl).
  - destruct finite; [intros [= _ <- <-]; apply takes_refl|easy].
  - pose proof (takes_hosts x c G) as H. destruct (host_signals x c G) as [c1 G1]. intros Hl.
    eapply takes_trans; [exact H|now apply IH].
Qed.

Lemma takes_timedwait set out timeout size slices c G r c' G' :
  rt_sigtimedwait set out timeout size slices c G = Some (r, c', G') -> takes c G c' G'.
Proof.
  unfold rt_sigtimedwait. destruct (negb (size =? 8)); [intros [= _ <- <-]; apply takes_refl|].
  destruct set; try (intros [= _ <- <-]; apply takes_refl). destruct (_ || _); [intros [= _ <- <-]; apply takes_refl|].
  destruct timeout as [| |[sec nsec]]; try apply takes_wait.
  destruct (_ || _ || _); [intros [= _ <- <-]; apply takes_refl|apply takes_wait].
Qed.

Lemma takes_sfd_pop l mask c G r c' G' :
  sfd_pop l mask c G = (r, c', G') ->
  takes c G c' G' /\ (r = None -> (forall s, In s l -> valid_signal s = true) ->
    c' = c /\ G' = G /\ forall s q, In s l -> has_flag mask (mask_bit s) = true -> In q (g_sigq G s) ->
      qe_target_tid q <> 0 /\ qe_target_tid q <> c_tid c).
Proof.
  revert c G. induction l as [|s l IH]; intros c G; cbn [sfd_pop].
  { intros [= <- <- <-]. split; [apply takes_refl|]. intros _ _. repeat split; contradiction. }
  destruct (has_flag mask (mask_bit s)) eqn:Hm.
  2:{ intros H. destruct (IH c G H) as [IH1 IH2]. split; [exact IH1|]. intros Hr Hv.
      destruct (IH2 Hr) as (-> & -> & Hq); [intros; apply Hv; now right|]. split; [easy|]. split; [easy|].
      intros t q [->|Ht] Hmt; [congruence|eauto]. }
  pose proof (takes_pop s c G) as Ht. destruct (sigq_pop_for s c G) as [[[e|] c1] G1] eqn:E; cbn [fst snd] in Ht.
  - intros [= <- <- <-]. split; [exact Ht|easy].
  - intros H. destruct (IH c1 G1 H) as [IH1 IH2]. split; [eapply takes_trans; eauto|]. intros Hr Hv.
    destruct (pop_none _ _ _ _ _ (Hv s (or_introl eq_refl)) E) as (-> & -> & Hq).
    destruct (IH2 Hr) as (-> & -> & Hql); [intros; apply Hv; now right|]. split; [easy|]. split; [easy|].
    intros t q [->|Htl] Hmt Hin; eauto.
Qed.

Lemma one_to_64 s : In s (seqZ 1 64) <-> valid_signal s = true.
Proof. rewrite <- list_elem_of_In, elem_of_seqZ, valid_signal_spec. lia. Qed.

Lemma takes_read slot count buffer c G r i c' G' :
  svc_read_signalfd slot count buffer c G = (r, i, c', G') -> takes c G c' G'.
Proof.
  unfold svc_read_signalfd, sfd_bare. generalize one_to_64. generalize (seqZ 1 64). intros l Hl.
  destruct (count <? 128); [intros [= _ _ <- <-]; apply takes_refl|].
  destruct buffer; try (intros [= _ _ <- <-]; apply takes_refl).
  set (mask := match lookupZ (g_sfd G) slot with Some d => sfd_mask d | None => 0 end).
  destruct (sfd_pop l mask c G) as [[[[s e]|] c1] G1] eqn:E.
  - intros [= _ _ <- <-]. apply (takes_sfd_pop _ _ _ _ _ _ _ E).
  - destruct (takes_sfd_pop _ _ _ _ _ _ _ E) as [_ H].
    destruct (H eq_refl (fun s => proj1 (Hl s))) as (-> & -> & Hq).
    destruct (List.find _ l) as [s|] eqn:Ef; [|intros [= _ _ <- <-]; apply takes_refl].
    apply find_some in Ef as [Hs Hf]. apply andb_prop in Hf as [Hf _]. intros [= _ _ <- <-].
    eapply takes_trans; [apply (takes_unqueued s c G false); intros q; exact (Hq s q Hs Hf)|now apply takes_same].
Qed.

Lemma takes_sigaction s act old size c G r stored c' G' :
  rt_sigaction s act old size c G = (r, stored, c', G') -> takes c G c' G'.
Proof.
  unfold rt_sigaction. destruct (negb (size =? 8)); [intros [= _ _ <- <-]; apply takes_refl|].
  destruct ((s <? 1) || (64 <? s)) eqn:Hs; [intros [= _ _ <- <-]; apply takes_refl|].
  destruct ((s =? 9) || (s =? 19)); [intros [= _ _ <- <-]; apply takes_refl|].
  destruct (u_bad act); [intros [= _ _ <- <-]; apply takes_refl|].
  destruct (u_bad old); [intros [= _ _ <- <-]; apply takes_refl|].
  assert (Hv : valid_signal s = true) by (apply valid_signal_spec; lia).
  destruct act as [| |a]; try (intros [= _ _ <- <-]; apply takes_refl).
  destruct ((sa_handler a =? 1) || ((sa_handler a =? 0) && negb (sig_default_terminates s))); intros [= _ _ <- <-]; [|now apply takes_same].
  eapply takes_trans; [|apply takes_flush, Hv]. now apply takes_same.
Qed.

(** ** The invariant *)

Record signals_ok (P : process) : Prop := {
  so_depth : forall s, lengthZ (g_sigq (p_signals P) s) <= SIGQ_DEPTH;
  so_standard : forall s, sig_is_rt s = false -> NoDup (map qe_target_tid (g_sigq (p_signals P) s));
  so_process : forall s q, In q (g_sigq (p_signals P) s) -> qe_target_tid q = 0 -> process_pending_test s (p_signals P) = true;
  so_thread : forall s q, In q (g_sigq (p_signals P) s) -> qe_target_tid q <> 0 ->
    exists c, In c (p_threads P) /\ c_tid c = qe_target_tid q /\ thread_pending_test s c = true;
  so_tids : NoDup (map c_tid (p_threads P)) /\ forall c, In c (p_threads P) -> 0 < c_tid c
}.

Lemma insertZ_In {A} (l : list A) i x y z :
  lookupZ l i = Some x -> In z l -> z = x \/ In z (insertZ l i y).
Proof.
  intros Hx Hz. apply elem_lookupZ in Hz as [j Hj]. destruct (Z.eq_dec i j) as [->|Hn]; [left; congruence|right].
  apply lookupZ_elem with j. now rewrite lookupZ_insertZ_ne.
Qed.

Lemma In_insertZ {A} (l : list A) i y z : In z (insertZ l i y) -> z = y \/ In z l.
Proof.
  intros Hz. apply elem_lookupZ in Hz as [j Hj]. destruct (Z.eq_dec i j) as [->|Hn].
  - left. pose proof (lookupZ_Some_range _ _ _ Hj) as Hr. rewrite lengthZ_insertZ in Hr.
    rewrite lookupZ_insertZ_eq in Hj by exact Hr. congruence.
  - right. rewrite lookupZ_insertZ_ne in Hj by exact Hn. now apply lookupZ_elem with j.
Qed.

Lemma insertZ_new {A} (l : list A) i x y : lookupZ l i = Some x -> In y (insertZ l i y).
Proof.
  intros Hx. apply lookupZ_elem with i. apply lookupZ_insertZ_eq. now apply lookupZ_Some_range with x.
Qed.

Lemma sublist_map {A B} (f : A -> B) l k : l `sublist_of` k -> map f l `sublist_of` map f k.
Proof. induction 1; cbn; [constructor|now apply sublist_skip|now apply sublist_cons]. Qed.

Lemma tids_kept P i c c' G :
  signals_ok P -> lookupZ (p_threads P) i = Some c -> c_tid c' = c_tid c ->
  let P' := set_signals G (set_thread i c' P) in
  NoDup (map c_tid (p_threads P')) /\ forall k, In k (p_threads P') -> 0 < c_tid k.
Proof.
  intros [_ _ _ _ [Hnd Hpos]] Hc Ht. cbn. rewrite (map_insertZ _ _ _ c) by easy. split; [exact Hnd|].
  intros k [->|Hk]%In_insertZ; [rewrite Ht; apply Hpos; now apply lookupZ_elem with i|auto].
Qed.

Lemma takes_ok P i c c' G' :
  signals_ok P -> lookupZ (p_threads P) i = Some c -> takes c (p_signals P) c' G' ->
  signals_ok (set_signals G' (set_thread i c' P)).
Proof.
  intros Hok Hc [T1 T2 T3 T4]. pose proof (tids_kept P i c c' G' Hok Hc T1) as Htids. destruct Hok as [H1 H2 H3 H4 _].
  split; [| | | |exact Htids]; cbn [set_signals set_thread p_threads p_signals].
  - intros s. specialize (H1 s). pose proof (sublist_length _ _ (T2 s)). unfold lengthZ in *. lia.
  - intros s Hs. specialize (H2 s Hs). eapply sublist_NoDup; [exact H2|apply sublist_map, T2].
  - intros s q Hq H0. eapply T3; eauto. eapply H3; eauto using sublist_In.
  - intros s q Hq H0. destruct (H4 s q) as (k & Hk & Hkt & Hkp); eauto using sublist_In.
    destruct (insertZ_In _ _ _ c' k Hc Hk) as [->|Hk']; [|eauto].
    exists c'. split; [now apply insertZ_new with c|]. split; [congruence|]. eapply T4; eauto.
Qed.

(** An entry is added, with its bit. *)
Lemma NoDup_snoc {A} (l : list A) x : NoDup l -> ~ In x l -> NoDup (l ++ [x]).
Proof.
  intros Hl Hx. apply list.NoDup_app. split; [exact Hl|]. split; [|apply NoDup_singleton].
  intros y Hy H%list_elem_of_singleton. subst y. now apply Hx, list_elem_of_In.
Qed.

Lemma push_shape s target wake e G :
  exists queued G', sigq_push_target_locked s target wake e G = (queued, G') /\
  (forall t, process_pending_test t G = true -> process_pending_test t G' = true) /\
  (g_sigq G' = g_sigq G \/
   exists q, g_sigq G' = upd s (g_sigq G s ++ [q]) (g_sigq G) /\ qe_target_tid q = target /\ valid_signal s = true /\
     lengthZ (g_sigq G s) < SIGQ_DEPTH /\ 0 <= queued /\
     (sig_is_rt s = false -> forall q', In q' (g_sigq G s) -> qe_target_tid q' <> target) /\
     (target = 0 -> process_pending_test s G' = true)).
Proof.
  unfold sigq_push_target_locked. destruct (valid_signal s) eqn:Hs; cbn [negb]; [|eauto 10].
  assert (Hset : forall t K, process_pending_test t K = true -> process_pending_test t (process_pending_set s K) = true).
  { intros t K H. rewrite process_pending_set_test, H. apply orb_true_r. }
  assert (Hown : forall K, process_pending_test s (process_pending_set s K) = true).
  { intros K. now rewrite process_pending_set_test, Z.eqb_refl, Hs. }
  assert (Hqs : forall K, g_sigq (process_pending_set s K) = g_sigq K).
  { intros K. unfold process_pending_set. destruct (valid_signal s), (s =? 64); reflexivity. }
  cbn zeta. set (duplicate := negb (sig_is_rt s) && _). set (slots := if wake then _ else 0).
  destruct (negb duplicate && (lengthZ (g_sigq G s) <? SIGQ_DEPTH)) eqn:E; cbn beta iota.
  2:{ destruct (negb duplicate), (target =? 0); cbn beta iota; do 2 eexists; (split; [reflexivity|]); rewrite ?Hqs; auto. }
  apply andb_prop in E as [Ed El]. apply negb_true_iff in Ed.
  assert (Hdup : sig_is_rt s = false -> forall q', In q' (g_sigq G s) -> qe_target_tid q' <> target).
  { intros Hrt q' Hq'. unfold duplicate in Ed. rewrite Hrt in Ed. cbn in Ed. apply Z.eqb_neq. exact (existsb_none _ _ _ Ed Hq'). }
  do 2 eexists. split; [reflexivity|]. split.
  - intros t Ht. destruct (target =? 0); [apply Hset|]; now destruct (negb (slots =? 0)).
  - apply Z.ltb_lt in El. right. eexists. split.
    { destruct (target =? 0), (negb (slots =? 0)); rewrite ?Hqs; reflexivity. }
    split; [reflexivity|]. split; [reflexivity|]. split; [exact El|]. split; [lia|]. split; [exact Hdup|]. intros ->. apply Hown.
Qed.

(** Both kinds of push: to the process, and to the thread whose bit it sets. *)
Lemma push_ok P s target wake e queued G' :
  signals_ok P -> sigq_push_target_locked s target wake e (p_signals P) = (queued, G') ->
  forall i c c', lookupZ (p_threads P) i = Some c -> c_tid c' = c_tid c ->
  (forall t, thread_pending_test t c = true -> thread_pending_test t c' = true) ->
  (target = 0 \/ target = c_tid c /\ (0 <= queued -> valid_signal s = true -> thread_pending_test s c' = true)) ->
  signals_ok (set_signals G' (set_thread i c' P)).
Proof.
  intros Hok Hpush i c c' Hc Htid Hkeep Htarget.
  destruct (push_shape s target wake e (p_signals P)) as (queued' & G'' & E & Hproc & Hq).
  rewrite Hpush in E. injection E as <- <-. clear Hpush.
  pose proof (tids_kept P i c c' G' Hok Hc Htid) as Htids.
  destruct Hok as [H1 H2 H3 H4 [_ Hpos]].
  assert (Hold : forall t q, In q (g_sigq (p_signals P) t) -> qe_target_tid q <> 0 ->
      exists k, In k (insertZ (p_threads P) i c') /\ c_tid k = qe_target_tid q /\ thread_pending_test t k = true).
  { intros t q Hin Hn. destruct (H4 t q Hin Hn) as (k & Hk & Hkt & Hkp).
    destruct (insertZ_In _ _ _ c' k Hc Hk) as [->|Hk']; [|eauto].
    exists c'. split; [now apply insertZ_new with c|]. split; [congruence|auto]. }
  destruct Hq as [Hq|(q & Hq & Hqt & Hs & Hlen & Hres & Hdup & Hbit)].
  - split; [| | | |exact Htids]; cbn [set_signals set_thread p_threads p_signals]; rewrite Hq; eauto.
  - split; [| | | |exact Htids]; cbn [set_signals set_thread p_threads p_signals]; rewrite Hq; intros t;
      (destruct (Z.eq_dec t s) as [->|Hn]; [rewrite upd_eq|rewrite upd_ne by exact Hn]); eauto.
    + unfold lengthZ in *. rewrite length_app. cbn. lia.
    + intros Hrt. rewrite map_app. apply NoDup_snoc; [now apply H2|]. rewrite Hqt. intros Hin.
      apply in_map_iff in Hin as (q' & Hq' & Hin). exact (Hdup Hrt q' Hin Hq').
    + intros q' [Hin|[<-|[]]]%in_app_or H0; [eauto|]. apply Hbit. congruence.
    + intros q' [Hin|[<-|[]]]%in_app_or H0; [eauto|]. exists c'. split; [now apply insertZ_new with c|].
      destruct Htarget as [->|[-> Hb]]; [congruence|]. split; [congruence|auto].
Qed.

Lemma raise_ok P i c s e o G' :
  signals_ok P -> lookupZ (p_threads P) i = Some c -> raise_guest_signal_info s e c (p_signals P) = (o, G') ->
  signals_ok (set_signals G' P).
Proof.
  intros Hok Hc Hr.
  assert (Hid : set_thread i c P = P).
  { destruct P. unfold set_thread. cbn in *. now rewrite insertZ_id. }
  assert (Hsame : signals_ok (set_signals (p_signals P) P)) by (now destruct P).
  assert (Hpush : forall wake, signals_ok (set_signals (sigq_push_target_locked s 0 wake e (p_signals P)).2 P)).
  { intros wake. destruct (sigq_push_target_locked s 0 wake e (p_signals P)) as [queued G1] eqn:E. cbn [snd].
    rewrite <- Hid. eapply push_ok; eauto. }
  unfold raise_guest_signal_info in Hr. destruct (negb (valid_signal s)); [now injection Hr as <- <-|].
  cbn zeta in Hr. repeat (case_match_in Hr; [injection Hr as <- <-; solve [exact Hsame | apply Hpush]|]).
  injection Hr as <- <-. exact Hsame.
Qed.

Lemma thread_publish_ok P i c s e queued c' G' :
  signals_ok P -> lookupZ (p_threads P) i = Some c ->
  thread_directed_signal_publish s e c (p_signals P) = (queued, c', G') ->
  signals_ok (set_signals G' (set_thread i (set_irq c') P)).
Proof.
  intros Hok Hc. unfold thread_directed_signal_publish.
  destruct (sigq_push_target_locked s (c_tid c) false e (p_signals P)) as [q G1] eqn:E. intros [= <- <- <-].
  assert (Ht : c_tid (thread_pending_set s c) = c_tid c).
  { unfold thread_pending_set. destruct (valid_signal s), (s =? 64); reflexivity. }
  eapply push_ok; [exact Hok|exact E|exact Hc| | |].
  - now destruct (0 <=? q).
  - intros t H. change (thread_pending_test t (if 0 <=? q then thread_pending_set s c else c) = true).
    destruct (0 <=? q); [|exact H]. rewrite thread_pending_set_test, H. apply orb_true_r.
  - right. split; [reflexivity|]. intros Hq Hs.
    change (thread_pending_test s (if 0 <=? q then thread_pending_set s c else c) = true).
    destruct (Z.leb_spec 0 q); [|lia]. now rewrite thread_pending_set_test, Z.eqb_refl, Hs.
Qed.

(** ** Steps *)

(** What one thread of the process does to its signals, and the world to them.
    [rt_sigsuspend] is not here: see [suspend_strands_an_entry]. *)
Inductive signal_step (P : process) : process -> Prop :=
| step_raise i c s e o G' :
    lookupZ (p_threads P) i = Some c -> raise_guest_signal_info s e c (p_signals P) = (o, G') ->
    signal_step P (set_signals G' P)
| step_timer i c s e queued G' :
    lookupZ (p_threads P) i = Some c -> sigq_push_signalfd s e (p_signals P) = (queued, G') ->
    signal_step P (set_signals G' P)
| step_tgkill i c tgid tid s r o P' :
    lookupZ (p_threads P) i = Some c -> tgkill i c tgid tid s P = (r, o, P') -> signal_step P P'
| step_deliver i c o c' G' :
    lookupZ (p_threads P) i = Some c -> maybe_deliver_signal c (p_signals P) = (o, c', G') ->
    signal_step P (set_signals G' (set_thread i c' P))
| step_sigreturn i c o c' G' :
    lookupZ (p_threads P) i = Some c -> sigreturn c (p_signals P) = (o, c', G') ->
    signal_step P (set_signals G' (set_thread i c' P))
| step_sigaction i c s act old size r stored c' G' :
    lookupZ (p_threads P) i = Some c -> rt_sigaction s act old size c (p_signals P) = (r, stored, c', G') ->
    signal_step P (set_signals G' (set_thread i c' P))
| step_sigprocmask i c how set old size r stored c' :
    lookupZ (p_threads P) i = Some c -> rt_sigprocmask how set old size c = (r, stored, c') ->
    signal_step P (set_signals (p_signals P) (set_thread i c' P))
| step_timedwait i c set out timeout size slices r c' G' :
    lookupZ (p_threads P) i = Some c ->
    rt_sigtimedwait set out timeout size slices c (p_signals P) = Some (r, c', G') ->
    signal_step P (set_signals G' (set_thread i c' P))
| step_read i c slot count buffer r record c' G' :
    lookupZ (p_threads P) i = Some c ->
    svc_read_signalfd slot count buffer c (p_signals P) = (r, record, c', G') ->
    signal_step P (set_signals G' (set_thread i c' P))
| step_host i c s :
    lookupZ (p_threads P) i = Some c ->
    signal_step P (set_signals (host_sig_pend s c (p_signals P)).2 (set_thread i (host_sig_pend s c (p_signals P)).1 P))
| step_guest i c r m :
    lookupZ (p_threads P) i = Some c ->
    signal_step P (set_signals (set_gmem m (p_signals P)) (set_thread i (set_regs r c) P))
| step_drop_tag i c s tag :
    lookupZ (p_threads P) i = Some c -> signal_step P (set_signals (sigq_drop_tag s tag (p_signals P)) P)
| step_exit i c :
    lookupZ (p_threads P) i = Some c -> signal_step P (thread_unregister i P)
| step_spawn i c tid sp pc :
    lookupZ (p_threads P) i = Some c -> 0 < tid -> ~ In tid (map c_tid (p_threads P)) ->
    signal_step P (mk_process (p_threads P ++ [spawn_signal_state tid sp pc c]) (p_signals P) (p_pid P) (p_ruid P)).

Lemma siginfo_ok P s i : signals_ok P -> signals_ok (set_signals (set_siginfo s i (p_signals P)) P).
Proof. now intros []. Qed.

Lemma find_tid_Some tid l i : find_tid tid l = Some i -> exists c, lookupZ l i = Some c /\ c_tid c = tid.
Proof.
  intros H. apply scan_from_Some in H as (_ & (c & Hc & Ht) & _). rewrite Z.sub_0_r in Hc. exists c. split; [exact Hc|lia].
Qed.

Lemma thread_kill_ok P i c tid s r o P' :
  signals_ok P -> lookupZ (p_threads P) i = Some c -> thread_kill i c tid s P = (r, o, P') -> signals_ok P'.
Proof.
  intros Hok Hc. unfold thread_kill. cbn zeta.
  assert (Hfall : forall e P1 o1 G1, signals_ok P1 -> lookupZ (p_threads P1) i = Some c ->
      raise_guest_signal_info s e c (p_signals P1) = (o1, G1) -> signals_ok (set_signals G1 P1)).
  { intros. eapply raise_ok; eauto. }
  destruct (valid_signal s && _).
  2:{ destruct (raise_guest_signal_info s _ c (p_signals P)) as [o1 G1] eqn:E. intros [= _ _ <-]. eauto. }
  match goal with |- context [set_siginfo s ?k (p_signals P)] => pose proof (siginfo_ok P s k Hok) as Hok1; set (G0 := set_siginfo s k (p_signals P)) in * end.
  destruct (tid =? c_tid c).
  - cbn [set_signals p_pid p_ruid]. destruct (thread_directed_signal_publish s _ c G0) as [[queued c'] G'] eqn:E.
    destruct (queued <? 0); intros [= _ _ <-]; [exact Hok1|].
    exact (thread_publish_ok (set_signals G0 P) i c s _ queued c' G' Hok1 Hc E).
  - unfold thread_target_signal_info. cbn [set_signals p_pid p_ruid p_threads p_signals].
    destruct (find_tid tid (p_threads P)) as [j|] eqn:Ej.
    2:{ cbn [Z.ltb Z.compare]. destruct (raise_guest_signal_info s _ c _) as [o1 G1] eqn:E. intros [= _ _ <-].
        exact (Hfall _ (set_signals G0 P) o1 G1 Hok1 Hc E). }
    destruct (find_tid_Some _ _ _ Ej) as (k & Hk & Hkt). rewrite Hk.
    destruct (thread_directed_signal_publish s _ k G0) as [[queued c'] G'] eqn:E.
    destruct (queued <? 0); cbn [Z.ltb Z.compare]; intros [= _ _ <-]; [exact Hok1|].
    exact (thread_publish_ok (set_signals G0 P) j k s _ queued c' G' Hok1 Hk E).
Qed.

Lemma filter_sublist {A} (p : A -> bool) l : List.filter p l `sublist_of` l.
Proof. induction l as [|x l IH]; cbn; [constructor|]. destruct (p x); [now apply sublist_skip|now apply sublist_cons]. Qed.

Lemma lengthZ_zero {A} (l : list A) : lengthZ l = 0 -> l = [].
Proof. destruct l; [easy|]. unfold lengthZ. cbn. lia. Qed.

Lemma takes_drop_tag s tag c G : takes c G c (sigq_drop_tag s tag G).
Proof.
  unfold sigq_drop_tag. destruct (negb (valid_signal s) || (tag =? 0)); [apply takes_refl|]. cbn zeta.
  set (kept := List.filter _ (g_sigq G s)).
  assert (H : takes c G c (set_sigq s kept G)).
  { split; try easy. intros t. cbn [set_sigq g_sigq].
    destruct (Z.eq_dec t s) as [->|Hn]; [rewrite upd_eq; apply filter_sublist|now rewrite upd_ne by exact Hn]. }
  destruct ((0 <? _) && (lengthZ kept =? 0)) eqn:E; [|exact H]. apply andb_prop in E as [_ E].
  apply Z.eqb_eq, lengthZ_zero in E. eapply takes_trans; [exact H|].
  apply (takes_clear s c (set_sigq s kept G) false). cbn [set_sigq g_sigq]. now rewrite upd_eq, E.
Qed.

Lemma exit_ok P i c : signals_ok P -> lookupZ (p_threads P) i = Some c -> signals_ok (thread_unregister i P).
Proof.
  intros [H1 H2 H3 H4 [H5 H6]] Hc. unfold thread_unregister. rewrite Hc.
  pose proof (H6 c (lookupZ_elem _ _ _ Hc)) as Hpos.
  unfold sigq_drop_target_tid. destruct (Z.leb_spec (c_tid c) 0); [lia|].
  set (queue := fun s => if valid_signal s then _ else g_sigq (p_signals P) s).
  assert (Hsub : forall s, queue s `sublist_of` g_sigq (p_signals P) s).
  { intros s. unfold queue. destruct (valid_signal s); [apply filter_sublist|easy]. }
  assert (Hrest : forall k, In k (p_threads P) ->
      k = c \/ In k (take (Z.to_nat i) (p_threads P) ++ drop (S (Z.to_nat i)) (p_threads P))).
  { intros k Hk. pose proof (lookupZ_Some_range _ _ _ Hc) as Hr. unfold lookupZ in Hc. destruct (0 <=? i); [|easy].
    rewrite <- (take_drop_middle _ _ _ Hc) in Hk. apply in_app_or in Hk as [Hk|[Hk|Hk]]; auto; right; apply in_or_app; auto. }
  assert (Hthreads : take (Z.to_nat i) (p_threads P) ++ drop (S (Z.to_nat i)) (p_threads P) `sublist_of` p_threads P).
  { etransitivity; [|rewrite <- (take_drop (Z.to_nat i) (p_threads P)); reflexivity].
    apply sublist_app; [easy|]. replace (S (Z.to_nat i)) with (Z.to_nat i + 1)%nat by lia. rewrite <- drop_drop. apply sublist_drop. }
  split; cbn [p_threads p_signals g_sigq].
  - intros s. specialize (H1 s). pose proof (sublist_length _ _ (Hsub s)). unfold lengthZ in *. lia.
  - intros s Hs. eapply sublist_NoDup; [exact (H2 s Hs)|]. now apply sublist_map.
  - intros s q Hq H0. eapply H3; eauto using sublist_In.
  - intros s q Hq H0. assert (Hin : In q (g_sigq (p_signals P) s)) by eauto using sublist_In.
    destruct (H4 s q Hin H0) as (k & Hk & Hkt & Hkp). exists k. split; [|auto].
    destruct (Hrest k Hk) as [->|Hk']; [|exact Hk']. exfalso.
    assert (Hv : valid_signal s = true) by (unfold thread_pending_test in Hkp; now destruct (valid_signal s)).
    unfold queue in Hq. rewrite Hv in Hq. apply filter_In in Hq as [_ Hq]. lia.
  - split; [eapply sublist_NoDup; [exact H5|now apply sublist_map]|eauto using sublist_In].
Qed.

Lemma step_ok P P' : signals_ok P -> signal_step P P' -> signals_ok P'.
Proof.
  intros Hok [i c s e o G' Hc H|i c s e queued G' Hc H|i c tgid tid s r o P1 Hc H|i c o c' G' Hc H%takes_deliver|
    i c o c' G' Hc H%takes_sigreturn|i c s act old size r stored c' G' Hc H%takes_sigaction|
    i c how set old size r stored c' Hc H|i c set out timeout size slices r c' G' Hc H%takes_timedwait|
    i c slot count buffer r record c' G' Hc H%takes_read|i c s Hc|i c r m Hc|i c s tag Hc|i c Hc|i c tid sp pc Hc Ht Hn];
    eauto using takes_ok, raise_ok, exit_ok.
  - assert (Hid : set_thread i c P = P) by (destruct P; unfold set_thread; cbn in *; now rewrite insertZ_id).
    rewrite <- Hid. eapply push_ok; [exact Hok|exact H|exact Hc|easy|auto|auto].
  - unfold tgkill in H. destruct (_ || _ || _ || _); [now injection H as _ _ <-|].
    destruct (_ || _); [now injection H as _ _ <-|]. eapply thread_kill_ok; eauto.
  - eapply takes_ok; [exact Hok|exact Hc|]. unfold rt_sigprocmask in H.
    repeat (case_match_in H; [injection H as _ _ <-; apply takes_refl|]).
    destruct set; injection H as _ _ <-; now apply takes_same.
  - eapply takes_ok; [exact Hok|exact Hc|]. apply takes_host.
  - eapply takes_ok; [exact Hok|exact Hc|]. now apply takes_same.
  - assert (Hid : set_thread i c P = P) by (destruct P; unfold set_thread; cbn in *; now rewrite insertZ_id).
    rewrite <- Hid. eapply takes_ok; [exact Hok|exact Hc|]. apply takes_drop_tag.
  - destruct Hok as [H1 H2 H3 H4 [H5 H6]]. split; cbn [p_threads p_signals]; auto.
    + intros s q Hq H0. destruct (H4 s q Hq H0) as (k & Hk & Hkt). exists k. split; [apply in_or_app; now left|exact Hkt].
    + split; [rewrite map_app; now apply NoDup_snoc|]. intros k [Hk|[<-|[]]]%in_app_or; [auto|exact Ht].
Qed.
