(* ===== verification/SignalTheorems.v ===== *)
(** * What the delivery of signals achieves

    The poll answers for every signal, the highest one is delivered with its
    oldest instance, a handler is left alone until it returns, and its return
    restores what it interrupted. *)

From stdpp Require Import relations.
From S2P Require Import Prelude Signals SignalDelivery SignalCalls SignalProofs SignalInvariant.

(** ** A process to try the theorems on *)

Definition demo_regs : regs := mk_regs (seqZ 100 31) (seqZ 500 64) 0 0x8000 0x400000.
Definition demo_levels : levels := mk_levels 0 0 0 (replicate 32 0) (replicate 32 0) (replicate 32 0).
Definition demo_cpu (tid mask : Z) : cpu :=
  mk_cpu tid mask 0 0 demo_levels (mk_sync 0 0 0) (mk_force 0 false) demo_regs (mk_alt 0 0 0) false.

(** SIGUSR1 and the signal 34 have handlers. *)
Definition demo_signals : signals :=
  mk_signals (fun s => if (s =? 10) || (s =? 34) then mk_sigaction (0x5000 + s) 0 0 else mk_sigaction 0 0 0) 0 0
    (fun _ => []) (fun _ => empty_slot) [] (fun _ => 0).

Definition demo_pending : signals :=
  (sigq_push 34 (info 0 (-1) 8 1 0 0) (sigq_push 34 (info 0 (-1) 7 1 0 0) (sigq_push 10 (info 0 0 0 1 0 0) demo_signals).2).2).2.

(** ** The dispatcher's poll *)

(** C25: the poll that walks the set bits of the pending words answers what
    asking [signal_deliverable] of all the 64 signals would. *)
Theorem poll_asks_every_signal c G :
  0 <= g_pending G < 2 ^ 64 -> 0 <= tpending c < 2 ^ 64 ->
  signal_deliverable_for_cpu c G = Some (existsb (signal_deliverable c G) (seqZ 1 64)).
Proof.
  intros Hp Ht. unfold signal_deliverable_for_cpu.
  assert (Hw : 0 <= Z.lor (g_pending G) (tpending c) < 2 ^ Z.of_nat 64).
  { split; [apply Z.lor_nonneg; lia|]. apply lor_below; lia. }
  destruct (pending_scan_exact c G 64 _ Hw) as (b & Hb & Hiff). rewrite Hb. clear Hb.
  assert (Hall : existsb (signal_deliverable c G) (seqZ 1 64) = true <->
                 signal_deliverable c G 64 = true \/ b = true).
  { rewrite existsb_exists, Hiff. split.
    - intros (s & Hs & Hd). destruct (Z.eq_dec s 64) as [->|Hn]; [now left|right].
      exists s. split; [|exact Hd]. rewrite deliverable_split in Hd. apply andb_prop in Hd as [Hd _].
      now apply (pending_low s c G).
    - intros [H|(s & Hs & H)]; [exists 64|exists s]; (split; [|exact H]); apply list_elem_of_In, elem_of_seqZ; [lia|].
      rewrite deliverable_split in H. apply andb_prop in H as [H _].
      destruct (Z.eq_dec s 64) as [->|Hn]; [lia|]. apply pending_low in H; lia. }
  destruct (signal_deliverable c G 64) eqn:H64.
  - assert (Hh : Z.lor (g_pending_hi G) (tpending_hi c) <> 0).
    { rewrite deliverable_split in H64. apply andb_prop in H64 as [H64 _]. now apply pending_high. }
    apply Z.eqb_neq in Hh. rewrite Hh. cbn [negb andb]. f_equal. symmetry. apply Hall. now left.
  - rewrite andb_false_r. f_equal. apply eq_iff_eq_true. rewrite Hall. intuition discriminate.
Qed.

Lemma poll_asks_every_signal_witness :
  0 <= g_pending demo_pending < 2 ^ 64 /\ 0 <= tpending (demo_cpu 1 0) < 2 ^ 64 /\
  signal_deliverable_for_cpu (demo_cpu 1 0) demo_pending =
    Some (existsb (signal_deliverable (demo_cpu 1 0) demo_pending) (seqZ 1 64)).
Proof.
  split; [now vm_compute|]. split; [now vm_compute|]. apply poll_asks_every_signal; now vm_compute.
Defined.

(** ** Order *)

(** C11: of the signals that are pending and open to delivery - neither blocked
    nor held back, or forced - and neither ignored nor, by default, without
    effect, the highest is the one acted on: its handler runs with the context
    of its frame, on the oldest instance the thread may take, and the rest of
    its queue keeps its order; or its default action ends the process.  The
    siginfo on the guest's stack is that instance's, except that a fault the
    thread recorded for this signal gives its code, and its address if the
    instance names no sender, while the thread's own pending bit is still set
    once the instance is taken.  With none to act on, the thread goes on where
    it was. *)
Theorem highest_signal_delivered c G :
  let c1 := unwind (Z.to_nat (sig_depth (c_levels c))) c in
  match List.find (acts c1 G) from_64 with
  | None => exists c' G', maybe_deliver_signal c G = (Ran, c', G') /\ c_regs c' = c_regs c1
  | Some s =>
      let a := g_sigact G s in
      if 1 <? sa_handler a then
        exists c' G', maybe_deliver_signal c G = (Ran, c', G') /\
          c_regs c' = entered_regs s a c1 /\ sigmask c' = entered_mask s a (sigmask c1) /\
          g_sigq G' s = queue_after (c_tid c1) (g_sigq G s) /\
          let i := info_of (fst <$> take_first (c_tid c1) (g_sigq G s)) (g_siginfo G s) in
          let fault := still_pending s c1 (g_sigq G s) && (sync_signal (c_sync c1) =? s) in
          read_words (frame_at a c1) 4 (gmem G') =
            [pair32 s (si_error i); pair32 (if fault then sync_code (c_sync c1) else si_code i) 0;
             if si_pid i =? 0 then (if fault then sync_address (c_sync c1) else si_addr i)
             else pair32 (si_pid i) (si_uid i); si_value i]
      else exists c' G', maybe_deliver_signal c G = (Died s, c', G')
  end.
Proof.
  intros c1. unfold maybe_deliver_signal. fold c1. clearbody c1. clear c.
  pose proof (scan_acts from_64 c1 G from_64_NoDup (fun s => proj1 (from_64_spec s))) as H.
  destruct (List.find (acts c1 G) from_64) as [s|] eqn:Hf; [|destruct H as (c' & G' & H1 & H2 & _); eauto].
  apply find_some in Hf as [Hin Hacts]. apply from_64_spec in Hin. destruct H as (c0 & G0 & Hag & _ & ->).
  unfold act. rewrite (ag_act _ _ _ _ _ Hag). cbn zeta.
  destruct (1 <? sa_handler (g_sigact G s)); [|destruct (discard s c0 G0) as [c' G']; eauto].
  destruct (claim_instance s c0 G0) as [[[[popped had_t] b] c2] G2] eqn:Ec.
  pose proof (claim_had _ _ _ _ _ _ _ _ Hin Ec) as Hhad.
  destruct (claim_facts _ _ _ _ _ _ _ _ Hin Ec) as [-> Hcl].
  destruct (entered s (fst <$> take_first (c_tid c0) (g_sigq G0 s)) had_t c2 G2) as [c' G'] eqn:Ee.
  pose proof (entered_handler_spec _ _ _ _ _ _ _ Ee) as He. unfold entered in Ee. rewrite Ee. clear Ee.
  exists c', G'. split; [reflexivity|]. destruct He as (E1 & E2 & E3 & E4).
  destruct (frame_at_ext (g_sigact G s) c2 c1) as [_ Hfr].
  { now rewrite (cl_regs _ _ _ _ _ Hcl), (ag_regs _ _ _ _ _ Hag). }
  { now rewrite (cl_alt _ _ _ _ _ Hcl), (ag_alt _ _ _ _ _ Hag). }
  unfold still_pending in *. rewrite (ag_thread _ _ _ _ _ Hag) in Hhad.
  rewrite (cl_act _ _ _ _ _ Hcl), (ag_act _ _ _ _ _ Hag), (cl_info _ _ _ _ _ Hcl), (ag_info _ _ _ _ _ Hag),
    (cl_sync _ _ _ _ _ Hcl), (ag_sync _ _ _ _ _ Hag), (ag_tid _ _ _ _ _ Hag), (ag_queue _ _ _ _ _ Hag), Hfr in *.
  rewrite (cl_queue _ _ _ _ _ Hcl), (ag_tid _ _ _ _ _ Hag), (ag_queue _ _ _ _ _ Hag) in E3.
  rewrite (cl_mask _ _ _ _ _ Hcl), (ag_mask _ _ _ _ _ Hag) in E2. subst had_t.
  rewrite E1. repeat split; auto. unfold entered_regs.
  now rewrite Hfr, (cl_regs _ _ _ _ _ Hcl), (ag_regs _ _ _ _ _ Hag).
Qed.

Lemma highest_signal_delivered_witness :
  exists c' G', maybe_deliver_signal (demo_cpu 1 0) demo_pending = (Ran, c', G') /\
    c_regs c' = entered_regs 34 (mk_sigaction 0x5022 0 0) (demo_cpu 1 0) /\
    read_words 0x6db0 4 (gmem G') = [34; 2 ^ 32 - 1; 1; 7].
Proof.
  pose proof (highest_signal_delivered (demo_cpu 1 0) demo_pending) as H.
  replace (List.find (acts (unwind (Z.to_nat (sig_depth (c_levels (demo_cpu 1 0)))) (demo_cpu 1 0)) demo_pending) from_64)
    with (Some 34) in H by (vm_compute; reflexivity).
  destruct H as (c' & G' & H1 & H2 & _ & _ & H3). exists c', G'. split; [exact H1|]. split; [exact H2|].
  etransitivity; [exact H3 | vm_compute; reflexivity].
Defined.

(** ** One handler at a time *)

(** A running handler holds back every signal that was pending when it was
    entered, and itself. *)
Lemma entered_nothing_open s popped had_t c G c' G' t :
  entered s popped had_t c G = (c', G') -> valid_signal s = true -> sig_depth (c_levels c) < SIG_LEVELS ->
  has_flag (sa_flags (g_sigact G s)) SA_NODEFER = false -> (forall t, signal_force_test t c' = false) ->
  signal_deliverable c' G' t = false.
Proof.
  intros He Hs Hd Hn Hf. pose proof (entered_context s popped had_t c G) as (_ & Cm & Ct & Cth & _).
  pose proof (entered_process s popped had_t c G) as (P1 & P2 & _).
  pose proof (entered_levels s popped had_t c G Hd) as (L1 & L2 & _). rewrite He in *. cbn [fst snd] in *.
  rewrite deliverable_split. destruct (pending_test t c' G') eqn:Hp; [|easy]. cbn [andb].
  assert (Hpc : pending_test t c G = true).
  { unfold pending_test in *. rewrite process_pending_word, thread_pending_word in *. now rewrite P1, P2, Ct, Cth in Hp. }
  assert (Ht : valid_signal t = true).
  { unfold pending_test, process_pending_test, thread_pending_test in Hp. now destruct (valid_signal t). }
  unfold open_to. rewrite Hf. cbn [orb]. apply negb_false_iff, orb_true_iff.
  destruct (Z.eq_dec t s) as [->|Hts]; [left|right].
  - rewrite Cm. unfold entered_mask. rewrite Hn, flag_mask_bit, Z.lor_spec by easy. unfold mask_bit.
    apply valid_signal_spec in Hs. rewrite shiftl_bit, Z.eqb_refl by lia. apply orb_true_r.
  - destruct (Z.eqb_spec t 64) as [->|Ht64].
    + rewrite L2, Hpc. destruct (Z.eqb_spec s 64); [lia|]. reflexivity.
    + rewrite L1, flag_pending_bit by easy. destruct (pending_low t c G Hpc Ht64) as [Hr Hb].
      unfold bit_no. destruct (Z.eqb_spec t 64); [lia|].
      rewrite Z.lor_spec, Z.ldiff_spec, Hb, pending_bit_shiftl, shiftl_bit by (now apply bit_no_nonneg).
      unfold bit_no. apply valid_signal_spec in Hs, Ht.
      destruct (Z.eqb_spec s 64); [destruct (Z.eqb_spec 0 t)|destruct (Z.eqb_spec s t)]; try lia; apply orb_true_r.
Qed.

Definition defers (G : signals) : Prop :=
  forall s, valid_signal s = true -> has_flag (sa_flags (g_sigact G s)) SA_NODEFER = false.

Lemma scan_settles l c G c' G' :
  (forall s, In s l -> valid_signal s = true) -> NoDup l -> unforced c ->
  sig_depth (c_levels c) < SIG_LEVELS -> defers G -> deliver_scan l c G = (Ran, c', G') ->
  forall t, In t l \/ signal_deliverable c G t = false -> signal_deliverable c' G' t = false.
Proof.
  revert c G. induction l as [|s l IH]; intros c G Hv Hnd Hu Hd Hdef; [cbn; intros [= <- <-] t [[]|]; auto|].
  rewrite deliver_scan_step.
  assert (Hs : valid_signal s = true) by (apply Hv; now left).
  assert (Hvl : forall t, In t l -> valid_signal t = true) by (intros; apply Hv; now right).
  apply list.NoDup_cons in Hnd as [_ Hnd].
  destruct (pending_test s c G && open_to s c) eqn:Hdel.
  2:{ intros Hsc t Ht. eapply IH; eauto. destruct Ht as [[->|Ht]|Ht]; auto. right. now rewrite deliverable_split. }
  apply andb_prop in Hdel as [Hp _].
  cbn zeta. destruct (sa_handler (g_sigact G s) <=? 1) eqn:Hh.
  - destruct (discard s c G) as [c1 G1] eqn:E.
    destruct ((sa_handler (g_sigact G s) =? 0) && sig_default_terminates s); [intros [=]|]. intros Hsc t Ht.
    assert (Hag : forall u, valid_signal u = true -> u <> s -> agree u c G c1 G1).
    { intros u Hvu Hn. pose proof (discard_agree u s c G Hvu Hs Hn) as H. now rewrite E in H. }
    assert (Hany : exists u, agree u c G c1 G1) by (destruct (Z.eq_dec s 1) as [->|Hn]; [exists 2|exists 1]; apply Hag; (easy || lia)).
    destruct Hany as [u Hu']. eapply IH; [exact Hvl|exact Hnd| | | |exact Hsc|].
    + pose proof (unforced_discard s c G Hu) as H. now rewrite E in H.
    + now rewrite (ag_levels _ _ _ _ _ Hu').
    + unfold defers. now rewrite (ag_act _ _ _ _ _ Hu').
    + destruct (Z.eq_dec t s) as [->|Hn].
      * right. rewrite deliverable_split. pose proof (discard_pending s s c G) as H. rewrite E in H. cbn [fst snd] in H.
        now rewrite H, Z.eqb_refl, Hs, andb_false_r.
      * destruct Ht as [[->|Ht]|Ht]; [easy|now left|]. right. destruct (valid_signal t) eqn:Hvt.
        -- rewrite deliverable_split in *. now rewrite (agree_deliverable _ _ _ _ _ (Hag t Hvt Hn)).
        -- unfold signal_deliverable. now rewrite Hvt.
  - destruct (claim_pending s c G Hs Hp) as (popped & had_t & c1 & G1 & Hc). rewrite Hc.
    destruct (claim_facts _ _ _ _ _ _ _ _ Hs Hc) as [_ Hcl].
    pose proof (unforced_entered s popped had_t c1 G1) as Hue.
    destruct (enter_handler s popped had_t c1 G1) as [c2 G2] eqn:Ee. intros [= <- <-] t _.
    assert (Hue2 : unforced c2).
    { unfold entered in Hue. rewrite Ee in Hue. apply Hue. unfold unforced. now rewrite (cl_force _ _ _ _ _ Hcl). }
    eapply entered_nothing_open; [exact Ee|exact Hs| | |intros; now apply unforced_test].
    + now rewrite (cl_levels _ _ _ _ _ Hcl).
    + rewrite (cl_act _ _ _ _ _ Hcl). now apply Hdef.
Qed.

(** C21: With fewer than 32 handlers running, no handler that asks for nesting
    with SA_NODEFER, and no signal forced through by a wait: after a delivery
    nothing is open to delivery any more - the signals that were pending wait
    for the handler to return, one after the other - and the dispatcher goes
    back to the guest. *)
Theorem handlers_run_serially c G c' G' :
  unforced c -> sig_depth (c_levels c) < SIG_LEVELS -> defers G ->
  maybe_deliver_signal c G = (Ran, c', G') ->
  forall s, signal_deliverable c' G' s = false.
Proof.
  unfold maybe_deliver_signal. intros Hu Hd Hdef Hm s.
  pose proof (unwind_keeps (Z.to_nat (sig_depth (c_levels c))) c) as [Hf Hdu].
  eapply scan_settles; [|exact from_64_NoDup| | |exact Hdef|exact Hm|].
  - intros t. apply from_64_spec.
  - unfold unforced. now rewrite Hf.
  - lia.
  - destruct (valid_signal s) eqn:Hs; [left; now apply from_64_spec|]. right. unfold signal_deliverable. now rewrite Hs.
Qed.

Lemma handlers_run_serially_witness :
  let '(_, c', G') := maybe_deliver_signal (demo_cpu 1 0) demo_pending in
  process_pending_test 10 G' = true /\ signal_deliverable c' G' 10 = false.
Proof.
  destruct (maybe_deliver_signal (demo_cpu 1 0) demo_pending) as [[o c'] G'] eqn:E. split.
  - transitivity (process_pending_test 10 (maybe_deliver_signal (demo_cpu 1 0) demo_pending).2); [now rewrite E|].
    vm_compute. reflexivity.
  - refine (handlers_run_serially (demo_cpu 1 0) demo_pending c' G' eq_refl _ _ _ 10).
    + now vm_compute.
    + intros s _. change (has_flag (sa_flags (g_sigact demo_signals s)) SA_NODEFER = false). unfold demo_signals; cbn.
      now destruct ((s =? 10) || (s =? 34)).
    + rewrite E. f_equal. f_equal.
      transitivity (maybe_deliver_signal (demo_cpu 1 0) demo_pending).1.1; [now rewrite E|]. vm_compute. reflexivity.
Defined.

(** ** The return from a handler *)

(** C14: a handler entered fewer than 32 levels deep which returns at the level
    it was entered, with its frame's saved context unchanged, gives the thread
    back every register, the vector registers, flags, stack pointer and program
    counter it had, with the mask; inside another handler the signals held back
    are those held back before it, outside all handlers none is. (A 33rd
    handler has no level of its own: its return pops the level below it,
    [deep_return_pops].) *)
Theorem handler_returns_to_context s popped had_t c G c1 G1 c2 G2 :
  enter_handler s popped had_t c G = (c1, G1) ->
  length (r_x (c_regs c)) = 31%nat -> length (r_v (c_regs c)) = 64%nat ->
  let l := c_levels c in
  0 <= sig_depth l < SIG_LEVELS -> lengthZ (sig_defer_stack l) = SIG_LEVELS -> lengthZ (sig_defer_hi_stack l) = SIG_LEVELS ->
  r_sp (c_regs c2) = r_sp (c_regs c1) -> c_levels c2 = c_levels c1 ->
  (forall a, r_sp (c_regs c1) + 128 <= a < r_sp (c_regs c1) + 1120 -> gmem G2 a = gmem G1 a) ->
  exists c3, sigreturn c2 G2 = maybe_deliver_signal c3 G2 /\
    c_regs c3 = c_regs c /\ sigmask c3 = sigmask c /\
    sig_depth (c_levels c3) = sig_depth l /\
    sig_defer (c_levels c3) = (if 0 <? sig_depth l then sig_defer l else 0) /\
    sig_defer_hi (c_levels c3) = (if 0 <? sig_depth l then sig_defer_hi l else 0).
Proof.
  cbn zeta. intros He Hx Hv Hd Hls Hlh Hsp Hlv Hm.
  pose proof (entered_context s popped had_t c G) as (C1 & _).
  pose proof (entered_gmem s popped had_t c G) as M.
  pose proof (entered_levels s popped had_t c G (proj2 Hd)) as (_ & _ & L3 & L4 & L5).
  unfold entered in *. rewrite He in *. cbn [fst snd] in *.
  set (frame := frame_at (g_sigact G s) c) in *.
  assert (Hf : r_sp (c_regs c1) = frame) by (rewrite C1; reflexivity). rewrite Hf in *.
  unfold sigreturn, signal_return_complete. cbn [do_sigreturn set_sigmask set_regs c_levels]. rewrite Hlv, L3.
  destruct (Z.ltb_spec 0 (sig_depth (c_levels c) + 1)); [|lia]. eexists. split; [reflexivity|].
  unfold do_sigreturn. cbn [set_levels set_sigmask set_regs c_regs sigmask c_levels pop_level sig_depth sig_defer sig_defer_hi].
  rewrite Hsp, L3, L4, L5.
  replace (sig_depth (c_levels c) + 1 - 1) with (sig_depth (c_levels c)) by lia.
  unfold stack_at. rewrite !lookupZ_insertZ_eq by lia. cbn [default].
  assert (Hk : exists m, forall b, frame + 128 <= b < frame + 1120 ->
      gmem G2 b = write_ucontext (g_sigact G s) c frame m b).
  { eexists. intros b Hb. rewrite Hm, M by exact Hb. unfold entered_memory. fold frame. cbn zeta.
    destruct (s =? 32); [rewrite upd_ne by lia|]; reflexivity. }
  destruct Hk as [m Hk]. destruct (saved_context _ _ _ _ _ Hx Hv Hk) as (-> & -> & -> & -> & -> & ->).
  split; [now destruct (c_regs c)|]. split; [reflexivity|]. split; [reflexivity|].
  destruct (Z.ltb_spec 0 (sig_depth (c_levels c))); auto.
Qed.

Lemma handler_returns_to_context_witness :
  let '(c1, G1) := enter_handler 10 None true (demo_cpu 1 0) demo_signals in
  exists c3, sigreturn c1 G1 = maybe_deliver_signal c3 G1 /\ c_regs c3 = demo_regs /\ sigmask c3 = 0.
Proof.
  destruct (enter_handler 10 None true (demo_cpu 1 0) demo_signals) as [c1 G1] eqn:E.
  destruct (handler_returns_to_context 10 None true (demo_cpu 1 0) demo_signals c1 G1 c1 G1 E eq_refl eq_refl
              (conj (Z.le_refl 0) (eq_refl Lt)) eq_refl eq_refl eq_refl eq_refl
              (fun _ _ => eq_refl)) as (c3 & H1 & H2 & H3 & _).
  exists c3. auto.
Defined.

(** ** Queues *)

(** An entry without the signalfds it woke. *)
Definition unslotted (q : sigq_ent) : sigq_ent :=
  mk_sigq_ent (qe_error q) (qe_code q) (qe_value q) (qe_pid q) (qe_uid q) (qe_addr q) (qe_tag q) (qe_target_tid q) 0.
Definition addressed (target : Z) (e : sigq_ent) : sigq_ent :=
  mk_sigq_ent (qe_error e) (qe_code e) (qe_value e) (qe_pid e) (qe_uid e) (qe_addr e) (qe_tag e) target 0.
Definition for_target (t : Z) (l : list sigq_ent) : list sigq_ent := List.filter (fun q => qe_target_tid q =? t) (map unslotted l).

Inductive queue_op :=
| Push (s target : Z) (wake : bool) (e : sigq_ent)
| Pop (s : Z) (c : cpu).

(** The entries of [s] that were accepted, those that were taken, and the end. *)
Fixpoint queue_run (s : Z) (ops : list queue_op) (G : signals) : list sigq_ent * list sigq_ent * signals :=
  match ops with
  | [] => ([], [], G)
  | Push t target wake e :: ops =>
      let '(queued, G) := sigq_push_target_locked t target wake e G in
      let '(accepted, taken, G) := queue_run s ops G in
      (if (t =? s) && (queued =? 1) then addressed target e :: accepted else accepted, taken, G)
  | Pop t c :: ops =>
      let '(popped, _, G) := sigq_pop_for t c G in
      let '(accepted, taken, G) := queue_run s ops G in
      (accepted, match popped with Some e => if t =? s then e :: taken else taken | None => taken end, G)
  end.

Lemma for_target_app t l k : for_target t (l ++ k) = for_target t l ++ for_target t k.
Proof. unfold for_target. now rewrite map_app, filter_app. Qed.

Lemma take_first_target tid l e kept t :
  take_first tid l = Some (e, kept) -> for_target t l = for_target t [e] ++ for_target t kept.
Proof.
  revert kept. induction l as [|q l IH]; intros kept; cbn [take_first]; [easy|].
  destruct (eligible tid q) eqn:Hq; [intros [= <- <-]; exact (for_target_app t [q] l)|].
  destruct (take_first tid l) as [[e' kept']|] eqn:E; cbn [mbind option_bind]; [|easy]. intros [= <- <-].
  assert (He : eligible tid e' = true).
  { clear IH Hq. revert kept' E. induction l as [|x l IH]; intros kept'; cbn [take_first]; [easy|].
    destruct (eligible tid x) eqn:Hx; [now intros [= <- _]|].
    destruct (take_first tid l) as [[]|]; cbn [mbind option_bind]; [|easy]. intros [= <- _]. eauto. }
  specialize (IH kept' eq_refl). change (q :: l) with ([q] ++ l). change (q :: kept') with ([q] ++ kept').
  rewrite !for_target_app, IH. unfold for_target. cbn.
  destruct (Z.eqb_spec (qe_target_tid q) t) as [Hqt|], (Z.eqb_spec (qe_target_tid e') t) as [Het|]; try easy.
  unfold eligible in *. rewrite Hqt in Hq. rewrite Het in He. congruence.
Qed.

Lemma process_set_queue s G : g_sigq (process_pending_set s G) = g_sigq G.
Proof. unfold process_pending_set. destruct (valid_signal s), (s =? 64); reflexivity. Qed.

(** A push adds the entry at the end of its signal's queue, or nothing. *)
Lemma push_queue s target wake e G :
  let '(queued, G') := sigq_push_target_locked s target wake e G in
  g_sigq G' = g_sigq G /\ queued <> 1 \/
  exists q, g_sigq G' = upd s (g_sigq G s ++ [q]) (g_sigq G) /\ queued = 1 /\ unslotted q = addressed target e.
Proof.
  unfold sigq_push_target_locked. destruct (valid_signal s); cbn [negb]; [|left; split; [easy|lia]].
  cbn zeta. set (duplicate := negb (sig_is_rt s) && _).
  destruct (negb duplicate && (lengthZ (g_sigq G s) <? SIGQ_DEPTH)); cbn beta iota.
  - right. set (slots := if wake then _ else 0).
    destruct (target =? 0), (negb (slots =? 0)); rewrite ?process_set_queue; eexists; repeat split.
  - destruct (negb duplicate), (target =? 0); cbn beta iota; left; rewrite ?process_set_queue; (split; [easy|lia]).
Qed.

Lemma pop_queue s c G t :
  let '(popped, _, G') := sigq_pop_for s c G in
  for_target t (g_sigq G s) = (match popped with Some e => for_target t [e] | None => [] end) ++ for_target t (g_sigq G' s) /\
  forall u, u <> s -> g_sigq G' u = g_sigq G u.
Proof.
  destruct (valid_signal s) eqn:Hs; [|unfold sigq_pop_for; rewrite Hs; now split].
  destruct (sigq_pop_for s c G) as [[p c'] G'] eqn:E. destruct (popped_from _ _ _ _ _ _ Hs E) as [-> Hcl].
  rewrite (cl_queue _ _ _ _ _ Hcl). split; [|apply (cl_queues _ _ _ _ _ Hcl)]. unfold queue_after.
  destruct (take_first (c_tid c) (g_sigq G s)) as [[e kept]|] eqn:Et; [|easy]. now apply take_first_target with (c_tid c).
Qed.

(** C19: every signal keeps a first-in first-out queue for each thread and one for
    the process: what was queued for a target and accepted since is, in order,
    what was taken of it and what is queued still; nothing is lost, repeated or
    overtaken. *)
Theorem queues_are_fifo s ops G t :
  let '(accepted, taken, G') := queue_run s ops G in
  for_target t (g_sigq G s) ++ for_target t accepted = for_target t taken ++ for_target t (g_sigq G' s).
Proof.
  revert G. induction ops as [|[u target wake e|u c] ops IH]; intros G; cbn [queue_run]; [apply app_nil_r| |].
  - pose proof (push_queue u target wake e G) as H.
    destruct (sigq_push_target_locked u target wake e G) as [queued G1]. specialize (IH G1).
    destruct (queue_run s ops G1) as [[acc taken] G']. rewrite <- IH. clear IH.
    destruct H as [[-> Hq]|(q & -> & -> & Hq)].
    + destruct (Z.eqb_spec queued 1); [lia|]. now rewrite andb_false_r.
    + rewrite andb_true_r. destruct (Z.eqb_spec u s) as [->|Hn]; [|now rewrite upd_ne by lia].
      rewrite upd_eq. change (addressed target e :: acc) with ([addressed target e] ++ acc).
      assert (Hf : for_target t [q] = for_target t [addressed target e]).
      { unfold for_target. cbn [map]. now rewrite Hq. }
      now rewrite !for_target_app, <- app_assoc, Hf.
  - pose proof (pop_queue u c G t) as H. destruct (sigq_pop_for u c G) as [[p c'] G1]. specialize (IH G1).
    destruct (queue_run s ops G1) as [[acc taken] G']. destruct H as [H1 H2].
    destruct (Z.eqb_spec u s) as [->|Hn].
    + rewrite H1, <- app_assoc, IH. destruct p as [e|]; [|easy].
      change (e :: taken) with ([e] ++ taken). now rewrite for_target_app, app_assoc.
    + rewrite <- (H2 s) by lia. rewrite IH. now destruct p.
Qed.

(** ** The invariant of a process *)

(** C6: from a well-formed process, as a new one is, through any sequence of
    raises, timers, [tgkill], deliveries, returns from handlers, changes of
    actions and masks, timed waits, signalfd reads, host signals, guest writes
    and threads that come and go - every call of [signal_step], which has no
    [rt_sigsuspend] and no [pause] ([suspend_strands_an_entry] is what those two
    do) - every queue holds 128 entries at most, a standard signal at most one
    for each target, every entry of the process has its pending bit, and every
    entry of a thread belongs to a thread that lives and has the bit set in its
    own word. *)
Theorem signal_state_invariant P P' : signals_ok P -> rtc signal_step P P' -> signals_ok P'.
Proof. intros Hok Hsteps. induction Hsteps as [|P P1 P2 Hstep _ IH]; [exact Hok|]. apply IH. now apply step_ok with P. Qed.

Definition demo_process : process := mk_process [demo_cpu 1 0; demo_cpu 2 0] demo_signals 1 0.

Lemma demo_signals_ok : signals_ok demo_process.
Proof.
  split; try easy.
  - intros s _. constructor.
  - split; [|intros c [<-|[<-|[]]]; easy]. cbn. apply list.NoDup_cons. split; [|apply NoDup_singleton].
    now intros ?%list_elem_of_singleton.
Qed.

(** Thread 1 signals thread 2, which delivers. *)
Definition demo_after_kill : process := (tgkill 0 (demo_cpu 1 0) 1 2 10 demo_process).2.
Definition demo_target : cpu := set_irq (thread_pending_set 10 (demo_cpu 2 0)).

Lemma signal_state_invariant_witness :
  signals_ok demo_process /\ exists P', rtc signal_step demo_process P' /\ signals_ok P' /\
    g_sigq (p_signals P') 10 = [] /\ match p_threads P' with [_; c] => r_pc (c_regs c) = 0x500a | _ => False end.
Proof.
  split; [exact demo_signals_ok|].
  destruct (maybe_deliver_signal demo_target (p_signals demo_after_kill)) as [[o c'] G'] eqn:E.
  assert (Hr : rtc signal_step demo_process (set_signals G' (set_thread 1 c' demo_after_kill))).
  { eapply rtc_l; [eapply (step_tgkill demo_process 0 (demo_cpu 1 0) 1 2 10 0 Ran demo_after_kill); reflexivity|].
    eapply rtc_l; [|apply rtc_refl]. eapply (step_deliver demo_after_kill 1 demo_target); [reflexivity|exact E]. }
  exists (set_signals G' (set_thread 1 c' demo_after_kill)). split; [exact Hr|].
  split; [exact (signal_state_invariant _ _ demo_signals_ok Hr)|].
  assert (Hc : c' = (maybe_deliver_signal demo_target (p_signals demo_after_kill)).1.2) by (now rewrite E).
  assert (HG : G' = (maybe_deliver_signal demo_target (p_signals demo_after_kill)).2) by (now rewrite E).
  rewrite Hc, HG. split; vm_compute; reflexivity.
Defined.

(** ** Signals to one thread *)

Lemma take_first_other tid l q :
  eligible tid q = false -> fst <$> take_first tid (l ++ [q]) = fst <$> take_first tid l.
Proof.
  intros Hq. induction l as [|x l IH]; cbn [app take_first]; [now rewrite Hq|].
  destruct (eligible tid x); [easy|].
  destruct (take_first tid (l ++ [q])) as [[]|], (take_first tid l) as [[]|]; cbn in *; congruence.
Qed.

(** [tgkill] of a handled signal at another thread that lives is that
    thread's alone: it has the bit, no other thread and no pending word of the
    process changes, and what any other thread would take next is what it would
    have taken before. *)
Theorem tgkill_is_private i c tid s P P' j k :
  0 < tid -> tid <> c_tid c -> valid_signal s = true -> 1 < sa_handler (g_sigact (p_signals P) s) -> 0 < p_pid P ->
  find_tid tid (p_threads P) = Some j -> lookupZ (p_threads P) j = Some k ->
  tgkill i c (p_pid P) tid s P = (0, Ran, P') ->
  (exists k', lookupZ (p_threads P') j = Some k' /\ thread_pending_test s k' = true) /\
  (forall j', j' <> j -> lookupZ (p_threads P') j' = lookupZ (p_threads P) j') /\
  (forall t, process_pending_test t (p_signals P') = process_pending_test t (p_signals P)) /\
  (forall tid' t, tid' <> tid -> tid' <> 0 ->
     fst <$> take_first tid' (g_sigq (p_signals P') t) = fst <$> take_first tid' (g_sigq (p_signals P) t)).
Proof.
  intros Htid Hne Hs Hh Hpid Hj Hk. pose proof (find_tid_Some _ _ _ Hj) as (k0 & Hk0 & Hkt).
  rewrite Hk in Hk0. injection Hk0 as <-.
  unfold tgkill. apply valid_signal_spec in Hs as Hs'.
  destruct ((p_pid P <=? 0) || (tid <=? 0) || (s <? 0) || (64 <? s)) eqn:E; [lia|]. clear E.
  unfold thread_tid_alive. rewrite Hj, Z.eqb_refl, andb_false_r. cbn [negb orb].
  unfold thread_kill. rewrite Hs. apply Z.ltb_lt in Hh. rewrite Hh. cbn zeta. cbn [andb orb].
  apply Z.eqb_neq in Hne. rewrite Hne. unfold thread_target_signal_info. cbn [set_signals p_threads p_signals p_pid p_ruid].
  rewrite Hj, Hk. unfold thread_directed_signal_publish.
  match goal with |- context [sigq_push_target_locked s (c_tid k) false ?e ?G] =>
    pose proof (push_queue s (c_tid k) false e G) as Hq; pose proof (push_private s (c_tid k) e G ltac:(lia)) as Hp;
    destruct (sigq_push_target_locked s (c_tid k) false e G) as [queued G1] end.
  cbn [fst snd] in Hp. destruct (Z.ltb_spec queued 0); [intros [=]|]. destruct (Z.leb_spec 0 queued); [|lia].
  cbn [Z.ltb Z.compare]. intros [= <-]. cbn [set_signals set_thread p_threads p_signals].
  repeat apply conj.
  - eexists. split; [apply lookupZ_insertZ_eq; now apply lookupZ_Some_range with k|].
    change (thread_pending_test s (thread_pending_set s k) = true). now rewrite thread_pending_set_test, Z.eqb_refl, Hs.
  - intros j' Hj'. now rewrite lookupZ_insertZ_ne by lia.
  - exact Hp.
  - intros tid' t Ht Hz. cbn [set_siginfo g_sigq] in Hq. destruct Hq as [[-> _]|(q & -> & _ & Hu)]; [easy|].
    destruct (Z.eq_dec t s) as [->|Hn]; [rewrite upd_eq|now rewrite upd_ne by exact Hn].
    apply take_first_other. apply (f_equal qe_target_tid) in Hu. cbn in Hu. unfold eligible. lia.
Qed.

Lemma tgkill_is_private_witness :
  exists k', lookupZ (p_threads demo_after_kill) 1 = Some k' /\ thread_pending_test 10 k' = true.
Proof.
  refine (proj1 (tgkill_is_private 0 (demo_cpu 1 0) 2 10 demo_process demo_after_kill 1 (demo_cpu 2 0) _ _ _ _ _ _ _ _));
    try reflexivity; easy.
Defined.

(** ** What the code does not do *)

(** [rt_sigsuspend] drops the process bit of a blocked SIGUSR2 without a handler
    and leaves its entry: the default action, that ends the process, never comes. *)
Example suspend_strands_an_entry :
  let c := demo_cpu 1 (mask_bit 12) in
  let '(o, G) := raise_guest_signal 1 0 12 c demo_signals in
  o = Ran /\ process_pending_test 12 G = true /\
  let '(found, G') := suspend_scan (seqZ 1 64) 0 G in
  found = None /\ process_pending_test 12 G' = false /\ lengthZ (g_sigq G' 12) = 1.
Proof. vm_compute. auto. Qed.

(** A signal for one thread does not end its [rt_sigsuspend], though the poll
    finds it. *)
Example suspend_sleeps_on_tgkill :
  let c := thread_pending_set 10 (demo_cpu 1 (mask_bit 10)) in
  rt_sigsuspend (UAt 0) 8 [[]; []; []] c demo_signals = None /\
  signal_deliverable (set_sigmask 0 c) demo_signals 10 = true.
Proof. vm_compute. auto. Qed.

(** A handler whose [sa_mask] names SIGKILL runs with it blocked, and a SIGKILL
    the process then sends itself is queued. *)
Example sa_mask_blocks_sigkill :
  let '(_, _, c, G) := rt_sigaction 10 (UAt (mk_sigaction 0x5000 0 (mask_bit 9))) UNull 8 (demo_cpu 1 0) demo_signals in
  let '(_, c', G') := maybe_deliver_signal c (sigq_push 10 (info 0 0 0 1 0 0) G).2 in
  has_flag (sigmask c') (mask_bit 9) = true /\ (raise_guest_signal 1 0 9 c' G').1 = Ran.
Proof. vm_compute. auto. Qed.

(** A thread a handler creates on a stack below keeps the deferred set, with no frame
    to return from: the signal waits for ever. *)
Example spawn_keeps_deferred :
  let '(_, c, G) := maybe_deliver_signal (demo_cpu 1 0) demo_pending in
  let child := spawn_signal_state 2 0x6000 0x400100 c in
  process_pending_test 10 G = true /\ has_flag (sigmask child) (mask_bit 10) = false /\
  signal_deliverable child G 10 = false /\
  signal_deliverable (unwind (Z.to_nat (sig_depth (c_levels child))) child) G 10 = false.
Proof. vm_compute. auto. Qed.

(** A blocked signal is deferred with the others, so a handler that unblocks it
    does not get it. *)
Example unblocked_in_a_handler :
  let '(_, c, G) := maybe_deliver_signal (demo_cpu 1 (mask_bit 10)) demo_pending in
  let '(r, _, c') := rt_sigprocmask 1 (UAt (mask_bit 10)) UNull 8 c in
  r = 0 /\ process_pending_test 10 G = true /\ has_flag (sigmask c') (mask_bit 10) = false /\
  signal_deliverable c' G 10 = false.
Proof. vm_compute. auto. Qed.

(** SIG_IGN discards an entry for another thread, and leaves the thread its bit:
    a handler installed later runs for it. *)
Example ignored_signal_comes_back :
  let P := demo_after_kill in
  let '(_, _, _, G) := rt_sigaction 10 (UAt (mk_sigaction 1 0 0)) UNull 8 (demo_cpu 1 0) (p_signals P) in
  g_sigq G 10 = [] /\
  let '(_, _, _, G) := rt_sigaction 10 (UAt (mk_sigaction 0x5000 0 0)) UNull 8 (demo_cpu 1 0) G in
  let '(_, c, _) := maybe_deliver_signal demo_target G in r_pc (c_regs c) = 0x5000.
Proof. vm_compute. auto. Qed.

Definition demo_full : signals := Nat.iter 128 (fun G => (sigq_push 34 (info 0 (-1) 0 1 0 0) G).2) demo_signals.

(** [rt_sigqueueinfo] answers success for an instance the full queue refused. *)
Example full_queue_is_success :
  (sigq_push 34 (info 0 (-1) 9 1 0 0) demo_full).1 = -1 /\
  let '(r, o, G) := rt_sigqueueinfo 1 0 34 (UAt (-1, 9, 1, 0)) (demo_cpu 1 0) demo_full in
  r = 0 /\ o = Ran /\ lengthZ (g_sigq G 34) = 128.
Proof. vm_compute. auto. Qed.

(** Past 32 levels an entry pushes nothing and its return still pops. *)
Example deep_return_pops :
  let l := mk_levels 0 0 32 (replicate 32 0) (replicate 32 0) (replicate 32 0x8000) in
  let '(c, G) := enter_handler 10 None true (set_levels l (demo_cpu 1 0)) demo_signals in
  sig_depth (c_levels c) = 32 /\ sig_depth (c_levels (sigreturn c G).1.2) = 31.
Proof. vm_compute. auto. Qed.
