(* ===== verification/Inotify.v ===== *)
(** * The inotify object

    [linux_abi/inotify.c]: a typed object behind a guest descriptor which turns
    the changes a host provider reports into Linux's inotify records.  The
    provider is the table [hl_linux_inotify_provider_ops] of [inotify.h]; what
    it does is a function of the world [W].  The object's own state - its
    watches and the bytes of its queue - is explicit. *)

From S2P Require Import Prelude Status Host.

Definition HL_LINUX_IN_MODIFY : Z := 0x2.
Definition HL_LINUX_IN_CREATE : Z := 0x100.
Definition HL_LINUX_IN_Q_OVERFLOW : Z := 0x4000.
Definition HL_LINUX_IN_IGNORED : Z := 0x8000.
Definition HL_LINUX_IN_ONLYDIR : Z := 0x01000000.
Definition HL_LINUX_IN_DONT_FOLLOW : Z := 0x02000000.
Definition HL_LINUX_IN_EXCL_UNLINK : Z := 0x04000000.
Definition HL_LINUX_IN_MASK_CREATE : Z := 0x10000000.
Definition HL_LINUX_IN_MASK_ADD : Z := 0x20000000.
Definition HL_LINUX_IN_ISDIR : Z := 0x40000000.
Definition HL_LINUX_IN_ONESHOT : Z := 0x80000000.
Definition HL_LINUX_READY_READ : Z := 1.
Definition INT32_MAX : Z := 2147483647.

Definition INOTIFY_EVENT_MASK : Z := 0xfff.
Definition INOTIFY_OPTION_MASK : Z :=
  Z.lor (Z.lor (Z.lor (Z.lor (Z.lor HL_LINUX_IN_ONLYDIR HL_LINUX_IN_DONT_FOLLOW) HL_LINUX_IN_EXCL_UNLINK)
    HL_LINUX_IN_MASK_CREATE) HL_LINUX_IN_MASK_ADD) HL_LINUX_IN_ONESHOT.

(** ** Data *)

(** [path_size] is the length of [path]. *)
Record inotify_watch := mk_inotify_watch { wd : Z; mask : Z; token : Z; path : list Z }.

Definition with_mask (m : Z) (x : inotify_watch) : inotify_watch :=
  mk_inotify_watch (wd x) m (token x) (path x).

(** The live entries of the watch array and the bytes of the queue are lists;
    their capacities are what the host allocated for them. *)
Record inotify_object := mk_inotify {
  mutation_epoch : Z;
  provider_context : Z;
  watches : list inotify_watch;
  watch_capacity : Z;
  queue : list Z;
  queue_capacity : Z;
  next_wd : Z;
  nonblocking : bool
}.

Definition watch_count (o : inotify_object) : Z := lengthZ (watches o).
Definition queue_size (o : inotify_object) : Z := lengthZ (queue o).

Definition set_epoch (e : Z) (o : inotify_object) : inotify_object :=
  mk_inotify e (provider_context o) (watches o) (watch_capacity o) (queue o) (queue_capacity o)
    (next_wd o) (nonblocking o).
Definition set_watches (l : list inotify_watch) (capacity : Z) (o : inotify_object) : inotify_object :=
  mk_inotify (mutation_epoch o) (provider_context o) l capacity (queue o) (queue_capacity o)
    (next_wd o) (nonblocking o).
Definition set_queue (q : list Z) (capacity : Z) (o : inotify_object) : inotify_object :=
  mk_inotify (mutation_epoch o) (provider_context o) (watches o) (watch_capacity o) q capacity
    (next_wd o) (nonblocking o).
Definition set_next_wd (n : Z) (o : inotify_object) : inotify_object :=
  mk_inotify (mutation_epoch o) (provider_context o) (watches o) (watch_capacity o) (queue o)
    (queue_capacity o) n (nonblocking o).

Record hl_linux_inotify_provider_event := mk_provider_event {
  ev_token : Z; ev_mask : Z; ev_cookie : Z; ev_name : list Z
}.

(** [mutation_begin] and [mutation_end] both advance the epoch. *)
Definition mutation_begin (o : inotify_object) : inotify_object := set_epoch (u64 (mutation_epoch o + 1)) o.
Definition mutation_end (o : inotify_object) : inotify_object := set_epoch (u64 (mutation_epoch o + 1)) o.

Definition inotify_error (status : hl_status) : Z :=
  match status with
  | HL_STATUS_OK => 0
  | HL_STATUS_NOT_FOUND => - HL_LINUX_ENOENT
  | HL_STATUS_NOT_DIRECTORY => - HL_LINUX_ENOTDIR
  | HL_STATUS_NAME_TOO_LONG => - HL_LINUX_ENAMETOOLONG
  | HL_STATUS_PERMISSION_DENIED => - HL_LINUX_EACCES
  | HL_STATUS_IO => - HL_LINUX_EIO
  | HL_STATUS_ALREADY_EXISTS => - HL_LINUX_EEXIST
  | HL_STATUS_OUT_OF_MEMORY => - HL_LINUX_ENOMEM
  | HL_STATUS_INTERRUPTED => - HL_LINUX_EINTR
  | HL_STATUS_WOULD_BLOCK => - HL_LINUX_EAGAIN
  | HL_STATUS_NOT_SUPPORTED => - HL_LINUX_ENOSYS
  | _ => - HL_LINUX_EINVAL
  end.

(** The entry and its index. *)
Definition find_watch (p : inotify_watch -> bool) (o : inotify_object) : option (Z * inotify_watch) :=
  match scan_from p (watches o) 0 with
  | Some i => match lookupZ (watches o) i with Some x => Some (i, x) | None => None end
  | None => None
  end.
Definition watch_token (o : inotify_object) (t : Z) : option (Z * inotify_watch) :=
  find_watch (fun x => token x =? t) o.
Definition watch_id (o : inotify_object) (d : Z) : option (Z * inotify_watch) :=
  find_watch (fun x => wd x =? d) o.

(** [object->watches[i] = object->watches[--object->watch_count]] *)
Definition drop_watch (i : Z) (o : inotify_object) : inotify_object :=
  match lookupZ (watches o) (watch_count o - 1) with
  | Some x => set_watches (take (Z.to_nat (watch_count o - 1)) (insertZ (watches o) i x)) (watch_capacity o) o
  | None => o
  end.

Section Object.
Context {W : Type}.

Record hl_linux_inotify_provider_ops := mk_provider {
  p_add : Z -> list Z -> Z -> Z -> W -> hl_status * W;
  p_modify : Z -> Z -> Z -> W -> hl_status * W;
  p_remove : Z -> Z -> W -> hl_status * W;
  p_drain : Z -> Z -> W -> hl_status * list hl_linux_inotify_provider_event * W;
  p_wait : Z -> W -> hl_status * W;
  p_wait_handle : Z -> W -> hl_host_result * W;
  p_readiness : Z -> W -> Z * W;
  p_subscribe : option (Z -> Z -> Z -> W -> hl_status * W);
  p_unsubscribe : option (Z -> Z -> Z -> W -> W);
  p_clone : Z -> W -> hl_status * Z * W;
  p_close : Z -> W -> hl_status * W
}.

(** Whether the next allocation of the C library succeeds. *)
Context (provider : hl_linux_inotify_provider_ops) (alloc : W -> bool * W).

(** ** The queue *)

Definition padded_size (name_size : Z) : Z :=
  if name_size =? 0 then 0 else Z.land (u64 (name_size + 1 + 3)) (Z.lnot 3).

(** The doubling loop; [None] is its overflow answer.  A non-zero capacity
    passes [SIZE_MAX / 2] within 64 doublings. *)
Fixpoint grow_queue (fuel : nat) (capacity needed : Z) : option Z :=
  match fuel with
  | O => None
  | S fuel =>
      if capacity <? needed then
        if UINT64_MAX / 2 <? capacity then None else grow_queue fuel (capacity * 2) needed
      else Some capacity
  end.

(** The bytes [queue_event] stores. *)
Definition record_bytes (d m cookie : Z) (name : list Z) : list Z :=
  let padded := padded_size (lengthZ name) in
  le_bytes 4 d ++ le_bytes 4 m ++ le_bytes 4 cookie ++ le_bytes 4 padded ++
  (if padded =? 0 then [] else name ++ replicate (Z.to_nat (padded - lengthZ name)) 0).

Definition queue_event (d m cookie : Z) (name : list Z) (o : inotify_object) (w : W)
  : hl_status * inotify_object * W :=
  let needed := u64 (16 + padded_size (lengthZ name)) in
  if UINT64_MAX - queue_size o <? needed then (HL_STATUS_OUT_OF_MEMORY, o, w)
  else if queue_capacity o <? queue_size o + needed then
    match grow_queue 65 (if queue_capacity o =? 0 then 256 else queue_capacity o) (queue_size o + needed) with
    | None => (HL_STATUS_OUT_OF_MEMORY, o, w)
    | Some capacity =>
        let '(grown, w) := alloc w in
        if grown
        then (HL_STATUS_OK, set_queue (queue o ++ record_bytes d m cookie name) capacity o, w)
        else (HL_STATUS_OUT_OF_MEMORY, o, w)
    end
  else (HL_STATUS_OK, set_queue (queue o ++ record_bytes d m cookie name) (queue_capacity o) o, w).

(** ** Draining the provider *)

(** The mask test of the loop: an event the watch did not ask for. *)
Definition unwanted (x : inotify_watch) (m : Z) : bool :=
  has_flag m (Z.lor INOTIFY_EVENT_MASK HL_LINUX_IN_ISDIR) &&
  negb (has_flag m (Z.land (mask x) INOTIFY_EVENT_MASK)).

(** The loop of [inotify_pump] over the drained events. *)
Fixpoint deliver (events : list hl_linux_inotify_provider_event) (o : inotify_object) (w : W)
  : hl_status * inotify_object * W :=
  match events with
  | [] => (HL_STATUS_OK, o, w)
  | e :: events =>
      let m := ev_mask e in
      match watch_token o (ev_token e) with
      | None =>
          if has_flag m HL_LINUX_IN_Q_OVERFLOW then
            let '(status, o, w) := queue_event (-1) m (ev_cookie e) (ev_name e) o w in
            if is_ok status then deliver events o w else (status, o, w)
          else deliver events o w
      | Some (position, x) =>
          if unwanted x m then deliver events o w
          else
            let '(status, o, w) := queue_event (wd x) m (ev_cookie e) (ev_name e) o w in
            if negb (is_ok status) then (status, o, w)
            else if has_flag m HL_LINUX_IN_IGNORED then deliver events (drop_watch position o) w
            else if has_flag (mask x) HL_LINUX_IN_ONESHOT then
              let '(_, w) := p_remove provider (provider_context o) (token x) w in
              let '(status, o, w) := queue_event (wd x) HL_LINUX_IN_IGNORED 0 [] o w in
              if is_ok status then deliver events (drop_watch position o) w else (status, o, w)
            else deliver events o w
      end
  end.

Definition inotify_pump (o : inotify_object) (w : W) : hl_status * inotify_object * W :=
  let o := mutation_begin o in
  let '(status, events, w) := p_drain provider (provider_context o) 32 w in
  match status with
  | HL_STATUS_WOULD_BLOCK => (HL_STATUS_OK, mutation_end o, w)
  | HL_STATUS_OK => let '(status, o, w) := deliver events o w in (status, mutation_end o, w)
  | _ => (status, mutation_end o, w)
  end.

(** ** Reading *)

(** The walk over whole records; [fuel] bounds its rounds.  The size of a
    record is a sum of 32 bits; [None] is a walk which is not over after
    [fuel] rounds. *)
Fixpoint read_walk (fuel : nat) (q : list Z) (size offset : Z) : option Z :=
  match fuel with
  | O => None
  | S fuel =>
      if offset + 16 <=? lengthZ q then
        let length := le_val (take 4 (drop (Z.to_nat (offset + 12)) q)) in
        let record := u32 (16 + length) in
        if lengthZ q - offset <? record then Some offset
        else if size - offset <? record then Some offset
        else read_walk fuel q size (offset + record)
      else Some offset
  end.

(** The rounds of [while (queue_size == 0 && nonblocking == 0)]; [inl] is an
    error return, and [None] a reader still asleep after [fuel] rounds. *)
Fixpoint read_wait (fuel : nat) (o : inotify_object) (w : W) : option ((Z + unit) * inotify_object * W) :=
  if (queue_size o =? 0) && negb (nonblocking o) then
    match fuel with
    | O => None
    | S fuel =>
        let '(status, w) := p_wait provider (provider_context o) w in
        if negb (is_ok status) then Some (inl (inotify_error status), o, w)
        else
          let '(status, o, w) := inotify_pump o w in
          if negb (is_ok status) then Some (inl (inotify_error status), o, w)
          else read_wait fuel o w
    end
  else Some (inr tt, o, w).

(** What [inotify_read] does once the queue may be read: the result and the
    bytes copied to the guest.  A walk that ends takes at most one round for
    every queued byte; [None] is one that never ends ([read_walk_enough]). *)
Definition take_records (size : Z) (o : inotify_object) : option (Z * list Z * inotify_object) :=
  if queue_size o =? 0 then Some (- HL_LINUX_EAGAIN, [], o)
  else if size <? 16 then Some (- HL_LINUX_EINVAL, [], o)
  else
    let o := mutation_begin o in
    match read_walk (S (length (queue o))) (queue o) size 0 with
    | None => None
    | Some offset =>
        if offset =? 0 then Some (- HL_LINUX_EINVAL, [], mutation_end o)
        else Some (offset, take (Z.to_nat offset) (queue o),
                   mutation_end (set_queue (drop (Z.to_nat offset) (queue o)) (queue_capacity o) o))
    end.

(** [None] is a reader still asleep after [fuel] rounds, or one whose walk
    never ends. *)
Definition inotify_read (fuel : nat) (size : Z) (o : inotify_object) (w : W)
  : option (Z * list Z * inotify_object * W) :=
  let '(status, o, w) := inotify_pump o w in
  if negb (is_ok status) then Some (inotify_error status, [], o, w)
  else
    match read_wait fuel o w with
    | None => None
    | Some (inl e, o, w) => Some (e, [], o, w)
    | Some (inr _, o, w) =>
        match take_records size o with
        | Some (r, bytes, o) => Some (r, bytes, o, w)
        | None => None
        end
    end.

(** ** Readiness, clone and close *)

Definition inotify_ready (interests : Z) (o : inotify_object) (w : W) : Z * inotify_object * W :=
  if Z.land interests HL_LINUX_READY_READ =? 0 then (0, o, w)
  else
    let '(o, w) :=
      if queue_size o =? 0 then let '(_, o, w) := inotify_pump o w in (o, w) else (o, w) in
    if negb (queue_size o =? 0) then (HL_LINUX_READY_READ, o, w)
    else
      let '(ready, w) := p_readiness provider (provider_context o) w in
      (if negb (ready =? 0) then HL_LINUX_READY_READ else 0, o, w).

Definition inotify_wait_handle (o : inotify_object) (w : W) : hl_host_result * W :=
  p_wait_handle provider (provider_context o) w.

Definition inotify_subscribe (notify observer t : Z) (o : inotify_object) (w : W) : hl_status * W :=
  match p_subscribe provider with
  | None => (HL_STATUS_NOT_SUPPORTED, w)
  | Some subscribe => subscribe (provider_context o) observer t w
  end.

Definition inotify_unsubscribe (observer t : Z) (o : inotify_object) (w : W) : W :=
  match p_unsubscribe provider with
  | None => w
  | Some unsubscribe => unsubscribe (provider_context o) observer t w
  end.

(** One allocation for each watch's path. *)
Fixpoint alloc_each {A} (l : list A) (w : W) : bool * W :=
  match l with
  | [] => (true, w)
  | _ :: l => let '(ok, w) := alloc w in if ok then alloc_each l w else (false, w)
  end.

(** [mutex_ok] is whether [pthread_mutex_init] succeeded. *)
Definition inotify_clone (mutex_ok : bool) (source : inotify_object) (w : W)
  : hl_status * option inotify_object * W :=
  let '(ok, w) := alloc w in
  if negb ok || negb mutex_ok then (HL_STATUS_OUT_OF_MEMORY, None, w)
  else
    let '(status, context, w) := p_clone provider (provider_context source) w in
    if negb (is_ok status) then (status, None, w)
    else
      let no_memory w := let '(_, w) := p_close provider context w in (HL_STATUS_OUT_OF_MEMORY, None, w) in
      let '(ok, copied, w) :=
        if watch_capacity source =? 0 then (true, [], w)
        else
          let '(ok, w) := alloc w in
          if negb ok then (false, [], w)
          else let '(ok, w) := alloc_each (watches source) w in (ok, watches source, w) in
      if negb ok then no_memory w
      else
        let '(ok, w) := if queue_size source =? 0 then (true, w) else alloc w in
        if negb ok then no_memory w
        else (HL_STATUS_OK,
              Some (mk_inotify 0 context copied (watch_capacity source) (queue source) (queue_size source)
                (next_wd source) (nonblocking source)), w).

Definition inotify_close (o : inotify_object) (w : W) : hl_status * W :=
  p_close provider (provider_context o) w.

(** [complete] is whether the instance, the provider and the nine operations
    it must have are there; [install] is [hl_linux_object_install], which
    answers a status and the new descriptor. *)
Definition fresh_object (context status_flags : Z) : inotify_object :=
  mk_inotify 0 context [] 0 [] 0 1 (has_flag status_flags HL_LINUX_O_NONBLOCK).

Definition hl_linux_inotify_create (complete mutex_ok : bool) (install : W -> hl_status * Z * W)
    (context status_flags : Z) (w : W) : Z * option inotify_object * W :=
  if negb complete then (- HL_LINUX_EINVAL, None, w)
  else
    let '(ok, w) := alloc w in
    if negb ok || negb mutex_ok then (- HL_LINUX_ENOMEM, None, w)
    else
      let '(status, fd, w) := install w in
      if is_ok status then (fd, Some (fresh_object context status_flags), w)
      else let '(_, w) := p_close provider context w in (inotify_error status, None, w).

(** [hl_linux_object_install_at] is given the descriptor. *)
Definition hl_linux_inotify_create_at (complete mutex_ok : bool) (requested : Z)
    (install_at : W -> hl_status * W) (context status_flags : Z) (w : W) : Z * option inotify_object * W :=
  hl_linux_inotify_create complete mutex_ok
    (fun w => let '(status, w) := install_at w in (status, requested, w)) context status_flags w.

(** ** Watches

    [pinned] is the status of [hl_linux_object_pin_fd], [ours] whether the
    pinned object's operations are [inotify_ops]. *)

Definition same_path (p : list Z) (x : inotify_watch) : bool := bool_decide (path x = p).

(** The path is watched already, at index [i]. *)
Definition add_existing (m i : Z) (x : inotify_watch) (o : inotify_object) (w : W) : Z * inotify_object * W :=
  if has_flag m HL_LINUX_IN_MASK_CREATE then (- HL_LINUX_EEXIST, mutation_end o, w)
  else
    let m' :=
      if has_flag m HL_LINUX_IN_MASK_ADD
      then Z.lor (mask x) (Z.land m (Z.lnot HL_LINUX_IN_MASK_ADD))
      else Z.land m (Z.lnot HL_LINUX_IN_MASK_CREATE) in
    let '(status, w) := p_modify provider (provider_context o) (token x) m' w in
    if is_ok status
    then (u32 (wd x), mutation_end (set_watches (insertZ (watches o) i (with_mask m' x)) (watch_capacity o) o), w)
    else (inotify_error status, mutation_end o, w).

(** A new path: room in the array, the saved path, the next descriptor. *)
Definition add_new (p : list Z) (m : Z) (o : inotify_object) (w : W) : Z * inotify_object * W :=
  let '(ok, capacity, w) :=
    if watch_count o =? watch_capacity o then
      let '(ok, w) := alloc w in
      (ok, if watch_capacity o =? 0 then 8 else u32 (watch_capacity o * 2), w)
    else (true, watch_capacity o, w) in
  if negb ok then (- HL_LINUX_ENOMEM, mutation_end o, w)
  else
    let o := set_watches (watches o) capacity o in
    let '(ok, w) := alloc w in
    if negb ok then (- HL_LINUX_ENOMEM, mutation_end o, w)
    else if (next_wd o <=? 0) || (next_wd o =? INT32_MAX) then (- HL_LINUX_ENOSYS, mutation_end o, w)
    else
      (* the initialisers are taken in order: the token reads the incremented counter *)
      let x :=
        mk_inotify_watch (next_wd o) (Z.land m (Z.lnot HL_LINUX_IN_MASK_CREATE))
          (u64 (u32 (next_wd o + 1) - 1)) p in
      let o := set_next_wd (next_wd o + 1) o in
      let '(status, w) := p_add provider (provider_context o) p (token x) (mask x) w in
      if is_ok status
      then (u32 (wd x), mutation_end (set_watches (watches o ++ [x]) (watch_capacity o) o), w)
      else (inotify_error status, mutation_end o, w).

Definition hl_linux_inotify_add (pinned : hl_status) (ours : bool) (p : list Z) (m : Z) (o : inotify_object)
    (w : W) : Z * inotify_object * W :=
  if (lengthZ p =? 0) || (Z.land m INOTIFY_EVENT_MASK =? 0) ||
     negb (Z.land m (Z.lnot (Z.lor INOTIFY_EVENT_MASK INOTIFY_OPTION_MASK)) =? 0)
  then (- HL_LINUX_EINVAL, o, w)
  else if negb (is_ok pinned) then (- HL_LINUX_EBADF, o, w)
  else if negb ours then (- HL_LINUX_EINVAL, o, w)
  else
    let o := mutation_begin o in
    match find_watch (same_path p) o with
    | Some (i, x) => add_existing m i x o w
    | None => add_new p m o w
    end.

Definition hl_linux_inotify_remove (pinned : hl_status) (ours : bool) (d : Z) (o : inotify_object) (w : W)
  : Z * inotify_object * W :=
  if negb (is_ok pinned) then (- HL_LINUX_EBADF, o, w)
  else if negb ours then (- HL_LINUX_EINVAL, o, w)
  else
    let o := mutation_begin o in
    match watch_id o d with
    | None => (- HL_LINUX_EINVAL, mutation_end o, w)
    | Some (index, x) =>
        let '(status, w) := p_remove provider (provider_context o) (token x) w in
        if is_ok status || is_not_found status then
          let '(_, o, w) := queue_event d HL_LINUX_IN_IGNORED 0 [] o w in
          (0, mutation_end (drop_watch index o), w)
        else (inotify_error status, mutation_end o, w)
    end.

(** ** The checkpoint image *)

Definition INOTIFY_IMAGE_MAGIC : Z := 0x484c494e4f544659.
Definition INOTIFY_IMAGE_VERSION : Z := 1.
Definition sizeof_image_header : Z := 32.
Definition sizeof_image_watch : Z := 24.

Record inotify_image_header := mk_header {
  h_magic : Z; h_version : Z; h_watch_count : Z; h_next_wd : Z; h_nonblocking : Z; h_queue_size : Z
}.
Record inotify_image_watch := mk_saved { s_wd : Z; s_mask : Z; s_token : Z; s_path_size : Z }.

Definition header_bytes (h : inotify_image_header) : list Z :=
  le_bytes 8 (h_magic h) ++ le_bytes 4 (h_version h) ++ le_bytes 4 (h_watch_count h) ++
  le_bytes 4 (h_next_wd h) ++ le_bytes 4 (h_nonblocking h) ++ le_bytes 8 (h_queue_size h).
Definition saved_bytes (s : inotify_image_watch) : list Z :=
  le_bytes 4 (s_wd s) ++ le_bytes 4 (s_mask s) ++ le_bytes 8 (s_token s) ++ le_bytes 8 (s_path_size s).

Definition field (n offset : nat) (b : list Z) : Z := le_val (take n (drop offset b)).
Definition header_of (b : list Z) : inotify_image_header :=
  mk_header (field 8 0 b) (field 4 8 b) (field 4 12 b) (s32 (field 4 16 b)) (field 4 20 b) (field 8 24 b).
Definition saved_of (b : list Z) : inotify_image_watch :=
  mk_saved (s32 (field 4 0 b)) (field 4 4 b) (field 8 8 b) (field 8 16 b).

(** The sizing loop of the export; [None] is its overflow answer. *)
Fixpoint export_needed (l : list inotify_watch) (needed : Z) : option Z :=
  match l with
  | [] => Some needed
  | x :: l =>
      let path_size := lengthZ (path x) in
      if (UINT64_MAX - sizeof_image_watch <? path_size) ||
         (UINT64_MAX - sizeof_image_watch - path_size <? needed)
      then None
      else export_needed l (needed + (sizeof_image_watch + path_size))
  end.

Definition watch_image (x : inotify_watch) : list Z :=
  saved_bytes (mk_saved (wd x) (mask x) (token x) (lengthZ (path x))) ++ path x.

Definition image_of (o : inotify_object) : list Z :=
  header_bytes (mk_header INOTIFY_IMAGE_MAGIC INOTIFY_IMAGE_VERSION (watch_count o) (next_wd o)
    (if nonblocking o then 1 else 0) (queue_size o)) ++
  concat (map watch_image (watches o)) ++ queue o.

(** The status, what [*out_size] is set to and what is stored in the buffer;
    [capacity] is [None] for a NULL buffer. *)
Definition hl_linux_inotify_export (pinned : hl_status) (ours : bool) (capacity : option Z)
    (o : inotify_object) (w : W) : hl_status * option Z * option (list Z) * inotify_object * W :=
  if negb (is_ok pinned) then (pinned, None, None, o, w)
  else if negb ours then (HL_STATUS_INVALID_ARGUMENT, None, None, o, w)
  else
    let '(status, o, w) := inotify_pump o w in
    if negb (is_ok status) then (status, None, None, o, w)
    else
      match export_needed (watches o) sizeof_image_header with
      | None => (HL_STATUS_OUT_OF_MEMORY, None, None, o, w)
      | Some needed =>
          if UINT64_MAX - needed <? queue_size o then (HL_STATUS_OUT_OF_MEMORY, None, None, o, w)
          else
            let needed := needed + queue_size o in
            match capacity with
            | None => (HL_STATUS_OK, Some needed, None, o, w)
            | Some capacity =>
                if capacity <? needed then (HL_STATUS_OUT_OF_MEMORY, Some needed, None, o, w)
                else (HL_STATUS_OK, Some needed, Some (image_of o), o, w)
            end
      end.

(** The restore loop over the saved watches: [Some rest] is the cursor after
    the last of them, [None] a jump to [fail_object]; [status] is the variable
    the failure answers with, which a successful [add] overwrites. *)
Fixpoint import_watches (n : nat) (cursor : list Z) (status : hl_status) (o : inotify_object) (w : W)
  : option (list Z) * hl_status * inotify_object * W :=
  match n with
  | O => (Some cursor, status, o, w)
  | S n =>
      if lengthZ cursor <? sizeof_image_watch then (None, status, o, w)
      else
        let saved := saved_of cursor in
        let cursor := drop 24 cursor in
        if (s_wd saved <=? 0) || (s_path_size saved =? 0) || (lengthZ cursor <? s_path_size saved) ||
           (UINT64_MAX - 1 <? s_path_size saved)
        then (None, status, o, w)
        else
          let '(ok, w) := alloc w in
          if negb ok then (None, HL_STATUS_OUT_OF_MEMORY, o, w)
          else
            let x :=
              mk_inotify_watch (s_wd saved) (s_mask saved) (s_token saved)
                (take (Z.to_nat (s_path_size saved)) cursor) in
            let '(status, w) := p_add provider (provider_context o) (path x) (token x) (mask x) w in
            if is_ok status
            then import_watches n (drop (Z.to_nat (s_path_size saved)) cursor) status
                   (set_watches (watches o ++ [x]) (watch_capacity o) o) w
            else (None, status, o, w)
  end.

(** The framing loop: do the records tile what is left of the queue? *)
Fixpoint tiles (fuel : nat) (q : list Z) : bool :=
  match fuel with
  | O => false
  | S fuel =>
      if lengthZ q =? 0 then true
      else if lengthZ q <? 16 then false
      else
        let name_len := field 4 12 q in
        if lengthZ q - 16 <? name_len then false
        else tiles fuel (drop (Z.to_nat (16 + name_len)) q)
  end.

Fixpoint remove_each (context : Z) (l : list inotify_watch) (w : W) : W :=
  match l with
  | [] => w
  | x :: l => let '(_, w) := p_remove provider context (token x) w in remove_each context l w
  end.

(** The labels [fail_provider] and [fail_object]; [closable] is whether the
    provider and its [close] are there. *)
Definition fail_provider (closable : bool) (status : hl_status) (context : Z) (w : W)
  : Z * option inotify_object * W :=
  if closable && negb (context =? 0)
  then let '(_, w) := p_close provider context w in (inotify_error status, None, w)
  else (inotify_error status, None, w).

Definition fail_object (status : hl_status) (o : inotify_object) (w : W) : Z * option inotify_object * W :=
  fail_provider true status (provider_context o) (remove_each (provider_context o) (watches o) w).

Definition header_refused (h : inotify_image_header) (rest : Z) : bool :=
  negb (h_magic h =? INOTIFY_IMAGE_MAGIC) || negb (h_version h =? INOTIFY_IMAGE_VERSION) ||
  (h_next_wd h <=? 0) || (rest <? h_queue_size h) || (1048576 <? h_watch_count h).

(** The queue of the image, once the watches are restored: [Some] the status
    of a failure, or the object with its queue. *)
Definition import_queue (h : inotify_image_header) (cursor : list Z) (status : hl_status) (o : inotify_object)
    (w : W) : option hl_status * inotify_object * W :=
  if negb (h_queue_size h =? lengthZ cursor) then (Some status, o, w)
  else if negb (h_queue_size h =? 0) then
    let '(ok, w) := alloc w in
    if negb ok then (Some HL_STATUS_OUT_OF_MEMORY, o, w)
    else
      let o := set_queue cursor (h_queue_size h) o in
      if tiles (S (length cursor)) cursor then (None, o, w) else (Some status, o, w)
  else (None, o, w).

Definition hl_linux_inotify_import_at (complete closable mutex_ok : bool) (requested : Z)
    (install_at : W -> hl_status * W) (context status_flags : Z) (image : list Z) (w : W)
  : Z * option inotify_object * W :=
  if negb complete || (lengthZ image <? sizeof_image_header)
  then fail_provider closable HL_STATUS_INVALID_ARGUMENT context w
  else
    let h := header_of image in
    let cursor := drop 32 image in
    if header_refused h (lengthZ cursor) then fail_provider closable HL_STATUS_INVALID_ARGUMENT context w
    else
      let '(ok, w) := alloc w in
      if negb ok || negb mutex_ok then fail_provider closable HL_STATUS_OUT_OF_MEMORY context w
      else
        let o := mk_inotify 0 context [] 0 [] 0 (h_next_wd h) (has_flag status_flags HL_LINUX_O_NONBLOCK) in
        let '(ok, w) := if negb (h_watch_count h =? 0) then alloc w else (true, w) in
        if negb ok then fail_object HL_STATUS_OUT_OF_MEMORY o w
        else
          let o := set_watches [] (h_watch_count h) o in
          let '(restored, status, o, w) :=
            import_watches (Z.to_nat (h_watch_count h)) cursor HL_STATUS_INVALID_ARGUMENT o w in
          match restored with
          | None => fail_object status o w
          | Some cursor =>
              let '(failed, o, w) := import_queue h cursor status o w in
              match failed with
              | Some status => fail_object status o w
              | None =>
                  let '(status, w) := install_at w in
                  if is_ok status then (requested, Some o, w) else fail_object status o w
              end
          end.
End Object.
