(* ===== verification/InotifyProofs.v ===== *)
(** * The inotify object: records, watches and history

    The bytes of the queue as a list of events, and the invariant every
    operation of the object keeps. *)

From S2P Require Import Prelude Status Host Inotify.

(** ** The queue as a list of events *)

(** [e_payload] is the name with its padding. *)
Record inotify_event := mk_event { e_wd : Z; e_mask : Z; e_cookie : Z; e_payload : list Z }.

Definition event_size (e : inotify_event) : Z := 16 + lengthZ (e_payload e).
Definition event_bytes (e : inotify_event) : list Z :=
  le_bytes 4 (e_wd e) ++ le_bytes 4 (e_mask e) ++ le_bytes 4 (e_cookie e) ++
  le_bytes 4 (lengthZ (e_payload e)) ++ e_payload e.
Definition queue_bytes (l : list inotify_event) : list Z := concat (map event_bytes l).

(** The length field holds the length of the payload; the size of the record
    is below 2^32 as well, as the reader's sum needs. *)
Definition event_framed (e : inotify_event) : Prop := lengthZ (e_payload e) < 2 ^ 32.
Definition event_fits (e : inotify_event) : Prop := event_size e < 2 ^ 32.

Lemma event_fits_framed e : event_fits e -> event_framed e.
Proof. unfold event_fits, event_size, event_framed. lia. Qed.

(** The longest run of whole events that fits [size] bytes. *)
Fixpoint whole_events (size : Z) (l : list inotify_event) : list inotify_event :=
  match l with
  | [] => []
  | e :: l => if event_size e <=? size then e :: whole_events (size - event_size e) l else []
  end.

Lemma whole_events_prefix size l : l = whole_events size l ++ drop (length (whole_events size l)) l.
Proof.
  revert size. induction l as [|e l IH]; intros size; simpl; [done|].
  destruct (event_size e <=? size); simpl; [|done]. by rewrite <- (IH (size - event_size e)).
Qed.

Lemma lengthZ_le_bytes n x : lengthZ (le_bytes n x) = Z.of_nat n.
Proof. unfold lengthZ. by rewrite length_le_bytes. Qed.

Lemma lengthZ_event_bytes e : lengthZ (event_bytes e) = event_size e.
Proof. unfold event_bytes. rewrite !lengthZ_app, !lengthZ_le_bytes. unfold event_size. lia. Qed.

Lemma event_size_min e : 16 <= event_size e.
Proof. unfold event_size. pose proof (lengthZ_nonneg (e_payload e)). lia. Qed.

Lemma queue_bytes_cons e l : queue_bytes (e :: l) = event_bytes e ++ queue_bytes l.
Proof. done. Qed.

Lemma queue_bytes_app l k : queue_bytes (l ++ k) = queue_bytes l ++ queue_bytes k.
Proof. unfold queue_bytes. by rewrite map_app, concat_app. Qed.

Lemma queue_bytes_count l : 16 * lengthZ l <= lengthZ (queue_bytes l).
Proof.
  induction l as [|e l IH]; [done|].
  rewrite queue_bytes_cons, lengthZ_app, lengthZ_event_bytes, lengthZ_cons. pose proof (event_size_min e). lia.
Qed.

Lemma queue_bytes_nil l : lengthZ (queue_bytes l) = 0 -> l = [].
Proof.
  destruct l as [|e l]; [done|]. pose proof (queue_bytes_count (e :: l)) as H. rewrite lengthZ_cons in H.
  pose proof (lengthZ_nonneg l). lia.
Qed.

(** A field of a record behind a prefix. *)
Lemma take_drop_app {A} (pre a b : list A) n :
  n = lengthZ pre -> take (length a) (drop (Z.to_nat n) (pre ++ a ++ b)) = a.
Proof.
  intros ->. unfold lengthZ. rewrite Nat2Z.id, drop_app_length, take_app_length. done.
Qed.

Lemma length_field pre e rest :
  event_framed e ->
  le_val (take 4 (drop (Z.to_nat (lengthZ pre + 12)) (pre ++ event_bytes e ++ rest))) = lengthZ (e_payload e).
Proof.
  intros He. unfold event_bytes.
  set (head := le_bytes 4 (e_wd e) ++ le_bytes 4 (e_mask e) ++ le_bytes 4 (e_cookie e)).
  replace (pre ++ _ ++ rest)
    with ((pre ++ head) ++ le_bytes 4 (lengthZ (e_payload e)) ++ (e_payload e ++ rest))
    by (unfold head; by rewrite <- !app_assoc).
  rewrite <- (length_le_bytes 4 (lengthZ (e_payload e))) at 1.
  rewrite take_drop_app by (unfold head; rewrite !lengthZ_app, !lengthZ_le_bytes; lia).
  rewrite le_val_le_bytes. apply Z.mod_small. unfold event_framed in He.
  pose proof (lengthZ_nonneg (e_payload e)). split; [done|]. exact He.
Qed.

(** The walk stops after the longest run of whole records. *)
Lemma read_walk_exact l : forall fuel pre size,
  Forall event_fits l -> (length l < fuel)%nat -> lengthZ pre <= size ->
  read_walk fuel (pre ++ queue_bytes l) size (lengthZ pre) =
  Some (lengthZ pre + lengthZ (queue_bytes (whole_events (size - lengthZ pre) l))).
Proof.
  induction l as [|e l IH]; intros [|fuel] pre size Hl Hf Hs; simpl length in Hf; try lia; cbn [read_walk].
  - change (queue_bytes []) with (@nil Z). rewrite app_nil_r. destruct (Z.leb_spec (lengthZ pre + 16) (lengthZ pre)); [lia|].
    cbn [whole_events]. change (lengthZ (queue_bytes [])) with 0. f_equal. lia.
  - apply Forall_cons_1 in Hl as [He Hl]. rewrite queue_bytes_cons, length_field by (by apply event_fits_framed).
    rewrite !lengthZ_app, lengthZ_event_bytes. pose proof (event_size_min e). pose proof (lengthZ_nonneg (queue_bytes l)).
    destruct (Z.leb_spec (lengthZ pre + 16) (lengthZ pre + (event_size e + lengthZ (queue_bytes l)))); [|lia].
    fold (event_size e). rewrite u32_small by (unfold event_fits in He; lia).
    destruct (Z.ltb_spec (lengthZ pre + (event_size e + lengthZ (queue_bytes l)) - lengthZ pre) (event_size e)); [lia|].
    cbn [whole_events].
    destruct (Z.ltb_spec (size - lengthZ pre) (event_size e)), (Z.leb_spec (event_size e) (size - lengthZ pre)); try lia.
    { change (lengthZ (queue_bytes [])) with 0. f_equal. lia. }
    rewrite app_assoc. replace (lengthZ pre + event_size e) with (lengthZ (pre ++ event_bytes e))
      by (rewrite lengthZ_app, lengthZ_event_bytes; lia).
    rewrite IH by (try done; rewrite ?lengthZ_app, ?lengthZ_event_bytes; lia).
    rewrite queue_bytes_cons, !lengthZ_app, lengthZ_event_bytes.
    replace (size - (lengthZ pre + event_size e)) with (size - lengthZ pre - event_size e) by lia. f_equal. lia.
Qed.

(** A record whose size wraps to nothing keeps the walk where it is, for ever;
    every other record takes it on.  So the fuel never decides: a walk not over
    after one round for every byte is never over. *)
Lemma read_walk_stuck q size offset :
  offset + 16 <= lengthZ q -> offset <= size -> u32 (16 + le_val (take 4 (drop (Z.to_nat (offset + 12)) q))) = 0 ->
  forall fuel, read_walk fuel q size offset = None.
Proof.
  intros Hq Hs Hr. induction fuel as [|fuel IH]; cbn [read_walk]; [done|]. rewrite Hr.
  destruct (Z.leb_spec (offset + 16) (lengthZ q)), (Z.ltb_spec (lengthZ q - offset) 0), (Z.ltb_spec (size - offset) 0);
    try lia. by rewrite Z.add_0_r.
Qed.

Lemma read_walk_enough q size : forall fuel k offset,
  0 <= offset <= lengthZ q -> offset <= size -> lengthZ q - offset < Z.of_nat fuel ->
  read_walk (fuel + k) q size offset = read_walk fuel q size offset.
Proof.
  induction fuel as [|fuel IH]; intros k offset Ho Hs Hf; [lia|].
  destruct (Z.eqb_spec (u32 (16 + le_val (take 4 (drop (Z.to_nat (offset + 12)) q)))) 0) as [E|E].
  { destruct (Z.leb_spec (offset + 16) (lengthZ q)) as [H16|H16]; [by rewrite !read_walk_stuck|].
    cbn [read_walk Nat.add]. by destruct (Z.leb_spec (offset + 16) (lengthZ q)); [lia|]. }
  cbn [read_walk Nat.add]. destruct (offset + 16 <=? lengthZ q); [|done]. cbv zeta.
  pose proof (u32_range (16 + le_val (take 4 (drop (Z.to_nat (offset + 12)) q)))). set (record := u32 _) in *.
  destruct (Z.ltb_spec (lengthZ q - offset) record), (Z.ltb_spec (size - offset) record); try done. apply IH; lia.
Qed.

(** What a read hands out, on a queue of whole records. *)
Lemma take_records_exact size o l :
  queue o = queue_bytes l -> Forall event_fits l ->
  exists o', let got := whole_events size l in
  take_records size o = Some (if lengthZ l =? 0 then - HL_LINUX_EAGAIN
                              else if lengthZ got =? 0 then - HL_LINUX_EINVAL else lengthZ (queue_bytes got),
                              queue_bytes got, o') /\
  queue o' = queue_bytes (drop (length got) l) /\
  watches o' = watches o /\ watch_capacity o' = watch_capacity o /\ next_wd o' = next_wd o /\
  nonblocking o' = nonblocking o /\ queue_capacity o' = queue_capacity o /\ provider_context o' = provider_context o.
Proof.
  intros Hq Hl. unfold take_records, queue_size. rewrite Hq.
  destruct (Z.eqb_spec (lengthZ (queue_bytes l)) 0) as [E|E].
  { apply queue_bytes_nil in E as ->. exists o. cbn. by rewrite Hq. }
  destruct l as [|e l]; [done|]. rewrite lengthZ_cons. pose proof (lengthZ_nonneg l).
  destruct (Z.eqb_spec (lengthZ l + 1) 0); [lia|].
  destruct (Z.ltb_spec size 16) as [Hs|Hs].
  { exists o. pose proof (event_size_min e). cbn [whole_events].
    destruct (Z.leb_spec (event_size e) size); [lia|]. cbn. by rewrite Hq. }
  cbv zeta. cbn [queue mutation_begin set_epoch]. rewrite Hq.
  pose proof (read_walk_exact (e :: l) (S (length (queue_bytes (e :: l)))) [] size Hl) as Hw.
  rewrite app_nil_l in Hw. change (lengthZ []) with 0 in Hw. rewrite Z.sub_0_r, Z.add_0_l in Hw.
  pose proof (queue_bytes_count (e :: l)) as Hc. unfold lengthZ in Hc. rewrite Hw by lia. clear Hw Hc.
  pose proof (whole_events_prefix size (e :: l)) as Hp. set (got := whole_events size (e :: l)) in *.
  destruct (Z.eqb_spec (lengthZ (queue_bytes got)) 0) as [E'|E'].
  { apply queue_bytes_nil in E' as Hg. rewrite Hg. eexists. split; [reflexivity|]. cbn. by rewrite Hq. }
  destruct (Z.eqb_spec (lengthZ got) 0) as [E2|_].
  { destruct got; [done|]. rewrite lengthZ_cons in E2. pose proof (lengthZ_nonneg got). lia. }
  assert (Hb : queue_bytes (e :: l) = queue_bytes got ++ queue_bytes (drop (length got) (e :: l)))
    by (rewrite Hp at 1; apply queue_bytes_app).
  eexists. split.
  { rewrite Hb at 1. unfold lengthZ at 2. rewrite Nat2Z.id, take_app_length. reflexivity. }
  cbn [queue mutation_end set_queue set_epoch]. rewrite Hb. unfold lengthZ. rewrite Nat2Z.id, drop_app_length. done.
Qed.

(** ** What is queued *)

Lemma padded_size_bounds n : 0 < n < 2 ^ 32 - 4 -> n < padded_size n <= n + 4.
Proof.
  intros Hn. unfold padded_size. destruct (Z.eqb_spec n 0); [lia|]. rewrite u64_small by lia.
  rewrite <- Z.ldiff_land. change 3 with (Z.ones 2) at 2 4. rewrite Z.ldiff_ones_r by lia.
  rewrite Z.shiftl_mul_pow2, Z.shiftr_div_pow2 by lia. change (2 ^ 2) with 4. div_lia.
Qed.

Lemma padded_size_range n : 0 <= n < 2 ^ 32 - 4 -> n <= padded_size n <= n + 4.
Proof.
  intros Hn. destruct (decide (n = 0)) as [->|Hz]; [by vm_compute|]. pose proof (padded_size_bounds n). lia.
Qed.

Definition padded_name (name : list Z) : list Z :=
  name ++ replicate (Z.to_nat (padded_size (lengthZ name) - lengthZ name)) 0.

Lemma lengthZ_padded_name name :
  lengthZ name < 2 ^ 32 - 4 -> lengthZ (padded_name name) = padded_size (lengthZ name).
Proof.
  intros Hn. unfold padded_name. rewrite lengthZ_app. unfold lengthZ at 2. rewrite length_replicate.
  pose proof (lengthZ_nonneg name). pose proof (padded_size_range (lengthZ name)). lia.
Qed.

Lemma record_bytes_event d m cookie name :
  lengthZ name < 2 ^ 32 - 20 ->
  record_bytes d m cookie name = event_bytes (mk_event d m cookie (padded_name name)) /\
  event_fits (mk_event d m cookie (padded_name name)).
Proof.
  intros Hn. unfold record_bytes, event_bytes, event_fits, event_size. cbn. rewrite lengthZ_padded_name by lia.
  pose proof (lengthZ_nonneg name). pose proof (padded_size_range (lengthZ name)). split; [|lia].
  destruct (Z.eqb_spec (padded_size (lengthZ name)) 0) as [E|E]; [|done].
  destruct name as [|b name]; [done|]. pose proof (padded_size_bounds (lengthZ (b :: name))) as Hp.
  rewrite lengthZ_cons in *. pose proof (lengthZ_nonneg name). lia.
Qed.

(** ** Watches *)

Lemma find_watch_Some p o i x :
  find_watch p o = Some (i, x) -> lookupZ (watches o) i = Some x /\ p x = true.
Proof.
  unfold find_watch. destruct (scan_from p (watches o) 0) as [j|] eqn:Hs; [|done].
  apply scan_from_Some in Hs as (_ & (y & Hy & Hp) & _). rewrite Z.sub_0_r in Hy. rewrite Hy. by intros [= <- <-].
Qed.

Lemma find_watch_None p o : find_watch p o = None -> forall x, In x (watches o) -> p x = false.
Proof.
  unfold find_watch. destruct (scan_from p (watches o) 0) as [j|] eqn:Hs.
  - apply scan_from_Some in Hs as (_ & (y & Hy & _) & _). rewrite Z.sub_0_r in Hy. by rewrite Hy.
  - intros _ x [k Hk]%elem_lookupZ. by apply (scan_from_None _ _ _ Hs k).
Qed.

(** Moving the last entry into the hole takes exactly one entry out. *)
Lemma drop_watch_perm i x o :
  lookupZ (watches o) i = Some x -> x :: watches (drop_watch i o) ≡ₚ watches o.
Proof.
  intros Hi. unfold drop_watch, watch_count. destruct o as [ep ctx l cap q qc nw nb]. cbn [watches] in *.
  pose proof (lookupZ_Some_range _ _ _ Hi) as Hr.
  destruct l as [|y k _] using rev_ind.
  { change (lengthZ []) with 0 in Hr. lia. }
  rewrite lengthZ_app in *. change (lengthZ [y]) with 1 in *.
  replace (lengthZ k + 1 - 1) with (lengthZ k) by lia. rewrite lookupZ_middle. cbn [watches set_watches].
  destruct (decide (i = lengthZ k)) as [->|Hne].
  - rewrite lookupZ_middle in Hi. injection Hi as ->. rewrite insertZ_middle.
    unfold lengthZ. rewrite Nat2Z.id, take_app_length. apply Permutation_cons_append.
  - rewrite lookupZ_app_l in Hi by lia.
    assert (Ht : take (Z.to_nat (lengthZ k)) (insertZ (k ++ [y]) i y) = insertZ k i y).
    { unfold insertZ, lengthZ in *. destruct (0 <=? i) eqn:?; bool_props; [|lia].
      rewrite insert_app_l by lia. rewrite Nat2Z.id. apply take_app_length'. by rewrite length_insert. }
    rewrite Ht. unfold lookupZ, insertZ in *. destruct (0 <=? i); [|done].
    rewrite insert_take_drop by (by eapply lookup_lt_Some).
    apply take_drop_middle in Hi. rewrite <- Permutation_cons_append. rewrite <- Hi at 3.
    rewrite <- !Permutation_middle. apply perm_swap.
Qed.

Lemma drop_watch_fields i o :
  queue (drop_watch i o) = queue o /\ queue_capacity (drop_watch i o) = queue_capacity o /\
  next_wd (drop_watch i o) = next_wd o /\ nonblocking (drop_watch i o) = nonblocking o /\
  watch_capacity (drop_watch i o) = watch_capacity o /\ provider_context (drop_watch i o) = provider_context o.
Proof. unfold drop_watch. by destruct (lookupZ _ _). Qed.

(** Watch descriptors and tokens are one number each, never given out twice. *)
Definition watch_ok (n : Z) (x : inotify_watch) : Prop :=
  0 < wd x < n /\ token x = wd x /\ 0 <= mask x < 2 ^ 32 /\ path x <> [].

Record watches_ok (o : inotify_object) : Prop := {
  wo_next : 0 < next_wd o <= INT32_MAX;
  wo_each : Forall (watch_ok (next_wd o)) (watches o);
  wo_wds : NoDup (map wd (watches o));
  wo_paths : NoDup (map path (watches o));
  wo_room : watch_count o <= watch_capacity o < 2 ^ 32
}.

(** Distinct descriptors below the counter bound their number. *)
Lemma watches_few o : watches_ok o -> watch_count o < next_wd o.
Proof.
  intros H. destruct H as [Hn He Hd _ _]. unfold watch_count, lengthZ.
  assert (Hs : map wd (watches o) ⊆+ seqZ 1 (next_wd o - 1)).
  { apply NoDup_submseteq; [done|]. intros d Hd'. apply elem_of_seqZ.
    apply list_elem_of_In, in_map_iff in Hd' as (x & <- & Hx). rewrite Forall_forall in He.
    destruct (He x) as [? _]; [done|]. lia. }
  apply submseteq_length in Hs. rewrite length_map, length_seqZ in Hs. lia.
Qed.

Lemma find_token o i x e : watches_ok o -> watch_token o e = Some (i, x) ->
  lookupZ (watches o) i = Some x /\ In x (watches o) /\ wd x = e /\ 0 < wd x < next_wd o.
Proof.
  intros Ho [Hi Ht]%find_watch_Some. apply lookupZ_elem in Hi as Hin. split; [done|]. split; [done|].
  pose proof (wo_each _ Ho) as He. rewrite Forall_forall in He. apply He in Hin as (? & ? & _).
  bool_props. split; lia.
Qed.

Lemma watches_ok_drop i x o :
  watches_ok o -> lookupZ (watches o) i = Some x ->
  watches_ok (drop_watch i o) /\ (forall y, In y (watches (drop_watch i o)) -> In y (watches o) /\ wd y <> wd x).
Proof.
  intros [Hn He Hd Hp Hr] Hi. pose proof (drop_watch_perm i x o Hi) as HP.
  destruct (drop_watch_fields i o) as (_ & _ & En & _ & Ec & _).
  rewrite <- HP in He, Hd, Hp. simpl in Hd, Hp. pose proof (NoDup_cons_1_1 _ _ Hd) as Hx. apply NoDup_cons_1_2 in Hd, Hp.
  apply Forall_cons_1 in He as [_ He]. split.
  - split; rewrite ?En, ?Ec; try done.
    unfold watch_count, lengthZ in *. apply Permutation_length in HP. simpl in HP. lia.
  - intros y Hy. split; [eapply Permutation_in; [exact HP|by right]|]. intros Heq. apply Hx. rewrite <- Heq.
    apply list_elem_of_In. by apply in_map.
Qed.

(** ** History

    Every event the object has ever queued, in order: those the guest has read
    and those still in the queue. *)

Definition ends_watch (e : inotify_event) : bool := has_flag (e_mask e) HL_LINUX_IN_IGNORED.

(** Nothing follows the event which says that a watch is gone. *)
Definition ignored_last (h : list inotify_event) : Prop :=
  forall h1 e h2, h = h1 ++ e :: h2 -> 0 < e_wd e -> ends_watch e = true ->
  Forall (fun e' => e_wd e' <> e_wd e) h2.

Lemma ignored_last_snoc h a :
  ignored_last h -> (forall e, In e h -> 0 < e_wd e -> ends_watch e = true -> e_wd e <> e_wd a) ->
  ignored_last (h ++ [a]).
Proof.
  intros Hh Ha h1 e h2 Heq Hp He.
  destruct h2 as [|b h2 _] using rev_ind; [constructor|].
  rewrite app_comm_cons, app_assoc in Heq. apply app_inj_tail in Heq as [-> ->].
  apply Forall_app. split; [by apply (Hh h1 e h2)|]. constructor; [|constructor].
  intros Hw. apply (Ha e); try done. apply in_or_app. right. by left.
Qed.

Record history_ok (o : inotify_object) (h : list inotify_event) : Prop := {
  ho_wd : Forall (fun e => e_wd e = -1 \/ 0 < e_wd e < next_wd o) h;
  ho_live : forall x e, In x (watches o) -> In e h -> ends_watch e = true -> e_wd e <> wd x;
  ho_last : ignored_last h
}.

(** [sent] is what the guest has read, [evs] what the queue holds. *)
Record pending (sent evs : list inotify_event) (o : inotify_object) : Prop := {
  pe_queue : queue o = queue_bytes evs;
  pe_fits : Forall event_fits (sent ++ evs);
  pe_watches : watches_ok o;
  pe_history : history_ok o (sent ++ evs);
  pe_room : queue_size o <= queue_capacity o <= UINT64_MAX
}.

(** The queue is left alone; every watch was there before, by its descriptor,
    or has a descriptor no watch has had. *)
Lemma pending_rewatch sent evs o o2 :
  pending sent evs o -> queue o2 = queue o -> queue_capacity o2 = queue_capacity o -> next_wd o <= next_wd o2 ->
  watches_ok o2 ->
  (forall y, In y (watches o2) -> (exists x, In x (watches o) /\ wd x = wd y) \/ next_wd o <= wd y) ->
  pending sent evs o2.
Proof.
  intros [Hq Hf Hw [Hd Hl Hi] Hr] Eq Ec En Ho2 Hsub.
  split; rewrite ?Eq, ?Ec; try done; [|unfold queue_size in *; by rewrite Eq].
  pose proof (wo_next _ Hw). split; [|intros y e Hy He Hend|done].
  - eapply Forall_impl; [|exact Hd]. cbv beta. lia.
  - destruct (Hsub y Hy) as [(x & Hx & <-)|Hnew]; [by apply Hl|].
    rewrite Forall_forall in Hd. destruct (Hd e He) as [?|?]; lia.
Qed.

Lemma pending_drop sent evs i x o :
  pending sent evs o -> lookupZ (watches o) i = Some x -> pending sent evs (drop_watch i o).
Proof.
  intros Hp Hi. destruct (drop_watch_fields i o) as (Eq & Ec & En & _).
  destruct (watches_ok_drop i x o (pe_watches _ _ _ Hp) Hi) as [Ho2 Hsub].
  apply (pending_rewatch sent evs o); try done; [lia|]. intros y Hy. left. exists y. split; [by apply Hsub|done].
Qed.

(** *** The queue grows by one event *)

Lemma grow_queue_Some fuel : forall capacity needed c,
  grow_queue fuel capacity needed = Some c -> 0 <= capacity <= UINT64_MAX -> needed <= c <= UINT64_MAX.
Proof.
  induction fuel as [|fuel IH]; intros capacity needed c; cbn [grow_queue]; [done|].
  destruct (Z.ltb_spec capacity needed); [|intros [= <-]; lia].
  destruct (Z.ltb_spec (UINT64_MAX / 2) capacity) as [|Hc]; [done|]. intros Hg Hr. apply IH in Hg; [done|].
  unfold UINT64_MAX in *. div_lia.
Qed.

(** The fuel never runs out: more of it changes nothing. *)
Lemma grow_queue_enough fuel k : forall capacity needed,
  0 < capacity -> UINT64_MAX < capacity * 2 ^ Z.of_nat fuel ->
  grow_queue (S fuel + k) capacity needed = grow_queue (S fuel) capacity needed.
Proof.
  induction fuel as [|fuel IH]; intros capacity needed Hp Hc; cbn [grow_queue Nat.add].
  - change (2 ^ Z.of_nat 0) with 1 in Hc. destruct (capacity <? needed); [|done].
    destruct (Z.ltb_spec (UINT64_MAX / 2) capacity); [done|]. unfold UINT64_MAX in *. div_lia.
  - destruct (capacity <? needed); [|done]. destruct (UINT64_MAX / 2 <? capacity); [done|].
    apply (IH (capacity * 2)); [lia|]. rewrite Nat2Z.inj_succ, Z.pow_succ_r in Hc by lia. lia.
Qed.

Section Deliver.
Context {W : Type} (provider : @hl_linux_inotify_provider_ops W) (alloc : W -> bool * W).

(** What the operations below leave alone. *)
Definition frame (o o' : inotify_object) : Prop :=
  next_wd o' = next_wd o /\ nonblocking o' = nonblocking o /\ provider_context o' = provider_context o /\
  watch_capacity o' = watch_capacity o.

Lemma queue_event_cases d m c name o w s o' w' :
  lengthZ name < 2 ^ 31 -> queue_size o <= queue_capacity o <= UINT64_MAX ->
  queue_event alloc d m c name o w = (s, o', w') ->
  (is_ok s = false /\ o' = o) \/
  (is_ok s = true /\ exists capacity, let q := queue o ++ record_bytes d m c name in
     o' = set_queue q capacity o /\ lengthZ q <= capacity <= UINT64_MAX).
Proof.
  intros Hn Hr. unfold queue_event, queue_size in *.
  pose proof (lengthZ_nonneg name). pose proof (padded_size_range (lengthZ name)).
  assert (Hs : lengthZ (record_bytes d m c name) = 16 + padded_size (lengthZ name)).
  { destruct (record_bytes_event d m c name) as [-> _]; [lia|]. rewrite lengthZ_event_bytes. unfold event_size. cbn.
    rewrite lengthZ_padded_name; lia. }
  rewrite u64_small by lia. pose proof (lengthZ_nonneg (queue o)). change (2 ^ 32) with 4294967296 in *.
  destruct (Z.ltb_spec (UINT64_MAX - lengthZ (queue o)) (16 + padded_size (lengthZ name))) as [|Hv];
    [intros [= <- <- <-]; by left|].
  destruct (Z.ltb_spec (queue_capacity o) (lengthZ (queue o) + (16 + padded_size (lengthZ name)))) as [Hc|Hc].
  - destruct (grow_queue 65 _ _) as [capacity|] eqn:Hg; [|intros [= <- <- <-]; by left].
    destruct (alloc w) as [[|] w1]; intros [= <- <- <-]; [right|by left].
    split; [done|]. exists capacity. split; [done|]. rewrite lengthZ_app, Hs. apply grow_queue_Some in Hg; [done|].
    destruct (queue_capacity o =? 0); unfold UINT64_MAX in *; lia.
  - intros [= <- <- <-]. right. split; [done|]. eexists. split; [done|]. rewrite lengthZ_app, Hs. lia.
Qed.

(** One event more, for a live watch or for none; the watch it ends, if any,
    is gone afterwards. *)
Lemma pending_snoc sent evs o d m c name capacity o2 :
  pending sent evs o -> lengthZ name < 2 ^ 31 ->
  (d = -1 \/ exists x, In x (watches o) /\ wd x = d) ->
  let q := queue o ++ record_bytes d m c name in
  lengthZ q <= capacity <= UINT64_MAX -> queue o2 = q -> queue_capacity o2 = capacity -> next_wd o2 = next_wd o ->
  watches_ok o2 ->
  (forall y, In y (watches o2) -> In y (watches o) /\ (has_flag m HL_LINUX_IN_IGNORED = true -> wd y <> d)) ->
  pending sent (evs ++ [mk_event d m c (padded_name name)]) o2.
Proof.
  intros [Hq Hf Hw [Hd Hl Hi] Hr] Hn Hlive q Hcap Eq Ec En Ho2 Hsub.
  destruct (record_bytes_event d m c name) as [Hrec Hfit]; [lia|].
  set (e := mk_event d m c (padded_name name)) in *.
  assert (Hrange : e_wd e = -1 \/ 0 < e_wd e < next_wd o).
  { destruct Hlive as [Hm|(x & Hx & <-)]; [by left|right]. pose proof (wo_each _ Hw) as He.
    rewrite Forall_forall in He. by apply He. }
  split; [| | done | | by unfold queue_size; rewrite Eq, Ec].
  - rewrite Eq. subst q. rewrite queue_bytes_app, Hq, Hrec. unfold queue_bytes at 3. simpl. by rewrite app_nil_r.
  - rewrite app_assoc. apply Forall_app. split; [done|by constructor; [|constructor]].
  - rewrite app_assoc. split; [rewrite En; apply Forall_app; split; [done|by constructor; [|constructor]]| |].
    + intros y a Hy Ha Hend. destruct (Hsub y Hy) as [Hyo Hyd]. apply in_app_or in Ha as [Ha|[<-|[]]]; [by apply Hl|].
      intros Heq. by apply Hyd.
    + apply ignored_last_snoc; [done|]. intros a Ha Hp Hend Heq.
      destruct Hlive as [Hm|(x & Hx & Hxd)]; [subst e d; cbn in Heq; lia|]. apply (Hl x a Hx Ha Hend). by rewrite Hxd.
Qed.

Lemma pending_event sent evs o d m c name w s o' w' :
  pending sent evs o -> lengthZ name < 2 ^ 31 ->
  (d = -1 \/ (exists x, In x (watches o) /\ wd x = d) /\ has_flag m HL_LINUX_IN_IGNORED = false) ->
  queue_event alloc d m c name o w = (s, o', w') ->
  exists more, pending sent (evs ++ more) o' /\ frame o o' /\ watches o' = watches o.
Proof.
  intros Hp Hn Hd He. destruct (queue_event_cases _ _ _ _ _ _ _ _ _ Hn (pe_room _ _ _ Hp) He) as [(_ & ->)|(_ & cap & -> & Hc)].
  { exists []. rewrite app_nil_r. done. }
  eexists. split; [|done]. apply (pending_snoc sent evs o d m c name cap); try done; [tauto| |].
  - by destruct (pe_watches _ _ _ Hp).
  - intros y Hy. split; [done|]. intros Hi. destruct Hd as [->|[_ Hno]]; [|by rewrite Hi in Hno].
    pose proof (wo_each _ (pe_watches _ _ _ Hp)) as Hall. rewrite Forall_forall in Hall. destruct (Hall y Hy). lia.
Qed.

(** The last event of a watch, and the watch with it. *)
Lemma pending_last sent evs o i x m c name w s o' w' :
  pending sent evs o -> lengthZ name < 2 ^ 31 -> lookupZ (watches o) i = Some x ->
  queue_event alloc (wd x) m c name o w = (s, o', w') ->
  exists more, pending sent (evs ++ more) (drop_watch i o') /\ frame o (drop_watch i o').
Proof.
  intros Hp Hn Hi He. destruct (queue_event_cases _ _ _ _ _ _ _ _ _ Hn (pe_room _ _ _ Hp) He) as [(_ & ->)|(_ & cap & -> & Hc)].
  { exists []. rewrite app_nil_r. split; [by apply (pending_drop _ _ _ x)|].
    destruct (drop_watch_fields i o) as (_ & _ & ? & ? & ? & ?). done. }
  set (o' := set_queue _ cap o) in *.
  assert (Ho' : watches_ok o') by (by destruct (pe_watches _ _ _ Hp)).
  destruct (watches_ok_drop i x o' Ho' Hi) as [Ho2 Hsub].
  destruct (drop_watch_fields i o') as (Eq & Ec & En & Eb & Ew & Ex).
  eexists. split; [|by unfold frame; rewrite En, Eb, Ew, Ex].
  apply (pending_snoc sent evs o (wd x) m c name cap); try done.
  - right. exists x. split; [by eapply lookupZ_elem|done].
  - intros y Hy. destruct (Hsub y Hy). done.
Qed.

Lemma frame_trans o1 o2 o3 : frame o1 o2 -> frame o2 o3 -> frame o1 o3.
Proof. intros (? & ? & ? & ?) (? & ? & ? & ?). repeat split; congruence. Qed.

(** The provider's promise: names are those of directory entries. *)
Definition names_fit (events : list hl_linux_inotify_provider_event) : Prop :=
  Forall (fun e => lengthZ (ev_name e) < 2 ^ 31) events.

Lemma no_name_fits : lengthZ ([] : list Z) < 2 ^ 31.
Proof. reflexivity. Qed.

Lemma deliver_pending sent events : forall evs o w s o' w',
  names_fit events -> pending sent evs o -> deliver provider alloc events o w = (s, o', w') ->
  exists more, pending sent (evs ++ more) o' /\ frame o o'.
Proof.
  induction events as [|e events IH]; intros evs o w s o' w' Hn Hp; cbn [deliver].
  { intros [= <- <- <-]. exists []. by rewrite app_nil_r. }
  apply Forall_cons_1 in Hn as [Hn Hns].
  assert (Hgo : forall more o1 w1, pending sent (evs ++ more) o1 -> frame o o1 ->
    deliver provider alloc events o1 w1 = (s, o', w') -> exists more, pending sent (evs ++ more) o' /\ frame o o').
  { intros more o1 w1 Hp1 Hf1 Hd. destruct (IH _ _ _ _ _ _ Hns Hp1 Hd) as (more2 & Hp2 & Hf2).
    exists (more ++ more2). rewrite app_assoc. split; [done|]. by eapply frame_trans. }
  assert (Hskip : deliver provider alloc events o w = (s, o', w') -> exists more, pending sent (evs ++ more) o' /\ frame o o').
  { apply (Hgo []); [by rewrite app_nil_r|done]. }
  destruct (watch_token o (ev_token e)) as [[i x]|] eqn:Ht.
  - apply find_token in Ht as (Hi & Hx & _ & _); [|by eapply pe_watches].
    destruct (unwanted x (ev_mask e)); [exact Hskip|].
    destruct (queue_event alloc (wd x) (ev_mask e) _ _ o w) as [[s1 o1] w1] eqn:Hq1.
    destruct (has_flag (ev_mask e) HL_LINUX_IN_IGNORED) eqn:Hig.
    + destruct (is_ok s1) eqn:Hs1; cbn [negb].
      * destruct (pending_last _ _ _ _ _ _ _ _ _ _ _ _ Hp Hn Hi Hq1) as (more & Hp1 & Hf1). by apply (Hgo more).
      * intros [= <- <- <-].
        destruct (queue_event_cases _ _ _ _ _ _ _ _ _ Hn (pe_room _ _ _ Hp) Hq1) as [[_ ->]|[Hok _]]; [|congruence].
        exists []. by rewrite app_nil_r.
    + destruct (pending_event sent evs o _ _ _ _ _ _ _ _ Hp Hn ltac:(right; eauto) Hq1) as (more & Hp1 & Hf1 & Hw1).
      destruct (is_ok s1); cbn [negb]; [|intros [= <- <- <-]; by exists more].
      destruct (has_flag (mask x) HL_LINUX_IN_ONESHOT); [|by apply (Hgo more)].
      destruct (p_remove provider _ _ w1) as [s2 w2].
      destruct (queue_event alloc (wd x) HL_LINUX_IN_IGNORED 0 [] o1 w2) as [[s3 o3] w3] eqn:Hq3.
      rewrite <- Hw1 in Hi.
      destruct (is_ok s3) eqn:Hs3.
      * destruct (pending_last _ _ _ _ _ _ _ [] _ _ _ _ Hp1 no_name_fits Hi Hq3) as (more3 & Hp3 & Hf3).
        rewrite <- app_assoc in Hp3. apply (Hgo (more ++ more3)); [done|]. by eapply frame_trans.
      * intros [= <- <- <-].
        destruct (queue_event_cases _ _ _ [] _ _ _ _ _ no_name_fits (pe_room _ _ _ Hp1) Hq3) as [[_ ->]|[Hok _]];
          [|congruence]. by exists more.
  - destruct (has_flag (ev_mask e) HL_LINUX_IN_Q_OVERFLOW); [|exact Hskip].
    destruct (queue_event alloc (-1) (ev_mask e) _ _ o w) as [[s1 o1] w1] eqn:Hq1.
    destruct (pending_event sent evs o _ _ _ _ _ _ _ _ Hp Hn ltac:(by left) Hq1) as (more & Hp1 & Hf1 & _).
    destruct (is_ok s1); [by apply (Hgo more)|]. intros [= <- <- <-]. by exists more.
Qed.

Context (Hnames : forall c n w s events w', p_drain provider c n w = (s, events, w') -> names_fit events).

Lemma pending_epoch sent evs e o : pending sent evs o -> pending sent evs (set_epoch e o).
Proof. intros [? ? [] [] ?]. by split. Qed.

Lemma pump_pending sent evs o w s o' w' :
  pending sent evs o -> inotify_pump provider alloc o w = (s, o', w') ->
  exists more, pending sent (evs ++ more) o' /\ frame o o'.
Proof.
  intros Hp. unfold inotify_pump, mutation_begin. set (o0 := set_epoch _ o).
  assert (Hp0 : pending sent evs o0) by (by apply pending_epoch).
  destruct (p_drain provider (provider_context o0) 32 w) as [[s1 events] w1] eqn:Hd.
  assert (Hid : exists more, pending sent (evs ++ more) (mutation_end o0) /\ frame o (mutation_end o0)).
  { exists []. rewrite app_nil_r. split; [by apply pending_epoch|done]. }
  destruct s1; try (intros [= <- <- <-]; exact Hid).
  destruct (deliver provider alloc events o0 w1) as [[s2 o2] w2] eqn:Hdel. intros [= <- <- <-].
  destruct (deliver_pending sent events evs o0 w1 s2 o2 w2) as (more & Hp2 & Hf2); [by eapply Hnames|done|done|].
  exists more. split; [by apply pending_epoch|exact Hf2].
Qed.

Lemma read_wait_pending fuel : forall sent evs o w r o' w',
  pending sent evs o -> read_wait provider alloc fuel o w = Some (r, o', w') ->
  exists more, pending sent (evs ++ more) o' /\ frame o o'.
Proof.
  induction fuel as [|fuel IH]; intros sent evs o w r o' w' Hp; cbn [read_wait];
    (destruct ((queue_size o =? 0) && negb (nonblocking o));
     [|intros [= <- <- <-]; exists []; by rewrite app_nil_r]); [done|].
  destruct (p_wait provider (provider_context o) w) as [s w1].
  destruct (is_ok s); cbn [negb]; [|intros [= <- <- <-]; exists []; by rewrite app_nil_r].
  destruct (inotify_pump provider alloc o w1) as [[s2 o2] w2] eqn:Hpump.
  destruct (pump_pending _ _ _ _ _ _ _ Hp Hpump) as (more & Hp2 & Hf2).
  destruct (is_ok s2); cbn [negb]; [|intros [= <- <- <-]; by exists more].
  intros Hr. destruct (IH _ _ _ _ _ _ _ Hp2 Hr) as (more3 & Hp3 & Hf3).
  exists (more ++ more3). rewrite app_assoc. split; [done|]. by eapply frame_trans.
Qed.

(** ** Reading *)

Lemma inotify_error_negative s : is_ok s = false -> inotify_error s < 0.
Proof. by destruct s. Qed.

Lemma read_wait_error fuel : forall o w e o' w',
  read_wait provider alloc fuel o w = Some (inl e, o', w') -> e < 0.
Proof.
  induction fuel as [|fuel IH]; intros o w e o' w'; cbn [read_wait];
    (destruct ((queue_size o =? 0) && negb (nonblocking o)); [|done]); [done|].
  destruct (p_wait provider (provider_context o) w) as [s w1].
  destruct (is_ok s) eqn:Hs; cbn [negb]; [|intros [= <- <- <-]; by apply inotify_error_negative].
  destruct (inotify_pump provider alloc o w1) as [[s2 o2] w2].
  destruct (is_ok s2) eqn:Hs2; cbn [negb]; [apply IH|intros [= <- <- <-]; by apply inotify_error_negative].
Qed.

Lemma pending_read sent l got rest o o' :
  pending sent l o -> l = got ++ rest -> queue o' = queue_bytes rest -> watches o' = watches o -> frame o o' ->
  queue_capacity o' = queue_capacity o -> pending (sent ++ got) rest o'.
Proof.
  intros [Hq Hf [Hn He Hd Hpa Hroom] [Hw Hl Hi] Hr] -> Eq Ew (En & _ & _ & Ecap) Ec.
  split; try done.
  - by rewrite <- app_assoc.
  - split; unfold watch_count in *; by rewrite ?En, ?Ew, ?Ecap.
  - rewrite <- app_assoc. split; rewrite ?En, ?Ew; done.
  - rewrite Ec. unfold queue_size in *. rewrite Eq. rewrite Hq, queue_bytes_app, lengthZ_app in Hr.
    pose proof (lengthZ_nonneg (queue_bytes got)). lia.
Qed.

(** A read waits, then hands out the longest run of whole events; when it
    fails nothing leaves the queue. *)
Lemma read_pending fuel size sent evs o w r bytes o' w' :
  pending sent evs o -> inotify_read provider alloc fuel size o w = Some (r, bytes, o', w') ->
  exists more, let l := evs ++ more in let got := whole_events size l in
    (r < 0 /\ bytes = [] /\ pending sent l o' /\ frame o o') \/
    (0 < r /\ r = lengthZ bytes /\ bytes = queue_bytes got /\ pending (sent ++ got) (drop (length got) l) o' /\ frame o o').
Proof.
  intros Hp. unfold inotify_read.
  destruct (inotify_pump provider alloc o w) as [[s1 o1] w1] eqn:Hpump.
  destruct (pump_pending _ _ _ _ _ _ _ Hp Hpump) as (more1 & Hp1 & Hf1).
  destruct (is_ok s1) eqn:Hs1; cbn [negb]; [|intros [= <- <- <- <-]; exists more1; left;
    split; [by apply inotify_error_negative|done]].
  destruct (read_wait provider alloc fuel o1 w1) as [[[res o2] w2]|] eqn:Hw; [|done].
  destruct (read_wait_pending _ _ _ _ _ _ _ _ Hp1 Hw) as (more2 & Hp2 & Hf2).
  pose proof (frame_trans _ _ _ Hf1 Hf2) as Hf. rewrite <- app_assoc in Hp2.
  destruct res as [e|[]].
  { intros [= <- <- <- <-]. exists (more1 ++ more2). left. split; [|done]. by eapply read_wait_error. }
  pose proof (pe_fits _ _ _ Hp2) as [_ Hfit]%Forall_app.
  destruct (take_records_exact size o2 (evs ++ more1 ++ more2) (pe_queue _ _ _ Hp2) Hfit)
    as (o3 & Ht & Eq & Ew & Ecap & En & Eb & Ec & Ex).
  cbv zeta in Ht. rewrite Ht. intros [= <- <- <- <-]. exists (more1 ++ more2).
  pose proof (whole_events_prefix size (evs ++ more1 ++ more2)) as Hpre.
  set (l := evs ++ more1 ++ more2) in *. set (got := whole_events size l) in *.
  assert (Hf3 : frame o2 o3) by done.
  assert (Hp3 : pending (sent ++ got) (drop (length got) l) o3)
    by (by apply (pending_read sent l got _ o2 o3 Hp2)).
  cbv zeta. fold l got. pose proof (frame_trans _ _ _ Hf Hf3) as Hff.
  destruct (Z.eqb_spec (lengthZ got) 0) as [Hg|Hg].
  - left. assert (Hnil : got = []) by (by destruct got). rewrite Hnil, app_nil_r in Hp3.
    rewrite Hnil. split; [by destruct (lengthZ l =? 0)|]. done.
  - right. destruct (Z.eqb_spec (lengthZ l) 0) as [E|_].
    { destruct l; [subst got; done|]. rewrite lengthZ_cons in E. pose proof (lengthZ_nonneg l). lia. }
    split; [|done]. pose proof (queue_bytes_count got). pose proof (lengthZ_nonneg got). lia.
Qed.

(** ** Watches come and go *)

Lemma watches_ok_modify o i x m :
  watches_ok o -> lookupZ (watches o) i = Some x -> 0 <= m < 2 ^ 32 ->
  watches_ok (set_watches (insertZ (watches o) i (with_mask m x)) (watch_capacity o) o).
Proof.
  intros [Hn He Hd Hp Hr] Hi Hm. split; cbn [watches set_watches next_wd]; try done.
  - pose proof (lookupZ_elem _ _ _ Hi) as Hx. rewrite Forall_forall in *. intros y [k Hk]%elem_lookupZ.
    pose proof (lookupZ_Some_range _ _ _ Hi). rewrite lookupZ_insertZ in Hk by done.
    destruct (decide (i = k)); [injection Hk as <-; destruct (He x Hx) as (? & ? & _ & ?); done|]. apply He. by eapply lookupZ_elem.
  - by rewrite (map_insertZ wd _ _ x).
  - by rewrite (map_insertZ path _ _ x).
  - unfold watch_count in *. cbn [watches set_watches]. by rewrite lengthZ_insertZ.
Qed.

(** The capacity the array has when one more entry is stored. *)
Lemma room_for_one o capacity :
  watches_ok o ->
  capacity = (if watch_count o =? watch_capacity o
              then if watch_capacity o =? 0 then 8 else u32 (watch_capacity o * 2) else watch_capacity o) ->
  watch_count o < capacity < 2 ^ 32.
Proof.
  intros Ho ->. pose proof (watches_few o Ho). pose proof (wo_room o Ho). pose proof (wo_next o Ho) as Hn.
  unfold INT32_MAX in Hn. pose proof (lengthZ_nonneg (watches o)). unfold watch_count in *.
  destruct (Z.eqb_spec (lengthZ (watches o)) (watch_capacity o)); [|lia].
  destruct (Z.eqb_spec (watch_capacity o) 0); [lia|]. rewrite u32_small; lia.
Qed.

Lemma map_snoc_NoDup {A B} (f : A -> B) l x :
  NoDup (map f l) -> (forall y, In y l -> f y <> f x) -> NoDup (map f (l ++ [x])).
Proof.
  intros Hl Hx. rewrite map_app. simpl. rewrite <- Permutation_cons_append. constructor; [|done].
  intros (y & Hy & Hin)%list_elem_of_In%in_map_iff. by apply (Hx y).
Qed.

Lemma watches_ok_insert o p m :
  watches_ok o -> next_wd o <> INT32_MAX -> watch_count o < watch_capacity o -> 0 <= m < 2 ^ 32 -> p <> [] ->
  (forall y, In y (watches o) -> same_path p y = false) ->
  watches_ok (set_watches (watches o ++ [mk_inotify_watch (next_wd o) m (next_wd o) p]) (watch_capacity o)
    (set_next_wd (next_wd o + 1) o)).
Proof.
  intros [Hn He Hd Hp Hr] Hmax Hroom Hm Hpath Hnew. split; cbn [watches set_watches next_wd set_next_wd watch_capacity].
  - lia.
  - apply Forall_app. split; [|constructor; [|constructor]].
    2: { unfold watch_ok. cbn [wd token mask path]. split; [lia|done]. }
    eapply Forall_impl; [|exact He]. unfold watch_ok. intros y (? & ?). split; [lia|done].
  - apply map_snoc_NoDup; [done|]. intros y Hin Hy. rewrite Forall_forall in He. destruct (He y Hin). cbn in Hy. lia.
  - apply map_snoc_NoDup; [done|]. intros y Hin Hy. specialize (Hnew y Hin).
    unfold same_path in Hnew. by apply bool_decide_eq_false in Hnew.
  - unfold watch_count in *. cbn [watches set_watches]. rewrite lengthZ_app. change (lengthZ [_]) with 1. lia.
Qed.

Lemma watches_ok_with o n capacity :
  watches_ok o -> next_wd o <= n <= INT32_MAX -> watch_count o <= capacity < 2 ^ 32 ->
  watches_ok (set_next_wd n (set_watches (watches o) capacity o)).
Proof.
  intros [Hn He Hd Hp Hr] Hle Hc. split; cbn [watches set_watches next_wd set_next_wd]; try done; [lia|].
  eapply Forall_impl; [|exact He]. unfold watch_ok. intros y (? & ?). split; [lia|done].
Qed.

(** What adding a watch does: on success the descriptor is that of the path's
    watch - a new one below every later number, if there was none. *)
Definition added (sent evs : list inotify_event) (p : list Z) (o : inotify_object) (r : Z) (o' : inotify_object)
  : Prop :=
  pending sent evs o' /\ next_wd o <= next_wd o' /\ nonblocking o' = nonblocking o /\
  (0 < r -> exists x, In x (watches o') /\ wd x = r /\ path x = p /\
    ((exists y, In y (watches o) /\ wd y = r) \/ next_wd o <= r)).

Lemma added_refused sent evs p o o' r :
  pending sent evs o' -> next_wd o <= next_wd o' -> nonblocking o' = nonblocking o -> r <= 0 -> added sent evs p o r o'.
Proof. intros. split; [done|]. split; [done|]. split; [done|lia]. Qed.

Lemma inotify_error_nonpos s : inotify_error s <= 0.
Proof. by destruct s. Qed.

(** Masks stay within 32 bits. *)
Lemma land_range m k : 0 <= m < 2 ^ 32 -> 0 <= Z.land m k < 2 ^ 32.
Proof.
  intros Hm. replace m with (Z.land m (Z.ones 32)) by (rewrite Z.land_ones by lia; by apply Z.mod_small).
  rewrite (Z.land_comm m), <- Z.land_assoc, Z.land_comm, Z.land_ones by lia. apply Z.mod_pos_bound. lia.
Qed.

Lemma lor_range a b : 0 <= a < 2 ^ 32 -> 0 <= b < 2 ^ 32 -> 0 <= Z.lor a b < 2 ^ 32.
Proof.
  intros Ha Hb. replace a with (a mod 2 ^ 32) by (by apply Z.mod_small). replace b with (b mod 2 ^ 32) by (by apply Z.mod_small).
  rewrite <- !Z.land_ones, <- Z.land_lor_distr_l, Z.land_ones by lia. apply Z.mod_pos_bound. lia.
Qed.

Lemma new_mask_range x m :
  0 <= mask x < 2 ^ 32 -> 0 <= m < 2 ^ 32 ->
  0 <= (if has_flag m HL_LINUX_IN_MASK_ADD
        then Z.lor (mask x) (Z.land m (Z.lnot HL_LINUX_IN_MASK_ADD))
        else Z.land m (Z.lnot HL_LINUX_IN_MASK_CREATE)) < 2 ^ 32.
Proof. intros. destruct (has_flag m HL_LINUX_IN_MASK_ADD); [apply lor_range; [done|]|]; by apply land_range. Qed.

(** No bit outside 32-bit options gets past the first test. *)
Lemma option_bits_range m k : 0 <= k < 2 ^ 32 -> Z.land m (Z.lnot k) = 0 -> 0 <= m < 2 ^ 32.
Proof.
  intros Hk Hz. replace m with (Z.land k m); [by apply land_range|].
  rewrite <- Z.ldiff_land in Hz. apply Z.bits_inj'. intros n Hn.
  rewrite Z.land_spec. assert (Hb : Z.testbit (Z.ldiff m k) n = false) by (by rewrite Hz, Z.bits_0).
  rewrite Z.ldiff_spec in Hb. by destruct (Z.testbit m n), (Z.testbit k n).
Qed.

Lemma add_existing_added sent evs p m i x o w r o' w' :
  pending sent evs o -> lookupZ (watches o) i = Some x -> path x = p -> 0 <= m < 2 ^ 32 ->
  add_existing provider m i x o w = (r, o', w') -> added sent evs p o r o'.
Proof.
  intros Hp Hi Hpath Hm. pose proof (pe_watches _ _ _ Hp) as Ho. pose proof (wo_next o Ho) as Hn. unfold add_existing.
  pose proof (pending_epoch _ _ (u64 (mutation_epoch o + 1)) _ Hp) as Hpe.
  destruct (has_flag m HL_LINUX_IN_MASK_CREATE); [intros [= <- <- <-]; by apply added_refused|].
  cbv zeta. set (m' := if has_flag m HL_LINUX_IN_MASK_ADD then _ else _).
  destruct (p_modify provider (provider_context o) (token x) m' w) as [s w1].
  destruct (is_ok s); intros [= <- <- <-]; [|apply added_refused; try done; apply inotify_error_nonpos].
  pose proof (lookupZ_elem _ _ _ Hi) as Hin. pose proof (wo_each o Ho) as Hall. rewrite Forall_forall in Hall.
  destruct (Hall x Hin) as [Hr _]. unfold INT32_MAX in Hn. rewrite u32_small by lia.
  pose proof (lookupZ_Some_range _ _ _ Hi) as Hir. split; [|split; [done|split; [done|]]].
  - apply pending_epoch. apply (pending_rewatch sent evs o); try done.
    { apply watches_ok_modify; [done|done|]. by apply new_mask_range; [apply Hall|]. }
    intros y [k Hk]%elem_lookupZ. left. cbn in Hk. rewrite lookupZ_insertZ in Hk by done. destruct (decide (i = k)).
    { injection Hk as <-. by exists x. }
    exists y. split; [by eapply lookupZ_elem|done].
  - intros _. exists (with_mask m' x). split; [|split; [done|split; [done|left; by exists x]]].
    eapply (lookupZ_elem _ i). by apply lookupZ_insertZ_eq.
Qed.

Lemma add_new_added sent evs p m o w r o' w' :
  pending sent evs o -> (forall y, In y (watches o) -> same_path p y = false) -> 0 <= m < 2 ^ 32 -> p <> [] ->
  add_new provider alloc p m o w = (r, o', w') -> added sent evs p o r o'.
Proof.
  intros Hp Hnew Hm Hpath. pose proof (pe_watches _ _ _ Hp) as Ho. pose proof (wo_next o Ho) as Hn. unfold add_new.
  destruct (if watch_count o =? watch_capacity o then _ else _) as [[ok cap] w1] eqn:Hcap.
  assert (Hroom : watch_count o < cap < 2 ^ 32).
  { apply room_for_one; [done|]. destruct (watch_count o =? watch_capacity o); [destruct (alloc w)|]; by injection Hcap. }
  destruct ok; cbn [negb]; [|intros [= <- <- <-]; by apply added_refused; [apply pending_epoch| | |]].
  assert (Hp1 : forall n, next_wd o <= n <= INT32_MAX ->
    pending sent evs (set_next_wd n (set_watches (watches o) cap o))).
  { intros n Hle. apply (pending_rewatch sent evs o); try done; [cbn; lia|apply watches_ok_with; try done; lia|].
    intros y Hy. left. by exists y. }
  pose proof (Hp1 (next_wd o) ltac:(lia)) as Hp0. cbv zeta. set (o1 := set_watches (watches o) cap o) in *.
  change (pending sent evs o1) in Hp0. destruct (alloc w1) as [ok2 w2].
  destruct ok2; cbn [negb]; [|intros [= <- <- <-]; by apply added_refused; [apply pending_epoch| | |]].
  destruct ((next_wd o1 <=? 0) || (next_wd o1 =? INT32_MAX)) eqn:Hlim;
    [intros [= <- <- <-]; by apply added_refused; [apply pending_epoch| | |]|].
  apply orb_false_elim in Hlim as [_ Hlim%Z.eqb_neq]. change (next_wd o1) with (next_wd o) in *.
  assert (Htok : u64 (u32 (next_wd o + 1) - 1) = next_wd o).
  { unfold INT32_MAX in *. rewrite u32_small, u64_small by lia. lia. }
  rewrite Htok. cbn [token mask wd]. destruct (p_add provider _ p (next_wd o) _ w2) as [s w3].
  destruct (is_ok s); intros [= <- <- <-].
  2: { apply added_refused; [apply pending_epoch, Hp1; lia|cbn; lia|done|apply inotify_error_nonpos]. }
  split; [|split; [cbn; lia|split; [done|]]].
  - apply pending_epoch. apply (pending_rewatch sent evs o1); try done; [cbn; lia| |].
    { apply (watches_ok_insert o1); [by eapply pe_watches|done|exact (proj1 Hroom)|by apply land_range|done|done]. }
    intros y Hy. cbn in Hy. apply in_app_or in Hy as [Hy|[<-|[]]]; [left; by exists y|right; cbn; lia].
  - intros _. eexists. split; [cbn; apply in_or_app; right; by left|]. unfold INT32_MAX in *.
    rewrite u32_small by lia. split; [done|]. split; [done|right; lia].
Qed.

Lemma add_pending sent evs pinned ours p m o w r o' w' :
  pending sent evs o -> hl_linux_inotify_add provider alloc pinned ours p m o w = (r, o', w') ->
  added sent evs p o r o'.
Proof.
  intros Hp. unfold hl_linux_inotify_add.
  destruct ((lengthZ p =? 0) || _ || _) eqn:Hbad; [intros [= <- <- <-]; by apply added_refused|].
  bool_props. assert (Hpath : p <> []) by (by destruct p).
  assert (Hm : 0 <= m < 2 ^ 32) by (by eapply option_bits_range; [|eassumption]).
  destruct (is_ok pinned), ours; cbn [negb]; try (intros [= <- <- <-]; by apply added_refused).
  apply (pending_epoch _ _ (u64 (mutation_epoch o + 1))) in Hp. fold (mutation_begin o) in Hp. cbv zeta.
  destruct (find_watch (same_path p) (mutation_begin o)) as [[i x]|] eqn:Hf.
  - apply find_watch_Some in Hf as [Hi Hsame%bool_decide_eq_true]. by apply (add_existing_added _ _ _ _ i x (mutation_begin o)).
  - apply (add_new_added _ _ _ _ (mutation_begin o)); try done. by apply find_watch_None.
Qed.

Lemma remove_pending sent evs pinned ours d o w r o' w' :
  pending sent evs o -> hl_linux_inotify_remove provider alloc pinned ours d o w = (r, o', w') ->
  exists more, pending sent (evs ++ more) o' /\ frame o o'.
Proof.
  intros Hp. unfold hl_linux_inotify_remove.
  assert (Hid : forall e, pending sent evs (set_epoch e o) /\ frame o (set_epoch e o)).
  { intros e. split; [by apply pending_epoch|done]. }
  destruct (is_ok pinned), ours; cbn [negb]; try (intros [= <- <- <-]; exists []; rewrite app_nil_r; done).
  cbv zeta. destruct (watch_id (mutation_begin o) d) as [[i x]|] eqn:Hf;
    [|intros [= <- <- <-]; exists []; rewrite app_nil_r; apply (Hid _)].
  destruct (p_remove provider _ (token x) w) as [s w1].
  destruct (is_ok s || is_not_found s); [|intros [= <- <- <-]; exists []; rewrite app_nil_r; apply (Hid _)].
  destruct (queue_event alloc d HL_LINUX_IN_IGNORED 0 [] (mutation_begin o) w1) as [[s2 o2] w2] eqn:Hq.
  intros [= <- <- <-]. apply find_watch_Some in Hf as [Hi <-%Z.eqb_eq].
  destruct (pending_last sent evs (mutation_begin o) i x _ _ [] _ _ _ _ (proj1 (Hid _)) no_name_fits Hi Hq) as (more & Hp2 & Hf2).
  exists more. split; [by apply pending_epoch|exact Hf2].
Qed.

Lemma ready_pending sent evs i o w r o' w' :
  pending sent evs o -> inotify_ready provider alloc i o w = (r, o', w') ->
  exists more, pending sent (evs ++ more) o' /\ frame o o'.
Proof.
  intros Hp. unfold inotify_ready.
  assert (Hid : exists more, pending sent (evs ++ more) o /\ frame o o) by (exists []; by rewrite app_nil_r).
  destruct (Z.land i HL_LINUX_READY_READ =? 0); [by intros [= <- <- <-]|].
  destruct (if queue_size o =? 0 then _ else _) as [o1 w1] eqn:Hpump.
  assert (Hp1 : exists more, pending sent (evs ++ more) o1 /\ frame o o1).
  { destruct (queue_size o =? 0); [|by injection Hpump as <- <-].
    destruct (inotify_pump provider alloc o w) as [[s o2] w2] eqn:Hq. injection Hpump as <- <-.
    exact (pump_pending _ _ _ _ _ _ _ Hp Hq). }
  destruct (negb (queue_size o1 =? 0)); [by intros [= <- <- <-]|].
  destruct (p_readiness provider _ w1) as [ready w2]. by intros [= <- <- <-].
Qed.

Lemma export_pending sent evs pinned ours capacity o w s n b o' w' :
  pending sent evs o -> hl_linux_inotify_export provider alloc pinned ours capacity o w = (s, n, b, o', w') ->
  exists more, pending sent (evs ++ more) o' /\ frame o o'.
Proof.
  intros Hp. unfold hl_linux_inotify_export.
  destruct (is_ok pinned), ours; cbn [negb]; try (intros [= <- <- <- <- <-]; exists []; by rewrite app_nil_r).
  destruct (inotify_pump provider alloc o w) as [[s1 o1] w1] eqn:Hq.
  pose proof (pump_pending _ _ _ _ _ _ _ Hp Hq) as Hp1.
  repeat case_match_goal; by intros [= <- <- <- <- <-].
Qed.

(** ** Sessions: the calls a guest makes on one object *)

Inductive inotify_call :=
| AddWatch (pinned : hl_status) (ours : bool) (p : list Z) (m : Z)
| RemoveWatch (pinned : hl_status) (ours : bool) (d : Z)
| ReadEvents (fuel : nat) (size : Z)
| Poll (interests : Z)
| Export (pinned : hl_status) (ours : bool) (capacity : option Z).

(** The object, the world, and every byte the guest has read so far. *)
Definition session : Type := inotify_object * W * list Z.

(** [None] is a read which has not returned. *)
Definition run_call (c : inotify_call) (s : session) : option session :=
  let '(o, w, out) := s in
  match c with
  | AddWatch pinned ours p m => let '(_, o, w) := hl_linux_inotify_add provider alloc pinned ours p m o w in Some (o, w, out)
  | RemoveWatch pinned ours d => let '(_, o, w) := hl_linux_inotify_remove provider alloc pinned ours d o w in Some (o, w, out)
  | ReadEvents fuel size =>
      match inotify_read provider alloc fuel size o w with
      | Some (_, bytes, o, w) => Some (o, w, out ++ bytes)
      | None => None
      end
  | Poll interests => let '(_, o, w) := inotify_ready provider alloc interests o w in Some (o, w, out)
  | Export pinned ours capacity =>
      let '(_, _, _, o, w) := hl_linux_inotify_export provider alloc pinned ours capacity o w in Some (o, w, out)
  end.

Fixpoint run_calls (l : list inotify_call) (s : session) : option session :=
  match l with
  | [] => Some s
  | c :: l => match run_call c s with Some s => run_calls l s | None => None end
  end.

Definition session_ok (s : session) : Prop :=
  let '(o, _, out) := s in exists sent evs, out = queue_bytes sent /\ pending sent evs o.

Lemma session_later sent evs out o o' w' :
  out = queue_bytes sent -> (exists more, pending sent (evs ++ more) o' /\ frame o o') -> session_ok (o', w', out).
Proof. intros Ho (more & Hp & _). by exists sent, (evs ++ more). Qed.

Lemma inotify_call_ok c s s' : session_ok s -> run_call c s = Some s' -> session_ok s'.
Proof.
  destruct s as [[o w] out]. intros (sent & evs & Hout & Hp). destruct c; cbn [run_call].
  - destruct (hl_linux_inotify_add _ _ _ _ _ _ o w) as [[r o'] w'] eqn:E. intros [= <-].
    apply (add_pending sent evs) in E as [Hp' _]; [|done]. by exists sent, evs.
  - destruct (hl_linux_inotify_remove _ _ _ _ _ o w) as [[r o'] w'] eqn:E. intros [= <-].
    eapply session_later; [done..|by eapply remove_pending].
  - destruct (inotify_read _ _ _ _ o w) as [[[[r bytes] o'] w']|] eqn:E; [|done]. intros [= <-].
    destruct (read_pending _ _ sent evs _ _ _ _ _ _ Hp E) as (more & [(_ & -> & Hp' & _)|(_ & _ & -> & Hp' & _)]).
    { rewrite app_nil_r. by exists sent, (evs ++ more). }
    eexists _, _. split; [by rewrite Hout, <- queue_bytes_app|exact Hp'].
  - destruct (inotify_ready _ _ _ o w) as [[r o'] w'] eqn:E. intros [= <-].
    eapply session_later; [done..|by eapply ready_pending].
  - destruct (hl_linux_inotify_export _ _ _ _ _ o w) as [[[[s1 n] b] o'] w'] eqn:E. intros [= <-].
    eapply session_later; [done..|by eapply export_pending].
Qed.

Lemma run_calls_ok l : forall s s', session_ok s -> run_calls l s = Some s' -> session_ok s'.
Proof.
  induction l as [|c l IH]; intros s s' Hs; cbn [run_calls]; [by intros [= <-]|].
  destruct (run_call c s) as [s1|] eqn:Hc; [|done]. apply IH. by eapply inotify_call_ok.
Qed.

(** A reader of a nonblocking object never sleeps. *)
Lemma read_wait_nonblocking o w :
  nonblocking o = true -> read_wait provider alloc 0 o w = Some (inr tt, o, w).
Proof. intros Hb. cbn [read_wait]. by rewrite Hb, andb_false_r. Qed.

Lemma read_returns size sent evs o w :
  pending sent evs o -> nonblocking o = true -> inotify_read provider alloc 0 size o w <> None.
Proof.
  intros Hp Hb. unfold inotify_read. destruct (inotify_pump provider alloc o w) as [[s1 o1] w1] eqn:Hpump.
  destruct (pump_pending _ _ _ _ _ _ _ Hp Hpump) as (more & Hp1 & _ & Hb1 & _).
  destruct (is_ok s1); [|done]. cbn [negb]. rewrite read_wait_nonblocking by congruence.
  pose proof (pe_fits _ _ _ Hp1) as [_ Hfit]%Forall_app.
  by destruct (take_records_exact size o1 (evs ++ more) (pe_queue _ _ _ Hp1) Hfit) as (o3 & -> & _).
Qed.
End Deliver.

Lemma fresh_object_ok {W} context flags (w : W) : session_ok (fresh_object context flags, w, []).
Proof.
  exists [], []. split; [done|]. split; [done|constructor| |split; [constructor|done|]|vm_compute; done].
  - split; [cbn; unfold INT32_MAX; lia|constructor|constructor|constructor|vm_compute; done].
  - intros h1 e h2 Heq. by destruct h1.
Qed.
