(* ===== verification/InotifyTheorems.v ===== *)
(** * Properties of the inotify object

    What the guest reads is a sequence of whole events in which every watch
    ends once; and the checkpoint image: what is accepted, and what an export
    gives back. *)

From S2P Require Import Prelude Status Host Inotify InotifyProofs.

(** ** The guest's view *)

(** C7: whatever calls a guest makes on a new inotify object - watches added,
    changed and removed, reads of any size, polls, exports, under failing
    allocations and a provider that answers anything - the bytes it has read are
    whole records and so are those still queued; each record names -1 or a watch
    descriptor that was given out; no record follows the one that says its watch
    is gone, because descriptors are never reused; the live watches have
    distinct descriptors and distinct paths; and neither array is filled past
    what was allocated for it. *)
Theorem inotify_stream {W} (provider : @hl_linux_inotify_provider_ops W) (alloc : W -> bool * W)
    (Hnames : forall c n w s events w', p_drain provider c n w = (s, events, w') -> names_fit events)
    context flags calls w o w' out :
  run_calls provider alloc calls (fresh_object context flags, w, []) = Some (o, w', out) ->
  exists sent evs, out = queue_bytes sent /\ queue o = queue_bytes evs /\
    Forall (fun e => e_wd e = -1 \/ 0 < e_wd e < next_wd o) (sent ++ evs) /\ ignored_last (sent ++ evs) /\
    NoDup (map wd (watches o)) /\ NoDup (map path (watches o)) /\
    queue_size o <= queue_capacity o /\ watch_count o <= watch_capacity o.
Proof.
  intros Hrun. apply (run_calls_ok provider alloc Hnames) in Hrun as (sent & evs & Hout & Hp); [|apply fresh_object_ok].
  exists sent, evs. destruct Hp as [Hq _ [_ _ Hd Hpa Hr] [Hw _ Hl] Hroom]. tauto.
Qed.

(** C16: whatever calls have been made on a new inotify object, whose provider
    reports names below 2^31 bytes, a nonblocking read returns; and a read that
    returns - any size, blocking or not - takes in what the provider had to say
    behind what was queued, and then either fails, handing out nothing and
    losing nothing, or hands out the longest run of whole queued records that
    fits the guest's buffer, at least one, answers their size, and leaves
    exactly the records after them. *)
Theorem read_whole_records {W} (provider : @hl_linux_inotify_provider_ops W) (alloc : W -> bool * W)
    (Hnames : forall c n w s events w', p_drain provider c n w = (s, events, w') -> names_fit events)
    context flags calls w0 o w out size :
  run_calls provider alloc calls (fresh_object context flags, w0, []) = Some (o, w, out) ->
  (nonblocking o = true -> inotify_read provider alloc 0 size o w <> None) /\
  exists evs, queue o = queue_bytes evs /\
  forall fuel r bytes o' w', inotify_read provider alloc fuel size o w = Some (r, bytes, o', w') ->
  exists more, let l := evs ++ more in let got := whole_events size l in
    (r < 0 /\ bytes = [] /\ queue o' = queue_bytes l) \/
    (0 < r /\ r = lengthZ bytes /\ bytes = queue_bytes got /\ queue o' = queue_bytes (drop (length got) l)).
Proof.
  intros Hrun. apply (run_calls_ok provider alloc Hnames) in Hrun as (sent & evs & _ & Hp); [|apply fresh_object_ok].
  split; [by eapply read_returns|]. exists evs. split; [by destruct Hp|]. intros fuel r bytes o' w' Hr.
  destruct (read_pending provider alloc Hnames fuel size sent evs o w r bytes o' w' Hp Hr)
    as (more & [(H1 & H2 & Hp' & _)|(H1 & H2 & H3 & Hp' & _)]); exists more; [left|right];
    pose proof (pe_queue _ _ _ Hp'); tauto.
Qed.

(** ** Bytes of the image *)

Lemma le_bytes_mod n x : le_bytes n (x mod 256 ^ Z.of_nat n) = le_bytes n x.
Proof.
  rewrite <- le_val_le_bytes. rewrite <- (length_le_bytes n x) at 1. apply le_bytes_le_val, le_bytes_are_bytes.
Qed.

Lemma le_bytes_s32 x : le_bytes 4 (s32 x) = le_bytes 4 x.
Proof.
  rewrite <- (le_bytes_mod 4 (s32 x)), <- (le_bytes_mod 4 x). f_equal. change (256 ^ Z.of_nat 4) with (2 ^ 32).
  unfold s32, u32. destruct (x mod 2 ^ 32 <? 2 ^ 31); [by apply Zmod_mod|].
  rewrite Zminus_mod, Z_mod_same_full, Z.sub_0_r, !Zmod_mod. done.
Qed.

Lemma s32_small x : 0 <= x < 2 ^ 31 -> s32 x = x.
Proof. intros Hx. unfold s32. rewrite u32_small by lia. destruct (Z.ltb_spec x (2 ^ 31)); lia. Qed.

Lemma field_bytes n k b :
  Forall is_byte b -> (n + k <= length b)%nat -> le_bytes n (field n k b) = take n (drop k b).
Proof.
  intros Hb Hl. unfold field.
  assert (Hn : length (take n (drop k b)) = n) by (rewrite length_take, length_drop; lia).
  rewrite <- Hn at 1. apply le_bytes_le_val. by apply Forall_take, Forall_drop.
Qed.

Lemma field_app pre n v rest k :
  k = length pre -> field n k (pre ++ le_bytes n v ++ rest) = v mod 256 ^ Z.of_nat n.
Proof.
  intros ->. unfold field. rewrite drop_app_length. rewrite <- (length_le_bytes n v) at 1.
  rewrite take_app_length. apply le_val_le_bytes.
Qed.

Lemma field_head n v rest : field n 0 (le_bytes n v ++ rest) = v mod 256 ^ Z.of_nat n.
Proof. by apply (field_app []). Qed.

Lemma saved_bytes_of b : Forall is_byte b -> (24 <= length b)%nat -> saved_bytes (saved_of b) = take 24 b.
Proof.
  intros Hb Hl. unfold saved_bytes, saved_of. cbn [s_wd s_mask s_token s_path_size]. rewrite le_bytes_s32.
  rewrite !field_bytes by (done || lia). change 24%nat with (4 + (4 + (8 + 8)))%nat.
  by rewrite <- !take_take_drop, !drop_drop.
Qed.

Lemma header_bytes_of b : Forall is_byte b -> (32 <= length b)%nat -> header_bytes (header_of b) = take 32 b.
Proof.
  intros Hb Hl. unfold header_bytes, header_of.
  cbn [h_magic h_version h_watch_count h_next_wd h_nonblocking h_queue_size]. rewrite le_bytes_s32.
  rewrite !field_bytes by (done || lia). change 32%nat with (8 + (4 + (4 + (4 + (4 + 8)))))%nat.
  by rewrite <- !take_take_drop, !drop_drop.
Qed.

(** ** The framing loop *)

Lemma field_byte_range n k b : Forall is_byte b -> 0 <= field n k b < 256 ^ Z.of_nat n.
Proof.
  intros Hb. unfold field. pose proof (le_val_range (take n (drop k b)) ltac:(by apply Forall_take, Forall_drop)) as Hr.
  assert (Hp : 256 ^ Z.of_nat (length (take n (drop k b))) <= 256 ^ Z.of_nat n)
    by (apply Z.pow_le_mono_r; [lia|rewrite length_take; lia]). lia.
Qed.

Lemma lengthZ_take {A} (l : list A) n : 0 <= n <= lengthZ l -> lengthZ (take (Z.to_nat n) l) = n.
Proof. unfold lengthZ. intros Hn. rewrite length_take. lia. Qed.

Lemma tiles_sound fuel : forall q,
  tiles fuel q = true -> Forall is_byte q -> exists evs, q = queue_bytes evs /\ Forall event_framed evs.
Proof.
  induction fuel as [|fuel IH]; intros q; cbn [tiles]; [done|].
  destruct (Z.eqb_spec (lengthZ q) 0) as [E|_].
  { intros _ _. exists []. by destruct q. }
  destruct (Z.ltb_spec (lengthZ q) 16) as [|H16]; [done|]. cbv zeta. set (n := field 4 12 q).
  destruct (Z.ltb_spec (lengthZ q - 16) n) as [|Hn]; [done|]. intros Ht Hb.
  pose proof (field_byte_range 4 12 q Hb) as Hr. fold n in Hr. change (256 ^ Z.of_nat 4) with (2 ^ 32) in Hr.
  destruct (IH (drop (Z.to_nat (16 + n)) q)) as (evs & Hq & Hfit); [done|by apply Forall_drop|].
  set (e := mk_event (field 4 0 q) (field 4 4 q) (field 4 8 q) (take (Z.to_nat n) (drop 16 q))).
  assert (Hl : lengthZ (e_payload e) = n).
  { apply lengthZ_take. unfold lengthZ in *. rewrite length_drop. lia. }
  exists (e :: evs). split; [|constructor; [unfold event_framed; lia|done]].
  rewrite queue_bytes_cons, <- Hq. unfold event_bytes. rewrite Hl. subst e. cbn [e_wd e_mask e_cookie e_payload].
  subst n. unfold lengthZ in *. rewrite !field_bytes by (done || lia). set (n := field 4 12 q) in *.
  replace (Z.to_nat (16 + n)) with (4 + (4 + (4 + (4 + Z.to_nat n))))%nat by lia.
  rewrite !app_assoc, <- !app_assoc. rewrite <- (take_drop (4 + (4 + (4 + (4 + Z.to_nat n)))) q) at 1.
  by rewrite <- !take_take_drop, !drop_drop, <- !app_assoc.
Qed.

Lemma tiles_complete l : forall fuel,
  Forall event_framed l -> (length l < fuel)%nat -> tiles fuel (queue_bytes l) = true.
Proof.
  induction l as [|e l IH]; intros [|fuel] Hl Hf; simpl length in Hf; try lia; cbn [tiles]; [done|].
  apply Forall_cons_1 in Hl as [He Hl].
  pose proof (length_field [] e (queue_bytes l) He) as Hn. rewrite !app_nil_l in Hn.
  change (Z.to_nat (lengthZ [] + 12)) with 12%nat in Hn. fold (field 4 12 (event_bytes e ++ queue_bytes l)) in Hn.
  rewrite queue_bytes_cons, Hn, lengthZ_app, lengthZ_event_bytes. fold (event_size e).
  pose proof (event_size_min e). pose proof (lengthZ_nonneg (queue_bytes l)). unfold event_size in *.
  destruct (Z.eqb_spec (16 + lengthZ (e_payload e) + lengthZ (queue_bytes l)) 0); [lia|].
  destruct (Z.ltb_spec (16 + lengthZ (e_payload e) + lengthZ (queue_bytes l)) 16); [lia|].
  destruct (Z.ltb_spec (16 + lengthZ (e_payload e) + lengthZ (queue_bytes l) - 16) (lengthZ (e_payload e))); [lia|].
  replace (Z.to_nat (16 + lengthZ (e_payload e))) with (length (event_bytes e))
    by (pose proof (lengthZ_event_bytes e) as Hs; unfold event_size, lengthZ in *; lia).
  rewrite drop_app_length. apply IH; [done|lia].
Qed.

(** ** Restoring the watches *)

Section Image.
Context {W : Type} (provider : @hl_linux_inotify_provider_ops W) (alloc : W -> bool * W).

Definition restored_watch (x : inotify_watch) : Prop := 0 < wd x /\ path x <> [].

Lemma import_watches_sound n : forall cursor s o w rest s' o' w',
  import_watches provider alloc n cursor s o w = (Some rest, s', o', w') -> Forall is_byte cursor ->
  exists l, length l = n /\ watches o' = watches o ++ l /\ cursor = concat (map watch_image l) ++ rest /\
    Forall restored_watch l /\ o' = set_watches (watches o ++ l) (watch_capacity o) o.
Proof.
  induction n as [|n IH]; intros cursor s o w rest s' o' w'; cbn [import_watches].
  { intros [= <- <- <- <-] _. exists []. rewrite app_nil_r. by destruct o. }
  destruct (Z.ltb_spec (lengthZ cursor) sizeof_image_watch) as [|H24]; [done|]. unfold sizeof_image_watch in H24.
  cbv zeta. set (x := saved_of cursor). set (tail := drop 24 cursor).
  destruct (_ || (UINT64_MAX - 1 <? s_path_size x)) eqn:Hbad; [done|]. bool_props.
  destruct (alloc w) as [[|] w1]; [|done]. cbn [negb path token mask].
  destruct (p_add provider _ _ _ _ w1) as [s1 w2]. destruct (is_ok s1); [|done]. intros Hgo Hb.
  assert (Hbt : Forall is_byte tail) by (by apply Forall_drop).
  assert (Hps : 0 <= s_path_size x) by (pose proof (field_byte_range 8 16 cursor Hb); subst x; cbn; lia).
  apply IH in Hgo as (l & Hl & Hw & Hc & Hall & Ho); [|by apply Forall_drop]. cbn [watches set_watches watch_capacity] in *.
  set (y := mk_inotify_watch _ _ _ _) in *.
  assert (Hlen : lengthZ (path y) = s_path_size x) by (apply lengthZ_take; lia).
  exists (y :: l). simpl length. rewrite Hl. split; [done|]. rewrite <- app_assoc in Hw, Ho. split; [done|].
  split; [|split; [|done]].
  - cbn [map concat]. unfold watch_image at 1. rewrite Hlen. subst y. cbn [wd mask token path].
    replace (mk_saved _ _ _ _) with x by (by destruct x). subst x.
    rewrite saved_bytes_of by (done || (unfold lengthZ in *; lia)).
    rewrite <- !app_assoc, <- Hc, take_drop. symmetry. apply take_drop.
  - constructor; [|done]. split; [assumption|]. intros Hnil. rewrite Hnil in Hlen. change (lengthZ []) with 0 in Hlen. lia.
Qed.

Lemma import_queue_sound h cursor s o w o' w' :
  import_queue alloc h cursor s o w = (None, o', w') -> Forall is_byte cursor -> queue o = [] ->
  h_queue_size h = lengthZ cursor /\ (exists capacity, o' = set_queue cursor capacity o) /\
  exists evs, cursor = queue_bytes evs /\ Forall event_framed evs.
Proof.
  unfold import_queue. intros Hi Hb Hq.
  destruct (Z.eqb_spec (h_queue_size h) (lengthZ cursor)) as [E|]; [|done]. cbn [negb] in Hi. split; [done|].
  destruct (Z.eqb_spec (h_queue_size h) 0) as [Hz|Hz]; cbn [negb] in Hi.
  { injection Hi as <- <-. destruct cursor; [|exfalso; rewrite Hz, lengthZ_cons in E; pose proof (lengthZ_nonneg cursor); lia].
    split; [exists (queue_capacity o); destruct o; cbn in *; by rewrite Hq|]. exists []. done. }
  destruct (alloc w) as [[|] w1]; [|done]. cbn [negb] in Hi.
  destruct (tiles (S (length cursor)) cursor) eqn:Ht; [|done]. injection Hi as <- <-.
  split; [by eexists|]. by eapply tiles_sound.
Qed.

Lemma fail_provider_none closable s context (w : W) r o w' :
  fail_provider provider closable s context w = (r, Some o, w') -> False.
Proof. unfold fail_provider. destruct (_ && _); [destruct (p_close provider context w)|]; done. Qed.

Lemma header_refused_false h rest :
  header_refused h rest = false ->
  h_magic h = INOTIFY_IMAGE_MAGIC /\ h_version h = INOTIFY_IMAGE_VERSION /\ 0 < h_next_wd h /\
  h_queue_size h <= rest /\ h_watch_count h <= 1048576.
Proof. unfold header_refused. intros H. bool_props. tauto. Qed.

Lemma import_sound complete closable mutex_ok requested install_at context flags image w r o w' :
  hl_linux_inotify_import_at provider alloc complete closable mutex_ok requested install_at context flags image w =
    (r, Some o, w') -> Forall is_byte image ->
  r = requested /\ 0 < next_wd o /\ nonblocking o = has_flag flags HL_LINUX_O_NONBLOCK /\
  watch_capacity o = watch_count o /\ watch_count o <= 1048576 /\ Forall restored_watch (watches o) /\
  (exists evs, queue o = queue_bytes evs /\ Forall event_framed evs) /\
  exists word, image = header_bytes (mk_header INOTIFY_IMAGE_MAGIC INOTIFY_IMAGE_VERSION (watch_count o) (next_wd o)
      word (queue_size o)) ++ concat (map watch_image (watches o)) ++ queue o.
Proof.
  unfold hl_linux_inotify_import_at, fail_object. intros Hi Hb.
  destruct (negb complete || _) eqn:Hsz; [by apply fail_provider_none in Hi|].
  apply orb_false_elim in Hsz as [_ Hsz%Z.ltb_ge]. unfold sizeof_image_header in Hsz. cbv zeta in Hi.
  set (h := header_of image) in *. set (cursor := drop 32 image) in *.
  destruct (header_refused h (lengthZ cursor)) eqn:Hh; [by apply fail_provider_none in Hi|].
  apply header_refused_false in Hh as (Hmagic & Hversion & Hnext & _ & Hcount).
  destruct (alloc w) as [ok w1]. destruct (negb ok || negb mutex_ok); [by apply fail_provider_none in Hi|].
  destruct (if negb (h_watch_count h =? 0) then alloc w1 else (true, w1)) as [ok2 w2].
  destruct ok2; cbn [negb] in Hi; [|by apply fail_provider_none in Hi].
  match type of Hi with context [import_watches _ _ _ _ _ ?x _] => set (o0 := x) in * end.
  destruct (import_watches _ _ _ _ _ o0 w2) as [[[restored s1] o1] w3] eqn:Hw.
  destruct restored as [rest|]; [|by apply fail_provider_none in Hi].
  assert (Hbc : Forall is_byte cursor) by (by apply Forall_drop).
  destruct (import_watches_sound _ _ _ _ _ _ _ _ _ Hw Hbc) as (l & Hlen & _ & Hcur & Hall & Ho1).
  destruct (import_queue alloc h rest s1 o1 w3) as [[failed o2] w4] eqn:Hq.
  destruct failed as [s2|]; [by apply fail_provider_none in Hi|].
  assert (Hbr : Forall is_byte rest) by (rewrite Hcur in Hbc; by apply Forall_app in Hbc as [_ ?]).
  destruct (import_queue_sound _ _ _ _ _ _ _ Hq Hbr) as (Hqs & (cap & Ho2) & Hfr); [by rewrite Ho1|].
  destruct (install_at w4) as [s5 w5]. destruct (is_ok s5); [|by apply fail_provider_none in Hi].
  injection Hi as <- <- <-. subst o2 o1. cbn [watches set_watches set_queue watch_count queue] in *.
  assert (Hc0 : 0 <= h_watch_count h) by (apply (field_byte_range 4 12 image Hb)).
  assert (Hcl : lengthZ l = h_watch_count h) by (unfold lengthZ; lia).
  subst o0. unfold watch_count, queue_size.
  cbn [watches set_watches set_queue queue next_wd nonblocking watch_capacity app]. split; [done|]. split; [done|]. split; [done|]. split; [done|]. split; [lia|]. split; [done|].
  split; [done|]. exists (h_nonblocking h).
  rewrite <- Hcur, Hcl, <- Hqs, <- Hmagic, <- Hversion.
  replace (mk_header _ _ _ _ _ _) with h by (by destruct h). subst h.
  rewrite header_bytes_of by (done || (unfold lengthZ in *; lia)). symmetry. apply take_drop.
Qed.

(** An import that installs nothing answers no descriptor. *)
Lemma fail_provider_nonpos closable s context (w : W) r o w' :
  fail_provider provider closable s context w = (r, o, w') -> r <= 0.
Proof.
  unfold fail_provider. pose proof (inotify_error_nonpos s). destruct (_ && _); [destruct (p_close provider context w)|];
    by intros [= <- _ _].
Qed.

Lemma import_refused complete closable mutex_ok requested install_at context flags image w r w' :
  hl_linux_inotify_import_at provider alloc complete closable mutex_ok requested install_at context flags image w =
    (r, None, w') -> r <= 0.
Proof.
  unfold hl_linux_inotify_import_at, fail_object. cbv zeta.
  repeat case_match_goal; intros Hi; try (by apply fail_provider_nonpos in Hi); done.
Qed.

(** *** An export comes back *)

(** What an object must be for its image to be restorable. *)
Definition savable (x : inotify_watch) : Prop :=
  0 < wd x < 2 ^ 31 /\ 0 <= mask x < 2 ^ 32 /\ 0 <= token x < 2 ^ 64 /\ path x <> [].

Record exportable (o : inotify_object) : Prop := {
  xp_watches : Forall savable (watches o);
  xp_count : watch_count o <= 1048576;
  xp_next : 0 < next_wd o < 2 ^ 31;
  xp_queue : exists evs, queue o = queue_bytes evs /\ Forall event_framed evs
}.

Lemma saved_of_bytes s rest :
  0 <= s_wd s < 2 ^ 31 -> 0 <= s_mask s < 2 ^ 32 -> 0 <= s_token s < 2 ^ 64 -> 0 <= s_path_size s < 2 ^ 64 ->
  saved_of (saved_bytes s ++ rest) = s.
Proof.
  intros Hw Hm Ht Hp. unfold saved_of, saved_bytes. destruct s as [d m t n]. cbn [s_wd s_mask s_token s_path_size] in *.
  f_equal.
  - rewrite <- !app_assoc, field_head. rewrite Z.mod_small by (change (256 ^ Z.of_nat 4) with (2 ^ 32); lia).
    by apply s32_small.
  - rewrite <- !app_assoc, (field_app (le_bytes 4 d) 4 m) by done. by apply Z.mod_small.
  - rewrite <- !app_assoc, (app_assoc (le_bytes 4 d)), (field_app (le_bytes 4 d ++ le_bytes 4 m) 8 t) by done.
    by apply Z.mod_small.
  - rewrite <- !app_assoc, (app_assoc (le_bytes 4 d)), (app_assoc (_ ++ _) (le_bytes 8 t)),
      (field_app ((le_bytes 4 d ++ le_bytes 4 m) ++ le_bytes 8 t) 8 n) by done.
    by apply Z.mod_small.
Qed.

Context (Hadd : forall c p t m w, exists w', p_add provider c p t m w = (HL_STATUS_OK, w')).
Context (Halloc : forall w, exists w', alloc w = (true, w')).

Lemma import_watches_complete l : forall rest s o w,
  Forall savable l -> Forall (fun x => lengthZ (path x) < UINT64_MAX) l ->
  exists s' w', import_watches provider alloc (length l) (concat (map watch_image l) ++ rest) s o w =
    (Some rest, s', set_watches (watches o ++ l) (watch_capacity o) o, w').
Proof.
  induction l as [|x l IH]; intros rest s o w Hl Hs; cbn [length import_watches].
  { exists s, w. cbn. rewrite app_nil_r. by destruct o. }
  apply Forall_cons_1 in Hl as [(Hd & Hm & Ht & Hp) Hl]. apply Forall_cons_1 in Hs as [Hx Hs].
  set (sv := mk_saved (wd x) (mask x) (token x) (lengthZ (path x))).
  set (tail := path x ++ concat (map watch_image l) ++ rest).
  assert (Hc : concat (map watch_image (x :: l)) ++ rest = saved_bytes sv ++ tail)
    by (cbn [map concat]; unfold watch_image at 1; by rewrite <- !app_assoc).
  rewrite Hc. clear Hc.
  assert (Hlen : lengthZ (saved_bytes sv) = 24) by done.
  pose proof (lengthZ_nonneg tail). pose proof (lengthZ_nonneg (path x)) as Hpn.
  rewrite lengthZ_app, Hlen. unfold sizeof_image_watch. destruct (Z.ltb_spec (24 + lengthZ tail) 24); [lia|].
  assert (Hsv : saved_of (saved_bytes sv ++ tail) = sv).
  { apply saved_of_bytes; cbn; unfold UINT64_MAX in *; lia. }
  assert (Hdrop : drop 24 (saved_bytes sv ++ tail) = tail) by exact (drop_app_length (saved_bytes sv) tail).
  cbv zeta. rewrite Hdrop, Hsv. subst sv. cbn [s_wd s_mask s_token s_path_size].
  assert (Hpz : lengthZ (path x) <> 0) by (by destruct (path x)).
  assert (Htl : lengthZ (path x) <= lengthZ tail)
    by (unfold tail; rewrite lengthZ_app; pose proof (lengthZ_nonneg (concat (map watch_image l) ++ rest)); lia).
  destruct (Z.leb_spec (wd x) 0), (Z.eqb_spec (lengthZ (path x)) 0), (Z.ltb_spec (lengthZ tail) (lengthZ (path x))),
    (Z.ltb_spec (UINT64_MAX - 1) (lengthZ (path x))); try lia. cbn [orb].
  destruct (Halloc w) as (w1 & ->). cbn [negb path token mask].
  assert (Htake : take (Z.to_nat (lengthZ (path x))) tail = path x /\
    drop (Z.to_nat (lengthZ (path x))) tail = concat (map watch_image l) ++ rest).
  { unfold tail, lengthZ. by rewrite Nat2Z.id, take_app_length, drop_app_length. }
  destruct Htake as [-> ->]. destruct (Hadd (provider_context o) (path x) (token x) (mask x) w1) as (w2 & ->).
  cbn [is_ok]. replace (mk_inotify_watch (wd x) (mask x) (token x) (path x)) with x by (by destruct x).
  destruct (IH rest HL_STATUS_OK (set_watches (watches o ++ [x]) (watch_capacity o) o) w2 Hl Hs) as (s' & w' & ->).
  exists s', w'. cbn [watches set_watches watch_capacity]. by rewrite <- app_assoc.
Qed.

Lemma header_of_bytes h rest :
  h_magic h = INOTIFY_IMAGE_MAGIC -> h_version h = INOTIFY_IMAGE_VERSION -> 0 <= h_watch_count h < 2 ^ 32 ->
  0 <= h_next_wd h < 2 ^ 31 -> 0 <= h_nonblocking h < 2 ^ 32 -> 0 <= h_queue_size h < 2 ^ 64 ->
  header_of (header_bytes h ++ rest) = h.
Proof.
  destruct h as [g v c n b q]. cbn [h_magic h_version h_watch_count h_next_wd h_nonblocking h_queue_size].
  intros -> -> Hc Hn Hb Hq. unfold header_of, header_bytes.
  cbn [h_magic h_version h_watch_count h_next_wd h_nonblocking h_queue_size]. rewrite <- !app_assoc.
  set (a := le_bytes 8 INOTIFY_IMAGE_MAGIC). set (a1 := a ++ le_bytes 4 INOTIFY_IMAGE_VERSION).
  set (a2 := a1 ++ le_bytes 4 c). set (a3 := a2 ++ le_bytes 4 n). set (a4 := a3 ++ le_bytes 4 b).
  f_equal.
  - rewrite (app_assoc a). fold a1. rewrite (field_app a1 4) by done. by apply Z.mod_small.
  - rewrite (app_assoc a). fold a1. rewrite (app_assoc a1). fold a2. rewrite (field_app a2 4) by done.
    rewrite Z.mod_small by (change (256 ^ Z.of_nat 4) with (2 ^ 32); lia). by apply s32_small.
  - rewrite (app_assoc a). fold a1. rewrite (app_assoc a1). fold a2. rewrite (app_assoc a2). fold a3.
    rewrite (field_app a3 4) by done. by apply Z.mod_small.
  - rewrite (app_assoc a). fold a1. rewrite (app_assoc a1). fold a2. rewrite (app_assoc a2). fold a3.
    rewrite (app_assoc a3). fold a4. rewrite (field_app a4 8) by done. by apply Z.mod_small.
Qed.

Lemma export_needed_exact l : forall needed total,
  export_needed l needed = Some total ->
  total = needed + lengthZ (concat (map watch_image l)) /\ Forall (fun x => lengthZ (path x) < UINT64_MAX) l.
Proof.
  induction l as [|x l IH]; intros needed total; cbn [export_needed map concat].
  { intros [= <-]. split; [by rewrite Z.add_0_r|constructor]. }
  destruct (_ || _) eqn:Hbad; [done|]. intros Hr. apply IH in Hr as [-> Hl]. apply orb_false_elim in Hbad as [Hx%Z.ltb_ge _].
  assert (Hlen : lengthZ (watch_image x) = sizeof_image_watch + lengthZ (path x)).
  { unfold watch_image. rewrite lengthZ_app. done. }
  rewrite lengthZ_app, Hlen. unfold sizeof_image_watch in *. split; [lia|constructor; [lia|done]].
Qed.

Lemma import_queue_complete h cursor l s o w :
  cursor = queue_bytes l -> Forall event_framed l -> h_queue_size h = lengthZ cursor -> queue o = [] ->
  queue_capacity o = 0 ->
  exists w', import_queue alloc h cursor s o w = (None, set_queue cursor (lengthZ cursor) o, w').
Proof.
  intros -> Hl Hs Hq Hc. unfold import_queue. rewrite Hs, Z.eqb_refl. cbn [negb].
  destruct (Z.eqb_spec (lengthZ (queue_bytes l)) 0) as [E|E]; cbn [negb].
  { exists w. pose proof (queue_bytes_nil l E) as ->. destruct o. cbn in *. by subst. }
  destruct (Halloc w) as (w1 & ->). cbn [negb].
  rewrite tiles_complete; [by exists w1|done|]. pose proof (queue_bytes_count l). unfold lengthZ in *. lia.
Qed.

(** What an import makes of the image of [o]. *)
Definition restored (context flags : Z) (o : inotify_object) : inotify_object :=
  mk_inotify 0 context (watches o) (watch_count o) (queue o) (queue_size o) (next_wd o)
    (has_flag flags HL_LINUX_O_NONBLOCK).

Lemma import_complete o fd install context flags w :
  exportable o -> Forall (fun x => lengthZ (path x) < UINT64_MAX) (watches o) -> queue_size o <= UINT64_MAX ->
  (forall w, exists w', install w = (HL_STATUS_OK, w')) ->
  exists w', hl_linux_inotify_import_at provider alloc true true true fd install context flags (image_of o) w =
    (fd, Some (restored context flags o), w').
Proof.
  intros [Hws Hcount Hnext (l & Hq & Hl)] Hpaths Hqs Hinstall. unfold hl_linux_inotify_import_at, image_of.
  set (nb := if nonblocking o then 1 else 0). assert (Hnb : 0 <= nb < 2 ^ 32) by (unfold nb; destruct (nonblocking o); lia).
  clearbody nb. pose proof (lengthZ_nonneg (watches o)). pose proof (lengthZ_nonneg (queue o)).
  set (h := mk_header _ _ _ _ _ _). set (cursor := concat (map watch_image (watches o)) ++ queue o).
  assert (Hh : header_of (header_bytes h ++ cursor) = h).
  { unfold watch_count, queue_size, UINT64_MAX in *. apply header_of_bytes; cbn; lia || done. }
  assert (Hdrop : drop 32 (header_bytes h ++ cursor) = cursor) by exact (drop_app_length (header_bytes h) cursor).
  assert (Hlen : lengthZ (header_bytes h) = 32) by done.
  rewrite lengthZ_app, Hlen, Hh, Hdrop. unfold sizeof_image_header. pose proof (lengthZ_nonneg cursor).
  destruct (Z.ltb_spec (32 + lengthZ cursor) 32); [lia|]. cbn [negb orb]. cbv zeta.
  assert (Href : header_refused h (lengthZ cursor) = false).
  { unfold header_refused. subst h cursor. cbn [h_magic h_version h_next_wd h_queue_size h_watch_count].
    rewrite !Z.eqb_refl, lengthZ_app. pose proof (lengthZ_nonneg (concat (map watch_image (watches o)))).
    unfold queue_size. destruct (Z.leb_spec (next_wd o) 0); [lia|].
    destruct (Z.ltb_spec (lengthZ (concat (map watch_image (watches o))) + lengthZ (queue o)) (lengthZ (queue o))); [lia|].
    by destruct (Z.ltb_spec 1048576 (watch_count o)); [lia|]. }
  rewrite Href. destruct (Halloc w) as (w1 & ->). cbn [negb orb].
  destruct (if negb (h_watch_count h =? 0) then alloc w1 else (true, w1)) as [ok w2] eqn:Ha.
  assert (Hok : ok = true) by (destruct (Halloc w1) as (w1' & E); rewrite E in Ha; by destruct (negb _); injection Ha).
  rewrite Hok. cbn [negb]. subst h cursor. cbn [h_watch_count h_next_wd].
  replace (Z.to_nat (watch_count o)) with (length (watches o)) by (unfold watch_count, lengthZ; lia).
  match goal with |- context [import_watches _ _ _ _ _ ?x _] => set (o0 := x) end.
  destruct (import_watches_complete (watches o) (queue o) HL_STATUS_INVALID_ARGUMENT o0 w2 Hws Hpaths) as (s3 & w3 & ->).
  cbv beta iota. match goal with |- context [import_queue _ ?x _ _ ?y _] => set (h := x); set (o1 := y) end.
  destruct (import_queue_complete h (queue o) l s3 o1 w3) as (w4 & ->); try done.
  destruct (Hinstall w4) as (w5 & ->). by exists w5.
Qed.
End Image.

(** ** The checkpoint *)

(** C9: whatever the bytes - an image is untrusted, its digest is no
    signature - and whatever the provider and the host's memory answer: an
    import either installs no object and answers no descriptor - an error, or 0
    - or it answers the descriptor asked for and has installed an object of
    which the image is the encoding: its watches, in order, with positive
    descriptors and a path, no more than 1048576 of them and filling the array
    allocated for them, its next descriptor, and its queue, framed into whole
    records to the last byte. *)
Theorem accepted_image_exact {W} (provider : @hl_linux_inotify_provider_ops W) (alloc : W -> bool * W)
    complete closable mutex_ok requested install context flags image w r obj w' :
  Forall is_byte image ->
  hl_linux_inotify_import_at provider alloc complete closable mutex_ok requested install context flags image w =
    (r, obj, w') ->
  match obj with
  | None => r <= 0
  | Some o =>
      r = requested /\ nonblocking o = has_flag flags HL_LINUX_O_NONBLOCK /\ 0 < next_wd o /\
      watch_capacity o = watch_count o /\ watch_count o <= 1048576 /\ Forall restored_watch (watches o) /\
      (exists evs, queue o = queue_bytes evs /\ Forall event_framed evs) /\
      exists word, image = header_bytes (mk_header INOTIFY_IMAGE_MAGIC INOTIFY_IMAGE_VERSION (watch_count o) (next_wd o)
          word (queue_size o)) ++ concat (map watch_image (watches o)) ++ queue o
  end.
Proof.
  intros Hb Hi. destruct obj as [o|]; [pose proof (import_sound _ _ _ _ _ _ _ _ _ _ _ _ _ _ Hi Hb); tauto|].
  by eapply import_refused.
Qed.

Lemma pending_exportable sent evs o : pending sent evs o -> watch_count o <= 1048576 -> exportable o.
Proof.
  intros [Hq Hf [Hn He _ _ _] _ _] Hc. unfold INT32_MAX in Hn. split; [|done|lia|].
  - eapply Forall_impl; [|exact He]. intros x (Hd & Ht & Hm & Hp). unfold savable. rewrite Ht.
    split; [lia|]. split; [done|]. split; [lia|done].
  - exists evs. split; [done|]. apply Forall_app in Hf as [_ Hf]. eapply Forall_impl; [|exact Hf]. apply event_fits_framed.
Qed.

Lemma export_image {W} (provider : @hl_linux_inotify_provider_ops W) alloc pinned ours capacity o w s n image o' w' :
  hl_linux_inotify_export provider alloc pinned ours capacity o w = (s, Some n, Some image, o', w') ->
  s = HL_STATUS_OK /\ image = image_of o' /\ n = lengthZ image /\ queue_size o' <= UINT64_MAX /\
  Forall (fun x => lengthZ (path x) < UINT64_MAX) (watches o').
Proof.
  unfold hl_linux_inotify_export. destruct (is_ok pinned), ours; cbn [negb]; try done.
  destruct (inotify_pump provider alloc o w) as [[s1 o1] w1]. destruct (is_ok s1); cbn [negb]; [|done].
  destruct (export_needed (watches o1) sizeof_image_header) as [needed|] eqn:Hn; [|done].
  destruct (Z.ltb_spec (UINT64_MAX - needed) (queue_size o1)) as [|Hq]; [done|].
  destruct capacity as [capacity|]; [|done]. destruct (capacity <? needed + queue_size o1); [done|].
  intros [= <- <- <- <- <-]. apply export_needed_exact in Hn as [-> Hp]. unfold sizeof_image_header in *.
  split; [done|]. split; [done|]. pose proof (lengthZ_nonneg (concat (map watch_image (watches o1)))).
  unfold image_of. rewrite !lengthZ_app. change (lengthZ (header_bytes _)) with 32. unfold queue_size in *.
  split; [lia|]. split; [lia|done].
Qed.

(** The export has no bound on the number of watches, the import has one. *)
Lemma export_outgrows_import {W} (provider : @hl_linux_inotify_provider_ops W) alloc fd install context flags o w :
  1048576 < watch_count o < 2 ^ 32 -> 0 <= next_wd o < 2 ^ 31 -> queue_size o < 2 ^ 64 ->
  exists w', hl_linux_inotify_import_at provider alloc true true true fd install context flags (image_of o) w =
    (- HL_LINUX_EINVAL, None, w').
Proof.
  intros Hc Hn Hq. unfold hl_linux_inotify_import_at, image_of.
  set (cursor := concat (map watch_image (watches o)) ++ queue o).
  match goal with |- context [header_bytes ?x] => set (h := x) end.
  pose proof (lengthZ_nonneg (queue o)). unfold queue_size in Hq.
  assert (Hh : header_of (header_bytes h ++ cursor) = h)
    by (apply header_of_bytes; unfold h; cbn; unfold queue_size; destruct (nonblocking o); lia || done).
  assert (Hlen : lengthZ (header_bytes h) = 32) by done. pose proof (lengthZ_nonneg cursor).
  rewrite lengthZ_app, Hlen, Hh. unfold sizeof_image_header. destruct (Z.ltb_spec (32 + lengthZ cursor) 32); [lia|].
  assert (Href : forall n, header_refused h n = true).
  { intros n. unfold header_refused, h. cbn [h_watch_count]. destruct (Z.ltb_spec 1048576 (watch_count o)); [|lia].
    by rewrite orb_true_r. }
  cbn [negb orb]. cbv zeta. rewrite Href. unfold fail_provider.
  destruct (_ && _); [destruct (p_close provider context w)|]; by eexists.
Qed.

(** C8: what a checkpoint saved comes back, if its import takes that many
    watches: after any calls on a new inotify object, an export that succeeds
    answers the size of its image, and importing that image - on a host that
    has memory, with a provider that takes every watch and an object table
    that takes the object - makes an object with the same watches in the same
    order, the same unread bytes and the same next descriptor when the exported
    object has at most 1048576 watches, and is refused with EINVAL when it has
    more. *)
Theorem image_round_trip {W W'} (provider : @hl_linux_inotify_provider_ops W) (alloc : W -> bool * W)
    (provider' : @hl_linux_inotify_provider_ops W') (alloc' : W' -> bool * W') (install : W' -> hl_status * W')
    (Hnames : forall c n w s events w', p_drain provider c n w = (s, events, w') -> names_fit events)
    (Hadd : forall c p t m w, exists w', p_add provider' c p t m w = (HL_STATUS_OK, w'))
    (Halloc : forall w, exists w', alloc' w = (true, w'))
    (Hinstall : forall w, exists w', install w = (HL_STATUS_OK, w'))
    context flags calls w0 o w out capacity s n image o' w1 fd context' flags' w2 :
  run_calls provider alloc calls (fresh_object context flags, w0, []) = Some (o, w, out) ->
  hl_linux_inotify_export provider alloc HL_STATUS_OK true capacity o w = (s, Some n, Some image, o', w1) ->
  n = lengthZ image /\
  exists w3, hl_linux_inotify_import_at provider' alloc' true true true fd install context' flags' image w2 =
    if watch_count o' <=? 1048576 then (fd, Some (restored context' flags' o'), w3)
    else (- HL_LINUX_EINVAL, None, w3).
Proof.
  intros Hrun Hex. apply (run_calls_ok provider alloc Hnames) in Hrun as (sent & evs & _ & Hp); [|apply fresh_object_ok].
  destruct (export_pending provider alloc Hnames _ _ _ _ _ _ _ _ _ _ _ _ Hp Hex) as (more & Hp' & _).
  apply export_image in Hex as (_ & -> & Hn & Hq & Hpaths). split; [done|].
  destruct (Z.leb_spec (watch_count o') 1048576) as [Hc|Hc].
  { apply (import_complete provider' alloc' Hadd Halloc); try done. by eapply pending_exportable. }
  pose proof (pe_watches _ _ _ Hp') as Hok. pose proof (wo_next _ Hok). pose proof (wo_room _ Hok).
  unfold INT32_MAX, UINT64_MAX in *. by apply export_outgrows_import; lia.
Qed.

(** ** A host that reports what it is given *)

Definition demo_provider : @hl_linux_inotify_provider_ops (list (list hl_linux_inotify_provider_event)) :=
  mk_provider
    (fun _ _ _ _ w => (HL_STATUS_OK, w)) (fun _ _ _ w => (HL_STATUS_OK, w)) (fun _ _ w => (HL_STATUS_OK, w))
    (fun _ _ w => match w with
                  | [] => (HL_STATUS_WOULD_BLOCK, [], [])
                  | batch :: w => (HL_STATUS_OK, map (fun e => mk_provider_event (ev_token e) (ev_mask e) (ev_cookie e)
                      (take 255 (ev_name e))) batch, w)
                  end)
    (fun _ w => (HL_STATUS_OK, w)) (fun _ w => (mk_result HL_STATUS_OK 0 0, w)) (fun _ w => (0, w)) None None
    (fun _ w => (HL_STATUS_OK, 1, w)) (fun _ w => (HL_STATUS_OK, w)).

Definition demo_alloc (w : list (list hl_linux_inotify_provider_event)) := (true, w).
Definition demo_install (w : list (list hl_linux_inotify_provider_event)) := (HL_STATUS_OK, w).

Lemma demo_names c n w s events w' : p_drain demo_provider c n w = (s, events, w') -> names_fit events.
Proof.
  cbn. destruct w as [|batch w]; intros [= <- <- <-]; [constructor|].
  apply Forall_forall. intros e (e0 & <- & _)%in_map_iff. cbn [ev_name]. unfold lengthZ. rewrite length_take. lia.
Qed.

(** A directory watched for one event, a file watched for changes. *)
Definition demo_calls : list inotify_call :=
  [AddWatch HL_STATUS_OK true [100] (Z.lor HL_LINUX_IN_CREATE HL_LINUX_IN_ONESHOT);
   AddWatch HL_STATUS_OK true [102] HL_LINUX_IN_MODIFY; AddWatch HL_STATUS_OK true [102] HL_LINUX_IN_MASK_CREATE;
   ReadEvents 0 40; ReadEvents 0 8; RemoveWatch HL_STATUS_OK true 2; Poll HL_LINUX_READY_READ; ReadEvents 0 16].
Definition demo_world : list (list hl_linux_inotify_provider_event) :=
  [[mk_provider_event 1 HL_LINUX_IN_CREATE 0 [120]; mk_provider_event 1 HL_LINUX_IN_CREATE 0 [121];
    mk_provider_event 2 HL_LINUX_IN_MODIFY 0 []]].
Definition demo_object : inotify_object :=
  mk_inotify 16 1 [] 8 (queue_bytes [mk_event 2 HL_LINUX_IN_IGNORED 0 []]) 256 3 true.
Definition demo_read : list Z :=
  queue_bytes [mk_event 1 HL_LINUX_IN_CREATE 0 [120; 0; 0; 0]; mk_event 1 HL_LINUX_IN_IGNORED 0 [];
    mk_event 2 HL_LINUX_IN_MODIFY 0 []].

Lemma demo_runs :
  run_calls demo_provider demo_alloc demo_calls (fresh_object 1 HL_LINUX_O_NONBLOCK, demo_world, []) =
    Some (demo_object, [], demo_read).
Proof. vm_compute. reflexivity. Qed.

Lemma inotify_stream_witness :
  run_calls demo_provider demo_alloc demo_calls (fresh_object 1 HL_LINUX_O_NONBLOCK, demo_world, []) =
    Some (demo_object, [], demo_read) /\
  exists sent evs, demo_read = queue_bytes sent /\ queue demo_object = queue_bytes evs /\
    Forall (fun e => e_wd e = -1 \/ 0 < e_wd e < next_wd demo_object) (sent ++ evs) /\ ignored_last (sent ++ evs) /\
    NoDup (map wd (watches demo_object)) /\ NoDup (map path (watches demo_object)) /\
    queue_size demo_object <= queue_capacity demo_object /\ watch_count demo_object <= watch_capacity demo_object.
Proof.
  split; [exact demo_runs|].
  exact (inotify_stream demo_provider demo_alloc demo_names 1 HL_LINUX_O_NONBLOCK demo_calls demo_world demo_object []
    demo_read demo_runs).
Defined.

(** After two overflow records, a read with room for one. *)
Definition overflow_world : list (list hl_linux_inotify_provider_event) :=
  [[mk_provider_event 9 HL_LINUX_IN_Q_OVERFLOW 0 []]; [mk_provider_event 9 HL_LINUX_IN_Q_OVERFLOW 0 []]].
Definition overflow_bytes : list Z := [255; 255; 255; 255; 0; 64; 0; 0; 0; 0; 0; 0; 0; 0; 0; 0].
Definition overflow_reader : inotify_object := mk_inotify 2 1 [] 0 overflow_bytes 256 1 true.

Lemma overflow_runs :
  run_calls demo_provider demo_alloc [Poll HL_LINUX_READY_READ] (fresh_object 1 HL_LINUX_O_NONBLOCK, overflow_world, []) =
    Some (overflow_reader, [[mk_provider_event 9 HL_LINUX_IN_Q_OVERFLOW 0 []]], []).
Proof. vm_compute. reflexivity. Qed.

Lemma read_whole_records_witness :
  (inotify_read demo_provider demo_alloc 0 20 overflow_reader [[mk_provider_event 9 HL_LINUX_IN_Q_OVERFLOW 0 []]] <> None) /\
  exists evs, overflow_bytes = queue_bytes evs /\
  exists more, let l := evs ++ more in let got := whole_events 20 l in
    (16 < 0 /\ overflow_bytes = [] /\ overflow_bytes = queue_bytes l) \/
    (0 < 16 /\ 16 = lengthZ overflow_bytes /\ overflow_bytes = queue_bytes got /\
      overflow_bytes = queue_bytes (drop (length got) l)).
Proof.
  destruct (read_whole_records demo_provider demo_alloc demo_names 1 HL_LINUX_O_NONBLOCK [Poll HL_LINUX_READY_READ]
    overflow_world overflow_reader [[mk_provider_event 9 HL_LINUX_IN_Q_OVERFLOW 0 []]] [] 20 overflow_runs)
    as [Hret (evs & Hq & Hread)].
  split; [apply Hret; reflexivity|]. exists evs. split; [exact Hq|].
  refine (Hread 0%nat 16 _ (mk_inotify 6 1 [] 0 overflow_bytes 256 1 true) [] _).
  vm_compute. reflexivity.
Defined.

(** A watch on a path and one unread record. *)
Definition saved_object : inotify_object :=
  mk_inotify 0 1 [mk_inotify_watch 1 HL_LINUX_IN_MODIFY 1 [102]] 1
    (queue_bytes [mk_event 1 HL_LINUX_IN_MODIFY 0 []]) 16 2 false.

Lemma accepted_image_exact_witness :
  Forall is_byte (image_of saved_object) /\
  hl_linux_inotify_import_at demo_provider demo_alloc true true true 7 demo_install 1 0 (image_of saved_object) [] =
    (7, Some saved_object, []) /\
  7 = 7 /\ nonblocking saved_object = has_flag 0 HL_LINUX_O_NONBLOCK /\ 0 < next_wd saved_object /\
  watch_capacity saved_object = watch_count saved_object /\ watch_count saved_object <= 1048576 /\
  Forall restored_watch (watches saved_object) /\
  (exists evs, queue saved_object = queue_bytes evs /\ Forall event_framed evs) /\
  exists word, image_of saved_object =
    header_bytes (mk_header INOTIFY_IMAGE_MAGIC INOTIFY_IMAGE_VERSION (watch_count saved_object)
      (next_wd saved_object) word (queue_size saved_object)) ++
    concat (map watch_image (watches saved_object)) ++ queue saved_object.
Proof.
  assert (Hb : Forall is_byte (image_of saved_object)) by (vm_compute; repeat constructor; discriminate).
  assert (Hi : hl_linux_inotify_import_at demo_provider demo_alloc true true true 7 demo_install 1 0
    (image_of saved_object) [] = (7, Some saved_object, [])) by (vm_compute; reflexivity).
  split; [exact Hb|]. split; [exact Hi|].
  exact (accepted_image_exact demo_provider demo_alloc true true true 7 demo_install 1 0 _ [] 7 (Some saved_object) [] Hb Hi).
Defined.

(** Exported while a change is still with the provider. *)
Definition export_calls : list inotify_call :=
  [AddWatch HL_STATUS_OK true [100] HL_LINUX_IN_CREATE; AddWatch HL_STATUS_OK true [102] HL_LINUX_IN_MODIFY].
Definition exported_object : inotify_object :=
  mk_inotify 6 1 [mk_inotify_watch 1 HL_LINUX_IN_CREATE 1 [100]; mk_inotify_watch 2 HL_LINUX_IN_MODIFY 2 [102]] 8
    (queue_bytes [mk_event 1 HL_LINUX_IN_CREATE 0 [120; 0; 0; 0]; mk_event 1 HL_LINUX_IN_CREATE 0 [121; 0; 0; 0];
      mk_event 2 HL_LINUX_IN_MODIFY 0 []]) 256 3 true.

Lemma image_round_trip_witness :
  138 = lengthZ (image_of exported_object) /\
  exists w3, hl_linux_inotify_import_at demo_provider demo_alloc true true true 5 demo_install 3 0
    (image_of exported_object) [] = (5, Some (restored 3 0 exported_object), w3).
Proof.
  refine (image_round_trip demo_provider demo_alloc demo_provider demo_alloc demo_install demo_names _ _ _
    1 HL_LINUX_O_NONBLOCK export_calls demo_world _ _ [] (Some 4096) _ 138 _ exported_object [] 5 3 0 [] _ _).
  - intros c p t m w. by exists w.
  - intros w. by exists w.
  - intros w. by exists w.
  - vm_compute. reflexivity.
  - vm_compute. reflexivity.
Defined.

(** ** Where the code does not do what it means to *)

(** An image refused after a first watch was restored: the status variable
    still holds that watch's OK, so the call answers 0, not an error, and no
    object is installed. *)
Definition broken_image : list Z :=
  header_bytes (mk_header INOTIFY_IMAGE_MAGIC INOTIFY_IMAGE_VERSION 2 3 0 0) ++
  watch_image (mk_inotify_watch 1 HL_LINUX_IN_MODIFY 1 [102]) ++
  watch_image (mk_inotify_watch 0 HL_LINUX_IN_MODIFY 2 [103]).

Example rejected_image_is_success :
  hl_linux_inotify_import_at demo_provider demo_alloc true true true 7 demo_install 1 0 broken_image [] = (0, None, []).
Proof. vm_compute. reflexivity. Qed.

(** The saved counter is not compared with the saved descriptors: the next
    watch gets the descriptor of a restored one. *)
Definition clashing_image : list Z :=
  header_bytes (mk_header INOTIFY_IMAGE_MAGIC INOTIFY_IMAGE_VERSION 1 1 0 0) ++
  watch_image (mk_inotify_watch 1 HL_LINUX_IN_MODIFY 1 [102]).

Example restored_descriptor_clashes :
  match hl_linux_inotify_import_at demo_provider demo_alloc true true true 7 demo_install 1 0 clashing_image [] with
  | (_, Some o, w) =>
      let '(r, o', _) := hl_linux_inotify_add demo_provider demo_alloc HL_STATUS_OK true [103] HL_LINUX_IN_MODIFY o w in
      (r, map wd (watches o')) = (1, [1; 1])
  | _ => False
  end.
Proof. vm_compute. reflexivity. Qed.

(** The image's framing is checked in 64 bits, the reader's sum has 32: a
    record of 2^32 - 16 bytes of payload is accepted, and a read on the object
    never returns. *)
Definition endless_record (payload : list Z) : inotify_event := mk_event 1 HL_LINUX_IN_MODIFY 0 payload.

Lemma accepted_record_endless payload size o :
  lengthZ payload = 2 ^ 32 - 16 -> 16 <= size -> queue o = queue_bytes [endless_record payload] ->
  tiles (S (length (queue o))) (queue o) = true /\ take_records size o = None /\
  forall fuel, read_walk fuel (queue o) size 0 = None.
Proof.
  intros Hl Hs Hq. set (e := endless_record payload) in *.
  assert (He : event_framed e) by (unfold event_framed; cbn; lia).
  assert (Hlen : lengthZ (queue o) = 2 ^ 32).
  { rewrite Hq. unfold queue_bytes. cbn [map concat]. rewrite app_nil_r, lengthZ_event_bytes. unfold event_size. cbn. lia. }
  assert (Hwalk : forall fuel, read_walk fuel (queue o) size 0 = None).
  { apply read_walk_stuck; [lia|lia|]. rewrite Hq. unfold queue_bytes. cbn [map concat].
    pose proof (length_field [] e [] He) as Hf. rewrite app_nil_l in Hf. change (lengthZ [] + 12) with (0 + 12) in Hf.
    rewrite Hf. cbn [e e_payload endless_record]. by rewrite Hl. }
  split; [|split; [|done]].
  - rewrite Hq at 2. apply tiles_complete; [by constructor|]. unfold lengthZ in Hlen. simpl length. lia.
  - unfold take_records, queue_size. rewrite Hlen. destruct (Z.eqb_spec (2 ^ 32) 0); [lia|].
    destruct (Z.ltb_spec size 16); [lia|]. cbv zeta. cbn [queue mutation_begin set_epoch]. by rewrite Hwalk.
Qed.
